(* ===== verification/_CoqProject ===== *)
-Q . S2P
Prelude.v
GoBytes.v
Conc.v
SmuxFrame.v
SmuxSession.v
SmuxSafety.v
SmuxProps.v
SmuxData.v
ProxyTypes.v
WireChunk.v
Circuit.v
Reassembler.v
Chunker.v
UdpArq.v
GoNet.v
Ipam.v
Router.v
SecureConn.v
KeyExchange.v
GoHeap.v
PathGraph.v
RingBuffer.v
GoEncoding.v
GoNetParse.v
Acl.v
Join.v
GoPath.v
AuditLog.v
Auth.v
GoSort.v
PathSelect.v
DisjointPaths.v
CircuitMgr.v
Streaming.v
ExitNode.v
Relay.v
Dispatcher.v
ProxyChain.v
Totp.v
ConfigFile.v
ConfigApi.v
WebAuth.v
Transfer.v
MeshRouting.v
PeerManager.v
Reporting.v
MeshRelay.v
SubnetRoutes.v
PunchPlane.v
TunForward.v
TunSetup.v
