(* ===== verification/Prelude.v ===== *)
(** * MeshDesk: a verification development

    MeshDesk is a mesh network node written in Go. Two nodes connect over
    TCP or UDP, authenticate each other, encrypt the connection and multiplex
    streams over it. Over the mesh run onion-routed proxy circuits, a virtual
    network interface, file transfer and the exchange of latencies and
    metrics; a web interface with a second factor controls a node. This
    library models these parts as executable definitions and proves what
    makes them correct. The sources are under src/internal/.

    ** The parts of the program and their files

    Shared: Prelude.v (this file: results of fallible functions, lengths and
    slices, machine arithmetic, sums over maps, tactics), Conc.v (concurrent
    programs) and what is used of Go's standard library: GoBytes.v (bytes,
    byte order, [io.ReadFull]), GoNet.v and GoNetParse.v (net, net/netip),
    GoHeap.v (container/heap and the interface of a priority queue),
    GoSort.v (what sort.Slice promises), GoEncoding.v (base32, base64),
    GoPath.v (path/filepath).

    Connections, from the wire upwards:

    - UdpArq.v (Module Udp; mesh/udp_conn.go): the reliable stream over UDP
      used when two nodes reach each other through a NAT. [udpStreamConn] is
      the state; [Write], [Read], [handlePacket], [ackLocked],
      [retransmitLocked] and the timers are functions on it that return the
      datagrams they send. The clock, the events during a blocked [Write] and
      the choice of the moment a blocked [Read] wakes up are arguments.
    - KeyExchange.v (Module Kx; session/key_exchange.go, session/nonce.go,
      identity/identity.go, crypto/keys.go): the signed key exchange on a new
      connection. [ClientKeyExchange] and [ServerKeyExchange] are functions of
      the bytes received, the random bytes and the nonce cache.
    - SecureConn.v (Module Secure; crypto/secure_conn.go, crypto/aead.go): the
      encrypted connection built from the exchanged keys.
    - SmuxFrame.v, SmuxSession.v, SmuxSafety.v, SmuxProps.v, SmuxData.v
      (smux/): stream multiplexing over an encrypted connection. SmuxFrame.v
      (Module Smux) has the wire format and the configuration; SmuxSession.v
      (Module Session) the shared state of a session and every goroutine and
      call as a program of atomic steps, in the language of Conc.v;
      SmuxSafety.v (Module Safety) the invariant that all programs keep in a
      rely-guarantee argument; SmuxProps.v (Module SessionProps) what holds in
      every reachable state; SmuxData.v (Module DataPath) what single calls
      and the reader and writer do to the bytes.

    The proxy (proxy/), from the client to the target:

    - ProxyTypes.v, Chunker.v (Module Chunkers), Circuit.v (Module Circuit),
      WireChunk.v (Module Wire): an entry chunker cuts the data, [EncodeChunk]
      seals each chunk for the exit and [SerializeWireChunk] puts it on a
      stream. The chunkers implement the class [ChunkerSpec] of ProxyTypes.v.
      Circuit.v also has the key agreement and the control messages.
    - Dispatcher.v (dispatcher.go; the return path of exit.go): one proxy
      session of the entry, which spreads chunks over two paths, and the
      chunks the exit sends back.
    - Relay.v (relay.go): the middle hop, its table of circuits and its
      forwarding loop.
    - ExitNode.v (exit.go, security_events.go): circuit setup, the handling of
      a chunk, gaps and retransmission requests, teardown and cleanup, on top
      of Reassembler.v (Module Exit; exit_reassembler.go); Streaming.v is the
      theory of a reassembled stream whose length is not announced.
    - ProxyChain.v: the composition of dispatcher, relays and exit.
    - PathSelect.v (path_selector.go, relay_health.go, path_state.go,
      overlap.go), DisjointPaths.v (Module Matrix) and CircuitMgr.v (Module
      Manager; both circuit_manager.go): the choice of two paths, the matrix
      of latencies with its searches, and the life of circuits, whose
      operations are programs of Conc.v. DisjointPaths.v reuses the search of
      PathGraph.v.

    The mesh and its services:

    - Ipam.v (ipam/ipam.go), Router.v (Module TunRouter; tun/router.go) and
      Acl.v (mesh/acl.go): the addresses of the virtual network, the table
      from addresses to peers, and the rules that packets pass.
    - PathGraph.v (Module Paths; mesh/path_server.go): the latency graph of a
      shared node and the path of lowest latency, on the interface of GoHeap.v.
    - RingBuffer.v (Module Monitor; monitor/ringbuffer.go, store.go): the
      history of metrics; Reporting.v (monitor/metrics.go, reporter.go,
      aggregator.go): the messages a node sends to its collectors and what a
      collector does with them. Samples are in a heap, because the reporter
      shares them with its store.
    - MeshRouting.v (Module Routing; mesh/routing.go): peers and the routes of
      their prefixes. PeerManager.v (Module Peer; mesh/peer_manager.go): the
      event loop of one peer, [run_case] being one case of its [select]; dials
      and their results are lists in the state. MeshRelay.v (mesh/
      relay_protocol.go, relay_handler.go): a relay between two peers that
      cannot reach each other, whose handlers are programs of Conc.v over a
      heap of tunnels.
    - SubnetRoutes.v (Module Subnets; tun/route_manager.go): the networks that
      peers advertise, their gateways and the kernel routes. TunForward.v
      (Module Forward; mesh/tun_forwarder.go): the packets between the virtual
      interface and the streams of peers, with the test of their source and
      the access rules, and the second way in by PunchPlane.v (Module Punch;
      mesh/punch_dataplane.go), which sends raw datagrams over punched
      sockets. TunSetup.v (mesh/tun_integration.go): the choice of the virtual
      address and the setup of the interface, over Ipam.v, Router.v and
      SubnetRoutes.v; commands to the kernel are kept in the state.
    - ConfigFile.v (Module Config; config/config.go, validate.go): the
      configuration file, its defaults ([finish] is [Load] after decoding) and
      its validation.
    - Join.v (join/): tokens, the two-step admission of a new node and its
      client.
    - AuditLog.v (Module Audit) and Auth.v (auth/): the hash-chained log and
      the capability engine with the checkers built on it.
    - Transfer.v (transfer/protocol.go): sender and receiver of files. The
      protocol is written against the class [ReadWriter]; its laws ([Stream])
      are proved for a connection and for the reader that puts a header back.
    - Totp.v (web/totp*.go) and WebAuth.v (Module Web; web/server.go,
      handlers.go, handlers_2fa.go, stepup.go, alerts.go,
      two_factor_enforcement.go): the second factor with its encrypted store,
      and sessions, login, step-up, middlewares and routes of the web
      interface; [serve] is the dispatch of a request. The handlers that
      change the configuration of the running server stand on ConfigApi.v
      (web/config_tiers.go, config_reloader.go, handlers_config.go): which
      fields a JSON body names, which of them are read-only, masked or need a
      step-up, how a body is merged, saved and applied.

    ** How code is represented

    Integers are [Z], with the wrap-around of their width written where the
    code can reach it ([u16], [u32], [u64]); byte slices are [list byte]; maps
    are [gmap]. A function that returns an error returns a [result]. A
    structure is a record; a method is a function from the record to the
    record and its results, except in smux, the circuit manager and the mesh
    relay, where state is shared: there a call is a value of [Conc.prog], a
    tree of atomic actions. An action is one critical section, channel operation or
    connection call; it may have several outcomes (a Go [select]) or none, and
    then the goroutine is blocked. [Conc.reach] interleaves any number of
    programs in any order. The locks that code holds while it takes another
    one ([streamsMu] in [Close] and [abort], the [readMu] of a stream in
    [Read]) are fields of the state, set and cleared by actions of their own,
    so that the order in which locks are taken is visible. The other
    components keep one mutex over an operation, which is one step. A request
    of the web interface is one step at one instant, although its handler
    takes several locks in turn. The setup of a circuit on the exit gives the
    lock back while the target is dialled: what other handlers do to the node
    then is an argument of [HandleCircuitSetup].

    Cryptography, the clock, randomness, the network, the JSON codec, the
    failures of system calls and the order in which Go ranges over a map are
    arguments or section variables. What the code relies on is a hypothesis of
    the theorem that uses it (an AEAD opens what it sealed, Diffie-Hellman
    commutes, a message authentication code is not forged, a codec reads what
    it wrote) and each such theorem is applied to concrete functions in its
    witness.

    Loops that are not structural have fuel. [Conc] programs take the number
    of rounds of a loop as an argument and the theorems hold for every number;
    where a result depends on termination the theorem says which fuel is
    enough: one pass per frame for [Read] of UdpArq.v, the length of the data
    for the chunkers, the number of buffered chunks for the reassembler, more
    than the number of chunks on the connection for the forwarding loop of
    Relay.v, the number of edges for the searches of PathGraph.v and
    DisjointPaths.v, the number of bytes wanted for the read loops of
    Transfer.v, each read returning at least one.

    ** What the theorems show

    - Data arrives: [ProxyChain.proxied_stream_arrives] from the client of the
      proxy to the target over both paths in any order, by
      [Exit.AddStreaming_any_order], [Chunkers.chunkers_reassemble],
      [Circuit.EncodeChunk_DecodeChunk], [Relay.ForwardChunk_spec] and
      [Relay.ForwardStream_transparent]; [Dispatcher.return_stream_complete]
      for the way back; [DataPath.stream_transport] from the [Write] on one
      session into the read buffer of the other;
      [Udp.udp_in_order_delivery] for the UDP stream,
      [Secure.secure_messages_in_order] for the encrypted connection,
      [Transfer.transfer_roundtrip] and [Transfer.Receive_exact] for files;
      [Forward.tunnel_delivers] from the device of one node to the device of
      another.
    - Nothing else arrives or is reached: [Kx.kx_authentic] and
      [Secure.secure_reads_authentic] against an attacker on the wire;
      [Web.session_requires_proof] and [Web.sensitive_pages_guarded] for the
      web interface; [Auth.Authorize_iff], [Join.join_bundle_authorised] and
      [Join.join_token_single_use] for peers; [Acl.Check_first_match] and
      [ExitNode.validatePort_iff] for traffic; [Transfer.Receive_confined] and
      [Transfer.handleConn_refines] for the file system of a receiver;
      [Audit.audit_tamper_evident] for the log; [Forward.source_test_exact]
      and [Forward.inbound_exact] for the packets of a peer;
      [ConfigApi.masked_paths] for the secrets in the configuration.
    - Invariants of every reachable state: [SessionProps.session_bounds],
      [Manager.circuit_manager_invariant], [Peer.peer_manager_invariant],
      [MeshRelay.relay_bridges_once], [Routing.routing_sound],
      [Reporting.aggregator_stores_once], [TunRouter.router_bijective],
      [TunSetup.peer_routes_installed], [Punch.open_planes_tracked];
      bounds on any input: [Exit.reassembler_memory_bounded],
      [Web.login_rate_limited], [Udp.udp_rto_bounded],
      [MeshRelay.request_keeps_capacity]; progress: [Peer.probe_tick_redials].
    - Refinement and equivalence: [Totp.store_refines_lifecycle] (the store of
      second factors is a small state machine per user),
      [Monitor.RingBuffer_refines], [PathSelect.health_refines_failures],
      [Paths.QueryPath_exact], [Paths.QueryPath_sound] and
      [Matrix.ShortestPath_exact] (the searches return minimal paths),
      [PathSelect.SelectPaths_two_fastest],
      [Ipam.AllocateWithPeers_converges]; [Config.Validate_iff] and
      [Config.port_conflicts_exact] (a configuration is accepted exactly when
      it is valid), [Config.finish_idempotent]; [Subnets.subnet_routes_exact]
      (every network leads to the peer that advertised it last, the owner
      being computed from the calls alone) and
      [Subnets.ResolveSubnetProxy_longest].
    - Protocols and formats: [Kx.kx_complementary], [Join.join_end_to_end],
      [ExitNode.HandleCircuitSetup_spec], [Totp.Enroll_then_ValidateCode],
      [Reporting.envelope_roundtrip], [Smux.readFrame_iff],
      [Wire.wire_readers_agree], [Circuit.control_messages_roundtrip], [Base32.Base32_roundtrip].
    - Defects of the code, as theorems about its model:
      [SessionProps.Close_Read_deadlock], [SessionProps.MaxStreams_exceeded],
      [Udp.probe_timeout_deadlock], [Udp.first_frame_lost],
      [Exit.duplicate_after_delivery_flushed_again],
      [TunRouter.SetLocalIP_keeps_stale_peer], [TunRouter.AddRoute_removes_self],
      [ProxyChain.early_end_marker_truncates],
      [ProxyChain.second_relay_rejects], [Relay.slow_chunk_breaks_stream],
      [ExitNode.NACK_names_received_chunks],
      [ExitNode.sweep_and_close_keep_keys], [Manager.CreateCircuit_races],
      [PathSelect.SelectPaths_overlap], [Matrix.KShortestDisjointPaths_greedy],
      [Auth.scoped_transfer_denied], [Web.second_factor_unusable],
      [Totp.RotateMasterKey_failure_strands],
      [Transfer.failed_transfer_deletes], [Peer.hedged_dial_leaks_connection],
      [Peer.restart_closes_done_twice], [Routing.RemovePeer_drops_others_route],
      [Reporting.stripping_shared_sample],
      [Reporting.restarted_reporter_ignored],
      [MeshRelay.stranger_takes_tunnel], [MeshRelay.short_identifier_crashes],
      [Config.usual_files_rejected], [Forward.raw_plane_skips_acl],
      [Subnets.gateway_change_ignored], [Web.users_erased_without_step_up],
      [ConfigApi.patch_null_ignored] and
      [ExitNode.concurrent_setups_both_accepted]. The deadlock of smux is
      stated as one: from the calls themselves a configuration is reached in
      which [Read] and [Close] each wait for the lock that the other holds,
      and neither moves in any configuration reachable from there.

    ** What is not modelled

    Deadlines of connections (but for Transfer.v), log output and the texts of
    some errors; raw TUN frames on the UDP stream; the registry of chunker
    modes; pages of the web interface that are only rendered, the [_meta]
    object and the comparison of running and saved configuration; symbolic
    links in the file system of a receiver. The circuit manager draws an
    identifier that is not in use, where the code relies on chance. Of the
    rest of the program: the node that wires the layers together
    (mesh/node.go, app/, cmd/) and the transports under a connection, which are goroutines around
    sockets and other components; hole punching, the Shadowsocks listener of
    the entry node, terminals over WebSocket, services and updates, which are
    input and output of the operating system; the handshake, whose content is
    in the vendored TLS library. *)
From stdpp Require Import prelude gmap strings list sorting.
From Stdlib Require Import Strings.Byte ZArith Lia.

(** ** Results of fallible Go functions

    A Go function that returns [(value, error)] returns [Ok value] when its
    error is nil and [Err e] otherwise. *)
Inductive result (E A : Type) : Type :=
| Ok (a : A)
| Err (e : E).
Arguments Ok {E A} a.
Arguments Err {E A} e.

#[export] Instance result_ret {E} : MRet (result E) := fun A a => Ok a.
#[export] Instance result_bind {E} : MBind (result E) :=
  fun A B f m => match m with Ok a => f a | Err e => Err e end.

(** [x, err := m; if err != nil { return g err }], the error being wrapped. *)
Definition map_err {E E' A} (g : E -> E') (m : result E A) : result E' A :=
  match m with Ok a => Ok a | Err e => Err (g e) end.

Definition is_ok {E A} (m : result E A) : bool :=
  match m with Ok _ => true | Err _ => false end.

#[export] Instance result_eq_dec {E A} `{EqDecision E, EqDecision A} :
  EqDecision (result E A).
Proof. solve_decision. Defined.

(** Inversion of results that leaves their contents as they are written. *)
Lemma Ok_inj {E A} (a b : A) : @Ok E A a = Ok b -> a = b.
Proof. by intros [= ->]. Qed.

(** ** Lengths

    Go lengths are [int]; slices in the development are lists and [len] is
    their length as an integer. *)
Abbreviation len l := (Z.of_nat (length l)).

(** Slicing [l[a:b]]; callers test the bounds first, as the code does. *)
Definition slice {A} (l : list A) (a b : Z) : list A :=
  take (Z.to_nat (b - a)) (drop (Z.to_nat a) l).

Declare Scope go_scope.
Delimit Scope go_scope with go.
Notation "l .[ a : b ]" := (slice l a b)
  (at level 1, a at level 50, b at level 50, format "l .[ a  :  b ]") : go_scope.

Create HintDb meshdesk.
Create Rewrite HintDb len.

(** ** Tactics of the development *)

(** Split conjunctions and existentials of the context. *)
Ltac split_hyps :=
  repeat match goal with
         | H : _ /\ _ |- _ => destruct H
         | H : exists _, _ |- _ => destruct H
         end.

(** Case analysis on the scrutinee of a [match] or [if] of the goal. *)
Ltac case_goal :=
  match goal with
  | |- context [match ?x with _ => _ end] =>
      lazymatch x with
      | context [match _ with _ => _ end] => fail
      | _ => destruct x eqn:?
      end
  end.

(** The same on a hypothesis. *)
Ltac case_hyp H :=
  match type of H with
  | context [match ?x with _ => _ end] =>
      lazymatch x with
      | context [match _ with _ => _ end] => fail
      | _ => destruct x eqn:?
      end
  end.

(** Turn boolean tests of [Z], [nat] and [bool] into propositions. *)
Ltac to_prop :=
  repeat match goal with
         | H : (_ <? _)%Z = true |- _ => apply Z.ltb_lt in H
         | H : (_ <? _)%Z = false |- _ => apply Z.ltb_ge in H
         | H : (_ <=? _)%Z = true |- _ => apply Z.leb_le in H
         | H : (_ <=? _)%Z = false |- _ => apply Z.leb_gt in H
         | H : (_ =? _)%Z = true |- _ => apply Z.eqb_eq in H
         | H : (_ =? _)%Z = false |- _ => apply Z.eqb_neq in H
         | H : (_ >? _)%Z = _ |- _ => rewrite Z.gtb_ltb in H
         | H : (_ >=? _)%Z = _ |- _ => rewrite Z.geb_leb in H
         | H : bool_decide _ = true |- _ => apply bool_decide_eq_true in H
         | H : bool_decide _ = false |- _ => apply bool_decide_eq_false in H
         | H : negb _ = true |- _ => apply negb_true_iff in H
         | H : negb _ = false |- _ => apply negb_false_iff in H
         | H : (_ && _)%bool = true |- _ => apply andb_true_iff in H; destruct H
         | H : (_ || _)%bool = false |- _ => apply orb_false_iff in H; destruct H
         end.

(** Normalise lengths and close a linear goal about them. *)
Ltac len_simpl :=
  repeat first
    [ rewrite length_app | rewrite length_take | rewrite length_drop
    | rewrite length_fmap | rewrite length_replicate
    | progress autorewrite with len | progress cbn [length] ].
Ltac len_lia := unfold slice in *; len_simpl; lia.

(** Discharge a boolean test whose value follows from the context by [lia]. *)
Ltac z_true := first [ apply Z.ltb_lt | apply Z.leb_le | apply Z.eqb_eq ]; lia.
Ltac z_false := first [ apply Z.ltb_ge | apply Z.leb_gt | apply Z.eqb_neq ]; lia.

(** ** Lemmas on lists *)

Lemma slice_length {A} (l : list A) (a b : Z) :
  (0 <= a)%Z -> (a <= b)%Z -> (b <= len l)%Z ->
  length (slice l a b) = Z.to_nat (b - a).
Proof. intros. unfold slice. rewrite length_take, length_drop. lia. Qed.

Lemma slice_app_l {A} (l k : list A) (a b : Z) :
  (0 <= a)%Z -> (b <= len l)%Z -> slice (l ++ k) a b = slice l a b.
Proof.
  intros Ha Hb. unfold slice. destruct (decide (b <= a)%Z) as [Hle|Hgt].
  { replace (Z.to_nat (b - a)) with 0 by lia. reflexivity. }
  rewrite drop_app_le, take_app_le by (rewrite ?length_drop; lia). reflexivity.
Qed.

Lemma slice_app_r {A} (l k : list A) (a b : Z) :
  (len l <= a)%Z -> slice (l ++ k) a b = slice k (a - len l) (b - len l).
Proof.
  intros Ha. unfold slice. rewrite drop_app_ge by lia.
  f_equal; [lia | f_equal; lia].
Qed.

Lemma slice_all {A} (l : list A) (b : Z) :
  (len l <= b)%Z -> slice l 0 b = l.
Proof. intros H. unfold slice. rewrite drop_0. apply take_ge. lia. Qed.

Lemma slice_full {A} (l : list A) (a b : Z) :
  (a = 0)%Z -> (len l <= b)%Z -> slice l a b = l.
Proof. intros -> H. by apply slice_all. Qed.

Lemma slice_slice_app {A} (l : list A) (a b c : Z) :
  (0 <= a <= b)%Z -> (b <= c)%Z -> slice l a b ++ slice l b c = slice l a c.
Proof.
  intros Hab Hbc. unfold slice.
  replace (Z.to_nat b) with (Z.to_nat a + Z.to_nat (b - a)) by lia.
  rewrite <-drop_drop, take_take_drop.
  f_equal. lia.
Qed.

Lemma slice_drop {A} (l : list A) (a b : Z) :
  (len l <= b)%Z -> slice l a b = drop (Z.to_nat a) l.
Proof. intros H. unfold slice. apply take_ge. rewrite length_drop. lia. Qed.

(** Resolve a slice of a concatenation whose pieces have known lengths. *)
Ltac slice_norm :=
  repeat match goal with
         | |- context [slice (?l ++ ?k) ?a ?b] =>
             first [ rewrite (slice_app_r l k a b) by len_lia
                   | rewrite (slice_app_l l k a b) by len_lia ]
         | |- context [slice ?l ?a ?b] =>
             rewrite (slice_full l a b) by len_lia
         end.

Lemma slice_take {A} (l : list A) (b : Z) : slice l 0 b = take (Z.to_nat b) l.
Proof. unfold slice. rewrite drop_0. f_equal. lia. Qed.

Lemma take_len_app {A} (l k : list A) (n : Z) :
  n = len l -> take (Z.to_nat n) (l ++ k) = l.
Proof. intros ->. rewrite Nat2Z.id, take_app_length. reflexivity. Qed.

Lemma drop_len_app {A} (l k : list A) (n : Z) :
  n = len l -> drop (Z.to_nat n) (l ++ k) = k.
Proof. intros ->. rewrite Nat2Z.id, drop_app_length. reflexivity. Qed.

Lemma list_len_0 {A} (l : list A) : (len l = 0)%Z -> l = [].
Proof. destruct l; [done | cbn; lia]. Qed.

(** ** Lemmas on machine arithmetic *)

Definition u8 (z : Z) : Z := (z mod 2 ^ 8)%Z.
Definition u16 (z : Z) : Z := (z mod 2 ^ 16)%Z.
Definition u32 (z : Z) : Z := (z mod 2 ^ 32)%Z.
Definition u64 (z : Z) : Z := (z mod 2 ^ 64)%Z.

(** Two's complement reading of a 64-bit pattern: [int64(x)]. *)
Definition i64 (z : Z) : Z := ((z + 2 ^ 63) mod 2 ^ 64 - 2 ^ 63)%Z.

Lemma u32_small z : (0 <= z < 2 ^ 32)%Z -> u32 z = z.
Proof. apply Z.mod_small. Qed.
Lemma u64_small z : (0 <= z < 2 ^ 64)%Z -> u64 z = z.
Proof. apply Z.mod_small. Qed.
Lemma u16_small z : (0 <= z < 2 ^ 16)%Z -> u16 z = z.
Proof. apply Z.mod_small. Qed.

Lemma u32_range z : (0 <= u32 z < 2 ^ 32)%Z.
Proof. apply Z.mod_pos_bound. lia. Qed.

Lemma i64_u64 z : (- 2 ^ 63 <= z < 2 ^ 63)%Z -> i64 (u64 z) = z.
Proof.
  intros H. unfold i64, u64. rewrite Zplus_mod_idemp_l, Z.mod_small; lia.
Qed.

#[export] Hint Resolve u32_range u32_small u64_small u16_small : meshdesk.

(** ** Sums over finite maps *)

Definition msum {V} (f : V -> Z) (m : gmap Z V) : Z :=
  map_fold (fun _ v acc => (f v + acc)%Z) 0%Z m.

Section msum.
Context {V : Type} (f : V -> Z).
Implicit Types m : gmap Z V.

Lemma msum_empty : msum f (∅ : gmap Z V) = 0%Z.
Proof. apply map_fold_empty. Qed.

Lemma msum_insert m k v :
  m !! k = None -> msum f (<[k:=v]> m) = (f v + msum f m)%Z.
Proof. intros H. unfold msum. rewrite map_fold_insert_L; [done| |done]. intros; lia. Qed.

Lemma msum_delete m k v :
  m !! k = Some v -> msum f (delete k m) = (msum f m - f v)%Z.
Proof.
  intros H. rewrite <-(insert_delete_id m k v H) at 2.
  rewrite msum_insert by apply lookup_delete_eq. lia.
Qed.

Lemma msum_update m k v v' :
  m !! k = Some v -> msum f (<[k:=v']> m) = (msum f m - f v + f v')%Z.
Proof.
  intros H. rewrite <-insert_delete_eq, msum_insert by apply lookup_delete_eq.
  rewrite (msum_delete m k v H). lia.
Qed.

Lemma msum_nonneg m : (forall v, 0 <= f v)%Z -> (0 <= msum f m)%Z.
Proof.
  intros Hf. induction m as [|k v m Hk IH] using map_ind; [by rewrite msum_empty|].
  rewrite msum_insert by done. specialize (Hf v). lia.
Qed.

Lemma msum_lookup_le m k v :
  (forall v, 0 <= f v)%Z -> m !! k = Some v -> (f v <= msum f m)%Z.
Proof.
  intros Hf H. pose proof (msum_delete m k v H).
  pose proof (msum_nonneg (delete k m) Hf). lia.
Qed.
End msum.
