(* ===== verification/GoBytes.v ===== *)
(** * Bytes, byte order and readers of the Go standard library

    What the repository uses of [encoding/binary] (big-endian and
    little-endian fixed-width integers), of byte slices and of [io.Reader]
    ([io.ReadFull] over a finite byte stream). *)
From stdpp Require Import prelude list strings countable.
From Stdlib Require Import Strings.Byte ZArith Lia.
From Stdlib Require Strings.String.
From S2P Require Import Prelude.
Local Open Scope Z_scope.

(** ** Bytes *)

(** [byte(z)]: conversion with truncation to eight bits. *)
Definition byte_of_Z (z : Z) : byte :=
  default x00 (Byte.of_N (Z.to_N (z mod 256))).

Definition Z_of_byte (b : byte) : Z := Z.of_N (Byte.to_N b).

Lemma Z_of_byte_range b : 0 <= Z_of_byte b < 256.
Proof. unfold Z_of_byte. pose proof (Byte.to_N_bounded b). lia. Qed.

Lemma Z_of_byte_of_Z z : Z_of_byte (byte_of_Z z) = z mod 256.
Proof.
  unfold Z_of_byte, byte_of_Z.
  assert (0 <= z mod 256 < 256) as Hr by (apply Z.mod_pos_bound; lia).
  destruct (Byte.of_N (Z.to_N (z mod 256))) as [b|] eqn:E; simpl.
  - apply Byte.to_of_N in E. rewrite E. lia.
  - apply Byte.of_N_None_iff in E. lia.
Qed.

Lemma byte_of_Z_of_byte b : byte_of_Z (Z_of_byte b) = b.
Proof.
  unfold byte_of_Z. rewrite Z.mod_small by apply Z_of_byte_range.
  unfold Z_of_byte. rewrite N2Z.id, Byte.of_to_N. reflexivity.
Qed.

Lemma Z_of_byte_inj a b : Z_of_byte a = Z_of_byte b -> a = b.
Proof. intros H. rewrite <-(byte_of_Z_of_byte a), H. apply byte_of_Z_of_byte. Qed.

Lemma lxor_byte_range a b :
  0 <= a < 256 -> 0 <= b < 256 -> 0 <= Z.lxor a b < 256.
Proof.
  assert (forall z, 0 <= z < 256 -> Z.log2 z < 8) as Hlog.
  { intros z Hz. destruct (decide (z = 0)) as [->|]; [done|]. apply Z.log2_lt_pow2; lia. }
  intros Ha Hb. split; [apply Z.lxor_nonneg; lia|].
  apply Z.log2_lt_cancel. change (Z.log2 256) with 8.
  pose proof (Hlog a Ha). pose proof (Hlog b Hb).
  pose proof (Z.log2_lxor a b). lia.
Qed.

#[export] Instance byte_eq_dec : EqDecision byte := Byte.byte_eq_dec.
#[export] Instance byte_countable : Countable byte :=
  inj_countable' Z_of_byte byte_of_Z byte_of_Z_of_byte.

(** ** Big-endian integers *)

Fixpoint be_bytes (n : nat) (z : Z) : list byte :=
  match n with
  | O => []
  | S n => byte_of_Z (z / 256 ^ Z.of_nat n) :: be_bytes n z
  end.

Fixpoint be_Z (l : list byte) : Z :=
  match l with
  | [] => 0
  | b :: l => Z_of_byte b * 256 ^ len l + be_Z l
  end.

(** ** Little-endian integers *)

Definition le_bytes (n : nat) (z : Z) : list byte := reverse (be_bytes n z).
Definition le_Z (l : list byte) : Z := be_Z (reverse l).

Lemma be_bytes_length n z : length (be_bytes n z) = n.
Proof. induction n; cbn; auto. Qed.
#[export] Hint Rewrite be_bytes_length : len.

Lemma pow256_pos n : 0 < 256 ^ Z.of_nat n.
Proof. apply Z.pow_pos_nonneg; lia. Qed.

Lemma pow256_S n : 256 ^ Z.of_nat (S n) = 256 * 256 ^ Z.of_nat n.
Proof. rewrite Nat2Z.inj_succ, Z.pow_succ_r by lia. reflexivity. Qed.

Lemma be_Z_range l : 0 <= be_Z l < 256 ^ len l.
Proof.
  induction l as [|b l IH]; cbn [be_Z length]; [cbn; lia|].
  rewrite pow256_S. pose proof (Z_of_byte_range b). nia.
Qed.

Lemma be_Z_be_bytes n z : be_Z (be_bytes n z) = z mod 256 ^ Z.of_nat n.
Proof.
  induction n as [|n IH]; cbn [be_bytes be_Z]; [by rewrite Z.mod_1_r|].
  rewrite IH, be_bytes_length, Z_of_byte_of_Z, pow256_S.
  rewrite (Z.mul_comm 256), Z.rem_mul_r by (pose proof (pow256_pos n); lia).
  lia.
Qed.

Lemma be_bytes_mod n z : be_bytes n (z mod 256 ^ Z.of_nat n) = be_bytes n z.
Proof.
  enough (forall m, (m <= n)%nat ->
    be_bytes m (z mod 256 ^ Z.of_nat n) = be_bytes m z) by auto.
  induction m as [|m IH]; intros Hm; cbn; [done|]. f_equal; [|apply IH; lia].
  apply Z_of_byte_inj. rewrite !Z_of_byte_of_Z.
  pose proof (pow256_pos m). pose proof (pow256_pos (n - S m)).
  replace (256 ^ Z.of_nat n) with (256 ^ Z.of_nat m * (256 * 256 ^ Z.of_nat (n - S m))).
  - rewrite Z.rem_mul_r by lia.
    rewrite (Z.mul_comm (256 ^ Z.of_nat m)), Z.div_add by lia.
    rewrite Z.div_small by (apply Z.mod_pos_bound; lia).
    rewrite Z.add_0_l, (Z.rem_mul_r _ 256) by lia.
    rewrite (Z.mul_comm 256), Z.mod_add, Z.mod_mod by lia. reflexivity.
  - rewrite <-pow256_S, <-Z.pow_add_r by lia. f_equal. lia.
Qed.

Lemma be_bytes_be_Z l : be_bytes (length l) (be_Z l) = l.
Proof.
  induction l as [|b l IH]; cbn [be_bytes be_Z length]; [done|].
  pose proof (be_Z_range l). pose proof (pow256_pos (length l)). f_equal.
  - rewrite Z.div_add_l, Z.div_small, Z.add_0_r by lia. apply byte_of_Z_of_byte.
  - rewrite <-(be_bytes_mod (length l)), Z.add_comm, Z.mod_add by lia.
    rewrite Z.mod_small by lia. exact IH.
Qed.

Lemma be_Z_inj l k : length l = length k -> be_Z l = be_Z k -> l = k.
Proof.
  intros Hl Hz. rewrite <-(be_bytes_be_Z l), <-(be_bytes_be_Z k), Hl, Hz. done.
Qed.

Lemma be_Z_app l k : be_Z (l ++ k) = be_Z l * 256 ^ len k + be_Z k.
Proof.
  induction l as [|b l IH]; cbn [be_Z app]; [lia|].
  rewrite IH, length_app, Nat2Z.inj_add, Z.pow_add_r by lia. ring.
Qed.

Lemma be_bytes_be_Z' n l : length l = n -> be_bytes n (be_Z l) = l.
Proof. intros <-. apply be_bytes_be_Z. Qed.

Lemma be_Z_singleton z : be_Z [byte_of_Z z] = z mod 256.
Proof. cbn. rewrite Z_of_byte_of_Z. lia. Qed.

Lemma singleton_be_Z l : length l = 1%nat -> [byte_of_Z (be_Z l)] = l.
Proof.
  intros H. destruct l as [|b [|]]; try discriminate.
  cbn. rewrite Z.mul_1_r, Z.add_0_r, byte_of_Z_of_byte. done.
Qed.

(** Reading back what a fixed-width write stored. *)
Lemma be_Z_u n z : 0 <= z < 256 ^ Z.of_nat n -> be_Z (be_bytes n z) = z.
Proof. intros H. rewrite be_Z_be_bytes. by apply Z.mod_small. Qed.

Lemma be_Z_u16 z : 0 <= z < 2 ^ 16 -> be_Z (be_bytes 2 z) = z.
Proof. intros H. apply be_Z_u. exact H. Qed.
Lemma be_Z_u32 z : 0 <= z < 2 ^ 32 -> be_Z (be_bytes 4 z) = z.
Proof. intros H. apply be_Z_u. exact H. Qed.
Lemma be_Z_u64 z : 0 <= z < 2 ^ 64 -> be_Z (be_bytes 8 z) = z.
Proof. intros H. apply be_Z_u. exact H. Qed.

Lemma be_bytes_inj n a b :
  0 <= a < 256 ^ Z.of_nat n -> 0 <= b < 256 ^ Z.of_nat n ->
  be_bytes n a = be_bytes n b -> a = b.
Proof. intros Ha Hb H. by rewrite <-(be_Z_u n a Ha), <-(be_Z_u n b Hb), H. Qed.

Lemma le_bytes_length n z : length (le_bytes n z) = n.
Proof. unfold le_bytes. rewrite length_reverse. apply be_bytes_length. Qed.
#[export] Hint Rewrite le_bytes_length : len.

Lemma le_Z_range l : 0 <= le_Z l < 256 ^ len l.
Proof. unfold le_Z. rewrite <-(length_reverse l). apply be_Z_range. Qed.

Arguments be_bytes : simpl never.
Arguments be_Z : simpl never.

(** ** Strings as byte sequences: [[]byte(s)] and [string(b)] *)

Abbreviation bytes_of_string := String.list_byte_of_string.
Abbreviation string_of_bytes := String.string_of_list_byte.

Lemma string_of_bytes_of_string s : string_of_bytes (bytes_of_string s) = s.
Proof. apply String.string_of_list_byte_of_string. Qed.

Lemma bytes_of_string_of_bytes b : bytes_of_string (string_of_bytes b) = b.
Proof. apply String.list_byte_of_string_of_list_byte. Qed.

(** [len(s)] of a Go string. *)
Definition strlen (s : string) : Z := len (bytes_of_string s).

(** ** Readers

    A reader is the sequence of bytes still to come before end of file.
    [read_full r n] is [io.ReadFull] with a buffer of [n] bytes: it returns
    [EOF] when no byte was read, [UnexpectedEOF] after a short read, and the
    bytes read with the rest of the stream otherwise. *)
Inductive io_error : Type := EOF | UnexpectedEOF.
#[export] Instance io_error_eq_dec : EqDecision io_error.
Proof. solve_decision. Defined.

Definition read_full (r : list byte) (n : Z) : result io_error (list byte * list byte) :=
  if n <=? 0 then Ok ([], r)
  else if n <=? len r then Ok (take (Z.to_nat n) r, drop (Z.to_nat n) r)
  else match r with [] => Err EOF | _ => Err UnexpectedEOF end.

Lemma read_full_app b r n :
  n = len b -> read_full (b ++ r) n = Ok (b, r).
Proof.
  intros ->. unfold read_full. rewrite length_app.
  destruct (Z.leb_spec (len b) 0).
  { assert (b = []) as -> by (apply list_len_0; lia). done. }
  rewrite (proj2 (Z.leb_le _ _)) by lia.
  by rewrite take_len_app, drop_len_app.
Qed.

Lemma read_full_ok r n b r' :
  read_full r n = Ok (b, r') -> r = b ++ r' /\ len b = Z.max 0 n.
Proof.
  unfold read_full. intros H. repeat case_hyp H; simplify_eq; to_prop.
  - cbn. split; [done | lia].
  - rewrite take_drop, length_take. split; [done | lia].
Qed.

#[export] Hint Resolve Z_of_byte_range be_Z_range be_Z_u16 be_Z_u32 be_Z_u64 : meshdesk.
