(* ===== verification/Conc.v ===== *)
(** * Interleaved goroutines

    A goroutine is a tree of atomic actions over a shared state. An action
    lists its possible outcomes: no outcome means the goroutine is blocked
    (a full channel, a held mutex), several mean that a [select] had several
    ready cases. Programs over a pool of goroutines interleave by [step]; the
    environment may start new goroutines at any time. [safe] is the rule for
    invariants under every interleaving, [wp] total correctness of a
    goroutine that runs undisturbed. *)
From stdpp Require Import prelude list.
From S2P Require Import Prelude.

Section Programs.
Context {St : Type}.

Inductive prog (R : Type) : Type :=
| Ret (r : R)
| Act {A : Type} (f : St -> list (St * A)) (k : A -> prog R).
Arguments Ret {R} r.
Arguments Act {R A} f k.

Fixpoint bind {R T} (p : prog R) (q : R -> prog T) : prog T :=
  match p with
  | Ret r => q r
  | Act f k => Act f (fun a => bind (k a) q)
  end.

Definition act {A} (f : St -> list (St * A)) : prog A := Act f Ret.

(** ** Pools of goroutines *)
Definition config : Type := St * list (prog unit).

Inductive step : config -> config -> Prop :=
| step_act i A f (k : A -> prog unit) s s' a pool :
    pool !! i = Some (Act f k) -> (s', a) ∈ f s ->
    step (s, pool) (s', <[i := k a]> pool).

(** Configurations reached when the environment may start any goroutine
    that satisfies [spawn]. *)
Inductive reach (spawn : prog unit -> Prop) (c0 : config) : config -> Prop :=
| reach_init : reach spawn c0 c0
| reach_step c c' : reach spawn c0 c -> step c c' -> reach spawn c0 c'
| reach_spawn s pool p :
    reach spawn c0 (s, pool) -> spawn p -> reach spawn c0 (s, pool ++ [p]).

(** A schedule names the goroutine to run next and the outcome it takes. *)
Fixpoint run_schedule (sched : list (nat * nat)) (c : config) : option config :=
  match sched with
  | [] => Some c
  | (i, j) :: sched =>
      match c.2 !! i with
      | Some (Act f k) =>
          match f c.1 !! j with
          | Some (s', a) => run_schedule sched (s', <[i := k a]> c.2)
          | None => None
          end
      | _ => None
      end
  end.

Lemma run_schedule_reach spawn c0 sched : forall c c',
  reach spawn c0 c -> run_schedule sched c = Some c' -> reach spawn c0 c'.
Proof.
  induction sched as [|[i j] sched IH]; intros [s pool] c' Hr He; cbn in He.
  { by injection He as <-. }
  destruct (pool !! i) as [[r|A f k]|] eqn:Ei; [done| |done].
  destruct (f s !! j) as [[s' a]|] eqn:Ej; [|done].
  eapply IH; [|exact He]. eapply reach_step; [exact Hr|].
  econstructor; [exact Ei|]. by eapply list_elem_of_lookup_2.
Qed.

Lemma spawn_all spawn s ps : Forall spawn ps -> reach spawn (s, []) (s, ps).
Proof.
  induction ps as [|p ps IH] using rev_ind; intros Hp; [constructor|].
  apply Forall_app in Hp as [Hp [Hx _]%Forall_cons]. apply reach_spawn; auto.
Qed.

(** No goroutine of the pool can move. *)
Definition stuck (c : config) : Prop :=
  Forall (fun p => match p with Ret _ => True | Act f k => f c.1 = [] end) c.2.

Lemma stuck_no_step c c' : stuck c -> ~ step c c'.
Proof.
  intros Hs Hst. destruct Hst as [i A f k s s' a pool Hi Hin]. unfold stuck in Hs.
  rewrite Forall_lookup in Hs. specialize (Hs _ _ Hi). cbn in Hs.
  rewrite Hs in Hin. by apply not_elem_of_nil in Hin.
Qed.

Definition stuckb (c : config) : bool :=
  forallb (fun p => match p with
                    | Ret _ => true
                    | Act f k => match f c.1 with [] => true | _ => false end
                    end) c.2.

Lemma stuckb_stuck c : stuckb c = true -> stuck c.
Proof.
  unfold stuckb, stuck. rewrite forallb_forall, Forall_forall. intros H p Hp.
  apply list_elem_of_In, H in Hp. destruct p as [|A f k]; [done|]. by destruct (f c.1).
Qed.

(** ** Invariants under interference

    [I] is an invariant of the state, [G] a relation every action stays
    within. A goroutine may rely on a fact between its actions when no
    action of another one can invalidate it. *)
Section RelyGuarantee.
Context (I : St -> Prop) (G : St -> St -> Prop).

Definition stable (P : St -> Prop) : Prop :=
  forall s s', I s -> I s' -> P s -> G s s' -> P s'.

(** From a state in which [P] holds, every outcome keeps the invariant,
    stays within [G] and establishes [Q]. *)
Definition keeps {A} (P : St -> Prop) (f : St -> list (St * A)) (Q : A -> St -> Prop) : Prop :=
  forall s s' a, I s -> P s -> (s', a) ∈ f s -> I s' /\ G s s' /\ Q a s'.

Fixpoint safe {R} (P : St -> Prop) (p : prog R) (Φ : R -> St -> Prop) : Prop :=
  match p with
  | Ret r => forall s, I s -> P s -> Φ r s
  | @Act _ A f k => exists Q : A -> St -> Prop,
      (forall a, stable (Q a)) /\ keeps P f Q /\ forall a, safe (Q a) (k a) Φ
  end.

Abbreviation any := (fun _ => True).

Lemma stable_any : stable any.
Proof. done. Qed.

Lemma safe_act {A} P (f : St -> list (St * A)) Φ :
  (forall a, stable (Φ a)) -> keeps P f Φ -> safe P (act f) Φ.
Proof. intros Hst H. exists Φ. split_and!; [done | done |]. by intros a s _ Ha. Qed.

Lemma safe_bind {R T} P (p : prog R) (q : R -> prog T) Φ Ψ :
  safe P p Φ -> (forall r, safe (Φ r) (q r) Ψ) -> safe P (bind p q) Ψ.
Proof.
  revert P. induction p as [r|A f k IH]; cbn; intros P Hp Hq.
  - specialize (Hq r). revert P Hp. generalize (q r) as t, (Φ r) as F, Hq. clear.
    intros t F Hq P Hp. destruct t as [x|A f k]; cbn in *; [auto|].
    destruct Hq as (Q & Hs & Hk & Hc). exists Q. split_and!; auto.
    intros s s' a Hi Hs' Hin. eapply Hk; eauto.
  - destruct Hp as (Q & Hs & Hk & Hp). exists Q. split_and!; auto.
Qed.

Lemma safe_weaken {R} (P P' : St -> Prop) (p : prog R) Φ Φ' :
  safe P p Φ -> (forall s, I s -> P' s -> P s) -> (forall r s, I s -> Φ r s -> Φ' r s) ->
  safe P' p Φ'.
Proof.
  revert P P'. induction p as [r|A f k IH]; cbn; intros P P' Hp HP HΦ; [auto|].
  destruct Hp as (Q & Hs & Hk & Hp). exists Q. split_and!; auto.
  - intros s s' a Hi Hs' Hin. eapply Hk; eauto.
  - intros a. eapply IH; eauto.
Qed.

(** A stable fact survives a goroutine that does not mention it. *)
Lemma safe_frame {R} (F P : St -> Prop) (p : prog R) Φ :
  stable F -> safe P p Φ -> safe (fun s => P s /\ F s) p (fun r s => Φ r s /\ F s).
Proof.
  intros HF. revert P. induction p as [r|A f k IH]; cbn; intros P Hp.
  - intros s Hi [HP HFs]. auto.
  - destruct Hp as (Q & Hs & Hk & Hp). exists (fun a s => Q a s /\ F s). split_and!; auto.
    + intros a s s' Hi Hi' [Hq Hf] Hg. split; [by apply (Hs a s s') | by apply (HF s s')].
    + intros s s' a Hi [HP HFs] Hin. destruct (Hk s s' a Hi HP Hin) as (Hi' & Hg & Hq).
      split_and!; auto. by apply (HF s s').
Qed.

Lemma safe_forget {R} P (p : prog R) Φ :
  safe any p Φ -> safe P p (fun _ => any).
Proof. intros H. by eapply safe_weaken; [exact H | |]. Qed.

(** Case analysis on the precondition. *)
Lemma safe_exists {R} (p : prog R) : forall (X : Type) (P : X -> St -> Prop) Φ,
  (forall x, safe (P x) p Φ) -> safe (fun s => exists x, P x s) p Φ.
Proof.
  induction p as [r|A f k IH]; cbn; intros X P Φ H.
  - intros s Hi [x Hx]. eauto.
  - set (OK := fun Q : A -> St -> Prop =>
           (forall a, stable (Q a)) /\ forall a, safe (Q a) (k a) Φ).
    exists (fun a s => exists Q : {Q | OK Q}, `Q a s). split_and!.
    + intros a s s' Hi Hi' [[Q [Hs Hk]] Hq] Hg. exists (exist _ Q (conj Hs Hk)).
      by apply (Hs a s s').
    + intros s s' a Hi [x Hx] Hin. destruct (H x) as (Q & Hs & Hk & Hc).
      destruct (Hk s s' a Hi Hx Hin) as (? & ? & ?). split_and!; auto.
      by exists (exist _ Q (conj Hs Hc)).
    + intros a. apply IH. intros [Q [Hs Hk]]. apply Hk.
Qed.

Lemma safe_pure {R} (φ : Prop) (p : prog R) Φ :
  (φ -> safe any p Φ) -> safe (fun _ => φ) p Φ.
Proof.
  intros H. eapply safe_weaken; [apply (safe_exists p φ (fun _ _ => True)); exact H| |done].
  intros s _ h. by exists h.
Qed.

(** Invariants and guarantees hold of everything reachable. *)
Definition thread_ok (s : St) (p : prog unit) : Prop :=
  exists P, stable P /\ P s /\ safe P p (fun _ => any).

Lemma step_safe s pool s' pool' :
  I s -> Forall (thread_ok s) pool -> step (s, pool) (s', pool') ->
  I s' /\ G s s' /\ Forall (thread_ok s') pool'.
Proof.
  intros Hs Hp Hst. inversion Hst as [i A f k s1 s2 a pool1 Hi Hin]; subst.
  rewrite Forall_lookup in Hp. destruct (Hp _ _ Hi) as (P & _ & HP & Q & Hstab & Hk & Hq).
  destruct (Hk _ _ _ Hs HP Hin) as (Hs' & Hg & Ha). split_and!; auto.
  apply Forall_insert.
  - apply Forall_lookup. intros j q Hj. destruct (Hp _ _ Hj) as (P' & HP' & Hh & Hsafe).
    exists P'. split_and!; auto. by apply (HP' s s').
  - exists (Q a). auto.
Qed.

Lemma safe_reach spawn s0 pool0 c :
  I s0 -> Forall (fun p => safe any p (fun _ => any)) pool0 ->
  (forall p, spawn p -> safe any p (fun _ => any)) ->
  reach spawn (s0, pool0) c ->
  I c.1 /\ Forall (thread_ok c.1) c.2.
Proof.
  assert (forall s p, safe any p (fun _ => any) -> thread_ok s p) as Hok.
  { intros s p Hp. exists any. by split_and!. }
  intros Hs0 Hp0 Hsp Hr. induction Hr as [|[s pool] [s' pool'] _ [IHs IHp] Hst|s pool p _ [IHs IHp] Hp].
  - split; [done|]. eapply Forall_impl; [exact Hp0|]. auto.
  - by destruct (step_safe _ _ _ _ IHs IHp Hst) as (? & _ & ?).
  - cbn in *. split; [done|]. apply Forall_app. split; [done|]. repeat constructor. auto.
Qed.

(** What happens between two reachable configurations stays within the
    guarantee. *)
Lemma reach_guarantee spawn c c' :
  (forall s, G s s) -> (forall s1 s2 s3, G s1 s2 -> G s2 s3 -> G s1 s3) ->
  I c.1 -> Forall (thread_ok c.1) c.2 -> (forall p, spawn p -> safe any p (fun _ => any)) ->
  reach spawn c c' -> I c'.1 /\ G c.1 c'.1.
Proof.
  intros Hrefl Htrans Hi Hp Hsp Hr.
  assert (I c'.1 /\ G c.1 c'.1 /\ Forall (thread_ok c'.1) c'.2) as (? & ? & _); [|done].
  induction Hr as [|[s pool] [s' pool'] _ (IHs & IHg & IHp) Hst|s pool p _ (IHs & IHg & IHp) Hs].
  - auto.
  - destruct (step_safe _ _ _ _ IHs IHp Hst) as (? & ? & ?). split_and!; [done | by eapply Htrans | done].
  - cbn in *. split_and!; [done | done |]. apply Forall_app. split; [done|]. repeat constructor.
    exists any. by split_and!; [| |apply Hsp].
Qed.
End RelyGuarantee.

(** ** Running undisturbed *)

(** Every run of [p] from [s] with no interference ends, without ever
    blocking, in a state and a result that satisfy [Φ]. *)
Fixpoint wp {R} (p : prog R) (s : St) (Φ : St -> R -> Prop) : Prop :=
  match p with
  | Ret r => Φ s r
  | Act f k => f s <> [] /\ Forall (fun o => wp (k o.2) o.1 Φ) (f s)
  end.

Lemma wp_mono {R} (p : prog R) s (Φ Ψ : St -> R -> Prop) :
  wp p s Φ -> (forall s' r, Φ s' r -> Ψ s' r) -> wp p s Ψ.
Proof.
  revert s. induction p as [r|A f k IH]; intros s; cbn; [auto|].
  intros [Hne Hf] HΦ. split; [done|]. eapply Forall_impl; [exact Hf|]. intros o Ho.
  apply IH; auto.
Qed.

Lemma wp_bind {R T} (p : prog R) (q : R -> prog T) s Φ :
  wp p s (fun s' r => wp (q r) s' Φ) -> wp (bind p q) s Φ.
Proof.
  revert s. induction p as [r|A f k IH]; intros s; cbn; [auto|].
  intros [Hne Hf]. split; [done|]. eapply Forall_impl; [exact Hf|]. intros o Ho. apply IH, Ho.
Qed.

(** A run that is undisturbed keeps the invariant as well. *)
Lemma wp_safe I G {R} (p : prog R) Φ Ψ : forall P s,
  I s -> P s -> safe I G P p Φ -> wp p s Ψ -> wp p s (fun s' r => I s' /\ Ψ s' r).
Proof.
  induction p as [r|A f k IH]; intros P s Hi HP Hs Hw; cbn in *; [auto|].
  destruct Hs as (Q & _ & Hk & Hq), Hw as [Hne Hf]. split; [done|].
  apply Forall_forall. intros [s' a] Hin. rewrite Forall_forall in Hf.
  destruct (Hk s s' a Hi HP Hin) as (Hi' & _ & Ha). by apply (IH a (Q a)); [..|apply (Hf (s', a))].
Qed.

(** An action with a single outcome. *)
Lemma wp_act_one {A T} (f : St -> list (St * A)) (q : A -> prog T) s s' a Φ :
  f s = [(s', a)] -> wp (q a) s' Φ -> wp (bind (act f) q) s Φ.
Proof. intros Hf Hq. cbn. rewrite Hf. split; [done|]. by repeat constructor. Qed.

(** ** Operations that cannot be left blocked *)

(** In every state that satisfies [J] the goroutine can move, at each of
    its actions, whatever the others do in between. *)
Fixpoint responsive (J : St -> Prop) {R} (p : prog R) : Prop :=
  match p with
  | Ret _ => True
  | Act f k => (forall s, J s -> f s <> []) /\ forall a, responsive J (k a)
  end.

Lemma responsive_bind J {R T} (p : prog R) (q : R -> prog T) :
  responsive J p -> (forall r, responsive J (q r)) -> responsive J (bind p q).
Proof.
  induction p as [r|A f k IH]; cbn; intros Hp Hq; [auto|].
  destruct Hp as [Hf Hk]. split; [done|]. intros a. apply IH; auto.
Qed.
End Programs.

Arguments prog St R : clear implicits.
Arguments config St : clear implicits.
Arguments Ret {St R} r.
Arguments Act {St R A} f k.

Declare Scope prog_scope.
Delimit Scope prog_scope with prog.
Notation "x <- p ;; q" := (bind p (fun x => q))
  (at level 100, p at next level, right associativity) : prog_scope.
Notation "p ;;; q" := (bind p (fun _ => q))
  (at level 100, right associativity) : prog_scope.

Ltac safe_step := eapply safe_bind; [| intros ?].
