(* ===== verification/SmuxFrame.v ===== *)
(** * smux wire frames (internal/smux/frame.go, errors.go, smux.go)

    The fixed 12-byte header, the frame constructors, [readFrame] and
    [writeFrame], and the session configuration with its normalisation. The
    theorems show that reading inverts writing in both directions. *)
From stdpp Require Import prelude list.
From Stdlib Require Import Strings.Byte ZArith Lia.
From S2P Require Import Prelude GoBytes.
Local Open Scope Z_scope.

Module Smux.

(** ** Constants *)
Definition FrameData : Z := 0x00.
Definition FrameSyn : Z := 0x01.
Definition FrameFin : Z := 0x02.
Definition FrameRst : Z := 0x03.
Definition FramePing : Z := 0x04.
Definition FrameGoAway : Z := 0x05.

Definition FlagSyn : Z := 0x0001.
Definition FlagFin : Z := 0x0002.
Definition FlagRst : Z := 0x0004.
Definition FlagAck : Z := 0x0008.

Definition HeaderSize : Z := 12.
Definition ProtocolVersion : Z := 1.
Definition MaxStreamID : Z := 0x7FFFFFFF.

Definition GoAwayNormal : Z := 0.
Definition GoAwayProtocolError : Z := 1.
Definition RSTRefused : Z := 1.

(** ** Frames *)
Record frame : Type := Frame {
  Version : Z;
  Type_ : Z;
  Flags : Z;
  StreamID : Z;
  Length : Z;
  Payload : list byte
}.

#[export] Instance frame_eq_dec : EqDecision frame.
Proof. solve_decision. Defined.

(** The fields fit their Go types and [Length] is the payload length. *)
Record frame_ok (f : frame) : Prop := {
  ok_version : 0 <= Version f < 2 ^ 8;
  ok_type : 0 <= Type_ f < 2 ^ 8;
  ok_flags : 0 <= Flags f < 2 ^ 16;
  ok_stream : 0 <= StreamID f < 2 ^ 32;
  ok_length : 0 <= Length f < 2 ^ 32;
  ok_payload : Length f = len (Payload f)
}.

Definition encodeHeader (f : frame) : list byte :=
  [byte_of_Z (Version f)] ++ [byte_of_Z (Type_ f)]
    ++ be_bytes 2 (Flags f) ++ be_bytes 4 (StreamID f) ++ be_bytes 4 (Length f).

(** The bytes [writeFrame] passes to its writer. *)
Definition writeFrame (f : frame) : list byte := encodeHeader f ++ Payload f.

Inductive read_error : Type :=
| ReadIO (e : io_error)
| FrameTooLong (length max : Z).

(** The header fields of the 12 bytes read. *)
Definition decodeHeader (hdr : list byte) : frame :=
  {| Version := be_Z (slice hdr 0 1);
     Type_ := be_Z (slice hdr 1 2);
     Flags := be_Z (slice hdr 2 4);
     StreamID := be_Z (slice hdr 4 8);
     Length := be_Z (slice hdr 8 12);
     Payload := [] |}.

Definition with_payload (f : frame) (p : list byte) : frame :=
  {| Version := Version f; Type_ := Type_ f; Flags := Flags f;
     StreamID := StreamID f; Length := Length f; Payload := p |}.

Definition readFrame (r : list byte) (maxPayload : Z) : result read_error (frame * list byte) :=
  '(hdr, r) ← map_err ReadIO (read_full r HeaderSize);
  let f := decodeHeader hdr in
  if (0 <? maxPayload) && (u32 maxPayload <? Length f) then
    Err (FrameTooLong (Length f) maxPayload)
  else if 0 <? Length f then
    '(payload, r) ← map_err ReadIO (read_full r (Length f));
    Ok (with_payload f payload, r)
  else Ok (f, r).

(** ** Frame constructors *)
Definition newDataFrame (streamID : Z) (payload : list byte) : frame :=
  {| Version := ProtocolVersion; Type_ := FrameData; Flags := 0;
     StreamID := streamID; Length := u32 (len payload); Payload := payload |}.

Definition newSynFrame (streamID : Z) (ack : bool) : frame :=
  {| Version := ProtocolVersion; Type_ := FrameSyn;
     Flags := if ack then Z.lor FlagSyn FlagAck else FlagSyn;
     StreamID := streamID; Length := 0; Payload := [] |}.

Definition newFinFrame (streamID : Z) : frame :=
  {| Version := ProtocolVersion; Type_ := FrameFin; Flags := FlagFin;
     StreamID := streamID; Length := 0; Payload := [] |}.

Definition newRstFrame (streamID code : Z) : frame :=
  {| Version := ProtocolVersion; Type_ := FrameRst; Flags := FlagRst;
     StreamID := streamID; Length := 4; Payload := be_bytes 4 code |}.

Definition newPingFrame (opaque : Z) : frame :=
  {| Version := ProtocolVersion; Type_ := FramePing; Flags := 0;
     StreamID := 0; Length := 4; Payload := be_bytes 4 opaque |}.

Definition newGoAwayFrame (code : Z) : frame :=
  {| Version := ProtocolVersion; Type_ := FrameGoAway; Flags := 0;
     StreamID := 0; Length := 4; Payload := be_bytes 4 code |}.

(** ** Session configuration; durations are nanoseconds. *)
Record Config : Type := {
  MaxStreams : Z;
  MaxFrameSize : Z;
  WriteBufferSize : Z;
  AcceptBacklog : Z;
  HandshakeTimeout : Z;
  StreamIdleTimeout : Z;
  PingInterval : Z;
  PingTimeout : Z
}.

Definition second : Z := 1000000000.

Definition DefaultConfig : Config :=
  {| MaxStreams := 256; MaxFrameSize := 16384; WriteBufferSize := 262144;
     AcceptBacklog := 64; HandshakeTimeout := 30 * second;
     StreamIdleTimeout := 0; PingInterval := 0; PingTimeout := 0 |}.

Definition validateConfig (cfg : Config) : Config :=
  let mfs := if MaxFrameSize cfg <? 64 then 16384 else MaxFrameSize cfg in
  let mfs := if 65535 <? mfs then 65535 else mfs in
  {| MaxStreams := MaxStreams cfg;
     MaxFrameSize := mfs;
     WriteBufferSize := WriteBufferSize cfg;
     AcceptBacklog := if AcceptBacklog cfg <? 1 then 64 else AcceptBacklog cfg;
     HandshakeTimeout :=
       if HandshakeTimeout cfg =? 0 then 10 * second else HandshakeTimeout cfg;
     StreamIdleTimeout := StreamIdleTimeout cfg;
     PingInterval := PingInterval cfg;
     PingTimeout := PingTimeout cfg |}.

(** ** Codec lemmas *)

(** Solve [frame_ok] of a frame built by a constructor. *)
Ltac frame_solve :=
  constructor;
  unfold newDataFrame, newSynFrame, newFinFrame, newRstFrame, newPingFrame, newGoAwayFrame,
    ProtocolVersion, FrameData, FrameSyn, FrameFin, FrameRst, FramePing, FrameGoAway,
    FlagSyn, FlagFin, FlagRst, FlagAck;
  cbn [Version Type_ Flags StreamID Length Payload];
  rewrite ?be_bytes_length, ?u32_small by lia;
  first [ lia | cbn; lia | split; vm_compute; [discriminate|reflexivity] ].

Lemma encodeHeader_length f : length (encodeHeader f) = 12%nat.
Proof. unfold encodeHeader. rewrite !length_app, !be_bytes_length. reflexivity. Qed.
#[export] Hint Rewrite encodeHeader_length : len.

Lemma encodeHeader_len f : len (encodeHeader f) = HeaderSize.
Proof. rewrite encodeHeader_length. reflexivity. Qed.

Lemma decode_encodeHeader f :
  frame_ok f -> decodeHeader (encodeHeader f) = with_payload f [].
Proof.
  intros [Hv Ht Hf Hs Hl _]. unfold decodeHeader, encodeHeader, with_payload.
  f_equal; slice_norm; rewrite ?be_Z_singleton.
  all: eauto using Z.mod_small with meshdesk.
Qed.

Lemma encode_decodeHeader hdr :
  len hdr = HeaderSize -> encodeHeader (decodeHeader hdr) = hdr.
Proof.
  unfold HeaderSize. intros H. unfold encodeHeader, decodeHeader.
  cbn [Version Type_ Flags StreamID Length].
  rewrite !singleton_be_Z, !be_bytes_be_Z' by (rewrite slice_length by lia; lia).
  rewrite !slice_slice_app by lia. apply slice_all. lia.
Qed.

Lemma decodeHeader_range hdr :
  len hdr = HeaderSize ->
  0 <= Version (decodeHeader hdr) < 2 ^ 8 /\ 0 <= Type_ (decodeHeader hdr) < 2 ^ 8 /\
  0 <= Flags (decodeHeader hdr) < 2 ^ 16 /\ 0 <= StreamID (decodeHeader hdr) < 2 ^ 32 /\
  0 <= Length (decodeHeader hdr) < 2 ^ 32.
Proof.
  unfold HeaderSize. intros H. unfold decodeHeader; cbn [Version Type_ Flags StreamID Length].
  repeat split; try apply be_Z_range;
    (eapply Z.lt_le_trans; [apply be_Z_range|]; rewrite slice_length by lia; vm_compute; discriminate).
Qed.

Lemma readFrame_complete f rest maxPayload :
  frame_ok f -> 0 <= maxPayload < 2 ^ 32 ->
  (0 < maxPayload -> Length f <= maxPayload) ->
  readFrame (writeFrame f ++ rest) maxPayload = Ok (f, rest).
Proof.
  intros Hok Hm Hmax. unfold readFrame, writeFrame. rewrite <-app_assoc.
  rewrite read_full_app by (by rewrite encodeHeader_len). cbn [map_err mbind result_bind].
  rewrite decode_encodeHeader by done. cbn [Length with_payload].
  rewrite u32_small by lia.
  replace ((0 <? maxPayload) && (maxPayload <? Length f)) with false.
  2:{ symmetry. apply andb_false_iff. destruct (Z.ltb_spec 0 maxPayload); [right; z_false|auto]. }
  destruct Hok as [_ _ _ _ Hl Hp]. destruct f as [v t fl sid l p]; cbn in *.
  destruct (Z.ltb_spec 0 l).
  - rewrite read_full_app by done. reflexivity.
  - assert (p = []) as -> by (apply list_len_0; lia). reflexivity.
Qed.

Lemma readFrame_sound r maxPayload f rest :
  0 <= maxPayload < 2 ^ 32 ->
  readFrame r maxPayload = Ok (f, rest) ->
  frame_ok f /\ r = writeFrame f ++ rest /\ (0 < maxPayload -> Length f <= maxPayload).
Proof.
  intros Hm. unfold readFrame.
  destruct (read_full r HeaderSize) as [[hdr r1]|] eqn:E1; [|discriminate].
  apply read_full_ok in E1 as [-> Hh]. cbn [map_err mbind result_bind].
  assert (len hdr = HeaderSize) as Hh' by (rewrite Hh; done).
  pose proof (decodeHeader_range hdr Hh') as Hr.
  rewrite u32_small by lia.
  destruct (_ && _) eqn:Ecap; [discriminate|].
  assert (0 < maxPayload -> Length (decodeHeader hdr) <= maxPayload) as Hcap.
  { intros. apply andb_false_iff in Ecap as [?|?]; to_prop; lia. }
  destruct (Z.ltb_spec 0 (Length (decodeHeader hdr))) as [Hpos|Hz].
  - destruct (read_full r1 _) as [[p r2]|] eqn:E2; [|discriminate]. cbn [map_err mbind result_bind].
    intros [= <- <-]. apply read_full_ok in E2 as [-> Hp].
    split; [|split; [|exact Hcap]].
    + constructor; cbn [with_payload Version Type_ Flags StreamID Length Payload]; try apply Hr. lia.
    + unfold writeFrame. rewrite <-app_assoc. f_equal.
      rewrite <-(encode_decodeHeader hdr Hh') at 1. reflexivity.
  - intros [= <- <-]. split; [|split; [|exact Hcap]].
    + constructor; try apply Hr. cbn in *. lia.
    + unfold writeFrame. rewrite (encode_decodeHeader hdr Hh'), app_nil_r. done.
Qed.

(** [readFrame] and [writeFrame] are inverse: reading a byte stream
    returns frame [f] and the rest [rest] exactly when the stream is the
    encoding of [f] followed by [rest], the fields of [f] fit their wire
    widths with [Length] the payload length, and the payload is within the
    configured cap. Nothing that is not an encoding is accepted, and no
    encoding within the cap is refused. *)
Theorem readFrame_iff r maxPayload f rest :
  0 <= maxPayload < 2 ^ 32 ->
  readFrame r maxPayload = Ok (f, rest) <->
  frame_ok f /\ r = writeFrame f ++ rest /\ (0 < maxPayload -> Length f <= maxPayload).
Proof.
  intros Hm. split; [by apply readFrame_sound|].
  intros (Hok & -> & Hcap). by apply readFrame_complete.
Qed.

Lemma readFrame_iff_witness :
  readFrame (writeFrame (newRstFrame 7 1) ++ [x2a]) 64 = Ok (newRstFrame 7 1, [x2a]).
Proof.
  apply readFrame_iff; [lia|]. split; [|split; [reflexivity|cbn; lia]].
  frame_solve.
Defined.

(** The constructors build frames that satisfy the field invariant. *)
Lemma newDataFrame_ok sid p :
  0 <= sid < 2 ^ 32 -> len p < 2 ^ 32 -> frame_ok (newDataFrame sid p).
Proof.
  intros. frame_solve.
Qed.

Lemma newSynFrame_ok sid ack : 0 <= sid < 2 ^ 32 -> frame_ok (newSynFrame sid ack).
Proof. intros. destruct ack; frame_solve. Qed.

Lemma newFinFrame_ok sid : 0 <= sid < 2 ^ 32 -> frame_ok (newFinFrame sid).
Proof. intros. frame_solve. Qed.

Lemma newRstFrame_ok sid code : 0 <= sid < 2 ^ 32 -> frame_ok (newRstFrame sid code).
Proof. intros. frame_solve. Qed.

Lemma newGoAwayFrame_ok code : frame_ok (newGoAwayFrame code).
Proof. frame_solve. Qed.

Lemma newPingFrame_ok opaque : frame_ok (newPingFrame opaque).
Proof. frame_solve. Qed.

#[export] Hint Resolve newDataFrame_ok newSynFrame_ok newFinFrame_ok newRstFrame_ok
  newGoAwayFrame_ok newPingFrame_ok : meshdesk.

(** A normalised configuration has a frame size within [64, 65535]. *)
Lemma validateConfig_frame cfg : 64 <= MaxFrameSize (validateConfig cfg) <= 65535.
Proof.
  cbn. destruct (Z.ltb_spec (MaxFrameSize cfg) 64); [cbn; lia|].
  destruct (Z.ltb_spec 65535 (MaxFrameSize cfg)); lia.
Qed.

Lemma validateConfig_backlog cfg : 1 <= AcceptBacklog (validateConfig cfg).
Proof. cbn. destruct (Z.ltb_spec (AcceptBacklog cfg) 1); lia. Qed.

#[export] Hint Resolve validateConfig_frame validateConfig_backlog : meshdesk.

End Smux.
