(* ===== verification/SmuxSession.v ===== *)
(** * smux sessions and streams (internal/smux/session.go, stream.go, smux.go)

    The shared state of a session and its goroutines as trees of atomic
    actions. [Stream] objects live in a heap, since an application keeps its
    pointer after the session has forgotten the stream. A channel is the list
    of its elements (the slot semaphore its count); [doneCh] and
    [handshakeDone] are closed channels or not; a mutex held over several
    actions is a flag; [closeOnce] remembers whether its function is running.
    A critical section with no blocking call inside is one action. The two
    locks that can be held across a blocking point are explicit: [streamsMu]
    during the loop of [Close] and [abort], [readMu] of a stream during the
    checks of [Read]. Loops that run for ever take the number of rounds as an
    argument, and the clock readings of the loops are arguments. Contexts and
    timers may fire at any time. *)
From stdpp Require Import prelude gmap list.
From Stdlib Require Import Strings.Byte ZArith Lia.
From S2P Require Import Prelude GoBytes Conc SmuxFrame.
Local Open Scope Z_scope.

Module Session.
Import Smux.

Inductive smux_error : Type :=
| ErrSessionClosed | ErrMaxStreams | ErrStreamsExhausted | ErrStreamClosed | ErrStreamReset
| ErrEOF | ErrClosedPipe | ErrContext | ErrHandshakeSend | ErrHandshakeWait.

#[export] Instance smux_error_eq_dec : EqDecision smux_error.
Proof. solve_decision. Defined.

(** [sync.Once]: a second caller waits until the first call has returned. *)
Inductive Once : Type := NotRun | Running | Finished.

#[export] Instance Once_eq_dec : EqDecision Once.
Proof. solve_decision. Defined.

Record Stream : Type := MkStream {
  id : Z;
  readMu : bool;
  readBuf : list byte;
  readCh : bool;
  closeOnce : Once;
  localClosed : bool;
  remoteClosed : bool;
  resetErr : option smux_error;
  maxReadBuf : Z
}.

Definition set_readMu (v : bool) (st : Stream) : Stream :=
  {| id := id st; readMu := v; readBuf := readBuf st; readCh := readCh st; closeOnce := closeOnce
     st; localClosed := localClosed st; remoteClosed := remoteClosed st; resetErr :=
     resetErr st; maxReadBuf := maxReadBuf st |}.
Definition set_readBuf (v : list byte) (st : Stream) : Stream :=
  {| id := id st; readMu := readMu st; readBuf := v; readCh := readCh st; closeOnce := closeOnce
     st; localClosed := localClosed st; remoteClosed := remoteClosed st; resetErr :=
     resetErr st; maxReadBuf := maxReadBuf st |}.
Definition set_readCh (v : bool) (st : Stream) : Stream :=
  {| id := id st; readMu := readMu st; readBuf := readBuf st; readCh := v; closeOnce := closeOnce
     st; localClosed := localClosed st; remoteClosed := remoteClosed st; resetErr :=
     resetErr st; maxReadBuf := maxReadBuf st |}.
Definition set_closeOnce (v : Once) (st : Stream) : Stream :=
  {| id := id st; readMu := readMu st; readBuf := readBuf st; readCh := readCh st; closeOnce :=
     v; localClosed := localClosed st; remoteClosed := remoteClosed st; resetErr := resetErr
     st; maxReadBuf := maxReadBuf st |}.
Definition set_localClosed (v : bool) (st : Stream) : Stream :=
  {| id := id st; readMu := readMu st; readBuf := readBuf st; readCh := readCh st; closeOnce :=
     closeOnce st; localClosed := v; remoteClosed := remoteClosed st; resetErr := resetErr
     st; maxReadBuf := maxReadBuf st |}.
Definition set_remoteClosed (v : bool) (st : Stream) : Stream :=
  {| id := id st; readMu := readMu st; readBuf := readBuf st; readCh := readCh st; closeOnce :=
     closeOnce st; localClosed := localClosed st; remoteClosed := v; resetErr := resetErr
     st; maxReadBuf := maxReadBuf st |}.
Definition set_resetErr (v : option smux_error) (st : Stream) : Stream :=
  {| id := id st; readMu := readMu st; readBuf := readBuf st; readCh := readCh st; closeOnce :=
     closeOnce st; localClosed := localClosed st; remoteClosed := remoteClosed st; resetErr
     := v; maxReadBuf := maxReadBuf st |}.

(** The connection: bytes received and not yet read, bytes of completed
    writes, whether it has failed and whether it was closed here. *)
Record Conn : Type := MkConn {
  rx : list byte;
  tx : list byte;
  broken : bool;
  connClosed : bool
}.

Definition set_rx (v : list byte) (c : Conn) : Conn :=
  {| rx := v; tx := tx c; broken := broken c; connClosed := connClosed c |}.
Definition set_tx (v : list byte) (c : Conn) : Conn :=
  {| rx := rx c; tx := v; broken := broken c; connClosed := connClosed c |}.
Definition set_broken (v : bool) (c : Conn) : Conn :=
  {| rx := rx c; tx := tx c; broken := v; connClosed := connClosed c |}.
Definition set_connClosed (v : bool) (c : Conn) : Conn :=
  {| rx := rx c; tx := tx c; broken := broken c; connClosed := v |}.

(** [opened] is a history variable: the stream IDs allocated by
    [OpenStream], latest first. *)
Record Session : Type := MkSession {
  streams : gmap Z nat;
  streamsMu : bool;
  nextStreamID : Z;
  streamSlotCh : Z;
  acceptCh : list nat;
  writeCh : list frame;
  doneCh : bool;
  once : Once;
  closed : bool;
  handshakeDone : bool;
  lastActivity : Z;
  bytesSent : Z;
  bytesReceived : Z;
  heap : list Stream;
  opened : list Z;
  conn : Conn
}.

Definition set_streams (v : gmap Z nat) (s : Session) : Session :=
  {| streams := v; streamsMu := streamsMu s; nextStreamID := nextStreamID s; streamSlotCh :=
     streamSlotCh s; acceptCh := acceptCh s; writeCh := writeCh s; doneCh := doneCh s; once
     := once s; closed := closed s; handshakeDone := handshakeDone s; lastActivity :=
     lastActivity s; bytesSent := bytesSent s; bytesReceived := bytesReceived s; heap :=
     heap s; opened := opened s; conn := conn s |}.
Definition set_streamsMu (v : bool) (s : Session) : Session :=
  {| streams := streams s; streamsMu := v; nextStreamID := nextStreamID s; streamSlotCh :=
     streamSlotCh s; acceptCh := acceptCh s; writeCh := writeCh s; doneCh := doneCh s; once
     := once s; closed := closed s; handshakeDone := handshakeDone s; lastActivity :=
     lastActivity s; bytesSent := bytesSent s; bytesReceived := bytesReceived s; heap :=
     heap s; opened := opened s; conn := conn s |}.
Definition set_nextStreamID (v : Z) (s : Session) : Session :=
  {| streams := streams s; streamsMu := streamsMu s; nextStreamID := v; streamSlotCh :=
     streamSlotCh s; acceptCh := acceptCh s; writeCh := writeCh s; doneCh := doneCh s; once
     := once s; closed := closed s; handshakeDone := handshakeDone s; lastActivity :=
     lastActivity s; bytesSent := bytesSent s; bytesReceived := bytesReceived s; heap :=
     heap s; opened := opened s; conn := conn s |}.
Definition set_streamSlotCh (v : Z) (s : Session) : Session :=
  {| streams := streams s; streamsMu := streamsMu s; nextStreamID := nextStreamID s; streamSlotCh
     := v; acceptCh := acceptCh s; writeCh := writeCh s; doneCh := doneCh s; once := once s;
     closed := closed s; handshakeDone := handshakeDone s; lastActivity := lastActivity s;
     bytesSent := bytesSent s; bytesReceived := bytesReceived s; heap := heap s; opened :=
     opened s; conn := conn s |}.
Definition set_acceptCh (v : list nat) (s : Session) : Session :=
  {| streams := streams s; streamsMu := streamsMu s; nextStreamID := nextStreamID s; streamSlotCh
     := streamSlotCh s; acceptCh := v; writeCh := writeCh s; doneCh := doneCh s; once :=
     once s; closed := closed s; handshakeDone := handshakeDone s; lastActivity :=
     lastActivity s; bytesSent := bytesSent s; bytesReceived := bytesReceived s; heap :=
     heap s; opened := opened s; conn := conn s |}.
Definition set_writeCh (v : list frame) (s : Session) : Session :=
  {| streams := streams s; streamsMu := streamsMu s; nextStreamID := nextStreamID s; streamSlotCh
     := streamSlotCh s; acceptCh := acceptCh s; writeCh := v; doneCh := doneCh s; once :=
     once s; closed := closed s; handshakeDone := handshakeDone s; lastActivity :=
     lastActivity s; bytesSent := bytesSent s; bytesReceived := bytesReceived s; heap :=
     heap s; opened := opened s; conn := conn s |}.
Definition set_doneCh (v : bool) (s : Session) : Session :=
  {| streams := streams s; streamsMu := streamsMu s; nextStreamID := nextStreamID s; streamSlotCh
     := streamSlotCh s; acceptCh := acceptCh s; writeCh := writeCh s; doneCh := v; once :=
     once s; closed := closed s; handshakeDone := handshakeDone s; lastActivity :=
     lastActivity s; bytesSent := bytesSent s; bytesReceived := bytesReceived s; heap :=
     heap s; opened := opened s; conn := conn s |}.
Definition set_once (v : Once) (s : Session) : Session :=
  {| streams := streams s; streamsMu := streamsMu s; nextStreamID := nextStreamID s; streamSlotCh
     := streamSlotCh s; acceptCh := acceptCh s; writeCh := writeCh s; doneCh := doneCh s;
     once := v; closed := closed s; handshakeDone := handshakeDone s; lastActivity :=
     lastActivity s; bytesSent := bytesSent s; bytesReceived := bytesReceived s; heap :=
     heap s; opened := opened s; conn := conn s |}.
Definition set_closed (v : bool) (s : Session) : Session :=
  {| streams := streams s; streamsMu := streamsMu s; nextStreamID := nextStreamID s; streamSlotCh
     := streamSlotCh s; acceptCh := acceptCh s; writeCh := writeCh s; doneCh := doneCh s;
     once := once s; closed := v; handshakeDone := handshakeDone s; lastActivity :=
     lastActivity s; bytesSent := bytesSent s; bytesReceived := bytesReceived s; heap :=
     heap s; opened := opened s; conn := conn s |}.
Definition set_handshakeDone (v : bool) (s : Session) : Session :=
  {| streams := streams s; streamsMu := streamsMu s; nextStreamID := nextStreamID s; streamSlotCh
     := streamSlotCh s; acceptCh := acceptCh s; writeCh := writeCh s; doneCh := doneCh s;
     once := once s; closed := closed s; handshakeDone := v; lastActivity := lastActivity s;
     bytesSent := bytesSent s; bytesReceived := bytesReceived s; heap := heap s; opened :=
     opened s; conn := conn s |}.
Definition set_lastActivity (v : Z) (s : Session) : Session :=
  {| streams := streams s; streamsMu := streamsMu s; nextStreamID := nextStreamID s; streamSlotCh
     := streamSlotCh s; acceptCh := acceptCh s; writeCh := writeCh s; doneCh := doneCh s;
     once := once s; closed := closed s; handshakeDone := handshakeDone s; lastActivity :=
     v; bytesSent := bytesSent s; bytesReceived := bytesReceived s; heap := heap s; opened
     := opened s; conn := conn s |}.
Definition set_bytesSent (v : Z) (s : Session) : Session :=
  {| streams := streams s; streamsMu := streamsMu s; nextStreamID := nextStreamID s; streamSlotCh
     := streamSlotCh s; acceptCh := acceptCh s; writeCh := writeCh s; doneCh := doneCh s;
     once := once s; closed := closed s; handshakeDone := handshakeDone s; lastActivity :=
     lastActivity s; bytesSent := v; bytesReceived := bytesReceived s; heap := heap s;
     opened := opened s; conn := conn s |}.
Definition set_bytesReceived (v : Z) (s : Session) : Session :=
  {| streams := streams s; streamsMu := streamsMu s; nextStreamID := nextStreamID s; streamSlotCh
     := streamSlotCh s; acceptCh := acceptCh s; writeCh := writeCh s; doneCh := doneCh s;
     once := once s; closed := closed s; handshakeDone := handshakeDone s; lastActivity :=
     lastActivity s; bytesSent := bytesSent s; bytesReceived := v; heap := heap s; opened :=
     opened s; conn := conn s |}.
Definition set_heap (v : list Stream) (s : Session) : Session :=
  {| streams := streams s; streamsMu := streamsMu s; nextStreamID := nextStreamID s; streamSlotCh
     := streamSlotCh s; acceptCh := acceptCh s; writeCh := writeCh s; doneCh := doneCh s;
     once := once s; closed := closed s; handshakeDone := handshakeDone s; lastActivity :=
     lastActivity s; bytesSent := bytesSent s; bytesReceived := bytesReceived s; heap := v;
     opened := opened s; conn := conn s |}.
Definition set_opened (v : list Z) (s : Session) : Session :=
  {| streams := streams s; streamsMu := streamsMu s; nextStreamID := nextStreamID s; streamSlotCh
     := streamSlotCh s; acceptCh := acceptCh s; writeCh := writeCh s; doneCh := doneCh s;
     once := once s; closed := closed s; handshakeDone := handshakeDone s; lastActivity :=
     lastActivity s; bytesSent := bytesSent s; bytesReceived := bytesReceived s; heap :=
     heap s; opened := v; conn := conn s |}.
Definition set_conn (v : Conn) (s : Session) : Session :=
  {| streams := streams s; streamsMu := streamsMu s; nextStreamID := nextStreamID s; streamSlotCh
     := streamSlotCh s; acceptCh := acceptCh s; writeCh := writeCh s; doneCh := doneCh s;
     once := once s; closed := closed s; handshakeDone := handshakeDone s; lastActivity :=
     lastActivity s; bytesSent := bytesSent s; bytesReceived := bytesReceived s; heap :=
     heap s; opened := opened s; conn := v |}.

(** ** Atomic actions *)
Abbreviation M := (prog Session).

Definition get {A} (g : Session -> A) : M A := act (fun s => [(s, g s)]).
Definition upd (g : Session -> Session) : M unit := act (fun s => [(g s, tt)]).

(** A critical section of [streamsMu]. *)
Definition locked {A} (f : Session -> list (Session * A)) : M A :=
  act (fun s => if streamsMu s then [] else f s).

(** An action on the stream object at a heap location. *)
Definition on_stream (l : nat) (g : Stream -> Stream) (s : Session) : Session :=
  set_heap (alter g l (heap s)) s.

(** A critical section of the stream's [readMu]. *)
Definition read_locked {A} (l : nat) (f : Stream -> Stream * A) (d : A) : M A :=
  act (fun s => match heap s !! l with
                | Some st => if readMu st then [] else
                    [(on_stream l (fun _ => (f st).1) s, (f st).2)]
                | None => [(s, d)]
                end).

Definition writeCap : Z := 256.

Definition push (f : frame) (s : Session) : Session := set_writeCh (writeCh s ++ [f]) s.

(** [select { case s.writeCh <- f: case <-s.doneCh: }]; true when sent. *)
Definition send_or_done (f : frame) : M bool :=
  act (fun s => (if len (writeCh s) <? writeCap then [(push f s, true)] else [])
                ++ (if doneCh s then [(s, false)] else [])).

(** [select { case s.writeCh <- f: default: }] *)
Definition try_send (f : frame) : M unit :=
  upd (fun s => if len (writeCh s) <? writeCap then push f s else s).

Definition run_once {A} (get_once : Session -> Once) (put_once : Once -> Session -> Session)
    (body : M A) (skip : A) : M A :=
  (b <- act (fun s => match get_once s with
                      | NotRun => [(put_once Running s, true)]
                      | Running => []
                      | Finished => [(s, false)]
                      end);;
   if b : bool then r <- body;; upd (put_once Finished);;; Ret r else Ret skip)%prog.

Section Ops.
Context (cfg : Config) (clientMode : bool).
Local Open Scope prog_scope.

(** ** Stream objects *)
Definition newStream (sid : Z) : Stream :=
  {| id := sid; readMu := false; readBuf := []; readCh := false; closeOnce := NotRun;
     localClosed := false; remoteClosed := false; resetErr := None;
     maxReadBuf := if WriteBufferSize cfg <=? 0 then 262144 else WriteBufferSize cfg |}.

Definition signalRead (l : nat) : M unit := upd (on_stream l (set_readCh true)).

Definition onData (l : nat) (payload : list byte) : M unit :=
  read_locked l (fun st =>
    (if maxReadBuf st <? len (readBuf st) + len payload
     then set_remoteClosed true (set_resetErr (Some ErrStreamReset) st)
     else set_readBuf (readBuf st ++ payload) st, tt)) tt;;;
  signalRead l.

Definition onFin (l : nat) : M unit :=
  read_locked l (fun st => (set_remoteClosed true st, tt)) tt;;; signalRead l.

Definition onRst (l : nat) : M unit :=
  read_locked l (fun st =>
    (set_remoteClosed true (set_resetErr (Some ErrStreamReset) st), tt)) tt;;;
  signalRead l.

(** ** Session: lookups and bookkeeping *)
Definition IsClosed : M bool := locked (fun s => [(s, closed s)]).
Definition NumStreams : M Z := locked (fun s => [(s, Z.of_nat (size (streams s)))]).
Definition lookup_stream (sid : Z) : M (option nat) := locked (fun s => [(s, streams s !! sid)]).

Definition removeStream (sid : Z) : M unit :=
  locked (fun s => [(set_streams (delete sid (streams s)) s, tt)]).

(** Give a slot back, or do nothing when none is taken. *)
Definition release_slot : M unit :=
  if 0 <? MaxStreams cfg then
    upd (fun s => if 0 <? streamSlotCh s then set_streamSlotCh (streamSlotCh s - 1) s else s)
  else Ret tt.

Definition streamClosed (sid : Z) : M unit := removeStream sid;;; release_slot.

(** Allocate a stream object and enter it in the map. *)
Definition register (sid : Z) (s : Session) : Session * nat :=
  (set_streams (<[sid := length (heap s)]> (streams s))
     (set_heap (heap s ++ [newStream sid]) s), length (heap s)).

(** ** Termination *)

(** Signal every registered stream in the map's iteration order, with
    [streamsMu] held, then empty the map. *)
Fixpoint fin_all (ls : list nat) : M unit :=
  match ls with
  | [] => Ret tt
  | l :: ls => onFin l;;; fin_all ls
  end.

Definition shutdown_streams : M unit :=
  ls <- locked (fun s => (fun ls => (set_streamsMu true s, ls))
                           <$> permutations (map_to_list (streams s)).*2);;
  fin_all ls;;;
  upd (fun s => set_streamsMu false (set_streams ∅ s)).

Definition close_conn : M unit := upd (fun s => set_conn (set_connClosed true (conn s)) s).

Definition Close : M unit :=
  run_once once set_once
    (locked (fun s => [(set_closed true s, tt)]);;;
     upd (set_doneCh true);;;
     try_send (newGoAwayFrame GoAwayNormal);;;
     shutdown_streams;;;
     close_conn) tt.

Definition abort : M unit :=
  run_once once set_once
    (locked (fun s => [(set_closed true s, tt)]);;;
     upd (set_doneCh true);;;
     shutdown_streams;;;
     close_conn) tt.

(** ** Opening and accepting *)

(** The slot semaphore's [select]: taken, context done, session done. *)
Inductive slot_outcome : Type := SlotTaken | SlotContext | SlotDone.

Definition take_slot (with_ctx : bool) : M slot_outcome :=
  act (fun s =>
    (if streamSlotCh s <? MaxStreams cfg
     then [(set_streamSlotCh (streamSlotCh s + 1) s, SlotTaken)] else [])
    ++ (if with_ctx then [(s, SlotContext)] else [])
    ++ (if doneCh s then [(s, SlotDone)] else [])).

(** Allocate the next stream ID, or report exhaustion. *)
Definition allocate (s : Session) : Session * option (Z * nat) :=
  if MaxStreamID <=? nextStreamID s then (s, None) else
  let sid := nextStreamID s in
  let s := set_nextStreamID (u32 (sid + 2)) (set_opened (sid :: opened s) s) in
  let '(s, l) := register sid s in (s, Some (sid, l)).

Definition open_allocated : M (result smux_error nat) :=
  a <- locked (fun s => [allocate s]);;
  match a with
  | None =>
      (if 0 <? MaxStreams cfg then
         act (fun s => if 0 <? streamSlotCh s
                       then [(set_streamSlotCh (streamSlotCh s - 1) s, tt)] else [])
       else Ret tt);;;
      Ret (Err ErrStreamsExhausted)
  | Some (sid, l) =>
      sent <- send_or_done (newSynFrame sid false);;
      if sent : bool then Ret (Ok l)
      else removeStream sid;;; Ret (Err ErrSessionClosed)
  end.

Definition OpenStream : M (result smux_error nat) :=
  c <- IsClosed;;
  if c : bool then Ret (Err ErrSessionClosed) else
  if 0 <? MaxStreams cfg then
    o <- take_slot true;;
    match o with
    | SlotTaken => open_allocated
    | SlotContext =>
        c <- IsClosed;; Ret (Err (if c : bool then ErrSessionClosed else ErrMaxStreams))
    | SlotDone => Ret (Err ErrSessionClosed)
    end
  else open_allocated.

Definition AcceptStream : M (result smux_error nat) :=
  c <- IsClosed;;
  if c : bool then Ret (Err ErrSessionClosed) else
  act (fun s =>
    match acceptCh s with l :: ls => [(set_acceptCh ls s, Ok l)] | [] => [] end
    ++ [(s, Err ErrContext)]
    ++ (if doneCh s then [(s, Err ErrSessionClosed)] else [])).

(** ** Frame handlers *)
Definition handleData (f : frame) : M unit :=
  st <- lookup_stream (StreamID f);;
  match st with Some l => onData l (Payload f) | None => Ret tt end.

Definition handleSyn (f : frame) : M unit :=
  if negb (Z.land (Flags f) FlagAck =? 0) then Ret tt else
  known <- lookup_stream (StreamID f);;
  if bool_decide (is_Some known) then Ret tt else
  backlog <- get (fun s => len (acceptCh s));;
  if AcceptBacklog cfg <=? backlog then
    send_or_done (newRstFrame (StreamID f) RSTRefused);;; Ret tt
  else
  ok <- (if 0 <? MaxStreams cfg then
           o <- take_slot false;; Ret (match o with SlotTaken => true | _ => false end)
         else Ret true);;
  if negb ok then Ret tt else
  l <- locked (fun s => [register (StreamID f) s]);;
  sent <- send_or_done (newSynFrame (StreamID f) true);;
  if negb sent then Ret tt else
  act (fun s => (if len (acceptCh s) <? AcceptBacklog cfg
                 then [(set_acceptCh (acceptCh s ++ [l]) s, tt)] else [])
                ++ (if doneCh s then [(s, tt)] else [])).

Definition handleFin (f : frame) : M unit :=
  st <- lookup_stream (StreamID f);;
  match st with
  | Some l =>
      onFin l;;;
      lc <- get (fun s => default false (localClosed <$> heap s !! l));;
      if lc : bool then removeStream (StreamID f) else Ret tt
  | None => Ret tt
  end.

Definition handleRst (f : frame) : M unit :=
  st <- lookup_stream (StreamID f);;
  match st with
  | Some l => onRst l;;; removeStream (StreamID f);;; release_slot
  | None => Ret tt
  end.

Definition handleHandshakeSyn (f : frame) : M unit :=
  if negb (StreamID f =? 0) then Ret tt else
  (if negb clientMode then
     send_or_done {| Version := ProtocolVersion; Type_ := FrameSyn;
                     Flags := Z.lor FlagSyn FlagAck; StreamID := 0; Length := 0;
                     Payload := [] |};;; Ret tt
   else Ret tt);;;
  upd (set_handshakeDone true).

Definition dispatch (f : frame) : M unit :=
  if StreamID f =? 0 then
    if Type_ f =? FrameSyn then handleHandshakeSyn f else
    if Type_ f =? FramePing then Ret tt else
    if Type_ f =? FrameGoAway then Close else Ret tt
  else
    if Type_ f =? FrameData then handleData f else
    if Type_ f =? FrameSyn then handleSyn f else
    if Type_ f =? FrameFin then handleFin f else
    if Type_ f =? FrameRst then handleRst f else Ret tt.

(** ** Background goroutines *)

(** [readFrame] on the connection: it waits while the bytes received hold
    no complete frame, and fails when the connection does. *)
Definition recv (s : Session) : list (Session * option frame) :=
  match readFrame (rx (conn s)) (MaxFrameSize cfg) with
  | Ok (f, rest) => [(set_conn (set_rx rest (conn s)) s, Some f)]
  | Err (FrameTooLong _ _) => [(s, None)]
  | Err (ReadIO _) => []
  end ++ (if broken (conn s) || connClosed (conn s) then [(s, None)] else []).

(** One frame per clock reading. *)
Fixpoint reader (clock : list Z) : M unit :=
  match clock with
  | [] => Ret tt
  | now :: clock =>
      o <- act recv;;
      match o with
      | None => abort
      | Some f =>
          upd (fun s => set_bytesReceived (u64 (bytesReceived s + HeaderSize + len (Payload f))) s);;;
          upd (set_lastActivity now);;;
          if negb (Version f =? ProtocolVersion) then
            try_send (newGoAwayFrame GoAwayProtocolError);;; abort
          else dispatch f;;; reader clock
      end
  end.

Definition conn_write (b : list byte) (s : Session) : list (Session * bool) :=
  (if connClosed (conn s) then [] else [(set_conn (set_tx (tx (conn s) ++ b) (conn s)) s, true)])
  ++ (if broken (conn s) || connClosed (conn s) then [(s, false)] else []).

Fixpoint writer (rounds : nat) : M unit :=
  match rounds with
  | O => Ret tt
  | S rounds =>
      o <- act (fun s =>
             match writeCh s with f :: fs => [(set_writeCh fs s, Some f)] | [] => [] end
             ++ (if doneCh s then [(s, None)] else []));;
      match o with
      | None => Ret tt
      | Some f =>
          ok <- act (conn_write (writeFrame f));;
          if ok : bool then
            upd (fun s => set_bytesSent (u64 (bytesSent s + HeaderSize + len (Payload f))) s);;;
            writer rounds
          else abort
      end
  end.

(** One element of [ticks] per tick: the clock when liveness is checked. *)
Fixpoint keepalive_ticks (timeout : Z) (ticks : list Z) : M unit :=
  match ticks with
  | [] => Ret tt
  | now :: ticks =>
      stop <- act (fun s => [(s, false)] ++ (if doneCh s then [(s, true)] else []));;
      if stop : bool then Ret tt else
      o <- act (fun s =>
             (if len (writeCh s) <? writeCap then [(push (newPingFrame 0) s, Some true)] else [])
             ++ (if doneCh s then [(s, Some false)] else []) ++ [(s, None)]);;
      match o with
      | Some false => Ret tt
      | None => abort
      | Some true =>
          last <- get lastActivity;;
          if timeout <? now - last then abort else keepalive_ticks timeout ticks
      end
  end.

Definition keepaliveLoop (start : Z) (ticks : list Z) : M unit :=
  upd (set_lastActivity start);;;
  keepalive_ticks (if PingTimeout cfg <=? 0 then 3 * PingInterval cfg else PingTimeout cfg) ticks.

Definition wait_handshake : M (result smux_error unit) :=
  act (fun s => (if handshakeDone s then [(s, Ok tt)] else [])
                ++ [(s, Err ErrHandshakeWait)]
                ++ (if doneCh s then [(s, Err ErrSessionClosed)] else [])).

Definition handshake : M (result smux_error unit) :=
  if clientMode then
    let syn := {| Version := ProtocolVersion; Type_ := FrameSyn; Flags := FlagSyn;
                  StreamID := 0; Length := 0; Payload := [] |} in
    o <- act (fun s => (if len (writeCh s) <? writeCap then [(push syn s, Ok tt)] else [])
                       ++ [(s, Err ErrHandshakeSend)]
                       ++ (if doneCh s then [(s, Err ErrSessionClosed)] else []));;
    match o with Ok _ => wait_handshake | Err e => Ret (Err e) end
  else wait_handshake.

(** The part of [Client] and [Server] after the goroutines are started. *)
Definition establish : M (result smux_error unit) :=
  r <- handshake;;
  match r with Ok _ => Ret (Ok tt) | Err e => Close;;; Ret (Err e) end.

(** ** Stream operations *)

(** Copy buffered bytes into a buffer of [n] bytes. *)
Definition buf_read (n : Z) (st : Stream) : Stream * list byte :=
  (set_readBuf (drop (Z.to_nat n) (readBuf st)) st, take (Z.to_nat n) (readBuf st)).

(** What one pass over the read side finds, with [readMu] held. *)
Inductive read_state : Type := ReadData (b : list byte) | ReadErr (e : smux_error) | ReadWait.

Definition unlock_read (l : nat) : M unit := upd (on_stream l (set_readMu false)).

Definition stream_flag (l : nat) (g : Stream -> bool) : M bool :=
  get (fun s => default false (g <$> heap s !! l)).

(** One round of the loop of [Read], from taking [readMu] to releasing it.
    [IsClosed] is called with [readMu] held. *)
Definition read_pass (l : nat) (n : Z) : M read_state :=
  o <- act (fun s =>
         match heap s !! l with
         | Some st =>
             if readMu st then [] else
             if 0 <? len (readBuf st)
             then [(on_stream l (fun st => (buf_read n st).1) s, ReadData (buf_read n st).2)]
             else match resetErr st with
                  | Some e => [(s, ReadErr e)]
                  | None => if remoteClosed st then [(s, ReadErr ErrEOF)]
                            else [(on_stream l (set_readMu true) s, ReadWait)]
                  end
         | None => [(s, ReadErr ErrEOF)]
         end);;
  match o with
  | ReadWait =>
      lc <- stream_flag l localClosed;;
      if lc : bool then unlock_read l;;; Ret (ReadErr ErrClosedPipe) else
      c <- IsClosed;;
      if c : bool then unlock_read l;;; Ret (ReadErr ErrEOF) else
      unlock_read l;;; Ret ReadWait
  | o => Ret o
  end.

(** [rounds] bounds the number of wake-ups; [None] when it is used up. *)
Fixpoint Read (rounds : nat) (l : nat) (n : Z) : M (option (result smux_error (list byte))) :=
  match rounds with
  | O => Ret None
  | S rounds =>
      o <- read_pass l n;;
      match o with
      | ReadData b => Ret (Some (Ok b))
      | ReadErr e => Ret (Some (Err e))
      | ReadWait =>
          woken <- act (fun s =>
                     (if default false (readCh <$> heap s !! l)
                      then [(on_stream l (set_readCh false) s, true)] else [])
                     ++ (if doneCh s then [(s, false)] else []));;
          if woken : bool then Read rounds l n else
          r <- read_locked l (fun st =>
                 if 0 <? len (readBuf st)
                 then ((buf_read n st).1, Ok (buf_read n st).2) else (st, Err ErrEOF))
               (Err ErrEOF);;
          Ret (Some r)
      end
  end.

(** The loop of [Write]: every round sends at least one byte. *)
Fixpoint write_loop (fuel : nat) (sid : Z) (total : Z) (b : list byte)
    : M (Z * option smux_error) :=
  match fuel, b with
  | S fuel, _ :: _ =>
      let n := Z.min (len b) (MaxFrameSize cfg) in
      sent <- send_or_done (newDataFrame sid (take (Z.to_nat n) b));;
      if sent : bool then write_loop fuel sid (total + n) (drop (Z.to_nat n) b)
      else Ret (total, Some ErrSessionClosed)
  | _, _ => Ret (total, None)
  end.

(** [st.id] *)
Definition stream_id (l : nat) : M Z := get (fun s => default 0 (id <$> heap s !! l)).

Definition Write (l : nat) (b : list byte) : M (Z * option smux_error) :=
  lc <- stream_flag l localClosed;;
  if lc : bool then Ret (0, Some ErrStreamClosed) else
  c <- IsClosed;;
  if c : bool then Ret (0, Some ErrSessionClosed) else
  sid <- stream_id l;;
  write_loop (length b) sid 0 b.

Definition stream_Close (l : nat) : M unit :=
  run_once (fun s => default Finished (closeOnce <$> heap s !! l))
           (fun o => on_stream l (set_closeOnce o))
    (upd (on_stream l (set_localClosed true));;;
     sid <- stream_id l;;
     send_or_done (newFinFrame sid);;;
     signalRead l;;;
     streamClosed sid) tt.

(** ** The environment: bytes arrive, the connection fails *)
Definition conn_arrive (b : list byte) : M unit :=
  upd (fun s => set_conn (set_rx (rx (conn s) ++ b) (conn s)) s).
Definition conn_fail : M unit := upd (fun s => set_conn (set_broken true (conn s)) s).

Definition newSession : Session :=
  {| streams := ∅; streamsMu := false; nextStreamID := if clientMode then 1 else 2;
     streamSlotCh := 0; acceptCh := []; writeCh := []; doneCh := false; once := NotRun;
     closed := false; handshakeDone := false; lastActivity := 0; bytesSent := 0;
     bytesReceived := 0; heap := []; opened := [];
     conn := {| rx := []; tx := []; broken := false; connClosed := false |} |}.
End Ops.

End Session.
