(* ===== verification/SmuxSafety.v ===== *)
(** * Safety of smux sessions under every interleaving

    The invariant of a session and its preservation by every atomic action of
    every goroutine: the background loops, the frame handlers and the API
    calls of any number of application goroutines. *)
From stdpp Require Import prelude gmap list.
From Stdlib Require Import Strings.Byte ZArith Lia.
From S2P Require Import Prelude GoBytes Conc SmuxFrame SmuxSession.
Local Open Scope Z_scope.

Module Safety.
Import Smux Session.

Section Invariant.
Context (cfg : Config) (clientMode : bool).

(** The parity of locally allocated stream IDs. *)
Definition parity : Z := if clientMode then 1 else 0.

(** A frame the peer's [readFrame] accepts, under the same frame size. *)
Definition wire_frame (f : frame) : Prop :=
  frame_ok f /\ Version f = ProtocolVersion /\ Length f <= MaxFrameSize cfg.

Definition stream_ok (st : Stream) : Prop :=
  0 <= id st < 2 ^ 32 /\ len (readBuf st) <= maxReadBuf st /\
  maxReadBuf st = maxReadBuf (newStream cfg 0).

Record sess_inv (s : Session) : Prop := {
  si_slots : 0 <= streamSlotCh s /\ (0 < MaxStreams cfg -> streamSlotCh s <= MaxStreams cfg);
  si_writeCh : len (writeCh s) <= writeCap;
  si_acceptCh : len (acceptCh s) <= AcceptBacklog cfg;
  si_queued : Forall wire_frame (writeCh s);
  si_sent : exists fs, tx (conn s) = mjoin (writeFrame <$> fs) /\ Forall wire_frame fs;
  si_heap : Forall stream_ok (heap s);
  si_streams : forall sid l, streams s !! sid = Some l ->
                 id <$> heap s !! l = Some sid;
  si_accept_valid : Forall (fun l => is_Some (heap s !! l)) (acceptCh s);
  si_next : 0 < nextStreamID s < 2 ^ 32 /\ nextStreamID s mod 2 = parity;
  si_opened : Forall (fun i => 0 < i < nextStreamID s /\ i < MaxStreamID /\ i mod 2 = parity)
                (opened s);
  si_nodup : NoDup (opened s);
  si_done : doneCh s = true -> closed s = true
}.

(** What never goes back: objects stay allocated, a closed session stays
    closed, stream IDs and the bytes sent only grow. *)
Record sess_le (s s' : Session) : Prop := {
  le_heap : (length (heap s) <= length (heap s'))%nat;
  le_closed : closed s = true -> closed s' = true;
  le_done : doneCh s = true -> doneCh s' = true;
  le_next : nextStreamID s <= nextStreamID s';
  le_tx : tx (conn s) `prefix_of` tx (conn s')
}.

Context (Hcfg : 64 <= MaxFrameSize cfg <= 65535) (Hbl : 1 <= AcceptBacklog cfg).

Lemma wire_data sid p :
  0 <= sid < 2 ^ 32 -> len p <= MaxFrameSize cfg -> wire_frame (newDataFrame sid p).
Proof.
  intros. split_and!; [apply newDataFrame_ok; lia | done |].
  cbn [newDataFrame Length]. rewrite u32_small; lia.
Qed.

Lemma wire_syn sid ack : 0 <= sid < 2 ^ 32 -> wire_frame (newSynFrame sid ack).
Proof. intros. split_and!; [by apply newSynFrame_ok | done | cbn; lia]. Qed.
Lemma wire_fin sid : 0 <= sid < 2 ^ 32 -> wire_frame (newFinFrame sid).
Proof. intros. split_and!; [by apply newFinFrame_ok | done | cbn; lia]. Qed.
Lemma wire_rst sid code : 0 <= sid < 2 ^ 32 -> wire_frame (newRstFrame sid code).
Proof. intros. split_and!; [by apply newRstFrame_ok | done | cbn; lia]. Qed.
Lemma wire_goaway code : wire_frame (newGoAwayFrame code).
Proof. split_and!; [apply newGoAwayFrame_ok | done | cbn; lia]. Qed.
Lemma wire_ping n : wire_frame (newPingFrame n).
Proof. split_and!; [apply newPingFrame_ok | done | cbn; lia]. Qed.
Local Hint Resolve wire_data wire_syn wire_fin wire_rst wire_goaway wire_ping : core.

Abbreviation I := sess_inv.
Abbreviation G := sess_le.
Abbreviation safe P p Φ := (Conc.safe I G P p Φ).
Abbreviation any := (fun _ : Session => True).
Abbreviation ok p := (safe any p (fun _ => any)).

(** A transition within the invariant and the guarantee. *)
Definition good (s s' : Session) : Prop := I s' /\ G s s'.

Lemma good_keeps P {A} (f : Session -> list (Session * A)) (Q : A -> Session -> Prop) :
  (forall s s' a, I s -> P s -> (s', a) ∈ f s -> good s s' /\ Q a s') -> keeps I G P f Q.
Proof. intros H s s' a Hs HP Hin. destruct (H s s' a Hs HP Hin) as [[? ?] ?]. auto. Qed.

(** ** Primitive updates *)

(** Close the invariant and guarantee of an update after unfolding. *)
Ltac good_tac := split; [constructor; cbn; auto | constructor; cbn; auto; try lia].

Lemma good_refl s : I s -> good s s.
Proof. intros Hs. split; [done|]. by constructor. Qed.

Lemma good_push s f : I s -> wire_frame f -> len (writeCh s) < writeCap -> good s (push f s).
Proof.
  intros [] Hf Hl. good_tac.
  - rewrite length_app. cbn. lia.
  - apply Forall_app. auto.
Qed.

(** An update of a stream object that respects its invariant and its ID. *)
Definition respects (g : Stream -> Stream) : Prop :=
  forall st, stream_ok st -> stream_ok (g st) /\ id (g st) = id st.

Lemma good_on_stream s l g : I s -> respects g -> good s (on_stream l g s).
Proof.
  intros [] Hg. good_tac.
  - apply Forall_alter; [done|]. intros st Hl Hst. by apply Hg.
  - intros sid l' Hl'. specialize (si_streams0 _ _ Hl').
    destruct (decide (l = l')) as [->|Hne]; [|by rewrite list_lookup_alter_ne].
    rewrite list_lookup_alter_eq. destruct (heap s !! l') as [st|] eqn:E; [|done]. cbn in *.
    rewrite Forall_lookup in si_heap0. f_equal.
    injection si_streams0 as <-. by apply Hg, (si_heap0 l').
  - eapply Forall_impl; [exact si_accept_valid0|]. intros l' [st Hl'].
    destruct (decide (l = l')) as [->|Hne];
      [rewrite list_lookup_alter_eq, Hl' | rewrite list_lookup_alter_ne, Hl' by done]; eauto.
  - by rewrite length_alter.
Qed.

Lemma good_delete s sid : I s -> good s (set_streams (delete sid (streams s)) s).
Proof. intros []. good_tac. intros i l [_ Hl]%lookup_delete_Some. auto. Qed.

Lemma good_slots s n : I s -> 0 <= n -> (0 < MaxStreams cfg -> n <= MaxStreams cfg) ->
  good s (set_streamSlotCh n s).
Proof. intros [] ? ?. good_tac. Qed.

Lemma stream_ok_new sid : 0 <= sid < 2 ^ 32 -> stream_ok (newStream cfg sid).
Proof.
  intros. unfold stream_ok. split_and!; cbn; [lia..| |done].
  destruct (WriteBufferSize cfg <=? 0) eqn:E; to_prop; lia.
Qed.

Lemma good_register s sid : I s -> 0 <= sid < 2 ^ 32 ->
  good s (register cfg sid s).1 /\ is_Some (heap (register cfg sid s).1 !! (register cfg sid s).2).
Proof.
  intros [] Hsid. split; [good_tac|].
  - apply Forall_app. split; [done|]. repeat constructor; by apply stream_ok_new.
  - intros i l [[-> <-]|[Hne Hl]]%lookup_insert_Some.
    + by rewrite lookup_app_r, Nat.sub_diag by lia.
    + specialize (si_streams0 _ _ Hl). destruct (heap s !! l) as [st|] eqn:E; [|done].
      erewrite lookup_app_l_Some by exact E. done.
  - eapply Forall_impl; [exact si_accept_valid0|]. intros l [st Hl].
    exists st. by apply lookup_app_l_Some.
  - rewrite length_app. lia.
  - cbn. rewrite lookup_app_r, Nat.sub_diag by lia. by eexists.
Qed.

Lemma good_allocate s :
  I s -> good s (allocate cfg s).1 /\
  (forall sid l, (allocate cfg s).2 = Some (sid, l) -> 0 <= sid < 2 ^ 32).
Proof.
  intros Hs. unfold allocate. destruct (Z.leb_spec MaxStreamID (nextStreamID s)) as [|Hlt].
  { split; [by apply good_refl | done]. }
  unfold MaxStreamID in *. pose proof (si_next _ Hs) as [Hr Hp].
  set (s1 := set_nextStreamID _ _).
  assert (good s s1) as [Hs1 Hle].
  { subst s1. destruct Hs. good_tac.
    - rewrite u32_small by lia. split; [lia|].
      replace (nextStreamID s + 2) with (nextStreamID s + 1 * 2) by lia. by rewrite Z.mod_add.
    - rewrite u32_small by lia. constructor; [unfold MaxStreamID; lia|].
      eapply Forall_impl; [exact si_opened0|]. cbn. intros i Hi. lia.
    - constructor; [|done]. intros Hin. rewrite Forall_forall in si_opened0.
      specialize (si_opened0 _ Hin). lia.
    - rewrite u32_small; lia. }
  destruct (good_register s1 (nextStreamID s) Hs1) as [[Hi [? ? ? ? ?]] _]; [lia|].
  split; [split; [exact Hi|] | intros sid l [= <- <-]; lia].
  destruct Hle. constructor; cbn in *; auto.
Qed.

(** ** Actions *)

Lemma elem_if {A} (b : bool) (x y : A) : x ∈ (if b then [y] else []) -> b = true /\ x = y.
Proof. destruct b; [by intros ->%list_elem_of_singleton | by intros ?%not_elem_of_nil]. Qed.

(** Enumerate the outcomes of an action. *)
Ltac outcomes :=
  repeat match goal with
         | H : _ ∈ _ ++ _ |- _ => apply elem_of_app in H as [H|H]
         | H : _ ∈ (if _ then [_] else []) |- _ => apply elem_if in H as [? H]
         | H : _ ∈ [_] |- _ => apply list_elem_of_singleton in H
         | H : _ ∈ [] |- _ => by apply not_elem_of_nil in H
         | H : _ ∈ _ :: _ |- _ => apply elem_of_cons in H as [H|H]
         | H : (_, _) = (_, _) |- _ => injection H as -> ->
         end; to_prop.

(** Start the proof of an action: its outcomes, one by one. *)
Ltac start_act :=
  apply safe_act; [done|]; apply good_keeps; intros ? ? ? Hs HP Hin; cbn in Hin; outcomes;
  try (split; [by apply good_refl | done]).

Lemma ok_ret {R} (r : R) (P : Session -> Prop) (Φ : R -> Session -> Prop) :
  (forall s, I s -> P s -> Φ r s) -> safe P (Ret r) Φ.
Proof. done. Qed.

Lemma ok_get {A} (g : Session -> A) (Q : A -> Prop) :
  (forall s, I s -> Q (g s)) -> safe any (get g) (fun a _ => Q a).
Proof. intros Hg. apply safe_act; [by intros a ? ?|]. apply good_keeps.
  intros s s' a Hs _ Hin. outcomes. split; [by apply good_refl | auto].
Qed.

Lemma ok_upd g : (forall s, I s -> good s (g s)) -> ok (upd g).
Proof. intros Hg. start_act. auto. Qed.

Lemma ok_locked {A} (f : Session -> list (Session * A)) P Q :
  (forall a, stable I G (Q a)) -> keeps I G P f Q -> safe P (locked f) Q.
Proof.
  intros Hst Hf. apply safe_act; [done|]. intros s s' a Hs HP Hin. cbn in Hin.
  destruct (streamsMu s); [by apply not_elem_of_nil in Hin | by apply (Hf s)].
Qed.

Lemma ok_read_locked {A} l (f : Stream -> Stream * A) d :
  respects (fun st => (f st).1) -> ok (read_locked l f d).
Proof.
  intros Hf. start_act. destruct (heap s !! l) as [st|] eqn:E.
  2:{ outcomes. split; [by apply good_refl | done]. }
  destruct (readMu st); outcomes. split; [|done].
  assert (on_stream l (fun _ => (f st).1) s = on_stream l (fun st => (f st).1) s) as ->.
  { unfold on_stream. f_equal. apply list_eq. intros i. destruct (decide (l = i)) as [->|];
      [by rewrite !list_lookup_alter_eq, E | by rewrite !list_lookup_alter_ne]. }
  by apply good_on_stream.
Qed.

Lemma ok_stream_upd l g : respects g -> ok (upd (on_stream l g)).
Proof. intros Hg. apply ok_upd. intros s Hs. by apply good_on_stream. Qed.

Lemma ok_send f : wire_frame f -> ok (send_or_done f).
Proof. intros Hf. start_act. auto using good_push. Qed.

Lemma ok_try_send f : wire_frame f -> ok (try_send f).
Proof.
  intros Hf. apply ok_upd. intros s Hs.
  destruct (Z.ltb_spec (len (writeCh s)) writeCap); auto using good_push, good_refl.
Qed.

Ltac so := intros st0 Hso; cbn; destruct Hso as (? & ? & ?); repeat split; cbn; auto; lia.

Lemma ok_signalRead l : ok (signalRead l).
Proof. apply ok_stream_upd. so. Qed.

Lemma ok_onFin l : ok (onFin l).
Proof. safe_step; [apply ok_read_locked; so | apply ok_signalRead]. Qed.

Lemma ok_onRst l : ok (onRst l).
Proof. safe_step; [apply ok_read_locked; so | apply ok_signalRead]. Qed.

Lemma ok_onData l p : ok (onData l p).
Proof.
  safe_step; [apply ok_read_locked | apply ok_signalRead].
  intros st (? & ? & ?). unfold stream_ok in *. cbn [fst].
  destruct (Z.ltb_spec (maxReadBuf st) (len (readBuf st) + len p)); cbn; rewrite ?length_app;
    split_and!; auto; lia.
Qed.

(** A critical section whose only outcome leaves the state alone. *)
Lemma ok_peek {A} (g : Session -> A) : ok (locked (fun s => [(s, g s)])).
Proof.
  apply ok_locked; [done|]. apply good_keeps. intros s s' a Hs _ Hin. outcomes.
  split; [by apply good_refl | done].
Qed.

Lemma ok_removeStream sid : ok (removeStream sid).
Proof.
  apply ok_locked; [done|]. apply good_keeps. intros s s' a Hs _ Hin. outcomes.
  split; [by apply good_delete | done].
Qed.

Lemma ok_release : ok (release_slot cfg).
Proof.
  unfold release_slot. destruct (0 <? MaxStreams cfg); [|done]. apply ok_upd. intros s Hs.
  pose proof (si_slots _ Hs). destruct (Z.ltb_spec 0 (streamSlotCh s)); [|by apply good_refl].
  apply good_slots; [done | lia..].
Qed.

Local Hint Resolve ok_ret ok_signalRead ok_onFin ok_onRst ok_onData ok_peek
  ok_removeStream ok_release ok_send ok_try_send : core.

Lemma ok_once {A} g p (body : M A) skip :
  (forall s o, I s -> good s (p o s)) -> ok body -> ok (run_once g p body skip).
Proof.
  intros Hp Hb. unfold run_once. eapply (safe_bind _ _ _ _ _ (fun _ => any)).
  - apply safe_act; [done|]. apply good_keeps. intros s s' a Hs _ Hin.
    destruct (g s) eqn:E; outcomes; auto using good_refl.
  - intros []; [|done]. safe_step; [exact Hb|]. cbn beta. safe_step; [|by apply ok_ret].
    apply ok_upd. auto.
Qed.

Lemma good_once s o : I s -> good s (set_once o s).
Proof. intros []. good_tac. Qed.

Lemma ok_fin_all ls : ok (fin_all ls).
Proof. induction ls as [|l ls IH]; [by apply ok_ret|]. cbn [fin_all]. safe_step; auto. Qed.

Lemma ok_shutdown : ok shutdown_streams.
Proof.
  unfold shutdown_streams. eapply (safe_bind _ _ _ _ _ (fun _ => any)).
  - apply ok_locked; [done|]. apply good_keeps.
    intros s s' ls Hs _ (ls' & [= -> ->] & _)%list_elem_of_fmap.
    split; [|done]. destruct Hs. good_tac.
  - intros ls. safe_step; [apply ok_fin_all|]. apply ok_upd.
    intros s []. good_tac. intros i l Hl. by rewrite lookup_empty in Hl.
Qed.

Lemma ok_close_conn : ok close_conn.
Proof. apply ok_upd. intros s []. good_tac. Qed.
Local Hint Resolve ok_shutdown ok_close_conn : core.

(** [closed] is set before [doneCh] is closed. *)
Lemma stable_closed : stable I G (fun s => closed s = true).
Proof. intros s s' _ _ Hc [_ H _ _ _]. auto. Qed.

Lemma ok_close_flags (rest : M unit) :
  ok rest ->
  ok (locked (fun s => [(set_closed true s, tt)]);;; upd (set_doneCh true);;; rest)%prog.
Proof.
  intros Hr. eapply (safe_bind _ _ _ _ _ (fun _ s => closed s = true)).
  - apply ok_locked; [intros _; apply stable_closed|]. apply good_keeps.
    intros s s' a [] _ Hin. outcomes. split; [good_tac | done].
  - intros _. eapply (safe_bind _ _ _ _ _ (fun _ => any)); [|auto].
    apply safe_act; [done|]. apply good_keeps. intros s s' a [] Hc Hin. outcomes.
    split; [good_tac | done].
Qed.

Lemma ok_Close : ok Close.
Proof.
  apply ok_once; [intros; by apply good_once|]. apply ok_close_flags.
  safe_step; [auto|]. safe_step; auto.
Qed.

Lemma ok_abort : ok abort.
Proof.
  apply ok_once; [intros; by apply good_once|]. apply ok_close_flags. safe_step; auto.
Qed.
Local Hint Resolve ok_Close ok_abort : core.

(** ** Opening and accepting *)
Lemma ok_take_slot c : ok (take_slot cfg c).
Proof.
  start_act. pose proof (si_slots _ Hs). split; [|done]. apply good_slots; auto; lia.
Qed.

Lemma ok_open_allocated : ok (open_allocated cfg).
Proof.
  unfold open_allocated.
  eapply (safe_bind _ _ _ _ _ (fun a _ => forall sid l, a = Some (sid, l) -> 0 <= sid < 2 ^ 32)).
  - apply ok_locked; [by intros a ? ?|]. apply good_keeps. intros s s' a Hs _ Hin.
    pose proof (good_allocate s Hs) as [Ha Hid].
    apply list_elem_of_singleton in Hin. rewrite <-Hin in *. done.
  - intros [[sid l]|]; apply safe_pure; intros Ha.
    + safe_step; [apply ok_send, wire_syn; eauto|]. cbn beta. case_goal; [done|].
      safe_step; [auto | done].
    + eapply (safe_bind _ _ _ _ _ (fun _ => any)); [|done].
      destruct (0 <? MaxStreams cfg); [|done].
      start_act. pose proof (si_slots _ Hs). split; [|done]. apply good_slots; auto; lia.
Qed.

Lemma ok_OpenStream : ok (OpenStream cfg).
Proof.
  unfold OpenStream, IsClosed. safe_step; [auto|]. cbn beta. case_goal; [done|].
  destruct (0 <? MaxStreams cfg); [|apply ok_open_allocated].
  safe_step; [apply ok_take_slot|]. cbn beta. case_goal; [apply ok_open_allocated| |done].
  safe_step; [auto | done].
Qed.

Lemma ok_AcceptStream : ok AcceptStream.
Proof.
  unfold AcceptStream, IsClosed. safe_step; [auto|]. cbn beta. case_goal; [done|].
  start_act. destruct (acceptCh s) as [|l ls] eqn:E; outcomes. split; [|done].
  destruct Hs. rewrite E in *. good_tac; cbn in *; try lia. by inversion si_accept_valid0.
Qed.

(** ** Handlers *)
Lemma ok_handleData f : ok (handleData f).
Proof. unfold handleData, lookup_stream. safe_step; [auto|]. cbn beta. case_goal; auto. Qed.

Lemma ok_handleFin f : ok (handleFin f).
Proof.
  unfold handleFin, lookup_stream. safe_step; [auto|]. cbn beta. case_goal; [|done].
  safe_step; [auto|]. safe_step; [by apply (ok_get _ (fun _ => True))|]. cbn beta. case_goal; auto.
Qed.

Lemma ok_handleRst f : ok (handleRst cfg f).
Proof.
  unfold handleRst, lookup_stream. safe_step; [auto|]. cbn beta. case_goal; [|done].
  safe_step; [auto|]. safe_step; auto.
Qed.

Lemma ok_handleHandshakeSyn f : ok (handleHandshakeSyn clientMode f).
Proof.
  unfold handleHandshakeSyn. destruct (negb _); [done|].
  eapply (safe_bind _ _ _ _ _ (fun _ => any)).
  - destruct (negb clientMode); [|done]. safe_step; [|done].
    apply ok_send. apply (wire_syn 0 true). lia.
  - intros _. apply ok_upd. intros s []. good_tac.
Qed.

Lemma stable_valid l : stable I G (fun s => is_Some (heap s !! l)).
Proof.
  intros s s' _ _ Hl [Hle _ _ _ _]. apply lookup_lt_is_Some in Hl.
  apply lookup_lt_is_Some. lia.
Qed.

Lemma ok_handleSyn f : 0 <= StreamID f < 2 ^ 32 -> ok (handleSyn cfg f).
Proof.
  intros Hf. unfold handleSyn, lookup_stream. destruct (negb _); [done|].
  safe_step; [auto|]. cbn beta. destruct (bool_decide _); [done|].
  safe_step; [by apply (ok_get _ (fun _ => True))|]. cbn beta.
  destruct (_ <=? _). { safe_step; [apply ok_send; auto | done]. }
  eapply (safe_bind _ _ _ _ _ (fun _ => any)).
  { destruct (0 <? MaxStreams cfg); [|done]. safe_step; [apply ok_take_slot | done]. }
  intros ok. destruct (negb ok); [done|].
  eapply (safe_bind _ _ _ _ _ (fun l s => is_Some (heap s !! l))).
  { apply ok_locked; [apply stable_valid|]. apply good_keeps. intros s s' l Hs _ Hin.
    pose proof (good_register s (StreamID f) Hs Hf) as Hr.
    apply list_elem_of_singleton in Hin. rewrite <-Hin in *. done. }
  intros l. eapply (safe_bind _ _ _ _ _ (fun _ s => is_Some (heap s !! l))).
  { eapply safe_weaken.
    - apply (safe_frame _ _ _ any _ (fun _ => any) (stable_valid l)). apply ok_send, wire_syn, Hf.
    - done.
    - by intros r' s _ [_ ?]. }
  intros sent. destruct (negb sent); [done|].
  apply safe_act; [done|]. apply good_keeps. intros s s' a Hs HP Hin.
  outcomes; (split; [|done]); [|by apply good_refl].
  destruct Hs. good_tac; [rewrite length_app; cbn; lia|]. apply Forall_app. auto.
Qed.

Lemma ok_dispatch f : 0 <= StreamID f < 2 ^ 32 -> ok (dispatch cfg clientMode f).
Proof.
  intros Hf. unfold dispatch.
  repeat case_goal; auto using ok_handleData, ok_handleSyn, ok_handleFin, ok_handleRst,
    ok_handleHandshakeSyn.
Qed.

(** ** Background goroutines *)
Lemma ok_reader clock : ok (reader cfg clientMode clock).
Proof.
  induction clock as [|now clock IH]; [done|]. cbn [reader].
  eapply (safe_bind _ _ _ _ _ (fun o _ => forall f, o = Some f -> 0 <= StreamID f < 2 ^ 32)).
  - apply safe_act; [by intros a ? ?|]. apply good_keeps. intros s s' a Hs _ Hin.
    unfold recv in Hin.
    destruct (readFrame _ _) as [[f rest]|[e|x y]] eqn:E; outcomes;
      (split; [try by apply good_refl | try done]).
    + destruct Hs. good_tac.
    + intros f' [= <-]. apply readFrame_sound in E as [Hok _]; [apply Hok | lia].
  - intros [f|]; apply safe_pure; intros Hf; [|auto].
    safe_step. { apply ok_upd. intros s []. good_tac. }
    safe_step. { apply ok_upd. intros s []. good_tac. }
    cbn beta. destruct (negb _); [safe_step; auto|].
    safe_step; [apply ok_dispatch; auto | done].
Qed.

Lemma ok_writer n : ok (writer n).
Proof.
  induction n as [|n IH]; [done|]. cbn [writer].
  eapply (safe_bind _ _ _ _ _ (fun o _ => forall f, o = Some f -> wire_frame f)).
  - apply safe_act; [by intros a ? ?|]. apply good_keeps. intros s s' a Hs _ Hin. outcomes.
    + destruct (writeCh s) as [|f fs] eqn:E; outcomes. destruct Hs. rewrite E in *.
      inversion si_queued0; subst. split; [good_tac; cbn in *; lia | by intros f' [= <-]].
    + split; [by apply good_refl | done].
  - intros [f|]; apply safe_pure; intros Hf; [|done].
    eapply (safe_bind _ _ _ _ _ (fun _ => any)).
    + apply safe_act; [done|]. apply good_keeps. intros s s' a Hs _ Hin.
      unfold conn_write in Hin. destruct (connClosed (conn s)); outcomes;
        (split; [|done]); try by apply good_refl.
      destruct Hs. good_tac.
      * destruct si_sent0 as (fs & -> & Hfs). exists (fs ++ [f]).
        rewrite fmap_app, join_app. cbn. rewrite app_nil_r. split; [done|].
        apply Forall_app. auto.
      * by eexists.
    + intros []; [|auto]. safe_step; [apply ok_upd; intros s []; good_tac | done].
Qed.

Lemma ok_keepalive_ticks timeout ticks : ok (keepalive_ticks timeout ticks).
Proof.
  induction ticks as [|now ticks IH]; [done|]. cbn [keepalive_ticks].
  eapply (safe_bind _ _ _ _ _ (fun _ => any)); [start_act|]. intros []; [done|].
  eapply (safe_bind _ _ _ _ _ (fun _ => any)).
  { start_act. split; [by apply good_push | done]. }
  intros [[]|]; auto. safe_step; [by apply (ok_get _ (fun _ => True))|]. cbn beta.
  case_goal; auto.
Qed.

Lemma ok_keepaliveLoop start ticks : ok (keepaliveLoop cfg start ticks).
Proof.
  unfold keepaliveLoop. safe_step; [|apply ok_keepalive_ticks].
  apply ok_upd. intros s []. good_tac.
Qed.

Lemma ok_establish : ok (establish clientMode).
Proof.
  assert (ok wait_handshake) as Hw by start_act.
  unfold establish, handshake. eapply (safe_bind _ _ _ _ _ (fun _ => any)).
  - destruct clientMode; [|exact Hw]. eapply (safe_bind _ _ _ _ _ (fun _ => any)).
    + start_act. split; [|done]. apply good_push; [done| |done]. apply (wire_syn 0 false). lia.
    + intros []; [exact Hw | done].
  - intros []; [done|]. safe_step; auto.
Qed.

(** ** Stream operations *)
Lemma respects_buf_read n : respects (fun st => (buf_read n st).1).
Proof.
  intros st (? & ? & ?). unfold stream_ok. cbn. rewrite length_drop. repeat split; auto; lia.
Qed.

Lemma ok_read_pass l n : ok (read_pass l n).
Proof.
  unfold read_pass, IsClosed, unlock_read, stream_flag.
  assert (forall b, ok (upd (on_stream l (set_readMu b)))) as Hmu.
  { intros b. apply ok_stream_upd. so. }
  eapply (safe_bind _ _ _ _ _ (fun _ => any)).
  - apply safe_act; [done|]. apply good_keeps. intros s s' a Hs _ Hin. split; [|done].
    destruct (heap s !! l) as [st|]; [|by outcomes; apply good_refl].
    destruct (readMu st); [by outcomes|].
    destruct (0 <? _). { outcomes. apply good_on_stream; [done | apply respects_buf_read]. }
    destruct (resetErr st); [by outcomes; apply good_refl|].
    destruct (remoteClosed st); outcomes; [by apply good_refl|].
    apply good_on_stream; [done | so].
  - intros [b|e|]; [done..|].
    safe_step; [by apply (ok_get _ (fun _ => True))|]. cbn beta. case_goal.
    { safe_step; [apply Hmu | done]. }
    safe_step; [apply ok_peek|]. cbn beta. case_goal; (safe_step; [apply Hmu | done]).
Qed.

Lemma ok_Read rounds l n : ok (Read rounds l n).
Proof.
  induction rounds as [|rounds IH]; [done|]. cbn [Read].
  safe_step; [apply ok_read_pass|]. cbn beta. case_goal; [done..|].
  eapply (safe_bind _ _ _ _ _ (fun _ => any)).
  - start_act. split; [|done]. apply good_on_stream; [done | so].
  - intros []; [done|]. safe_step; [|done]. apply ok_read_locked. intros st Hst.
    pose proof (respects_buf_read n st Hst). by destruct (0 <? _).
Qed.

Lemma ok_write_loop fuel : forall sid total b,
  0 <= sid < 2 ^ 32 -> ok (write_loop cfg fuel sid total b).
Proof.
  induction fuel as [|fuel IH]; intros sid total b Hsid; [by destruct b|].
  destruct b as [|x b]; [done|]. cbn [write_loop].
  safe_step; [apply ok_send, wire_data; [done|]|].
  - rewrite length_take. lia.
  - cbn beta. case_goal; [by apply IH | done].
Qed.

Lemma ok_stream_id l : safe any (stream_id l) (fun sid _ => 0 <= sid < 2 ^ 32).
Proof.
  apply (ok_get _ (fun sid => 0 <= sid < 2 ^ 32)). intros s Hs.
  destruct (heap s !! l) as [st|] eqn:E; cbn; [|lia].
  pose proof (si_heap _ Hs) as Hh. rewrite Forall_lookup in Hh. apply (Hh l st E).
Qed.

Lemma ok_Write l b : ok (Write cfg l b).
Proof.
  unfold Write, stream_flag, IsClosed.
  safe_step; [by apply (ok_get _ (fun _ => True))|]. cbn beta. case_goal; [done|].
  safe_step; [apply ok_peek|]. cbn beta. case_goal; [done|].
  safe_step; [apply ok_stream_id|]. cbn beta. apply safe_pure. intros. by apply ok_write_loop.
Qed.

Lemma ok_stream_Close l : ok (stream_Close cfg l).
Proof.
  apply ok_once. { intros s o Hs. apply good_on_stream; [done | so]. }
  safe_step; [apply ok_stream_upd; so|]. safe_step; [apply ok_stream_id|]. cbn beta.
  apply safe_pure. intros Hid. safe_step; [auto|]. safe_step; [auto|]. safe_step; auto.
Qed.

(** What may run at any time in any number: the calls of the application
    and of the network. *)
Inductive api : M unit -> Prop :=
| api_open : api (OpenStream cfg;;; Ret tt)%prog
| api_accept : api (AcceptStream;;; Ret tt)%prog
| api_read rounds l n : api (Read rounds l n;;; Ret tt)%prog
| api_write l b : api (Write cfg l b;;; Ret tt)%prog
| api_close_stream l : api (stream_Close cfg l)
| api_close : api Close
| api_count : api (NumStreams;;; Ret tt)%prog
| api_arrive b : api (conn_arrive b)
| api_fail : api conn_fail.

Lemma ok_api p : api p -> ok p.
Proof.
  assert (forall A (q : M A), ok q -> ok (q;;; Ret tt)%prog) as Hd.
  { intros A q Hq. safe_step; [exact Hq | done]. }
  intros []; auto using ok_OpenStream, ok_AcceptStream, ok_Read, ok_Write, ok_stream_Close.
  - apply Hd, ok_peek.
  - apply ok_upd. intros s []. good_tac.
  - apply ok_upd. intros s []. good_tac.
Qed.

Lemma newSession_inv : sess_inv (newSession clientMode).
Proof.
  unfold newSession. constructor; cbn; try done; try lia.
  - by exists [].
  - unfold parity. by destruct clientMode.
  - by constructor.
Qed.

(** The goroutines of a session after [Client] or [Server]. *)
Definition goroutines (clock : list Z) (rounds : nat) (start : Z) (ticks : list Z)
    : list (M unit) :=
  [reader cfg clientMode clock; writer rounds;
   if clientMode && (0 <? PingInterval cfg) then keepaliveLoop cfg start ticks else Ret tt;
   (establish clientMode;;; Ret tt)%prog].

Lemma goroutines_ok clock rounds start ticks :
  Forall (fun p => ok p) (goroutines clock rounds start ticks).
Proof.
  unfold goroutines. repeat constructor.
  - apply ok_reader.
  - apply ok_writer.
  - case_goal; [apply ok_keepaliveLoop | done].
  - safe_step; [apply ok_establish | done].
Qed.

End Invariant.
End Safety.
