(* ===== verification/SmuxProps.v ===== *)
(** * Properties of smux sessions

    What holds of every reachable state of a session, what a session that was
    closed guarantees to blocked callers, the deadlock of [Read] and [Close]
    with the proof that it lasts, and an execution in which the slot
    accounting goes wrong. *)
From stdpp Require Import prelude gmap list.
From Stdlib Require Import Strings.Byte ZArith Lia.
From S2P Require Import Prelude GoBytes Conc SmuxFrame SmuxSession SmuxSafety.
Local Open Scope Z_scope.

Module SessionProps.
Import Smux Session Safety.

(** Reading frame after frame until the input ends or an error. *)
Fixpoint read_frames (fuel : nat) (r : list byte) (maxPayload : Z) : list frame * list byte :=
  match fuel with
  | O => ([], r)
  | S fuel =>
      match readFrame r maxPayload with
      | Ok (f, rest) => let '(fs, rest) := read_frames fuel rest maxPayload in (f :: fs, rest)
      | Err _ => ([], r)
      end
  end.

Lemma read_frames_complete cfg fs rest :
  0 <= MaxFrameSize cfg < 2 ^ 32 -> Forall (wire_frame cfg) fs ->
  read_frames (length fs) (mjoin (writeFrame <$> fs) ++ rest) (MaxFrameSize cfg) = (fs, rest).
Proof.
  intros Hm. induction 1 as [|f fs (Hok & _ & Hl) _ IH]; [done|].
  rewrite fmap_cons. cbn [read_frames length].
  change (mjoin (writeFrame f :: (writeFrame <$> fs)))
    with (writeFrame f ++ mjoin (writeFrame <$> fs)).
  rewrite <-app_assoc, readFrame_complete by done. by rewrite IH.
Qed.

Section Reachable.
Context (cfg0 : Config) (clientMode : bool) (clock : list Z) (rounds : nat)
  (start : Z) (ticks : list Z).
Abbreviation cfg := (validateConfig cfg0).

(** A session, its background goroutines, and any calls of the application
    and events of the network, in any order and interleaving. *)
Definition session_reach (c : config Session) : Prop :=
  reach (api cfg) (newSession clientMode, goroutines cfg clientMode clock rounds start ticks) c.

Lemma session_reach_inv c : session_reach c -> sess_inv cfg clientMode c.1.
Proof.
  intros Hr. pose proof (validateConfig_frame cfg0). pose proof (validateConfig_backlog cfg0).
  eapply (safe_reach (sess_inv cfg clientMode) (sess_le)) in Hr as [Hi _]; [done|..].
  - by apply newSession_inv.
  - by apply goroutines_ok.
  - intros p Hp. by apply ok_api.
Qed.
End Reachable.

(** ** Concrete executions *)

(** A session on which calls are started and scheduled; the schedule names
    goroutines (0 the reader, 1 the writer, 2 the keepalive, 3 the handshake,
    then the calls in the order they were started) and outcomes. *)
Definition execute (cfg0 : Config) (clientMode : bool) (clock : list Z) (rounds : nat)
    (calls : list (M unit)) (sched : list (nat * nat)) : option (config Session) :=
  run_schedule sched
    (newSession clientMode,
     goroutines (validateConfig cfg0) clientMode clock rounds 0 [] ++ calls).

Lemma execute_reach cfg0 clientMode clock rounds calls sched c :
  Forall (api (validateConfig cfg0)) calls ->
  execute cfg0 clientMode clock rounds calls sched = Some c ->
  session_reach cfg0 clientMode clock rounds 0 [] c.
Proof.
  intros Hc He. eapply run_schedule_reach; [|exact He]. clear He sched.
  induction calls as [|p calls IH] using rev_ind.
  - rewrite app_nil_r. constructor.
  - apply Forall_app in Hc as [Hc Hp]. inversion Hp; subst. rewrite app_assoc.
    apply reach_spawn; auto.
Qed.

(** One stream opened and its SYN frame written. *)
Definition open_one (clientMode : bool) : option (config Session) :=
  execute DefaultConfig clientMode [] 1
    [(OpenStream (validateConfig DefaultConfig);;; Ret tt)%prog]
    [(4, 0); (4, 0); (4, 0); (4, 0); (1, 0); (1, 0); (1, 0)]%nat.

(** The stream IDs and the number of bytes sent at the end of a run. *)
Definition observe (c : option (config Session)) : option (list Z * Z * Z) :=
  (fun c => (opened c.1, len (tx (conn c.1)), Z.of_nat (size (streams c.1)))) <$> c.

Lemma open_one_client : observe (open_one true) = Some ([1], 12, 1).
Proof. vm_compute. reflexivity. Qed.

Lemma open_one_server : observe (open_one false) = Some ([2], 12, 1).
Proof. vm_compute. reflexivity. Qed.

Lemma open_one_reach b : exists s pool,
  session_reach DefaultConfig b [] 1 0 [] (s, pool) /\
  opened s = [if b then 1 else 2] /\ len (tx (conn s)) = 12.
Proof.
  pose proof open_one_client as Hc. pose proof open_one_server as Hs.
  assert (observe (open_one b) = Some ([if b then 1 else 2], 12, 1)) as Ho by by destruct b.
  clear Hc Hs. unfold observe in Ho. destruct (open_one b) as [[s pool]|] eqn:E; [|done].
  cbn in Ho. injection Ho as Ho Ht _. exists s, pool. split_and!; [|done..].
  eapply execute_reach; [|exact E]. repeat constructor.
Qed.

(** C6. Resource bounds of a session under every interleaving: whatever the
    peer sends and however calls and goroutines interleave, no stream ever
    buffers more than its cap, the write queue stays within 256 frames, the
    accept queue within the backlog, the slot count within MaxStreams, and
    every registered or accepted stream ID leads to a live object with that
    ID. *)
Theorem session_bounds cfg0 clientMode clock rounds start ticks s pool :
  session_reach cfg0 clientMode clock rounds start ticks (s, pool) ->
  let cfg := validateConfig cfg0 in
  (forall l st, heap s !! l = Some st ->
     len (readBuf st) <= (if WriteBufferSize cfg <=? 0 then 262144 else WriteBufferSize cfg)) /\
  len (writeCh s) <= 256 /\ len (acceptCh s) <= AcceptBacklog cfg /\
  (0 < MaxStreams cfg -> 0 <= streamSlotCh s <= MaxStreams cfg) /\
  (forall sid l, streams s !! sid = Some l -> exists st, heap s !! l = Some st /\ id st = sid) /\
  (forall l, l ∈ acceptCh s -> is_Some (heap s !! l)).
Proof.
  intros []%session_reach_inv cfg. cbn in *. split_and!; auto.
  - intros l st Hl. rewrite Forall_lookup in si_heap0. destruct (si_heap0 l st Hl) as (_ & ? & Hm).
    rewrite Hm in *. done.
  - intros. lia.
  - intros sid l Hl. specialize (si_streams0 _ _ Hl).
    destruct (heap s !! l) as [st|]; [|done]. injection si_streams0 as ?. eauto.
  - by apply Forall_forall.
Qed.

Lemma session_bounds_witness : exists s pool,
  session_reach DefaultConfig true [] 1 0 [] (s, pool) /\ len (writeCh s) <= 256.
Proof.
  destruct (open_one_reach true) as (s & pool & Hr & _). exists s, pool. split; [done|].
  apply (session_bounds DefaultConfig true [] 1 0 [] s pool Hr).
Defined.

(** Everything a session puts on the wire is well formed: at every
    reachable point the bytes handed to the connection are a sequence of
    complete frames of protocol version 1 within the frame size, and a peer
    that reads with the same frame size recovers exactly these frames. *)
Theorem session_output_decodable cfg0 clientMode clock rounds start ticks s pool rest :
  session_reach cfg0 clientMode clock rounds start ticks (s, pool) ->
  exists fs,
    read_frames (length fs) (tx (conn s) ++ rest) (MaxFrameSize (validateConfig cfg0))
      = (fs, rest) /\
    tx (conn s) = mjoin (writeFrame <$> fs) /\
    Forall (fun f => Version f = ProtocolVersion) fs.
Proof.
  intros Hr%session_reach_inv. destruct (si_sent _ _ _ Hr) as (fs & Htx & Hfs).
  exists fs. cbn in Htx. rewrite Htx. split_and!; [|done|].
  - apply read_frames_complete; [|done]. pose proof (validateConfig_frame cfg0). lia.
  - eapply Forall_impl; [exact Hfs|]. by intros f (_ & ? & _).
Qed.

Lemma session_output_decodable_witness : exists s pool fs,
  session_reach DefaultConfig true [] 1 0 [] (s, pool) /\ len (tx (conn s)) = 12 /\
  read_frames (length fs) (tx (conn s) ++ [x07]) (MaxFrameSize (validateConfig DefaultConfig))
    = (fs, [x07]).
Proof.
  destruct (open_one_reach true) as (s & pool & Hr & _ & Ht).
  destruct (session_output_decodable DefaultConfig true [] 1 0 [] s pool [x07] Hr) as (fs & Hf & _).
  exists s, pool, fs. auto.
Defined.

(** Stream IDs never collide: in every reachable pair of states of the
    two ends of a connection, all stream IDs ever allocated by the client and
    by the server are pairwise different, positive and below 2^31 - 1. *)
Theorem stream_ids_distinct cfg1 cfg2 cl1 cl2 r1 r2 t1 t2 k1 k2 s1 s2 p1 p2 :
  session_reach cfg1 true cl1 r1 t1 k1 (s1, p1) ->
  session_reach cfg2 false cl2 r2 t2 k2 (s2, p2) ->
  NoDup (opened s1 ++ opened s2) /\
  Forall (fun i => 0 < i < MaxStreamID) (opened s1 ++ opened s2).
Proof.
  intros H1%session_reach_inv H2%session_reach_inv.
  pose proof (si_opened _ _ _ H1) as O1. pose proof (si_opened _ _ _ H2) as O2.
  rewrite Forall_forall in O1, O2. cbn in *. split.
  - apply NoDup_app. split_and!; [apply H1| |apply H2].
    intros i Hi Hi'. destruct (O1 _ Hi) as (_ & _ & E1), (O2 _ Hi') as (_ & _ & E2).
    rewrite E1 in E2. done.
  - apply Forall_forall. intros i [Hi|Hi]%elem_of_app; [apply O1 in Hi | apply O2 in Hi]; lia.
Qed.

Lemma stream_ids_distinct_witness : exists s1 s2,
  opened s1 = [1] /\ opened s2 = [2] /\ NoDup (opened s1 ++ opened s2).
Proof.
  destruct (open_one_reach true) as (s1 & p1 & H1 & O1 & _).
  destruct (open_one_reach false) as (s2 & p2 & H2 & O2 & _).
  exists s1, s2. split_and!; [done..|].
  apply (stream_ids_distinct _ _ _ _ _ _ _ _ _ _ s1 s2 p1 p2 H1 H2).
Defined.

(** The session is done and no lock is held by a running call. *)
Definition done_unlocked (s : Session) : Prop :=
  doneCh s = true /\ streamsMu s = false /\
  forall l st, heap s !! l = Some st -> readMu st = false.

Lemma responsive_locked {A} (g : Session -> A) :
  responsive done_unlocked (locked (fun s => [(s, g s)])).
Proof. split; [|done]. intros s (_ & Hm & _). cbn. by rewrite Hm. Qed.

Lemma responsive_send f : responsive done_unlocked (send_or_done f).
Proof. split; [|done]. intros s (Hd & _). rewrite Hd. by destruct (_ <? _). Qed.

Lemma responsive_get {A} (g : Session -> A) : responsive done_unlocked (get g).
Proof. by split. Qed.

Lemma responsive_upd g : responsive done_unlocked (upd g).
Proof. by split. Qed.

Lemma responsive_read_locked {A} l (f : Stream -> Stream * A) d :
  responsive done_unlocked (read_locked l f d).
Proof.
  split; [|done]. intros s (_ & _ & Hr). destruct (heap s !! l) as [st|] eqn:E; [|done].
  by rewrite (Hr _ _ E).
Qed.

#[local] Hint Resolve responsive_locked responsive_send responsive_get responsive_upd
  responsive_read_locked : core.

Lemma responsive_Write cfg l b : responsive done_unlocked (Write cfg l b).
Proof.
  unfold Write, IsClosed, stream_flag, stream_id. apply responsive_bind; [auto|]. intros []; [done|].
  apply responsive_bind; [auto|]. intros []; [done|].
  apply responsive_bind; [auto|]. intros sid.
  generalize (length b) as fuel, 0 as total. intros fuel. revert b.
  induction fuel as [|fuel IH]; intros [|x b] total; cbn [write_loop]; try done.
  apply responsive_bind; [auto|]. intros []; [apply IH | done].
Qed.

Lemma responsive_Read rounds l n : responsive done_unlocked (Read rounds l n).
Proof.
  induction rounds as [|rounds IH]; [done|]. cbn [Read]. unfold read_pass, IsClosed, stream_flag, unlock_read.
  apply responsive_bind.
  - apply responsive_bind.
    + split; [|done]. intros s (_ & _ & Hr). destruct (heap s !! l) as [st|] eqn:E; [|done].
      rewrite (Hr _ _ E). repeat case_goal; done.
    + intros [b|e|]; [done..|]. apply responsive_bind; [auto|]. intros [];
        (apply responsive_bind; [auto|]); [done|]. intros []; (apply responsive_bind; [auto | done]).
  - intros [b|e|]; [done..|]. apply responsive_bind.
    + split; [|done]. intros s (Hd & _). rewrite Hd. by destruct (default _ _).
    + intros []; [apply IH|]. apply responsive_bind; [auto | done].
Qed.

(** Closing a session releases its callers: once [doneCh] is closed and
    no lock is held, none of [Read], [Write], [AcceptStream] and the
    handshake can be blocked at any of its steps, whatever the queues and
    buffers hold and whatever other goroutines do in between. *)
Theorem done_releases_callers cfg clientMode rounds l n b :
  responsive done_unlocked (Read rounds l n) /\
  responsive done_unlocked (Write cfg l b) /\
  responsive done_unlocked AcceptStream /\
  responsive done_unlocked (handshake clientMode).
Proof.
  split_and!; [apply responsive_Read | apply responsive_Write | |].
  - unfold AcceptStream, IsClosed. apply responsive_bind; [auto|]. intros []; [done|].
    split; [|done]. intros s _. by destruct (acceptCh s).
  - unfold handshake, wait_handshake.
    assert (responsive done_unlocked wait_handshake) as Hw.
    { split; [|done]. intros s _. by destruct (handshakeDone s). }
    destruct clientMode; [|exact Hw]. apply responsive_bind.
    + split; [|done]. intros s _. by destruct (_ <? _).
    + intros []; [exact Hw | done].
Qed.

(** *** A deadlock *)

(** The state in which [streamsMu] and the [readMu] of stream object [l0] are
    both taken. No goroutine that does not hold one of them already leaves
    it: critical sections of either lock do not begin, and everything else
    leaves both locks alone. *)
Section Deadlock.
Context (cfg : Config) (clientMode : bool) (l0 : nat).

Definition both_locked (s : Session) : Prop := streamsMu s = true /\ readMu <$> heap s !! l0 = Some true.
Abbreviation anything := (fun _ : Session => True).
Definition calm {A} (p : M A) : Prop := safe both_locked (fun _ _ => True) anything p (fun _ => anything).

Lemma safe_false {A} (p : M A) Φ : safe both_locked (fun _ _ => True) (fun _ => False) p Φ.
Proof.
  induction p as [r|B f k IH]; [by intros s _ []|]. exists (fun _ _ => False). split_and!; [by intros ? ? ? ? ? [] | by intros ? ? ? ? [] | exact IH].
Qed.

(** An action that cannot be taken: what follows does not matter. *)
Lemma calm_blocked {A B} (f : Session -> list (Session * A)) (q : A -> M B) :
  (forall s, both_locked s -> f s = []) -> calm (x <- act f;; q x)%prog.
Proof.
  intros Hf. eapply (safe_bind _ _ _ _ _ (fun _ _ => False)); [|intros r; apply safe_false].
  apply safe_act; [by intros ? ? ? ? ? []|]. intros s s' a Hs _ Hin. rewrite Hf in Hin by done. by apply not_elem_of_nil in Hin.
Qed.
Lemma calm_locked {A B} (f : Session -> list (Session * A)) (q : A -> M B) : calm (x <- locked f;; q x)%prog.
Proof. apply calm_blocked. by intros s [-> _]. Qed.

Lemma calm_act {A} (f : Session -> list (Session * A)) :
  (forall s s' a, both_locked s -> (s', a) ∈ f s -> both_locked s') -> calm (act f).
Proof. intros Hf. apply safe_act; [done|]. intros s s' a Hs _ Hin. split_and!; [by eapply Hf | done | done]. Qed.
Lemma calm_section {A} (f : Session -> list (Session * A)) : calm (locked f).
Proof. apply calm_act. intros s s' a [Hm _]. cbn. rewrite Hm. by intros ?%not_elem_of_nil. Qed.
Lemma calm_bind {A B} (p : M A) (q : A -> M B) : calm p -> (forall r, calm (q r)) -> calm (x <- p;; q x)%prog.
Proof. intros Hp Hq. eapply safe_bind; [exact Hp | exact Hq]. Qed.
Lemma calm_ret {A} (r : A) : calm (Ret r).
Proof. done. Qed.
Lemma calm_get {A} (g : Session -> A) : calm (get g).
Proof. apply calm_act. by intros s s' a Hs [= -> _]%list_elem_of_singleton. Qed.
Lemma calm_upd g : (forall s, both_locked s -> both_locked (g s)) -> calm (upd g).
Proof. intros Hg. apply calm_act. intros s s' a Hs [= -> _]%list_elem_of_singleton. auto. Qed.

(** The outcomes of a [select] that touches neither the streams nor the lock. *)
Lemma calm_select {A} (f : Session -> list (Session * A)) :
  (forall s s' a, (s', a) ∈ f s -> streamsMu s' = streamsMu s /\ heap s' = heap s) -> calm (act f).
Proof. intros Hf. apply calm_act. intros s s' a [H1 H2] [E1 E2]%Hf. unfold both_locked. by rewrite E1, E2. Qed.

Lemma both_on_stream l g s : both_locked s -> l <> l0 \/ (forall st, readMu (g st) = readMu st) -> both_locked (on_stream l g s).
Proof.
  intros [H1 H2] H. split; [done|]. cbn. destruct (decide (l = l0)) as [->|Hne]; [|by rewrite list_lookup_alter_ne].
  rewrite list_lookup_alter_eq. destruct H as [?|H]; [done|]. destruct (heap s !! l0); [|done]. cbn in *. by rewrite H.
Qed.
Lemma calm_stream l g : (forall st, readMu (g st) = readMu st) -> calm (upd (on_stream l g)).
Proof. intros Hg. apply calm_upd. intros s Hs. apply both_on_stream; auto. Qed.

Lemma calm_read_locked {A} l (f : Stream -> Stream * A) d : calm (read_locked l f d).
Proof.
  apply calm_act. intros s s' a Hs. cbn. destruct (heap s !! l) as [st|] eqn:E; [|by intros [= -> _]%list_elem_of_singleton].
  destruct (readMu st) eqn:Em; [by intros ?%not_elem_of_nil|]. intros [= -> _]%list_elem_of_singleton.
  apply both_on_stream; [done|]. left. intros ->. destruct Hs as [_ Hr]. rewrite E in Hr. cbn in Hr. congruence.
Qed.

Lemma calm_signal l : calm (signalRead l).
Proof. by apply calm_stream. Qed.
Lemma calm_push f : calm (try_send f).
Proof. apply calm_upd. intros s Hs. by destruct (_ <? _). Qed.

(** The outcomes of an action that has no critical section. *)
Ltac chosen :=
  intros ? ? ?; cbv beta; repeat match goal with
    | |- _ ∈ _ ++ _ -> _ => intros [H|H]%elem_of_app; revert H
    | |- context [if ?b then _ else _] => destruct b
    | |- context [match ?x with _ => _ end] => destruct x
    | |- _ ∈ [] -> _ => by intros ?%not_elem_of_nil
    | |- _ ∈ [_] -> _ => by intros [= -> _]%list_elem_of_singleton
    end.
Lemma calm_send f : calm (send_or_done f).
Proof. apply calm_select. chosen. Qed.

#[local] Hint Resolve calm_ret calm_get calm_signal calm_push calm_send calm_section calm_read_locked : core.
(** Walk through a program; [locked] ends the walk. *)
Ltac walk :=
  repeat first
    [ apply calm_locked | apply calm_bind; [solve [auto | by apply calm_upd | apply calm_select; chosen] | intros ?]
    | progress cbn beta | match goal with |- calm (match ?x with _ => _ end) => destruct x end | solve [auto | by apply calm_upd] ].

Lemma calm_once {A} g p (body : M A) skip :
  (forall s o, both_locked s -> both_locked (p o s)) -> calm body -> calm (run_once g p body skip).
Proof.
  intros Hp Hb. unfold run_once. apply calm_bind.
  - apply calm_act. intros s s' a Hs. destruct (g s);
      [intros [= -> _]%list_elem_of_singleton; auto | by intros ?%not_elem_of_nil | by intros [= -> _]%list_elem_of_singleton].
  - intros []; [|done]. apply calm_bind; [done|]. intros r. apply calm_bind; [by apply calm_upd; auto | done].
Qed.
Lemma calm_Close : calm Close.
Proof. apply calm_once; [done|]. apply calm_locked. Qed.
Lemma calm_abort : calm abort.
Proof. apply calm_once; [done|]. apply calm_locked. Qed.
#[local] Hint Resolve calm_Close calm_abort : core.

Lemma calm_dispatch f : calm (dispatch cfg clientMode f).
Proof.
  unfold dispatch, handleData, handleSyn, handleFin, handleRst, handleHandshakeSyn, lookup_stream.
  destruct (StreamID f =? 0); repeat case_goal; try done; try apply calm_locked; walk.
Qed.
Lemma calm_reader clock : calm (reader cfg clientMode clock).
Proof.
  induction clock as [|now clock IH]; [done|]. cbn [reader]. apply calm_bind; [|intros [f|]; [|auto]].
  - apply calm_select. unfold recv. chosen.
  - apply calm_bind; [by apply calm_upd|]. intros _. apply calm_bind; [by apply calm_upd|]. intros _.
    destruct (negb _); (apply calm_bind; [solve [auto | apply calm_dispatch] | auto]).
Qed.
Lemma calm_writer n : calm (writer n).
Proof.
  induction n as [|n IH]; [done|]. cbn [writer]. apply calm_bind; [apply calm_select; chosen|]. intros [f|]; [|done].
  apply calm_bind; [apply calm_select; unfold conn_write; chosen|]. intros []; [|auto].
  apply calm_bind; [by apply calm_upd | done].
Qed.
Lemma calm_keepalive timeout ticks : calm (keepalive_ticks timeout ticks).
Proof.
  induction ticks as [|now ticks IH]; [done|]. cbn [keepalive_ticks].
  apply calm_bind; [apply calm_select; chosen|]. intros []; [done|]. apply calm_bind; [apply calm_select; chosen|].
  intros [[]|]; [|done|auto]. apply calm_bind; [auto|]. intros last. destruct (_ <? _); auto.
Qed.
Lemma calm_establish : calm (establish clientMode).
Proof.
  assert (calm wait_handshake) as Hw by (apply calm_select; chosen).
  unfold establish, handshake. apply calm_bind; [|intros []; [done|]; apply calm_bind; auto].
  destruct clientMode; [|done]. apply calm_bind; [apply calm_select; chosen|]. intros []; auto.
Qed.

Lemma calm_Read rounds l n : calm (Read rounds l n).
Proof.
  induction rounds as [|rounds IH]; [done|]. cbn [Read]. apply calm_bind.
  - unfold read_pass. destruct (decide (l = l0)) as [->|Hne].
    + apply calm_blocked. intros s [_ Hr]. destruct (heap s !! l0) as [st|]; [|done]. cbn in Hr. injection Hr as Hr. by rewrite Hr.
    + apply calm_bind.
      * apply calm_act. intros s s' a Hs. destruct (heap s !! l) as [st|]; [|by intros [= -> _]%list_elem_of_singleton].
        repeat case_goal; try (by intros ?%not_elem_of_nil); intros [= -> _]%list_elem_of_singleton; try done; apply both_on_stream; auto.
      * intros [b|e|]; [done..|]. apply calm_bind; [apply calm_get|]. intros []; [|apply calm_locked].
        apply calm_bind; [|done]. apply calm_upd. intros s Hs. apply both_on_stream; auto.
  - intros [b|e|]; [done..|]. apply calm_bind.
    + apply calm_act. intros s s' a Hs [H|H]%elem_of_app; revert H; case_goal; try (by intros ?%not_elem_of_nil);
        intros [= -> _]%list_elem_of_singleton; [|done]. apply both_on_stream; auto.
    + intros []; [done|]. apply calm_bind; auto.
Qed.

Lemma calm_stream_Close l : calm (stream_Close cfg l).
Proof.
  apply calm_once; [intros s o Hs; apply both_on_stream; auto|].
  apply calm_bind; [by apply calm_stream|]. intros _. apply calm_bind; [apply calm_get|]. intros sid.
  apply calm_bind; [auto|]. intros _. apply calm_bind; [auto|]. intros _. apply calm_locked.
Qed.

Lemma calm_api p : api cfg p -> calm p.
Proof.
  intros []; try (by apply calm_locked); try (by apply calm_upd); auto.
  - apply calm_bind; [apply calm_Read | done].
  - apply calm_bind; [|done]. unfold Write. apply calm_bind; [apply calm_get|]. intros []; [done | apply calm_locked].
  - apply calm_stream_Close.
Qed.

Lemma calm_goroutines clock rounds start ticks : Forall calm (goroutines cfg clientMode clock rounds start ticks).
Proof.
  unfold goroutines. repeat constructor; [apply calm_reader | apply calm_writer | |].
  - case_goal; [|done]. apply calm_bind; [by apply calm_upd|]. intros _. apply calm_keepalive.
  - apply calm_bind; [apply calm_establish | done].
Qed.
End Deadlock.

(** A goroutine at an action it cannot take while both locks are held. *)
Definition blocked_by (l0 : nat) (p : M unit) : Prop :=
  match p with Act f _ => forall s, both_locked l0 s -> f s = [] | Ret _ => False end.

Lemma blocked_calm l0 p : blocked_by l0 p -> calm l0 p.
Proof.
  destruct p as [|A f k]; [done|]. intros Hf. exists (fun _ _ => False).
  split_and!; [by intros ? ? ? ? ? [] | | intros a; apply safe_false]. intros s s' a Hs _ Hin. rewrite Hf in Hin by done. by apply not_elem_of_nil in Hin.
Qed.

(** Two blocked goroutines stay where they are, whatever the others do. *)
Lemma blocked_forever cfg l0 c c' :
  both_locked l0 c.1 -> Forall (calm l0) c.2 -> reach (api cfg) c c' ->
  both_locked l0 c'.1 /\ forall i p, c.2 !! i = Some p -> blocked_by l0 p -> c'.2 !! i = Some p.
Proof.
  intros Hc Hp Hr.
  assert (forall c', reach (api cfg) c c' -> both_locked l0 c'.1) as Hinv.
  { intros c1 Hr1. destruct c as [s pool]. eapply (safe_reach (both_locked l0) (fun _ _ => True)) in Hr1 as [Hi _];
      [done | done | exact Hp | apply calm_api]. }
  split; [by apply Hinv|]. intros i p Hi Hb. induction Hr as [|c1 c2 Hr1 IH Hst|s pool q Hr1 IH Hq]; [done| |].
  - specialize (Hinv _ Hr1). destruct Hst as [j A f k s s' a pool Hj Hin]. cbn in *.
    destruct (decide (i = j)) as [->|Hne]; [|by rewrite list_lookup_insert_ne].
    rewrite IH in Hj. injection Hj as ->. cbn in Hb. rewrite Hb in Hin by done. by apply not_elem_of_nil in Hin.
  - cbn in *. by apply lookup_app_l_Some.
Qed.

Lemma run_schedule_steps sched : forall c c' : config Session, run_schedule sched c = Some c' -> rtc step c c'.
Proof.
  induction sched as [|[i j] sched IH]; intros [s pool] c' He; cbn in He; [by injection He as <-; constructor|].
  destruct (pool !! i) as [[r|A f k]|] eqn:Ei; [done| |done]. destruct (f s !! j) as [[s' a]|] eqn:Ej; [|done].
  eapply rtc_l; [|by apply IH]. econstructor; [exact Ei | by eapply list_elem_of_lookup_2].
Qed.

(** Goroutine [i] cannot move, and could if [release] were done for it; it
    would then run to its end and leave [held] free. *)
Definition waits (i : nat) (release : Session -> Session) (held : Session -> bool) (c : config Session) : Prop :=
  match c.2 !! i with Some (Act f _) => f c.1 = [] | _ => False end /\
  exists sched, Forall (fun o => o.1 = i) sched /\
    match run_schedule sched (release c.1, c.2) with
    | Some c' => c'.2 !! i = Some (Ret tt) /\ held c'.1 = false
    | None => False
    end.
Definition stream_locked (s : Session) : bool := default false (readMu <$> heap s !! 0%nat).

(** The schedule: the [OpenStream], the [Read] up to [IsClosed], the [Close]
    up to the first stream. *)
Definition collision : list (nat * nat) :=
  [(4, 0); (4, 0); (4, 0); (4, 0); (5, 0); (5, 0); (6, 0); (6, 0); (6, 0); (6, 0); (6, 0)]%nat.
Definition colliding_calls (k : nat) (n : Z) : list (M unit) :=
  [(OpenStream (validateConfig DefaultConfig);;; Ret tt)%prog; (Read (S k) 0 n;;; Ret tt)%prog; Close].

Lemma collision_reached g0 g1 g2 g3 k n : exists c,
  run_schedule collision (newSession true, [g0; g1; g2; g3] ++ colliding_calls k n) = Some c /\
  (exists p q, c.2 = [g0; g1; g2; g3; Ret tt; p; q] /\ blocked_by 0 p /\ blocked_by 0 q) /\ both_locked 0 c.1 /\
  waits 5 (set_streamsMu false) stream_locked c /\ waits 6 (on_stream 0 (set_readMu false)) streamsMu c.
Proof.
  destruct (run_schedule collision _) as [c|] eqn:E; [|vm_compute in E; discriminate].
  exists c. split; [done|]. vm_compute in E. injection E as <-. split_and!.
  - eexists _, _. split; [reflexivity|]. split.
    + intros [] [Hs _]. cbn in *. by rewrite Hs.
    + intros [? ? ? ? ? ? ? ? ? ? ? ? ? [|[] ?]] [_ Hs]; cbn in *; [done|]. injection Hs as ->. done.
  - split; reflexivity.
  - split; [vm_compute; reflexivity|]. exists [(5, 0); (5, 0)]%nat. split; [repeat constructor|]. vm_compute; split; reflexivity.
  - split; [vm_compute; reflexivity|]. exists [(6, 0); (6, 0); (6, 0); (6, 0); (6, 0)]%nat. split; [repeat constructor|].
    vm_compute; split; reflexivity.
Qed.

(** C39. [Read] calls [IsClosed] with [readMu] held, and [Close] signals the
    streams with [streamsMu] held: each of the two holds the lock the other
    one needs. On a client session with one stream, a [Read] that finds no
    data and a [Close], started after the background goroutines and the
    [OpenStream], reach a configuration in which the [Read] waits for
    [streamsMu] and would otherwise give back [readMu] and end, and the [Close] waits
    for [readMu] and would otherwise give back [streamsMu] and end. From then on neither ever
    returns or even moves, whatever calls are made, whatever arrives and
    however the other goroutines run: both locks stay taken. *)
Theorem Close_Read_deadlock clock rounds start ticks k n :
  let cfg := validateConfig DefaultConfig in
  exists c, rtc step (newSession true, goroutines cfg true clock rounds start ticks ++ colliding_calls k n) c /\
    waits 5 (set_streamsMu false) stream_locked c /\
    waits 6 (on_stream 0 (set_readMu false)) streamsMu c /\
    forall c', reach (api cfg) c c' ->
      streamsMu c'.1 = true /\ stream_locked c'.1 = true /\ c'.2 !! 5%nat = c.2 !! 5%nat /\ c'.2 !! 6%nat = c.2 !! 6%nat.
Proof.
  cbv zeta. unfold goroutines. set (g0 := reader _ _ _). set (g1 := writer _). set (g2 := if _ && _ then _ else _). set (g3 := (_;;; _)%prog).
  destruct (collision_reached g0 g1 g2 g3 k n) as (c & E & (p & q & Hc & Hp & Hq) & Hb & H5 & H6).
  exists c. split; [by eapply run_schedule_steps|]. split_and!; [done..|]. intros c' Hr.
  destruct (blocked_forever (validateConfig DefaultConfig) 0 c c' Hb) as [[H1 H2] H]; [|done|].
  { rewrite Hc. apply (Forall_app_2 _ [g0; g1; g2; g3]); [apply calm_goroutines|]. repeat constructor; by apply blocked_calm. }
  unfold stream_locked. rewrite H2. split_and!; [done | done | |].
  - rewrite (H 5%nat p), Hc by (rewrite ?Hc; done). done.
  - rewrite (H 6%nat q), Hc by (rewrite ?Hc; done). done.
Qed.
(** An RST frame gives the stream's slot back, and the application's own
    [Close] of the reset stream gives back another one: with MaxStreams 1 a
    session gets two streams open at once. Stream 1 is opened and reset by
    the peer, stream 3 takes the free slot, closing stream 1 frees a slot it
    no longer has, and stream 5 is opened beside stream 3. *)
Theorem MaxStreams_exceeded : exists c cfg0,
  session_reach cfg0 true [0] 0 0 [] c /\ MaxStreams (validateConfig cfg0) = 1 /\
  map_to_list (streams c.1) ≡ₚ [(3, 1%nat); (5, 2%nat)].
Proof.
  set (cfg0 := {| MaxStreams := 1; MaxFrameSize := 16384; WriteBufferSize := 0;
                  AcceptBacklog := 4; HandshakeTimeout := 0; StreamIdleTimeout := 0;
                  PingInterval := 0; PingTimeout := 0 |}).
  set (op := (OpenStream (validateConfig cfg0);;; Ret tt)%prog).
  destruct (execute cfg0 true [0] 0
    [op; conn_arrive (writeFrame (newRstFrame 1 1)); op; stream_Close (validateConfig cfg0) 0; op]
    ([(4, 0); (4, 0); (4, 0); (4, 0); (5, 0)]
     ++ replicate 8 (0, 0) ++ replicate 4 (6, 0) ++ replicate 8 (7, 0) ++ replicate 4 (8, 0))%nat)
    as [c|] eqn:E.
  - exists c, cfg0. split; [eapply execute_reach; [|exact E]; repeat constructor|].
    split; [done|]. vm_compute in E. injection E as <-. vm_compute.
    apply Permutation_swap.
  - vm_compute in E. discriminate.
Qed.

End SessionProps.
