(* ===== verification/SmuxData.v ===== *)
(** * The data path of smux

    From [Stream.Write] through the write queue, the connection and the
    peer's reader to the read buffer of the peer's stream: what each stage
    does when it runs undisturbed, and the composition. *)
From stdpp Require Import prelude gmap list.
From Stdlib Require Import Strings.Byte ZArith Lia.
From S2P Require Import Prelude GoBytes Conc SmuxFrame SmuxSession SmuxSafety.
Local Open Scope Z_scope.

Module DataPath.
Import Smux Session Safety.

(** ** The sending side *)

(** The frames [Write] cuts [b] into. *)
Fixpoint data_frames (fuel : nat) (maxFrame sid : Z) (b : list byte) : list frame :=
  match fuel, b with
  | S fuel, _ :: _ =>
      let n := Z.to_nat (Z.min (len b) maxFrame) in
      newDataFrame sid (take n b) :: data_frames fuel maxFrame sid (drop n b)
  | _, _ => []
  end.

Definition payloads (sid : Z) (fs : list frame) : list byte :=
  mjoin (Payload <$> filter (fun f => StreamID f = sid /\ Type_ f = FrameData) fs).

Lemma payloads_cons sid f fs :
  payloads sid (f :: fs) =
  (if decide (StreamID f = sid /\ Type_ f = FrameData) then Payload f else []) ++ payloads sid fs.
Proof.
  unfold payloads. rewrite filter_cons. destruct (decide _); [|done]. by rewrite fmap_cons.
Qed.

Lemma data_frames_payloads fuel : forall maxFrame sid b,
  0 < maxFrame -> (length b <= fuel)%nat -> payloads sid (data_frames fuel maxFrame sid b) = b.
Proof.
  induction fuel as [|fuel IH]; intros m sid [|x b] Hm Hf; try done; [cbn in Hf; lia|].
  cbn [data_frames]. rewrite payloads_cons, decide_True by done.
  rewrite IH; [apply take_drop | done |]. rewrite length_drop. cbn [length] in *. lia.
Qed.

Lemma data_frames_wire cfg fuel : forall sid b,
  64 <= MaxFrameSize cfg <= 65535 -> 0 <= sid < 2 ^ 32 ->
  Forall (fun f => wire_frame cfg f /\ Type_ f = FrameData /\ StreamID f = sid)
    (data_frames fuel (MaxFrameSize cfg) sid b).
Proof.
  induction fuel as [|fuel IH]; intros sid [|x b] Hm Hs; try by constructor.
  cbn [data_frames]. constructor; [|by apply IH]. split_and!; [|done..].
  apply wire_data; [done..|]. rewrite length_take. lia.
Qed.

(** The sender may send: its connection is up and it is not shut down. *)
Record can_send (s : Session) (l : nat) (st : Stream) : Prop := {
  cs_lookup : heap s !! l = Some st;
  cs_open : localClosed st = false;
  cs_closed : closed s = false;
  cs_done : doneCh s = false;
  cs_mu : streamsMu s = false;
  cs_conn : connClosed (conn s) = false;
  cs_broken : broken (conn s) = false
}.

Lemma wp_write_loop cfg fuel : forall s sid total b (Φ : Session -> Z * option smux_error -> Prop),
  0 < MaxFrameSize cfg -> (length b <= fuel)%nat -> doneCh s = false ->
  len (writeCh s) + len (data_frames fuel (MaxFrameSize cfg) sid b) <= writeCap ->
  Φ (set_writeCh (writeCh s ++ data_frames fuel (MaxFrameSize cfg) sid b) s) (total + len b, None) ->
  wp (write_loop cfg fuel sid total b) s Φ.
Proof.
  induction fuel as [|fuel IH]; intros s sid total [|x b] Φ Hm Hf Hd Hr HΦ.
  1,3: cbn in *; rewrite app_nil_r, Z.add_0_r in HΦ; by destruct s.
  { cbn in Hf. lia. }
  cbn [write_loop data_frames] in *. set (n := Z.min _ _) in *. cbn [length] in Hr.
  eapply wp_act_one.
  { rewrite Hd, (proj2 (Z.ltb_lt _ _)) by lia. reflexivity. }
  cbn beta iota. apply IH; auto.
  - rewrite length_drop. cbn [length] in *. lia.
  - cbn [push writeCh set_writeCh]. rewrite length_app. cbn [length]. lia.
  - cbn [push writeCh set_writeCh streams streamsMu nextStreamID streamSlotCh acceptCh doneCh once
      closed handshakeDone lastActivity bytesSent bytesReceived heap opened conn] in *.
    rewrite <-app_assoc. cbn [app].
    replace (total + n + len (drop (Z.to_nat n) (x :: b))) with (total + len (x :: b)); [done|].
    rewrite length_drop. cbn [length] in *. lia.
Qed.

Lemma wp_Write cfg s l st b (Φ : Session -> Z * option smux_error -> Prop) :
  0 < MaxFrameSize cfg -> can_send s l st ->
  let fs := data_frames (length b) (MaxFrameSize cfg) (id st) b in
  len (writeCh s) + len fs <= writeCap ->
  Φ (set_writeCh (writeCh s ++ fs) s) (len b, None) ->
  wp (Write cfg l b) s Φ.
Proof.
  intros Hm [Hl Ho Hc Hd Hmu _ _] fs Hr HΦ. unfold Write, stream_flag, IsClosed, stream_id, get, locked.
  eapply wp_act_one; [by rewrite Hl|]. cbn. rewrite Ho.
  eapply wp_act_one; [by rewrite Hmu|]. rewrite Hc.
  eapply wp_act_one; [by rewrite Hl|]. cbn [default fmap option_fmap option_map from_option].
  by apply wp_write_loop.
Qed.

(** Counting the frames written. *)
Definition count_sent (n : Z) (f : frame) : Z := u64 (n + HeaderSize + len (Payload f)).

Lemma wp_writer fs : forall s (Φ : Session -> unit -> Prop),
  writeCh s = fs -> doneCh s = false -> connClosed (conn s) = false -> broken (conn s) = false ->
  (forall s', conn s' = set_tx (tx (conn s) ++ mjoin (writeFrame <$> fs)) (conn s) ->
     writeCh s' = [] -> heap s' = heap s -> streams s' = streams s ->
     bytesSent s' = fold_left count_sent fs (bytesSent s) -> Φ s' tt) ->
  wp (writer (length fs)) s Φ.
Proof.
  induction fs as [|f fs IH]; intros s Φ Hw Hd Hc Hb HΦ; cbn [length writer].
  - apply HΦ; auto. cbn. rewrite app_nil_r. by destruct (conn s).
  - eapply wp_act_one. { rewrite Hw, Hd. reflexivity. }
    eapply wp_act_one. { unfold conn_write. cbn [conn set_writeCh]. rewrite Hc, Hb. reflexivity. }
    eapply wp_act_one; [reflexivity|]. apply IH; auto.
    intros s' H1 H2 H3 H4 H5. apply HΦ; auto.
    rewrite H1. cbn. by rewrite <-app_assoc.
Qed.

(** ** The receiving side *)

(** What a data frame does to its stream. *)
Definition recv_data (p : list byte) (st : Stream) : Stream :=
  set_readCh true
    (if maxReadBuf st <? len (readBuf st) + len p
     then set_remoteClosed true (set_resetErr (Some ErrStreamReset) st)
     else set_readBuf (readBuf st ++ p) st).

Record quiet (s : Session) : Prop := {
  q_mu : streamsMu s = false;
  q_locks : forall l st, heap s !! l = Some st -> readMu st = false;
  q_conn : connClosed (conn s) = false;
  q_broken : broken (conn s) = false;
  q_ids : forall i l, streams s !! i = Some l -> id <$> heap s !! l = Some i
}.

(** Frames that carry data or keep the session alive. *)
Definition passive (f : frame) : Prop := Type_ f = FrameData \/ Type_ f = FramePing.

Definition apply_frame (f : frame) (s : Session) : Session :=
  if decide (StreamID f <> 0 /\ Type_ f = FrameData) then
    match streams s !! StreamID f with
    | Some l => on_stream l (recv_data (Payload f)) s
    | None => s
    end
  else s.

Lemma alter_alter_eq {A} (g h : A -> A) (l : list A) i :
  alter g i (alter h i l) = alter (fun x => g (h x)) i l.
Proof.
  apply list_eq. intros j. destruct (decide (i = j)) as [->|].
  - rewrite !list_lookup_alter_eq. by destruct (l !! j).
  - by rewrite !list_lookup_alter_ne.
Qed.

Lemma wp_dispatch cfg clientMode f s (Φ : Session -> unit -> Prop) :
  quiet s -> passive f -> Φ (apply_frame f s) tt -> wp (dispatch cfg clientMode f) s Φ.
Proof.
  intros [Hmu Hlk _ _ Hids] Hp HΦ. unfold dispatch, apply_frame in *.
  destruct (Z.eqb_spec (StreamID f) 0) as [H0|H0].
  { rewrite decide_False in HΦ by naive_solver. by destruct Hp as [-> | ->]. }
  destruct Hp as [Ht|Ht]; rewrite Ht in *; cbn [Z.eqb].
  2:{ by rewrite decide_False in HΦ by naive_solver. }
  rewrite decide_True in HΦ by done.
  change (FrameData =? FrameData) with true. cbn beta iota. unfold handleData, lookup_stream, locked.
  eapply wp_act_one; [by rewrite Hmu|].
  destruct (streams s !! StreamID f) as [l|] eqn:El; [|exact HΦ].
  specialize (Hids _ _ El). destruct (heap s !! l) as [st|] eqn:Est; [|done].
  unfold onData, read_locked. eapply wp_act_one; [by rewrite Est, (Hlk _ _ Est)|].
  cbn. split; [done|]. repeat constructor. cbn.
  unfold on_stream in HΦ |- *.
  cbn [heap set_heap streams streamsMu nextStreamID streamSlotCh acceptCh writeCh doneCh once
      closed handshakeDone lastActivity bytesSent bytesReceived opened conn].
  unfold set_heap in HΦ |- *. cbn in HΦ |- *.
  rewrite alter_alter_eq. erewrite list_alter_ext; [exact HΦ| |done].
  intros st' Hst'. rewrite Est in Hst'. injection Hst' as <-. done.
Qed.

Lemma quiet_apply f s : quiet s -> quiet (apply_frame f s).
Proof.
  intros Hq. unfold apply_frame. destruct (decide _); [|done].
  destruct (streams s !! StreamID f) as [l|]; [|done]. destruct Hq. constructor; cbn; auto.
  - intros l' st. destruct (decide (l = l')) as [->|].
    + rewrite list_lookup_alter_eq. destruct (heap s !! l') as [st0|] eqn:E; [|done].
      intros [= <-]. unfold recv_data. destruct (_ <? _); cbn; eauto.
    + rewrite list_lookup_alter_ne by done. eauto.
  - intros i l' Hi. specialize (q_ids0 _ _ Hi). destruct (decide (l = l')) as [->|].
    + rewrite list_lookup_alter_eq. destruct (heap s !! l') as [st0|] eqn:E; [|done].
      cbn in *. unfold recv_data. by destruct (_ <? _).
    + by rewrite list_lookup_alter_ne.
Qed.

(** The stream of ID [sid] as seen through the map and the heap. *)
Definition at_stream (s : Session) (sid : Z) (l : nat) (st : Stream) : Prop :=
  streams s !! sid = Some l /\ heap s !! l = Some st.

Lemma apply_frame_stream f s sid l st :
  quiet s -> passive f -> sid <> 0 -> at_stream s sid l st ->
  let p := if decide (StreamID f = sid /\ Type_ f = FrameData) then Payload f else [] in
  len (readBuf st) + len p <= maxReadBuf st ->
  exists st', at_stream (apply_frame f s) sid l st' /\
    readBuf st' = readBuf st ++ p /\ maxReadBuf st' = maxReadBuf st /\
    resetErr st' = resetErr st /\ remoteClosed st' = remoteClosed st /\
    localClosed st' = localClosed st.
Proof.
  intros Hq Hp H0 [Hs Hh] p Hfit. subst p. unfold apply_frame.
  destruct (decide (StreamID f = sid /\ Type_ f = FrameData)) as [[Hid Ht]|Hno].
  - rewrite decide_True by (by rewrite Hid). rewrite Hid, Hs.
    exists (recv_data (Payload f) st). unfold recv_data. rewrite (proj2 (Z.ltb_ge _ _)) by lia.
    split_and!; try done. split; [done|].
    unfold on_stream. cbn [heap set_heap]. rewrite list_lookup_alter_eq, Hh. cbn [fmap option_fmap option_map].
    unfold recv_data. by rewrite (proj2 (Z.ltb_ge _ _)) by lia.
  - exists st. rewrite app_nil_r. split_and!; try done.
    destruct (decide (StreamID f <> 0 /\ Type_ f = FrameData)) as [[_ Ht]|]; [|by split].
    destruct (streams s !! StreamID f) as [l'|] eqn:El; [|by split].
    split; [done|]. cbn. rewrite list_lookup_alter_ne; [done|]. intros ->.
    pose proof (q_ids _ Hq _ _ El) as E1. pose proof (q_ids _ Hq _ _ Hs) as E2.
    apply Hno. split; [congruence | done].
Qed.

Definition count_received (n : Z) (f : frame) : Z := u64 (n + HeaderSize + len (Payload f)).

Lemma wp_reader cfg clientMode fs : forall clock s sid l st rest (Φ : Session -> unit -> Prop),
  64 <= MaxFrameSize cfg <= 65535 -> length clock = length fs ->
  Forall (wire_frame cfg) fs -> Forall passive fs ->
  quiet s -> sid <> 0 -> at_stream s sid l st ->
  rx (conn s) = mjoin (writeFrame <$> fs) ++ rest ->
  len (readBuf st) + len (payloads sid fs) <= maxReadBuf st ->
  (forall s' st', at_stream s' sid l st' -> readBuf st' = readBuf st ++ payloads sid fs ->
     resetErr st' = resetErr st -> remoteClosed st' = remoteClosed st ->
     rx (conn s') = rest -> bytesReceived s' = fold_left count_received fs (bytesReceived s) ->
     Φ s' tt) ->
  wp (reader cfg clientMode clock) s Φ.
Proof.
  induction fs as [|f fs IH]; intros [|now clock] s sid l st rest Φ Hm Hlen Hw Hp Hq H0 Hat Hrx Hfit HΦ;
    try done; cbn [reader].
  { cbn. apply (HΦ s st); auto. unfold payloads. cbn. by rewrite app_nil_r. }
  inversion Hw as [|? ? (Hok & Hv & Hl) Hw']; subst. inversion Hp as [|? ? Hpf Hp']; subst.
  rewrite payloads_cons in *. rewrite length_app in Hfit.
  change (mjoin (writeFrame <$> f :: fs)) with (writeFrame f ++ mjoin (writeFrame <$> fs)) in Hrx.
  eapply wp_act_one.
  { unfold recv. rewrite Hrx, <-app_assoc, readFrame_complete by (done || lia).
    rewrite (q_conn _ Hq), (q_broken _ Hq). reflexivity. }
  eapply wp_act_one; [reflexivity|]. eapply wp_act_one; [reflexivity|].
  rewrite Hv. change (negb (ProtocolVersion =? ProtocolVersion)) with false. cbn beta iota.
  set (s1 := set_lastActivity _ _).
  assert (quiet s1) as Hq1 by (destruct Hq; by constructor).
  assert (at_stream s1 sid l st) as Hat1 by done.
  destruct (apply_frame_stream f s1 sid l st Hq1 Hpf H0 Hat1) as
    (st' & Hat' & Hbuf & Hmax & Hre & Hrc & Hlc); [lia|].
  apply wp_bind, wp_dispatch; [done..|].
  assert (conn (apply_frame f s1) = set_rx (mjoin (writeFrame <$> fs) ++ rest) (conn s) /\
          bytesReceived (apply_frame f s1) = count_received (bytesReceived s) f) as [Hc Hbr].
  { unfold apply_frame. destruct (decide (StreamID f <> 0 /\ _)); [|done].
    by destruct (streams s1 !! StreamID f). }
  apply (IH clock _ sid l st' rest); auto using quiet_apply.
  - by rewrite Hc.
  - rewrite Hbuf, Hmax, length_app. lia.
  - intros s2 st2 ? Hb2 ? ? ? Hr2. apply (HΦ s2 st2); auto; try congruence.
    + by rewrite Hb2, Hbuf, app_assoc.
    + by rewrite Hr2, Hbr.
Qed.

(** Demultiplexing: the reader turns any interleaving of data and ping
    frames of any streams into the right streams. After it has read the
    frames [fs], the stream [sid] holds its previous bytes followed by the
    payloads of exactly its own data frames in the order sent, whatever was
    interleaved, as long as its buffer has room; it is neither closed nor
    reset, exactly the bytes of [fs] were consumed, and the byte counter
    counted them. *)
Theorem reader_demultiplexes cfg0 clientMode fs clock s sid l st rest :
  let cfg := validateConfig cfg0 in
  length clock = length fs ->
  Forall (wire_frame cfg) fs -> Forall passive fs ->
  quiet s -> sid <> 0 -> at_stream s sid l st ->
  rx (conn s) = mjoin (writeFrame <$> fs) ++ rest ->
  len (readBuf st) + len (payloads sid fs) <= maxReadBuf st ->
  wp (reader cfg clientMode clock) s (fun s' _ => exists st',
    at_stream s' sid l st' /\ readBuf st' = readBuf st ++ payloads sid fs /\
    resetErr st' = resetErr st /\ remoteClosed st' = remoteClosed st /\ rx (conn s') = rest /\
    bytesReceived s' = fold_left count_received fs (bytesReceived s)).
Proof.
  intros cfg Hlen Hw Hp Hq H0 Hat Hrx Hfit.
  eapply wp_reader; eauto using validateConfig_frame. intros s' st' ? ? ? ? ? ?. eauto 10.
Qed.

(** A session with one open stream, and two streams' frames on its wire. *)
Definition one_stream (cfg : Config) (rx : list byte) : Session :=
  let s := (register cfg 1 (newSession false)).1 in
  set_conn {| rx := rx; tx := []; broken := false; connClosed := false |} s.

Definition mixed_frames : list frame :=
  [newDataFrame 1 [x01; x02]; newPingFrame 0; newDataFrame 3 [x09]; newDataFrame 1 [x03]].

Lemma one_stream_quiet cfg bs : quiet (one_stream cfg bs).
Proof.
  constructor; cbn; try done.
  - intros [|[|l]] st; cbn; [by intros [= <-] | done..].
  - intros i l [[<- <-]|[_ H]]%lookup_insert_Some; [done | by rewrite lookup_empty in H].
Qed.

Lemma reader_demultiplexes_witness :
  wp (reader (validateConfig DefaultConfig) false [0; 0; 0; 0])
    (one_stream (validateConfig DefaultConfig) (mjoin (writeFrame <$> mixed_frames) ++ [x00]))
    (fun s' _ => exists st', at_stream s' 1 0 st' /\ readBuf st' = [x01; x02; x03]).
Proof.
  eapply wp_mono; [apply (reader_demultiplexes DefaultConfig false mixed_frames [0; 0; 0; 0]
    (one_stream (validateConfig DefaultConfig) (mjoin (writeFrame <$> mixed_frames) ++ [x00]))
    1 0 (newStream (validateConfig DefaultConfig) 1) [x00])|].
  - reflexivity.
  - repeat apply Forall_cons_2; try apply Forall_nil_2;
      first [apply wire_data | apply wire_ping]; cbn; lia.
  - repeat apply Forall_cons_2; try apply Forall_nil_2; first [by left | by right].
  - apply one_stream_quiet.
  - done.
  - split; reflexivity.
  - reflexivity.
  - vm_compute. discriminate.
  - intros s' _ (st' & Hat & Hb & _). exists st'. split; [done|]. rewrite Hb. reflexivity.
Defined.

(** C2. End-to-end transport: a [Write] of any bytes on an open stream with
    room in the write queue reports all of them written; when the writer has
    emptied the queue, a peer that receives the bytes put on the wire and
    runs its reader has exactly these bytes appended to the read buffer of
    its stream of the same ID, in order, complete and once. *)
Theorem stream_transport cfg0 clientMode l b sA stA :
  let cfg := validateConfig cfg0 in
  can_send sA l stA -> 0 < id stA < 2 ^ 32 -> writeCh sA = [] ->
  let fs := data_frames (length b) (MaxFrameSize cfg) (id stA) b in
  len fs <= writeCap ->
  wp (Write cfg l b) sA (fun sA' r => r = (len b, None) /\
    wp (writer (length fs)) sA' (fun sA2 _ => exists wire,
      tx (conn sA2) = tx (conn sA) ++ wire /\
      forall sB lB stB clock rest,
        quiet sB -> at_stream sB (id stA) lB stB ->
        rx (conn sB) = wire ++ rest -> length clock = length fs ->
        len (readBuf stB) + len b <= maxReadBuf stB ->
        wp (reader cfg clientMode clock) sB (fun sB' _ => exists stB',
          at_stream sB' (id stA) lB stB' /\ readBuf stB' = readBuf stB ++ b /\
          rx (conn sB') = rest))).
Proof.
  intros cfg Hc Hid Hw fs Hfs. pose proof (validateConfig_frame cfg0) as Hm. fold cfg in Hm.
  assert (Forall (fun f => wire_frame cfg f /\ Type_ f = FrameData /\ StreamID f = id stA) fs) as Hwf
    by (apply data_frames_wire; lia).
  apply wp_Write with stA; [lia | done | rewrite Hw; fold fs; cbn [length]; lia |]. split; [done|].
  rewrite Hw. cbn [app]. fold fs. destruct Hc.
  apply wp_writer; [done..|]. intros s' Hconn _ _ _ _. exists (mjoin (writeFrame <$> fs)).
  split; [by rewrite Hconn|]. intros sB lB stB clock rest Hq Hat Hrx Hlen Hfit.
  assert (payloads (id stA) fs = b) as Hpay by (apply data_frames_payloads; lia).
  apply (wp_reader cfg clientMode fs clock sB (id stA) lB stB rest);
    [done | done | | | done | lia | done | done | by rewrite Hpay |].
  - eapply Forall_impl; [exact Hwf|]. by intros f (? & _).
  - eapply Forall_impl; [exact Hwf|]. intros f (_ & ? & _). by left.
  - intros sB' stB' Hat' Hb _ _ Hrest _. exists stB'. by rewrite Hpay in Hb.
Qed.

Lemma stream_transport_witness :
  wp (Write (validateConfig DefaultConfig) 0 [x61; x62])
    (one_stream (validateConfig DefaultConfig) [])
    (fun _ r => r = (2, None)).
Proof.
  eapply wp_mono; [apply (stream_transport DefaultConfig true 0 [x61; x62]
    (one_stream (validateConfig DefaultConfig) []) (newStream (validateConfig DefaultConfig) 1))|].
  - by constructor.
  - cbn. lia.
  - reflexivity.
  - vm_compute. discriminate.
  - intros s' r [-> _]. reflexivity.
Defined.

(** ** [Read] *)

(** [Read] drains before it reports an end: run undisturbed on an open
    session, it returns buffered bytes (as many as fit the caller's buffer,
    and keeps the rest) whatever terminal state the stream is in; only with
    an empty buffer it reports a reset, then the remote close, then the local
    close, in this order, and leaves the buffer alone. *)
Theorem Read_drains_first rounds l n s st :
  heap s !! l = Some st -> readMu st = false -> streamsMu s = false -> closed s = false ->
  (readBuf st <> [] ->
     wp (Read (S rounds) l n) s (fun s' r =>
       r = Some (Ok (take (Z.to_nat n) (readBuf st))) /\
       heap s' !! l = Some (set_readBuf (drop (Z.to_nat n) (readBuf st)) st))) /\
  (readBuf st = [] -> resetErr st <> None \/ remoteClosed st = true \/ localClosed st = true ->
     wp (Read (S rounds) l n) s (fun s' r =>
       r = Some (Err (match resetErr st with
                      | Some e => e
                      | None => if remoteClosed st then ErrEOF else ErrClosedPipe
                      end)) /\ heap s' !! l = Some st)).
Proof.
  intros Hl Hmu Hsm Hcl. split.
  - intros Hne. cbn [Read]. unfold read_pass. apply wp_bind. eapply wp_act_one.
    { rewrite Hl, Hmu, (proj2 (Z.ltb_lt _ _)); [reflexivity|]. destruct (readBuf st); [done|].
      cbn. lia. }
    cbn. split; [done|]. by rewrite list_lookup_alter_eq, Hl.
  - intros He Hterm. cbn [Read]. unfold read_pass. apply wp_bind.
    destruct (resetErr st) as [e|] eqn:Er.
    { eapply wp_act_one. { rewrite Hl, Hmu, He, Er. reflexivity. } by cbn. }
    destruct (remoteClosed st) eqn:Erc.
    { eapply wp_act_one. { rewrite Hl, Hmu, He, Er, Erc. reflexivity. } by cbn. }
    destruct Hterm as [?|[?|Hlc]]; [done..|].
    eapply wp_act_one. { rewrite Hl, Hmu, He, Er, Erc. reflexivity. }
    unfold stream_flag, get, unlock_read, upd.
    eapply wp_act_one.
    { cbn [heap on_stream set_heap]. rewrite list_lookup_alter_eq, Hl. cbn. rewrite Hlc. reflexivity. }
    eapply wp_act_one; [reflexivity|]. cbn. split; [done|].
    rewrite !list_lookup_alter_eq, Hl. cbn. destruct st; cbn in *. by subst.
Qed.

Lemma Read_drains_first_witness :
  wp (Read 1 0 2) (on_stream 0 (fun st => set_remoteClosed true (set_readBuf [x01; x02; x03] st))
                     (one_stream DefaultConfig []))
    (fun _ r => r = Some (Ok [x01; x02])).
Proof.
  eapply wp_mono; [refine (proj1 (Read_drains_first 0 0 2 _ _ _ _ _ _) _)|];
    [reflexivity | reflexivity | reflexivity | reflexivity | discriminate |].
  intros s' r [-> _]. reflexivity.
Defined.

(** ** Shutting down *)

Definition fin_stream (st : Stream) : Stream := set_readCh true (set_remoteClosed true st).

Lemma wp_onFin l st s (Φ : Session -> unit -> Prop) :
  heap s !! l = Some st -> readMu st = false ->
  Φ (on_stream l fin_stream s) tt -> wp (onFin l) s Φ.
Proof.
  intros Hl Hlk HΦ. unfold onFin, read_locked. eapply wp_act_one; [by rewrite Hl, Hlk|].
  cbn. split; [done|]. repeat constructor. unfold on_stream, set_heap in *. cbn in *.
  rewrite alter_alter_eq. erewrite list_alter_ext; [exact HΦ | | done].
  intros st' H. rewrite Hl in H. by injection H as <-.
Qed.

Definition fin_heap (ls : list nat) (h h' : list Stream) : Prop :=
  forall l, h' !! l = (if decide (l ∈ ls) then fin_stream else fun st => st) <$> h !! l.

Lemma fin_heap_cons l ls h h' :
  fin_heap ls (alter fin_stream l h) h' -> fin_heap (l :: ls) h h'.
Proof.
  intros H l'. rewrite H. destruct (decide (l = l')) as [->|Hne].
  - rewrite list_lookup_alter_eq, (decide_True (P := l' ∈ l' :: ls)) by set_solver.
    destruct (h !! l') as [st|]; [|done]. cbn. f_equal. by destruct (decide _), st.
  - rewrite list_lookup_alter_ne by done.
    rewrite (decide_ext (l' ∈ l :: ls) (l' ∈ ls)) by set_solver. done.
Qed.

Lemma wp_fin_all ls : forall s (Φ : Session -> unit -> Prop),
  (forall l, l ∈ ls -> exists st, heap s !! l = Some st /\ readMu st = false) ->
  (forall h, fin_heap ls (heap s) h -> Φ (set_heap h s) tt) -> wp (fin_all ls) s Φ.
Proof.
  induction ls as [|l ls IH]; intros s Φ Hok HΦ; cbn [fin_all].
  - cbn. replace s with (set_heap (heap s) s) by by destruct s. apply HΦ.
    intros l. destruct (decide _) as [H|_]; [by apply not_elem_of_nil in H|]. by destruct (heap s !! l).
  - destruct (Hok l) as (st & Hl & Hm); [set_solver|].
    apply wp_bind. eapply wp_onFin; [done..|]. apply IH.
    + intros l' Hin. destruct (Hok l') as (st' & Hl' & Hm'); [set_solver|]. cbn.
      destruct (decide (l = l')) as [->|Hne].
      * rewrite list_lookup_alter_eq, Hl'. by eexists.
      * rewrite list_lookup_alter_ne by done. eauto.
    + intros h Hh. cbn in Hh. apply (HΦ h). by apply fin_heap_cons.
Qed.

Lemma wp_finished s :
  once s = Finished -> wp Close s (fun s2 _ => s2 = s) /\ wp abort s (fun s2 _ => s2 = s).
Proof.
  intros Ho. split; (eapply wp_act_one; [by rewrite Ho|]; done).
Qed.

(** [Close] ends a session completely and once: run undisturbed on a
    session that was not closed, it marks the session closed and done, signals
    the remote end to every registered stream (leaving buffered bytes to be
    read), empties the stream map, queues GO_AWAY when the queue has room and
    closes the connection; a second [Close] or an [abort] changes nothing. *)
Theorem Close_ends_session s :
  quiet s -> once s = NotRun ->
  wp Close s (fun s' _ =>
    closed s' = true /\ doneCh s' = true /\ streams s' = ∅ /\ streamsMu s' = false /\
    connClosed (conn s') = true /\ tx (conn s') = tx (conn s) /\
    writeCh s' = (if len (writeCh s) <? writeCap
                  then writeCh s ++ [newGoAwayFrame GoAwayNormal] else writeCh s) /\
    (forall sid l st, at_stream s sid l st -> heap s' !! l = Some (fin_stream st)) /\
    (forall l st, heap s !! l = Some st -> (forall sid, streams s !! sid <> Some l) ->
       heap s' !! l = Some st) /\
    wp Close s' (fun s2 _ => s2 = s') /\ wp abort s' (fun s2 _ => s2 = s')).
Proof.
  intros [Hmu Hlk _ _ Hids] Ho. unfold Close at 1, run_once, locked, upd.
  eapply wp_act_one; [by rewrite Ho|]. cbn beta iota. apply wp_bind.
  eapply wp_act_one; [cbn; by rewrite Hmu|]. eapply wp_act_one; [reflexivity|].
  unfold try_send, upd. eapply wp_act_one; [reflexivity|].
  set (s1 := if _ <? _ then _ else _).
  assert (streams s1 = streams s /\ heap s1 = heap s /\ streamsMu s1 = false /\
          closed s1 = true /\ doneCh s1 = true /\ conn s1 = conn s /\ once s1 = Running /\
          writeCh s1 = (if len (writeCh s) <? writeCap
                        then writeCh s ++ [newGoAwayFrame GoAwayNormal] else writeCh s))
    as (Hst & Hh & Hm & Hc & Hd & Hcn & Hon & Hw).
  { subst s1. cbn. destruct (len (writeCh s) <? writeCap); cbn; by rewrite ?Hmu. }
  clearbody s1. apply wp_bind. unfold shutdown_streams, locked. cbn [bind act wp].
  rewrite Hm. split.
  { intros Hn. pose proof (permutations_refl (map_to_list (streams s1)).*2) as Hp.
    apply fmap_nil_inv in Hn. rewrite Hn in Hp. by apply not_elem_of_nil in Hp. }
  apply Forall_forall. intros o (ls & -> & Hin%permutations_Permutation)%list_elem_of_fmap.
  cbn [fst snd]. apply wp_bind.
  assert (forall l, l ∈ ls <-> exists sid, streams s !! sid = Some l) as Hls.
  { intros l. rewrite <-Hin, Hst, list_elem_of_fmap. split.
    - intros ([sid l'] & -> & Hel). exists sid. by apply elem_of_map_to_list in Hel.
    - intros [sid Hl]. exists (sid, l). split; [done|]. by apply elem_of_map_to_list. }
  apply wp_fin_all.
  - intros l (sid & Hl)%Hls. specialize (Hids _ _ Hl). cbn. rewrite Hh.
    destruct (heap s !! l) as [st|] eqn:E; [|done]. eauto.
  - intros h Hfin. cbn in Hfin. rewrite Hh in Hfin. unfold close_conn, upd.
    cbn [bind act wp fst snd]. do 3 (split; [done|]; apply Forall_singleton; cbn [bind act wp fst snd]).
    split_and!; try (cbn; by rewrite ?Hc, ?Hd, ?Hcn, ?Hw).
    + intros sid l st [Hs Hl]. cbn [heap set_once set_conn set_streamsMu set_streams set_heap].
      rewrite Hfin, Hl, decide_True by (apply Hls; eauto). done.
    + intros l st Hl Hno. cbn [heap set_once set_conn set_streamsMu set_streams set_heap].
      rewrite Hfin, Hl, decide_False; [done|]. intros (sid & Hx)%Hls. by apply (Hno sid).
    + by apply wp_finished.
    + by apply wp_finished.
Qed.

Lemma Close_ends_session_witness :
  wp Close (one_stream DefaultConfig []) (fun s' _ => streams s' = ∅ /\ connClosed (conn s') = true).
Proof.
  eapply wp_mono; [apply (Close_ends_session (one_stream DefaultConfig []))|].
  - apply one_stream_quiet.
  - reflexivity.
  - intros s' r (_ & _ & ? & _ & ? & _). auto.
Defined.

End DataPath.
