(* ===== verification/ProxyTypes.v ===== *)
(** * Chunks and chunker configuration (internal/proxy/chunker.go)

    The unit of dispersion of the multi-path proxy and the configuration the
    chunkers and the reassembler share. *)
From stdpp Require Import prelude list.
From Stdlib Require Import Strings.Byte ZArith Lia.
From S2P Require Import Prelude GoBytes.
Local Open Scope Z_scope.

(** [ChunkType] is a byte; the four named values are constants. *)
Definition ChunkData : Z := 0x01.
Definition ChunkStreamEnd : Z := 0x02.
Definition ChunkPadding : Z := 0x03.
Definition ChunkStreamStart : Z := 0x04.

Record Chunk : Type := MkChunk {
  StreamID : Z;
  Sequence : Z;
  Total : Z;
  Type_ : Z;
  Payload : list byte;
  PaddingLen : Z
}.

#[export] Instance Chunk_eq_dec : EqDecision Chunk.
Proof. solve_decision. Defined.

(** The fields of a chunk fit their Go types. *)
Record chunk_ok (c : Chunk) : Prop := {
  ck_stream : 0 <= StreamID c < 2 ^ 32;
  ck_seq : 0 <= Sequence c < 2 ^ 32;
  ck_total : 0 <= Total c < 2 ^ 32;
  ck_type : 0 <= Type_ c < 2 ^ 8;
  ck_padding : 0 <= PaddingLen c < 2 ^ 16;
  ck_payload : len (Payload c) < 2 ^ 32
}.

(** Durations are nanoseconds. *)
Record ChunkerConfig : Type := {
  MaxChunkSize : Z;
  MinChunkSize : Z;
  PaddingMin : Z;
  PaddingMax : Z;
  DisablePadding : bool;
  DebugFixedSizes : bool;
  PaddingSeed : list byte;
  MaxReassemblyChunks : Z;
  MaxReassemblyBytes : Z;
  StreamReassemblyTimeout : Z
}.

Definition DefaultMaxReassemblyChunks : Z := 2048.
Definition DefaultMaxReassemblyBytes : Z := 32 * 1024 * 1024.
Definition DefaultStreamReassemblyTimeout : Z := 30 * 1000000000.

Definition DefaultChunkerConfig : ChunkerConfig :=
  {| MaxChunkSize := 16 * 1024;
     MinChunkSize := 16 * 1024;
     PaddingMin := 1024;
     PaddingMax := 4 * 1024;
     DisablePadding := false;
     DebugFixedSizes := false;
     PaddingSeed := [];
     MaxReassemblyChunks := DefaultMaxReassemblyChunks;
     MaxReassemblyBytes := DefaultMaxReassemblyBytes;
     StreamReassemblyTimeout := DefaultStreamReassemblyTimeout |}.

(** The [Chunker] interface: [Split] carries the chunker's state (its next
    sequence number and its padding source) along, and the chunks of one call
    carry the data in order, numbered from the chunker's next sequence. *)
Class ChunkerSpec (S : Type) (split : S -> list byte -> list Chunk * S)
    (next_seq stream_id : S -> Z) (inv : S -> Prop) := {
  split_payload : forall s data, inv s ->
    mjoin (Payload <$> (split s data).1) = data;
  split_seq : forall s data i c, inv s ->
    (split s data).1 !! i = Some c -> Sequence c = u32 (next_seq s + Z.of_nat i);
  split_stream : forall s data c, inv s ->
    c ∈ (split s data).1 -> StreamID c = stream_id s /\ Type_ c = ChunkData;
  split_inv : forall s data, inv s -> inv (split s data).2;
  split_next : forall s data, inv s ->
    next_seq (split s data).2 = u32 (next_seq s + len (split s data).1);
  split_sid : forall s data, inv s -> stream_id (split s data).2 = stream_id s
}.

(** The chunks of a [Split] with an unset total carry their own count. *)
Class ChunkerTotal (S : Type) (split : S -> list byte -> list Chunk * S)
    (inv : S -> Prop) (unset : S -> Prop) := {
  split_total : forall s data c, inv s -> unset s ->
    c ∈ (split s data).1 -> Total c = u32 (len (split s data).1)
}.

(** The padding length of a chunk fits its type. *)
Class ChunkerPadding (S : Type) (split : S -> list byte -> list Chunk * S) := {
  split_padding : forall s data c, c ∈ (split s data).1 -> 0 <= PaddingLen c < 2 ^ 16
}.
