(* ===== verification/WireChunk.v ===== *)
(** * Wire chunks (internal/proxy/wire.go)

    The length-prefixed wire form of a relayed chunk: serializer, buffer
    parser and streaming reader, and the interface a message codec offers. *)
From stdpp Require Import prelude list strings.
From Stdlib Require Import Strings.Byte ZArith Lia.
From S2P Require Import Prelude GoBytes ProxyTypes.
Local Open Scope Z_scope.

Definition ForwardingHeaderSize : Z := 64.
Definition NonceSize : Z := 12.
Definition KeySize : Z := 32.
Definition CircuitIDSize : Z := 16.
Definition MaxChunkPayloadSize : Z := 64 * 1024.
Definition MaxWireCiphertextSize : Z := MaxChunkPayloadSize + 256 + 16.

(** What a message codec promises: a valid message is encoded, and its
    encoding decodes to the message itself. *)
Class Codec {A E D : Type} (valid : A -> Prop)
    (encode : A -> result E (list byte)) (decode : list byte -> result D A) := {
  codec_total : forall a, valid a -> exists b, encode a = Ok b;
  codec_roundtrip : forall a b, valid a -> encode a = Ok b -> decode b = Ok a
}.

(** No two valid messages share an encoding. *)
Lemma codec_inj {A E D} (valid : A -> Prop) (encode : A -> result E (list byte))
    (decode : list byte -> result D A) `{!Codec valid encode decode} a a' b :
  valid a -> valid a' -> encode a = Ok b -> encode a' = Ok b -> a = a'.
Proof.
  intros Ha Ha' Hb Hb'.
  apply codec_roundtrip in Hb; [|done]. apply codec_roundtrip in Hb'; [|done].
  congruence.
Qed.

Module Wire.

(** ** WireChunk *)
Record WireChunk : Type := {
  Header : list byte;
  Nonce : list byte;
  Ciphertext : list byte
}.

Inductive wire_error : Type :=
| BadHeaderLen (n : Z)
| BadNonceLen (n : Z)
| CiphertextEmpty
| CiphertextTooLarge (n : Z)
| DataTooShort (n : Z)
| HeaderOverflows
| NonceOverflows
| CiphertextOverflows (need have : Z)
| WireIO (e : io_error).

Definition SerializeWireChunk (wc : WireChunk) : result wire_error (list byte) :=
  if negb (len (Header wc) =? ForwardingHeaderSize) then Err (BadHeaderLen (len (Header wc)))
  else if negb (len (Nonce wc) =? NonceSize) then Err (BadNonceLen (len (Nonce wc)))
  else if len (Ciphertext wc) =? 0 then Err CiphertextEmpty
  else if MaxWireCiphertextSize <? len (Ciphertext wc) then
    Err (CiphertextTooLarge (len (Ciphertext wc)))
  else Ok (be_bytes 2 (u16 ForwardingHeaderSize) ++ Header wc
           ++ be_bytes 2 (u16 NonceSize) ++ Nonce wc
           ++ be_bytes 4 (u32 (len (Ciphertext wc))) ++ Ciphertext wc).

Definition DeserializeWireChunk (data : list byte) : result wire_error (WireChunk * Z) :=
  let minSize := 2 + ForwardingHeaderSize + 2 + NonceSize + 4 in
  if len data <? minSize then Err (DataTooShort (len data)) else
  let hdrLen := be_Z (slice data 0 2) in
  if negb (hdrLen =? ForwardingHeaderSize) then Err (BadHeaderLen hdrLen) else
  if len data <? 2 + hdrLen then Err HeaderOverflows else
  let header := slice data 2 (2 + hdrLen) in
  let offset := 2 + hdrLen in
  let nonceLen := be_Z (slice data offset (offset + 2)) in
  let offset := offset + 2 in
  if negb (nonceLen =? NonceSize) then Err (BadNonceLen nonceLen) else
  if len data <? offset + nonceLen then Err NonceOverflows else
  let nonce := slice data offset (offset + nonceLen) in
  let offset := offset + nonceLen in
  let cipherLen := be_Z (slice data offset (offset + 4)) in
  let offset := offset + 4 in
  if cipherLen =? 0 then Err CiphertextEmpty else
  if MaxWireCiphertextSize <? cipherLen then Err (CiphertextTooLarge cipherLen) else
  if len data <? offset + cipherLen then
    Err (CiphertextOverflows cipherLen (len data - offset)) else
  Ok ({| Header := header; Nonce := nonce;
         Ciphertext := slice data offset (offset + cipherLen) |},
      offset + cipherLen).

(** [WriteWireChunk] appends the serialization to the writer's output. *)
Definition WriteWireChunk (w : list byte) (wc : WireChunk) : result wire_error (list byte) :=
  data ← SerializeWireChunk wc; Ok (w ++ data).

Definition ReadWireChunk (r : list byte) : result wire_error (WireChunk * list byte) :=
  '(hdrLenBuf, r) ← map_err WireIO (read_full r 2);
  let hdrLen := be_Z hdrLenBuf in
  if negb (hdrLen =? ForwardingHeaderSize) then Err (BadHeaderLen hdrLen) else
  '(header, r) ← map_err WireIO (read_full r hdrLen);
  '(nonceLenBuf, r) ← map_err WireIO (read_full r 2);
  let nonceLen := be_Z nonceLenBuf in
  if negb (nonceLen =? NonceSize) then Err (BadNonceLen nonceLen) else
  '(nonce, r) ← map_err WireIO (read_full r nonceLen);
  '(cipherLenBuf, r) ← map_err WireIO (read_full r 4);
  let cipherLen := be_Z cipherLenBuf in
  if cipherLen =? 0 then Err CiphertextEmpty else
  if MaxWireCiphertextSize <? cipherLen then Err (CiphertextTooLarge cipherLen) else
  '(ciphertext, r) ← map_err WireIO (read_full r cipherLen);
  Ok ({| Header := header; Nonce := nonce; Ciphertext := ciphertext |}, r).

Record wire_ok (wc : WireChunk) : Prop := {
  wk_header : len (Header wc) = ForwardingHeaderSize;
  wk_nonce : len (Nonce wc) = NonceSize;
  wk_cipher : 0 < len (Ciphertext wc) <= MaxWireCiphertextSize
}.

Definition wire_bytes (wc : WireChunk) : list byte :=
  be_bytes 2 ForwardingHeaderSize ++ Header wc ++ be_bytes 2 NonceSize ++ Nonce wc
    ++ be_bytes 4 (len (Ciphertext wc)) ++ Ciphertext wc.

Ltac wire_unfold :=
  unfold ForwardingHeaderSize, NonceSize, MaxWireCiphertextSize, MaxChunkPayloadSize in *.

Lemma SerializeWireChunk_spec wc b :
  SerializeWireChunk wc = Ok b <-> wire_ok wc /\ b = wire_bytes wc.
Proof.
  unfold SerializeWireChunk, wire_bytes. split.
  - intros H. repeat case_hyp H; simplify_eq; to_prop. split.
    { constructor; wire_unfold; lia. }
    wire_unfold. rewrite u32_small by lia. reflexivity.
  - intros [[Hh Hn Hc] ->]. rewrite Hh, Hn, !Z.eqb_refl. cbn [negb].
    wire_unfold. rewrite u32_small by lia.
    by rewrite (proj2 (Z.eqb_neq _ _)), (proj2 (Z.ltb_ge _ _)) by lia.
Qed.

Lemma ReadWireChunk_complete wc rest :
  wire_ok wc -> ReadWireChunk (wire_bytes wc ++ rest) = Ok (wc, rest).
Proof.
  intros [Hh Hn Hc]. unfold ReadWireChunk, wire_bytes. wire_unfold.
  rewrite <-!app_assoc.
  do 2 (rewrite read_full_app by (rewrite be_bytes_length; done);
        cbn [map_err mbind result_bind]; rewrite be_Z_u16 by lia; cbn [Z.eqb negb Pos.eqb];
        rewrite read_full_app by done; cbn [map_err mbind result_bind]).
  rewrite read_full_app by (rewrite be_bytes_length; done). cbn [map_err mbind result_bind].
  rewrite be_Z_u32 by lia.
  rewrite (proj2 (Z.eqb_neq _ _)), (proj2 (Z.ltb_ge _ _)) by lia.
  rewrite read_full_app by done. by destruct wc.
Qed.

Lemma DeserializeWireChunk_complete wc rest :
  wire_ok wc ->
  DeserializeWireChunk (wire_bytes wc ++ rest) = Ok (wc, len (wire_bytes wc)).
Proof.
  intros [Hh Hn Hc]. unfold DeserializeWireChunk, wire_bytes. wire_unfold.
  rewrite <-!app_assoc. len_simpl.
  rewrite (proj2 (Z.ltb_ge _ _)) by lia.
  replace (slice _ 0 2) with (be_bytes 2 64) by (slice_norm; done).
  rewrite be_Z_u16 by lia. cbn [Z.eqb negb Pos.eqb].
  rewrite (proj2 (Z.ltb_ge _ _)) by lia.
  replace (slice _ (2 + 64) (2 + 64 + 2)) with (be_bytes 2 12) by (slice_norm; done).
  rewrite be_Z_u16 by lia. cbn [Z.eqb negb Pos.eqb].
  rewrite (proj2 (Z.ltb_ge _ _)) by lia.
  set (off := 2 + 64 + 2 + 12).
  replace (slice _ off (off + 4)) with (be_bytes 4 (len (Ciphertext wc)))
    by (unfold off; slice_norm; done).
  rewrite be_Z_u32 by lia.
  rewrite (proj2 (Z.eqb_neq _ _)), !(proj2 (Z.ltb_ge _ _)) by (unfold off; lia).
  unfold off. slice_norm. destruct wc; cbn in *. do 2 f_equal. lia.
Qed.

(** Peel one [read_full] of a successful read. *)
#[local] Ltac read_step H :=
  let b := fresh "b" in let r := fresh "r" in let E := fresh "E" in
  match type of H with
  | context [read_full ?x ?n] =>
      destruct (read_full x n) as [[b r]|] eqn:E; [|discriminate];
      apply read_full_ok in E as [-> E]; cbn [map_err mbind result_bind] in H
  end.

Lemma be_bytes_of n z b : be_Z b = z -> length b = n -> b = be_bytes n z.
Proof. intros <- <-. symmetry. apply be_bytes_be_Z. Qed.

Lemma ReadWireChunk_sound r wc rest :
  ReadWireChunk r = Ok (wc, rest) -> wire_ok wc /\ r = wire_bytes wc ++ rest.
Proof.
  unfold ReadWireChunk. intros H.
  read_step H. case_hyp H; [discriminate|]. to_prop. read_step H.
  read_step H. case_hyp H; [discriminate|]. to_prop. read_step H.
  read_step H. case_hyp H; [discriminate|]. case_hyp H; [discriminate|]. to_prop.
  read_step H. simplify_eq. unfold wire_bytes. wire_unfold.
  pose proof (be_Z_range b3). split.
  { constructor; cbn [Header Nonce Ciphertext]; wire_unfold; lia. }
  cbn [Header Nonce Ciphertext]. rewrite <-!app_assoc.
  rewrite <-(be_bytes_of 2 64 b), <-(be_bytes_of 2 12 b1), <-(be_bytes_of 4 _ b3); (done || lia).
Qed.

Lemma DeserializeWireChunk_sound data wc n :
  DeserializeWireChunk data = Ok (wc, n) ->
  wire_ok wc /\ n = len (wire_bytes wc) /\ data = wire_bytes wc ++ drop (Z.to_nat n) data.
Proof.
  unfold DeserializeWireChunk. intros H.
  repeat (case_hyp H; [discriminate|]). to_prop. injection H as <- <-.
  match goal with _ : be_Z ?x <> 0 |- _ => pose proof (be_Z_range x) end.
  wire_unfold. rewrite Heqb0, Heqb2 in *.
  set (cl := be_Z (slice data (2 + 64 + 2 + 12) (2 + 64 + 2 + 12 + 4))) in *.
  assert (len (slice data (2 + 64 + 2 + 12 + 4) (2 + 64 + 2 + 12 + 4 + cl)) = cl) as Hc
    by (rewrite slice_length; lia).
  split; [|split].
  - constructor; cbn [Header Nonce Ciphertext]; rewrite ?slice_length by lia; wire_unfold; lia.
  - unfold wire_bytes; cbn [Header Nonce Ciphertext]. len_simpl.
    rewrite !slice_length by lia. lia.
  - unfold wire_bytes; cbn [Header Nonce Ciphertext]. wire_unfold. rewrite Hc.
    rewrite <-(be_bytes_of 2 64 (slice data 0 2)) by (rewrite ?slice_length by lia; lia).
    rewrite <-(be_bytes_of 2 12 (slice data (2 + 64) (2 + 64 + 2)))
      by (rewrite ?slice_length by lia; lia).
    rewrite <-(be_bytes_of 4 cl (slice data (2 + 64 + 2 + 12) (2 + 64 + 2 + 12 + 4)))
      by (rewrite ?slice_length by lia; (done || lia)).
    rewrite <-(slice_drop data _ (len data)) by lia.
    rewrite !slice_slice_app by lia. by rewrite slice_all by lia.
Qed.

(** The streaming reader and the buffer parser of wire chunks accept the
    same language, the serializations of well-formed chunks: reading [r]
    yields chunk [wc] and rest [rest] iff [SerializeWireChunk wc] succeeds
    with a prefix of [r] whose remainder is [rest], and iff
    [DeserializeWireChunk r] yields [wc] with the length of that prefix. *)
Theorem wire_readers_agree r wc rest :
  (ReadWireChunk r = Ok (wc, rest) <->
     exists b, SerializeWireChunk wc = Ok b /\ r = b ++ rest) /\
  (ReadWireChunk r = Ok (wc, rest) <->
     exists n, DeserializeWireChunk r = Ok (wc, n) /\ rest = drop (Z.to_nat n) r).
Proof.
  assert (ReadWireChunk r = Ok (wc, rest) <-> wire_ok wc /\ r = wire_bytes wc ++ rest) as Hr.
  { split; [apply ReadWireChunk_sound|]. intros [Hok ->]. by apply ReadWireChunk_complete. }
  split; rewrite Hr; clear Hr.
  - setoid_rewrite SerializeWireChunk_spec. naive_solver.
  - split.
    + intros [Hok ->]. eexists. split; [by apply DeserializeWireChunk_complete|].
      by rewrite Nat2Z.id, drop_app_length.
    + intros (n & H & ->). by apply DeserializeWireChunk_sound in H as (Hok & _ & ?).
Qed.

End Wire.
