(* ===== verification/Circuit.v ===== *)
(** * Circuit protocol (internal/proxy/protocol.go)

    The onion forwarding header, the AEAD-sealed chunk, the key derivation
    and the circuit control messages. AES-CTR, ChaCha20-Poly1305, X25519 and
    SHA-256 are parameters of the sections that use them; random bytes are
    explicit arguments ([None] when the random source fails). *)
From stdpp Require Import prelude list strings.
From Stdlib Require Import Strings.Byte ZArith Lia.
From S2P Require Import Prelude GoBytes ProxyTypes WireChunk.
Local Open Scope Z_scope.

Module Circuit.
Import Wire.

(** Per-chunk metadata before padding and payload: circuit id, stream id,
    sequence, total, type, padding length, payload length. *)
Definition metaSize : Z := 35.

(** [bytesEqual]: accumulate the xor of the bytes without early exit. *)
Definition bytesEqual (a b : list byte) : bool :=
  if negb (len a =? len b) then false
  else foldl (fun v p => Z.lor v (Z.lxor (Z_of_byte p.1) (Z_of_byte p.2))) 0 (zip a b) =? 0.

Inductive proto_error : Type :=
| BadKeyLen (n : Z)
| BadCircuitIDLen (n : Z)
| BadPubKeyLen (n : Z)
| NextHopTooLong (n : Z)
| BadNextHopLen (n : Z)
| BadWireHeaderLen (n : Z)
| BadWireNonceLen (n : Z)
| RandFailed
| AEADOpenFailed
| PlaintextTooShort (n : Z)
| CircuitIDMismatch
| PaddingOverflows (declared available : Z)
| PayloadLenMismatch (declared actual : Z)
| TargetTooLong (n : Z)
| MsgTooShort (n : Z)
| TargetLenMismatch (declared actual : Z)
| ReasonOverflows
| SeqOverflows (i : Z)
| X25519Failed.

(** [XORKeyStream(dst, src)] of a CTR stream positioned at its start. *)
Definition xor_bytes (src ks : list byte) : list byte :=
  zip_with (fun a b => byte_of_Z (Z.lxor (Z_of_byte a) (Z_of_byte b))) src ks.

Section ForwardingHeader.
(** The AES-CTR key stream under a zero IV, per key: its first [n] bytes. *)
Context (keystream : list byte -> nat -> list byte).

(** [ForwardingHeader.Encode]: [pad] is what [rand.Read] wrote after the
    address. *)
Definition EncodeHeader (nextHop : list byte) (relayKey : list byte)
    (pad : option (list byte)) : result proto_error (list byte) :=
  if negb (len relayKey =? KeySize) then Err (BadKeyLen (len relayKey)) else
  let addrLen := len nextHop in
  if ForwardingHeaderSize - 3 <? addrLen then Err (NextHopTooLong addrLen) else
  match pad with
  | None => Err RandFailed
  | Some pad =>
      let plaintext := be_bytes 2 (u16 addrLen) ++ nextHop
                         ++ take (Z.to_nat (ForwardingHeaderSize - 2 - addrLen)) pad in
      Ok (xor_bytes plaintext (keystream relayKey 64))
  end.

Definition DecodeForwardingHeader (encrypted relayKey : list byte)
    : result proto_error (list byte) :=
  if negb (len encrypted =? ForwardingHeaderSize) then Err (BadWireHeaderLen (len encrypted)) else
  if negb (len relayKey =? KeySize) then Err (BadKeyLen (len relayKey)) else
  let plaintext := xor_bytes encrypted (keystream relayKey 64) in
  let addrLen := be_Z (slice plaintext 0 2) in
  if ForwardingHeaderSize - 2 <? addrLen then Err (BadNextHopLen addrLen) else
  Ok (slice plaintext 2 (2 + addrLen)).

(** The plaintext that [EncodeChunk] seals, before padding and payload. *)
Definition chunk_meta (chunk : Chunk) (circuitID : list byte) : list byte :=
  circuitID ++ be_bytes 4 (StreamID chunk) ++ be_bytes 4 (Sequence chunk)
    ++ be_bytes 4 (Total chunk) ++ [byte_of_Z (Type_ chunk)]
    ++ be_bytes 2 (PaddingLen chunk) ++ be_bytes 4 (u32 (len (Payload chunk))).

(** ChaCha20-Poly1305 with associated data:
    [seal key nonce plaintext ad] and [open key nonce ciphertext ad]. *)
Context (seal : list byte -> list byte -> list byte -> list byte -> list byte).
Context (open : list byte -> list byte -> list byte -> list byte -> option (list byte)).

(** [EncodeChunk]: [rpad], [rnonce] and [rhdr] are the three reads of the
    random source (chunk padding, nonce, header padding). The first one
    happens only when the chunk asks for padding. *)
Definition EncodeChunk (chunk : Chunk) (e2eKey relayKey nextHop circuitID : list byte)
    (rpad rnonce rhdr : option (list byte)) : result proto_error WireChunk :=
  if negb (len e2eKey =? KeySize) then Err (BadKeyLen (len e2eKey)) else
  if negb (len circuitID =? CircuitIDSize) then Err (BadCircuitIDLen (len circuitID)) else
  padding ← (if 0 <? PaddingLen chunk then
               match rpad with
               | None => Err RandFailed
               | Some p => Ok (take (Z.to_nat (PaddingLen chunk)) p)
               end
             else Ok []);
  let plaintext := chunk_meta chunk circuitID ++ padding ++ Payload chunk in
  match rnonce with
  | None => Err RandFailed
  | Some nonce =>
      header ← EncodeHeader nextHop relayKey rhdr;
      Ok {| Header := header; Nonce := nonce;
            Ciphertext := seal e2eKey nonce plaintext header |}
  end.

Definition DecodeChunk (wc : WireChunk) (e2eKey circuitID : list byte)
    : result proto_error Chunk :=
  if negb (len e2eKey =? KeySize) then Err (BadKeyLen (len e2eKey)) else
  if negb (len (Nonce wc) =? NonceSize) then Err (BadWireNonceLen (len (Nonce wc))) else
  if negb (len (Header wc) =? ForwardingHeaderSize) then
    Err (BadWireHeaderLen (len (Header wc))) else
  if negb (len circuitID =? CircuitIDSize) then Err (BadCircuitIDLen (len circuitID)) else
  match open e2eKey (Nonce wc) (Ciphertext wc) (Header wc) with
  | None => Err AEADOpenFailed
  | Some pt =>
      if len pt <? metaSize then Err (PlaintextTooShort (len pt)) else
      if negb (bytesEqual (slice pt 0 16) circuitID) then Err CircuitIDMismatch else
      let paddingLen := be_Z (slice pt 29 31) in
      let payloadLen := be_Z (slice pt 31 35) in
      if len pt <? 35 + paddingLen then
        Err (PaddingOverflows paddingLen (len pt - 35)) else
      let offset := 35 + paddingLen in
      let remaining := len pt - offset in
      if negb (payloadLen =? remaining) then Err (PayloadLenMismatch payloadLen remaining) else
      Ok {| StreamID := be_Z (slice pt 16 20);
            Sequence := be_Z (slice pt 20 24);
            Total := be_Z (slice pt 24 28);
            Type_ := be_Z (slice pt 28 29);
            Payload := drop (Z.to_nat offset) pt;
            PaddingLen := paddingLen |}
  end.

(** ** Byte comparison and xor *)

Lemma xor_fold_zero ps v :
  0 <= v ->
  foldl (fun v p => Z.lor v (Z.lxor (Z_of_byte p.1) (Z_of_byte p.2))) v ps = 0 <->
  v = 0 /\ Forall (fun p => p.1 = p.2) ps.
Proof.
  revert v. induction ps as [|[a b] ps IH]; intros v Hv; cbn [foldl fst snd].
  { split; [auto | by intros [? _]]. }
  pose proof (Z_of_byte_range a). pose proof (Z_of_byte_range b).
  rewrite IH by (apply Z.lor_nonneg; split; [done | apply Z.lxor_nonneg; lia]).
  rewrite Z.lor_eq_0_iff, Z.lxor_eq_0_iff, Forall_cons; cbn.
  split; [intros [[? ?%Z_of_byte_inj] ?]; auto | intros (? & -> & ?); auto].
Qed.

Lemma zip_diag_Forall {A} (a b : list A) :
  length a = length b -> Forall (fun p => p.1 = p.2) (zip a b) <-> a = b.
Proof.
  revert b. induction a as [|x a IH]; intros [|y b] Hl; try discriminate; cbn.
  { split; auto. }
  rewrite Forall_cons, IH by (cbn in Hl; lia). cbn. split; [intros [-> ->]; done | by intros [= -> ->]].
Qed.

Lemma bytesEqual_iff a b : bytesEqual a b = true <-> a = b.
Proof.
  unfold bytesEqual. destruct (Z.eqb_spec (len a) (len b)) as [Hl|Hl]; cbn [negb].
  - rewrite Z.eqb_eq, xor_fold_zero by lia. rewrite zip_diag_Forall by lia. split; [by intros [_ ?] | done].
  - split; [discriminate | intros ->; done].
Qed.

Lemma xor_bytes_length a k : (length a <= length k)%nat -> length (xor_bytes a k) = length a.
Proof. intros. unfold xor_bytes. rewrite length_zip_with. lia. Qed.

Lemma xor_bytes_involutive a k :
  (length a <= length k)%nat -> xor_bytes (xor_bytes a k) k = a.
Proof.
  revert k. induction a as [|x a IH]; intros [|y k] Hl; cbn in *; try done; [lia|].
  unfold xor_bytes in *. cbn. rewrite IH by lia. f_equal.
  apply Z_of_byte_inj. rewrite !Z_of_byte_of_Z.
  pose proof (Z_of_byte_range x). pose proof (Z_of_byte_range y).
  pose proof (lxor_byte_range _ _ (Z_of_byte_range x) (Z_of_byte_range y)).
  rewrite (Z.mod_small (Z.lxor (Z_of_byte x) (Z_of_byte y)) 256) by lia.
  rewrite Z.lxor_assoc, Z.lxor_nilpotent, Z.lxor_0_r. apply Z.mod_small. lia.
Qed.

(** ** Theorems on headers and chunks *)

(** The key stream is as long as asked for. *)
Hypothesis keystream_length : forall k n, length (keystream k n) = n.

Lemma EncodeHeader_ok hop k pad h :
  EncodeHeader hop k (Some pad) = Ok h -> ForwardingHeaderSize <= len pad + len hop + 2 ->
  len h = ForwardingHeaderSize /\ DecodeForwardingHeader h k = Ok hop.
Proof.
  unfold EncodeHeader, DecodeForwardingHeader, ForwardingHeaderSize, KeySize. intros H Hp.
  repeat (case_hyp H; [discriminate|]). to_prop. apply Ok_inj in H as <-.
  set (pt := be_bytes 2 (u16 (len hop)) ++ hop ++ take (Z.to_nat (64 - 2 - len hop)) pad).
  assert (length pt = 64%nat) as Hpt by (unfold pt; len_simpl; lia).
  pose proof (keystream_length k 64) as Hks.
  rewrite xor_bytes_length by lia. rewrite xor_bytes_involutive by lia.
  split; [lia|]. rewrite Hpt. cbn [Z.eqb Z.of_nat negb Pos.eqb].
  replace (be_Z (slice pt 0 2)) with (len hop).
  2:{ unfold pt. slice_norm. rewrite be_Z_u16 by (rewrite u16_small by lia; lia).
      by rewrite u16_small by lia. }
  rewrite (proj2 (Z.ltb_ge _ _)) by lia. unfold pt. slice_norm. done.
Qed.

Lemma chunk_meta_length c cid :
  len cid = CircuitIDSize -> length (chunk_meta c cid) = 35%nat.
Proof. unfold CircuitIDSize. intros. unfold chunk_meta. len_simpl. lia. Qed.

(** AEAD correctness: opening what was sealed with the same key, nonce and
    associated data returns the plaintext. *)
Hypothesis open_seal : forall k n pt ad, open k n (seal k n pt ad) ad = Some pt.

Lemma DecodeChunk_sealed k nonce hdr c cid cid' pad :
  len k = KeySize -> len nonce = NonceSize -> len hdr = ForwardingHeaderSize ->
  len cid = CircuitIDSize -> len cid' = CircuitIDSize -> chunk_ok c ->
  len pad = PaddingLen c ->
  DecodeChunk {| Header := hdr; Nonce := nonce;
                 Ciphertext := seal k nonce (chunk_meta c cid ++ pad ++ Payload c) hdr |} k cid'
  = if decide (cid = cid') then Ok c else Err CircuitIDMismatch.
Proof.
  intros Hk Hn Hh Hcid Hcid' [] Hpad. unfold DecodeChunk. cbn [Header Nonce Ciphertext].
  rewrite Hk, Hn, Hh, Hcid', !Z.eqb_refl. cbn [negb]. rewrite open_seal.
  pose proof (chunk_meta_length c cid Hcid) as Hm.
  unfold CircuitIDSize in *.
  rewrite (proj2 (Z.ltb_ge _ _)) by (unfold metaSize; len_simpl; lia).
  replace (slice _ 0 16) with cid by (unfold chunk_meta; rewrite <-!app_assoc; slice_norm; done).
  case_decide as Hd.
  2:{ destruct (bytesEqual cid cid') eqn:E; [|done]. by apply bytesEqual_iff in E. }
  rewrite (proj2 (bytesEqual_iff cid cid') Hd). cbn [negb]. clear Hd.
  set (pt := chunk_meta c cid ++ pad ++ Payload c).
  assert (be_Z (slice pt 29 31) = PaddingLen c /\ be_Z (slice pt 31 35) = len (Payload c) /\
    be_Z (slice pt 16 20) = StreamID c /\ be_Z (slice pt 20 24) = Sequence c /\
    be_Z (slice pt 24 28) = Total c /\ be_Z (slice pt 28 29) = Type_ c) as
    (-> & -> & -> & -> & -> & ->).
  { unfold pt, chunk_meta. rewrite <-!app_assoc.
    repeat split; slice_norm; rewrite ?be_Z_singleton, ?be_Z_u32, ?be_Z_u16;
      rewrite ?u32_small; rewrite ?Z.mod_small; lia || done. }
  assert (len pt = 35 + PaddingLen c + len (Payload c)) as Hpt by (unfold pt; len_simpl; lia).
  rewrite (proj2 (Z.ltb_ge _ _)) by lia.
  rewrite (proj2 (Z.eqb_eq _ _)) by lia. cbn [negb].
  assert (drop (Z.to_nat (35 + PaddingLen c)) pt = Payload c) as ->.
  { unfold pt. rewrite app_assoc. apply drop_len_app. len_simpl. lia. }
  by destruct c.
Qed.

Lemma EncodeChunk_decodes chunk e2eKey relayKey hop cid cid' rpad rnonce rhdr wc :
  chunk_ok chunk -> len cid' = CircuitIDSize ->
  len rnonce = NonceSize -> len rpad = PaddingLen chunk ->
  ForwardingHeaderSize <= len rhdr + len hop + 2 ->
  EncodeChunk chunk e2eKey relayKey hop cid (Some rpad) (Some rnonce) (Some rhdr) = Ok wc ->
  len (Header wc) = ForwardingHeaderSize /\ len (Nonce wc) = NonceSize /\
  DecodeForwardingHeader (Header wc) relayKey = Ok hop /\
  DecodeChunk wc e2eKey cid' = if decide (cid = cid') then Ok chunk else Err CircuitIDMismatch.
Proof.
  intros Hok Hcid' Hn Hpad Hhdr. unfold EncodeChunk. intros H.
  do 2 (case_hyp H; [discriminate|]). to_prop.
  assert ((if 0 <? PaddingLen chunk then Ok (take (Z.to_nat (PaddingLen chunk)) rpad) else Ok [])
          = @Ok proto_error _ rpad) as E.
  { destruct (Z.ltb_spec 0 (PaddingLen chunk)).
    - f_equal. apply take_ge. lia.
    - f_equal. symmetry. apply list_len_0. lia. }
  rewrite E in H. cbn [mbind result_bind] in H. clear E.
  destruct (EncodeHeader hop relayKey (Some rhdr)) as [h|] eqn:Eh; [|discriminate].
  cbn [mbind result_bind] in H. injection H as <-.
  apply EncodeHeader_ok in Eh as [Hl Hd]; [|done]. split_and!; [exact Hl | exact Hn | exact Hd |].
  apply DecodeChunk_sealed; auto.
Qed.

(** Encoding succeeds when every size is right and the random source works. *)
Lemma EncodeChunk_total chunk e2eKey relayKey hop cid rpad rnonce rhdr :
  len e2eKey = KeySize -> len cid = CircuitIDSize -> len relayKey = KeySize ->
  len hop <= ForwardingHeaderSize - 3 ->
  exists wc, EncodeChunk chunk e2eKey relayKey hop cid (Some rpad) (Some rnonce) (Some rhdr) = Ok wc.
Proof.
  intros Hk Hc Hr Hh. unfold EncodeChunk, EncodeHeader. rewrite Hk, Hc, Hr, !Z.eqb_refl. cbn [negb].
  rewrite (proj2 (Z.ltb_ge _ _)) by lia. destruct (0 <? PaddingLen chunk); cbn; by eexists.
Qed.

(** C8. End-to-end chunk transport: what [EncodeChunk] produces for a chunk
    whose fields fit their types is a 64-byte header naming the next hop for
    the relay key, and a ciphertext that [DecodeChunk] opens to exactly that
    chunk under the same circuit id and rejects with a circuit id mismatch
    under any other. *)
Theorem EncodeChunk_DecodeChunk chunk e2eKey relayKey hop cid cid' rpad rnonce rhdr wc :
  chunk_ok chunk -> len cid' = CircuitIDSize ->
  len rnonce = NonceSize -> len rpad = PaddingLen chunk ->
  ForwardingHeaderSize <= len rhdr + len hop + 2 ->
  EncodeChunk chunk e2eKey relayKey hop cid (Some rpad) (Some rnonce) (Some rhdr) = Ok wc ->
  DecodeForwardingHeader (Header wc) relayKey = Ok hop /\
  DecodeChunk wc e2eKey cid' = if decide (cid = cid') then Ok chunk else Err CircuitIDMismatch.
Proof. intros. by eapply (EncodeChunk_decodes chunk e2eKey relayKey hop cid cid' rpad rnonce rhdr wc). Qed.

End ForwardingHeader.

(** A concrete cipher for the witnesses: a constant key stream, and a seal
    that prefixes the plaintext with the associated data it is bound to. *)
Definition toy_keystream (k : list byte) (n : nat) : list byte := replicate n x5a.
Definition toy_seal (k n pt ad : list byte) : list byte := ad ++ pt.
Definition toy_open (k n ct ad : list byte) : option (list byte) :=
  if decide (take (length ad) ct = ad) then Some (drop (length ad) ct) else None.

Lemma toy_open_seal k n pt ad : toy_open k n (toy_seal k n pt ad) ad = Some pt.
Proof. unfold toy_open, toy_seal. by rewrite take_app_length, decide_True, drop_app_length. Qed.

Lemma EncodeChunk_DecodeChunk_witness :
  let c := {| StreamID := 3; Sequence := 1; Total := 2; Type_ := ChunkData;
              Payload := [x01; x02; x03]; PaddingLen := 2 |} in
  let k := replicate 32 x11 in
  let cid := replicate 16 x22 in
  exists wc,
    EncodeChunk toy_keystream toy_seal c k k [x31; x32] cid
      (Some [x00; x00]) (Some (replicate 12 x33)) (Some (replicate 62 x44)) = Ok wc /\
    DecodeForwardingHeader toy_keystream (Header wc) k = Ok [x31; x32] /\
    DecodeChunk toy_open wc k cid = Ok c /\
    DecodeChunk toy_open wc k (replicate 16 x23) = Err CircuitIDMismatch.
Proof.
  intros c k cid.
  assert (chunk_ok c) as Hc by (constructor; cbn; unfold ChunkData; lia).
  destruct (EncodeChunk toy_keystream toy_seal c k k [x31; x32] cid
      (Some [x00; x00]) (Some (replicate 12 x33)) (Some (replicate 62 x44))) as [wc|e] eqn:E;
    [|vm_compute in E; discriminate].
  exists wc. split; [done|].
  pose proof (fun cid' H => EncodeChunk_DecodeChunk toy_keystream toy_seal toy_open
    (fun k n => length_replicate n x5a) toy_open_seal c k k [x31; x32] cid cid'
    [x00; x00] (replicate 12 x33) (replicate 62 x44) wc Hc H eq_refl eq_refl
    ltac:(vm_compute; discriminate) E) as Hdec.
  destruct (Hdec cid eq_refl) as [H1 H2].
  destruct (Hdec (replicate 16 x23) eq_refl) as [_ H3]. clear Hdec.
  repeat split; [exact H1 | exact H2 | exact H3].
Defined.

(** ** Key agreement and derivation *)
Section Keys.
Context (sha256 : list byte -> list byte).
(** [curve25519.X25519(scalar, point)]; [None] is its low-order error. *)
Context (x25519 : list byte -> list byte -> option (list byte)).
Context (basepoint : list byte).

(** [copy(k, key)] into a zeroed block of 64 bytes. *)
Definition hmac_block (key : list byte) : list byte :=
  take 64 key ++ replicate (64 - length key) x00.

Definition newHMACSHA256WithKey (key data : list byte) : list byte :=
  let k := hmac_block key in
  let ipad := (fun b => byte_of_Z (Z.lxor (Z_of_byte b) 0x36)) <$> k in
  let opad := (fun b => byte_of_Z (Z.lxor (Z_of_byte b) 0x5c)) <$> k in
  sha256 (opad ++ sha256 (ipad ++ data)).

Definition newHMACSHA256 (data : list byte) : list byte :=
  newHMACSHA256WithKey (replicate 32 x00) data.

Definition deriveKey (secret info : list byte) : list byte :=
  let prk := newHMACSHA256 (bytes_of_string "meshdesk-prk:" ++ secret) in
  take (Z.to_nat KeySize) (newHMACSHA256WithKey prk (info ++ [x01])).

Definition DeriveSharedKey (privKey peerPubKey : list byte) : result proto_error (list byte) :=
  if negb (len privKey =? 32) then Err (BadKeyLen (len privKey)) else
  if negb (len peerPubKey =? 32) then Err (BadPubKeyLen (len peerPubKey)) else
  match x25519 privKey peerPubKey with
  | None => Err X25519Failed
  | Some shared => Ok (deriveKey shared (bytes_of_string "meshdesk-circuit-e2e-v1"))
  end.

(** The scalar of a random 32-byte string, clamped per Curve25519. *)
Definition clamp (priv : list byte) : list byte :=
  let set i f l := alter (fun b => byte_of_Z (f (Z_of_byte b))) i l in
  set 31%nat (fun b => Z.lor (Z.land b 127) 64) (set 0%nat (fun b => Z.land b 248) priv).

Definition GenerateECDHKeyPair (rnd : option (list byte))
    : result proto_error (list byte * list byte) :=
  match rnd with
  | None => Err RandFailed
  | Some priv =>
      let priv := clamp priv in
      match x25519 priv basepoint with
      | None => Err X25519Failed
      | Some pub => Ok (priv, pub)
      end
  end.

Lemma clamp_length l : length (clamp l) = length l.
Proof. unfold clamp. by rewrite !length_alter. Qed.

(** Diffie-Hellman: scalar multiplications commute on the base point. *)
Hypothesis x25519_comm : forall a b pa pb,
  x25519 a basepoint = Some pa -> x25519 b basepoint = Some pb ->
  x25519 a pb = x25519 b pa.
Hypothesis x25519_length : forall a b p, x25519 a b = Some p -> length p = 32%nat.

(** Circuit key agreement: after exchanging the public keys of key
    pairs they generated, entry and exit derive the same outcome, so either
    both hold one end-to-end key or both fail. *)
Theorem DeriveSharedKey_agree ra rb a pa b pb :
  length ra = 32%nat -> length rb = 32%nat ->
  GenerateECDHKeyPair (Some ra) = Ok (a, pa) ->
  GenerateECDHKeyPair (Some rb) = Ok (b, pb) ->
  DeriveSharedKey a pb = DeriveSharedKey b pa.
Proof.
  unfold GenerateECDHKeyPair. intros Hra Hrb Ha Hb.
  destruct (x25519 (clamp ra) basepoint) as [?|] eqn:Ea; [|discriminate].
  destruct (x25519 (clamp rb) basepoint) as [?|] eqn:Eb; [|discriminate].
  simplify_eq. unfold DeriveSharedKey.
  rewrite !clamp_length, Hra, Hrb, (x25519_length _ _ _ Ea), (x25519_length _ _ _ Eb).
  cbn [Z.of_nat Z.eqb negb]. by rewrite (x25519_comm _ _ _ _ Ea Eb).
Qed.
End Keys.

(** A concrete commutative scheme for the witness: multiplication modulo
    2^256, with base point 9. *)
Definition toy_x25519 (s p : list byte) : option (list byte) :=
  Some (be_bytes 32 (be_Z s * be_Z p)).
Definition toy_sha256 (d : list byte) : list byte := be_bytes 32 (be_Z d).

Lemma toy_x25519_comm a b pa pb :
  toy_x25519 a (be_bytes 32 9) = Some pa -> toy_x25519 b (be_bytes 32 9) = Some pb ->
  toy_x25519 a pb = toy_x25519 b pa.
Proof.
  intros [= <-] [= <-]. unfold toy_x25519. f_equal.
  rewrite !be_Z_be_bytes, <-be_bytes_mod, <-(be_bytes_mod 32 (be_Z b * _)).
  rewrite !Z.mul_mod_idemp_r by (pose proof (pow256_pos 32); lia).
  f_equal. f_equal. ring.
Qed.

Lemma DeriveSharedKey_agree_witness :
  let ra := replicate 32 x41 in let rb := replicate 32 x42 in
  let pub r := be_bytes 32 (be_Z (clamp r) * be_Z (be_bytes 32 9)) in
  exists k,
    DeriveSharedKey toy_sha256 toy_x25519 (clamp ra) (pub rb) = Ok k /\
    DeriveSharedKey toy_sha256 toy_x25519 (clamp rb) (pub ra) = Ok k.
Proof.
  intros ra rb pub.
  assert (DeriveSharedKey toy_sha256 toy_x25519 (clamp ra) (pub rb) =
          DeriveSharedKey toy_sha256 toy_x25519 (clamp rb) (pub ra)) as H.
  { apply (DeriveSharedKey_agree toy_sha256 toy_x25519 (be_bytes 32 9) toy_x25519_comm
      ltac:(by intros ??? [= <-]) ra rb); reflexivity. }
  destruct (DeriveSharedKey toy_sha256 toy_x25519 (clamp ra) (pub rb)) as [k|e] eqn:E.
  - exists k. split; [done | by rewrite <-H].
  - exfalso. vm_compute in E. discriminate.
Defined.

(** ** Control messages *)
Record CircuitSetup : Type := {
  cs_CircuitID : list byte; cs_ECDHPubKey : list byte; cs_TargetAddr : string }.
Record CircuitAck : Type := {
  ca_CircuitID : list byte; ca_ECDHPubKey : list byte; ca_Accepted : bool; ca_Reason : string }.
Record TeardownMsg : Type := { ct_CircuitID : list byte; ct_Reason : string }.
Record KeepaliveMsg : Type := { k_CircuitID : list byte; k_Timestamp : Z }.
Record NACKMsg : Type := {
  n_CircuitID : list byte; n_StreamID : Z; n_MissingSeqs : list Z }.

Definition EncodeSetup (cs : CircuitSetup) : result proto_error (list byte) :=
  if negb (len (cs_CircuitID cs) =? CircuitIDSize) then
    Err (BadCircuitIDLen (len (cs_CircuitID cs))) else
  if negb (len (cs_ECDHPubKey cs) =? 32) then Err (BadPubKeyLen (len (cs_ECDHPubKey cs))) else
  let targetLen := strlen (cs_TargetAddr cs) in
  if 65535 <? targetLen then Err (TargetTooLong targetLen) else
  Ok (cs_CircuitID cs ++ cs_ECDHPubKey cs ++ be_bytes 2 (u16 targetLen)
        ++ bytes_of_string (cs_TargetAddr cs)).

Definition DecodeCircuitSetup (data : list byte) : result proto_error CircuitSetup :=
  if len data <? CircuitIDSize + 32 + 2 then Err (MsgTooShort (len data)) else
  let targetLen := be_Z (slice data (CircuitIDSize + 32) (CircuitIDSize + 32 + 2)) in
  let targetStart := CircuitIDSize + 32 + 2 in
  if negb (targetLen =? len data - targetStart) then
    Err (TargetLenMismatch targetLen (len data - targetStart)) else
  Ok {| cs_CircuitID := slice data 0 CircuitIDSize;
        cs_ECDHPubKey := slice data CircuitIDSize (CircuitIDSize + 32);
        cs_TargetAddr := string_of_bytes (drop (Z.to_nat targetStart) data) |}.

Definition EncodeAck (ca : CircuitAck) : result proto_error (list byte) :=
  if negb (len (ca_CircuitID ca) =? CircuitIDSize) then
    Err (BadCircuitIDLen (len (ca_CircuitID ca))) else
  if negb (len (ca_ECDHPubKey ca) =? 32) then Err (BadPubKeyLen (len (ca_ECDHPubKey ca))) else
  Ok (ca_CircuitID ca ++ ca_ECDHPubKey ca ++ [if ca_Accepted ca then x01 else x00]
        ++ be_bytes 2 (u16 (strlen (ca_Reason ca))) ++ bytes_of_string (ca_Reason ca)).

Definition DecodeCircuitAck (data : list byte) : result proto_error CircuitAck :=
  if len data <? CircuitIDSize + 32 + 1 + 2 then Err (MsgTooShort (len data)) else
  let reasonLen := be_Z (slice data (CircuitIDSize + 33) (CircuitIDSize + 33 + 2)) in
  let reasonStart := CircuitIDSize + 33 + 2 in
  if len data - reasonStart <? reasonLen then Err ReasonOverflows else
  Ok {| ca_CircuitID := slice data 0 CircuitIDSize;
        ca_ECDHPubKey := slice data CircuitIDSize (CircuitIDSize + 32);
        ca_Accepted :=
          bool_decide (slice data (CircuitIDSize + 32) (CircuitIDSize + 33) = [x01]);
        ca_Reason := string_of_bytes (slice data reasonStart (reasonStart + reasonLen)) |}.

Definition EncodeTeardown (ct : TeardownMsg) : result proto_error (list byte) :=
  if negb (len (ct_CircuitID ct) =? CircuitIDSize) then
    Err (BadCircuitIDLen (len (ct_CircuitID ct))) else
  Ok (ct_CircuitID ct ++ be_bytes 2 (u16 (strlen (ct_Reason ct)))
        ++ bytes_of_string (ct_Reason ct)).

Definition DecodeTeardown (data : list byte) : result proto_error TeardownMsg :=
  if len data <? CircuitIDSize + 2 then Err (MsgTooShort (len data)) else
  let reasonLen := be_Z (slice data CircuitIDSize (CircuitIDSize + 2)) in
  let reasonStart := CircuitIDSize + 2 in
  if len data - reasonStart <? reasonLen then Err ReasonOverflows else
  Ok {| ct_CircuitID := slice data 0 CircuitIDSize;
        ct_Reason := string_of_bytes (slice data reasonStart (reasonStart + reasonLen)) |}.

Definition EncodeKeepalive (k : KeepaliveMsg) : result proto_error (list byte) :=
  if negb (len (k_CircuitID k) =? CircuitIDSize) then
    Err (BadCircuitIDLen (len (k_CircuitID k))) else
  Ok (k_CircuitID k ++ be_bytes 8 (u64 (k_Timestamp k))).

Definition DecodeKeepalive (data : list byte) : result proto_error KeepaliveMsg :=
  if len data <? CircuitIDSize + 8 then Err (MsgTooShort (len data)) else
  Ok {| k_CircuitID := slice data 0 CircuitIDSize;
        k_Timestamp := i64 (be_Z (slice data CircuitIDSize (CircuitIDSize + 8))) |}.

Definition EncodeNACK (n : NACKMsg) : result proto_error (list byte) :=
  if negb (len (n_CircuitID n) =? CircuitIDSize) then
    Err (BadCircuitIDLen (len (n_CircuitID n))) else
  Ok (n_CircuitID n ++ be_bytes 4 (n_StreamID n) ++ be_bytes 2 (u16 (len (n_MissingSeqs n)))
        ++ mjoin (be_bytes 4 <$> n_MissingSeqs n)).

(** The loop over [count] sequence numbers, at index [i] and byte [offset]. *)
Fixpoint decode_seqs (count : nat) (i offset : Z) (data : list byte)
    : result proto_error (list Z) :=
  match count with
  | O => Ok []
  | S count =>
      if len data <? offset + 4 then Err (SeqOverflows i) else
      seqs ← decode_seqs count (i + 1) (offset + 4) data;
      Ok (be_Z (slice data offset (offset + 4)) :: seqs)
  end.

Definition DecodeNACK (data : list byte) : result proto_error NACKMsg :=
  if len data <? CircuitIDSize + 6 then Err (MsgTooShort (len data)) else
  let count := be_Z (slice data (CircuitIDSize + 4) (CircuitIDSize + 6)) in
  seqs ← decode_seqs (Z.to_nat count) 0 (CircuitIDSize + 6) data;
  Ok {| n_CircuitID := slice data 0 CircuitIDSize;
        n_StreamID := be_Z (slice data CircuitIDSize (CircuitIDSize + 4));
        n_MissingSeqs := seqs |}.

(** *** Round trips *)

(** Messages whose variable fields fit their length prefix. *)
Definition setup_ok (cs : CircuitSetup) : Prop :=
  len (cs_CircuitID cs) = CircuitIDSize /\ len (cs_ECDHPubKey cs) = 32 /\
  strlen (cs_TargetAddr cs) <= 65535.
Definition ack_ok (ca : CircuitAck) : Prop :=
  len (ca_CircuitID ca) = CircuitIDSize /\ len (ca_ECDHPubKey ca) = 32 /\
  strlen (ca_Reason ca) <= 65535.
Definition teardown_ok (ct : TeardownMsg) : Prop :=
  len (ct_CircuitID ct) = CircuitIDSize /\ strlen (ct_Reason ct) <= 65535.
Definition keepalive_ok (k : KeepaliveMsg) : Prop :=
  len (k_CircuitID k) = CircuitIDSize /\ - 2 ^ 63 <= k_Timestamp k < 2 ^ 63.
Definition nack_ok (n : NACKMsg) : Prop :=
  len (n_CircuitID n) = CircuitIDSize /\ 0 <= n_StreamID n < 2 ^ 32 /\
  len (n_MissingSeqs n) <= 65535 /\ Forall (fun s => 0 <= s < 2 ^ 32) (n_MissingSeqs n).

Lemma bool_decide_accept (acc : bool) :
  bool_decide ([if acc then x01 else x00] = [x01]) = acc.
Proof. by destruct acc. Qed.

#[export] Instance setup_codec : Codec setup_ok EncodeSetup DecodeCircuitSetup.
Proof.
  split.
  - intros a (H1 & H2 & H3). eexists. unfold EncodeSetup.
    rewrite H1, H2, !Z.eqb_refl, (proj2 (Z.ltb_ge _ _)) by lia. reflexivity.
  - intros a b (H1 & H2 & H3) H. unfold EncodeSetup in H.
    repeat (case_hyp H; [discriminate|]). apply Ok_inj in H as <-.
    unfold DecodeCircuitSetup, CircuitIDSize, strlen in *.
    set (t := bytes_of_string (cs_TargetAddr a)) in *.
    rewrite (proj2 (Z.ltb_ge _ _)) by len_lia.
    replace (be_Z (slice _ (16 + 32) _)) with (len t)
      by (slice_norm; rewrite u16_small, be_Z_u16 by lia; done).
    rewrite (proj2 (Z.eqb_eq _ _)) by len_lia. cbn [negb].
    rewrite <-(slice_drop _ _ (16 + 32 + 2 + len t)) by len_lia.
    slice_norm. unfold t. rewrite string_of_bytes_of_string. by destruct a.
Qed.

#[export] Instance ack_codec : Codec ack_ok EncodeAck DecodeCircuitAck.
Proof.
  split.
  - intros a (H1 & H2 & H3). eexists. unfold EncodeAck.
    rewrite H1, H2, !Z.eqb_refl. reflexivity.
  - intros a b (H1 & H2 & H3) H. unfold EncodeAck in H.
    repeat (case_hyp H; [discriminate|]). apply Ok_inj in H as <-.
    unfold DecodeCircuitAck, CircuitIDSize, strlen in *.
    set (t := bytes_of_string (ca_Reason a)) in *.
    rewrite (proj2 (Z.ltb_ge _ _)) by len_lia.
    replace (be_Z (slice _ (16 + 33) _)) with (len t)
      by (slice_norm; rewrite u16_small, be_Z_u16 by lia; done).
    rewrite (proj2 (Z.ltb_ge _ _)) by len_lia.
    slice_norm. rewrite bool_decide_accept. unfold t.
    rewrite string_of_bytes_of_string. by destruct a.
Qed.

#[export] Instance teardown_codec : Codec teardown_ok EncodeTeardown DecodeTeardown.
Proof.
  split.
  - intros a (H1 & H2). eexists. unfold EncodeTeardown. rewrite H1, Z.eqb_refl. reflexivity.
  - intros a b (H1 & H2) H. unfold EncodeTeardown in H.
    case_hyp H; [discriminate|]. apply Ok_inj in H as <-.
    unfold DecodeTeardown, CircuitIDSize, strlen in *.
    set (t := bytes_of_string (ct_Reason a)) in *.
    rewrite (proj2 (Z.ltb_ge _ _)) by len_lia.
    replace (be_Z (slice _ 16 _)) with (len t)
      by (slice_norm; rewrite u16_small, be_Z_u16 by lia; done).
    rewrite (proj2 (Z.ltb_ge _ _)) by len_lia.
    slice_norm. unfold t. rewrite string_of_bytes_of_string. by destruct a.
Qed.

#[export] Instance keepalive_codec : Codec keepalive_ok EncodeKeepalive DecodeKeepalive.
Proof.
  split.
  - intros a (H1 & H2). eexists. unfold EncodeKeepalive. rewrite H1, Z.eqb_refl. reflexivity.
  - intros a b (H1 & H2) H. unfold EncodeKeepalive in H.
    case_hyp H; [discriminate|]. apply Ok_inj in H as <-.
    unfold DecodeKeepalive, CircuitIDSize in *.
    rewrite (proj2 (Z.ltb_ge _ _)) by len_lia.
    slice_norm. rewrite be_Z_u64 by (apply Z.mod_pos_bound; lia).
    rewrite i64_u64 by lia. by destruct a.
Qed.

Lemma mjoin_be4_cons x (l : list Z) :
  mjoin (be_bytes 4 <$> x :: l) = be_bytes 4 x ++ mjoin (be_bytes 4 <$> l).
Proof. reflexivity. Qed.

Lemma mjoin_be4_length (l : list Z) : length (mjoin (be_bytes 4 <$> l)) = (4 * length l)%nat.
Proof.
  induction l as [|x l IH]; [done|].
  rewrite mjoin_be4_cons, length_app, be_bytes_length, IH. cbn [length]. lia.
Qed.
#[local] Hint Rewrite mjoin_be4_length : len.

Lemma decode_seqs_encoded seqs pre i :
  Forall (fun s => 0 <= s < 2 ^ 32) seqs ->
  decode_seqs (length seqs) i (len pre) (pre ++ mjoin (be_bytes 4 <$> seqs)) = Ok seqs.
Proof.
  revert pre i. induction seqs as [|s seqs IH]; intros pre i Hs; [done|].
  apply Forall_cons in Hs as [Hs Hseqs]. rewrite mjoin_be4_cons. cbn [decode_seqs length].
  rewrite (proj2 (Z.ltb_ge _ _)) by len_lia.
  specialize (IH (pre ++ be_bytes 4 s) (i + 1) Hseqs).
  replace (len (pre ++ be_bytes 4 s)) with (len pre + 4) in IH by len_lia.
  rewrite <-app_assoc in IH. rewrite IH. cbn [mbind result_bind].
  slice_norm. by rewrite be_Z_u32.
Qed.

#[export] Instance nack_codec : Codec nack_ok EncodeNACK DecodeNACK.
Proof.
  split.
  - intros a (H1 & H2). eexists. unfold EncodeNACK. rewrite H1, Z.eqb_refl. reflexivity.
  - intros a b (H1 & H2 & H3 & H4) H. unfold EncodeNACK in H.
    case_hyp H; [discriminate|]. apply Ok_inj in H as <-.
    unfold DecodeNACK, CircuitIDSize in *. set (t := n_MissingSeqs a) in *.
    rewrite (proj2 (Z.ltb_ge _ _)) by len_lia.
    replace (be_Z (slice _ (16 + 4) _)) with (len t)
      by (slice_norm; rewrite u16_small, be_Z_u16 by lia; done).
    rewrite Nat2Z.id. rewrite !app_assoc.
    pose proof (decode_seqs_encoded t ((n_CircuitID a ++ be_bytes 4 (n_StreamID a))
      ++ be_bytes 2 (u16 (len t))) 0 H4) as Hd.
    replace (len ((n_CircuitID a ++ _) ++ _)) with (16 + 6) in Hd by len_lia.
    rewrite Hd. cbn [mbind result_bind]. rewrite <-!app_assoc. slice_norm.
    rewrite be_Z_u32 by lia. by destruct a.
Qed.

(** Every circuit control message that fits its wire limits is encoded,
    and decodes to itself: setup, acknowledgement, teardown, keepalive and
    NACK messages round-trip. *)
Theorem control_messages_roundtrip :
  (forall m, setup_ok m -> exists b, EncodeSetup m = Ok b /\ DecodeCircuitSetup b = Ok m) /\
  (forall m, ack_ok m -> exists b, EncodeAck m = Ok b /\ DecodeCircuitAck b = Ok m) /\
  (forall m, teardown_ok m -> exists b, EncodeTeardown m = Ok b /\ DecodeTeardown b = Ok m) /\
  (forall m, keepalive_ok m -> exists b, EncodeKeepalive m = Ok b /\ DecodeKeepalive b = Ok m) /\
  (forall m, nack_ok m -> exists b, EncodeNACK m = Ok b /\ DecodeNACK b = Ok m).
Proof.
  assert (forall A (v : A -> Prop) (enc : A -> result proto_error (list byte)) dec
    (C : Codec v enc dec) m, v m -> exists b, enc m = Ok b /\ @dec b = @Ok proto_error A m) as Hc.
  { intros A v enc dec C m Hm. destruct (codec_total m Hm) as [b Hb]. eauto using codec_roundtrip. }
  repeat split; intros m Hm; eapply Hc; eauto; apply _.
Qed.

(** An acknowledgement whose reason does not fit the 16-bit length prefix is
    encoded without an error, and decodes with its reason cut to the length
    modulo 65536: [CircuitAck.Encode] has no size check, unlike
    [CircuitSetup.Encode]. *)
Lemma ack_reason_cut m b :
  len (ca_CircuitID m) = CircuitIDSize -> len (ca_ECDHPubKey m) = 32 ->
  EncodeAck m = Ok b ->
  DecodeCircuitAck b =
    Ok {| ca_CircuitID := ca_CircuitID m; ca_ECDHPubKey := ca_ECDHPubKey m;
          ca_Accepted := ca_Accepted m;
          ca_Reason := string_of_bytes
            (take (Z.to_nat (strlen (ca_Reason m) mod 65536)) (bytes_of_string (ca_Reason m))) |}.
Proof.
  intros H1 H2 H. unfold EncodeAck in H.
  repeat (case_hyp H; [discriminate|]). apply Ok_inj in H as <-.
  unfold DecodeCircuitAck, CircuitIDSize, strlen in *.
  set (t := bytes_of_string (ca_Reason m)) in *.
  assert (0 <= len t mod 65536 <= len t) as Hm.
  { split; [apply Z.mod_pos_bound; lia | apply Z.mod_le; lia]. }
  rewrite (proj2 (Z.ltb_ge _ _)) by len_lia.
  replace (be_Z (slice _ (16 + 33) _)) with (len t mod 65536)
    by (slice_norm; rewrite be_Z_u16 by (apply Z.mod_pos_bound; lia); done).
  rewrite (proj2 (Z.ltb_ge _ _)) by len_lia.
  slice_norm. rewrite bool_decide_accept.
  do 3 f_equal. len_simpl. rewrite <-slice_take. f_equal; lia.
Qed.

End Circuit.
