(* ===== verification/Reassembler.v ===== *)
(** * Exit-side reassembler (internal/proxy/exit_reassembler.go)

    [ExitReassembler]: per-stream buffers of out-of-order chunks, incremental
    delivery of the contiguous prefix, completion by total or by an end
    marker, memory limits, purge and expiry. The clock is an argument; Go's
    64-bit [int] byte counters are integers (the limits keep them small). *)
From stdpp Require Import prelude gmap list sorting.
From Stdlib Require Import Strings.Byte ZArith Lia.
From S2P Require Import Prelude GoBytes ProxyTypes.
Local Open Scope Z_scope.

Module Exit.

Inductive reassembly_error : Type :=
| ErrReassemblyChunksExceeded
| ErrReassemblyBytesExceeded.

Record exitStreamState : Type := StreamState {
  chunks : gmap Z (list byte);
  nextExpected : Z;
  total : Z;
  totalSet : bool;
  completed : bool;
  bytes : Z;
  accumulated : list byte;
  firstChunkAt : Z
}.

Record ExitReassembler : Type := Reasm {
  cfg : ChunkerConfig;
  streams : gmap Z exitStreamState;
  totalBytes : Z;
  completedStreams : gset Z
}.

Definition NewExitReassembler (c : ChunkerConfig) : ExitReassembler :=
  {| cfg := c; streams := ∅; totalBytes := 0; completedStreams := ∅ |}.

Definition new_stream (now : Z) : exitStreamState :=
  {| chunks := ∅; nextExpected := 0; total := 0; totalSet := false;
     completed := false; bytes := 0; accumulated := []; firstChunkAt := now |}.

(** [len(st.chunks)] *)
Definition nchunks (st : exitStreamState) : Z := Z.of_nat (size (chunks st)).

Definition checkBounds (r : ExitReassembler) (tb : Z) (st : exitStreamState)
    (payload : list byte) : result reassembly_error unit :=
  let maxChunks := MaxReassemblyChunks (cfg r) in
  let maxBytes := MaxReassemblyBytes (cfg r) in
  if (0 <? maxChunks) && (maxChunks <=? nchunks st) then Err ErrReassemblyChunksExceeded
  else if (0 <? maxBytes) && (maxBytes <? tb + len payload) then Err ErrReassemblyBytesExceeded
  else Ok tt.

(** Store a payload under a sequence number and count its bytes. *)
Definition store (st : exitStreamState) (seq : Z) (payload : list byte) : exitStreamState :=
  {| chunks := <[seq := payload]> (chunks st); nextExpected := nextExpected st;
     total := total st; totalSet := totalSet st; completed := completed st;
     bytes := bytes st + len payload; accumulated := accumulated st;
     firstChunkAt := firstChunkAt st |}.

Definition set_total (st : exitStreamState) (t : Z) : exitStreamState :=
  {| chunks := chunks st; nextExpected := nextExpected st; total := t; totalSet := true;
     completed := completed st; bytes := bytes st; accumulated := accumulated st;
     firstChunkAt := firstChunkAt st |}.

Definition set_completed (st : exitStreamState) : exitStreamState :=
  {| chunks := chunks st; nextExpected := nextExpected st; total := total st;
     totalSet := totalSet st; completed := true; bytes := bytes st;
     accumulated := accumulated st; firstChunkAt := firstChunkAt st |}.

Definition set_accumulated (st : exitStreamState) (a : list byte) : exitStreamState :=
  {| chunks := chunks st; nextExpected := nextExpected st; total := total st;
     totalSet := totalSet st; completed := completed st; bytes := bytes st;
     accumulated := a; firstChunkAt := firstChunkAt st |}.

(** One iteration of the delivery loop: take the chunk at [nextExpected]. *)
Definition take_next (st : exitStreamState) (payload : list byte) : exitStreamState :=
  {| chunks := delete (nextExpected st) (chunks st); nextExpected := u32 (nextExpected st + 1);
     total := total st; totalSet := totalSet st; completed := completed st;
     bytes := bytes st - len payload; accumulated := accumulated st;
     firstChunkAt := firstChunkAt st |}.

(** The loop of [deliverContiguous]; it removes a chunk per iteration, so the
    number of buffered chunks bounds its iterations. *)
Fixpoint deliver_loop (fuel : nat) (tb : Z) (st : exitStreamState) (acc : list byte)
    : Z * exitStreamState * list byte :=
  match fuel with
  | O => (tb, st, acc)
  | S fuel =>
      match chunks st !! nextExpected st with
      | None => (tb, st, acc)
      | Some payload =>
          deliver_loop fuel (tb - len payload) (take_next st payload) (acc ++ payload)
      end
  end.

Definition deliverContiguous (tb : Z) (st : exitStreamState) : Z * exitStreamState * list byte :=
  deliver_loop (size (chunks st)) tb st [].

(** The buffered sequence numbers in ascending order ([sort.Slice]). *)
Definition sorted_seqs (m : gmap Z (list byte)) : list Z :=
  merge_sort Z.le (map_to_list m).*1.

Definition flushRemaining (tb : Z) (st : exitStreamState) : Z * exitStreamState * list byte :=
  if decide (chunks st = ∅) then (tb, st, []) else
  let result := mjoin ((fun seq => default [] (chunks st !! seq)) <$> sorted_seqs (chunks st)) in
  let tb := tb - bytes st in
  let tb := if tb <? 0 then 0 else tb in
  (tb, {| chunks := ∅; nextExpected := nextExpected st; total := total st;
          totalSet := totalSet st; completed := completed st; bytes := 0;
          accumulated := accumulated st; firstChunkAt := firstChunkAt st |}, result).

(** The core logic: new byte total, stream state, delivered bytes, done. *)
Definition processChunk (r : ExitReassembler) (tb : Z) (st : exitStreamState) (chunk : Chunk)
    : result reassembly_error (Z * exitStreamState * list byte * bool) :=
  if completed st then Ok (tb, st, [], false) else
  if Type_ chunk =? ChunkPadding then Ok (tb, st, [], false) else
  if Type_ chunk =? ChunkStreamEnd then
    '(tb, st) ← (if negb (len (Payload chunk) =? 0)
                    && bool_decide (chunks st !! Sequence chunk = None)
                    && negb (Sequence chunk <? nextExpected st) then
                   _ ← checkBounds r tb st (Payload chunk);
                   Ok (tb + len (Payload chunk), store st (Sequence chunk) (Payload chunk))
                 else Ok (tb, st));
    let '(tb, st, delivered) := flushRemaining tb (set_completed st) in
    Ok (tb, st, delivered, true)
  else if (0 <? Total chunk) && (Total chunk <=? Sequence chunk) then Ok (tb, st, [], false)
  else if totalSet st && (total st <=? Sequence chunk) then Ok (tb, st, [], false)
  else if bool_decide (is_Some (chunks st !! Sequence chunk)) then Ok (tb, st, [], false)
  else
    _ ← checkBounds r tb st (Payload chunk);
    let st := store st (Sequence chunk) (Payload chunk) in
    let tb := tb + len (Payload chunk) in
    let st := if (0 <? Total chunk) && negb (totalSet st) then set_total st (Total chunk) else st in
    let '(tb, st, delivered) := deliverContiguous tb st in
    if totalSet st && (total st <=? nextExpected st) then
      Ok (tb, set_completed st, delivered, true)
    else Ok (tb, st, delivered, false).

Definition getOrCreateStream (r : ExitReassembler) (now sid : Z) : exitStreamState :=
  default (new_stream now) (streams r !! sid).

(** Write a stream's state and the byte total back. *)
Definition put_stream (r : ExitReassembler) (sid : Z) (tb : Z) (st : exitStreamState)
    : ExitReassembler :=
  {| cfg := cfg r; streams := <[sid := st]> (streams r); totalBytes := tb;
     completedStreams := completedStreams r |}.

Definition mark_completed (r : ExitReassembler) (sid : Z) : ExitReassembler :=
  {| cfg := cfg r; streams := streams r; totalBytes := totalBytes r;
     completedStreams := {[ sid ]} ∪ completedStreams r |}.

Definition cleanupStream (r : ExitReassembler) (sid : Z) : ExitReassembler :=
  match streams r !! sid with
  | None => r
  | Some st =>
      let tb := totalBytes r - bytes st in
      {| cfg := cfg r; streams := delete sid (streams r);
         totalBytes := if tb <? 0 then 0 else tb;
         completedStreams := completedStreams r |}
  end.

(** [AddStreaming] and [Add] return the new reassembler (also on an error,
    since the stream state is created before the limits are checked), the
    bytes handed to the caller and the completion flag. *)
Definition AddStreaming (r : ExitReassembler) (now : Z) (chunk : Chunk)
    : ExitReassembler * result reassembly_error (list byte * bool) :=
  let sid := StreamID chunk in
  if bool_decide (sid ∈ completedStreams r) then (r, Ok ([], false)) else
  let st := getOrCreateStream r now sid in
  let r := put_stream r sid (totalBytes r) st in
  if completed st then (r, Ok ([], false)) else
  match processChunk r (totalBytes r) st chunk with
  | Err e => (r, Err e)
  | Ok (tb, st, delivered, done) =>
      let r := put_stream r sid tb st in
      if done then (cleanupStream (mark_completed r sid) sid, Ok (delivered, true))
      else (r, Ok (delivered, false))
  end.

Definition Add (r : ExitReassembler) (now : Z) (chunk : Chunk)
    : ExitReassembler * result reassembly_error (list byte * bool) :=
  let sid := StreamID chunk in
  if bool_decide (sid ∈ completedStreams r) then (r, Ok ([], false)) else
  let st := getOrCreateStream r now sid in
  let r := put_stream r sid (totalBytes r) st in
  if completed st then (r, Ok ([], false)) else
  match processChunk r (totalBytes r) st chunk with
  | Err e => (r, Err e)
  | Ok (tb, st, delivered, done) =>
      let st := set_accumulated st (accumulated st ++ delivered) in
      let r := put_stream r sid tb st in
      if done then (cleanupStream (mark_completed r sid) sid, Ok (accumulated st, true))
      else (r, Ok ([], false))
  end.

(** ** Queries *)
Definition NextExpected (r : ExitReassembler) (sid : Z) : Z * bool :=
  match streams r !! sid with None => (0, false) | Some st => (nextExpected st, true) end.

Definition HasGap (r : ExitReassembler) (sid : Z) : bool :=
  match streams r !! sid with None => false | Some st => 0 <? nchunks st end.

(** Remove adjacent duplicates of a sorted list, keeping the first. *)
Fixpoint uniq (l : list Z) : list Z :=
  match l with
  | x :: ((y :: _) as l') => if x =? y then uniq l' else x :: uniq l'
  | _ => l
  end.

Definition MissingSequences (r : ExitReassembler) (sid : Z) : list Z :=
  match streams r !! sid with
  | None => []
  | Some st =>
      let missing :=
        seq ← (map_to_list (chunks st)).*1;
        if nextExpected st <=? seq then
          filter (fun s => chunks st !! s = None) (seqZ (nextExpected st) (seq - nextExpected st))
        else [] in
      uniq (merge_sort Z.le missing)
  end.

Definition IsCompleted (r : ExitReassembler) (sid : Z) : bool :=
  match streams r !! sid with None => false | Some st => completed st end.

Definition PurgeStream (r : ExitReassembler) (sid : Z) : ExitReassembler := cleanupStream r sid.

(** Whether a stream has outlived the reassembly timeout. *)
Definition stale (r : ExitReassembler) (now : Z) (st : exitStreamState) : bool :=
  negb (completed st) && (StreamReassemblyTimeout (cfg r) <? now - firstChunkAt st).

Definition ExpireStream (r : ExitReassembler) (sid now : Z) : ExitReassembler * bool :=
  if StreamReassemblyTimeout (cfg r) <=? 0 then (r, false) else
  match streams r !! sid with
  | None => (r, false)
  | Some st => if stale r now st then (cleanupStream r sid, true) else (r, false)
  end.

Definition ExpireStreams (r : ExitReassembler) (now : Z) : ExitReassembler * list Z :=
  if StreamReassemblyTimeout (cfg r) <=? 0 then (r, []) else
  let expired := (map_to_list (filter (fun p => stale r now p.2 = true) (streams r))).*1 in
  (foldl cleanupStream r expired, expired).

Definition ActiveStreamCount (r : ExitReassembler) : Z := Z.of_nat (size (streams r)).
Definition StreamAge (r : ExitReassembler) (sid now : Z) : Z * bool :=
  match streams r !! sid with None => (0, false) | Some st => (now - firstChunkAt st, true) end.
Definition BufferedBytes (r : ExitReassembler) : Z := totalBytes r.

(** ** Accounting invariant *)

(** The byte counter of a stream is the size of its buffered payloads. *)
Definition stream_inv (st : exitStreamState) : Prop :=
  bytes st = msum (fun p => len p) (chunks st).

Definition within (max n : Z) : Prop := 0 < max -> n <= max.

(** The global counter is the sum of the stream counters, and both memory
    limits hold. *)
Record reasm_inv (r : ExitReassembler) : Prop := {
  inv_streams : map_Forall (fun _ st => stream_inv st
                  /\ within (MaxReassemblyChunks (cfg r)) (nchunks st)) (streams r);
  inv_total : totalBytes r = msum bytes (streams r);
  inv_limit : within (MaxReassemblyBytes (cfg r)) (totalBytes r)
}.

Lemma stream_inv_nonneg st : stream_inv st -> 0 <= bytes st.
Proof. intros ->. apply msum_nonneg. lia. Qed.

Lemma msum_bytes_nonneg (m : gmap Z exitStreamState) (P : exitStreamState -> Prop) :
  map_Forall (fun _ st => stream_inv st /\ P st) m -> 0 <= msum bytes m.
Proof.
  induction m as [|k v m Hk IH] using map_ind; intros Hm; [by rewrite msum_empty|].
  apply map_Forall_insert in Hm as [[Hv _] Hm]; [|done].
  rewrite msum_insert by done. apply stream_inv_nonneg in Hv. specialize (IH Hm). lia.
Qed.

Lemma nchunks_store st seq p :
  chunks st !! seq = None -> nchunks (store st seq p) = nchunks st + 1.
Proof. intros H. unfold nchunks. cbn. rewrite map_size_insert_None by done. lia. Qed.

Lemma stream_inv_store st seq p :
  chunks st !! seq = None -> stream_inv st -> stream_inv (store st seq p).
Proof.
  unfold stream_inv. intros H Hi. cbn. rewrite msum_insert by done. lia.
Qed.

Lemma deliver_loop_inv fuel tb st acc tb' st' out :
  stream_inv st -> deliver_loop fuel tb st acc = (tb', st', out) ->
  stream_inv st' /\ tb' - bytes st' = tb - bytes st /\ nchunks st' <= nchunks st /\
  bytes st' <= bytes st.
Proof.
  revert tb st acc. induction fuel as [|fuel IH]; intros tb st acc Hi; cbn.
  { intros [= <- <- <-]. split_and!; auto; lia. }
  destruct (chunks st !! nextExpected st) as [p|] eqn:E; [|intros [= <- <- <-]; split_and!; auto; lia].
  intros H. apply IH in H as (H1 & H2 & H3 & H4).
  - cbn in H2, H4. split_and!; [done|lia| |lia].
    etransitivity; [exact H3|]. unfold nchunks. cbn.
    rewrite map_size_delete_Some by eauto. lia.
  - unfold stream_inv. cbn. rewrite (msum_delete _ _ _ p E). rewrite Hi. lia.
Qed.

Lemma flushRemaining_inv tb st tb' st' out :
  stream_inv st -> bytes st <= tb -> flushRemaining tb st = (tb', st', out) ->
  stream_inv st' /\ tb' - bytes st' = tb - bytes st /\ nchunks st' = 0 /\ bytes st' = 0.
Proof.
  unfold flushRemaining. intros Hi Hb H. case_decide as He.
  - injection H as <- <- <-. rewrite Hi, He, msum_empty. split_and!; [done|lia| |done].
    unfold nchunks. by rewrite He, map_size_empty.
  - injection H as <- <- <-. cbn. rewrite (proj2 (Z.ltb_ge _ _)) by lia.
    split_and!; [by unfold stream_inv; cbn; rewrite msum_empty| lia | | done].
    unfold nchunks. cbn. by rewrite map_size_empty.
Qed.

Lemma checkBounds_ok r tb st p :
  checkBounds r tb st p = Ok tt ->
  (0 < MaxReassemblyChunks (cfg r) -> nchunks st < MaxReassemblyChunks (cfg r)) /\
  within (MaxReassemblyBytes (cfg r)) (tb + len p).
Proof.
  unfold checkBounds, within. intros H. repeat (case_hyp H; [discriminate|]).
  split; intros Hp.
  - apply andb_false_iff in Heqb as [?|?]; to_prop; lia.
  - apply andb_false_iff in Heqb0 as [?|?]; to_prop; lia.
Qed.

Lemma processChunk_inv r tb st c tb' st' out d :
  stream_inv st -> bytes st <= tb ->
  within (MaxReassemblyChunks (cfg r)) (nchunks st) ->
  within (MaxReassemblyBytes (cfg r)) tb ->
  processChunk r tb st c = Ok (tb', st', out, d) ->
  stream_inv st' /\ tb' - bytes st' = tb - bytes st /\
  within (MaxReassemblyChunks (cfg r)) (nchunks st') /\
  within (MaxReassemblyBytes (cfg r)) tb'.
Proof.
  intros Hi Hb Hc Hm H. pose proof (stream_inv_nonneg st Hi) as Hn.
  unfold processChunk in H. unfold within in *.
  destruct (completed st); [by simplify_eq|].
  destruct (_ =? ChunkPadding); [by simplify_eq|].
  destruct (_ =? ChunkStreamEnd).
  { assert (exists tb1 st1, stream_inv st1 /\ tb1 - bytes st1 = tb - bytes st /\ bytes st1 <= tb1 /\
      (0 < MaxReassemblyBytes (cfg r) -> tb1 <= MaxReassemblyBytes (cfg r)) /\
      (let '(tb2, st2, delivered) := flushRemaining tb1 (set_completed st1) in
       Ok (tb2, st2, delivered, true)) = @Ok reassembly_error _ (tb', st', out, d))
      as (tb1 & st1 & Hi1 & Hd1 & Hb1 & Hm1 & H1).
    { destruct (_ && _) eqn:Eg in H; [|exists tb, st; by auto].
      destruct (checkBounds r tb st (Payload c)) as [[]|] eqn:Ecb; [|discriminate].
      apply checkBounds_ok in Ecb as [? ?]. to_prop.
      exists (tb + len (Payload c)), (store st (Sequence c) (Payload c)).
      split_and!; auto using stream_inv_store; cbn; lia. }
    destruct (flushRemaining tb1 (set_completed st1)) as [[tb2 st2] out2] eqn:Ef.
    simplify_eq. apply flushRemaining_inv in Ef as (? & ? & ? & ?); [|done|done].
    cbn in *. pose proof (stream_inv_nonneg st1 Hi1). split_and!; auto; lia. }
  destruct (_ && _); [by simplify_eq|]. destruct (_ && _); [by simplify_eq|].
  destruct (bool_decide _) eqn:Eb; [by simplify_eq|]. to_prop.
  assert (chunks st !! Sequence c = None) as Hnone by (by apply eq_None_not_Some).
  destruct (checkBounds r tb st (Payload c)) as [[]|] eqn:Ecb; [|discriminate].
  apply checkBounds_ok in Ecb as [? ?]. cbn [mbind result_bind] in H.
  set (st1 := if _ && _ then _ else _) in H.
  assert (stream_inv st1 /\ nchunks st1 = nchunks st + 1 /\ bytes st1 = bytes st + len (Payload c))
    as (Hi1 & Hc1 & Hb1).
  { pose proof (stream_inv_store st _ (Payload c) Hnone Hi).
    pose proof (nchunks_store st _ (Payload c) Hnone).
    unfold st1. destruct (_ && _); split_and!; auto. }
  destruct (deliverContiguous _ st1) as [[tb2 st2] out2] eqn:Ed.
  apply deliver_loop_inv in Ed as (Hi2 & ? & ? & ?); [|done].
  pose proof (stream_inv_nonneg st2 Hi2).
  destruct (_ && _) in H; simplify_eq; unfold within, nchunks in *; cbn in *;
    split_and!; (done || lia).
Qed.

Lemma put_stream_inv r sid tb st :
  reasm_inv r -> stream_inv st ->
  within (MaxReassemblyChunks (cfg r)) (nchunks st) ->
  tb - bytes st = totalBytes r - default 0 (bytes <$> streams r !! sid) ->
  within (MaxReassemblyBytes (cfg r)) tb ->
  reasm_inv (put_stream r sid tb st).
Proof.
  intros [Hs Ht Hl] Hi Hc Hd Hb. constructor; cbn; [|  |done].
  - by apply map_Forall_insert_2.
  - destruct (streams r !! sid) as [st0|] eqn:E; cbn in Hd.
    + rewrite (msum_update _ _ _ st0) by done. lia.
    + rewrite msum_insert by done. lia.
Qed.

Lemma cleanupStream_inv r sid : reasm_inv r -> reasm_inv (cleanupStream r sid).
Proof.
  intros [Hs Ht Hl]. unfold cleanupStream. destruct (streams r !! sid) as [st|] eqn:E; [|done].
  assert (0 <= bytes st <= totalBytes r) as Hb.
  { pose proof (Hs _ _ E) as [Hi _]. split; [by apply stream_inv_nonneg|].
    rewrite Ht. rewrite <-(insert_delete_id _ _ _ E), msum_insert by apply lookup_delete_eq.
    apply (map_Forall_delete _ _ sid) in Hs. apply msum_bytes_nonneg in Hs. lia. }
  rewrite (proj2 (Z.ltb_ge _ _)) by lia. constructor; cbn.
  - by apply map_Forall_delete.
  - rewrite (msum_delete _ _ _ st) by done. lia.
  - unfold within in *. lia.
Qed.

Lemma mark_completed_inv r sid : reasm_inv r -> reasm_inv (mark_completed r sid).
Proof. by intros [? ? ?]. Qed.

Lemma stream_inv_new now : stream_inv (new_stream now).
Proof. unfold stream_inv. cbn. by rewrite msum_empty. Qed.

(** A stream state read by [getOrCreateStream] and written back keeps the
    invariant; so does the outcome of processing a chunk on it. *)
Lemma getOrCreateStream_inv r now sid :
  reasm_inv r ->
  let st := getOrCreateStream r now sid in
  stream_inv st /\ within (MaxReassemblyChunks (cfg r)) (nchunks st) /\
  reasm_inv (put_stream r sid (totalBytes r) st) /\ bytes st <= totalBytes r.
Proof.
  intros Hr st.
  assert (stream_inv st /\ within (MaxReassemblyChunks (cfg r)) (nchunks st)) as [Hi Hw].
  { unfold st, getOrCreateStream. destruct (streams r !! sid) as [st0|] eqn:E; cbn.
    - apply (inv_streams r Hr _ _ E).
    - split; [apply stream_inv_new|]. intros ?. unfold nchunks. cbn. rewrite map_size_empty. lia. }
  assert (reasm_inv (put_stream r sid (totalBytes r) st)) as Hp.
  { apply put_stream_inv; auto; [|apply Hr].
    unfold st, getOrCreateStream. destruct (streams r !! sid); cbn; lia. }
  split_and!; auto.
  destruct Hp as [Hs Htp _]. cbn in Htp, Hs. rewrite Htp.
  rewrite <-insert_delete_eq in Hs |- *. rewrite msum_insert by apply lookup_delete_eq.
  apply map_Forall_insert in Hs as [_ Hs]; [|apply lookup_delete_eq].
  apply msum_bytes_nonneg in Hs. lia.
Qed.

Lemma process_put_inv r now sid c tb st' out d st'' :
  reasm_inv r ->
  let st := getOrCreateStream r now sid in
  let r1 := put_stream r sid (totalBytes r) st in
  processChunk r1 (totalBytes r1) st c = Ok (tb, st', out, d) ->
  chunks st'' = chunks st' -> bytes st'' = bytes st' ->
  reasm_inv (put_stream r1 sid tb st'').
Proof.
  intros Hr st r1 H Hc Hb. destruct (getOrCreateStream_inv r now sid Hr) as (Hi & Hw & Hp & Hle).
  apply processChunk_inv in H as (Hi' & Hd & Hw' & Hm); auto; [|apply Hp].
  apply put_stream_inv; auto.
  - unfold stream_inv. by rewrite Hc, Hb.
  - unfold nchunks. by rewrite Hc.
  - rewrite Hb. cbn. rewrite lookup_insert_eq. cbn. exact Hd.
Qed.

Lemma Add_inv r now c : reasm_inv r -> reasm_inv (Add r now c).1.
Proof.
  intros Hr. unfold Add. destruct (bool_decide _); [done|].
  pose proof (getOrCreateStream_inv r now (StreamID c) Hr) as (_ & _ & Hp & _).
  destruct (completed _); [done|].
  destruct (processChunk _ _ _ _) as [[[[tb st'] out] d]|e] eqn:E; [|done].
  eapply (process_put_inv _ _ _ _ _ _ _ _ (set_accumulated st' _)) in E; try done.
  destruct d; [by apply cleanupStream_inv, mark_completed_inv | done].
Qed.

Lemma AddStreaming_inv r now c : reasm_inv r -> reasm_inv (AddStreaming r now c).1.
Proof.
  intros Hr. unfold AddStreaming. destruct (bool_decide _); [done|].
  pose proof (getOrCreateStream_inv r now (StreamID c) Hr) as (_ & _ & Hp & _).
  destruct (completed _); [done|].
  destruct (processChunk _ _ _ _) as [[[[tb st'] out] d]|e] eqn:E; [|done].
  eapply (process_put_inv _ _ _ _ _ _ _ _ st') in E; try done.
  destruct d; [by apply cleanupStream_inv, mark_completed_inv | done].
Qed.

Lemma foldl_cleanup_inv r ids : reasm_inv r -> reasm_inv (foldl cleanupStream r ids).
Proof. revert r. induction ids; intros r Hr; cbn; auto using cleanupStream_inv. Qed.

(** The operations a caller can apply, in any order. *)
Inductive op : Type :=
| OpAdd (now : Z) (c : Chunk)
| OpAddStreaming (now : Z) (c : Chunk)
| OpPurge (sid : Z)
| OpExpire (sid now : Z)
| OpExpireAll (now : Z).

Definition run_op (r : ExitReassembler) (o : op) : ExitReassembler :=
  match o with
  | OpAdd now c => (Add r now c).1
  | OpAddStreaming now c => (AddStreaming r now c).1
  | OpPurge sid => PurgeStream r sid
  | OpExpire sid now => (ExpireStream r sid now).1
  | OpExpireAll now => (ExpireStreams r now).1
  end.

Lemma run_op_inv r o : reasm_inv r -> reasm_inv (run_op r o).
Proof.
  intros Hr. destruct o; cbn;
    auto using Add_inv, AddStreaming_inv, cleanupStream_inv.
  - unfold ExpireStream. repeat case_goal; cbn; auto using cleanupStream_inv.
  - unfold ExpireStreams. case_goal; cbn; auto using foldl_cleanup_inv.
Qed.

Lemma cleanupStream_cfg r sid : cfg (cleanupStream r sid) = cfg r.
Proof. unfold cleanupStream. by case_goal. Qed.

Lemma run_op_cfg r o : cfg (run_op r o) = cfg r.
Proof.
  assert (forall ids r, cfg (foldl cleanupStream r ids) = cfg r) as Hf.
  { induction ids; intros; cbn; [done|]. rewrite IHids. apply cleanupStream_cfg. }
  destruct o; cbn; unfold Add, AddStreaming, PurgeStream, ExpireStream, ExpireStreams;
    repeat case_goal; cbn; rewrite ?Hf, ?cleanupStream_cfg; done.
Qed.

Lemma new_inv c : reasm_inv (NewExitReassembler c).
Proof.
  constructor; cbn; [apply map_Forall_empty | by rewrite msum_empty |].
  intros ?. lia.
Qed.

(** Memory safety of reassembly: after any sequence of additions, purges
    and expirations on a new reassembler, the byte counter it reports is
    exactly the size of all buffered payloads, and the configured byte limit
    and per-stream chunk limit (when positive) are respected. *)
Theorem reassembler_memory_bounded c ops :
  let r := foldl run_op (NewExitReassembler c) ops in
  BufferedBytes r = msum (fun st => msum (fun p => len p) (chunks st)) (streams r) /\
  within (MaxReassemblyBytes c) (BufferedBytes r) /\
  map_Forall (fun _ st => within (MaxReassemblyChunks c) (nchunks st)) (streams r).
Proof.
  intros r.
  assert (reasm_inv r /\ cfg r = c) as [[Hs Ht Hl] Hc].
  { unfold r. generalize (new_inv c), (eq_refl : cfg (NewExitReassembler c) = c).
    generalize (NewExitReassembler c). clear r.
    induction ops as [|o ops IH]; intros r Hr Hc; cbn; [done|].
    apply IH; [by apply run_op_inv | by rewrite run_op_cfg]. }
  rewrite Hc in *. split_and!; [|done|].
  - unfold BufferedBytes. rewrite Ht. clear -Hs.
    induction (streams r) as [|k v m Hk IH] using map_ind; [by rewrite !msum_empty|].
    apply map_Forall_insert in Hs as [[Hv _] Hm]; [|done].
    rewrite !msum_insert, IH by done. by rewrite Hv.
  - eapply map_Forall_impl; [exact Hs|]. naive_solver.
Qed.

(** ** In-order delivery *)

(** The loop of [deliverContiguous] runs to its end: with the number of
    buffered chunks as fuel no chunk is left at the next expected number. *)
Lemma deliver_loop_stops fuel tb st acc tb' st' out :
  fuel = size (chunks st) -> deliver_loop fuel tb st acc = (tb', st', out) ->
  chunks st' !! nextExpected st' = None.
Proof.
  revert tb st acc. induction fuel as [|fuel IH]; intros tb st acc Hf; cbn.
  - intros [= <- <- <-]. symmetry in Hf. apply map_size_empty_inv in Hf. by rewrite Hf.
  - destruct (chunks st !! nextExpected st) as [p|] eqn:E; [|by intros [= <- <- <-]].
    apply IH. cbn. rewrite map_size_delete_Some by eauto. lia.
Qed.

(** Everything the delivery loop does not change. *)
Lemma deliver_loop_frame fuel tb st acc tb' st' out :
  deliver_loop fuel tb st acc = (tb', st', out) ->
  total st' = total st /\ totalSet st' = totalSet st /\ completed st' = completed st /\
  accumulated st' = accumulated st.
Proof.
  revert tb st acc. induction fuel as [|fuel IH]; intros tb st acc; cbn.
  { by intros [= <- <- <-]. }
  destruct (chunks st !! nextExpected st); [|by intros [= <- <- <-]].
  intros H. apply IH in H. exact H.
Qed.

Section Delivery.
(** A stream of [n] payloads, all of whose chunks carry the total [n]. *)
Context (sid : Z) (payloads : list (list byte)).
Abbreviation n := (len payloads).
Context (Hn : 0 < n < 2 ^ 32).

Definition pl (i : Z) : list byte := payloads !!! Z.to_nat i.

Definition mk (i : Z) : Chunk :=
  {| StreamID := sid; Sequence := i; Total := n; Type_ := ChunkData;
     Payload := pl i; PaddingLen := 0 |}.

(** The bytes of the payloads up to index [m]. *)
Definition prefix (m : Z) : list byte := mjoin (take (Z.to_nat m) payloads).

(** [seen] are the indices received, [m] the number delivered: the buffer
    at and beyond [m] holds exactly the received payloads. *)
Record good (seen : gset Z) (m : Z) (st : exitStreamState) : Prop := {
  g_next : nextExpected st = m;
  g_range : 0 <= m < n;
  g_seen : forall i, i ∈ seen -> 0 <= i < n;
  g_below : forall i, 0 <= i < m -> i ∈ seen;
  g_at : m ∉ seen;
  g_buf : forall i, m <= i -> chunks st !! i = if decide (i ∈ seen) then Some (pl i) else None;
  g_open : completed st = false;
  g_total : totalSet st = true -> total st = n
}.

Lemma prefix_step m : 0 <= m < n -> prefix (m + 1) = prefix m ++ pl m.
Proof.
  intros Hm. unfold prefix, pl.
  replace (Z.to_nat (m + 1)) with (S (Z.to_nat m)) by lia.
  destruct (lookup_lt_is_Some_2 payloads (Z.to_nat m)) as [x Hx]; [lia|].
  rewrite (take_S_r _ _ x Hx), join_app, (list_lookup_total_correct _ _ _ Hx). cbn.
  by rewrite app_nil_r.
Qed.

(** Delivery advances to the first index not received. *)
Lemma deliver_loop_good fuel (seen : gset Z) m tb st acc tb' st' out :
  nextExpected st = m -> 0 <= m <= n ->
  (forall i, i ∈ seen -> 0 <= i < n) -> (forall i, 0 <= i < m -> i ∈ seen) ->
  (forall i, m <= i -> chunks st !! i = if decide (i ∈ seen) then Some (pl i) else None) ->
  deliver_loop fuel tb st acc = (tb', st', out) ->
  exists m' d, m <= m' <= n /\ nextExpected st' = m' /\
    (forall i, 0 <= i < m' -> i ∈ seen) /\
    (forall i, m' <= i -> chunks st' !! i = if decide (i ∈ seen) then Some (pl i) else None) /\
    out = acc ++ d /\ prefix m' = prefix m ++ d.
Proof.
  revert m tb st acc. induction fuel as [|fuel IH]; intros m tb st acc Hne Hm Hs Hb Hbuf; cbn.
  { intros [= <- <- <-]. exists m, []. rewrite !app_nil_r. split_and!; auto; lia. }
  rewrite Hne, (Hbuf m) by lia. case_decide as Hin.
  2:{ intros [= <- <- <-]. exists m, []. rewrite !app_nil_r. split_and!; auto; lia. }
  pose proof (Hs m Hin) as Hmn.
  intros H. apply (IH (m + 1)) in H as (m' & d & H1 & H2 & H3 & H4 & -> & H6); auto.
  - exists m', (pl m ++ d). rewrite H6, prefix_step, !app_assoc by lia.
    split_and!; auto; lia.
  - cbn. rewrite Hne. apply u32_small. lia.
  - lia.
  - intros i Hi. destruct (decide (i = m)) as [->|]; [done|]. apply Hb. lia.
  - intros i Hi. cbn. rewrite Hne, lookup_delete_ne by lia. apply Hbuf. lia.
Qed.

(** Room for one more chunk of a given size under the configured limits. *)
Definition room (r : ExitReassembler) (tb k : Z) (st : exitStreamState) : Prop :=
  (0 < MaxReassemblyChunks (cfg r) -> nchunks st < MaxReassemblyChunks (cfg r)) /\
  within (MaxReassemblyBytes (cfg r)) (tb + k).

Lemma checkBounds_room r tb st p : room r tb (len p) st -> checkBounds r tb st p = Ok tt.
Proof.
  intros [H1 H2]. unfold checkBounds, within in *.
  destruct (Z.ltb_spec 0 (MaxReassemblyChunks (cfg r))); cbn [andb];
    [rewrite (proj2 (Z.leb_gt _ _)) by lia|];
    (destruct (Z.ltb_spec 0 (MaxReassemblyBytes (cfg r))); cbn [andb];
     [rewrite (proj2 (Z.ltb_ge _ _)) by lia|]; done).
Qed.

(** Storing a chunk keeps the buffer description for the enlarged set. *)
Lemma store_buf (seen : gset Z) m st j :
  (forall i, m <= i -> chunks st !! i = if decide (i ∈ seen) then Some (pl i) else None) ->
  forall i, m <= i ->
    chunks (store st j (pl j)) !! i =
    if decide (i ∈ {[j]} ∪ seen) then Some (pl i) else None.
Proof.
  intros Hbuf i Hi. cbn. destruct (decide (i = j)) as [->|Hne].
  - rewrite lookup_insert_eq, decide_True by set_solver. done.
  - rewrite lookup_insert_ne, Hbuf by done.
    destruct (decide (i ∈ seen)), (decide (i ∈ {[j]} ∪ seen)); set_solver.
Qed.

(** One data chunk of the stream: the delivered bytes extend the prefix,
    completion is reported exactly when the prefix is the whole stream, and
    the state stays described by the enlarged set of received indices. *)
(** Storing the first copy of a chunk and delivering what has become
    contiguous. *)
Lemma first_copy_good tb st seen m j tb2 st2 out :
  good seen m st -> stream_inv st -> 0 <= j < n -> chunks st !! j = None ->
  let st0 := store st j (pl j) in
  deliverContiguous tb (if (0 <? n) && negb (totalSet st0) then set_total st0 n else st0)
    = (tb2, st2, out) ->
  totalSet st2 = true /\ total st2 = n /\
  exists m', nextExpected st2 = m' /\ prefix m' = prefix m ++ out /\ m' <= n /\
    (m' < n -> good ({[j]} ∪ seen) m' st2) /\
    accumulated st2 = accumulated st /\ nchunks st2 <= nchunks st + 1 /\ tb2 <= tb.
Proof.
  intros [Hne Hr Hs Hb Ha Hbuf Ho Ht] Hi Hj Hnone st0. set (st1 := if _ && _ then _ else _).
  assert (chunks st1 = chunks (store st j (pl j)) /\ nextExpected st1 = m /\
    completed st1 = false /\ totalSet st1 = true /\ total st1 = n /\
    accumulated st1 = accumulated st /\ stream_inv st1 /\ nchunks st1 = nchunks st + 1)
    as (Hc1 & Hn1 & Ho1 & Hts1 & Ht1 & Hac1 & Hi1 & Hnc1).
  { pose proof (stream_inv_store st j (pl j) Hnone Hi) as Hsi.
    pose proof (nchunks_store st j (pl j) Hnone) as Hnc.
    unfold st1, st0. rewrite (proj2 (Z.ltb_lt 0 n)) by lia. cbn [andb].
    destruct (totalSet (store st j (pl j))) eqn:E; cbn [negb]; split_and!; auto. }
  intros Ed. pose proof (deliver_loop_stops _ _ _ _ _ _ _ eq_refl Ed) as Hstop.
  pose proof (deliver_loop_inv _ _ _ _ _ _ _ Hi1 Ed) as (Hi2 & Hd2 & Hnc2 & Hb2).
  pose proof (deliver_loop_frame _ _ _ _ _ _ _ Ed) as (Hf1 & Hf2 & Hf3 & Hf4).
  apply (deliver_loop_good _ ({[j]} ∪ seen) m) in Ed
    as (m' & d & Hm' & Hne2 & Hb' & Hbuf' & -> & Hpre); auto; [|lia| set_solver | set_solver |].
  2:{ intros i Hge. rewrite Hc1. by apply (store_buf seen m). }
  split_and!; [congruence..|]. exists m'. split_and!; auto; try lia; try congruence.
  intros Hlt. constructor; auto; [lia| set_solver | | congruence | congruence].
  intros Hin. rewrite Hne2, Hbuf', decide_True in Hstop by (done || lia). done.
Qed.

Lemma good_repeated st seen m j :
  good seen m st -> 0 <= j < n -> is_Some (chunks st !! j) -> good ({[j]} ∪ seen) m st.
Proof.
  intros [Hne Hr Hs Hb Ha Hbuf Ho Ht] Hj Hex.
  assert (j ∈ seen) as Hin.
  { destruct (decide (j < m)); [apply Hb; lia|].
    rewrite Hbuf in Hex by lia. case_decide; [done|]. by destruct Hex. }
  replace ({[j]} ∪ seen) with seen by set_solver. by constructor.
Qed.

Lemma processChunk_good r tb st seen m j :
  good seen m st -> stream_inv st -> 0 <= j < n -> room r tb (len (pl j)) st ->
  exists tb' st' out m',
    processChunk r tb st (mk j) = Ok (tb', st', out, bool_decide (m' = n)) /\
    prefix m' = prefix m ++ out /\ m' <= n /\
    (m' < n -> good ({[j]} ∪ seen) m' st') /\
    accumulated st' = accumulated st /\
    nchunks st' <= nchunks st + 1 /\ tb' <= tb + len (pl j).
Proof.
  intros Hg Hi Hj Hroom. pose proof Hg as [Hne Hr Hs Hb Ha Hbuf Ho Ht].
  unfold processChunk. rewrite Ho. cbn [Type_ Total Sequence Payload mk].
  change (ChunkData =? ChunkPadding) with false.
  change (ChunkData =? ChunkStreamEnd) with false. cbv iota.
  rewrite (proj2 (Z.leb_gt n j)) by lia. rewrite andb_false_r.
  replace (totalSet st && (total st <=? j)) with false.
  2:{ destruct (totalSet st); [|done]. rewrite Ht by done. symmetry. z_false. }
  case_bool_decide as Hex.
  { (* a duplicate of a buffered chunk *)
    exists tb, st, [], m. rewrite bool_decide_false by lia. rewrite app_nil_r.
    split_and!; auto; try lia. intros _. by apply good_repeated. }
  assert (chunks st !! j = None) as Hnone by (by apply eq_None_not_Some).
  rewrite checkBounds_room by done. cbn [mbind result_bind].
  destruct (deliverContiguous _ _) as [[tb2 st2] out] eqn:Ed.
  destruct (first_copy_good _ _ _ _ _ _ _ _ Hg Hi Hj Hnone Ed)
    as (-> & -> & m' & Hne2 & Hpre & Hle & Hgood & Hac & Hnc & Htb).
  rewrite Hne2. cbn [andb]. destruct (Z.leb_spec n m') as [Hfull|Hfull].
  - exists tb2, (set_completed st2), out, m'. rewrite bool_decide_true by lia.
    split_and!; auto; lia.
  - exists tb2, st2, out, m'. rewrite bool_decide_false by lia. split_and!; auto.
Qed.

(** The sizes of the payloads of a sequence of arrivals. *)
Definition arrived (ixs : list Z) : Z := foldr (fun i a => len (pl i) + a) 0 ixs.

Lemma arrived_nonneg ixs : 0 <= arrived ixs.
Proof. unfold arrived. induction ixs; cbn [foldr]; lia. Qed.

(** The limits leave room for all the arrivals of a list. *)
Definition roomy (r : ExitReassembler) (st : exitStreamState) (ixs : list Z) : Prop :=
  (0 < MaxReassemblyChunks (cfg r) -> nchunks st + len ixs <= MaxReassemblyChunks (cfg r)) /\
  within (MaxReassemblyBytes (cfg r)) (totalBytes r + arrived ixs).

Lemma roomy_room r st i ixs : roomy r st (i :: ixs) -> room r (totalBytes r) (len (pl i)) st.
Proof.
  unfold roomy, room, within. cbn [length arrived foldr]. fold (arrived ixs).
  intros [H1 H2]. pose proof (arrived_nonneg ixs). split; intros; lia.
Qed.

Lemma roomy_step r st i ixs tb' st' :
  roomy r st (i :: ixs) -> nchunks st' <= nchunks st + 1 ->
  tb' <= totalBytes r + len (pl i) -> roomy (put_stream r sid tb' st') st' ixs.
Proof.
  unfold roomy, within. cbn [length arrived foldr cfg put_stream totalBytes]. fold (arrived ixs).
  intros [H1 H2] ? ?. split; intros; lia.
Qed.
End Delivery.

(** Feeding a sequence of chunks, collecting what each call returns. *)
Fixpoint feed (add : ExitReassembler -> Chunk -> ExitReassembler
                     * result reassembly_error (list byte * bool))
    (r : ExitReassembler) (cs : list Chunk)
    : ExitReassembler * list (result reassembly_error (list byte * bool)) :=
  match cs with
  | [] => (r, [])
  | c :: cs =>
      let '(r, o) := add r c in
      let '(r, os) := feed add r cs in (r, o :: os)
  end.

Section Feeding.
Context (sid : Z) (payloads : list (list byte)) (now : Z).
Abbreviation n := (len payloads).
Context (Hn : 0 < n < 2 ^ 32).

(** A stream in progress inside a reassembler. *)
Record running (r : ExitReassembler) (seen : gset Z) (m : Z) (st : exitStreamState) : Prop := {
  run_inv : reasm_inv r;
  run_lookup : streams r !! sid = Some st;
  run_open : sid ∉ completedStreams r;
  run_good : good payloads seen m st
}.

(** What [AddStreaming] does with an arrival of a running stream. *)
Lemma AddStreaming_running r seen m st i ixs :
  running r seen m st -> 0 <= i < n -> roomy payloads r st (i :: ixs) ->
  exists r' out m',
    AddStreaming r now (mk sid payloads i) = (r', Ok (out, bool_decide (m' = n))) /\
    prefix payloads m' = prefix payloads m ++ out /\ m' <= n /\
    (m' < n -> exists st', running r' ({[i]} ∪ seen) m' st' /\ roomy payloads r' st' ixs /\
                 streams r' = <[sid := st']> (streams r) /\
                 completedStreams r' = completedStreams r) /\
    (m' = n -> streams r' = delete sid (streams r) /\
               completedStreams r' = {[sid]} ∪ completedStreams r /\
               totalBytes r' = totalBytes r - bytes st).
Proof.
  intros [Hri Hl Hopen Hg] Hi Hroom.
  pose proof (AddStreaming_inv r now (mk sid payloads i) Hri) as Hri'.
  unfold AddStreaming in *. cbn [StreamID mk] in *.
  rewrite bool_decide_false in * by done.
  unfold getOrCreateStream in *. rewrite Hl in *. cbn [default option_fmap from_option id] in *.
  rewrite (g_open _ _ _ _ Hg) in *.
  pose proof (inv_streams r Hri _ _ Hl) as [Hsi _].
  assert (bytes st <= totalBytes r) as Hle.
  { destruct (getOrCreateStream_inv r now sid Hri) as (_ & _ & _ & Hle).
    unfold getOrCreateStream in Hle. by rewrite Hl in Hle. }
  assert (put_stream r sid (totalBytes r) st = r) as Hput.
  { unfold put_stream. rewrite insert_id by done. by destruct r. }
  rewrite Hput in *.
  destruct (processChunk_good sid payloads Hn r (totalBytes r) st seen m i Hg Hsi Hi
    (roomy_room _ _ _ _ _ Hroom)) as (tb' & st' & out & m' & Hp & Hpre & Hle' & Hgood & _ & Hnc & Htb).
  rewrite Hp in *.
  destruct (processChunk_inv _ _ _ _ _ _ _ _ Hsi Hle
    (proj2 (inv_streams r Hri _ _ Hl)) (inv_limit r Hri) Hp) as (Hsi' & Hd & _).
  destruct (decide (m' = n)) as [Hmn|Hmn].
  - exists (cleanupStream (mark_completed (put_stream r sid tb' st') sid) sid), out, m'.
    rewrite bool_decide_true by done. split_and!; auto; [lia|]. intros _.
    unfold cleanupStream. cbn. rewrite lookup_insert_eq. cbn.
    split_and!; [by rewrite delete_insert_eq | done |].
    pose proof (stream_inv_nonneg st Hsi). rewrite (proj2 (Z.ltb_ge _ _)); lia.
  - exists (put_stream r sid tb' st'), out, m'. rewrite bool_decide_false in * by done.
    split_and!; auto; [|done]. intros Hlt. exists st'. split_and!; auto.
    + constructor; [done | cbn; apply lookup_insert_eq | done | by apply Hgood].
    + eapply roomy_step; eauto.
Qed.

Lemma feed_completed r cs :
  sid ∈ completedStreams r -> Forall (fun c => StreamID c = sid) cs ->
  feed (fun r => AddStreaming r now) r cs = (r, (fun _ => Ok ([], false)) <$> cs).
Proof.
  intros Hc. induction cs as [|c cs IH]; intros Hcs; cbn; [done|].
  apply Forall_cons in Hcs as [Hsid Hcs].
  unfold AddStreaming at 1. rewrite Hsid, bool_decide_true by done.
  by rewrite (IH Hcs).
Qed.

Definition dones (os : list (list byte * bool)) : nat :=
  length (filter (fun o => o.2 = true) os).

Lemma feed_running ixs : forall r seen m st,
  running r seen m st -> roomy payloads r st ixs ->
  (forall i, i ∈ ixs -> 0 <= i < n) ->
  (forall i, 0 <= i < n -> i ∈ seen \/ i ∈ ixs) ->
  exists r' os,
    feed (fun r => AddStreaming r now) r (mk sid payloads <$> ixs) = (r', Ok <$> os) /\
    prefix payloads m ++ mjoin os.*1 = mjoin payloads /\ dones os = 1%nat /\
    streams r' = delete sid (streams r) /\
    completedStreams r' = {[sid]} ∪ completedStreams r.
Proof.
  induction ixs as [|i ixs IH]; intros r seen m st Hrun Hroom Hin Hcov.
  { destruct (Hcov m) as [H|H]; [apply (g_range _ _ _ _ (run_good _ _ _ _ Hrun))| |].
    - by apply (g_at _ _ _ _ (run_good _ _ _ _ Hrun)) in H.
    - by apply not_elem_of_nil in H. }
  rewrite fmap_cons. cbn [feed].
  destruct (AddStreaming_running r seen m st i ixs Hrun) as
    (r1 & out & m' & -> & Hpre & Hle & Hgo & Hdone); [apply Hin; set_solver | done |].
  destruct (decide (m' = n)) as [Heq|Hne].
  - destruct (Hdone Heq) as (Hs & Hc & _). rewrite bool_decide_true by done.
    rewrite feed_completed; [| rewrite Hc; set_solver | by apply Forall_fmap, Forall_true].
    exists r1, ((out, true) :: replicate (length ixs) ([], false)). split_and!; auto.
    + f_equal. rewrite fmap_cons. f_equal.
      clear. induction ixs; [done|]. rewrite !fmap_cons. cbn. by f_equal.
    + rewrite fmap_cons. cbn [mjoin list_join].
      replace (mjoin (replicate (length ixs) ([], false)).*1) with (@nil byte)
        by (clear; induction ixs; [done|]; cbn; done).
      cbn [fst]. rewrite app_nil_r, <-Hpre, Heq. unfold prefix.
      rewrite take_ge by lia. done.
    + unfold dones. rewrite filter_cons_True by done. cbn [length]. f_equal.
      clear. induction ixs; [done|]. cbn [length replicate].
      by rewrite filter_cons_False by done.
  - destruct Hgo as (st' & Hrun' & Hroom' & Hstr & Hcomp); [lia|].
    destruct (IH r1 _ _ _ Hrun' Hroom') as (r' & os & Hf & Hj & Hd & Hs & Hc).
    { intros k Hk. apply Hin. set_solver. }
    { intros k Hk. destruct (Hcov k Hk) as [?|?]; [left; set_solver|].
      destruct (decide (k = i)) as [->|]; [left; set_solver | right; set_solver]. }
    rewrite Hf. rewrite bool_decide_false by done.
    exists r', ((out, false) :: os). split_and!.
    + done.
    + rewrite fmap_cons. cbn [mjoin list_join fst]. by rewrite app_assoc, <-Hpre.
    + unfold dones. by rewrite filter_cons_False by done.
    + by rewrite Hs, Hstr, delete_insert_eq.
    + by rewrite Hc, Hcomp.
Qed.
End Feeding.

(** Reassembly looks at a chunk's stream, sequence, total, type and payload
    only; the padding length plays no part. *)
Definition same_core (c c' : Chunk) : Prop :=
  StreamID c = StreamID c' /\ Sequence c = Sequence c' /\ Total c = Total c' /\
  Type_ c = Type_ c' /\ Payload c = Payload c'.

Lemma AddStreaming_core r now c c' : same_core c c' -> AddStreaming r now c = AddStreaming r now c'.
Proof.
  intros (H1 & H2 & H3 & H4 & H5). unfold AddStreaming, processChunk.
  rewrite H1, H2, H3, H4, H5. done.
Qed.

Lemma feed_core r now cs cs' :
  Forall2 same_core cs cs' ->
  feed (fun r => AddStreaming r now) r cs = feed (fun r => AddStreaming r now) r cs'.
Proof.
  intros H. revert r. induction H as [|c c' cs cs' Hc _ IH]; intros r; cbn [feed]; [done|].
  rewrite (AddStreaming_core r now c c' Hc). destruct (AddStreaming r now c') as [r1 o].
  by rewrite IH.
Qed.

(** The first arrival creates the stream state. *)
Lemma AddStreaming_fresh r now c :
  streams r !! StreamID c = None -> StreamID c ∉ completedStreams r ->
  AddStreaming r now c =
  AddStreaming (put_stream r (StreamID c) (totalBytes r) (new_stream now)) now c.
Proof.
  intros Hl Hc. unfold AddStreaming, getOrCreateStream. cbn [completedStreams put_stream streams].
  rewrite !bool_decide_false, Hl, lookup_insert_eq by done.
  cbn [default from_option id totalBytes cfg]. unfold put_stream.
  cbn [cfg streams completedStreams totalBytes]. by rewrite !insert_insert_eq.
Qed.

Lemma feed_any_order sid payloads now r arrivals :
  0 < len payloads < 2 ^ 32 -> reasm_inv r ->
  streams r !! sid = None -> sid ∉ completedStreams r ->
  (forall i, i ∈ arrivals <-> 0 <= i < len payloads) ->
  within (MaxReassemblyChunks (cfg r)) (len arrivals) ->
  within (MaxReassemblyBytes (cfg r)) (totalBytes r + arrived payloads arrivals) ->
  exists r' os,
    feed (fun r => AddStreaming r now) r (mk sid payloads <$> arrivals) = (r', Ok <$> os) /\
    mjoin os.*1 = mjoin payloads /\ dones os = 1%nat /\
    streams r' = streams r /\ completedStreams r' = {[sid]} ∪ completedStreams r.
Proof.
  intros Hn Hr Hl Hc Hall Hlc Hlb.
  set (r1 := put_stream r sid (totalBytes r) (new_stream now)).
  assert (feed (fun r => AddStreaming r now) r (mk sid payloads <$> arrivals) =
          feed (fun r => AddStreaming r now) r1 (mk sid payloads <$> arrivals)) as ->.
  { destruct arrivals as [|i arrivals].
    { exfalso. apply (not_elem_of_nil 0). apply Hall. lia. }
    rewrite fmap_cons. cbn [feed]. by rewrite (AddStreaming_fresh r now (mk sid payloads i)). }
  destruct (getOrCreateStream_inv r now sid Hr) as (Hsi & Hw & Hp & _).
  unfold getOrCreateStream in *. rewrite Hl in *. cbn [default from_option id] in *.
  destruct (feed_running sid payloads now Hn arrivals r1 ∅ 0 (new_stream now))
    as (r' & os & Hf & Hj & Hd & Hs & Hcs).
  - constructor; [done | cbn; apply lookup_insert_eq | done |].
    constructor; cbn; try done; try lia; try set_solver.
  - unfold roomy, within, nchunks in *. cbn [chunks new_stream cfg r1 put_stream totalBytes].
    rewrite map_size_empty. split; intros; lia.
  - apply Hall.
  - intros i Hi. right. by apply Hall.
  - exists r', os. rewrite Hf, Hs, Hcs. cbn [streams r1 put_stream completedStreams].
    rewrite delete_insert_id by done. split_and!; auto.
Qed.

(** C4. Streaming reassembly is correct for every arrival order: a stream of
    payloads whose chunks carry their total is delivered completely, in
    order and exactly once, whatever the order of arrival, however often
    chunks are repeated and whatever padding they carry, as long as the
    limits leave room. Each call succeeds, the bytes returned over all calls
    concatenate to the payloads in sequence order, completion is reported by
    exactly one call, and no state of the stream remains. *)
Theorem AddStreaming_any_order sid payloads now r arrivals cs :
  0 < len payloads < 2 ^ 32 -> reasm_inv r ->
  streams r !! sid = None -> sid ∉ completedStreams r ->
  (forall i, i ∈ arrivals <-> 0 <= i < len payloads) ->
  within (MaxReassemblyChunks (cfg r)) (len arrivals) ->
  within (MaxReassemblyBytes (cfg r)) (totalBytes r + arrived payloads arrivals) ->
  Forall2 same_core cs (mk sid payloads <$> arrivals) ->
  exists r' os,
    feed (fun r => AddStreaming r now) r cs = (r', Ok <$> os) /\
    mjoin os.*1 = mjoin payloads /\ dones os = 1%nat /\
    streams r' = streams r /\ completedStreams r' = {[sid]} ∪ completedStreams r.
Proof. intros Hn Hr Hl Hc Hall Hlc Hlb Hcs. rewrite (feed_core _ _ _ _ Hcs). by apply feed_any_order. Qed.

Lemma AddStreaming_any_order_witness :
  exists r' os,
    feed (fun r => AddStreaming r 5) (NewExitReassembler DefaultChunkerConfig)
      (mk 9 [[x01; x02]; [x03]; [x04]] <$> [2; 0; 0; 2; 1]) = (r', Ok <$> os) /\
    mjoin os.*1 = [x01; x02; x03; x04] /\ dones os = 1%nat.
Proof.
  destruct (AddStreaming_any_order 9 [[x01; x02]; [x03]; [x04]] 5
    (NewExitReassembler DefaultChunkerConfig) [2; 0; 0; 2; 1]
    (mk 9 [[x01; x02]; [x03]; [x04]] <$> [2; 0; 0; 2; 1])) as (r' & os & H1 & H2 & H3 & _).
  - cbn. lia.
  - apply new_inv.
  - reflexivity.
  - cbn. set_solver.
  - intros i. rewrite !elem_of_cons, elem_of_nil. cbn [length Z.of_nat]. lia.
  - intros _. vm_compute. discriminate.
  - intros _. vm_compute. discriminate.
  - repeat constructor.
  - exists r', os. auto.
Defined.

(** A repeated chunk that was already delivered is buffered again, since the
    duplicate test looks only at the buffer: an end marker then flushes it a
    second time. Stream 1 sends chunk 0, chunk 0 again and an empty end
    marker, and its two bytes are delivered twice. *)
Theorem duplicate_after_delivery_flushed_again :
  let data := {| StreamID := 1; Sequence := 0; Total := 0; Type_ := ChunkData;
                 Payload := [x61; x62]; PaddingLen := 0 |} in
  let fin := {| StreamID := 1; Sequence := 1; Total := 0; Type_ := ChunkStreamEnd;
                Payload := []; PaddingLen := 0 |} in
  (feed (fun r => AddStreaming r 0) (NewExitReassembler DefaultChunkerConfig) [data; data; fin]).2
  = [Ok ([x61; x62], false); Ok ([], false); Ok ([x61; x62], true)].
Proof. vm_compute. reflexivity. Qed.

End Exit.
