(* ===== verification/Chunker.v ===== *)
(** * Entry-side chunkers (internal/proxy/chunker_fixed16k.go, chunker_bounded.go)

    The uniform and the bounded-Pareto chunkers, instances of the chunker
    interface of ProxyTypes, and the round trip through the reassembler for
    any chunker that satisfies it. A padding source is the stream of bytes it
    will produce; the Pareto sample (floating point) is a parameter, and only
    the clamping the code does around it is relied on. *)
From stdpp Require Import prelude gmap list.
From Stdlib Require Import Strings.Byte ZArith Lia.
From S2P Require Import Prelude GoBytes ProxyTypes Reassembler.
Local Open Scope Z_scope.

Module Chunkers.

(** Eight bytes of the source as a 64-bit integer, and the rest of it; [None]
    when the source fails, which leaves it exhausted. *)
Definition read_u64 (src : list byte) : option Z * list byte :=
  match read_full src 8 with
  | Ok (b, rest) => (Some (be_Z b), rest)
  | Err _ => (None, [])
  end.

Definition randomPaddingLen (src : list byte) (min max : Z) : Z * list byte :=
  let min := if min <? 0 then 0 else min in
  if max <? min then (0, src) else
  if max =? 0 then (0, src) else
  let rangeSize := max - min + 1 in
  match read_u64 src with
  | (None, src) => (min, src)
  | (Some n, src) => (min + n mod rangeSize, src)
  end.

(** ** fixed-16k *)
Record fixedChunker : Type := {
  f_cfg : ChunkerConfig; f_streamID : Z; f_nextSeq : Z; f_total : Z; f_totalSet : bool;
  f_padSource : list byte }.

Definition newFixedChunker (cfg : ChunkerConfig) (src : list byte) : fixedChunker :=
  let maxSize := if MaxChunkSize cfg <=? 0 then 16 * 1024 else MaxChunkSize cfg in
  let minSize := if MinChunkSize cfg <=? 0 then maxSize else MinChunkSize cfg in
  {| f_cfg := {| MaxChunkSize := maxSize; MinChunkSize := minSize;
                 PaddingMin := PaddingMin cfg; PaddingMax := PaddingMax cfg;
                 DisablePadding := DisablePadding cfg; DebugFixedSizes := DebugFixedSizes cfg;
                 PaddingSeed := PaddingSeed cfg;
                 MaxReassemblyChunks := MaxReassemblyChunks cfg;
                 MaxReassemblyBytes := MaxReassemblyBytes cfg;
                 StreamReassemblyTimeout := StreamReassemblyTimeout cfg |};
     f_streamID := 0; f_nextSeq := 0; f_total := 0; f_totalSet := false; f_padSource := src |}.

(** The padding length of one chunk and the source after it. *)
Definition chunk_padding (cfg : ChunkerConfig) (src : list byte) : Z * list byte :=
  if negb (DisablePadding cfg) && (0 <? PaddingMax cfg) then
    let '(p, src) := randomPaddingLen src (PaddingMin cfg) (PaddingMax cfg) in
    (if 0 <? p then u16 p else 0, src)
  else (0, src).

(** The loop of [Split] over the data not yet split; every round takes at
    least one byte of it, so its length bounds the rounds. *)
Fixpoint fixed_loop (fuel : nat) (c : fixedChunker) (computedTotal : Z) (rest : list byte)
    : list Chunk * fixedChunker :=
  match fuel, rest with
  | S fuel, _ :: _ =>
      let size := Z.min (MaxChunkSize (f_cfg c)) (len rest) in
      let '(pad, src) := chunk_padding (f_cfg c) (f_padSource c) in
      let chunk :=
        {| StreamID := f_streamID c; Sequence := f_nextSeq c;
           Total := if f_totalSet c then f_total c else computedTotal;
           Type_ := ChunkData; Payload := take (Z.to_nat size) rest; PaddingLen := pad |} in
      let c := {| f_cfg := f_cfg c; f_streamID := f_streamID c;
                  f_nextSeq := u32 (f_nextSeq c + 1); f_total := f_total c;
                  f_totalSet := f_totalSet c; f_padSource := src |} in
      let '(chunks, c) := fixed_loop fuel c computedTotal (drop (Z.to_nat size) rest) in
      (chunk :: chunks, c)
  | _, _ => ([], c)
  end.

Definition fixed_Split (c : fixedChunker) (data : list byte) : list Chunk * fixedChunker :=
  match data with
  | [] => ([], c)
  | _ => let maxSize := MaxChunkSize (f_cfg c) in
         fixed_loop (length data) c (u32 ((len data + maxSize - 1) / maxSize)) data
  end.

Definition fixed_SetStreamID (c : fixedChunker) (id : Z) : fixedChunker :=
  {| f_cfg := f_cfg c; f_streamID := id; f_nextSeq := 0; f_total := f_total c;
     f_totalSet := f_totalSet c; f_padSource := f_padSource c |}.

Definition fixed_SetTotal (c : fixedChunker) (t : Z) : fixedChunker :=
  {| f_cfg := f_cfg c; f_streamID := f_streamID c; f_nextSeq := f_nextSeq c; f_total := t;
     f_totalSet := true; f_padSource := f_padSource c |}.

(** ** bounded-4k-64k *)
Record boundedChunker : Type := {
  b_cfg : ChunkerConfig; b_streamID : Z; b_nextSeq : Z; b_total : Z; b_totalSet : bool;
  b_minSize : Z; b_maxSize : Z; b_padSource : list byte }.

Definition newBoundedChunker (cfg : ChunkerConfig) (src : list byte) : boundedChunker :=
  let minSize := if MinChunkSize cfg <=? 0 then 4 * 1024 else MinChunkSize cfg in
  let maxSize := if MaxChunkSize cfg <=? 0 then 64 * 1024 else MaxChunkSize cfg in
  let maxSize := if maxSize <? minSize then minSize else maxSize in
  {| b_cfg := cfg; b_streamID := 0; b_nextSeq := 0; b_total := 0; b_totalSet := false;
     b_minSize := minSize; b_maxSize := maxSize; b_padSource := src |}.

Section Bounded.
(** The rounded Pareto variate for a 64-bit sample and a minimum size. *)
Context (pareto : Z -> Z -> Z).

Definition sampleParetoSize (c : boundedChunker) : Z * list byte :=
  match read_u64 (b_padSource c) with
  | (None, src) => (b_minSize c, src)
  | (Some n, src) =>
      let result := pareto n (b_minSize c) in
      let result := if result <? b_minSize c then b_minSize c else result in
      (if b_maxSize c <? result then b_maxSize c else result, src)
  end.

Fixpoint bounded_loop (fuel : nat) (c : boundedChunker) (rest : list byte)
    : list Chunk * boundedChunker :=
  match fuel, rest with
  | S fuel, _ :: _ =>
      let '(size, src) :=
        if DebugFixedSizes (b_cfg c) then (b_maxSize c, b_padSource c)
        else sampleParetoSize c in
      let size := if len rest <? size then len rest else size in
      let size := if size <? 1 then 1 else size in
      let '(pad, src) := chunk_padding (b_cfg c) src in
      let chunk :=
        {| StreamID := b_streamID c; Sequence := b_nextSeq c;
           Total := if b_totalSet c then b_total c else 0;
           Type_ := ChunkData; Payload := take (Z.to_nat size) rest; PaddingLen := pad |} in
      let c := {| b_cfg := b_cfg c; b_streamID := b_streamID c;
                  b_nextSeq := u32 (b_nextSeq c + 1); b_total := b_total c;
                  b_totalSet := b_totalSet c; b_minSize := b_minSize c;
                  b_maxSize := b_maxSize c; b_padSource := src |} in
      let '(chunks, c) := bounded_loop fuel c (drop (Z.to_nat size) rest) in
      (chunk :: chunks, c)
  | _, _ => ([], c)
  end.

Definition set_total (t : Z) (c : Chunk) : Chunk :=
  {| StreamID := StreamID c; Sequence := Sequence c; Total := t; Type_ := Type_ c;
     Payload := Payload c; PaddingLen := PaddingLen c |}.

Definition bounded_Split (c : boundedChunker) (data : list byte)
    : list Chunk * boundedChunker :=
  match data with
  | [] => ([], c)
  | _ =>
      let '(chunks, c') := bounded_loop (length data) c data in
      if negb (b_totalSet c) && (0 <? len chunks) then
        (set_total (u32 (len chunks)) <$> chunks, c')
      else (chunks, c')
  end.
End Bounded.

Definition bounded_SetStreamID (c : boundedChunker) (id : Z) : boundedChunker :=
  {| b_cfg := b_cfg c; b_streamID := id; b_nextSeq := 0; b_total := b_total c;
     b_totalSet := b_totalSet c; b_minSize := b_minSize c; b_maxSize := b_maxSize c;
     b_padSource := b_padSource c |}.

Definition bounded_SetTotal (c : boundedChunker) (t : Z) : boundedChunker :=
  {| b_cfg := b_cfg c; b_streamID := b_streamID c; b_nextSeq := b_nextSeq c; b_total := t;
     b_totalSet := true; b_minSize := b_minSize c; b_maxSize := b_maxSize c;
     b_padSource := b_padSource c |}.

(** ** What a split produces

    [split_ok sid seq tot cs data]: the chunks carry [data] in order as data
    chunks of stream [sid], numbered from [seq], with total [tot], none of
    them empty. *)
Record split_ok (sid seq tot : Z) (cs : list Chunk) (data : list byte) : Prop := {
  so_payload : mjoin (Payload <$> cs) = data;
  so_seq : forall i c, cs !! i = Some c -> Sequence c = u32 (seq + Z.of_nat i);
  so_each : forall c, c ∈ cs ->
    StreamID c = sid /\ Type_ c = ChunkData /\ Total c = tot /\ Payload c <> []
}.

Lemma split_ok_nil sid seq tot : split_ok sid seq tot [] [].
Proof. constructor; [done | intros i c H; done | intros c H; by apply not_elem_of_nil in H]. Qed.

Lemma split_ok_cons sid seq tot c cs data n :
  0 <= seq < 2 ^ 32 -> (0 < n)%nat -> data <> [] ->
  StreamID c = sid -> Sequence c = seq -> Total c = tot -> Type_ c = ChunkData ->
  Payload c = take n data ->
  split_ok sid (u32 (seq + 1)) tot cs (drop n data) ->
  split_ok sid seq tot (c :: cs) data.
Proof.
  intros Hs Hn Hd H1 H2 H3 H4 H5 [Hp Hq He]. constructor.
  - rewrite fmap_cons. change (Payload c ++ mjoin (Payload <$> cs) = data). by rewrite Hp, H5, take_drop.
  - intros [|i] c' Hi; cbn in Hi.
    + injection Hi as <-. rewrite H2, Z.add_0_r. symmetry. by apply u32_small.
    + rewrite (Hq i c' Hi). unfold u32. rewrite Zplus_mod_idemp_l. f_equal. lia.
  - intros c' [->|Hin]%elem_of_cons; [|by apply He].
    split_and!; auto. rewrite H5. destruct data, n; done || lia.
Qed.

Lemma split_ok_total sid seq tot tot' cs data :
  split_ok sid seq tot cs data -> split_ok sid seq tot' (set_total tot' <$> cs) data.
Proof.
  intros [Hp Hq He]. constructor.
  - rewrite <-list_fmap_compose. done.
  - intros i c Hi. rewrite list_lookup_fmap in Hi.
    destruct (cs !! i) as [c'|] eqn:E; [|done]. injection Hi as <-. cbn. by apply Hq.
  - intros c (c' & -> & Hin)%list_elem_of_fmap. cbn. destruct (He c' Hin) as (? & ? & ? & ?). auto.
Qed.

Definition fixed_inv (c : fixedChunker) : Prop :=
  0 < MaxChunkSize (f_cfg c) /\ 0 <= f_nextSeq c < 2 ^ 32.

Lemma ceil_div_step m n : 0 < m -> 0 < n ->
  (n + m - 1) / m = 1 + (n - Z.min m n + m - 1) / m.
Proof.
  intros Hm Hn. destruct (Z.min_spec m n) as [[Hlt ->]|[Hle ->]].
  - replace (n + m - 1) with (n - m + m - 1 + 1 * m) by lia. rewrite Z.div_add; lia.
  - rewrite Z.sub_diag, (Z.div_small (0 + m - 1)) by lia.
    symmetry. apply Z.div_unique with (n - 1); lia.
Qed.

Lemma fixed_loop_ok fuel : forall c ct rest cs c',
  fixed_inv c -> (length rest <= fuel)%nat -> fixed_loop fuel c ct rest = (cs, c') ->
  split_ok (f_streamID c) (f_nextSeq c) (if f_totalSet c then f_total c else ct) cs rest /\
  fixed_inv c' /\ f_nextSeq c' = u32 (f_nextSeq c + len cs) /\
  f_streamID c' = f_streamID c /\ f_totalSet c' = f_totalSet c /\ f_total c' = f_total c /\
  f_cfg c' = f_cfg c /\
  len cs = (len rest + MaxChunkSize (f_cfg c) - 1) / MaxChunkSize (f_cfg c).
Proof.
  induction fuel as [|fuel IH]; intros c ct rest cs c' [Hm Hs] Hf Hl;
    (destruct rest as [|b rest]; [|try (cbn in Hf; lia)]).
  1,2: cbn in Hl; injection Hl as <- <-; cbn [length Z.of_nat];
    rewrite Z.add_0_r, u32_small, Z.div_small by lia; auto 10 using split_ok_nil; split_and!;
    auto using split_ok_nil; split; done.
  cbn [fixed_loop] in Hl.
  destruct (chunk_padding (f_cfg c) (f_padSource c)) as [pad src] eqn:Epad.
  set (size := Z.min _ _) in *. assert (0 < size <= len (b :: rest)) as Hsz by (cbn [length] in *; lia).
  case_hyp Hl. injection Hl as <- <-.
  eapply IH in Heqp as (Hok & Hinv & Hn & Hi & Ht & Htt & Hc & Hlen); cbn in *;
    [| split; [done | apply u32_range] | rewrite length_drop; cbn in *; lia].
  split_and!; auto.
  - eapply (split_ok_cons _ _ _ _ _ _ (Z.to_nat size)); eauto; lia || done.
  - rewrite Hn. unfold u32. rewrite Zplus_mod_idemp_l. f_equal. lia.
  - rewrite length_drop in Hlen. rewrite (ceil_div_step _ (Z.of_nat (S (length rest)))) by lia.
    unfold size in *. cbn [length] in *.
    replace (Z.of_nat (S (length rest) - _)) with (Z.of_nat (S (length rest)) - Z.min (MaxChunkSize (f_cfg c)) (Z.of_nat (S (length rest)))) in Hlen by lia.
    lia.
Qed.

Lemma fixed_Split_ok c data :
  fixed_inv c ->
  let r := fixed_Split c data in
  split_ok (f_streamID c) (f_nextSeq c)
    (if f_totalSet c then f_total c else u32 (len r.1)) r.1 data /\
  fixed_inv r.2 /\ f_nextSeq r.2 = u32 (f_nextSeq c + len r.1) /\
  f_streamID r.2 = f_streamID c.
Proof.
  intros Hi r. subst r. unfold fixed_Split. destruct data as [|b data].
  { cbn [fst snd length Z.of_nat]. pose proof (proj2 Hi).
    rewrite Nat2Z.inj_0, (Z.add_0_r (f_nextSeq c)), (u32_small (f_nextSeq c)) by done.
    split_and!; try done; apply split_ok_nil. }
  destruct (fixed_loop _ _ _ _) as [cs c'] eqn:E.
  apply fixed_loop_ok in E as (Hok & Hinv & Hn & Hid & _ & _ & _ & Hlen); [|done..].
  cbn [fst snd]. split_and!; auto. by rewrite Hlen.
Qed.

#[export] Instance fixed_spec :
  ChunkerSpec fixedChunker fixed_Split f_nextSeq f_streamID fixed_inv.
Proof.
  constructor; intros s data; intros; destruct (fixed_Split_ok s data) as ([? ? He] & ? & ? & ?);
    try done; auto.
  destruct (He c) as (? & ? & _); auto.
Qed.

#[export] Instance fixed_total :
  ChunkerTotal fixedChunker fixed_Split fixed_inv (fun c => f_totalSet c = false).
Proof.
  constructor. intros s data c Hi Hu Hc. destruct (fixed_Split_ok s data Hi) as ([_ _ He] & _).
  destruct (He c Hc) as (_ & _ & -> & _). by rewrite Hu.
Qed.

Definition bounded_inv (c : boundedChunker) : Prop :=
  1 <= b_minSize c <= b_maxSize c /\ 0 <= b_nextSeq c < 2 ^ 32.

(** The settings of a bounded chunker that a split leaves alone. *)
Definition same_settings (c c' : boundedChunker) : Prop :=
  b_cfg c' = b_cfg c /\ b_streamID c' = b_streamID c /\ b_totalSet c' = b_totalSet c /\
  b_total c' = b_total c /\ b_minSize c' = b_minSize c /\ b_maxSize c' = b_maxSize c.

Lemma sampleParetoSize_range pareto c :
  bounded_inv c -> b_minSize c <= (sampleParetoSize pareto c).1 <= b_maxSize c.
Proof.
  intros [H _]. unfold sampleParetoSize. destruct (read_u64 _) as [[n|] src]; cbn [fst]; [|lia].
  destruct (pareto n _ <? _) eqn:E1; case_goal; to_prop; lia.
Qed.

Lemma bounded_loop_ok pareto fuel : forall c rest cs c',
  bounded_inv c -> (length rest <= fuel)%nat -> bounded_loop pareto fuel c rest = (cs, c') ->
  split_ok (b_streamID c) (b_nextSeq c) (if b_totalSet c then b_total c else 0) cs rest /\
  bounded_inv c' /\ b_nextSeq c' = u32 (b_nextSeq c + len cs) /\ same_settings c c' /\
  Forall (fun ck => len (Payload ck) <= b_maxSize c) cs.
Proof.
  induction fuel as [|fuel IH]; intros c rest cs c' Hi Hf Hl;
    (destruct rest as [|b rest]; [|try (cbn in Hf; lia)]).
  1,2: cbn in Hl; injection Hl as <- <-; cbn [length Z.of_nat]; pose proof (proj2 Hi);
    rewrite Z.add_0_r, u32_small by lia; split_and!; auto using split_ok_nil; done.
  cbn [bounded_loop] in Hl.
  destruct (if DebugFixedSizes (b_cfg c) then _ else _) as [size0 src0] eqn:Es.
  assert (1 <= size0 <= b_maxSize c) as Hs0.
  { pose proof (sampleParetoSize_range pareto c Hi) as Hr. destruct Hi.
    destruct (DebugFixedSizes _); [injection Es as <- <- | rewrite Es in Hr; cbn in Hr]; lia. }
  destruct (chunk_padding (b_cfg c) src0) as [pad src].
  set (size := if (if len (b :: rest) <? size0 then _ else _) <? 1 then 1 else _) in *.
  assert (0 < size <= len (b :: rest) /\ size <= b_maxSize c) as [Hsz Hmx].
  { unfold size. cbn [length] in *. repeat case_goal; to_prop; lia. }
  case_hyp Hl. injection Hl as <- <-. destruct Hi as [Hb Hq].
  eapply IH in Heqp as (Hok & Hinv & Hn & (? & ? & ? & ? & ? & ?) & Hmax); cbn in *;
    [| split; [done | apply u32_range] | rewrite length_drop; cbn in *; lia].
  split_and!; auto.
  - eapply (split_ok_cons _ _ _ _ _ _ (Z.to_nat size)); eauto; lia || done.
  - rewrite Hn. unfold u32. rewrite Zplus_mod_idemp_l. f_equal. lia.
  - by repeat split.
  - constructor; [|done]. cbn. rewrite length_take. lia.
Qed.

Lemma bounded_Split_ok pareto c data :
  bounded_inv c ->
  let r := bounded_Split pareto c data in
  split_ok (b_streamID c) (b_nextSeq c)
    (if b_totalSet c then b_total c else u32 (len r.1)) r.1 data /\
  bounded_inv r.2 /\ b_nextSeq r.2 = u32 (b_nextSeq c + len r.1) /\ same_settings c r.2 /\
  Forall (fun ck => len (Payload ck) <= b_maxSize c) r.1.
Proof.
  intros Hi r. subst r. unfold bounded_Split. destruct data as [|b data].
  { cbn [fst snd length Z.of_nat]. pose proof (proj2 Hi).
    rewrite Nat2Z.inj_0, (Z.add_0_r (b_nextSeq c)), (u32_small (b_nextSeq c)) by done.
    split_and!; try done; apply split_ok_nil. }
  destruct (bounded_loop _ _ _ _) as [cs c'] eqn:E.
  apply bounded_loop_ok in E as (Hok & Hinv & Hn & Hset & Hmax); [|done..].
  destruct (b_totalSet c); [done|]. cbn [negb andb].
  destruct (0 <? len cs) eqn:El; cbn [fst snd].
  - rewrite length_fmap. split_and!; auto.
    + by apply split_ok_total with 0.
    + by apply Forall_fmap.
  - to_prop. destruct cs; [done | cbn in El; lia].
Qed.

#[export] Instance bounded_spec pareto :
  ChunkerSpec boundedChunker (bounded_Split pareto) b_nextSeq b_streamID bounded_inv.
Proof.
  constructor; intros s data; intros;
    destruct (bounded_Split_ok pareto s data) as ([? ? He] & ? & ? & Hset & _); try done; auto.
  - destruct (He c) as (? & ? & _); auto.
  - apply Hset.
Qed.

#[export] Instance bounded_total pareto :
  ChunkerTotal boundedChunker (bounded_Split pareto) bounded_inv (fun c => b_totalSet c = false).
Proof.
  constructor. intros s data c Hi Hu Hc.
  destruct (bounded_Split_ok pareto s data Hi) as ([_ _ He] & _).
  destruct (He c Hc) as (_ & _ & -> & _). by rewrite Hu.
Qed.

Lemma chunk_padding_range cfg src : 0 <= (chunk_padding cfg src).1 < 2 ^ 16.
Proof.
  unfold chunk_padding. destruct (_ && _); cbn; [|lia]. destruct (randomPaddingLen _ _ _) as [p src']. cbn.
  destruct (0 <? p); [apply Z.mod_pos_bound; lia | lia].
Qed.

Lemma fixed_loop_padding fuel : forall c ct rest cs c' k,
  fixed_loop fuel c ct rest = (cs, c') -> k ∈ cs -> 0 <= PaddingLen k < 2 ^ 16.
Proof.
  induction fuel as [|fuel IH]; intros c ct [|b rest] cs c' k; cbn [fixed_loop];
    try (intros [= <- <-] Hk; by apply not_elem_of_nil in Hk).
  pose proof (chunk_padding_range (f_cfg c) (f_padSource c)) as Hr.
  destruct (chunk_padding _ _) as [pad src]. destruct (fixed_loop fuel _ _ _) as [cs0 c0] eqn:E.
  intros [= <- <-] [->|Hk]%elem_of_cons; [done | by eapply IH].
Qed.

Lemma bounded_loop_padding pareto fuel : forall c rest cs c' k,
  bounded_loop pareto fuel c rest = (cs, c') -> k ∈ cs -> 0 <= PaddingLen k < 2 ^ 16.
Proof.
  induction fuel as [|fuel IH]; intros c [|b rest] cs c' k; cbn [bounded_loop];
    try (intros [= <- <-] Hk; by apply not_elem_of_nil in Hk).
  destruct (if DebugFixedSizes (b_cfg c) then _ else _) as [size0 src0].
  pose proof (chunk_padding_range (b_cfg c) src0) as Hr.
  destruct (chunk_padding _ _) as [pad src]. destruct (bounded_loop pareto fuel _ _) as [cs0 c0] eqn:E.
  intros [= <- <-] [->|Hk]%elem_of_cons; [done | by eapply IH].
Qed.

#[export] Instance fixed_padding : ChunkerPadding fixedChunker fixed_Split.
Proof.
  constructor. intros s data k. unfold fixed_Split. destruct data as [|b data].
  { intros Hk. by apply not_elem_of_nil in Hk. }
  destruct (fixed_loop _ _ _ _) as [cs c'] eqn:E. by apply (fixed_loop_padding _ _ _ _ _ _ _ E).
Qed.

#[export] Instance bounded_padding pareto : ChunkerPadding boundedChunker (bounded_Split pareto).
Proof.
  constructor. intros s data k. unfold bounded_Split. destruct data as [|b data].
  { intros Hk. by apply not_elem_of_nil in Hk. }
  destruct (bounded_loop _ _ _ _) as [cs c'] eqn:E.
  destruct (_ && _); cbn [fst].
  - intros (k' & -> & Hk)%list_elem_of_fmap. exact (bounded_loop_padding _ _ _ _ _ _ _ E Hk).
  - by apply (bounded_loop_padding _ _ _ _ _ _ _ E).
Qed.

Lemma newFixedChunker_inv cfg src : fixed_inv (newFixedChunker cfg src).
Proof. unfold fixed_inv, newFixedChunker. cbn. destruct (_ <=? 0) eqn:E; to_prop; lia. Qed.

Lemma newBoundedChunker_inv cfg src : bounded_inv (newBoundedChunker cfg src).
Proof. unfold bounded_inv, newBoundedChunker. cbn. repeat case_goal; to_prop; lia. Qed.

(** ** Through the reassembler *)
Section Roundtrip.
Context {S : Type} {split : S -> list byte -> list Chunk * S} {next_seq stream_id : S -> Z}
  {inv unset : S -> Prop} `{!ChunkerSpec S split next_seq stream_id inv}
  `{!ChunkerTotal S split inv unset}.

(** The chunks at the positions of [ixs], in that order. *)
Definition pick (cs : list Chunk) (ixs : list Z) : list Chunk :=
  omap (fun i : Z => cs !! Z.to_nat i) ixs.

Lemma pick_core s data ixs :
  inv s -> unset s -> next_seq s = 0 -> len (split s data).1 < 2 ^ 32 ->
  (forall i, i ∈ ixs -> 0 <= i < len (split s data).1) ->
  Forall2 Exit.same_core (pick (split s data).1 ixs)
    (Exit.mk (stream_id s) (Payload <$> (split s data).1) <$> ixs).
Proof.
  intros Hi Hu Hq Hlt. set (cs := (split s data).1) in *.
  induction ixs as [|i ixs IH]; intros Hin; [constructor|].
  assert (0 <= i < len cs) as Hr by (apply Hin; set_solver).
  destruct (lookup_lt_is_Some_2 cs (Z.to_nat i)) as [c Hc]; [lia|].
  unfold pick in *. cbn [omap list_omap]. rewrite Hc, fmap_cons.
  constructor; [|apply IH; intros k Hk; apply Hin; set_solver].
  pose proof (list_elem_of_lookup_2 _ _ _ Hc) as Hel.
  destruct (split_stream s data c Hi Hel) as [Hs Ht].
  unfold Exit.same_core, Exit.mk, Exit.pl. cbn [StreamID Sequence Total Type_ Payload].
  assert ((Payload <$> cs) !! Z.to_nat i = Some (Payload c)) as Hp
    by (by rewrite list_lookup_fmap, Hc).
  rewrite (list_lookup_total_correct _ _ _ Hp), length_fmap.
  split_and!; auto.
  - rewrite (split_seq s data _ c Hi Hc), Hq. rewrite u32_small; lia.
  - rewrite (split_total s data c Hi Hu Hel). apply u32_small. fold cs. lia.
Qed.

Lemma split_feed s data now r arrivals :
  inv s -> unset s -> next_seq s = 0 -> data <> [] ->
  let cs := (split s data).1 in
  len cs < 2 ^ 32 -> Exit.reasm_inv r ->
  Exit.streams r !! stream_id s = None -> stream_id s ∉ Exit.completedStreams r ->
  (forall i, i ∈ arrivals <-> 0 <= i < len cs) ->
  Exit.within (MaxReassemblyChunks (Exit.cfg r)) (len arrivals) ->
  Exit.within (MaxReassemblyBytes (Exit.cfg r))
    (Exit.totalBytes r + Exit.arrived (Payload <$> cs) arrivals) ->
  exists r' os,
    Exit.feed (fun r => Exit.AddStreaming r now) r (pick cs arrivals) = (r', Ok <$> os) /\
    mjoin os.*1 = data /\ Exit.dones os = 1%nat /\ Exit.streams r' = Exit.streams r.
Proof.
  intros Hi Hu Hq Hne cs Hlt Hr Hl Hc Hall Hlc Hlb.
  assert (0 < len cs) as Hpos.
  { pose proof (split_payload s data Hi) as Hp. fold cs in Hp. destruct cs; [done | cbn; lia]. }
  rewrite (Exit.feed_core _ _ _ _ (pick_core s data arrivals Hi Hu Hq Hlt
    (fun i => proj1 (Hall i)))). fold cs.
  destruct (Exit.feed_any_order (stream_id s) (Payload <$> cs) now r arrivals)
    as (r' & os & Hf & Hj & Hd & Hs & _); rewrite ?length_fmap; auto.
  exists r', os. split_and!; auto. rewrite Hj. apply split_payload, Hi.
Qed.
End Roundtrip.

(** Arrivals the reassembler [r] has room for, covering all of [cs]. *)
Definition admissible (r : Exit.ExitReassembler) (sid : Z) (cs : list Chunk)
    (arrivals : list Z) : Prop :=
  len cs < 2 ^ 32 /\ Exit.reasm_inv r /\
  (Exit.streams r !! sid = None) /\ (sid ∉ Exit.completedStreams r) /\
  (forall i, i ∈ arrivals <-> 0 <= i < len cs) /\
  Exit.within (MaxReassemblyChunks (Exit.cfg r)) (len arrivals) /\
  Exit.within (MaxReassemblyBytes (Exit.cfg r))
    (Exit.totalBytes r + Exit.arrived (Payload <$> cs) arrivals).

(** What feeding chunks to a reassembler must give: every call succeeds, the
    bytes add up to the data, and exactly one call reports completion. *)
Definition reassembles (r : Exit.ExitReassembler) (now : Z) (cs : list Chunk)
    (data : list byte) : Prop :=
  exists r' os,
    Exit.feed (fun r => Exit.AddStreaming r now) r cs = (r', Ok <$> os) /\
    mjoin os.*1 = data /\ Exit.dones os = 1%nat /\ Exit.streams r' = Exit.streams r.

(** C7. From the entry chunkers to the exit reassembler: data split by
    either chunker, fixed-16k or bounded Pareto, under any configuration,
    padding source and Pareto sampler, is reassembled exactly from its
    chunks in any order of arrival and with any repetition, and no payload
    of the bounded chunker exceeds its maximum size. *)
Theorem chunkers_reassemble cfg src pareto sid data now r arrivals :
  data <> [] ->
  let cf := (fixed_Split (fixed_SetStreamID (newFixedChunker cfg src) sid) data).1 in
  let cb := (bounded_Split pareto (bounded_SetStreamID (newBoundedChunker cfg src) sid) data).1 in
  (admissible r sid cf arrivals -> reassembles r now (pick cf arrivals) data) /\
  (admissible r sid cb arrivals -> reassembles r now (pick cb arrivals) data) /\
  Forall (fun c => len (Payload c) <= b_maxSize (newBoundedChunker cfg src)) cb.
Proof.
  intros Hd cf cb.
  assert (bounded_inv (bounded_SetStreamID (newBoundedChunker cfg src) sid)) as Hbi.
  { split; [apply newBoundedChunker_inv | cbn; lia]. }
  split_and!.
  - intros (Hlt & Hr & Hl & Hc & Hall & Hlc & Hlb).
    apply (split_feed (fixed_SetStreamID (newFixedChunker cfg src) sid)); auto.
    split; [apply newFixedChunker_inv | cbn; lia].
  - intros (Hlt & Hr & Hl & Hc & Hall & Hlc & Hlb).
    by apply (split_feed (bounded_SetStreamID (newBoundedChunker cfg src) sid)).
  - apply (bounded_Split_ok pareto _ data Hbi).
Qed.

Definition small_cfg : ChunkerConfig :=
  {| MaxChunkSize := 2; MinChunkSize := 1; PaddingMin := 3; PaddingMax := 9;
     DisablePadding := false; DebugFixedSizes := false; PaddingSeed := [];
     MaxReassemblyChunks := 8; MaxReassemblyBytes := 16; StreamReassemblyTimeout := 0 |}.

Lemma chunkers_reassemble_witness :
  reassembles (Exit.NewExitReassembler small_cfg) 0
    (pick (fixed_Split (fixed_SetStreamID
       (newFixedChunker small_cfg (replicate 12 x01)) 7) [x0a; x0b; x0c]).1 [1; 0; 1])
    [x0a; x0b; x0c].
Proof.
  apply (chunkers_reassemble small_cfg (replicate 12 x01) (fun n m => n + m) 7 [x0a; x0b; x0c]
           0 (Exit.NewExitReassembler small_cfg) [1; 0; 1]); [done|].
  split_and!.
  - vm_compute. reflexivity.
  - apply Exit.new_inv.
  - reflexivity.
  - cbn. set_solver.
  - intros i. rewrite !elem_of_cons, elem_of_nil.
    replace (len _) with 2 by (vm_compute; reflexivity). lia.
  - intros _. vm_compute. discriminate.
  - intros _. vm_compute. discriminate.
Defined.

End Chunkers.
