(* ===== verification/UdpArq.v ===== *)
(** * Reliable streams over UDP (internal/mesh/udp_conn.go)

    [udpStreamConn]: framing with path-MTU probing, cumulative and delayed
    acknowledgements, retransmission with an adaptive timeout, in-order
    delivery. The clock is an argument in nanoseconds, datagrams sent are
    returned, sends on the socket succeed, the iteration order of a Go map is
    an argument, and what [Write] waits for is a list of events. The floating
    point arithmetic of the RTT estimator multiplies by 7/8, 1/8, 3/4 and
    1/4, which is exact below 2^50 ns, so it is integer division here. *)
From stdpp Require Import prelude gmap list.
From Stdlib Require Import Strings.Byte ZArith Lia.
From S2P Require Import Prelude GoBytes Conc.
Local Open Scope Z_scope.

Module Udp.

Definition udpFrameTypeData : Z := 0x01.
Definition udpFrameTypeAck : Z := 0x02.
Definition udpFrameTypeFin : Z := 0x03.
Definition udpFrameTypeRawData : Z := 0x04.
Definition probeSeq : Z := 0xFFFFFFFF.
Definition udpFrameHeaderLen : Z := 11.
Definition udpMaxPayload : Z := 40.
Definition udpPayloadLarge : Z := 1200.
Definition udpPayloadProbeInterval : Z := 60 * 1000000000.
Definition udpWindowSize : Z := 128.
Definition udpMaxSeq : Z := 2 ^ 30.
Definition udpWriteTimeout : Z := 10 * 1000000000.
Definition udpRTOMin : Z := 500 * 1000000.
Definition udpRTOMax : Z := 5 * 1000000000.
Definition ackCap : Z := 4096.

Inductive udp_error : Type := ErrUDPClosed | ErrUDPEOF | ErrWriteTimeout (unacked : Z).

Record udpInflightFrame : Type := Inflight { data : list byte; sentAt : Z }.

Record udpStreamConn : Type := MkConn {
  nextSeq : Z;
  baseSeq : Z;
  inflight : gmap Z udpInflightFrame;
  ackRecv : list Z;
  rtoNs : Z;
  srttNs : Z;
  rttvarNs : Z;
  closed : bool;
  lastInboundNs : Z;
  payloadSize : Z;
  lastProbeAt : option Z;
  probePending : bool;
  recvBuf : gmap Z (list byte);
  recvNext : Z;
  recvReady : bool;
  readBuf : list byte;
  readErr : option udp_error;
  ackPending : Z;
  ackCount : Z;
  ackTimer : bool;
  finRecv : bool;
  done : bool
}.

Definition set_nextSeq (v : Z) (sc : udpStreamConn) : udpStreamConn :=
  {| nextSeq := v; baseSeq := baseSeq sc; inflight := inflight sc; ackRecv := ackRecv sc; rtoNs
     := rtoNs sc; srttNs := srttNs sc; rttvarNs := rttvarNs sc; closed := closed sc;
     lastInboundNs := lastInboundNs sc; payloadSize := payloadSize sc; lastProbeAt :=
     lastProbeAt sc; probePending := probePending sc; recvBuf := recvBuf sc; recvNext :=
     recvNext sc; recvReady := recvReady sc; readBuf := readBuf sc; readErr := readErr sc;
     ackPending := ackPending sc; ackCount := ackCount sc; ackTimer := ackTimer sc; finRecv
     := finRecv sc; done := done sc |}.
Definition set_baseSeq (v : Z) (sc : udpStreamConn) : udpStreamConn :=
  {| nextSeq := nextSeq sc; baseSeq := v; inflight := inflight sc; ackRecv := ackRecv sc; rtoNs
     := rtoNs sc; srttNs := srttNs sc; rttvarNs := rttvarNs sc; closed := closed sc;
     lastInboundNs := lastInboundNs sc; payloadSize := payloadSize sc; lastProbeAt :=
     lastProbeAt sc; probePending := probePending sc; recvBuf := recvBuf sc; recvNext :=
     recvNext sc; recvReady := recvReady sc; readBuf := readBuf sc; readErr := readErr sc;
     ackPending := ackPending sc; ackCount := ackCount sc; ackTimer := ackTimer sc; finRecv
     := finRecv sc; done := done sc |}.
Definition set_inflight (v : gmap Z udpInflightFrame) (sc : udpStreamConn) : udpStreamConn :=
  {| nextSeq := nextSeq sc; baseSeq := baseSeq sc; inflight := v; ackRecv := ackRecv sc; rtoNs :=
     rtoNs sc; srttNs := srttNs sc; rttvarNs := rttvarNs sc; closed := closed sc;
     lastInboundNs := lastInboundNs sc; payloadSize := payloadSize sc; lastProbeAt :=
     lastProbeAt sc; probePending := probePending sc; recvBuf := recvBuf sc; recvNext :=
     recvNext sc; recvReady := recvReady sc; readBuf := readBuf sc; readErr := readErr sc;
     ackPending := ackPending sc; ackCount := ackCount sc; ackTimer := ackTimer sc; finRecv
     := finRecv sc; done := done sc |}.
Definition set_ackRecv (v : list Z) (sc : udpStreamConn) : udpStreamConn :=
  {| nextSeq := nextSeq sc; baseSeq := baseSeq sc; inflight := inflight sc; ackRecv := v; rtoNs
     := rtoNs sc; srttNs := srttNs sc; rttvarNs := rttvarNs sc; closed := closed sc;
     lastInboundNs := lastInboundNs sc; payloadSize := payloadSize sc; lastProbeAt :=
     lastProbeAt sc; probePending := probePending sc; recvBuf := recvBuf sc; recvNext :=
     recvNext sc; recvReady := recvReady sc; readBuf := readBuf sc; readErr := readErr sc;
     ackPending := ackPending sc; ackCount := ackCount sc; ackTimer := ackTimer sc; finRecv
     := finRecv sc; done := done sc |}.
Definition set_rtoNs (v : Z) (sc : udpStreamConn) : udpStreamConn :=
  {| nextSeq := nextSeq sc; baseSeq := baseSeq sc; inflight := inflight sc; ackRecv := ackRecv
     sc; rtoNs := v; srttNs := srttNs sc; rttvarNs := rttvarNs sc; closed := closed sc;
     lastInboundNs := lastInboundNs sc; payloadSize := payloadSize sc; lastProbeAt :=
     lastProbeAt sc; probePending := probePending sc; recvBuf := recvBuf sc; recvNext :=
     recvNext sc; recvReady := recvReady sc; readBuf := readBuf sc; readErr := readErr sc;
     ackPending := ackPending sc; ackCount := ackCount sc; ackTimer := ackTimer sc; finRecv
     := finRecv sc; done := done sc |}.
Definition set_srttNs (v : Z) (sc : udpStreamConn) : udpStreamConn :=
  {| nextSeq := nextSeq sc; baseSeq := baseSeq sc; inflight := inflight sc; ackRecv := ackRecv
     sc; rtoNs := rtoNs sc; srttNs := v; rttvarNs := rttvarNs sc; closed := closed sc;
     lastInboundNs := lastInboundNs sc; payloadSize := payloadSize sc; lastProbeAt :=
     lastProbeAt sc; probePending := probePending sc; recvBuf := recvBuf sc; recvNext :=
     recvNext sc; recvReady := recvReady sc; readBuf := readBuf sc; readErr := readErr sc;
     ackPending := ackPending sc; ackCount := ackCount sc; ackTimer := ackTimer sc; finRecv
     := finRecv sc; done := done sc |}.
Definition set_rttvarNs (v : Z) (sc : udpStreamConn) : udpStreamConn :=
  {| nextSeq := nextSeq sc; baseSeq := baseSeq sc; inflight := inflight sc; ackRecv := ackRecv
     sc; rtoNs := rtoNs sc; srttNs := srttNs sc; rttvarNs := v; closed := closed sc;
     lastInboundNs := lastInboundNs sc; payloadSize := payloadSize sc; lastProbeAt :=
     lastProbeAt sc; probePending := probePending sc; recvBuf := recvBuf sc; recvNext :=
     recvNext sc; recvReady := recvReady sc; readBuf := readBuf sc; readErr := readErr sc;
     ackPending := ackPending sc; ackCount := ackCount sc; ackTimer := ackTimer sc; finRecv
     := finRecv sc; done := done sc |}.
Definition set_closed (v : bool) (sc : udpStreamConn) : udpStreamConn :=
  {| nextSeq := nextSeq sc; baseSeq := baseSeq sc; inflight := inflight sc; ackRecv := ackRecv
     sc; rtoNs := rtoNs sc; srttNs := srttNs sc; rttvarNs := rttvarNs sc; closed := v;
     lastInboundNs := lastInboundNs sc; payloadSize := payloadSize sc; lastProbeAt :=
     lastProbeAt sc; probePending := probePending sc; recvBuf := recvBuf sc; recvNext :=
     recvNext sc; recvReady := recvReady sc; readBuf := readBuf sc; readErr := readErr sc;
     ackPending := ackPending sc; ackCount := ackCount sc; ackTimer := ackTimer sc; finRecv
     := finRecv sc; done := done sc |}.
Definition set_lastInboundNs (v : Z) (sc : udpStreamConn) : udpStreamConn :=
  {| nextSeq := nextSeq sc; baseSeq := baseSeq sc; inflight := inflight sc; ackRecv := ackRecv
     sc; rtoNs := rtoNs sc; srttNs := srttNs sc; rttvarNs := rttvarNs sc; closed := closed
     sc; lastInboundNs := v; payloadSize := payloadSize sc; lastProbeAt := lastProbeAt sc;
     probePending := probePending sc; recvBuf := recvBuf sc; recvNext := recvNext sc;
     recvReady := recvReady sc; readBuf := readBuf sc; readErr := readErr sc; ackPending :=
     ackPending sc; ackCount := ackCount sc; ackTimer := ackTimer sc; finRecv := finRecv sc;
     done := done sc |}.
Definition set_payloadSize (v : Z) (sc : udpStreamConn) : udpStreamConn :=
  {| nextSeq := nextSeq sc; baseSeq := baseSeq sc; inflight := inflight sc; ackRecv := ackRecv
     sc; rtoNs := rtoNs sc; srttNs := srttNs sc; rttvarNs := rttvarNs sc; closed := closed
     sc; lastInboundNs := lastInboundNs sc; payloadSize := v; lastProbeAt := lastProbeAt sc;
     probePending := probePending sc; recvBuf := recvBuf sc; recvNext := recvNext sc;
     recvReady := recvReady sc; readBuf := readBuf sc; readErr := readErr sc; ackPending :=
     ackPending sc; ackCount := ackCount sc; ackTimer := ackTimer sc; finRecv := finRecv sc;
     done := done sc |}.
Definition set_lastProbeAt (v : option Z) (sc : udpStreamConn) : udpStreamConn :=
  {| nextSeq := nextSeq sc; baseSeq := baseSeq sc; inflight := inflight sc; ackRecv := ackRecv
     sc; rtoNs := rtoNs sc; srttNs := srttNs sc; rttvarNs := rttvarNs sc; closed := closed
     sc; lastInboundNs := lastInboundNs sc; payloadSize := payloadSize sc; lastProbeAt := v;
     probePending := probePending sc; recvBuf := recvBuf sc; recvNext := recvNext sc;
     recvReady := recvReady sc; readBuf := readBuf sc; readErr := readErr sc; ackPending :=
     ackPending sc; ackCount := ackCount sc; ackTimer := ackTimer sc; finRecv := finRecv sc;
     done := done sc |}.
Definition set_probePending (v : bool) (sc : udpStreamConn) : udpStreamConn :=
  {| nextSeq := nextSeq sc; baseSeq := baseSeq sc; inflight := inflight sc; ackRecv := ackRecv
     sc; rtoNs := rtoNs sc; srttNs := srttNs sc; rttvarNs := rttvarNs sc; closed := closed
     sc; lastInboundNs := lastInboundNs sc; payloadSize := payloadSize sc; lastProbeAt :=
     lastProbeAt sc; probePending := v; recvBuf := recvBuf sc; recvNext := recvNext sc;
     recvReady := recvReady sc; readBuf := readBuf sc; readErr := readErr sc; ackPending :=
     ackPending sc; ackCount := ackCount sc; ackTimer := ackTimer sc; finRecv := finRecv sc;
     done := done sc |}.
Definition set_recvBuf (v : gmap Z (list byte)) (sc : udpStreamConn) : udpStreamConn :=
  {| nextSeq := nextSeq sc; baseSeq := baseSeq sc; inflight := inflight sc; ackRecv := ackRecv
     sc; rtoNs := rtoNs sc; srttNs := srttNs sc; rttvarNs := rttvarNs sc; closed := closed
     sc; lastInboundNs := lastInboundNs sc; payloadSize := payloadSize sc; lastProbeAt :=
     lastProbeAt sc; probePending := probePending sc; recvBuf := v; recvNext := recvNext sc;
     recvReady := recvReady sc; readBuf := readBuf sc; readErr := readErr sc; ackPending :=
     ackPending sc; ackCount := ackCount sc; ackTimer := ackTimer sc; finRecv := finRecv sc;
     done := done sc |}.
Definition set_recvNext (v : Z) (sc : udpStreamConn) : udpStreamConn :=
  {| nextSeq := nextSeq sc; baseSeq := baseSeq sc; inflight := inflight sc; ackRecv := ackRecv
     sc; rtoNs := rtoNs sc; srttNs := srttNs sc; rttvarNs := rttvarNs sc; closed := closed
     sc; lastInboundNs := lastInboundNs sc; payloadSize := payloadSize sc; lastProbeAt :=
     lastProbeAt sc; probePending := probePending sc; recvBuf := recvBuf sc; recvNext := v;
     recvReady := recvReady sc; readBuf := readBuf sc; readErr := readErr sc; ackPending :=
     ackPending sc; ackCount := ackCount sc; ackTimer := ackTimer sc; finRecv := finRecv sc;
     done := done sc |}.
Definition set_recvReady (v : bool) (sc : udpStreamConn) : udpStreamConn :=
  {| nextSeq := nextSeq sc; baseSeq := baseSeq sc; inflight := inflight sc; ackRecv := ackRecv
     sc; rtoNs := rtoNs sc; srttNs := srttNs sc; rttvarNs := rttvarNs sc; closed := closed
     sc; lastInboundNs := lastInboundNs sc; payloadSize := payloadSize sc; lastProbeAt :=
     lastProbeAt sc; probePending := probePending sc; recvBuf := recvBuf sc; recvNext :=
     recvNext sc; recvReady := v; readBuf := readBuf sc; readErr := readErr sc; ackPending
     := ackPending sc; ackCount := ackCount sc; ackTimer := ackTimer sc; finRecv := finRecv
     sc; done := done sc |}.
Definition set_readBuf (v : list byte) (sc : udpStreamConn) : udpStreamConn :=
  {| nextSeq := nextSeq sc; baseSeq := baseSeq sc; inflight := inflight sc; ackRecv := ackRecv
     sc; rtoNs := rtoNs sc; srttNs := srttNs sc; rttvarNs := rttvarNs sc; closed := closed
     sc; lastInboundNs := lastInboundNs sc; payloadSize := payloadSize sc; lastProbeAt :=
     lastProbeAt sc; probePending := probePending sc; recvBuf := recvBuf sc; recvNext :=
     recvNext sc; recvReady := recvReady sc; readBuf := v; readErr := readErr sc; ackPending
     := ackPending sc; ackCount := ackCount sc; ackTimer := ackTimer sc; finRecv := finRecv
     sc; done := done sc |}.
Definition set_ackPending (v : Z) (sc : udpStreamConn) : udpStreamConn :=
  {| nextSeq := nextSeq sc; baseSeq := baseSeq sc; inflight := inflight sc; ackRecv := ackRecv
     sc; rtoNs := rtoNs sc; srttNs := srttNs sc; rttvarNs := rttvarNs sc; closed := closed
     sc; lastInboundNs := lastInboundNs sc; payloadSize := payloadSize sc; lastProbeAt :=
     lastProbeAt sc; probePending := probePending sc; recvBuf := recvBuf sc; recvNext :=
     recvNext sc; recvReady := recvReady sc; readBuf := readBuf sc; readErr := readErr sc;
     ackPending := v; ackCount := ackCount sc; ackTimer := ackTimer sc; finRecv := finRecv
     sc; done := done sc |}.
Definition set_ackCount (v : Z) (sc : udpStreamConn) : udpStreamConn :=
  {| nextSeq := nextSeq sc; baseSeq := baseSeq sc; inflight := inflight sc; ackRecv := ackRecv
     sc; rtoNs := rtoNs sc; srttNs := srttNs sc; rttvarNs := rttvarNs sc; closed := closed
     sc; lastInboundNs := lastInboundNs sc; payloadSize := payloadSize sc; lastProbeAt :=
     lastProbeAt sc; probePending := probePending sc; recvBuf := recvBuf sc; recvNext :=
     recvNext sc; recvReady := recvReady sc; readBuf := readBuf sc; readErr := readErr sc;
     ackPending := ackPending sc; ackCount := v; ackTimer := ackTimer sc; finRecv := finRecv
     sc; done := done sc |}.
Definition set_ackTimer (v : bool) (sc : udpStreamConn) : udpStreamConn :=
  {| nextSeq := nextSeq sc; baseSeq := baseSeq sc; inflight := inflight sc; ackRecv := ackRecv
     sc; rtoNs := rtoNs sc; srttNs := srttNs sc; rttvarNs := rttvarNs sc; closed := closed
     sc; lastInboundNs := lastInboundNs sc; payloadSize := payloadSize sc; lastProbeAt :=
     lastProbeAt sc; probePending := probePending sc; recvBuf := recvBuf sc; recvNext :=
     recvNext sc; recvReady := recvReady sc; readBuf := readBuf sc; readErr := readErr sc;
     ackPending := ackPending sc; ackCount := ackCount sc; ackTimer := v; finRecv := finRecv
     sc; done := done sc |}.
Definition set_finRecv (v : bool) (sc : udpStreamConn) : udpStreamConn :=
  {| nextSeq := nextSeq sc; baseSeq := baseSeq sc; inflight := inflight sc; ackRecv := ackRecv
     sc; rtoNs := rtoNs sc; srttNs := srttNs sc; rttvarNs := rttvarNs sc; closed := closed
     sc; lastInboundNs := lastInboundNs sc; payloadSize := payloadSize sc; lastProbeAt :=
     lastProbeAt sc; probePending := probePending sc; recvBuf := recvBuf sc; recvNext :=
     recvNext sc; recvReady := recvReady sc; readBuf := readBuf sc; readErr := readErr sc;
     ackPending := ackPending sc; ackCount := ackCount sc; ackTimer := ackTimer sc; finRecv
     := v; done := done sc |}.
Definition set_done (v : bool) (sc : udpStreamConn) : udpStreamConn :=
  {| nextSeq := nextSeq sc; baseSeq := baseSeq sc; inflight := inflight sc; ackRecv := ackRecv
     sc; rtoNs := rtoNs sc; srttNs := srttNs sc; rttvarNs := rttvarNs sc; closed := closed
     sc; lastInboundNs := lastInboundNs sc; payloadSize := payloadSize sc; lastProbeAt :=
     lastProbeAt sc; probePending := probePending sc; recvBuf := recvBuf sc; recvNext :=
     recvNext sc; recvReady := recvReady sc; readBuf := readBuf sc; readErr := readErr sc;
     ackPending := ackPending sc; ackCount := ackCount sc; ackTimer := ackTimer sc; finRecv
     := finRecv sc; done := v |}.

Definition newUDPStreamConn : udpStreamConn :=
  {| nextSeq := 0; baseSeq := 0; inflight := ∅; ackRecv := []; rtoNs := udpRTOMin; srttNs := 0;
     rttvarNs := 0; closed := false; lastInboundNs := 0; payloadSize := udpMaxPayload;
     lastProbeAt := None; probePending := false; recvBuf := ∅; recvNext := 0; recvReady := false;
     readBuf := []; readErr := None; ackPending := 0; ackCount := 0; ackTimer := false;
     finRecv := false; done := false |}.

(** ** Sequence numbers *)
Definition seqBefore (a b : Z) : bool :=
  let diff := Z.rem (b - a) udpMaxSeq in
  let diff := if diff <? 0 then diff + udpMaxSeq else diff in
  negb (diff =? 0) && (diff <? udpMaxSeq / 2).

Definition succ (seq : Z) : Z := (seq + 1) mod udpMaxSeq.

(** ** Datagrams *)
Definition datagram (ftype seq ack plen : Z) (payload : list byte) : list byte :=
  [byte_of_Z ftype] ++ be_bytes 4 seq ++ be_bytes 4 ack ++ be_bytes 2 plen ++ payload.

Definition sendAck (seq : Z) : list byte := datagram udpFrameTypeAck 0 seq 0 [].
Definition data_frame (seq base : Z) (chunk : list byte) : list byte :=
  datagram udpFrameTypeData seq base (u16 (len chunk)) chunk.

(** ** Round-trip time *)
Definition absDur (d : Z) : Z := if d <? 0 then - d else d.

Definition sampleRTT (rtt : Z) (sc : udpStreamConn) : udpStreamConn :=
  if rtt <=? 0 then sc else
  let srtt := if srttNs sc =? 0 then rtt else Z.quot (7 * srttNs sc + rtt) 8 in
  let rttvar := Z.quot (3 * rttvarNs sc + absDur (rtt - srtt)) 4 in
  let rto := srtt + 4 * rttvar in
  let rto := if rto <? udpRTOMin then udpRTOMin else rto in
  let rto := if udpRTOMax <? rto then udpRTOMax else rto in
  set_rtoNs rto (set_rttvarNs rttvar (set_srttNs srtt sc)).

(** ** Sending *)

(** A frame larger than a conservative one, which only a probe is. *)
Definition is_large (f : udpInflightFrame) : bool :=
  udpFrameHeaderLen + udpMaxPayload <? len (data f).

Definition acked (ack : Z) (sc : udpStreamConn) : gmap Z udpInflightFrame :=
  filter (fun '(seq, _) => seqBefore ack seq = false) (inflight sc).

(** The latest send time of a set of frames. *)
Definition newest (m : gmap Z udpInflightFrame) : option Z :=
  map_fold (fun _ f acc => match acc with
                           | None => Some (sentAt f)
                           | Some t => Some (Z.max t (sentAt f))
                           end) None m.

Definition ackLocked (ack now : Z) (sc : udpStreamConn) : udpStreamConn :=
  let gone := acked ack sc in
  let upgrade := probePending sc && bool_decide (map_Exists (fun _ f => is_large f = true) gone) in
  let sc1 := set_inflight (filter (fun '(seq, _) => seqBefore ack seq = true) (inflight sc))
    (if upgrade then set_probePending false (set_payloadSize udpPayloadLarge sc) else sc) in
  let sc2 := if negb (seqBefore ack (baseSeq sc1)) then set_baseSeq (succ ack) sc1 else sc1 in
  match newest gone with
  | Some t => sampleRTT (now - t) sc2
  | None => sc2
  end.

(** What [retransmitLocked] sends, going through the frames in [order]; the
    flag is false when a due probe makes it close the stream instead. *)
Fixpoint retransmit (order : list Z) (now : Z) (sc : udpStreamConn)
    : udpStreamConn * list (list byte) * bool :=
  match order with
  | [] => (sc, [], true)
  | seq :: order =>
      match inflight sc !! seq with
      | Some f =>
          if rtoNs sc <=? now - sentAt f then
            if probePending sc && is_large f then (sc, [], false)
            else
              let sc := set_inflight (<[seq := Inflight (data f) now]> (inflight sc)) sc in
              let '(sc, out, ok) := retransmit order now sc in (sc, data f :: out, ok)
          else retransmit order now sc
      | None => retransmit order now sc
      end
  end.

(** The size of the next frame, and whether it is a probe. *)
Definition chunk_size (now : Z) (sc : udpStreamConn) (n : Z) : Z * bool :=
  let size := if n <? udpPayloadLarge then udpMaxPayload else payloadSize sc in
  if (size <? udpPayloadLarge) && negb (probePending sc) && (udpPayloadLarge <=? n)
     && match lastProbeAt sc with None => true | Some t => udpPayloadProbeInterval <=? now - t end
  then (udpPayloadLarge, true) else (size, false).

(** One frame of [Write]: the connection, the datagram and what is left. *)
Definition write_one (now : Z) (sc : udpStreamConn) (p : list byte)
    : udpStreamConn * list byte * list byte :=
  let '(size, probe) := chunk_size now sc (len p) in
  let sc := if probe then set_lastProbeAt (Some now) (set_probePending true sc) else sc in
  let chunk := if size <? len p then take (Z.to_nat size) p else p in
  let seq := nextSeq sc in
  let frame := data_frame seq (baseSeq sc) chunk in
  let sc := set_inflight (<[seq := Inflight frame now]> (inflight sc))
              (set_nextSeq (succ seq) sc) in
  (sc, frame, drop (length chunk) p).

(** A datagram [Write] puts on the socket: a new frame or a repeated one. *)
Inductive sent : Type := New (d : list byte) | Resent (d : list byte).

Definition window (sc : udpStreamConn) : Z := Z.of_nat (size (inflight sc)).

(** What [Write] may see while the window is full: an acknowledgement taken
    from the queue, the stream's end, its retransmission timer (with the
    order in which the map is walked), its own deadline; each with the clock. *)
Inductive wait_event : Type :=
| EvAck (ack now : Z) | EvDone | EvRto (now : Z) (order : list Z) | EvTimeout.

Inductive wait_outcome : Type := Drained | Failed (e : udp_error) | Locked | Blocked.

(** Wait until the window has room; [Locked] when [retransmitLocked] calls
    [Close], which takes the lock that [Write] already holds. *)
Fixpoint wait_window (evs : list wait_event) (sc : udpStreamConn)
    : udpStreamConn * list sent * wait_outcome * list wait_event :=
  if window sc <? udpWindowSize then (sc, [], Drained, evs) else
  match evs with
  | [] => (sc, [], Blocked, [])
  | EvAck ack now :: evs => wait_window evs (ackLocked ack now sc)
  | EvDone :: evs => (sc, [], Failed ErrUDPClosed, evs)
  | EvTimeout :: evs => (sc, [], Failed (ErrWriteTimeout (window sc)), evs)
  | EvRto now order :: evs =>
      let '(sc, out, ok) := retransmit order now sc in
      if ok then
        let '(sc, out', r, evs) := wait_window evs sc in (sc, (Resent <$> out) ++ out', r, evs)
      else (sc, Resent <$> out, Locked, evs)
  end.

Inductive write_result : Type :=
| Wrote (n : Z) (e : option udp_error) | WriteBlocked (n : Z) | WriteDeadlock (n : Z).

(** The loop of [Write]; every round sends at least one byte. *)
Fixpoint write_loop (fuel : nat) (clock : list Z) (evs : list wait_event) (sc : udpStreamConn)
    (total : Z) (p : list byte) : udpStreamConn * list sent * write_result :=
  match fuel, p with
  | S fuel, _ :: _ =>
      let '(sc, frame, rest) := write_one (default 0 (head clock)) sc p in
      let total := total + (len p - len rest) in
      let '(sc, out, r, evs) := wait_window evs sc in
      match r with
      | Drained =>
          let '(sc, out', res) := write_loop fuel (tail clock) evs sc total rest in
          (sc, New frame :: out ++ out', res)
      | Failed e => (sc, New frame :: out, Wrote total (Some e))
      | Locked => (sc, New frame :: out, WriteDeadlock total)
      | Blocked => (sc, New frame :: out, WriteBlocked total)
      end
  | _, _ => (sc, [], Wrote total None)
  end.

Definition Write (clock : list Z) (evs : list wait_event) (sc : udpStreamConn) (p : list byte)
    : udpStreamConn * list sent * write_result :=
  if closed sc then (sc, [], Wrote 0 (Some ErrUDPClosed))
  else write_loop (length p) clock evs sc 0 p.

(** ** Receiving *)
Definition signalReady (sc : udpStreamConn) : udpStreamConn := set_recvReady true sc.

(** Extend the acknowledgement boundary over buffered frames. *)
Fixpoint walk (fuel : nat) (buf : gmap Z (list byte)) (a : Z) : Z :=
  match fuel with
  | O => a
  | S fuel => match buf !! succ a with Some _ => walk fuel buf (succ a) | None => a end
  end.

(** Count a frame towards the delayed acknowledgement; the acknowledgement
    to send now, if any. *)
Definition count_ack (sc : udpStreamConn) : udpStreamConn * list (list byte) :=
  let sc := set_ackCount (ackCount sc + 1) sc in
  if 2 <=? ackCount sc then (set_ackCount 0 sc, [sendAck (ackPending sc)]) else (sc, []).

Definition handle_data (seq : Z) (payload : list byte) (sc : udpStreamConn)
    : udpStreamConn * list (list byte) :=
  let sc := if negb (seqBefore seq (recvNext sc)) && bool_decide (recvBuf sc !! seq = None)
            then set_recvBuf (<[seq := payload]> (recvBuf sc)) sc else sc in
  let a := ackPending sc in
  let a := if ((seq =? a) || (seq =? succ a)) && seqBefore a seq then seq else a in
  let sc := set_ackPending (walk (size (recvBuf sc)) (recvBuf sc) a) sc in
  let '(sc, out) := count_ack sc in
  let sc := signalReady sc in
  match out with
  | [] => (set_ackTimer true sc, [])
  | _ => (sc, out)
  end.

Definition handlePacket (now : Z) (d : list byte) (sc : udpStreamConn)
    : udpStreamConn * list (list byte) :=
  if len d <? udpFrameHeaderLen then (sc, []) else
  let sc := set_lastInboundNs now sc in
  let ftype := be_Z (slice d 0 1) in
  let seq := be_Z (slice d 1 5) in
  let ack := be_Z (slice d 5 9) in
  let plen := be_Z (slice d 9 11) in
  if ftype =? udpFrameTypeRawData then
    if len d - udpFrameHeaderLen <? plen then (sc, []) else
    (signalReady (set_readBuf (readBuf sc ++ slice d 11 (11 + plen)) sc), [])
  else if ftype =? udpFrameTypeData then
    if seq =? probeSeq then count_ack sc else
    if len d - udpFrameHeaderLen <? plen then (sc, []) else
    handle_data seq (slice d 11 (11 + plen)) sc
  else if ftype =? udpFrameTypeAck then
    (if len (ackRecv sc) <? ackCap then set_ackRecv (ackRecv sc ++ [ack]) sc else sc, [])
  else if ftype =? udpFrameTypeFin then (set_finRecv true sc, [])
  else (sc, []).

(** The delayed-acknowledgement timer fires. *)
Definition ack_timer_fires (sc : udpStreamConn) : udpStreamConn * list (list byte) :=
  if done sc then (set_ackTimer false sc, []) else
  (set_ackTimer false (set_ackCount 0 sc), [sendAck (ackPending sc)]).

(** ** Reading *)
Inductive read_pass_result : Type :=
| Bytes (b : list byte) | ReadFail (e : udp_error) | Again | Wait.

Definition read_pass (n : Z) (sc : udpStreamConn) : udpStreamConn * read_pass_result :=
  if 0 <? len (readBuf sc) then
    (set_readBuf (drop (Z.to_nat n) (readBuf sc)) sc, Bytes (take (Z.to_nat n) (readBuf sc)))
  else match readErr sc with
  | Some e => (sc, ReadFail e)
  | None =>
      match recvBuf sc !! recvNext sc with
      | Some [] =>
          (signalReady (set_recvNext (succ (recvNext sc))
             (set_recvBuf (delete (recvNext sc) (recvBuf sc)) sc)), Again)
      | Some d =>
          let sc := if n <? len d then set_readBuf (drop (Z.to_nat n) d) sc
                    else set_recvBuf (delete (recvNext sc) (recvBuf sc)) sc in
          (signalReady (set_recvNext (succ (recvNext sc)) sc), Bytes (take (Z.to_nat n) d))
      | None => (sc, Wait)
      end
  end.

(** What ends the wait of [Read]: woken, stream closed, or FIN received. *)
Definition read_wait (sc : udpStreamConn) : list (udpStreamConn * option udp_error) :=
  (if recvReady sc then [(set_recvReady false sc, None)] else [])
  ++ (if done sc then [(sc, Some ErrUDPClosed)] else [])
  ++ (if finRecv sc then [(sc, Some ErrUDPEOF)] else []).

(** [picks] chooses among the cases that are ready; [None] when [Read] is
    still waiting (or its rounds are used up). *)
Fixpoint Read (rounds : nat) (picks : list nat) (n : Z) (sc : udpStreamConn)
    : udpStreamConn * option (result udp_error (list byte)) :=
  match rounds with
  | O => (sc, None)
  | S rounds =>
      match read_pass n sc with
      | (sc, Bytes b) => (sc, Some (Ok b))
      | (sc, ReadFail e) => (sc, Some (Err e))
      | (sc, Again) => Read rounds picks n sc
      | (sc, Wait) =>
          match read_wait sc !! default 0%nat (head picks) with
          | None => (sc, None)
          | Some (sc, Some e) => (sc, Some (Err e))
          | Some (sc, None) => Read rounds (tail picks) n sc
          end
      end
  end.

(** ** Sequence arithmetic *)

Lemma seqBefore_mod a b :
  seqBefore a b = negb ((b - a) mod udpMaxSeq =? 0) && ((b - a) mod udpMaxSeq <? 2 ^ 29).
Proof.
  unfold seqBefore. replace (udpMaxSeq / 2) with (2 ^ 29) by reflexivity.
  assert ((if Z.rem (b - a) udpMaxSeq <? 0 then Z.rem (b - a) udpMaxSeq + udpMaxSeq
           else Z.rem (b - a) udpMaxSeq) = (b - a) mod udpMaxSeq) as ->; [|done].
  assert (0 < udpMaxSeq) as Hm by (unfold udpMaxSeq; lia).
  pose proof (Z.quot_rem' (b - a) udpMaxSeq) as Hq.
  pose proof (Z.rem_bound_abs (b - a) udpMaxSeq ltac:(lia)) as Hb.
  destruct (Z.ltb_spec (Z.rem (b - a) udpMaxSeq) 0).
  - apply Z.mod_unique with (Z.quot (b - a) udpMaxSeq - 1); lia.
  - apply Z.mod_unique with (Z.quot (b - a) udpMaxSeq); lia.
Qed.

Lemma circular_lt d :
  Z.abs d < 2 ^ 29 ->
  negb (d mod udpMaxSeq =? 0) && (d mod udpMaxSeq <? 2 ^ 29) = (0 <? d).
Proof.
  intros Hd. unfold udpMaxSeq. destruct (Z.ltb_spec 0 d).
  - rewrite Z.mod_small by lia. apply andb_true_iff. split; [|z_true].
    apply negb_true_iff. z_false.
  - destruct (decide (d = 0)) as [->|]; [done|].
    assert (d mod 2 ^ 30 = d + 2 ^ 30) as -> by (symmetry; apply Z.mod_unique with (-1); lia).
    apply andb_false_iff. right. z_false.
Qed.

Lemma seqBefore_near a b : Z.abs (b - a) < 2 ^ 29 -> seqBefore a b = (a <? b).
Proof.
  intros Hd. rewrite seqBefore_mod, circular_lt by done.
  apply Bool.eq_iff_eq_true. rewrite !Z.ltb_lt. lia.
Qed.

Lemma succ_small i : 0 <= i < udpMaxSeq - 1 -> succ i = i + 1.
Proof. intros. unfold succ. rewrite Z.mod_small; lia. Qed.

(** [seqBefore] orders the circular sequence space: it compares
    positions at any offset of the circle, so it is invariant under a common
    shift; for positions less than half the space apart it is the order in
    which they were issued, never both ways, and equal values are not before
    each other. *)
Theorem seqBefore_circular start i j :
  Z.abs (j - i) < 2 ^ 29 ->
  seqBefore ((start + i) mod udpMaxSeq) ((start + j) mod udpMaxSeq) = (i <? j).
Proof.
  intros Hd. rewrite seqBefore_mod, Zminus_mod_idemp_l, Zminus_mod_idemp_r.
  replace (start + j - (start + i)) with (j - i) by lia. rewrite circular_lt by done.
  apply Bool.eq_iff_eq_true. rewrite !Z.ltb_lt. lia.
Qed.

Lemma seqBefore_circular_witness :
  seqBefore ((1073741820 + 1) mod udpMaxSeq) ((1073741820 + 9) mod udpMaxSeq) = true.
Proof. apply (seqBefore_circular 1073741820 1 9). lia. Defined.

(** ** The receiver *)

Lemma handlePacket_data now seq base chunk sc :
  0 <= seq < 2 ^ 30 -> 0 <= base < 2 ^ 32 -> len chunk < 2 ^ 16 ->
  handlePacket now (data_frame seq base chunk) sc = handle_data seq chunk (set_lastInboundNs now sc).
Proof.
  intros Hs Hb Hc. unfold handlePacket, data_frame, datagram, udpFrameHeaderLen.
  rewrite (proj2 (Z.ltb_ge _ _)) by len_lia.
  assert (be_Z (slice ([byte_of_Z udpFrameTypeData] ++ be_bytes 4 seq ++ be_bytes 4 base
    ++ be_bytes 2 (u16 (len chunk)) ++ chunk) 0 1) = udpFrameTypeData) as -> by reflexivity.
  slice_norm. rewrite !be_Z_u32, be_Z_u16 by (rewrite ?u16_small; lia).
  rewrite u16_small by lia.
  change (udpFrameTypeData =? udpFrameTypeRawData) with false.
  change (udpFrameTypeData =? udpFrameTypeData) with true. cbn beta iota.
  unfold probeSeq. rewrite (proj2 (Z.eqb_neq seq _)) by lia.
  rewrite (proj2 (Z.ltb_ge _ _)) by len_lia. slice_norm. done.
Qed.

Section Receiver.
(** The payloads of the frames of a stream, fewer than half the space. *)
Context (payloads : list (list byte)).
Abbreviation n := (len payloads).
Context (Hn : 0 < n < 2 ^ 29).

(** The bytes of the first [m] frames. *)
Definition stream_prefix (m : Z) : list byte := mjoin (take (Z.to_nat m) payloads).

(** What happens at the receiving end, in any order: a frame of the stream
    arrives (again), an acknowledgement timer fires, FIN or other control
    datagrams arrive, the application reads. *)
Inductive rx_event : Type :=
| Arrive (i base now : Z)
| TimerFires
| Control (ftype ack now : Z)
| AppRead (rounds : nat) (picks : list nat) (size : Z).

Definition valid_event (e : rx_event) : Prop :=
  match e with
  | Arrive i base _ => 0 <= i < n /\ 0 <= base < 2 ^ 32
  | Control ftype ack _ =>
      (ftype = udpFrameTypeAck \/ ftype = udpFrameTypeFin) /\ 0 <= ack < 2 ^ 32
  | AppRead _ _ size => 0 <= size
  | TimerFires => True
  end.

Definition payload (i : Z) : list byte := payloads !!! Z.to_nat i.

(** The state, the bytes returned to the application and the datagrams
    sent by one event. *)
Definition rx_step (sc : udpStreamConn) (e : rx_event)
    : udpStreamConn * list byte * list (list byte) :=
  match e with
  | Arrive i base now =>
      let '(sc, out) := handlePacket now (data_frame i base (payload i)) sc in (sc, [], out)
  | TimerFires => let '(sc, out) := ack_timer_fires sc in (sc, [], out)
  | Control ftype ack now =>
      let '(sc, out) := handlePacket now (datagram ftype 0 ack 0 []) sc in (sc, [], out)
  | AppRead rounds picks size =>
      match Read rounds picks size sc with
      | (sc, Some (Ok b)) => (sc, b, [])
      | (sc, _) => (sc, [], [])
      end
  end.

Fixpoint rx_run (sc : udpStreamConn) (evs : list rx_event)
    : udpStreamConn * list byte * list (list byte) :=
  match evs with
  | [] => (sc, [], [])
  | e :: evs =>
      let '(sc, b, out) := rx_step sc e in
      let '(sc, b', out') := rx_run sc evs in (sc, b ++ b', out ++ out')
  end.

Definition arrivals (evs : list rx_event) : list Z :=
  omap (fun e => match e with Arrive i _ _ => Some i | _ => None end) evs.

(** [seen]: the frames received; [out]: the bytes returned so far. *)
Record rx_inv (seen : gset Z) (out : list byte) (sc : udpStreamConn) : Prop := {
  rx_next : 0 <= recvNext sc <= n;
  rx_out : out ++ readBuf sc = stream_prefix (recvNext sc);
  rx_buf : forall i d, recvBuf sc !! i = Some d -> 0 <= i < n /\ i ∈ seen /\ d = payload i;
  rx_held : forall i, i ∈ seen -> recvNext sc <= i -> is_Some (recvBuf sc !! i);
  rx_seen : forall i, i ∈ seen -> 0 <= i < n;
  rx_ack : 0 <= ackPending sc < n /\ forall i, 1 <= i <= ackPending sc -> i ∈ seen;
  rx_err : readErr sc = None
}.

Lemma payload_lookup i : 0 <= i < n -> payloads !! Z.to_nat i = Some (payload i).
Proof. intros Hi. apply list_lookup_lookup_total_lt. lia. Qed.

Lemma stream_prefix_succ m : 0 <= m < n -> stream_prefix (m + 1) = stream_prefix m ++ payload m.
Proof.
  intros Hm. unfold stream_prefix.
  replace (Z.to_nat (m + 1)) with (S (Z.to_nat m)) by lia.
  rewrite (take_S_r _ _ _ (payload_lookup m Hm)), join_app. cbn. by rewrite app_nil_r.
Qed.

Lemma walk_sound fuel : forall (seen : gset Z) (buf : gmap Z (list byte)) a,
  (forall i d, buf !! i = Some d -> 0 <= i < n /\ i ∈ seen) ->
  0 <= a < n -> (forall i, 1 <= i <= a -> i ∈ seen) ->
  0 <= walk fuel buf a < n /\ forall i, 1 <= i <= walk fuel buf a -> i ∈ seen.
Proof.
  induction fuel as [|fuel IH]; intros seen buf a Hbuf Ha Hs; [done|]. cbn [walk].
  destruct (buf !! succ a) as [d|] eqn:E; [|done].
  rewrite succ_small in * by (unfold udpMaxSeq; lia).
  destruct (Hbuf _ _ E) as [Hr Hin]. apply IH; [done | lia |].
  intros i Hi. destruct (decide (i = a + 1)) as [->|]; [done | apply Hs; lia].
Qed.

(** The acknowledgements among the datagrams sent cover received frames
    only, frame 0 apart. *)
Definition acks_ok (seen : gset Z) (out : list (list byte)) : Prop :=
  Forall (fun d => exists a, d = sendAck a /\ forall i, 1 <= i <= a -> i ∈ seen) out.

Lemma count_ack_spec sc sc' out :
  count_ack sc = (sc', out) ->
  (sc' = set_ackCount (ackCount sc') sc) /\ (out = [] \/ out = [sendAck (ackPending sc)]).
Proof.
  unfold count_ack. destruct (2 <=? _); intros [= <- <-]; destruct sc; cbn; auto.
Qed.

(** Keeping a frame the receiver still needs. *)
Lemma keep_frame_inv seen out sc i :
  rx_inv seen out sc -> 0 <= i < n ->
  rx_inv ({[i]} ∪ seen) out
    (if negb (seqBefore i (recvNext sc)) && bool_decide (recvBuf sc !! i = None)
     then set_recvBuf (<[i := payload i]> (recvBuf sc)) sc else sc).
Proof.
  intros [Hnx Ho Hbuf Hheld Hseen [Ha Hack] He] Hi.
  assert (forall j, j ∈ {[i]} ∪ seen -> j = i \/ j ∈ seen) as Hcase.
  { intros j [Hj%elem_of_singleton|Hj]%elem_of_union; auto. }
  assert (forall j, j = i \/ j ∈ seen -> j ∈ {[i]} ∪ seen) as Hin.
  { intros j [->|Hj]; apply elem_of_union; [left; by apply elem_of_singleton | by right]. }
  assert (forall j, j ∈ {[i]} ∪ seen -> 0 <= j < n) as Hseen'.
  { intros j [->|Hj]%Hcase; auto. }
  rewrite seqBefore_near by (unfold udpMaxSeq; lia).
  destruct (Z.ltb_spec i (recvNext sc)) as [Hold|Hnew]; cbn [negb andb].
  - constructor; auto.
    + intros j d Hj. destruct (Hbuf j d Hj) as (? & ? & ?). auto.
    + intros j [->|Hj]%Hcase Hle; [lia | auto].
  - destruct (bool_decide _) eqn:E; to_prop; constructor; cbn; auto.
    + intros j d [[<- <-]|[_ Hj]]%lookup_insert_Some; [auto|].
      destruct (Hbuf j d Hj) as (? & ? & ?). auto.
    + intros j Hj Hle. destruct (decide (i = j)) as [->|]; [by rewrite lookup_insert_eq|].
      rewrite lookup_insert_ne by done. apply Hcase in Hj as [->|Hj]; [done | auto].
    + intros j d Hj. destruct (Hbuf j d Hj) as (? & ? & ?). auto.
    + intros j [->|Hj]%Hcase Hle; [by apply not_eq_None_Some | auto].
Qed.

(** Moving the acknowledgement boundary to an adjacent frame. *)
Lemma adjacent_ack seen out sc i :
  rx_inv ({[i]} ∪ seen) out sc -> 0 <= i < n ->
  let a := if ((i =? ackPending sc) || (i =? succ (ackPending sc))) && seqBefore (ackPending sc) i
           then i else ackPending sc in
  0 <= a < n /\ forall j, 1 <= j <= a -> j ∈ {[i]} ∪ seen.
Proof.
  intros Hinv Hi a. destruct (rx_ack _ _ _ Hinv) as [Hb Hs]. subst a.
  destruct (((i =? _) || _) && _) eqn:E; [|done]. split; [done|]. intros j Hj.
  destruct (decide (j = i)) as [->|].
  { apply elem_of_union. left. by apply elem_of_singleton. }
  apply Hs.
  apply andb_true_iff in E as [E1 _]. rewrite succ_small in E1 by (unfold udpMaxSeq; lia).
  apply orb_true_iff in E1 as [E1|E1]; to_prop; lia.
Qed.

Lemma handle_data_inv seen out sc i sc' dg :
  rx_inv seen out sc -> 0 <= i < n -> handle_data i (payload i) sc = (sc', dg) ->
  rx_inv ({[i]} ∪ seen) out sc' /\ acks_ok ({[i]} ∪ seen) dg.
Proof.
  intros Hinv Hi. unfold handle_data.
  pose proof (keep_frame_inv _ _ _ _ Hinv Hi) as Hinv1.
  set (sc1 := if _ && _ then _ else _) in *. clearbody sc1. clear Hinv.
  pose proof (adjacent_ack _ _ _ _ Hinv1 Hi) as [Ha Hsa].
  set (a := if _ && _ then i else _) in *. clearbody a.
  destruct (walk_sound (size (recvBuf sc1)) ({[i]} ∪ seen) (recvBuf sc1) a) as [Hw Hsw]; auto.
  { intros j d Hj. destruct (rx_buf _ _ _ Hinv1 j d Hj) as (? & ? & _). auto. }
  set (w := walk _ _ a) in *. clearbody w.
  destruct (count_ack _) as [sc2 dg2] eqn:Ec.
  apply count_ack_spec in Ec as [Hsc2 Hdg]. cbn [ackPending set_ackPending] in Hdg.
  intros Hres. assert (exists b, sc' = set_ackTimer b (signalReady sc2) /\ dg = dg2) as (b & -> & ->).
  { destruct Hdg as [-> | ->]; injection Hres as <- <-; [by exists true|].
    exists (ackTimer sc2). by destruct sc2. }
  rewrite Hsc2. split.
  - destruct Hinv1. constructor; cbn; auto.
  - unfold acks_ok. destruct Hdg as [-> | ->]; [constructor|]. repeat constructor. eauto.
Qed.

(** Consuming the frame at [recvNext]. *)
Lemma rx_advance seen out sc sc' d buf rb b :
  rx_inv seen out sc -> readBuf sc = [] -> recvBuf sc !! recvNext sc = Some d ->
  buf = recvBuf sc \/ buf = delete (recvNext sc) (recvBuf sc) -> d = b ++ rb ->
  sc' = signalReady (set_recvNext (succ (recvNext sc)) (set_readBuf rb (set_recvBuf buf sc))) ->
  rx_inv seen (out ++ b) sc'.
Proof.
  intros [Hnx Ho Hbuf Hheld Hseen Hack He] Hrb Hd Hb Hsplit ->.
  destruct (Hbuf _ _ Hd) as (Hr & _ & Hp).
  rewrite succ_small by (unfold udpMaxSeq; lia).
  constructor; cbn; auto; [lia| | |].
  - rewrite Hrb, app_nil_r in Ho. subst out.
    by rewrite stream_prefix_succ, <-Hp, Hsplit, app_assoc by lia.
  - destruct Hb as [-> | ->]; [done|]. intros i d' [_ Hi]%lookup_delete_Some. auto.
  - intros i Hi Hle. destruct Hb as [-> | ->]; [apply Hheld; [done | lia]|].
    rewrite lookup_delete_ne by lia. apply Hheld; [done | lia].
Qed.

Lemma read_pass_inv seen out sc m sc' r :
  rx_inv seen out sc -> 0 <= m -> read_pass m sc = (sc', r) ->
  rx_inv seen (out ++ match r with Bytes b => b | _ => [] end) sc'.
Proof.
  intros Hinv Hm. unfold read_pass.
  destruct (Z.ltb_spec 0 (len (readBuf sc))) as [Hpos|Hz].
  { intros [= <- <-]. destruct Hinv. constructor; cbn; auto.
    by rewrite <-app_assoc, take_drop. }
  assert (readBuf sc = []) as Hrb by (apply list_len_0; lia).
  rewrite (rx_err _ _ _ Hinv).
  destruct (recvBuf sc !! recvNext sc) as [[|x d]|] eqn:Ed; intros Hres.
  - injection Hres as <- <-. eapply (rx_advance seen out sc _ [] _ [] []); eauto.
    destruct sc; cbn in *; by subst.
  - destruct (Z.ltb_spec m (len (x :: d))) as [Hlt|Hge]; injection Hres as <- <-.
    + eapply (rx_advance seen out sc _ (x :: d) (recvBuf sc)); eauto; try by rewrite take_drop.
    + eapply (rx_advance seen out sc _ (x :: d) _ []); eauto.
      * rewrite app_nil_r, take_ge; [done | lia].
      * destruct sc; cbn in *; by subst.
  - injection Hres as <- <-. by rewrite app_nil_r.
Qed.

Lemma Read_inv rounds : forall picks m seen out sc sc' r,
  rx_inv seen out sc -> 0 <= m -> Read rounds picks m sc = (sc', r) ->
  rx_inv seen (out ++ match r with Some (Ok b) => b | _ => [] end) sc'.
Proof.
  induction rounds as [|rounds IH]; intros picks m seen out sc sc' r Hinv Hm HR; cbn [Read] in HR.
  { injection HR as <- <-. by rewrite app_nil_r. }
  destruct (read_pass m sc) as [sc1 p] eqn:Ep.
  pose proof (read_pass_inv _ _ _ _ _ _ Hinv Hm Ep) as Hinv1.
  destruct p as [b|e| |]; rewrite ?app_nil_r in Hinv1.
  - by injection HR as <- <-.
  - injection HR as <- <-. by rewrite app_nil_r.
  - eauto.
  - destruct (read_wait sc1 !! _) as [[sc2 [e|]]|] eqn:Ew.
    + injection HR as <- <-. rewrite app_nil_r. apply list_elem_of_lookup_2 in Ew.
      unfold read_wait in Ew. destruct (recvReady sc1), (done sc1), (finRecv sc1); cbn in Ew;
        repeat (apply elem_of_cons in Ew as [[=]|Ew]; subst; try done);
        by apply not_elem_of_nil in Ew.
    + eapply IH; [|exact Hm|exact HR]. apply list_elem_of_lookup_2 in Ew.
      assert (sc2 = set_recvReady false sc1) as ->.
      { unfold read_wait in Ew. destruct (recvReady sc1), (done sc1), (finRecv sc1); cbn in Ew;
          repeat (apply elem_of_cons in Ew as [[=]|Ew]; subst; try done);
          by apply not_elem_of_nil in Ew. }
      destruct Hinv1. by constructor.
    + injection HR as <- <-. by rewrite app_nil_r.
Qed.

Lemma handlePacket_control seen out sc ftype ack now sc' dg :
  rx_inv seen out sc -> ftype = udpFrameTypeAck \/ ftype = udpFrameTypeFin ->
  handlePacket now (datagram ftype 0 ack 0 []) sc = (sc', dg) ->
  rx_inv seen out sc' /\ dg = [].
Proof.
  intros Hinv Hf. unfold handlePacket, datagram, udpFrameHeaderLen.
  rewrite (proj2 (Z.ltb_ge _ _)) by len_lia.
  assert (be_Z (slice ([byte_of_Z ftype] ++ be_bytes 4 0 ++ be_bytes 4 ack
    ++ be_bytes 2 0 ++ []) 0 1) = ftype) as ->.
  { slice_norm. rewrite be_Z_singleton. destruct Hf as [-> | ->]; reflexivity. }
  destruct Hf as [-> | ->]; cbn [Z.eqb Pos.eqb udpFrameTypeAck udpFrameTypeFin
    udpFrameTypeRawData udpFrameTypeData]; intros [= <- <-].
  - split; [|done]. destruct (_ <? ackCap); destruct Hinv; by constructor.
  - split; [|done]. destruct Hinv. by constructor.
Qed.

Context (Hsize : Forall (fun p => len p < 2 ^ 16) payloads).

Lemma payload_size i : 0 <= i < n -> len (payload i) < 2 ^ 16.
Proof.
  intros Hi. rewrite Forall_lookup in Hsize. apply (Hsize (Z.to_nat i)). by apply payload_lookup.
Qed.

Lemma acks_ok_mono (seen seen' : gset Z) dg : seen ⊆ seen' -> acks_ok seen dg -> acks_ok seen' dg.
Proof.
  intros Hsub H. eapply Forall_impl; [exact H|]. intros d (a & -> & Ha). exists a. split; [done|].
  intros i Hi. by apply Hsub, Ha.
Qed.

Definition arrived_of (e : rx_event) : gset Z :=
  match e with Arrive i _ _ => {[i]} | _ => ∅ end.

Lemma rx_step_inv seen out sc e sc' b dg :
  rx_inv seen out sc -> valid_event e -> rx_step sc e = (sc', b, dg) ->
  rx_inv (arrived_of e ∪ seen) (out ++ b) sc' /\ acks_ok (arrived_of e ∪ seen) dg.
Proof.
  intros Hinv Hv Hst. destruct e as [i base now| |ftype ack now|rounds picks m];
    cbn [rx_step valid_event arrived_of] in *.
  - destruct Hv as [Hi Hb].
    rewrite handlePacket_data in Hst by (auto using payload_size; lia).
    destruct (handle_data _ _ _) as [sc1 out1] eqn:E. injection Hst as <- <- <-.
    rewrite app_nil_r. eapply handle_data_inv; [|done|exact E]. destruct Hinv. by constructor.
  - unfold ack_timer_fires in Hst. rewrite union_empty_l_L. pose proof (rx_ack _ _ _ Hinv) as [_ Ha].
    destruct (done sc); injection Hst as <- <- <-; rewrite app_nil_r;
      (split; [destruct Hinv; by constructor|]); repeat constructor. eauto.
  - destruct (handlePacket _ _ _) as [sc1 out1] eqn:E. injection Hst as <- <- <-.
    rewrite union_empty_l_L, app_nil_r.
    apply (handlePacket_control seen out) in E as [? ->]; [|done|apply Hv]. by split; [|constructor].
  - rewrite union_empty_l_L. destruct (Read rounds picks m sc) as [sc1 r] eqn:E.
    apply (Read_inv _ _ _ seen out) in E; [|done..].
    destruct r as [[b'|e]|]; injection Hst as <- <- <-; split; try done; constructor.
Qed.

Lemma rx_run_inv evs : forall seen out sc sc' b dg,
  rx_inv seen out sc -> Forall valid_event evs -> rx_run sc evs = (sc', b, dg) ->
  rx_inv (list_to_set (arrivals evs) ∪ seen) (out ++ b) sc' /\
  acks_ok (list_to_set (arrivals evs) ∪ seen) dg.
Proof.
  induction evs as [|e evs IH]; intros seen out sc sc' b dg Hinv Hv Hr.
  { injection Hr as <- <- <-. cbn [arrivals omap list_omap list_to_set].
    rewrite union_empty_l_L, app_nil_r. by split; [|constructor]. }
  inversion Hv as [|? ? Hve Hvs]; subst. cbn [rx_run] in Hr.
  destruct (rx_step sc e) as [[sc1 b1] o1] eqn:Es.
  destruct (rx_run sc1 evs) as [[sc2 b2] o2] eqn:Er. injection Hr as <- <- <-.
  destruct (rx_step_inv _ _ _ _ _ _ _ Hinv Hve Es) as [Hinv1 Ha1].
  destruct (IH _ _ _ _ _ _ Hinv1 Hvs Er) as [Hinv2 Ha2].
  assert (list_to_set (arrivals evs) ∪ (arrived_of e ∪ seen) =
          list_to_set (arrivals (e :: evs)) ∪ seen) as Hset.
  { unfold arrivals. destruct e; cbn; apply leibniz_equiv; set_solver +. }
  rewrite Hset in *. rewrite app_assoc. split; [done|].
  apply Forall_app. split; [|done]. eapply acks_ok_mono; [|exact Ha1].
  rewrite <-Hset. apply union_subseteq_r.
Qed.

Lemma new_rx_inv : rx_inv ∅ [] newUDPStreamConn.
Proof.
  constructor; cbn; try done; try lia; try set_solver +. split; [lia|]. intros i Hi. lia.
Qed.

Lemma Read_progress rounds : forall picks m seen out sc,
  rx_inv seen out sc -> (forall i, 0 <= i < n -> i ∈ seen) -> 0 < m ->
  out <> mjoin payloads -> n - recvNext sc < Z.of_nat rounds ->
  exists sc' b, Read rounds picks m sc = (sc', Some (Ok b)) /\ b <> [].
Proof.
  induction rounds as [|rounds IH]; intros picks m seen out sc Hinv Hall Hm Hne Hk.
  { pose proof (rx_next _ _ _ Hinv). lia. }
  assert (forall l : list byte, 0 < len l -> take (Z.to_nat m) l <> []) as Htake.
  { intros [|x l] Hl; [cbn in Hl; lia|]. destruct (Z.to_nat m) eqn:E; [lia | done]. }
  cbn [Read]. destruct (read_pass m sc) as [sc1 r] eqn:Ep.
  pose proof (read_pass_inv _ _ _ _ _ _ Hinv (Z.lt_le_incl _ _ Hm) Ep) as Hinv1.
  unfold read_pass in Ep.
  destruct (Z.ltb_spec 0 (len (readBuf sc))) as [Hpos|Hz].
  { injection Ep as <- <-. eauto. }
  assert (readBuf sc = []) as Hrb by (apply list_len_0; lia).
  rewrite (rx_err _ _ _ Hinv) in Ep. destruct Hinv as [Hnx Ho Hbuf Hheld Hseen Hack He].
  rewrite Hrb, app_nil_r in Ho.
  destruct (decide (recvNext sc = n)) as [Heq|Hlt].
  { exfalso. apply Hne. rewrite Ho, Heq. unfold stream_prefix. by rewrite take_ge by lia. }
  destruct (Hheld (recvNext sc)) as [d Hd]; [apply Hall; lia | lia |].
  rewrite Hd in Ep. destruct d as [|x d]; injection Ep as <- <-.
  - rewrite app_nil_r in Hinv1. apply (IH picks m seen out); auto. cbn.
    rewrite succ_small by (unfold udpMaxSeq; lia). lia.
  - do 2 eexists. split; [done|]. apply Htake. cbn. lia.
Qed.
End Receiver.

(** C5. Ordered, loss- and duplication-free delivery: whatever frames of the
    stream arrive, in any order and any number of times, interleaved with
    reads of any sizes, timers and control datagrams, the bytes returned to
    the application are always a prefix of the sent stream (precisely: with
    what is still buffered they are the first [recvNext] frames); and once
    every frame has arrived, a read of positive size returns further bytes
    until the whole stream was returned. *)
Theorem udp_in_order_delivery payloads evs sc out dg :
  0 < len payloads < 2 ^ 29 -> Forall (fun p => len p < 2 ^ 16) payloads ->
  Forall (valid_event payloads) evs ->
  rx_run payloads newUDPStreamConn evs = (sc, out, dg) ->
  out ++ readBuf sc = stream_prefix payloads (recvNext sc) /\
  ((forall i, 0 <= i < len payloads -> i ∈ arrivals evs) -> out <> mjoin payloads ->
   forall rounds picks m, 0 < m -> len payloads < Z.of_nat rounds ->
   exists sc' b, Read rounds picks m sc = (sc', Some (Ok b)) /\ b <> []).
Proof.
  intros Hn Hsz Hv Hr.
  destruct (rx_run_inv payloads Hn Hsz evs ∅ [] _ _ _ _ (new_rx_inv payloads Hn) Hv Hr) as [Hinv _].
  rewrite app_nil_l in Hinv. split; [apply Hinv|].
  intros Hall Hne rounds picks m Hm Hk.
  eapply (Read_progress payloads Hn); [exact Hinv | | done | done |].
  - intros i Hi. apply elem_of_union. left. by apply elem_of_list_to_set, Hall.
  - pose proof (rx_next _ _ _ _ Hinv). lia.
Qed.

Definition hello_events : list rx_event :=
  [Arrive 1 0 5; AppRead 3 [] 2; Arrive 0 0 6; Arrive 0 0 7; AppRead 3 [] 2; AppRead 3 [] 9;
   TimerFires; Control udpFrameTypeFin 0 8].

Lemma hello_valid : Forall (valid_event [[x68; x65; x6c]; [x6c; x6f]]) hello_events.
Proof.
  repeat (apply Forall_cons_2; [cbn; repeat split; solve [by right | lia]|]). apply Forall_nil_2.
Qed.

Lemma udp_in_order_delivery_witness :
  (rx_run [[x68; x65; x6c]; [x6c; x6f]] newUDPStreamConn hello_events).1.2 = [x68; x65; x6c] /\
  forall rounds picks m, 0 < m -> 2 < Z.of_nat rounds ->
  exists sc' b, Read rounds picks m
    (rx_run [[x68; x65; x6c]; [x6c; x6f]] newUDPStreamConn hello_events).1.1
    = (sc', Some (Ok b)) /\ b <> [].
Proof.
  destruct (rx_run [[x68; x65; x6c]; [x6c; x6f]] newUDPStreamConn hello_events)
    as [[sc out] dg] eqn:E. cbn [fst snd].
  assert (out = [x68; x65; x6c]) as Hout by (vm_compute in E; by injection E as _ <- _).
  split; [done|]. apply (udp_in_order_delivery [[x68; x65; x6c]; [x6c; x6f]] hello_events sc out dg).
  - cbn. lia.
  - repeat constructor.
  - apply hello_valid.
  - exact E.
  - intros i Hi. cbn in Hi. cbn. rewrite !elem_of_cons. lia.
  - by rewrite Hout.
Defined.

(** Acknowledgements are honest about every frame but the first: each
    ACK datagram the receiver sends, at any point of any history, carries a
    sequence number up to which every frame from 1 on has arrived. (Frame 0
    is not covered: [ackPending] starts at 0, so that it counts as
    acknowledged from the start.) *)
Theorem udp_acks_sound payloads evs sc out dg d :
  0 < len payloads < 2 ^ 29 -> Forall (fun p => len p < 2 ^ 16) payloads ->
  Forall (valid_event payloads) evs ->
  rx_run payloads newUDPStreamConn evs = (sc, out, dg) -> d ∈ dg ->
  exists a, d = sendAck a /\ forall i, 1 <= i <= a -> i ∈ arrivals evs.
Proof.
  intros Hn Hsz Hv Hr Hd.
  destruct (rx_run_inv payloads Hn Hsz evs ∅ [] _ _ _ _ (new_rx_inv payloads Hn) Hv Hr) as [_ Ha].
  unfold acks_ok in Ha. rewrite Forall_forall in Ha. destruct (Ha d Hd) as (a & -> & Hin).
  exists a. split; [done|]. intros i Hi. specialize (Hin i Hi).
  rewrite union_empty_r_L in Hin. by apply elem_of_list_to_set in Hin.
Qed.

Lemma udp_acks_sound_witness :
  exists a, sendAck 1 = sendAck a /\ forall i, 1 <= i <= a -> i ∈ arrivals hello_events.
Proof.
  destruct (rx_run [[x68; x65; x6c]; [x6c; x6f]] newUDPStreamConn hello_events)
    as [[sc out] dg] eqn:E.
  apply (udp_acks_sound [[x68; x65; x6c]; [x6c; x6f]] hello_events sc out dg (sendAck 1)).
  - cbn. lia.
  - repeat constructor.
  - apply hello_valid.
  - exact E.
  - vm_compute in E. injection E as _ _ <-. vm_compute. left.
Defined.

(** ** The sender *)

(** The settings of the sender are in range. *)
Record tx_ok (sc : udpStreamConn) : Prop := {
  tx_payload : payloadSize sc = udpMaxPayload \/ payloadSize sc = udpPayloadLarge;
  tx_next : 0 <= nextSeq sc < udpMaxSeq
}.

(** Waiting leaves the next sequence number alone, keeps the settings in
    range and never adds a frame to the window. *)
Definition waits (sc sc' : udpStreamConn) : Prop :=
  nextSeq sc' = nextSeq sc /\ (tx_ok sc -> tx_ok sc') /\ window sc' <= window sc.

Lemma waits_refl sc : waits sc sc.
Proof. by unfold waits. Qed.

Lemma waits_trans a b c : waits a b -> waits b c -> waits a c.
Proof. intros (E1 & O1 & W1) (E2 & O2 & W2). split_and!; [congruence | auto | lia]. Qed.

Lemma sampleRTT_frame rtt sc :
  let sc' := sampleRTT rtt sc in
  nextSeq sc' = nextSeq sc /\ payloadSize sc' = payloadSize sc /\ inflight sc' = inflight sc.
Proof. unfold sampleRTT. by destruct (rtt <=? 0). Qed.

Lemma ackLocked_inflight ack now sc :
  inflight (ackLocked ack now sc) =
  filter (fun '(seq, _) => seqBefore ack seq = true) (inflight sc).
Proof.
  unfold ackLocked. destruct (newest _).
  - rewrite (proj2 (proj2 (sampleRTT_frame _ _))). by destruct (negb _), (_ && _).
  - by destruct (negb _), (_ && _).
Qed.

Lemma ackLocked_waits ack now sc : waits sc (ackLocked ack now sc).
Proof.
  assert (nextSeq (ackLocked ack now sc) = nextSeq sc /\
          (payloadSize (ackLocked ack now sc) = payloadSize sc \/
           payloadSize (ackLocked ack now sc) = udpPayloadLarge)) as [Hn Hp].
  { unfold ackLocked. destruct (newest _) as [t|];
      [match goal with |- context [sampleRTT ?r ?s] =>
         destruct (sampleRTT_frame r s) as (-> & -> & _) end|];
      destruct (negb _), (_ && _); cbn; auto. }
  split_and!; [done| |].
  - intros [H1 H2]. constructor; [|by rewrite Hn]. destruct Hp as [-> | ->]; auto.
  - unfold window. rewrite ackLocked_inflight.
    assert (size (filter (fun '(seq, _) => seqBefore ack seq = true) (inflight sc))
            <= size (inflight sc))%nat; [|lia].
    apply map_subseteq_size, map_filter_subseteq.
Qed.

Lemma retransmit_waits order : forall now sc sc' out ok,
  retransmit order now sc = (sc', out, ok) -> waits sc sc'.
Proof.
  induction order as [|seq order IH]; intros now sc sc' out ok Hr; cbn [retransmit] in Hr.
  { injection Hr as <- _ _. apply waits_refl. }
  destruct (inflight sc !! seq) as [f|] eqn:E; [|eauto].
  destruct (rtoNs sc <=? _); [|eauto].
  destruct (_ && _). { injection Hr as <- _ _. apply waits_refl. }
  destruct (retransmit order now _) as [[sc1 out1] ok1] eqn:E1. injection Hr as <- _ _.
  eapply waits_trans; [|eapply IH; exact E1]. split_and!; [done| |].
  - intros []. by constructor.
  - unfold window. cbn. rewrite map_size_insert_Some by by eexists. done.
Qed.

Lemma wait_window_waits evs : forall sc sc' out r evs',
  wait_window evs sc = (sc', out, r, evs') ->
  waits sc sc' /\ (r = Drained -> window sc' < udpWindowSize) /\
  (forall d, New d ∉ out).
Proof.
  induction evs as [|ev evs IH]; intros sc sc' out r evs' Hw; cbn [wait_window] in Hw;
    (destruct (Z.ltb_spec (window sc) udpWindowSize) as [Hlt|Hge];
     [injection Hw as <- <- <- <-; split_and!; [apply waits_refl | done | set_solver +]|]).
  { injection Hw as <- <- <- <-. split_and!; [apply waits_refl | done | set_solver +]. }
  destruct ev as [ack now| |now order|];
    try (injection Hw as <- <- <- <-; split_and!; [apply waits_refl | done | set_solver +]).
  - destruct (IH _ _ _ _ _ Hw) as (H1 & H2 & H3). split_and!; [|done..].
    eapply waits_trans; [apply ackLocked_waits | exact H1].
  - destruct (retransmit order now sc) as [[sc1 out1] ok] eqn:Er. apply retransmit_waits in Er.
    assert (forall d, New d ∉ Resent <$> out1) as Hnew.
    { intros d (x & ? & _)%list_elem_of_fmap. done. }
    destruct ok.
    + destruct (wait_window evs sc1) as [[[sc2 out2] r2] evs2] eqn:Ew. injection Hw as <- <- <- <-.
      destruct (IH _ _ _ _ _ Ew) as (H1 & H2 & H3). split_and!; [by eapply waits_trans | done |].
      intros d [Hd|Hd]%elem_of_app; [by eapply Hnew | by eapply H3].
    + injection Hw as <- <- <- <-. split_and!; [done | done | apply Hnew].
Qed.

Definition news (out : list sent) : list (list byte) :=
  omap (fun x => match x with New d => Some d | Resent _ => None end) out.

Lemma news_none out : (forall d, New d ∉ out) -> news out = [].
Proof.
  induction out as [|[d|d] out IH]; intros H; [done| |].
  - exfalso. apply (H d). set_solver +.
  - cbn. apply IH. intros d' Hd. apply (H d'). set_solver.
Qed.

Lemma news_app a b : news (a ++ b) = news a ++ news b.
Proof. apply omap_app. Qed.

Lemma chunk_size_spec now sc n :
  tx_ok sc -> let '(size, probe) := chunk_size now sc n in
  0 < size <= udpPayloadLarge /\ (n < udpPayloadLarge -> size = udpMaxPayload).
Proof.
  intros [Hp _]. unfold chunk_size. destruct (Z.ltb_spec n udpPayloadLarge).
  - rewrite (proj2 (Z.leb_gt _ _)) by done. rewrite andb_false_r. cbn.
    unfold udpMaxPayload, udpPayloadLarge. lia.
  - destruct (_ && _); cbn; [unfold udpPayloadLarge in *; lia|].
    destruct Hp as [-> | ->]; unfold udpMaxPayload, udpPayloadLarge in *; lia.
Qed.

Lemma write_one_spec now sc p sc' frame rest :
  tx_ok sc -> p <> [] -> write_one now sc p = (sc', frame, rest) ->
  exists chunk base,
    frame = data_frame (nextSeq sc) base chunk /\ p = chunk ++ rest /\
    0 < len chunk <= udpPayloadLarge /\ (len p < udpPayloadLarge -> len chunk <= udpMaxPayload) /\
    nextSeq sc' = succ (nextSeq sc) /\ tx_ok sc' /\ window sc' <= window sc + 1.
Proof.
  intros Hok Hp. unfold write_one. pose proof (chunk_size_spec now sc (len p) Hok) as Hcs.
  destruct (chunk_size now sc (len p)) as [size probe]. destruct Hcs as [Hsz Hsmall].
  set (sc1 := if probe then _ else sc).
  assert (nextSeq sc1 = nextSeq sc /\ tx_ok sc1 /\ inflight sc1 = inflight sc) as (Hn & Hok1 & Hi).
  { subst sc1. destruct probe; [|done]. split_and!; [done| |done]. destruct Hok. by constructor. }
  clearbody sc1. set (chunk := if size <? len p then _ else _).
  assert (p = chunk ++ drop (length chunk) p /\ 0 < len chunk <= size) as [Hsplit Hlen].
  { subst chunk. destruct (Z.ltb_spec size (len p)).
    - rewrite length_take, Nat.min_l by lia. rewrite take_drop. split; [done | lia].
    - rewrite drop_all, app_nil_r. split; [done|]. destruct p; [done | cbn in *; lia]. }
  clearbody chunk. intros [= <- <- <-]. exists chunk, (baseSeq sc1). rewrite Hn.
  split_and!; auto; try lia.
  - destruct Hok1. constructor; cbn; [done|]. unfold succ. apply Z.mod_pos_bound.
    unfold udpMaxSeq. lia.
  - unfold window. cbn [inflight set_inflight set_nextSeq]. rewrite Hi, map_size_insert.
    destruct (inflight sc !! _); cbn; lia.
Qed.

(** Frames that carry the chunks, numbered from [seq]. *)
Definition carries (seq : Z) (frames chunks : list (list byte)) : Prop :=
  length frames = length chunks /\
  forall k c, chunks !! k = Some c ->
    exists base, frames !! k = Some (data_frame ((seq + Z.of_nat k) mod udpMaxSeq) base c).

Lemma carries_cons seq frame base c frames chunks :
  0 <= seq < udpMaxSeq -> frame = data_frame seq base c ->
  carries (succ seq) frames chunks -> carries seq (frame :: frames) (c :: chunks).
Proof.
  intros Hs -> [Hl Hc]. split; [cbn; lia|]. intros [|k] c' Hk; cbn in Hk.
  - injection Hk as <-. exists base. cbn. by rewrite Z.add_0_r, Z.mod_small.
  - destruct (Hc k c' Hk) as [b Hb]. exists b. rewrite lookup_cons, Hb. do 2 f_equal.
    unfold succ. rewrite Zplus_mod_idemp_l. f_equal. lia.
Qed.

Definition written (r : write_result) : Z :=
  match r with Wrote n _ | WriteBlocked n | WriteDeadlock n => n end.

(** What a call that wrote [q] so far, [total] bytes before it, has done. *)
Definition write_ok (sc : udpStreamConn) (total : Z) (q : list byte)
    (sc' : udpStreamConn) (out : list sent) (r : write_result) : Prop :=
  exists chunks rest,
    carries (nextSeq sc) (news out) chunks /\ q = mjoin chunks ++ rest /\
    written r = total + len (mjoin chunks) /\
    Forall (fun c => 0 < len c <= udpPayloadLarge) chunks /\
    (len q < udpPayloadLarge -> Forall (fun c => len c <= udpMaxPayload) chunks) /\
    window sc' <= udpWindowSize /\ tx_ok sc' /\
    (forall n, r = Wrote n None -> rest = [] /\ window sc' < udpWindowSize).

Lemma write_ok_cons sc sc1 total frame base chunk rest out sc' out' r :
  tx_ok sc -> frame = data_frame (nextSeq sc) base chunk ->
  0 < len chunk <= udpPayloadLarge ->
  (len (chunk ++ rest) < udpPayloadLarge -> len chunk <= udpMaxPayload) ->
  nextSeq sc1 = succ (nextSeq sc) -> news out = [] ->
  write_ok sc1 (total + len chunk) rest sc' out' r ->
  write_ok sc total (chunk ++ rest) sc' (New frame :: out ++ out') r.
Proof.
  intros Hok Hfr Hlen Hsm Hnext Hnone (chunks & rest' & Hcar & Hp & Hwr & Hall & Hsmall & Hwin & Hok' & Hend).
  exists (chunk :: chunks), rest'.
  cbn [news omap list_omap]. fold (news (out ++ out')). rewrite news_app, Hnone, app_nil_l.
  change (mjoin (chunk :: chunks)) with (chunk ++ mjoin chunks). split_and!; auto.
  - eapply carries_cons; [apply Hok | exact Hfr|]. by rewrite <-Hnext.
  - by rewrite Hp, app_assoc.
  - rewrite Hwr, length_app. lia.
  - intros Hs. constructor; [auto|]. apply Hsmall. rewrite length_app in Hs. lia.
Qed.

(** Nothing more is written. *)
Lemma write_ok_stop sc total p r :
  tx_ok sc -> window sc <= udpWindowSize -> written r = total ->
  (forall n, r = Wrote n None -> p = [] /\ window sc < udpWindowSize) ->
  write_ok sc total p sc [] r.
Proof.
  intros Hok Hw Hr Hend. exists [], p. split_and!; auto; try (cbn; lia); by constructor.
Qed.

Lemma write_loop_spec fuel : forall clock evs sc total p sc' out r,
  tx_ok sc -> window sc < udpWindowSize -> (length p <= fuel)%nat ->
  write_loop fuel clock evs sc total p = (sc', out, r) -> write_ok sc total p sc' out r.
Proof.
  induction fuel as [|fuel IH]; intros clock evs sc total [|x p] sc' out r Hok Hw Hf Hwl;
    cbn [write_loop] in Hwl; try (cbn in Hf; lia).
  1,2: injection Hwl as <- <- <-; apply write_ok_stop; auto; lia.
  set (q := x :: p) in *.
  destruct (write_one _ sc q) as [[sc1 frame] rest1] eqn:E1.
  apply write_one_spec in E1 as (chunk & base & Hfr & Hq & Hlen & Hsm & Hnext & Hok1 & Hw1); [|done..].
  destruct (wait_window evs sc1) as [[[sc2 out2] r2] evs2] eqn:Ew.
  destruct (wait_window_waits _ _ _ _ _ _ Ew) as ((Hn2 & Hok2 & Hw2) & Hdr & Hnone%news_none).
  specialize (Hok2 Hok1). rewrite Hq in *. rewrite length_app in Hwl, Hf.
  replace (total + _) with (total + len chunk) in Hwl by lia.
  assert (forall out' r', write_ok sc2 (total + len chunk) rest1 sc' out' r' ->
    write_ok sc total (chunk ++ rest1) sc' (New frame :: out2 ++ out') r') as Hcons.
  { intros. eapply (write_ok_cons sc sc2); eauto. congruence. }
  assert (forall r', sc' = sc2 -> written r' = total + len chunk -> (forall n, r' <> Wrote n None) ->
    write_ok sc total (chunk ++ rest1) sc' (New frame :: out2) r') as Hstop.
  { intros r' -> Hr' Hne. rewrite <-(app_nil_r out2). apply Hcons, write_ok_stop; auto; [lia|].
    intros n Hn. by apply Hne in Hn. }
  destruct r2 as [|e| |]; [|by injection Hwl as <- <- <-; apply Hstop..].
  destruct (write_loop fuel (tail clock) evs2 sc2 _ rest1) as [[sc3 out3] r3] eqn:E3.
  injection Hwl as <- <- <-. eapply IH in E3; auto. lia.
Qed.

(** [Write] frames the data faithfully and respects the window: the new
    datagrams it sends carry consecutive sequence numbers (modulo 2^30) and
    exactly the first [n] bytes of the buffer, [n] being the number it
    reports, in non-empty frames of at most 1200 bytes, and of at most 40
    bytes when the buffer cannot fill a large one; starting below the window
    size, it never leaves more than 128 frames in flight, and a successful
    call has sent everything and left room in the window. *)
Theorem udp_Write_frames clock evs sc p sc' out r :
  tx_ok sc -> window sc < udpWindowSize -> closed sc = false ->
  Write clock evs sc p = (sc', out, r) ->
  exists chunks,
    carries (nextSeq sc) (news out) chunks /\
    mjoin chunks = take (Z.to_nat (written r)) p /\ 0 <= written r <= len p /\
    Forall (fun c => 0 < len c <= udpPayloadLarge) chunks /\
    (len p < udpPayloadLarge -> Forall (fun c => len c <= udpMaxPayload) chunks) /\
    window sc' <= udpWindowSize /\ tx_ok sc' /\
    (forall n, r = Wrote n None -> n = len p /\ window sc' < udpWindowSize).
Proof.
  intros Hok Hw Hc. unfold Write. rewrite Hc. intros Hwl.
  apply write_loop_spec in Hwl as (chunks & rest & Hcar & Hp & Hwr & Hall & Hsm & Hwin & Hok' & Hend);
    [|done..].
  exists chunks. rewrite Hwr, Z.add_0_l. split_and!; auto; try lia.
  - rewrite Hp. symmetry. by apply take_len_app.
  - rewrite Hp, length_app. lia.
  - intros n ->. destruct (Hend n eq_refl) as [-> ?]. rewrite app_nil_r in Hp. split; [|done].
    cbn in Hwr. subst p. lia.
Qed.

Lemma udp_Write_frames_witness : exists sc' out r chunks,
  Write [1] [] newUDPStreamConn (replicate 100 x07) = (sc', out, r) /\
  r = Wrote 100 None /\ carries 0 (news out) chunks.
Proof.
  destruct (Write [1] [] newUDPStreamConn (replicate 100 x07)) as [[sc' out] r] eqn:E.
  destruct (udp_Write_frames [1] [] newUDPStreamConn (replicate 100 x07) sc' out r) as (chunks & H & _).
  - constructor; cbn; [by left | unfold udpMaxSeq; lia].
  - reflexivity.
  - reflexivity.
  - exact E.
  - exists sc', out, r, chunks. split_and!; [done| |exact H].
    vm_compute in E. by injection E as _ _ <-.
Defined.

(** The retransmission timeout stays within its bounds: from a fresh
    connection, any sequence of RTT samples leaves the timeout between 500 ms
    and 5 s, and a connection whose samples are all the same [rtt] keeps
    [srtt = rtt] exactly. *)
Theorem udp_rto_bounded samples rtt k :
  udpRTOMin <= rtoNs (foldr sampleRTT newUDPStreamConn samples) <= udpRTOMax /\
  (0 < rtt -> srttNs (foldr sampleRTT newUDPStreamConn (replicate (S k) rtt)) = rtt).
Proof.
  split.
  - induction samples as [|r samples IH]; cbn [foldr].
    { cbn. unfold udpRTOMin, udpRTOMax. lia. }
    set (sc := foldr _ _ _) in *. unfold sampleRTT. destruct (r <=? 0); [done|].
    cbn [rtoNs set_rtoNs]. set (rto := _ + _). clearbody rto.
    repeat case_goal; to_prop; unfold udpRTOMin, udpRTOMax in *; lia.
  - intros Hr. induction k as [|k IH].
    { cbn [foldr replicate]. unfold sampleRTT. by rewrite (proj2 (Z.leb_gt _ _)). }
    rewrite replicate_S. cbn [foldr]. set (sc := foldr _ _ _) in *.
    unfold sampleRTT. rewrite (proj2 (Z.leb_gt _ _)) by done. cbn [srttNs set_rtoNs set_rttvarNs set_srttNs].
    rewrite IH, (proj2 (Z.eqb_neq _ _)) by lia.
    replace (7 * rtt + rtt) with (rtt * 8) by lia. by rewrite Z.quot_mul.
Qed.

Lemma udp_rto_bounded_witness :
  srttNs (foldr sampleRTT newUDPStreamConn [257000000; 257000000; 257000000]) = 257000000.
Proof. apply (udp_rto_bounded [] 257000000 2). lia. Defined.

(** ** Executions that go wrong *)

(** A lost first frame is never repeated. Two frames are sent and frame 0 is
    lost; frame 1 is the successor of the initial acknowledgement boundary 0,
    so the receiver acknowledges sequence 1, and the sender drops both frames
    from its window. The sender has nothing left to retransmit, the receiver
    still waits for frame 0. *)
Theorem first_frame_lost :
  let p := replicate 41 x07 in
  let '(tx, out, res) := Write [0; 0] [] newUDPStreamConn p in
  match news out with
  | [_; f1] =>
      let '(rx, _) := handlePacket 1 f1 newUDPStreamConn in
      let '(rx, acks) := ack_timer_fires rx in
      res = Wrote 41 None /\ acks = [sendAck 1] /\
      inflight (ackLocked 1 2 tx) = ∅ /\ Read 2 [] 64 rx = (set_recvReady false rx, None)
  | _ => False
  end.
Proof. vm_compute. auto. Qed.

(** The lock [sendMu], as the goroutines of a connection use it. *)
Record Shared : Type := MkShared {
  sc : udpStreamConn; sendMu : bool; closing : bool; wire : list (list byte) }.

Definition lock : prog Shared unit :=
  act (fun s => if sendMu s then [] else [(MkShared (sc s) true (closing s) (wire s), tt)]).
Definition unlock : prog Shared unit :=
  act (fun s => [(MkShared (sc s) false (closing s) (wire s), tt)]).
Definition on_conn {A} (f : udpStreamConn -> udpStreamConn * list (list byte) * A) : prog Shared A :=
  act (fun s => let '(c, out, a) := f (sc s) in
                [(MkShared c (sendMu s) (closing s) (wire s ++ out), a)]).

(** [once.Do]: only the first caller runs the body. *)
Definition Close : prog Shared unit :=
  (first <- act (fun s => [(MkShared (sc s) (sendMu s) true (wire s), negb (closing s))]);;
   if first : bool then
     lock;;;
     seq <- on_conn (fun c => (set_closed true c, [], baseSeq c));;
     unlock;;;
     on_conn (fun c => (set_done true c, [datagram udpFrameTypeFin 0 seq 0 []], tt))
   else Ret tt)%prog.

Definition retransmitLocked (order : list Z) (now : Z) : prog Shared unit :=
  (ok <- on_conn (retransmit order now);; if ok : bool then Ret tt else Close)%prog.

(** One tick of [retransmitLoop]. *)
Definition retransmit_tick (order : list Z) (now : Z) : prog Shared unit :=
  (lock;;;
   idle <- on_conn (fun c => (c, [], bool_decide (inflight c = ∅)));;
   (if idle : bool then Ret tt else retransmitLocked order now);;;
   unlock)%prog.

(** [recvLoop] takes an acknowledgement from the queue. *)
Definition advanceBase (ack now : Z) : prog Shared unit :=
  (lock;;; on_conn (fun c => (ackLocked ack now c, [], tt));;; unlock)%prog.

(** When a path-MTU probe times out, [retransmitLocked] calls [Close] to fail
    fast; [Close] takes [sendMu], which the retransmission loop holds: the
    loop waits for itself, [done] is never closed and every later [Write],
    [Close] or acknowledgement waits as well. *)
Theorem probe_timeout_deadlock :
  let tx := (Write [0] [] newUDPStreamConn (replicate 1200 x07)).1.1 in
  exists c, run_schedule [(0, 0); (0, 0); (0, 0); (0, 0)]%nat
      (MkShared tx false false [], [retransmit_tick [0] udpRTOMin; advanceBase 0 udpRTOMin])
      = Some c /\
    stuck c /\ done (sc c.1) = false /\ sendMu c.1 = true.
Proof.
  intros tx.
  assert ((fun c => (stuckb c, done (sc c.1), sendMu c.1)) <$>
    run_schedule [(0, 0); (0, 0); (0, 0); (0, 0)]%nat
      (MkShared tx false false [], [retransmit_tick [0] udpRTOMin; advanceBase 0 udpRTOMin])
    = Some (true, false, true)) as Hobs by (vm_compute; reflexivity).
  destruct (run_schedule _ _) as [c|]; [|done]. exists c. cbn in Hobs.
  injection Hobs as Hs Hd Hm. by split_and!; [|apply stuckb_stuck|..].
Qed.

End Udp.
