(* ===== verification/GoNet.v ===== *)
(** * IP addresses as Go's net package has them

    The parts of package net the program uses: [IP] as a byte slice, its
    4-byte and 16-byte forms, its text, CIDR masks and subnets. *)
From stdpp Require Import prelude list strings.
From Stdlib Require Import Strings.Byte ZArith Lia.
From S2P Require Import Prelude GoBytes.
Local Open Scope Z_scope.

Abbreviation IP := (list byte).

Definition v4InV6Prefix : list byte := replicate 10 x00 ++ [xff; xff].

Definition To4 (ip : IP) : option IP :=
  if len ip =? 4 then Some ip
  else if (len ip =? 16) && bool_decide (take 12 ip = v4InV6Prefix) then Some (drop 12 ip)
  else None.

Definition To16 (ip : IP) : option IP :=
  if len ip =? 4 then Some (v4InV6Prefix ++ ip)
  else if len ip =? 16 then Some ip else None.

(** ** Text *)
Definition digit (d : Z) : string :=
  string_of_bytes [byte_of_Z (if d <? 10 then 48 + d else 87 + d)].

(** The digits of a number in a base, without leading zeros. *)
Fixpoint digits (fuel : nat) (base n : Z) : string :=
  match fuel with
  | O => ""
  | S fuel =>
      ((if (n <? base)%Z then "" else digits fuel base (n / base)%Z) +:+ digit (n mod base)%Z)%string
  end.

(** [%d] of an [int] *)
Definition itoa (n : Z) : string :=
  if n <? 0 then ("-" +:+ digits 20 10 (- n))%string else digits 20 10 n.

Definition byte_text (b : byte) : string := digits 3 10 (Z_of_byte b).

Definition dotted (p4 : IP) : string := String.concat "." (byte_text <$> p4).

(** The eight 16-bit groups of a 16-byte address. *)
Fixpoint groups (ip : IP) : list Z :=
  match ip with
  | a :: b :: ip => be_Z [a; b] :: groups ip
  | _ => []
  end.

(** The number of zero groups at the front. *)
Fixpoint zero_run (gs : list Z) : nat :=
  match gs with
  | 0 :: gs => S (zero_run gs)
  | _ => O
  end.

(** The first longest run of at least two zero groups: start and length. *)
Fixpoint longest_run (i : nat) (gs : list Z) (best : nat * nat) : nat * nat :=
  match gs with
  | [] => best
  | _ :: gs' =>
      let l := zero_run gs in
      longest_run (S i) gs' (if (2 <=? l)%nat && (best.2 <? l)%nat then (i, l) else best)
  end.

Definition hex16 (g : Z) : string := digits 4 16 g.

Definition v6_text (ip : IP) : string :=
  let gs := groups ip in
  let '(start, run) := longest_run 0 gs (0, 0)%nat in
  if (run =? 0)%nat then String.concat ":" (hex16 <$> gs)
  else (String.concat ":" (hex16 <$> take start gs) +:+ "::"
        +:+ String.concat ":" (hex16 <$> drop (start + run) gs))%string.

Definition ip_String (ip : IP) : string :=
  if len ip =? 0 then "<nil>"
  else if negb (len ip =? 4) && negb (len ip =? 16) then
    ("?" +:+ String.concat "" ((fun b => digit (Z_of_byte b / 16)%Z +:+ digit (Z_of_byte b mod 16)%Z)
                                 <$> ip))%string
  else match To4 ip with
       | Some p4 => dotted p4
       | None => v6_text ip
       end.

Example ip_String_v4 : ip_String [x0a; x0a; x00; xfe] = "10.10.0.254".
Proof. reflexivity. Qed.
Example ip_String_v6 :
  ip_String [x20; x01; x0d; xb8; x00; x00; x00; x00; x00; x00; x00; x00; x00; x00; x00; x01]
  = "2001:db8::1".
Proof. reflexivity. Qed.

(** [ip.Equal(x)] *)
Definition ip_Equal (a b : IP) : bool :=
  if len a =? len b then bool_decide (a = b)
  else if (len a =? 4) && (len b =? 16) then bool_decide (v4InV6Prefix ++ a = b)
  else if (len a =? 16) && (len b =? 4) then bool_decide (a = v4InV6Prefix ++ b)
  else false.

(** ** Subnets *)
Record IPNet : Type := MkIPNet { net_IP : IP; net_Mask : list byte }.

Definition CIDRMask (ones bits : Z) : list byte :=
  be_bytes (Z.to_nat (bits / 8)) (2 ^ bits - 2 ^ (bits - ones)).

(** [mask.Size()]: leading ones and total bits, 0 and 0 when not canonical. *)
Definition Mask_Size (mask : list byte) : Z * Z :=
  let bits := 8 * len mask in
  match find (fun n => bool_decide (mask = CIDRMask (Z.of_nat n) bits))
          (seq 0 (S (8 * length mask))) with
  | Some n => (Z.of_nat n, bits)
  | None => (0, 0)
  end.

Definition and_bytes (a m : list byte) : list byte :=
  zip_with (fun x y => byte_of_Z (Z.land (Z_of_byte x) (Z_of_byte y))) a m.

Definition networkNumberAndMask (n : IPNet) : option (IP * list byte) :=
  let ip := default (net_IP n) (To4 (net_IP n)) in
  if negb (len ip =? 4) && negb (len ip =? 16) then None else
  if len (net_Mask n) =? 4 then
    if len ip =? 4 then Some (ip, net_Mask n) else None
  else if len (net_Mask n) =? 16 then
    Some (ip, if len ip =? 4 then drop 12 (net_Mask n) else net_Mask n)
  else None.

Definition Contains (n : IPNet) (ip : IP) : bool :=
  match networkNumberAndMask n with
  | None => len (default ip (To4 ip)) =? 0
  | Some (nn, m) =>
      let ip := default ip (To4 ip) in
      (len ip =? len nn) && bool_decide (and_bytes nn m = and_bytes ip m)
  end.

(** A subnet as [net.ParseCIDR] returns it: a canonical mask of one to
    [bits] ones, and the network address with no host bit set. *)
Record net_wf (n : IPNet) (hostBits bits : Z) : Prop := {
  nw_bits : bits = 32 \/ bits = 128;
  nw_host : 0 <= hostBits <= bits;
  nw_ip : 8 * len (net_IP n) = bits;
  nw_mask : net_Mask n = CIDRMask (bits - hostBits) bits;
  nw_aligned : be_Z (net_IP n) mod 2 ^ hostBits = 0;
  nw_v6 : bits = 128 -> To4 (net_IP n) = None
}.

(** ** Membership as arithmetic *)

Lemma land_low a m k : 0 <= k -> Z.land a m mod 2 ^ k = Z.land (a mod 2 ^ k) (m mod 2 ^ k).
Proof.
  intros Hk. rewrite <-!Z.land_ones by done. apply Z.bits_inj'. intros i Hi.
  rewrite !Z.land_spec. destruct (Z.testbit a i), (Z.testbit m i), (Z.testbit (Z.ones k) i); done.
Qed.

Lemma land_high a m k : 0 <= k -> Z.land a m / 2 ^ k = Z.land (a / 2 ^ k) (m / 2 ^ k).
Proof. intros Hk. rewrite <-!Z.shiftr_div_pow2 by done. apply Z.shiftr_land. Qed.

Lemma split_eq x y k : 0 <= k -> x / 2 ^ k = y / 2 ^ k -> x mod 2 ^ k = y mod 2 ^ k -> x = y.
Proof.
  intros Hk Hd Hm.
  pose proof (Z_div_mod_eq_full x (2 ^ k)) as Hx. pose proof (Z_div_mod_eq_full y (2 ^ k)) as Hy.
  rewrite Hd, Hm in Hx. lia.
Qed.

Lemma pow256_pow2 k : 256 ^ Z.of_nat k = 2 ^ (8 * Z.of_nat k).
Proof. rewrite Z.pow_mul_r by lia. done. Qed.

Lemma land_range x y n : 0 <= n -> 0 <= x < 2 ^ n -> 0 <= Z.land x y < 2 ^ n.
Proof.
  intros Hn [Hx0 Hx]. split; [apply Z.land_nonneg; by left|].
  assert (Z.land x y = Z.land x y mod 2 ^ n) as ->; [|apply Z.mod_pos_bound; lia].
  rewrite land_low by done. rewrite (Z.mod_small x) by lia.
  rewrite <-!Z.land_ones by done. apply Z.bits_inj'. intros i Hi. rewrite !Z.land_spec.
  destruct (Z.testbit x i) eqn:E; [|done]. destruct (Z.ltb_spec i n).
  - rewrite Z.ones_spec_low by lia. by rewrite andb_true_r.
  - destruct (decide (x = 0)) as [->|]; [by rewrite Z.bits_0 in E|].
    rewrite (Z.bits_above_log2 x) in E; [done | done |]. apply Z.log2_lt_pow2 in Hx; lia.
Qed.

Lemma be_Z_cons_div b l : be_Z (b :: l) / 256 ^ len l = Z_of_byte b.
Proof.
  pose proof (be_Z_range l). change (be_Z (b :: l)) with (Z_of_byte b * 256 ^ len l + be_Z l). rewrite Z.div_add_l by (pose proof (pow256_pos (length l)); lia).
  rewrite Z.div_small by done. lia.
Qed.

Lemma be_Z_cons_mod b l : be_Z (b :: l) mod 256 ^ len l = be_Z l.
Proof.
  pose proof (be_Z_range l). change (be_Z (b :: l)) with (Z_of_byte b * 256 ^ len l + be_Z l). rewrite Z.add_comm, Z.mod_add by (pose proof (pow256_pos (length l)); lia).
  by apply Z.mod_small.
Qed.

Lemma and_bytes_length a m : length a = length m -> length (and_bytes a m) = length a.
Proof. intros H. unfold and_bytes. rewrite length_zip_with. lia. Qed.

Lemma be_Z_and_bytes a : forall m, length a = length m ->
  be_Z (and_bytes a m) = Z.land (be_Z a) (be_Z m).
Proof.
  induction a as [|x a IH]; intros [|y m] Hl; try done.
  injection Hl as Hl. pose proof (and_bytes_length a m Hl) as Hal.
  change (and_bytes (x :: a) (y :: m))
    with (byte_of_Z (Z.land (Z_of_byte x) (Z_of_byte y)) :: and_bytes a m).
  apply (split_eq _ _ (8 * Z.of_nat (length a))); [lia|..].
  - rewrite land_high by lia. rewrite <-pow256_pow2. rewrite <-Hal at 1. rewrite be_Z_cons_div.
    rewrite be_Z_cons_div, Hl, be_Z_cons_div. rewrite Z_of_byte_of_Z.
    apply Z.mod_small. apply (land_range _ _ 8); [lia|]. pose proof (Z_of_byte_range x). lia.
  - rewrite land_low by lia. rewrite <-pow256_pow2. rewrite <-Hal at 1. rewrite be_Z_cons_mod.
    rewrite be_Z_cons_mod, Hl, be_Z_cons_mod. by apply IH.
Qed.

Lemma land_mask a h bits :
  0 <= h <= bits -> 0 <= a < 2 ^ bits ->
  Z.land a (2 ^ bits - 2 ^ h) = a - a mod 2 ^ h.
Proof.
  intros Hh Ha.
  assert (2 ^ bits = 2 ^ (bits - h) * 2 ^ h) as Hb by (rewrite <-Z.pow_add_r by lia; f_equal; lia).
  assert (2 ^ bits - 2 ^ h = Z.ones (bits - h) * 2 ^ h) as Hm by (rewrite Z.ones_equiv; lia).
  apply (split_eq _ _ h); [lia|..].
  - rewrite land_high by lia. rewrite Hm, Z.div_mul, Z.land_ones by lia.
    replace (a - a mod 2 ^ h) with (a / 2 ^ h * 2 ^ h) by (pose proof (Z_div_mod_eq_full a (2 ^ h)); lia).
    rewrite Z.div_mul by lia. apply Z.mod_small. split; [apply Z.div_pos; lia|].
    apply Z.div_lt_upper_bound; lia.
  - rewrite land_low by lia. rewrite Hm, Z.mod_mul, Z.land_0_r by lia.
    replace (a - a mod 2 ^ h) with (a / 2 ^ h * 2 ^ h) by (pose proof (Z_div_mod_eq_full a (2 ^ h)); lia).
    by rewrite Z.mod_mul by lia.
Qed.

(** [Contains] on an address of the subnet's family that is not a 16-byte
    form of an IPv4 address: the host bits are all that may differ. *)
Lemma Contains_spec n h bits ip :
  net_wf n h bits -> 8 * len ip = bits -> (bits = 128 -> To4 ip = None) ->
  Contains n ip = bool_decide (be_Z ip / 2 ^ h = be_Z (net_IP n) / 2 ^ h).
Proof.
  intros [Hb Hh Hip Hm _ H6] Hl H6'.
  assert (default (net_IP n) (To4 (net_IP n)) = net_IP n) as Hn4.
  { destruct Hb; [|by rewrite H6]. unfold To4. by rewrite (proj2 (Z.eqb_eq _ _)) by lia. }
  assert (default ip (To4 ip) = ip) as Hi4.
  { destruct Hb; [|by rewrite H6']. unfold To4. by rewrite (proj2 (Z.eqb_eq _ _)) by lia. }
  assert (len (net_Mask n) = len ip) as Hml.
  { rewrite Hm. unfold CIDRMask. rewrite be_bytes_length. destruct Hb as [-> | ->]; [change (32 / 8) with 4 | change (128 / 8) with 16]; lia. }
  unfold Contains, networkNumberAndMask. rewrite Hn4, Hi4, Hml.
  assert (be_Z (net_Mask n) = 2 ^ bits - 2 ^ h) as Hmz.
  { rewrite Hm. unfold CIDRMask. rewrite be_Z_be_bytes, pow256_pow2.
    replace (8 * Z.of_nat (Z.to_nat (bits / 8))) with bits by (destruct Hb as [-> | ->]; reflexivity).
    replace (bits - (bits - h)) with h by lia. apply Z.mod_small.
    pose proof (Z.pow_le_mono_r 2 h bits). pose proof (Z.pow_pos_nonneg 2 h). lia. }
  assert (bool_decide (and_bytes (net_IP n) (net_Mask n) = and_bytes ip (net_Mask n)) =
          bool_decide (be_Z ip / 2 ^ h = be_Z (net_IP n) / 2 ^ h)) as Hmain.
  { assert (length (net_IP n) = length (net_Mask n)) as L1 by lia.
    assert (length ip = length (net_Mask n)) as L2 by lia.
    assert (forall l, length l = length (net_Mask n) ->
      be_Z (and_bytes l (net_Mask n)) = be_Z l / 2 ^ h * 2 ^ h) as Hand.
    { intros l Ll. rewrite be_Z_and_bytes, Hmz, land_mask by
        (done || (pose proof (be_Z_range l) as Hr; rewrite pow256_pow2 in Hr;
                  replace (8 * len l) with bits in Hr by lia; done)).
      pose proof (Z_div_mod_eq_full (be_Z l) (2 ^ h)). pose proof (Z.pow_pos_nonneg 2 h). lia. }
    apply bool_decide_ext. split.
    - intros E. apply (f_equal be_Z) in E. rewrite !Hand in E by done.
      apply Z.mul_reg_r in E; [done|]. pose proof (Z.pow_pos_nonneg 2 h). lia.
    - intros E. apply be_Z_inj; [rewrite !and_bytes_length by done; lia|].
      by rewrite !Hand, E by done. }
  destruct Hb as [-> | ->].
  - rewrite !(ltac:(lia) : len ip = 4), !(ltac:(lia) : len (net_IP n) = 4).
    cbn [Z.eqb Pos.eqb negb andb]. rewrite (ltac:(lia) : len (net_IP n) = 4). exact Hmain.
  - rewrite !(ltac:(lia) : len ip = 16), !(ltac:(lia) : len (net_IP n) = 16).
    cbn [Z.eqb Pos.eqb negb andb]. rewrite (ltac:(lia) : len (net_IP n) = 16). exact Hmain.
Qed.
