(* ===== verification/Ipam.v ===== *)
(** * Deterministic address allocation (internal/ipam/ipam.go)

    The allocator of virtual addresses: the slot of a key is a hash modulo the
    number of hosts, conflicts are resolved by salting in the order of the
    keys. SHA-256 is an argument; a subnet is what [net.ParseCIDR] returns.
    The theorems: the addresses lie inside the subnet, the assignment of a
    whole mesh is collision-free and the same on every node, and a node that
    allocates against its peers' announcements arrives at its own entry of
    that assignment. *)
From stdpp Require Import prelude gmap strings list sorting.
From Stdlib Require Import Strings.Byte ZArith Lia.
From S2P Require Import Prelude GoBytes GoNet.
Local Open Scope Z_scope.

Module Ipam.

Definition MaxSaltIterations : nat := 1000.

Inductive ipam_error : Type :=
| InvalidSubnet | InvalidMask | SubnetTooLarge (hostBits : Z) | SubnetTooSmall
| BadHostCount (n : Z) | TooManyHosts (n usable : Z) | SlotOutOfRange (slot : Z)
| NoFreeSlot | AllocateFailed (key : string) (e : ipam_error).

Record Allocator : Type := MkAllocator { subnet : IPNet; hostBits : Z; usableHosts : Z }.

Definition NewAllocator (parsed : option IPNet) : result ipam_error Allocator :=
  match parsed with
  | None => Err InvalidSubnet
  | Some ipNet =>
      let '(maskOnes, maskBits) := Mask_Size (net_Mask ipNet) in
      if maskBits =? 0 then Err InvalidMask else
      let hostBits := maskBits - maskOnes in
      if 63 <? hostBits then Err (SubnetTooLarge hostBits) else
      let totalAddrs := i64 (2 ^ hostBits) in
      if totalAddrs <? 2 then Err SubnetTooSmall else
      let usableHosts := if 2 <=? hostBits then totalAddrs - 2 else totalAddrs in
      Ok {| subnet := ipNet; hostBits := hostBits; usableHosts := usableHosts |}
  end.

(** Add [carry] to a number given by its bytes, least significant first. *)
Fixpoint add_carry (ip : list byte) (carry : Z) : list byte :=
  match ip with
  | [] => []
  | b :: ip =>
      if 0 <? carry then
        let val := Z_of_byte b + carry in
        byte_of_Z (Z.land val 0xFF) :: add_carry ip (Z.shiftr val 8)
      else b :: ip
  end.

Definition hostNumberToIP (a : Allocator) (hostNum : Z) : option IP :=
  if (hostNum <? 1) || (usableHosts a <? hostNum) then None else
  let network := default (default [] (To16 (net_IP (subnet a)))) (To4 (net_IP (subnet a))) in
  let offset := if 2 <=? hostBits a then hostNum else hostNum - 1 in
  Some (reverse (add_carry (reverse network) offset)).

Section Allocation.
Context (sha256 : list byte -> list byte).

Definition hashToSlot (pubKey : string) (salt hostCount : Z) : Z :=
  let input := bytes_of_string pubKey ++ (if 0 <? salt then le_bytes 8 salt else []) in
  le_Z (take 8 (sha256 input)) mod hostCount.

Definition Allocate (a : Allocator) (pubKey : string) (hostCount : Z) : result ipam_error IP :=
  if hostCount <? 1 then Err (BadHostCount hostCount) else
  if usableHosts a <? hostCount then Err (TooManyHosts hostCount (usableHosts a)) else
  let slot := hashToSlot pubKey 0 hostCount in
  match hostNumberToIP a (slot + 1) with
  | None => Err (SlotOutOfRange slot)
  | Some ip => Ok ip
  end.

(** The loop of [AllocateWithPeers] from salt [salt] on. *)
Fixpoint peers_loop (tries : nat) (salt : Z) (a : Allocator) (pubKey : string) (hostCount : Z)
    (claimed : gset string) (peerIPs : gmap string IP) : result ipam_error IP :=
  match tries with
  | O => Err NoFreeSlot
  | S tries =>
      match hostNumberToIP a (hashToSlot pubKey salt hostCount + 1) with
      | None => peers_loop tries (salt + 1) a pubKey hostCount claimed peerIPs
      | Some candidateIP =>
          let candidateStr := ip_String candidateIP in
          if negb (bool_decide (candidateStr ∈ claimed)) then Ok candidateIP else
          let mustYield := existsb (fun '(peerKey, peerIP) =>
            String.eqb (ip_String peerIP) candidateStr && String.ltb peerKey pubKey)
            (map_to_list peerIPs) in
          if negb mustYield then Ok candidateIP else peers_loop tries (salt + 1) a pubKey hostCount claimed peerIPs
      end
  end.

Definition AllocateWithPeers (a : Allocator) (pubKey : string) (hostCount : Z)
    (peerIPs : gmap string IP) : result ipam_error IP :=
  if hostCount <? 1 then Err (BadHostCount hostCount) else
  if usableHosts a <? hostCount then Err (TooManyHosts hostCount (usableHosts a)) else
  let claimed := list_to_set (ip_String <$> (map_to_list peerIPs).*2) in
  peers_loop (S MaxSaltIterations) 0 a pubKey hostCount claimed peerIPs.

(** [allocateWithClaimed], from salt [salt] on. *)
Fixpoint claimed_loop (tries : nat) (salt : Z) (a : Allocator) (pubKey : string) (hostCount : Z)
    (claimed : gmap string IP) : result ipam_error IP :=
  match tries with
  | O => Err NoFreeSlot
  | S tries =>
      match hostNumberToIP a (hashToSlot pubKey salt hostCount + 1) with
      | None => claimed_loop tries (salt + 1) a pubKey hostCount claimed
      | Some candidateIP =>
          match claimed !! ip_String candidateIP with
          | None => Ok candidateIP
          | Some _ => claimed_loop tries (salt + 1) a pubKey hostCount claimed
          end
      end
  end.

Definition allocateWithClaimed := claimed_loop (S MaxSaltIterations) 0.

(** The loop of [AllocateAll] over the sorted keys. *)
Fixpoint allocate_keys (a : Allocator) (hostCount : Z) (keys : list string)
    (claimed : gmap string IP) (res : gmap string IP) : result ipam_error (gmap string IP) :=
  match keys with
  | [] => Ok res
  | key :: keys =>
      match allocateWithClaimed a key hostCount claimed with
      | Err e => Err (AllocateFailed (String.substring 0 16 key) e)
      | Ok ip => allocate_keys a hostCount keys (<[ip_String ip := ip]> claimed) (<[key := ip]> res)
      end
  end.

Definition AllocateAll (a : Allocator) (pubKeys : list string)
    : result ipam_error (gmap string IP) :=
  let hostCount := len pubKeys in
  if hostCount =? 0 then Ok ∅ else
  if usableHosts a <? hostCount then Err (TooManyHosts hostCount (usableHosts a)) else
  allocate_keys a hostCount (merge_sort String.le pubKeys) ∅ ∅.
End Allocation.

Definition ResolveConflict (selfPubKey peerPubKey : string) : bool := String.ltb peerPubKey selfPubKey.

(** ** Addresses *)

(** What [NewAllocator] returns for a parsed subnet. *)
Record alloc_wf (a : Allocator) (bits : Z) : Prop := {
  aw_net : net_wf (subnet a) (hostBits a) bits;
  aw_bits : 1 <= hostBits a <= 62;
  aw_usable : usableHosts a = (if 2 <=? hostBits a then 2 ^ hostBits a - 2 else 2 ^ hostBits a)
}.

Lemma Mask_Size_CIDR n h bits :
  net_wf n h bits -> Mask_Size (net_Mask n) = (bits - h, bits).
Proof.
  intros [Hb Hh _ Hm _ _]. unfold Mask_Size.
  assert (8 * len (net_Mask n) = bits) as Hl.
  { rewrite Hm. unfold CIDRMask. rewrite be_bytes_length. by destruct Hb as [-> | ->]. }
  rewrite Hl. destruct (find _ _) as [k|] eqn:E.
  - apply find_some in E as [Hin Heq]. apply bool_decide_eq_true in Heq. rewrite Hm in Heq.
    apply in_seq in Hin. f_equal. unfold CIDRMask in Heq.
    assert (forall j, 0 <= j <= bits -> 0 <= 2 ^ bits - 2 ^ j < 256 ^ Z.of_nat (Z.to_nat (bits / 8))) as Hr.
    { intros j Hj. rewrite pow256_pow2.
      replace (8 * Z.of_nat (Z.to_nat (bits / 8))) with bits by (destruct Hb as [-> | ->]; reflexivity).
      pose proof (Z.pow_le_mono_r 2 j bits). pose proof (Z.pow_pos_nonneg 2 j). lia. }
    apply be_bytes_inj in Heq; [| apply Hr; lia..].
    assert (2 ^ (bits - Z.of_nat k) = 2 ^ (bits - (bits - h))) as Hp by lia.
    apply Z.pow_inj_r in Hp; lia.
  - exfalso. eapply find_none in E; [|apply in_seq; split; [apply Nat.le_0_l|]; shelve].
    apply bool_decide_eq_false in E. apply E. rewrite Hm. f_equal. symmetry. apply Z2Nat.id. lia.
    Unshelve. lia.
Qed.

Lemma NewAllocator_wf n h bits a :
  net_wf n h bits -> NewAllocator (Some n) = Ok a -> alloc_wf a bits /\ subnet a = n.
Proof.
  intros Hn. unfold NewAllocator. rewrite (Mask_Size_CIDR n h bits Hn).
  destruct Hn as [Hb Hh Hip Hm Hal H6].
  rewrite (proj2 (Z.eqb_neq bits 0)) by lia. replace (bits - (bits - h)) with h by lia.
  destruct (Z.ltb_spec 63 h) as [|H63]; [done|].
  assert (h = 63 \/ h <= 62) as [->|H62] by lia; [done|].
  assert (i64 (2 ^ h) = 2 ^ h) as ->.
  { pose proof (Z.pow_le_mono_r 2 h 62). pose proof (Z.pow_pos_nonneg 2 h).
    rewrite <-(u64_small (2 ^ h)) at 1 by lia. apply i64_u64. lia. }
  destruct (Z.ltb_spec (2 ^ h) 2) as [|H2]; [done|].
  intros Ha. apply Ok_inj in Ha as <-. split; [|done]. constructor; cbn; [done| |done].
  split; [|done]. destruct (decide (h = 0)) as [->|]; [done | lia].
Qed.

Lemma add_carry_spec l : forall c,
  0 <= c -> le_Z l + c < 256 ^ len l ->
  length (add_carry l c) = length l /\ le_Z (add_carry l c) = le_Z l + c.
Proof.
  assert (forall b l, le_Z (b :: l) = Z_of_byte b + 256 * le_Z l) as Hcons.
  { intros b k. unfold le_Z. rewrite reverse_cons, be_Z_app.
    change (be_Z [b]) with (Z_of_byte b * 1 + 0). cbn [length]. lia. }
  induction l as [|b l IH]; intros c Hc Hlt.
  { cbn [add_carry]. change (le_Z []) with 0 in *. change (256 ^ len []) with 1 in Hlt.
    split; [done | lia]. }
  cbn [add_carry length] in *. rewrite Hcons in Hlt. rewrite pow256_S in Hlt.
  destruct (Z.ltb_spec 0 c) as [Hpos|Hz]; [|by split; [|lia]].
  set (val := Z_of_byte b + c). pose proof (Z_of_byte_range b).
  change 0xFF with (Z.ones 8). rewrite Z.shiftr_div_pow2, (Z.land_ones val 8) by lia. change (2 ^ 8) with 256.
  pose proof (Z_div_mod_eq_full val 256) as Hval. pose proof (Z.mod_pos_bound val 256).
  destruct (IH (val / 256)) as [Hl Hz]; [apply Z.div_pos; lia | lia |].
  rewrite !Hcons, Hz, Z_of_byte_of_Z, Z.mod_mod by lia.
  split; [cbn [length]; lia | lia].
Qed.

Lemma hostNumberToIP_value a bits k :
  alloc_wf a bits -> 1 <= k <= usableHosts a ->
  exists ip, hostNumberToIP a k = Some ip /\ len ip = len (net_IP (subnet a)) /\
    be_Z ip = be_Z (net_IP (subnet a)) + (if 2 <=? hostBits a then k else k - 1) /\
    be_Z ip / 2 ^ hostBits a = be_Z (net_IP (subnet a)) / 2 ^ hostBits a.
Proof.
  intros [[Hb Hh Hip Hm Hal H6] Hbits Hus] Hk. unfold hostNumberToIP.
  rewrite (proj2 (Z.ltb_ge k 1)), (proj2 (Z.ltb_ge _ k)) by lia. cbn [orb].
  set (n := net_IP (subnet a)) in *. set (h := hostBits a) in *.
  assert (default (default [] (To16 n)) (To4 n) = n) as ->.
  { destruct Hb; unfold To4, To16.
    - by rewrite (proj2 (Z.eqb_eq _ _)) by lia.
    - fold (To4 n) (To16 n). rewrite H6 by done. unfold To16.
      rewrite (proj2 (Z.eqb_neq _ 4)), (proj2 (Z.eqb_eq _ 16)) by lia. done. }
  set (off := if 2 <=? h then k else k - 1).
  assert (0 <= off < 2 ^ h) as Hoff.
  { subst off. rewrite Hus in Hk. destruct (2 <=? h); lia. }
  pose proof (be_Z_range n) as Hr. rewrite pow256_pow2 in Hr. replace (8 * len n) with bits in Hr by lia.
  pose proof (Z_div_mod_eq_full (be_Z n) (2 ^ h)) as Hn. rewrite Hal, Z.add_0_r in Hn.
  assert (be_Z n + off < 2 ^ bits) as Hfit.
  { assert (be_Z n / 2 ^ h < 2 ^ (bits - h)) as Hq.
    { apply Z.div_lt_upper_bound; [lia|]. rewrite <-Z.pow_add_r by lia.
      replace (h + (bits - h)) with bits by lia. lia. }
    assert (2 ^ bits = 2 ^ h * 2 ^ (bits - h)) as Hb2 by (rewrite <-Z.pow_add_r by lia; f_equal; lia).
    rewrite Hb2. nia. }
  destruct (add_carry_spec (reverse n) off) as [Hl Hz].
  { lia. }
  { unfold le_Z. rewrite reverse_involutive, length_reverse, pow256_pow2.
    replace (8 * len n) with bits by lia. done. }
  eexists. split; [done|]. rewrite !length_reverse in *. split; [lia|].
  change (be_Z (reverse (add_carry (reverse n) off))) with (le_Z (add_carry (reverse n) off)).
  rewrite Hz. unfold le_Z. rewrite reverse_involutive. split; [done|].
  rewrite Hn, (Z.mul_comm (2 ^ h)), Z.div_add_l, Z.div_mul by lia.
  rewrite (Z.div_small off) by lia. lia.
Qed.

(** Host numbers are addresses of the subnet: an allocator made for a
    parsed subnet turns exactly the numbers 1 to [usableHosts] into
    addresses; the address of number [k] is the network address plus [k] (plus
    [k-1] on a two-address subnet), it belongs to the subnet, is neither its
    network nor its broadcast address when there are such, and different
    numbers give different addresses. *)
Theorem hostNumberToIP_in_subnet n h a :
  net_wf n h 32 -> NewAllocator (Some n) = Ok a ->
  (forall k, k < 1 \/ usableHosts a < k -> hostNumberToIP a k = None) /\
  (forall k, 1 <= k <= usableHosts a -> exists ip,
     hostNumberToIP a k = Some ip /\ Contains n ip = true /\
     be_Z ip = be_Z (net_IP n) + (if 2 <=? h then k else k - 1) /\
     (2 <= h -> ip <> net_IP n /\ be_Z ip <> be_Z (net_IP n) + (2 ^ h - 1))) /\
  (forall k k' ip, hostNumberToIP a k = Some ip -> hostNumberToIP a k' = Some ip -> k = k').
Proof.
  intros Hn Ha. pose proof (NewAllocator_wf n h 32 a Hn Ha) as [Hwf Hsub].
  assert (hostBits a = h) as Hh.
  { unfold NewAllocator in Ha. rewrite (Mask_Size_CIDR n h 32 Hn) in Ha.
    repeat case_hyp Ha; try done; apply Ok_inj in Ha as <-; cbn; lia. }
  assert (forall k, k < 1 \/ usableHosts a < k -> hostNumberToIP a k = None) as Hnone.
  { intros k Hk. unfold hostNumberToIP.
    destruct (Z.ltb_spec k 1), (Z.ltb_spec (usableHosts a) k); cbn [orb]; try done. lia. }
  split_and!; [done| |].
  - intros k Hk. destruct (hostNumberToIP_value a 32 k Hwf Hk) as (ip & Hip & Hl & Hv & Hdiv).
    rewrite Hsub, Hh in *. exists ip. split_and!; [done| |done|].
    + rewrite (Contains_spec n h 32 ip Hn); [by apply bool_decide_eq_true | | lia].
      pose proof (nw_ip _ _ _ Hn). lia.
    + intros H2. rewrite (proj2 (Z.leb_le 2 h)) in Hv by done.
      pose proof (aw_usable _ _ Hwf) as Hu. rewrite Hh, (proj2 (Z.leb_le 2 h)) in Hu by done.
      split; [intros ->; lia | lia].
  - intros k k' ip H1 H2.
    assert (forall j, hostNumberToIP a j = Some ip -> 1 <= j <= usableHosts a) as Hr.
    { intros j Hj. destruct (decide (1 <= j <= usableHosts a)); [done|].
      rewrite Hnone in Hj; [done | lia]. }
    destruct (hostNumberToIP_value a 32 k Hwf (Hr _ H1)) as (ip1 & E1 & _ & V1 & _).
    destruct (hostNumberToIP_value a 32 k' Hwf (Hr _ H2)) as (ip2 & E2 & _ & V2 & _).
    assert (ip1 = ip2) as -> by congruence. destruct (2 <=? hostBits a); lia.
Qed.

(** 10.10.0.0/24 *)
Definition net24 : IPNet := MkIPNet [x0a; x0a; x00; x00] [xff; xff; xff; x00].

Lemma net24_wf : net_wf net24 8 32.
Proof. constructor; try done. by left. Qed.

Lemma hostNumberToIP_in_subnet_witness :
  hostNumberToIP (MkAllocator net24 8 254) 255 = None /\
  exists ip, hostNumberToIP (MkAllocator net24 8 254) 7 = Some ip /\ Contains net24 ip = true.
Proof.
  destruct (hostNumberToIP_in_subnet net24 8 (MkAllocator net24 8 254) net24_wf eq_refl)
    as (H1 & H2 & _).
  split; [apply H1; cbn; lia|]. destruct (H2 7) as (ip & Hip & Hc & _); [cbn; lia|].
  exists ip. auto.
Defined.

(** ** The assignment of a mesh *)
Section Assignment.
Context (sha256 : list byte -> list byte) (a : Allocator).

(** The loops of [allocateWithClaimed] and [AllocateWithPeers] take the
    first salt whose address is acceptable. *)
Fixpoint first_salt (tries : nat) (salt : Z) (key : string) (hosts : Z) (ok : string -> bool)
    : result ipam_error IP :=
  match tries with
  | O => Err NoFreeSlot
  | S tries =>
      match hostNumberToIP a (hashToSlot sha256 key salt hosts + 1) with
      | None => first_salt tries (salt + 1) key hosts ok
      | Some ip => if ok (ip_String ip) then Ok ip else first_salt tries (salt + 1) key hosts ok
      end
  end.

Lemma first_salt_ext tries : forall salt key hosts ok ok',
  (forall s, ok s = ok' s) ->
  first_salt tries salt key hosts ok = first_salt tries salt key hosts ok'.
Proof.
  induction tries as [|tries IH]; intros salt key hosts ok ok' He; [done|]. cbn.
  destruct (hostNumberToIP _ _); [|by apply IH]. rewrite He. destruct (ok' _); [done | by apply IH].
Qed.

Lemma claimed_loop_first tries : forall salt key hosts claimed,
  claimed_loop sha256 tries salt a key hosts claimed =
  first_salt tries salt key hosts (fun s => bool_decide (claimed !! s = None)).
Proof.
  induction tries as [|tries IH]; intros; [done|]. cbn [claimed_loop first_salt].
  destruct (hostNumberToIP _ _) as [ip|]; [|apply IH].
  destruct (claimed !! ip_String ip) eqn:E; rewrite ?bool_decide_true, ?bool_decide_false by done;
    [apply IH | done].
Qed.

(** A peer with a smaller key claims the address. *)
Definition taken_by_smaller (peers : gmap string IP) (key s : string) : bool :=
  existsb (fun '(k, ip) => String.eqb (ip_String ip) s && String.ltb k key) (map_to_list peers).

Lemma peers_loop_first tries : forall salt key hosts peers,
  peers_loop sha256 tries salt a key hosts (list_to_set (ip_String <$> (map_to_list peers).*2)) peers =
  first_salt tries salt key hosts (fun s => negb (taken_by_smaller peers key s)).
Proof.
  induction tries as [|tries IH]; intros salt key hosts peers; [done|]. cbn [peers_loop first_salt].
  destruct (hostNumberToIP _ _) as [ip|]; [|apply IH].
  fold (taken_by_smaller peers key (ip_String ip)).
  destruct (bool_decide (ip_String ip ∈ _)) eqn:E; cbn [negb].
  - destruct (taken_by_smaller _ _ _); cbn [negb]; [apply IH | done].
  - destruct (taken_by_smaller peers key (ip_String ip)) eqn:Et; [|done].
    exfalso. apply bool_decide_eq_false in E. apply E.
    unfold taken_by_smaller in Et. apply existsb_exists in Et as ([k ip'] & Hin & Hb).
    apply andb_true_iff in Hb as [He%String.eqb_eq _].
    apply elem_of_list_to_set, list_elem_of_fmap. exists ip'. split; [done|].
    apply list_elem_of_fmap. exists (k, ip'). by split; [|apply list_elem_of_In].
Qed.

Lemma first_salt_sound tries : forall salt key hosts ok ip,
  first_salt tries salt key hosts ok = Ok ip ->
  ok (ip_String ip) = true /\ exists k, hostNumberToIP a k = Some ip.
Proof.
  induction tries as [|tries IH]; intros salt key hosts ok ip; [done|]. cbn [first_salt].
  destruct (hostNumberToIP a _) as [ip'|] eqn:E; [|apply IH].
  destruct (ok (ip_String ip')) eqn:Eo; [|apply IH]. intros Hr. apply Ok_inj in Hr as <-. eauto.
Qed.

Context (hosts : Z).

(** The map built so far: [claimed] holds the text of exactly its
    addresses when no key was repeated. *)
Record book (claimed res : gmap string IP) : Prop := {
  bk_claimed : forall k ip, res !! k = Some ip -> is_Some (claimed !! ip_String ip);
  bk_inj : forall k k' ip ip', res !! k = Some ip -> res !! k' = Some ip' ->
             ip_String ip = ip_String ip' -> k = k';
  bk_host : forall k ip, res !! k = Some ip -> exists j, hostNumberToIP a j = Some ip
}.

Lemma book_step claimed res key ip :
  book claimed res -> claimed !! ip_String ip = None ->
  (exists j, hostNumberToIP a j = Some ip) ->
  book (<[ip_String ip := ip]> claimed) (<[key := ip]> res).
Proof.
  intros [Hc Hi Hh] Hfree Hj. constructor.
  - intros k ip' [[<- <-]|[_ Hk]]%lookup_insert_Some; [by rewrite lookup_insert_eq|].
    destruct (decide (ip_String ip = ip_String ip')) as [->|]; [by rewrite lookup_insert_eq|].
    rewrite lookup_insert_ne by done. eauto.
  - intros k k' ip1 ip2 [[<- <-]|[Hne Hk]]%lookup_insert_Some
      [[<- <-]|[Hne' Hk']]%lookup_insert_Some Heq; [done|..].
    + apply Hc in Hk' as [? Hx]. congruence.
    + apply Hc in Hk as [? Hx]. congruence.
    + eauto.
  - intros k ip' [[<- <-]|[_ Hk]]%lookup_insert_Some; eauto.
Qed.

Lemma allocate_keys_book keys : forall claimed res m,
  book claimed res -> allocate_keys sha256 a hosts keys claimed res = Ok m ->
  exists claimed', book claimed' m /\
    forall k, is_Some (m !! k) <-> k ∈ keys \/ is_Some (res !! k).
Proof.
  induction keys as [|key keys IH]; intros claimed res m Hb Hr; cbn [allocate_keys] in Hr.
  { apply Ok_inj in Hr as <-. exists claimed. split; [done|]. intros k. set_solver. }
  unfold allocateWithClaimed in Hr. rewrite claimed_loop_first in Hr.
  destruct (first_salt _ _ _ _ _) as [ip|e] eqn:E; [|done].
  apply first_salt_sound in E as [Hfree Hj]. apply bool_decide_eq_true in Hfree.
  destruct (IH _ _ _ (book_step _ _ key ip Hb Hfree Hj) Hr) as (c' & Hb' & Hdom).
  exists c'. split; [done|]. intros k. rewrite Hdom, elem_of_cons, lookup_insert_is_Some'.
  naive_solver.
Qed.

(** [claimed] holds the text of exactly the addresses of [res]. *)
Definition exact (claimed res : gmap string IP) : Prop :=
  forall s, is_Some (claimed !! s) <-> exists k ip, res !! k = Some ip /\ ip_String ip = s.

Lemma exact_step claimed res key ip :
  exact claimed res -> res !! key = None ->
  exact (<[ip_String ip := ip]> claimed) (<[key := ip]> res).
Proof.
  intros He Hk s. rewrite lookup_insert_is_Some', (He s). split.
  - intros [<-|(k & ip' & Hl & Hs)]; [exists key, ip; by rewrite lookup_insert_eq|].
    exists k, ip'. split; [|done]. rewrite lookup_insert_ne; [done | congruence].
  - intros (k & ip' & [[<- <-]|[_ Hl]]%lookup_insert_Some & Hs); [by left | eauto].
Qed.

Lemma allocate_keys_keep keys : forall claimed res m p,
  p ∉ keys -> allocate_keys sha256 a hosts keys claimed res = Ok m -> m !! p = res !! p.
Proof.
  induction keys as [|key keys IH]; intros claimed res m p Hp Hr; cbn [allocate_keys] in Hr.
  { by apply Ok_inj in Hr as <-. }
  destruct (allocateWithClaimed _ _ _ _ _) as [ip|e]; [|done].
  apply not_elem_of_cons in Hp as [Hne Hp].
  rewrite (IH _ _ _ p Hp Hr), lookup_insert_ne by done. done.
Qed.

(** What the walk over the keys decides at key [k]. *)
Lemma allocate_keys_at k l2 l1 : forall claimed res m,
  exact claimed res -> NoDup (l1 ++ k :: l2) ->
  (forall p, p ∈ l1 ++ k :: l2 -> res !! p = None) ->
  allocate_keys sha256 a hosts (l1 ++ k :: l2) claimed res = Ok m ->
  exists ip claimed1 res1, exact claimed1 res1 /\
    first_salt (S MaxSaltIterations) 0 k hosts (fun s => bool_decide (claimed1 !! s = None)) = Ok ip /\
    m !! k = Some ip /\ (forall p, is_Some (res1 !! p) -> m !! p = res1 !! p) /\
    (forall p, is_Some (res1 !! p) <-> p ∈ l1 \/ is_Some (res !! p)).
Proof.
  induction l1 as [|key l1 IH]; intros claimed res m He Hnd Hnew Hr;
    cbn [app allocate_keys] in Hr; unfold allocateWithClaimed in Hr;
    rewrite claimed_loop_first in Hr; destruct (first_salt _ _ _ _ _) as [ip|e] eqn:E; try done.
  - exists ip, claimed, res. apply NoDup_cons in Hnd as [Hk Hnd]. split_and!; auto.
    + rewrite (allocate_keys_keep _ _ _ _ _ Hk Hr). apply lookup_insert_eq.
    + intros p [x Hp]. assert (p ∉ k :: l2) as [Hne Hp2]%not_elem_of_cons.
      { intros Hin. by rewrite (Hnew p Hin) in Hp. }
      by rewrite (allocate_keys_keep _ _ _ _ _ Hp2 Hr), lookup_insert_ne.
    + intros p. split; [by right|]. intros [H|H]; [by apply not_elem_of_nil in H | done].
  - apply NoDup_cons in Hnd as [Hkey Hnd].
    assert (res !! key = None) as Hkn by (apply Hnew; left).
    destruct (IH _ _ m (exact_step _ _ key ip He Hkn) Hnd) as (ip' & c1 & r1 & H1 & H2 & H3 & H4 & H5);
      [|exact Hr|].
    { intros p Hp. rewrite lookup_insert_ne; [|by intros ->]. apply Hnew. by right. }
    exists ip', c1, r1. split_and!; auto. intros p. rewrite H5, lookup_insert_is_Some', elem_of_cons.
    split; [intros [?|[<-|?]]; auto | intros [[->|?]|?]; auto].
Qed.
End Assignment.

Lemma ltb_spec p k : String.ltb p k = true <-> String.le p k /\ p <> k.
Proof.
  unfold String.ltb, String.le, String.leb. pose proof (String.compare_eq_iff p k) as He0.
  assert (String.compare p k = Eq <-> p = k) as He.
  { split; [done|]. intros ->. pose proof (String.compare_antisym k k) as Ha.
    by destruct (String.compare k k). }
  clear He0.
  destruct (String.compare p k); cbn; split; try done.
  - intros [_ Hne]. exfalso. by apply Hne, (proj1 He).
  - intros _. split; [done|]. intros Heq. by apply (proj2 He) in Heq.
  - intros [[] _].
Qed.

Lemma AllocateAll_keys sha256 a keys m :
  AllocateAll sha256 a keys = Ok m ->
  allocate_keys sha256 a (len keys) (merge_sort String.le keys) ∅ ∅ = Ok m.
Proof.
  unfold AllocateAll. destruct (Z.eqb_spec (len keys) 0) as [H0|].
  - apply list_len_0 in H0 as ->. done.
  - by destruct (_ <? _).
Qed.

(** The assignment of a mesh is a collision-free function of the set of
    keys: when [AllocateAll] succeeds it gives every key an address with a
    host number of the subnet and no two keys the same address, and listing
    the keys in any other order gives the same result. *)
Theorem AllocateAll_collision_free sha256 a keys m :
  AllocateAll sha256 a keys = Ok m ->
  (forall k, is_Some (m !! k) <-> k ∈ keys) /\
  (forall k k' ip ip', m !! k = Some ip -> m !! k' = Some ip' -> ip_String ip = ip_String ip' ->
     k = k') /\
  (forall k ip, m !! k = Some ip -> exists j, hostNumberToIP a j = Some ip) /\
  (forall keys', keys' ≡ₚ keys -> AllocateAll sha256 a keys' = Ok m).
Proof.
  intros Hm. pose proof (AllocateAll_keys _ _ _ _ Hm) as Hk.
  destruct (allocate_keys_book sha256 a (len keys) (merge_sort String.le keys) ∅ ∅ m)
    as (c & [_ Hi Hh] & Hdom); [constructor; intros *; by rewrite lookup_empty | done |].
  split_and!; auto.
  - intros k. rewrite Hdom, lookup_empty, merge_sort_Permutation. split; [|by left].
    by intros [?|[? ?]].
  - intros keys' Hp. unfold AllocateAll in *.
    assert (length keys' = length keys) as Hl by by apply Permutation_length.
    rewrite Hl. replace (merge_sort String.le keys') with (merge_sort String.le keys); [done|].
    apply (Sorted_unique String.le); [apply Sorted_merge_sort; apply _ ..|].
    by rewrite !merge_sort_Permutation.
Qed.

(** A hash for concrete runs: the length and the first byte of its input. *)
Definition toy_sha256 (d : list byte) : list byte :=
  [byte_of_Z (len d + Z_of_byte (default x00 (head d)))] ++ replicate 31 x00.

Lemma AllocateAll_collision_free_witness :
  exists m, AllocateAll toy_sha256 (MkAllocator net24 8 254) ["b"; "a"; "cc"]%string = Ok m /\
    is_Some (m !! "cc"%string) /\
    AllocateAll toy_sha256 (MkAllocator net24 8 254) ["cc"; "a"; "b"]%string = Ok m.
Proof.
  destruct (AllocateAll toy_sha256 (MkAllocator net24 8 254) ["b"; "a"; "cc"]%string)
    as [m|e] eqn:E; [|vm_compute in E; discriminate].
  destruct (AllocateAll_collision_free _ _ _ _ E) as (H1 & _ & _ & H4).
  exists m. split_and!; [done | apply H1; set_solver | apply H4].
  apply (Permutation_trans (l' := ["a"; "cc"; "b"]%string)); [constructor|].
  apply (Permutation_trans (l' := ["a"; "b"; "cc"]%string)); repeat constructor.
Defined.

(** The address a peer holds stands in the way of [k] exactly when it was
    claimed by a key before [k] in the order of the assignment. *)
Lemma taken_iff_claimed l1 k l2 (m claimedBy : gmap string (list byte)) s :
  StronglySorted String.le (l1 ++ k :: l2) -> NoDup (l1 ++ k :: l2) ->
  (forall p, is_Some (m !! p) -> p ∈ l1 ++ k :: l2) ->
  (forall p, is_Some (claimedBy !! p) <-> p ∈ l1) ->
  (forall p, is_Some (claimedBy !! p) -> m !! p = claimedBy !! p) ->
  taken_by_smaller (delete k m) k s = true <->
  exists p q, claimedBy !! p = Some q /\ ip_String q = s.
Proof.
  intros Hs Hnd Hdom Hr Hkeep. unfold taken_by_smaller. rewrite existsb_exists. split.
  - intros ([p q] & Hin & [Hq%String.eqb_eq [Hle Hne]%ltb_spec]%andb_true_iff).
    apply list_elem_of_In, elem_of_map_to_list in Hin. apply lookup_delete_Some in Hin as [_ Hp].
    exists p, q. split; [|done]. rewrite <-Hkeep; [done|]. apply Hr.
    assert (p ∈ l1 ++ k :: l2) as [?|[->|Hin2]%elem_of_cons]%elem_of_app; [|done..|].
    { apply Hdom. by eexists. }
    apply StronglySorted_app_1_r, StronglySorted_cons in Hs as [Hall _].
    rewrite Forall_forall in Hall. exfalso. apply Hne. apply (anti_symm String.le); auto.
  - intros (p & q & Hp & Hq). exists (p, q). assert (is_Some (claimedBy !! p)) as Hsome by by eexists.
    pose proof (proj1 (Hr p) Hsome) as Hp1.
    assert (p <> k) as Hne.
    { intros ->. apply NoDup_app in Hnd as (_ & Hd & _). apply (Hd k Hp1). left. }
    split.
    + apply list_elem_of_In, elem_of_map_to_list. rewrite lookup_delete_ne by done.
      by rewrite Hkeep.
    + apply andb_true_iff. split; [by apply String.eqb_eq|]. apply ltb_spec. split; [|done].
      eapply StronglySorted_app_1_elem_of; [exact Hs | done | left].
Qed.

(** Nodes converge without a coordinator: a node that allocates its
    address against the addresses its peers hold under the assignment of the
    whole mesh arrives at exactly the address this assignment gives itself,
    whichever of its peers have smaller or larger keys. *)
Theorem AllocateWithPeers_converges sha256 a keys m k ip :
  NoDup keys -> AllocateAll sha256 a keys = Ok m -> m !! k = Some ip ->
  AllocateWithPeers sha256 a k (len keys) (delete k m) = Ok ip.
Proof.
  intros Hnd Hm Hk.
  apply AllocateAll_keys in Hm as Hkeys.
  destruct (allocate_keys_book sha256 a (len keys) (merge_sort String.le keys) ∅ ∅ m)
    as (c & _ & Hdom); [constructor; intros *; by rewrite lookup_empty | done |].
  assert (k ∈ merge_sort String.le keys) as (l1 & l2 & Hl)%list_elem_of_split.
  { destruct (proj1 (Hdom k)) as [?|[? Hx]]; [by eexists | done |]. by rewrite lookup_empty in Hx. }
  assert (NoDup (l1 ++ k :: l2)) as Hnd' by (by rewrite <-Hl, merge_sort_Permutation).
  assert (StronglySorted String.le (l1 ++ k :: l2)) as Hs.
  { rewrite <-Hl. apply Sorted_StronglySorted; [apply _|]. apply Sorted_merge_sort, _. }
  rewrite Hl in Hkeys, Hdom.
  destruct (allocate_keys_at sha256 a (len keys) k l2 l1 ∅ ∅ m) as
    (ip' & c1 & r1 & He & Hf & Hmk & Hkeep & Hr1); auto.
  { intros s. rewrite lookup_empty. split; [by intros [? ?]|]. intros (? & ? & Hx & _).
    by rewrite lookup_empty in Hx. }
  assert (ip' = ip) as -> by congruence.
  unfold AllocateWithPeers. unfold AllocateAll in Hm.
  destruct (Z.eqb_spec (len keys) 0) as [|Hpos].
  { apply Ok_inj in Hm as <-. by rewrite lookup_empty in Hk. }
  rewrite (proj2 (Z.ltb_ge _ 1)) by lia. destruct (usableHosts a <? len keys); [done|].
  rewrite peers_loop_first, <-Hf. apply first_salt_ext. intros s.
  apply Bool.eq_iff_eq_true. rewrite negb_true_iff, bool_decide_eq_true.
  rewrite <-not_true_iff_false, eq_None_not_Some. apply not_iff_compat.
  rewrite (He s). apply (taken_iff_claimed l1 k l2 m r1); auto.
  - intros p Hp. apply Hdom in Hp as [?|[? Hx]]; [done|]. by rewrite lookup_empty in Hx.
  - intros p. rewrite Hr1, lookup_empty. split; [by intros [?|[? ?]] | by left].
Qed.

Lemma AllocateWithPeers_converges_witness :
  exists m ip, AllocateAll toy_sha256 (MkAllocator net24 8 254) ["b"; "a"; "cc"]%string = Ok m /\
    AllocateWithPeers toy_sha256 (MkAllocator net24 8 254) "b" 3 (delete "b"%string m) = Ok ip.
Proof.
  destruct (AllocateAll toy_sha256 (MkAllocator net24 8 254) ["b"; "a"; "cc"]%string)
    as [m|e] eqn:E; [|vm_compute in E; discriminate].
  destruct (m !! "b"%string) as [ip|] eqn:Eb.
  - exists m, ip. split; [done|].
    apply (AllocateWithPeers_converges _ _ ["b"; "a"; "cc"]%string); [|done..].
    repeat constructor; set_solver.
  - exfalso. vm_compute in E. apply Ok_inj in E as <-. by vm_compute in Eb.
Defined.
End Ipam.
