(* ===== verification/Router.v ===== *)
(** * The TUN routing table (internal/tun/router.go)

    The two maps between virtual addresses and public keys. Addresses are
    keyed by their text, as in the code; a Go [nil] address is [None]. *)
From stdpp Require Import prelude gmap strings list.
From Stdlib Require Import Strings.Byte ZArith Lia.
From S2P Require Import Prelude GoBytes GoNet.
Local Open Scope Z_scope.

Module TunRouter.

Record Router : Type := MkRouter {
  ipToPeer : gmap string string;
  peerToIP : gmap string IP;
  localIP : option IP;
  localPubKey : string;
  subnet : option IPNet
}.

Definition NewRouter (subnet : option IPNet) (localPubKey : string) : Router :=
  MkRouter ∅ ∅ None localPubKey subnet.

Definition with_maps (r : Router) (i : gmap string string) (p : gmap string IP) : Router :=
  MkRouter i p (localIP r) (localPubKey r) (subnet r).

Definition SetLocalIP (r : Router) (ip : IP) : Router :=
  let i := match localIP r with
           | Some old => if String.eqb (ip_String old) (ip_String ip) then ipToPeer r
                         else delete (ip_String old) (ipToPeer r)
           | None => ipToPeer r
           end in
  MkRouter (<[ip_String ip := localPubKey r]> i) (<[localPubKey r := ip]> (peerToIP r))
    (Some ip) (localPubKey r) (subnet r).

Definition AddRoute (r : Router) (virtualIP : IP) (pubKey : string) : Router :=
  let ipStr := ip_String virtualIP in
  let i := match peerToIP r !! pubKey with
           | Some oldIP => if negb (String.eqb (ip_String oldIP) ipStr)
                           then delete (ip_String oldIP) (ipToPeer r) else ipToPeer r
           | None => ipToPeer r
           end in
  let p := match i !! ipStr with
           | Some oldPeer => if negb (String.eqb oldPeer pubKey)
                             then delete oldPeer (peerToIP r) else peerToIP r
           | None => peerToIP r
           end in
  with_maps r (<[ipStr := pubKey]> i) (<[pubKey := virtualIP]> p).

Definition RemoveRoute (r : Router) (pubKey : string) : Router * option IP :=
  if String.eqb pubKey (localPubKey r) then (r, None) else
  match peerToIP r !! pubKey with
  | None => (r, None)
  | Some ip =>
      (with_maps r (delete (ip_String ip) (ipToPeer r)) (delete pubKey (peerToIP r)), Some ip)
  end.

(** The key found and whether it was removed. *)
Definition RemoveByIP (r : Router) (virtualIP : IP) : Router * (string * bool) :=
  let ipStr := ip_String virtualIP in
  match ipToPeer r !! ipStr with
  | None => (r, (""%string, false))
  | Some pubKey =>
      if String.eqb pubKey (localPubKey r) then (r, (pubKey, false)) else
      (with_maps r (delete ipStr (ipToPeer r)) (delete pubKey (peerToIP r)), (pubKey, true))
  end.

Definition ResolveIP (r : Router) (virtualIP : IP) : option string := ipToPeer r !! ip_String virtualIP.
Definition ResolvePeer (r : Router) (pubKey : string) : option IP := peerToIP r !! pubKey.
Definition IsLocalIP (r : Router) (ip : IP) : bool :=
  match localIP r with None => false | Some l => ip_Equal l ip end.
Definition IsInSubnet (r : Router) (ip : IP) : bool :=
  match subnet r with None => false | Some n => Contains n ip end.
Definition IsSelf (r : Router) (pubKey : string) : bool := String.eqb pubKey (localPubKey r).
Definition RouteCount (r : Router) : Z :=
  len (filter (fun kv : string * IP => kv.1 <> localPubKey r) (map_to_list (peerToIP r))).
Definition AllRoutes (r : Router) : gmap string string := ipToPeer r.

Record PeerRoute : Type := MkPeerRoute { PublicKey : string; VirtualIP : option IP }.

(** The loop of [SyncFromPeers] over the peers. *)
Fixpoint sync_loop (peers : list PeerRoute) (newIPs : gmap string string)
    (newPeers : gmap string IP) : gmap string string * gmap string IP :=
  match peers with
  | [] => (newIPs, newPeers)
  | p :: peers =>
      match VirtualIP p with
      | None => sync_loop peers newIPs newPeers
      | Some ip =>
          if String.eqb (PublicKey p) "" then sync_loop peers newIPs newPeers else
          match newIPs !! ip_String ip with
          | Some _ => sync_loop peers newIPs newPeers
          | None => sync_loop peers (<[ip_String ip := PublicKey p]> newIPs)
                      (<[PublicKey p := ip]> newPeers)
          end
      end
  end.

Definition SyncFromPeers (r : Router) (peers : list PeerRoute) : Router :=
  let '(newIPs, newPeers) := sync_loop peers ∅ ∅ in
  match localIP r with
  | None => with_maps r newIPs newPeers
  | Some l => with_maps r (<[ip_String l := localPubKey r]> newIPs)
                (<[localPubKey r := l]> newPeers)
  end.

(** ** Consistency *)

(** The two maps are inverse to each other. *)
Definition consistent (i : gmap string string) (p : gmap string IP) : Prop :=
  forall s k, i !! s = Some k <-> exists ip, p !! k = Some ip /\ ip_String ip = s.

Lemma consistent_empty : consistent ∅ ∅.
Proof.
  intros s k. rewrite lookup_empty. split; [done|]. intros (ip & H & _). by rewrite lookup_empty in H.
Qed.

(** Enter a pair whose text and key are both unused. *)
Lemma consistent_insert i p k ip :
  consistent i p -> i !! ip_String ip = None -> p !! k = None ->
  consistent (<[ip_String ip := k]> i) (<[k := ip]> p).
Proof.
  intros Hc Hi Hp s k'. split.
  - intros [[<- <-]|[Hne Hs]]%lookup_insert_Some; [exists ip; by rewrite lookup_insert_eq|].
    apply Hc in Hs as (ip' & Hk & Ht). exists ip'. split; [|done].
    rewrite lookup_insert_ne; [done | congruence].
  - intros (ip' & [[<- <-]|[Hne Hk]]%lookup_insert_Some & Hs).
    + rewrite <-Hs. apply lookup_insert_eq.
    + assert (i !! s = Some k') as Hs' by (apply Hc; eauto).
      rewrite lookup_insert_ne; [done | congruence].
Qed.

(** Remove a pair from both maps. *)
Lemma consistent_delete i p k ip :
  consistent i p -> p !! k = Some ip -> consistent (delete (ip_String ip) i) (delete k p).
Proof.
  intros Hc Hk s k'. rewrite lookup_delete_Some, (Hc s k'). split.
  - intros [Hne (ip' & Hk' & Hs)]. exists ip'. split; [|done].
    apply lookup_delete_Some. split; [|done]. intros <-. rewrite Hk in Hk'. congruence.
  - intros (ip' & [Hne Hk']%lookup_delete_Some & Hs). split; [|eauto].
    intros Heq. apply Hne.
    assert (i !! s = Some k') as H1 by (apply Hc; eauto).
    assert (i !! s = Some k) as H2 by (apply Hc; eauto). congruence.
Qed.

Lemma consistent_unused i p k : consistent i p -> p !! k = None -> forall s, i !! s <> Some k.
Proof. intros Hc Hk s H. apply Hc in H as (ip & Hip & _). congruence. Qed.

(** [AddRoute] removes what the address or the key had and enters the pair. *)
(** The address map without the old address of [k] and without [s], and the
    peer map without [k] and without the old owner of [s]. *)
Definition without_key (r : Router) (k : string) : gmap string string :=
  match peerToIP r !! k with Some old => delete (ip_String old) (ipToPeer r) | None => ipToPeer r end.
Definition without_owner (r : Router) (k s : string) (p : gmap string IP) : gmap string IP :=
  match without_key r k !! s with Some o => delete o p | None => p end.

Lemma without_key_consistent r k :
  consistent (ipToPeer r) (peerToIP r) ->
  consistent (without_key r k) (delete k (peerToIP r)) /\
  forall s k', without_key r k !! s = Some k' <-> ipToPeer r !! s = Some k' /\ k' <> k.
Proof.
  intros Hc. assert (consistent (without_key r k) (delete k (peerToIP r))) as Hc1.
  { unfold without_key. destruct (peerToIP r !! k) as [old|] eqn:E; [by apply consistent_delete|].
    by rewrite delete_id. }
  split; [done|]. intros s k'. rewrite (Hc1 s k'), (Hc s k'). split.
  - intros (ip' & [Hne Hk']%lookup_delete_Some & Hs). eauto.
  - intros [(ip' & Hk' & Hs) Hne]. exists ip'. rewrite lookup_delete_ne; done.
Qed.

(** Removing before inserting is what the two guarded deletions of
    [AddRoute] amount to. *)
Lemma AddRoute_ipToPeer r ip k :
  ipToPeer (AddRoute r ip k) = <[ip_String ip := k]> (delete (ip_String ip) (without_key r k)).
Proof.
  unfold AddRoute, without_key. cbn [ipToPeer with_maps]. apply map_eq. intros s.
  destruct (decide (ip_String ip = s)) as [<-|Hs]; [by rewrite !lookup_insert_eq|].
  rewrite !lookup_insert_ne, lookup_delete_ne by done.
  destruct (peerToIP r !! k) as [old|]; [|done].
  destruct (String.eqb_spec (ip_String old) (ip_String ip)) as [Heq|]; [|done]. cbn [negb].
  by rewrite lookup_delete_ne by congruence.
Qed.

Lemma AddRoute_peerToIP r ip k :
  consistent (ipToPeer r) (peerToIP r) ->
  peerToIP (AddRoute r ip k) =
  <[k := ip]> (without_owner r k (ip_String ip) (delete k (peerToIP r))).
Proof.
  intros Hc.
  assert (<[k := ip]> (without_owner r k (ip_String ip) (delete k (peerToIP r))) =
          <[k := ip]> (without_owner r k (ip_String ip) (peerToIP r))) as ->.
  { unfold without_owner. apply map_eq. intros k'. destruct (decide (k = k')) as [<-|Hk];
      [by rewrite !lookup_insert_eq|]. rewrite !lookup_insert_ne by done.
    destruct (without_key r k !! ip_String ip) as [o|]; [|by rewrite lookup_delete_ne].
    destruct (decide (o = k')) as [->|]; [by rewrite !lookup_delete_eq|].
    by rewrite !lookup_delete_ne. }
  unfold AddRoute, without_owner, without_key. cbn [peerToIP with_maps]. apply map_eq. intros k'.
  destruct (decide (k = k')) as [<-|Hk]; [by rewrite !lookup_insert_eq|].
  rewrite !lookup_insert_ne by done.
  destruct (peerToIP r !! k) as [old|] eqn:E.
  - destruct (String.eqb_spec (ip_String old) (ip_String ip)) as [Heq|]; cbn [negb].
    + assert (ipToPeer r !! ip_String ip = Some k) as -> by (apply Hc; eauto).
      by rewrite String.eqb_refl, Heq, lookup_delete_eq.
    + destruct (delete _ _ !! ip_String ip) as [o|] eqn:Eo; [|done].
      destruct (String.eqb_spec o k) as [->|]; [|done]. exfalso.
      apply lookup_delete_Some in Eo as [_ Eo]. apply Hc in Eo as (ip' & E' & ?). congruence.
  - destruct (ipToPeer r !! ip_String ip) as [o|] eqn:Eo; [|done].
    destruct (String.eqb_spec o k) as [->|]; [|done]. exfalso.
    apply Hc in Eo as (ip' & E' & ?). congruence.
Qed.

Lemma AddRoute_maps r ip k :
  consistent (ipToPeer r) (peerToIP r) ->
  exists i p, consistent i p /\ i !! ip_String ip = None /\ p !! k = None /\
    ipToPeer (AddRoute r ip k) = <[ip_String ip := k]> i /\
    peerToIP (AddRoute r ip k) = <[k := ip]> p /\
    (forall s k', i !! s = Some k' <->
       ipToPeer r !! s = Some k' /\ s <> ip_String ip /\ k' <> k).
Proof.
  intros Hc. destruct (without_key_consistent r k Hc) as [Hc1 Hi1].
  exists (delete (ip_String ip) (without_key r k)),
    (without_owner r k (ip_String ip) (delete k (peerToIP r))).
  split_and!; [| apply lookup_delete_eq | | apply AddRoute_ipToPeer | by apply AddRoute_peerToIP |].
  - unfold without_owner. destruct (without_key r k !! _) as [o|] eqn:E; [|by rewrite delete_id].
    pose proof (proj1 (Hc1 _ _) E) as (ip' & Hk' & <-). by apply consistent_delete.
  - unfold without_owner. destruct (without_key r k !! _) as [o|]; [|apply lookup_delete_eq].
    destruct (decide (o = k)) as [->|]; [apply lookup_delete_eq|].
    rewrite lookup_delete_ne by done. apply lookup_delete_eq.
  - intros s k'. rewrite lookup_delete_Some, Hi1. naive_solver.
Qed.

Lemma AddRoute_consistent r ip k :
  consistent (ipToPeer r) (peerToIP r) ->
  consistent (ipToPeer (AddRoute r ip k)) (peerToIP (AddRoute r ip k)).
Proof.
  intros Hc. destruct (AddRoute_maps r ip k Hc) as (i & p & Hc' & Hi & Hp & -> & -> & _).
  by apply consistent_insert.
Qed.

Lemma sync_loop_consistent peers : forall i p,
  consistent i p -> NoDup (PublicKey <$> peers) ->
  (forall q, q ∈ peers -> p !! PublicKey q = None) ->
  consistent (sync_loop peers i p).1 (sync_loop peers i p).2 /\
  (forall k ip, (sync_loop peers i p).2 !! k = Some ip ->
     p !! k = Some ip \/ MkPeerRoute k (Some ip) ∈ peers).
Proof.
  induction peers as [|[k v] peers IH]; intros i p Hc Hnd Hnew; cbn [sync_loop]; [by auto|].
  apply NoDup_cons in Hnd as [Hk Hnd]. cbn [VirtualIP PublicKey] in *.
  assert (forall q, q ∈ peers -> p !! PublicKey q = None) as Hnew' by (intros q Hq; apply Hnew; by right).
  assert (consistent (sync_loop peers i p).1 (sync_loop peers i p).2 /\
    (forall k' ip, (sync_loop peers i p).2 !! k' = Some ip ->
       p !! k' = Some ip \/ MkPeerRoute k' (Some ip) ∈ MkPeerRoute k v :: peers)) as Hskip.
  { destruct (IH i p Hc Hnd Hnew') as [H1 H2]. split; [done|].
    intros k' ip Hl. destruct (H2 k' ip Hl); [by left | right; by right]. }
  destruct v as [ip|]; [|exact Hskip].
  destruct (String.eqb k ""); [exact Hskip|].
  destruct (i !! ip_String ip) as [o|] eqn:Eo; [exact Hskip|].
  pose proof (Hnew (MkPeerRoute k (Some ip)) ltac:(left)) as Hpk. cbn in Hpk.
  destruct (IH (<[ip_String ip := k]> i) (<[k := ip]> p)) as [H1 H2]; [by apply consistent_insert|done| |].
  - intros q Hq. rewrite lookup_insert_ne; [by apply Hnew'|]. intros ->.
    apply Hk, list_elem_of_fmap. eauto.
  - split; [done|]. intros k' ip' Hl. destruct (H2 k' ip' Hl) as [Hi|Hi]; [|right; by right].
    apply lookup_insert_Some in Hi as [[<- <-]|[_ Hi]]; [right; left | by left].
Qed.

(** ** Operation sequences *)
Inductive op : Type :=
| OpSetLocal (ip : IP) | OpAdd (ip : IP) (k : string) | OpRemove (k : string)
| OpRemoveByIP (ip : IP) | OpSync (peers : list PeerRoute).

Definition run_op (r : Router) (o : op) : Router :=
  match o with
  | OpSetLocal ip => SetLocalIP r ip
  | OpAdd ip k => AddRoute r ip k
  | OpRemove k => (RemoveRoute r k).1
  | OpRemoveByIP ip => (RemoveByIP r ip).1
  | OpSync peers => SyncFromPeers r peers
  end.

(** What the callers must respect: the local address is set while no other
    peer holds it and the route of the local key is the previous local
    address; in a synchronisation every peer is announced once, and none with
    the local key or the local address. *)
Definition admissible (r : Router) (o : op) : Prop :=
  match o with
  | OpSetLocal ip =>
      (forall k, ipToPeer r !! ip_String ip = Some k -> k = localPubKey r) /\
      ip_String <$> peerToIP r !! localPubKey r = ip_String <$> localIP r
  | OpSync peers =>
      NoDup (PublicKey <$> peers) /\
      forall q, q ∈ peers -> forall l, localIP r = Some l ->
        PublicKey q <> localPubKey r /\ (ip_String <$> VirtualIP q) <> Some (ip_String l)
  | _ => True
  end.

Lemma SetLocalIP_consistent r ip :
  consistent (ipToPeer r) (peerToIP r) -> admissible r (OpSetLocal ip) ->
  consistent (ipToPeer (SetLocalIP r ip)) (peerToIP (SetLocalIP r ip)).
Proof.
  intros Hc [Hfree Hold]. unfold SetLocalIP. cbn [ipToPeer peerToIP]. set (lk := localPubKey r) in *.
  destruct (peerToIP r !! lk) as [old|] eqn:E.
  - destruct (localIP r) as [l|]; [|done]. cbn in Hold. injection Hold as <-.
    pose proof (consistent_delete _ _ _ _ Hc E) as Hd.
    rewrite <-(insert_delete_eq (peerToIP r)).
    destruct (String.eqb_spec (ip_String old) (ip_String ip)) as [Heq|Hne].
    + rewrite <-(insert_delete_eq (ipToPeer r)). rewrite Heq in Hd.
      apply consistent_insert; [done | apply lookup_delete_eq..].
    + apply consistent_insert; [done | | apply lookup_delete_eq].
      rewrite lookup_delete_ne by done. apply eq_None_not_Some. intros [k Hk].
      pose proof (Hfree _ Hk) as ->. apply Hc in Hk as (ip' & E' & ?). congruence.
  - destruct (localIP r) as [l|]; [done|]. apply consistent_insert; [done | | done].
    apply eq_None_not_Some. intros [k Hk]. pose proof (Hfree _ Hk) as ->.
    by eapply consistent_unused.
Qed.

Lemma SyncFromPeers_consistent r peers :
  admissible r (OpSync peers) ->
  consistent (ipToPeer (SyncFromPeers r peers)) (peerToIP (SyncFromPeers r peers)).
Proof.
  intros [Hnd Hloc]. unfold SyncFromPeers.
  destruct (sync_loop_consistent peers ∅ ∅ consistent_empty Hnd) as [Hc Hin];
    [intros; apply lookup_empty|].
  destruct (sync_loop peers ∅ ∅) as [i p]. cbn [fst snd] in *.
  destruct (localIP r) as [l|]; [|exact Hc]. cbn [ipToPeer peerToIP with_maps].
  assert (forall k ip, p !! k = Some ip -> k <> localPubKey r /\ ip_String ip <> ip_String l) as Hp.
  { intros k ip Hk. destruct (Hin k ip Hk) as [Hx|Hx]; [by rewrite lookup_empty in Hx|].
    destruct (Hloc _ Hx l eq_refl) as [H1 H2]. split; [exact H1|]. intros Heq. apply H2. cbn. congruence. }
  apply consistent_insert; [done|..].
  - apply eq_None_not_Some. intros [k Hk]. apply Hc in Hk as (ip & Hk & Hs). by apply Hp in Hk as [_ ?].
  - apply eq_None_not_Some. intros [ip Hk]. by apply Hp in Hk as [? _].
Qed.

Lemma run_op_consistent r o :
  consistent (ipToPeer r) (peerToIP r) -> admissible r o ->
  consistent (ipToPeer (run_op r o)) (peerToIP (run_op r o)).
Proof.
  intros Hc Ha. destruct o as [ip|ip k|k|ip|peers]; cbn [run_op].
  - by apply SetLocalIP_consistent.
  - by apply AddRoute_consistent.
  - unfold RemoveRoute. destruct (String.eqb _ _); [done|].
    destruct (peerToIP r !! k) as [ip|] eqn:E; [|done]. by apply consistent_delete.
  - unfold RemoveByIP. destruct (ipToPeer r !! ip_String ip) as [k|] eqn:E; [|done].
    destruct (String.eqb _ _); [done|]. apply Hc in E as (ip' & Hk & <-).
    by apply consistent_delete.
  - by apply SyncFromPeers_consistent.
Qed.

(** Sequences of admissible operations. *)
Inductive routed (r0 : Router) : Router -> Prop :=
| routed_init : routed r0 r0
| routed_op r o : routed r0 r -> admissible r o -> routed r0 (run_op r o).

(** C38. The routing table stays a bijection: after any sequence of
    admissible operations on a new table, resolving an address gives a key
    exactly when resolving that key gives an address with the same text; in
    particular no two keys share an address and no key is left behind. *)
Theorem router_bijective n key r ip k :
  routed (NewRouter n key) r ->
  (ResolveIP r ip = Some k <->
   exists ip', ResolvePeer r k = Some ip' /\ ip_String ip' = ip_String ip) /\
  (forall k', ResolvePeer r k = Some ip -> ResolvePeer r k' = Some ip -> k = k').
Proof.
  intros Hr. assert (consistent (ipToPeer r) (peerToIP r)) as Hc.
  { induction Hr as [|r o _ IH Ha]; [apply consistent_empty | by apply run_op_consistent]. }
  split; [apply Hc|]. unfold ResolvePeer. intros k' H1 H2.
  assert (ipToPeer r !! ip_String ip = Some k) as E1 by (apply Hc; eauto).
  assert (ipToPeer r !! ip_String ip = Some k') as E2 by (apply Hc; eauto). congruence.
Qed.

Lemma router_bijective_witness :
  let ip1 := [x0a; x00; x00; x01] in let ip2 := [x0a; x00; x00; x02] in
  let r := run_op (run_op (NewRouter None "me") (OpSetLocal ip1)) (OpAdd ip2 "bob") in
  ResolveIP r ip2 = Some "bob"%string.
Proof.
  intros ip1 ip2 r.
  assert (routed (NewRouter None "me") r) as Hr.
  { apply routed_op; [|done]. apply routed_op; [constructor|]. by split. }
  apply (router_bijective None "me" r ip2 "bob" Hr). exists ip2. by split.
Defined.

(** [AddRoute] is last-writer-wins: on a consistent table the new pair
    resolves both ways; the key's former address and the address's former
    owner resolve to nothing; every other route is unchanged. *)
Theorem AddRoute_last_writer_wins r ip k :
  consistent (ipToPeer r) (peerToIP r) ->
  let r' := AddRoute r ip k in
  ResolveIP r' ip = Some k /\ ResolvePeer r' k = Some ip /\
  (forall s, s <> ip_String ip -> ipToPeer r !! s = Some k -> ipToPeer r' !! s = None) /\
  (forall k', k' <> k -> ipToPeer r !! ip_String ip = Some k' -> ResolvePeer r' k' = None) /\
  (forall s k', s <> ip_String ip -> k' <> k ->
     ipToPeer r' !! s = Some k' <-> ipToPeer r !! s = Some k').
Proof.
  intros Hc r'. destruct (AddRoute_maps r ip k Hc) as (i & p & Hc' & Hi & Hp & Ei & Ep & Hother).
  unfold ResolveIP, ResolvePeer. subst r'. rewrite Ei, Ep. split_and!.
  - apply lookup_insert_eq.
  - apply lookup_insert_eq.
  - intros s Hs Hk. rewrite lookup_insert_ne by done. apply eq_None_not_Some. intros [k' Hk'].
    apply Hother in Hk' as (? & _ & ?). congruence.
  - intros k' Hne Hk'. rewrite lookup_insert_ne by done. apply eq_None_not_Some. intros [ip' Hl].
    assert (i !! ip_String ip' = Some k') as H1 by (apply Hc'; eauto).
    pose proof (proj1 (Hother _ _) H1) as (H2 & Hs & _).
    apply Hc in H2 as (ip1 & E1 & T1). apply Hc in Hk' as (ip2 & E2 & T2). congruence.
  - intros s k' Hs Hk. rewrite lookup_insert_ne by done. rewrite Hother. naive_solver.
Qed.

Lemma AddRoute_last_writer_wins_witness :
  let ip1 := [x0a; x00; x00; x01] in
  ResolveIP (AddRoute (AddRoute (NewRouter None "me") ip1 "bob") ip1 "eve") ip1 = Some "eve"%string /\
  ResolvePeer (AddRoute (AddRoute (NewRouter None "me") ip1 "bob") ip1 "eve") "bob" = None.
Proof.
  intros ip1.
  destruct (AddRoute_last_writer_wins (AddRoute (NewRouter None "me") ip1 "bob") ip1 "eve")
    as (H1 & _ & _ & H4 & _).
  - apply AddRoute_consistent, consistent_empty.
  - split; [exact H1|]. apply H4; [discriminate | reflexivity].
Defined.

(** ** Where the bijection is lost *)

(** [SetLocalIP] leaves the route of a peer that held the address: the peer
    still resolves to the address that is now the node's own. *)
Theorem SetLocalIP_keeps_stale_peer :
  let ip := [x0a; x00; x00; x05] in
  let r := SetLocalIP (AddRoute (NewRouter None "me") ip "bob") ip in
  ResolveIP r ip = Some "me"%string /\ ResolvePeer r "bob" = Some ip /\ RouteCount r = 1.
Proof. by vm_compute. Qed.

(** [AddRoute] for another peer on the local address removes the node's own
    route, which [RemoveRoute] and [RemoveByIP] refuse to do. *)
Theorem AddRoute_removes_self :
  let ip := [x0a; x00; x00; x05] in
  let r := AddRoute (SetLocalIP (NewRouter None "me") ip) ip "bob" in
  IsLocalIP r ip = true /\ ResolveIP r ip = Some "bob"%string /\ ResolvePeer r "me" = None.
Proof. by vm_compute. Qed.

End TunRouter.
