(* ===== verification/SecureConn.v ===== *)
(** * Encrypted connection (internal/crypto/secure_conn.go, aead.go)

    AES-256-GCM framing of messages over a byte stream, the layer below smux.
    The AEAD is a parameter; the transport is the bytes still to arrive and
    the bytes handed over so far. [Read] and [Write] hold different mutexes
    and share no state but [closed], and [SetKeys] holds both mutexes, so each
    operation is one step. The theorems show that messages arrive in order
    and unchanged across key rotations, what an attacker who owns the wire can
    achieve, and that no nonce is used twice. *)
From stdpp Require Import prelude list strings.
From Stdlib Require Import Strings.Byte ZArith Lia.
From S2P Require Import Prelude GoBytes.
Local Open Scope Z_scope.

Module Secure.

Definition TagSize : Z := 16.
Definition NonceSize : Z := 12.
Definition KeySize : Z := 32.
Definition MaxMessageSize : Z := 65535 - TagSize.

Inductive secure_error : Type :=
| ErrMessageTooLarge
| ErrAuthenticationFailed
| ErrInvalidKey (n : option Z) (* with the length when the text has it *)
| ErrConnClosed
| ErrShortBuffer
| ReplayOrDesync (nonce expected : Z)
| KeySizeError (n : Z)
| ConnRead (e : io_error)
| ConnWrite.

(** [conn] is the transport: [rx] the bytes still to be read from it, [tx] the
    bytes written to it. An AEAD is represented by its key. *)
Record SecureConn : Type := MkSecureConn {
  rx : list byte;
  tx : list byte;
  connClosed : bool;
  sendAEAD : list byte;
  recvAEAD : list byte;
  sendNonce : Z;
  recvNonce : Z;
  closed : bool
}.

(** [aes.NewCipher] refuses keys that are not 16, 24 or 32 bytes long. *)
Definition newAESGCM (key : list byte) : result secure_error (list byte) :=
  if bool_decide (len key ∈ [16; 24; 32]) then Ok key else Err (KeySizeError (len key)).

Definition NewSecureConn (incoming sendKey recvKey : list byte)
    : result secure_error SecureConn :=
  if negb (len sendKey =? KeySize) then Err (ErrInvalidKey (Some (len sendKey))) else
  if negb (len recvKey =? KeySize) then Err (ErrInvalidKey (Some (len recvKey))) else
  sendAEAD ← newAESGCM sendKey;
  recvAEAD ← newAESGCM recvKey;
  Ok {| rx := incoming; tx := []; connClosed := false; sendAEAD := sendAEAD;
        recvAEAD := recvAEAD; sendNonce := 0; recvNonce := 0; closed := false |}.

(** The counter fills the lower eight bytes of a zeroed nonce; only these
    are read back. *)
Definition nonceFromUint64 (v : Z) : list byte := replicate 4 x00 ++ be_bytes 8 v.
Definition nonceToUint64 (nonce : list byte) : Z := be_Z (drop 4 nonce).

Definition with_rx (r : list byte) (sc : SecureConn) : SecureConn :=
  {| rx := r; tx := tx sc; connClosed := connClosed sc; sendAEAD := sendAEAD sc;
     recvAEAD := recvAEAD sc; sendNonce := sendNonce sc; recvNonce := recvNonce sc;
     closed := closed sc |}.
Definition with_tx (t : list byte) (sc : SecureConn) : SecureConn :=
  {| rx := rx sc; tx := t; connClosed := connClosed sc; sendAEAD := sendAEAD sc;
     recvAEAD := recvAEAD sc; sendNonce := sendNonce sc; recvNonce := recvNonce sc;
     closed := closed sc |}.
Definition with_sendNonce (n : Z) (sc : SecureConn) : SecureConn :=
  {| rx := rx sc; tx := tx sc; connClosed := connClosed sc; sendAEAD := sendAEAD sc;
     recvAEAD := recvAEAD sc; sendNonce := n; recvNonce := recvNonce sc;
     closed := closed sc |}.
Definition with_recvNonce (n : Z) (sc : SecureConn) : SecureConn :=
  {| rx := rx sc; tx := tx sc; connClosed := connClosed sc; sendAEAD := sendAEAD sc;
     recvAEAD := recvAEAD sc; sendNonce := sendNonce sc; recvNonce := n;
     closed := closed sc |}.

Section AEAD.
(** [Seal(nil, nonce, plaintext, nil)] and [Open(nil, nonce, ciphertext, nil)]
    of the AEAD with a key. *)
Context (seal : list byte -> list byte -> list byte -> list byte).
Context (open : list byte -> list byte -> list byte -> option (list byte)).

(** [io.ReadFull] on the connection: a failed read has consumed all that
    was left. *)
Definition conn_read (sc : SecureConn) (n : Z)
    : SecureConn * result secure_error (list byte) :=
  match read_full (rx sc) n with
  | Ok (b, r) => (with_rx r sc, Ok b)
  | Err e => (with_rx [] sc, Err (ConnRead e))
  end.

(** [Read] into a buffer of [n] bytes: the bytes copied and the error. *)
Definition Read (sc : SecureConn) (n : Z) : SecureConn * (list byte * option secure_error) :=
  if closed sc then (sc, ([], Some ErrConnClosed)) else
  match conn_read sc 2 with (sc, Err e) => (sc, ([], Some e)) | (sc, Ok lenBuf) =>
  let ciphertextLen := be_Z lenBuf in
  match conn_read sc NonceSize with (sc, Err e) => (sc, ([], Some e)) | (sc, Ok nonceBuf) =>
  let nonce := nonceToUint64 nonceBuf in
  if negb (nonce =? recvNonce sc)
  then (sc, ([], Some (ReplayOrDesync nonce (recvNonce sc)))) else
  let sc := with_recvNonce (u64 (recvNonce sc + 1)) sc in
  match conn_read sc ciphertextLen with (sc, Err e) => (sc, ([], Some e)) | (sc, Ok ciphertext) =>
  match open (recvAEAD sc) nonceBuf ciphertext with
  | None => (sc, ([], Some ErrAuthenticationFailed))
  | Some plaintext =>
      (sc, (take (Z.to_nat n) plaintext,
            if Z.max 0 n <? len plaintext then Some ErrShortBuffer else None))
  end end end end.

(** The record a [Write] hands to the transport; the counter advances when
    it is built. *)
Definition write_frame (sc : SecureConn) (p : list byte) : SecureConn * list byte :=
  let nonce := nonceFromUint64 (sendNonce sc) in
  let sc := with_sendNonce (u64 (sendNonce sc + 1)) sc in
  let ciphertext := seal (sendAEAD sc) nonce p in
  (sc, be_bytes 2 (u16 (len ciphertext)) ++ nonce ++ ciphertext).

(** [failed] is the outcome of the transport: [None] when it took the whole
    record, [Some k] when it failed after [k] bytes. *)
Definition Write (sc : SecureConn) (p : list byte) (failed : option nat)
    : SecureConn * result secure_error Z :=
  if MaxMessageSize <? len p then (sc, Err ErrMessageTooLarge) else
  if closed sc then (sc, Err ErrConnClosed) else
  let '(sc, record) := write_frame sc p in
  match failed with
  | Some k => (with_tx (tx sc ++ take k record) sc, Err ConnWrite)
  | None => (with_tx (tx sc ++ record) sc, Ok (len p))
  end.
End AEAD.

Definition Close (sc : SecureConn) : SecureConn :=
  if closed sc then sc else
  {| rx := rx sc; tx := tx sc; connClosed := true; sendAEAD := sendAEAD sc;
     recvAEAD := recvAEAD sc; sendNonce := sendNonce sc; recvNonce := recvNonce sc;
     closed := true |}.

(** The counters are not reset. *)
Definition SetKeys (sc : SecureConn) (sendKey recvKey : list byte)
    : SecureConn * option secure_error :=
  if negb (len sendKey =? KeySize) || negb (len recvKey =? KeySize)
  then (sc, Some (ErrInvalidKey None)) else
  match newAESGCM sendKey, newAESGCM recvKey with
  | Ok s, Ok r =>
      ({| rx := rx sc; tx := tx sc; connClosed := connClosed sc; sendAEAD := s; recvAEAD := r;
          sendNonce := sendNonce sc; recvNonce := recvNonce sc; closed := closed sc |}, None)
  | Err e, _ | _, Err e => (sc, Some e)
  end.

(** ** Nonces *)

Lemma nonceFromUint64_length v : length (nonceFromUint64 v) = 12%nat.
Proof. unfold nonceFromUint64. by rewrite length_app, be_bytes_length. Qed.
#[local] Hint Rewrite nonceFromUint64_length : len.

Lemma nonce_roundtrip v : 0 <= v < 2 ^ 64 -> nonceToUint64 (nonceFromUint64 v) = v.
Proof.
  intros Hv. unfold nonceToUint64, nonceFromUint64.
  rewrite drop_app_length' by done. by apply be_Z_u64.
Qed.

Lemma nonceFromUint64_inj v w :
  0 <= v < 2 ^ 64 -> 0 <= w < 2 ^ 64 -> nonceFromUint64 v = nonceFromUint64 w -> v = w.
Proof. intros Hv Hw H. by rewrite <-(nonce_roundtrip v), <-(nonce_roundtrip w), H. Qed.

Lemma SetKeys_ok sc a b :
  len a = KeySize -> len b = KeySize ->
  SetKeys sc a b =
  ({| rx := rx sc; tx := tx sc; connClosed := connClosed sc; sendAEAD := a; recvAEAD := b;
      sendNonce := sendNonce sc; recvNonce := recvNonce sc; closed := closed sc |}, None).
Proof.
  intros Ha Hb. unfold SetKeys, newAESGCM. rewrite Ha, Hb. cbn [KeySize negb orb Z.eqb Pos.eqb].
  by rewrite bool_decide_true by (unfold KeySize; set_solver).
Qed.

(** ** Messages in order *)

Section Channel.
Context (seal : list byte -> list byte -> list byte -> list byte).
Context (open : list byte -> list byte -> list byte -> option (list byte)).

(** What an application does with a connection: send messages and rotate the
    keys (the peer installs the same pair with the roles exchanged). *)
Inductive event : Type :=
| Message (p : list byte)
| Rotate (k1 k2 : list byte).

Definition messages (evs : list event) : list (list byte) :=
  omap (fun e => match e with Message p => Some p | Rotate _ _ => None end) evs.

Fixpoint send_all (sc : SecureConn) (evs : list event)
    : SecureConn * list (result secure_error Z) :=
  match evs with
  | [] => (sc, [])
  | Message p :: evs =>
      let '(sc, r) := Write seal sc p None in
      let '(sc, rs) := send_all sc evs in (sc, r :: rs)
  | Rotate k1 k2 :: evs => send_all (SetKeys sc k1 k2).1 evs
  end.

Fixpoint receive_all (n : Z) (sc : SecureConn) (evs : list event)
    : SecureConn * list (list byte * option secure_error) :=
  match evs with
  | [] => (sc, [])
  | Message _ :: evs =>
      let '(sc, r) := Read open sc n in
      let '(sc, rs) := receive_all n sc evs in (sc, r :: rs)
  | Rotate k1 k2 :: evs => receive_all n (SetKeys sc k2 k1).1 evs
  end.

Definition valid (n : Z) (e : event) : Prop :=
  match e with
  | Message p => len p <= MaxMessageSize /\ len p <= n
  | Rotate k1 k2 => len k1 = KeySize /\ len k2 = KeySize
  end.

(** The receiving end of [s] is [r]. *)
Definition paired (s r : SecureConn) : Prop :=
  closed s = false /\ closed r = false /\ sendAEAD s = recvAEAD r /\
  sendNonce s = recvNonce r /\ 0 <= sendNonce s < 2 ^ 64.

Context (open_seal : forall k nonce p, open k nonce (seal k nonce p) = Some p).
Context (seal_length : forall k nonce p, len (seal k nonce p) = len p + TagSize).

Lemma write_read s r p n rest :
  paired s r -> valid n (Message p) ->
  rx r = (write_frame seal s p).2 ++ rest ->
  exists r', Read open r n = (r', (p, None)) /\ rx r' = rest /\
    closed r' = false /\ recvAEAD r' = recvAEAD r /\ recvNonce r' = u64 (recvNonce r + 1).
Proof.
  intros (Hcs & Hcr & Hk & Hn & Hrange) [Hmax Hcap] Hrx.
  unfold write_frame in Hrx. cbn [snd with_sendNonce sendAEAD] in Hrx.
  pose proof (seal_length (sendAEAD s) (nonceFromUint64 (sendNonce s)) p) as Hlen.
  unfold MaxMessageSize, TagSize in *.
  rewrite u16_small in Hrx by lia. rewrite <-!app_assoc in Hrx.
  unfold Read. rewrite Hcr. unfold conn_read at 1.
  rewrite Hrx, read_full_app by len_lia. unfold conn_read at 1. cbn [with_rx rx recvNonce].
  rewrite read_full_app by (unfold NonceSize; len_lia).
  cbn [with_rx rx recvNonce]. rewrite nonce_roundtrip, (proj2 (Z.eqb_eq _ _) Hn) by done. cbn [negb].
  unfold conn_read at 1. cbn [with_rx with_recvNonce rx].
  rewrite be_Z_u16 by lia. rewrite read_full_app by done.
  cbn [with_rx with_recvNonce recvAEAD]. rewrite <-Hk, open_seal.
  rewrite take_ge by lia. rewrite (proj2 (Z.ltb_ge _ _)) by lia.
  eexists. split; [done|]. split_and!; cbn; congruence.
Qed.

Lemma Rotate_paired s r k1 k2 :
  paired s r -> len k1 = KeySize -> len k2 = KeySize ->
  paired (SetKeys s k1 k2).1 (SetKeys r k2 k1).1 /\
  tx (SetKeys s k1 k2).1 = tx s /\ rx (SetKeys r k2 k1).1 = rx r.
Proof. intros (? & ? & ? & ? & ?) ? ?. rewrite !SetKeys_ok by done. by split_and!. Qed.

(** C34. The encrypted connection is a reliable message channel: whatever
    messages within the size limit are written, with whatever key rotations
    between them, every [Write] reports the whole message and a peer that
    reads the bytes put on the wire with large enough buffers, rotating at
    the same points, gets exactly these messages, in order and without an
    error, and leaves what follows them on the wire unread. *)
Theorem secure_messages_in_order evs s n :
  closed s = false -> 0 <= sendNonce s < 2 ^ 64 -> Forall (valid n) evs ->
  exists s' wire, send_all s evs = (s', (fun p => Ok (len p)) <$> messages evs) /\
    tx s' = tx s ++ wire /\
    forall r rest, paired s r -> rx r = wire ++ rest -> exists r',
       receive_all n r evs = (r', (fun p => (p, None)) <$> messages evs) /\
       rx r' = rest /\ paired s' r'.
Proof.
  intros Hc Hn Hv. revert s Hc Hn. induction Hv as [|e evs He Hv IH]; intros s Hc Hn; cbn.
  { exists s, []. rewrite app_nil_r. split_and!; [done..|]. intros r rest Hp Hrx. by exists r. }
  destruct e as [p|k1 k2].
  - pose proof He as [Hmax _].
    unfold Write. rewrite (proj2 (Z.ltb_ge _ _)), Hc by done.
    destruct (write_frame seal s p) as [s1 record] eqn:Ew.
    assert (s1 = with_sendNonce (u64 (sendNonce s + 1)) s) as -> by by injection Ew.
    cbv iota beta. change (tx (with_sendNonce _ s)) with (tx s).
    destruct (IH (with_tx (tx s ++ record) (with_sendNonce (u64 (sendNonce s + 1)) s)))
      as (s' & wire & -> & Htx & Hrecv); [done | apply Z.mod_pos_bound; lia |].
    exists s', (record ++ wire). split_and!; [done | by rewrite Htx, app_assoc |].
    intros r rest Hp Hrx. rewrite <-app_assoc in Hrx.
    destruct (write_read s r p n (wire ++ rest) Hp He) as (r1 & Hr & Hrx1 & Hc1 & Ha1 & Hn1);
      [by rewrite Ew|].
    rewrite Hr. destruct (Hrecv r1 rest) as (r' & -> & Hrest & Hp'); [|done|by exists r'].
    destruct Hp as (_ & _ & Hk & He' & _). split_and!; cbn; try congruence;
      apply Z.mod_pos_bound; lia.
  - destruct He as [Hl1 Hl2]. pose proof (SetKeys_ok s k1 k2 Hl1 Hl2) as Hset.
    destruct (IH (SetKeys s k1 k2).1) as (s' & wire & -> & Htx & Hrecv);
      [by rewrite Hset..|].
    exists s', wire. rewrite Htx, Hset. split_and!; [done..|]. intros r rest Hp Hrx.
    destruct (Rotate_paired s r k1 k2 Hp Hl1 Hl2) as (Hp' & _ & Hrx').
    apply Hrecv; [done | by rewrite Hrx'].
Qed.
End Channel.

(** An AEAD for concrete runs: the tag is a masked copy of the last bytes of
    key and nonce. *)
Definition toy_tag (k nonce : list byte) : list byte :=
  replicate 14 x00 ++ [default x00 (last k); default x00 (last nonce)].
Definition toy_seal (k nonce p : list byte) : list byte := p ++ toy_tag k nonce.
Definition toy_open (k nonce c : list byte) : option (list byte) :=
  let p := take (length c - 16) c in
  if decide (c = p ++ toy_tag k nonce) then Some p else None.

Lemma toy_aead_opens k nonce p : toy_open k nonce (toy_seal k nonce p) = Some p.
Proof.
  unfold toy_open, toy_seal. rewrite length_app. cbn [length toy_tag].
  replace (length p + _ - 16)%nat with (length p) by (cbn; lia).
  rewrite take_app_length. by rewrite decide_True.
Qed.

Lemma toy_seal_length k nonce p : len (toy_seal k nonce p) = len p + TagSize.
Proof. unfold toy_seal, TagSize. rewrite length_app. cbn. lia. Qed.

(** A pair of fresh ends. *)
Definition key_of (b : byte) : list byte := replicate 32 b.
Definition fresh (incoming : list byte) (k1 k2 : list byte) : SecureConn :=
  MkSecureConn incoming [] false k1 k2 0 0 false.

Lemma secure_messages_in_order_witness :
  let evs := [Message [x41; x42]; Rotate (key_of x03) (key_of x04); Message []; Message [x43]] in
  NewSecureConn [] (key_of x01) (key_of x02) = Ok (fresh [] (key_of x01) (key_of x02)) /\
  exists wire, (send_all toy_seal (fresh [] (key_of x01) (key_of x02)) evs).2 = [Ok 2; Ok 0; Ok 1] /\
    (receive_all toy_open 64 (fresh wire (key_of x02) (key_of x01)) evs).2
      = [([x41; x42], None); ([], None); ([x43], None)].
Proof.
  intros evs. split; [vm_compute; reflexivity|].
  destruct (secure_messages_in_order toy_seal toy_open toy_aead_opens toy_seal_length evs
    (fresh [] (key_of x01) (key_of x02)) 64) as (s' & wire & Hs & _ & Hr).
  - reflexivity.
  - cbn. lia.
  - repeat constructor; vm_compute; done.
  - exists wire. rewrite Hs. split; [reflexivity|].
    destruct (Hr (fresh wire (key_of x02) (key_of x01)) []) as (r' & -> & _).
    + repeat split; cbn; lia.
    + cbn. by rewrite app_nil_r.
    + reflexivity.
Defined.

(** ** An attacker on the wire *)

Section Attacker.
Context (open : list byte -> list byte -> list byte -> option (list byte)).

(** Reads with buffers of the given sizes, going on after errors. *)
Fixpoint read_all (sc : SecureConn) (sizes : list Z)
    : SecureConn * list (list byte * option secure_error) :=
  match sizes with
  | [] => (sc, [])
  | n :: sizes =>
      let '(sc, r) := Read open sc n in
      let '(sc, rs) := read_all sc sizes in (sc, r :: rs)
  end.

Definition accepted (rs : list (list byte * option secure_error)) : list (list byte) :=
  omap (fun r => match r.2 with None => Some r.1 | Some _ => None end) rs.

(** The messages the peer has sealed under the receiving key, in order, from
    counter 0 on. Unforgeability: only these open, each under its own
    nonce. *)
Context (key : list byte) (sealed : list (list byte)).
Definition unforgeable : Prop :=
  forall nonce c p, open key nonce c = Some p -> 
    exists i : nat, sealed !! i = Some p /\ nonce = nonceFromUint64 (Z.of_nat i).

Lemma Read_authentic sc n sc' out :
  unforgeable -> recvAEAD sc = key -> len sealed <= 2 ^ 64 ->
  0 <= recvNonce sc < 2 ^ 64 - 1 -> Read open sc n = (sc', out) ->
  recvAEAD sc' = key /\
  ((recvNonce sc' = recvNonce sc /\ out.2 <> None) \/
   (recvNonce sc' = recvNonce sc + 1 /\
    (out.2 = None -> sealed !! Z.to_nat (recvNonce sc) = Some out.1))).
Proof.
  intros Hu Hk Hmax Hn. unfold Read.
  destruct (closed sc); [intros [= <- <-]; split; [done | by left]|].
  unfold conn_read at 1. destruct (read_full _ 2) as [[lenBuf r]|e]; [|intros [= <- <-]; split; [done | first [by left | by right]]].
  unfold conn_read at 1. destruct (read_full _ NonceSize) as [[nonceBuf r2]|e];
    [|intros [= <- <-]; split; [done | first [by left | by right]]].
  cbn [with_rx recvNonce].
  destruct (Z.eqb_spec (nonceToUint64 nonceBuf) (recvNonce sc)) as [Heq|]; cbn [negb];
    [|intros [= <- <-]; split; [done | first [by left | by right]]].
  unfold conn_read. cbn [with_rx with_recvNonce rx]. rewrite u64_small by lia.
  destruct (read_full r2 _) as [[c r3]|e]; [|intros [= <- <-]; split; [done | first [by left | by right]]].
  cbn [with_rx with_recvNonce recvAEAD]. rewrite Hk.
  destruct (open key nonceBuf c) as [p|] eqn:Ho; intros [= <- <-]; [|split; [done | by right]].
  split; [done|]. right. split; [done|]. cbn [fst snd].
  destruct (Z.ltb_spec (Z.max 0 n) (len p)); [done|]. intros _.
  apply Hu in Ho as (i & Hi & ->). pose proof (lookup_lt_Some _ _ _ Hi).
  rewrite nonce_roundtrip in Heq by lia. rewrite <-Heq, Nat2Z.id, take_ge by lia. done.
Qed.

(** C35. The receiver withstands an attacker who owns the wire: whatever
    bytes arrive, and even when the application reads on after errors, the
    messages accepted without an error are a subsequence of the messages the
    peer sealed, from the expected one on; nothing is injected, altered,
    repeated or reordered. Reads without any error accept exactly the next
    messages, none left out. *)
Theorem secure_reads_authentic sc sizes sc' rs :
  unforgeable -> recvAEAD sc = key -> len sealed <= 2 ^ 64 ->
  0 <= recvNonce sc -> recvNonce sc + len sizes < 2 ^ 64 ->
  read_all sc sizes = (sc', rs) ->
  accepted rs `sublist_of` drop (Z.to_nat (recvNonce sc)) sealed /\
  (Forall (fun r => r.2 = None) rs ->
   rs.*1 = take (length sizes) (drop (Z.to_nat (recvNonce sc)) sealed)).
Proof.
  intros Hu Hk Hmax. revert sc sc' rs Hk.
  induction sizes as [|n sizes IH]; intros sc sc' rs Hk Hn Hb; cbn [read_all length] in *.
  { intros [= <- <-]. split; [apply sublist_nil_l | done]. }
  destruct (Read open sc n) as [sc1 out] eqn:Er.
  destruct (read_all sc1 sizes) as [sc2 rs2] eqn:E2. intros [= <- <-].
  destruct (Read_authentic _ _ _ _ Hu Hk Hmax ltac:(lia) Er) as (Hk1 & Hcase).
  destruct (IH sc1 sc2 rs2 Hk1 ltac:(destruct Hcase as [[-> _]|[-> _]]; lia)
    ltac:(destruct Hcase as [[-> _]|[-> _]]; lia) E2) as [Hs Hall].
  destruct Hcase as [[Hn1 He]|[Hn1 Ha]]; rewrite Hn1 in *.
  - split; [|by intros [? _]%Forall_cons].
    unfold accepted. cbn [omap list_omap]. by destruct out as [? [|]].
  - rewrite Z2Nat.inj_add, Nat.add_1_r in * by lia. unfold accepted. cbn [omap list_omap].
    destruct out as [p [e|]]; cbn [fst snd] in *.
    + split; [|by intros [? _]%Forall_cons].
      etrans; [exact Hs|]. rewrite <-Nat.add_1_r, <-drop_drop. apply sublist_drop.
    + rewrite (drop_S _ _ _ (Ha eq_refl)). split; [by apply sublist_skip|].
      intros [_ Hf]%Forall_cons. cbn. f_equal. by apply Hall.
Qed.
End Attacker.

(** The peer has sealed one message. The attacker repeats its record and
    adds a forged one; only the first read succeeds. *)
Lemma secure_reads_authentic_witness :
  let key := key_of x01 in
  let open := fun k nonce c => if decide (k = key /\ nonce = nonceFromUint64 0 /\
                c = toy_seal key nonce [x41]) then Some [x41] else None in
  let record := (write_frame toy_seal (fresh [] key key) [x41]).2 in
  let forged := be_bytes 2 17 ++ nonceFromUint64 1 ++ replicate 17 x00 in
  let rs := (read_all open (fresh (record ++ record ++ forged) key key) [8; 8; 8]).2 in
  unforgeable open key [[x41]] /\ accepted rs `sublist_of` [[x41]] /\ accepted rs = [[x41]].
Proof.
  intros key open record forged rs.
  assert (unforgeable open key [[x41]]) as Hu.
  { intros nonce c p. unfold open. case_decide as Hd; [|done]. intros [= <-].
    destruct Hd as (_ & Hn & _). exists 0%nat. by split. }
  split; [done|]. split; [|vm_compute; reflexivity].
  apply (secure_reads_authentic open key [[x41]]
    (fresh (record ++ record ++ forged) key key) [8; 8; 8]
    (read_all open (fresh (record ++ record ++ forged) key key) [8; 8; 8]).1 rs);
    [done | done | cbn; lia | cbn; lia | cbn; lia |].
  unfold rs. by destruct (read_all _ _ _).
Defined.

(** ** Nonces are used once *)

Section Nonces.
Context (seal : list byte -> list byte -> list byte -> list byte).

(** Operations of the sending side, with any transport failures. *)
Inductive send_op : Type :=
| OpWrite (p : list byte) (failed : option nat)
| OpSetKeys (k1 k2 : list byte)
| OpClose.

Definition run_send (sc : SecureConn) (o : send_op) : SecureConn :=
  match o with
  | OpWrite p failed => (Write seal sc p failed).1
  | OpSetKeys k1 k2 => (SetKeys sc k1 k2).1
  | OpClose => Close sc
  end.

(** Whether the operation seals a message. *)
Definition seals (sc : SecureConn) (o : send_op) : bool :=
  match o with
  | OpWrite p _ => negb (MaxMessageSize <? len p) && negb (closed sc)
  | _ => false
  end.

(** The nonces of the records sealed along a sequence of operations. *)
Fixpoint nonces_used (sc : SecureConn) (ops : list send_op) : list (list byte) :=
  match ops with
  | [] => []
  | o :: ops =>
      (match o with
       | OpWrite p _ => if seals sc o then [slice (write_frame seal sc p).2 2 14] else []
       | _ => []
       end) ++ nonces_used (run_send sc o) ops
  end.

Lemma run_send_nonce sc o :
  0 <= sendNonce sc < 2 ^ 64 - 1 ->
  sendNonce (run_send sc o) = sendNonce sc + (if seals sc o then 1 else 0).
Proof.
  intros Hn. destruct o as [p failed|k1 k2|]; cbn [run_send seals].
  - unfold Write. destruct (_ <? _); cbn [negb andb]; [cbn; lia|].
    destruct (closed sc); cbn [negb]; [cbn; lia|]. unfold write_frame.
    destruct failed; cbn; apply u64_small; lia.
  - unfold SetKeys. destruct (_ || _); cbn; [lia|].
    destruct (newAESGCM k1), (newAESGCM k2); cbn; lia.
  - unfold Close. destruct (closed sc); cbn; lia.
Qed.

Lemma nonces_used_from ops : forall sc,
  0 <= sendNonce sc -> sendNonce sc + len ops < 2 ^ 64 ->
  exists vs, nonces_used sc ops = nonceFromUint64 <$> vs /\ NoDup vs /\
    Forall (fun v => sendNonce sc <= v < sendNonce sc + len ops) vs.
Proof.
  induction ops as [|o ops IH]; intros sc Hn Hb; cbn [nonces_used length] in *.
  { exists []. repeat constructor. }
  pose proof (run_send_nonce sc o ltac:(lia)) as Hn1.
  destruct (IH (run_send sc o)) as (vs & -> & Hnd & Hr);
    [rewrite Hn1; destruct (seals _ _); lia..|].
  assert (forall v, v ∈ vs -> sendNonce (run_send sc o) <= v < sendNonce sc + Z.of_nat (S (length ops)))
    as Hr'.
  { intros v Hv. rewrite Forall_forall in Hr. specialize (Hr v Hv).
    rewrite Hn1 in *. destruct (seals _ _); lia. }
  destruct (seals sc o) eqn:Es.
  - exists (sendNonce sc :: vs). destruct o as [p failed|k1 k2|]; try discriminate.
    split_and!.
    + done.
    + constructor; [|done]. intros Hin%Hr'. lia.
    + constructor; [lia|]. apply Forall_forall. intros v Hv%Hr'. lia.
  - exists vs. split_and!; [|done|].
    + by destruct o.
    + apply Forall_forall. intros v Hv%Hr'. lia.
Qed.

(** No nonce is used twice: over any sequence of writes (successful,
    refused or failed halfway), key rotations and closes, the nonces of all
    sealed records are pairwise different, as long as the counter does not
    run over its 64 bits. *)
Theorem secure_nonces_unique sc ops :
  0 <= sendNonce sc -> sendNonce sc + len ops < 2 ^ 64 -> NoDup (nonces_used sc ops).
Proof.
  intros Hn Hb. destruct (nonces_used_from ops sc Hn Hb) as (vs & -> & Hnd & Hr).
  rewrite Forall_forall in Hr. clear -Hn Hb Hnd Hr.
  induction Hnd as [|v vs Hv Hnd IH]; [constructor|]. cbn. constructor.
  - intros (w & Heq & Hw)%list_elem_of_fmap.
    apply nonceFromUint64_inj in Heq as <-; [done| |].
    + specialize (Hr v (list_elem_of_here _ _)). lia.
    + specialize (Hr w (list_elem_of_further _ _ _ Hw)). lia.
  - apply IH. intros w Hw. apply Hr. by right.
Qed.
End Nonces.

Lemma secure_nonces_unique_witness :
  let ops := [OpWrite [x41] None; OpWrite [x42] (Some 3%nat); OpSetKeys (key_of x03) (key_of x04);
              OpWrite [x41] None] in
  let used := nonces_used toy_seal (fresh [] (key_of x01) (key_of x02)) ops in
  NoDup used /\ length used = 3%nat.
Proof.
  intros ops used. split; [|vm_compute; reflexivity].
  apply secure_nonces_unique; cbn; lia.
Defined.
End Secure.
