(* ===== verification/KeyExchange.v ===== *)
(** * Session key exchange (internal/session, internal/identity, internal/crypto/keys.go)

    The one-round-trip authenticated key exchange that produces the keys of
    an encrypted connection, the identities that sign it and the cache that
    refuses repeated nonces. Ed25519, X25519, SHA-256 and HKDF are
    parameters; random bytes are arguments ([None] when the source fails);
    the connection is the bytes that will arrive with the reason it then
    stops. The theorems show that honest peers derive complementary keys,
    that a client that accepts a peer shares its view with a run of that
    peer, and for how long a nonce cannot be replayed. *)
From stdpp Require Import prelude gmap list strings.
From Stdlib Require Import Strings.Byte ZArith Lia.
From S2P Require Import Prelude GoBytes Circuit SecureConn.
Local Open Scope Z_scope.

Module Kx.

(** ** encoding/hex *)

Definition hexDigit (v : Z) : byte := byte_of_Z (if v <? 10 then 48 + v else 87 + v).
Definition fromHexChar (b : byte) : option Z :=
  let c := Z_of_byte b in
  if (48 <=? c) && (c <=? 57) then Some (c - 48)
  else if (97 <=? c) && (c <=? 102) then Some (c - 87)
  else if (65 <=? c) && (c <=? 70) then Some (c - 55)
  else None.

Definition EncodeToString (src : list byte) : string :=
  string_of_bytes (src ≫= fun b => [hexDigit (Z_of_byte b / 16); hexDigit (Z_of_byte b mod 16)]).

Fixpoint decode_hex (src : list byte) : option (list byte) :=
  match src with
  | [] => Some []
  | [_] => None
  | a :: b :: src =>
      x ← fromHexChar a; y ← fromHexChar b; rest ← decode_hex src;
      Some (byte_of_Z (16 * x + y) :: rest)
  end.
Definition DecodeString (s : string) : option (list byte) := decode_hex (bytes_of_string s).

Lemma fromHexChar_hexDigit v : 0 <= v < 16 -> fromHexChar (hexDigit v) = Some v.
Proof.
  intros Hv. assert (v ∈ seqZ 0 16) as Hin by (apply elem_of_seqZ; lia). clear Hv. revert v Hin.
  apply Forall_forall. repeat constructor.
Qed.

Lemma DecodeString_EncodeToString b : DecodeString (EncodeToString b) = Some b.
Proof.
  unfold DecodeString, EncodeToString. rewrite bytes_of_string_of_bytes.
  induction b as [|x b IH]; [done|]. cbn [mbind list_bind app decode_hex].
  pose proof (Z_of_byte_range x).
  assert (0 <= Z_of_byte x / 16 < 16) by (split; [apply Z.div_pos | apply Z.div_lt_upper_bound]; lia).
  rewrite !fromHexChar_hexDigit by (try apply Z.mod_pos_bound; lia).
  cbn [mbind option_bind]. rewrite IH. cbn [mbind option_bind].
  rewrite <-Z.div_mod by lia. by rewrite byte_of_Z_of_byte.
Qed.

Lemma EncodeToString_inj a b : EncodeToString a = EncodeToString b -> a = b.
Proof.
  intros H. apply (f_equal DecodeString) in H. rewrite !DecodeString_EncodeToString in H.
  congruence.
Qed.

(** ** Constants *)
Definition domainInitiator : list byte := bytes_of_string "meshdesk-v2-kx-initiator".
Definition domainResponder : list byte := bytes_of_string "meshdesk-v2-kx-responder".
Definition msg1Size : Z := 160.
Definition msg2Size : Z := 128.
Definition keyFieldSize : Z := 32.
Definition signatureSize : Z := 64.
Definition nonceFieldSize : Z := 32.
Definition MaxNonceCache : Z := 1024.

Definition buildInitiatorSignPayload (ephPub nonce : list byte) : list byte :=
  domainInitiator ++ ephPub ++ nonce.
Definition buildResponderSignPayload (peerEphPub ourEphPub nonce : list byte) : list byte :=
  domainResponder ++ peerEphPub ++ ourEphPub ++ nonce.

(** ** The nonce cache *)

Record nonceCache : Type := MkNonceCache {
  seen : gmap (list byte) Z; (* nonce to time *)
  order : list (list byte);
  max : Z
}.

Definition newNonceCache (size : Z) : nonceCache :=
  {| seen := ∅; order := []; max := if size <=? 0 then MaxNonceCache else size |}.

(** [now] is the clock in seconds. *)
Definition checkAndRecord (c : nonceCache) (nonce : list byte) (now : Z) : nonceCache * bool :=
  if bool_decide (is_Some (seen c !! nonce)) then (c, false) else
  let '(seen', order') :=
    if max c <=? len (order c) then
      match order c with
      | oldest :: rest => (delete oldest (seen c), rest)
      | [] => (seen c, []) (* unreachable: max is positive *)
      end
    else (seen c, order c) in
  ({| seen := <[nonce := now]> seen'; order := order' ++ [nonce]; max := max c |}, true).

(** Offering nonces one after the other: the cache and the accepted ones. *)
Fixpoint offer_all (c : nonceCache) (ns : list (list byte * Z)) : nonceCache * list (list byte) :=
  match ns with
  | [] => (c, [])
  | (n, now) :: ns =>
      let '(c, isNew) := checkAndRecord c n now in
      let '(c, acc) := offer_all c ns in
      (c, if isNew : bool then n :: acc else acc)
  end.

(** The queue holds the last [max] accepted nonces and the set the same. *)
Record cache_ok (c : nonceCache) (acc : list (list byte)) : Prop := {
  cache_max : 0 < max c;
  cache_order : order c = drop (length acc - Z.to_nat (max c)) acc;
  cache_seen : forall n, is_Some (seen c !! n) <-> n ∈ order c;
  cache_nodup : NoDup (order c)
}.

Lemma newNonceCache_ok size : cache_ok (newNonceCache size) [].
Proof.
  constructor; cbn.
  - unfold MaxNonceCache. destruct (Z.leb_spec size 0); lia.
  - done.
  - intros n. rewrite lookup_empty. split; [by intros [? ?] | intros H; by apply not_elem_of_nil in H].
  - constructor.
Qed.

(** Dropping the oldest entry of a full window before adding one. *)
Lemma window_step {A} (M : nat) (acc : list A) (n : A) :
  (0 < M)%nat ->
  drop (length (acc ++ [n]) - M) (acc ++ [n]) =
  (if decide (M <= length (drop (length acc - M) acc))%nat
   then drop 1 (drop (length acc - M) acc) else drop (length acc - M) acc) ++ [n].
Proof.
  intros HM. rewrite length_app, length_drop. cbn [length]. case_decide.
  - rewrite drop_drop. replace (length acc + 1 - M)%nat with (length acc - M + 1)%nat by lia.
    apply drop_app_le. lia.
  - replace (length acc + 1 - M)%nat with 0%nat by lia.
    by replace (length acc - M)%nat with 0%nat by lia.
Qed.

Lemma checkAndRecord_ok c acc n now :
  cache_ok c acc ->
  let '(c', isNew) := checkAndRecord c n now in
  max c' = max c /\ isNew = negb (bool_decide (n ∈ order c)) /\
  cache_ok c' (if isNew then acc ++ [n] else acc).
Proof.
  intros [Hm Ho Hs Hnd]. unfold checkAndRecord.
  rewrite (bool_decide_ext _ _ (Hs n)). case_bool_decide as Hin; [by repeat split; try apply Hs|].
  set (q := order c) in *.
  assert (forall c', max c' = max c -> order c' = (if decide (Z.to_nat (max c) <= length q)%nat
      then drop 1 q else q) ++ [n] ->
      (forall k, is_Some (seen c' !! k) <-> k ∈ order c') -> cache_ok c' (acc ++ [n])) as Hok.
  { intros c' Hm' Ho' Hs'. constructor; [lia | | done |].
    - rewrite Ho', Hm'. rewrite window_step by lia. by rewrite <-Ho.
    - rewrite Ho'. apply NoDup_app. split_and!.
      + case_decide; [|done]. by eapply sublist_NoDup; [|apply sublist_drop].
      + intros k Hk ->%list_elem_of_singleton. apply Hin.
        case_decide; [|done]. by apply subseteq_drop in Hk.
      + apply NoDup_singleton. }
  destruct (Z.leb_spec (max c) (len q)) as [Hfull|Hroom].
  - destruct q as [|oldest rest] eqn:Eq; [cbn in Hfull; lia|].
    split_and!; [done..|]. apply Hok; [done | |]; cbn [order seen].
    + rewrite decide_True by lia. done.
    + intros k. apply NoDup_cons in Hnd as [Hold _]. specialize (Hs k).
      rewrite lookup_insert_is_Some', lookup_delete_is_Some, Hs, elem_of_app,
        list_elem_of_singleton, elem_of_cons.
      split; [intros [->|[Hne [->|Hk]]]; auto; done|].
      intros [Hk| ->]; [|by left]. right. split; [by intros -> | by right].
  - split_and!; [done..|]. apply Hok; [done | |]; cbn [order seen].
    + rewrite decide_False by lia. done.
    + intros k. rewrite lookup_insert_is_Some', Hs, elem_of_app, list_elem_of_singleton.
      split; intros [?|?]; auto.
Qed.

Lemma offer_all_ok ns : forall c acc,
  cache_ok c acc ->
  cache_ok (offer_all c ns).1 (acc ++ (offer_all c ns).2) /\ max (offer_all c ns).1 = max c /\
  (forall x, x ∈ (offer_all c ns).2 -> x ∈ ns.*1).
Proof.
  induction ns as [|[n now] ns IH]; intros c acc Hc; cbn [offer_all fst snd].
  { rewrite app_nil_r. split_and!; [done..|]. intros x H. by apply not_elem_of_nil in H. }
  pose proof (checkAndRecord_ok c acc n now Hc) as Hstep.
  destruct (checkAndRecord c n now) as [c1 isNew]. destruct Hstep as (Hm & Hnew & Hc1).
  destruct (IH c1 _ Hc1) as (H1 & H2 & H3). destruct (offer_all c1 ns) as [c2 acc2].
  cbn [fst snd fmap list_fmap] in *. destruct isNew.
  - rewrite <-app_assoc in H1. split_and!; [done | lia|].
    intros x [->|Hx]%elem_of_cons; [by left | right; auto].
  - split_and!; [done | lia | intros x Hx; right; auto].
Qed.

(** Replay window of the nonce cache: whatever nonces were offered
    before, a nonce that was never offered is accepted; once a nonce was
    accepted it is refused until at least the capacity of the cache (1024 by
    default) of other nonces were accepted after it. *)
Theorem nonce_replay_window size pre x mid t1 t2 :
  let c1 := (offer_all (newNonceCache size) pre).1 in
  let '(c2, isNew) := checkAndRecord c1 x t1 in
  let '(c3, others) := offer_all c2 mid in
  (x ∉ pre.*1 -> isNew = true) /\
  (isNew = true -> len others < (if size <=? 0 then MaxNonceCache else size) ->
   (checkAndRecord c3 x t2).2 = false).
Proof.
  destruct (offer_all_ok pre _ _ (newNonceCache_ok size)) as (Hc1 & Hm1 & Hpre).
  cbn zeta. set (c1 := (offer_all _ pre).1) in *. set (acc := (offer_all _ pre).2) in *.
  rewrite app_nil_l in Hc1. cbn [max newNonceCache] in Hm1.
  pose proof (checkAndRecord_ok c1 acc x t1 Hc1) as Hx.
  destruct (checkAndRecord c1 x t1) as [c2 isNew]. destruct Hx as (Hm2 & Hnew & Hc2).
  destruct (offer_all_ok mid _ _ Hc2) as (Hc3 & Hm3 & _).
  destruct (offer_all c2 mid) as [c3 others]. cbn [fst snd] in *. split.
  - intros Hx. rewrite Hnew, bool_decide_false; [done|]. intros Hin. apply Hx, Hpre.
    rewrite (cache_order _ _ Hc1) in Hin. by apply subseteq_drop in Hin.
  - intros -> Hfew. pose proof (checkAndRecord_ok c3 _ x t2 Hc3) as Hy.
    destruct (checkAndRecord c3 x t2) as [c4 again]. destruct Hy as (_ & -> & _).
    cbn [snd]. rewrite bool_decide_true; [done|].
    rewrite (cache_order _ _ Hc3), <-app_assoc, drop_app_le by
      (rewrite !length_app in *; cbn [length] in *; lia).
    apply elem_of_app. right. left.
Qed.

Lemma nonce_replay_window_witness :
  let c2 := (checkAndRecord (offer_all (newNonceCache 2) [([x01], 0); ([x02], 0)]).1 [x03] 7).1 in
  (checkAndRecord (offer_all c2 [([x04], 8)]).1 [x03] 9).2 = false /\
  (checkAndRecord (offer_all c2 [([x04], 8); ([x05], 9)]).1 [x03] 9).2 = true.
Proof.
  intros c2. split; [|vm_compute; reflexivity].
  pose proof (nonce_replay_window 2 [([x01], 0); ([x02], 0)] [x03] [([x04], 8)] 7 9) as H.
  cbv zeta in H. subst c2. destruct (checkAndRecord _ [x03] 7) as [c isNew] eqn:E.
  cbn [fst] in *. destruct (offer_all c [([x04], 8)]) as [c3 others] eqn:E3. cbn [fst].
  destruct H as [Hnew H]. apply H.
  - apply Hnew. cbn. set_solver.
  - assert (len others <= 1) as Hl; [|cbn; lia].
    cbn in E3. destruct (checkAndRecord c [x04] 8) as [c4 [|]]; injection E3 as <- <-; cbn; lia.
Defined.

Section Exchange.
(** [ed25519.Sign] and [Verify], the public half of a private key,
    [curve25519.X25519] with its base point, SHA-256, and the byte stream of
    HKDF for a secret and an info string. *)
Context (ed_sign : list byte -> list byte -> list byte).
Context (ed_verify : list byte -> list byte -> list byte -> bool).
Context (ed_public : list byte -> list byte).
Context (x25519 : list byte -> list byte -> option (list byte)).
Context (basepoint : list byte).
Context (sha256 : list byte -> list byte).
Context (hkdf : list byte -> list byte -> nat -> list byte).

(** ** Identities (identity.go) *)

Record Identity : Type := MkIdentity { PrivateKey : string; PublicKey : string }.

Inductive identity_error : Type := BadHex | BadKeyLength (n : Z).

(** [GenerateIdentity] from the private key that [GenerateKey] produced. *)
Definition GenerateIdentity (priv : list byte) : Identity :=
  {| PrivateKey := EncodeToString priv; PublicKey := EncodeToString (ed_public priv) |}.

Definition IdentityFromHex (privHex : string) : result identity_error Identity :=
  match DecodeString privHex with
  | None => Err BadHex
  | Some priv =>
      if negb (len priv =? 64) then Err (BadKeyLength (len priv))
      else Ok {| PrivateKey := privHex; PublicKey := EncodeToString (ed_public priv) |}
  end.

Definition PublicKeyFromPrivateHex (privHex : string) : result identity_error string :=
  match DecodeString privHex with
  | None => Err BadHex
  | Some priv =>
      if negb (len priv =? 64) then Err (BadKeyLength (len priv))
      else Ok (EncodeToString (ed_public priv))
  end.

(** [ed25519.Sign] panics on a key of another length. *)
Definition Sign (id : Identity) (data : list byte) : result identity_error string :=
  match DecodeString (PrivateKey id) with
  | None => Err BadHex
  | Some priv => if negb (len priv =? 64) then Err (BadKeyLength (len priv))
                 else Ok (EncodeToString (ed_sign priv data))
  end.

Definition Verify (pubKeyHex : string) (data : list byte) (sigHex : string) : bool :=
  match DecodeString pubKeyHex, DecodeString sigHex with
  | Some pub, Some sig => ed_verify pub data sig
  | _, _ => false
  end.

(** ** Session keys (keys.go) *)

Record SessionKeys : Type := MkSessionKeys {
  SendKey : list byte; RecvKey : list byte; Nonce : list byte
}.

Definition DeriveSessionKeys (sharedSecret : list byte) (role : bool) (identityBinding : list byte)
    : SessionKeys :=
  let info := bytes_of_string "meshdesk-v2-session" in
  let info := if 8 <=? len identityBinding then info ++ take 8 identityBinding else info in
  let stream := hkdf sharedSecret info 76 in
  let key1 := slice stream 0 32 in
  let key2 := slice stream 32 64 in
  {| SendKey := if role then key1 else key2;
     RecvKey := if role then key2 else key1;
     Nonce := slice stream 64 76 |}.

(** ** The exchange (key_exchange.go) *)

Inductive kx_error : Type :=
| ErrSignatureInvalid
| ErrKeyExchangeTimeout
| ErrProtocolViolation
| ConnError
| RandError
| InvalidIdentity
| SignError (e : identity_error)
| InvalidSignature
| ECDHError.

(** Why the connection stops delivering bytes. *)
Inductive conn_end : Type := EndEOF | EndTimeout | EndOther.

Definition wrapTimeout (e : conn_end) : kx_error :=
  match e with
  | EndTimeout => ErrKeyExchangeTimeout
  | EndEOF => ErrProtocolViolation
  | EndOther => ConnError
  end.

(** [io.ReadFull(conn, buf)] of [n] bytes; a connection that ends early ends
    with [io.EOF] or [io.ErrUnexpectedEOF] for [EndEOF]. *)
Definition conn_read_full (rx : list byte) (stop : conn_end) (n : Z)
    : result kx_error (list byte) :=
  if n <=? len rx then Ok (take (Z.to_nat n) rx) else Err (wrapTimeout stop).

Definition generateX25519Keypair (rand : option (list byte))
    : result kx_error (list byte * list byte) :=
  match rand with
  | None => Err RandError
  | Some priv => match x25519 priv basepoint with
                 | None => Err ECDHError
                 | Some pub => Ok (priv, pub)
                 end
  end.

Definition computeIdentityBinding (sigInitiator sigResponder : list byte) : list byte :=
  take 32 (sha256 (sigInitiator ++ sigResponder)).

(** The public key and a signature of [id] in bytes, with the checks of
    both roles. *)
Definition identity_bytes (id : Identity) : result kx_error (list byte) :=
  match DecodeString (PublicKey id) with
  | Some b => if len b =? keyFieldSize then Ok b else Err InvalidIdentity
  | None => Err InvalidIdentity
  end.
Definition sign_bytes (id : Identity) (payload : list byte) : result kx_error (list byte) :=
  sigHex ← map_err SignError (Sign id payload);
  match DecodeString sigHex with
  | Some b => if len b =? signatureSize then Ok b else Err InvalidSignature
  | None => Err InvalidSignature
  end.

(** What an exchange returns: the keys or an error, and the identity of the
    peer as far as it is known ([""] before). *)
Definition outcome : Type := result kx_error SessionKeys * string.

(** What the initiator keeps between its two messages. *)
Record initiated : Type := MkInitiated {
  ephPriv : list byte; ephPub : list byte; nonce : list byte; sigBytes : list byte
}.

(** Steps 1 to 5: everything before [msg1] is written. *)
Definition client_start (id : Identity) (randKey randNonce : option (list byte))
    : result kx_error (initiated * list byte) :=
  '(priv, pub) ← generateX25519Keypair randKey;
  n ← (match randNonce with Some n => Ok n | None => Err RandError end);
  idPub ← identity_bytes id;
  sig ← sign_bytes id (buildInitiatorSignPayload pub n);
  Ok ({| ephPriv := priv; ephPub := pub; nonce := n; sigBytes := sig |},
      idPub ++ pub ++ n ++ sig).

(** Steps 6 to 10: the reply is read. *)
Definition client_finish (st : initiated) (rx : list byte) (stop : conn_end) : outcome :=
  match conn_read_full rx stop msg2Size with
  | Err e => (Err e, ""%string)
  | Ok msg2 =>
      let peerIdentityPub := slice msg2 0 32 in
      let peerEphPub := slice msg2 32 64 in
      let peerSig := slice msg2 64 128 in
      let verifyPayload := buildResponderSignPayload (ephPub st) peerEphPub (nonce st) in
      let peerIdentityHex := EncodeToString peerIdentityPub in
      if negb (Verify peerIdentityHex verifyPayload (EncodeToString peerSig))
      then (Err ErrSignatureInvalid, peerIdentityHex) else
      match x25519 (ephPriv st) peerEphPub with
      | None => (Err ECDHError, peerIdentityHex)
      | Some sharedSecret =>
          (Ok (DeriveSessionKeys sharedSecret true (computeIdentityBinding (sigBytes st) peerSig)),
           peerIdentityHex)
      end
  end.

(** The bytes written and the outcome; [wrote] is whether the connection took
    the message. *)
Definition ClientKeyExchange (id : Identity) (randKey randNonce : option (list byte))
    (wrote : result conn_end unit) (rx : list byte) (stop : conn_end) : list byte * outcome :=
  match client_start id randKey randNonce with
  | Err e => ([], (Err e, ""%string))
  | Ok (st, msg1) =>
      match wrote with
      | Err e => ([], (Err (wrapTimeout e), ""%string))
      | Ok _ => (msg1, client_finish st rx stop)
      end
  end.

Definition ServerKeyExchange (id : Identity) (cache : nonceCache) (now : Z)
    (randKey : option (list byte)) (rx : list byte) (stop : conn_end)
    (wrote : result conn_end unit) : nonceCache * list byte * outcome :=
  match conn_read_full rx stop msg1Size with
  | Err e => (cache, [], (Err e, ""%string))
  | Ok msg1 =>
      let peerIdentityPub := slice msg1 0 32 in
      let peerEphPub := slice msg1 32 64 in
      let n := slice msg1 64 96 in
      let peerSig := slice msg1 96 160 in
      let peerIdentityHex := EncodeToString peerIdentityPub in
      if negb (Verify peerIdentityHex (buildInitiatorSignPayload peerEphPub n)
                 (EncodeToString peerSig))
      then (cache, [], (Err ErrSignatureInvalid, peerIdentityHex)) else
      let '(cache, isNew) := checkAndRecord cache n now in
      if negb isNew then (cache, [], (Err ErrProtocolViolation, peerIdentityHex)) else
      match ('(priv, pub) ← generateX25519Keypair randKey;
             idPub ← identity_bytes id;
             sig ← sign_bytes id (buildResponderSignPayload peerEphPub pub n);
             Ok (priv, sig, idPub ++ pub ++ sig)) with
      | Err e => (cache, [], (Err e, peerIdentityHex))
      | Ok (priv, sig, msg2) =>
          match wrote with
          | Err e => (cache, [], (Err (wrapTimeout e), peerIdentityHex))
          | Ok _ =>
              (cache, msg2,
               (match x25519 priv peerEphPub with
                | None => Err ECDHError
                | Some sharedSecret =>
                    Ok (DeriveSessionKeys sharedSecret false (computeIdentityBinding peerSig sig))
                end, peerIdentityHex))
          end
      end
  end.

(** ** Honest peers *)

Hypothesis ed_verify_sign : forall priv data,
  length priv = 64%nat -> ed_verify (ed_public priv) data (ed_sign priv data) = true.
Hypothesis ed_public_length : forall priv, length priv = 64%nat -> length (ed_public priv) = 32%nat.
Hypothesis ed_sign_length : forall priv data, length priv = 64%nat -> length (ed_sign priv data) = 64%nat.
Hypothesis x25519_comm : forall a b pa pb,
  x25519 a basepoint = Some pa -> x25519 b basepoint = Some pb -> x25519 a pb = x25519 b pa.
Hypothesis x25519_length : forall a b p, x25519 a b = Some p -> length p = 32%nat.
Hypothesis hkdf_length : forall secret info n, length (hkdf secret info n) = n.

Lemma identity_bytes_generated priv :
  length priv = 64%nat -> identity_bytes (GenerateIdentity priv) = Ok (ed_public priv).
Proof.
  intros Hp. unfold identity_bytes. cbn [PublicKey GenerateIdentity].
  by rewrite DecodeString_EncodeToString, ed_public_length.
Qed.

Lemma sign_bytes_generated priv data :
  length priv = 64%nat -> sign_bytes (GenerateIdentity priv) data = Ok (ed_sign priv data).
Proof.
  intros Hp. unfold sign_bytes, Sign. cbn [PrivateKey GenerateIdentity].
  rewrite DecodeString_EncodeToString, Hp. change (negb (Z.of_nat 64 =? 64)) with false.
  cbn [map_err mbind result_bind].
  by rewrite DecodeString_EncodeToString, ed_sign_length.
Qed.

Lemma Verify_hex pub data sig :
  Verify (EncodeToString pub) data (EncodeToString sig) = ed_verify pub data sig.
Proof. unfold Verify. by rewrite !DecodeString_EncodeToString. Qed.

Lemma conn_read_full_app msg rest stop n :
  n = len msg -> conn_read_full (msg ++ rest) stop n = Ok msg.
Proof.
  intros ->. unfold conn_read_full. rewrite (proj2 (Z.leb_le _ _)) by len_lia.
  by rewrite take_len_app.
Qed.

Lemma client_start_ok priv a pa n :
  length priv = 64%nat -> x25519 a basepoint = Some pa ->
  client_start (GenerateIdentity priv) (Some a) (Some n) =
  let sig := ed_sign priv (buildInitiatorSignPayload pa n) in
  Ok (MkInitiated a pa n sig, ed_public priv ++ pa ++ n ++ sig).
Proof.
  intros Hp Ha. unfold client_start, generateX25519Keypair. rewrite Ha. cbn [mbind result_bind].
  rewrite identity_bytes_generated by done. cbn [mbind result_bind].
  by rewrite sign_bytes_generated.
Qed.

Lemma DeriveSessionKeys_complementary shared binding :
  let kC := DeriveSessionKeys shared true binding in
  let kS := DeriveSessionKeys shared false binding in
  SendKey kC = RecvKey kS /\ RecvKey kC = SendKey kS /\
  len (SendKey kC) = 32 /\ len (RecvKey kC) = 32.
Proof.
  cbn. split_and!; try done; rewrite slice_length; rewrite ?hkdf_length; lia.
Qed.

Lemma NewSecureConn_fresh incoming k1 k2 :
  len k1 = 32 -> len k2 = 32 ->
  Secure.NewSecureConn incoming k1 k2 = Ok (Secure.MkSecureConn incoming [] false k1 k2 0 0 false).
Proof.
  intros H1 H2. unfold Secure.NewSecureConn, Secure.newAESGCM, Secure.KeySize. by rewrite H1, H2.
Qed.

(** Two honest peers that exchange their messages over a reliable
    connection agree: when the nonce is new to the server and the exchanged
    public keys are not degenerate, both ends succeed, each learns the
    identity of the other, what one sends with the other receives with, and
    the encrypted connections made from these keys are paired in both
    directions. *)
Theorem kx_complementary privC privS a b pa pb shared n cache now restC restS :
  length privC = 64%nat -> length privS = 64%nat -> length n = 32%nat ->
  x25519 a basepoint = Some pa -> x25519 b basepoint = Some pb -> x25519 a pb = Some shared ->
  seen cache !! n = None ->
  let idC := GenerateIdentity privC in
  let idS := GenerateIdentity privS in
  exists msg1 msg2 cache' kC kS c s,
    ServerKeyExchange idS cache now (Some b) (msg1 ++ restS) EndEOF (Ok tt)
      = (cache', msg2, (Ok kS, PublicKey idC)) /\
    ClientKeyExchange idC (Some a) (Some n) (Ok tt) (msg2 ++ restC) EndEOF
      = (msg1, (Ok kC, PublicKey idS)) /\
    Secure.NewSecureConn restC (SendKey kC) (RecvKey kC) = Ok c /\
    Secure.NewSecureConn restS (SendKey kS) (RecvKey kS) = Ok s /\
    Secure.paired c s /\ Secure.paired s c.
Proof.
  intros HC HS Hn Ha Hb Hshared Hfresh idC idS.
  set (sigC := ed_sign privC (buildInitiatorSignPayload pa n)).
  set (sigS := ed_sign privS (buildResponderSignPayload pa pb n)).
  pose proof (x25519_length _ _ _ Ha) as Hpa. pose proof (x25519_length _ _ _ Hb) as Hpb.
  pose proof (ed_public_length _ HC) as HpC. pose proof (ed_public_length _ HS) as HpS.
  assert (length sigC = 64%nat) as HsC by by apply ed_sign_length.
  assert (length sigS = 64%nat) as HsS by by apply ed_sign_length.
  set (binding := computeIdentityBinding sigC sigS).
  destruct (DeriveSessionKeys_complementary shared binding) as (Hcr & Hrc & Hl1 & Hl2).
  exists (ed_public privC ++ pa ++ n ++ sigC), (ed_public privS ++ pb ++ sigS),
    (checkAndRecord cache n now).1,
    (DeriveSessionKeys shared true binding), (DeriveSessionKeys shared false binding).
  do 2 eexists. split_and!.
  - unfold ServerKeyExchange. rewrite conn_read_full_app by (unfold msg1Size; len_lia).
    slice_norm. rewrite Verify_hex. unfold sigC at 1.
    rewrite ed_verify_sign by done. cbn [negb].
    replace (checkAndRecord cache n now) with ((checkAndRecord cache n now).1, true).
    2:{ unfold checkAndRecord. rewrite Hfresh. cbn. by destruct (_ <=? _), (order cache). }
    cbn [negb fst]. unfold generateX25519Keypair. rewrite Hb. cbn [mbind result_bind].
    unfold idS. rewrite identity_bytes_generated by done. cbn [mbind result_bind].
    rewrite sign_bytes_generated by done. cbn [mbind result_bind]. fold sigS.
    by rewrite <-(x25519_comm _ _ _ _ Ha Hb), Hshared.
  - unfold ClientKeyExchange, idC. rewrite client_start_ok with (pa := pa) by done.
    cbv zeta iota. fold sigC. f_equal. unfold client_finish.
    rewrite conn_read_full_app by (unfold msg2Size; len_lia).
    cbn [ephPub nonce ephPriv sigBytes]. slice_norm. rewrite Verify_hex. unfold sigS at 1.
    rewrite ed_verify_sign by done. cbn [negb]. by rewrite Hshared.
  - apply NewSecureConn_fresh; congruence.
  - apply NewSecureConn_fresh; congruence.
  - by repeat split.
  - by repeat split.
Qed.

(** ** Accepted peers *)

(** The exchanges an honest identity took part in: as an initiator with an
    ephemeral key and a nonce, as a responder with the peer's key, its own
    key and the nonce. *)
Record runs : Type := MkRuns {
  inits : list (list byte * list byte);
  resps : list (list byte * list byte * list byte)
}.

(** Unforgeability of its signatures: it signs only the payloads of these
    exchanges, whose fields are 32 bytes long. *)
Definition signs_only (pub : list byte) (R : runs) : Prop :=
  Forall (fun '(e, n) => length e = 32%nat /\ length n = 32%nat) (inits R) /\
  Forall (fun '(p, e, n) => length p = 32%nat /\ length e = 32%nat /\ length n = 32%nat) (resps R) /\
  forall data sig, ed_verify pub data sig = true ->
    (exists e n, (e, n) ∈ inits R /\ data = buildInitiatorSignPayload e n) \/
    (exists p e n, (p, e, n) ∈ resps R /\ data = buildResponderSignPayload p e n).

Lemma app_inj_32 {A} (a b c d : list A) :
  length a = 32%nat -> length c = 32%nat -> a ++ b = c ++ d -> a = c /\ b = d.
Proof. intros Ha Hc. apply app_inj_1. congruence. Qed.

(** The two payloads are injective and separated from each other. *)
Lemma responder_signed pub R p e n sig :
  signs_only pub R -> length p = 32%nat -> length e = 32%nat -> length n = 32%nat ->
  ed_verify pub (buildResponderSignPayload p e n) sig = true -> (p, e, n) ∈ resps R.
Proof.
  intros (Hi & Hr & Hs) Hp He Hn Hv. rewrite Forall_forall in Hi. rewrite Forall_forall in Hr.
  unfold buildResponderSignPayload in Hv.
  apply Hs in Hv as [(e' & n' & Hin & Heq)|(p' & e' & n' & Hin & Heq)].
  - destruct (Hi _ Hin). apply (f_equal length) in Heq.
    unfold buildInitiatorSignPayload in Heq. rewrite !length_app in Heq.
    change (length domainResponder) with 24%nat in Heq.
    change (length domainInitiator) with 24%nat in Heq. lia.
  - destruct (Hr _ Hin) as (? & ? & ?). unfold buildResponderSignPayload in Heq.
    apply app_inv_head in Heq. apply app_inj_32 in Heq as [-> Heq]; [|done..].
    by apply app_inj_32 in Heq as [-> ->].
Qed.

Lemma initiator_signed pub R e n sig :
  signs_only pub R -> length e = 32%nat -> length n = 32%nat ->
  ed_verify pub (buildInitiatorSignPayload e n) sig = true -> (e, n) ∈ inits R.
Proof.
  intros (Hi & Hr & Hs) He Hn Hv. rewrite Forall_forall in Hi. rewrite Forall_forall in Hr.
  unfold buildInitiatorSignPayload in Hv.
  apply Hs in Hv as [(e' & n' & Hin & Heq)|(p' & e' & n' & Hin & Heq)].
  - destruct (Hi _ Hin). unfold buildInitiatorSignPayload in Heq.
    apply app_inv_head in Heq. by apply app_inj_32 in Heq as [-> ->].
  - destruct (Hr _ Hin) as (? & ? & ?). apply (f_equal length) in Heq.
    unfold buildResponderSignPayload in Heq. rewrite !length_app in Heq.
    change (length domainResponder) with 24%nat in Heq.
    change (length domainInitiator) with 24%nat in Heq. lia.
Qed.

Lemma conn_read_full_length rx stop n b : conn_read_full rx stop n = Ok b -> 0 <= n -> len b = n.
Proof.
  unfold conn_read_full. destruct (Z.leb_spec n (len rx)); [|done].
  intros [= <-] ?. rewrite length_take. lia.
Qed.

Lemma outcome_inj {A} (x y : A) (k k' : SessionKeys) (p p' : list byte) :
  (x, (@Ok kx_error _ k, EncodeToString p)) = (y, (Ok k', EncodeToString p')) ->
  x = y /\ k = k' /\ p = p'.
Proof.
  intros H. assert (EncodeToString p = EncodeToString p') as Hp by apply (f_equal (fun z => z.2.2) H).
  apply EncodeToString_inj in Hp. by injection H as -> -> _.
Qed.

(** C36. A peer that is accepted took part: whatever bytes arrive, a client
    that ends with keys and the identity [pub] shares its run with an exchange
    in which [pub] responded to exactly this client's ephemeral key and
    nonce, and its keys come from the ephemeral key of that exchange; a server
    that ends with keys and [pub] shares it with an exchange [pub] initiated
    with the ephemeral key and nonce received, and the nonce was not in its
    cache. *)
Theorem kx_authentic pub R id rx stop wrote sent keys :
  length pub = 32%nat -> signs_only pub R ->
  (forall a pa n,
     x25519 a basepoint = Some pa -> length pa = 32%nat -> length n = 32%nat ->
     ClientKeyExchange id (Some a) (Some n) wrote rx stop = (sent, (Ok keys, EncodeToString pub)) ->
     exists e shared binding, (pa, e, n) ∈ resps R /\ x25519 a e = Some shared /\
       keys = DeriveSessionKeys shared true binding) /\
  (forall b cache now cache',
     ServerKeyExchange id cache now (Some b) rx stop wrote
       = (cache', sent, (Ok keys, EncodeToString pub)) ->
     exists e n shared binding, (e, n) ∈ inits R /\ seen cache !! n = None /\
       is_Some (seen cache' !! n) /\ x25519 b e = Some shared /\
       keys = DeriveSessionKeys shared false binding).
Proof.
  intros Hpub Hsigns. split.
  - intros a pa n Ha Hpa Hn Hrun. unfold ClientKeyExchange in Hrun.
    destruct (client_start id (Some a) (Some n)) as [[st msg1]|] eqn:Est; [|done].
    assert (ephPriv st = a /\ ephPub st = pa /\ nonce st = n) as (Hst1 & Hst2 & Hst3).
    { unfold client_start, generateX25519Keypair in Est. rewrite Ha in Est.
      cbn [mbind result_bind] in Est.
      destruct (identity_bytes id); [|done]. cbn [mbind result_bind] in Est.
      destruct (sign_bytes _ _); [|done]. cbn [mbind result_bind] in Est. by injection Est as <- _. }
    destruct wrote as [[]|]; [|done]. unfold client_finish in Hrun.
    destruct (conn_read_full rx stop msg2Size) as [msg2|] eqn:Er; [|done].
    apply conn_read_full_length in Er; [|done]. unfold msg2Size in Er.
    rewrite Verify_hex in Hrun. destruct (ed_verify _ _ _) eqn:Ev; [|done]. cbn [negb] in Hrun.
    destruct (x25519 (ephPriv st) _) as [shared|] eqn:Ex; [|done].
    apply outcome_inj in Hrun as (_ & <- & Hid').
    rewrite Hid', Hst2, Hst3 in Ev. rewrite Hst1 in Ex.
    exists (slice msg2 32 64), shared. eexists. split; [|split; [done | reflexivity]].
    eapply responder_signed; eauto. rewrite slice_length; lia.
  - intros b cache now cache' Hrun. unfold ServerKeyExchange in Hrun.
    destruct (conn_read_full rx stop msg1Size) as [msg1|] eqn:Er; [|done].
    apply conn_read_full_length in Er; [|done]. unfold msg1Size in Er.
    rewrite Verify_hex in Hrun. destruct (ed_verify _ _ _) eqn:Ev; [|done]. cbn [negb] in Hrun.
    destruct (checkAndRecord _ _ _) as [c isNew] eqn:Ec.
    destruct isNew; cbn [negb] in Hrun; [|done].
    unfold generateX25519Keypair in Hrun. destruct (x25519 b basepoint) as [pb|] eqn:Eb; [|done].
    cbn [mbind result_bind] in Hrun. destruct (identity_bytes id); [|done].
    cbn [mbind result_bind] in Hrun. destruct (sign_bytes _ _) as [sig|]; [|done].
    cbn [mbind result_bind] in Hrun. destruct wrote as [[]|]; [|done].
    destruct (x25519 b (slice _ _ _)) as [shared|] eqn:Ex; [|done].
    apply outcome_inj in Hrun as (Hst & <- & Hid'). injection Hst as -> _. rewrite Hid' in Ev.
    exists (slice msg1 32 64), (slice msg1 64 96), shared. eexists.
    split; [|split; [|split; [|split; [done | reflexivity]]]].
    + eapply initiator_signed; eauto; rewrite slice_length; lia.
    + unfold checkAndRecord in Ec. case_bool_decide as Hd; [done|]. by apply eq_None_not_Some.
    + unfold checkAndRecord in Ec. case_bool_decide as Hd; [done|].
      destruct (_ <=? _), (order cache); injection Ec as <-; cbn; by rewrite lookup_insert_eq.
Qed.
End Exchange.

(** ** Concrete runs *)

Definition toy_public (priv : list byte) : list byte := take 32 (drop 32 priv ++ replicate 32 x00).
Definition toy_sign (priv data : list byte) : list byte :=
  toy_public priv ++ be_bytes 32 (be_Z data).
Definition toy_verify (pub data sig : list byte) : bool :=
  bool_decide (sig = pub ++ be_bytes 32 (be_Z data)).
Definition toy_hkdf (secret info : list byte) (n : nat) : list byte :=
  take n (secret ++ info ++ replicate n x00).
Definition point : list byte := be_bytes 32 9.
Definition toy_dh (s p : list byte) : list byte := be_bytes 32 (be_Z s * be_Z p).

Lemma kx_complementary_witness :
  let idC := GenerateIdentity toy_public (replicate 64 x01) in
  let idS := GenerateIdentity toy_public (replicate 64 x02) in
  let a := replicate 32 x03 in let b := replicate 32 x04 in let n := replicate 32 x05 in
  exists msg1 msg2 cache' kC kS c s,
    ServerKeyExchange toy_sign toy_verify Circuit.Circuit.toy_x25519 point Circuit.Circuit.toy_sha256
      toy_hkdf idS (newNonceCache 0) 7 (Some b) (msg1 ++ []) EndEOF (Ok tt)
      = (cache', msg2, (Ok kS, PublicKey idC)) /\
    ClientKeyExchange toy_sign toy_verify Circuit.Circuit.toy_x25519 point Circuit.Circuit.toy_sha256
      toy_hkdf idC (Some a) (Some n) (Ok tt) (msg2 ++ []) EndEOF
      = (msg1, (Ok kC, PublicKey idS)) /\
    Secure.NewSecureConn [] (SendKey kC) (RecvKey kC) = Ok c /\
    Secure.NewSecureConn [] (SendKey kS) (RecvKey kS) = Ok s /\
    Secure.paired c s /\ Secure.paired s c.
Proof.
  intros idC idS a b n.
  apply (kx_complementary toy_sign toy_verify toy_public Circuit.Circuit.toy_x25519 point
    Circuit.Circuit.toy_sha256 toy_hkdf) with (pa := toy_dh a point) (pb := toy_dh b point)
    (shared := toy_dh a (toy_dh b point)); try reflexivity.
  - intros priv data _. by apply bool_decide_eq_true.
  - intros priv Hp. unfold toy_public. rewrite length_take, length_app, length_replicate. lia.
  - intros priv data Hp. unfold toy_sign, toy_public.
    rewrite length_app, length_take, length_app, length_replicate, be_bytes_length. lia.
  - apply Circuit.Circuit.toy_x25519_comm.
  - intros s p r [= <-]. apply be_bytes_length.
  - intros s i k. unfold toy_hkdf. rewrite length_take, !length_app, length_replicate. lia.
Defined.

(** The peer [pub] responded once, to this client's key and nonce, and its
    signature is the only one that verifies. *)
Lemma kx_authentic_witness :
  let pub := replicate 32 x02 in let idC := GenerateIdentity toy_public (replicate 64 x01) in
  let a := replicate 32 x03 in let n := replicate 32 x05 in let e := replicate 32 x06 in
  let pa := toy_dh a point in
  let R := MkRuns [] [(pa, e, n)] in
  let verify := fun p d s => bool_decide (p = pub /\ d = buildResponderSignPayload pa e n /\
                  s = replicate 64 x0a) in
  exists keys msg1 shared binding,
    signs_only verify pub R /\
    ClientKeyExchange toy_sign verify Circuit.Circuit.toy_x25519 point Circuit.Circuit.toy_sha256
      toy_hkdf idC (Some a) (Some n) (Ok tt) (pub ++ e ++ replicate 64 x0a) EndEOF
      = (msg1, (Ok keys, EncodeToString pub)) /\
    Circuit.Circuit.toy_x25519 a e = Some shared /\
    keys = DeriveSessionKeys toy_hkdf shared true binding.
Proof.
  intros pub idC a n e pa R verify.
  assert (signs_only verify pub R) as Hs.
  { split; [constructor|]. split; [by repeat constructor|].
    intros data sig (_ & -> & _)%bool_decide_eq_true. right. exists pa, e, n.
    split; [left | done]. }
  destruct (ClientKeyExchange toy_sign verify Circuit.Circuit.toy_x25519 point
    Circuit.Circuit.toy_sha256 toy_hkdf idC (Some a) (Some n) (Ok tt)
    (pub ++ e ++ replicate 64 x0a) EndEOF) as [msg1 [[keys|er] who]] eqn:Er;
    [|vm_compute in Er; discriminate].
  assert (who = EncodeToString pub) as -> by (vm_compute in Er; by injection Er as _ _ <-).
  destruct (kx_authentic toy_sign verify Circuit.Circuit.toy_x25519 point
    Circuit.Circuit.toy_sha256 toy_hkdf pub R idC (pub ++ e ++ replicate 64 x0a) EndEOF (Ok tt) msg1 keys eq_refl Hs) as [H _].
  destruct (H a pa n eq_refl eq_refl eq_refl Er) as (e' & shared & binding & Hin & Hx & Hk).
  exists keys, msg1, shared, binding.
  refine (conj Hs (conj eq_refl (conj _ Hk))).
  apply list_elem_of_singleton in Hin. assert (e' = e) as <- by exact (f_equal (fun t => t.1.2) Hin).
  exact Hx.
Defined.
End Kx.
