(* ===== verification/GoHeap.v ===== *)
(** * Priority queues of the Go standard library (container/heap)

    The interface of a priority queue as its clients use it, and the binary
    heap of [container/heap] over a slice as its implementation. The theorems
    about the implementation discharge the laws of the interface, so that
    clients reason about minima only. *)
From stdpp Require Import prelude list.
From Stdlib Require Import ZArith Lia.
From S2P Require Import Prelude.
Local Open Scope Z_scope.

(** ** The interface *)

(** A queue of items ordered by an integer key: [wf] holds of the queues the
    operations build, [items] are the items waiting in no particular order. *)
Class PriorityQueue (A : Type) (key : A -> Z) (Q : Type) : Type := {
  pq_empty : Q;
  pq_push : A -> Q -> Q;
  pq_pop : Q -> option (A * Q);
  pq_items : Q -> list A;
  pq_wf : Q -> Prop;
  pq_empty_wf : pq_wf pq_empty;
  pq_empty_items : pq_items pq_empty = [];
  pq_push_wf x q : pq_wf q -> pq_wf (pq_push x q);
  pq_push_items x q : pq_wf q -> pq_items (pq_push x q) ≡ₚ x :: pq_items q;
  pq_pop_none q : pq_pop q = None -> pq_items q = [];
  pq_pop_some q x q' : pq_wf q -> pq_pop q = Some (x, q') ->
    pq_wf q' /\ pq_items q ≡ₚ x :: pq_items q' /\ forall y, y ∈ pq_items q -> key x <= key y
}.

(** ** Swapping *)
Section Swap.
Context {A : Type} `{Inhabited A}.
Implicit Types l : list A.

Definition swap (i j : nat) l : list A := <[i := l !!! j]> (<[j := l !!! i]> l).

Lemma swap_length i j l : length (swap i j l) = length l.
Proof. unfold swap. by rewrite !length_insert. Qed.

Lemma swap_lookup i j l k :
  (i < length l)%nat -> (j < length l)%nat ->
  swap i j l !!! k = if decide (k = i) then l !!! j else if decide (k = j) then l !!! i else l !!! k.
Proof.
  intros Hi Hj. unfold swap. destruct (decide (k = i)) as [->|].
  { apply list_lookup_total_insert_eq. by rewrite length_insert. }
  rewrite list_lookup_total_insert_ne by done. destruct (decide (k = j)) as [->|].
  - by apply list_lookup_total_insert_eq.
  - by apply list_lookup_total_insert_ne.
Qed.

Lemma swap_perm i j l : (i < length l)%nat -> (j < length l)%nat -> swap i j l ≡ₚ l.
Proof.
  intros Hi Hj. apply Permutation_inj. split; [apply swap_length|].
  exists (fun k => if decide (k = i) then j else if decide (k = j) then i else k). split.
  - intros a b Hab. repeat case_decide; congruence.
  - intros k. destruct (decide (k < length l)%nat) as [Hk|Hk].
    + rewrite !list_lookup_lookup_total_lt by (rewrite ?swap_length; repeat case_decide; lia).
      rewrite swap_lookup by done. by repeat case_decide.
    + rewrite !lookup_ge_None_2 by (rewrite ?swap_length; repeat case_decide; lia). done.
Qed.
End Swap.

(** ** The binary heap *)
Module Heap.
Section Heap.
Context {A : Type} `{Inhabited A} (key : A -> Z).
Implicit Types l : list A.

Definition less l (i j : nat) : bool := key (l !!! i) <? key (l !!! j).

(** [up] moves the item at [j] towards the root. *)
Fixpoint up (fuel : nat) (j : nat) l : list A :=
  match fuel with
  | O => l
  | S fuel =>
      let i := Nat.div (j - 1) 2 in
      if (i =? j)%nat || negb (less l j i) then l else up fuel i (swap i j l)
  end.

(** [down] moves the item at [i] towards the leaves of the first [n]. *)
Fixpoint down (fuel : nat) (i n : nat) l : list A :=
  match fuel with
  | O => l
  | S fuel =>
      let j1 := (2 * i + 1)%nat in
      if (n <=? j1)%nat then l else
      let j := if (j1 + 1 <? n)%nat && less l (j1 + 1) j1 then (j1 + 1)%nat else j1 in
      if negb (less l j i) then l else down fuel j n (swap i j l)
  end.

Definition Push (x : A) l : list A := up (length l + 1) (length l) (l ++ [x]).

Definition Pop l : option (A * list A) :=
  match l with
  | [] => None
  | _ =>
      let n := (length l - 1)%nat in
      let l := down n 0 n (swap 0 n l) in
      Some (l !!! n, take n l)
  end.

(** ** Order *)

Definition parent (i : nat) : nat := Nat.div (i - 1) 2.

Lemma parent_lt i : (0 < i)%nat -> (parent i < i)%nat.
Proof. intros Hi. unfold parent. pose proof (Nat.Div0.div_le_upper_bound (i - 1) 2 (i - 1)). lia. Qed.

Lemma parent_children c i : (0 < c)%nat -> parent c = i <-> c = (2 * i + 1)%nat \/ c = (2 * i + 2)%nat.
Proof.
  intros Hc. unfold parent. pose proof (Nat.div_mod_eq (c - 1) 2).
  pose proof (Nat.mod_upper_bound (c - 1) 2). lia.
Qed.

(** The first [n] items are in heap order, except below and above [i]. *)
Definition ordered (n : nat) l : Prop :=
  forall c, (0 < c < n)%nat -> key (l !!! parent c) <= key (l !!! c).
Definition ordered_but_up (j n : nat) l : Prop :=
  (forall c, (0 < c < n)%nat -> c <> j -> key (l !!! parent c) <= key (l !!! c)) /\
  (forall c, (0 < c < n)%nat -> parent c = j -> (0 < j)%nat -> key (l !!! parent j) <= key (l !!! c)).
Definition ordered_but_down (i n : nat) l : Prop :=
  (forall c, (0 < c < n)%nat -> parent c <> i -> key (l !!! parent c) <= key (l !!! c)) /\
  (forall c, (0 < c < n)%nat -> parent c = i -> (0 < i)%nat -> key (l !!! parent i) <= key (l !!! c)).

Lemma up_perm fuel : forall j l, (j < length l)%nat -> up fuel j l ≡ₚ l.
Proof.
  induction fuel as [|fuel IH]; intros j l Hj; cbn [up]; [done|].
  fold (parent j). destruct (parent j =? j)%nat eqn:E; cbn [orb]; [done|].
  apply Nat.eqb_neq in E. destruct (negb _); [done|].
  assert (parent j < length l)%nat.
  { destruct (decide (j = 0%nat)) as [->|]; [by cbn in E | pose proof (parent_lt j); lia]. }
  rewrite IH by (by rewrite swap_length). by apply swap_perm.
Qed.

Lemma down_perm fuel : forall i n l,
  (i < length l)%nat -> (n <= length l)%nat -> down fuel i n l ≡ₚ l.
Proof.
  induction fuel as [|fuel IH]; intros i n l Hi Hn; cbn [down]; [done|].
  destruct (Nat.leb_spec n (2 * i + 1)); [done|].
  set (j := if _ && _ then _ else _).
  assert (j < length l)%nat.
  { unfold j. destruct (Nat.ltb_spec (2 * i + 1 + 1) n); cbn [andb]; [destruct (less _ _ _)|]; lia. }
  destruct (negb _); [done|]. rewrite IH by (by rewrite swap_length). by apply swap_perm.
Qed.

Lemma parent_eq j : parent j = j -> j = 0%nat.
Proof. intros Hp. destruct (decide (j = 0%nat)); [done|]. pose proof (parent_lt j). lia. Qed.

Lemma up_step j n l :
  n = length l -> (0 < j < n)%nat -> key (l !!! j) < key (l !!! parent j) ->
  ordered_but_up j n l -> ordered_but_up (parent j) n (swap (parent j) j l).
Proof.
  intros -> Hj Hlt [H1 H2]. pose proof (parent_lt j ltac:(lia)) as Hp. set (p := parent j) in *.
  split.
  - intros c Hc Hcp. pose proof (parent_lt c ltac:(lia)) as Hpc. rewrite !swap_lookup by lia.
    rewrite (decide_False (P := c = p)) by done.
    destruct (decide (c = j)) as [->|Hcj].
    { fold p. rewrite decide_True by done. lia. }
    destruct (decide (parent c = p)) as [E|].
    { specialize (H1 c Hc Hcj). rewrite E in H1. lia. }
    destruct (decide (parent c = j)) as [E|]; [apply H2; auto; lia | by apply H1].
  - intros c Hc E Hp0. pose proof (parent_lt p Hp0) as Hpp. rewrite !swap_lookup by lia.
    rewrite (decide_False (P := parent p = p)), (decide_False (P := parent p = j)) by lia.
    assert (key (l !!! parent p) <= key (l !!! p)) by (apply H1; lia).
    rewrite (decide_False (P := c = p)) by (pose proof (parent_lt c); lia).
    destruct (decide (c = j)) as [->|Hcj]; [done|].
    specialize (H1 c Hc Hcj). rewrite E in H1. lia.
Qed.

Lemma up_ordered fuel : forall j n l,
  n = length l -> (j < n)%nat -> (j < fuel)%nat -> ordered_but_up j n l -> ordered n (up fuel j l).
Proof.
  induction fuel as [|fuel IH]; intros j n l Hn Hj Hf Ho; [lia|]. cbn [up]. fold (parent j).
  destruct (Nat.eqb_spec (parent j) j) as [E|E]; cbn [orb].
  { apply parent_eq in E as ->. intros c Hc. apply Ho; lia. }
  assert (0 < j)%nat as Hj0 by (destruct j; [by cbn in E | lia]).
  pose proof (parent_lt j Hj0). unfold less.
  destruct (Z.ltb_spec (key (l !!! j)) (key (l !!! parent j))) as [Hlt|Hge]; cbn [negb].
  - apply IH; rewrite ?swap_length; try done; try lia. apply up_step; auto.
  - intros c Hc. destruct (decide (c = j)) as [->|]; [done | by apply Ho].
Qed.

Lemma down_step i j n l :
  (n <= length l)%nat -> (i < n)%nat -> (j < n)%nat -> (0 < j)%nat -> parent j = i ->
  key (l !!! j) < key (l !!! i) ->
  (forall c, (0 < c < n)%nat -> parent c = i -> key (l !!! j) <= key (l !!! c)) ->
  ordered_but_down i n l -> ordered_but_down j n (swap i j l).
Proof.
  intros Hn Hi Hj Hj0 Hp Hlt Hmin [H1 H2]. pose proof (parent_lt j Hj0) as Hij. split.
  - intros c Hc Hcj. pose proof (parent_lt c ltac:(lia)) as Hpc. rewrite !swap_lookup by lia.
    rewrite (decide_False (P := parent c = j)) by done.
    destruct (decide (c = i)) as [->|Hci].
    { rewrite decide_False by lia. apply H2; auto; lia. }
    destruct (decide (c = j)) as [->|Hcj'].
    { rewrite decide_True by done. lia. }
    destruct (decide (parent c = i)) as [E|]; [by apply Hmin | by apply H1].
  - intros c Hc E _. pose proof (parent_lt c ltac:(lia)) as Hpc. rewrite !swap_lookup by lia.
    rewrite Hp, decide_True by done. rewrite !decide_False by lia.
    specialize (H1 c Hc). rewrite E in H1. apply H1. lia.
Qed.

Lemma down_ordered fuel : forall i n l,
  (n <= length l)%nat -> (i < n)%nat -> (n <= fuel + i)%nat -> ordered_but_down i n l ->
  ordered n (down fuel i n l).
Proof.
  induction fuel as [|fuel IH]; intros i n l Hn Hi Hf Ho; [lia|]. cbn [down].
  destruct (Nat.leb_spec n (2 * i + 1)) as [Hle|Hgt].
  { intros c Hc. apply Ho; [done|]. intros E%parent_children; lia. }
  set (j := if _ && _ then _ else _).
  assert ((j < n)%nat /\ (0 < j)%nat /\ (i < j)%nat /\ parent j = i /\
    (forall c, (0 < c < n)%nat -> parent c = i -> key (l !!! j) <= key (l !!! c)))
    as (Hj & Hj0 & Hij & Hp & Hmin).
  { unfold j, less. destruct (Nat.ltb_spec (2 * i + 1 + 1) n); cbn [andb];
      [destruct (Z.ltb_spec (key (l !!! (2 * i + 1 + 1)%nat)) (key (l !!! (2 * i + 1)%nat)))|];
      split_and!; try lia; try (apply parent_children; lia);
      intros c Hc E%parent_children; try lia; destruct E as [->| ->];
      try replace (2 * i + 2)%nat with (2 * i + 1 + 1)%nat by lia; lia. }
  clearbody j. unfold less.
  destruct (Z.ltb_spec (key (l !!! j)) (key (l !!! i))) as [Hlt|Hge]; cbn [negb].
  - apply IH; rewrite ?swap_length; try lia. apply down_step; auto.
  - intros c Hc. destruct (decide (parent c = i)) as [E|]; [|by apply Ho].
    rewrite E. specialize (Hmin c Hc E). lia.
Qed.

Lemma down_above fuel : forall i n k l,
  (n <= length l)%nat -> (i <= n)%nat -> (n <= k)%nat -> (k < length l)%nat ->
  down fuel i n l !!! k = l !!! k.
Proof.
  induction fuel as [|fuel IH]; intros i n k l Hn Hi Hk Hkl; cbn [down]; [done|].
  destruct (Nat.leb_spec n (2 * i + 1)); [done|].
  set (j := if _ && _ then _ else _).
  assert (j < n)%nat.
  { unfold j. destruct (Nat.ltb_spec (2 * i + 1 + 1) n); cbn [andb]; [destruct (less _ _ _)|]; lia. }
  destruct (negb _); [done|]. rewrite IH by (rewrite ?swap_length; lia).
  rewrite swap_lookup by lia. by rewrite !decide_False by lia.
Qed.

(** The root of an ordered heap is a minimum. *)
Lemma ordered_root n l : ordered n l -> forall c, (c < n)%nat -> key (l !!! 0%nat) <= key (l !!! c).
Proof.
  intros Ho c. induction c as [c IH] using lt_wf_ind. intros Hc.
  destruct (decide (c = 0%nat)) as [->|]; [done|].
  pose proof (parent_lt c ltac:(lia)). specialize (Ho c). specialize (IH (parent c)). lia.
Qed.

Lemma Push_perm x l : Push x l ≡ₚ x :: l.
Proof.
  unfold Push. rewrite up_perm by (rewrite length_app; cbn; lia). by rewrite Permutation_app_comm.
Qed.

Lemma Push_length x l : length (Push x l) = S (length l).
Proof. by rewrite Push_perm. Qed.

Lemma Push_ordered x l : ordered (length l) l -> ordered (length (Push x l)) (Push x l).
Proof.
  intros Ho. rewrite Push_length. unfold Push.
  apply up_ordered; [rewrite length_app; cbn; lia | lia | lia |]. split.
  - intros c Hc Hne. pose proof (parent_lt c ltac:(lia)).
    rewrite !lookup_total_app_l by lia. apply Ho. lia.
  - intros c Hc E. pose proof (parent_lt c ltac:(lia)). lia.
Qed.

Lemma Pop_spec l x l' :
  ordered (length l) l -> Pop l = Some (x, l') ->
  ordered (length l') l' /\ l ≡ₚ x :: l' /\ forall y, y ∈ l -> key x <= key y.
Proof.
  intros Ho. unfold Pop. destruct l as [|a l0] eqn:El; [done|]. rewrite <-El in *.
  assert (0 < length l)%nat as Hlen by (subst l; cbn; lia). clear El a l0.
  set (n := (length l - 1)%nat). set (l2 := down n 0 n (swap 0 n l)).
  assert (l2 ≡ₚ l) as Hperm.
  { unfold l2. rewrite down_perm by (rewrite swap_length; lia). apply swap_perm; lia. }
  assert (length l2 = S n) as Hl2 by (rewrite Hperm; lia).
  assert (l2 !!! n = l !!! 0%nat) as Hx.
  { unfold l2. rewrite down_above, swap_lookup by (rewrite ?swap_length; lia).
    rewrite (decide_True (P := n = n)) by done.
    destruct (decide (n = 0%nat)) as [->|]; [done | reflexivity]. }
  assert (l2 = take n l2 ++ [l2 !!! n]) as Hsplit.
  { rewrite <-(take_drop n l2) at 1. f_equal.
    rewrite (drop_S l2 (l2 !!! n) n) by (apply list_lookup_lookup_total_lt; lia).
    by rewrite drop_ge by lia. }
  intros [= <- <-]. split_and!.
  - rewrite length_take, Hl2, Nat.min_l by lia. intros c Hc.
    pose proof (parent_lt c ltac:(lia)). rewrite !lookup_total_take_lt by lia.
    assert (ordered n l2) as H2; [|by apply H2].
    unfold l2. apply down_ordered; rewrite ?swap_length; try lia. split.
    + intros k Hk E. pose proof (parent_lt k ltac:(lia)). rewrite !swap_lookup by lia.
      rewrite !decide_False by lia. apply Ho. lia.
    + intros k Hk E Hlt. lia.
  - rewrite <-Hperm, Hsplit at 1. by rewrite Permutation_app_comm.
  - rewrite Hx. intros y (i & Hi)%list_elem_of_lookup_1.
    pose proof (lookup_lt_Some _ _ _ Hi). apply list_lookup_total_correct in Hi as <-.
    by apply (ordered_root (length l)).
Qed.

#[export] Instance heap_queue : PriorityQueue A key (list A).
Proof.
  refine {| pq_empty := []; pq_push := Push; pq_pop := Pop; pq_items := id;
            pq_wf := fun l => ordered (length l) l |}.
  - intros c Hc. cbn in Hc. lia.
  - done.
  - intros x q. apply Push_ordered.
  - intros x q _. apply Push_perm.
  - intros [|a l]; [done|]. discriminate.
  - intros q x q'. apply Pop_spec.
Defined.
End Heap.
End Heap.
