(* ===== verification/PathGraph.v ===== *)
(** * Latency graph and path query (internal/mesh/path_server.go)

    The directed graph of measured round-trip times that a shared node keeps,
    its updates, and the search for the path of lowest latency. The search
    runs on any priority queue of the interface in GoHeap.v and is executed
    on the heap of [container/heap]; the order in which Go visits the
    neighbours of a node is a parameter. *)
From stdpp Require Import prelude gmap strings list sorting.
From Stdlib Require Import ZArith Lia.
From S2P Require Import Prelude GoHeap.
Local Open Scope Z_scope.

Module Paths.

(** [rtt] in milliseconds; the clock in nanoseconds. *)
Record rttEntry : Type := MkEntry { rtt : Z; timestamp : Z; zone : string }.

(** source to target to entry *)
Definition LatencyGraph : Type := gmap string (gmap string rttEntry).

Definition NewLatencyGraph : LatencyGraph := ∅.

(** Replaces all edges of the source; entries that are not positive are
    left out. *)
Definition UpdateFromReport (g : LatencyGraph) (now : Z) (sourceKey : string)
    (latency : gmap string Z) (zone : string) : LatencyGraph :=
  if String.eqb sourceKey "" || bool_decide (latency = ∅) then g else
  <[sourceKey := (fun r => MkEntry r now zone) <$> filter (fun kv => 0 < kv.2) latency]> g.

(** An entry of the other graph overwrites an older one. *)
Definition newer (old new : rttEntry) : rttEntry :=
  if timestamp old <? timestamp new then new else old.
Definition MergeFromSync (g remote : LatencyGraph) : LatencyGraph :=
  union_with (fun mine theirs => Some (union_with (fun a b => Some (newer a b)) mine theirs)) g remote.

(** [cutoff] is the present less the maximal age. *)
Definition PruneStaleEdges (g : LatencyGraph) (cutoff : Z) : LatencyGraph :=
  filter (fun kv => kv.2 <> ∅)
    ((fun targets => filter (fun kv => ~ timestamp kv.2 < cutoff) targets) <$> g).

Definition ExportForSync (g : LatencyGraph) : LatencyGraph := g.

Record GraphEdge : Type := MkEdge { Source : string; Target : string; RTT : Z; Zone : string }.
Definition AllEdges (g : LatencyGraph) : list GraphEdge :=
  map_to_list g ≫= fun st =>
    (fun te => MkEdge st.1 te.1 (rtt te.2) (zone te.2)) <$> map_to_list st.2.

Definition adjacencyLocked (g : LatencyGraph) : LatencyGraph := g.

(** ** The search *)

Record heapItem : Type := MkItem { key : string; dist : Z }.
#[export] Instance heapItem_inhabited : Inhabited heapItem := populate (MkItem "" 0).

Definition maxHops : Z := 4.

Section Query.
Context {Q : Type} `{PQ : PriorityQueue heapItem dist Q}.
(** The order of a [range] over the neighbours of a node, and the bound on
    the hops, [maxHops] in the code. *)
Context (iter : string -> gmap string rttEntry -> list (string * rttEntry)) (bound : Z).

Record search : Type := MkSearch {
  s_dist : gmap string Z;
  s_prev : gmap string string;
  s_visited : gset string;
  s_hops : gmap string Z;
  s_queue : Q
}.

(** A missing entry of a Go map reads as zero. *)
Definition hops (st : search) (k : string) : Z := default 0 (s_hops st !! k).
Definition distance (st : search) (k : string) : Z := default 0 (s_dist st !! k).

Definition relax (cur : string) (st : search) (nb : string * rttEntry) : search :=
  let '(neighbor, edge) := nb in
  if bool_decide (neighbor ∈ s_visited st) then st else
  if bound <=? hops st cur then st else
  let newDist := distance st cur + rtt edge in
  if match s_dist st !! neighbor with Some oldDist => newDist <? oldDist | None => true end then
    {| s_dist := <[neighbor := newDist]> (s_dist st);
       s_prev := <[neighbor := cur]> (s_prev st);
       s_visited := s_visited st;
       s_hops := <[neighbor := hops st cur + 1]> (s_hops st);
       s_queue := pq_push (MkItem neighbor newDist) (s_queue st) |}
  else st.

(** The walk back from the target along [prev]. *)
Fixpoint reconstruct (fuel : nat) (prev : gmap string string) (k : string) (path : list string)
    : option (list string) :=
  match prev !! k with
  | None => Some path
  | Some p => match fuel with O => None | S fuel => reconstruct fuel prev p (p :: path) end
  end.

Inductive outcome : Type :=
| OutOfFuel
| Found (path : list string)
| NoPath.

Definition visit (k : string) (q : Q) (st : search) : search :=
  {| s_dist := s_dist st; s_prev := s_prev st; s_visited := {[k]} ∪ s_visited st;
     s_hops := s_hops st; s_queue := q |}.

Fixpoint run (fuel : nat) (adjacency : LatencyGraph) (target : string) (st : search) : outcome :=
  match fuel with
  | O => OutOfFuel
  | S fuel =>
      match pq_pop (s_queue st) with
      | None => NoPath
      | Some (cur, q) =>
          if bool_decide (key cur ∈ s_visited st) then
            run fuel adjacency target
              {| s_dist := s_dist st; s_prev := s_prev st; s_visited := s_visited st;
                 s_hops := s_hops st; s_queue := q |}
          else
            let st := visit (key cur) q st in
            if String.eqb (key cur) target then
              match reconstruct (size (s_prev st)) (s_prev st) target [target] with
              | Some path => Found path
              | None => OutOfFuel
              end
            else
              run fuel adjacency target
                (foldl (relax (key cur)) st (iter (key cur) (default ∅ (adjacency !! key cur))))
      end
  end.

Definition start (source : string) : search :=
  {| s_dist := {[source := 0]}; s_prev := ∅; s_visited := ∅; s_hops := ∅;
     s_queue := pq_push (MkItem source 0) pq_empty |}.

(** Every edge is relaxed at most once, so that edges plus two rounds suffice. *)
Definition edges (g : LatencyGraph) : nat := length (AllEdges g).

Definition query (g : LatencyGraph) (source target : string) : outcome :=
  if String.eqb source "" || String.eqb target "" || String.eqb source target then NoPath else
  run (edges g + 2) (adjacencyLocked g) target (start source).

(** ** Paths of the graph *)

Definition edge (g : LatencyGraph) (u v : string) : option Z :=
  e ← default ∅ (g !! u) !! v; Some (rtt e).

(** The total latency of a sequence of nodes, when each is a neighbour of
    the one before. *)
Fixpoint cost (g : LatencyGraph) (p : list string) : option Z :=
  match p with
  | u :: (v :: _) as p' => w ← edge g u v; c ← cost g p'; Some (w + c)
  | _ => Some 0
  end.

Definition is_path (g : LatencyGraph) (source target : string) (p : list string) (c : Z) : Prop :=
  head p = Some source /\ last p = Some target /\ cost g p = Some c.

Lemma cost_cons g u v p :
  cost g (u :: v :: p) = (w ← edge g u v; c ← cost g (v :: p); Some (w + c)).
Proof. done. Qed.

Lemma cost_snoc g p u v c w :
  last p = Some u -> cost g p = Some c -> edge g u v = Some w ->
  cost g (p ++ [v]) = Some (c + w).
Proof.
  revert c. induction p as [|x p IH]; intros c Hl Hc He; [done|].
  destruct p as [|y p].
  - injection Hl as ->. injection Hc as <-. cbn. rewrite He. cbn. f_equal. lia.
  - rewrite cost_cons in Hc. change ((x :: y :: p) ++ [v]) with (x :: y :: (p ++ [v])).
    rewrite cost_cons. change (y :: p ++ [v]) with ((y :: p) ++ [v]).
    destruct (edge g x y) as [w1|]; [|done]. cbn [mbind option_bind] in *.
    destruct (cost g (y :: p)) as [c1|]; [|done]. injection Hc as <-.
    rewrite (IH c1 Hl eq_refl He). cbn. f_equal. lia.
Qed.

Lemma removelast_last_eq {A} (p : list A) u : last p = Some u -> p = removelast p ++ [u].
Proof.
  induction p as [|x p IH]; [done|]. destruct p as [|y p].
  - intros [= ->]. done.
  - intros Hl. change (removelast (x :: y :: p)) with (x :: removelast (y :: p)).
    cbn [app]. f_equal. by apply IH.
Qed.

(** ** The invariant of the search

    [vs] lists the visited nodes, the latest first. *)
Section Invariant.
Context (g : LatencyGraph) (s : string).

Record search_inv (vs : list string) (st : search) : Prop := {
  v_set : forall k, k ∈ s_visited st <-> k ∈ vs;
  v_nodup : NoDup vs;
  v_source : s ∈ vs /\ s_dist st !! s = Some 0 /\ s_prev st !! s = None /\ hops st s = 0;
  v_prev : forall v u, s_prev st !! v = Some u -> u ∈ vs /\ (hops st v = hops st u + 1 /\ hops st v <= bound) /\
    exists du w, s_dist st !! u = Some du /\ edge g u v = Some w /\ s_dist st !! v = Some (du + w);
  v_dist : forall v, is_Some (s_dist st !! v) -> v = s \/ is_Some (s_prev st !! v);
  v_visited : forall v, v ∈ vs -> is_Some (s_dist st !! v);
  v_order : forall l1 v l2 u, vs = l1 ++ v :: l2 -> s_prev st !! v = Some u -> u ∈ l2;
  v_wf : pq_wf (s_queue st);
  v_queue : forall i, i ∈ pq_items (s_queue st) -> is_Some (s_dist st !! key i)
}.

(** What the tree of [prev] gives for a visited node. *)
Definition tree_path (st : search) (l2 : list string) (v : string) (p : list string) : Prop :=
  exists c, is_path g s v p c /\ s_dist st !! v = Some c /\ NoDup p /\
    (forall x, x ∈ p -> x = v \/ x ∈ l2) /\ len p = hops st v + 1 /\
    (forall x, x ∈ tail p -> is_Some (s_prev st !! x)) /\
    (forall fuel path, (length p <= S fuel)%nat ->
       reconstruct fuel (s_prev st) v path = Some (removelast p ++ path)).

Lemma tree_path_exists vs st : search_inv vs st ->
  forall l2 l1 v, vs = l1 ++ v :: l2 -> exists p, tree_path st l2 v p.
Proof.
  intros Hinv l2. induction l2 as [l2 IH] using (induction_ltof1 _ length); unfold ltof in IH.
  intros l1 v Hvs. destruct Hinv as [_ Hnd (Hs & Hs0 & Hsp & Hsh) Hprev Hdist Hvis Hord _ _].
  destruct (s_prev st !! v) as [u|] eqn:Ep.
  - pose proof (Hord _ _ _ _ Hvs Ep) as Hu. apply list_elem_of_split in Hu as (a & b & Hab).
    destruct (IH b) with (l1 := l1 ++ v :: a) (v := u)
      as (p & c & (Hh & Hl & Hc) & Hd & Hndp & Hin & Hlen & Htl & Hrec).
    { rewrite Hab, length_app. cbn. lia. }
    { by rewrite Hvs, Hab, <-app_assoc. }
    destruct (Hprev _ _ Ep) as (_ & [Hhop Hmax] & du & w & Hdu & He & Hdv).
    assert (du = c) as -> by congruence.
    assert (forall x, x = u \/ x ∈ b -> x ∈ l2) as Hub.
    { intros x Hx. rewrite Hab. apply elem_of_app. right. apply elem_of_cons. tauto. }
    assert (v ∉ p) as Hvp.
    { intros Hv. apply Hin in Hv. rewrite Hvs in Hnd. apply NoDup_app in Hnd as (_ & _ & Hnd).
      apply NoDup_cons in Hnd as [Hnv _]. by apply Hnv, Hub. }
    exists (p ++ [v]), (c + w). destruct p as [|x p]; [done|]. unfold is_path. split_and!.
    + done.
    + by rewrite last_snoc.
    + by eapply cost_snoc.
    + done.
    + apply NoDup_app. split_and!; [done | by intros x' Hx' ->%list_elem_of_singleton | apply NoDup_singleton].
    + intros y [Hy|Hy]%elem_of_app; [|left; by apply list_elem_of_singleton in Hy].
      right. by apply Hub, Hin.
    + rewrite length_app. cbn [length] in *. lia.
    + intros y [Hy|Hy]%elem_of_app; [by apply Htl|].
      apply list_elem_of_singleton in Hy as ->. by eexists.
    + intros fuel path Hf. rewrite removelast_last. destruct fuel as [|fuel];
        [rewrite length_app in Hf; cbn in Hf; lia|]. cbn [reconstruct]. rewrite Ep.
      rewrite Hrec by (rewrite length_app in Hf; cbn in *; lia).
      rewrite (removelast_last_eq _ _ Hl) at 2. by rewrite <-app_assoc.
  - unfold tree_path, is_path. assert (v = s) as ->.
    { destruct (Hdist v) as [?|[? ?]]; [|done|congruence]. apply Hvis. rewrite Hvs. apply elem_of_app. right. left. }
    exists [s], 0. split_and!; try done.
    + apply NoDup_singleton.
    + intros x ->%list_elem_of_singleton. by left.
    + cbn. lia.
    + intros x Hx. by apply not_elem_of_nil in Hx.
    + intros fuel path _. destruct fuel; cbn; by rewrite Hsp.
Qed.

Lemma visit_inv vs st cur q :
  search_inv vs st -> pq_pop (s_queue st) = Some (cur, q) -> key cur ∉ vs ->
  search_inv (key cur :: vs) (visit (key cur) q st).
Proof.
  intros [H1 H2 (Hs & Hs') H4 H5 H6 H7 H8 H9] Hpop Hnew.
  destruct (pq_pop_some _ _ _ H8 Hpop) as (Hwf & Hit & _).
  constructor; cbn [visit s_dist s_prev s_visited s_hops s_queue]; auto.
  - intros k. rewrite elem_of_union, elem_of_singleton, elem_of_cons, H1. done.
  - by constructor.
  - split; [by right | done].
  - intros v u Hp. destruct (H4 v u Hp) as (? & ? & ?). split; [by right | done].
  - intros v [->|Hv]%elem_of_cons; [|auto]. apply H9. rewrite Hit. left.
  - intros [|x l1] v l2 u Heq Hp; cbn in Heq; simplify_eq.
    + by destruct (H4 _ _ Hp).
    + by eapply H7.
  - intros i Hi. apply H9. rewrite Hit. by right.
Qed.

Lemma skip_inv vs st cur q :
  search_inv vs st -> pq_pop (s_queue st) = Some (cur, q) ->
  search_inv vs {| s_dist := s_dist st; s_prev := s_prev st; s_visited := s_visited st;
                   s_hops := s_hops st; s_queue := q |}.
Proof.
  intros [] Hpop. destruct (pq_pop_some _ _ _ v_wf0 Hpop) as (Hwf & Hit & _).
  constructor; cbn; auto. intros i Hi. apply v_queue0. rewrite Hit. by right.
Qed.

Lemma relax_inv cur vs st nb :
  search_inv (cur :: vs) st -> default ∅ (g !! cur) !! nb.1 = Some nb.2 ->
  search_inv (cur :: vs) (relax cur st nb) /\
  s_visited (relax cur st nb) = s_visited st /\
  (length (pq_items (s_queue (relax cur st nb))) <= S (length (pq_items (s_queue st))))%nat.
Proof.
  intros Hinv He. destruct nb as [v e]. cbn [fst snd] in He. unfold relax.
  case_bool_decide as Hv; [auto|].
  destruct (Z.leb_spec bound (hops st cur)) as [|Hhop]; [auto|].
  destruct (match s_dist st !! v with Some d => _ | None => _ end); [|auto].
  pose proof Hinv as [H1 H2 (Hs & Hs0 & Hsp & Hsh) H4 H5 H6 H7 H8 H9]. rewrite H1 in Hv.
  assert (forall k, k ∈ cur :: vs -> v <> k) as Hne by (intros k Hk ->; done).
  split; [|split; [done|]; cbn; by rewrite pq_push_items by done].
  destruct (H6 cur (list_elem_of_here _ _)) as [dc Hdc].
  assert (distance st cur = dc) as -> by (unfold distance; by rewrite Hdc).
  constructor; cbn [s_dist s_prev s_visited s_hops s_queue]; auto.
  - split_and!; [done| | |].
    + by rewrite lookup_insert_ne by auto.
    + by rewrite lookup_insert_ne by auto.
    + unfold hops. cbn. by rewrite lookup_insert_ne by auto.
  - intros k u Hp. apply lookup_insert_Some in Hp as [[<- <-]|[Hk Hp]].
    + split_and!; [left | | |].
      * unfold hops. cbn [s_hops]. rewrite lookup_insert_eq, lookup_insert_ne; [done|].
        apply Hne. left.
      * unfold hops in *. cbn [s_hops]. rewrite lookup_insert_eq. cbn. lia.
      * exists dc, (rtt e). split_and!.
        -- rewrite lookup_insert_ne; [done|]. apply Hne. left.
        -- unfold edge. by rewrite He.
        -- apply lookup_insert_eq.
    + destruct (H4 k u Hp) as (Hu & [Hh1 Hh2] & du & w & Hdu & Hw & Hdk).
      split_and!; [done | | |].
      * unfold hops in *. cbn [s_hops]. rewrite !lookup_insert_ne; auto.
      * unfold hops in *. cbn [s_hops]. by rewrite lookup_insert_ne.
      * exists du, w. rewrite !lookup_insert_ne; auto.
  - intros k [->|[Hk Hd]]%lookup_insert_is_Some.
    + right. rewrite lookup_insert_eq. by eexists.
    + destruct (H5 k Hd) as [->|?]; [by left|]. right. by rewrite lookup_insert_ne.
  - intros k Hk. rewrite lookup_insert_ne; auto.
  - intros l1 k l2 u Heq Hp. rewrite lookup_insert_ne in Hp; [by eapply H7|].
    apply Hne. rewrite Heq. apply elem_of_app. right. left.
  - by apply pq_push_wf.
  - intros i. rewrite pq_push_items by done. intros [->|Hi]%elem_of_cons.
    + cbn. rewrite lookup_insert_eq. by eexists.
    + apply lookup_insert_is_Some. destruct (decide (v = key i)); [by left | right; auto].
Qed.

Lemma relax_all_inv cur vs nbs : forall st,
  search_inv (cur :: vs) st -> Forall (fun nb => default ∅ (g !! cur) !! nb.1 = Some nb.2) nbs ->
  search_inv (cur :: vs) (foldl (relax cur) st nbs) /\
  s_visited (foldl (relax cur) st nbs) = s_visited st /\
  (length (pq_items (s_queue (foldl (relax cur) st nbs))) <=
   length nbs + length (pq_items (s_queue st)))%nat.
Proof.
  induction nbs as [|nb nbs IH]; intros st Hinv Hf; cbn [foldl length]; [auto|].
  apply Forall_cons in Hf as [He Hf].
  destruct (relax_inv cur vs st nb Hinv He) as (Hinv' & Hv & Hl).
  destruct (IH _ Hinv' Hf) as (H1 & H2 & H3). split_and!; [done | congruence | lia].
Qed.

(** ** Termination and soundness *)

(** The edges whose source was not visited yet. *)
Definition remaining (vis : gset string) : nat :=
  sum_list ((fun e => if decide (e.1 ∈ vis) then 0%nat else size e.2) <$> map_to_list g).

Lemma sum_visited (vis : gset string) k (l : list (string * gmap string rttEntry)) :
  Forall (fun e => e.1 <> k) l ->
  sum_list ((fun e => if decide (e.1 ∈ {[k]} ∪ vis) then 0%nat else size e.2) <$> l) =
  sum_list ((fun e => if decide (e.1 ∈ vis) then 0%nat else size e.2) <$> l).
Proof.
  induction 1 as [|e l Hne _ IH]; [done|]. cbn. rewrite IH. f_equal.
  destruct (decide (e.1 ∈ {[k]} ∪ vis)) as [H|H], (decide (e.1 ∈ vis)) as [H'|H']; try done.
  - by apply elem_of_union in H as [?%elem_of_singleton|?].
  - destruct H. apply elem_of_union. by right.
Qed.

Lemma remaining_visit vis k :
  k ∉ vis -> (remaining vis = remaining ({[k]} ∪ vis) + size (default ∅ (g !! k)))%nat.
Proof.
  intros Hk. unfold remaining. destruct (g !! k) as [m|] eqn:E; cbn [default].
  - rewrite <-(map_to_list_delete g k m E). cbn [fmap list_fmap sum_list fst snd].
    rewrite decide_False by done. rewrite decide_True by (apply elem_of_union; left; by apply elem_of_singleton).
    rewrite sum_visited; [cbn; lia|]. apply Forall_forall. intros [k' m'] Hin. cbn.
    apply elem_of_map_to_list in Hin. intros ->. by rewrite lookup_delete_eq in Hin.
  - rewrite map_size_empty, sum_visited; [lia|]. apply Forall_forall. intros [k' m'] Hin. cbn.
    apply elem_of_map_to_list in Hin. intros ->. discriminate (eq_trans (eq_sym Hin) E).
Qed.

Lemma edges_remaining : edges g = remaining ∅.
Proof.
  unfold edges, AllEdges, remaining. induction (map_to_list g) as [|[u m] l IH]; [done|].
  cbn [mbind list_bind fmap list_fmap sum_list]. rewrite length_app, length_fmap, IH.
  rewrite decide_False by apply not_elem_of_empty. by rewrite length_map_to_list.
Qed.

Context (iter_perm : forall u m, iter u m ≡ₚ map_to_list m) (bound_nonneg : 0 <= bound).

Lemma iter_edges u : Forall (fun nb => default ∅ (g !! u) !! nb.1 = Some nb.2) (iter u (default ∅ (g !! u))).
Proof.
  apply Forall_forall. intros [v e] Hin. rewrite iter_perm in Hin. by apply elem_of_map_to_list in Hin.
Qed.

Lemma iter_length u m : length (iter u m) = size m.
Proof. by rewrite (iter_perm u m), length_map_to_list. Qed.

(** What the answer of the search promises. *)
Definition sound (target : string) (o : outcome) : Prop :=
  match o with
  | OutOfFuel => False
  | Found p => NoDup p /\ len p <= bound + 1 /\ exists c, is_path g s target p c
  | NoPath => True
  end.

Lemma reconstruct_found vs st k :
  search_inv (k :: vs) st ->
  exists p, reconstruct (size (s_prev st)) (s_prev st) k [k] = Some p /\ tree_path st vs k p.
Proof.
  intros Hinv. destruct (tree_path_exists _ _ Hinv vs [] k eq_refl) as (p & Hp).
  exists p. split; [|done]. destruct Hp as (c & (Hh & Hl & Hc) & Hd & Hnd & Hin & Hlen & Htl & Hrec).
  rewrite Hrec, <-(removelast_last_eq _ _ Hl); [done|].
  destruct p as [|x p]; [done|]. cbn [tail length] in *. apply NoDup_cons in Hnd as [_ Hnd].
  assert (length p <= size (s_prev st))%nat; [|lia].
  rewrite <-(size_list_to_set (C := gset string) p Hnd), <-size_dom. apply subseteq_size.
  intros y Hy%elem_of_list_to_set. apply elem_of_dom. by apply Htl.
Qed.

Lemma run_sound target fuel : forall vs st,
  search_inv vs st -> (length (pq_items (s_queue st)) + remaining (s_visited st) < fuel)%nat ->
  sound target (run fuel g target st).
Proof.
  induction fuel as [|fuel IH]; intros vs st Hinv Hf; [lia|]. cbn [run].
  destruct (pq_pop (s_queue st)) as [[cur q]|] eqn:Epop; [|done].
  destruct (pq_pop_some _ _ _ (v_wf _ _ Hinv) Epop) as (Hwf & Hit & _).
  assert (length (pq_items (s_queue st)) = S (length (pq_items q))) as Hlen by by rewrite Hit.
  case_bool_decide as Hv.
  { apply (IH vs); [by eapply skip_inv | cbn; lia]. }
  rewrite (v_set _ _ Hinv) in Hv. pose proof (visit_inv _ _ _ _ Hinv Epop Hv) as Hinv1.
  destruct (String.eqb_spec (key cur) target) as [<-|Hne].
  - destruct (reconstruct_found _ _ _ Hinv1) as (p & -> & c & Hp & Hd & Hnd & Hin & Hl & _).
    cbn [sound]. split_and!; [done | | by exists c]. rewrite Hl.
    destruct (s_prev (visit (key cur) q st) !! key cur) as [u|] eqn:Ep.
    + destruct (v_prev _ _ Hinv1 _ _ Ep) as (_ & [_ Hm] & _). lia.
    + destruct (v_dist _ _ Hinv1 (key cur)) as [Hs|[? ?]]; [by eexists | | congruence].
      destruct (v_source _ _ Hinv1) as (_ & _ & _ & H0). rewrite Hs in *. rewrite H0. lia.
  - destruct (relax_all_inv (key cur) vs _ _ Hinv1 (iter_edges (key cur))) as (H1 & H2 & H3).
    apply (IH (key cur :: vs)); [done|]. rewrite H2.
    cbn [visit s_visited s_queue] in *. rewrite iter_length in H3.
    rewrite <-(v_set _ _ Hinv) in Hv. rewrite (remaining_visit _ _ Hv) in Hf. lia.
Qed.

(** The first round takes the source from the queue. *)
Lemma start_pop : exists q,
  pq_pop (s_queue (start s)) = Some (MkItem s 0, q) /\ pq_wf q /\ pq_items q = [].
Proof.
  pose proof pq_empty_wf as Hwf. cbn [start s_queue].
  pose proof (pq_push_items (MkItem s 0) _ Hwf) as Hit. rewrite pq_empty_items in Hit.
  destruct (pq_pop _) as [[i q]|] eqn:Ep.
  - destruct (pq_pop_some _ _ _ (pq_push_wf _ _ Hwf) Ep) as (Hq & Hiq & _).
    rewrite Hit in Hiq. apply Permutation_singleton_l in Hiq. injection Hiq as <- Hnil. by exists q.
  - apply pq_pop_none in Ep. rewrite Ep in Hit. by apply Permutation_nil in Hit.
Qed.

Lemma visit_start_inv q :
  pq_wf q -> pq_items q = [] -> search_inv [s] (visit s q (start s)).
Proof.
  intros Hwf Hit. constructor; cbn [visit start s_dist s_prev s_visited s_hops s_queue].
  - intros k. rewrite union_empty_r_L, elem_of_singleton, list_elem_of_singleton. done.
  - apply NoDup_singleton.
  - split; [left|]. by rewrite lookup_singleton_eq.
  - intros v u Hp. by rewrite lookup_empty in Hp.
  - intros v [d [<- _]%lookup_singleton_Some]. by left.
  - intros v ->%list_elem_of_singleton. rewrite lookup_singleton_eq. by eexists.
  - intros l1 v l2 u _ Hp. by rewrite lookup_empty in Hp.
  - done.
  - intros i Hi. rewrite Hit in Hi. by apply not_elem_of_nil in Hi.
Qed.

Lemma run_start fuel target :
  s <> target -> exists st,
    run (S fuel) g target (start s) = run fuel g target st /\ search_inv [s] st /\
    (length (pq_items (s_queue st)) + remaining (s_visited st) <= edges g)%nat /\
    exists q, pq_pop (s_queue (start s)) = Some (MkItem s 0, q) /\ pq_wf q /\ pq_items q = [] /\
      st = foldl (relax s) (visit s q (start s)) (iter s (default ∅ (g !! s))).
Proof.
  intros Hne. destruct start_pop as (q & Hpop & Hwf & Hit). cbn [run]. rewrite Hpop.
  cbn [key]. rewrite bool_decide_false by apply not_elem_of_empty.
  rewrite (proj2 (String.eqb_neq _ _) Hne).
  destruct (relax_all_inv s [] _ _ (visit_start_inv q Hwf Hit) (iter_edges s)) as (H1 & H2 & H3).
  eexists. split_and!; [reflexivity | done | | by exists q].
  rewrite iter_length in H3. cbn [visit s_queue] in H3. rewrite Hit in H3. cbn [length] in H3.
  rewrite H2, edges_remaining, (remaining_visit ∅ s) by apply not_elem_of_empty.
  cbn [visit start s_visited] in *. lia.
Qed.
End Invariant.

(** ** Exactness on small graphs

    The hop bound never cuts the search when the graph has at most five
    nodes; then it is Dijkstra's algorithm. *)
Section Exact.
Context (g : LatencyGraph) (s : string) (nodes : list string).

Definition small : Prop :=
  len nodes <= bound + 1 /\ s ∈ nodes /\
  forall u v w, edge g u v = Some w -> 0 <= w /\ v ∈ nodes.
Context (Hsmall : small).

Lemma cost_nonneg p : forall c, cost g p = Some c -> 0 <= c.
Proof.
  destruct Hsmall as (_ & _ & Hedge). induction p as [|x [|y p] IH]; intros c Hc.
  - by injection Hc as <-.
  - by injection Hc as <-.
  - rewrite cost_cons in Hc. destruct (edge g x y) as [w|] eqn:E; [|done].
    cbn [mbind option_bind] in Hc. destruct (cost g (y :: p)) as [c1|] eqn:E1; [|done].
    injection Hc as <-. destruct (Hedge _ _ _ E). specialize (IH c1 eq_refl). lia.
Qed.

(** A path that leaves a set of nodes crosses an edge out of it. *)
Lemma crossing (vs : list string) k p : forall x c,
  x ∈ vs -> k ∉ vs -> is_path g x k p c ->
  exists p1 c1 u v w, is_path g x u p1 c1 /\ u ∈ vs /\ (v ∉ vs) /\ edge g u v = Some w /\ c1 + w <= c.
Proof.
  induction p as [|a p IH]; intros x c Hx Hk (Hh & Hl & Hc); [done|].
  injection Hh as ->. destruct p as [|y p]; [by injection Hl as ->|].
  rewrite cost_cons in Hc. destruct (edge g x y) as [w|] eqn:E; [|done].
  cbn [mbind option_bind] in Hc. destruct (cost g (y :: p)) as [c1|] eqn:E1; [|done].
  injection Hc as <-. pose proof (cost_nonneg _ _ E1).
  destruct (decide (y ∈ vs)) as [Hy|Hy].
  - destruct (IH y c1 Hy Hk) as (p1 & c2 & u & v & w2 & (Hh2 & Hl2 & Hc2) & Hu & Hv & He & Hle);
      [done|]. destruct p1 as [|z p1]; [done|]. injection Hh2 as ->.
    exists (x :: y :: p1), (w + c2), u, v, w2. split_and!; [|done..|lia].
    split_and!; [done | done |]. by rewrite cost_cons, E, Hc2.
  - exists [x], 0, x, y, w. split_and!; [by split_and! | done..| lia].
Qed.

(** [proc] are the neighbours of the current node that were relaxed. *)
Record exact_inv (cur : string) (vs proc : list string) (st : search) : Prop := {
  e_relaxed : forall u v w, u ∈ vs -> edge g u v = Some w ->
    exists du d, s_dist st !! u = Some du /\ s_dist st !! v = Some d /\ d <= du + w;
  e_proc : forall v w, v ∈ proc -> edge g cur v = Some w ->
    exists du d, s_dist st !! cur = Some du /\ s_dist st !! v = Some d /\ d <= du + w;
  e_waiting : forall v d, v ∉ cur :: vs -> s_dist st !! v = Some d ->
    MkItem v d ∈ pq_items (s_queue st);
  e_stale : forall i d, i ∈ pq_items (s_queue st) -> key i ∉ cur :: vs ->
    s_dist st !! key i = Some d -> d <= dist i;
  e_best : forall u p c d, u ∈ cur :: vs -> is_path g s u p c -> s_dist st !! u = Some d -> d <= c;
  e_nodes : forall v, is_Some (s_dist st !! v) -> v ∈ nodes
}.

(** An unvisited neighbour leaves room below the hop bound. *)
Lemma hop_room cur vs proc st v :
  search_inv g s (cur :: vs) st -> exact_inv cur vs proc st -> v ∈ nodes -> v ∉ cur :: vs ->
  hops st cur < bound.
Proof.
  intros Hinv He Hv Hnew. destruct Hsmall as (Hn & _ & _).
  destruct (tree_path_exists _ _ _ _ Hinv vs [] cur eq_refl)
    as (p & c & _ & _ & Hnd & Hin & Hlen & _).
  assert (forall x, x ∈ p -> x ∈ cur :: vs) as Hsub.
  { intros x Hx. apply elem_of_cons. by apply Hin. }
  assert (v :: p ⊆+ nodes) as Hsm.
  { apply NoDup_submseteq; [constructor; [by intros ?%Hsub | done]|].
    intros x [->|Hx]%elem_of_cons; [done|]. apply (e_nodes _ _ _ _ He).
    apply (v_visited _ _ _ _ Hinv). auto. }
  apply submseteq_length in Hsm. cbn [length] in Hsm. lia.
Qed.

Lemma relax_insert_exact cur vs proc st v e dc :
  search_inv g s (cur :: vs) st -> exact_inv cur vs proc st ->
  edge g cur v = Some (rtt e) -> s_dist st !! cur = Some dc -> v ∉ cur :: vs -> v ∈ nodes ->
  (forall d, s_dist st !! v = Some d -> dc + rtt e < d) ->
  exact_inv cur vs (v :: proc)
    {| s_dist := <[v := dc + rtt e]> (s_dist st); s_prev := <[v := cur]> (s_prev st);
       s_visited := s_visited st; s_hops := <[v := hops st cur + 1]> (s_hops st);
       s_queue := pq_push (MkItem v (dc + rtt e)) (s_queue st) |}.
Proof.
  intros Hinv [H1 H2 H3 H4 H5 H6] Hedge Hdc Hv Hvn Himp.
  pose proof (v_wf _ _ _ _ Hinv) as Hwf.
  assert (forall k, k ∈ cur :: vs -> v <> k) as Hne by (intros k Hk ->; done).
  assert (forall k d b, s_dist st !! k = Some d -> d <= b ->
    exists d', <[v := dc + rtt e]> (s_dist st) !! k = Some d' /\ d' <= b) as Hless.
  { intros k d b Hk Hb. destruct (decide (v = k)) as [<-|Hvk].
    - rewrite lookup_insert_eq. eexists. split; [done|]. specialize (Himp _ Hk). lia.
    - rewrite lookup_insert_ne by done. eauto. }
  assert (s_dist st !! cur = <[v := dc + rtt e]> (s_dist st) !! cur) as Hcur.
  { rewrite lookup_insert_ne; [done|]. apply Hne. left. }
  constructor; cbn [s_dist s_queue].
  - intros u k w Hu Hw. destruct (H1 u k w Hu Hw) as (du & d & Hdu & Hd & Hle).
    destruct (Hless k d (du + w) Hd Hle) as (d' & Hd' & Hle').
    exists du, d'. rewrite lookup_insert_ne by (apply Hne; by right). done.
  - intros k w [->|Hk]%elem_of_cons Hw.
    + exists dc, (dc + rtt e). rewrite <-Hcur, lookup_insert_eq. split_and!; [done..|].
      assert (w = rtt e) as -> by congruence. lia.
    + destruct (H2 k w Hk Hw) as (du & d & Hdu & Hd & Hle).
      destruct (Hless k d (du + w) Hd Hle) as (d' & Hd' & Hle'). exists du, d'. by rewrite <-Hcur.
  - intros k d Hk Hd. rewrite pq_push_items by done.
    apply lookup_insert_Some in Hd as [[<- <-]|[Hvk Hd]]; [left | right; auto].
  - intros i d. rewrite pq_push_items by done. intros [->|Hi]%elem_of_cons Hk Hd.
    + cbn [key dist] in *. rewrite lookup_insert_eq in Hd. injection Hd as <-. done.
    + apply lookup_insert_Some in Hd as [[Hvk <-]|[Hvk Hd]]; [|by eapply H4].
      destruct (v_queue _ _ _ _ Hinv i Hi) as [d0 Hd0]. specialize (H4 i d0 Hi Hk Hd0).
      rewrite <-Hvk in Hd0. specialize (Himp _ Hd0). lia.
  - intros u p c d Hu Hp Hd. rewrite lookup_insert_ne in Hd by by apply Hne. by eapply H5.
  - intros k [->|[_ Hk]]%lookup_insert_is_Some; auto.
Qed.

Lemma relax_exact cur vs proc st nb :
  search_inv g s (cur :: vs) st -> exact_inv cur vs proc st ->
  default ∅ (g !! cur) !! nb.1 = Some nb.2 ->
  exact_inv cur vs (nb.1 :: proc) (relax cur st nb).
Proof.
  intros Hinv He Hnb. destruct nb as [v e]. cbn [fst snd] in *.
  assert (edge g cur v = Some (rtt e)) as Hedge by (unfold edge; by rewrite Hnb).
  destruct (v_visited _ _ _ _ Hinv cur (list_elem_of_here _ _)) as [dc Hdc].
  assert (distance st cur = dc) as Hdist by (unfold distance; by rewrite Hdc).
  unfold relax. rewrite Hdist. case_bool_decide as Hv.
  { rewrite (v_set _ _ _ _ Hinv) in Hv. destruct (v_visited _ _ _ _ Hinv v Hv) as [d Hd].
    destruct (tree_path_exists _ _ _ _ Hinv vs [] cur eq_refl)
      as (p & c & (Hh & Hl & Hc) & Hdc' & _). destruct He. constructor; auto.
    intros v' w [->|Hv']%elem_of_cons Hw; [|by apply e_proc0].
    exists dc, d. split_and!; [done..|]. apply (e_best0 v (p ++ [v])); [done | | done].
    split_and!; [by destruct p | by rewrite last_snoc |].
    rewrite (cost_snoc _ _ cur v c w) by congruence. f_equal. congruence. }
  rewrite (v_set _ _ _ _ Hinv) in Hv.
  pose proof (proj2 (proj2 (proj2 Hsmall) _ _ _ Hedge)) as Hvn.
  pose proof (hop_room _ _ _ _ _ Hinv He Hvn Hv) as Hroom.
  rewrite (proj2 (Z.leb_gt _ _)) by done.
  destruct (match s_dist st !! v with Some d => _ | None => _ end) eqn:Eimp.
  - apply relax_insert_exact; [done..|]. intros d0 Hd0. rewrite Hd0 in Eimp. lia.
  - destruct (s_dist st !! v) as [d0|] eqn:Ed0; [|done].
    destruct He. constructor; auto.
    intros v' w [->|Hv']%elem_of_cons Hw; [|by apply e_proc0].
    exists dc, d0. split_and!; [done..|]. assert (w = rtt e) as -> by congruence. lia.
Qed.

Lemma relax_all_exact cur vs nbs : forall proc st,
  search_inv g s (cur :: vs) st -> exact_inv cur vs proc st ->
  Forall (fun nb => default ∅ (g !! cur) !! nb.1 = Some nb.2) nbs ->
  exact_inv cur vs (reverse (nbs.*1) ++ proc) (foldl (relax cur) st nbs).
Proof.
  induction nbs as [|nb nbs IH]; intros proc st Hinv He Hf; [done|].
  apply Forall_cons in Hf as [Hnb Hf]. cbn [foldl fmap list_fmap].
  rewrite reverse_cons, <-app_assoc. apply IH; [|by apply relax_exact|done].
  by apply relax_inv.
Qed.

(** Between two rounds every visited node is relaxed. *)
Record round_inv (vs : list string) (st : search) : Prop := {
  r_relaxed : forall u v w, u ∈ vs -> edge g u v = Some w ->
    exists du d, s_dist st !! u = Some du /\ s_dist st !! v = Some d /\ d <= du + w;
  r_waiting : forall v d, v ∉ vs -> s_dist st !! v = Some d -> MkItem v d ∈ pq_items (s_queue st);
  r_stale : forall i d, i ∈ pq_items (s_queue st) -> key i ∉ vs ->
    s_dist st !! key i = Some d -> d <= dist i;
  r_best : forall u p c d, u ∈ vs -> is_path g s u p c -> s_dist st !! u = Some d -> d <= c;
  r_nodes : forall v, is_Some (s_dist st !! v) -> v ∈ nodes
}.

Context (iter_perm : forall u m, iter u m ≡ₚ map_to_list m).

Lemma close_round cur vs proc st :
  exact_inv cur vs (reverse ((iter cur (default ∅ (g !! cur))).*1) ++ proc) st -> round_inv (cur :: vs) st.
Proof.
  intros [H1 H2 H3 H4 H5 H6]. constructor; auto.
  intros u v w [->|Hu]%elem_of_cons Hw; [|by apply H1]. apply H2; [|done].
  apply elem_of_app. left. apply elem_of_reverse. unfold edge in Hw.
  destruct (default ∅ (g !! cur) !! v) as [e|] eqn:E; [|done].
  apply list_elem_of_fmap. exists (v, e). split; [done|]. rewrite iter_perm. by apply elem_of_map_to_list.
Qed.

(** The latency of a node beyond the visited ones is at least the smallest
    in the queue. *)
Lemma outside vs st k p c :
  search_inv g s vs st -> round_inv vs st -> k ∉ vs -> is_path g s k p c ->
  exists i, i ∈ pq_items (s_queue st) /\ dist i <= c.
Proof.
  intros Hinv [H1 H2 H3 H4 H5] Hk Hp.
  destruct (crossing vs k p s c (proj1 (v_source _ _ _ _ Hinv)) Hk Hp)
    as (p1 & c1 & u & v & w & Hp1 & Hu & Hv & Hw & Hle).
  destruct (H1 u v w Hu Hw) as (du & d & Hdu & Hd & Hle2).
  specialize (H4 u p1 c1 du Hu Hp1 Hdu). exists (MkItem v d). split; [by apply H2 | cbn; lia].
Qed.

Lemma pop_round vs st cur q :
  search_inv g s vs st -> round_inv vs st -> pq_pop (s_queue st) = Some (cur, q) -> key cur ∉ vs ->
  exact_inv (key cur) vs [] (visit (key cur) q st).
Proof.
  intros Hinv Hr Hpop Hnew. destruct (pq_pop_some _ _ _ (v_wf _ _ _ _ Hinv) Hpop) as (_ & Hit & Hmin).
  pose proof (outside vs st (key cur)) as Hout. pose proof Hr as [H1 H2 H3 H4 H5].
  constructor; cbn [visit s_dist s_queue]; auto.
  - intros v w Hv. by apply not_elem_of_nil in Hv.
  - intros v d Hv Hd. apply not_elem_of_cons in Hv as [Hne Hv]. specialize (H2 v d Hv Hd).
    rewrite Hit in H2. apply elem_of_cons in H2 as [<-|?]; done.
  - intros i d Hi Hk. apply not_elem_of_cons in Hk as [_ Hk]. apply H3; [rewrite Hit; by right | done].
  - intros u p c d [->|Hu]%elem_of_cons Hp Hd; [|by eapply H4].
    destruct (Hout p c Hinv Hr Hnew Hp) as (i & Hi & Hle). specialize (Hmin i Hi).
    assert (d <= dist cur); [|lia]. apply H3; [rewrite Hit; left | done | done].
Qed.

Lemma skip_round vs st cur q :
  search_inv g s vs st -> round_inv vs st -> pq_pop (s_queue st) = Some (cur, q) -> key cur ∈ vs ->
  round_inv vs {| s_dist := s_dist st; s_prev := s_prev st; s_visited := s_visited st;
                  s_hops := s_hops st; s_queue := q |}.
Proof.
  intros Hinv [H1 H2 H3 H4 H5] Hpop Hold.
  destruct (pq_pop_some _ _ _ (v_wf _ _ _ _ Hinv) Hpop) as (_ & Hit & _).
  constructor; cbn [s_dist s_queue]; auto.
  - intros v d Hv Hd. specialize (H2 v d Hv Hd). rewrite Hit in H2.
    apply elem_of_cons in H2 as [<-|?]; done.
  - intros i d Hi. apply H3. rewrite Hit. by right.
Qed.

(** The exact answer: a path of least latency, or none when there is none. *)
Definition exact (target : string) (o : outcome) : Prop :=
  match o with
  | OutOfFuel => True
  | Found p => exists c, is_path g s target p c /\ forall p' c', is_path g s target p' c' -> c <= c'
  | NoPath => forall p c, ~ is_path g s target p c
  end.

Lemma run_exact target fuel : forall vs st,
  search_inv g s vs st -> round_inv vs st -> target ∉ vs -> exact target (run fuel g target st).
Proof.
  induction fuel as [|fuel IH]; intros vs st Hinv Hr Ht; [done|]. cbn [run].
  destruct (pq_pop (s_queue st)) as [[cur q]|] eqn:Epop.
  2:{ intros p c Hp. destruct (outside vs st target p c Hinv Hr Ht Hp) as (i & Hi & _).
      rewrite (pq_pop_none _ Epop) in Hi. by apply not_elem_of_nil in Hi. }
  case_bool_decide as Hv.
  { rewrite (v_set _ _ _ _ Hinv) in Hv. apply (IH vs); [by eapply skip_inv | by eapply skip_round | done]. }
  rewrite (v_set _ _ _ _ Hinv) in Hv. pose proof (visit_inv _ _ _ _ _ _ Hinv Epop Hv) as Hinv1.
  pose proof (pop_round _ _ _ _ Hinv Hr Epop Hv) as He.
  destruct (String.eqb_spec (key cur) target) as [<-|Hne].
  - destruct (reconstruct_found _ _ _ _ _ Hinv1) as (p & -> & c & Hp & Hd & _).
    exists c. split; [done|]. intros p' c' Hp'. apply (e_best _ _ _ _ He (key cur) p' c' c); [left | done | done].
  - apply (IH (key cur :: vs)).
    + by apply relax_all_inv, iter_edges.
    + eapply close_round, relax_all_exact; [done | done | by apply iter_edges].
    + apply not_elem_of_cons. split; [congruence | done].
Qed.

Lemma start_exact q : pq_items q = [] -> exact_inv s [] [] (visit s q (start s)).
Proof.
  intros Hq. constructor; cbn [visit start s_dist s_queue].
  - intros u v w Hu. by apply not_elem_of_nil in Hu.
  - intros v w Hv. by apply not_elem_of_nil in Hv.
  - intros v d Hv Hd. apply lookup_singleton_Some in Hd as [<- _]. destruct Hv. left.
  - intros i d Hi. rewrite Hq in Hi. by apply not_elem_of_nil in Hi.
  - intros u p c d ->%list_elem_of_singleton (_ & _ & Hc) Hd. rewrite lookup_singleton_eq in Hd.
    injection Hd as <-. by eapply cost_nonneg.
  - intros v [d [<- _]%lookup_singleton_Some]. apply Hsmall.
Qed.
End Exact.

Lemma query_sound g source target :
  (forall u m, iter u m ≡ₚ map_to_list m) -> 0 <= bound ->
  match query g source target with
  | OutOfFuel => False
  | Found p => NoDup p /\ len p <= bound + 1 /\ exists c, is_path g source target p c
  | NoPath => True
  end.
Proof.
  intros Hiter Hb. unfold query, adjacencyLocked. destruct (String.eqb source ""); [done|].
  destruct (String.eqb target ""); [done|].
  destruct (String.eqb_spec source target) as [|Hne]; [done|]. cbn [orb].
  replace (edges g + 2)%nat with (S (edges g + 1)) by lia.
  destruct (run_start g source Hiter (edges g + 1) target Hne) as (st & -> & Hinv & Hf & _).
  apply (run_sound g source Hiter Hb target _ [source]); [done|]. lia.
Qed.

Lemma query_exact g source target nodes :
  (forall u m, iter u m ≡ₚ map_to_list m) -> 0 <= bound -> small g source nodes ->
  source <> "" -> target <> "" -> source <> target ->
  match query g source target with
  | OutOfFuel => False
  | Found p => exists c, is_path g source target p c /\
      forall p' c', is_path g source target p' c' -> c <= c'
  | NoPath => forall p c, ~ is_path g source target p c
  end.
Proof.
  intros Hiter Hb Hsmall Hs0 Ht0 Hne. unfold query, adjacencyLocked.
  rewrite !(proj2 (String.eqb_neq _ _)) by done. cbn [orb].
  replace (edges g + 2)%nat with (S (edges g + 1)) by lia.
  destruct (run_start g source Hiter (edges g + 1) target Hne)
    as (st & -> & Hinv & Hf & q & _ & Hwf & Hq & Hst).
  pose proof (run_sound g source Hiter Hb target (edges g + 1) [source] st Hinv ltac:(lia)) as Hsound.
  assert (round_inv g source nodes [source] st) as Hr.
  { subst st. eapply close_round; [done|]. apply relax_all_exact;
      [done | by apply visit_start_inv | by apply start_exact | by apply iter_edges]. }
  pose proof (run_exact g source nodes Hsmall Hiter target (edges g + 1) [source] st Hinv Hr) as Hex.
  assert (target ∉ [source]) as Hin by (intros Hin%list_elem_of_singleton; congruence).
  specialize (Hex Hin). by destruct (run _ _ _ _).
Qed.
End Query.

(** ** The query of the code *)
Section Answers.
Context {Q : Type} `{PQ : PriorityQueue heapItem dist Q}.
Context (iter : string -> gmap string rttEntry -> list (string * rttEntry)).

Definition QueryPath (g : LatencyGraph) (source target : string) : outcome := query iter maxHops g source target.

(** C37. A path query always answers, and what it answers is a path: whatever
    the graph and the order in which neighbours are visited, the search ends
    without running out of its bound, and a path it returns leads from the
    source to the target over measured edges, visits no node twice and has at
    most four hops. *)
Theorem QueryPath_sound g source target :
  (forall u m, iter u m ≡ₚ map_to_list m) ->
  match QueryPath g source target with
  | OutOfFuel => False
  | Found p => NoDup p /\ len p <= maxHops + 1 /\ exists c, is_path g source target p c
  | NoPath => True
  end.
Proof. intros Hiter. by apply query_sound. Qed.

(** On a graph of at most five nodes a path query gives the shortest
    path: with latencies that are not negative, the path it returns has the
    least total latency of all paths from the source to the target, whatever
    their length, and when it returns none there is no path. *)
Theorem QueryPath_exact g source target nodes :
  (forall u m, iter u m ≡ₚ map_to_list m) -> small maxHops g source nodes ->
  source <> "" -> target <> "" -> source <> target ->
  match QueryPath g source target with
  | OutOfFuel => False
  | Found p => exists c, is_path g source target p c /\
      forall p' c', is_path g source target p' c' -> c <= c'
  | NoPath => forall p c, ~ is_path g source target p c
  end.
Proof. intros Hiter. by apply query_exact. Qed.
End Answers.

(** ** Updates of the graph *)

Definition entry (g : LatencyGraph) (u v : string) : option rttEntry := default ∅ (g !! u) !! v.

Lemma entry_merge g r u v :
  entry (MergeFromSync g r) u v =
  union_with (fun a b => Some (newer a b)) (entry g u v) (entry r u v).
Proof.
  unfold entry, MergeFromSync, LatencyGraph in *. rewrite (lookup_union_with (M := gmap string)).
  destruct (g !! u) as [a|], (r !! u) as [b|]; cbn [default union_with option_union_with].
  - apply lookup_union_with.
  - rewrite lookup_empty. by destruct (id a !! v).
  - rewrite lookup_empty. by destruct (id b !! v).
  - by rewrite lookup_empty.
Qed.

Lemma newer_assoc a b c : newer a (newer b c) = newer (newer a b) c.
Proof.
  unfold newer. destruct (Z.ltb_spec (timestamp b) (timestamp c)), (Z.ltb_spec (timestamp a) (timestamp b)),
    (Z.ltb_spec (timestamp a) (timestamp c)); try done; try lia;
    repeat match goal with |- context [?x <? ?y] => destruct (Z.ltb_spec x y) end; try done; lia.
Qed.

Lemma newer_comm a b : (timestamp a = timestamp b -> a = b) -> newer a b = newer b a.
Proof.
  intros H. unfold newer.
  destruct (Z.ltb_spec (timestamp a) (timestamp b)), (Z.ltb_spec (timestamp b) (timestamp a));
    try done; try lia. apply H. lia.
Qed.

(** No two nodes hold different entries of one edge from the same instant. *)
Definition consistent (g r : LatencyGraph) : Prop :=
  forall u v a b, entry g u v = Some a -> entry r u v = Some b -> timestamp a = timestamp b -> a = b.

(** Latency graphs of shared nodes converge: merging is associative and
    merging the same graph again changes nothing, so that syncs may be
    repeated and relayed; and two nodes whose entries of an edge differ in
    their timestamps hold the same entries after merging each other's graph,
    whichever merges first. *)
Theorem MergeFromSync_converges a b c u v :
  entry (MergeFromSync a (MergeFromSync b c)) u v = entry (MergeFromSync (MergeFromSync a b) c) u v /\
  entry (MergeFromSync (MergeFromSync a b) b) u v = entry (MergeFromSync a b) u v /\
  (consistent a b -> entry (MergeFromSync a b) u v = entry (MergeFromSync b a) u v).
Proof.
  rewrite !entry_merge. destruct (entry a u v) as [x|] eqn:Ea, (entry b u v) as [y|] eqn:Eb,
    (entry c u v) as [z|] eqn:Ec; cbn [union_with option_union_with]; split_and!; try done;
    try (by rewrite newer_assoc); try (intros H; f_equal; apply newer_comm; eauto);
    f_equal; unfold newer; repeat match goal with |- context [?x <? ?y] => destruct (Z.ltb_spec x y) end;
    try done; lia.
Qed.

(** ** Examples *)
Definition link (u v : string) (ms : Z) (g : LatencyGraph) : LatencyGraph :=
  <[u := <[v := MkEntry ms 0 ""]> (default ∅ (g !! u))]> g.
Definition triangle : LatencyGraph := link "s" "t" 90 (link "s" "r" 20 (link "r" "t" 30 ∅)).
#[local] Existing Instance Heap.heap_queue.

Example triangle_relayed : QueryPath (fun _ => map_to_list) triangle "s" "t" = Found ["s"; "r"; "t"].
Proof. vm_compute. reflexivity. Qed.

Lemma QueryPath_sound_witness :
  match QueryPath (fun _ => map_to_list) triangle "s" "t" with
  | OutOfFuel => False
  | Found p => NoDup p /\ len p <= maxHops + 1 /\ exists c, is_path triangle "s" "t" p c
  | NoPath => True
  end.
Proof. apply (QueryPath_sound (fun _ => map_to_list) triangle "s" "t"). intros u m. reflexivity. Defined.

Lemma AllEdges_edge g u v w :
  edge g u v = Some w -> exists z, MkEdge u v w z ∈ AllEdges g.
Proof.
  unfold edge. intros (e & Hm & [= <-])%bind_Some. exists (zone e). apply list_elem_of_bind.
  destruct (g !! u) as [m|] eqn:E; cbn [default] in Hm; [|by rewrite lookup_empty in Hm].
  exists (u, m). split; [|by apply elem_of_map_to_list]. apply list_elem_of_fmap.
  exists (v, e). split; [done|]. by apply elem_of_map_to_list.
Qed.

Definition small_check (g : LatencyGraph) (s : string) (nodes : list string) : bool :=
  (len nodes <=? maxHops + 1) && bool_decide (s ∈ nodes) &&
  forallb (fun e => (0 <=? RTT e) && bool_decide (Target e ∈ nodes)) (AllEdges g).

Lemma small_check_ok g s nodes : small_check g s nodes = true -> small maxHops g s nodes.
Proof.
  unfold small_check. intros [[Hl%Z.leb_le Hs%bool_decide_eq_true]%andb_true_iff Hf]%andb_true_iff.
  split_and!; [done..|]. intros u v w (z & Hz)%AllEdges_edge.
  rewrite forallb_forall in Hf. apply list_elem_of_In in Hz. specialize (Hf _ Hz). cbn in Hf.
  apply andb_true_iff in Hf as [?%Z.leb_le ?%bool_decide_eq_true]. done.
Qed.

Lemma QueryPath_exact_witness :
  QueryPath (fun _ => map_to_list) triangle "s" "t" = Found ["s"; "r"; "t"] /\
  match QueryPath (fun _ => map_to_list) triangle "s" "t" with
  | OutOfFuel => False
  | Found p => exists c, is_path triangle "s" "t" p c /\
      forall p' c', is_path triangle "s" "t" p' c' -> c <= c'
  | NoPath => forall p c, ~ is_path triangle "s" "t" p c
  end.
Proof.
  split; [apply triangle_relayed|].
  apply (QueryPath_exact (fun _ => map_to_list) triangle "s" "t" ["s"; "r"; "t"]); try done.
  apply small_check_ok. vm_compute. reflexivity.
Defined.

(** A cheap detour of four hops to [a] hides the way of two hops over it. *)
Definition detour : LatencyGraph :=
  link "s" "b" 1 (link "b" "c" 1 (link "c" "d" 1 (link "d" "a" 1 (link "s" "a" 90 (link "a" "t" 1 ∅))))).

(** The hop bound can lose a path that exists: on a graph of six nodes
    where the cheapest way to the relay takes four hops, the query returns no
    path although the two hops over the relay are measured. *)
Theorem QueryPath_misses_path :
  QueryPath (fun _ => map_to_list) detour "s" "t" = NoPath /\ is_path detour "s" "t" ["s"; "a"; "t"] 91.
Proof. split; [vm_compute; reflexivity|]. split_and!; vm_compute; reflexivity. Qed.
End Paths.
