(* ===== verification/RingBuffer.v ===== *)
(** * Monitoring history (internal/monitor/ringbuffer.go, store.go)

    The two-tier ring buffer of metric samples and the store of one buffer
    per node. The buffer is refined to the list of the samples it was given.
    A sample is of any type with a timestamp: the buffer looks at nothing
    else. *)
From stdpp Require Import prelude gmap strings list sorting.
From Stdlib Require Import ZArith Lia.
From S2P Require Import Prelude.
Local Open Scope Z_scope.

Module Monitor.

(** Timestamps in nanoseconds; zero is Go's zero time. [Sub] saturates. *)
Definition IsZero (t : Z) : bool := t =? 0.
Definition Before (t u : Z) : bool := t <? u.
Definition Sub (t u : Z) : Z := Z.max (- 2 ^ 63) (Z.min (2 ^ 63 - 1) (t - u)).
Definition Unix (t : Z) : Z := t / 10 ^ 9.

Definition highResSlots : Z := 12 * 60.
Definition lowResSlots : Z := 7 * 24 * 12.
Definition lowResResolution : Z := 5 * 60 * 10 ^ 9.

Section Buffer.
Context {Metrics : Type} (Timestamp : Metrics -> Z).

(** The array, write position and number of valid entries of one tier. *)
Record tier : Type := MkTier { slots : list (option Metrics); head : Z; count : Z }.
Record RingBuffer : Type := MkBuffer { highRes : tier; lowRes : tier; lastHighResTS : Z }.

Definition empty_tier (size : Z) : tier := MkTier (replicate (Z.to_nat size) None) 0 0.
Definition NewRingBuffer : RingBuffer := MkBuffer (empty_tier highResSlots) (empty_tier lowResSlots) 0.

Definition tier_write (size : Z) (t : tier) (m : Metrics) : tier :=
  {| slots := <[Z.to_nat (head t) := Some m]> (slots t);
     head := (head t + 1) mod size;
     count := if count t <? size then count t + 1 else count t |}.

Definition Append (rb : RingBuffer) (m : option Metrics) : RingBuffer :=
  match m with
  | None => rb
  | Some m =>
      if IsZero (Timestamp m) then rb else
      let high := tier_write highResSlots (highRes rb) m in
      if IsZero (lastHighResTS rb) || (lowResResolution <=? Sub (Timestamp m) (lastHighResTS rb))
      then MkBuffer high (tier_write lowResSlots (lowRes rb) m) (Timestamp m)
      else MkBuffer high (lowRes rb) (lastHighResTS rb)
  end.

Definition Latest (rb : RingBuffer) : option Metrics :=
  if count (highRes rb) =? 0 then None else
  let idx := (head (highRes rb) - 1 + highResSlots) mod highResSlots in
  default None (slots (highRes rb) !! Z.to_nat idx).

(** The slots of a tier from its oldest entry on. *)
Definition cells (size : Z) (t : tier) : list (option Metrics) :=
  let start := (head t - count t + size) mod size in
  (fun i => default None (slots t !! Z.to_nat ((start + i) mod size))) <$> seqZ 0 (count t).

Definition HighRes (rb : RingBuffer) : list Metrics := omap id (cells highResSlots (highRes rb)).
Definition LowRes (rb : RingBuffer) : list Metrics := omap id (cells lowResSlots (lowRes rb)).

(** The loop of [Range], with its [continue] and [break]. *)
Fixpoint range_loop (from to : Z) (l : list (option Metrics)) : list Metrics :=
  match l with
  | [] => []
  | None :: l => range_loop from to l
  | Some m :: l =>
      if negb (IsZero from) && Before (Timestamp m) from then range_loop from to l else
      if negb (IsZero to) && negb (Before (Timestamp m) to) then [] else
      m :: range_loop from to l
  end.
Definition Range (rb : RingBuffer) (from to : Z) : list Metrics :=
  range_loop from to (cells highResSlots (highRes rb)).

Definition Len (rb : RingBuffer) : Z := count (highRes rb).
Definition LowResLen (rb : RingBuffer) : Z := count (lowRes rb).

Definition clear_tier (t : tier) : tier := MkTier ((fun _ => None) <$> slots t) 0 0.
Definition Clear (rb : RingBuffer) : RingBuffer :=
  MkBuffer (clear_tier (highRes rb)) (clear_tier (lowRes rb)) 0.

(** The samples not seen yet, by their second. *)
Fixpoint unseen (seen : gset Z) (l : list (option Metrics)) : gset Z * list Metrics :=
  match l with
  | [] => (seen, [])
  | None :: l => unseen seen l
  | Some m :: l =>
      if bool_decide (Unix (Timestamp m) ∈ seen) then unseen seen l else
      let '(seen, out) := unseen ({[Unix (Timestamp m)]} ∪ seen) l in (seen, m :: out)
  end.
Definition Snapshot (rb : RingBuffer) : list Metrics :=
  let '(seen, high) := unseen ∅ (slots (highRes rb)) in
  high ++ (unseen seen (slots (lowRes rb))).2.

(** ** The specification

    A buffer promises the last samples it was given, and of the low
    resolution the last of those at least five minutes apart. *)
Record history : Type := MkHistory { all : list Metrics; thinned : list Metrics; last_ts : Z }.

Definition no_history : history := MkHistory [] [] 0.
Definition record_sample (h : history) (m : option Metrics) : history :=
  match m with
  | None => h
  | Some m =>
      if IsZero (Timestamp m) then h else
      let due := IsZero (last_ts h) || (lowResResolution <=? Sub (Timestamp m) (last_ts h)) in
      MkHistory (all h ++ [m]) (if due then thinned h ++ [m] else thinned h)
        (if due then Timestamp m else last_ts h)
  end.

(** The last [n] of a list. *)
Definition lastn {A} (n : Z) (l : list A) : list A := drop (length l - Z.to_nat n) l.

(** ** The refinement *)

(** The tier holds the last entries of [l], entry [i] at index [i] modulo
    the size. *)
Record tier_rep (size : Z) (t : tier) (l : list Metrics) : Prop := {
  rep_slots : len (slots t) = size;
  rep_head : head t = len l mod size;
  rep_count : count t = Z.min (len l) size;
  rep_cell : forall i m, l !! i = Some m -> len l - size <= Z.of_nat i ->
    slots t !! Z.to_nat (Z.of_nat i mod size) = Some (Some m)
}.

Lemma empty_tier_rep size : 0 < size -> tier_rep size (empty_tier size) [].
Proof.
  intros Hs. constructor; cbn.
  - rewrite length_replicate. lia.
  - by rewrite Z.mod_0_l by lia.
  - lia.
  - intros i m Hi. by rewrite lookup_nil in Hi.
Qed.

(** Two numbers less than [size] apart are equal modulo it only when equal. *)
Lemma mod_close size a b :
  0 < size -> a mod size = b mod size -> a - size < b <= a -> a = b.
Proof.
  intros Hs Hm Hb. pose proof (Z.div_mod a size ltac:(lia)). pose proof (Z.div_mod b size ltac:(lia)).
  assert (a / size = b / size); nia.
Qed.

Lemma tier_write_rep size t l m :
  0 < size -> tier_rep size t l -> tier_rep size (tier_write size t m) (l ++ [m]).
Proof.
  intros Hs [H1 H2 H3 H4]. pose proof (Z.mod_pos_bound (len l) size Hs) as Hb.
  constructor; cbn [tier_write slots head count]; rewrite ?length_insert, ?length_app; cbn [length].
  - done.
  - rewrite H2, Zplus_mod_idemp_l. f_equal. lia.
  - rewrite H3. destruct (Z.ltb_spec (Z.min (len l) size) size); lia.
  - intros i m' Hi Hlt. apply lookup_app_Some in Hi as [Hi|[Hge Hi]].
    + pose proof (lookup_lt_Some _ _ _ Hi). rewrite list_lookup_insert_ne; [apply H4; [done|lia]|].
      rewrite H2. intros E. pose proof (Z.mod_pos_bound (Z.of_nat i) size Hs).
      assert (len l = Z.of_nat i) by (apply (mod_close size); lia). lia.
    + apply list_lookup_singleton_Some in Hi as [Hi <-]. replace (Z.of_nat i) with (len l) by lia.
      rewrite H2. apply list_lookup_insert_eq. lia.
Qed.

Lemma cells_rep size t l :
  0 < size -> tier_rep size t l -> cells size t = Some <$> lastn size l.
Proof.
  intros Hs [H1 H2 H3 H4]. unfold cells, lastn. apply list_eq. intros i.
  rewrite !list_lookup_fmap, lookup_drop. destruct (decide (Z.of_nat i < count t)) as [Hi|Hi].
  - rewrite lookup_seqZ_lt by lia. cbn [fmap option_fmap option_map].
    destruct (lookup_lt_is_Some_2 l (length l - Z.to_nat size + i)) as [m Hm]; [lia|].
    rewrite Hm. cbn. f_equal.
    replace ((head t - count t + size) mod size + (0 + Z.of_nat i))
      with ((head t - count t + size) mod size + Z.of_nat i) by lia.
    rewrite Zplus_mod_idemp_l, H2.
    replace (len l mod size - count t + size + Z.of_nat i)
      with (len l mod size + (size + Z.of_nat i - count t)) by lia.
    rewrite Zplus_mod_idemp_l.
    replace (len l + (size + Z.of_nat i - count t))
      with (Z.of_nat (length l - Z.to_nat size + i) + 1 * size) by lia.
    rewrite Z_mod_plus_full, (H4 _ m Hm) by lia. done.
  - rewrite (lookup_ge_None_2 (seqZ _ _)) by (rewrite length_seqZ; lia).
    rewrite (lookup_ge_None_2 l) by lia. done.
Qed.

Lemma omap_id_Some {A} (l : list A) : omap id (Some <$> l) = l.
Proof. induction l as [|x l IH]; cbn; [done|]. f_equal. apply IH. Qed.

Lemma high_pos : 0 < highResSlots.
Proof. done. Qed.
Lemma low_pos : 0 < lowResSlots.
Proof. done. Qed.

(** The simulation relation. *)
Record refines (rb : RingBuffer) (h : history) : Prop := {
  ref_high : tier_rep highResSlots (highRes rb) (all h);
  ref_low : tier_rep lowResSlots (lowRes rb) (thinned h);
  ref_last : lastHighResTS rb = last_ts h
}.

Lemma NewRingBuffer_refines : refines NewRingBuffer no_history.
Proof. constructor; [by apply empty_tier_rep..|done]. Qed.

Lemma Append_refines rb h m : refines rb h -> refines (Append rb m) (record_sample h m).
Proof.
  intros [H1 H2 H3]. destruct m as [m|]; [|done]. cbn [Append record_sample].
  destruct (IsZero (Timestamp m)); [done|]. rewrite H3.
  destruct (_ || _); constructor; cbn; auto using tier_write_rep.
  all: by apply tier_write_rep.
Qed.

Lemma clear_tier_rep size t : 0 < size -> len (slots t) = size -> tier_rep size (clear_tier t) [].
Proof.
  intros Hs Hl. constructor; cbn; [by rewrite length_fmap | by rewrite Z.mod_0_l by lia | lia |].
  intros i m Hi. by rewrite lookup_nil in Hi.
Qed.

Lemma Clear_refines rb h : refines rb h -> refines (Clear rb) no_history.
Proof. intros [H1 H2 H3]. constructor; [by apply clear_tier_rep, H1 | by apply clear_tier_rep, H2 | done]. Qed.

(** What a caller can do. *)
Inductive call : Type := CAppend (m : option Metrics) | CClear.
Definition step (rb : RingBuffer) (c : call) : RingBuffer :=
  match c with CAppend m => Append rb m | CClear => Clear rb end.
Definition spec_step (h : history) (c : call) : history :=
  match c with CAppend m => record_sample h m | CClear => no_history end.

Lemma steps_refine cs : forall rb h, refines rb h -> refines (foldl step rb cs) (foldl spec_step h cs).
Proof.
  induction cs as [|[m|] cs IH]; intros rb h Hr; cbn [foldl step spec_step]; [done| |].
  - by apply IH, Append_refines.
  - by eapply IH, Clear_refines.
Qed.

Lemma Latest_refines rb h : refines rb h -> Latest rb = last (all h).
Proof.
  intros [[H1 H2 H3 H4] _ _]. unfold Latest. rewrite H3, H2. change highResSlots with 720 in *.
  destruct (all h) as [|x l] eqn:El; [done|]. rewrite <-El in *.
  assert (0 < len (all h)) as Hl by (rewrite El; cbn; lia). clear El.
  rewrite (proj2 (Z.eqb_neq _ _)) by lia.
  destruct (lookup_lt_is_Some_2 (all h) (length (all h) - 1)) as [m Hm]; [lia|].
  rewrite last_lookup. replace (pred (length (all h))) with (length (all h) - 1)%nat by lia. rewrite Hm.
  replace ((len (all h) mod 720 - 1 + 720) mod 720) with (Z.of_nat (length (all h) - 1) mod 720).
  - by rewrite (H4 _ _ Hm) by lia.
  - replace (len (all h) mod 720 - 1 + 720) with (len (all h) mod 720 + 719) by lia.
    rewrite Zplus_mod_idemp_l. replace (len (all h) + 719) with (Z.of_nat (length (all h) - 1) + 1 * 720) by lia.
    by rewrite Z_mod_plus_full.
Qed.

(** C23. The ring buffer refines the history of its samples: after any
    sequence of appends and clears, the high-resolution tier reads as the
    last 720 samples given since the last clear and the low-resolution tier
    as the last 2016 of those at least five minutes apart, in the order they
    were given; [Latest] is the last one and the lengths are the numbers of
    samples read. *)
Theorem RingBuffer_refines cs :
  let rb := foldl step NewRingBuffer cs in
  let h := foldl spec_step no_history cs in
  HighRes rb = lastn highResSlots (all h) /\ LowRes rb = lastn lowResSlots (thinned h) /\
  Latest rb = last (all h) /\ Len rb = len (HighRes rb) /\ LowResLen rb = len (LowRes rb).
Proof.
  cbn zeta. pose proof (steps_refine cs _ _ NewRingBuffer_refines) as Hr.
  revert Hr. generalize (foldl step NewRingBuffer cs) as rb, (foldl spec_step no_history cs) as h.
  intros rb h Hr. pose proof Hr as [H1 H2 H3]. unfold HighRes, LowRes, Len, LowResLen.
  rewrite (cells_rep _ _ _ high_pos H1), (cells_rep _ _ _ low_pos H2), !omap_id_Some.
  rewrite (rep_count _ _ _ H1), (rep_count _ _ _ H2), (Latest_refines rb h Hr).
  unfold lastn. rewrite !length_drop. change highResSlots with 720. change lowResSlots with 2016.
  split_and!; [done..|lia|lia].
Qed.

(** Samples in the order of their timestamps. *)
Definition in_order (l : list Metrics) : Prop := StronglySorted (fun a b => Timestamp a <= Timestamp b) l.
Definition within (from to : Z) (m : Metrics) : bool :=
  (IsZero from || (from <=? Timestamp m)) && (IsZero to || (Timestamp m <? to)).

Lemma filter_none (P : Metrics -> Prop) `{forall m, Decision (P m)} l :
  Forall (fun m => ~ P m) l -> filter P l = [].
Proof. induction 1 as [|m l Hm _ IH]; [done|]. by rewrite filter_cons, decide_False. Qed.

Lemma range_loop_sorted from to l :
  in_order l -> range_loop from to (Some <$> l) = filter (fun m => within from to m = true) l.
Proof.
  intros Hs. induction Hs as [|m l Hs IH Hall]; [done|].
  cbn [fmap list_fmap range_loop]. rewrite filter_cons, IH. unfold within, Before in *.
  destruct (IsZero from), (IsZero to); cbn [negb andb orb] in *; try done.
  - destruct (Z.ltb_spec (Timestamp m) to) as [Ht|Ht]; cbn [negb]; [done|]. symmetry.
    rewrite decide_False by done. apply filter_none.
    eapply Forall_impl; [exact Hall|]. cbn. intros m' Hle. rewrite (proj2 (Z.ltb_ge _ _)) by lia. done.
  - destruct (Z.ltb_spec (Timestamp m) from), (Z.leb_spec from (Timestamp m)); try lia; done.
  - destruct (Z.ltb_spec (Timestamp m) from), (Z.leb_spec from (Timestamp m)); try lia; [done|].
    destruct (Z.ltb_spec (Timestamp m) to) as [Ht|Ht]; cbn [negb andb]; [done|]. symmetry.
    rewrite decide_False by done. apply filter_none.
    eapply Forall_impl; [exact Hall|]. cbn. intros m' Hle. rewrite (proj2 (Z.ltb_ge _ to)) by lia.
    by rewrite andb_false_r.
Qed.

Lemma lastn_in_order n l : in_order l -> in_order (lastn n l).
Proof.
  unfold lastn, in_order. generalize (length l - Z.to_nat n)%nat as k.
  intros k Hs. revert k. induction Hs as [|x l Hs IH Hall]; intros [|k]; cbn [drop]; [by constructor.. | by constructor | apply IH].
Qed.

(** A query for an interval gives the samples of the interval: when the
    samples were given in the order of their timestamps, [Range] returns the
    samples of the high-resolution tier from [from] on and before [to], a
    zero bound being no bound. *)
Theorem Range_interval ms from to :
  let h := foldl spec_step no_history (CAppend <$> ms) in
  in_order (all h) ->
  Range (foldl Append NewRingBuffer ms) from to =
  filter (fun m => within from to m = true) (lastn highResSlots (all h)).
Proof.
  cbn zeta. intros Ho. pose proof (steps_refine (CAppend <$> ms) _ _ NewRingBuffer_refines) as Hr.
  replace (foldl step NewRingBuffer (CAppend <$> ms)) with (foldl Append NewRingBuffer ms) in Hr
    by (by rewrite foldl_fmap).
  unfold Range. rewrite (cells_rep _ _ _ high_pos (ref_high _ _ Hr)).
  by apply range_loop_sorted, lastn_in_order.
Qed.

(** ** The store of the nodes' buffers *)

Record Store : Type := MkStore { buffers : gmap string RingBuffer; lastSeen : gmap string Z }.

Definition NewStore : Store := MkStore ∅ ∅.

Definition Store_Append (s : Store) (now : Z) (nodeID : string) (m : option Metrics) : Store :=
  MkStore (<[nodeID := Append (default NewRingBuffer (buffers s !! nodeID)) m]> (buffers s))
          (<[nodeID := now]> (lastSeen s)).

Definition Store_Latest (s : Store) (nodeID : string) : option Metrics :=
  buffers s !! nodeID ≫= Latest.
Definition Store_Range (s : Store) (nodeID : string) (from to : Z) : list Metrics :=
  default [] ((fun rb => Range rb from to) <$> buffers s !! nodeID).
Definition Store_HighRes (s : Store) (nodeID : string) : list Metrics :=
  default [] (HighRes <$> buffers s !! nodeID).
Definition Store_LowRes (s : Store) (nodeID : string) : list Metrics :=
  default [] (LowRes <$> buffers s !! nodeID).
Definition NodeIDs (s : Store) : list string := (map_to_list (buffers s)).*1.
Definition AllLatest (s : Store) : gmap string Metrics := omap Latest (buffers s).
Definition AllLatestFlat (s : Store) : list Metrics := (map_to_list (AllLatest s)).*2.
Definition NodeCount (s : Store) : Z := Z.of_nat (size (buffers s)).

Definition RemoveNode (s : Store) (nodeID : string) : Store :=
  MkStore (delete nodeID (buffers s)) (delete nodeID (lastSeen s)).

Definition RemoveStaleNodes (s : Store) (now threshold : Z) : Store * Z :=
  let stale := filter (fun kv => kv.2 < now - threshold) (lastSeen s) in
  (MkStore (buffers s ∖ ((fun _ => NewRingBuffer) <$> stale)) (lastSeen s ∖ stale),
   Z.of_nat (size stale)).

(** What [Persist] writes to the file and what [Load] makes of it; the
    encoding of the file is not modelled. *)
Definition persisted (s : Store) : gmap string (list Metrics) := Snapshot <$> buffers s.
Definition rebuild (samples : list Metrics) : RingBuffer :=
  foldl (fun rb m => Append rb (Some m)) NewRingBuffer samples.
Definition Load (s : Store) (now : Z) (snapshot : gmap string (list Metrics)) : Store :=
  let loaded := filter (fun kv => 0 < Len kv.2) (rebuild <$> snapshot) in
  MkStore (loaded ∪ buffers s) (((fun _ => now) <$> loaded) ∪ lastSeen s).

(** Every node with a buffer has a time of its last update, and the buffers
    hold what some history of calls promises. *)
Record store_wf (s : Store) : Prop := {
  wf_dom : dom (buffers s) = dom (lastSeen s);
  wf_buffers : map_Forall (fun _ rb => exists h, refines rb h) (buffers s)
}.

Inductive store_call : Type :=
| SAppend (now : Z) (nodeID : string) (m : option Metrics)
| SRemove (nodeID : string)
| SStale (now threshold : Z)
| SLoad (now : Z) (snapshot : gmap string (list Metrics)).
Definition store_step (s : Store) (c : store_call) : Store :=
  match c with
  | SAppend now nodeID m => Store_Append s now nodeID m
  | SRemove nodeID => RemoveNode s nodeID
  | SStale now threshold => (RemoveStaleNodes s now threshold).1
  | SLoad now snapshot => Load s now snapshot
  end.

Lemma rebuild_refines samples : exists h, refines (rebuild samples) h.
Proof.
  unfold rebuild. generalize NewRingBuffer_refines. generalize NewRingBuffer as rb, no_history as h.
  induction samples as [|m samples IH]; intros rb h Hr; cbn [foldl]; [by exists h|].
  by eapply IH, Append_refines.
Qed.

(** The store keeps its two maps in step: after any sequence of appends,
    removals, expiries and reloads, exactly the nodes that have a buffer have
    a time of last update, so that every buffer can expire, and every buffer
    is one that refines a history of samples. *)
Theorem Store_well_formed cs : store_wf (foldl store_step NewStore cs).
Proof.
  assert (store_wf NewStore) as H0 by (by split; [by vm_compute | apply map_Forall_empty]).
  revert H0. generalize NewStore as s. induction cs as [|c cs IH]; intros s [Hd Hb]; [done|].
  cbn [foldl]. apply IH. destruct c as [now id m|id|now th|now snap]; cbn [store_step].
  - split; cbn; [by rewrite !dom_insert_L, Hd|]. apply map_Forall_insert_2; [|done].
    destruct (buffers s !! id) as [rb|] eqn:E; cbn.
    + destruct (Hb _ _ E) as [h Hr]. eexists. by apply Append_refines.
    + eexists. apply Append_refines, NewRingBuffer_refines.
  - split; cbn; [by rewrite !dom_delete_L, Hd | by apply map_Forall_delete].
  - split; cbn; [by rewrite !dom_difference_L, dom_fmap_L, Hd|].
    intros k rb [Hk _]%lookup_difference_Some. by apply (Hb k).
  - split; cbn; [by rewrite !dom_union_L, dom_fmap_L, Hd|].
    intros k rb [Hk|[_ Hk]]%lookup_union_Some_raw; [|by apply (Hb k)].
    apply map_lookup_filter_Some in Hk as [(l & <- & _)%lookup_fmap_Some _]. apply rebuild_refines.
Qed.
End Buffer.

(** ** Examples *)

(** Samples that are their own timestamps. *)
Definition minutes (n : nat) : list Z := (fun i => (Z.of_nat i + 1) * (60 * 10 ^ 9)) <$> seq 0 n.

Lemma Range_interval_witness :
  Range (fun t => t) (foldl (Append (fun t => t)) NewRingBuffer (Some <$> minutes 4)) (120 * 10 ^ 9) 0 =
  filter (fun m => within (fun t => t) (120 * 10 ^ 9) 0 m = true)
    (lastn highResSlots (all (foldl (spec_step (fun t => t)) no_history (CAppend <$> (Some <$> minutes 4))))).
Proof.
  apply (Range_interval (fun t => t) (Some <$> minutes 4)). vm_compute.
  repeat (constructor; [|repeat (constructor; [discriminate|]); constructor]). constructor.
Defined.

(** A restart scrambles the history of a node: of a node sampled once a
    minute for twelve hours and one minute, [Latest] is the newest sample
    before the history is saved and the oldest one after it is loaded again,
    and the low-resolution tier has lost the samples it had. *)
Theorem Load_scrambles_history :
  let rb := foldl (fun rb m => Append (fun t => t) rb (Some m)) NewRingBuffer (minutes 721) in
  let rb' := rebuild (fun t => t) (Snapshot (fun t => t) rb) in
  Latest rb = last (minutes 721) /\ Latest rb' = list.head (minutes 721) /\
  LowResLen rb = 145 /\ LowResLen rb' = 1.
Proof. vm_compute. split_and!; reflexivity. Qed.
End Monitor.
