(* ===== verification/GoEncoding.v ===== *)
(** * Text encodings of the Go standard library

    What the repository uses of [encoding/base64]: the padded standard
    alphabet and the unpadded alphabet for URLs, and of [encoding/base32]: the
    unpadded standard alphabet; with the leniency of Go's decoders (line breaks
    are ignored, unused bits need not be zero). *)
From stdpp Require Import prelude list strings.
From Stdlib Require Import Strings.Byte ZArith Lia.
From S2P Require Import Prelude GoBytes.
Local Open Scope Z_scope.

Module Base64.

(** The characters of the values 62 and 63 are those of the alphabet. *)
Record alphabet : Type := MkAlphabet { char62 : Z; char63 : Z }.
Definition StdAlphabet : alphabet := MkAlphabet 43 47.
Definition URLAlphabet : alphabet := MkAlphabet 45 95.
Definition padChar : byte := byte_of_Z 61.

Section Alphabet.
Context (a : alphabet).

Definition enc_char (v : Z) : byte :=
  byte_of_Z (if v <? 26 then 65 + v else if v <? 52 then 71 + v else if v <? 62 then v - 4
             else if v =? 62 then char62 a else char63 a).

Definition dec_char (b : byte) : option Z :=
  let c := Z_of_byte b in
  if (65 <=? c) && (c <=? 90) then Some (c - 65)
  else if (97 <=? c) && (c <=? 122) then Some (c - 71)
  else if (48 <=? c) && (c <=? 57) then Some (c + 4)
  else if c =? char62 a then Some 62
  else if c =? char63 a then Some 63
  else None.

(** [Encode]; [pad] is the padding for one and for two missing bytes. *)
Fixpoint encode (pad : bool) (src : list byte) : list byte :=
  match src with
  | [] => []
  | [x] =>
      let x := Z_of_byte x in
      enc_char (x / 4) :: enc_char (x mod 4 * 16) :: if pad then [padChar; padChar] else []
  | [x; y] =>
      let x := Z_of_byte x in let y := Z_of_byte y in
      enc_char (x / 4) :: enc_char (x mod 4 * 16 + y / 16) :: enc_char (y mod 16 * 4)
        :: if pad then [padChar] else []
  | x :: y :: z :: src =>
      let x := Z_of_byte x in let y := Z_of_byte y in let z := Z_of_byte z in
      enc_char (x / 4) :: enc_char (x mod 4 * 16 + y / 16) :: enc_char (y mod 16 * 4 + z / 64)
        :: enc_char (z mod 64) :: encode pad src
  end.

Definition byte1 (p q : Z) : byte := byte_of_Z (p * 4 + q / 16).
Definition byte2 (q r : Z) : byte := byte_of_Z (q mod 16 * 16 + r / 4).
Definition byte3 (r s : Z) : byte := byte_of_Z (r mod 4 * 64 + s).

(** The quanta of four characters; the last may be short when there is no
    padding and is padded otherwise. *)
Fixpoint decode_quanta (pad : bool) (src : list byte) : option (list byte) :=
  match src with
  | [] => Some []
  | [_] => None
  | [c; d] => if pad then None else p ← dec_char c; q ← dec_char d; Some [byte1 p q]
  | [c; d; e] =>
      if pad then None
      else p ← dec_char c; q ← dec_char d; r ← dec_char e; Some [byte1 p q; byte2 q r]
  | c :: d :: e :: f :: rest =>
      p ← dec_char c; q ← dec_char d;
      if pad && bool_decide (f = padChar) && bool_decide (rest = []) then
        if bool_decide (e = padChar) then Some [byte1 p q]
        else r ← dec_char e; Some [byte1 p q; byte2 q r]
      else
        r ← dec_char e; s ← dec_char f; out ← decode_quanta pad rest;
        Some (byte1 p q :: byte2 q r :: byte3 r s :: out)
  end.

Definition line_break (b : byte) : bool := (Z_of_byte b =? 10) || (Z_of_byte b =? 13).

Definition decode (pad : bool) (s : string) : option (list byte) :=
  decode_quanta pad (filter (fun b => line_break b = false) (bytes_of_string s)).
End Alphabet.

Definition RawURL_EncodeToString (src : list byte) : string :=
  string_of_bytes (encode URLAlphabet false src).
Definition RawURL_DecodeString (s : string) : option (list byte) := decode URLAlphabet false s.
Definition Std_EncodeToString (src : list byte) : string :=
  string_of_bytes (encode StdAlphabet true src).
Definition Std_DecodeString (s : string) : option (list byte) := decode StdAlphabet true s.

(** ** Round trip *)
Section RoundTrip.
Context (a : alphabet) (pad : bool).

(** No character of the alphabet is a padding or a line break, and all are
    decoded to their values: decidable for a given alphabet. *)
Definition good : Prop :=
  Forall (fun v => dec_char a (enc_char a v) = Some v /\ enc_char a v <> padChar /\
    line_break (enc_char a v) = false) (seqZ 0 64).
Context (Hgood : good).

Lemma good_at v : 0 <= v < 64 ->
  dec_char a (enc_char a v) = Some v /\ enc_char a v <> padChar /\ line_break (enc_char a v) = false.
Proof. intros Hv. eapply Forall_forall in Hgood; [exact Hgood|]. apply elem_of_seqZ. lia. Qed.

Lemma sextets x y z :
  0 <= x < 256 -> 0 <= y < 256 -> 0 <= z < 256 ->
  (0 <= x / 4 < 64 /\ 0 <= x mod 4 * 16 < 64) /\ (0 <= x mod 4 * 16 + y / 16 < 64) /\
  (0 <= y mod 16 * 4 < 64) /\ (0 <= y mod 16 * 4 + z / 64 < 64) /\ 0 <= z mod 64 < 64.
Proof. intros. Z.to_euclidean_division_equations. lia. Qed.

Lemma byte1_enc x y :
  (x < 256)%Z -> 0 <= x -> 0 <= y < 256 ->
  byte1 (x / 4) (x mod 4 * 16 + y / 16) = byte_of_Z x /\ byte1 (x / 4) (x mod 4 * 16) = byte_of_Z x.
Proof. intros. unfold byte1. split; f_equal; Z.to_euclidean_division_equations; lia. Qed.

Lemma byte2_enc x y z :
  0 <= x -> 0 <= y < 256 -> 0 <= z < 256 ->
  byte2 (x mod 4 * 16 + y / 16) (y mod 16 * 4 + z / 64) = byte_of_Z y /\
  byte2 (x mod 4 * 16 + y / 16) (y mod 16 * 4) = byte_of_Z y.
Proof. intros. unfold byte2. split; f_equal; Z.to_euclidean_division_equations; lia. Qed.

Lemma byte3_enc y z :
  0 <= y -> 0 <= z < 256 -> byte3 (y mod 16 * 4 + z / 64) (z mod 64) = byte_of_Z z.
Proof. intros. unfold byte3. f_equal. Z.to_euclidean_division_equations. lia. Qed.

Lemma triple_ind (P : list byte -> Prop) :
  P [] -> (forall x, P [x]) -> (forall x y, P [x; y]) ->
  (forall x y z l, P l -> P (x :: y :: z :: l)) -> forall l, P l.
Proof.
  intros H0 H1 H2 H3. enough (forall l, P l /\ (forall x, P (x :: l)) /\ (forall x y, P (x :: y :: l)))
    as H by (intros l; apply H).
  induction l as [|z l (Ha & Hb & Hc)]; split_and!; auto.
Qed.

Lemma decode_encode_quanta src : decode_quanta a pad (encode a pad src) = Some src.
Proof.
  induction src as [|x|x y|x y z src IH] using triple_ind.
  - done.
  - pose proof (Z_of_byte_range x) as Hx.
    pose proof (sextets _ 0 0 Hx ltac:(lia) ltac:(lia)) as ((H1 & H2) & _).
    pose proof (byte1_enc (Z_of_byte x) 0 ltac:(lia) ltac:(lia) ltac:(lia)) as [_ E].
    rewrite byte_of_Z_of_byte in E.
    cbn [encode]. destruct pad; cbn [decode_quanta];
      rewrite (proj1 (good_at _ H1)), (proj1 (good_at _ H2)); cbn [mbind option_bind];
      rewrite ?bool_decide_true by done; cbn [andb]; by rewrite E.
  - pose proof (Z_of_byte_range x) as Hx. pose proof (Z_of_byte_range y) as Hy.
    pose proof (sextets _ _ 0 Hx Hy ltac:(lia)) as ((H1 & _) & H3 & H4 & _).
    pose proof (byte1_enc (Z_of_byte x) _ ltac:(lia) ltac:(lia) Hy) as [E1 _].
    pose proof (byte2_enc (Z_of_byte x) _ 0 ltac:(lia) Hy ltac:(lia)) as [_ E2].
    rewrite byte_of_Z_of_byte in E1, E2. pose proof (good_at _ H4) as (G & Hp & _).
    cbn [encode]. destruct pad; cbn [decode_quanta];
      rewrite (proj1 (good_at _ H1)), (proj1 (good_at _ H3)), ?(proj1 (good_at _ H4)); cbn [mbind option_bind];
      rewrite ?(bool_decide_true (padChar = padChar)), ?(bool_decide_true ([] = [])) by done;
      cbn [andb]; rewrite ?bool_decide_false by done; cbn [mbind option_bind]; by rewrite E1, E2.
  - pose proof (Z_of_byte_range x) as Hx. pose proof (Z_of_byte_range y) as Hy.
    pose proof (Z_of_byte_range z) as Hz.
    pose proof (sextets _ _ _ Hx Hy Hz) as ((H1 & _) & H3 & _ & H5 & H6).
    pose proof (byte1_enc (Z_of_byte x) _ ltac:(lia) ltac:(lia) Hy) as [E1 _].
    pose proof (byte2_enc (Z_of_byte x) _ _ ltac:(lia) Hy Hz) as [E2 _].
    pose proof (byte3_enc (Z_of_byte y) _ ltac:(lia) Hz) as E3.
    rewrite byte_of_Z_of_byte in E1, E2, E3. pose proof (good_at _ H6) as (G & Hp & _).
    cbn [encode decode_quanta].
    rewrite (proj1 (good_at _ H1)), (proj1 (good_at _ H3)), (proj1 (good_at _ H5)), (proj1 (good_at _ H6)). cbn [mbind option_bind].
    rewrite (bool_decide_false (enc_char a (Z_of_byte z mod 64) = padChar)) by done.
    rewrite andb_false_r. cbn [andb]. rewrite IH. cbn [mbind option_bind]. by rewrite E1, E2, E3.
Qed.

Lemma encode_no_breaks src :
  filter (fun b => line_break b = false) (encode a pad src) = encode a pad src.
Proof.
  assert (forall v, 0 <= v < 64 -> forall l, filter (fun b => line_break b = false) (enc_char a v :: l) =
    enc_char a v :: filter (fun b => line_break b = false) l) as Hc.
  { intros v Hv l. rewrite filter_cons, decide_True; [done|]. by apply good_at. }
  assert (forall l, filter (fun b => line_break b = false) (padChar :: l) =
    padChar :: filter (fun b => line_break b = false) l) as Hp by done.
  induction src as [|x|x y|x y z src IH] using triple_ind.
  - done.
  - pose proof (sextets _ 0 0 (Z_of_byte_range x) ltac:(lia) ltac:(lia)) as ((H1 & H2) & _).
    cbn [encode]. rewrite !Hc by done. by destruct pad.
  - pose proof (sextets _ _ 0 (Z_of_byte_range x) (Z_of_byte_range y) ltac:(lia)) as ((H1 & _) & H3 & H4 & _).
    cbn [encode]. rewrite !Hc by done. by destruct pad.
  - pose proof (sextets _ _ _ (Z_of_byte_range x) (Z_of_byte_range y) (Z_of_byte_range z))
      as ((H1 & _) & H3 & _ & H5 & H6).
    cbn [encode]. rewrite !Hc by done. by rewrite IH.
Qed.

Lemma decode_encode src : decode a pad (string_of_bytes (encode a pad src)) = Some src.
Proof.
  unfold decode. rewrite bytes_of_string_of_bytes, encode_no_breaks. apply decode_encode_quanta.
Qed.
End RoundTrip.

Lemma good_Std : good StdAlphabet.
Proof. repeat constructor; done. Qed.
Lemma good_URL : good URLAlphabet.
Proof. repeat constructor; done. Qed.

Lemma RawURL_roundtrip src : RawURL_DecodeString (RawURL_EncodeToString src) = Some src.
Proof. apply decode_encode, good_URL. Qed.
Lemma Std_roundtrip src : Std_DecodeString (Std_EncodeToString src) = Some src.
Proof. apply decode_encode, good_Std. Qed.
End Base64.

(** ** Base 32 without padding *)
Module Base32.

(** A group of up to five bytes is a number, padded on the right with zero
    bits to a whole number of five-bit digits. *)
Fixpoint digits (m : nat) (v : Z) : list Z :=
  match m with O => [] | S m' => (v / 32 ^ Z.of_nat m') mod 32 :: digits m' v end.
Fixpoint value (l : list Z) : Z :=
  match l with [] => 0 | d :: l' => d * 32 ^ len l' + value l' end.

Definition enc_char (v : Z) : byte := byte_of_Z (if v <? 26 then 65 + v else 24 + v).
Definition dec_char (b : byte) : option Z :=
  let c := Z_of_byte b in
  if (65 <=? c) && (c <=? 90) then Some (c - 65)
  else if (50 <=? c) && (c <=? 55) then Some (c - 24) else None.

Definition chars (n : Z) : Z := (8 * n + 4) / 5.
Definition enc_group (l : list byte) : list byte :=
  let m := chars (len l) in
  enc_char <$> digits (Z.to_nat m) (be_Z l * 2 ^ (5 * m - 8 * len l)).
Fixpoint encode (src : list byte) : list byte :=
  match src with
  | a :: b :: c :: d :: e :: rest => enc_group [a; b; c; d; e] ++ encode rest
  | l => enc_group l
  end.

(** A last group of one, three or six characters encodes no whole number of
    bytes: the decoder accepts it and returns nothing for it. *)
Definition dec_group (l : list byte) : option (list byte) :=
  ds ← mapM dec_char l;
  let m := len ds in
  if (m =? 1) || (m =? 3) || (m =? 6) then Some []
  else Some (be_bytes (Z.to_nat (5 * m / 8)) (value ds / 2 ^ (5 * m mod 8))).
Fixpoint decode (src : list byte) : option (list byte) :=
  match src with
  | a :: b :: c :: d :: e :: f :: g :: h :: rest =>
      x ← dec_group [a; b; c; d; e; f; g; h]; y ← decode rest; Some (x ++ y)
  | l => dec_group l
  end.

Definition EncodeToString (src : list byte) : string := string_of_bytes (encode src).
Definition DecodeString (s : string) : option (list byte) :=
  decode (filter (fun b => Base64.line_break b = false) (bytes_of_string s)).

Lemma digits32_length m v : length (digits m v) = m.
Proof. induction m; cbn; congruence. Qed.
#[local] Hint Rewrite digits32_length : len.

Lemma value_digits m v : value (digits m v) = v mod 32 ^ Z.of_nat m.
Proof.
  induction m as [|m IH]; cbn [digits value]; [by rewrite Z.mod_1_r|].
  rewrite digits32_length, IH, Nat2Z.inj_succ, Z.pow_succ_r by lia.
  rewrite (Z.mul_comm 32), Z.rem_mul_r by lia. lia.
Qed.

Lemma digits_range m v : Forall (fun d => 0 <= d < 32) (digits m v).
Proof. induction m; cbn [digits]; constructor; [apply Z.mod_pos_bound; lia|done]. Qed.

Lemma char_values : forallb (fun v => bool_decide (dec_char (enc_char v) = Some v) &&
    negb (Base64.line_break (enc_char v))) (Z.of_nat <$> seq 0 32) = true.
Proof. reflexivity. Qed.

Lemma char_at v : 0 <= v < 32 ->
  dec_char (enc_char v) = Some v /\ Base64.line_break (enc_char v) = false.
Proof.
  intros Hv. pose proof char_values as H. rewrite forallb_forall in H.
  specialize (H v). destruct (andb_prop _ _ (H ltac:(apply list_elem_of_In, list_elem_of_fmap;
    exists (Z.to_nat v); rewrite elem_of_seq; lia))) as [H1 H2].
  split; [by apply bool_decide_eq_true in H1|by apply negb_true_iff].
Qed.

Lemma dec_chars ds : Forall (fun d => 0 <= d < 32) ds -> mapM dec_char (enc_char <$> ds) = Some ds.
Proof.
  induction 1 as [|d ds Hd _ IH]; [done|]. cbn. rewrite (proj1 (char_at d Hd)). cbn. by rewrite IH.
Qed.

Lemma enc_group_length l : length (enc_group l) = Z.to_nat (chars (len l)).
Proof. unfold enc_group. by rewrite length_fmap, digits32_length. Qed.

Lemma chars_table n : (n <= 5)%nat -> let m := chars (Z.of_nat n) in
  0 <= m /\ 5 * m / 8 = Z.of_nat n /\ 5 * m mod 8 = 5 * m - 8 * Z.of_nat n /\
  (m =? 1) || (m =? 3) || (m =? 6) = false /\ 0 <= 5 * m - 8 * Z.of_nat n.
Proof. intros Hn. do 6 (destruct n as [|n]; [vm_compute; intuition congruence|]). lia. Qed.

Lemma group_roundtrip l : (length l <= 5)%nat -> dec_group (enc_group l) = Some l.
Proof.
  intros Hl. destruct (chars_table _ Hl) as (Hm & Hn & Hk & Ht & Hk0).
  unfold dec_group, enc_group. rewrite dec_chars by apply digits_range.
  cbn [mbind option_bind]. rewrite digits32_length, value_digits, Z2Nat.id, Ht, Hn, Hk by done.
  pose proof (be_Z_range l) as Hr. f_equal. rewrite Nat2Z.id, Z.mod_small, Z.div_mul by
    (first [apply Z.pow_nonzero; lia | split; [nia|];
       change 32 with (2 ^ 5); change 256 with (2 ^ 8) in Hr; rewrite <-Z.pow_mul_r in Hr |- * by lia;
       replace (5 * chars (len l)) with (8 * len l + (5 * chars (len l) - 8 * len l)) at 2 by lia;
       rewrite Z.pow_add_r by lia; apply Z.mul_lt_mono_pos_r; lia]).
  apply be_bytes_be_Z.
Qed.

Lemma decode32_short g : (length g < 8)%nat -> decode g = dec_group g.
Proof. intros H. do 8 (destruct g as [|? g]; [done|]). cbn in H. lia. Qed.

Lemma decode32_full g l : (length g = 8)%nat ->
  decode (g ++ l) = x ← dec_group g; y ← decode l; Some (x ++ y).
Proof. intros H. do 8 (destruct g as [|? g]; [done|]). by destruct g. Qed.

Lemma decode32_encode32 src : decode (encode src) = Some src.
Proof.
  assert (forall l, (length l < 5)%nat -> decode (enc_group l) = Some l) as Hs.
  { intros l Hl. rewrite decode32_short; [apply group_roundtrip; lia|].
    rewrite enc_group_length. unfold chars. pose proof (Z.div_lt_upper_bound (8 * len l + 4) 5 8 ltac:(lia) ltac:(lia)). lia. }
  revert src. fix IH 1. intros src.
  destruct src as [|a [|b [|c [|d [|e rest]]]]]; try (apply Hs; cbn; lia).
  cbn [encode]. rewrite decode32_full by done. rewrite group_roundtrip by (cbn; lia).
  cbn [mbind option_bind]. by rewrite IH.
Qed.

Lemma encode32_no_breaks src : filter (fun b => Base64.line_break b = false) (encode src) = encode src.
Proof.
  assert (forall l, Forall (fun b => Base64.line_break b = false) (enc_group l)) as Hg.
  { intros l. apply Forall_fmap, (Forall_impl _ _ _ (digits_range _ _)). intros v Hv. by apply char_at. }
  assert (Forall (fun b => Base64.line_break b = false) (encode src)) as H.
  { revert src. fix IH 1. intros src.
    destruct src as [|a [|b [|c [|d [|e rest]]]]]; try apply Hg.
    cbn [encode]. apply Forall_app. split; [apply Hg|apply IH]. }
  by induction H as [|b l Hb _ IH]; [|rewrite filter_cons, decide_True, IH by done].
Qed.

Lemma Base32_roundtrip src : DecodeString (EncodeToString src) = Some src.
Proof.
  unfold DecodeString, EncodeToString. rewrite bytes_of_string_of_bytes, encode32_no_breaks.
  apply decode32_encode32.
Qed.
Example rfc4648 : EncodeToString (bytes_of_string "foobar") = "MZXW6YTBOI".
Proof. reflexivity. Qed.
End Base32.
