(* ===== verification/GoNetParse.v ===== *)
(** * Parsing of addresses and subnets as Go's net package does it

    [netip.ParseAddr] with its IPv4 and IPv6 scanners, [net.ParseIP],
    [net.ParseCIDR], the text of a subnet and [net.SplitHostPort], as
    functions on the bytes of a string. *)
From stdpp Require Import prelude list strings.
From Stdlib Require Import Strings.Byte ZArith Lia.
From S2P Require Import Prelude GoBytes GoNet.
Local Open Scope Z_scope.

Definition ch (s : string) : byte := default x00 (list.head (bytes_of_string s)).
Abbreviation dot := (ch ".").
Abbreviation colon := (ch ":").

Definition is_digit (b : byte) : bool := (48 <=? Z_of_byte b) && (Z_of_byte b <=? 57).
Definition hex_value (b : byte) : option Z :=
  let c := Z_of_byte b in
  if is_digit b then Some (c - 48)
  else if (97 <=? c) && (c <=? 102) then Some (c - 87)
  else if (65 <=? c) && (c <=? 70) then Some (c - 55) else None.

(** [parseIPv4Fields]: [val] is the field being read, [digLen] its digits,
    [after_dot] whether a field must start here. *)
Fixpoint ipv4_fields (s : list byte) (val digLen : Z) (after_dot : bool) (fields : list Z)
    : option (list Z) :=
  match s with
  | [] => if len fields <? 3 then None else Some (fields ++ [val])
  | b :: s =>
      if is_digit b then
        if (digLen =? 1) && (val =? 0) then None else
        let val := val * 10 + (Z_of_byte b - 48) in
        if 255 <? val then None else ipv4_fields s val (digLen + 1) false fields
      else if bool_decide (b = dot) then
        if after_dot || bool_decide (s = []) then None
        else if len fields =? 3 then None
        else ipv4_fields s 0 0 true (fields ++ [val])
      else None
  end.
Definition parseIPv4Fields (s : list byte) : option IP :=
  match s with
  | [] => None
  | _ => map byte_of_Z <$> ipv4_fields s 0 0 true []
  end.

(** The hexadecimal digits at the front: value, how many, and the rest. *)
Fixpoint hex_group (s : list byte) (off acc : Z) : option (Z * Z * list byte) :=
  match s with
  | [] => Some (acc, off, [])
  | b :: s' =>
      match hex_value b with
      | None => Some (acc, off, s)
      | Some d => if 3 <? off then None else hex_group s' (off + 1) (acc * 16 + d)
      end
  end.

(** The loop over the groups: [ip] the bytes so far, [ell] the position of
    the ellipsis. A pass adds two bytes, so that eight passes suffice. *)
Fixpoint ipv6_groups (fuel : nat) (s : list byte) (ip : list byte) (ell : option nat)
    : option (list byte * option nat * list byte) :=
  if 16 <=? len ip then Some (ip, ell, s) else
  match fuel with
  | O => None
  | S fuel =>
      match hex_group s 0 0 with
      | None => None
      | Some (acc, off, rest) =>
          if off =? 0 then None else
          if bool_decide (list.head rest = Some dot) then
            if bool_decide (ell = None) && negb (len ip =? 12) then None
            else if 16 <? len ip + 4 then None
            else v4 ← parseIPv4Fields s; Some (ip ++ v4, ell, [])
          else
            let ip := ip ++ be_bytes 2 acc in
            match rest with
            | [] => Some (ip, ell, [])
            | c :: rest =>
                if negb (bool_decide (c = colon)) then None else
                match rest with
                | [] => None
                | c :: rest' =>
                    if bool_decide (c = colon) then
                      if bool_decide (is_Some ell) then None
                      else match rest' with
                           | [] => Some (ip, Some (length ip), [])
                           | _ => ipv6_groups fuel rest' ip (Some (length ip))
                           end
                    else ipv6_groups fuel rest ip ell
                end
            end
      end
  end.

Definition split_at (b : byte) (s : list byte) : option (list byte * list byte) :=
  match list_find (fun c => c = b) s with
  | Some (i, _) => Some (take i s, drop (S i) s)
  | None => None
  end.

(** An address, and whether it has a zone. *)
Definition parseIPv6 (s : list byte) : option (IP * bool) :=
  match (match split_at (ch "%") s with
         | Some (_, []) => None
         | Some (s, _) => Some (s, true)
         | None => Some (s, false)
         end) with
  | None => None
  | Some (s, zone) =>
      let '(s, ell) := match s with
                       | a :: b :: s' =>
                           if bool_decide (a = colon) && bool_decide (b = colon) then (s', Some O)
                           else (s, None)
                       | _ => (s, None)
                       end in
      if bool_decide (ell = Some O) && bool_decide (s = []) then Some (replicate 16 x00, zone) else
      match ipv6_groups 8 s [] ell with
      | Some (ip, ell, []) =>
          if len ip <? 16 then
            match ell with
            | None => None
            | Some e => Some (take e ip ++ replicate (16 - length ip) x00 ++ drop e ip, zone)
            end
          else match ell with None => Some (ip, zone) | Some _ => None end
      | _ => None
      end
  end.

(** [netip.ParseAddr]: a 4-byte or 16-byte address and whether it has a zone. *)
Definition ParseAddr (s : string) : option (IP * bool) :=
  let s := bytes_of_string s in
  match list_find (fun c => c = dot \/ c = colon \/ c = ch "%") s with
  | None => None
  | Some (_, c) =>
      if bool_decide (c = dot) then (fun ip => (ip, false)) <$> parseIPv4Fields s
      else if bool_decide (c = colon) then parseIPv6 s else None
  end.

Definition As16 (ip : IP) : IP := if len ip =? 4 then v4InV6Prefix ++ ip else ip.

Definition ParseIP (s : string) : option IP :=
  match ParseAddr s with
  | Some (ip, false) => Some (As16 ip)
  | _ => None
  end.

(** [ip.Mask(mask)] *)
Definition ip_Mask (ip : IP) (mask : list byte) : option IP :=
  let mask := if (len mask =? 16) && (len ip =? 4) && bool_decide (take 12 mask = replicate 12 xff)
              then drop 12 mask else mask in
  let ip := if (len mask =? 4) && (len ip =? 16) && bool_decide (take 12 ip = v4InV6Prefix)
            then drop 12 ip else ip in
  if len ip =? len mask then Some (and_bytes ip mask) else None.

(** [dtoi]: a decimal number below 0xFFFFFF, to the end of the string. *)
Fixpoint dtoi (s : list byte) (n : Z) : option Z :=
  match s with
  | [] => Some n
  | b :: s =>
      if is_digit b then
        let n := n * 10 + (Z_of_byte b - 48) in
        if 16777215 <=? n then None else dtoi s n
      else None
  end.

Definition ParseCIDR (s : string) : option (IP * IPNet) :=
  match split_at (ch "/") (bytes_of_string s) with
  | None => None
  | Some (addr, mask) =>
      match ParseAddr (string_of_bytes addr) with
      | Some (ip, false) =>
          match (match mask with [] => None | _ => dtoi mask 0 end) with
          | None => None
          | Some n =>
              let bits := 8 * len ip in
              if bits <? n then None else
              let m := CIDRMask n bits in
              net ← ip_Mask (As16 ip) m; Some (As16 ip, MkIPNet net m)
          end
      | _ => None
      end
  end.

(** [n.String()]; a mask that is not canonical is written in hexadecimal. *)
Definition IPNet_String (n : IPNet) : string :=
  match networkNumberAndMask n with
  | None => "<nil>"
  | Some (nn, m) =>
      let l := match find (fun k => bool_decide (m = CIDRMask (Z.of_nat k) (8 * len m)))
                       (seq 0 (S (8 * length m))) with
               | Some k => digits 3 10 (Z.of_nat k)
               | None => String.concat "" ((fun b => digit (Z_of_byte b / 16)%Z +:+ digit (Z_of_byte b mod 16)%Z)%string <$> m)
               end in
      (ip_String nn +:+ "/" +:+ l)%string
  end.

(** [net.SplitHostPort] *)
Definition last_index (b : byte) (s : list byte) : option nat :=
  match list_find (fun c => c = b) (reverse s) with
  | Some (i, _) => Some (length s - 1 - i)%nat
  | None => None
  end.
Definition SplitHostPort (hostport : string) : option (string * string) :=
  let s := bytes_of_string hostport in
  i ← last_index colon s;
  hjk ← (if bool_decide (list.head s = Some (ch "[")) then
      match list_find (fun c => c = ch "]") s with
      | None => None
      | Some (e, _) =>
          if (S e =? i)%nat then Some (take (e - 1) (drop 1 s), 1%nat, S e) else None
      end
    else if bool_decide (colon ∈ take i s) then None else Some (take i s, O, O));
  let '(host, j, k) := hjk in
  if bool_decide (ch "[" ∈ drop j s) || bool_decide (ch "]" ∈ drop k s) then None else
  Some (string_of_bytes host, string_of_bytes (drop (S i) s)).

Example ParseIP_examples :
  ParseIP "10.0.0.1" = Some (v4InV6Prefix ++ [x0a; x00; x00; x01]) /\
  ParseIP "10.0.0.01" = None /\ ParseIP "10.0.0.256" = None /\ ParseIP "10.0.0" = None /\
  ParseIP "10.0.0." = None /\ ParseIP "::1" = Some (replicate 15 x00 ++ [x01]) /\
  ParseIP "::ffff:1.2.3.4" = Some (v4InV6Prefix ++ [x01; x02; x03; x04]) /\
  ParseIP "1:2:3:4:5:6:7:8::" = None /\ ParseIP "fe80::1%eth0" = None /\ ParseIP "1::2::3" = None /\
  ip_String <$> ParseIP "2001:db8:0:0:1::1" = Some "2001:db8::1:0:0:1".
Proof. by vm_compute. Qed.
Example ParseCIDR_examples :
  (fun p => IPNet_String p.2) <$> ParseCIDR "10.1.2.3/08" = Some "10.0.0.0/8" /\
  ParseCIDR "10.1.2.3/33" = None /\ ParseCIDR "10.1.2.3/" = None /\ ParseCIDR "10.1.2.3" = None /\
  (fun p => IPNet_String p.2) <$> ParseCIDR "fd00::1/64" = Some "fd00::/64".
Proof. by vm_compute. Qed.
Example SplitHostPort_examples :
  SplitHostPort "1.2.3.4:80" = Some ("1.2.3.4", "80") /\ SplitHostPort "[::1]:80" = Some ("::1", "80") /\
  SplitHostPort "::1:80" = None /\ SplitHostPort "host" = None /\ SplitHostPort ":80" = Some ("", "80").
Proof. by vm_compute. Qed.

(** ** Reading back what is written *)

Lemma bytes_of_string_app s t : bytes_of_string (s +:+ t)%string = bytes_of_string s ++ bytes_of_string t.
Proof.
  unfold String.list_byte_of_string. induction s as [|c s IH]; [done|]. cbn. by rewrite <-IH.
Qed.

(** What the scanner does on digits alone. *)
Fixpoint scan_digits (s : list byte) (val digLen : Z) : option (Z * Z) :=
  match s with
  | [] => Some (val, digLen)
  | b :: s =>
      if is_digit b then
        if (digLen =? 1) && (val =? 0) then None else
        let val := val * 10 + (Z_of_byte b - 48) in
        if 255 <? val then None else scan_digits s val (digLen + 1)
      else None
  end.

Lemma ipv4_fields_digits ds : forall v n v' n' ad rest fs,
  ds <> [] -> scan_digits ds v n = Some (v', n') ->
  ipv4_fields (ds ++ rest) v n ad fs = ipv4_fields rest v' n' false fs.
Proof.
  induction ds as [|d ds IH]; intros v n v' n' ad rest fs Hne Hs; [done|].
  cbn [scan_digits app ipv4_fields] in *. destruct (is_digit d); [|done].
  destruct (_ && _); [done|]. destruct (_ <? _); [done|].
  destruct ds as [|d' ds]; [by injection Hs as <- <- | by apply IH].
Qed.

Lemma byte_text_scan b : exists n,
  bytes_of_string (byte_text b) <> [] /\
  scan_digits (bytes_of_string (byte_text b)) 0 0 = Some (Z_of_byte b, n) /\
  Forall (fun c => is_digit c = true) (bytes_of_string (byte_text b)).
Proof.
  destruct b; eexists; (split; [done|]); (split; [vm_compute; reflexivity|]);
    repeat (apply Forall_cons_2; [vm_compute; reflexivity|]); apply Forall_nil_2.
Qed.

Lemma bytes_byte_text_cons b : exists c l, bytes_of_string (byte_text b) = c :: l.
Proof. destruct (byte_text_scan b) as (n & Hne & _). destruct (bytes_of_string _); [done | eauto]. Qed.

Lemma ipv4_fields_octet b rest fs :
  rest <> [] -> len fs < 3 ->
  ipv4_fields (bytes_of_string (byte_text b) ++ dot :: rest) 0 0 true fs =
  ipv4_fields rest 0 0 true (fs ++ [Z_of_byte b]).
Proof.
  intros Hr Hl. destruct (byte_text_scan b) as (n & Hne & Hs & _).
  rewrite (ipv4_fields_digits _ _ _ _ _ _ _ _ Hne Hs). cbn [ipv4_fields].
  change (is_digit dot) with false. rewrite bool_decide_true by done.
  rewrite bool_decide_false by done. cbn [orb]. by rewrite (proj2 (Z.eqb_neq _ _)) by lia.
Qed.

Lemma dotted_bytes a b c d :
  bytes_of_string (dotted [a; b; c; d]) =
  bytes_of_string (byte_text a) ++ dot :: bytes_of_string (byte_text b) ++ dot ::
  bytes_of_string (byte_text c) ++ dot :: bytes_of_string (byte_text d).
Proof.
  unfold dotted. cbn [fmap list_fmap String.concat]. by rewrite !bytes_of_string_app.
Qed.

Lemma parseIPv4Fields_dotted a b c d :
  parseIPv4Fields (bytes_of_string (dotted [a; b; c; d])) = Some [a; b; c; d].
Proof.
  rewrite dotted_bytes. destruct (bytes_byte_text_cons a) as (x & l & Ex).
  unfold parseIPv4Fields. rewrite Ex. cbn [app]. rewrite app_comm_cons, <-Ex.
  assert (forall y r, bytes_of_string (byte_text y) ++ r <> []) as Hne.
  { intros y r. destruct (bytes_byte_text_cons y) as (? & ? & ->). done. }
  assert (forall y, bytes_of_string (byte_text y) <> []) as Hne1.
  { intros y. destruct (bytes_byte_text_cons y) as (? & ? & ->). done. }
  rewrite !ipv4_fields_octet by first [apply Hne | apply Hne1 | cbn [length app]; lia].
  destruct (byte_text_scan d) as (n & _ & Hs & _).
  rewrite <-(app_nil_r (bytes_of_string (byte_text d))).
  rewrite (ipv4_fields_digits _ _ _ _ _ _ _ _ (Hne1 d) Hs). cbn [ipv4_fields app]. rewrite (proj2 (Z.ltb_ge _ _)) by (cbn [length]; lia).
  cbn [fmap option_fmap option_map map app]. by rewrite !byte_of_Z_of_byte.
Qed.

Lemma dotted_chars a b c d :
  Forall (fun c => is_digit c = true \/ c = dot) (bytes_of_string (dotted [a; b; c; d])).
Proof.
  rewrite dotted_bytes.
  assert (forall x, Forall (fun c => is_digit c = true \/ c = dot) (bytes_of_string (byte_text x))) as H.
  { intros x. destruct (byte_text_scan x) as (n & _ & _ & Hd).
    eapply Forall_impl; [exact Hd|]. intros y Hy. by left. }
  repeat first [apply Forall_app_2 | apply H | apply Forall_cons_2; [by right|]].
Qed.

(** The first special character decides the family. *)
Lemma ParseAddr_dotted a b c d : ParseAddr (dotted [a; b; c; d]) = Some ([a; b; c; d], false).
Proof.
  unfold ParseAddr. pose proof (parseIPv4Fields_dotted a b c d) as Hp.
  set (P := fun x : byte => x = dot \/ x = colon \/ x = ch "%").
  assert (list_find P (bytes_of_string (dotted [a; b; c; d])) =
          Some (length (bytes_of_string (byte_text a)), dot)) as ->.
  { rewrite dotted_bytes. apply list_find_Some. split_and!.
    - by rewrite lookup_app_r, Nat.sub_diag by lia.
    - by left.
    - intros j y Hj Hlt HP. rewrite lookup_app_l in Hj by done.
      destruct (byte_text_scan a) as (n & _ & _ & Hd). rewrite Forall_lookup in Hd.
      specialize (Hd _ _ Hj). by destruct HP as [->|[->| ->]]. }
  rewrite bool_decide_true by done. by rewrite Hp.
Qed.

Lemma ParseIP_dotted a b c d : ParseIP (dotted [a; b; c; d]) = Some (v4InV6Prefix ++ [a; b; c; d]).
Proof. unfold ParseIP. by rewrite ParseAddr_dotted. Qed.

Lemma split_at_app s t b : b ∉ s -> split_at b (s ++ b :: t) = Some (s, t).
Proof.
  intros Hb. unfold split_at.
  assert (list_find (fun c => c = b) (s ++ b :: t) = Some (length s, b)) as ->.
  { apply list_find_Some. split_and!; [by rewrite lookup_app_r, Nat.sub_diag by lia | done |].
    intros j y Hj Hlt ->. rewrite lookup_app_l in Hj by done. by apply list_elem_of_lookup_2 in Hj. }
  rewrite take_app_length. f_equal. f_equal. rewrite drop_app_ge by lia.
  by replace (S (length s) - length s)%nat with 1%nat by lia.
Qed.

Lemma prefix_text_dtoi n : 0 <= n <= 32 ->
  bytes_of_string (digits 3 10 n) <> [] /\ dtoi (bytes_of_string (digits 3 10 n)) 0 = Some n.
Proof.
  intros Hn. assert (n ∈ seqZ 0 33) as Hin by (apply elem_of_seqZ; lia). clear Hn. revert n Hin.
  apply Forall_forall. repeat constructor; done.
Qed.

(** The subnet of an address and a prefix length. *)
Definition subnet4 (ip : IP) (n : Z) : IPNet := MkIPNet (and_bytes ip (CIDRMask n 32)) (CIDRMask n 32).

Definition cidr_text (ip : IP) (n : Z) : string := (dotted ip +:+ "/" +:+ digits 3 10 n)%string.

Lemma length4 {A} (l : list A) : length l = 4%nat -> exists a b c d, l = [a; b; c; d].
Proof. destruct l as [|a [|b [|c [|d [|]]]]]; try done. eauto. Qed.

Lemma ParseCIDR_text ip n :
  length ip = 4%nat -> 0 <= n <= 32 -> ParseCIDR (cidr_text ip n) = Some (v4InV6Prefix ++ ip, subnet4 ip n).
Proof.
  intros (a & b & c & d & ->)%length4 Hn. destruct (prefix_text_dtoi n Hn) as [Hne Hd].
  unfold ParseCIDR, cidr_text. rewrite !bytes_of_string_app.
  change (bytes_of_string "/") with [ch "/"]. cbn [app]. rewrite split_at_app.
  2:{ intros Hin. pose proof (dotted_chars a b c d) as Hf. rewrite Forall_forall in Hf.
      by destruct (Hf _ Hin). }
  rewrite string_of_bytes_of_string, ParseAddr_dotted.
  destruct (bytes_of_string (digits 3 10 n)) as [|x l] eqn:E; [done|]. rewrite Hd.
  change (8 * len [a; b; c; d]) with 32. rewrite (proj2 (Z.ltb_ge _ _)) by lia.
  unfold ip_Mask. assert (len (CIDRMask n 32) = 4) as Hm by (unfold CIDRMask; by rewrite be_bytes_length).
  rewrite Hm. done.
Qed.

Lemma CIDRMask4_length n : length (CIDRMask n 32) = 4%nat.
Proof. unfold CIDRMask. by rewrite be_bytes_length. Qed.

Lemma be_Z_subnet4 ip n : length ip = 4%nat -> 0 <= n <= 32 ->
  be_Z (net_IP (subnet4 ip n)) = be_Z ip / 2 ^ (32 - n) * 2 ^ (32 - n).
Proof.
  intros Hip Hn. pose proof (CIDRMask4_length n). pose proof (be_Z_range ip) as Hr.
  rewrite Hip in Hr. change (256 ^ Z.of_nat 4) with (2 ^ 32) in Hr.
  cbn [subnet4 net_IP]. rewrite be_Z_and_bytes by lia. unfold CIDRMask. rewrite be_Z_be_bytes.
  change (256 ^ Z.of_nat (Z.to_nat (32 / 8))) with (2 ^ 32).
  pose proof (Z.pow_le_mono_r 2 (32 - n) 32). pose proof (Z.pow_pos_nonneg 2 (32 - n)).
  rewrite (Z.mod_small (2 ^ 32 - 2 ^ (32 - n))) by lia. rewrite land_mask by lia.
  pose proof (Z_div_mod_eq_full (be_Z ip) (2 ^ (32 - n))). lia.
Qed.

Lemma subnet4_wf ip n : length ip = 4%nat -> 0 <= n <= 32 -> net_wf (subnet4 ip n) (32 - n) 32.
Proof.
  intros Hip Hn. pose proof (CIDRMask4_length n) as Hm. constructor; try done; try lia.
  - cbn [subnet4 net_IP]. rewrite and_bytes_length; lia.
  - cbn [subnet4 net_Mask]. f_equal. lia.
  - rewrite be_Z_subnet4 by done. by rewrite Z.mod_mul by (pose proof (Z.pow_pos_nonneg 2 (32 - n)); lia).
Qed.

(** Membership of a parsed subnet: the bits of the prefix are equal. *)
Lemma Contains_subnet4 ip n ip' :
  length ip = 4%nat -> length ip' = 4%nat -> 0 <= n <= 32 ->
  Contains (subnet4 ip n) ip' = bool_decide (be_Z ip' / 2 ^ (32 - n) = be_Z ip / 2 ^ (32 - n)).
Proof.
  intros Hip Hip' Hn. rewrite (Contains_spec _ (32 - n) 32) by (by apply subnet4_wf || lia).
  rewrite be_Z_subnet4, Z.div_mul by (done || (pose proof (Z.pow_pos_nonneg 2 (32 - n)); lia)). done.
Qed.

(** ** Subnets written and read again *)

Lemma subnet4_mask_text n : 0 <= n <= 32 ->
  find (fun k => bool_decide (CIDRMask n 32 = CIDRMask (Z.of_nat k) (8 * len (CIDRMask n 32))))
    (seq 0 (S (8 * length (CIDRMask n 32)))) = Some (Z.to_nat n).
Proof.
  intros Hn. assert (n ∈ seqZ 0 33) as Hin by (apply elem_of_seqZ; lia). clear Hn. revert n Hin.
  apply Forall_forall. repeat (apply Forall_cons_2; [vm_compute; reflexivity|]). apply Forall_nil_2.
Qed.

Lemma subnet4_idemp ip n : length ip = 4%nat -> subnet4 (net_IP (subnet4 ip n)) n = subnet4 ip n.
Proof.
  intros Hip. pose proof (CIDRMask4_length n). unfold subnet4. cbn [net_IP]. f_equal. apply be_Z_inj.
  - rewrite !and_bytes_length; rewrite ?and_bytes_length; lia.
  - rewrite !be_Z_and_bytes by (rewrite ?and_bytes_length; lia). rewrite <-Z.land_assoc. by rewrite Z.land_diag.
Qed.

Lemma subnet4_IP_length ip n : length ip = 4%nat -> length (net_IP (subnet4 ip n)) = 4%nat.
Proof. intros Hip. cbn [subnet4 net_IP]. rewrite and_bytes_length; [done|]. by rewrite CIDRMask4_length. Qed.

Lemma subnet4_To4 ip n : length ip = 4%nat -> To4 (net_IP (subnet4 ip n)) = Some (net_IP (subnet4 ip n)).
Proof. intros Hip. unfold To4. by rewrite (subnet4_IP_length ip n Hip). Qed.

Lemma subnet4_networkNumber ip n : length ip = 4%nat ->
  networkNumberAndMask (subnet4 ip n) = Some (net_IP (subnet4 ip n), CIDRMask n 32).
Proof.
  intros Hip. unfold networkNumberAndMask. rewrite subnet4_To4 by done.
  change (default (net_IP (subnet4 ip n)) (Some (net_IP (subnet4 ip n)))) with (net_IP (subnet4 ip n)).
  change (net_Mask (subnet4 ip n)) with (CIDRMask n 32).
  by rewrite (subnet4_IP_length ip n Hip), CIDRMask4_length.
Qed.

Lemma IPNet_String_subnet4 ip n :
  length ip = 4%nat -> 0 <= n <= 32 ->
  IPNet_String (subnet4 ip n) = cidr_text (net_IP (subnet4 ip n)) n.
Proof.
  intros Hip Hn. unfold IPNet_String. rewrite subnet4_networkNumber by done.
  rewrite subnet4_mask_text by done. unfold cidr_text, ip_String.
  rewrite subnet4_To4, (subnet4_IP_length ip n Hip) by done. by rewrite Z2Nat.id by lia.
Qed.

(** The text of a parsed subnet parses to the subnet. *)
Lemma ParseCIDR_IPNet_String ip n :
  length ip = 4%nat -> 0 <= n <= 32 ->
  snd <$> ParseCIDR (IPNet_String (subnet4 ip n)) = Some (subnet4 ip n).
Proof.
  intros Hip Hn. rewrite IPNet_String_subnet4 by done.
  rewrite ParseCIDR_text by (done || by apply subnet4_IP_length).
  by apply (f_equal Some), subnet4_idemp.
Qed.

(** A single address is the subnet of its whole length. *)
Lemma subnet4_full ip : length ip = 4%nat -> subnet4 ip 32 = MkIPNet ip (CIDRMask 32 32).
Proof.
  intros Hip. unfold subnet4. f_equal. apply be_Z_inj; [apply and_bytes_length; by rewrite CIDRMask4_length|].
  pose proof (be_Z_subnet4 ip 32 Hip ltac:(lia)) as H. cbn [subnet4 net_IP] in H. rewrite H.
  change (32 - 32) with 0. rewrite Z.pow_0_r, Z.div_1_r. lia.
Qed.

Lemma cidr_text_not_wildcard ip n :
  length ip = 4%nat -> 0 <= n <= 32 -> cidr_text ip n <> "" /\ cidr_text ip n <> "*".
Proof.
  intros Hip Hn. split; intros E; pose proof (ParseCIDR_text ip n Hip Hn) as H; by rewrite E in H.
Qed.
