(* ===== verification/Acl.v ===== *)
(** * Access control of tunnelled packets (internal/mesh/acl.go)

    The rules of the configuration, their compilation, the fields read from
    an IP packet, the decision and its counters, and the texts given back to
    the dashboard and to other nodes. *)
From stdpp Require Import prelude list strings.
From Stdlib Require Import Strings.Byte ZArith Lia.
From S2P Require Import Prelude GoBytes GoNet GoNetParse.
Local Open Scope Z_scope.

Module Acl.

Abbreviation ACLAction := string.
Definition ACLActionAllow : ACLAction := "allow".
Definition ACLActionDeny : ACLAction := "deny".

Record ACLRule : Type := MkACLRule {
  r_Action : ACLAction; SourceCIDR : string; DestCIDR : string; Protocol : string;
  r_SrcPort : Z; r_DstPort : Z; PeerID : string; Description : string
}.
Record ACLConfig : Type := MkACLConfig {
  Enabled : bool; cfg_DefaultPolicy : ACLAction; Rules : list ACLRule
}.

Record compiledACLRule : Type := MkCompiled {
  action : ACLAction; srcNet : option IPNet; dstNet : option IPNet; protocol : string;
  srcPort : Z; dstPort : Z; peerID : string; desc : string
}.

Record aclSnapshot : Type := MkSnapshot {
  enabled : bool; defaultPolicy : ACLAction; rules : list compiledACLRule; hitCounts : list Z
}.

Record ACLEngine : Type := MkEngine {
  snapshot : option aclSnapshot; allowCount : Z; denyCount : Z
}.

Inductive acl_error : Type :=
| InvalidAction (a : ACLAction)
| InvalidSrc (s : string)
| InvalidDst (s : string)
| InvalidRule (i : Z) (e : acl_error).

(** ** Compilation *)

(** [strings.ToLower] on ASCII. *)
Definition lower (b : byte) : byte :=
  if (65 <=? Z_of_byte b) && (Z_of_byte b <=? 90) then byte_of_Z (Z_of_byte b + 32) else b.
Definition ToLower (s : string) : string := string_of_bytes (lower <$> bytes_of_string s).

Definition wildcard (s : string) : bool := String.eqb s "" || String.eqb s "*".

Definition compile_src (s : string) : result acl_error (option IPNet) :=
  if wildcard s then Ok None else
  match ParseCIDR s with
  | Some (_, ipNet) => Ok (Some ipNet)
  | None => Err (InvalidSrc s)
  end.

Definition compile_dst (s : string) : result acl_error (option IPNet) :=
  if wildcard s then Ok None else
  match ParseCIDR s with
  | Some (_, ipNet) => Ok (Some ipNet)
  | None =>
      match ParseIP s with
      | None => Err (InvalidDst s)
      | Some ip =>
          match To4 ip with
          | Some ip4 => Ok (Some (MkIPNet ip4 (CIDRMask 32 32)))
          | None => Ok (Some (MkIPNet ip (CIDRMask 128 128)))
          end
      end
  end.

Definition compileRule (rule : ACLRule) : result acl_error compiledACLRule :=
  if negb (String.eqb (r_Action rule) ACLActionAllow) && negb (String.eqb (r_Action rule) ACLActionDeny)
  then Err (InvalidAction (r_Action rule)) else
  src ← compile_src (SourceCIDR rule);
  dst ← compile_dst (DestCIDR rule);
  Ok {| action := r_Action rule; srcNet := src; dstNet := dst;
        protocol := (let p := ToLower (Protocol rule) in if String.eqb p "" then "*" else p);
        srcPort := r_SrcPort rule; dstPort := r_DstPort rule;
        peerID := PeerID rule; desc := Description rule |}.

(** The loop over the rules, with the index in the error. *)
Fixpoint compileRules (i : Z) (rs : list ACLRule) : result acl_error (list compiledACLRule) :=
  match rs with
  | [] => Ok []
  | r :: rs =>
      c ← map_err (InvalidRule i) (compileRule r);
      cs ← compileRules (i + 1) rs;
      Ok (c :: cs)
  end.

Definition new_snapshot (cfg : ACLConfig) (compiled : list compiledACLRule) : aclSnapshot :=
  {| enabled := Enabled cfg;
     defaultPolicy := if String.eqb (cfg_DefaultPolicy cfg) "" then ACLActionAllow else cfg_DefaultPolicy cfg;
     rules := compiled; hitCounts := replicate (length compiled) 0 |}.

Definition NewACLEngine (cfg : ACLConfig) : result acl_error ACLEngine :=
  compiled ← compileRules 0 (Rules cfg);
  Ok (MkEngine (Some (new_snapshot cfg compiled)) 0 0).

(** The error and the engine afterwards. *)
Definition UpdateRules (e : ACLEngine) (cfg : ACLConfig) : option acl_error * ACLEngine :=
  match compileRules 0 (Rules cfg) with
  | Err err => (Some err, e)
  | Ok compiled => (None, MkEngine (Some (new_snapshot cfg compiled)) (allowCount e) (denyCount e))
  end.

(** ** Packets *)

Record packetInfo : Type := MkInfo {
  srcIP : IP; dstIP : IP; i_protocol : string; i_srcPort : Z; i_dstPort : Z
}.

Definition byte_at (p : list byte) (i : nat) : Z := Z_of_byte (nth i p x00).

Definition parsePacketInfo (p : list byte) : option packetInfo :=
  if len p <? 1 then None else
  let version := Z.shiftr (byte_at p 0) 4 in
  if version =? 4 then
    if len p <? 20 then None else
    let info := MkInfo (slice p 12 16) (slice p 16 20) in
    let ports := fun proto => info proto (be_Z (slice p 20 22)) (be_Z (slice p 22 24)) in
    let proto := byte_at p 9 in
    Some (if proto =? 6 then if len p <? 24 then info "tcp" 0 0 else ports "tcp"
          else if proto =? 17 then if len p <? 28 then info "udp" 0 0 else ports "udp"
          else if proto =? 1 then info "icmp" 0 0 else info "" 0 0)
  else if version =? 6 then
    if len p <? 40 then None else
    let info := MkInfo (slice p 8 24) (slice p 24 40) in
    let ports := fun proto => if 44 <=? len p then info proto (be_Z (slice p 40 42)) (be_Z (slice p 42 44))
                              else info proto 0 0 in
    let proto := byte_at p 6 in
    Some (if proto =? 6 then ports "tcp" else if proto =? 17 then ports "udp"
          else if proto =? 58 then info "icmp" 0 0 else info "" 0 0)
  else None.

(** ** The decision *)

Definition net_matches (n : option IPNet) (ip : IP) : bool :=
  match n with None => true | Some n => Contains n ip end.

Definition ruleMatches (rule : compiledACLRule) (info : packetInfo) (peer : string) : bool :=
  if negb (net_matches (srcNet rule) (srcIP info)) then false else
  if negb (net_matches (dstNet rule) (dstIP info)) then false else
  if negb (wildcard (protocol rule)) && negb (String.eqb (i_protocol info) (protocol rule)) then false else
  if negb (srcPort rule =? 0) && negb (i_srcPort info =? srcPort rule) then false else
  if negb (dstPort rule =? 0) && negb (i_dstPort info =? dstPort rule) then false else
  if negb (wildcard (peerID rule)) && negb (String.eqb peer (peerID rule)) then false else true.

(** The loop of [Check]: the index and the rule that matches first. *)
Fixpoint scan (i : nat) (rs : list compiledACLRule) (info : packetInfo) (peer : string)
    : option (nat * compiledACLRule) :=
  match rs with
  | [] => None
  | r :: rs => if ruleMatches r info peer then Some (i, r) else scan (S i) rs info peer
  end.

Definition count (e : ACLEngine) (snap : aclSnapshot) (allow : bool) : ACLEngine :=
  if allow then MkEngine (Some snap) (u64 (allowCount e + 1)) (denyCount e)
  else MkEngine (Some snap) (allowCount e) (u64 (denyCount e + 1)).

Definition hit (i : nat) (snap : aclSnapshot) : aclSnapshot :=
  {| enabled := enabled snap; defaultPolicy := defaultPolicy snap; rules := rules snap;
     hitCounts := alter (fun n => u64 (n + 1)) i (hitCounts snap) |}.

Definition Check (e : ACLEngine) (packet : list byte) (peer : string) : ACLEngine * bool :=
  match snapshot e with
  | None => (e, true)
  | Some snap =>
      if negb (enabled snap) then (e, true) else
      let dflt := String.eqb (defaultPolicy snap) ACLActionAllow in
      match parsePacketInfo packet with
      | None => (count e snap dflt, dflt)
      | Some info =>
          match scan 0 (rules snap) info peer with
          | Some (i, r) =>
              let allow := String.eqb (action r) ACLActionAllow in (count e (hit i snap) allow, allow)
          | None => (count e snap dflt, dflt)
          end
      end
  end.

(** ** What others see *)

Record ACLRuleHitStats : Type := MkHit { h_Index : Z; h_Action : string; Hits : Z; Desc : string }.
Record ACLStats : Type := MkStats {
  s_Enabled : bool; s_DefaultPolicy : ACLAction; AllowCount : Z; DenyCount : Z;
  RuleHits : list ACLRuleHitStats
}.
Definition Stats (e : ACLEngine) : ACLStats :=
  match snapshot e with
  | None => MkStats false "" (allowCount e) (denyCount e) []
  | Some snap =>
      MkStats (enabled snap) (defaultPolicy snap) (allowCount e) (denyCount e)
        (imap (fun i r => MkHit (Z.of_nat i) (action r) (nth i (hitCounts snap) 0) (desc r)) (rules snap))
  end.

Definition IsEnabled (e : ACLEngine) : bool :=
  match snapshot e with Some snap => enabled snap | None => false end.
Definition DefaultPolicy (e : ACLEngine) : ACLAction :=
  match snapshot e with Some snap => defaultPolicy snap | None => ACLActionAllow end.

Definition net_text (n : option IPNet) : string :=
  match n with Some n => IPNet_String n | None => "" end.
Definition current_rule (c : compiledACLRule) : ACLRule :=
  MkACLRule (action c) (net_text (srcNet c)) (net_text (dstNet c)) (protocol c)
    (srcPort c) (dstPort c) (peerID c) (desc c).
Definition CurrentRules (e : ACLEngine) : list ACLRule :=
  match snapshot e with Some snap => current_rule <$> rules snap | None => [] end.

Definition defaultStar (s : string) : string := if String.eqb s "" then "*" else s.
Definition EncodeACLRulesForMeta (rs : list ACLRule) : list string :=
  (fun r => String.concat "|"
     [r_Action r; defaultStar (SourceCIDR r); defaultStar (DestCIDR r); defaultStar (Protocol r);
      itoa (r_SrcPort r); itoa (r_DstPort r); defaultStar (PeerID r); Description r]) <$> rs.

(** ** Lemmas *)

Lemma wildcard_spec s : wildcard s = true <-> s = "" \/ s = "*".
Proof. unfold wildcard. by rewrite orb_true_iff, !String.eqb_eq. Qed.

Lemma compile_src_text ip n : length ip = 4%nat -> 0 <= n <= 32 ->
  compile_src (cidr_text ip n) = Ok (Some (subnet4 ip n)).
Proof.
  intros Hip Hn. destruct (cidr_text_not_wildcard ip n Hip Hn) as [H1 H2].
  unfold compile_src, wildcard. rewrite !(proj2 (String.eqb_neq _ _)) by done.
  cbn [orb]. by rewrite ParseCIDR_text.
Qed.

Lemma compile_dst_text ip n : length ip = 4%nat -> 0 <= n <= 32 ->
  compile_dst (cidr_text ip n) = Ok (Some (subnet4 ip n)).
Proof.
  intros Hip Hn. destruct (cidr_text_not_wildcard ip n Hip Hn) as [H1 H2].
  unfold compile_dst, wildcard. rewrite !(proj2 (String.eqb_neq _ _)) by done.
  cbn [orb]. by rewrite ParseCIDR_text.
Qed.

Lemma lower_idemp b : lower (lower b) = lower b.
Proof. by destruct b; vm_compute. Qed.

Lemma ToLower_idemp s : ToLower (ToLower s) = ToLower s.
Proof.
  unfold ToLower. rewrite bytes_of_string_of_bytes, <-list_fmap_compose.
  f_equal. apply list_fmap_ext. intros i b _. apply lower_idemp.
Qed.

Lemma scan_spec rs info peer : forall i,
  match scan i rs info peer with
  | Some (k, r) => (i <= k)%nat /\ rs !! (k - i)%nat = Some r /\ ruleMatches r info peer = true /\
      forall j r', (j < k - i)%nat -> rs !! j = Some r' -> ruleMatches r' info peer = false
  | None => forall j r', rs !! j = Some r' -> ruleMatches r' info peer = false
  end.
Proof.
  induction rs as [|r rs IH]; intros i; cbn [scan]; [done|].
  destruct (ruleMatches r info peer) eqn:E.
  - rewrite Nat.sub_diag. split_and!; [lia | done | done |]. intros j r' Hj. lia.
  - specialize (IH (S i)). destruct (scan (S i) rs info peer) as [[k r1]|].
    + destruct IH as (Hk & Hr & Hm & Hmin). replace (k - i)%nat with (S (k - S i))%nat by lia.
      split_and!; [lia | done | done |]. intros [|j] r' Hj Hl; [cbn in Hl; congruence|].
      apply (Hmin j r'); [lia | done].
    + intros [|j] r' Hl; [cbn in Hl; congruence | by apply (IH j)].
Qed.

(** The rule that decides: it matches and none before it does. *)
Definition first_match (rs : list compiledACLRule) (info : packetInfo) (peer : string)
    (i : nat) (r : compiledACLRule) : Prop :=
  rs !! i = Some r /\ ruleMatches r info peer = true /\
  forall j r', (j < i)%nat -> rs !! j = Some r' -> ruleMatches r' info peer = false.

Lemma first_match_scan rs info peer i r :
  first_match rs info peer i r -> scan 0 rs info peer = Some (i, r).
Proof.
  intros (Hr & Hm & Hmin). pose proof (scan_spec rs info peer 0) as Hs.
  destruct (scan 0 rs info peer) as [[k r1]|].
  - rewrite Nat.sub_0_r in Hs. destruct Hs as (_ & Hr1 & Hm1 & Hmin1).
    assert (k = i) as ->; [|congruence]. destruct (lt_eq_lt_dec k i) as [[Hlt|]|Hlt]; [|done|].
    + by rewrite (Hmin k r1 Hlt Hr1) in Hm1.
    + by rewrite (Hmin1 i r Hlt Hr) in Hm.
  - by rewrite (Hs i r Hr) in Hm.
Qed.

(** ** Well-formed engines *)

Definition known_action (a : ACLAction) : Prop := a = ACLActionAllow \/ a = ACLActionDeny.

(** Every rule has its counter, an action that is known and a protocol that
    is not empty. *)
Definition snapshot_wf (snap : aclSnapshot) : Prop :=
  length (hitCounts snap) = length (rules snap) /\ defaultPolicy snap <> "" /\
  Forall (fun r => known_action (action r) /\ protocol r <> "" /\ ToLower (protocol r) = protocol r)
    (rules snap).
Definition engine_wf (e : ACLEngine) : Prop :=
  exists snap, snapshot e = Some snap /\ snapshot_wf snap.

Lemma compileRule_wf r c : compileRule r = Ok c ->
  known_action (action c) /\ protocol c <> "" /\ ToLower (protocol c) = protocol c.
Proof.
  unfold compileRule. destruct (_ && _) eqn:Ea; [done|].
  destruct (compile_src _) as [src|]; [|done]. cbn [mbind result_bind].
  destruct (compile_dst _) as [dst|]; [|done]. cbn [mbind result_bind]. intros [= <-].
  cbn [action protocol]. split_and!.
  - apply andb_false_iff in Ea as [E|E]; apply negb_false_iff, String.eqb_eq in E; [by left | by right].
  - destruct (String.eqb_spec (ToLower (Protocol r)) ""); done.
  - destruct (String.eqb_spec (ToLower (Protocol r)) ""); [done | apply ToLower_idemp].
Qed.

Lemma compileRules_wf rs : forall i cs, compileRules i rs = Ok cs ->
  Forall (fun r => known_action (action r) /\ protocol r <> "" /\ ToLower (protocol r) = protocol r) cs.
Proof.
  induction rs as [|r rs IH]; intros i cs; cbn [compileRules]; [intros [= <-]; constructor|].
  destruct (compileRule r) as [c|] eqn:Ec; [|done]. cbn [map_err mbind result_bind].
  destruct (compileRules (i + 1) rs) as [cs'|] eqn:Es; [|done]. cbn [mbind result_bind].
  intros [= <-]. constructor; [by eapply compileRule_wf | by eapply IH].
Qed.

Lemma new_snapshot_wf cfg cs : compileRules 0 (Rules cfg) = Ok cs -> snapshot_wf (new_snapshot cfg cs).
Proof.
  intros Hc. split_and!; cbn.
  - by rewrite length_replicate.
  - destruct (String.eqb_spec (cfg_DefaultPolicy cfg) ""); done.
  - by eapply compileRules_wf.
Qed.

Lemma hit_wf i snap : snapshot_wf snap -> snapshot_wf (hit i snap).
Proof. intros (H1 & H2 & H3). split_and!; [by cbn; rewrite length_alter | done..]. Qed.

Lemma count_wf e snap b : snapshot_wf snap -> engine_wf (count e snap b).
Proof. intros H. exists snap. by destruct b. Qed.

Lemma Check_wf e packet peer : engine_wf e -> engine_wf (Check e packet peer).1.
Proof.
  intros (snap & Hs & Hw). unfold Check. rewrite Hs. destruct (negb _); [by exists snap|].
  destruct (parsePacketInfo packet); [|by apply count_wf].
  destruct (scan _ _ _ _) as [[i r]|]; [by apply count_wf, hit_wf | by apply count_wf].
Qed.

Inductive acl_call : Type :=
| CCheck (packet : list byte) (peer : string)
| CUpdate (cfg : ACLConfig).
Definition acl_step (e : ACLEngine) (c : acl_call) : ACLEngine :=
  match c with
  | CCheck packet peer => (Check e packet peer).1
  | CUpdate cfg => (UpdateRules e cfg).2
  end.

(** An engine keeps its rules and counters in step: after any sequence of
    checks and updates of an engine that was created, every rule has its own
    counter, so that counting a hit is never out of range, every action is
    one of the two and every protocol is in lower case. *)
Theorem acl_engine_well_formed cfg e cs :
  NewACLEngine cfg = Ok e -> engine_wf (foldl acl_step e cs).
Proof.
  intros Hn. assert (engine_wf e) as Hw.
  { unfold NewACLEngine in Hn. destruct (compileRules 0 (Rules cfg)) as [rs|] eqn:Ec; [|done].
    injection Hn as <-. eexists. split; [done|]. by apply new_snapshot_wf. }
  clear Hn. revert e Hw. induction cs as [|[p peer|cfg'] cs IH]; intros e Hw; cbn [foldl acl_step]; [done|..].
  - by apply IH, Check_wf.
  - apply IH. unfold UpdateRules. destruct (compileRules 0 (Rules cfg')) as [rs|] eqn:Ec; [|done].
    eexists. split; [done|]. by apply new_snapshot_wf.
Qed.

(** ** Decisions *)

Definition hits (e : ACLEngine) (i : nat) : option Z :=
  snapshot e ≫= fun snap => hitCounts snap !! i.

(** The first rule that matches decides: on an enabled engine, a packet
    that can be read is allowed exactly when the first rule that matches it
    allows it, or the default policy does when no rule matches; a packet that
    cannot be read is treated by the default policy. Exactly the counter of
    the deciding rule and one of the two totals go up by one, and rules and
    policy stay. *)
Theorem Check_first_match e snap packet peer :
  snapshot e = Some snap -> enabled snap = true -> length (hitCounts snap) = length (rules snap) ->
  let '(e', ok) := Check e packet peer in
  let allows a := bool_decide (a = ACLActionAllow) in
  (forall info i r, parsePacketInfo packet = Some info -> first_match (rules snap) info peer i r ->
     ok = allows (action r) /\
     forall j, hits e' j = (fun n => if decide (j = i) then u64 (n + 1) else n) <$> hits e j) /\
  (match parsePacketInfo packet with
   | Some info => forall j r, rules snap !! j = Some r -> ruleMatches r info peer = false
   | None => True
   end -> ok = allows (defaultPolicy snap) /\ forall j, hits e' j = hits e j) /\
  allowCount e' = (if ok then u64 (allowCount e + 1) else allowCount e) /\
  denyCount e' = (if ok then denyCount e else u64 (denyCount e + 1)) /\
  CurrentRules e' = CurrentRules e /\ DefaultPolicy e' = DefaultPolicy e /\ IsEnabled e' = true.
Proof.
  intros Hs He Hl. unfold Check. rewrite Hs, He. cbn [negb].
  assert (forall a, bool_decide (a = ACLActionAllow) = String.eqb a ACLActionAllow) as Ha.
  { intros a. destruct (String.eqb_spec a ACLActionAllow);
      [by apply bool_decide_true | by apply bool_decide_false]. }
  assert (forall s b, snapshot (count e s b) = Some s) as Hcs by (by intros s []).
  assert (forall s b, allowCount (count e s b) = (if b then u64 (allowCount e + 1) else allowCount e))
    as Hca by (by intros s []).
  assert (forall s b, denyCount (count e s b) = (if b then denyCount e else u64 (denyCount e + 1)))
    as Hcd by (by intros s []).
  unfold CurrentRules, DefaultPolicy, IsEnabled, hits. destruct (parsePacketInfo packet) as [info|] eqn:Ep.
  - pose proof (scan_spec (rules snap) info peer 0) as Hscan.
    destruct (scan 0 (rules snap) info peer) as [[i r]|] eqn:Esc.
    + rewrite !Ha, Hcs, Hca, Hcd, Hs. split_and!; try done.
      * intros info' i' r' [= <-] Hf%first_match_scan. assert ((i, r) = (i', r')) as [= <- <-] by congruence.
        split; [done|]. intros j. cbn [mbind option_bind hit hitCounts].
        destruct (decide (j = i)) as [->|Hne].
        -- rewrite list_lookup_alter_eq. by destruct (hitCounts snap !! i).
        -- rewrite list_lookup_alter_ne by done. by destruct (hitCounts snap !! j).
      * intros Hno. rewrite Nat.sub_0_r in Hscan. destruct Hscan as (_ & Hr & Hm & _).
        by rewrite (Hno _ _ Hr) in Hm.
    + rewrite !Ha, Hcs, Hca, Hcd, Hs. split_and!; try done.
      intros info' i' r' [= <-] Hf%first_match_scan. congruence.
  - rewrite !Ha, Hcs, Hca, Hcd, Hs. by split_and!.
Qed.

(** ** The meaning of a rule *)

Definition same_prefix (n : Z) (a b : IP) : Prop := be_Z a / 2 ^ (32 - n) = be_Z b / 2 ^ (32 - n).

Lemma ToLower_wildcard s : ToLower s = "*" -> s = "*".
Proof.
  intros H. apply (f_equal bytes_of_string) in H. unfold ToLower in H. rewrite bytes_of_string_of_bytes in H.
  destruct (bytes_of_string s) as [|b [|b' l]] eqn:E; try done.
  cbn in H. injection H as H. rewrite <-(string_of_bytes_of_string s), E.
  destruct b; vm_compute in H; try done.
Qed.

Lemma ToLower_empty s : ToLower s = "" <-> s = "".
Proof.
  split; [|by intros ->]. intros H. apply (f_equal bytes_of_string) in H. unfold ToLower in H.
  rewrite bytes_of_string_of_bytes in H. apply fmap_nil_inv in H.
  by rewrite <-(string_of_bytes_of_string s), H.
Qed.

(** A rule means what its text says: the rule whose source and
    destination are written as IPv4 subnets [a.b.c.d/n] compiles, and it
    matches an IPv4 packet exactly when the first [n] bits of both addresses
    are those of the subnets, the protocol is the one named in any case, or
    any if none or a star is, each port is equal or zero in the rule, and so
    for the peer. *)
Theorem rule_means_its_text rule sa sn da dn info peer :
  known_action (r_Action rule) ->
  SourceCIDR rule = cidr_text sa sn -> DestCIDR rule = cidr_text da dn ->
  length sa = 4%nat -> length da = 4%nat -> 0 <= sn <= 32 -> 0 <= dn <= 32 ->
  length (srcIP info) = 4%nat -> length (dstIP info) = 4%nat ->
  exists c, compileRule rule = Ok c /\
    (ruleMatches c info peer = true <->
     same_prefix sn (srcIP info) sa /\ same_prefix dn (dstIP info) da /\
     (wildcard (Protocol rule) = true \/ i_protocol info = ToLower (Protocol rule)) /\
     (r_SrcPort rule = 0 \/ i_srcPort info = r_SrcPort rule) /\
     (r_DstPort rule = 0 \/ i_dstPort info = r_DstPort rule) /\
     (wildcard (PeerID rule) = true \/ peer = PeerID rule)).
Proof.
  intros Ha Hs Hd Hsa Hda Hsn Hdn Hsi Hdi. unfold compileRule.
  rewrite Hs, Hd, compile_src_text, compile_dst_text by done. cbn [mbind result_bind].
  assert (negb (String.eqb (r_Action rule) ACLActionAllow) &&
          negb (String.eqb (r_Action rule) ACLActionDeny) = false) as ->.
  { apply andb_false_iff. rewrite !negb_false_iff, !String.eqb_eq. destruct Ha; auto. }
  eexists. split; [done|]. unfold ruleMatches, same_prefix.
  cbn [srcNet dstNet protocol srcPort dstPort peerID net_matches].
  rewrite !Contains_subnet4 by done.
  assert (forall b c : bool, (if negb b then false else c) = b && c) as Hif by (by intros [] []).
  assert (forall (b b' c : bool), (if b && b' then false else c) = (negb b || negb b') && c) as Hif2
    by (by intros [] [] []).
  rewrite !Hif, !Hif2, !negb_involutive, !andb_true_iff, !orb_true_iff, !bool_decide_eq_true, !Z.eqb_eq, !String.eqb_eq.
  assert ((wildcard (if String.eqb (ToLower (Protocol rule)) "" then "*" else ToLower (Protocol rule)) = true \/
    i_protocol info = (if String.eqb (ToLower (Protocol rule)) "" then "*" else ToLower (Protocol rule))) <->
    (wildcard (Protocol rule) = true \/ i_protocol info = ToLower (Protocol rule))) as ->; [|tauto].
  rewrite !wildcard_spec. destruct (String.eqb_spec (ToLower (Protocol rule)) "") as [E|E].
  - apply (proj1 (ToLower_empty _)) in E. rewrite E. split; intros _; left; [by left | by right].
  - pose proof (ToLower_wildcard (Protocol rule)). pose proof (ToLower_empty (Protocol rule)).
    assert (Protocol rule = "*" -> ToLower (Protocol rule) = "*") by (by intros ->). tauto.
Qed.

(** ** The rules given back *)

Definition net4 (n : option IPNet) : Prop :=
  match n with
  | None => True
  | Some n => exists ip k, length ip = 4%nat /\ 0 <= k <= 32 /\ n = subnet4 ip k
  end.

Lemma IPNet_String_not_wildcard ip k :
  length ip = 4%nat -> 0 <= k <= 32 -> wildcard (IPNet_String (subnet4 ip k)) = false.
Proof.
  intros Hip Hk. rewrite IPNet_String_subnet4 by done.
  destruct (cidr_text_not_wildcard (net_IP (subnet4 ip k)) k) as [H1 H2]; [by apply subnet4_IP_length | done |].
  unfold wildcard. by rewrite !(proj2 (String.eqb_neq _ _)).
Qed.

Lemma compile_net_text n : net4 n -> compile_src (net_text n) = Ok n /\ compile_dst (net_text n) = Ok n.
Proof.
  destruct n as [n|]; [|done]. intros (ip & k & Hip & Hk & ->). cbn [net_text].
  unfold compile_src, compile_dst. rewrite IPNet_String_not_wildcard by done.
  pose proof (ParseCIDR_IPNet_String ip k Hip Hk) as Hp.
  destruct (ParseCIDR _) as [[ip' n']|]; [|done]. by injection Hp as ->.
Qed.

Lemma compile_current c :
  net4 (srcNet c) -> net4 (dstNet c) -> known_action (action c) -> protocol c <> "" ->
  ToLower (protocol c) = protocol c -> compileRule (current_rule c) = Ok c.
Proof.
  intros Hs Hd Ha Hp Hl. unfold compileRule, current_rule. cbn [r_Action SourceCIDR DestCIDR Protocol].
  rewrite (proj1 (compile_net_text _ Hs)), (proj2 (compile_net_text _ Hd)). cbn [mbind result_bind].
  rewrite Hl, (proj2 (String.eqb_neq (protocol c) "")) by done.
  destruct c; cbn in *. destruct Ha as [-> | ->]; done.
Qed.

Lemma compileRules_current cs : forall i,
  Forall (fun c => net4 (srcNet c) /\ net4 (dstNet c)) cs ->
  Forall (fun r => known_action (action r) /\ protocol r <> "" /\ ToLower (protocol r) = protocol r) cs ->
  compileRules i (current_rule <$> cs) = Ok cs.
Proof.
  induction cs as [|c cs IH]; intros i Hn Hw; [done|].
  apply Forall_cons in Hn as [[Hs Hd] Hn]. apply Forall_cons in Hw as [(Ha & Hp & Hl) Hw].
  cbn [fmap list_fmap compileRules]. rewrite compile_current by done. cbn [map_err mbind result_bind].
  by rewrite IH.
Qed.

(** The rules survive being read back: when the subnets of an engine are
    IPv4 ones, an engine made from the rules, policy and switch it shows to
    the dashboard is the same engine. *)
Theorem CurrentRules_roundtrip cfg e snap :
  NewACLEngine cfg = Ok e -> snapshot e = Some snap ->
  Forall (fun c => net4 (srcNet c) /\ net4 (dstNet c)) (rules snap) ->
  NewACLEngine (MkACLConfig (IsEnabled e) (DefaultPolicy e) (CurrentRules e)) = Ok e.
Proof.
  unfold NewACLEngine. cbn [Rules]. intros Hn Hs Hnet.
  destruct (compileRules 0 (Rules cfg)) as [rs|] eqn:Ec; [|done]. injection Hn as <-.
  injection Hs as <-. cbn [rules new_snapshot] in Hnet. pose proof (new_snapshot_wf _ _ Ec) as (_ & Hd & Hw).
  unfold CurrentRules. cbn [snapshot rules new_snapshot].
  rewrite compileRules_current by done. cbn [mbind result_bind]. unfold new_snapshot.
  cbn [Enabled cfg_DefaultPolicy IsEnabled DefaultPolicy snapshot enabled defaultPolicy new_snapshot] in *.
  by rewrite (proj2 (String.eqb_neq _ _) Hd).
Qed.

(** ** Packets *)

(** An IPv4 packet: [opts] are the options of the header, in words of four
    bytes, and ports follow the header. *)
Definition ipv4_packet (proto : Z) (src dst : IP) (opts : list byte) (sport dport : Z) (rest : list byte)
    : list byte :=
  byte_of_Z (64 + 5 + len opts / 4) :: replicate 8 x00 ++ [byte_of_Z proto] ++ replicate 2 x00 ++ src ++ dst
    ++ opts ++ be_bytes 2 sport ++ be_bytes 2 dport ++ rest.

(** The fields of a packet are read where they are written: from an IPv4
    packet without header options the engine reads the addresses, the
    protocol and, for TCP and for UDP with its whole header, both ports. *)
Theorem parsePacketInfo_ipv4 proto src dst sport dport rest :
  length src = 4%nat -> length dst = 4%nat -> 0 <= sport < 2 ^ 16 -> 0 <= dport < 2 ^ 16 ->
  proto = 6 \/ proto = 17 /\ 4 <= len rest ->
  parsePacketInfo (ipv4_packet proto src dst [] sport dport rest) =
  Some (MkInfo src dst (if proto =? 6 then "tcp" else "udp") sport dport).
Proof.
  intros Hs Hd Hsp Hdp Hp. apply length4 in Hs as (s1 & s2 & s3 & s4 & ->).
  apply length4 in Hd as (d1 & d2 & d3 & d4 & ->).
  unfold ipv4_packet. cbn [app]. change (len [] / 4) with 0.
  unfold parsePacketInfo. cbn [replicate app]. change (byte_at (byte_of_Z (64 + 5 + 0) :: _) 0) with 69.
  change (Z.shiftr 69 4) with 4. rewrite Z.eqb_refl.
  set (p := byte_of_Z _ :: _). assert (len p = 24 + len rest) as Hl.
  { unfold p. cbn [length]. rewrite !length_app, !be_bytes_length. lia. }
  rewrite !Hl. rewrite (proj2 (Z.ltb_ge _ 1)), (proj2 (Z.ltb_ge _ 20)), (proj2 (Z.ltb_ge _ 24)) by lia.
  assert (slice p 20 22 = be_bytes 2 sport) as H1.
  { unfold slice. change (drop (Z.to_nat 20) p) with (be_bytes 2 sport ++ be_bytes 2 dport ++ rest).
    apply (take_app_length' _ _ 2). by rewrite be_bytes_length. }
  assert (slice p 22 24 = be_bytes 2 dport) as H2.
  { unfold slice. change (Z.to_nat 22) with (20 + 2)%nat. rewrite <-(drop_drop p 2 20). change (drop 20 p) with (be_bytes 2 sport ++ be_bytes 2 dport ++ rest).
    rewrite (drop_app_length' _ _ 2) by by rewrite be_bytes_length.
    apply (take_app_length' _ _ 2). by rewrite be_bytes_length. }
  rewrite H1, H2, !be_Z_u16 by done.
  change (slice p 12 16) with [s1; s2; s3; s4]. change (slice p 16 20) with [d1; d2; d3; d4].
  change (byte_at p 9) with (Z_of_byte (byte_of_Z proto)). rewrite Z_of_byte_of_Z.
  destruct Hp as [->|[-> Hr]]; [done|]. cbn [Z.eqb Pos.eqb Z.modulo Z.div_eucl].
  change (17 mod 256 =? 6) with false. change (17 mod 256 =? 17) with true.
  by rewrite (proj2 (Z.ltb_ge _ 28)) by lia.
Qed.

(** ** Examples *)

Definition no_ssh : ACLRule := MkACLRule "deny" "10.144.144.0/24" "*" "TCP" 0 22 "" "no ssh".
Definition ssh_config : ACLConfig := MkACLConfig true "" [no_ssh].
Definition ssh_engine : ACLEngine :=
  match NewACLEngine ssh_config with Ok e => e | Err _ => MkEngine None 0 0 end.
Definition ssh_snapshot : aclSnapshot :=
  match snapshot ssh_engine with Some s => s | None => MkSnapshot false "" [] [] end.
Definition host_a : IP := [x0a; x90; x90; x02].
Definition host_b : IP := [x0a; x90; x90; x03].
Definition ssh_packet (opts : list byte) : list byte := ipv4_packet 6 host_a host_b opts 40000 22 (replicate 16 x00).

(** A packet with header options passes a rule on its port: the ports are
    read behind a header of twenty bytes whatever its length field says, so
    that a packet to port 22 is denied without options and allowed with four
    bytes of them. *)
Theorem acl_options_bypass :
  (Check ssh_engine (ssh_packet []) "peer").2 = false /\
  (Check ssh_engine (ssh_packet [x01; x01; x01; x01]) "peer").2 = true.
Proof. split; vm_compute; reflexivity. Qed.

(** A single source address is refused, a single destination accepted. *)
Lemma single_source_refused :
  compileRule (MkACLRule "allow" "10.0.0.1" "*" "" 0 0 "" "") = Err (InvalidSrc "10.0.0.1") /\
  is_ok (compileRule (MkACLRule "allow" "*" "10.0.0.1" "" 0 0 "" "")) = true.
Proof. split; vm_compute; reflexivity. Qed.

Lemma acl_engine_well_formed_witness :
  engine_wf (foldl acl_step ssh_engine [CCheck (ssh_packet []) "peer"; CUpdate ssh_config]).
Proof. apply (acl_engine_well_formed ssh_config). vm_compute. reflexivity. Defined.

Lemma Check_first_match_witness :
  let '(e', ok) := Check ssh_engine (ssh_packet []) "peer" in
  ok = false /\ denyCount e' = 1 /\ CurrentRules e' = CurrentRules ssh_engine.
Proof.
  pose proof (Check_first_match ssh_engine ssh_snapshot (ssh_packet []) "peer") as H.
  assert (snapshot ssh_engine = Some ssh_snapshot) as H1 by (vm_compute; reflexivity).
  specialize (H H1 eq_refl eq_refl).
  assert (exists e', Check ssh_engine (ssh_packet []) "peer" = (e', false)) as [e' E]
    by (eexists; vm_compute; reflexivity).
  rewrite E in *. destruct H as (_ & _ & _ & H & Hr & _). split_and!; [done | exact H | exact Hr].
Defined.

Lemma rule_means_its_text_witness :
  let rule := MkACLRule "deny" (cidr_text [x0a; x90; x90; x00] 24) (cidr_text [x0a; x00; x00; x00] 8) "TCP" 0 22 "" "" in
  exists c, compileRule rule = Ok c /\
    ruleMatches c (MkInfo host_a host_b "tcp" 40000 22) "peer" = true.
Proof.
  intros rule.
  destruct (rule_means_its_text rule [x0a; x90; x90; x00] 24 [x0a; x00; x00; x00] 8
              (MkInfo host_a host_b "tcp" 40000 22) "peer") as (c & Hc & Hm);
    try reflexivity; try lia; [by right|].
  exists c. split; [done|]. apply Hm. split_and!; try reflexivity; try (by left); by right.
Defined.

Lemma CurrentRules_roundtrip_witness :
  NewACLEngine (MkACLConfig (IsEnabled ssh_engine) (DefaultPolicy ssh_engine) (CurrentRules ssh_engine))
  = Ok ssh_engine.
Proof.
  apply (CurrentRules_roundtrip ssh_config _ ssh_snapshot); [vm_compute; reflexivity.. |].
  constructor; [|constructor]. split; [|exact I].
  exists [x0a; x90; x90; x00], 24. split_and!; [reflexivity | lia | lia | vm_compute; reflexivity].
Defined.

Lemma parsePacketInfo_ipv4_witness :
  parsePacketInfo (ssh_packet []) = Some (MkInfo host_a host_b "tcp" 40000 22).
Proof. apply parsePacketInfo_ipv4; try reflexivity; try lia. Defined.
End Acl.
