(* ===== verification/Join.v ===== *)
(** * The join protocol (internal/join)

    A new node presents a signed token, proves that it owns its key by
    signing a challenge and receives the configuration of the mesh. The token
    and its verification, the cache of used nonces, the server's two-step
    handler with its rate limit and the client's requests. HMAC-SHA256,
    Ed25519 and the JSON codec are parameters; time is read once per request
    and given in nanoseconds; random bytes are arguments. *)
From stdpp Require Import prelude gmap list strings.
From Stdlib Require Import Strings.Byte ZArith Lia.
From S2P Require Import Prelude GoBytes GoEncoding GoNet GoNetParse KeyExchange.
Local Open Scope Z_scope.

Module Join.

Definition second : Z := 10 ^ 9.
Definition minute : Z := 60 * second.

(** ** Tokens (token.go) *)

Definition TokenVersion : Z := 1.
Definition TokenLifetime : Z := 30 * minute.
Definition nonceLen : Z := 16.

Record Token : Type := MkToken {
  Version : Z; ExpiresAt : Z; Nonce : string; ServerFP : string; Signature : string
}.

Inductive token_error : Type :=
| RandomFailed
| BadBase64
| BadJSON
| UnsupportedVersion (v : Z)
| BadSignatureHex
| ErrInvalidSignature
| ErrTokenExpired.

Definition signingMaterial (t : Token) : list byte :=
  be_bytes 4 (Version t) ++ be_bytes 8 (ExpiresAt t)
    ++ bytes_of_string (Nonce t) ++ bytes_of_string (ServerFP t).

(** ** The replay cache *)

Record ReplayCache : Type := MkReplay { used : gmap string Z; maxLifetime : Z }.

Definition NewReplayCache (maxLifetime : Z) : ReplayCache :=
  MkReplay ∅ (if maxLifetime =? 0 then 2 * TokenLifetime else maxLifetime).

Definition unexpired (now : Z) (used : gmap string Z) : gmap string Z :=
  filter (fun kv => ~ kv.2 < now) used.

(** The cache afterwards and whether the nonce was new. *)
Definition CheckAndMark (rc : ReplayCache) (now : Z) (nonce : string) (expiresAt : Z) : ReplayCache * bool :=
  let used := unexpired now (used rc) in
  match used !! nonce with
  | Some _ => (MkReplay used (maxLifetime rc), false)
  | None =>
      let storeExp := i64 (expiresAt * second) in
      let maxExp := i64 (now + maxLifetime rc) in
      (MkReplay (<[nonce := if storeExp <? maxExp then maxExp else storeExp]> used) (maxLifetime rc), true)
  end.

Definition Cleanup (rc : ReplayCache) (now : Z) : ReplayCache :=
  MkReplay (unexpired now (used rc)) (maxLifetime rc).
Definition EntryCount (rc : ReplayCache) : Z := Z.of_nat (size (used rc)).

(** ** Messages (server.go) *)

Record PeerInfo : Type := MkPeerInfo {
  pi_PublicKey : string; pi_Hostname : string; pi_Role : string; pi_Endpoint : string
}.
Record ConfigBundle : Type := MkBundle {
  BootstrapPublicKey : string; BootstrapEndpoint : string; MeshPort : Z; RealityPublicKey : string;
  RealityShortID : string; RealityServerName : string; Collectors : list string;
  KnownPeers : list PeerInfo; IssuedAt : Z; b_Signature : string
}.
Record JoinRequest : Type := MkRequest {
  rq_Token : string; JoinerPublicKey : string; JoinerHostname : string; JoinerEndpoint : string;
  rq_Challenge : string; ChallengeResponse : string
}.
Record JoinResponse : Type := MkResponse {
  Success : bool; Error : string; Bundle : option ConfigBundle; Challenge : string
}.

(** What the handler writes; a handler that panics closes the connection. *)
Inductive reply : Type :=
| HttpError (status : Z) (text : string)
| Json (status : Z) (resp : JoinResponse)
| Panicked.

Record ServerConfig : Type := MkServerConfig {
  Secret : list byte; ServerIdentity : Kx.Identity; c_BootstrapEndpoint : string; c_MeshPort : Z;
  c_RealityPublicKey : string; c_RealityShortID : string; c_RealityServerName : string;
  c_Collectors : list string; MaxJoinRequests : Z; c_TokenLifetime : Z
}.

Record challengeEntry : Type := MkEntry { joinerPubKey : string; expiresAt : Z }.
Record rateBucket : Type := MkBucket { count : Z; windowStart : Z }.
Definition challengeTTL : Z := 60 * second.

Record JoinServer : Type := MkServer {
  cfg : ServerConfig; replay : ReplayCache; rateLimit : gmap string rateBucket;
  knownPeersFunc : option (list PeerInfo); challengeCache : gmap string challengeEntry
}.

Definition NewJoinServer (c : ServerConfig) : JoinServer :=
  let c := {| Secret := Secret c; ServerIdentity := ServerIdentity c;
              c_BootstrapEndpoint := c_BootstrapEndpoint c; c_MeshPort := c_MeshPort c;
              c_RealityPublicKey := c_RealityPublicKey c; c_RealityShortID := c_RealityShortID c;
              c_RealityServerName := c_RealityServerName c; c_Collectors := c_Collectors c;
              MaxJoinRequests := if MaxJoinRequests c =? 0 then 10 else MaxJoinRequests c;
              c_TokenLifetime := if c_TokenLifetime c =? 0 then TokenLifetime else c_TokenLifetime c |} in
  MkServer c (NewReplayCache (c_TokenLifetime c * 2)) ∅ None ∅.

(** What the configured function returns is the list of peers. *)
Definition SetKnownPeersFunc (s : JoinServer) (peers : list PeerInfo) : JoinServer :=
  MkServer (cfg s) (replay s) (rateLimit s) (Some peers) (challengeCache s).

Definition set_rate (s : JoinServer) (m : gmap string rateBucket) : JoinServer :=
  MkServer (cfg s) (replay s) m (knownPeersFunc s) (challengeCache s).
Definition set_replay (s : JoinServer) (rc : ReplayCache) : JoinServer :=
  MkServer (cfg s) rc (rateLimit s) (knownPeersFunc s) (challengeCache s).
Definition set_challenges (s : JoinServer) (m : gmap string challengeEntry) : JoinServer :=
  MkServer (cfg s) (replay s) (rateLimit s) (knownPeersFunc s) m.

Definition allowRequest (s : JoinServer) (now : Z) (ip : string) : JoinServer * bool :=
  let m := if 1000 <? Z.of_nat (size (rateLimit s))
           then filter (fun kv => ~ windowStart kv.2 < now - 5 * minute) (rateLimit s)
           else rateLimit s in
  match m !! ip with
  | None => (set_rate s (<[ip := MkBucket 1 now]> m), true)
  | Some b =>
      if minute <? now - windowStart b then (set_rate s (<[ip := MkBucket 1 now]> m), true)
      else (set_rate s (<[ip := MkBucket (count b + 1) (windowStart b)]> m),
            count b + 1 <=? MaxJoinRequests (cfg s))
  end.

Definition clientIP (remoteAddr : string) : string :=
  match SplitHostPort remoteAddr with Some (host, _) => host | None => remoteAddr end.

Definition fail (status : Z) (text : string) : reply := Json status (MkResponse false text None "").

Section Crypto.
Context (hmac : list byte -> list byte -> list byte).
Context (ed_sign : list byte -> list byte -> list byte).
Context (ed_verify : list byte -> list byte -> list byte -> bool).
Context (marshal_token : Token -> list byte) (unmarshal_token : list byte -> option Token).
Context (marshal_bundle : ConfigBundle -> list byte).
Context (marshal_request : JoinRequest -> list byte) (unmarshal_request : list byte -> result string JoinRequest).
Context (marshal_response : JoinResponse -> list byte) (unmarshal_response : list byte -> option JoinResponse).

(** [nonce] is what the random source gives. *)
Definition GenerateToken (secret : list byte) (serverFP : string) (lifetime now : Z)
    (nonce : option (list byte)) : result token_error string :=
  match nonce with
  | None => Err RandomFailed
  | Some nonce =>
      let t := MkToken TokenVersion ((now + lifetime) / second) (Base64.Std_EncodeToString nonce) serverFP "" in
      let sig := Kx.EncodeToString (hmac secret (signingMaterial t)) in
      Ok (Base64.RawURL_EncodeToString
            (marshal_token (MkToken (Version t) (ExpiresAt t) (Nonce t) (ServerFP t) sig)))
  end.

Definition ParseToken (raw : string) (secret : list byte) (now : Z) : result token_error Token :=
  match Base64.RawURL_DecodeString raw with
  | None => Err BadBase64
  | Some data =>
      match unmarshal_token data with
      | None => Err BadJSON
      | Some t =>
          if negb (Version t =? TokenVersion) then Err (UnsupportedVersion (Version t)) else
          match Kx.DecodeString (Signature t) with
          | None => Err BadSignatureHex
          | Some sigBytes =>
              if negb (bool_decide (sigBytes = hmac secret (signingMaterial t))) then Err ErrInvalidSignature
              else if ExpiresAt t <=? now / second then Err ErrTokenExpired
              else Ok t
          end
      end
  end.

(** [ed25519.Verify] panics on a public key that is not 32 bytes long. *)
Definition verify_panics (pubKeyHex sigHex : string) : bool :=
  match Kx.DecodeString pubKeyHex, Kx.DecodeString sigHex with
  | Some pub, Some _ => negb (len pub =? 32)
  | _, _ => false
  end.

Definition unsigned (b : ConfigBundle) : ConfigBundle :=
  MkBundle (BootstrapPublicKey b) (BootstrapEndpoint b) (MeshPort b) (RealityPublicKey b)
    (RealityShortID b) (RealityServerName b) (Collectors b) (KnownPeers b) (IssuedAt b) "".
Definition signed (b : ConfigBundle) (sig : string) : ConfigBundle :=
  MkBundle (BootstrapPublicKey b) (BootstrapEndpoint b) (MeshPort b) (RealityPublicKey b)
    (RealityShortID b) (RealityServerName b) (Collectors b) (KnownPeers b) (IssuedAt b) sig.

Definition signBundle (s : JoinServer) (b : ConfigBundle) : result Kx.identity_error string :=
  Kx.Sign ed_sign (ServerIdentity (cfg s)) (marshal_bundle (unsigned b)).

Definition buildBundle (s : JoinServer) (now : Z) : ConfigBundle :=
  let c := cfg s in
  let bundle := MkBundle (Kx.PublicKey (ServerIdentity c)) (c_BootstrapEndpoint c) (c_MeshPort c)
    (c_RealityPublicKey c) (c_RealityShortID c) (c_RealityServerName c) (c_Collectors c)
    (default [] (knownPeersFunc s)) (now / second) "" in
  match signBundle s bundle with
  | Ok sig => signed bundle sig
  | Err _ => bundle
  end.

Inductive bundle_error : Type := NoSignature | BadServerKey | BadSignatureEncoding | BundleForged.

Definition verifyBundleSignature (b : option ConfigBundle) (serverPubKeyHex : string) : option bundle_error :=
  match b with
  | None => Some NoSignature
  | Some b =>
      if String.eqb (b_Signature b) "" then Some NoSignature else
      match Kx.DecodeString serverPubKeyHex with
      | None => Some BadServerKey
      | Some pub =>
          if negb (len pub =? 32) then Some BadServerKey else
          match Kx.DecodeString (b_Signature b) with
          | None => Some BadSignatureEncoding
          | Some sig =>
              if ed_verify pub (marshal_bundle (unsigned b)) sig then None else Some BundleForged
          end
      end
  end.

Definition handleChallengeStep (s : JoinServer) (now : Z) (rand : option (list byte)) (req : JoinRequest)
    : JoinServer * reply :=
  match rand with
  | None => (s, fail 500 "internal error")
  | Some challenge =>
      let challengeHex := Kx.EncodeToString challenge in
      let m := <[challengeHex := MkEntry (JoinerPublicKey req) (now + challengeTTL)]> (challengeCache s) in
      (set_challenges s (filter (fun kv => ~ expiresAt kv.2 < now) m),
       Json 200 (MkResponse true "" None challengeHex))
  end.

Definition handleChallengeResponseStep (s : JoinServer) (now : Z) (req : JoinRequest) : JoinServer * reply :=
  match challengeCache s !! rq_Challenge req with
  | None => (s, fail 401 "challenge not found or expired")
  | Some entry =>
      let s := set_challenges s (delete (rq_Challenge req) (challengeCache s)) in
      if expiresAt entry <? now then (s, fail 401 "challenge expired") else
      if negb (String.eqb (JoinerPublicKey req) (joinerPubKey entry)) then (s, fail 401 "public key mismatch") else
      if verify_panics (JoinerPublicKey req) (ChallengeResponse req) then (s, Panicked) else
      if negb (Kx.Verify ed_verify (JoinerPublicKey req) (bytes_of_string (rq_Challenge req)) (ChallengeResponse req))
      then (s, fail 401 "challenge signature verification failed") else
      (s, Json 200 (MkResponse true "" (Some (buildBundle s now)) ""))
  end.

(** A request as it reaches the handler. *)
Record http_request : Type := MkHttp {
  h_now : Z; h_rand : option (list byte); Method : string; RemoteAddr : string;
  Body : result string (list byte)
}.

Definition handleJoin (s : JoinServer) (r : http_request) : JoinServer * reply :=
  let now := h_now r in
  if negb (String.eqb (Method r) "POST") then (s, HttpError 405 "method not allowed") else
  let '(s, allowed) := allowRequest s now (clientIP (RemoteAddr r)) in
  if negb allowed then (s, fail 429 "rate limit exceeded") else
  match Body r with
  | Err e => (s, fail 400 ("read body: " +:+ e)%string)
  | Ok body =>
      match unmarshal_request (take (Z.to_nat (64 * 1024)) body) with
      | Err e => (s, fail 400 ("parse request: " +:+ e)%string)
      | Ok req =>
          match ParseToken (rq_Token req) (Secret (cfg s)) now with
          | Err _ => (s, fail 401 "invalid token")
          | Ok token =>
              if negb (String.eqb (ServerFP token) "") &&
                 negb (String.eqb (ServerFP token) (Kx.PublicKey (ServerIdentity (cfg s))))
              then (s, fail 401 "token not issued for this server") else
              if String.eqb (ChallengeResponse req) "" then
                let '(rc, fresh) := CheckAndMark (replay s) now (Nonce token) (ExpiresAt token) in
                let s := set_replay s rc in
                if fresh then handleChallengeStep s now (h_rand r) req
                else (s, fail 401 "token already used")
              else handleChallengeResponseStep s now req
          end
      end
  end.

(** ** The client (client.go) *)

Record ClientConfig : Type := MkClient {
  ServerURL : string; cl_Token : string; cl_JoinerPublicKey : string; cl_JoinerHostname : string;
  cl_JoinerEndpoint : string; AllowUnsignedBundle : bool;
  JoinerSigner : option (list byte -> result Kx.identity_error string); AllowPlainHTTP : bool
}.

Inductive client_error : Type :=
| PlainHTTPRefused
| NoSigner
| RequestFailed (e : string)
| BadResponse
| Rejected (e : string)
| NoChallenge
| BundleInStep1
| SignFailed
| MissingBundle
| BundleRejected (e : bundle_error)
| CannotPin.

Definition startsWithHTTPS (url : string) : bool :=
  (8 <=? strlen url) && bool_decide (take 8 (bytes_of_string url) = bytes_of_string "https://").

Definition serverFPFromToken (token : string) : string :=
  match (match Base64.RawURL_DecodeString token with
         | Some data => Some data
         | None => Base64.Std_DecodeString token
         end) with
  | None => ""
  | Some data => match unmarshal_token data with Some t => ServerFP t | None => "" end
  end.

(** [post] sends the body of a request and gives the body of the answer. *)
Abbreviation post_fn := (list byte -> result string (list byte)).

Definition receive (post : post_fn) (body : list byte) : result client_error JoinResponse :=
  match post body with
  | Err e => Err (RequestFailed e)
  | Ok resp =>
      match unmarshal_response (take (Z.to_nat (2 ^ 20)) resp) with
      | None => Err BadResponse
      | Some r => if Success r then Ok r else Err (Rejected (Error r))
      end
  end.

Definition challenge_request (c : ClientConfig) : JoinRequest :=
  MkRequest (cl_Token c) (cl_JoinerPublicKey c) (cl_JoinerHostname c) (cl_JoinerEndpoint c) "" "".

Definition requestChallenge (c : ClientConfig) (post : post_fn) : result client_error string :=
  r ← receive post (marshal_request (challenge_request c));
  if String.eqb (Challenge r) "" then Err NoChallenge else
  match Bundle r with Some _ => Err BundleInStep1 | None => Ok (Challenge r) end.

Definition requestBundle (c : ClientConfig) (post : post_fn)
    (signer : list byte -> result Kx.identity_error string) (challenge : string)
    : result client_error ConfigBundle :=
  match signer (bytes_of_string challenge) with
  | Err _ => Err SignFailed
  | Ok sig =>
      r ← receive post (marshal_request
        (MkRequest (cl_Token c) (cl_JoinerPublicKey c) (cl_JoinerHostname c) (cl_JoinerEndpoint c) challenge sig));
      match Bundle r with
      | None => Err MissingBundle
      | Some b =>
          let fp := serverFPFromToken (cl_Token c) in
          if negb (String.eqb fp "") then
            match verifyBundleSignature (Some b) fp with
            | Some e => Err (BundleRejected e)
            | None => Ok b
            end
          else if negb (AllowUnsignedBundle c) then Err CannotPin else Ok b
      end
  end.

Definition RequestJoin (c : ClientConfig) (post1 post2 : post_fn) : result client_error ConfigBundle :=
  if negb (startsWithHTTPS (ServerURL c)) && negb (AllowPlainHTTP c) then Err PlainHTTPRefused else
  match JoinerSigner c with
  | None => Err NoSigner
  | Some signer =>
      challenge ← requestChallenge c post1;
      requestBundle c post2 signer challenge
  end.

(** ** Tokens that are read back *)

(** Printable ASCII, which JSON keeps. *)
Definition plain (s : string) : Prop :=
  Forall (fun b => 32 <= Z_of_byte b < 127) (bytes_of_string s).
Definition plain_token (t : Token) : Prop :=
  plain (Nonce t) /\ plain (ServerFP t) /\ plain (Signature t) /\ - 2 ^ 63 <= ExpiresAt t < 2 ^ 63 /\
  Version t = TokenVersion.
Hypothesis token_codec : forall t, plain_token t -> unmarshal_token (marshal_token t) = Some t.

Lemma base64_plain al pad src :
  Forall (fun v => 32 <= Z_of_byte (Base64.enc_char al v) < 127) (seqZ 0 64) ->
  plain (string_of_bytes (Base64.encode al pad src)).
Proof.
  intros Hal. unfold plain. rewrite bytes_of_string_of_bytes.
  assert (forall v, 0 <= v < 64 -> 32 <= Z_of_byte (Base64.enc_char al v) < 127) as Hc.
  { intros v Hv. eapply Forall_forall in Hal; [exact Hal|]. apply elem_of_seqZ. lia. }
  assert (32 <= Z_of_byte Base64.padChar < 127) as Hp by (vm_compute; done).
  induction src as [|x|x y|x y z src IH] using Base64.triple_ind.
  - constructor.
  - pose proof (Base64.sextets _ 0 0 (Z_of_byte_range x) ltac:(lia) ltac:(lia)) as ((H1 & H2) & _).
    destruct pad; repeat constructor; try apply Hc; try done; try apply Hp.
  - pose proof (Base64.sextets _ _ 0 (Z_of_byte_range x) (Z_of_byte_range y) ltac:(lia)) as ((H1 & _) & H3 & H4 & _).
    destruct pad; repeat constructor; try apply Hc; try done; try apply Hp.
  - pose proof (Base64.sextets _ _ _ (Z_of_byte_range x) (Z_of_byte_range y) (Z_of_byte_range z))
      as ((H1 & _) & H3 & _ & H5 & H6).
    cbn [Base64.encode]. repeat (apply Forall_cons_2; [by apply Hc|]). apply IH.
Qed.

Lemma Std_plain src : plain (Base64.Std_EncodeToString src).
Proof. apply base64_plain. repeat (apply Forall_cons_2; [vm_compute; done|]). apply Forall_nil_2. Qed.
Lemma RawURL_plain src : plain (Base64.RawURL_EncodeToString src).
Proof. apply base64_plain. repeat (apply Forall_cons_2; [vm_compute; done|]). apply Forall_nil_2. Qed.

Lemma hex_plain src : plain (Kx.EncodeToString src).
Proof.
  unfold plain, Kx.EncodeToString. rewrite bytes_of_string_of_bytes.
  assert (forall v, 0 <= v < 16 -> 32 <= Z_of_byte (Kx.hexDigit v) < 127) as Hc.
  { intros v Hv. assert (v ∈ seqZ 0 16) as Hin by (apply elem_of_seqZ; lia). clear Hv. revert v Hin.
    apply Forall_forall. repeat (apply Forall_cons_2; [vm_compute; done|]). apply Forall_nil_2. }
  induction src as [|x src IH]; [constructor|]. cbn [mbind list_bind app]. pose proof (Z_of_byte_range x).
  assert (0 <= Z_of_byte x / 16 < 16) by (split; [apply Z.div_pos | apply Z.div_lt_upper_bound]; lia).
  apply Forall_cons_2; [by apply Hc|]. apply Forall_cons_2; [apply Hc, Z.mod_pos_bound; lia | apply IH].
Qed.

Lemma ParseToken_generated secret serverFP lifetime now nonce raw :
  plain serverFP -> - 2 ^ 63 <= (now + lifetime) / second < 2 ^ 63 ->
  GenerateToken secret serverFP lifetime now (Some nonce) = Ok raw ->
  plain raw /\ serverFPFromToken raw = serverFP /\
  exists t, Version t = TokenVersion /\ ExpiresAt t = (now + lifetime) / second /\
    Nonce t = Base64.Std_EncodeToString nonce /\ ServerFP t = serverFP /\
    forall now', ParseToken raw secret now' =
      if (now + lifetime) / second <=? now' / second then Err ErrTokenExpired else Ok t.
Proof.
  intros Hfp Hexp [= <-]. set (t := MkToken _ _ _ _ (Kx.EncodeToString _)).
  assert (unmarshal_token (marshal_token t) = Some t) as Hcodec.
  { apply token_codec.
    by repeat (split; [first [apply Std_plain | apply hex_plain | exact Hfp | exact Hexp]|]). }
  split_and!; [apply RawURL_plain | unfold serverFPFromToken; by rewrite Base64.RawURL_roundtrip, Hcodec |].
  exists t. split_and!; [done..|]. intros now'. unfold ParseToken. rewrite Base64.RawURL_roundtrip, Hcodec.
  unfold t. cbn [Version ExpiresAt Nonce ServerFP Signature].
  change (negb (TokenVersion =? TokenVersion)) with false. cbv iota.
  rewrite Kx.DecodeString_EncodeToString. by rewrite bool_decide_true by done.
Qed.

(** A generated token is accepted by its server until it expires: the
    text that [GenerateToken] returns parses, with the same secret and at any
    later time, to the token with its expiry, nonce and fingerprint while the
    second of the expiry has not come, and to [ErrTokenExpired] from then on. *)
Theorem GenerateToken_ParseToken secret serverFP lifetime now nonce raw now' :
  plain serverFP -> - 2 ^ 63 <= (now + lifetime) / second < 2 ^ 63 ->
  GenerateToken secret serverFP lifetime now (Some nonce) = Ok raw ->
  let exp := (now + lifetime) / second in
  (now' / second < exp -> exists t, ParseToken raw secret now' = Ok t /\ Version t = TokenVersion /\
     ExpiresAt t = exp /\ Nonce t = Base64.Std_EncodeToString nonce /\ ServerFP t = serverFP) /\
  (exp <= now' / second -> ParseToken raw secret now' = Err ErrTokenExpired).
Proof.
  intros Hfp Hexp Hg. destruct (ParseToken_generated _ _ _ _ _ _ Hfp Hexp Hg)
    as (_ & _ & t & H1 & H2 & H3 & H4 & Hp). cbn zeta. rewrite Hp. split; intros H.
  - rewrite (proj2 (Z.leb_gt _ _)) by lia. by exists t.
  - by rewrite (proj2 (Z.leb_le _ _)) by lia.
Qed.

(** ** No token is used twice *)

Definition request_of (r : http_request) : option JoinRequest :=
  match Body r with
  | Ok body => match unmarshal_request (take (Z.to_nat (64 * 1024)) body) with Ok req => Some req | Err _ => None end
  | Err _ => None
  end.

(** The request is a first step with a valid token. *)
Definition first_step (secret : list byte) (r : http_request) (req : JoinRequest) (t : Token) : Prop :=
  request_of r = Some req /\ ChallengeResponse req = "" /\ ParseToken (rq_Token req) secret (h_now r) = Ok t.
Definition challenged (rep : reply) : Prop :=
  exists c, rep = Json 200 (MkResponse true "" None c).

(** A token is spent when the cache holds its nonce until its expiry, or it
    has expired. *)
Definition spent (nonce : string) (exp now : Z) (rc : ReplayCache) : Prop :=
  exp * second <= now \/ exists e, used rc !! nonce = Some e /\ exp * second <= e.

Lemma unexpired_lookup now m k e :
  unexpired now m !! k = Some e <-> m !! k = Some e /\ now <= e.
Proof. unfold unexpired. rewrite map_lookup_filter_Some. cbn. split; intros [? ?]; split; auto; lia. Qed.

Lemma spent_unexpired nonce exp now now' rc :
  now <= now' -> spent nonce exp now rc ->
  exp * second <= now' \/ exists e, unexpired now' (used rc) !! nonce = Some e /\ exp * second <= e.
Proof.
  intros Hle [H|(e & He & Hx)]; [left; lia|]. destruct (Z.leb_spec (exp * second) now') as [|Hlt]; [by left|].
  right. exists e. rewrite unexpired_lookup. split_and!; [done | lia | done].
Qed.

Lemma CheckAndMark_spent nonce exp now now' rc n x :
  now <= now' -> spent nonce exp now rc -> spent nonce exp now' (CheckAndMark rc now' n x).1.
Proof.
  intros Hle Hs. destruct (spent_unexpired _ _ _ _ _ Hle Hs) as [H|(e & He & Hx)]; [by left|].
  right. unfold CheckAndMark. destruct (unexpired now' (used rc) !! n) as [e'|] eqn:En; cbn [fst used]; [by exists e|].
  exists e. rewrite lookup_insert_ne; [done|]. intros ->. congruence.
Qed.

Lemma CheckAndMark_marks nonce exp now rc rc' :
  0 <= exp * second < 2 ^ 63 -> CheckAndMark rc now nonce exp = (rc', true) -> spent nonce exp now rc'.
Proof.
  intros Hr. unfold CheckAndMark. destruct (unexpired now (used rc) !! nonce) as [|]; [done|].
  intros [= <-]. right. cbn [used]. rewrite lookup_insert_eq. eexists. split; [done|].
  assert (i64 (exp * second) = exp * second) as -> by (unfold i64; rewrite Z.mod_small; lia).
  destruct (Z.ltb_spec (exp * second) (i64 (now + maxLifetime rc))); lia.
Qed.

Lemma allowRequest_replay s now ip :
  replay (allowRequest s now ip).1 = replay s /\ cfg (allowRequest s now ip).1 = cfg s.
Proof. unfold allowRequest. by repeat case_match. Qed.

Lemma second_step_replay s now req :
  replay (handleChallengeResponseStep s now req).1 = replay s /\
  cfg (handleChallengeResponseStep s now req).1 = cfg s.
Proof. unfold handleChallengeResponseStep. by repeat case_match. Qed.

Lemma first_step_replay s now rand req :
  replay (handleChallengeStep s now rand req).1 = replay s /\
  cfg (handleChallengeStep s now rand req).1 = cfg s.
Proof. unfold handleChallengeStep. by repeat case_match. Qed.

(** What one request does to the cache. *)
Lemma handleJoin_replay s r :
  cfg (handleJoin s r).1 = cfg s /\
  (replay (handleJoin s r).1 = replay s \/
   exists req t, first_step (Secret (cfg s)) r req t /\
     replay (handleJoin s r).1 = (CheckAndMark (replay s) (h_now r) (Nonce t) (ExpiresAt t)).1 /\
     ((CheckAndMark (replay s) (h_now r) (Nonce t) (ExpiresAt t)).2 = false -> (handleJoin s r).2 = fail 401 "token already used")).
Proof.
  unfold handleJoin. destruct (negb (String.eqb (Method r) "POST")); [auto|].
  destruct (allowRequest s (h_now r) (clientIP (RemoteAddr r))) as [s1 ok] eqn:Ea.
  pose proof (allowRequest_replay s (h_now r) (clientIP (RemoteAddr r))) as [Hr Hc]. rewrite Ea in Hr, Hc.
  cbn [fst] in Hr, Hc. rewrite <-Hr, <-Hc. destruct (negb ok); [auto|].
  destruct (Body r) as [body|] eqn:Eb; [|auto]. destruct (unmarshal_request _) as [req|] eqn:Er; [|auto].
  destruct (ParseToken (rq_Token req) (Secret (cfg s1)) (h_now r)) as [t|] eqn:Et; [|auto].
  destruct (_ && _); [auto|]. destruct (String.eqb_spec (ChallengeResponse req) "") as [Ecr|].
  - destruct (CheckAndMark _ _ _ _) as [rc fresh] eqn:Ecm.
    assert (first_step (Secret (cfg s1)) r req t) as Hfs.
    { unfold first_step, request_of. by rewrite Eb, Er. }
    destruct fresh.
    + pose proof (first_step_replay (set_replay s1 rc) (h_now r) (h_rand r) req) as [H1 H2].
      rewrite H1, H2. split; [done|]. right. exists req, t. by rewrite Ecm.
    + split; [done|]. right. exists req, t. by rewrite Ecm.
  - pose proof (second_step_replay s1 (h_now r) req) as [-> ->]. auto.
Qed.

Lemma handleJoin_spent s r nonce exp now :
  now <= h_now r -> spent nonce exp now (replay s) -> spent nonce exp (h_now r) (replay (handleJoin s r).1).
Proof.
  intros Hle Hs. destruct (handleJoin_replay s r) as (_ & [-> |(req & t & _ & -> & _)]).
  - destruct Hs as [H|H]; [left; lia | by right].
  - by apply (CheckAndMark_spent _ _ now).
Qed.

Definition serve (s : JoinServer) (rs : list http_request) : JoinServer :=
  foldl (fun s r => (handleJoin s r).1) s rs.

(** Requests in the order of a clock that does not go back. *)
Fixpoint clocked (now : Z) (rs : list http_request) : Prop :=
  match rs with
  | [] => True
  | r :: rs => now <= h_now r /\ clocked (h_now r) rs
  end.

Lemma serve_spent rs : forall s nonce exp now,
  clocked now rs -> spent nonce exp now (replay s) ->
  spent nonce exp (List.last (h_now <$> rs) now) (replay (serve s rs)) /\ cfg (serve s rs) = cfg s.
Proof.
  induction rs as [|r rs IH]; intros s nonce exp now Hc Hs; [done|]. destruct Hc as [Hle Hc].
  pose proof (handleJoin_spent s r nonce exp now Hle Hs) as Hs1.
  destruct (IH _ _ _ _ Hc Hs1) as [H1 H2]. cbn [serve foldl]. split.
  - destruct rs as [|r2 rs]; [exact H1|]. change (List.last (h_now <$> r :: r2 :: rs) now)
      with (List.last (h_now <$> r2 :: rs) now).
    replace (List.last (h_now <$> r2 :: rs) now) with (List.last (h_now <$> r2 :: rs) (h_now r)); [exact H1|].
    clear. revert r2. induction rs as [|r3 rs IH]; intros r2; [done|]. apply (IH r3).
  - rewrite <-(proj1 (handleJoin_replay s r)). exact H2.
Qed.

(** A token opens one join: once the server has answered a first step
    with a challenge, no later first step with the same nonce and expiry is
    answered with one, whatever requests come in between and however many;
    the clock must not go back and the expiry must fit the 64 bits of its
    nanoseconds. *)
Theorem join_token_single_use s r req t rs r' req' t' :
  first_step (Secret (cfg s)) r req t -> challenged (handleJoin s r).2 ->
  0 <= ExpiresAt t * second < 2 ^ 63 ->
  clocked (h_now r) (rs ++ [r']) ->
  first_step (Secret (cfg s)) r' req' t' -> Nonce t' = Nonce t -> ExpiresAt t' = ExpiresAt t ->
  ~ challenged (handleJoin (serve (handleJoin s r).1 rs) r').2.
Proof.
  intros Hfs (c & Hch) Hexp Hclk Hfs' Hn He.
  assert (forall s r req t, first_step (Secret (cfg s)) r req t -> challenged (handleJoin s r).2 ->
    exists rc, CheckAndMark (replay s) (h_now r) (Nonce t) (ExpiresAt t) = (rc, true) /\
      replay (handleJoin s r).1 = rc) as Hacc.
  { clear. intros s r req t (Hreq & Hcr & Ht) (c & Hch). revert Hch. unfold handleJoin, request_of in *.
    destruct (negb (String.eqb (Method r) "POST")); [done|].
    destruct (allowRequest s (h_now r) (clientIP (RemoteAddr r))) as [s1 ok] eqn:Ea.
    pose proof (allowRequest_replay s (h_now r) (clientIP (RemoteAddr r))) as [Hr Hc]. rewrite Ea in Hr, Hc.
    cbn [fst] in Hr, Hc. destruct (negb ok); [done|]. destruct (Body r) as [body|]; [|done].
    destruct (unmarshal_request _) as [req1|]; [|done]. injection Hreq as ->. rewrite Hc, Ht.
    destruct (_ && _); [done|]. rewrite Hcr, Hr. cbn [String.eqb].
    destruct (CheckAndMark _ _ _ _) as [rc fresh]. destruct fresh; [|done]. intros _.
    exists rc. by destruct (first_step_replay (set_replay s1 rc) (h_now r) (h_rand r) req) as [-> _]. }
  destruct (Hacc _ _ _ _ Hfs (ex_intro _ c Hch)) as (rc & Hm & Hrc).
  pose proof (CheckAndMark_marks _ _ _ _ _ Hexp Hm) as Hsp. rewrite <-Hrc in Hsp.
  assert (clocked (h_now r) rs /\ List.last (h_now <$> rs) (h_now r) <= h_now r') as [Hclk1 Hlast].
  { clear -Hclk. revert Hclk. generalize (h_now r). induction rs as [|r1 rs IH]; intros n; cbn [app clocked].
    - intros [? _]. done.
    - intros [H1 H2]. destruct (IH _ H2) as [H3 H4]. split; [done|].
      destruct rs as [|r2 rs]; [exact H4|].
      replace (List.last (h_now <$> r1 :: r2 :: rs) n) with (List.last (h_now <$> r2 :: rs) (h_now r1)); [done|].
      clear. cbn [fmap list_fmap]. change (List.last (h_now r1 :: h_now r2 :: (h_now <$> rs)) n)
        with (List.last (h_now r2 :: (h_now <$> rs)) n).
      generalize (h_now r2). induction (h_now <$> rs) as [|z l IH]; intros y; [done|]. apply (IH z). }
  destruct (serve_spent rs _ _ _ _ Hclk1 Hsp) as [Hsp2 Hcfg].
  rewrite (proj1 (handleJoin_replay s r)) in Hcfg. rewrite <-Hcfg in Hfs'.
  intros Hch'. destruct (Hacc _ _ _ _ Hfs' Hch') as (rc' & Hm' & _).
  destruct (spent_unexpired _ _ _ _ _ Hlast Hsp2) as [Hx|(e & Hlook & _)].
  - destruct Hfs' as (_ & _ & Hp). unfold ParseToken in Hp. repeat case_match; try discriminate.
    injection Hp as ->. to_prop. unfold second in *. rewrite He in *.
    pose proof (Z.div_le_mono (ExpiresAt t * 10 ^ 9) (h_now r') (10 ^ 9) ltac:(lia) Hx) as Hd.
    rewrite Z.div_mul in Hd by lia. lia.
  - unfold CheckAndMark in Hm'. rewrite Hn, Hlook in Hm'. done.
Qed.

(** ** Bundles go to the owners of keys *)

(** Where a challenge in the cache comes from. *)
Definition issued (secret : list byte) (k : string) (e : challengeEntry) (r : http_request) : Prop :=
  exists req t ch, first_step secret r req t /\ h_rand r = Some ch /\ k = Kx.EncodeToString ch /\
    joinerPubKey e = JoinerPublicKey req /\ expiresAt e = h_now r + challengeTTL.

Lemma allowRequest_challenges s now ip :
  challengeCache (allowRequest s now ip).1 = challengeCache s.
Proof. unfold allowRequest. by repeat case_match. Qed.

Lemma handleJoin_challenges s r k e :
  challengeCache (handleJoin s r).1 !! k = Some e ->
  challengeCache s !! k = Some e \/ issued (Secret (cfg s)) k e r.
Proof.
  unfold handleJoin. destruct (negb (String.eqb (Method r) "POST")); [auto|].
  destruct (allowRequest s (h_now r) (clientIP (RemoteAddr r))) as [s1 ok] eqn:Ea.
  pose proof (allowRequest_replay s (h_now r) (clientIP (RemoteAddr r))) as [_ Hc].
  pose proof (allowRequest_challenges s (h_now r) (clientIP (RemoteAddr r))) as Hch.
  rewrite Ea in Hc, Hch. cbn [fst] in Hc, Hch. rewrite <-Hch, <-Hc. destruct (negb ok); [auto|].
  destruct (Body r) as [body|] eqn:Eb; [|auto]. destruct (unmarshal_request _) as [req|] eqn:Er; [|auto].
  destruct (ParseToken (rq_Token req) (Secret (cfg s1)) (h_now r)) as [t|] eqn:Et; [|auto].
  destruct (_ && _); [auto|]. destruct (String.eqb_spec (ChallengeResponse req) "") as [Ecr|].
  - destruct (CheckAndMark _ _ _ _) as [rc [|]]; [|auto]. unfold handleChallengeStep.
    destruct (h_rand r) as [ch|] eqn:Eh; [|auto]. cbn [fst set_challenges challengeCache set_replay].
    intros [Hk _]%map_lookup_filter_Some. apply lookup_insert_Some in Hk as [[<- <-]|[_ Hk]]; [right|by left].
    exists req, t, ch. unfold first_step, request_of. rewrite Eb, Er. by split_and!.
  - unfold handleChallengeResponseStep. destruct (challengeCache s1 !! rq_Challenge req); [|auto].
    intros Hk. left. revert Hk. repeat case_match; cbn [fst set_challenges challengeCache];
      intros Hk; by apply lookup_delete_Some in Hk as [_ Hk].
Qed.

Lemma serve_challenges rs : forall s k e,
  challengeCache (serve s rs) !! k = Some e ->
  challengeCache s !! k = Some e \/ exists r, r ∈ rs /\ issued (Secret (cfg s)) k e r.
Proof.
  induction rs as [|r rs IH]; intros s k e Hk; [by left|]. cbn [serve foldl] in Hk.
  destruct (IH _ _ _ Hk) as [H|(r0 & Hin & Hi)].
  - destruct (handleJoin_challenges _ _ _ _ H) as [|Hi]; [by left|]. right. exists r. split; [left | done].
  - right. exists r0. rewrite (proj1 (handleJoin_replay s r)) in Hi. split; [by right | done].
Qed.

Lemma serve_cfg rs : forall s, cfg (serve s rs) = cfg s.
Proof.
  induction rs as [|r rs IH]; intros s; [done|]. cbn [serve foldl].
  etransitivity; [apply (IH (handleJoin s r).1) | apply handleJoin_replay].
Qed.

(** C28. The configuration is given only to the owner of a key with a valid
    token: when the server answers with a bundle, the request carries a valid
    token of this server, an earlier first step with a valid token claimed
    the same public key, its challenge was drawn by the server then, is the
    one of the request and not older than a minute, and the response is a
    signature of that challenge under the claimed key; the challenge is then
    used up. *)
Theorem join_bundle_authorised c rs r b :
  let s := serve (NewJoinServer c) rs in
  (handleJoin s r).2 = Json 200 (MkResponse true "" (Some b) "") ->
  exists req t r0 req0 t0 ch, request_of r = Some req /\
    ParseToken (rq_Token req) (Secret c) (h_now r) = Ok t /\
    (ServerFP t = "" \/ ServerFP t = Kx.PublicKey (ServerIdentity c)) /\
    r0 ∈ rs /\ first_step (Secret c) r0 req0 t0 /\ h_rand r0 = Some ch /\
    rq_Challenge req = Kx.EncodeToString ch /\ JoinerPublicKey req = JoinerPublicKey req0 /\
    h_now r <= h_now r0 + challengeTTL /\
    Kx.Verify ed_verify (JoinerPublicKey req) (bytes_of_string (rq_Challenge req)) (ChallengeResponse req) = true /\
    challengeCache (handleJoin s r).1 !! rq_Challenge req = None.
Proof.
  cbn zeta. set (s := serve (NewJoinServer c) rs). unfold request_of.
  assert (cfg s = cfg (NewJoinServer c)) as Hcfg by apply serve_cfg.
  assert (forall k e, challengeCache s !! k = Some e -> exists r, r ∈ rs /\ issued (Secret c) k e r) as Hiss.
  { intros k e Hk. destruct (serve_challenges rs _ _ _ Hk) as [H|]; [|done].
    cbn [NewJoinServer challengeCache] in H. by rewrite lookup_empty in H. }
  clearbody s. unfold handleJoin. destruct (negb (String.eqb (Method r) "POST")); [done|].
  destruct (allowRequest s (h_now r) (clientIP (RemoteAddr r))) as [s1 ok] eqn:Ea.
  pose proof (allowRequest_replay s (h_now r) (clientIP (RemoteAddr r))) as [_ Hc].
  pose proof (allowRequest_challenges s (h_now r) (clientIP (RemoteAddr r))) as Hch.
  rewrite Ea in Hc, Hch. cbn [fst] in Hc, Hch. rewrite Hcfg in Hc. rewrite <-Hch in Hiss.
  destruct (negb ok); [done|]. destruct (Body r) as [body|]; [|done].
  destruct (unmarshal_request _) as [req|]; [|done]. rewrite Hc.
  change (Secret (cfg (NewJoinServer c))) with (Secret c).
  change (ServerIdentity (cfg (NewJoinServer c))) with (ServerIdentity c).
  destruct (ParseToken (rq_Token req) (Secret c) (h_now r)) as [t|] eqn:Et; [|done].
  destruct (negb (String.eqb (ServerFP t) "") && _) eqn:Efp; [done|].
  destruct (String.eqb_spec (ChallengeResponse req) "") as [Ecr|].
  { destruct (CheckAndMark _ _ _ _) as [rc [|]]; [|done]. unfold handleChallengeStep. by destruct (h_rand r). }
  unfold handleChallengeResponseStep. destruct (challengeCache s1 !! rq_Challenge req) as [e|] eqn:Ee; [|done].
  destruct (Z.ltb_spec (expiresAt e) (h_now r)) as [|Hexp]; [done|].
  destruct (String.eqb_spec (JoinerPublicKey req) (joinerPubKey e)) as [Hpk|]; [|done].
  destruct (verify_panics _ _); [done|]. destruct (Kx.Verify _ _ _ _) eqn:Ev; [|done]. intros _.
  destruct (Hiss _ _ Ee) as (r0 & Hin & req0 & t0 & ch & Hfs & Hr & Hk & Hj & Hx).
  exists req, t, r0, req0, t0, ch. split_and!; try done.
  - apply andb_false_iff in Efp as [H|H]; apply negb_false_iff, String.eqb_eq in H; auto.
  - congruence.
  - lia.
  - cbn. apply lookup_delete_eq.
Qed.

(** ** Tokens whose signature does not say where the nonce ends *)

Definition shifted (t : Token) : Token :=
  MkToken (Version t) (ExpiresAt t) (Nonce t +:+ ServerFP t)%string "" (Signature t).

Lemma shifted_material t : signingMaterial (shifted t) = signingMaterial t.
Proof.
  unfold signingMaterial. cbn [shifted Version ExpiresAt Nonce ServerFP].
  by rewrite bytes_of_string_app, app_nil_r.
Qed.

(** A used token can be presented as a fresh one: the signature covers
    the nonce and the fingerprint without a separator, so that from any valid
    token of a server with a fingerprint anyone, without the secret, makes
    another that is valid as well and has another nonce and no fingerprint. *)
Theorem join_token_malleable secret now raw t :
  ParseToken raw secret now = Ok t -> plain_token t -> ServerFP t <> "" ->
  exists raw', ParseToken raw' secret now = Ok (shifted t) /\
    Nonce (shifted t) <> Nonce t /\ ServerFP (shifted t) = "".
Proof.
  intros Hp Hpl Hfp. exists (Base64.RawURL_EncodeToString (marshal_token (shifted t))). split_and!; [|..|done].
  - unfold ParseToken in *. rewrite Base64.RawURL_roundtrip. rewrite token_codec.
    2:{ destruct Hpl as (H1 & H2 & H3 & H4). refine (conj _ (conj _ (conj H3 H4))); [|constructor].
        unfold plain. change (Nonce (shifted t)) with (Nonce t +:+ ServerFP t)%string.
        rewrite bytes_of_string_app. by apply Forall_app_2. }
    rewrite shifted_material. cbn [shifted Version Signature ExpiresAt].
    repeat case_hyp Hp; try discriminate. apply Ok_inj in Hp as ->.
    by repeat match goal with H : ?x = _ |- context [match ?x with _ => _ end] => rewrite H end.
  - cbn [shifted Nonce]. intros H. apply Hfp. apply (f_equal bytes_of_string) in H. rewrite bytes_of_string_app in H.
    rewrite <-(app_nil_r (bytes_of_string (Nonce t))) in H at 2. apply app_inv_head in H.
    apply (f_equal string_of_bytes) in H. by rewrite string_of_bytes_of_string in H.
Qed.

(** ** A whole join *)

Definition plain_request (r : JoinRequest) : Prop :=
  Forall plain [rq_Token r; JoinerPublicKey r; JoinerHostname r; JoinerEndpoint r; rq_Challenge r; ChallengeResponse r].
Definition plain_bundle (b : ConfigBundle) : Prop :=
  Forall plain ([BootstrapPublicKey b; BootstrapEndpoint b; RealityPublicKey b; RealityShortID b;
    RealityServerName b; b_Signature b] ++ Collectors b) /\
  - 2 ^ 63 <= MeshPort b < 2 ^ 63 /\ - 2 ^ 63 <= IssuedAt b < 2 ^ 63 /\
  Forall (fun p => Forall plain [pi_PublicKey p; pi_Hostname p; pi_Role p; pi_Endpoint p]) (KnownPeers b).
Definition plain_response (r : JoinResponse) : Prop :=
  plain (Error r) /\ plain (Challenge r) /\ match Bundle r with Some b => plain_bundle b | None => True end.
Hypothesis request_codec : forall r, plain_request r -> unmarshal_request (marshal_request r) = Ok r.
Hypothesis response_codec : forall r, plain_response r -> unmarshal_response (marshal_response r) = Some r.

Context (ed_public : list byte -> list byte).
Hypothesis ed_verify_sign : forall priv data,
  length priv = 64%nat -> ed_verify (ed_public priv) data (ed_sign priv data) = true.
Hypothesis ed_public_length : forall priv, length priv = 64%nat -> length (ed_public priv) = 32%nat.
Hypothesis ed_sign_length : forall priv data, length priv = 64%nat -> length (ed_sign priv data) = 64%nat.

(** The client's posts answered by the handler of a server. *)
Definition post_request (now : Z) (rand : option (list byte)) (addr : string) (body : list byte) : http_request :=
  MkHttp now rand "POST" addr (Ok body).
Definition server_post (s : JoinServer) (now : Z) (rand : option (list byte)) (addr : string) : post_fn :=
  fun body =>
    match (handleJoin s (post_request now rand addr body)).2 with
    | Json _ resp => Ok (marshal_response resp)
    | _ => Err "EOF"%string
    end.

Lemma hex_nonempty b : b <> [] -> String.eqb (Kx.EncodeToString b) "" = false.
Proof.
  intros Hb. apply String.eqb_neq. intros E. apply Hb. apply (Kx.EncodeToString_inj b []). exact E.
Qed.

Lemma Sign_generated priv data : length priv = 64%nat ->
  Kx.Sign ed_sign (Kx.GenerateIdentity ed_public priv) data = Ok (Kx.EncodeToString (ed_sign priv data)).
Proof.
  intros Hp. unfold Kx.Sign. cbn [Kx.GenerateIdentity Kx.PrivateKey].
  by rewrite Kx.DecodeString_EncodeToString, Hp.
Qed.

Lemma Verify_generated priv data : length priv = 64%nat ->
  Kx.Verify ed_verify (Kx.EncodeToString (ed_public priv)) data (Kx.EncodeToString (ed_sign priv data)) = true.
Proof. intros Hp. unfold Kx.Verify. rewrite !Kx.DecodeString_EncodeToString. by apply ed_verify_sign. Qed.

Lemma verify_panics_generated priv sig : length priv = 64%nat ->
  verify_panics (Kx.EncodeToString (ed_public priv)) sig = false.
Proof.
  intros Hp. unfold verify_panics. rewrite Kx.DecodeString_EncodeToString, ed_public_length by done.
  by destruct (Kx.DecodeString sig).
Qed.

(** The bundle of a server with a generated identity passes the check of a
    client that pins the identity. *)
Lemma buildBundle_pinned s now priv :
  length priv = 64%nat -> ServerIdentity (cfg s) = Kx.GenerateIdentity ed_public priv ->
  verifyBundleSignature (Some (buildBundle s now)) (Kx.EncodeToString (ed_public priv)) = None.
Proof.
  intros Hp Hid. unfold buildBundle, signBundle. rewrite Hid, Sign_generated by done.
  unfold verifyBundleSignature. cbn [signed b_Signature]. rewrite hex_nonempty.
  2:{ intros E. pose proof (ed_sign_length priv (marshal_bundle (unsigned (MkBundle
        (Kx.PublicKey (Kx.GenerateIdentity ed_public priv)) (c_BootstrapEndpoint (cfg s)) (c_MeshPort (cfg s))
        (c_RealityPublicKey (cfg s)) (c_RealityShortID (cfg s)) (c_RealityServerName (cfg s))
        (c_Collectors (cfg s)) (default [] (knownPeersFunc s)) (now / second) ""))) Hp) as Hl.
      by rewrite E in Hl. }
  rewrite !Kx.DecodeString_EncodeToString, ed_public_length by done.
  change (negb (Z.of_nat 32 =? 32)) with false. cbv iota. unfold unsigned. cbn. by rewrite ed_verify_sign.
Qed.

Lemma receive_ok post body r :
  post body = Ok (marshal_response r) -> plain_response r -> len (marshal_response r) <= 2 ^ 20 ->
  Success r = true -> receive post body = Ok r.
Proof.
  intros Hp Hpl Hl Hs. unfold receive. rewrite Hp, take_ge by lia. by rewrite response_codec, Hs.
Qed.

(** The first step of a token that was not seen, and the second step. *)
Lemma allowRequest_known s now ip :
  knownPeersFunc (allowRequest s now ip).1 = knownPeersFunc s.
Proof. unfold allowRequest. by repeat case_match. Qed.

Lemma buildBundle_ext s s' now :
  cfg s = cfg s' -> knownPeersFunc s = knownPeersFunc s' -> buildBundle s now = buildBundle s' now.
Proof. intros Hc Hk. unfold buildBundle, signBundle. by rewrite Hc, Hk. Qed.

(** The first request of the client is [challenge_request]; the second
    carries the challenge and its signature. *)
Definition answer_request (cl : ClientConfig) (challenge sig : string) : JoinRequest :=
  MkRequest (cl_Token cl) (cl_JoinerPublicKey cl) (cl_JoinerHostname cl) (cl_JoinerEndpoint cl) challenge sig.

Lemma handleJoin_first c now ch addr req t :
  unmarshal_request (take (Z.to_nat (64 * 1024)) (marshal_request req)) = Ok req ->
  ParseToken (rq_Token req) (Secret c) now = Ok t ->
  ServerFP t = Kx.PublicKey (ServerIdentity c) -> ChallengeResponse req = "" ->
  let out := handleJoin (NewJoinServer c) (post_request now (Some ch) addr (marshal_request req)) in
  out.2 = Json 200 (MkResponse true "" None (Kx.EncodeToString ch)) /\
  cfg out.1 = cfg (NewJoinServer c) /\ knownPeersFunc out.1 = None /\
  rateLimit out.1 = {[clientIP addr := MkBucket 1 now]} /\
  challengeCache out.1 !! Kx.EncodeToString ch = Some (MkEntry (JoinerPublicKey req) (now + challengeTTL)).
Proof.
  intros Hu Ht Hfp Hcr. cbn zeta. unfold handleJoin, post_request. cbn [h_now h_rand Method RemoteAddr Body].
  unfold allowRequest. cbn [NewJoinServer rateLimit String.eqb Ascii.eqb Bool.eqb negb].
  change (1000 <? Z.of_nat (size ∅)) with false. cbv iota. rewrite lookup_empty. cbn [negb].
  cbn [set_rate cfg replay]. rewrite Hu. cbn [NewJoinServer cfg replay Secret ServerIdentity]. rewrite Ht, Hfp, String.eqb_refl.
  cbn [negb]. rewrite andb_false_r, Hcr. cbn [String.eqb].
  unfold CheckAndMark. cbn [NewReplayCache used]. unfold unexpired at 1. rewrite map_filter_empty, lookup_empty.
  unfold handleChallengeStep. cbn [fst snd set_challenges set_replay cfg rateLimit challengeCache].
  split_and!; [done..|]. apply map_lookup_filter_Some. rewrite lookup_insert_eq.
  split; [done|]. cbn. unfold challengeTTL, second. lia.
Qed.

Lemma handleJoin_second s now addr req t e :
  unmarshal_request (take (Z.to_nat (64 * 1024)) (marshal_request req)) = Ok req ->
  ParseToken (rq_Token req) (Secret (cfg s)) now = Ok t ->
  ServerFP t = Kx.PublicKey (ServerIdentity (cfg s)) -> ChallengeResponse req <> "" ->
  (allowRequest s now (clientIP addr)).2 = true ->
  challengeCache s !! rq_Challenge req = Some e -> now <= expiresAt e -> joinerPubKey e = JoinerPublicKey req ->
  verify_panics (JoinerPublicKey req) (ChallengeResponse req) = false ->
  Kx.Verify ed_verify (JoinerPublicKey req) (bytes_of_string (rq_Challenge req)) (ChallengeResponse req) = true ->
  (handleJoin s (post_request now None addr (marshal_request req))).2 =
    Json 200 (MkResponse true "" (Some (buildBundle s now)) "").
Proof.
  intros Hu Ht Hfp Hcr Hal He Hnow Hpk Hvp Hv. unfold handleJoin, post_request.
  cbn [h_now h_rand Method RemoteAddr Body String.eqb Ascii.eqb Bool.eqb negb].
  destruct (allowRequest s now (clientIP addr)) as [s1 ok] eqn:Ea. cbn [snd] in Hal. subst ok.
  pose proof (allowRequest_replay s now (clientIP addr)) as [_ Hc].
  pose proof (allowRequest_challenges s now (clientIP addr)) as Hch.
  pose proof (allowRequest_known s now (clientIP addr)) as Hk.
  rewrite Ea in Hc, Hch, Hk. cbn [fst] in Hc, Hch, Hk. rewrite <-Hc in Ht, Hfp. rewrite <-Hch in He.
  cbn [negb]. rewrite Hu, Ht, Hfp, String.eqb_refl. cbn [negb]. rewrite andb_false_r.
  rewrite (proj2 (String.eqb_neq _ _) Hcr). unfold handleChallengeResponseStep. rewrite He.
  rewrite (proj2 (Z.ltb_ge _ _)), Hpk, String.eqb_refl by lia. cbn [negb]. rewrite Hvp, Hv. cbn [negb snd].
  by rewrite (buildBundle_ext (set_challenges s1 _) s now Hc Hk).
Qed.

(** A join that nobody disturbs succeeds: a client that holds a generated
    token, owns its key and reaches a fresh server twice, at times before the
    token expires and within a minute of each other, ends with the bundle the
    server built, verified against the server's key that the token pins. The
    messages must fit the limits on their size and the texts of the
    configuration be printable. *)
Theorem join_end_to_end c cl priv privJ lifetime now0 nonce raw now1 now2 ch addr :
  length priv = 64%nat -> ServerIdentity c = Kx.GenerateIdentity ed_public priv ->
  - 2 ^ 63 <= (now0 + lifetime) / second < 2 ^ 63 ->
  GenerateToken (Secret c) (Kx.EncodeToString (ed_public priv)) lifetime now0 (Some nonce) = Ok raw ->
  now1 / second < (now0 + lifetime) / second -> now2 / second < (now0 + lifetime) / second ->
  now1 <= now2 <= now1 + minute -> MaxJoinRequests c = 0 \/ 2 <= MaxJoinRequests c ->
  length privJ = 64%nat -> cl_JoinerPublicKey cl = Kx.EncodeToString (ed_public privJ) ->
  JoinerSigner cl = Some (Kx.Sign ed_sign (Kx.GenerateIdentity ed_public privJ)) ->
  cl_Token cl = raw -> startsWithHTTPS (ServerURL cl) = true ->
  plain (cl_JoinerHostname cl) -> plain (cl_JoinerEndpoint cl) -> ch <> [] ->
  let sig := Kx.EncodeToString (ed_sign privJ (bytes_of_string (Kx.EncodeToString ch))) in
  let b := buildBundle (NewJoinServer c) now2 in
  len (marshal_request (challenge_request cl)) <= 64 * 1024 ->
  len (marshal_request (answer_request cl (Kx.EncodeToString ch) sig)) <= 64 * 1024 ->
  len (marshal_response (MkResponse true "" None (Kx.EncodeToString ch))) <= 2 ^ 20 ->
  len (marshal_response (MkResponse true "" (Some b) "")) <= 2 ^ 20 -> plain_bundle b ->
  let step1 := (handleJoin (NewJoinServer c) (post_request now1 (Some ch) addr (marshal_request (challenge_request cl)))).1 in
  RequestJoin cl (server_post (NewJoinServer c) now1 (Some ch) addr) (server_post step1 now2 None addr) = Ok b /\
  verifyBundleSignature (Some b) (Kx.EncodeToString (ed_public priv)) = None.
Proof.
  intros Hp Hid Hexp Hg Hn1 Hn2 Hn12 Hmax HpJ Hpk Hsig Htok Hurl Hh He Hch sig b Hq1 Hq2 Hs1 Hs2 Hbun. cbn zeta.
  destruct (ParseToken_generated _ _ _ _ _ _ (hex_plain _) Hexp Hg)
    as (Hraw & Hfp & t & _ & _ & _ & Htfp & Hparse).
  assert (plain "") as Hempty by constructor.
  assert (forall challenge sig, plain challenge -> plain sig ->
    len (marshal_request (answer_request cl challenge sig)) <= 64 * 1024 ->
    unmarshal_request (take (Z.to_nat (64 * 1024)) (marshal_request (answer_request cl challenge sig)))
    = Ok (answer_request cl challenge sig)) as Hcodec.
  { intros challenge sig' Hc1 Hsg Hlen. rewrite take_ge by lia.
    apply request_codec. unfold plain_request, answer_request. cbn [rq_Token JoinerPublicKey JoinerHostname
      JoinerEndpoint rq_Challenge ChallengeResponse]. rewrite Htok, Hpk. repeat constructor; try done; apply hex_plain. }
  pose proof (handleJoin_first c now1 ch addr (challenge_request cl) t) as H1. cbn zeta in H1.
  destruct H1 as (Hr1 & Hc1 & Hk1 & Hrate & Hcache); [by apply Hcodec | | by rewrite Htfp, Hid | done |].
  { cbn [challenge_request rq_Token]. rewrite Htok, Hparse. by rewrite (proj2 (Z.leb_gt _ _)) by lia. }
  set (s1 := (handleJoin (NewJoinServer c) _).1) in *.
  assert (sig <> "") as Hsne.
  { apply String.eqb_neq, hex_nonempty. intros E.
    pose proof (ed_sign_length privJ (bytes_of_string (Kx.EncodeToString ch)) HpJ) as Hl. by rewrite E in Hl. }
  pose proof (handleJoin_second s1 now2 addr (answer_request cl (Kx.EncodeToString ch) sig) t
    (MkEntry (cl_JoinerPublicKey cl) (now1 + challengeTTL))) as Hr2.
  rewrite Hc1 in Hr2. cbn [answer_request rq_Token rq_Challenge JoinerPublicKey ChallengeResponse] in Hr2.
  rewrite Htok, Hparse, Hpk, (proj2 (Z.leb_gt _ _)) in Hr2 by lia.
  rewrite (buildBundle_ext s1 (NewJoinServer c) now2 Hc1 Hk1) in Hr2.
  specialize (Hr2 (Hcodec _ _ (hex_plain _) (hex_plain _) Hq2) eq_refl).
  assert (verifyBundleSignature (Some b) (Kx.EncodeToString (ed_public priv)) = None) as Hver
    by by apply buildBundle_pinned.
  split; [|done]. unfold RequestJoin. rewrite Hurl, Hsig. cbn [negb andb].
  unfold requestChallenge. rewrite (receive_ok _ _ (MkResponse true "" None (Kx.EncodeToString ch)));
    [|unfold server_post; by rewrite Hr1 | by split_and!; [..|apply hex_plain|] | done | done].
  cbn [mbind result_bind Challenge Bundle]. rewrite hex_nonempty by done. cbn [mbind result_bind].
  unfold requestBundle. rewrite Sign_generated by done. fold sig.
  rewrite (receive_ok _ _ (MkResponse true "" (Some b) ""));
    [|unfold server_post; fold (answer_request cl (Kx.EncodeToString ch) sig); rewrite Hr2; [done|..]
     | by split_and! | done | done].
  - cbn [mbind result_bind Bundle]. rewrite Htok, Hfp, hex_nonempty, Hver; [done|].
    intros E. pose proof (ed_public_length priv Hp) as Hl. by rewrite E in Hl.
  - rewrite Htfp. change (ServerIdentity (cfg (NewJoinServer c))) with (ServerIdentity c). by rewrite Hid.
  - done.
  - unfold allowRequest. rewrite Hrate, Hc1.
    rewrite (proj2 (Z.ltb_ge 1000 _)) by (rewrite map_size_singleton; lia). rewrite lookup_singleton_eq. cbn [windowStart count].
    rewrite (proj2 (Z.ltb_ge _ _)) by lia. cbn [snd]. change (1 + 1) with 2.
    cbn [NewJoinServer cfg MaxJoinRequests]. apply Z.leb_le. destruct (Z.eqb_spec (MaxJoinRequests c) 0); lia.
  - rewrite <-Hpk. exact Hcache.
  - cbn [expiresAt]. unfold challengeTTL, minute in *. lia.
  - done.
  - by apply verify_panics_generated.
  - by apply Verify_generated.
Qed.
End Crypto.

(** ** Examples

    A codec and primitives to run the protocol with: strings end with a zero
    byte, integers take eight bytes, every element of a list is announced by a
    byte. *)
Module Demo.

Definition put_str (s : string) : list byte := bytes_of_string s ++ [x00].
Fixpoint get_str (l : list byte) : option (list byte * list byte) :=
  match l with
  | [] => None
  | b :: l => if bool_decide (b = x00) then Some ([], l) else '(s, l) ← get_str l; Some (b :: s, l)
  end.
Definition get_string (l : list byte) : option (string * list byte) :=
  '(s, l) ← get_str l; Some (string_of_bytes s, l).

Lemma get_string_put s l : plain s -> get_string (put_str s ++ l) = Some (s, l).
Proof.
  intros Hs. unfold get_string, put_str. rewrite <-app_assoc.
  assert (get_str (bytes_of_string s ++ [x00] ++ l) = Some (bytes_of_string s, l)) as ->.
  { unfold plain in Hs. induction Hs as [|b bs Hb _ IH]; [done|]. cbn [app get_str].
    rewrite bool_decide_false by (intros ->; cbn in Hb; lia). cbn [app] in IH. by rewrite IH. }
  cbn [mbind option_bind]. by rewrite string_of_bytes_of_string.
Qed.

Definition put_int (z : Z) : list byte := be_bytes 8 (u64 z).
Definition get_int (l : list byte) : option (Z * list byte) :=
  if len l <? 8 then None else Some (i64 (be_Z (take 8 l)), drop 8 l).

Lemma get_int_put z l : - 2 ^ 63 <= z < 2 ^ 63 -> get_int (put_int z ++ l) = Some (z, l).
Proof.
  intros Hz. unfold get_int, put_int. rewrite length_app, be_bytes_length.
  rewrite (proj2 (Z.ltb_ge _ _)) by lia.
  rewrite (take_app_length' _ _ 8), (drop_app_length' _ _ 8) by by rewrite be_bytes_length.
  rewrite be_Z_u64 by (apply Z.mod_pos_bound; lia). by rewrite i64_u64.
Qed.

Fixpoint put_list {A} (put : A -> list byte) (xs : list A) : list byte :=
  match xs with [] => [x00] | x :: xs => x01 :: put x ++ put_list put xs end.
Fixpoint get_list {A} (get : list byte -> option (A * list byte)) (fuel : nat) (l : list byte)
    : option (list A * list byte) :=
  match fuel, l with
  | S fuel, b :: l =>
      if bool_decide (b = x00) then Some ([], l) else
      '(x, l) ← get l; '(xs, l) ← get_list get fuel l; Some (x :: xs, l)
  | _, _ => None
  end.

Lemma get_list_put {A} (put : A -> list byte) get (P : A -> Prop) xs :
  (forall x l, P x -> get (put x ++ l) = Some (x, l)) -> Forall P xs ->
  forall fuel l, (length xs < fuel)%nat -> get_list get fuel (put_list put xs ++ l) = Some (xs, l).
Proof.
  intros Hget Hf. induction Hf as [|x xs Hx _ IH]; intros [|fuel] l Hl; try (cbn in Hl; lia); [done|].
  cbn [put_list app get_list]. rewrite bool_decide_false by done. rewrite <-app_assoc, Hget by done.
  cbn [mbind option_bind]. cbn [length] in Hl. by rewrite IH by lia.
Qed.

Lemma put_list_length {A} (put : A -> list byte) xs : (length xs < length (put_list put xs))%nat.
Proof. induction xs as [|x xs IH]; cbn [put_list length]; [lia|]. rewrite length_app. lia. Qed.

Lemma get_list_put' {A} (put : A -> list byte) get (P : A -> Prop) xs l :
  (forall x l, P x -> get (put x ++ l) = Some (x, l)) -> Forall P xs ->
  get_list get (length (put_list put xs ++ l)) (put_list put xs ++ l) = Some (xs, l).
Proof.
  intros Hget Hf. apply (get_list_put put get P); [done..|]. rewrite length_app.
  pose proof (put_list_length put xs). lia.
Qed.

Definition marshal_token (t : Token) : list byte :=
  put_int (ExpiresAt t) ++ put_str (Nonce t) ++ put_str (ServerFP t) ++ put_str (Signature t).
Definition unmarshal_token (l : list byte) : option Token :=
  '(e, l) ← get_int l; '(n, l) ← get_string l; '(f, l) ← get_string l; '(s, l) ← get_string l;
  Some (MkToken TokenVersion e n f s).
Lemma token_codec t : plain_token t -> unmarshal_token (marshal_token t) = Some t.
Proof.
  intros (Hn & Hf & Hs & He & Hv). unfold unmarshal_token, marshal_token.
  rewrite <-(app_nil_r (put_str (Signature t))).
  rewrite get_int_put by done. cbn [mbind option_bind].
  do 3 (rewrite get_string_put by done; cbn [mbind option_bind]). destruct t. cbn in *. by rewrite Hv.
Qed.

Definition marshal_request (r : JoinRequest) : list byte :=
  put_str (rq_Token r) ++ put_str (JoinerPublicKey r) ++ put_str (JoinerHostname r) ++
  put_str (JoinerEndpoint r) ++ put_str (rq_Challenge r) ++ put_str (ChallengeResponse r).
Definition unmarshal_request (l : list byte) : result string JoinRequest :=
  match ('(t, l) ← get_string l; '(k, l) ← get_string l; '(h, l) ← get_string l;
         '(e, l) ← get_string l; '(c, l) ← get_string l; '(s, l) ← get_string l;
         Some (MkRequest t k h e c s)) with
  | Some r => Ok r
  | None => Err "unexpected end of JSON input"%string
  end.
Lemma request_codec r : plain_request r -> unmarshal_request (marshal_request r) = Ok r.
Proof.
  intros Hf. unfold plain_request in Hf. rewrite !Forall_cons in Hf. destruct Hf as (H1 & H2 & H3 & H4 & H5 & H6 & _).
  unfold unmarshal_request, marshal_request. rewrite <-(app_nil_r (put_str (ChallengeResponse r))).
  do 6 (rewrite get_string_put by done; cbn [mbind option_bind]). by destruct r.
Qed.

Definition put_peer (p : PeerInfo) : list byte :=
  put_str (pi_PublicKey p) ++ put_str (pi_Hostname p) ++ put_str (pi_Role p) ++ put_str (pi_Endpoint p).
Definition get_peer (l : list byte) : option (PeerInfo * list byte) :=
  '(k, l) ← get_string l; '(h, l) ← get_string l; '(r, l) ← get_string l; '(e, l) ← get_string l;
  Some (MkPeerInfo k h r e, l).
Definition marshal_bundle (b : ConfigBundle) : list byte :=
  put_str (BootstrapPublicKey b) ++ put_str (BootstrapEndpoint b) ++ put_str (RealityPublicKey b) ++
  put_str (RealityShortID b) ++ put_str (RealityServerName b) ++ put_str (b_Signature b) ++
  put_int (MeshPort b) ++ put_int (IssuedAt b) ++ put_list put_str (Collectors b) ++
  put_list put_peer (KnownPeers b).
Definition get_bundle (l : list byte) : option (ConfigBundle * list byte) :=
  '(k, l) ← get_string l; '(e, l) ← get_string l; '(rk, l) ← get_string l; '(rs, l) ← get_string l;
  '(rn, l) ← get_string l; '(s, l) ← get_string l; '(p, l) ← get_int l; '(i, l) ← get_int l;
  '(cs, l) ← get_list get_string (length l) l; '(ps, l) ← get_list get_peer (length l) l;
  Some (MkBundle k e p rk rs rn cs ps i s, l).
Lemma bundle_codec b l : plain_bundle b -> get_bundle (marshal_bundle b ++ l) = Some (b, l).
Proof.
  intros (Hf & Hp & Hi & Hk). rewrite Forall_app, !Forall_cons in Hf.
  destruct Hf as ((H1 & H2 & H3 & H4 & H5 & H6 & _) & Hc).
  unfold get_bundle, marshal_bundle. rewrite <-!app_assoc.
  do 6 (rewrite get_string_put by done; cbn [mbind option_bind]).
  do 2 (rewrite get_int_put by done; cbn [mbind option_bind]).
  rewrite (get_list_put' put_str get_string plain) by auto using get_string_put. cbn [mbind option_bind].
  rewrite (get_list_put' put_peer get_peer (fun p => Forall plain [pi_PublicKey p; pi_Hostname p; pi_Role p; pi_Endpoint p]));
    [by destruct b | | done].
  intros [k h r e] l' Hpeer. rewrite !Forall_cons in Hpeer. destruct Hpeer as (P1 & P2 & P3 & P4 & _).
  unfold get_peer, put_peer. rewrite <-!app_assoc. cbn [pi_PublicKey pi_Hostname pi_Role pi_Endpoint] in *.
  by do 4 (rewrite get_string_put by done; cbn [mbind option_bind]).
Qed.

Definition marshal_response (r : JoinResponse) : list byte :=
  (if Success r then x01 else x00) :: put_str (Error r) ++ put_str (Challenge r) ++
  match Bundle r with Some b => x01 :: marshal_bundle b | None => [x00] end.
Definition unmarshal_response (l : list byte) : option JoinResponse :=
  match l with
  | [] => None
  | ok :: l =>
      '(e, l) ← get_string l; '(c, l) ← get_string l;
      match l with
      | [] => None
      | tag :: l =>
          if bool_decide (tag = x00) then Some (MkResponse (bool_decide (ok = x01)) e None c)
          else '(b, _) ← get_bundle l; Some (MkResponse (bool_decide (ok = x01)) e (Some b) c)
      end
  end.
Lemma response_codec r : plain_response r -> unmarshal_response (marshal_response r) = Some r.
Proof.
  intros (He & Hc & Hb). unfold unmarshal_response, marshal_response.
  do 2 (rewrite get_string_put by done; cbn [mbind option_bind]).
  destruct r as [ok e [b|] c]; cbn in *.
  - pose proof (bundle_codec b [] Hb) as H. rewrite app_nil_r in H. rewrite H. by destruct ok.
  - by destruct ok.
Qed.

Definition checksum (l : list byte) : Z := foldr (fun b acc => Z_of_byte b + acc) 0 l.
Definition hmac (k m : list byte) : list byte := be_bytes 32 (checksum (k ++ m)).
Definition ed_public (priv : list byte) : list byte := take 32 priv.
Definition ed_sign (priv data : list byte) : list byte := take 32 priv ++ be_bytes 32 (checksum data).
Definition ed_verify (pub data sig : list byte) : bool := bool_decide (sig = pub ++ be_bytes 32 (checksum data)).

Lemma ed_verify_sign priv data : length priv = 64%nat -> ed_verify (ed_public priv) data (ed_sign priv data) = true.
Proof. intros _. by apply bool_decide_true. Qed.
Lemma ed_public_length priv : length priv = 64%nat -> length (ed_public priv) = 32%nat.
Proof. intros Hp. unfold ed_public. rewrite length_take. lia. Qed.
Lemma ed_sign_length priv data : length priv = 64%nat -> length (ed_sign priv data) = 64%nat.
Proof. intros Hp. unfold ed_sign. rewrite length_app, length_take, be_bytes_length. lia. Qed.

Definition server_priv : list byte := replicate 64 x07.
Definition joiner_priv : list byte := replicate 64 x09.
Definition server_key : string := Kx.EncodeToString (ed_public server_priv).
Definition config : ServerConfig :=
  MkServerConfig [x01; x02] (Kx.GenerateIdentity ed_public server_priv) "mesh.example:443" 443 "aa" "bb" "www.example.com"
    ["c1"] 0 0.
Definition nonce : list byte := replicate 16 x05.
Definition token : string :=
  match GenerateToken hmac marshal_token (Secret config) server_key TokenLifetime 0 (Some nonce) with
  | Ok s => s | Err _ => ""
  end.
Definition client : ClientConfig :=
  MkClient "https://mesh.example:8443" token (Kx.EncodeToString (ed_public joiner_priv)) "host" "" false
    (Some (Kx.Sign ed_sign (Kx.GenerateIdentity ed_public joiner_priv))) false.
Definition challenge : list byte := replicate 32 x06.
Definition serve1 (s : JoinServer) (now : Z) (req : JoinRequest) : JoinServer * reply :=
  handleJoin hmac ed_sign ed_verify unmarshal_token marshal_bundle unmarshal_request s
    (post_request now (Some challenge) "10.0.0.1:4000" (marshal_request req)).
Definition after_step1 : JoinServer := (serve1 (NewJoinServer config) second (challenge_request client)).1.
Definition answer : string := Kx.EncodeToString (ed_sign joiner_priv (bytes_of_string (Kx.EncodeToString challenge))).
Definition ok_or {E A} (d : A) (r : result E A) : A := match r with Ok a => a | Err _ => d end.
Definition parsed : Token :=
  ok_or (MkToken 0 0 "" "" "") (ParseToken hmac unmarshal_token token (Secret config) second).
Definition handle (s : JoinServer) (r : http_request) : JoinServer * reply :=
  handleJoin hmac ed_sign ed_verify unmarshal_token marshal_bundle unmarshal_request s r.
Definition first_request (now : Z) : http_request :=
  post_request now (Some challenge) "10.0.0.1:4000" (marshal_request (challenge_request client)).
Lemma plain_check s : forallb (fun b => (32 <=? Z_of_byte b) && (Z_of_byte b <? 127)) (bytes_of_string s) = true -> plain s.
Proof. intros H. apply Forall_forall. intros b Hb. apply list_elem_of_In in Hb. rewrite forallb_forall in H. specialize (H b Hb). lia. Qed.
End Demo.

Lemma GenerateToken_ParseToken_witness :
  exists t, ParseToken Demo.hmac Demo.unmarshal_token Demo.token (Secret Demo.config) 0 = Ok t /\
    ServerFP t = Demo.server_key.
Proof.
  destruct (GenerateToken_ParseToken Demo.hmac Demo.marshal_token Demo.unmarshal_token Demo.token_codec
    (Secret Demo.config) Demo.server_key TokenLifetime 0 Demo.nonce Demo.token 0) as [H _].
  - apply hex_plain.
  - vm_compute. split; [discriminate | reflexivity].
  - vm_compute. reflexivity.
  - destruct H as (t & H & _ & _ & _ & Hf); [vm_compute; reflexivity|]. exists t. split; [exact H | exact Hf].
Defined.

Lemma join_token_single_use_witness :
  ~ challenged (handleJoin Demo.hmac Demo.ed_sign Demo.ed_verify Demo.unmarshal_token Demo.marshal_bundle
    Demo.unmarshal_request
    (serve Demo.hmac Demo.ed_sign Demo.ed_verify Demo.unmarshal_token Demo.marshal_bundle Demo.unmarshal_request
      (handleJoin Demo.hmac Demo.ed_sign Demo.ed_verify Demo.unmarshal_token Demo.marshal_bundle
        Demo.unmarshal_request (NewJoinServer Demo.config) (Demo.first_request second)).1 [])
    (Demo.first_request minute)).2.
Proof.
  apply (join_token_single_use Demo.hmac Demo.ed_sign Demo.ed_verify Demo.unmarshal_token Demo.marshal_bundle
    Demo.unmarshal_request (NewJoinServer Demo.config) (Demo.first_request second)
    (challenge_request Demo.client) Demo.parsed [] (Demo.first_request minute)
    (challenge_request Demo.client) Demo.parsed).
  - split_and!; vm_compute; reflexivity.
  - exists (Kx.EncodeToString Demo.challenge). vm_compute. reflexivity.
  - vm_compute. split; [discriminate | reflexivity].
  - split; [vm_compute; discriminate | exact I].
  - split_and!; vm_compute; reflexivity.
  - reflexivity.
  - reflexivity.
Defined.

Lemma join_bundle_authorised_witness :
  let r1 := post_request second (Some Demo.challenge) "10.0.0.1:4000" (Demo.marshal_request (challenge_request Demo.client)) in
  let r2 := post_request (2 * second) None "10.0.0.1:4000"
    (Demo.marshal_request (answer_request Demo.client (Kx.EncodeToString Demo.challenge) Demo.answer)) in
  exists r0 ch, r0 ∈ [r1] /\ h_rand r0 = Some ch /\ h_now r2 <= h_now r0 + challengeTTL.
Proof.
  intros r1 r2.
  destruct (join_bundle_authorised Demo.hmac Demo.ed_sign Demo.ed_verify Demo.unmarshal_token Demo.marshal_bundle
    Demo.unmarshal_request Demo.config [r1] r2
    (buildBundle Demo.ed_sign Demo.marshal_bundle (NewJoinServer Demo.config) (2 * second)))
    as (req & t & r0 & req0 & t0 & ch & _ & _ & _ & Hin & _ & Hr & _ & _ & Hle & _).
  - vm_compute. reflexivity.
  - exists r0, ch. split_and!; [exact Hin | exact Hr | exact Hle].
Defined.

Lemma join_token_malleable_witness :
  exists raw', ParseToken Demo.hmac Demo.unmarshal_token raw' (Secret Demo.config) second = Ok (shifted Demo.parsed) /\
    Nonce (shifted Demo.parsed) <> Nonce Demo.parsed /\ ServerFP (shifted Demo.parsed) = "".
Proof.
  apply (join_token_malleable Demo.hmac Demo.marshal_token Demo.unmarshal_token Demo.token_codec _ _ Demo.token).
  - vm_compute. reflexivity.
  - split_and!; try (apply Demo.plain_check; vm_compute; reflexivity); vm_compute; done.
  - vm_compute. discriminate.
Defined.

Lemma join_end_to_end_witness :
  RequestJoin Demo.ed_verify Demo.unmarshal_token Demo.marshal_bundle Demo.marshal_request Demo.unmarshal_response
    Demo.client
    (server_post Demo.hmac Demo.ed_sign Demo.ed_verify Demo.unmarshal_token Demo.marshal_bundle
       Demo.unmarshal_request Demo.marshal_response (NewJoinServer Demo.config) second (Some Demo.challenge) "10.0.0.1:4000")
    (server_post Demo.hmac Demo.ed_sign Demo.ed_verify Demo.unmarshal_token Demo.marshal_bundle
       Demo.unmarshal_request Demo.marshal_response Demo.after_step1 (2 * second) None "10.0.0.1:4000")
  = Ok (buildBundle Demo.ed_sign Demo.marshal_bundle (NewJoinServer Demo.config) (2 * second)).
Proof.
  eapply (join_end_to_end Demo.hmac Demo.ed_sign Demo.ed_verify Demo.marshal_token Demo.unmarshal_token
    Demo.marshal_bundle Demo.marshal_request Demo.unmarshal_request Demo.marshal_response Demo.unmarshal_response
    Demo.token_codec Demo.request_codec Demo.response_codec Demo.ed_public Demo.ed_verify_sign
    Demo.ed_public_length Demo.ed_sign_length Demo.config Demo.client Demo.server_priv Demo.joiner_priv
    TokenLifetime 0 Demo.nonce Demo.token second (2 * second) Demo.challenge "10.0.0.1:4000").
  - reflexivity.
  - reflexivity.
  - vm_compute. split; [discriminate | reflexivity].
  - vm_compute. reflexivity.
  - vm_compute. reflexivity.
  - vm_compute. reflexivity.
  - vm_compute. split; discriminate.
  - left. reflexivity.
  - reflexivity.
  - reflexivity.
  - reflexivity.
  - reflexivity.
  - vm_compute. reflexivity.
  - apply Demo.plain_check. vm_compute. reflexivity.
  - apply Demo.plain_check. vm_compute. reflexivity.
  - discriminate.
  - vm_compute. discriminate.
  - vm_compute. discriminate.
  - vm_compute. discriminate.
  - vm_compute. discriminate.
  - split_and!; try (vm_compute; discriminate).
    + repeat (apply Forall_cons_2; [apply Demo.plain_check; vm_compute; reflexivity|]). apply Forall_nil_2.
    + vm_compute. reflexivity.
    + vm_compute. reflexivity.
    + apply Forall_nil_2.
Defined.
End Join.
