(* ===== verification/GoPath.v ===== *)
(** * Paths as Go's path/filepath package has them on Unix

    [Clean] as a walk over the elements of a path with a stack, [Base], and
    the text of a path from its elements. *)
From stdpp Require Import prelude list strings.
From Stdlib Require Import Strings.Byte ZArith Lia.
From S2P Require Import Prelude GoBytes.
Local Open Scope Z_scope.

Module Path.

Definition sep : byte := byte_of_Z 47.
Definition dot : list byte := [byte_of_Z 46].
Definition dotdot : list byte := [byte_of_Z 46; byte_of_Z 46].

(** [bytes.Split] on one byte: always at least one piece. *)
Fixpoint split (c : byte) (l : list byte) : list (list byte) :=
  match l with
  | [] => [[]]
  | b :: l =>
      if bool_decide (b = c) then [] :: split c l
      else match split c l with
           | [] => [[b]]
           | p :: ps => (b :: p) :: ps
           end
  end.

Fixpoint join (c : byte) (ps : list (list byte)) : list byte :=
  match ps with
  | [] => []
  | [p] => p
  | p :: ps => p ++ c :: join c ps
  end.

(** The stack of elements, the last first. *)
Definition push (rooted : bool) (stack : list (list byte)) (e : list byte) : list (list byte) :=
  if bool_decide (e = []) || bool_decide (e = dot) then stack
  else if bool_decide (e = dotdot) then
    match stack with
    | top :: rest => if bool_decide (top = dotdot) then e :: stack else rest
    | [] => if rooted then [] else [e]
    end
  else e :: stack.

Definition rooted (p : list byte) : bool := bool_decide (list.head p = Some sep).
Definition elements (p : list byte) : list (list byte) :=
  reverse (foldl (push (rooted p)) [] (split sep p)).

Definition text (r : bool) (es : list (list byte)) : list byte :=
  if r then sep :: join sep es else match es with [] => dot | _ => join sep es end.

Definition clean (p : list byte) : list byte := text (rooted p) (elements p).
Definition Clean (p : string) : string := string_of_bytes (clean (bytes_of_string p)).

Example Clean_examples :
  Clean "" = "." /\ Clean "/" = "/" /\ Clean "a//b/./c" = "a/b/c" /\ Clean "/../a" = "/a" /\
  Clean "../a/../.." = "../.." /\ Clean "a/.." = "." /\ Clean "/a/b/../c/" = "/a/c".
Proof. by vm_compute. Qed.

(** ** Splitting and joining *)

Lemma split_nonempty c l : split c l <> [].
Proof. destruct l as [|b l]; cbn; [done|]. case_bool_decide; [done|]. by destruct (split c l). Qed.

Lemma split_no_sep c l : Forall (fun p => c ∉ p) (split c l).
Proof.
  induction l as [|b l IH]; cbn [split]; [repeat constructor; by apply not_elem_of_nil|].
  case_bool_decide as Hb; [constructor; [by apply not_elem_of_nil | done]|].
  destruct (split c l) as [|p ps]; [repeat constructor; by intros ->%list_elem_of_singleton|].
  apply Forall_cons in IH as [Hp Hps]. constructor; [|done]. intros [->|?]%elem_of_cons; done.
Qed.

Lemma split_app c p l : c ∉ p -> split c (p ++ c :: l) = p :: split c l.
Proof.
  induction p as [|b p IH]; intros Hc; cbn [app split].
  - by rewrite bool_decide_true.
  - apply not_elem_of_cons in Hc as [Hb Hc]. rewrite bool_decide_false by congruence. by rewrite IH.
Qed.

Lemma split_one c p : c ∉ p -> split c p = [p].
Proof.
  induction p as [|b p IH]; intros Hc; cbn [split]; [done|].
  apply not_elem_of_cons in Hc as [Hb Hc]. rewrite bool_decide_false by congruence. by rewrite IH.
Qed.

Lemma split_join c ps : ps <> [] -> Forall (fun p => c ∉ p) ps -> split c (join c ps) = ps.
Proof.
  intros Hne Hf. induction Hf as [|p ps Hp Hf IH]; [done|]. destruct ps as [|q ps].
  - by apply split_one.
  - change (join c (p :: q :: ps)) with (p ++ c :: join c (q :: ps)). rewrite split_app by done. by rewrite IH.
Qed.

Lemma join_app c ps qs : ps <> [] -> qs <> [] -> join c (ps ++ qs) = join c ps ++ c :: join c qs.
Proof.
  intros Hp Hq. induction ps as [|p ps IH]; [done|]. destruct ps as [|p2 ps].
  - cbn [app]. by destruct qs.
  - change ((p :: p2 :: ps) ++ qs) with (p :: (p2 :: ps) ++ qs).
    change (join c (p :: (p2 :: ps) ++ qs)) with (p ++ c :: join c ((p2 :: ps) ++ qs)).
    rewrite IH by done. change (join c (p :: p2 :: ps)) with (p ++ c :: join c (p2 :: ps)). by rewrite <-app_assoc.
Qed.

Lemma join_split c l : join c (split c l) = l.
Proof.
  induction l as [|b l IH]; cbn [split]; [done|]. case_bool_decide as Hb.
  - subst. pose proof (split_nonempty c l). destruct (split c l) as [|p ps]; [done|].
    change (join c ([] :: p :: ps)) with (c :: join c (p :: ps)). by rewrite IH.
  - destruct (split c l) as [|p [|q ps]] eqn:E; [by destruct (split_nonempty c l) | by cbn in *; rewrite IH |].
    change (join c ((b :: p) :: q :: ps)) with (b :: join c (p :: q :: ps)). by rewrite IH.
Qed.

(** ** Elements of a cleaned path *)

(** A name: not empty, not a dot, without a separator. *)
Definition name (e : list byte) : Prop := e <> [] /\ e <> dot /\ sep ∉ e.

Lemma push_names r stack e : sep ∉ e -> Forall name stack -> Forall name (push r stack e).
Proof.
  intros He Hs. unfold push. repeat case_bool_decide; cbn [orb]; try done.
  - destruct stack as [|top rest]; [destruct r; repeat constructor; subst; done|].
    apply Forall_cons in Hs as [Ht Hr]. case_bool_decide; [|done]. subst.
    constructor; [|by constructor]. split_and!; [done..|]. apply He.
  - by constructor.
Qed.

Lemma elements_names p : Forall name (elements p).
Proof.
  unfold elements. rewrite Forall_reverse. pose proof (split_no_sep sep p) as Hs. revert Hs.
  assert (Forall name []) as Hnil by constructor. revert Hnil. generalize (@nil (list byte)).
  induction (split sep p) as [|e es IH]; intros stack Hst Hs; cbn [foldl]; [done|].
  apply Forall_cons in Hs as [He Hs]. apply IH; [by apply push_names | done].
Qed.

Lemma text_rooted r es : Forall name es -> rooted (text r es) = r.
Proof.
  intros Hn. unfold rooted, text. destruct r; [by apply bool_decide_true|].
  apply bool_decide_false. destruct es as [|e es]; [by vm_compute|].
  apply Forall_cons in Hn as [(Hne & _ & Hs) _]. destruct e as [|b e]; [done|].
  destruct es; cbn; intros [= ->]; destruct Hs; left.
Qed.

(** The text determines the elements. *)
Lemma text_inj r es r' es' :
  Forall name es -> Forall name es' -> text r es = text r' es' -> r = r' /\ es = es'.
Proof.
  intros H1 H2 E. assert (r = r') as <- by (rewrite <-(text_rooted r es H1), E; by apply text_rooted).
  split; [done|]. assert (forall l, Forall name l -> Forall (fun p => sep ∉ p) l) as Hs.
  { intros l Hl. eapply Forall_impl; [exact Hl|]. by intros x (_ & _ & ?). }
  assert (forall l, l <> [] -> Forall name l -> join sep l <> [] /\ join sep l <> dot) as Hd.
  { intros l Hl Hn. destruct l as [|x l]; [done|]. split; intros Hj; apply (f_equal (split sep)) in Hj;
      rewrite split_join in Hj by auto; injection Hj as -> ->; apply Forall_cons in Hn as [(? & ? & _) _]; done. }
  destruct (decide (es = [])) as [->|Hes], (decide (es' = [])) as [->|Hes']; [done|..].
  - exfalso. destruct (Hd es' Hes' H2). unfold text in E. destruct r; [cbn in E; congruence|].
    destruct es'; [done|]. cbn [join] in *. congruence.
  - exfalso. destruct (Hd es Hes H1). unfold text in E. destruct r; [cbn in E; congruence|].
    destruct es; [done|]. congruence.
  - assert (join sep es = join sep es') as Ej.
    { unfold text in E. destruct r; [congruence|]. by destruct es, es'. }
    apply (f_equal (split sep)) in Ej. rewrite !split_join in Ej by auto. done.
Qed.

(** ** The last element, and joining *)

(** [filepath.Base]. *)
Fixpoint drop_seps (l : list byte) : list byte :=
  match l with b :: l' => if bool_decide (b = sep) then drop_seps l' else l | [] => [] end.
Fixpoint take_name (l : list byte) : list byte :=
  match l with b :: l' => if bool_decide (b = sep) then [] else b :: take_name l' | [] => [] end.
Definition base (p : list byte) : list byte :=
  match p with
  | [] => dot
  | _ => match take_name (drop_seps (reverse p)) with [] => [sep] | n => reverse n end
  end.
Definition Base (p : string) : string := string_of_bytes (base (bytes_of_string p)).

(** [filepath.Join] of two elements. *)
Definition join2 (d n : list byte) : list byte :=
  match d, n with
  | [], [] => []
  | [], _ => clean n
  | _, _ => clean (d ++ sep :: n)
  end.
Definition Join (d n : string) : string :=
  string_of_bytes (join2 (bytes_of_string d) (bytes_of_string n)).

Example Base_examples :
  Base "" = "." /\ Base "/" = "/" /\ Base "a/b" = "b" /\ Base "a/b//" = "b" /\ Base "../.." = ".." /\
  Join "/srv" "a" = "/srv/a" /\ Join "" "a" = "a" /\ Join "a" "" = "a" /\ Join "d/" "/" = "d".
Proof. by vm_compute. Qed.

Lemma take_name_no_sep l : sep ∉ take_name l.
Proof.
  induction l as [|b l IH]; cbn [take_name]; [by apply not_elem_of_nil|].
  case_bool_decide as Hb; [by apply not_elem_of_nil|]. intros [Hc|?]%elem_of_cons; [by destruct Hb | done].
Qed.

(** The last element is a slash, or has none. *)
Lemma base_cases p : base p = [sep] \/ (base p <> [] /\ sep ∉ base p).
Proof.
  unfold base. destruct p as [|b p]; [right; split; [done | intros H%list_elem_of_singleton; by vm_compute in H]|].
  pose proof (take_name_no_sep (drop_seps (reverse (b :: p)))) as H.
  destruct (take_name _) as [|c n] eqn:E; [by left | right]. split; [|by rewrite elem_of_reverse].
  intros Hr. apply (f_equal length) in Hr. by rewrite length_reverse in Hr.
Qed.

Lemma split_snoc c p q : split c (p ++ c :: q) = split c p ++ split c q.
Proof.
  induction p as [|b p IH]; cbn [app split]; [by rewrite bool_decide_true|].
  case_bool_decide; [by rewrite IH|]. rewrite IH. pose proof (split_nonempty c p).
  by destruct (split c p).
Qed.

Lemma push_name r stack n : name n -> n <> dotdot -> push r stack n = n :: stack.
Proof. intros (? & ? & _) ?. unfold push. by rewrite !bool_decide_false by done. Qed.

(** A name under a directory: the directory's elements and the name. *)
Lemma elements_under d n :
  d <> [] -> name n -> n <> dotdot -> elements (d ++ sep :: n) = elements d ++ [n].
Proof.
  intros Hd Hn Hdd. unfold elements. assert (rooted (d ++ sep :: n) = rooted d) as -> by by destruct d.
  rewrite split_snoc, (split_one sep n) by apply Hn. rewrite foldl_app. cbn [foldl].
  rewrite push_name by done. by rewrite reverse_cons.
Qed.

(** A stack as [push] leaves it: a [..] only on an unrooted stack, above
    nothing but [..]. *)
Fixpoint canon (r : bool) (stack : list (list byte)) : Prop :=
  match stack with
  | [] => True
  | e :: rest =>
      name e /\ canon r rest /\
      (e = dotdot -> r = false /\ (rest = [] \/ list.head rest = Some dotdot))
  end.

Lemma push_canon r stack e : sep ∉ e -> canon r stack -> canon r (push r stack e).
Proof.
  intros He Hs. unfold push. repeat case_bool_decide; cbn [orb]; try done.
  subst e. destruct stack as [|top rest].
  - destruct r; cbn; [done|]. split_and!; [done.. | by intros _; split; [|left]].
  - case_bool_decide; [|by destruct Hs as (_ & ? & _)]. subst top. cbn in Hs |- *.
      destruct Hs as (Hn & Hr & Ht). destruct (Ht eq_refl) as [-> ?]. destruct Hn as (? & ? & ?).
      repeat split; try done. by right.
Qed.

Lemma elements_canon p : canon (rooted p) (reverse (elements p)).
Proof.
  unfold elements. rewrite reverse_involutive. pose proof (split_no_sep sep p) as Hs.
  assert (canon (rooted p) []) as Hc by done. revert Hs Hc. generalize (@nil (list byte)).
  induction (split sep p) as [|e es IH]; intros stack Hs Hc; [done|].
  apply Forall_cons in Hs as [He Hs]. cbn [foldl]. apply IH; [done | by apply push_canon].
Qed.

Lemma canon_names r stack : canon r stack -> Forall name stack.
Proof. induction stack as [|e s IH]; [constructor|]. intros (? & ? & _). constructor; auto. Qed.

Lemma push_canon_id r stack : canon r stack -> foldl (push r) [] (reverse stack) = stack.
Proof.
  induction stack as [|e s IH]; [done|]. intros ((? & ? & ?) & Hc & Hd).
  rewrite reverse_cons, foldl_app, IH by done. cbn [foldl]. unfold push.
  rewrite !(bool_decide_false (e = [])), !(bool_decide_false (e = dot)) by done. cbn [orb].
  case_bool_decide; [|done]. destruct (Hd ltac:(done)) as [-> [-> | Hh]]; [done|].
  destruct s as [|t s]; [done|]. injection Hh as ->. by rewrite bool_decide_true.
Qed.

(** Cleaning keeps the elements. *)
Lemma elements_text r es : canon r (reverse es) -> elements (text r es) = es.
Proof.
  intros Hc. pose proof (canon_names _ _ Hc) as Hn. rewrite Forall_reverse in Hn.
  unfold elements. rewrite text_rooted by done.
  assert (Forall (fun p => sep ∉ p) es) as Hs by (eapply Forall_impl; [exact Hn|]; by intros x (_ & _ & ?)).
  assert (foldl (push r) [] (split sep (text r es)) = foldl (push r) [] es) as ->.
  { unfold text. destruct r.
    - cbn [split]. rewrite bool_decide_true by done. cbn [foldl]. destruct es as [|e es]; [done|].
      by rewrite split_join.
    - destruct es as [|e es]; [done|]. by rewrite split_join. }
  rewrite <-(reverse_involutive es) at 1. rewrite push_canon_id by done. apply reverse_involutive.
Qed.

Lemma elements_clean p : elements (clean p) = elements p.
Proof. apply elements_text, elements_canon. Qed.

Lemma rooted_clean p : rooted (clean p) = rooted p.
Proof. apply text_rooted, elements_names. Qed.

(** Joining a name to a directory adds it to the directory's elements. *)
Lemma elements_join2 d n :
  d <> [] -> name n -> n <> dotdot -> elements (join2 d n) = elements d ++ [n].
Proof.
  intros Hd Hn Hdd. destruct d as [|b d]; [done|]. destruct n as [|c n]; [by destruct Hn|].
  cbn [join2]. rewrite elements_clean. by apply elements_under.
Qed.
End Path.
