(* ===== verification/AuditLog.v ===== *)
(** * The audit log (internal/auth/audit.go, audit_helpers.go)

    Entries chained by hashes, the scan that continues a chain after a
    restart, the check of a whole file, and the rotation of files. SHA-256
    and the JSON codec are parameters; a file is its bytes, and writing to
    it succeeds. *)
From stdpp Require Import prelude gmap list strings.
From Stdlib Require Import Strings.Byte ZArith Lia.
From S2P Require Import Prelude GoBytes GoPath KeyExchange.
Local Open Scope Z_scope.

Module Audit.

Record AuditEntry : Type := MkAudit {
  Sequence : Z; PrevHash : string; Timestamp : string; SourcePeer : string; SourceIP : string;
  RequestedCapability : string; TargetResource : string; Result : string; Reason : string
}.

Definition DefaultAuditMaxBytes : Z := 100 * 1024 * 1024.
Definition DefaultAuditMaxRotates : Z := 5.

Definition nl : byte := x0a.

(** ** Lines (audit_helpers.go) *)

Definition trim_suffix (l : list byte) : list byte :=
  if bool_decide (last l = Some nl) then removelast l else l.
Definition splitLines (data : list byte) : list (list byte) :=
  match data with [] => [] | _ => Path.split nl (trim_suffix data) end.

(** [bytes.TrimSpace] on ASCII. *)
Definition is_space (b : byte) : bool :=
  let c := Z_of_byte b in (c =? 32) || ((9 <=? c) && (c <=? 13)).
Fixpoint trim_left (l : list byte) : list byte :=
  match l with
  | [] => []
  | b :: l' => if is_space b then trim_left l' else l
  end.
Definition trimSpace (l : list byte) : list byte := reverse (trim_left (reverse (trim_left l))).

Inductive chain_error : Type :=
| ParseError (line : Z)
| PrevHashMismatch (line : Z)
| SequenceMismatch (line : Z).

(** The logger with the content of its file. *)
Record AuditLogger : Type := MkLogger { sequence : Z; prevHash : string; file : list byte }.

Section Chain.
Context (sha256 : list byte -> list byte).
Context (marshal : AuditEntry -> list byte) (unmarshal : list byte -> option AuditEntry).

Definition hashEntry (data : list byte) : string := Kx.EncodeToString (sha256 data).

(** [now] is the present as text, used when the entry has no time. *)
Definition stamp (now : string) (e : AuditEntry) (seq : Z) (prev : string) : AuditEntry :=
  MkAudit seq prev (if String.eqb (Timestamp e) "" then now else Timestamp e) (SourcePeer e)
    (SourceIP e) (RequestedCapability e) (TargetResource e) (Result e) (Reason e).
Definition Log (a : AuditLogger) (now : string) (e : AuditEntry) : AuditLogger :=
  let seq := u64 (sequence a + 1) in
  let data := marshal (stamp now e seq (prevHash a)) in
  MkLogger seq (hashEntry data) (file a ++ data ++ [nl]).

(** The last entry that can be read: its number and its hash. *)
Fixpoint scan_lines (lines : list (list byte)) (found : option (Z * string)) : option (Z * string) :=
  match lines with
  | [] => found
  | line :: lines =>
      let line := trimSpace line in
      if bool_decide (line = []) then scan_lines lines found else
      match unmarshal line with
      | None => scan_lines lines found
      | Some e => scan_lines lines (Some (Sequence e, hashEntry line))
      end
  end.
Definition scanChain (data : list byte) : option (Z * string) := scan_lines (splitLines data) None.

(** The current file, then the backups from the newest. *)
Fixpoint first_chain (files : list (list byte)) : option (Z * string) :=
  match files with
  | [] => None
  | f :: fs => match scanChain f with Some c => Some c | None => first_chain fs end
  end.
Definition recoverChain (current : list byte) (backups : gmap Z (list byte)) : AuditLogger :=
  let rotated := omap (fun i => backups !! i) (seqZ 1 DefaultAuditMaxRotates) in
  match first_chain (current :: rotated) with
  | Some (seq, hash) => MkLogger seq hash current
  | None => MkLogger 0 "" current
  end.

Fixpoint verify_lines (i : Z) (expectedPrev : string) (expectedSeq : Z) (lines : list (list byte))
    : result chain_error unit :=
  match lines with
  | [] => Ok tt
  | line :: lines =>
      let line := trimSpace line in
      if bool_decide (line = []) then verify_lines (i + 1) expectedPrev expectedSeq lines else
      match unmarshal line with
      | None => Err (ParseError (i + 1))
      | Some e =>
          if negb (String.eqb (PrevHash e) expectedPrev) then Err (PrevHashMismatch (i + 1))
          else if negb (Sequence e =? expectedSeq) then Err (SequenceMismatch (i + 1))
          else verify_lines (i + 1) (hashEntry line) (u64 (expectedSeq + 1)) lines
      end
  end.
Definition VerifyHashChain (data : list byte) : result chain_error unit :=
  verify_lines 0 "" 1 (splitLines data).

(** ** Rotation *)

(** The size limit, the limit of backups, and the files: number 0 is the
    current one. *)
Record rotator : Type := MkRotator { maxBytes : Z; maxBackups : Z; files : gmap Z (list byte) }.

(** The loop over the backups, from the oldest. *)
Fixpoint shift_backups (fuel : nat) (i maxBackups : Z) (fs : gmap Z (list byte)) : gmap Z (list byte) :=
  match fuel with
  | O => fs
  | S fuel =>
      if i <=? 0 then fs else
      match fs !! i with
      | None => shift_backups fuel (i - 1) maxBackups fs
      | Some f =>
          shift_backups fuel (i - 1) maxBackups
            (if i =? maxBackups then delete i fs else <[i + 1 := f]> (delete i fs))
      end
  end.

Definition maybeRotate (r : rotator) : rotator :=
  let current := default [] (files r !! 0) in
  if (maxBytes r <=? 0) || (len current <? maxBytes r) then r else
  let fs := shift_backups (Z.to_nat (maxBackups r)) (maxBackups r) (maxBackups r) (files r) in
  MkRotator (maxBytes r) (maxBackups r) (<[0 := []]> (<[1 := current]> fs)).

Definition rotator_Write (r : rotator) (p : list byte) : rotator :=
  maybeRotate (MkRotator (maxBytes r) (maxBackups r) (<[0 := default [] (files r !! 0) ++ p]> (files r))).

(** ** Chains *)

(** What is relied on of the codec: one line without blanks around it, from
    which number and previous hash are read back. *)
Hypothesis marshal_line : forall e, (nl ∉ marshal e) /\ marshal e <> [] /\ trimSpace (marshal e) = marshal e.
Hypothesis unmarshal_marshal : forall e h,
  0 <= Sequence e < 2 ^ 64 -> PrevHash e = Kx.EncodeToString h ->
  exists e', unmarshal (marshal e) = Some e' /\ Sequence e' = Sequence e /\ PrevHash e' = PrevHash e.

Definition as_file (lines : list (list byte)) : list byte := lines ≫= fun d => d ++ [nl].

(** Lines that chain from a previous hash and a number. *)
Fixpoint chained (prev : string) (seq : Z) (lines : list (list byte)) : Prop :=
  match lines with
  | [] => True
  | d :: ds =>
      ((nl ∉ d) /\ d <> [] /\ trimSpace d = d) /\
      (exists e, unmarshal d = Some e /\ PrevHash e = prev /\ Sequence e = seq) /\
      chained (hashEntry d) (u64 (seq + 1)) ds
  end.

Lemma as_file_join lines : lines <> [] -> as_file lines = Path.join nl lines ++ [nl].
Proof.
  intros Hne. induction lines as [|d ds IH]; [done|]. destruct ds as [|d2 ds].
  - cbn. by rewrite app_nil_r.
  - cbn [as_file mbind list_bind] in *. rewrite IH by done.
    change (Path.join nl (d :: d2 :: ds)) with (d ++ nl :: Path.join nl (d2 :: ds)). by rewrite <-!app_assoc.
Qed.

Lemma splitLines_as_file lines :
  Forall (fun d => nl ∉ d) lines -> splitLines (as_file lines) = lines.
Proof.
  intros Hf. destruct lines as [|d ds]; [done|]. rewrite as_file_join by done.
  unfold splitLines. destruct (Path.join nl (d :: ds) ++ [nl]) as [|b l] eqn:E;
    [by apply app_nil in E as [_ ?]|]. rewrite <-E. unfold trim_suffix.
  rewrite last_snoc, bool_decide_true, removelast_last by done. by apply Path.split_join.
Qed.

Lemma chained_no_nl lines : forall prev seq, chained prev seq lines -> Forall (fun d => nl ∉ d) lines.
Proof.
  induction lines as [|d ds IH]; intros prev seq; [constructor|]. intros ((Hd & _) & _ & Hc).
  constructor; [done | by eapply IH].
Qed.

Lemma verify_chained lines : forall i prev seq,
  chained prev seq lines -> verify_lines i prev seq lines = Ok tt.
Proof.
  induction lines as [|d ds IH]; intros i prev seq; [done|].
  intros ((_ & Hne & Ht) & (e & He & Hp & Hs) & Hc). cbn [verify_lines].
  rewrite Ht, bool_decide_false, He, Hp, String.eqb_refl, Hs, Z.eqb_refl by done. cbn [negb]. by apply IH.
Qed.

(** The state of the logger is the end of the chain. *)
Fixpoint chain_end (prev : string) (seq : Z) (lines : list (list byte)) : Z * string :=
  match lines with
  | [] => (seq, prev)
  | d :: ds => chain_end (hashEntry d) (u64 (seq + 1)) ds
  end.

Lemma scan_chained lines : forall prev seq s found,
  chained prev (u64 (s + 1)) lines -> (lines = [] -> found = Some (s, prev)) -> seq = u64 (s + 1) ->
  scan_lines lines found = Some (chain_end prev s lines).
Proof.
  induction lines as [|d ds IH]; intros prev seq s found; cbn [scan_lines chain_end]; [by intros _ ->|].
  intros ((_ & Hne & Ht) & (e & He & Hp & Hs) & Hc) _ _.
  rewrite Ht, bool_decide_false, He by done. rewrite Hs.
  apply (IH _ (u64 (u64 (s + 1) + 1))); [done | done | done].
Qed.

Lemma chained_snoc lines d : forall prev seq,
  chained prev seq lines -> ((nl ∉ d) /\ d <> [] /\ trimSpace d = d) ->
  (exists e, unmarshal d = Some e /\ PrevHash e = (chain_end prev seq lines).2 /\
     Sequence e = (chain_end prev seq lines).1) ->
  chained prev seq (lines ++ [d]).
Proof.
  induction lines as [|d' ds IH]; intros prev seq; cbn [app chained chain_end].
  - intros _ Hd He. split_and!; try apply Hd; [exact He | done].
  - intros (H1 & H2 & H3) Hd He. split_and!; try done; [apply H1..|]. by apply IH.
Qed.

Lemma chain_end_snoc lines d : forall prev seq,
  chain_end prev seq (lines ++ [d]) = (u64 ((chain_end prev seq lines).1 + 1), hashEntry d).
Proof. induction lines as [|d' ds IH]; intros prev seq; cbn [app chain_end]; [done | apply IH]. Qed.

(** Numbers are one ahead of the entries written. *)
Lemma chain_end_shift lines : forall prev s,
  chain_end prev (u64 (s + 1)) lines =
  (u64 ((chain_end prev s lines).1 + 1), (chain_end prev s lines).2).
Proof. induction lines as [|d ds IH]; intros prev s; cbn [chain_end]; [done | apply IH]. Qed.

(** The logger and its file. *)
Definition logger_ok (a : AuditLogger) : Prop :=
  exists lines, file a = as_file lines /\ chained "" 1 lines /\
    (sequence a, prevHash a) = chain_end "" 0 lines.

Lemma hashEntry_hex d : exists h, hashEntry d = Kx.EncodeToString h.
Proof. by eexists. Qed.

Lemma chain_end_hex lines : forall prev seq,
  (exists h, prev = Kx.EncodeToString h) -> exists h, (chain_end prev seq lines).2 = Kx.EncodeToString h.
Proof. induction lines as [|d ds IH]; intros prev seq Hp; cbn [chain_end]; [done|]. apply IH, hashEntry_hex. Qed.

Lemma u64_range z : 0 <= u64 z < 2 ^ 64.
Proof. apply Z.mod_pos_bound. lia. Qed.

Lemma Log_ok a now e : logger_ok a -> logger_ok (Log a now e).
Proof.
  intros (lines & Hf & Hc & He). unfold logger_ok, Log. cbn [file sequence prevHash].
  set (e1 := stamp now e (u64 (sequence a + 1)) (prevHash a)).
  exists (lines ++ [marshal e1]). destruct (marshal_line e1) as (H1 & H2 & H3).
  pose proof (chain_end_shift lines "" 0) as Hsh. change (u64 (0 + 1)) with 1 in Hsh.
  rewrite <-He in Hsh. cbn [fst snd] in Hsh. split_and!.
  - rewrite Hf. unfold as_file. rewrite bind_app. cbn. by rewrite app_nil_r.
  - apply chained_snoc; [done | done |].
    destruct (chain_end_hex lines "" 0) as [h Hh]; [by exists []|]. rewrite <-He in Hh. cbn [snd] in Hh.
    destruct (unmarshal_marshal e1 h) as (e2 & Hu & Hs & Hp); [apply u64_range | done |].
    exists e2. rewrite Hsh. done.
  - rewrite chain_end_snoc, <-He. done.
Qed.

Definition log_all (a : AuditLogger) (es : list (string * AuditEntry)) : AuditLogger :=
  foldl (fun a e => Log a e.1 e.2) a es.

(** A run of the program: the chain is recovered from the file and entries
    are logged. *)
Definition run (data : list byte) (es : list (string * AuditEntry)) : list byte :=
  file (log_all (recoverChain data ∅) es).

Lemma logger_ok_file a : logger_ok a -> VerifyHashChain (file a) = Ok tt /\ recoverChain (file a) ∅ = a.
Proof.
  intros (lines & Hf & Hc & He). unfold VerifyHashChain, recoverChain, scanChain.
  change (omap (fun i => (∅ : gmap Z (list byte)) !! i) (seqZ 1 DefaultAuditMaxRotates)) with (@nil (list byte)).
  rewrite Hf. pose proof (chained_no_nl _ _ _ Hc) as Hnl.
  split; [rewrite splitLines_as_file by done; by apply verify_chained|].
  cbn [first_chain]. unfold scanChain. rewrite splitLines_as_file by done.
  destruct lines as [|d ds].
  - cbn. cbn in He. destruct a; cbn in *. by simplify_eq.
  - rewrite (scan_chained (d :: ds) "" 1 0 None) by done. rewrite <-He, <-Hf. by destruct a.
Qed.

(** The audit log verifies after any number of restarts: whatever entries
    are logged in whatever runs, each run continuing the chain it finds in
    the file, the file passes the check of its hash chain. *)
Theorem audit_log_verifies (runs : list (list (string * AuditEntry))) :
  VerifyHashChain (foldl run [] runs) = Ok tt.
Proof.
  assert (logger_ok (recoverChain [] ∅) /\ file (recoverChain [] ∅) = []) as [H0 Hf]
    by (split; [exists []; done | done]).
  assert (VerifyHashChain (foldl run (file (recoverChain [] ∅)) runs) = Ok tt) as H; [|by rewrite Hf in H].
  clear Hf. revert H0. generalize (recoverChain [] ∅) as a. induction runs as [|es runs IH]; intros a Ha.
  - by apply logger_ok_file.
  - cbn [foldl]. unfold run at 2. rewrite (proj2 (logger_ok_file a Ha)). apply IH. clear -Ha marshal_line unmarshal_marshal.
    unfold log_all. revert a Ha. induction es as [|e es IH]; intros a Ha; cbn [foldl]; [done|]. by apply IH, Log_ok.
Qed.

(** ** Tampering *)

(** The lines the check looks at. *)
Definition entries (data : list byte) : list (list byte) :=
  filter (fun l => l <> []) (trimSpace <$> splitLines data).

Fixpoint linked (prev : string) (seq : Z) (lines : list (list byte)) : Prop :=
  match lines with
  | [] => True
  | d :: ds => (exists e, unmarshal d = Some e /\ PrevHash e = prev /\ Sequence e = seq) /\
               linked (hashEntry d) (u64 (seq + 1)) ds
  end.

Lemma verify_linked lines : forall i prev seq,
  verify_lines i prev seq lines = Ok tt -> linked prev seq (filter (fun l => l <> []) (trimSpace <$> lines)).
Proof.
  induction lines as [|d ds IH]; intros i prev seq; [done|]. cbn [verify_lines fmap list_fmap].
  rewrite filter_cons. case_bool_decide as Hd.
  - rewrite decide_False by (by intros ?). apply IH.
  - rewrite decide_True by done. destruct (unmarshal (trimSpace d)) as [e|] eqn:Ee; [|done].
    destruct (String.eqb_spec (PrevHash e) prev) as [Hp|]; [|done].
    destruct (Z.eqb_spec (Sequence e) seq) as [Hs|]; [|done]. cbn [negb]. intros Hv.
    split; [by exists e | by eapply IH].
Qed.

Lemma scan_linked lines : forall s prev found,
  linked prev (u64 (s + 1)) (filter (fun l => l <> []) (trimSpace <$> lines)) ->
  filter (fun l => l <> []) (trimSpace <$> lines) <> [] ->
  scan_lines lines found = Some (chain_end prev s (filter (fun l => l <> []) (trimSpace <$> lines))).
Proof.
  induction lines as [|d ds IH]; intros s prev found; [done|]. cbn [scan_lines fmap list_fmap].
  rewrite filter_cons. case_bool_decide as Hd; [rewrite decide_False by (by intros ?); apply IH|].
  rewrite decide_True by done. cbn [linked chain_end]. intros [(e & -> & Hp & Hs) Hl] _. rewrite Hs.
  destruct (decide (filter (fun l => l <> []) (trimSpace <$> ds) = [])) as [E|Hne]; [|by apply IH].
  rewrite E. cbn [chain_end]. clear -E. revert E.
  generalize (u64 (s + 1), hashEntry (trimSpace d)) as x. intros x.
  induction ds as [|d2 ds IH]; intros E; [done|]. cbn [fmap list_fmap scan_lines] in *.
  rewrite filter_cons in E. case_bool_decide; [|by rewrite decide_True in E].
  rewrite decide_False in E by (by intros ?). by apply IH.
Qed.

Lemma linked_snoc lines d : forall prev seq,
  linked prev seq (lines ++ [d]) ->
  linked prev seq lines /\ exists e, unmarshal d = Some e /\ PrevHash e = (chain_end prev seq lines).2 /\
    Sequence e = (chain_end prev seq lines).1.
Proof.
  induction lines as [|d' ds IH]; intros prev seq; cbn [app linked chain_end]; [by intros [H _]|].
  intros [H1 H2]. destruct (IH _ _ H2) as [H3 H4]. done.
Qed.

Lemma chain_end_hash lines : forall prev s s', (chain_end prev s lines).2 = (chain_end prev s' lines).2.
Proof. induction lines as [|d ds IH]; intros prev s s'; cbn [chain_end]; [done | apply IH]. Qed.

Lemma chain_end_length lines : forall prev s, (chain_end prev s lines).1 = u64 (s + len lines) \/ lines = [].
Proof.
  induction lines as [|d ds IH]; intros prev s; [by right|]. left. cbn [chain_end length].
  destruct (IH (hashEntry d) (u64 (s + 1))) as [-> | ->].
  - unfold u64. rewrite Zplus_mod_idemp_l. f_equal. lia.
  - cbn. f_equal.
Qed.

(** Two different lines of one hash, one from each list. *)
Definition collision (lines lines' : list (list byte)) : Prop :=
  exists x y, x ∈ lines /\ y ∈ lines' /\ x <> y /\ sha256 x = sha256 y.

Lemma linked_unique lines : forall lines' prev seq,
  linked prev seq lines -> linked prev seq lines' -> length lines = length lines' ->
  (chain_end prev seq lines).2 = (chain_end prev seq lines').2 -> lines = lines' \/ collision lines lines'.
Proof.
  induction lines as [|d ds IH] using rev_ind; intros lines' prev seq H1 H2 Hl He.
  - left. by destruct lines'.
  - destruct lines' as [|d' ds' _] using rev_ind; [rewrite length_app in Hl; cbn in Hl; lia|].
    rewrite !length_app in Hl. cbn [length] in Hl. rewrite !chain_end_snoc in He. cbn [snd] in He.
    apply Kx.EncodeToString_inj in He. destruct (decide (d = d')) as [<-|Hne]; [|right; exists d, d'; rewrite !elem_of_app, !list_elem_of_singleton; auto].
    destruct (linked_snoc _ _ _ _ H1) as (L1 & e1 & Hu1 & Hp1 & _).
    destruct (linked_snoc _ _ _ _ H2) as (L2 & e2 & Hu2 & Hp2 & _).
    assert (e1 = e2) as <- by congruence.
    destruct (IH ds' prev seq L1 L2) as [->|H]; [lia | congruence | by left |].
    right. destruct H as (x & y & Hx & Hy & Hne). exists x, y. rewrite !elem_of_app. auto.
Qed.

(** C29. Nothing before the end of the log can be changed unnoticed: two files
    that pass the check of their hash chain and end in the same number and
    hash, which is what a logger that continues the chain holds, have the
    same entries, or two different lines, one of each file, have the same
    SHA-256. *)
Theorem audit_tamper_evident data data' :
  VerifyHashChain data = Ok tt -> VerifyHashChain data' = Ok tt ->
  scanChain data = scanChain data' -> entries data <> [] -> entries data' <> [] ->
  len (entries data) < 2 ^ 64 -> len (entries data') < 2 ^ 64 ->
  entries data = entries data' \/ collision (entries data) (entries data').
Proof.
  unfold VerifyHashChain, scanChain. intros H1%verify_linked H2%verify_linked Hs Hn1 Hn2 Hl1 Hl2.
  change 1 with (u64 (0 + 1)) in H1, H2.
  rewrite (scan_linked _ 0 "" None H1 Hn1), (scan_linked _ 0 "" None H2 Hn2) in Hs.
  fold (entries data) in *. fold (entries data') in *.
  injection Hs as Hs. apply (linked_unique _ _ "" (u64 (0 + 1))); [done | done | |].
  - destruct (chain_end_length (entries data) "" 0) as [E1|]; [|done].
    destruct (chain_end_length (entries data') "" 0) as [E2|]; [|done].
    rewrite Hs, E2 in E1. rewrite !Z.add_0_l, !u64_small in E1 by lia. lia.
  - rewrite (chain_end_hash _ _ _ 0), (chain_end_hash (entries data') _ _ 0). by rewrite Hs.
Qed.

(** A rotated log never verifies: the chain goes on in the new file, but
    the check of a file starts from the first number and no previous hash, so
    that the first entry after a rotation is reported as a broken link. *)
Theorem rotated_log_rejected a now e h :
  prevHash a = Kx.EncodeToString h -> h <> [] ->
  VerifyHashChain (file (Log (MkLogger (sequence a) (prevHash a) []) now e)) = Err (PrevHashMismatch 1).
Proof.
  intros Hp Hh. unfold Log. cbn [sequence prevHash file app].
  set (e1 := stamp now e (u64 (sequence a + 1)) (prevHash a)).
  destruct (marshal_line e1) as (H1 & H2 & H3).
  assert (marshal e1 ++ [nl] = as_file [marshal e1]) as -> by (cbn; by rewrite app_nil_r).
  unfold VerifyHashChain. rewrite splitLines_as_file by by repeat constructor.
  cbn [verify_lines]. rewrite H3, bool_decide_false by done.
  destruct (unmarshal_marshal e1 h) as (e2 & -> & _ & Hp2); [apply u64_range | done |].
  rewrite Hp2. cbn [e1 stamp PrevHash]. rewrite Hp.
  destruct (String.eqb_spec (Kx.EncodeToString h) "") as [E|]; [|done].
  destruct Hh. by apply (Kx.EncodeToString_inj h []).
Qed.
End Chain.

(** ** Rotation *)

Lemma shift_backups_lookup fuel : forall k mx fs j,
  0 <= k <= mx -> fuel = Z.to_nat k -> (k < mx -> fs !! (k + 1) = None) ->
  shift_backups fuel k mx fs !! j =
  if bool_decide (2 <= j <= k + 1 /\ j <= mx) then fs !! (j - 1)
  else if bool_decide (j = 1 /\ 1 <= k) then None else fs !! j.
Proof.
  induction fuel as [|fuel IH]; intros k mx fs j Hk Hf Hnone; cbn [shift_backups].
  { rewrite !bool_decide_false by lia. done. }
  rewrite (proj2 (Z.leb_gt _ _)) by lia. destruct (fs !! k) as [f|] eqn:Ek.
  - destruct (Z.eqb_spec k mx) as [->|Hne].
    + rewrite IH by (try lia; intros _; replace (mx - 1 + 1) with mx by lia; apply lookup_delete_eq).
      repeat case_bool_decide; try lia; rewrite ?lookup_delete_ne by lia; try done.
      assert (j = 1) as -> by lia. assert (mx = 1) as -> by lia. by rewrite lookup_delete_eq.
    + rewrite IH by (try lia; intros _; replace (k - 1 + 1) with k by lia;
        rewrite lookup_insert_ne by lia; apply lookup_delete_eq).
      repeat case_bool_decide; try lia; rewrite ?lookup_insert_ne, ?lookup_delete_ne by lia; try done.
      * assert (j = k + 1) as -> by lia. rewrite lookup_insert_eq. by replace (k + 1 - 1) with k by lia.
      * assert (j = 1) as -> by lia. assert (k = 1) as -> by lia.
        rewrite ?lookup_insert_ne by lia. by rewrite lookup_delete_eq.
  - rewrite IH by (try lia; intros _; by replace (k - 1 + 1) with k by lia).
    repeat case_bool_decide; try lia; try done.
    + assert (j = k + 1) as -> by lia. replace (k + 1 - 1) with k by lia.
      rewrite Ek. destruct (decide (k = mx)) as [->|]; [lia | apply Hnone; lia].
    + assert (j = k) as -> by lia. done.
Qed.

(** Rotation keeps the newest files: a write that makes the file too
    large moves it whole to the first backup and every backup one further,
    dropping the oldest, and starts an empty file; a smaller write only
    appends. *)
Theorem rotation_keeps_newest r p :
  1 <= maxBackups r ->
  let current := default [] (files r !! 0) ++ p in
  let fs := files (rotator_Write r p) in
  if (0 <? maxBytes r) && (maxBytes r <=? len current)
  then fs !! 0 = Some [] /\ fs !! 1 = Some current /\
       forall i, 1 <= i < maxBackups r -> fs !! (i + 1) = files r !! i
  else fs = <[0 := current]> (files r).
Proof.
  intros Hm. cbn zeta. unfold rotator_Write, maybeRotate. cbn [maxBytes maxBackups files].
  rewrite lookup_insert_eq.
  change (default [] (Some (default [] (files r !! 0) ++ p))) with (default [] (files r !! 0) ++ p).
  generalize (default [] (files r !! 0) ++ p) as current. intros current.
  destruct (Z.ltb_spec 0 (maxBytes r)) as [H0|H0].
  - rewrite (proj2 (Z.leb_gt (maxBytes r) 0)) by lia. cbn [orb andb].
    destruct (Z.leb_spec (maxBytes r) (len current)) as [Hl|Hl].
    + rewrite (proj2 (Z.ltb_ge _ _)) by done. cbn [files]. split_and!.
      * by rewrite lookup_insert_eq.
      * rewrite lookup_insert_ne by lia. by rewrite lookup_insert_eq.
      * intros i Hi. rewrite !lookup_insert_ne by lia.
        rewrite shift_backups_lookup by (try lia; done). rewrite bool_decide_true by lia.
        rewrite lookup_insert_ne by lia. by replace (i + 1 - 1) with i by lia.
    + rewrite (proj2 (Z.ltb_lt _ _)) by done. done.
  - rewrite (proj2 (Z.leb_le (maxBytes r) 0)) by lia. done.
Qed.

(** ** Examples

    A codec that writes the number and the previous hash in hexadecimal. *)
Module Demo.
Definition marshal (e : AuditEntry) : list byte :=
  bytes_of_string (Kx.EncodeToString (be_bytes 8 (Sequence e) ++ bytes_of_string (PrevHash e))).
Definition unmarshal (l : list byte) : option AuditEntry :=
  b ← Kx.DecodeString (string_of_bytes l);
  Some (MkAudit (be_Z (take 8 b)) (string_of_bytes (drop 8 b)) "" "" "" "" "" "" "").
Definition sha256 (l : list byte) : list byte := x01 :: l.

Lemma hex_chars b : Forall (fun c => is_space c = false /\ c <> nl) (bytes_of_string (Kx.EncodeToString b)).
Proof.
  unfold Kx.EncodeToString. rewrite bytes_of_string_of_bytes.
  assert (forall v, 0 <= v < 16 -> is_space (Kx.hexDigit v) = false /\ Kx.hexDigit v <> nl) as Hd.
  { intros v Hv. assert (v ∈ seqZ 0 16) as Hin by (apply elem_of_seqZ; lia). clear Hv. revert v Hin.
    apply Forall_forall. repeat (apply Forall_cons_2; [vm_compute; done|]). apply Forall_nil_2. }
  induction b as [|x b IH]; [constructor|]. cbn [mbind list_bind app]. pose proof (Z_of_byte_range x).
  assert (0 <= Z_of_byte x / 16 < 16) by (split; [apply Z.div_pos | apply Z.div_lt_upper_bound]; lia).
  apply Forall_cons_2; [by apply Hd|]. apply Forall_cons_2; [apply Hd, Z.mod_pos_bound; lia | apply IH].
Qed.

Lemma trimSpace_none l : Forall (fun c => is_space c = false) l -> trimSpace l = l.
Proof.
  intros Hl. assert (forall l, Forall (fun c => is_space c = false) l -> trim_left l = l) as H.
  { intros k [|c k' Hc _]; cbn; [done|]. by rewrite Hc. }
  unfold trimSpace. rewrite (H l Hl), H by by apply Forall_reverse. apply reverse_involutive.
Qed.

Lemma marshal_line e : (nl ∉ marshal e) /\ marshal e <> [] /\ trimSpace (marshal e) = marshal e.
Proof.
  pose proof (hex_chars (be_bytes 8 (Sequence e) ++ bytes_of_string (PrevHash e))) as Hf. split_and!.
  - intros Hin. rewrite Forall_forall in Hf. by destruct (Hf _ Hin).
  - unfold marshal. intros E. apply (f_equal string_of_bytes) in E. rewrite string_of_bytes_of_string in E.
    apply (Kx.EncodeToString_inj _ []) in E. apply (f_equal length) in E.
    rewrite length_app, be_bytes_length in E. discriminate.
  - apply trimSpace_none. eapply Forall_impl; [exact Hf|]. by intros c [? _].
Qed.

Lemma unmarshal_marshal e h :
  0 <= Sequence e < 2 ^ 64 -> PrevHash e = Kx.EncodeToString h ->
  exists e', unmarshal (marshal e) = Some e' /\ Sequence e' = Sequence e /\ PrevHash e' = PrevHash e.
Proof.
  intros Hs _. unfold unmarshal, marshal. rewrite string_of_bytes_of_string, Kx.DecodeString_EncodeToString.
  cbn [mbind option_bind]. eexists. split; [done|]. cbn [Sequence PrevHash].
  rewrite (take_app_length' _ _ 8), (drop_app_length' _ _ 8) by by rewrite be_bytes_length.
  by rewrite be_Z_u64, string_of_bytes_of_string by done.
Qed.

Definition entry (peer : string) : AuditEntry := MkAudit 0 "" "" peer "" "file_transfer" "" "allow" "explicit_allow".
Definition log : list byte := run sha256 marshal unmarshal [] [("t", entry "a"); ("t", entry "b")].
End Demo.

Lemma audit_log_verifies_witness :
  VerifyHashChain Demo.sha256 Demo.unmarshal
    (foldl (run Demo.sha256 Demo.marshal Demo.unmarshal) []
       [[("t", Demo.entry "a"); ("t", Demo.entry "b")]; [("t", Demo.entry "c")]]) = Ok tt.
Proof. apply (audit_log_verifies _ _ _ Demo.marshal_line Demo.unmarshal_marshal). Defined.

Lemma audit_tamper_evident_witness :
  entries Demo.log = entries (Demo.log ++ [nl]) \/
    collision Demo.sha256 (entries Demo.log) (entries (Demo.log ++ [nl])).
Proof. apply (audit_tamper_evident Demo.sha256 Demo.unmarshal); vm_compute; first [reflexivity | discriminate]. Defined.

Lemma rotated_log_rejected_witness :
  VerifyHashChain Demo.sha256 Demo.unmarshal
    (file (Log Demo.sha256 Demo.marshal (MkLogger 7 (Kx.EncodeToString [x05]) []) "t" (Demo.entry "a")))
  = Err (PrevHashMismatch 1).
Proof.
  apply (rotated_log_rejected _ _ _ Demo.marshal_line Demo.unmarshal_marshal
    (MkLogger 7 (Kx.EncodeToString [x05]) []) "t" (Demo.entry "a") [x05]); [reflexivity | discriminate].
Defined.

Lemma rotation_keeps_newest_witness :
  let r := MkRotator 3 2 (<[0 := [x01; x02]]> (<[1 := [x03]]> (<[2 := [x04]]> ∅))) in
  files (rotator_Write r [x05]) !! 1 = Some [x01; x02; x05] /\ files (rotator_Write r [x05]) !! 2 = Some [x03].
Proof.
  intros r. pose proof (rotation_keeps_newest r [x05] ltac:(cbn; lia)) as H. cbn zeta in H.
  change ((0 <? maxBytes r) && (maxBytes r <=? len (default [] (files r !! 0) ++ [x05]))) with true in H.
  destruct H as (_ & H1 & H2). split; [rewrite H1; vm_compute; reflexivity|].
  change 2 with (1 + 1). rewrite H2; [vm_compute; reflexivity | cbn; lia].
Defined.
End Audit.
