(* ===== verification/Auth.v ===== *)
(** * Authorisation of peers (internal/auth)

    The engine that decides what a peer may do, with its grants, revocations
    and audit log, the scopes of paths and services, the checkers built on
    it, revocation notices and the challenge of an upgrade. Ed25519,
    SHA-256, the JSON codec and the text of a time are parameters. *)
From stdpp Require Import prelude gmap list strings.
From Stdlib Require Import Strings.Byte ZArith Lia.
From S2P Require Import Prelude GoBytes GoNetParse GoPath KeyExchange AuditLog.
Local Open Scope Z_scope.

Module Auth.

(** ** Capabilities (capabilities.go) *)
Definition CapSSHProxy : string := "ssh_proxy".
Definition CapFileTransfer : string := "file_transfer".
Definition CapMonitorRead : string := "monitor_read".
Definition CapMonitorWrite : string := "monitor_write".
Definition CapServiceManage : string := "service_manage".
Definition CapBinaryUpgrade : string := "binary_upgrade".
Definition CapRelay : string := "relay".
Definition CapExit : string := "exit".
Definition AllCapabilities : list string :=
  [CapSSHProxy; CapFileTransfer; CapMonitorRead; CapMonitorWrite; CapServiceManage; CapBinaryUpgrade;
   CapRelay; CapExit].
Definition IsValidCapability (cap : string) : bool := existsb (fun c => String.eqb c cap) AllCapabilities.

(** ** Paths *)

(** [strings.Contains(s, "..")] *)
Fixpoint contains_dotdot (l : list byte) : bool :=
  match l with
  | [] => false
  | b :: l' => bool_decide (take 2 l = Path.dotdot) || contains_dotdot l'
  end.

Definition has_prefix (l p : list byte) : bool := bool_decide (take (length p) l = p).

Definition pathWithinPrefix (resource prefix : string) : bool :=
  let cleanResource := bytes_of_string (Path.Clean resource) in
  let cleanPrefix := bytes_of_string (Path.Clean prefix) in
  if contains_dotdot cleanResource then false else
  if bool_decide (cleanResource = cleanPrefix) then true else
  has_prefix cleanResource (cleanPrefix ++ [Path.sep]).

(** ** The engine (engine.go) *)

(** What the engine reads of the configuration of a peer. *)
Record PeerConfig : Type := MkPeerConfig {
  PublicKey : string; c_Capabilities : list string; ServiceManage : list string;
  c_FileTransferPaths : list string; c_MonitorScopes : list string
}.
Record PeerGrant : Type := MkGrant {
  PeerID : string; Capabilities : gset string; ServiceScopes : gset string;
  FileTransferPaths : list string; MonitorScopes : list string; GrantedAt : Z
}.
Record RevocationEntry : Type := MkRevocation {
  re_PeerID : string; re_RevokedBy : string; re_RevokedAt : Z; re_Signature : string; re_Reason : string
}.
Record AuthResult : Type := MkAuthResult {
  Allowed : bool; Reason : string; Capability : string; Resource : string; SourcePeer : string;
  SourceIP : string; Timestamp : Z
}.

(** [denyCB] is whether a callback is installed, [alerts] what it was given. *)
Record CapabilityEngine : Type := MkEngine {
  grants : gmap string PeerGrant; revoked : gmap string RevocationEntry;
  audit : option Audit.AuditLogger; denyCB : bool; alerts : list AuthResult
}.

Definition set_grants (e : CapabilityEngine) (g : gmap string PeerGrant) : CapabilityEngine :=
  MkEngine g (revoked e) (audit e) (denyCB e) (alerts e).
Definition set_revoked (e : CapabilityEngine) (r : gmap string RevocationEntry) : CapabilityEngine :=
  MkEngine (grants e) r (audit e) (denyCB e) (alerts e).
Definition SetDenyCallback (e : CapabilityEngine) (cb : bool) : CapabilityEngine :=
  MkEngine (grants e) (revoked e) (audit e) cb (alerts e).

Definition LoadPeerConfig (e : CapabilityEngine) (now : Z) (peer : PeerConfig) : CapabilityEngine :=
  set_grants e (<[PublicKey peer :=
    MkGrant (PublicKey peer) (list_to_set (c_Capabilities peer)) (list_to_set (ServiceManage peer))
      (c_FileTransferPaths peer) (c_MonitorScopes peer) now]> (grants e)).

Definition NewCapabilityEngine (peers : list PeerConfig) (now : Z) (audit : option Audit.AuditLogger)
    : CapabilityEngine :=
  foldl (fun e p => match c_Capabilities p with [] => e | _ => LoadPeerConfig e now p end)
    (MkEngine ∅ ∅ audit false []) peers.

Definition Revoke (e : CapabilityEngine) (now : Z) (peerID revokedBy signature reason : string) : CapabilityEngine :=
  set_revoked e (<[peerID := MkRevocation peerID revokedBy now signature reason]> (revoked e)).
Definition Reinstate (e : CapabilityEngine) (peerID : string) : CapabilityEngine :=
  set_revoked e (delete peerID (revoked e)).
Definition IsRevoked (e : CapabilityEngine) (peerID : string) : bool := bool_decide (is_Some (revoked e !! peerID)).
Definition GetGrant (e : CapabilityEngine) (peerID : string) : option PeerGrant := grants e !! peerID.
Definition AllGrants (e : CapabilityEngine) : list PeerGrant := (map_to_list (grants e)).*2.
Definition AllRevocations (e : CapabilityEngine) : list RevocationEntry := (map_to_list (revoked e)).*2.
Definition GrantCount (e : CapabilityEngine) : Z := Z.of_nat (size (grants e)).
Definition RevokedCount (e : CapabilityEngine) : Z := Z.of_nat (size (revoked e)).

Definition allowDeny (allowed : bool) : string := if allowed then "allow" else "deny".

(** The switch over the capability: whether the resource is in scope. *)
Definition scope (grant : PeerGrant) (capability resource : string) : bool * string :=
  if String.eqb capability CapServiceManage then
    if bool_decide (ServiceScopes grant <> ∅) && negb (bool_decide (resource ∈ ServiceScopes grant))
    then (false, "service_not_scoped") else (true, "explicit_allow")
  else if String.eqb capability CapFileTransfer then
    if bool_decide (FileTransferPaths grant <> []) &&
       negb (existsb (fun prefix => pathWithinPrefix resource prefix) (FileTransferPaths grant))
    then (false, "path_denied") else (true, "explicit_allow")
  else if String.eqb capability CapMonitorRead || String.eqb capability CapMonitorWrite then
    if bool_decide (MonitorScopes grant <> []) && negb (String.eqb resource "") &&
       negb (existsb (fun s => String.eqb s resource) (MonitorScopes grant))
    then (false, "scope_denied") else (true, "explicit_allow")
  else (true, "explicit_allow").

Definition decision (e : CapabilityEngine) (sourcePeer capability resource : string) : bool * string :=
  match revoked e !! sourcePeer with
  | Some _ => (false, "revoked")
  | None =>
      match grants e !! sourcePeer with
      | None => (false, "no_capability")
      | Some grant =>
          if negb (bool_decide (capability ∈ Capabilities grant)) then (false, "no_capability")
          else scope grant capability resource
      end
  end.

(** ** Revocation notices (revocation.go) *)
Record RevocationNotice : Type := MkNotice {
  RevokedPeer : string; RevokedBy : string; RevokedAt : string; rn_Reason : string; rn_Signature : string
}.
Definition signableRevocationMessage (revokedPeer revokedBy revokedAt reason : string) : list byte :=
  bytes_of_string (revokedPeer +:+ revokedBy +:+ revokedAt +:+ reason)%string.

Inductive key_error : Type := BadHexKey | BadKeyLength (n : Z).
Definition parseHexKey (hexKey : string) : result key_error (list byte) :=
  match Kx.DecodeString hexKey with
  | None => Err BadHexKey
  | Some raw => if negb (len raw =? 32) then Err (BadKeyLength (len raw)) else Ok raw
  end.

Inductive notice_error : Type := NoticeKey (e : key_error) | NoticeSignatureHex | NoticeInvalid.

(** ** Upgrade challenges (nonce.go) *)
Record pendingChallenge : Type := MkPending { Nonce : list byte; RequesterID : string; IssuedAt : Z; ExpiresAt : Z }.
Record NonceChallenge : Type := MkNonces { pending : gmap string pendingChallenge; ttl : Z }.
Inductive challenge_error : Type :=
| ChallengeRandom
| NoPending
| ChallengeExpired
| ChallengeKey (e : key_error)
| ChallengeSignatureHex
| ChallengeInvalid.

Definition NewNonceChallenge (ttl : Z) : NonceChallenge := MkNonces ∅ (if ttl =? 0 then 60 * 10 ^ 9 else ttl).
Definition Issue (nc : NonceChallenge) (now : Z) (rand : option (list byte)) (requesterPeerID : string)
    : NonceChallenge * result challenge_error (list byte) :=
  match rand with
  | None => (nc, Err ChallengeRandom)
  | Some nonce =>
      (MkNonces (<[requesterPeerID := MkPending nonce requesterPeerID now (now + ttl nc)]> (pending nc)) (ttl nc),
       Ok nonce)
  end.
Definition PendingCount (nc : NonceChallenge) : Z := Z.of_nat (size (pending nc)).
Definition CleanupExpired (nc : NonceChallenge) (now : Z) : NonceChallenge * Z :=
  let expired := filter (fun kv => ExpiresAt kv.2 < now) (pending nc) in
  (MkNonces (filter (fun kv => ~ ExpiresAt kv.2 < now) (pending nc)) (ttl nc), Z.of_nat (size expired)).

(** ** Second factor (totp_middleware.go) *)
Inductive middleware : Type := Next | Forbidden (alert : bool).
Definition NewTOTPMiddleware (isEnrolled : string -> bool) (require2FA : bool) (exemptPaths : list string)
    (user : option string) (onDeny : bool) (path : string) : middleware :=
  if negb require2FA then Next else
  if bool_decide (path ∈ exemptPaths) then Next else
  match user with
  | None => Next
  | Some username =>
      if String.eqb username "" then Next
      else if negb (isEnrolled username) then Forbidden onDeny else Next
  end.

Section Crypto.
Context (sha256 : list byte -> list byte) (marshal : Audit.AuditEntry -> list byte).
Context (ed_sign : list byte -> list byte -> list byte) (ed_public : list byte -> list byte).
Context (ed_verify : list byte -> list byte -> list byte -> bool).
Context (rfc3339 : Z -> string).

Definition logAudit (e : CapabilityEngine) (now : Z) (r : AuthResult) : CapabilityEngine :=
  let entry := Audit.MkAudit 0 "" (rfc3339 (Timestamp r)) (SourcePeer r) (SourceIP r) (Capability r)
    (Resource r) (allowDeny (Allowed r)) (Reason r) in
  MkEngine (grants e) (revoked e)
    ((fun a => Audit.Log sha256 marshal a (rfc3339 now) entry) <$> audit e) (denyCB e)
    (if negb (Allowed r) && denyCB e then alerts e ++ [r] else alerts e).

Definition AuthorizeWithSourceIP (e : CapabilityEngine) (now : Z) (sourcePeer capability resource sourceIP : string)
    : CapabilityEngine * AuthResult :=
  let '(allowed, reason) := decision e sourcePeer capability resource in
  let r := MkAuthResult allowed reason capability resource sourcePeer sourceIP now in
  (logAudit e now r, r).
Definition Authorize (e : CapabilityEngine) (now : Z) (sourcePeer capability resource : string)
    : CapabilityEngine * AuthResult :=
  AuthorizeWithSourceIP e now sourcePeer capability resource "".

(** ** Checkers *)

(** transfer_checker.go and ssh_monitor_checker.go *)
Definition AuthorizeFileTransfer (engine : option CapabilityEngine) (now : Z) (sourcePeer : string)
    : option CapabilityEngine * bool :=
  match engine with
  | None => (None, false)
  | Some e => let '(e, r) := Authorize e now sourcePeer CapFileTransfer "" in (Some e, Allowed r)
  end.
Definition AuthorizeMonitorWrite (engine : option CapabilityEngine) (now : Z) (sourcePeer : string)
    : option CapabilityEngine * bool :=
  match engine with
  | None => (None, false)
  | Some e => let '(e, r) := Authorize e now sourcePeer CapMonitorWrite "" in (Some e, Allowed r)
  end.

(** mesh_identity_checker.go *)
Record MeshIdentityAuthChecker : Type := MkMesh {
  localPublicKey : string; isKnownPeer : option (string -> bool); m_audit : option Audit.AuditLogger
}.
Definition mesh_logAudit (m : MeshIdentityAuthChecker) (now : Z) (sourcePeer : string) (allowed : bool)
    (reason : string) : MeshIdentityAuthChecker :=
  let entry := Audit.MkAudit 0 "" (rfc3339 now) sourcePeer "" CapMonitorWrite "" (allowDeny allowed) reason in
  MkMesh (localPublicKey m) (isKnownPeer m)
    ((fun a => Audit.Log sha256 marshal a (rfc3339 now) entry) <$> m_audit m).
Definition mesh_AuthorizeMonitorWrite (m : MeshIdentityAuthChecker) (now : Z) (sourcePeer : string)
    : MeshIdentityAuthChecker * bool :=
  if String.eqb sourcePeer "" then (mesh_logAudit m now sourcePeer false "empty_peer_id", false)
  else if String.eqb sourcePeer (localPublicKey m) then (mesh_logAudit m now sourcePeer true "self", true)
  else if match isKnownPeer m with Some f => f sourcePeer | None => false end
  then (mesh_logAudit m now sourcePeer true "mesh_member", true)
  else (mesh_logAudit m now sourcePeer false "unknown_peer", false).

(** capability.go: the status of the answer, [None] when the next handler
    is called. *)
Definition RequireCapability (engine : option CapabilityEngine) (now : Z) (cap : string)
    (peer : option string) (remoteAddr : string) : option CapabilityEngine * option Z :=
  match engine with
  | None => (None, Some 500)
  | Some e =>
      match peer with
      | None => (Some e, Some 401)
      | Some peerID =>
          if String.eqb peerID "" then (Some e, Some 401) else
          let '(e, r) := AuthorizeWithSourceIP e now peerID cap "" remoteAddr in
          (Some e, if Allowed r then None else Some 403)
      end
  end.

(** ** Signed messages *)

(** The notice of a node with a 64-byte private key. *)
Definition SignRevocation (revokedPeer : string) (privKey : list byte) (now : Z) (reason : string) : RevocationNotice :=
  let revokedBy := Kx.EncodeToString (ed_public privKey) in
  let revokedAt := rfc3339 now in
  MkNotice revokedPeer revokedBy revokedAt reason
    (Kx.EncodeToString (ed_sign privKey (signableRevocationMessage revokedPeer revokedBy revokedAt reason))).

Definition notice_Verify (rn : RevocationNotice) (revokerPubKey : list byte) : option notice_error :=
  match Kx.DecodeString (rn_Signature rn) with
  | None => Some NoticeSignatureHex
  | Some sig =>
      if negb (ed_verify revokerPubKey
                 (signableRevocationMessage (RevokedPeer rn) (RevokedBy rn) (RevokedAt rn) (rn_Reason rn)) sig)
      then Some NoticeInvalid else None
  end.
Definition VerifyByHexKey (rn : RevocationNotice) (revokerPubKeyHex : string) : option notice_error :=
  match parseHexKey revokerPubKeyHex with
  | Err e => Some (NoticeKey e)
  | Ok pub => notice_Verify rn pub
  end.

Definition nonce_Verify (nc : NonceChallenge) (now : Z) (requesterPeerID requesterPubKeyHex signatureHex : string)
    : NonceChallenge * option challenge_error :=
  match pending nc !! requesterPeerID with
  | None => (nc, Some NoPending)
  | Some ch =>
      let nc := MkNonces (delete requesterPeerID (pending nc)) (ttl nc) in
      if ExpiresAt ch <? now then (nc, Some ChallengeExpired) else
      match parseHexKey requesterPubKeyHex with
      | Err e => (nc, Some (ChallengeKey e))
      | Ok pubKey =>
          match Kx.DecodeString signatureHex with
          | None => (nc, Some ChallengeSignatureHex)
          | Some sig => (nc, if negb (ed_verify pubKey (Nonce ch) sig) then Some ChallengeInvalid else None)
          end
      end
  end.
Definition SignNonce (privKey nonce : list byte) : string := Kx.EncodeToString (ed_sign privKey nonce).

(** ** Decisions *)

Lemma scope_iff g cap res :
  (scope g cap res).1 = true <->
  (cap = CapServiceManage -> ServiceScopes g = ∅ \/ res ∈ ServiceScopes g) /\
  (cap = CapFileTransfer -> FileTransferPaths g = [] \/
     exists prefix, prefix ∈ FileTransferPaths g /\ pathWithinPrefix res prefix = true) /\
  (cap = CapMonitorRead \/ cap = CapMonitorWrite ->
     MonitorScopes g = [] \/ res = "" \/ res ∈ MonitorScopes g).
Proof.
  assert (forall s : list string, existsb (fun x => String.eqb x res) s = true <-> res ∈ s) as Hex.
  { intros s. rewrite existsb_exists. setoid_rewrite String.eqb_eq. setoid_rewrite <-list_elem_of_In.
    split; [by intros (x & Hx & ->) | eauto]. }
  assert (existsb (fun prefix => pathWithinPrefix res prefix) (FileTransferPaths g) = true <->
    exists prefix, prefix ∈ FileTransferPaths g /\ pathWithinPrefix res prefix = true) as Hpath.
  { rewrite existsb_exists. by setoid_rewrite <-list_elem_of_In. }
  unfold scope. destruct (String.eqb_spec cap CapServiceManage) as [->|H1].
  { case_bool_decide as Ha; cbn [andb]; [case_bool_decide as Hb; cbn [negb fst]|]; (split; [intros Ht | intros [H _]]).
    - split_and!; [auto | done | by intros [?|?]].
    - done.
    - done.
    - destruct (H eq_refl); done.
    - split_and!; [|done | by intros [?|?]]. intros _. left. done.
    - done. }
  destruct (String.eqb_spec cap CapFileTransfer) as [->|H2].
  { rewrite <-Hpath. destruct (existsb _ _); case_bool_decide as Ha; cbn [andb negb fst]; (split; [intros Ht | intros (_ & H & _)]);
      try done; try (by destruct (H eq_refl)); (split_and!; [done | auto | by intros [?|?]]). }
  destruct (String.eqb cap CapMonitorRead || String.eqb cap CapMonitorWrite) eqn:Hm.
  - rewrite orb_true_iff, !String.eqb_eq in Hm. rewrite <-Hex.
    destruct (existsb (fun s => String.eqb s res) (MonitorScopes g)), (String.eqb_spec res "");
      case_bool_decide as Ha; cbn [andb negb fst]; (split; [intros Ht; split_and!; [done | done | intros _] | intros (_ & _ & H)]);
      try done; auto; by destruct (H Hm) as [?|[?|?]].
  - cbn [fst]. rewrite orb_false_iff, !String.eqb_neq in Hm.
    split; [intros _; split_and!; [done | done | tauto] | done].
Qed.

(** C25. A peer may do exactly what it was granted: a request is allowed if and
    only if the peer is not revoked, has a grant with the capability, and the
    resource is in the grant's scope for it, an empty scope being no
    restriction; without a grant everything is denied. Every request, allowed
    or not, adds one entry to the audit log, a denied one is reported to the
    installed callback, and grants and revocations do not change. *)
Theorem Authorize_iff e now peer cap res ip :
  let '(e', r) := AuthorizeWithSourceIP e now peer cap res ip in
  (Allowed r = true <->
   revoked e !! peer = None /\ exists g, grants e !! peer = Some g /\ cap ∈ Capabilities g /\
     (cap = CapServiceManage -> ServiceScopes g = ∅ \/ res ∈ ServiceScopes g) /\
     (cap = CapFileTransfer -> FileTransferPaths g = [] \/
        exists prefix, prefix ∈ FileTransferPaths g /\ pathWithinPrefix res prefix = true) /\
     (cap = CapMonitorRead \/ cap = CapMonitorWrite ->
        MonitorScopes g = [] \/ res = "" \/ res ∈ MonitorScopes g)) /\
  grants e' = grants e /\ revoked e' = revoked e /\
  (forall a, audit e = Some a -> exists a', audit e' = Some a' /\
     Audit.sequence a' = u64 (Audit.sequence a + 1) /\
     exists line, Audit.file a' = Audit.file a ++ line ++ [Audit.nl]) /\
  alerts e' = if Allowed r || negb (denyCB e) then alerts e else alerts e ++ [r].
Proof.
  unfold AuthorizeWithSourceIP. destruct (decision e peer cap res) as [ok why] eqn:Ed.
  cbn [Allowed logAudit grants revoked audit alerts]. split_and!; [|done|done| |].
  - assert (ok = (decision e peer cap res).1) as -> by by rewrite Ed. clear. unfold decision.
    destruct (revoked e !! peer); [split; [done | by intros [? _]]|].
    destruct (grants e !! peer) as [g|]; [|split; [done | by intros (_ & ? & ? & _)]].
    case_bool_decide as Hc; cbn [negb].
    + rewrite scope_iff. split; [intros H; split; [done | by exists g]|].
      intros (_ & g' & [= <-] & _ & H). exact H.
    + split; [done|]. by intros (_ & g' & [= <-] & ? & _).
  - intros a ->. eexists. split_and!; [done..|]. by eexists.
  - by destruct ok, (denyCB e).
Qed.

(** ** Revocation *)

Inductive engine_call : Type :=
| CLoad (now : Z) (peer : PeerConfig)
| CAuthorize (now : Z) (peer cap res ip : string)
| CRevoke (now : Z) (peer by_ sig why : string)
| CReinstate (peer : string)
| CCallback (cb : bool).
Definition engine_step (e : CapabilityEngine) (c : engine_call) : CapabilityEngine :=
  match c with
  | CLoad now p => LoadPeerConfig e now p
  | CAuthorize now p cap res ip => (AuthorizeWithSourceIP e now p cap res ip).1
  | CRevoke now p b s w => Revoke e now p b s w
  | CReinstate p => Reinstate e p
  | CCallback cb => SetDenyCallback e cb
  end.

(** A revocation holds until it is taken back: once a peer is revoked, it
    is denied everything with the reason "revoked", whatever grants are
    loaded and whatever else happens, until [Reinstate] is called for it. *)
Theorem revocation_holds e now0 peer by_ sig why cs now cap res ip :
  Forall (fun c => c <> CReinstate peer) cs ->
  let e' := foldl engine_step (Revoke e now0 peer by_ sig why) cs in
  let r := (AuthorizeWithSourceIP e' now peer cap res ip).2 in
  Allowed r = false /\ Reason r = "revoked".
Proof.
  intros Hcs. cbn zeta. set (e1 := Revoke e now0 peer by_ sig why).
  assert (is_Some (revoked e1 !! peer)) as H1 by (cbn; rewrite lookup_insert_eq; by eexists).
  clearbody e1. assert (is_Some (revoked (foldl engine_step e1 cs) !! peer)) as [x Hx].
  { revert e1 H1. induction Hcs as [|c cs Hc _ IH]; intros e1 H1; cbn [foldl]; [done|]. apply IH.
    destruct c as [n p|n p c r i|n p b s w|p|cb]; cbn [engine_step]; try done.
    - unfold AuthorizeWithSourceIP. by destruct (decision _ _ _ _).
    - cbn. apply lookup_insert_is_Some'. by right.
    - cbn. rewrite lookup_delete_ne; [done|]. congruence. }
  unfold AuthorizeWithSourceIP, decision. by rewrite Hx.
Qed.

(** ** Paths *)

Lemma Clean_bytes p : bytes_of_string (Path.Clean p) = Path.clean (bytes_of_string p).
Proof. unfold Path.Clean. apply bytes_of_string_of_bytes. Qed.

Lemma split_join_app c ps l : ps <> [] -> Forall (fun p => c ∉ p) ps ->
  Path.split c (Path.join c ps ++ c :: l) = ps ++ Path.split c l.
Proof.
  intros Hne Hf. induction Hf as [|p ps Hp Hf IH]; [done|]. destruct ps as [|q ps].
  - cbn [Path.join app]. by apply Path.split_app.
  - change (Path.join c (p :: q :: ps)) with (p ++ c :: Path.join c (q :: ps)).
    rewrite <-app_assoc. cbn [app]. rewrite Path.split_app by done. by rewrite IH.
Qed.

Lemma join_nonempty es : es <> [] -> Forall Path.name es -> Path.join Path.sep es <> [].
Proof.
  intros Hne Hn E. destruct es as [|e es]; [done|]. apply Forall_cons in Hn as [(He & _) _].
  destruct e; [done|]. by destruct es.
Qed.

Lemma names_no_sep es : Forall Path.name es -> Forall (fun p => Path.sep ∉ p) es.
Proof. intros Hn. eapply Forall_impl; [exact Hn|]. by intros x (_ & _ & ?). Qed.

(** The text of a path below another. *)
Lemma text_below r ps r' es t :
  Forall Path.name ps -> Forall Path.name es ->
  Path.text r' es = Path.text r ps ++ Path.sep :: t ->
  r' = r /\ ps <> [] /\ exists rest, es = ps ++ rest.
Proof.
  intros Hp He E.
  assert (r' = r) as ->.
  { rewrite <-(Path.text_rooted r' es He), <-(Path.text_rooted r ps Hp), E. unfold Path.rooted.
    destruct (Path.text r ps) as [|b l] eqn:Et; [|done]. exfalso. revert Et. unfold Path.text.
    destruct r; [done|]. destruct ps as [|p ps]; [done|]. by apply join_nonempty. }
  split; [done|]. destruct (decide (ps = [])) as [->|Hps].
  - exfalso. destruct (decide (es = [])) as [->|Hes].
    { apply (f_equal length) in E. rewrite length_app in E. cbn [length] in E. lia. }
    assert (exists x l, Path.join Path.sep es = x ++ Path.sep :: l /\ (x = [] \/ x = Path.dot)) as (x & l & Ej & Hx).
    { unfold Path.text in E. destruct r.
      - cbn [Path.join app] in E. injection E as E. exists [], t. split; [done | by left].
      - exists Path.dot, t. destruct es; [done|]. split; [done | by right]. }
    apply (f_equal (Path.split Path.sep)) in Ej. rewrite Path.split_join in Ej by auto using names_no_sep.
    rewrite Path.split_app in Ej.
    2:{ destruct Hx as [-> | ->]; [by apply not_elem_of_nil|]. intros Hin%list_elem_of_singleton. done. }
    rewrite Ej in He. apply Forall_cons in He as [(H1 & H2 & _) _]. by destruct Hx as [-> | ->].
  - split; [done|]. assert (Path.join Path.sep es = Path.join Path.sep ps ++ Path.sep :: t) as Ej.
    { unfold Path.text in E. destruct r; [by injection E|]. destruct ps as [|p ps]; [done|].
      destruct es as [|e es]; [|done]. exfalso. apply (f_equal length) in E. rewrite length_app in E.
      pose proof (join_nonempty (p :: ps) ltac:(done) Hp).
      destruct (Path.join Path.sep (p :: ps)); [done|]. cbn [length Path.dot] in E. lia. }
    assert (es <> []) as Hes.
    { intros ->. apply (f_equal length) in Ej. rewrite length_app in Ej. cbn [Path.join length] in Ej. lia. }
    apply (f_equal (Path.split Path.sep)) in Ej.
    rewrite Path.split_join, split_join_app in Ej by auto using names_no_sep. by eexists.
Qed.

Lemma has_prefix_spec l p : has_prefix l p = true <-> exists t, l = p ++ t.
Proof.
  unfold has_prefix. rewrite bool_decide_eq_true. split.
  - intros E. exists (drop (length p) l). by rewrite <-E at 1; rewrite take_drop.
  - intros [t ->]. apply take_app_length.
Qed.

(** A path is within a prefix exactly when it lies below it: both paths
    are absolute or both relative, the elements of the cleaned prefix are the
    first elements of the cleaned path, so that [..] does not lead out and
    [/tmp_evil] is not within [/tmp], and no two dots follow each other in
    the cleaned path; a prefix that names only the root or the current
    directory contains just itself. *)
Theorem pathWithinPrefix_iff resource prefix :
  let r := bytes_of_string resource in
  let p := bytes_of_string prefix in
  pathWithinPrefix resource prefix = true <->
  contains_dotdot (Path.clean r) = false /\ Path.rooted r = Path.rooted p /\
  (Path.elements r = Path.elements p \/
   Path.elements p <> [] /\ exists rest, Path.elements r = Path.elements p ++ rest).
Proof.
  cbn zeta. unfold pathWithinPrefix. rewrite !Clean_bytes.
  set (r := bytes_of_string resource). set (p := bytes_of_string prefix). clearbody r p.
  pose proof (Path.elements_names r) as Hr. pose proof (Path.elements_names p) as Hp.
  destruct (contains_dotdot (Path.clean r)); [split; [done | by intros [? _]]|].
  case_bool_decide as Heq.
  - split; [intros _ | done]. unfold Path.clean in Heq. apply Path.text_inj in Heq as [H1 H2]; auto.
  - rewrite has_prefix_spec. unfold Path.clean in *. split.
    + intros [t E]. rewrite <-app_assoc in E. cbn [app] in E. apply text_below in E as (H1 & H2 & H3); auto.
    + intros (_ & Hrt & [He|[Hne [rest He]]]); [destruct Heq; by rewrite Hrt, He|].
      destruct (decide (rest = [])) as [->|Hrest]; [destruct Heq; by rewrite Hrt, He, app_nil_r|].
      exists (Path.join Path.sep rest). rewrite Hrt, He. rewrite <-app_assoc. cbn [app].
      unfold Path.text. rewrite Path.join_app by done. destruct (Path.rooted p); [done|].
      by destruct (Path.elements p).
Qed.

(** The checker of file transfers asks for the resource [""], which cleans
    to the current directory and so lies within no prefix that names
    anything. *)
Lemma no_resource_within prefix : Path.Clean prefix <> "." -> pathWithinPrefix "" prefix = false.
Proof.
  intros Hp. unfold pathWithinPrefix. change (Path.Clean "") with "."%string.
  change (contains_dotdot (bytes_of_string ".")) with false. cbv iota.
  rewrite bool_decide_false by (intros E; destruct Hp; symmetry; apply (f_equal string_of_bytes) in E;
    by rewrite !string_of_bytes_of_string in E).
  unfold has_prefix. apply bool_decide_false. intros E. apply (f_equal length) in E.
  rewrite length_take, length_app in E. change (length (bytes_of_string ".")) with 1%nat in E. cbn [length] in E.
  assert (bytes_of_string (Path.Clean prefix) <> []); [|destruct (bytes_of_string (Path.Clean prefix)); [done | cbn [length] in E; lia]].
  rewrite Clean_bytes. unfold Path.clean, Path.text. pose proof (Path.elements_names (bytes_of_string prefix)).
  destruct (Path.rooted _); [done|]. destruct (Path.elements _); [done|]. by apply join_nonempty.
Qed.

(** A peer whose file transfers are restricted to directories can
    transfer nothing: the checker of incoming transfers authorises the empty
    resource, not the path, and the empty resource is in none of the
    directories, though the engine would allow the same peer each of them. *)
Theorem scoped_transfer_denied e now peer g dir :
  revoked e !! peer = None -> grants e !! peer = Some g -> CapFileTransfer ∈ Capabilities g ->
  dir ∈ FileTransferPaths g -> contains_dotdot (bytes_of_string (Path.Clean dir)) = false ->
  Forall (fun p => Path.Clean p <> ".") (FileTransferPaths g) ->
  (AuthorizeFileTransfer (Some e) now peer).2 = false /\
  Allowed (Authorize e now peer CapFileTransfer dir).2 = true.
Proof.
  intros Hr Hg Hc Hdir Hdd Hf. unfold AuthorizeFileTransfer, Authorize, AuthorizeWithSourceIP, decision.
  rewrite Hr, Hg, bool_decide_true by done. cbn [negb].
  assert (FileTransferPaths g <> []) as Hne by (intros E; rewrite E in Hdir; by apply not_elem_of_nil in Hdir).
  assert (forall res, scope g CapFileTransfer res =
    if negb (existsb (fun prefix => pathWithinPrefix res prefix) (FileTransferPaths g))
    then (false, "path_denied"%string) else (true, "explicit_allow"%string)) as Hs.
  { intros res. unfold scope. by rewrite (bool_decide_true _ Hne). }
  rewrite !Hs. split.
  - assert (existsb (fun prefix => pathWithinPrefix "" prefix) (FileTransferPaths g) = false) as ->; [|done].
    clear -Hf. induction Hf as [|p ps Hp Hf IH]; [done|]. cbn [existsb]. by rewrite no_resource_within, IH.
  - assert (existsb (fun prefix => pathWithinPrefix dir prefix) (FileTransferPaths g) = true) as ->; [|done].
    apply existsb_exists. exists dir. split; [by apply list_elem_of_In|].
    unfold pathWithinPrefix. by rewrite Hdd, bool_decide_true.
Qed.

(** ** Challenges *)

Inductive nonce_call : Type :=
| NIssue (now : Z) (rand : option (list byte)) (peer : string)
| NVerify (now : Z) (peer key sig : string)
| NCleanup (now : Z).
Definition nonce_step (nc : NonceChallenge) (c : nonce_call) : NonceChallenge :=
  match c with
  | NIssue now rand peer => (Issue nc now rand peer).1
  | NVerify now peer key sig => (nonce_Verify nc now peer key sig).1
  | NCleanup now => (CleanupExpired nc now).1
  end.
Definition issues (peer : string) (c : nonce_call) : Prop :=
  match c with NIssue _ _ p => p = peer | _ => False end.

Lemma nonce_absent nc cs peer :
  pending nc !! peer = None -> Forall (fun c => ~ issues peer c) cs ->
  pending (foldl nonce_step nc cs) !! peer = None.
Proof.
  intros Hn Hcs. revert nc Hn. induction Hcs as [|c cs Hc _ IH]; intros nc Hn; cbn [foldl]; [done|]. apply IH.
  destruct c as [now [r|] p|now p key sig|now]; cbn in *; [by rewrite lookup_insert_ne | done | | ].
  - unfold nonce_Verify. destruct (pending nc !! p); [|done]. cbv zeta.
    assert (delete p (pending nc) !! peer = None) by by apply lookup_delete_None; right.
    destruct (_ <? _); [done|]. destruct (parseHexKey _); [|done]. by destruct (Kx.DecodeString _).
  - apply map_lookup_filter_None. by left.
Qed.

(** An upgrade challenge can be answered once: a verification succeeds
    exactly when a challenge is pending for the peer, has not expired, and
    the signature over its nonce verifies under the given key; and after any
    attempt, successful or not, every further attempt fails with no pending
    challenge until a new one is issued to that peer, whatever else
    happens. *)
Theorem nonce_challenge_single_use nc now peer key sig :
  let '(nc', r) := nonce_Verify nc now peer key sig in
  (r = None <-> exists ch pub s, pending nc !! peer = Some ch /\ now <= ExpiresAt ch /\
     parseHexKey key = Ok pub /\ Kx.DecodeString sig = Some s /\ ed_verify pub (Nonce ch) s = true) /\
  forall cs now' key' sig', Forall (fun c => ~ issues peer c) cs ->
    (nonce_Verify (foldl nonce_step nc' cs) now' peer key' sig').2 = Some NoPending.
Proof.
  destruct (nonce_Verify nc now peer key sig) as [nc' r] eqn:E. split.
  - unfold nonce_Verify in E. destruct (pending nc !! peer) as [ch|]; [|injection E as <- <-; split; [done | by intros (? & ? & ? & ? & _)]].
    cbv zeta in E. destruct (Z.ltb_spec (ExpiresAt ch) now).
    { injection E as <- <-. split; [done|]. intros (? & ? & ? & [= <-] & ? & _). lia. }
    destruct (parseHexKey key) as [pub|]; [|injection E as <- <-; split; [done | by intros (? & ? & ? & _ & _ & ? & _)]].
    destruct (Kx.DecodeString sig) as [s|]; [|injection E as <- <-; split; [done | by intros (? & ? & ? & _ & _ & _ & ? & _)]].
    destruct (ed_verify pub (Nonce ch) s) eqn:Ev; injection E as <- <-; cbn [negb].
    + split; [intros _; by exists ch, pub, s | done].
    + split; [done|]. intros (? & ? & ? & [= <-] & _ & [= <-] & [= <-] & ?). congruence.
  - intros cs now' key' sig' Hcs. unfold nonce_Verify at 1. rewrite nonce_absent; [done| |done].
    unfold nonce_Verify in E. destruct (pending nc !! peer) eqn:Hp; [|by injection E as <- _]. cbv zeta in E.
    assert (nc' = MkNonces (delete peer (pending nc)) (ttl nc)) as ->; [|apply lookup_delete_eq].
    destruct (_ <? _); [by injection E|]. destruct (parseHexKey _); [|by injection E].
    destruct (Kx.DecodeString _); by injection E.
Qed.

Section Correct.
Context (ed_correct : forall priv m, ed_verify (ed_public priv) m (ed_sign priv m) = true).
Context (ed_public_length : forall priv, length (ed_public priv) = 32%nat).

Lemma parse_own_key priv : parseHexKey (Kx.EncodeToString (ed_public priv)) = Ok (ed_public priv).
Proof. unfold parseHexKey. by rewrite Kx.DecodeString_EncodeToString, ed_public_length. Qed.

(** The upgrade handshake: a challenge that is signed in time verifies. *)
Lemma nonce_handshake nc now nonce peer priv now' :
  now' <= now + ttl nc ->
  (nonce_Verify (Issue nc now (Some nonce) peer).1 now' peer (Kx.EncodeToString (ed_public priv)) (SignNonce priv nonce)).2
  = None.
Proof.
  intros Ht. unfold nonce_Verify, SignNonce. cbn [Issue fst pending]. rewrite lookup_insert_eq. cbn [ExpiresAt].
  rewrite (proj2 (Z.ltb_ge (now + ttl nc) now')) by lia.
  rewrite parse_own_key, Kx.DecodeString_EncodeToString. cbn [Nonce]. by rewrite ed_correct.
Qed.

(** A signed notice verifies with the key of its signer. *)
Lemma notice_roundtrip peer priv now why :
  VerifyByHexKey (SignRevocation peer priv now why) (Kx.EncodeToString (ed_public priv)) = None.
Proof.
  unfold VerifyByHexKey, notice_Verify. rewrite parse_own_key. cbn [SignRevocation rn_Signature RevokedPeer RevokedBy RevokedAt rn_Reason].
  by rewrite Kx.DecodeString_EncodeToString, ed_correct.
Qed.

(** The signed message does not separate the fields: whoever sees a notice
    can move characters from one field to the next and the signature still
    verifies, so it speaks of another peer. *)
Lemma notice_fields_shift peer c priv now why :
  let rn := SignRevocation (peer +:+ c)%string priv now why in
  let rn' := MkNotice peer (c +:+ RevokedBy rn)%string (RevokedAt rn) why (rn_Signature rn) in
  VerifyByHexKey rn' (Kx.EncodeToString (ed_public priv)) = None.
Proof.
  cbn zeta. unfold VerifyByHexKey, notice_Verify. rewrite parse_own_key.
  cbn [SignRevocation rn_Signature RevokedPeer RevokedBy RevokedAt rn_Reason].
  rewrite Kx.DecodeString_EncodeToString.
  assert (forall by_ at_, signableRevocationMessage peer (c +:+ by_)%string at_ why
    = signableRevocationMessage (peer +:+ c)%string by_ at_ why) as ->; [|by rewrite ed_correct].
  intros by_ at_. unfold signableRevocationMessage. by rewrite !bytes_of_string_app, !app_assoc.
Qed.
End Correct.
End Crypto.

(** ** A deployment *)
Module Demo.
Definition marshal (_ : Audit.AuditEntry) : list byte := [x7b; x7d].
Definition sha256 (l : list byte) : list byte := x01 :: l.
Definition verify (pub m s : list byte) : bool := bool_decide (s = pub ++ m).
Definition text (_ : Z) : string := "t".
Definition peer : PeerConfig := MkPeerConfig "aa" [CapFileTransfer; CapExit] [] ["/srv/in/"] [].
Definition engine : CapabilityEngine := NewCapabilityEngine [peer] 5 None.
End Demo.

Lemma revocation_holds_witness :
  let e' := foldl (engine_step Demo.sha256 Demo.marshal Demo.text)
              (Revoke Demo.engine 6 "aa" "bb" "" "stolen") [CLoad 7 Demo.peer; CReinstate "cc"] in
  let r := (AuthorizeWithSourceIP Demo.sha256 Demo.marshal Demo.text e' 8 "aa" CapExit "" "").2 in
  Allowed r = false /\ Reason r = "revoked".
Proof.
  apply (revocation_holds Demo.sha256 Demo.marshal Demo.text Demo.engine 6 "aa" "bb" "" "stolen").
  repeat (apply Forall_cons_2; [discriminate|]). apply Forall_nil_2.
Defined.

Lemma scoped_transfer_denied_witness :
  (AuthorizeFileTransfer Demo.sha256 Demo.marshal Demo.text (Some Demo.engine) 6 "aa").2 = false /\
  Allowed (Authorize Demo.sha256 Demo.marshal Demo.text Demo.engine 6 "aa" CapFileTransfer "/srv/in/").2 = true.
Proof.
  apply (scoped_transfer_denied Demo.sha256 Demo.marshal Demo.text Demo.engine 6 "aa"
    (MkGrant "aa" {[CapFileTransfer; CapExit]} ∅ ["/srv/in/"%string] [] 5)).
  - vm_compute. reflexivity.
  - vm_compute. reflexivity.
  - cbn [Capabilities]. set_solver.
  - cbn [FileTransferPaths]. left.
  - vm_compute. reflexivity.
  - apply Forall_cons_2; [vm_compute; discriminate | apply Forall_nil_2].
Defined.
End Auth.
