(* ===== verification/GoSort.v ===== *)
(** * Sorting as Go's sort package promises it

    [sort.Slice] is not stable and its order of equal elements is not
    specified; code that calls it is modelled over the interface below.
    Insertion sort, which the package uses for short slices, implements it. *)
From stdpp Require Import prelude list sorting.
From S2P Require Import Prelude.

(** [less] is a strict weak order on the elements of a list. *)
Record weak_order {A} (less : A -> A -> bool) (l : list A) : Prop := {
  wo_asym : forall x y, x ∈ l -> y ∈ l -> less x y = true -> less y x = false;
  wo_trans : forall x y z, x ∈ l -> y ∈ l -> z ∈ l ->
    less y x = false -> less z y = false -> less z x = false
}.

(** No element is less than one before it. *)
Definition sorted {A} (less : A -> A -> bool) : list A -> Prop :=
  StronglySorted (fun x y => less y x = false).

Class SortSlice (sort : forall A : Type, (A -> A -> bool) -> list A -> list A) : Prop := {
  sort_perm {A} (less : A -> A -> bool) l : sort A less l ≡ₚ l;
  sort_sorted {A} (less : A -> A -> bool) l : weak_order less l -> sorted less (sort A less l)
}.

Lemma weak_order_sub {A} (less : A -> A -> bool) l k :
  (forall x, x ∈ k -> x ∈ l) -> weak_order less l -> weak_order less k.
Proof. intros Hs [H1 H2]. split; eauto. Qed.

Lemma weak_order_perm {A} (less : A -> A -> bool) l k : l ≡ₚ k -> weak_order less l -> weak_order less k.
Proof. intros Hp. apply weak_order_sub. intros x. by rewrite Hp. Qed.

Lemma sorted_filter {A} (less : A -> A -> bool) (f : A -> bool) l :
  sorted less l -> sorted less (List.filter f l).
Proof.
  induction 1 as [|x l Hs IH Hf]; cbn; [constructor|]. destruct (f x); [|done].
  constructor; [done|]. rewrite Forall_forall in Hf |- *. intros y Hy. apply Hf.
  apply list_elem_of_In, filter_In in Hy as [Hy _]. by apply list_elem_of_In.
Qed.

Lemma filter_perm {A} (f : A -> bool) l k : l ≡ₚ k -> List.filter f l ≡ₚ List.filter f k.
Proof.
  induction 1 as [|x l k _ IH|x y l|l k m _ IH1 _ IH2]; cbn; [done|..].
  - destruct (f x); by rewrite IH.
  - destruct (f x), (f y); try done. apply Permutation_swap.
  - by rewrite IH1.
Qed.

(** A key orders its elements. *)
Lemma key_order {A} (key : A -> Z) l : weak_order (fun x y => (key x <? key y)%Z) l.
Proof. split; intros *; rewrite ?Z.ltb_ge, ?Z.ltb_lt; lia. Qed.

Section Insertion.
Context {A : Type} (less : A -> A -> bool).

(** The element moves left past those it is less than; the list is the
    sorted part, the last element first. *)
Fixpoint insert_back (x : A) (l : list A) : list A :=
  match l with
  | [] => [x]
  | y :: l' => if less x y then y :: insert_back x l' else x :: l
  end.
Definition insertion_sort (l : list A) : list A := reverse (foldl (fun acc x => insert_back x acc) [] l).

Lemma insert_back_perm x l : insert_back x l ≡ₚ x :: l.
Proof.
  induction l as [|y l IH]; [done|]. cbn. destruct (less x y); [|done]. rewrite IH. apply Permutation_swap.
Qed.

Lemma insertion_sort_perm l : insertion_sort l ≡ₚ l.
Proof.
  unfold insertion_sort. rewrite reverse_Permutation.
  assert (forall acc, foldl (fun acc x => insert_back x acc) acc l ≡ₚ l ++ acc) as H.
  { induction l as [|x l IH]; intros acc; [done|]. cbn [foldl]. rewrite IH, insert_back_perm.
    cbn [app]. by rewrite <-Permutation_middle. }
  by rewrite H, app_nil_r.
Qed.

(** The reversed list descends. *)
Definition descending : list A -> Prop := StronglySorted (fun x y => less x y = false).

Lemma insert_back_descending x l :
  weak_order less (x :: l) -> descending l -> descending (insert_back x l).
Proof.
  intros Hw Hd. induction Hd as [|y l Hd IH Hf]; cbn; [repeat constructor|].
  assert (weak_order less (x :: l)) as Hw'.
  { eapply weak_order_sub; [|exact Hw]. intros z. rewrite !elem_of_cons. tauto. }
  destruct (less x y) eqn:E.
  - constructor; [by apply IH|]. rewrite insert_back_perm. constructor; [|done].
    eapply (wo_asym _ _ Hw); [by left | by right; left | done].
  - constructor; [by constructor|]. constructor; [done|]. rewrite Forall_forall in Hf |- *. intros z Hz.
    eapply (wo_trans _ _ Hw) with y; [right; by right | right; by left | by left | by apply Hf | done].
Qed.

Lemma descending_reverse l : descending l -> sorted less (reverse l).
Proof.
  induction 1 as [|x l Hd IH Hf]; [constructor|]. rewrite reverse_cons.
  apply StronglySorted_app. split_and!; [|done|repeat constructor].
  intros y z Hy ->%list_elem_of_singleton. rewrite Forall_forall in Hf. apply Hf. by apply elem_of_reverse.
Qed.

Lemma insertion_sort_sorted l : weak_order less l -> sorted less (insertion_sort l).
Proof.
  intros Hw. unfold insertion_sort. apply descending_reverse.
  assert (forall acc, weak_order less (l ++ acc) -> descending acc ->
    descending (foldl (fun acc x => insert_back x acc) acc l)) as H.
  { clear Hw. induction l as [|x l IH]; intros acc Hw Hd; [done|]. cbn [foldl]. apply IH.
    - eapply weak_order_perm; [|exact Hw]. rewrite insert_back_perm. cbn [app]. apply Permutation_middle.
    - apply insert_back_descending; [|done]. eapply weak_order_sub; [|exact Hw].
      intros z. rewrite elem_of_app, !elem_of_cons. tauto. }
  apply H; [by rewrite app_nil_r | constructor].
Qed.
End Insertion.

#[export] Instance insertion_SortSlice : SortSlice (@insertion_sort).
Proof. split; intros; [apply insertion_sort_perm | by apply insertion_sort_sorted]. Qed.
