(* ===== verification/PathSelect.v ===== *)
(** * Path selection of the proxy (internal/proxy)

    Paths through relays and their overlap (dispatcher.go, overlap.go), the
    health of relays (relay_health.go), the selector that probes relays and
    picks two paths (path_selector.go) and the cache of measured latencies
    (path_state.go). Probes, the clock, random keys, the order in which Go
    ranges over a map and the sorting of [sort.Slice] are parameters. *)
From stdpp Require Import prelude gmap strings list sorting.
From Stdlib Require Import Strings.Byte ZArith QArith Lia.
From S2P Require Import Prelude GoBytes GoSort WireChunk.
Local Open Scope Z_scope.

Module PathSelect.

Definition second : Z := 10 ^ 9.
Definition millisecond : Z := 10 ^ 6.

(** ** Paths (dispatcher.go) *)
Record Path : Type := MkPath { Relays : list string; RelayKeys : list (list byte) }.
#[export] Instance Path_eq_dec : EqDecision Path.
Proof. solve_decision. Defined.

Definition Nodes (p : Path) : gset string := list_to_set (Relays p).
Definition HasOverlap (a b : Path) : bool :=
  let aNodes := Nodes a in existsb (fun r => bool_decide (r ∈ aNodes)) (Relays b).

(** The round-robin choice of a manual configuration; [key i j] are the
    random bytes of relay [j] on path [i]. *)
Fixpoint split_relays (i : nat) (maxRelaysPerPath : Z) (candidates path1 path2 : list string)
    : list string * list string :=
  match candidates with
  | [] => (path1, path2)
  | relay :: candidates =>
      if Nat.even i && (len path1 <? maxRelaysPerPath)
      then split_relays (S i) maxRelaysPerPath candidates (path1 ++ [relay]) path2
      else if len path2 <? maxRelaysPerPath
      then split_relays (S i) maxRelaysPerPath candidates path1 (path2 ++ [relay])
      else split_relays (S i) maxRelaysPerPath candidates path1 path2
  end.

Inductive select_error : Type :=
| TooFewCandidates (n : Z)
| InsufficientRelays
| SelectedOverlap.
Definition SelectPaths_manual (key : nat -> nat -> list byte) (candidates : list string) (maxRelaysPerPath : Z)
    : result select_error (Path * Path) :=
  if len candidates <? 2 then Err (TooFewCandidates (len candidates)) else
  let '(r1, r2) := split_relays 0 maxRelaysPerPath candidates [] [] in
  if (len r1 =? 0) || (len r2 =? 0) then Err InsufficientRelays else
  let path1 := MkPath r1 (key 0%nat <$> seq 0 (length r1)) in
  let path2 := MkPath r2 (key 1%nat <$> seq 0 (length r2)) in
  if HasOverlap path1 path2 then Err SelectedOverlap else Ok (path1, path2).

(** ** Overlap (overlap.go) *)

(** [SharedNodes] has no order in the code. *)
Record OverlapReport : Type := MkReport {
  report_HasOverlap : bool; SharedNodes : gset string; Path1Nodes : gset string; Path2Nodes : gset string;
  DiversityScore : Q
}.
Definition AnalyzeOverlap (p1 p2 : Path) : OverlapReport :=
  let nodes1 := Nodes p1 in
  let nodes2 := Nodes p2 in
  let shared := nodes1 ∩ nodes2 in
  let unionSize := Z.of_nat (size nodes1) + Z.of_nat (size nodes2) - Z.of_nat (size shared) in
  let diversityScore :=
    if 0 <? unionSize then (1 - inject_Z (Z.of_nat (size shared)) / inject_Z unionSize)%Q else 1%Q in
  MkReport (0 <? Z.of_nat (size shared)) shared nodes1 nodes2 diversityScore.

Inductive overlap_error : Type :=
| NeedTwoPaths (n : Z)
| OverlapDetected (shared : gset string)
| NoDisjointPair (n : Z) (best : Q)
| NoDisjoint (n : Z)
| KeyCount (path keys relays : Z)
| KeyLength (path relay size : Z).

Definition RejectIfOverlap (p1 p2 : Path) : option overlap_error :=
  let report := AnalyzeOverlap p1 p2 in
  if report_HasOverlap report then Some (OverlapDetected (SharedNodes report)) else None.

(** The pairs of the two nested loops, in their order. *)
Fixpoint pairs {A} (l : list A) : list (A * A) :=
  match l with
  | [] => []
  | x :: l => ((fun y => (x, y)) <$> l) ++ pairs l
  end.

Definition Qlt_bool (a b : Q) : bool := negb (Qle_bool b a).

Fixpoint disjoint_loop (ps : list (Path * Path)) (best : option (Path * Path)) (bestDiversity : Q)
    : option (Path * Path) * option Q :=
  match ps with
  | [] => (best, Some bestDiversity)
  | (p1, p2) :: ps =>
      let report := AnalyzeOverlap p1 p2 in
      if negb (report_HasOverlap report) then (Some (p1, p2), None)
      else if Qlt_bool bestDiversity (DiversityScore report)
      then disjoint_loop ps (Some (p1, p2)) (DiversityScore report)
      else disjoint_loop ps best bestDiversity
  end.
Definition FindDisjointPair (candidates : list Path) : option (Path * Path) * option overlap_error :=
  if len candidates <? 2 then (None, Some (NeedTwoPaths (len candidates))) else
  let '(best, d) := disjoint_loop (pairs candidates) None (-1)%Q in
  (best, NoDisjointPair (len candidates) <$> d).

(** [bestScore] starts at the largest float, which stands for no score. *)
Fixpoint best_loop (quality : Path -> Q) (ps : list (Path * Path)) (best : option (Path * Path)) (bestScore : option Q)
    : option (Path * Path) :=
  match ps with
  | [] => best
  | (p1, p2) :: ps =>
      if report_HasOverlap (AnalyzeOverlap p1 p2) then best_loop quality ps best bestScore else
      let score := (quality p1 + quality p2)%Q in
      if match bestScore with None => true | Some b => Qlt_bool score b end
      then best_loop quality ps (Some (p1, p2)) (Some score)
      else best_loop quality ps best bestScore
  end.
Definition FindBestDisjointPair (candidates : list Path) (quality : Path -> Q) : result overlap_error (Path * Path) :=
  if len candidates <? 2 then Err (NeedTwoPaths (len candidates)) else
  match best_loop quality (pairs candidates) None None with
  | Some p => Ok p
  | None => Err (NoDisjoint (len candidates))
  end.

Definition PathQualityMetric (p : Path) : Q := inject_Z (len (Relays p) * 10).
Definition MultiHopOverlap (p1 p2 : Path) : bool := report_HasOverlap (AnalyzeOverlap p1 p2).

Fixpoint check_keys (path i : Z) (keys : list (list byte)) : option overlap_error :=
  match keys with
  | [] => None
  | key :: keys => if negb (len key =? KeySize) then Some (KeyLength path i (len key)) else check_keys path (i + 1) keys
  end.
Definition ValidatePathPair (p1 p2 : Path) : option overlap_error :=
  if negb (len (RelayKeys p1) =? len (Relays p1)) then Some (KeyCount 1 (len (RelayKeys p1)) (len (Relays p1))) else
  if negb (len (RelayKeys p2) =? len (Relays p2)) then Some (KeyCount 2 (len (RelayKeys p2)) (len (Relays p2))) else
  match check_keys 1 0 (RelayKeys p1) with
  | Some e => Some e
  | None => match check_keys 2 0 (RelayKeys p2) with Some e => Some e | None => RejectIfOverlap p1 p2 end
  end.

(** ** Health of relays (relay_health.go) *)
Inductive RelayHealthState : Type := RelayHealthy | RelayDegraded | RelayUnhealthy.
#[export] Instance RelayHealthState_eq_dec : EqDecision RelayHealthState.
Proof. solve_decision. Defined.

Record relayHealthEntry : Type := MkHealth {
  state : RelayHealthState; consecutiveFail : Z; lastSuccess : Z; lastFailure : Z; lastRTT : Z
}.
Record RelayHealthTracker : Type := MkTracker {
  health : gmap string relayHealthEntry; healthRecoveryDelay : Z; unhealthyThreshold : Z; degradedThreshold : Z
}.
Definition DefaultHealthRecoveryDelay : Z := 30 * second.
Definition NewRelayHealthTracker : RelayHealthTracker := MkTracker ∅ DefaultHealthRecoveryDelay 3 1.

Definition with_health (h : RelayHealthTracker) (m : gmap string relayHealthEntry) : RelayHealthTracker :=
  MkTracker m (healthRecoveryDelay h) (unhealthyThreshold h) (degradedThreshold h).
Definition getOrCreate (h : RelayHealthTracker) (nodeID : string) : relayHealthEntry :=
  default (MkHealth RelayHealthy 0 0 0 0) (health h !! nodeID).

Definition RecordSuccess (h : RelayHealthTracker) (now : Z) (nodeID : string) (rtt : Z) : RelayHealthTracker :=
  let entry := getOrCreate h nodeID in
  with_health h (<[nodeID := MkHealth RelayHealthy 0 now (lastFailure entry) rtt]> (health h)).
Definition RecordFailure (h : RelayHealthTracker) (now : Z) (nodeID : string) : RelayHealthTracker :=
  let entry := getOrCreate h nodeID in
  let fails := consecutiveFail entry + 1 in
  let st := if unhealthyThreshold h <=? fails then RelayUnhealthy
            else if degradedThreshold h <=? fails then RelayDegraded else state entry in
  with_health h (<[nodeID := MkHealth st fails (lastSuccess entry) now (lastRTT entry)]> (health h)).

Definition IsHealthy (h : RelayHealthTracker) (nodeID : string) : bool :=
  match health h !! nodeID with None => true | Some e => negb (bool_decide (state e = RelayUnhealthy)) end.
Definition IsUnhealthy (h : RelayHealthTracker) (nodeID : string) : bool :=
  match health h !! nodeID with None => false | Some e => bool_decide (state e = RelayUnhealthy) end.
Definition IsDegraded (h : RelayHealthTracker) (nodeID : string) : bool :=
  match health h !! nodeID with None => false | Some e => bool_decide (state e = RelayDegraded) end.

(** The multiplier in halves: 1.0, 1.5 and 2^30. *)
Definition HealthPenalty (h : RelayHealthTracker) (nodeID : string) : Z :=
  match health h !! nodeID with
  | None => 2
  | Some e => match state e with RelayHealthy => 2 | RelayDegraded => 3 | RelayUnhealthy => 2 * 2 ^ 30 end
  end.
Definition CanRetry (h : RelayHealthTracker) (now : Z) (nodeID : string) : bool :=
  match health h !! nodeID with
  | None => true
  | Some e => if negb (bool_decide (state e = RelayUnhealthy)) then true
              else healthRecoveryDelay h <=? now - lastFailure e
  end.
Definition UnhealthyRelays (h : RelayHealthTracker) : gset string :=
  dom (filter (fun kv => state kv.2 = RelayUnhealthy) (health h)).
Definition Reset (h : RelayHealthTracker) (nodeID : string) : RelayHealthTracker :=
  with_health h (delete nodeID (health h)).
Definition ResetAll (h : RelayHealthTracker) : RelayHealthTracker := with_health h ∅.

(** ** Measured latencies (path_state.go) *)
Definition PathProbeCache : Type := gmap (string * string) Q.
Definition NewPathProbeCache : PathProbeCache := ∅.
Definition cache_Set (c : PathProbeCache) (src dst : string) (latencyMs : Q) : PathProbeCache :=
  <[(src, dst) := latencyMs]> c.
Definition cache_Get (c : PathProbeCache) (src dst : string) : Q := default (-1)%Q (c !! (src, dst)).
Definition AllPairs (c : PathProbeCache) : list (string * string * Q) := map_to_list c.
Definition cache_Clear (c : PathProbeCache) : PathProbeCache := ∅.
Definition Count (c : PathProbeCache) : Z := Z.of_nat (size c).

(** ** The selector (path_selector.go) *)
Record PathProbeResult : Type := MkProbe {
  NodeID : string; MeshAddr : string; RTT : Z; HopCount : Z; Error : option string
}.
#[export] Instance PathProbeResult_eq_dec : EqDecision PathProbeResult.
Proof. solve_decision. Defined.
Record CandidateRelay : Type := MkCandidate {
  c_NodeID : string; c_MeshAddr : string; Capabilities : list string; AdvertisedRTT : Z; MaxCircuits : Z
}.
#[export] Instance CandidateRelay_eq_dec : EqDecision CandidateRelay.
Proof. solve_decision. Defined.

(** The score in tenths. The terms are small multiples of a tenth; the
    rounding of 0.1 in a float is left out. *)
Definition ComputePathScore (rtt hopCount capacity : Z) : Z :=
  let rttMs := Z.quot rtt millisecond in
  let capPenalty := if capacity <=? 0 then 100 else if capacity <? 256 then 256 - capacity else 0 in
  rttMs * 10 + hopCount * 500 + capPenalty.

Record PathSelectorConfig : Type := MkConfig {
  MaxRelaysPerPath : Z; ProbeTimeout : Z; ProbeConcurrency : Z; MinCandidates : Z; MaxCandidates : Z; PathCount : Z
}.
Definition DefaultPathSelectorConfig : PathSelectorConfig := MkConfig 2 (3 * second) 8 2 10 2.

Record probeCacheEntry : Type := MkCached { result_ : PathProbeResult; expires : Z }.
Record PathSelector : Type := MkSelector {
  cfg : PathSelectorConfig; probeCache : gmap string probeCacheEntry; probeCacheTTL : Z;
  healthTracker : RelayHealthTracker
}.
Definition defaultProbeCacheTTL : Z := 30 * second.
Definition or_default (d x : Z) : Z := if x <=? 0 then d else x.
Definition NewPathSelector (c : PathSelectorConfig) : PathSelector :=
  MkSelector (MkConfig (or_default 2 (MaxRelaysPerPath c)) (or_default (3 * second) (ProbeTimeout c))
    (or_default 8 (ProbeConcurrency c)) (or_default 2 (MinCandidates c)) (or_default 10 (MaxCandidates c))
    (or_default 2 (PathCount c))) ∅ defaultProbeCacheTTL NewRelayHealthTracker.

Definition with_cache (ps : PathSelector) (m : gmap string probeCacheEntry) : PathSelector :=
  MkSelector (cfg ps) m (probeCacheTTL ps) (healthTracker ps).
Definition with_tracker (ps : PathSelector) (h : RelayHealthTracker) : PathSelector :=
  MkSelector (cfg ps) (probeCache ps) (probeCacheTTL ps) h.

Definition InvalidateProbeCache (ps : PathSelector) (nodeID : string) : PathSelector :=
  with_cache ps (delete nodeID (probeCache ps)).
Definition ClearProbeCache (ps : PathSelector) : PathSelector := with_cache ps ∅.
Definition MarkRelayUnhealthy (ps : PathSelector) (now : Z) (nodeID : string) : PathSelector :=
  let h := RecordFailure (RecordFailure (RecordFailure (healthTracker ps) now nodeID) now nodeID) now nodeID in
  InvalidateProbeCache (with_tracker ps h) nodeID.

(** *** Probing

    Every candidate has a goroutine of two critical sections: it looks into
    the cache and, when it finds nothing, probes and stores what it measured.
    A schedule lists the goroutine that runs next and the time. *)
Inductive goroutine : Type := Waiting | Probing | Done.
Record probe_state : Type := MkProbing {
  p_cache : gmap string probeCacheEntry; p_pc : gmap nat goroutine; results : gmap nat PathProbeResult
}.

Inductive selector_error : Type :=
| InsufficientCandidates (n need : Z)
| InsufficientHealthy (n need unhealthy : Z)
| TooFewResponses (n : Z)
| NoPair (n : Z)
| NoneRemaining
| NoneHealthy
| AllFailed.

Section Selector.
(** The answer of the dialer to a probe at a time, and [sort.Slice]. *)
Context (dial : Z -> CandidateRelay -> result string Z).
Context (sort_slice : forall A : Type, (A -> A -> bool) -> list A -> list A).

Definition probeRelay (now : Z) (c : CandidateRelay) : PathProbeResult :=
  match dial now c with
  | Ok rtt => MkProbe (c_NodeID c) (c_MeshAddr c) rtt 1 None
  | Err e => MkProbe (c_NodeID c) (c_MeshAddr c) 0 1 (Some e)
  end.

Definition probe_step (ttl : Z) (candidates : list CandidateRelay) (st : probe_state) (s : nat * Z) : probe_state :=
  let '(i, now) := s in
  match candidates !! i with
  | None => st
  | Some c =>
      match default Waiting (p_pc st !! i) with
      | Waiting =>
          match p_cache st !! c_NodeID c with
          | Some cached =>
              if now <? expires cached
              then MkProbing (p_cache st) (<[i := Done]> (p_pc st)) (<[i := result_ cached]> (results st))
              else MkProbing (p_cache st) (<[i := Probing]> (p_pc st)) (results st)
          | None => MkProbing (p_cache st) (<[i := Probing]> (p_pc st)) (results st)
          end
      | Probing =>
          let result := probeRelay now c in
          MkProbing (<[c_NodeID c := MkCached result (now + ttl)]> (p_cache st)) (<[i := Done]> (p_pc st))
            (<[i := result]> (results st))
      | Done => st
      end
  end.

(** The results in the order of the candidates, when all are there. *)
Definition probeCandidates (ps : PathSelector) (sched : list (nat * Z)) (candidates : list CandidateRelay)
    : PathSelector * list PathProbeResult :=
  let st := foldl (probe_step (probeCacheTTL ps) candidates) (MkProbing (probeCache ps) ∅ ∅) sched in
  (with_cache ps (p_cache st), omap (fun i => results st !! i) (seq 0 (length candidates))).

Definition filterCandidates (candidates : list CandidateRelay) : list CandidateRelay :=
  if negb (existsb (fun c => 0 <? AdvertisedRTT c) candidates) then candidates else
  sort_slice _ (fun a b =>
    if (AdvertisedRTT a =? 0) && (0 <? AdvertisedRTT b) then false
    else if (0 <? AdvertisedRTT a) && (AdvertisedRTT b =? 0) then true
    else AdvertisedRTT a <? AdvertisedRTT b) candidates.

Definition top (ps : PathSelector) (filtered : list CandidateRelay) : list CandidateRelay :=
  if MaxCandidates (cfg ps) <? len filtered then take (Z.to_nat (MaxCandidates (cfg ps))) filtered else filtered.

Definition record_probe (now : Z) (h : RelayHealthTracker) (p : PathProbeResult) : RelayHealthTracker :=
  match Error p with
  | Some _ => RecordFailure h now (NodeID p)
  | None => RecordSuccess h now (NodeID p) (RTT p)
  end.

Definition buildPath (r : PathProbeResult) (relayKey : list byte) : Path := MkPath [MeshAddr r] [relayKey].

(** The relay that a pair or a single candidate is scored by, in twentieths. *)
Definition penalised (h : RelayHealthTracker) (r : PathProbeResult) : Z :=
  ComputePathScore (RTT r) (HopCount r) 0 * HealthPenalty h (NodeID r).

(** The loop over pairs; [key] are the random bytes of the n-th call of
    [buildPath]. *)
Fixpoint pair_loop (h : RelayHealthTracker) (key : nat -> list byte) (n : nat)
    (ps : list (PathProbeResult * PathProbeResult)) (best : option (Path * Path)) (bestScore : Z)
    : option (Path * Path) :=
  match ps with
  | [] => best
  | (c1, c2) :: ps =>
      if String.eqb (NodeID c1) (NodeID c2) then pair_loop h key n ps best bestScore else
      let totalScore := penalised h c1 + penalised h c2 in
      if (bestScore <? 0) || (totalScore <? bestScore)
      then pair_loop h key (S (S n)) ps (Some (buildPath c1 (key n), buildPath c2 (key (S n)))) totalScore
      else pair_loop h key n ps best bestScore
  end.
Definition selectDisjointPaths (h : RelayHealthTracker) (key : nat -> list byte) (candidates : list PathProbeResult)
    : result selector_error (Path * Path) :=
  if len candidates <? 2 then Err (TooFewResponses (len candidates)) else
  match pair_loop h key 0 (pairs (take 5 candidates)) None (-1) with
  | Some p => Ok p
  | None => Err (NoPair (len candidates))
  end.

(** [less] of the sort by quality. *)
Definition by_quality (h : RelayHealthTracker) (a b : PathProbeResult) : bool :=
  match Error a, Error b with
  | Some _, None => false
  | None, Some _ => true
  | Some _, Some _ => false
  | None, None => RTT a * HealthPenalty h (NodeID a) <? RTT b * HealthPenalty h (NodeID b)
  end.

Definition eligible (h : RelayHealthTracker) (now : Z) (c : CandidateRelay) : bool :=
  if IsUnhealthy h (c_NodeID c) then CanRetry h now (c_NodeID c) else true.

Definition SelectPaths (ps : PathSelector) (now : Z) (sched : list (nat * Z)) (key : nat -> list byte)
    (candidates : list CandidateRelay) : PathSelector * result selector_error (Path * Path) :=
  let need := MinCandidates (cfg ps) in
  if len candidates <? need then (ps, Err (InsufficientCandidates (len candidates) need)) else
  let healthy := List.filter (eligible (healthTracker ps) now) candidates in
  if len healthy <? need
  then (ps, Err (InsufficientHealthy (len healthy) need (len candidates - len healthy))) else
  let filtered := top ps (filterCandidates healthy) in
  let '(ps, probed) := probeCandidates ps sched filtered in
  let h := foldl (record_probe now) (healthTracker ps) probed in
  let ps := with_tracker ps h in
  let valid := List.filter (fun p => bool_decide (Error p = None)) (sort_slice _ (by_quality h) probed) in
  if len valid <? 2 then (ps, Err (TooFewResponses (len valid))) else
  (ps, selectDisjointPaths h key valid).

Fixpoint best_single (h : RelayHealthTracker) (l : list PathProbeResult) (best : option PathProbeResult) (bestScore : Z)
    : option PathProbeResult :=
  match l with
  | [] => best
  | p :: l =>
      match Error p with
      | Some _ => best_single h l best bestScore
      | None =>
          let score := penalised h p in
          if (bestScore <? 0) || (score <? bestScore) then best_single h l (Some p) score
          else best_single h l best bestScore
      end
  end.

Definition SelectReplacementPath (ps : PathSelector) (now : Z) (sched : list (nat * Z)) (key : nat -> list byte)
    (candidates : list CandidateRelay) (failedRelayIDs : gset string) : PathSelector * result selector_error Path :=
  let remaining := List.filter (fun c =>
    negb (bool_decide (c_NodeID c ∈ failedRelayIDs) || bool_decide (c_MeshAddr c ∈ failedRelayIDs))) candidates in
  if len remaining <? 1 then (ps, Err NoneRemaining) else
  let healthy := List.filter (fun c =>
    negb (IsUnhealthy (healthTracker ps) (c_NodeID c) && negb (CanRetry (healthTracker ps) now (c_NodeID c)))) remaining in
  if len healthy =? 0 then (ps, Err NoneHealthy) else
  let filtered := top ps (filterCandidates healthy) in
  let '(ps, probed) := probeCandidates ps sched filtered in
  let h := foldl (record_probe now) (healthTracker ps) probed in
  let ps := with_tracker ps h in
  match best_single h probed None (-1) with
  | None => (ps, Err AllFailed)
  | Some r => (ps, Ok (buildPath r (key 0%nat)))
  end.
End Selector.

(** *** Exits

    [iter] is the order of a [range] over the exits. *)
Section Exits.
Context (iter : gmap string (gmap string Z) -> list (string * gmap string Z)).

Definition region_step (targetRegion : string) (best : string * Z) (e : string * gmap string Z) : string * Z :=
  match e.2 !! targetRegion with
  | None => best
  | Some rtt => if (best.2 <? 0) || (rtt <? best.2) then (e.1, rtt) else best
  end.
(** The sum does not depend on the order of the regions. *)
Definition average (regions : gmap string Z) : Z :=
  Z.quot (i64 (map_fold (fun _ rtt total => total + rtt) 0 regions)) (Z.of_nat (size regions)).
Definition average_step (best : string * Z) (e : string * gmap string Z) : string * Z :=
  if bool_decide (e.2 = ∅) then best else
  if (best.2 <? 0) || (average e.2 <? best.2) then (e.1, average e.2) else best.

Inductive exit_error : Type := NoProbeData | NoRegion | NoExit (region : string).
Definition SelectExit (exitProbes : gmap string (gmap string Z)) (targetRegion : string) : result exit_error string :=
  if bool_decide (exitProbes = ∅) then Err NoProbeData else
  if String.eqb targetRegion "" then Err NoRegion else
  let bestExit := (foldl (region_step targetRegion) ("", -1) (iter exitProbes)).1 in
  let bestExit := if String.eqb bestExit "" then (foldl average_step (bestExit, -1) (iter exitProbes)).1 else bestExit in
  if String.eqb bestExit "" then Err (NoExit targetRegion) else Ok bestExit.
End Exits.

(** ** Overlap: theorems *)

Lemma HasOverlap_spec a b : HasOverlap a b = true <-> exists r, r ∈ Relays a /\ r ∈ Relays b.
Proof.
  unfold HasOverlap. cbn zeta. unfold Nodes. rewrite existsb_exists. split.
  - intros (r & Hr & Ha%bool_decide_eq_true). exists r. apply elem_of_list_to_set in Ha.
    split; [done | by apply list_elem_of_In].
  - intros (r & Ha & Hb). exists r. split; [by apply list_elem_of_In|].
    apply bool_decide_eq_true. by apply elem_of_list_to_set.
Qed.

(** The analysis of whole paths and the test of the dispatcher agree. *)
Lemma AnalyzeOverlap_HasOverlap a b : report_HasOverlap (AnalyzeOverlap a b) = HasOverlap a b.
Proof.
  apply eq_true_iff_eq. rewrite HasOverlap_spec. cbn [AnalyzeOverlap report_HasOverlap].
  rewrite Z.ltb_lt. split.
  - intros Hs. destruct (set_choose_L (Nodes a ∩ Nodes b)) as [r Hr].
    { intros E. rewrite E, size_empty in Hs. lia. }
    exists r. apply elem_of_intersection in Hr as [Ha Hb]. unfold Nodes in *.
    by split; apply (elem_of_list_to_set (C := gset string)).
  - intros (r & Ha & Hb). assert (r ∈ Nodes a ∩ Nodes b) as Hr.
    { apply elem_of_intersection. split; by apply (elem_of_list_to_set (C := gset string)). }
    assert (size (Nodes a ∩ Nodes b) <> 0%nat); [|lia].
    intros E%size_empty_inv. by apply (E r) in Hr.
Qed.

Lemma pairs_spec {A} (l : list A) x y :
  (x, y) ∈ pairs l <-> exists i j, (i < j)%nat /\ l !! i = Some x /\ l !! j = Some y.
Proof.
  induction l as [|z l IH]; cbn [pairs].
  - split; [by intros ?%not_elem_of_nil | by intros (i & j & _ & ? & _)].
  - rewrite elem_of_app, list_elem_of_fmap, IH. split.
    + intros [(k & [= -> ->] & Hk)|(i & j & Hij & Hi & Hj)].
      * apply list_elem_of_lookup in Hk as [j Hj]. exists 0%nat, (S j). split_and!; [lia | done | done].
      * exists (S i), (S j). split_and!; [lia | done | done].
    + intros (i & j & Hij & Hi & Hj). destruct i as [|i], j as [|j]; cbn in *; try lia.
      * injection Hi as ->. left. exists y. split; [done|]. by eapply list_elem_of_lookup_2.
      * right. exists i, j. split_and!; [lia | done | done].
Qed.

Lemma pairs_nonempty {A} (l : list A) : 2 <= len l -> pairs l <> [].
Proof. destruct l as [|x [|y l]]; cbn [length]; [lia..|]. done. Qed.

Lemma diversity_nonneg p1 p2 : (0 <= DiversityScore (AnalyzeOverlap p1 p2))%Q.
Proof.
  cbn [AnalyzeOverlap DiversityScore].
  assert (size (Nodes p1 ∩ Nodes p2) <= size (Nodes p1))%nat by (apply subseteq_size; set_solver).
  assert (size (Nodes p1 ∩ Nodes p2) <= size (Nodes p2))%nat by (apply subseteq_size; set_solver).
  set (u := _ + _ - _). destruct (Z.ltb_spec 0 u) as [Hu|]; [|done].
  rewrite <-(Qplus_opp_r 1). apply Qplus_le_compat; [apply Qle_refl|]. apply Qopp_le_compat.
  apply Qle_shift_div_r; [change 0%Q with (inject_Z 0); by rewrite <-Zlt_Qlt|].
  rewrite Qmult_1_l, <-Zle_Qle. unfold u. lia.
Qed.

Definition disjoint_paths (p : Path * Path) : Prop := HasOverlap p.1 p.2 = false.

Lemma Qlt_bool_false a b : Qlt_bool a b = false -> (b <= a)%Q.
Proof. unfold Qlt_bool. rewrite negb_false_iff. apply Qle_bool_imp_le. Qed.
Lemma Qlt_bool_true a b : Qlt_bool a b = true -> (a <= b)%Q.
Proof.
  unfold Qlt_bool. rewrite negb_true_iff. intros H. destruct (Qlt_le_dec a b) as [?|Hle]; [by apply Qlt_le_weak|].
  apply Qle_bool_iff in Hle. congruence.
Qed.

Lemma first_disjoint_spec ps : forall best d,
  match disjoint_loop ps best d with
  | (Some p, None) => exists l1 l2, ps = l1 ++ p :: l2 /\ disjoint_paths p /\ Forall (fun q => ~ disjoint_paths q) l1
  | (None, None) => False
  | (r, Some d') => Forall (fun q => ~ disjoint_paths q) ps /\ (d <= d')%Q /\
      (r = best /\ d' = d \/ exists p, r = Some p /\ p ∈ ps /\ d' = DiversityScore (AnalyzeOverlap p.1 p.2)) /\
      Forall (fun q => DiversityScore (AnalyzeOverlap q.1 q.2) <= d')%Q ps
  end.
Proof.
  induction ps as [|[p1 p2] ps IH]; intros best d.
  - destruct best; (split_and!; [constructor | apply Qle_refl | by left | constructor]).
  - cbn [disjoint_loop]. rewrite AnalyzeOverlap_HasOverlap. destruct (HasOverlap p1 p2) eqn:Ho; cbn [negb].
    2:{ exists [], ps. split_and!; [done | done | constructor]. }
    assert (~ disjoint_paths (p1, p2)) as Hno by (unfold disjoint_paths; cbn; congruence).
    destruct (Qlt_bool d (DiversityScore (AnalyzeOverlap p1 p2))) eqn:Hq.
    + specialize (IH (Some (p1, p2)) (DiversityScore (AnalyzeOverlap p1 p2))). apply Qlt_bool_true in Hq.
      destruct (disjoint_loop ps _ _) as [r [d'|]].
      * assert (forall P : Prop, match r with Some _ => P | None => P end <-> P) as Hm by by destruct r.
        rewrite Hm in IH |- *. destruct IH as (H1 & H2 & H3 & H4).
        split_and!; [by constructor | by eapply Qle_trans | | by constructor].
        right. destruct H3 as [[-> ->]|(p & -> & Hp & ->)]; eexists; (split_and!; [done | | done]); [left | by right].
      * destruct r as [p|]; [|done]. destruct IH as (l1 & l2 & -> & Hd & Hf).
        exists ((p1, p2) :: l1), l2. split_and!; [done | done | by constructor].
    + specialize (IH best d). apply Qlt_bool_false in Hq. destruct (disjoint_loop ps _ _) as [r [d'|]].
      * assert (forall P : Prop, match r with Some _ => P | None => P end <-> P) as Hm by by destruct r.
        rewrite Hm in IH |- *. destruct IH as (H1 & H2 & H3 & H4).
        split_and!; [by constructor | done | | constructor; [by eapply Qle_trans | done]].
        destruct H3 as [?|(p & -> & Hp & ->)]; [by left|]. right. eexists. split_and!; [done | by right | done].
      * destruct r as [p|]; [|done]. destruct IH as (l1 & l2 & -> & Hd & Hf).
        exists ((p1, p2) :: l1), l2. split_and!; [done | done | by constructor].
Qed.

(** The search for a disjoint pair finds one when there is one, namely
    the first in the order of the candidates; otherwise it reports an error
    with a pair of largest diversity. *)
Theorem FindDisjointPair_spec candidates :
  match FindDisjointPair candidates with
  | (Some p, None) => exists l1 l2, pairs candidates = l1 ++ p :: l2 /\ disjoint_paths p /\
      Forall (fun q => ~ disjoint_paths q) l1
  | (Some p, Some e) => Forall (fun q => ~ disjoint_paths q) (pairs candidates) /\ p ∈ pairs candidates /\
      e = NoDisjointPair (len candidates) (DiversityScore (AnalyzeOverlap p.1 p.2)) /\
      Forall (fun q => DiversityScore (AnalyzeOverlap q.1 q.2) <= DiversityScore (AnalyzeOverlap p.1 p.2))%Q (pairs candidates)
  | (None, Some e) => len candidates < 2 /\ e = NeedTwoPaths (len candidates)
  | (None, None) => False
  end.
Proof.
  unfold FindDisjointPair. destruct (Z.ltb_spec (len candidates) 2) as [|Hl]; [done|].
  pose proof (first_disjoint_spec (pairs candidates) None (-1)%Q) as H.
  destruct (disjoint_loop _ _ _) as [r [d|]]; cbn [fmap option_fmap option_map]; [|by destruct r].
  assert (Forall (fun q => ~ disjoint_paths q) (pairs candidates) /\
    (exists p, r = Some p /\ p ∈ pairs candidates /\ d = DiversityScore (AnalyzeOverlap p.1 p.2)) /\
    Forall (fun q => DiversityScore (AnalyzeOverlap q.1 q.2) <= d)%Q (pairs candidates)) as (H1 & (p & -> & Hp & ->) & H3).
  { assert (forall P : Prop, match r with Some _ => P | None => P end <-> P) as Hm by by destruct r.
    rewrite Hm in H. destruct H as (H1 & _ & [[-> ->]|H2] & H3); [|done]. exfalso.
    pose proof (pairs_nonempty candidates Hl) as Hne. destruct (pairs candidates) as [|q qs]; [done|].
    apply Forall_cons in H3 as [H3 _]. pose proof (diversity_nonneg q.1 q.2) as H0.
    pose proof (Qle_trans _ _ _ H0 H3). by compute in H. }
  done.
Qed.

Lemma best_loop_spec quality ps : forall best bestScore,
  (best = None <-> bestScore = None) ->
  (forall p b, best = Some p -> bestScore = Some b -> b = (quality p.1 + quality p.2)%Q) ->
  match best_loop quality ps best bestScore with
  | None => best = None /\ Forall (fun q => ~ disjoint_paths q) ps
  | Some p => (best = Some p \/ p ∈ ps /\ disjoint_paths p) /\
      (forall b, bestScore = Some b -> quality p.1 + quality p.2 <= b)%Q /\
      Forall (fun q => disjoint_paths q -> quality p.1 + quality p.2 <= quality q.1 + quality q.2)%Q ps
  end.
Proof.
  induction ps as [|[p1 p2] ps IH]; intros best bestScore Hn Hs.
  - cbn. destruct best as [p|]; [|by split]. split_and!; [by left | | constructor].
    intros b Hb. rewrite (Hs p b eq_refl Hb). apply Qle_refl.
  - cbn [best_loop]. rewrite AnalyzeOverlap_HasOverlap. destruct (HasOverlap p1 p2) eqn:Ho.
    { specialize (IH best bestScore Hn Hs). destruct (best_loop quality ps best bestScore) as [p|].
      - destruct IH as (H1 & H2 & H3). split_and!; [destruct H1 as [?|[? ?]]; [by left | right; by split; [right|]] | done |].
        constructor; [|done]. unfold disjoint_paths. cbn [fst snd]. intros ?. congruence.
      - destruct IH as (H1 & H2). split; [done|]. constructor; [|done]. unfold disjoint_paths. cbn [fst snd]. congruence. }
    destruct (match bestScore with None => true | Some b => Qlt_bool (quality p1 + quality p2) b end) eqn:Hb.
    + specialize (IH (Some (p1, p2)) (Some (quality p1 + quality p2)%Q)).
      destruct (best_loop quality ps _ _) as [p|].
      * destruct IH as (H1 & H2 & H3); [done | by intros p' b [= <-] [= <-] |]. specialize (H2 _ eq_refl).
        split_and!.
        -- right. destruct H1 as [[= <-]|[? ?]]; split; [left | done | by right | done].
        -- intros b ->. eapply Qle_trans; [exact H2|]. by apply Qlt_bool_true.
        -- by constructor.
      * destruct IH as (H1 & _); [done | by intros p' b [= <-] [= <-] | done].
    + destruct bestScore as [b|]; [|done]. apply Qlt_bool_false in Hb.
      destruct best as [p0|]; [|discriminate (proj1 Hn eq_refl)].
      specialize (IH (Some p0) (Some b) Hn Hs). destruct (best_loop quality ps _ _) as [p|]; [|by destruct IH].
      destruct IH as (H1 & H2 & H3). split_and!; [destruct H1 as [?|[? ?]]; [by left | right; by split; [right|]] | done |].
      constructor; [|done]. intros _. eapply Qle_trans; [by apply H2 | exact Hb].
Qed.

(** The best disjoint pair is best: of all pairs of candidates without a
    common relay the one returned has the least sum of qualities, and an
    error is returned only when every pair has a common relay. *)
Theorem FindBestDisjointPair_optimal candidates quality :
  match FindBestDisjointPair candidates quality with
  | Ok p => p ∈ pairs candidates /\ disjoint_paths p /\
      forall q, q ∈ pairs candidates -> disjoint_paths q ->
        (quality p.1 + quality p.2 <= quality q.1 + quality q.2)%Q
  | Err e => Forall (fun q => ~ disjoint_paths q) (pairs candidates)
  end.
Proof.
  unfold FindBestDisjointPair. destruct (Z.ltb_spec (len candidates) 2) as [Hl|_].
  { destruct candidates as [|x [|y l]]; cbn in *; [constructor.. | lia]. }
  pose proof (best_loop_spec quality (pairs candidates) None None ltac:(done) ltac:(done)) as H.
  destruct (best_loop _ _ _ _) as [p|]; [|by destruct H].
  destruct H as ([?|[H1 H2]] & _ & H3); [done|]. rewrite Forall_forall in H3. by split_and!; auto.
Qed.

(** A pair that passes validation is disjoint and has a key of the right
    size for every relay. *)
Lemma ValidatePathPair_sound p1 p2 :
  ValidatePathPair p1 p2 = None ->
  HasOverlap p1 p2 = false /\ length (RelayKeys p1) = length (Relays p1) /\ length (RelayKeys p2) = length (Relays p2) /\
  Forall (fun k => len k = KeySize) (RelayKeys p1 ++ RelayKeys p2).
Proof.
  assert (forall path keys i, check_keys path i keys = None -> Forall (fun k : list byte => len k = KeySize) keys) as Hk.
  { intros path keys. induction keys as [|k keys IH]; intros i H; [constructor|]. cbn in H.
    destruct (Z.eqb_spec (len k) KeySize); [|done]. constructor; [done | eapply IH; exact H]. }
  unfold ValidatePathPair. destruct (Z.eqb_spec (len (RelayKeys p1)) (len (Relays p1))); [cbn [negb]|done].
  destruct (Z.eqb_spec (len (RelayKeys p2)) (len (Relays p2))); [cbn [negb]|done].
  destruct (check_keys 1 0 _) eqn:E1; [done|]. destruct (check_keys 2 0 _) eqn:E2; [done|].
  unfold RejectIfOverlap. rewrite AnalyzeOverlap_HasOverlap. destruct (HasOverlap p1 p2); [done|].
  intros _. split_and!; [done | lia | lia |]. apply Forall_app. eauto.
Qed.

(** ** Health: the tracker refines the count of failures since the last success *)

Inductive health_call : Type :=
| HSuccess (now : Z) (node : string) (rtt : Z)
| HFailure (now : Z) (node : string)
| HReset (node : string)
| HResetAll.
Definition health_step (h : RelayHealthTracker) (c : health_call) : RelayHealthTracker :=
  match c with
  | HSuccess now n rtt => RecordSuccess h now n rtt
  | HFailure now n => RecordFailure h now n
  | HReset n => Reset h n
  | HResetAll => ResetAll h
  end.

(** The failures of a node since it last answered or was reset, and the time
    of the latest. *)
Definition failures (node : string) (cs : list health_call) : Z * Z :=
  foldl (fun '(n, t) c => match c with
    | HSuccess _ k _ => if String.eqb k node then (0, t) else (n, t)
    | HFailure now k => if String.eqb k node then (n + 1, now) else (n, t)
    | HReset k => if String.eqb k node then (0, 0) else (n, t)
    | HResetAll => (0, 0)
    end) (0, 0) cs.

Definition entry_of (n t : Z) (e : option relayHealthEntry) : Prop :=
  match e with
  | None => n = 0 /\ t = 0
  | Some e => consecutiveFail e = n /\ lastFailure e = t /\ 0 <= n /\
      state e = (if 3 <=? n then RelayUnhealthy else if 1 <=? n then RelayDegraded else RelayHealthy)
  end.

Lemma failures_refined cs node :
  let h := foldl health_step NewRelayHealthTracker cs in
  (unhealthyThreshold h = 3 /\ degradedThreshold h = 1 /\ healthRecoveryDelay h = DefaultHealthRecoveryDelay) /\
  entry_of (failures node cs).1 (failures node cs).2 (health h !! node).
Proof.
  cbn zeta. induction cs as [|c cs IH] using rev_ind; [done|]. unfold failures in *.
  rewrite !foldl_app. cbn [foldl]. destruct (foldl _ (0, 0) cs) as [n t].
  set (h := foldl health_step NewRelayHealthTracker cs) in *. cbn [fst snd] in *.
  destruct IH as ((Hu & Hd & Hr) & He). split; [by destruct c|].
  destruct c as [now k rtt|now k|k|]; cbn [health_step RecordSuccess RecordFailure Reset ResetAll with_health health].
  - destruct (String.eqb_spec k node) as [->|Hne]; [|by rewrite lookup_insert_ne].
    rewrite lookup_insert_eq. cbn. unfold getOrCreate. destruct (health h !! node) as [e|]; cbn in *; [|by destruct He as [_ ->]].
    by destruct He as (_ & -> & _).
  - destruct (String.eqb_spec k node) as [->|Hne]; [|by rewrite lookup_insert_ne].
    rewrite lookup_insert_eq. cbn. rewrite Hu, Hd. unfold getOrCreate.
    destruct (health h !! node) as [e|]; cbn in *.
    + destruct He as (-> & _ & Hn & Hst). split_and!; [done | done | lia |].
      destruct (Z.leb_spec 3 (n + 1)), (Z.leb_spec 1 (n + 1)); try done; lia.
    + destruct He as [-> ->]. done.
  - destruct (String.eqb_spec k node) as [->|Hne]; [|by rewrite lookup_delete_ne]. by rewrite lookup_delete_eq.
  - by rewrite lookup_empty.
Qed.

(** The health of a relay is the number of probes it failed in a row:
    after any calls a relay is excluded exactly when it failed three probes
    or more since its last success or reset, penalised at one or two, and may
    be tried again when the recovery delay has passed since its last
    failure. *)
Theorem health_refines_failures cs node now :
  let h := foldl health_step NewRelayHealthTracker cs in
  let '(n, t) := failures node cs in
  IsUnhealthy h node = (3 <=? n) /\ IsDegraded h node = (1 <=? n) && (n <? 3) /\ IsHealthy h node = (n <? 3) /\
  HealthPenalty h node = (if 3 <=? n then 2 ^ 31 else if 1 <=? n then 3 else 2) /\
  CanRetry h now node = (n <? 3) || (DefaultHealthRecoveryDelay <=? now - t).
Proof.
  cbn zeta. pose proof (failures_refined cs node) as H. cbn zeta in H.
  destruct (failures node cs) as [n t]. destruct H as ((_ & _ & Hd) & He). cbn [fst snd] in He.
  unfold IsUnhealthy, IsDegraded, IsHealthy, HealthPenalty, CanRetry. rewrite Hd.
  destruct (health _ !! node) as [e|]; cbn [entry_of] in He.
  - destruct He as (_ & -> & Hn & ->). destruct (Z.leb_spec 3 n), (Z.leb_spec 1 n), (Z.ltb_spec n 3); try lia; done.
  - by destruct He as [-> ->].
Qed.

(** ** Probing: theorems *)

Section Probing.
Context (dial : Z -> CandidateRelay -> result string Z).
Context (dial_nonneg : forall now c rtt, dial now c = Ok rtt -> 0 <= rtt).

(** A result of one hop with a time that is not negative. *)
Definition probe_ok (id : string) (r : PathProbeResult) : Prop :=
  NodeID r = id /\ HopCount r = 1 /\ 0 <= RTT r.
Definition cache_wf (m : gmap string probeCacheEntry) : Prop := map_Forall (fun k e => probe_ok k (result_ e)) m.

Lemma probeRelay_ok now c : probe_ok (c_NodeID c) (probeRelay dial now c).
Proof. unfold probeRelay. destruct (dial now c) as [rtt|e] eqn:E; split_and!; try done. by eapply dial_nonneg. Qed.

Definition probing_wf (cs : list CandidateRelay) (st : probe_state) : Prop :=
  cache_wf (p_cache st) /\
  forall i r, results st !! i = Some r -> exists c, cs !! i = Some c /\ probe_ok (c_NodeID c) r.

Lemma probe_step_wf ttl cs st s : probing_wf cs st -> probing_wf cs (probe_step dial ttl cs st s).
Proof.
  intros [H1 H2]. destruct s as [i now]. unfold probe_step. destruct (cs !! i) as [c|] eqn:Hc; [|by split].
  destruct (default Waiting (p_pc st !! i)); [|split; cbn|by split].
  - destruct (p_cache st !! c_NodeID c) as [e|] eqn:He; [|by split].
    destruct (now <? expires e); split; cbn; try done.
    intros j r [[<- <-]|[_ Hr]]%lookup_insert_Some; [|by apply H2]. exists c. split; [done|]. by apply (H1 (c_NodeID c)).
  - apply map_Forall_insert_2; [apply probeRelay_ok | done].
  - intros j r [[<- <-]|[_ Hr]]%lookup_insert_Some; [|by apply H2]. exists c. split; [done|]. apply probeRelay_ok.
Qed.

Lemma results_sublist (res : gmap nat PathProbeResult) cs : forall k,
  (forall i r, res !! (k + i)%nat = Some r -> exists c, cs !! i = Some c /\ probe_ok (c_NodeID c) r) ->
  let l := omap (fun i => res !! i) (seq k (length cs)) in
  (NodeID <$> l) `sublist_of` (c_NodeID <$> cs) /\ Forall (fun r => HopCount r = 1 /\ 0 <= RTT r) l.
Proof.
  cbn zeta. induction cs as [|c cs IH]; intros k H; [by split|]. cbn [length seq omap list_omap].
  destruct (IH (S k)) as [IH1 IH2].
  { intros i r Hr. apply (H (S i) r). by rewrite Nat.add_succ_r. }
  destruct (res !! k) as [r|] eqn:Hk.
  - destruct (H 0%nat r) as (c' & [= <-] & Hid & Ho); [by rewrite Nat.add_0_r|].
    cbn [fmap list_fmap]. rewrite Hid. split; [by apply sublist_skip | by constructor].
  - split; [by apply sublist_cons | done].
Qed.

(** Whatever the schedule, the results belong to the candidates, in their
    order. *)
Lemma probeCandidates_ok ps sched cs :
  cache_wf (probeCache ps) ->
  let '(ps', probed) := probeCandidates dial ps sched cs in
  cache_wf (probeCache ps') /\ (NodeID <$> probed) `sublist_of` (c_NodeID <$> cs) /\
  Forall (fun r => HopCount r = 1 /\ 0 <= RTT r) probed.
Proof.
  intros Hw. unfold probeCandidates.
  assert (probing_wf cs (foldl (probe_step dial (probeCacheTTL ps) cs) (MkProbing (probeCache ps) ∅ ∅) sched)) as [H1 H2].
  { assert (probing_wf cs (MkProbing (probeCache ps) ∅ ∅)) as H0 by (split; [done | intros i r Hr; cbn in Hr; by rewrite lookup_empty in Hr]).
    revert H0. generalize (MkProbing (probeCache ps) ∅ ∅).
    induction sched as [|s sched IH]; intros st H0; [done|]. by apply IH, probe_step_wf. }
  split; [done|]. by apply (results_sublist _ cs 0).
Qed.

(** What a probe of [c] reports: a cached measurement that has not expired,
    or the answer of the dialer at one of the times of the schedule. *)
Definition measured (cache : gmap string probeCacheEntry) (times : list Z) (c : CandidateRelay) (r : PathProbeResult) : Prop :=
  exists t, t ∈ times /\
    ((exists e, cache !! c_NodeID c = Some e /\ t < expires e /\ r = result_ e) \/
     match dial t c with
     | Ok rtt => r = MkProbe (c_NodeID c) (c_MeshAddr c) rtt 1 None
     | Err e => r = MkProbe (c_NodeID c) (c_MeshAddr c) 0 1 (Some e)
     end).

Definition measured_wf (cache : gmap string probeCacheEntry) (times : list Z) (cs : list CandidateRelay)
    (st : probe_state) : Prop :=
  (forall i c e, cs !! i = Some c -> p_cache st !! c_NodeID c = Some e ->
     cache !! c_NodeID c = Some e \/ measured cache times c (result_ e)) /\
  (forall i r, results st !! i = Some r -> exists c, cs !! i = Some c /\ measured cache times c r).

Lemma probeRelay_measured cache times now c : now ∈ times -> measured cache times c (probeRelay dial now c).
Proof. intros Ht. exists now. split; [done|]. right. unfold probeRelay. by destruct (dial now c). Qed.

Lemma probe_step_measured ttl cache times cs st s :
  NoDup (c_NodeID <$> cs) -> s.2 ∈ times -> measured_wf cache times cs st ->
  measured_wf cache times cs (probe_step dial ttl cs st s).
Proof.
  intros Hnd Ht [H1 H2]. destruct s as [i now]. cbn [snd] in Ht. unfold probe_step.
  destruct (cs !! i) as [c|] eqn:Hc; [|by split].
  destruct (default Waiting (p_pc st !! i)); [| |by split].
  - destruct (p_cache st !! c_NodeID c) as [e|] eqn:He; [|by split].
    destruct (Z.ltb_spec now (expires e)); split; cbn; try done.
    intros j r [[<- <-]|[_ Hr]]%lookup_insert_Some; [|by apply H2]. exists c. split; [done|].
    destruct (H1 _ _ _ Hc He) as [Hi|Hm]; [|done]. exists now. split; [done|]. left. by exists e.
  - split; cbn.
    + intros j c' e Hc' [[Hid <-]|[_ He]]%lookup_insert_Some; [|by eapply H1]. right.
      assert (i = j) as <- by (eapply (NoDup_lookup (c_NodeID <$> cs)); [done | by rewrite list_lookup_fmap, Hc | rewrite list_lookup_fmap, Hc'; cbn; by rewrite Hid]).
      assert (c' = c) as -> by congruence. by apply probeRelay_measured.
    + intros j r [[<- <-]|[_ Hr]]%lookup_insert_Some; [|by apply H2]. exists c. split; [done|]. by apply probeRelay_measured.
Qed.

Lemma probeCandidates_measured ps sched cs r :
  NoDup (c_NodeID <$> cs) -> r ∈ (probeCandidates dial ps sched cs).2 ->
  exists c, c ∈ cs /\ measured (probeCache ps) sched.*2 c r.
Proof.
  intros Hnd Hr. unfold probeCandidates in Hr. cbn [snd] in Hr. apply list_elem_of_omap in Hr as (i & _ & Hi).
  enough (measured_wf (probeCache ps) sched.*2 cs
    (foldl (probe_step dial (probeCacheTTL ps) cs) (MkProbing (probeCache ps) ∅ ∅) sched)) as [_ H].
  { destruct (H i r Hi) as (c & Hc & Hm). exists c. split; [by eapply list_elem_of_lookup_2 | done]. }
  clear Hi. assert (measured_wf (probeCache ps) sched.*2 cs (MkProbing (probeCache ps) ∅ ∅)) as H0.
  { split; cbn; [by left | intros j r' Hj; by rewrite lookup_empty in Hj]. }
  assert (forall s, s ∈ sched -> s.2 ∈ sched.*2) as Hin by (intros s Hs; by apply list_elem_of_fmap_2).
  revert H0 Hin. generalize (sched.*2) as times. intros times. generalize (MkProbing (probeCache ps) ∅ ∅).
  induction sched as [|s sched IH]; intros st H0 Hin; [done|]. cbn [foldl].
  apply IH; [|intros s' Hs'; apply Hin; by right]. apply probe_step_measured; [done | apply Hin; by left | done].
Qed.

(** Every goroutine that runs twice is done. *)
Lemma probeCandidates_complete ps sched cs :
  (forall i, (i < length cs)%nat -> (2 <= length (filter (fun s => s.1 = i) sched))%nat) ->
  length (probeCandidates dial ps sched cs).2 = length cs.
Proof.
  intros Hs. unfold probeCandidates. cbn [snd].
  set (st0 := MkProbing (probeCache ps) ∅ ∅). set (ttl := probeCacheTTL ps).
  set (left st i := match default Waiting (p_pc st !! i) with Waiting => 2%nat | Probing => 1%nat | Done => 0%nat end).
  assert (forall i, (i < length cs)%nat -> forall sched st,
    (left st i = 0%nat -> is_Some (results st !! i)) -> (left st i <= length (filter (fun s => s.1 = i) sched))%nat ->
    is_Some (results (foldl (probe_step dial ttl cs) st sched) !! i)) as H.
  { intros i Hi. apply lookup_lt_is_Some_2 in Hi as [c Hc]. clear sched Hs. intros sched.
    induction sched as [|[j now] sched IH]; intros st H0 Hl; [apply H0; cbn in Hl; lia|]. cbn [foldl].
    rewrite filter_cons in Hl. cbn [fst] in Hl. destruct (decide (j = i)) as [->|Hne].
    - cbn [length] in Hl. apply IH; unfold probe_step; rewrite Hc; subst left; cbn in *;
        destruct (default Waiting (p_pc st !! i)) eqn:Hpc; try destruct (p_cache st !! c_NodeID c) as [e|];
        try destruct (now <? expires e); cbn in *; rewrite ?lookup_insert_eq, ?Hpc in *; cbn in *; try done; try lia; by eexists.
    - assert (left (probe_step dial ttl cs st (j, now)) i = left st i /\
        results (probe_step dial ttl cs st (j, now)) !! i = results st !! i) as [E1 E2].
      { subst left. unfold probe_step. destruct (cs !! j) as [c'|]; [|done].
        destruct (default Waiting (p_pc st !! j)); try destruct (p_cache st !! c_NodeID c') as [e|];
        try destruct (now <? expires e); cbn; by rewrite ?lookup_insert_ne by done. }
      apply IH; rewrite ?E1, ?E2; done. }
  assert (forall n k, (forall i, (k <= i < k + n)%nat -> is_Some (results (foldl (probe_step dial ttl cs) st0 sched) !! i)) ->
    length (omap (fun i => results (foldl (probe_step dial ttl cs) st0 sched) !! i) (seq k n)) = n) as Hlen.
  { intros n. induction n as [|n IH]; intros k Hk; [done|]. cbn [seq omap list_omap].
    destruct (Hk k ltac:(lia)) as [r ->]. cbn [length]. f_equal. apply IH. intros i Hi. apply Hk. lia. }
  apply Hlen. intros i Hi. apply H; [lia | | apply Hs; lia]. subst left. cbn. by rewrite lookup_empty.
Qed.
End Probing.

(** ** Selection: theorems *)

Lemma record_other now h q k : NodeID q <> k -> health (record_probe now h q) !! k = health h !! k.
Proof.
  intros Hne. unfold record_probe, RecordFailure, RecordSuccess.
  destruct (Error q); cbn [with_health health]; by rewrite lookup_insert_ne.
Qed.

Lemma record_all_other now l k : forall h,
  k ∉ (NodeID <$> l) -> health (foldl (record_probe now) h l) !! k = health h !! k.
Proof.
  induction l as [|q l IH]; intros h Hk; [done|]. cbn [fmap list_fmap] in Hk. apply not_elem_of_cons in Hk as [Hne Hk].
  cbn [foldl]. rewrite IH by done. by apply record_other.
Qed.

(** A relay that answered is healthy again before it is scored. *)
Lemma responder_not_penalised now l h p :
  NoDup (NodeID <$> l) -> p ∈ l -> Error p = None -> HealthPenalty (foldl (record_probe now) h l) (NodeID p) = 2.
Proof.
  intros Hnd Hp He. apply list_elem_of_split in Hp as (l1 & l2 & ->). unfold HealthPenalty.
  rewrite foldl_app. cbn [foldl]. rewrite record_all_other.
  - unfold record_probe at 1. rewrite He. cbn [RecordSuccess with_health health]. by rewrite lookup_insert_eq.
  - rewrite fmap_app in Hnd. cbn [fmap list_fmap] in Hnd. apply NoDup_app in Hnd as (_ & _ & Hnd).
    by apply NoDup_cons in Hnd as [? _].
Qed.

Lemma by_quality_order h l : weak_order (by_quality h) l.
Proof.
  split; unfold by_quality; intros *; repeat case_match; rewrite ?Z.ltb_lt, ?Z.ltb_ge; try done; lia.
Qed.

Lemma penalised_value h r :
  HopCount r = 1 -> HealthPenalty h (NodeID r) = 2 -> penalised h r = (Z.quot (RTT r) millisecond * 10 + 600) * 2.
Proof. intros Hh Hp. unfold penalised, ComputePathScore. rewrite Hh, Hp. change (0 <=? 0) with true. lia. Qed.

Lemma quot_ms_mono a b : 0 <= a <= b -> 0 <= Z.quot a millisecond <= Z.quot b millisecond.
Proof.
  intros H. unfold millisecond. rewrite !Z.quot_div_nonneg by lia.
  split; [apply Z.div_pos; lia | apply Z.div_le_mono; lia].
Qed.

Lemma pair_loop_keep h key n ps best s :
  0 <= s -> Forall (fun q => s <= penalised h q.1 + penalised h q.2) ps -> pair_loop h key n ps best s = best.
Proof.
  intros Hs Hf. induction Hf as [|[a b] ps Hab Hf IH]; [done|]. cbn [pair_loop fst snd] in *.
  destruct (String.eqb _ _); [done|]. rewrite (proj2 (Z.ltb_ge s 0)) by lia.
  by rewrite (proj2 (Z.ltb_ge _ s)) by lia.
Qed.

(** Of relays sorted by their times the first two are chosen. *)
Lemma selectDisjointPaths_first h key r1 r2 rest :
  let valid := r1 :: r2 :: rest in
  NoDup (NodeID <$> valid) -> Forall (fun r => HopCount r = 1 /\ 0 <= RTT r /\ HealthPenalty h (NodeID r) = 2) valid ->
  sorted (fun a b => RTT a <? RTT b) valid ->
  selectDisjointPaths h key valid = Ok (buildPath r1 (key 0%nat), buildPath r2 (key 1%nat)).
Proof.
  cbn zeta. intros Hnd Hf Hs. unfold selectDisjointPaths.
  rewrite (proj2 (Z.ltb_ge _ 2)) by (cbn [length]; lia). change (take 5 (r1 :: r2 :: rest)) with (r1 :: r2 :: take 3 rest).
  cbn [pairs fmap list_fmap app pair_loop]. cbn [fmap list_fmap] in Hnd.
  apply NoDup_cons in Hnd as [H1 Hnd]. apply not_elem_of_cons in H1 as [H12 H1].
  rewrite (proj2 (String.eqb_neq _ _)) by done. change ((-1 <? 0) || _) with true. cbv iota.
  assert (forall r, r ∈ take 3 rest -> r ∈ rest) as Hin by (intros r Hr; by eapply elem_of_submseteq, sublist_submseteq, sublist_take).
  apply Forall_cons in Hf as [(Hh1 & Ht1 & Hp1) Hf]. apply Forall_cons in Hf as [(Hh2 & Ht2 & Hp2) Hf].
  apply StronglySorted_inv in Hs as [Hs Hs1]. apply StronglySorted_inv in Hs as [Hs Hs2].
  apply Forall_cons in Hs1 as [Hs12 Hs1]. rewrite Z.ltb_ge in Hs12. rewrite Forall_forall in Hf, Hs1, Hs2.
  assert (forall r, r ∈ take 3 rest -> penalised h r2 <= penalised h r) as Hr2.
  { intros r Hr%Hin. destruct (Hf r Hr) as (Hh & Ht & Hp). specialize (Hs2 r Hr). cbn in Hs2. rewrite Z.ltb_ge in Hs2.
    rewrite !penalised_value by done. pose proof (quot_ms_mono (RTT r2) (RTT r) ltac:(lia)). lia. }
  pose proof (quot_ms_mono (RTT r1) (RTT r2) ltac:(lia)) as Hq.
  assert (0 <= penalised h r1 <= penalised h r2) as Hp12 by (rewrite !penalised_value by done; lia).
  rewrite pair_loop_keep; [done | lia |]. apply Forall_app. split; [|apply Forall_app; split].
  - apply Forall_fmap, Forall_forall. intros r Hr. cbn. specialize (Hr2 r Hr). lia.
  - apply Forall_fmap, Forall_forall. intros r Hr. cbn. specialize (Hr2 r Hr). lia.
  - apply Forall_forall. intros [a b] Hab. apply pairs_spec in Hab as (i & j & _ & Ha & Hb). cbn.
    apply list_elem_of_lookup_2 in Ha, Hb. pose proof (Hr2 a Ha). pose proof (Hr2 b Hb). lia.
Qed.

Lemma sublist_full {A} (l k : list A) : l `sublist_of` k -> length l = length k -> l = k.
Proof.
  induction 1 as [|x l k Hs IH|x l k Hs IH]; intros Hl; [done | f_equal; apply IH; by injection Hl |].
  apply sublist_length in Hs. cbn in Hl. lia.
Qed.

Section Select.
Context (dial : Z -> CandidateRelay -> result string Z).
Context (sort_slice : forall A : Type, (A -> A -> bool) -> list A -> list A) {HS : SortSlice sort_slice}.
Context (dial_nonneg : forall now c rtt, dial now c = Ok rtt -> 0 <= rtt).

Lemma filterCandidates_perm l : filterCandidates sort_slice l ≡ₚ l.
Proof. unfold filterCandidates. destruct (negb _); [done|]. apply sort_perm. Qed.

Lemma filter_sublist {A} (f : A -> bool) l : List.filter f l `sublist_of` l.
Proof. induction l as [|x l IH]; [done|]. cbn. destruct (f x); by constructor. Qed.

(** The candidates that are probed. *)
Definition probed_candidates (ps : PathSelector) (healthy : list CandidateRelay) : list CandidateRelay :=
  top ps (filterCandidates sort_slice healthy).

Lemma probed_candidates_in ps healthy c : c ∈ probed_candidates ps healthy -> c ∈ healthy.
Proof.
  unfold probed_candidates, top. intros Hc. rewrite <-(filterCandidates_perm healthy).
  destruct (_ <? _); [|done]. eapply elem_of_submseteq; [exact Hc|]. by apply sublist_submseteq, sublist_take.
Qed.

Lemma probed_candidates_nodup ps healthy :
  NoDup (c_NodeID <$> healthy) -> NoDup (c_NodeID <$> probed_candidates ps healthy).
Proof.
  intros Hnd. rewrite <-(filterCandidates_perm healthy) in Hnd. unfold probed_candidates, top.
  destruct (_ <? _); [|done]. rewrite fmap_take. eapply sublist_NoDup; [exact Hnd|]. by apply sublist_take.
Qed.

(** [a] advertises a time, and [b] none or a greater one. *)
Definition closer (a b : CandidateRelay) : Prop :=
  0 < AdvertisedRTT a /\ (AdvertisedRTT b = 0 \/ AdvertisedRTT a < AdvertisedRTT b).

(** Of [l] the first [max] are [chosen], or all: none left out is closer than
    one that is chosen. *)
Definition nearest (max : Z) (l chosen : list CandidateRelay) : Prop :=
  len chosen = Z.min (Z.max 0 max) (len l) /\
  exists rest, l ≡ₚ chosen ++ rest /\ forall a b, a ∈ chosen -> b ∈ rest -> ~ closer b a.

Lemma filterCandidates_closer l1 l2 l : filterCandidates sort_slice l = l1 ++ l2 ->
  forall a b, a ∈ l1 -> b ∈ l2 -> ~ closer b a.
Proof using HS.
  intros Hl a b Ha Hb [Hpos Hlt]. unfold filterCandidates in Hl. destruct (existsb _ l) eqn:E; cbn [negb] in Hl.
  - match type of Hl with sort_slice _ ?f l = _ => assert (weak_order f l) as Hw end.
    { split; intros *; rewrite ?andb_true_iff, ?andb_false_iff, ?Z.eqb_eq, ?Z.ltb_lt, ?Z.eqb_neq, ?Z.ltb_ge;
        intros; repeat case_match; rewrite ?andb_true_iff, ?andb_false_iff, ?Z.eqb_eq, ?Z.ltb_lt, ?Z.eqb_neq, ?Z.ltb_ge in *; try done; lia. }
    pose proof (sort_sorted (SortSlice := HS) _ _ Hw) as Hs. rewrite Hl in Hs.
    pose proof (StronglySorted_app_1_elem_of _ _ _ _ _ Hs Ha Hb) as H. cbv beta in H. repeat case_match; try done;
    rewrite ?andb_true_iff, ?andb_false_iff, ?Z.eqb_eq, ?Z.ltb_lt, ?Z.eqb_neq, ?Z.ltb_ge in *; lia.
  - enough (existsb (fun c => 0 <? AdvertisedRTT c) l = true) by congruence. rewrite Hl. apply existsb_exists. exists b.
    rewrite <-list_elem_of_In, elem_of_app, Z.ltb_lt. by split; [right|].
Qed.

Lemma probed_candidates_nearest ps healthy :
  nearest (MaxCandidates (cfg ps)) healthy (probed_candidates ps healthy).
Proof using HS.
  pose proof (Permutation_length (filterCandidates_perm healthy)) as Hl. unfold probed_candidates, top, nearest.
  destruct (Z.ltb_spec (MaxCandidates (cfg ps)) (len (filterCandidates sort_slice healthy))) as [H|H].
  - split; [rewrite length_take; lia|]. set (n := Z.to_nat _). exists (drop n (filterCandidates sort_slice healthy)). split.
    + by rewrite take_drop, filterCandidates_perm.
    + apply (filterCandidates_closer _ _ healthy). by rewrite take_drop.
  - split; [lia|]. exists []. rewrite app_nil_r. split; [by rewrite filterCandidates_perm | by intros a b _ ?%elem_of_nil].
Qed.

(** C16. The two fastest relays are chosen. Of the candidates that are healthy
    or may be tried again those with the best advertised times are probed, as
    many as the configuration allows and no more; a relay without an
    advertised time comes after all others. Whatever the schedule of the
    probes, what they report is a live cached measurement or the answer of the
    relay, and the result is the two relays that answered fastest, as paths of
    one relay each; an error is returned only when too few candidates are
    given, are eligible, or answer. The penalty of degraded relays never
    matters, because a relay that answers is healthy again before it is
    scored. *)
Theorem SelectPaths_two_fastest ps now sched key candidates :
  cache_wf (probeCache ps) -> NoDup (c_NodeID <$> candidates) ->
  let healthy := List.filter (eligible (healthTracker ps) now) candidates in
  exists chosen, nearest (MaxCandidates (cfg ps)) healthy chosen /\
  let probed := (probeCandidates dial ps sched chosen).2 in
  (forall r, r ∈ probed -> exists c, c ∈ chosen /\ NodeID r = c_NodeID c /\ measured dial (probeCache ps) sched.*2 c r) /\
  ((forall i, (i < length chosen)%nat -> (2 <= length (filter (fun s => s.1 = i) sched))%nat) ->
     NodeID <$> probed = c_NodeID <$> chosen) /\
  match (SelectPaths dial sort_slice ps now sched key candidates).2 with
  | Ok (p1, p2) => exists r1 r2,
      r1 ∈ probed /\ r2 ∈ probed /\ Error r1 = None /\ Error r2 = None /\ NodeID r1 <> NodeID r2 /\
      p1 = buildPath r1 (key 0%nat) /\ p2 = buildPath r2 (key 1%nat) /\ RTT r1 <= RTT r2 /\
      forall r, r ∈ probed -> Error r = None -> r = r1 \/ r = r2 \/ RTT r2 <= RTT r
  | Err _ => len candidates < MinCandidates (cfg ps) \/ len healthy < MinCandidates (cfg ps) \/
      len (List.filter (fun r => bool_decide (Error r = None)) probed) < 2
  end.
Proof.
  intros Hw Hnd. cbn zeta. set (healthy := List.filter _ candidates).
  exists (probed_candidates ps healthy). split; [apply probed_candidates_nearest|].
  pose proof (probeCandidates_ok dial dial_nonneg ps sched (probed_candidates ps healthy) Hw) as Hok.
  assert (NoDup (c_NodeID <$> healthy)) as Hndh by (eapply sublist_NoDup; [exact Hnd | by apply fmap_sublist, filter_sublist]).
  pose proof (probed_candidates_nodup ps healthy Hndh) as Hndc.
  pose proof (probeCandidates_measured dial ps sched (probed_candidates ps healthy)) as Hm.
  pose proof (probeCandidates_complete dial ps sched (probed_candidates ps healthy)) as Hall.
  unfold SelectPaths. cbn zeta. fold healthy. fold (probed_candidates ps healthy).
  destruct (probeCandidates dial ps sched (probed_candidates ps healthy)) as [ps' probed]. cbn [snd] in *.
  destruct Hok as (_ & Hsub & Hhop). split_and!.
  { intros r Hr. destruct (Hm r Hndc Hr) as (c & Hc & Hmc). exists c. split_and!; [done | | done]. destruct Hmc as (t & _ & [(e & He & _ & ->)|Hd]).
    - apply (Hw _ _ He).
    - by destruct (dial t c); subst r. }
  { intros Hs. apply sublist_full; [done|]. rewrite !length_fmap. by apply Hall. }
  destruct (Z.ltb_spec (len candidates) (MinCandidates (cfg ps))) as [|_]; [by left|].
  destruct (Z.ltb_spec (len healthy) (MinCandidates (cfg ps))) as [|_]; [by right; left|].
  set (h := foldl (record_probe now) _ probed). set (ok := fun r => bool_decide (Error r = None)).
  pose proof (sort_perm (SortSlice := HS) (by_quality h) probed) as Hperm.
  pose proof (sort_sorted (SortSlice := HS) _ _ (by_quality_order h probed)) as Hsort.
  assert (List.filter ok (sort_slice _ (by_quality h) probed) ≡ₚ List.filter ok probed) as Hvp by by apply filter_perm.
  apply (sorted_filter _ ok) in Hsort.
  destruct (Z.ltb_spec (len (List.filter ok (sort_slice _ (by_quality h) probed))) 2) as [Hl|Hl]; cbn [snd].
  { right. right. by rewrite <-Hvp. }
  assert (NoDup (NodeID <$> probed)) as Hndp by (eapply sublist_NoDup; [|exact Hsub]; by apply probed_candidates_nodup).
  assert (NoDup (NodeID <$> List.filter ok (sort_slice _ (by_quality h) probed))) as Hndv.
  { rewrite Hvp. eapply sublist_NoDup; [exact Hndp | by apply fmap_sublist, filter_sublist]. }
  assert (forall r, r ∈ List.filter ok (sort_slice _ (by_quality h) probed) <-> r ∈ probed /\ Error r = None) as Hmem.
  { intros r. rewrite Hvp, list_elem_of_In, filter_In, <-list_elem_of_In. unfold ok. by rewrite bool_decide_eq_true. }
  clear Hvp. destruct (List.filter ok _) as [|r1 [|r2 rest]]; [cbn in Hl; lia..|].
  assert (Forall (fun r => HopCount r = 1 /\ 0 <= RTT r /\ HealthPenalty h (NodeID r) = 2) (r1 :: r2 :: rest)) as Hf.
  { apply Forall_forall. intros r [Hr He]%Hmem. rewrite Forall_forall in Hhop. destruct (Hhop r Hr).
    split_and!; [done | done | by apply responder_not_penalised]. }
  assert (sorted (fun a b => RTT a <? RTT b) (r1 :: r2 :: rest)) as Hs.
  { clear Hl Hndv. assert (forall l, (forall r, r ∈ l -> r ∈ r1 :: r2 :: rest) -> sorted (by_quality h) l ->
      sorted (fun a b => RTT a <? RTT b) l) as Hgen; [|by apply Hgen].
    rewrite Forall_forall in Hf. intros l Hl Hsl. induction Hsl as [|a l Hsl IH Ha]; [constructor|].
    constructor; [apply IH; intros r Hr; apply Hl; by right|]. rewrite Forall_forall in Ha |- *. intros b Hb.
    specialize (Ha b Hb). unfold by_quality in Ha.
    rewrite (proj2 (proj1 (Hmem a) (Hl a (list_elem_of_here _ _)))), (proj2 (proj1 (Hmem b) (Hl b (list_elem_of_further _ _ _ Hb)))) in Ha.
    rewrite (proj2 (proj2 (Hf a (Hl a (list_elem_of_here _ _))))), (proj2 (proj2 (Hf b (Hl b (list_elem_of_further _ _ _ Hb))))) in Ha.
    rewrite Z.ltb_ge in *. lia. }
  rewrite (selectDisjointPaths_first h key r1 r2 rest Hndv Hf Hs). exists r1, r2.
  destruct (proj1 (Hmem r1) (list_elem_of_here _ _)) as [Hr1 He1].
  destruct (proj1 (Hmem r2) (list_elem_of_further _ _ _ (list_elem_of_here _ _))) as [Hr2 He2].
  apply StronglySorted_inv in Hs as [Hs Hs1]. apply StronglySorted_inv in Hs as [Hs Hs2].
  apply Forall_cons in Hs1 as [Hs12 _]. rewrite Z.ltb_ge in Hs12. split_and!; try done.
  - cbn [fmap list_fmap] in Hndv. apply NoDup_cons in Hndv as [Hn _]. by apply not_elem_of_cons in Hn as [? _].
  - intros r Hr He. assert (r ∈ r1 :: r2 :: rest) as Hc by by apply Hmem.
    apply elem_of_cons in Hc as [->|[->|Hc]%elem_of_cons]; [by left | by right; left | right; right].
    rewrite Forall_forall in Hs2. specialize (Hs2 r Hc). by rewrite Z.ltb_ge in Hs2.
Qed.
End Select.

(** ** Replacement: theorem *)
Lemma best_single_spec h l : forall best s,
  (best = None /\ s = -1 \/ exists r, best = Some r /\ s = penalised h r /\ 0 <= s) ->
  Forall (fun r => 0 <= penalised h r) l ->
  match best_single h l best s with
  | None => best = None /\ Forall (fun r => Error r <> None) l
  | Some r => (best = Some r \/ r ∈ l /\ Error r = None) /\ (forall b, best = Some b -> penalised h r <= penalised h b) /\
      Forall (fun r' => Error r' = None -> penalised h r <= penalised h r') l
  end.
Proof.
  induction l as [|p l IH]; intros best s Hs Hf; cbn [best_single].
  - destruct Hs as [[-> ->]|(r & -> & -> & _)]; [done|]. split_and!; [by left | by intros b [= <-] | constructor].
  - apply Forall_cons in Hf as [Hp Hf]. destruct (Error p) as [e|] eqn:He.
    { specialize (IH best s Hs Hf). destruct (best_single h l best s) as [r|].
      - destruct IH as (H1 & H2 & H3). split_and!; [destruct H1 as [?|[? ?]]; [by left | right; by split; [right|]] | done |].
        constructor; [congruence | done].
      - destruct IH as [? ?]. split; [done|]. constructor; [congruence | done]. }
    destruct ((s <? 0) || (penalised h p <? s)) eqn:Hc.
    + specialize (IH (Some p) (penalised h p) ltac:(right; by eexists) Hf).
      destruct (best_single h l (Some p) (penalised h p)) as [r|]; [|by destruct IH].
      destruct IH as (H1 & H2 & H3). specialize (H2 p eq_refl). split_and!.
      * right. destruct H1 as [[= <-]|[? ?]]; [split; [left | done] | split; [by right | done]].
      * intros b ->. destruct Hs as [[? _]|(r' & [= <-] & -> & ?)]; [done|].
        apply orb_true_iff in Hc as [?%Z.ltb_lt|?%Z.ltb_lt]; lia.
      * constructor; [done | done].
    + apply orb_false_iff in Hc as [Hc1%Z.ltb_ge Hc2%Z.ltb_ge].
      destruct Hs as [[-> ->]|(b & -> & -> & Hb)]; [lia|].
      specialize (IH (Some b) (penalised h b) ltac:(right; by eexists) Hf).
      destruct (best_single h l (Some b) (penalised h b)) as [r|]; [|by destruct IH].
      destruct IH as (H1 & H2 & H3). specialize (H2 b eq_refl). split_and!.
      * destruct H1 as [?|[? ?]]; [by left | right; by split; [right|]].
      * intros b' [= <-]. done.
      * constructor; [lia | done].
Qed.

Lemma penalised_nonneg h p : HopCount p = 1 -> 0 <= RTT p -> 0 <= penalised h p.
Proof.
  intros Hh Ht. pose proof (quot_ms_mono 0 (RTT p) ltac:(lia)). unfold penalised, ComputePathScore. rewrite Hh.
  assert (2 <= HealthPenalty h (NodeID p)) by (unfold HealthPenalty; repeat case_match; lia).
  change (0 <=? 0) with true. change (Z.quot 0 millisecond) with 0 in *. nia.
Qed.

Section Replace.
Context (dial : Z -> CandidateRelay -> result string Z).
Context (sort_slice : forall A : Type, (A -> A -> bool) -> list A -> list A) {HS : SortSlice sort_slice}.
Context (dial_nonneg : forall now c rtt, dial now c = Ok rtt -> 0 <= rtt).

(** A replacement path avoids the relays that failed: whatever the
    schedule of the probes, its relay has not the identity of a failed one,
    answered its probe, and no other relay that answered is faster by a
    millisecond or more; an error means that none is left or none
    answered. *)
Theorem SelectReplacementPath_best ps now sched key candidates failed :
  cache_wf (probeCache ps) -> NoDup (c_NodeID <$> candidates) ->
  let '(ps', r) := SelectReplacementPath dial sort_slice ps now sched key candidates failed in
  cache_wf (probeCache ps') /\
  exists probed, (forall p, p ∈ probed -> (NodeID p ∉ failed) /\ exists c, c ∈ candidates /\ NodeID p = c_NodeID c) /\
  match r with
  | Ok path => exists p, p ∈ probed /\ Error p = None /\ path = buildPath p (key 0%nat) /\
      forall p', p' ∈ probed -> Error p' = None -> Z.quot (RTT p) millisecond <= Z.quot (RTT p') millisecond
  | Err _ => Forall (fun p => Error p <> None) probed
  end.
Proof.
  intros Hw Hnd. unfold SelectReplacementPath. set (remaining := List.filter _ candidates).
  destruct (_ <? 1); [split; [done|]; exists []; split; [by intros p ?%not_elem_of_nil | constructor]|].
  set (healthy := List.filter _ remaining).
  destruct (_ =? 0); [split; [done|]; exists []; split; [by intros p ?%not_elem_of_nil | constructor]|].
  fold (probed_candidates sort_slice ps healthy).
  pose proof (probeCandidates_ok dial dial_nonneg ps sched (probed_candidates sort_slice ps healthy) Hw) as Hok.
  destruct (probeCandidates dial ps sched _) as [ps' probed]. destruct Hok as (Hw' & Hsub & Hhop).
  assert (forall p, p ∈ probed -> (NodeID p ∉ failed) /\ exists c, c ∈ candidates /\ NodeID p = c_NodeID c) as Hin.
  { intros p Hp. assert (NodeID p ∈ (c_NodeID <$> probed_candidates sort_slice ps healthy)) as Hc.
    { eapply elem_of_submseteq; [|by apply sublist_submseteq]. by apply list_elem_of_fmap_2. }
    apply list_elem_of_fmap in Hc as (c & -> & Hc%probed_candidates_in%list_elem_of_In); [|done].
    apply filter_In in Hc as [Hc _]. apply filter_In in Hc as [Hc Hf].
    rewrite negb_true_iff, orb_false_iff, !bool_decide_eq_false in Hf.
    split; [tauto|]. exists c. split; [by apply list_elem_of_In | done]. }
  set (h := foldl _ _ probed).
  assert (NoDup (NodeID <$> probed)) as Hndp.
  { eapply sublist_NoDup; [|exact Hsub]. apply probed_candidates_nodup; [done|].
    eapply sublist_NoDup; [exact Hnd|]. by apply fmap_sublist; etrans; apply filter_sublist. }
  rewrite Forall_forall in Hhop.
  assert (forall p, p ∈ probed -> Error p = None -> penalised h p = (Z.quot (RTT p) millisecond * 10 + 600) * 2) as Hval.
  { intros p Hp He. destruct (Hhop p Hp). apply penalised_value; [done | by apply responder_not_penalised]. }
  pose proof (best_single_spec h probed None (-1) ltac:(by left)) as H.
  destruct (best_single h probed None (-1)) as [r|]; (split; [done|]); exists probed; (split; [done|]).
  - destruct H as ([?|[Hr He]] & _ & Hb); [|done|].
    + apply Forall_forall. intros p Hp. destruct (Hhop p Hp). by apply penalised_nonneg.
    + exists r. split_and!; [done..|]. rewrite Forall_forall in Hb. intros p' Hp' He'.
      specialize (Hb p' Hp' He'). rewrite !Hval in Hb by done. lia.
  - apply H. apply Forall_forall. intros p Hp. destruct (Hhop p Hp). by apply penalised_nonneg.
Qed.
End Replace.

(** ** Exits: theorem *)

Lemma least_fold {A} (f : string * A -> option Z) step l :
  (forall best e, step best e = match f e with
                                | None => best
                                | Some v => if (best.2 <? 0) || (v <? best.2) then (e.1, v) else best
                                end) ->
  (forall e v, e ∈ l -> f e = Some v -> 0 <= v) ->
  let r := foldl step ("", -1) l in
  (r = ("", -1) /\ forall e, e ∈ l -> f e = None) \/
  (exists e, e ∈ l /\ r.1 = e.1 /\ f e = Some r.2) /\ (forall e v, e ∈ l -> f e = Some v -> r.2 <= v).
Proof.
  cbn zeta. intros Hstep. induction l as [|e l IH] using rev_ind; intros H0.
  { left. split; [done|]. by intros e ?%not_elem_of_nil. }
  rewrite foldl_app. cbn [foldl]. rewrite !Hstep. specialize (IH (fun e v He => H0 e v ltac:(by apply elem_of_app; left))).
  assert (e ∈ l ++ [e]) as Hin by (apply elem_of_app; right; left).
  destruct (f e) as [v|] eqn:Hv.
  - pose proof (H0 e v Hin Hv) as Hv0. right. destruct IH as [[-> Hn]|[(e0 & He0 & Hr & Hf) Hm]]; cbn [fst snd].
    + change (-1 <? 0) with true. cbn [orb fst snd]. split; [by exists e|].
      intros e' v' [He'|He']%elem_of_app Hv'; [by rewrite Hn in Hv'|].
      apply list_elem_of_singleton in He' as ->. assert (v' = v) as -> by congruence. lia.
    + set (r := foldl _ _ l) in *. assert (0 <= r.2) as Hr0 by (apply (H0 e0 r.2); [by apply elem_of_app; left | done]).
      rewrite (proj2 (Z.ltb_ge _ 0)) by done. cbn [orb]. destruct (Z.ltb_spec v r.2) as [Hlt|Hge]; cbn [fst snd].
      * split; [by exists e|]. intros e' v' [He'|He']%elem_of_app Hv'; [specialize (Hm e' v' He' Hv'); lia|].
        apply list_elem_of_singleton in He' as ->. assert (v' = v) as -> by congruence. lia.
      * split; [exists e0; split; [by apply elem_of_app; left | done]|].
        intros e' v' [He'|He']%elem_of_app Hv'; [by eapply Hm|].
        apply list_elem_of_singleton in He' as ->. assert (v' = v) as -> by congruence. lia.
  - destruct IH as [[-> Hn]|[(e0 & He0 & Hr & Hf) Hm]].
    + left. split; [done|]. intros e' [He'|He']%elem_of_app; [by apply Hn|]. by apply list_elem_of_singleton in He' as ->.
    + right. split; [exists e0; split; [by apply elem_of_app; left | done]|].
      intros e' v' [He'|He']%elem_of_app Hv'; [by eapply Hm|]. apply list_elem_of_singleton in He' as ->. congruence.
Qed.

Section ExitTheorems.
Context (iter : gmap string (gmap string Z) -> list (string * gmap string Z)).
Context (iter_perm : forall m, iter m ≡ₚ map_to_list m).

Lemma average_nonneg (m : gmap string Z) :
  map_Forall (fun _ t => 0 <= t) m -> map_fold (fun _ rtt total => total + rtt) 0 m < 2 ^ 63 -> 0 <= average m.
Proof.
  intros Hm Hs. unfold average.
  assert (0 <= map_fold (fun _ rtt total => total + rtt) 0 m) as H0.
  { clear Hs. induction m as [|k t m Hk IH] using map_ind; [by rewrite map_fold_empty|].
    rewrite map_fold_insert_L; [|intros; lia | done]. apply map_Forall_insert in Hm as [Ht Hm]; [|done].
    specialize (IH Hm). lia. }
  assert (i64 (map_fold (fun _ rtt total => total + rtt) 0 m) = map_fold (fun _ rtt total => total + rtt) 0 m) as ->.
  { unfold i64. rewrite Z.mod_small by lia. lia. }
  destruct (decide (size m = 0%nat)) as [->|Hsz]; [by destruct (map_fold _ _ m)|].
  apply Z.quot_pos; lia.
Qed.

(** The exit of a target is the nearest: if some exit has measured the
    region, the one chosen has the least time to it; otherwise it has the
    least average over the regions it measured; none is chosen only when
    no exit measured anything. The order in which the exits are visited does
    not matter. *)
Theorem SelectExit_nearest exitProbes targetRegion :
  exitProbes <> ∅ -> targetRegion <> "" -> exitProbes !! "" = None ->
  map_Forall (fun _ m => map_Forall (fun _ t => 0 <= t) m /\
    map_fold (fun _ rtt total => total + rtt) 0 m < 2 ^ 63) exitProbes ->
  match SelectExit iter exitProbes targetRegion with
  | Ok e => exists m, exitProbes !! e = Some m /\
      ((exists t, m !! targetRegion = Some t /\
          forall e' m' t', exitProbes !! e' = Some m' -> m' !! targetRegion = Some t' -> t <= t') \/
       (forall e' m', exitProbes !! e' = Some m' -> m' !! targetRegion = None) /\ m <> ∅ /\
          forall e' m', exitProbes !! e' = Some m' -> m' <> ∅ -> average m <= average m')
  | Err _ => forall e' m', exitProbes !! e' = Some m' -> m' = ∅
  end.
Proof.
  intros Hne Hr He Hm. unfold SelectExit. rewrite bool_decide_false by done. rewrite (proj2 (String.eqb_neq _ _)) by done.
  assert (forall e m, (e, m) ∈ iter exitProbes <-> exitProbes !! e = Some m) as Hin.
  { intros e m. rewrite iter_perm. apply elem_of_map_to_list. }
  assert (forall e, e ∈ iter exitProbes -> e.1 <> "") as Hnm.
  { intros [e m] Hi%Hin. cbn. congruence. }
  destruct (least_fold (fun e => e.2 !! targetRegion) (region_step targetRegion) (iter exitProbes))
    as [[Hb Hn]|[([e m] & Hi & Hb & Hf) Hl]]; [done|..].
  { intros [e m] v Hi%Hin Hv. destruct (Hm _ _ Hi) as [Hm' _]. by apply (Hm' _ _ Hv). }
  - rewrite Hb.
    cbn [fst String.eqb].
    destruct (least_fold (fun e => if decide (e.2 = ∅) then None else Some (average e.2)) average_step (iter exitProbes))
      as [[Hb2 Hn2]|[([e m] & Hi & Hb2 & Hf2) Hl2]].
    { intros best e. unfold average_step. destruct (decide (e.2 = ∅)); [by rewrite bool_decide_true | by rewrite bool_decide_false]. }
    { intros [e m] v Hi%Hin Hv. cbn in Hv. destruct (decide (m = ∅)); [done|]. injection Hv as <-.
      destruct (Hm _ _ Hi). by apply average_nonneg. }
    + rewrite Hb2. cbn. intros e m Hi%Hin. specialize (Hn2 _ Hi). cbn in Hn2. by destruct (decide (m = ∅)).
    + rewrite Hb2. cbn [fst]. rewrite (proj2 (String.eqb_neq e "")) by by apply (Hnm _ Hi).
      exists m. split; [by apply Hin|]. right. cbn [snd] in Hf2. destruct (decide (m = ∅)) as [|Hne2]; [done|].
      injection Hf2 as Hf2. split_and!; [intros e' m' Hi'%Hin; by apply (Hn _ Hi') | done |].
      intros e' m' Hi'%Hin Hne'. rewrite Hf2. apply (Hl2 (e', m') (average m') Hi'). cbn. by rewrite decide_False.
  - rewrite Hb. cbn [fst snd] in *.
    rewrite (proj2 (String.eqb_neq e "")) by by apply (Hnm _ Hi).
    rewrite (proj2 (String.eqb_neq e "")) by by apply (Hnm _ Hi).
    exists m. split; [by apply Hin|]. left. eexists. split; [exact Hf|]. intros e' m' t' Hi'%Hin Ht'. by apply (Hl (e', m') t' Hi').
Qed.
End ExitTheorems.

(** ** Manual configuration: theorem *)

Lemma split_relays_spec maxR cs : forall i a b,
  let '(r1, r2) := split_relays i maxR cs a b in
  exists s1 s2, r1 = a ++ s1 /\ r2 = b ++ s2 /\ s1 ++ s2 ⊆+ cs /\
    (len a <= maxR -> len r1 <= maxR) /\ (len b <= maxR -> len r2 <= maxR).
Proof.
  induction cs as [|c cs IH]; intros i a b; cbn [split_relays].
  - exists [], []. rewrite !app_nil_r. by split_and!.
  - destruct (Nat.even i && (len a <? maxR)) eqn:E1; [|destruct (Z.ltb_spec (len b) maxR) as [E2|E2]].
    + specialize (IH (S i) (a ++ [c]) b). destruct (split_relays _ _ _ _ _) as [r1 r2].
      destruct IH as (s1 & s2 & -> & -> & Hs & H1 & H2). exists (c :: s1), s2. rewrite <-app_assoc. split_and!; try done.
      * cbn [app]. by apply submseteq_skip.
      * intros _. rewrite <-app_assoc in H1. apply H1. rewrite length_app. cbn [length].
        apply andb_true_iff in E1 as [_ E1%Z.ltb_lt]. lia.
    + specialize (IH (S i) a (b ++ [c])). destruct (split_relays _ _ _ _ _) as [r1 r2].
      destruct IH as (s1 & s2 & -> & -> & Hs & H1 & H2). exists s1, (c :: s2). rewrite <-app_assoc. split_and!; try done.
      * rewrite <-Permutation_middle. by apply submseteq_skip.
      * intros _. rewrite <-app_assoc in H2. apply H2. rewrite length_app. cbn [length]. lia.
    + specialize (IH (S i) a b). destruct (split_relays _ _ _ _ _) as [r1 r2].
      destruct IH as (s1 & s2 & -> & -> & Hs & H1 & H2). exists s1, s2. split_and!; try done. by apply submseteq_cons.
Qed.

(** Two different candidates always give two disjoint paths, within the
    bound on relays, with a key for every relay. *)
Lemma SelectPaths_manual_spec key candidates maxR :
  2 <= len candidates -> NoDup candidates -> 1 <= maxR ->
  exists p1 p2, SelectPaths_manual key candidates maxR = Ok (p1, p2) /\ HasOverlap p1 p2 = false /\
    1 <= len (Relays p1) <= maxR /\ 1 <= len (Relays p2) <= maxR /\
    length (RelayKeys p1) = length (Relays p1) /\ length (RelayKeys p2) = length (Relays p2) /\
    Relays p1 ++ Relays p2 ⊆+ candidates.
Proof.
  intros Hl Hnd Hm. unfold SelectPaths_manual. rewrite (proj2 (Z.ltb_ge _ 2)) by lia.
  destruct candidates as [|x [|y cs]]; [cbn in Hl; lia..|].
  cbn [split_relays Nat.even andb length]. rewrite (proj2 (Z.ltb_lt _ maxR)) by (cbn; lia). cbn [app Nat.even andb length].
  pose proof (split_relays_spec maxR cs 2 [x] [y]) as H. destruct (split_relays _ _ _ _ _) as [r1 r2].
  destruct H as (s1 & s2 & -> & -> & Hs & H1 & H2). specialize (H1 Hm). specialize (H2 Hm).
  cbn [app length] in *. rewrite (proj2 (Z.eqb_neq _ 0)), (proj2 (Z.eqb_neq _ 0)) by lia. cbn [orb].
  assert ((x :: s1) ++ y :: s2 ⊆+ x :: y :: cs) as Hsub.
  { cbn [app]. apply submseteq_skip. rewrite <-Permutation_middle. by apply submseteq_skip. }
  set (p1 := MkPath (x :: s1) _). set (p2 := MkPath (y :: s2) _).
  assert (HasOverlap p1 p2 = false) as Ho.
  { apply not_true_is_false. rewrite HasOverlap_spec. intros (r & Hr1 & Hr2).
    destruct (submseteq_Permutation _ _ Hsub) as [k Hk]. rewrite Hk in Hnd.
    apply NoDup_app in Hnd as [(_ & Hnd' & _)%NoDup_app _]. by apply (Hnd' r Hr1). }
  rewrite Ho. exists p1, p2. cbn [p1 p2 Relays RelayKeys]. rewrite !length_fmap, !length_seq. split_and!; try done; cbn [length] in *; lia.
Qed.

(** ** Examples *)
Definition demo_dial (_ : Z) (c : CandidateRelay) : result string Z :=
  if String.eqb (c_MeshAddr c) "10.0.0.9:1" then Err "timeout"
  else Ok (Z.of_nat (String.length (c_NodeID c)) * millisecond).
Definition demo_key (n : nat) : list byte := replicate 32 (byte_of_Z (Z.of_nat n)).
Definition demo_schedule : list (nat * Z) := (fun i => (i, 10)) <$> [1; 0; 0; 2; 2; 1]%nat.
Definition demo_candidates : list CandidateRelay :=
  [MkCandidate "bbb" "10.0.0.1:1" [] 0 0; MkCandidate "dead" "10.0.0.9:1" [] 0 0; MkCandidate "a" "10.0.0.2:1" [] 0 0].
Definition demo_selector : PathSelector := NewPathSelector DefaultPathSelectorConfig.
Lemma demo_dial_nonneg now c rtt : demo_dial now c = Ok rtt -> 0 <= rtt.
Proof. unfold demo_dial. destruct (String.eqb _ _); [done|]. intros [= <-]. unfold millisecond. lia. Qed.

(** Two of these may be probed. The relay without an advertised time and the
    one that advertises most are left out, although they would answer first. *)
Definition advertising : list CandidateRelay :=
  [MkCandidate "a" "10.0.0.2:1" [] 0 0; MkCandidate "cccc" "10.0.0.4:1" [] (7 * millisecond) 0;
   MkCandidate "bb" "10.0.0.1:1" [] (30 * millisecond) 0; MkCandidate "ddd" "10.0.0.3:1" [] (9 * millisecond) 0].
Definition two_at_most : PathSelector := NewPathSelector (MkConfig 2 (3 * second) 8 2 2 2).

Lemma SelectPaths_two_fastest_witness :
  let run := SelectPaths demo_dial (@insertion_sort) two_at_most 10 demo_schedule demo_key advertising in
  (exists p1 p2, run.2 = Ok (p1, p2) /\ Relays p1 = ["10.0.0.3:1"%string] /\ Relays p2 = ["10.0.0.4:1"%string]) /\
  exists chosen, nearest 2 advertising chosen /\
  let probed := (probeCandidates demo_dial two_at_most demo_schedule chosen).2 in
  (forall r, r ∈ probed -> exists c, c ∈ chosen /\ NodeID r = c_NodeID c /\ measured demo_dial ∅ demo_schedule.*2 c r) /\
  ((forall i, (i < length chosen)%nat -> (2 <= length (filter (fun s => s.1 = i) demo_schedule))%nat) ->
     NodeID <$> probed = c_NodeID <$> chosen) /\
  match run.2 with
  | Ok (p1, p2) => exists r1 r2,
      r1 ∈ probed /\ r2 ∈ probed /\ Error r1 = None /\ Error r2 = None /\ NodeID r1 <> NodeID r2 /\
      p1 = buildPath r1 (demo_key 0%nat) /\ p2 = buildPath r2 (demo_key 1%nat) /\ RTT r1 <= RTT r2 /\
      forall r, r ∈ probed -> Error r = None -> r = r1 \/ r = r2 \/ RTT r2 <= RTT r
  | Err _ => len advertising < 2 \/ len advertising < 2 \/
      len (List.filter (fun r => bool_decide (Error r = None)) probed) < 2
  end.
Proof.
  split; [eexists _, _; split_and!; vm_compute; reflexivity|].
  apply (SelectPaths_two_fastest demo_dial (@insertion_sort) demo_dial_nonneg two_at_most 10 demo_schedule demo_key advertising).
  - apply map_Forall_empty.
  - refine (bool_decide_eq_true_1 _ _). vm_compute. reflexivity.
Defined.

Lemma SelectReplacementPath_best_witness :
  cache_wf (probeCache (SelectReplacementPath demo_dial (@insertion_sort) demo_selector 10 demo_schedule demo_key demo_candidates {["a"%string]}).1).
Proof.
  pose proof (SelectReplacementPath_best demo_dial (@insertion_sort) demo_dial_nonneg demo_selector 10 demo_schedule demo_key
    demo_candidates {["a"%string]} ltac:(apply map_Forall_empty) ltac:(refine (bool_decide_eq_true_1 _ _); vm_compute; reflexivity)) as H.
  destruct (SelectReplacementPath _ _ _ _ _ _ _ _) as [ps r]. exact (proj1 H).
Defined.

Definition demo_exits : gmap string (gmap string Z) :=
  <["x" := <["eu" := 30]> (<["us" := 90]> ∅)]> (<["y" := <["us" := 80]> ∅]> ∅).
Lemma SelectExit_nearest_witness : exists m, demo_exits !! "y" = Some m /\ m !! "us" = Some 80.
Proof.
  assert (SelectExit map_to_list demo_exits "us" = Ok "y"%string) as E by (vm_compute; reflexivity).
  pose proof (SelectExit_nearest map_to_list (fun m => Permutation_refl _) demo_exits "us") as H. rewrite E in H.
  destruct H as (m & Hm & [(t & Ht & Hl)|(Hn & _)]).
  - discriminate.
  - discriminate.
  - vm_compute. reflexivity.
  - refine (bool_decide_eq_true_1 _ _). vm_compute. reflexivity.
  - exists m. split; [exact Hm|]. vm_compute in Hm. injection Hm as <-. reflexivity.
  - exists m. split; [exact Hm|]. vm_compute in Hm. injection Hm as <-. reflexivity.
Defined.

(** Two relays at one address are two identities, and the two paths go
    through the same address: the selector compares identities, the paths
    hold addresses. *)
Definition twins : list CandidateRelay :=
  [MkCandidate "bbb" "10.0.0.1:1" [] 0 0; MkCandidate "a" "10.0.0.1:1" [] 0 0].

(** The two paths that the selector returns can share their relay: two
    candidates with different identities and the same address are accepted,
    both paths lead through that address, and the overlap test that the
    session makes on the paths then fails. *)
Theorem SelectPaths_overlap :
  match (SelectPaths demo_dial (@insertion_sort) demo_selector 10 demo_schedule demo_key twins).2 with
  | Ok (p1, p2) => HasOverlap p1 p2 = true /\ Relays p1 = Relays p2
  | Err _ => False
  end.
Proof. vm_compute. split; reflexivity. Qed.

(** A replacement path can lead through the address that failed, when the
    cache still has it for a relay that moved. *)
Lemma replacement_stale_address :
  let moved := [MkCandidate "a" "10.0.0.7:1" [] 0 0] in
  let ps := with_cache demo_selector {["a" := MkCached (MkProbe "a" "10.0.0.1:1" 5 1 None) 100]} in
  let r := (SelectReplacementPath demo_dial (@insertion_sort) ps 10 [(0%nat, 10)] demo_key moved {["10.0.0.1:1"%string]}).2 in
  match r with Ok p => Relays p = ["10.0.0.1:1"%string] | Err _ => False end.
Proof. vm_compute. reflexivity. Qed.
End PathSelect.
