(* ===== verification/DisjointPaths.v ===== *)
(** * The latency matrix and node-disjoint paths (internal/proxy/circuit_manager.go)

    The undirected graph of the mesh with its measured latencies, Dijkstra's
    search on it and the greedy choice of paths without a common relay.
    Latencies are integers of a fixed unit: the rounding of float sums is not
    modelled. The search runs on the priority queue of GoHeap.v; the order in
    which Go visits neighbours is a parameter. That the search is exact
    follows from the search of PathGraph.v, which it refines when the bound
    on the hops cannot be reached. *)
From stdpp Require Import prelude gmap strings list sorting.
From Stdlib Require Import ZArith Lia.
From S2P Require Import Prelude GoHeap PathGraph.
Local Open Scope Z_scope.

Module Matrix.

Definition CapRelay : string := "relay".
Record NodeInfo : Type := MkNode {
  ID : string; Hostname : string; MeshAddr : string; Role : string; Capabilities : list string; Status : string
}.
(** [RTTms] in units of a nanosecond. *)
Record LatencyEdge : Type := MkEdge {
  Source : string; Target : string; RTTms : Z; BandwidthBps : Z; MeasuredAt : Z; SourceType : string
}.
Definition unmeasured : Z := 500 * 10 ^ 6.

Record MeshLatencyMatrix : Type := MkMatrix {
  nodes : gmap string NodeInfo; edges : gmap string (gmap string LatencyEdge); updatedAt : Z
}.
Definition NewMeshLatencyMatrix : MeshLatencyMatrix := MkMatrix ∅ ∅ 0.

Definition AddNode (m : MeshLatencyMatrix) (now : Z) (n : NodeInfo) : MeshLatencyMatrix :=
  MkMatrix (<[ID n := n]> (nodes m)) (edges m) now.

Definition put_edge (u v : string) (e : LatencyEdge) (es : gmap string (gmap string LatencyEdge))
    : gmap string (gmap string LatencyEdge) :=
  <[u := <[v := e]> (default ∅ (es !! u))]> es.
Definition reverse_edge (e : LatencyEdge) : LatencyEdge :=
  MkEdge (Target e) (Source e) (RTTms e) (BandwidthBps e) (MeasuredAt e) (SourceType e).
Definition AddEdge (m : MeshLatencyMatrix) (now : Z) (e : LatencyEdge) : MeshLatencyMatrix :=
  MkMatrix (nodes m)
    (put_edge (Target e) (Source e) (reverse_edge e) (put_edge (Source e) (Target e) e (edges m))) now.
Definition MergeEdges (m : MeshLatencyMatrix) (now : Z) (es : list LatencyEdge) : MeshLatencyMatrix :=
  foldl (fun m e => AddEdge m now e) m es.

Definition GetNode (m : MeshLatencyMatrix) (id : string) : option NodeInfo := nodes m !! id.
Definition Neighbors (m : MeshLatencyMatrix) (nodeID : string) : gmap string LatencyEdge :=
  default ∅ (edges m !! nodeID).

(** [None] stands for infinity. *)
Definition EdgeWeight (m : MeshLatencyMatrix) (source target : string) : option Z :=
  match edges m !! source with
  | None => None
  | Some es =>
      match es !! target with
      | None => None
      | Some e => Some (if 0 <? RTTms e then RTTms e else unmeasured)
      end
  end.

Definition is_relay (n : NodeInfo) : bool := existsb (String.eqb CapRelay) (Capabilities n).
Definition RelayNodes (m : MeshLatencyMatrix) : list NodeInfo :=
  List.filter is_relay ((map_to_list (nodes m)).*2).
Definition RelayCountWithRTT (m : MeshLatencyMatrix) (nodeID : string) : Z :=
  len (List.filter (fun kn =>
    negb (String.eqb kn.1 nodeID) && is_relay kn.2 &&
    match edges m !! nodeID with
    | None => false
    | Some es => match es !! kn.1 with Some e => 0 <? RTTms e | None => false end
    end) (map_to_list (nodes m))).

(** ** Dijkstra's search *)
Section Search.
Context {Q : Type} `{PQ : PriorityQueue Paths.heapItem Paths.dist Q}.
(** The order of a [range] over the neighbours of a node. *)
Context (iter : string -> gmap string LatencyEdge -> list (string * LatencyEdge)).

Record search : Type := MkSearch { dist : gmap string Z; prev : gmap string string; visited : gset string; pq : Q }.

Definition weight (e : LatencyEdge) : Z := if RTTms e =? 0 then unmeasured else RTTms e.

Definition relax (blocked : gset string) (u : string) (st : search) (nb : string * LatencyEdge) : search :=
  let '(v, edge) := nb in
  if bool_decide (v ∈ blocked) || bool_decide (v ∈ visited st) then st else
  let alt := default 0 (dist st !! u) + weight edge in
  if match dist st !! v with Some d => alt <? d | None => true end then
    {| dist := <[v := alt]> (dist st); prev := <[v := u]> (prev st); visited := visited st;
       pq := pq_push (Paths.MkItem v alt) (pq st) |}
  else st.

(** The loop until the queue is empty or the target is taken from it;
    [None] when the fuel is used up. *)
Fixpoint run (fuel : nat) (m : MeshLatencyMatrix) (blocked : gset string) (target : string) (st : search)
    : option search :=
  match fuel with
  | O => None
  | S fuel =>
      match pq_pop (pq st) with
      | None => Some st
      | Some (cur, q) =>
          let u := Paths.key cur in
          if bool_decide (u ∈ visited st) then run fuel m blocked target (MkSearch (dist st) (prev st) (visited st) q)
          else
            let st := MkSearch (dist st) (prev st) ({[u]} ∪ visited st) q in
            if String.eqb u target then Some st
            else run fuel m blocked target (foldl (relax blocked u) st (iter u (Neighbors m u)))
      end
  end.

Fixpoint reconstruct (fuel : nat) (prev : gmap string string) (source cur : string) (path : list string)
    : option (list string) :=
  match fuel with
  | O => None
  | S fuel =>
      if String.eqb cur "" then Some path else
      let path := cur :: path in
      if String.eqb cur source then Some path
      else reconstruct fuel prev source (default "" (prev !! cur)) path
  end.

Definition edge_count (m : MeshLatencyMatrix) : nat := sum_list ((fun e => size e.2) <$> map_to_list (edges m)).

Definition ShortestPath (m : MeshLatencyMatrix) (source target : string) (blocked : gset string) : Paths.outcome :=
  if bool_decide (source ∈ blocked) || bool_decide (target ∈ blocked) then Paths.NoPath else
  let st := MkSearch {[source := 0]} ∅ ∅ (pq_push (Paths.MkItem source 0) pq_empty) in
  match run (edge_count m + 2) m blocked target st with
  | None => Paths.OutOfFuel
  | Some st =>
      match dist st !! target with
      | None => Paths.NoPath
      | Some _ =>
          match reconstruct (size (prev st) + 2) (prev st) source target [] with
          | None => Paths.OutOfFuel
          | Some path =>
              if bool_decide (list.head path = Some source) then Paths.Found path else Paths.NoPath
          end
      end
  end.

(** The nodes between the first and the last. *)
Definition inner (path : list string) : list string := removelast (tail path).

Inductive paths_error : Type := ErrNoPaths | ErrPathOverlap.

Fixpoint disjoint_loop (k : nat) (m : MeshLatencyMatrix) (source target : string) (blocked : gset string)
    : list (list string) :=
  match k with
  | O => []
  | S k =>
      match ShortestPath m source target blocked with
      | Paths.Found path => path :: disjoint_loop k m source target (list_to_set (inner path) ∪ blocked)
      | _ => []
      end
  end.

(** How many of the paths have a relay. *)
Definition relay_count (paths : list (list string)) (relay : string) : Z :=
  len (List.filter (fun path => bool_decide (relay ∈ inner path)) paths).

Definition KShortestDisjointPaths (m : MeshLatencyMatrix) (source target : string) (k : nat)
    : result paths_error (list (list string)) :=
  let paths := disjoint_loop k m source target ∅ in
  if (length paths <? k)%nat then Err ErrNoPaths else
  if existsb (fun relay => 1 <? relay_count paths relay) (concat (inner <$> paths)) then Err ErrPathOverlap
  else Ok paths.

Definition PathsHaveOverlap (pathA pathB : list string) : bool :=
  let relaysA : gset string := list_to_set (inner pathA) in
  existsb (fun r => bool_decide (r ∈ relaysA)) (inner pathB).
End Search.

(** ** The matrix is symmetric *)

Inductive matrix_call : Type :=
| MNode (now : Z) (n : NodeInfo)
| MEdge (now : Z) (e : LatencyEdge)
| MMerge (now : Z) (es : list LatencyEdge).
Definition matrix_step (m : MeshLatencyMatrix) (c : matrix_call) : MeshLatencyMatrix :=
  match c with
  | MNode now n => AddNode m now n
  | MEdge now e => AddEdge m now e
  | MMerge now es => MergeEdges m now es
  end.

Definition edge_at (m : MeshLatencyMatrix) (u v : string) : option LatencyEdge := Neighbors m u !! v.

Definition matrix_wf (m : MeshLatencyMatrix) : Prop :=
  forall u v e, edge_at m u v = Some e -> Source e = u /\ Target e = v /\ edge_at m v u = Some (reverse_edge e).

Lemma reverse_involutive e : reverse_edge (reverse_edge e) = e.
Proof. by destruct e. Qed.

Lemma put_edge_lookup u v e es x y :
  default ∅ (put_edge u v e es !! x) !! y = if decide (x = u /\ y = v) then Some e else default ∅ (es !! x) !! y.
Proof.
  unfold put_edge. destruct (decide (x = u)) as [->|Hx].
  - rewrite lookup_insert_eq. cbn [from_option id]. destruct (decide (y = v)) as [->|Hy].
    + rewrite lookup_insert_eq. by rewrite decide_True.
    + rewrite lookup_insert_ne by done. by rewrite decide_False by tauto.
  - rewrite lookup_insert_ne by done. by rewrite decide_False by tauto.
Qed.

Lemma AddEdge_lookup m now e x y :
  edge_at (AddEdge m now e) x y =
  if decide (x = Target e /\ y = Source e) then Some (reverse_edge e)
  else if decide (x = Source e /\ y = Target e) then Some e else edge_at m x y.
Proof. unfold edge_at, Neighbors, AddEdge. cbn [edges]. by rewrite !put_edge_lookup. Qed.

Lemma AddEdge_wf m now e : matrix_wf m -> matrix_wf (AddEdge m now e).
Proof.
  intros Hm x y e'. rewrite !AddEdge_lookup.
  destruct (decide (x = Target e /\ y = Source e)) as [[-> ->]|H1].
  - intros [= <-]. cbn [reverse_edge Source Target]. split_and!; [done..|].
    destruct (decide (Source e = Target e /\ Target e = Source e)) as [[E _]|H2].
    + destruct e; cbn in *. by subst.
    + rewrite decide_True by done. by rewrite reverse_involutive.
  - destruct (decide (x = Source e /\ y = Target e)) as [[-> ->]|H2].
    + intros [= <-]. split_and!; [done..|]. by rewrite decide_True by done.
    + intros He. destruct (Hm x y e' He) as (Hs & Ht & Hr). split_and!; [done..|].
      rewrite !decide_False by tauto. done.
Qed.

(** The latency matrix is an undirected graph: after any updates every
    edge is stored at both of its ends, with the ends exchanged and the same
    measurement, also when both directions or an edge from a node to itself
    were reported. *)
Theorem matrix_undirected cs : matrix_wf (foldl matrix_step NewMeshLatencyMatrix cs).
Proof.
  assert (matrix_wf NewMeshLatencyMatrix) as H0 by (intros u v e H; by vm_compute in H).
  revert H0. generalize NewMeshLatencyMatrix. induction cs as [|c cs IH]; intros m Hm; [done|]. cbn [foldl]. apply IH.
  destruct c as [now n|now e|now es]; [done | by apply AddEdge_wf |]. cbn [matrix_step]. unfold MergeEdges.
  revert m Hm. induction es as [|e es IHe]; intros m Hm; [done|]. by apply IHe, AddEdge_wf.
Qed.

(** ** Dijkstra's search is exact *)

#[export] Instance rttEntry_eq_dec : EqDecision Paths.rttEntry.
Proof. solve_decision. Defined.

Section Exact.
Context {Q : Type} `{PQ : PriorityQueue Paths.heapItem Paths.dist Q}.
Context (iter : string -> gmap string LatencyEdge -> list (string * LatencyEdge)).
Context (iter_perm : forall u m, iter u m ≡ₚ map_to_list m).
Context (m : MeshLatencyMatrix) (blocked : gset string).

(** The graph without the blocked nodes. *)
Definition conv (es : gmap string LatencyEdge) : gmap string Paths.rttEntry :=
  (fun e => Paths.MkEntry (weight e) 0 "") <$> filter (fun kv => kv.1 ∉ blocked) es.
Definition unblocked : Paths.LatencyGraph := conv <$> edges m.

Definition conv_list (l : list (string * LatencyEdge)) : list (string * Paths.rttEntry) :=
  (fun kv => (kv.1, Paths.MkEntry (weight kv.2) 0 "")) <$> filter (fun kv => kv.1 ∉ blocked) l.
(** The same order of neighbours there. *)
Definition iter_unblocked (u : string) (es : gmap string Paths.rttEntry) : list (string * Paths.rttEntry) :=
  if decide (es = conv (Neighbors m u)) then conv_list (iter u (Neighbors m u)) else map_to_list es.

Lemma unblocked_at u : default ∅ (unblocked !! u) = conv (Neighbors m u).
Proof.
  unfold unblocked, Neighbors, Paths.LatencyGraph in *. rewrite lookup_fmap. destruct (edges m !! u); [done|]. cbn.
  unfold conv. by rewrite map_filter_empty, fmap_empty.
Qed.

Lemma iter_unblocked_at u : iter_unblocked u (default ∅ (unblocked !! u)) = conv_list (iter u (Neighbors m u)).
Proof. unfold iter_unblocked. by rewrite unblocked_at, decide_True. Qed.

Lemma iter_unblocked_perm u es : iter_unblocked u es ≡ₚ map_to_list es.
Proof.
  unfold iter_unblocked. destruct (decide _) as [->|]; [|done]. unfold conv_list, conv.
  rewrite map_to_list_fmap, iter_perm. set (f := fun e => Paths.MkEntry (weight e) 0 "").
  assert (filter (fun kv => kv.1 ∉ blocked) (map_to_list (Neighbors m u))
    ≡ₚ map_to_list (filter (fun kv => kv.1 ∉ blocked) (Neighbors m u))) as <-.
  { apply NoDup_Permutation; [by apply NoDup_filter, NoDup_map_to_list | apply NoDup_map_to_list |].
    intros [k e]. rewrite list_elem_of_filter, !elem_of_map_to_list, map_lookup_filter_Some. tauto. }
  by apply reflexive_eq, list_fmap_ext.
Qed.

Lemma unblocked_edge u v w :
  Paths.edge unblocked u v = Some w <-> (v ∉ blocked) /\ exists e, edge_at m u v = Some e /\ w = weight e.
Proof.
  unfold Paths.edge. rewrite unblocked_at. unfold conv, edge_at. split.
  - intros (x & Hx & [= <-])%bind_Some. apply lookup_fmap_Some in Hx as (e & <- & He).
    apply map_lookup_filter_Some in He as [He Hb]. split; [done|]. by exists e.
  - intros (Hb & e & He & ->). rewrite lookup_fmap. by rewrite (map_lookup_filter_Some_2 _ (Neighbors m u) v e He Hb).
Qed.

Context (nonneg : forall u v e, edge_at m u v = Some e -> 0 <= RTTms e).
Context (named : forall u v e, edge_at m u v = Some e -> v <> "").
Context (s t : string) (Hs : s <> "").

Definition search_nodes : list string := s :: (Paths.Target <$> Paths.AllEdges unblocked).
Definition rounds : nat := Paths.edges unblocked + 2.

Lemma search_small : Paths.small (Z.of_nat rounds) unblocked s search_nodes.
Proof.
  split_and!.
  - unfold search_nodes, rounds, Paths.edges. cbn [length]. rewrite length_fmap. lia.
  - left.
  - intros u v w Hw. split.
    + apply unblocked_edge in Hw as (_ & e & He & ->). specialize (nonneg _ _ _ He). unfold weight, unmeasured. case_match; lia.
    + right. apply Paths.AllEdges_edge in Hw as (z & Hz). by apply (list_elem_of_fmap_2 Paths.Target) in Hz.
Qed.

Lemma edges_le : (Paths.edges unblocked <= edge_count m)%nat.
Proof.
  rewrite Paths.edges_remaining. unfold Paths.remaining, edge_count, unblocked, Paths.LatencyGraph in *.
  rewrite map_to_list_fmap, <-list_fmap_compose.
  induction (map_to_list (edges m)) as [|[u es] l IH]; [done|]. cbn [fmap list_fmap sum_list compose prod_map fst snd].
  apply Nat.add_le_mono; [|done]. rewrite decide_False by apply not_elem_of_empty.
  unfold conv. rewrite map_size_fmap. apply map_size_filter.
Qed.

(** The two searches in step. *)
Definition same (st : search (Q := Q)) (st' : Paths.search (Q := Q)) : Prop :=
  dist st = Paths.s_dist st' /\ prev st = Paths.s_prev st' /\ visited st = Paths.s_visited st' /\ pq st = Paths.s_queue st'.

Abbreviation inv := (Paths.search_inv (Z.of_nat rounds) unblocked s).

Lemma hops_room vs st' u : inv (u :: vs) st' -> (length (u :: vs) <= rounds)%nat -> Paths.hops st' u < Z.of_nat rounds.
Proof.
  intros Hinv Hl. destruct (Paths.tree_path_exists iter_unblocked _ _ _ _ _ Hinv vs [] u eq_refl)
    as (p & c & _ & _ & Hnd & Hin & Hlen & _).
  assert (p ⊆+ u :: vs) as Hsub by (apply NoDup_submseteq; [done | intros x Hx; apply elem_of_cons; by apply Hin]).
  apply submseteq_length in Hsub. lia.
Qed.

Lemma relax_same vs nbs : forall st st' u,
  same st st' -> inv (u :: vs) st' -> (length (u :: vs) <= rounds)%nat ->
  Forall (fun nb => default ∅ (unblocked !! u) !! nb.1 = Some nb.2) (conv_list nbs) ->
  same (foldl (relax blocked u) st nbs) (foldl (Paths.relax (Z.of_nat rounds) u) st' (conv_list nbs)).
Proof.
  unfold conv_list. induction nbs as [|[v e] nbs IH]; intros st st' u Hsame Hinv Hl Hf; [done|].
  cbn [foldl]. rewrite filter_cons in *. cbn [fst] in *. destruct (decide (v ∉ blocked)) as [Hv|Hv].
  - cbn [fmap list_fmap foldl fst snd] in *. apply Forall_cons in Hf as [He Hf].
    pose proof (hops_room _ _ _ Hinv Hl) as Hroom.
    destruct (Paths.relax_inv _ _ _ _ _ _ _ Hinv He) as (Hinv' & _ & _).
    apply IH; [|done..]. clear IH Hinv' Hf He Hinv. destruct Hsame as (H1 & H2 & H3 & H4).
    unfold relax, Paths.relax, Paths.distance. rewrite (bool_decide_false _ Hv), H3. cbn [orb].
    case_bool_decide; [done|]. rewrite (proj2 (Z.leb_gt _ _)) by done. cbn [Paths.rtt]. rewrite H1.
    destruct (match Paths.s_dist st' !! v with Some _ => _ | None => _ end); [|done].
    unfold same. cbn. by rewrite H2, H4.
  - apply dec_stable in Hv. unfold relax at 2. rewrite bool_decide_true by done. cbn [orb]. by apply IH.
Qed.

Lemma run_same fuel : forall fuel2 vs st st',
  (fuel <= fuel2)%nat -> same st st' -> inv vs st' -> Paths.round_inv unblocked s search_nodes vs st' ->
  (length vs + fuel <= rounds)%nat -> t ∉ vs ->
  match Paths.run iter_unblocked (Z.of_nat rounds) fuel unblocked t st' with
  | Paths.OutOfFuel => True
  | Paths.NoPath => exists st2, run iter fuel2 m blocked t st = Some st2 /\ dist st2 !! t = None
  | Paths.Found p => exists st2, run iter fuel2 m blocked t st = Some st2 /\ is_Some (dist st2 !! t) /\
      prev st2 !! s = None /\ Paths.reconstruct (size (prev st2)) (prev st2) t [t] = Some p /\
      forall x y, prev st2 !! x = Some y -> x <> ""
  end.
Proof.
  induction fuel as [|fuel IH]; intros fuel2 vs st st' Hf Hsame Hinv Hr Hl Ht; [done|].
  destruct fuel2 as [|fuel2]; [lia|]. pose proof Hsame as (H1 & H2 & H3 & H4).
  cbn [Paths.run run]. rewrite H4. destruct (pq_pop (Paths.s_queue st')) as [[cur q]|] eqn:Epop.
  2:{ exists st. split; [done|]. rewrite H1. apply eq_None_not_Some. intros [d Hd].
      pose proof (Paths.r_waiting _ _ _ _ _ Hr t d Ht Hd) as Hi. rewrite (pq_pop_none _ Epop) in Hi.
      by apply not_elem_of_nil in Hi. }
  rewrite H3. case_bool_decide as Hv.
  { rewrite (Paths.v_set _ _ _ _ _ Hinv) in Hv. apply (IH fuel2 vs); [lia | | by eapply Paths.skip_inv |
      by eapply Paths.skip_round | lia | done]. by rewrite <-H3. }
  rewrite (Paths.v_set _ _ _ _ _ Hinv) in Hv. pose proof (Paths.visit_inv _ _ _ _ _ _ _ Hinv Epop Hv) as Hinv1.
  pose proof (Paths.pop_round _ _ _ _ search_small _ _ _ _ Hinv Hr Epop Hv) as He.
  assert (same (MkSearch (dist st) (prev st) ({[Paths.key cur]} ∪ Paths.s_visited st') q)
    (Paths.visit (Paths.key cur) q st')) as Hsame1 by done.
  destruct (String.eqb_spec (Paths.key cur) t) as [<-|Hne].
  - destruct (Paths.reconstruct_found iter_unblocked _ _ _ _ _ _ Hinv1) as (p & Hrec & c & Hp & Hd & _).
    rewrite Hrec. eexists. split; [done|]. destruct Hsame1 as (-> & -> & _). split_and!.
    + by eexists.
    + by destruct (Paths.v_source _ _ _ _ _ Hinv1) as (_ & _ & ? & _).
    + done.
    + intros x y Hxy. destruct (Paths.v_prev _ _ _ _ _ Hinv1 x y Hxy) as (_ & _ & du & w & _ & Hw & _).
      apply unblocked_edge in Hw as (_ & e & He' & _). by eapply named.
  - apply (IH fuel2 (Paths.key cur :: vs)); [lia | | | | cbn [length]; lia | by apply not_elem_of_cons; split; [congruence|]].
    + rewrite iter_unblocked_at. apply (relax_same vs); [done | done | cbn [length]; lia |].
      rewrite <-iter_unblocked_at. apply Paths.iter_edges, iter_unblocked_perm.
    + by apply Paths.relax_all_inv, Paths.iter_edges, iter_unblocked_perm.
    + eapply Paths.close_round; [by apply iter_unblocked_perm|].
      eapply Paths.relax_all_exact; [exact iter_unblocked | exact search_small | done | done |].
      apply Paths.iter_edges, iter_unblocked_perm.
Qed.

Lemma reconstruct_same prv fuel : forall fuel2 k path q,
  (fuel < fuel2)%nat -> prv !! s = None -> (forall x y, prv !! x = Some y -> x <> "") ->
  Paths.reconstruct fuel prv k (k :: path) = Some q -> list.head q = Some s ->
  reconstruct fuel2 prv s k path = Some q.
Proof.
  induction fuel as [|fuel IH]; intros fuel2 k path q Hf Hps Hn Hr Hh; (destruct fuel2 as [|fuel2]; [lia|]);
    cbn [Paths.reconstruct reconstruct] in *; destruct (prv !! k) as [u|] eqn:Hk.
  - done.
  - injection Hr as <-. injection Hh as ->. rewrite (proj2 (String.eqb_neq s "")) by done. by rewrite String.eqb_refl.
  - rewrite (proj2 (String.eqb_neq k "")) by by eapply Hn.
    rewrite (proj2 (String.eqb_neq k s)) by (intros ->; congruence). cbn [from_option id].
    by apply (IH fuel2); [lia|..].
  - injection Hr as <-. injection Hh as ->. rewrite (proj2 (String.eqb_neq s "")) by done. by rewrite String.eqb_refl.
Qed.

(** A path of the matrix that avoids the blocked nodes, with its length. *)
Definition avoids (p : list string) (c : Z) : Prop := Paths.is_path unblocked s t p c.

Lemma search_exact : s ∉ blocked -> t ∉ blocked ->
  match ShortestPath iter m s t blocked with
  | Paths.OutOfFuel => False
  | Paths.Found p => NoDup p /\ exists c, avoids p c /\ forall p' c', avoids p' c' -> c <= c'
  | Paths.NoPath => forall p c, ~ avoids p c
  end.
Proof.
  intros Hsb Htb. unfold ShortestPath. rewrite !bool_decide_false by done. cbn [orb].
  destruct (Paths.start_pop s) as (q0 & Hpop0 & Hwf0 & Hit0).
  replace (edge_count m + 2)%nat with (S (edge_count m + 1)) by lia. cbn [run pq].
  cbn [Paths.start Paths.s_queue] in Hpop0. rewrite Hpop0. cbn [Paths.key visited].
  rewrite bool_decide_false by apply not_elem_of_empty. destruct (String.eqb_spec s t) as [Heq|Hne].
  { cbn [dist prev]. rewrite <-!Heq. rewrite lookup_singleton_eq, map_size_empty. cbn [reconstruct Nat.add].
    rewrite (proj2 (String.eqb_neq s "")) by done. rewrite String.eqb_refl, bool_decide_true by done.
    split; [apply NoDup_singleton|]. exists 0. split.
    - unfold avoids, Paths.is_path. split_and!; [done | by rewrite <-Heq | done].
    - intros p' c' (_ & _ & Hc). by apply (Paths.cost_nonneg _ _ _ _ search_small _ _ Hc). }
  destruct (Paths.run_start iter_unblocked (Z.of_nat rounds) unblocked s iter_unblocked_perm (Paths.edges unblocked + 1) t Hne)
    as (st & _ & Hinv & Hf & q & Hpop & Hwf & Hq & Hst).
  cbn [Paths.start Paths.s_queue] in Hpop. rewrite Hpop0 in Hpop. injection Hpop as ->.
  assert (Paths.round_inv unblocked s search_nodes [s] st) as Hr.
  { subst st. eapply Paths.close_round; [by apply iter_unblocked_perm|].
    eapply Paths.relax_all_exact; [exact iter_unblocked | exact search_small | by apply Paths.visit_start_inv
      | eapply Paths.start_exact; [exact search_small | done] | apply Paths.iter_edges, iter_unblocked_perm]. }
  assert (t ∉ [s]) as Hts by (intros ?%list_elem_of_singleton; congruence).
  pose proof (Paths.run_sound iter_unblocked (Z.of_nat rounds) unblocked s iter_unblocked_perm ltac:(lia) t
    (Paths.edges unblocked + 1) [s] st Hinv ltac:(lia)) as Hsound.
  pose proof (Paths.run_exact iter_unblocked (Z.of_nat rounds) unblocked s search_nodes search_small iter_unblocked_perm t
    (Paths.edges unblocked + 1) [s] st Hinv Hr Hts) as Hex.
  pose proof edges_le as Hle.
  assert (same (foldl (relax blocked s) (MkSearch {[s := 0]} ∅ ({[s]} ∪ ∅) q) (iter s (Neighbors m s))) st) as Hsame.
  { subst st. rewrite iter_unblocked_at. apply (relax_same []); [done | by apply Paths.visit_start_inv | cbn; unfold rounds; lia |].
    rewrite <-iter_unblocked_at. apply Paths.iter_edges, iter_unblocked_perm. }
  pose proof (run_same (Paths.edges unblocked + 1) (edge_count m + 1) [s] _ st ltac:(lia) Hsame Hinv Hr
    ltac:(cbn; unfold rounds; lia) Hts) as Hrun.
  cbn [dist prev]. destruct (Paths.run _ _ _ _ _ _) as [|p|]; [done|..].
  - destruct Hrun as (st2 & -> & [d ->] & Hps & Hrec & Hn). destruct Hex as (c & Hp & Hmin).
    pose proof Hp as (Hh & _). rewrite (reconstruct_same _ (size (prev st2)) (size (prev st2) + 2) _ _ _ ltac:(lia) Hps Hn Hrec Hh).
    rewrite bool_decide_true by done. split; [by destruct Hsound | by exists c].
  - destruct Hrun as (st2 & -> & ->). done.
Qed.
End Exact.

(** ** What the searches promise *)

(** A walk of the matrix from [s] to [t] whose nodes after the first are not
    blocked, with its length. *)
Definition walk (m : MeshLatencyMatrix) (blocked : gset string) (s t : string) (p : list string) (c : Z) : Prop :=
  Paths.is_path (unblocked m blocked) s t p c.
Definition shortest (m : MeshLatencyMatrix) (blocked : gset string) (s t : string) (p : list string) : Prop :=
  NoDup p /\ exists c, walk m blocked s t p c /\ forall p' c', walk m blocked s t p' c' -> c <= c'.
Definition measured (m : MeshLatencyMatrix) : Prop :=
  forall u v e, edge_at m u v = Some e -> 0 <= RTTms e /\ v <> "".
(** The relays of some paths. *)
Definition relays_of (paths : list (list string)) : gset string := list_to_set (concat (inner <$> paths)).

Lemma walk_avoids m blocked s t p c x : walk m blocked s t p c -> x ∈ tail p -> x ∉ blocked.
Proof.
  intros (_ & _ & Hc). revert c Hc. induction p as [|u p IH]; [by intros _ _ ?%not_elem_of_nil|].
  destruct p as [|v p]; [by intros _ _ ?%not_elem_of_nil|]. intros c Hc.
  rewrite Paths.cost_cons in Hc. apply bind_Some in Hc as (w & Hw & (c' & Hc' & _)%bind_Some).
  apply unblocked_edge in Hw as [Hv _]. cbn [tail] in *. intros [->|Hx]%elem_of_cons; [done|]. by eapply IH.
Qed.

Lemma inner_tail p x : x ∈ inner p -> x ∈ tail p.
Proof.
  unfold inner. generalize (tail p). intros l. induction l as [|y l IH]; [done|]. destruct l as [|z l].
  - by intros ?%not_elem_of_nil.
  - intros [->|Hx]%elem_of_cons; [left | right; by apply IH].
Qed.

Lemma inner_ends s t p : NoDup p -> list.head p = Some s -> last p = Some t -> (s ∉ inner p) /\ (t ∉ inner p).
Proof.
  destruct p as [|x p]; [done|]. intros [Hx Hnd]%NoDup_cons [= ->] Hl. split; [by intros H%inner_tail|].
  unfold inner. cbn [tail]. destruct p as [|y p]; [by intros ?%not_elem_of_nil|]. change (last (y :: p) = Some t) in Hl.
  rewrite (Paths.removelast_last_eq _ _ Hl) in Hnd. apply NoDup_app in Hnd as (_ & Hnd & _).
  intros Hin. by apply (Hnd t Hin), list_elem_of_singleton.
Qed.

Section Greedy.
Context {Q : Type} `{PQ : PriorityQueue Paths.heapItem Paths.dist Q}.
Context (iter : string -> gmap string LatencyEdge -> list (string * LatencyEdge)).
Context (iter_perm : forall u m, iter u m ≡ₚ map_to_list m).
Context (m : MeshLatencyMatrix) (Hm : measured m) (s t : string) (Hs : s <> "").

Lemma disjoint_loop_spec k : forall blocked, s ∉ blocked -> t ∉ blocked ->
  let ps := disjoint_loop iter k m s t blocked in
  (length ps <= k)%nat /\
  (forall i p, ps !! i = Some p -> shortest m (relays_of (take i ps) ∪ blocked) s t p) /\
  ((length ps < k)%nat -> forall p c, ~ walk m (relays_of ps ∪ blocked) s t p c).
Proof.
  induction k as [|k IH]; intros blocked Hsb Htb; [by split_and!; cbn; [lia|..|lia]|]. cbn [disjoint_loop].
  pose proof (search_exact iter iter_perm m blocked (fun u v e He => proj1 (Hm u v e He))
    (fun u v e He => proj2 (Hm u v e He)) s t Hs Hsb Htb) as Hex.
  destruct (ShortestPath iter m s t blocked) as [|p|]; [done | |].
  2:{ split_and!; [cbn; lia | done |]. unfold relays_of. cbn. rewrite union_empty_l_L. intros _. exact Hex. }
  destruct Hex as (Hnd & c & Hp & Hmin). pose proof Hp as (Hh & Hl & _).
  destruct (inner_ends s t p Hnd Hh Hl) as [Hsi Hti].
  destruct (IH (list_to_set (inner p) ∪ blocked)) as (H1 & H2 & H3); [set_solver..|].
  assert (forall qs : list (list string),
    relays_of (p :: qs) ∪ blocked = relays_of qs ∪ (list_to_set (inner p) ∪ blocked)) as Hset.
  { intros qs. unfold relays_of. cbn [fmap list_fmap concat]. rewrite list_to_set_app_L.
    generalize (list_to_set (concat (inner <$> qs)) : gset string), (list_to_set (inner p) : gset string). set_solver. }
  cbn zeta in *. split_and!.
  - cbn [length]. lia.
  - intros [|i] q; cbn [lookup list_lookup take].
    + intros [= <-]. unfold relays_of. cbn. rewrite union_empty_l_L. split; [done|]. by exists c.
    + intros Hq. rewrite Hset. by apply H2.
  - intros Hlen. rewrite Hset. apply H3. cbn [length] in Hlen. lia.
Qed.
End Greedy.

(** The relays of different paths are different. *)
Definition pairwise_disjoint (ps : list (list string)) : Prop :=
  forall i j p q x, ps !! i = Some p -> ps !! j = Some q -> i <> j -> x ∈ inner p -> x ∉ inner q.

Lemma chosen_disjoint m s t ps :
  (forall i p, ps !! i = Some p -> shortest m (relays_of (take i ps)) s t p) -> pairwise_disjoint ps.
Proof.
  intros Hs.
  assert (forall i j p q x, (i < j)%nat -> ps !! i = Some p -> ps !! j = Some q -> x ∈ inner p -> x ∉ inner q) as Hlt.
  { intros i j p q x Hij Hp Hq Hx Hxq. destruct (Hs j q Hq) as (_ & c & Hw & _).
    apply (walk_avoids _ _ _ _ _ _ x Hw (inner_tail _ _ Hxq)), (elem_of_list_to_set (C := gset string)).
    apply list_elem_of_In, in_concat. exists (inner p). split; [|by apply list_elem_of_In].
    apply list_elem_of_In, list_elem_of_fmap_2, (list_elem_of_lookup_2 _ i). by rewrite lookup_take_lt. }
  intros i j p q x Hp Hq Hne Hx Hxq. destruct (decide (i < j)%nat); [by eapply (Hlt i j)|].
  by eapply (Hlt j i); [lia|..].
Qed.

Lemma disjoint_count ps x : pairwise_disjoint ps -> relay_count ps x <= 1.
Proof.
  unfold relay_count. induction ps as [|p ps IH]; intros Hd; [done|]. cbn [List.filter].
  assert (pairwise_disjoint ps) as Hd'.
  { intros i j p' q y Hp Hq Hne. apply (Hd (S i) (S j) p' q y Hp Hq). lia. }
  case_bool_decide as Hx; [|by apply IH].
  assert (List.filter (fun path => bool_decide (x ∈ inner path)) ps = []) as ->; [|done].
  destruct (List.filter _ ps) as [|q l] eqn:E; [done|]. exfalso.
  assert (In q (q :: l)) as Hin by (by left). rewrite <-E in Hin. apply filter_In in Hin as [Hq Hb%bool_decide_eq_true]. apply list_elem_of_In, list_elem_of_lookup_1 in Hq as [j Hj].
  by apply (Hd 0%nat (S j) p q x eq_refl Hj).
Qed.

Section Answers.
Context {Q : Type} `{PQ : PriorityQueue Paths.heapItem Paths.dist Q}.
Context (iter : string -> gmap string LatencyEdge -> list (string * LatencyEdge)).

(** The search of the latency matrix is exact, on graphs of any size: it
    always ends, a path it returns visits no node twice, avoids the blocked
    nodes and has the least total latency of all that do, and when it
    returns none there is none, whatever the order in which neighbours are
    visited. *)
Theorem ShortestPath_exact m s t blocked :
  (forall u es, iter u es ≡ₚ map_to_list es) -> measured m -> s <> "" -> (s ∉ blocked) -> (t ∉ blocked) ->
  match ShortestPath iter m s t blocked with
  | Paths.OutOfFuel => False
  | Paths.Found p => shortest m blocked s t p
  | Paths.NoPath => forall p c, ~ walk m blocked s t p c
  end.
Proof.
  intros Hiter Hm Hs Hsb Htb. apply (search_exact iter Hiter m blocked); try done; intros u v e He; by destruct (Hm u v e He).
Qed.

(** The k paths chosen for a circuit share no relay: each is a shortest
    one of those that avoid the relays of the paths before it, the check for
    a common relay at the end never fails, and the error "no paths" means
    that fewer than k were found before no path was left that avoids the
    relays in use. *)
Theorem KShortestDisjointPaths_spec m s t k :
  (forall u es, iter u es ≡ₚ map_to_list es) -> measured m -> s <> "" ->
  match KShortestDisjointPaths iter m s t k with
  | Ok ps => length ps = k /\ pairwise_disjoint ps /\
      (forall i p, ps !! i = Some p -> shortest m (relays_of (take i ps)) s t p)
  | Err ErrNoPaths => exists ps, (length ps < k)%nat /\ pairwise_disjoint ps /\
      (forall i p, ps !! i = Some p -> shortest m (relays_of (take i ps)) s t p) /\
      forall p c, ~ walk m (relays_of ps) s t p c
  | Err ErrPathOverlap => False
  end.
Proof.
  intros Hiter Hm Hs. unfold KShortestDisjointPaths.
  destruct (disjoint_loop_spec iter Hiter m Hm s t Hs k ∅) as (H1 & H2 & H3); [apply not_elem_of_empty..|].
  cbn zeta in *. rewrite union_empty_r_L in H3. set (ps := disjoint_loop iter k m s t ∅) in *.
  assert (forall i p, ps !! i = Some p -> shortest m (relays_of (take i ps)) s t p) as H2'.
  { intros i p Hp. specialize (H2 i p Hp). by rewrite union_empty_r_L in H2. }
  pose proof (chosen_disjoint _ _ _ _ H2') as Hd. destruct (Nat.ltb_spec (length ps) k) as [Hlt|Hge].
  { exists ps. split_and!; auto. }
  replace (existsb _ _) with false; [split_and!; [lia | done..]|]. symmetry. apply not_true_iff_false.
  intros (x & _ & Hx%Z.ltb_lt)%existsb_exists. pose proof (disjoint_count ps x Hd). lia.
Qed.
End Answers.

(** ** Examples *)
#[local] Existing Instances Paths.heapItem_inhabited Heap.heap_queue.
Definition edges_of (es : list (string * string * Z)) : MeshLatencyMatrix :=
  MergeEdges NewMeshLatencyMatrix 0 ((fun e => MkEdge e.1.1 e.1.2 e.2 0 0 "probe") <$> es).
Definition any_order (u : string) (es : gmap string LatencyEdge) : list (string * LatencyEdge) := map_to_list es.

Definition measured_check (m : MeshLatencyMatrix) : bool :=
  forallb (fun ues => forallb (fun ve => (0 <=? RTTms ve.2) && negb (String.eqb ve.1 "")) (map_to_list ues.2))
    (map_to_list (edges m)).
Lemma measured_check_ok m : measured_check m = true -> measured m.
Proof.
  unfold measured_check, measured, edge_at, Neighbors. rewrite forallb_forall. intros Hf u v e He.
  destruct (edges m !! u) as [es|] eqn:Eu; cbn [default] in He; [|by rewrite lookup_empty in He].
  specialize (Hf (u, es)). rewrite forallb_forall in Hf. specialize (fun H => Hf H (v, e)).
  rewrite <-!list_elem_of_In, !elem_of_map_to_list in Hf. specialize (Hf Eu He). cbn [fst snd] in Hf.
  apply andb_true_iff in Hf as [?%Z.leb_le ?%negb_true_iff]. split; [done|]. by apply String.eqb_neq.
Qed.

(** Two relays, each near to one end. *)
Definition two_relays : MeshLatencyMatrix :=
  edges_of [("s", "r1", 10); ("r1", "t", 40); ("s", "r2", 30); ("r2", "t", 30); ("r1", "r2", 25)].

Lemma ShortestPath_exact_witness :
  ShortestPath any_order two_relays "s" "t" {["r1"]} = Paths.Found ["s"; "r2"; "t"] /\
  match ShortestPath any_order two_relays "s" "t" {["r1"]} with
  | Paths.OutOfFuel => False
  | Paths.Found p => shortest two_relays {["r1"]} "s" "t" p
  | Paths.NoPath => forall p c, ~ walk two_relays {["r1"]} "s" "t" p c
  end.
Proof.
  split; [vm_compute; reflexivity|].
  apply (ShortestPath_exact any_order two_relays "s" "t" {["r1"]}); try done; [|set_solver..].
  apply measured_check_ok. vm_compute. reflexivity.
Defined.

Lemma KShortestDisjointPaths_spec_witness :
  exists p q, KShortestDisjointPaths any_order two_relays "s" "t" 2 = Ok [p; q] /\
    match KShortestDisjointPaths any_order two_relays "s" "t" 2 with
    | Ok ps => length ps = 2%nat /\ pairwise_disjoint ps /\
        (forall i p, ps !! i = Some p -> shortest two_relays (relays_of (take i ps)) "s" "t" p)
    | Err ErrNoPaths => exists ps, (length ps < 2)%nat /\ pairwise_disjoint ps /\
        (forall i p, ps !! i = Some p -> shortest two_relays (relays_of (take i ps)) "s" "t" p) /\
        forall p c, ~ walk two_relays (relays_of ps) "s" "t" p c
    | Err ErrPathOverlap => False
    end.
Proof.
  eexists _, _. split; [vm_compute; reflexivity|].
  apply (KShortestDisjointPaths_spec any_order two_relays "s" "t" 2); [done | | done].
  apply measured_check_ok. vm_compute. reflexivity.
Defined.

(** A path without a relay blocks nothing, so that a direct link is chosen
    again: both paths of the circuit are the same link. *)
Definition direct_link : MeshLatencyMatrix := edges_of [("s", "t", 10); ("s", "r", 20); ("r", "t", 20)].

(** The cheapest path runs over both relays, after which no path is left,
    although two paths without a common relay exist. *)
Definition crossed : MeshLatencyMatrix :=
  edges_of [("s", "a", 10); ("a", "b", 10); ("b", "t", 10); ("s", "b", 100); ("a", "t", 100)].

(** The greedy choice has two weak points: a direct link between source
    and target is chosen twice, so that both "disjoint" paths are the same
    link although a relay is free; and a cheapest path over two relays makes
    the choice fail although two paths without a common relay exist. *)
Theorem KShortestDisjointPaths_greedy :
  KShortestDisjointPaths any_order direct_link "s" "t" 2 = Ok [["s"; "t"]; ["s"; "t"]] /\
  KShortestDisjointPaths any_order crossed "s" "t" 2 = Err ErrNoPaths /\
  walk crossed ∅ "s" "t" ["s"; "a"; "t"] 110 /\ walk crossed ∅ "s" "t" ["s"; "b"; "t"] 110 /\
  PathsHaveOverlap ["s"; "a"; "t"] ["s"; "b"; "t"] = false.
Proof. unfold walk, Paths.is_path. split_and!; vm_compute; reflexivity. Qed.
End Matrix.
