(* ===== verification/CircuitMgr.v ===== *)
(** * The circuit manager (internal/proxy/circuit_manager.go)

    The life cycle of proxy circuits: creation over selected paths, the
    answer of the exit, keepalives and the health of the two paths, the
    assignment of chunks to paths, teardown and the removal of key material.
    Every operation is a program of atomic actions, one for each section
    under a mutex, so that the theorems hold for all interleavings of any
    number of callers. Pointers to circuits are positions in a heap: an
    operation may still hold a circuit that another one has removed. *)
From stdpp Require Import prelude gmap strings list.
From Stdlib Require Import Strings.Byte ZArith Lia.
From S2P Require Import Prelude GoBytes Conc GoHeap PathGraph Circuit PathSelect DisjointPaths.
Local Open Scope Z_scope.

Module Manager.

(** ** Paths of a circuit *)

Inductive PathHealthState : Type := PathHealthHealthy | PathHealthDegraded | PathHealthUnhealthy.
#[export] Instance PathHealthState_eq_dec : EqDecision PathHealthState.
Proof. solve_decision. Defined.

Record CircuitPath : Type := MkPath {
  Index : Z; Hops : list string; RelayKeys : list (list byte); TotalChunks : Z; TotalBytes : Z;
  LastRTT : Z; Health : PathHealthState; MissedKeepalives : Z; EstablishedAt : Z
}.

Definition Healthy (p : CircuitPath) : bool := bool_decide (Health p <> PathHealthUnhealthy).

Definition RecordChunk (byteCount : Z) (p : CircuitPath) : CircuitPath :=
  MkPath (Index p) (Hops p) (RelayKeys p) (u64 (TotalChunks p + 1)) (u64 (TotalBytes p + byteCount))
    (LastRTT p) (Health p) (MissedKeepalives p) (EstablishedAt p).
Definition with_health (rtt : Z) (h : PathHealthState) (missed : Z) (p : CircuitPath) : CircuitPath :=
  MkPath (Index p) (Hops p) (RelayKeys p) (TotalChunks p) (TotalBytes p) rtt h missed (EstablishedAt p).
Definition RecordRTT (rtt : Z) (p : CircuitPath) : CircuitPath := with_health rtt PathHealthHealthy 0 p.
(** The path's part of [MissKeepalive]. *)
Definition path_MissKeepalive (p : CircuitPath) : CircuitPath :=
  let missed := MissedKeepalives p + 1 in
  with_health (LastRTT p)
    (if 4 <=? missed then PathHealthUnhealthy else if 2 <=? missed then PathHealthDegraded else Health p) missed p.

Definition zeroes (l : list byte) : list byte := replicate (length l) x00.
Definition path_ZeroKeys (p : CircuitPath) : CircuitPath :=
  MkPath (Index p) (Hops p) (zeroes <$> RelayKeys p) (TotalChunks p) (TotalBytes p)
    (LastRTT p) (Health p) (MissedKeepalives p) (EstablishedAt p).

(** ** Chunk assignment *)

Inductive strategy : Type := RoundRobinStrategy | WeightedStrategy | FastestOnlyStrategy.
Definition NewChunkAssignmentStrategy (name : string) : strategy :=
  if String.eqb name "weighted" then WeightedStrategy
  else if String.eqb name "fastest-only" then FastestOnlyStrategy else RoundRobinStrategy.

(** The top 53 bits of eight random bytes; the float is [bits / 2^53]. *)
Definition cryptoRandFloat (buf : Z) : Z := Z.shiftr (u64 buf) 11.

Definition round_robin (p0 p1 : CircuitPath) (callCount : Z) : Z :=
  if negb (Healthy p0) && Healthy p1 then 1
  else if negb (Healthy p1) && Healthy p0 then 0 else Z.rem callCount 2.
(** The comparison of the quotients as exact fractions: the rounding of the
    two float divisions is not modelled. *)
Definition weighted (p0 p1 : CircuitPath) (callCount buf : Z) : Z :=
  if negb (Healthy p0) && Healthy p1 then 1
  else if negb (Healthy p1) && Healthy p0 then 0
  else if negb (Healthy p0) && negb (Healthy p1) then Z.rem callCount 2
  else if (LastRTT p0 =? 0) && (LastRTT p1 =? 0) then Z.rem callCount 2
  else
    let rttA := if LastRTT p0 =? 0 then LastRTT p1 else LastRTT p0 in
    let rttB := if LastRTT p1 =? 0 then rttA else LastRTT p1 in
    if cryptoRandFloat buf * i64 (rttA + rttB) <? rttB * 2 ^ 53 then 0 else 1.
Definition fastest_only (p0 p1 : CircuitPath) (callCount : Z) : Z :=
  if negb (Healthy p0) && Healthy p1 then 1
  else if negb (Healthy p1) && Healthy p0 then 0
  else if (LastRTT p0 =? 0) && (LastRTT p1 =? 0) then Z.rem callCount 2
  else if LastRTT p0 =? 0 then 1
  else if LastRTT p1 =? 0 then 0
  else if LastRTT p0 <=? LastRTT p1 then 0 else 1.
Definition strategy_AssignPath (s : strategy) (p0 p1 : CircuitPath) (callCount buf : Z) : Z :=
  match s with
  | RoundRobinStrategy => round_robin p0 p1 callCount
  | WeightedStrategy => weighted p0 p1 callCount buf
  | FastestOnlyStrategy => fastest_only p0 p1 callCount
  end.

(** ** Circuits *)

Inductive CircuitState : Type := CircuitCreating | CircuitActive | CircuitTeardown | CircuitClosed.
#[export] Instance CircuitState_eq_dec : EqDecision CircuitState.
Proof. solve_decision. Defined.
Definition state_code (s : CircuitState) : Z :=
  match s with CircuitCreating => 1 | CircuitActive => 2 | CircuitTeardown => 3 | CircuitClosed => 4 end.
Definition circuitStateName (s : CircuitState) : string :=
  match s with
  | CircuitCreating => "creating" | CircuitActive => "active" | CircuitTeardown => "teardown" | CircuitClosed => "closed"
  end.

(** The pair of pointers [Paths]; [None] is nil. *)
Record Circuit : Type := MkCircuit {
  ID : list byte; State : CircuitState; CreatedAt : Z; LastActivity : Z;
  Entry : string; Exit : string; TargetAddr : string; E2EKey : list byte; PaddingSeed : list byte;
  Path0 : option CircuitPath; Path1 : option CircuitPath; AssignmentStrategy : strategy;
  KeepaliveInterval : Z; IdleTimeout : Z; nextPathIndex : Z
}.

Definition with_State (st : CircuitState) (c : Circuit) : Circuit :=
  MkCircuit (ID c) st (CreatedAt c) (LastActivity c) (Entry c) (Exit c) (TargetAddr c) (E2EKey c) (PaddingSeed c)
    (Path0 c) (Path1 c) (AssignmentStrategy c) (KeepaliveInterval c) (IdleTimeout c) (nextPathIndex c).
Definition UpdateActivity (now : Z) (c : Circuit) : Circuit :=
  MkCircuit (ID c) (State c) (CreatedAt c) now (Entry c) (Exit c) (TargetAddr c) (E2EKey c) (PaddingSeed c)
    (Path0 c) (Path1 c) (AssignmentStrategy c) (KeepaliveInterval c) (IdleTimeout c) (nextPathIndex c).
Definition on_paths (f0 f1 : CircuitPath -> CircuitPath) (c : Circuit) : Circuit :=
  MkCircuit (ID c) (State c) (CreatedAt c) (LastActivity c) (Entry c) (Exit c) (TargetAddr c) (E2EKey c) (PaddingSeed c)
    (f0 <$> Path0 c) (f1 <$> Path1 c) (AssignmentStrategy c) (KeepaliveInterval c) (IdleTimeout c) (nextPathIndex c).
Definition next_index (c : Circuit) : Circuit :=
  MkCircuit (ID c) (State c) (CreatedAt c) (LastActivity c) (Entry c) (Exit c) (TargetAddr c) (E2EKey c) (PaddingSeed c)
    (Path0 c) (Path1 c) (AssignmentStrategy c) (KeepaliveInterval c) (IdleTimeout c) (i64 (nextPathIndex c + 1)).
Definition ZeroKeys (c : Circuit) : Circuit :=
  MkCircuit (ID c) (State c) (CreatedAt c) (LastActivity c) (Entry c) (Exit c) (TargetAddr c)
    (zeroes (E2EKey c)) (zeroes (PaddingSeed c)) (path_ZeroKeys <$> Path0 c) (path_ZeroKeys <$> Path1 c)
    (AssignmentStrategy c) (KeepaliveInterval c) (IdleTimeout c) (nextPathIndex c).

Definition path_at (c : Circuit) (i : Z) : option CircuitPath := if i =? 0 then Path0 c else Path1 c.
Definition on_path (i : Z) (f : CircuitPath -> CircuitPath) (c : Circuit) : Circuit :=
  if i =? 0 then on_paths f id c else on_paths id f c.
Definition paths_of (c : Circuit) : list CircuitPath := omap id [Path0 c; Path1 c].

Definition all_zero (l : list byte) : bool := forallb (fun b => Byte.eqb b x00) l.
Definition KeysZeroed (c : Circuit) : bool := all_zero (E2EKey c) && all_zero (PaddingSeed c).
Definition IsIdle (now : Z) (c : Circuit) : bool := IdleTimeout c <? now - LastActivity c.

(** [None] is the panic of a method call on a nil path; the second path is
    looked at only when the first is unhealthy. *)
Definition BothPathsUnhealthy (c : Circuit) : option bool :=
  match Path0 c with
  | None => None
  | Some p0 =>
      if Healthy p0 then Some false
      else match Path1 c with None => None | Some p1 => Some (negb (Healthy p1)) end
  end.

Record PathInfo : Type := MkPathInfo { i_Hops : list string; LatencyMs : Z; Chunks : Z; i_Healthy : bool }.
Record CircuitInfo : Type := MkInfo {
  i_ID : list byte; i_State : string; i_Entry : string; i_Exit : string; Target : string; i_Paths : list PathInfo;
  AgeSeconds : Z; BytesDispatched : Z
}.
Definition path_info (p : CircuitPath) : PathInfo :=
  MkPathInfo (Hops p) (Z.quot (LastRTT p) PathSelect.millisecond) (TotalChunks p) (Healthy p).
Definition ToInfo (now : Z) (c : Circuit) : CircuitInfo :=
  MkInfo (ID c) (circuitStateName (State c)) (Entry c) (Exit c) (TargetAddr c) (path_info <$> paths_of c)
    (Z.quot (now - CreatedAt c) PathSelect.second) (u64 (foldl (fun n p => n + TotalChunks p) 0 (paths_of c))).

(** ** The manager *)

Record CircuitManagerConfig : Type := MkConfig {
  PathCount : Z; SelectionStrategy : string; MaxCandidates : Z; ProbeTimeout : Z; MinCandidates : Z;
  ChunkAssignment : string;
  SetupTimeout : Z; c_IdleTimeout : Z; c_KeepaliveInterval : Z; FlushTimeout : Z; OrphanTimeout : Z;
  StreamReassemblyTimeout : Z; NACKTimeout : Z; MaxNACKRetries : Z;
  KeepaliveTimeout : Z; KeepaliveDeadTimeout : Z;
  MaxReassemblyWindow : Z; MaxCircuitsPerExit : Z; MaxCircuitsTotal : Z
}.
Definition DefaultCircuitManagerConfig : CircuitManagerConfig :=
  let second := PathSelect.second in
  MkConfig 2 "auto" 10 (3 * second) 2 "round-robin" (10 * second) (5 * 60 * second) (30 * second) (10 * second)
    (30 * second) (60 * second) (5 * second) 3 (10 * second) (40 * second) 256 1024 4096.

Inductive CircuitEventType : Type :=
| EventCircuitCreated | EventCircuitEstablished | EventCircuitTeardownInitiated | EventCircuitClosed
| EventPathDegraded | EventPathRestored | EventPathUnhealthy | EventKeepaliveTimeout | EventNACKReceived.
Inductive event_data : Type := NoData | Reason (s : string) | PathIndex (i : Z).
Record CircuitEvent : Type := MkEvent {
  Type_ : CircuitEventType; CircuitID : list byte; Timestamp : Z; Data : event_data
}.

Record CircuitStats : Type := MkStats {
  TotalCreated : Z; TotalClosed : Z; Active : Z; TearingDown : Z; TotalChunksDispatched : Z; TotalBytesDispatched : Z
}.

(** What the calls of the manager share. [pending] are the goroutines
    started with [go cm.TeardownCircuit] that have not begun to run,
    [events] and [ends] what the event callback and the callback of a
    teardown were called with, the latest last. *)
Record CircuitManager : Type := MkManager {
  matrix : Matrix.MeshLatencyMatrix; probe : PathSelect.PathSelector;
  heap : list Circuit; circuits : gmap (list byte) nat; circuitsByExit : gmap string (list (list byte));
  stats : CircuitStats; eventCb : bool; cancelled : bool; clock : Z;
  pending : list (list byte * string); events : list CircuitEvent; ends : list (list byte * Z)
}.

Definition default_string (d s : string) : string := if String.eqb s "" then d else s.
(** The configuration with the values [NewCircuitManager] fills in. *)
Definition normalise (c : CircuitManagerConfig) : CircuitManagerConfig :=
  MkConfig (PathSelect.or_default 2 (PathCount c)) (default_string "auto" (SelectionStrategy c))
    (PathSelect.or_default 10 (MaxCandidates c)) (ProbeTimeout c) (PathSelect.or_default 2 (MinCandidates c))
    (default_string "round-robin" (ChunkAssignment c)) (SetupTimeout c) (c_IdleTimeout c) (c_KeepaliveInterval c)
    (FlushTimeout c) (OrphanTimeout c) (StreamReassemblyTimeout c) (NACKTimeout c) (MaxNACKRetries c)
    (KeepaliveTimeout c) (KeepaliveDeadTimeout c) (MaxReassemblyWindow c) (MaxCircuitsPerExit c) (MaxCircuitsTotal c).
Definition NewCircuitManager (now : Z) (c : CircuitManagerConfig) : CircuitManager :=
  let c := normalise c in
  MkManager Matrix.NewMeshLatencyMatrix
    (PathSelect.NewPathSelector (PathSelect.MkConfig 2 (ProbeTimeout c) 8 (MinCandidates c) (MaxCandidates c) (PathCount c)))
    [] ∅ ∅ (MkStats 0 0 0 0 0 0) false false now [] [] [].

(** *** Updates of one part of the state *)
Definition set_matrix m (s : CircuitManager) := MkManager m (probe s) (heap s) (circuits s) (circuitsByExit s) (stats s)
  (eventCb s) (cancelled s) (clock s) (pending s) (events s) (ends s).
Definition set_probe p (s : CircuitManager) := MkManager (matrix s) p (heap s) (circuits s) (circuitsByExit s) (stats s)
  (eventCb s) (cancelled s) (clock s) (pending s) (events s) (ends s).
Definition set_heap h (s : CircuitManager) := MkManager (matrix s) (probe s) h (circuits s) (circuitsByExit s) (stats s)
  (eventCb s) (cancelled s) (clock s) (pending s) (events s) (ends s).
Definition set_tracking cs es st (s : CircuitManager) := MkManager (matrix s) (probe s) (heap s) cs es st
  (eventCb s) (cancelled s) (clock s) (pending s) (events s) (ends s).
Definition set_callback b (s : CircuitManager) := MkManager (matrix s) (probe s) (heap s) (circuits s) (circuitsByExit s)
  (stats s) b (cancelled s) (clock s) (pending s) (events s) (ends s).
Definition set_cancelled (s : CircuitManager) := MkManager (matrix s) (probe s) (heap s) (circuits s) (circuitsByExit s)
  (stats s) (eventCb s) true (clock s) (pending s) (events s) (ends s).
Definition set_clock t (s : CircuitManager) := MkManager (matrix s) (probe s) (heap s) (circuits s) (circuitsByExit s)
  (stats s) (eventCb s) (cancelled s) t (pending s) (events s) (ends s).
Definition set_pending l (s : CircuitManager) := MkManager (matrix s) (probe s) (heap s) (circuits s) (circuitsByExit s)
  (stats s) (eventCb s) (cancelled s) (clock s) l (events s) (ends s).
Definition add_event e (s : CircuitManager) := MkManager (matrix s) (probe s) (heap s) (circuits s) (circuitsByExit s)
  (stats s) (eventCb s) (cancelled s) (clock s) (pending s) (events s ++ [e]) (ends s).
Definition add_end e (s : CircuitManager) := MkManager (matrix s) (probe s) (heap s) (circuits s) (circuitsByExit s)
  (stats s) (eventCb s) (cancelled s) (clock s) (pending s) (events s) (ends s ++ [e]).

Inductive manager_error : Type :=
| ErrTooManyCircuits
| ErrCircuitNotFound
| ErrInvalidCircuitState (name : string)
| ErrRejected (reason : string)
| ErrPathIndex (i : Z)
| ErrPathNil (i : Z)
| ErrInsufficientPaths
| ErrOverlap
| ErrPathTooShort
| ErrProbe (e : PathSelect.selector_error)
| ErrRandom
| Panic.

(** ** Path selection *)
Section Selection.
Context {Q : Type} `{PQ : PriorityQueue Paths.heapItem Paths.dist Q}.
Context (iter : string -> gmap string Matrix.LatencyEdge -> list (string * Matrix.LatencyEdge)).
Context (dial : Z -> PathSelect.CandidateRelay -> result string Z).
Context (sort_slice : forall A : Type, (A -> A -> bool) -> list A -> list A).
Context (cfg : CircuitManagerConfig).

(** [key] is what the random generator gives for the n-th relay, if it does
    not fail. *)
Definition graphPathToProxyPath (key : nat -> option (list byte)) (graphPath : list string)
    : result manager_error PathSelect.Path :=
  if len graphPath <? 2 then Err ErrPathTooShort else
  let relays := Matrix.inner graphPath in
  match mapM key (seq 0 (length relays)) with
  | None => Err ErrRandom
  | Some relayKeys => Ok (PathSelect.MkPath relays relayKeys)
  end.

Fixpoint convert_paths (key : nat -> nat -> option (list byte)) (i : nat) (paths : list (list string))
    : result manager_error (list PathSelect.Path) :=
  match paths with
  | [] => Ok []
  | p :: paths =>
      match graphPathToProxyPath (key i) p with
      | Err e => Err e
      | Ok path =>
          match convert_paths key (S i) paths with
          | Err e => Err e
          | Ok result => Ok (path :: result)
          end
      end
  end.

Definition useBFS (m : Matrix.MeshLatencyMatrix) (entryID : string) : bool :=
  if String.eqb (SelectionStrategy cfg) "bfs" then true
  else if String.eqb (SelectionStrategy cfg) "auto" then MinCandidates cfg <=? Matrix.RelayCountWithRTT m entryID
  else false.

Definition probe_paths (ps : PathSelect.PathSelector) (now : Z) (sched : list (nat * Z)) (probeKey : nat -> list byte)
    (candidates : list PathSelect.CandidateRelay)
    : PathSelect.PathSelector * result manager_error (list PathSelect.Path) :=
  if len candidates <? MinCandidates cfg then (ps, Err ErrInsufficientPaths) else
  match PathSelect.SelectPaths dial sort_slice ps now sched probeKey candidates with
  | (ps, Ok (p1, p2)) => (ps, Ok [p1; p2])
  | (ps, Err e) => (ps, Err (ErrProbe e))
  end.

Definition selectPaths (m : Matrix.MeshLatencyMatrix) (ps : PathSelect.PathSelector) (now : Z)
    (sched : list (nat * Z)) (probeKey : nat -> list byte) (key : nat -> nat -> option (list byte))
    (entryID exitID : string) (candidates : list PathSelect.CandidateRelay)
    : PathSelect.PathSelector * result manager_error (list PathSelect.Path) :=
  if useBFS m entryID then
    match Matrix.KShortestDisjointPaths iter m entryID exitID (Z.to_nat (PathCount cfg)) with
    | Ok paths =>
        (ps, match convert_paths key 0 paths with
             | Err e => Err e
             | Ok ((p0 :: p1 :: _) as result) => if PathSelect.HasOverlap p0 p1 then Err ErrOverlap else Ok result
             | Ok result => Ok result
             end)
    | Err e =>
        if String.eqb (SelectionStrategy cfg) "auto" then probe_paths ps now sched probeKey candidates
        else (ps, Err (match e with Matrix.ErrNoPaths => ErrInsufficientPaths | Matrix.ErrPathOverlap => ErrOverlap end))
    end
  else probe_paths ps now sched probeKey candidates.
End Selection.

(** ** Operations *)
Abbreviation M := (prog CircuitManager).
Definition pure_act {A} (f : CircuitManager -> CircuitManager * A) : M A := act (fun s => [f s]).
Definition modify (f : CircuitManager -> CircuitManager) : M unit := pure_act (fun s => (f s, tt)).
Definition read {A} (f : CircuitManager -> A) : M A := pure_act (fun s => (s, f s)).

Definition OnCircuitEvent : M unit := modify (set_callback true).
Definition call_back (typ : CircuitEventType) (cid : list byte) (data : event_data) : M unit :=
  modify (fun s => add_event (MkEvent typ cid (clock s) data) s).
Definition emitEvent (typ : CircuitEventType) (cid : list byte) (data : event_data) : M unit :=
  (cb <- read eventCb;; if cb : bool then call_back typ cid data else Ret tt)%prog.

(** The lookup of a circuit under the manager's mutex. *)
Definition lookup_circuit (cid : list byte) : M (option nat) := read (fun s => circuits s !! cid).
(** A section under the mutex of a circuit or of one of its paths, which
    reads the clock. *)
Definition on_circuit {A} (p : nat) (dflt : A) (f : Z -> Circuit -> Circuit * A) : M A :=
  pure_act (fun s =>
    match heap s !! p with
    | None => (s, dflt)
    | Some c => let '(c', a) := f (clock s) c in (set_heap (<[p := c']> (heap s)) s, a)
    end).
Definition update_circuit (p : nat) (f : Z -> Circuit -> Circuit) : M unit :=
  on_circuit p tt (fun now c => (f now c, tt)).
Definition go_teardown (cid : list byte) (reason : string) : M unit :=
  modify (fun s => set_pending (pending s ++ [(cid, reason)]) s).

(** *** Removal *)
Definition remove_id (cid : list byte) (ids : list (list byte)) : list (list byte) :=
  match list_find (fun id => id = cid) ids with
  | Some (i, _) => take i ids ++ drop (S i) ids
  | None => ids
  end.
Definition drop_exit (exit : string) (cid : list byte) (m : gmap string (list (list byte)))
    : gmap string (list (list byte)) :=
  match remove_id cid (default [] (m !! exit)) with
  | [] => delete exit m
  | ids => <[exit := ids]> m
  end.
Definition count_removed (c : Circuit) (st : CircuitStats) : CircuitStats :=
  let '(active, tearing) :=
    match State c with
    | CircuitActive => (i64 (Active st - 1), TearingDown st)
    | CircuitTeardown => (Active st, i64 (TearingDown st - 1))
    | _ => (Active st, TearingDown st)
    end in
  foldl (fun st p => MkStats (TotalCreated st) (TotalClosed st) (Active st) (TearingDown st)
                       (u64 (TotalChunksDispatched st + TotalChunks p)) (u64 (TotalBytesDispatched st + TotalBytes p)))
    (MkStats (TotalCreated st) (u64 (TotalClosed st + 1)) active tearing
       (TotalChunksDispatched st) (TotalBytesDispatched st)) (paths_of c).
Definition removed (cid : list byte) (s : CircuitManager) : CircuitManager :=
  match circuits s !! cid with
  | None => s
  | Some p =>
      match heap s !! p with
      | None => s
      | Some c =>
          set_tracking (delete cid (circuits s)) (drop_exit (Exit c) cid (circuitsByExit s)) (count_removed c (stats s)) s
      end
  end.
Definition removeCircuit (cid : list byte) : M unit := modify (removed cid).

Definition closeCircuit (cid : list byte) (reason : string) : M (option manager_error) :=
  (p <- lookup_circuit cid;;
   match p with
   | None => Ret (Some ErrCircuitNotFound)
   | Some p =>
       update_circuit p (fun _ => with_State CircuitClosed);;;
       update_circuit p (fun _ => ZeroKeys);;;
       removeCircuit cid;;;
       emitEvent EventCircuitClosed cid (Reason reason);;;
       Ret None
   end)%prog.

(** *** The handshake with the exit *)
Definition accept (now : Z) (c : Circuit) : Circuit :=
  on_paths (fun p => with_health (LastRTT p) PathHealthHealthy 0 p) (fun p => with_health (LastRTT p) PathHealthHealthy 0 p)
    (UpdateActivity now (with_State CircuitActive c)).

Inductive ack_outcome : Type := NotCreating | Rejected | Accepted.
Definition take_ack (accepted : bool) (now : Z) (c : Circuit) : Circuit * ack_outcome :=
  if bool_decide (State c <> CircuitCreating) then (c, NotCreating)
  else if accepted then (accept now c, Accepted) else (with_State CircuitClosed c, Rejected).

Definition HandleCircuitAck (cid : list byte) (ack : Circuit.CircuitAck) : M (option manager_error) :=
  (p <- lookup_circuit cid;;
   match p with
   | None => Ret (Some ErrCircuitNotFound)
   | Some p =>
       r <- on_circuit p NotCreating (take_ack (Circuit.ca_Accepted ack));;
       match r with
       | NotCreating =>
           name <- read (fun s => match heap s !! p with Some c => circuitStateName (State c) | None => "" end);;
           Ret (Some (ErrInvalidCircuitState name))
       | Rejected =>
           update_circuit p (fun _ => ZeroKeys);;;
           removeCircuit cid;;;
           emitEvent EventCircuitClosed cid (Reason (Circuit.ca_Reason ack));;;
           Ret (Some (ErrRejected (Circuit.ca_Reason ack)))
       | Accepted => emitEvent EventCircuitEstablished cid NoData;;; Ret None
       end
   end)%prog.

Definition HandleSetupTimeout (cid : list byte) : M (option manager_error) :=
  (p <- lookup_circuit cid;;
   match p with
   | None => Ret (Some ErrCircuitNotFound)
   | Some p =>
       creating <- on_circuit p false (fun _ c =>
         if bool_decide (State c <> CircuitCreating) then (c, false) else (with_State CircuitClosed c, true));;
       if creating : bool then
         update_circuit p (fun _ => ZeroKeys);;;
         removeCircuit cid;;;
         emitEvent EventCircuitClosed cid (Reason "setup timeout");;;
         Ret None
       else Ret None
   end)%prog.

(** *** Teardown *)
Definition start_teardown (c : Circuit) : Circuit * bool :=
  if bool_decide (State c = CircuitClosed) || bool_decide (State c = CircuitTeardown) then (c, false)
  else (with_State CircuitTeardown c, true).

Definition path_healthy (p : nat) (i : Z) : M (option bool) :=
  read (A := option bool) (fun s => c ← heap s !! p; Healthy <$> path_at c i).
(** [sendChunkEnd] for a path that is there and healthy. *)
Definition send_end (cid : list byte) (p : nat) (i : Z) : M unit :=
  (h <- path_healthy p i;;
   if bool_decide (h = Some true) then modify (add_end (cid, i)) else Ret tt)%prog.
(** The receive on the channel of a timer. *)
Definition wait_until (t : Z) : M unit := act (fun s => if clock s <? t then [] else [(s, tt)]).

Section Operations.
Context (cfg : CircuitManagerConfig).

Definition TeardownCircuit (cid : list byte) (reason : string) (sendChunkEnd : bool) : M (option manager_error) :=
  (p <- lookup_circuit cid;;
   match p with
   | None => Ret (Some ErrCircuitNotFound)
   | Some p =>
       started <- on_circuit p false (fun _ => start_teardown);;
       if started : bool then
         emitEvent EventCircuitTeardownInitiated cid (Reason reason);;;
         (if sendChunkEnd then send_end cid p 0;;; send_end cid p 1 else Ret tt);;;
         now <- read clock;;
         wait_until (now + FlushTimeout cfg);;;
         closeCircuit cid ("teardown: " ++ reason)
       else Ret None
   end)%prog.

(** A goroutine started by [go cm.TeardownCircuit(cid, reason, nil)]. *)
Definition run_pending : M unit :=
  (g <- act (fun s => imap (fun i g => (set_pending (delete i (pending s)) s, g)) (pending s));;
   TeardownCircuit g.1 g.2 false;;;
   Ret tt)%prog.

Definition HandleTeardown (cid : list byte) (msg : Circuit.TeardownMsg) : M (option manager_error) :=
  (p <- lookup_circuit cid;;
   match p with
   | None => Ret (Some ErrCircuitNotFound)
   | Some p =>
       started <- on_circuit p false (fun _ => start_teardown);;
       if started : bool then
         emitEvent EventCircuitTeardownInitiated cid (Reason (Circuit.ct_Reason msg));;;
         closeCircuit cid ("exit teardown: " ++ Circuit.ct_Reason msg)
       else Ret None
   end)%prog.

(** *** Keepalives, statistics and assignment *)

(** The path of a call, after the tests that the calls have in common. *)
Definition find_path (cid : list byte) (i : Z) : M (nat + manager_error) :=
  (p <- lookup_circuit cid;;
   match p with
   | None => Ret (inr ErrCircuitNotFound)
   | Some p =>
       if (i <? 0) || (2 <=? i) then Ret (inr (ErrPathIndex i)) else
       path <- read (A := option CircuitPath) (fun s => c ← heap s !! p; path_at c i);;
       Ret (match path with None => inr (ErrPathNil i) | Some _ => inl p end)
   end)%prog.

Definition path_health (p : nat) (i : Z) : M PathHealthState :=
  read (fun s => default PathHealthHealthy (c ← heap s !! p; Health <$> path_at c i)).

Definition HandleKeepaliveResponse (cid : list byte) (i : Z) (timestamp : Z) : M (option manager_error) :=
  (p <- find_path cid i;;
   match p with
   | inr e => Ret (Some e)
   | inl p =>
       now <- read clock;;
       let rtt := Z.max 0 (i64 (now - timestamp)) in
       was <- path_health p i;;
       update_circuit p (fun _ => on_path i (RecordRTT rtt));;;
       update_circuit p UpdateActivity;;;
       if bool_decide (was = PathHealthUnhealthy) || bool_decide (was = PathHealthDegraded)
       then emitEvent EventPathRestored cid (PathIndex i);;; Ret None else Ret None
   end)%prog.

Definition MissKeepalive (cid : list byte) (i : Z) : M (option manager_error) :=
  (p <- find_path cid i;;
   match p with
   | inr e => Ret (Some e)
   | inl p =>
       was <- path_health p i;;
       update_circuit p (fun _ => on_path i path_MissKeepalive);;;
       nowHealth <- path_health p i;;
       (if bool_decide (nowHealth = PathHealthDegraded) && bool_decide (was = PathHealthHealthy)
        then emitEvent EventPathDegraded cid (PathIndex i) else Ret tt);;;
       (if bool_decide (nowHealth = PathHealthUnhealthy)
        then emitEvent EventPathUnhealthy cid (PathIndex i) else Ret tt);;;
       both <- read (A := option bool) (fun s => c ← heap s !! p; BothPathsUnhealthy c);;
       match both with
       | None => Ret (Some Panic)
       | Some true =>
           emitEvent EventKeepaliveTimeout cid NoData;;;
           go_teardown cid "both paths unhealthy";;;
           Ret None
       | Some false => Ret None
       end
   end)%prog.

Definition RecordChunkDispatch (cid : list byte) (i byteCount : Z) : M (option manager_error) :=
  (p <- find_path cid i;;
   match p with
   | inr e => Ret (Some e)
   | inl p =>
       update_circuit p (fun _ => on_path i (RecordChunk byteCount));;;
       update_circuit p UpdateActivity;;;
       Ret None
   end)%prog.

(** The strategy looks at both paths at one instant here; a nil path panics. *)
Definition AssignPath (c : Circuit) (callCount buf : Z) : result manager_error Z :=
  match Path0 c, Path1 c with
  | Some p0, Some p1 => Ok (strategy_AssignPath (AssignmentStrategy c) p0 p1 callCount buf)
  | _, _ => Err Panic
  end.
Definition AssignChunkPath (cid : list byte) (buf : Z) : M (result manager_error Z) :=
  (p <- lookup_circuit cid;;
   match p with
   | None => Ret (Err ErrCircuitNotFound)
   | Some p =>
       idx <- on_circuit p 0 (fun _ c => (next_index c, nextPathIndex c));;
       read (fun s => match heap s !! p with Some c => AssignPath c idx buf | None => Err Panic end)
   end)%prog.

(** *** Reports *)
Definition GetCircuit (cid : list byte) : M (result manager_error Circuit) :=
  read (fun s => match circuits s !! cid ≫= (heap s !!.) with Some c => Ok c | None => Err ErrCircuitNotFound end).

Definition tracked (s : CircuitManager) : list Circuit :=
  omap (fun kp => heap s !! kp.2) (map_to_list (circuits s)).
Definition ListCircuits : M (list CircuitInfo) :=
  read (A := list CircuitInfo) (fun s => ToInfo (clock s) <$> filter (fun c => State c <> CircuitClosed) (tracked s)).
Definition count_state (st : CircuitState) (cs : list Circuit) : Z := len (filter (fun c => State c = st) cs).
Definition circuit_stats (s : CircuitManager) : CircuitStats :=
  MkStats (TotalCreated (stats s)) (TotalClosed (stats s)) (count_state CircuitActive (tracked s))
    (count_state CircuitTeardown (tracked s)) (TotalChunksDispatched (stats s)) (TotalBytesDispatched (stats s)).
Definition GetCircuitStats : M CircuitStats := read circuit_stats.

(** *** Idle circuits and shutdown *)
Definition idle_circuits (s : CircuitManager) : list (list byte) :=
  omap (fun kp => c ← heap s !! kp.2;
    if bool_decide (State c = CircuitActive) && IsIdle (clock s) c then Some kp.1 else None) (map_to_list (circuits s)).
Fixpoint go_teardowns (cids : list (list byte)) : M unit :=
  match cids with
  | [] => Ret tt
  | cid :: cids => (go_teardown cid "idle timeout";;; go_teardowns cids)%prog
  end.
Definition CheckIdleTimeouts : M unit := (cids <- read idle_circuits;; go_teardowns cids)%prog.

(** The goroutines of a shutdown, which the call waits for, run one after
    another here, in any order. *)
Fixpoint close_each (cids : list (list byte)) : M unit :=
  match cids with
  | [] => Ret tt
  | cid :: cids => (closeCircuit cid "shutdown";;; close_each cids)%prog
  end.
Definition Shutdown (order : gmap (list byte) nat -> list (list byte)) : M unit :=
  (modify set_cancelled;;; cids <- read (fun s => order (circuits s));; close_each cids)%prog.
End Operations.

(** *** Creation *)
Section Creation.
Context {Q : Type} `{PQ : PriorityQueue Paths.heapItem Paths.dist Q}.
Context (iter : string -> gmap string Matrix.LatencyEdge -> list (string * Matrix.LatencyEdge)).
Context (dial : Z -> PathSelect.CandidateRelay -> result string Z).
Context (sort_slice : forall A : Type, (A -> A -> bool) -> list A -> list A).
Context (cfg : CircuitManagerConfig).

(** What the random generator and the scheduler of the probes give to a
    call. *)
Record chance : Type := MkChance {
  r_sched : list (nat * Z); r_probe : nat -> list byte; r_relay : nat -> nat -> option (list byte);
  r_id : option (list byte); r_e2e : option (list byte); r_seed : option (list byte)
}.

Definition new_path (now : Z) (i : Z) (p : PathSelect.Path) : CircuitPath :=
  MkPath i (PathSelect.Relays p) (PathSelect.RelayKeys p) 0 0 0 PathHealthHealthy 0 now.
Definition new_circuit (cid : list byte) (now : Z) (entryID exitID targetAddr : string) (e2e seed : list byte)
    (paths : list PathSelect.Path) : Circuit :=
  MkCircuit cid CircuitCreating now now entryID exitID targetAddr e2e seed
    (new_path now 0 <$> paths !! 0%nat) (new_path now 1 <$> paths !! 1%nat)
    (NewChunkAssignmentStrategy (ChunkAssignment cfg)) (c_KeepaliveInterval cfg) (c_IdleTimeout cfg) 0.

Definition below_limits (exitID : string) (s : CircuitManager) : bool :=
  negb (MaxCircuitsTotal cfg <=? Z.of_nat (size (circuits s))) &&
  negb (MaxCircuitsPerExit cfg <=? len (default [] (circuitsByExit s !! exitID))).

(** The insertion. A random identifier of sixteen bytes that is taken
    already is not considered. *)
Definition insert_circuit (c : Circuit) (s : CircuitManager) : list (CircuitManager * unit) :=
  if bool_decide (ID c ∈ ID <$> heap s) then [] else
  let st := stats s in
  let s' := set_heap (heap s ++ [c]) s in
  [(set_tracking (<[ID c := length (heap s)]> (circuits s))
      (<[Exit c := default [] (circuitsByExit s !! Exit c) ++ [ID c]]> (circuitsByExit s))
      (MkStats (u64 (TotalCreated st + 1)) (TotalClosed st) (i64 (Active st + 1)) (TearingDown st)
         (TotalChunksDispatched st) (TotalBytesDispatched st)) s', tt)].

(** The selection works on one snapshot of the latency matrix here; the
    code locks the matrix once for each node it visits. *)
Definition select (r : chance) (entryID exitID : string) (candidates : list PathSelect.CandidateRelay)
    : M (result manager_error (list PathSelect.Path)) :=
  pure_act (fun s =>
    let '(ps, paths) := selectPaths iter dial sort_slice cfg (matrix s) (probe s) (clock s) (r_sched r) (r_probe r)
                          (r_relay r) entryID exitID candidates in
    (set_probe ps s, paths)).

Definition CreateCircuit (r : chance) (targetAddr entryID exitID : string)
    (candidates : list PathSelect.CandidateRelay) : M (result manager_error (list byte)) :=
  (ok <- read (below_limits exitID);;
   if negb (ok : bool) then Ret (Err ErrTooManyCircuits) else
   paths <- select r entryID exitID candidates;;
   match paths with
   | Err e => Ret (Err e)
   | Ok paths =>
       match r_id r, r_e2e r, r_seed r with
       | Some cid, Some e2e, Some seed =>
           now <- read clock;;
           act (insert_circuit (new_circuit cid now entryID exitID targetAddr e2e seed paths));;;
           emitEvent EventCircuitCreated cid NoData;;;
           Ret (Ok cid)
       | _, _, _ => Ret (Err ErrRandom)
       end
   end)%prog.

Definition UpdateLatencyMatrix (edges : list Matrix.LatencyEdge) : M unit :=
  modify (fun s => set_matrix (Matrix.MergeEdges (matrix s) (clock s) edges) s).

(** The clock moves on. *)
Definition tick (d : Z) : M unit := modify (fun s => set_clock (clock s + Z.max 0 d) s).

(** What may run at any time. *)
Inductive api : M unit -> Prop :=
| api_create r t e x cs : api (CreateCircuit r t e x cs;;; Ret tt)%prog
| api_ack cid ack : api (HandleCircuitAck cid ack;;; Ret tt)%prog
| api_timeout cid : api (HandleSetupTimeout cid;;; Ret tt)%prog
| api_teardown cid why b : api (TeardownCircuit cfg cid why b;;; Ret tt)%prog
| api_pending : api (run_pending cfg)
| api_exit_teardown cid msg : api (HandleTeardown cid msg;;; Ret tt)%prog
| api_keepalive cid i t : api (HandleKeepaliveResponse cid i t;;; Ret tt)%prog
| api_miss cid i : api (MissKeepalive cid i;;; Ret tt)%prog
| api_chunk cid i n : api (RecordChunkDispatch cid i n;;; Ret tt)%prog
| api_assign cid buf : api (AssignChunkPath cid buf;;; Ret tt)%prog
| api_get cid : api (GetCircuit cid;;; Ret tt)%prog
| api_list : api (ListCircuits;;; Ret tt)%prog
| api_stats : api (GetCircuitStats;;; Ret tt)%prog
| api_idle : api CheckIdleTimeouts
| api_shutdown order : api (Shutdown order)
| api_matrix es : api (UpdateLatencyMatrix es)
| api_callback : api OnCircuitEvent
| api_tick d : api (tick d).
End Creation.

(** ** The invariant *)

Definition keys_of (c : Circuit) : list (list byte) := E2EKey c :: PaddingSeed c :: concat (RelayKeys <$> paths_of c).
Definition zeroed (c : Circuit) : Prop := Forall (Forall (fun b => b = x00)) (keys_of c).

(** The health of a path after a number of missed keepalives in a row. *)
Definition health_of (missed : Z) : PathHealthState :=
  if 4 <=? missed then PathHealthUnhealthy else if 2 <=? missed then PathHealthDegraded else PathHealthHealthy.
Definition path_ok (p : CircuitPath) : Prop := 0 <= MissedKeepalives p /\ Health p = health_of (MissedKeepalives p).

(** The exit of a circuit that is tracked. *)
Definition exit_of (s : CircuitManager) (cid : list byte) : option string :=
  p ← circuits s !! cid; Exit <$> heap s !! p.

(** What is true between any two actions. A circuit that is not tracked any
    more is closed and its keys are gone; the lists of circuits by exit
    agree with the table; the counters count, except that [Active] and
    [TearingDown] are never decremented. *)
Record mgr_inv (s : CircuitManager) : Prop := {
  mi_ids : NoDup (ID <$> heap s);
  mi_tracked : forall cid p, circuits s !! cid = Some p -> ID <$> heap s !! p = Some cid;
  mi_gone : forall p c, heap s !! p = Some c -> circuits s !! ID c = None -> State c = CircuitClosed /\ zeroed c;
  mi_exits : forall e cid, cid ∈ default [] (circuitsByExit s !! e) <-> exit_of s cid = Some e;
  mi_lists : forall e l, circuitsByExit s !! e = Some l -> l <> [] /\ NoDup l;
  mi_created : TotalCreated (stats s) = u64 (len (heap s));
  mi_closed : TotalClosed (stats s) = u64 (len (heap s) - Z.of_nat (size (circuits s)));
  mi_active : Active (stats s) = i64 (len (heap s)) /\ TearingDown (stats s) = 0;
  mi_paths : Forall (fun c => Forall path_ok (paths_of c)) (heap s)
}.

(** How a circuit may change: its identity and the hops of its paths stay,
    its state moves forward, and its key material is kept until it is zeroed
    when the circuit is closed. *)
Record circuit_le (c c' : Circuit) : Prop := {
  cl_id : ID c' = ID c /\ Entry c' = Entry c /\ Exit c' = Exit c /\ TargetAddr c' = TargetAddr c;
  cl_hops : Hops <$> paths_of c' = Hops <$> paths_of c;
  cl_state : state_code (State c) <= state_code (State c');
  cl_keys : keys_of c' = keys_of c \/ State c' = CircuitClosed /\ zeroed c'
}.
Definition mgr_le (s s' : CircuitManager) : Prop :=
  forall p c, heap s !! p = Some c -> exists c', heap s' !! p = Some c' /\ circuit_le c c'.

Lemma zeroed_le c c' : circuit_le c c' -> zeroed c -> zeroed c'.
Proof. intros [_ _ _ [Hk|[_ Hz]]] H; [|done]. unfold zeroed. by rewrite Hk. Qed.
Lemma closed_le c c' : circuit_le c c' -> State c = CircuitClosed -> State c' = CircuitClosed.
Proof. intros [_ _ Hs _] H. rewrite H in Hs. by destruct (State c'). Qed.

#[export] Instance circuit_le_preorder : PreOrder circuit_le.
Proof.
  split; [intros c; constructor; auto; lia|]. intros a b c Hab Hbc.
  pose proof (zeroed_le _ _ Hbc) as Hz. pose proof (closed_le _ _ Hbc) as Hc.
  destruct Hab as [(?&?&?&?) ? ? Ka], Hbc as [(?&?&?&?) ? ? Kb]. constructor; [split_and!; congruence | congruence | lia |].
  destruct Kb as [Hk|]; [|by right]. destruct Ka as [|[Ha Hza]]; [left; congruence|]. right. auto.
Qed.
#[export] Instance mgr_le_preorder : PreOrder mgr_le.
Proof.
  split; [intros s p c Hp; by exists c|]. intros a b c Hab Hbc p k Hp.
  destruct (Hab p k Hp) as (k' & Hp' & H1). destruct (Hbc p k' Hp') as (k2 & Hp2 & H2).
  exists k2. split; [done|]. by etrans.
Qed.

Definition good (s s' : CircuitManager) : Prop := mgr_inv s' /\ mgr_le s s'.
Lemma unchanged_good s : mgr_inv s -> good s s.
Proof. intros Hs. by split. Qed.

(** What an update of a circuit must respect. *)
Definition respects (c c' : Circuit) : Prop :=
  (Forall path_ok (paths_of c) -> Forall path_ok (paths_of c')) /\ circuit_le c c'.

Lemma insert_map {A B} (f : A -> B) (l : list A) p x y :
  l !! p = Some x -> f y = f x -> f <$> <[p := y]> l = f <$> l.
Proof. intros Hp Hf. rewrite list_fmap_insert, Hf. apply list_insert_id. by rewrite list_lookup_fmap, Hp. Qed.

Lemma good_update s p c c' :
  mgr_inv s -> heap s !! p = Some c -> respects c c' -> good s (set_heap (<[p := c']> (heap s)) s).
Proof.
  intros [] Hp [Hok Hle]. pose proof Hle as [(Hid & _ & Hexit & _) _ _ _].
  assert (forall q, ID <$> (<[p := c']> (heap s)) !! q = ID <$> heap s !! q) as Hids.
  { intros q. rewrite <-!list_lookup_fmap. by rewrite (insert_map ID _ _ _ _ Hp Hid). }
  assert (forall cid, exit_of (set_heap (<[p := c']> (heap s)) s) cid = exit_of s cid) as Hex.
  { intros cid. unfold exit_of. cbn. destruct (circuits s !! cid) as [q|]; [|done]. cbn.
    rewrite <-!list_lookup_fmap. by rewrite (insert_map Exit _ _ _ _ Hp Hexit). }
  split.
  - constructor; cbn [set_heap heap circuits circuitsByExit stats]; auto.
    + by rewrite (insert_map ID _ _ _ _ Hp Hid).
    + intros cid q Hq. rewrite Hids. auto.
    + intros q k Hq Hk. apply list_lookup_insert_Some in Hq as [(<- & -> & _)|[_ Hq]]; [|eauto].
      rewrite Hid in Hk. destruct (mi_gone0 p c Hp Hk) as [H1 H2].
      split; [by eapply closed_le | by eapply zeroed_le].
    + intros e cid. rewrite Hex. auto.
    + by rewrite length_insert.
    + by rewrite length_insert.
    + by rewrite length_insert.
    + apply Forall_insert; [done|]. apply Hok. rewrite Forall_lookup in mi_paths0. eauto.
  - intros q k Hq. cbn. destruct (decide (q = p)) as [->|Hne].
    + rewrite Hp in Hq. injection Hq as <-. exists c'. split; [|done].
      apply list_lookup_insert_eq. by eapply lookup_lt_Some.
    + exists k. by rewrite list_lookup_insert_ne.
Qed.

Lemma good_neutral s s' :
  heap s' = heap s -> circuits s' = circuits s -> circuitsByExit s' = circuitsByExit s -> stats s' = stats s ->
  mgr_inv s -> good s s'.
Proof.
  intros Hh Hc He Hst []. split; [|intros p c Hp; exists c; by rewrite Hh].
  constructor; rewrite ?Hh, ?Hc, ?He, ?Hst; auto. intros e cid. rewrite mi_exits0. unfold exit_of. by rewrite Hh, Hc.
Qed.

(** ** Updates of circuits *)

Lemma respects_state st c : state_code (State c) <= state_code st -> respects c (with_State st c).
Proof. intros H. split; [done|]. constructor; auto. Qed.
Lemma respects_activity now c : respects c (UpdateActivity now c).
Proof. split; [done|]. constructor; auto. cbn. lia. Qed.
Lemma respects_next c : respects c (next_index c).
Proof. split; [done|]. constructor; auto. cbn. lia. Qed.

(** An update of a path that leaves its hops and keys. *)
Definition path_respects (f : CircuitPath -> CircuitPath) : Prop :=
  forall p, (path_ok p -> path_ok (f p)) /\ Hops (f p) = Hops p /\ RelayKeys (f p) = RelayKeys p.

Lemma respects_on_paths f0 f1 c : path_respects f0 -> path_respects f1 -> respects c (on_paths f0 f1 c).
Proof.
  intros H0 H1. unfold respects, keys_of, paths_of. destruct c as [? ? ? ? ? ? ? ? ? [p0|] [p1|] ? ? ? ?]; cbn;
    (try destruct (H0 p0) as (? & E0 & K0)); (try destruct (H1 p1) as (? & E1 & K1)); (split;
    [ rewrite ?Forall_cons; naive_solver
    | constructor; unfold keys_of, paths_of; cbn;
      [auto | by rewrite ?E0, ?E1 | lia | left; by rewrite ?K0, ?K1] ]).
Qed.

Lemma path_respects_id : path_respects id.
Proof. intros p. by split_and!. Qed.
Lemma path_respects_health rtt missed : 0 <= missed ->
  path_respects (fun p => with_health (rtt p) (health_of missed) missed p).
Proof. intros H p. split_and!; [|done..]. intros _. by split. Qed.
Lemma path_respects_rtt rtt : path_respects (RecordRTT rtt).
Proof. by apply (path_respects_health (fun _ => rtt) 0). Qed.
Lemma path_respects_chunk n : path_respects (RecordChunk n).
Proof. intros p. by split_and!. Qed.
Lemma path_respects_miss : path_respects path_MissKeepalive.
Proof.
  intros p. split_and!; [|done..]. intros [Hm Hh]. unfold path_ok, path_MissKeepalive. cbn. split; [lia|].
  unfold health_of in *. rewrite Hh. repeat case_match; to_prop; try done; lia.
Qed.
Lemma respects_on_path i f c : path_respects f -> respects c (on_path i f c).
Proof. intros. unfold on_path. destruct (i =? 0); apply respects_on_paths; auto using path_respects_id. Qed.
Lemma respects_accept now c : State c = CircuitCreating -> respects c (accept now c).
Proof.
  intros H. assert (forall a b d, respects a b -> respects b d -> respects a d) as Htr.
  { intros a b d [? ?] [? ?]. split; [auto | by etrans]. }
  unfold accept. eapply Htr; [apply (respects_state CircuitActive); rewrite H; cbn; lia|].
  eapply Htr; [apply (respects_activity now)|]. apply respects_on_paths; by apply (path_respects_health LastRTT 0).
Qed.

Lemma zeroed_ZeroKeys c : zeroed (ZeroKeys c).
Proof.
  assert (keys_of (ZeroKeys c) = zeroes <$> keys_of c) as E.
  { unfold keys_of, paths_of. destruct c as [? ? ? ? ? ? ? ? ? [p0|] [p1|] ? ? ? ?]; cbn; by rewrite ?fmap_app, ?app_nil_r. }
  unfold zeroed. rewrite E. apply Forall_fmap, Forall_forall. intros l _. cbn. apply Forall_forall.
  by intros b [-> _]%elem_of_replicate.
Qed.
Lemma respects_zero c : State c = CircuitClosed -> respects c (ZeroKeys c).
Proof.
  intros H. split.
  - unfold paths_of. destruct c as [? ? ? ? ? ? ? ? ? [p0|] [p1|] ? ? ? ?]; cbn; rewrite ?Forall_cons; naive_solver.
  - constructor; [auto | | cbn; lia | right; split; [done | apply zeroed_ZeroKeys]].
    unfold paths_of. by destruct c as [? ? ? ? ? ? ? ? ? [p0|] [p1|] ? ? ? ?].
Qed.

(** ** Removal and insertion *)

Lemma remove_id_spec cid l : NoDup l ->
  NoDup (remove_id cid l) /\ forall x, x ∈ remove_id cid l <-> x ∈ l /\ x <> cid.
Proof.
  intros Hnd. unfold remove_id. destruct (list_find _ l) as [[i y]|] eqn:E.
  - apply list_find_Some in E as (Hi & -> & _). rewrite <-(take_drop_middle l i cid Hi) in Hnd.
    assert (forall x, x ∈ l <-> x ∈ take i l ++ cid :: drop (S i) l) as Hl by (intros; by rewrite take_drop_middle).
    apply NoDup_app in Hnd as (H1 & H2 & [H3 H4]%NoDup_cons). split.
    + apply NoDup_app. split_and!; [done | | done]. intros x Hx Hd. apply (H2 x Hx). by right.
    + intros x. rewrite Hl, !elem_of_app, elem_of_cons. split; [|naive_solver].
      intros Hx. split; [naive_solver|]. intros ->. destruct Hx; [|done]. apply (H2 cid); [done | left].
  - apply list_find_None in E. rewrite Forall_forall in E. split; [done|]. intros x. split; [|naive_solver].
    intros Hx. split; [done|]. by apply E.
Qed.

Lemma count_removed_kept c st : State c = CircuitClosed ->
  TotalCreated (count_removed c st) = TotalCreated st /\ TotalClosed (count_removed c st) = u64 (TotalClosed st + 1) /\
  Active (count_removed c st) = Active st /\ TearingDown (count_removed c st) = TearingDown st.
Proof.
  intros H. unfold count_removed. rewrite H.
  set (st0 := MkStats _ _ _ _ _ _).
  assert (TotalCreated st0 = TotalCreated st /\ TotalClosed st0 = u64 (TotalClosed st + 1) /\
    Active st0 = Active st /\ TearingDown st0 = TearingDown st) as H0 by done.
  revert H0. generalize st0. induction (paths_of c) as [|p l IH]; intros s0 H0; [done|]. apply IH. apply H0.
Qed.

Lemma same_circuit s p q c c' :
  mgr_inv s -> heap s !! p = Some c -> heap s !! q = Some c' -> ID c = ID c' -> p = q.
Proof.
  intros [] Hp Hq Hid. apply (NoDup_lookup (ID <$> heap s) p q (ID c) mi_ids0); rewrite list_lookup_fmap, ?Hp, ?Hq; cbn; congruence.
Qed.

(** The circuit [cid] is closed and its keys are gone. *)
Definition finished (cid : list byte) (s : CircuitManager) : Prop :=
  exists p c, heap s !! p = Some c /\ ID c = cid /\ State c = CircuitClosed /\ zeroed c.

Lemma good_removed s cid : mgr_inv s -> finished cid s -> good s (removed cid s).
Proof.
  intros Hs (p & c & Hp & Hid & Hcl & Hz). unfold removed. destruct (circuits s !! cid) as [q|] eqn:Eq; [|by apply unchanged_good].
  pose proof Hs as []. pose proof (mi_tracked0 _ _ Eq) as Hq. apply fmap_Some in Hq as (c' & Hq & Hc'). rewrite Hq.
  assert (p = q) as <- by (apply (same_circuit s p q c c'); [done | done | done | congruence]).
  assert (c' = c) as -> by congruence. clear Hq Hc'.
  destruct (count_removed_kept c (stats s) Hcl) as (H1 & H2 & H3 & H4).
  set (l := default [] (circuitsByExit s !! Exit c)).
  assert (NoDup l) as Hnd.
  { unfold l. destruct (circuitsByExit s !! Exit c) eqn:E; [by destruct (mi_lists0 _ _ E) | apply NoDup_nil_2]. }
  destruct (remove_id_spec cid l Hnd) as [Hnd' Hin].
  split; [|intros r k Hr; by exists k]. constructor; cbn [set_tracking heap circuits circuitsByExit stats]; auto.
  - intros x r [_ Hr]%lookup_delete_Some. auto.
  - intros r k Hr Hk. apply lookup_delete_None in Hk as [Hk|Hk]; [|eauto].
    assert (p = r) as <- by (apply (same_circuit s p r c k); [done | done | done | congruence]).
    rewrite Hp in Hr. injection Hr as <-. done.
  - intros e x.
    assert (default [] (drop_exit (Exit c) cid (circuitsByExit s) !! e)
      = if decide (e = Exit c) then remove_id cid l else default [] (circuitsByExit s !! e)) as ->.
    { unfold drop_exit. fold l. destruct (decide (e = Exit c)) as [->|Hne], (remove_id cid l);
        by rewrite ?lookup_delete_eq, ?lookup_insert_eq, ?lookup_delete_ne, ?lookup_insert_ne by done. }
    assert (exit_of (set_tracking (delete cid (circuits s)) (drop_exit (Exit c) cid (circuitsByExit s))
      (count_removed c (stats s)) s) x = if decide (x = cid) then None else exit_of s x) as ->.
    { unfold exit_of. cbn. destruct (decide (x = cid)) as [->|]; by rewrite ?lookup_delete_eq, ?lookup_delete_ne by done. }
    assert (exit_of s cid = Some (Exit c)) as Hexc by (unfold exit_of; rewrite Eq; cbn; by rewrite Hp).
    destruct (decide (e = Exit c)) as [->|Hne].
    + rewrite Hin. unfold l. rewrite mi_exits0. destruct (decide (x = cid)); naive_solver.
    + rewrite mi_exits0. destruct (decide (x = cid)) as [->|]; [|done]. rewrite Hexc. naive_solver.
  - intros e k Hk. unfold drop_exit in Hk. fold l in Hk. destruct (remove_id cid l) as [|x ids] eqn:E.
    + apply lookup_delete_Some in Hk as [_ Hk]. eauto.
    + apply lookup_insert_Some in Hk as [[_ <-]|[_ Hk]]; [by split | eauto].
  - by rewrite H1.
  - rewrite H2, mi_closed0. assert (size (delete cid (circuits s)) = pred (size (circuits s))) as -> by (apply map_size_delete_Some; by eexists).
    assert (size (circuits s) <> 0%nat) by (intros E0%map_size_empty_inv; by rewrite E0, lookup_empty in Eq).
    unfold u64. rewrite Zplus_mod_idemp_l. f_equal. lia.
  - by rewrite H3, H4.
Qed.

Lemma good_inserted s c s' : mgr_inv s -> Forall path_ok (paths_of c) -> (s', tt) ∈ insert_circuit c s -> good s s'.
Proof.
  intros [] Hok. unfold insert_circuit. case_bool_decide as Hfresh; [by intros ?%not_elem_of_nil|].
  intros [= ->]%list_elem_of_singleton.
  assert (circuits s !! ID c = None) as Hnone.
  { destruct (circuits s !! ID c) as [p|] eqn:E; [|done]. destruct Hfresh. specialize (mi_tracked0 _ _ E).
    rewrite <-list_lookup_fmap in mi_tracked0. by eapply list_elem_of_lookup_2. }
  split; [|intros p k Hp; exists k; split; [by apply lookup_app_l_Some | done]].
  constructor; cbn [set_tracking set_heap heap circuits circuitsByExit stats].
  - rewrite fmap_app. apply NoDup_app. split_and!; [done | | apply NoDup_singleton].
    intros x Hx ->%list_elem_of_singleton. done.
  - intros cid p [[<- <-]|[Hne Hp]]%lookup_insert_Some.
    + by rewrite lookup_app_r, Nat.sub_diag by lia.
    + specialize (mi_tracked0 _ _ Hp). apply fmap_Some in mi_tracked0 as (k & Hk & ->).
      by rewrite (lookup_app_l_Some _ _ _ _ Hk).
  - intros p k Hk Hn. apply lookup_insert_None in Hn as [Hn Hne]. apply lookup_app_Some in Hk as [Hk|[_ Hk]]; [eauto|].
    apply list_lookup_singleton_Some in Hk as [_ <-]. done.
  - intros e cid.
    assert (exit_of (set_tracking (<[ID c := length (heap s)]> (circuits s))
        (<[Exit c := default [] (circuitsByExit s !! Exit c) ++ [ID c]]> (circuitsByExit s))
        (MkStats (u64 (TotalCreated (stats s) + 1)) (TotalClosed (stats s)) (i64 (Active (stats s) + 1))
           (TearingDown (stats s)) (TotalChunksDispatched (stats s)) (TotalBytesDispatched (stats s)))
        (set_heap (heap s ++ [c]) s)) cid = if decide (cid = ID c) then Some (Exit c) else exit_of s cid) as ->.
    { unfold exit_of. cbn. destruct (decide (cid = ID c)) as [->|Hne].
      - rewrite lookup_insert_eq. cbn. by rewrite lookup_app_r, Nat.sub_diag by lia.
      - rewrite lookup_insert_ne by done. destruct (circuits s !! cid) as [p|] eqn:E; [|done]. cbn.
        specialize (mi_tracked0 _ _ E). apply fmap_Some in mi_tracked0 as (k & Hk & ->).
        by rewrite Hk, (lookup_app_l_Some _ _ _ _ Hk). }
    assert (exit_of s (ID c) = None) as Hno by (unfold exit_of; by rewrite Hnone).
    destruct (decide (e = Exit c)) as [->|Hne].
    + rewrite lookup_insert_eq. cbn. rewrite elem_of_app, list_elem_of_singleton, mi_exits0.
      destruct (decide (cid = ID c)); naive_solver.
    + rewrite lookup_insert_ne, mi_exits0 by done. destruct (decide (cid = ID c)) as [->|]; [|done].
      rewrite Hno. naive_solver.
  - intros e l [[<- <-]|[_ Hl]]%lookup_insert_Some; [|eauto]. split; [by destruct (default [] _)|].
    apply NoDup_app. split_and!; [| |apply NoDup_singleton].
    + destruct (circuitsByExit s !! Exit c) eqn:E; [by destruct (mi_lists0 _ _ E) | apply NoDup_nil_2].
    + intros x Hx ->%list_elem_of_singleton. apply mi_exits0 in Hx. unfold exit_of in Hx. by rewrite Hnone in Hx.
  - cbn. rewrite mi_created0, length_app. cbn [length]. unfold u64. rewrite Zplus_mod_idemp_l. f_equal. lia.
  - cbn. rewrite mi_closed0, length_app, map_size_insert_None by done. cbn [length]. f_equal. lia.
  - cbn. destruct mi_active0 as [-> ->]. split; [|done]. rewrite length_app. cbn [length]. unfold i64.
    f_equal. replace ((len (heap s) + 2 ^ 63) mod 2 ^ 64 - 2 ^ 63 + 1 + 2 ^ 63) with ((len (heap s) + 2 ^ 63) mod 2 ^ 64 + 1) by lia.
    rewrite Zplus_mod_idemp_l. f_equal. lia.
  - apply Forall_app. auto.
Qed.

(** ** Programs *)
Abbreviation I := mgr_inv.
Abbreviation G := mgr_le.
Abbreviation safe P p Φ := (Conc.safe I G P p Φ).
Abbreviation any := (fun _ : CircuitManager => True).
Abbreviation ok p := (safe any p (fun _ => any)).

Lemma safe_pure_act {A} P (f : CircuitManager -> CircuitManager * A) Φ :
  (forall a, stable I G (Φ a)) -> (forall s, I s -> P s -> good s (f s).1 /\ Φ (f s).2 (f s).1) ->
  safe P (pure_act f) Φ.
Proof.
  intros Hst H. apply safe_act; [done|]. intros s s' a Hs HP Hin%list_elem_of_singleton.
  destruct (H s Hs HP) as [[? ?] ?]. rewrite <-Hin in *. auto.
Qed.
Lemma ok_pure_act {A} (f : CircuitManager -> CircuitManager * A) : (forall s, I s -> good s (f s).1) -> ok (pure_act f).
Proof. intros H. apply safe_pure_act; [done|]. auto. Qed.
Lemma ok_read {A} (f : CircuitManager -> A) : ok (read f).
Proof. apply ok_pure_act. apply unchanged_good. Qed.
Lemma ok_modify f : (forall s, I s -> good s (f s)) -> ok (modify f).
Proof. intros H. by apply ok_pure_act. Qed.
Lemma ok_bind {R T} (p : M R) (q : R -> M T) : ok p -> (forall r, ok (q r)) -> ok (bind p q).
Proof. intros Hp Hq. by eapply safe_bind. Qed.
Lemma ret_ok {R} (r : R) : ok (Ret r).
Proof. by intros s _ _. Qed.
Lemma ok_from {R} P (p : M R) : ok p -> safe P p (fun _ => any).
Proof. intros H. eapply safe_weaken; [exact H | done | done]. Qed.

Lemma ok_emit typ cid d : ok (emitEvent typ cid d).
Proof.
  apply ok_bind; [apply ok_read|]. intros []; [|apply ret_ok]. apply ok_modify. intros s. by apply good_neutral.
Qed.

(** The circuit at [p] satisfies [Q], which no other operation takes back. *)
Definition holds (p : nat) (Q : Circuit -> Prop) (s : CircuitManager) : Prop :=
  exists c, heap s !! p = Some c /\ Q c.
Definition lasting (Q : Circuit -> Prop) : Prop := forall c c', circuit_le c c' -> Q c -> Q c'.

Lemma stable_holds p Q : lasting Q -> stable I G (holds p Q).
Proof. intros HQ s s' _ _ (c & Hp & Hc) Hle. destruct (Hle p c Hp) as (c' & ? & ?). exists c'. eauto. Qed.

Lemma safe_on_circuit {A} p (Q : Circuit -> Prop) (Q' : A -> Circuit -> Prop) dflt f :
  (forall a, lasting (Q' a)) -> (forall now c, Q c -> respects c (f now c).1 /\ Q' (f now c).2 (f now c).1) ->
  safe (holds p Q) (on_circuit p dflt f) (fun a => holds p (Q' a)).
Proof.
  intros HQ Hf. apply safe_pure_act; [intros a; by apply stable_holds|]. intros s Hs (c & Hp & Hc). rewrite Hp.
  destruct (Hf (clock s) c Hc) as [Hr Hq]. destruct (f (clock s) c) as [c' a]. cbn in *.
  split; [by apply (good_update s p c)|]. exists c'. split; [|done]. apply list_lookup_insert_eq. by eapply lookup_lt_Some.
Qed.
Lemma ok_on_circuit {A} p dflt (f : Z -> Circuit -> Circuit * A) :
  (forall now c, respects c (f now c).1) -> ok (on_circuit p dflt f).
Proof.
  intros Hf. apply ok_pure_act. intros s Hs. destruct (heap s !! p) as [c|] eqn:Hp; [|by apply unchanged_good].
  specialize (Hf (clock s) c). destruct (f (clock s) c) as [c' a]. by apply (good_update s p c).
Qed.
Lemma ok_update p f : (forall now c, respects c (f now c)) -> ok (update_circuit p f).
Proof. intros H. by apply ok_on_circuit. Qed.

Definition named (cid : list byte) (c : Circuit) : Prop := ID c = cid.
Definition shut (cid : list byte) (c : Circuit) : Prop := ID c = cid /\ State c = CircuitClosed.
Lemma lasting_named cid : lasting (named cid).
Proof. intros c c' [(H & _) _ _ _] Hn. unfold named in *. congruence. Qed.
Lemma lasting_shut cid : lasting (shut cid).
Proof. intros c c' Hle [Hn Hs]. split; [by eapply lasting_named | by eapply closed_le]. Qed.
Lemma lasting_finished cid : lasting (fun c => shut cid c /\ zeroed c).
Proof. intros c c' Hle [Hs Hz]. split; [by eapply lasting_shut | by eapply zeroed_le]. Qed.

Lemma safe_lookup cid : safe any (lookup_circuit cid)
  (fun r s => match r with Some p => holds p (named cid) s | None => True end).
Proof.
  apply safe_pure_act.
  - intros [p|]; [apply stable_holds, lasting_named | done].
  - intros s Hs _. split; [by apply unchanged_good|]. cbn. destruct (circuits s !! cid) as [p|] eqn:E; [|done].
    pose proof (mi_tracked _ Hs _ _ E) as Ht. apply fmap_Some in Ht as (c & Hp & Hc). by exists c.
Qed.

(** A closed circuit loses its keys before it is removed. *)
Lemma safe_finish {R} cid p (k : M R) : ok k ->
  safe (holds p (shut cid)) (update_circuit p (fun _ => ZeroKeys);;; removeCircuit cid;;; k)%prog (fun _ => any).
Proof.
  intros Hk. eapply safe_bind.
  - apply (safe_on_circuit p (shut cid) (fun _ c => shut cid c /\ zeroed c)); [intros _; apply lasting_finished|].
    intros now c [Hid Hcl]. split; [by apply respects_zero|]. split; [by split | apply zeroed_ZeroKeys].
  - intros ?. eapply (safe_bind I G) with (Φ := fun _ => any); [|intros ?; exact Hk]. apply safe_pure_act; [done|].
    intros s Hs (c & Hp & [Hid Hcl] & Hz). split; [|done]. apply good_removed; [done|]. by exists p, c.
Qed.

Lemma ok_close cid reason : ok (closeCircuit cid reason).
Proof.
  eapply safe_bind; [apply safe_lookup|]. intros [p|]; [|apply ok_from, ret_ok].
  eapply safe_bind.
  - apply (safe_on_circuit p (named cid) (fun _ => shut cid)); [intros _; apply lasting_shut|].
    intros now c Hid. split; [|by split]. apply respects_state. by destruct (State c).
  - intros ?. apply safe_finish. apply ok_bind; [apply ok_emit | intros _; apply ret_ok].
Qed.

Lemma ok_ack cid ack : ok (HandleCircuitAck cid ack).
Proof.
  eapply safe_bind; [apply safe_lookup|]. intros [p|]; [|apply ok_from, ret_ok].
  eapply safe_bind.
  - apply (safe_on_circuit p (named cid) (fun r c => match r with Rejected => shut cid c | _ => True end)).
    + intros [] c c' Hle; [done | by apply lasting_shut | done].
    + intros now c Hid. unfold take_ack. case_bool_decide as Hst; [by split|].
      destruct (Circuit.ca_Accepted ack); [split; [by apply respects_accept | done]|].
      split; [|by split]. apply respects_state. by rewrite Hst.
  - intros [].
    + apply ok_from, ok_bind; [apply ok_read | intros ?; apply ret_ok].
    + apply safe_finish. apply ok_bind; [apply ok_emit | intros _; apply ret_ok].
    + apply ok_from, ok_bind; [apply ok_emit | intros _; apply ret_ok].
Qed.

Lemma ok_setup_timeout cid : ok (HandleSetupTimeout cid).
Proof.
  eapply safe_bind; [apply safe_lookup|]. intros [p|]; [|apply ok_from, ret_ok].
  eapply safe_bind.
  - apply (safe_on_circuit p (named cid) (fun (r : bool) c => if r then shut cid c else True)).
    + intros [] c c' Hle; [by apply lasting_shut | done].
    + intros now c Hid. case_bool_decide as Hst; [by split|].
      split; [|by split]. apply respects_state. by rewrite Hst.
  - intros []; [|apply ok_from, ret_ok]. apply safe_finish. apply ok_bind; [apply ok_emit | intros _; apply ret_ok].
Qed.

Lemma ok_start p : ok (on_circuit p false (fun _ => start_teardown)).
Proof.
  apply ok_on_circuit. intros now c. unfold start_teardown. destruct (State c) eqn:E; cbn; try (by split);
    apply respects_state; by rewrite E.
Qed.
Lemma ok_send_end cid p i : ok (send_end cid p i).
Proof.
  apply ok_bind; [apply ok_read|]. intros h. case_bool_decide; [|apply ret_ok]. apply ok_modify. intros s. by apply good_neutral.
Qed.
Lemma ok_wait t : ok (wait_until t).
Proof.
  apply safe_act; [done|]. intros s s' a Hs _. cbn. destruct (clock s <? t); [by intros ?%not_elem_of_nil|].
  intros [= -> ->]%list_elem_of_singleton. by split.
Qed.
Lemma ok_teardown cfg cid reason b : ok (TeardownCircuit cfg cid reason b).
Proof.
  apply ok_bind; [apply ok_read|]. intros [p|]; [|apply ret_ok]. apply ok_bind; [apply ok_start|].
  intros []; [|apply ret_ok]. apply ok_bind; [apply ok_emit|]. intros _. apply ok_bind.
  - destruct b; [|apply ret_ok]. apply ok_bind; [apply ok_send_end | intros _; apply ok_send_end].
  - intros _. apply ok_bind; [apply ok_read|]. intros now. apply ok_bind; [apply ok_wait | intros _; apply ok_close].
Qed.
Lemma ok_pending cfg : ok (run_pending cfg).
Proof.
  apply ok_bind; [|intros g; apply ok_bind; [apply ok_teardown | intros ?; apply ret_ok]].
  apply safe_act; [done|]. intros s s' a Hs _ Hin. apply elem_of_lookup_imap in Hin as (i & g & [= -> ->] & _).
  by destruct (good_neutral s (set_pending (delete i (pending s)) s) eq_refl eq_refl eq_refl eq_refl Hs).
Qed.
Lemma ok_exit_teardown cid msg : ok (HandleTeardown cid msg).
Proof.
  apply ok_bind; [apply ok_read|]. intros [p|]; [|apply ret_ok]. apply ok_bind; [apply ok_start|].
  intros []; [|apply ret_ok]. apply ok_bind; [apply ok_emit | intros _; apply ok_close].
Qed.

Lemma ok_find cid i : ok (find_path cid i).
Proof.
  apply ok_bind; [apply ok_read|]. intros [p|]; [|apply ret_ok]. destruct (_ || _); [apply ret_ok|].
  apply ok_bind; [apply ok_read | intros ?; apply ret_ok].
Qed.
Lemma ok_go cid reason : ok (go_teardown cid reason).
Proof. apply ok_modify. intros s. by apply good_neutral. Qed.
Lemma ok_keepalive cid i t : ok (HandleKeepaliveResponse cid i t).
Proof.
  apply ok_bind; [apply ok_find|]. intros [p|]; [|apply ret_ok]. apply ok_bind; [apply ok_read|]. intros now.
  apply ok_bind; [apply ok_read|]. intros was.
  apply ok_bind; [apply ok_update; intros _ c; by apply respects_on_path, path_respects_rtt|]. intros _.
  apply ok_bind; [apply ok_update, respects_activity|]. intros _. destruct (_ || _); [|apply ret_ok].
  apply ok_bind; [apply ok_emit | intros _; apply ret_ok].
Qed.
Lemma ok_miss cid i : ok (MissKeepalive cid i).
Proof.
  apply ok_bind; [apply ok_find|]. intros [p|]; [|apply ret_ok]. apply ok_bind; [apply ok_read|]. intros was.
  apply ok_bind; [apply ok_update; intros _ c; by apply respects_on_path, path_respects_miss|]. intros _.
  apply ok_bind; [apply ok_read|]. intros h.
  apply ok_bind; [destruct (_ && _); [apply ok_emit | apply ret_ok]|]. intros _.
  apply ok_bind; [case_bool_decide; [apply ok_emit | apply ret_ok]|]. intros _.
  apply ok_bind; [apply ok_read|]. intros [[]|]; [|apply ret_ok..].
  apply ok_bind; [apply ok_emit|]. intros _. apply ok_bind; [apply ok_go | intros _; apply ret_ok].
Qed.
Lemma ok_chunk cid i n : ok (RecordChunkDispatch cid i n).
Proof.
  apply ok_bind; [apply ok_find|]. intros [p|]; [|apply ret_ok].
  apply ok_bind; [apply ok_update; intros _ c; by apply respects_on_path, path_respects_chunk|]. intros _.
  apply ok_bind; [apply ok_update, respects_activity | intros _; apply ret_ok].
Qed.
Lemma ok_assign cid buf : ok (AssignChunkPath cid buf).
Proof.
  apply ok_bind; [apply ok_read|]. intros [p|]; [|apply ret_ok].
  apply ok_bind; [apply ok_on_circuit; intros _; apply respects_next | intros ?; apply ok_read].
Qed.
Lemma ok_close_each cids : ok (close_each cids).
Proof. induction cids as [|cid cids IH]; [apply ret_ok|]. apply ok_bind; [apply ok_close | intros _; exact IH]. Qed.
Lemma ok_go_each cids : ok (go_teardowns cids).
Proof. induction cids as [|cid cids IH]; [apply ret_ok|]. apply ok_bind; [apply ok_go | intros _; exact IH]. Qed.

Section Calls.
Context {Q : Type} `{PQ : PriorityQueue Paths.heapItem Paths.dist Q}.
Context (iter : string -> gmap string Matrix.LatencyEdge -> list (string * Matrix.LatencyEdge)).
Context (dial : Z -> PathSelect.CandidateRelay -> result string Z).
Context (sort_slice : forall A : Type, (A -> A -> bool) -> list A -> list A).
Context (cfg : CircuitManagerConfig).

Lemma new_circuit_ok cid now entryID exitID t e2e seed paths :
  Forall path_ok (paths_of (new_circuit cfg cid now entryID exitID t e2e seed paths)).
Proof. unfold paths_of, new_circuit. cbn. destruct paths as [|? [|? ?]]; cbn; repeat constructor; cbn; lia. Qed.

Lemma ok_create r t e x cs : ok (CreateCircuit iter dial sort_slice cfg r t e x cs).
Proof.
  apply ok_bind; [apply ok_read|]. intros b. destruct (negb b); [apply ret_ok|].
  apply ok_bind.
  { apply ok_pure_act. intros s. destruct (selectPaths _ _ _ _ _ _ _ _ _ _ _ _ _). by apply good_neutral. }
  intros [paths|]; [|apply ret_ok]. destruct (r_id r) as [cid|], (r_e2e r), (r_seed r); try apply ret_ok.
  apply ok_bind; [apply ok_read|]. intros now. apply ok_bind; [|intros _; apply ok_bind; [apply ok_emit | intros _; apply ret_ok]].
  apply safe_act; [done|]. intros s s' [] Hs _ Hin. destruct (good_inserted _ _ _ Hs (new_circuit_ok _ _ _ _ _ _ _ _) Hin). auto.
Qed.

Lemma api_ok p : api iter dial sort_slice cfg p -> ok p.
Proof.
  assert (forall R (p : M R), ok p -> ok (p;;; Ret tt)%prog) as Hd.
  { intros R q Hq. apply ok_bind; [done | intros _; apply ret_ok]. }
  intros []; try apply Hd.
  - apply ok_create.
  - apply ok_ack.
  - apply ok_setup_timeout.
  - apply ok_teardown.
  - apply ok_pending.
  - apply ok_exit_teardown.
  - apply ok_keepalive.
  - apply ok_miss.
  - apply ok_chunk.
  - apply ok_assign.
  - apply ok_read.
  - apply ok_read.
  - apply ok_read.
  - apply ok_bind; [apply ok_read | intros cids; apply ok_go_each].
  - apply ok_bind; [apply ok_modify; intros s; by apply good_neutral|]. intros _.
    apply ok_bind; [apply ok_read | intros cids; apply ok_close_each].
  - apply ok_modify. intros s. by apply good_neutral.
  - apply ok_modify. intros s. by apply good_neutral.
  - apply ok_modify. intros s. by apply good_neutral.
Qed.
End Calls.

(** ** What holds of every execution *)
Lemma NewCircuitManager_inv now cfg : mgr_inv (NewCircuitManager now cfg).
Proof.
  constructor; cbn [NewCircuitManager heap circuits circuitsByExit stats]; try done.
  - apply NoDup_nil_2.
  - intros e cid. unfold exit_of. cbn. rewrite !lookup_empty. cbn. rewrite elem_of_nil. done.
Qed.


(** ** Assignment *)

(** Every strategy spares a dead path: it answers path 0 or 1, the
    healthy one when exactly one is healthy; otherwise the round robin
    alternates from call to call, and the fastest-only strategy takes a path
    of least measured latency. *)
Theorem AssignPath_healthy st p0 p1 n buf :
  0 <= n ->
  let i := strategy_AssignPath st p0 p1 n buf in
  let pick (i : Z) := if i =? 0 then p0 else p1 in
  (i = 0 \/ i = 1) /\
  (Healthy p0 <> Healthy p1 -> Healthy (pick i) = true) /\
  (Healthy p0 = Healthy p1 -> st = RoundRobinStrategy -> strategy_AssignPath st p0 p1 (n + 1) buf = 1 - i) /\
  (Healthy p0 = Healthy p1 -> st = FastestOnlyStrategy -> 0 < LastRTT p0 -> 0 < LastRTT p1 ->
     LastRTT (pick i) = Z.min (LastRTT p0) (LastRTT p1)).
Proof.
  intros Hn. cbn zeta. assert (Z.rem n 2 = 0 \/ Z.rem n 2 = 1) as Hr by (Z.to_euclidean_division_equations; lia).
  assert (Z.rem (n + 1) 2 = 1 - Z.rem n 2) as Hs by (Z.to_euclidean_division_equations; lia).
  unfold strategy_AssignPath, round_robin, weighted, fastest_only.
  destruct st, (Healthy p0) eqn:E0, (Healthy p1) eqn:E1; cbn [negb andb]; split_and!; try done; try tauto;
    try (repeat case_match; to_prop; tauto); intros _ _ ? ?;
    rewrite (proj2 (Z.eqb_neq (LastRTT p0) 0)), (proj2 (Z.eqb_neq (LastRTT p1) 0)) by lia; cbn [andb];
    destruct (Z.leb_spec (LastRTT p0) (LastRTT p1)); cbn; lia.
Qed.

(** ** Calls that run undisturbed *)

Lemma wp_read {A T} (f : CircuitManager -> A) (q : A -> M T) s Φ : wp (q (f s)) s Φ -> wp (bind (read f) q) s Φ.
Proof. intros H. by eapply wp_act_one. Qed.
Lemma wp_modify {T} f (q : unit -> M T) s Φ : wp (q tt) (f s) Φ -> wp (bind (modify f) q) s Φ.
Proof. intros H. by eapply wp_act_one. Qed.
Lemma wp_on_circuit {A T} p dflt (f : Z -> Circuit -> Circuit * A) (q : A -> M T) s c Φ :
  heap s !! p = Some c ->
  wp (q (f (clock s) c).2) (set_heap (<[p := (f (clock s) c).1]> (heap s)) s) Φ ->
  wp (bind (on_circuit p dflt f) q) s Φ.
Proof. intros Hp H. eapply wp_act_one; [|exact H]. rewrite Hp. by destruct (f (clock s) c). Qed.
Lemma wp_emit {T} typ cid d (q : unit -> M T) s Φ :
  (forall s', s' = s \/ s' = add_event (MkEvent typ cid (clock s) d) s -> wp (q tt) s' Φ) ->
  wp (bind (emitEvent typ cid d) q) s Φ.
Proof.
  intros H. apply wp_bind, wp_read. destruct (eventCb s); [|apply H; by left].
  split; [done|]. repeat constructor. apply H. by right.
Qed.

Lemma wp_close cid why s : mgr_inv s ->
  wp (closeCircuit cid why) s (fun s' r =>
    r = (if decide (is_Some (circuits s !! cid)) then None else Some ErrCircuitNotFound) /\
    circuits s' = delete cid (circuits s)).
Proof.
  intros Hs. apply wp_read. destruct (circuits s !! cid) as [p|] eqn:E.
  2:{ split; [done|]. by rewrite delete_id. }
  pose proof (mi_tracked _ Hs _ _ E) as Ht. apply fmap_Some in Ht as (c & Hp & Hc).
  eapply wp_on_circuit; [exact Hp|]. set (c1 := with_State _ c). cbn [fst snd].
  assert (p < length (heap s))%nat as Hlt by (by eapply lookup_lt_Some).
  eapply wp_on_circuit; [by apply list_lookup_insert_eq|]. cbn [fst snd].
  apply wp_modify, wp_emit. unfold removed. cbn [set_heap circuits heap]. rewrite E.
  rewrite (list_lookup_insert_eq _ p) by by rewrite length_insert.
  intros s' [->| ->]; cbn; by rewrite decide_True by done.
Qed.

Lemma wp_close_each cids : forall s, mgr_inv s ->
  wp (close_each cids) s (fun s' _ => circuits s' = foldr delete (circuits s) cids).
Proof.
  assert (forall cid (m : gmap (list byte) nat) l, foldr delete (delete cid m) l = delete cid (foldr delete m l)) as Hd.
  { intros cid m l. induction l as [|x l IH]; [done|]. cbn. rewrite IH. apply delete_delete. }
  induction cids as [|cid cids IH]; intros s Hs; [done|]. apply wp_bind. eapply wp_mono.
  - apply (wp_safe I G) with (P := any) (Φ := fun _ => any); [done | done | apply ok_close | by apply wp_close].
  - intros s' r (Hs' & _ & Hc). eapply wp_mono; [by apply IH|]. cbn. intros s2 _ ->. by rewrite Hc, Hd.
Qed.

Lemma deleted_all (m : gmap (list byte) nat) cids : cids ≡ₚ (map_to_list m).*1 -> foldr delete m cids = ∅.
Proof.
  intros Hp. apply map_eq. intros cid. rewrite lookup_empty. destruct (decide (cid ∈ cids)) as [Hin|Hin].
  - by rewrite lookup_foldr_delete.
  - rewrite lookup_foldr_delete_not_elem_of by done. apply eq_None_not_Some. intros [p Hm]. apply Hin. rewrite Hp.
    apply list_elem_of_fmap. exists (cid, p). split; [done|]. by apply elem_of_map_to_list.
Qed.

Section Executions.
Context {Q : Type} `{PQ : PriorityQueue Paths.heapItem Paths.dist Q}.
Context (iter : string -> gmap string Matrix.LatencyEdge -> list (string * Matrix.LatencyEdge)).
Context (dial : Z -> PathSelect.CandidateRelay -> result string Z).
Context (sort_slice : forall A : Type, (A -> A -> bool) -> list A -> list A).
Context (cfg : CircuitManagerConfig).

(** The executions of a manager: any number of calls at any time, from the
    new manager without circuits. *)
Definition calls : M unit -> Prop := api iter dial sort_slice (normalise cfg).
Definition execution (now : Z) : config CircuitManager -> Prop := reach calls (NewCircuitManager now cfg, []).

(** C9. The tables of the circuit manager stay consistent under every
    interleaving of its calls: identifiers are distinct, each tracked circuit
    is listed once under its exit and nothing else is, the health of a path
    is that of its count of missed keepalives, the numbers of circuits
    created and closed are exact, and a circuit that is not tracked any more
    is closed and every byte of its end-to-end key, padding seed and relay
    keys is zero. *)
Theorem circuit_manager_invariant now c : execution now c -> mgr_inv c.1.
Proof.
  intros Hr. eapply safe_reach; [apply NewCircuitManager_inv | constructor | | exact Hr]. intros p. apply api_ok.
Qed.

(** Circuits only move forward, whatever calls interleave: from any
    moment of an execution to any later one a circuit keeps its identity and
    the hops of its paths, its state never goes back in the order creating,
    active, teardown, closed, and its key material is unchanged unless the
    circuit is closed, when it is zero. *)
Theorem circuit_lifecycle now c c' p k :
  execution now c -> reach calls c c' -> heap c.1 !! p = Some k ->
  exists k', heap c'.1 !! p = Some k' /\ circuit_le k k'.
Proof.
  intros Hr Hr'. assert (Forall (thread_ok I G c.1) c.2) as Hp.
  { eapply safe_reach; [apply NewCircuitManager_inv | constructor | | exact Hr]. intros q. apply api_ok. }
  assert (mgr_inv c.1) as Hi.
  { eapply safe_reach; [apply NewCircuitManager_inv | constructor | | exact Hr]. intros q. apply api_ok. }
  eapply (reach_guarantee I G); [reflexivity | intros ? ? ?; apply transitivity | done | done | | exact Hr'].
  intros q. apply api_ok.
Qed.

(** Shutdown leaves nothing behind when nothing else runs: from any
    moment of an execution it ends, and afterwards no circuit is tracked,
    every circuit that ever was is closed and its key material is zero. *)
Theorem Shutdown_clears now s pool order :
  execution now (s, pool) -> (forall m, order m ≡ₚ (map_to_list m).*1) ->
  wp (Shutdown order) s (fun s' _ =>
    circuits s' = ∅ /\ Forall (fun c => State c = CircuitClosed /\ zeroed c) (heap s')).
Proof.
  intros Hr Horder. assert (mgr_inv s) as Hs.
  { apply (safe_reach I G calls _ _ (s, pool) (NewCircuitManager_inv now cfg)) in Hr as [? _]; [done | constructor |].
    intros q. apply api_ok. }
  apply wp_modify, wp_read. cbn [set_cancelled circuits].
  assert (mgr_inv (set_cancelled s)) as Hs' by (by apply (good_neutral s)).
  eapply wp_mono; [apply (wp_safe I G) with (P := any) (s := set_cancelled s) (Φ := fun _ => any);
    [done | done | apply ok_close_each | by apply wp_close_each]|].
  intros s' _ [Hi Hc]. cbn in Hc. rewrite deleted_all in Hc by done. split; [done|].
  apply Forall_lookup. intros p c Hp. apply (mi_gone _ Hi p c Hp). by rewrite Hc, lookup_empty.
Qed.
End Executions.

(** What an event leaves alone. *)
Definition same_tables (s s' : CircuitManager) : Prop :=
  heap s' = heap s /\ circuits s' = circuits s /\ pending s' = pending s.
Lemma wp_emit_if {T} (b : bool) typ cid d (q : unit -> M T) s Φ :
  (forall s', same_tables s s' -> wp (q tt) s' Φ) -> wp (bind (if b then emitEvent typ cid d else Ret tt) q) s Φ.
Proof. intros H. destruct b; [apply wp_emit; intros s' [-> | ->]|]; by apply H. Qed.

Lemma wp_find {T} cid i (q : nat + manager_error -> M T) s p c r Φ :
  circuits s !! cid = Some p -> heap s !! p = Some c -> path_at c i = Some r -> 0 <= i < 2 ->
  wp (q (inl p)) s Φ -> wp (bind (find_path cid i) q) s Φ.
Proof.
  intros Hc Hp Hq Hi H. apply wp_bind, wp_read. rewrite Hc.
  rewrite (proj2 (Z.ltb_ge i 0)), (proj2 (Z.leb_gt 2 i)) by lia. cbn [orb]. apply wp_read. rewrite Hp. cbn [mbind option_bind].
  by rewrite Hq.
Qed.

(** Both paths of the circuit have missed four keepalives in a row. *)
Definition dead (c : Circuit) : bool := forallb (fun q => 4 <=? MissedKeepalives q) (paths_of c).

Lemma dead_unhealthy c : Forall path_ok (paths_of c) -> is_Some (Path0 c) -> is_Some (Path1 c) ->
  BothPathsUnhealthy c = Some (dead c).
Proof.
  unfold dead, paths_of, BothPathsUnhealthy, Healthy. intros Hok [q0 E0] [q1 E1]. rewrite E0, E1 in *. cbn in *.
  rewrite !Forall_cons in Hok. destruct Hok as ((_ & ->) & (_ & ->) & _). unfold health_of. repeat case_match; done.
Qed.

(** A missed keepalive counts for its path alone, and the circuit is
    given up exactly when both paths are dead: the call adds one to the count
    of the path and sets its health from it, changes nothing else, and starts
    a teardown if and only if both paths have then missed four keepalives or
    more in a row. *)
Theorem MissKeepalive_spec cid i s p c :
  mgr_inv s -> circuits s !! cid = Some p -> heap s !! p = Some c -> is_Some (Path0 c) -> is_Some (Path1 c) ->
  0 <= i < 2 ->
  wp (MissKeepalive cid i) s (fun s' r =>
    r = None /\ circuits s' = circuits s /\ heap s' = <[p := on_path i path_MissKeepalive c]> (heap s) /\
    pending s' = pending s ++ (if dead (on_path i path_MissKeepalive c) then [(cid, "both paths unhealthy")] else [])).
Proof.
  intros Hs Hc Hp S0 S1 Hi. set (c' := on_path i path_MissKeepalive c).
  assert (p < length (heap s))%nat as Hlt by (by eapply lookup_lt_Some).
  assert (BothPathsUnhealthy c' = Some (dead c')) as Hdead.
  { pose proof (respects_on_path i _ c path_respects_miss) as [Hok _]. fold c' in Hok.
    pose proof (mi_paths _ Hs) as Hall. rewrite Forall_lookup in Hall.
    apply dead_unhealthy; [by apply Hok, (Hall p) | ..]; unfold c', on_path; destruct (i =? 0); by apply fmap_is_Some. }
  assert (exists q, path_at c i = Some q) as (q & Hq) by (unfold path_at; destruct (i =? 0); [destruct S0 | destruct S1]; eauto).
  eapply wp_find; [done..|]. apply wp_read. eapply wp_on_circuit; [exact Hp|]. cbn [fst snd]. apply wp_read.
  apply wp_emit_if. intros s2 (H1 & H2 & H3). apply wp_emit_if. intros s3 (K1 & K2 & K3).
  assert (heap s3 = <[p := c']> (heap s)) as Hh by (by rewrite K1, H1).
  assert (circuits s3 = circuits s /\ pending s3 = pending s) as [Hcs Hpd] by (by rewrite K2, K3, H2, H3).
  apply wp_read. rewrite Hh, list_lookup_insert_eq by done. cbn [mbind option_bind]. rewrite Hdead.
  destruct (dead c'); [|by rewrite app_nil_r].
  apply wp_emit. intros s4 [-> | ->]; apply wp_modify; cbn; by rewrite Hh, Hcs, Hpd.
Qed.

(** ** Examples *)
#[local] Existing Instances Paths.heapItem_inhabited Heap.heap_queue.

Definition no_dial (_ : Z) (_ : PathSelect.CandidateRelay) : result string Z := Err "no route".
Definition no_sort (A : Type) (_ : A -> A -> bool) (l : list A) : list A := l.
Definition demo_config (total paths : Z) : CircuitManagerConfig :=
  MkConfig paths "bfs" 10 0 2 "round-robin" 0 0 0 0 0 0 0 0 0 0 0 1024 total.
(** The n-th circuit has an identifier of bytes n and keys of bytes 1. *)
Definition demo_chance (n : Z) : chance :=
  MkChance [] (fun _ => []) (fun _ _ => Some (replicate 32 x01)) (Some (replicate 16 (byte_of_Z n)))
    (Some (replicate 32 x01)) (Some (replicate 32 x01)).
Definition demo_id (n : Z) : list byte := replicate 16 (byte_of_Z n).
Abbreviation demo_create total paths n :=
  (CreateCircuit Matrix.any_order no_dial no_sort (normalise (demo_config total paths)) (demo_chance n) "example.org:443" "s" "t" []).
Definition demo_edges : list Matrix.LatencyEdge :=
  (fun e => Matrix.MkEdge e.1.1 e.1.2 e.2 0 0 "probe") <$>
    [("s", "r1", 10); ("r1", "t", 40); ("s", "r2", 30); ("r2", "t", 30)].
(** The latencies arrive, a circuit is created, the exit accepts it and
    tears it down, and another circuit is created. *)
Definition demo_pool : list (M unit) :=
  [ UpdateLatencyMatrix demo_edges; (demo_create 10 2 1;;; Ret tt)%prog;
    (HandleCircuitAck (demo_id 1) {| Circuit.ca_CircuitID := demo_id 1; Circuit.ca_ECDHPubKey := [];
                                     Circuit.ca_Accepted := true; Circuit.ca_Reason := "" |};;; Ret tt)%prog;
    (HandleTeardown (demo_id 1) {| Circuit.ct_CircuitID := demo_id 1; Circuit.ct_Reason := "bye" |};;; Ret tt)%prog;
    (demo_create 10 2 2;;; Ret tt)%prog ].
Definition demo_run (upto : nat) : list (nat * nat) :=
  (fun i => (i, 0%nat)) <$> take upto ([0] ++ replicate 5 1 ++ replicate 3 2 ++ replicate 5 4 ++ replicate 8 3)%nat.
Abbreviation demo_calls := (calls Matrix.any_order no_dial no_sort (demo_config 10 2)).

Lemma demo_spawn : Forall demo_calls demo_pool.
Proof. repeat constructor. Qed.
Lemma demo_reach upto c : run_schedule (demo_run upto) (NewCircuitManager 0 (demo_config 10 2), demo_pool) = Some c ->
  execution Matrix.any_order no_dial no_sort (demo_config 10 2) 0 c.
Proof. intros H. eapply run_schedule_reach; [|exact H]. apply spawn_all, demo_spawn. Qed.

(** What [f] shows of the demonstration after some of its actions. *)
Definition demo_view {B} (f : config CircuitManager -> B) (upto : nat) : option B :=
  f <$> run_schedule (demo_run upto) (NewCircuitManager 0 (demo_config 10 2), demo_pool).
Lemma demo_end {B} (f : config CircuitManager -> B) upto b : demo_view f upto = Some b ->
  exists c, execution Matrix.any_order no_dial no_sort (demo_config 10 2) 0 c /\ f c = b.
Proof.
  unfold demo_view. intros (c & E & ->)%fmap_Some_1. exists c. split; [|done]. exact (demo_reach upto c E).
Qed.
Definition states (c : config CircuitManager) : list CircuitState := State <$> heap c.1.

Lemma circuit_manager_invariant_witness :
  exists c, execution Matrix.any_order no_dial no_sort (demo_config 10 2) 0 c /\
    states c = [CircuitClosed; CircuitCreating] /\ mgr_inv c.1.
Proof.
  destruct (demo_end states 22 [CircuitClosed; CircuitCreating]) as (c & Hr & Hc); [vm_compute; reflexivity|].
  exists c. split_and!; [exact Hr | exact Hc | exact (circuit_manager_invariant _ _ _ _ 0 c Hr)].
Defined.

(** From the ninth action, when the first circuit is active, to the end. *)
Definition demo_later (c : config CircuitManager) : option (list CircuitState) :=
  states <$> run_schedule (drop 9 (demo_run 22)) c.
Lemma circuit_lifecycle_witness :
  exists c c' k k', execution Matrix.any_order no_dial no_sort (demo_config 10 2) 0 c /\ reach demo_calls c c' /\
    states c = [CircuitActive] /\ states c' = [CircuitClosed; CircuitCreating] /\
    heap c.1 !! 0%nat = Some k /\ heap c'.1 !! 0%nat = Some k' /\ circuit_le k k'.
Proof.
  destruct (demo_end (fun c => (states c, demo_later c)) 9 ([CircuitActive], Some [CircuitClosed; CircuitCreating]))
    as (c & Hr & Hc); [vm_compute; reflexivity|].
  injection Hc as Hs Hl. unfold demo_later in Hl. apply fmap_Some_1 in Hl as (c' & Hl & Hs').
  assert (reach demo_calls c c') as Hr' by (eapply run_schedule_reach; [apply reach_init | exact Hl]).
  assert (exists k, heap c.1 !! 0%nat = Some k) as (k & Hk).
  { unfold states in Hs. destruct (heap c.1) as [|k l]; [done | by exists k]. }
  destruct (circuit_lifecycle _ _ _ _ 0 c c' 0%nat k Hr Hr' Hk) as (k' & Hk' & Hle).
  exists c, c', k, k'. split_and!; auto.
Defined.

Lemma Shutdown_clears_witness :
  exists s pool, execution Matrix.any_order no_dial no_sort (demo_config 10 2) 0 (s, pool) /\
    states (s, pool) = [CircuitActive] /\
    wp (Shutdown (fun m => (map_to_list m).*1)) s (fun s' _ =>
      circuits s' = ∅ /\ Forall (fun c => State c = CircuitClosed /\ zeroed c) (heap s')).
Proof.
  destruct (demo_end states 9 [CircuitActive]) as ([s pool] & Hr & Hc); [vm_compute; reflexivity|].
  exists s, pool. split_and!; [exact Hr | exact Hc |].
  exact (Shutdown_clears _ _ _ _ 0 s pool (fun m => (map_to_list m).*1) Hr (fun m => reflexivity _)).
Defined.

Lemma AssignPath_healthy_witness :
  let p0 := MkPath 0 [] [] 0 0 0 PathHealthUnhealthy 4 0 in
  let p1 := MkPath 1 [] [] 0 0 0 PathHealthDegraded 2 0 in
  strategy_AssignPath RoundRobinStrategy p0 p1 6 0 = 1 /\ Healthy p1 = true.
Proof.
  split; [reflexivity|].
  exact (proj1 (proj2 (AssignPath_healthy RoundRobinStrategy (MkPath 0 [] [] 0 0 0 PathHealthUnhealthy 4 0)
    (MkPath 1 [] [] 0 0 0 PathHealthDegraded 2 0) 6 0 ltac:(lia))) ltac:(discriminate)).
Defined.

Lemma MissKeepalive_spec_witness :
  exists s c, circuits s !! demo_id 1 = Some 0%nat /\ heap s !! 0%nat = Some c /\
    wp (MissKeepalive (demo_id 1) 1) s (fun s' r =>
      r = None /\ circuits s' = circuits s /\ heap s' = <[0%nat := on_path 1 path_MissKeepalive c]> (heap s) /\
      pending s' = pending s ++ (if dead (on_path 1 path_MissKeepalive c) then [(demo_id 1, "both paths unhealthy")] else [])).
Proof.
  destruct (demo_end (fun c => (circuits c.1 !! demo_id 1, (fun k => (bool_decide (is_Some (Path0 k)), bool_decide (is_Some (Path1 k)))) <$> heap c.1 !! 0%nat))
    9 (Some 0%nat, Some (true, true))) as ([s pool] & Hr & Hc); [vm_compute; reflexivity|].
  injection Hc as Hc Hp. cbn [fst] in *. apply fmap_Some_1 in Hp as (c & Hp & Hb). injection Hb as H0 H1.
  symmetry in H0, H1. apply bool_decide_eq_true in H0, H1.
  exists s, c. split_and!; [exact Hc | exact Hp |].
  apply (MissKeepalive_spec (demo_id 1) 1 s 0%nat c); [|done|done|done|done|lia].
  apply (safe_reach I G demo_calls _ _ (s, pool) (NewCircuitManager_inv 0 _)) in Hr as [? _]; [done | constructor |].
  intros q. apply api_ok.
Defined.

(** *** What interleaving can do *)
Definition create_pool (total paths : Z) : list (M unit) :=
  [ UpdateLatencyMatrix demo_edges; (demo_create total paths 1;;; Ret tt)%prog; (demo_create total paths 2;;; Ret tt)%prog;
    Shutdown (fun m => (map_to_list m).*1) ].
Definition create_run {B} (f : config CircuitManager -> B) (total paths : Z) (sched : list nat) : option B :=
  f <$> run_schedule ((fun i => (i, 0%nat)) <$> sched) (NewCircuitManager 0 (demo_config total paths), create_pool total paths).

(** Creation tests first and inserts later, and nothing is tested again
    in between: two calls at the same time exceed the limit on circuits; a
    call that overlaps a shutdown leaves a circuit with its keys behind; and
    when one path is configured the assignment of a chunk panics, since the
    second path is nil. *)
Theorem CreateCircuit_races :
  create_run (fun c => size (circuits c.1)) 1 2 ([0; 1; 2] ++ replicate 4 1 ++ replicate 4 2)%nat = Some 2%nat /\
  create_run (fun c => (cancelled c.1, KeysZeroed <$> heap c.1)) 10 2 ([0; 1; 3; 3] ++ replicate 4 1)%nat
    = Some (true, [false]) /\
  create_run (fun c => (fun k => AssignPath k 0 0) <$> heap c.1) 10 1 ([0] ++ replicate 5 1)%nat = Some [Err Panic].
Proof. split_and!; vm_compute; reflexivity. Qed.
End Manager.
