(* ===== verification/Streaming.v ===== *)
(** * Reassembly of a stream without a total (internal/proxy/exit_reassembler.go)

    The entry node numbers its chunks and leaves their total at zero; the end
    of the stream is an end marker. This file shows what [AddStreaming] of
    Reassembler.v does with such a stream: an invariant that describes the
    buffer exactly, the step for each chunk, and the step for the marker. *)
From stdpp Require Import prelude gmap list.
From Stdlib Require Import Strings.Byte ZArith Lia.
From S2P Require Import Prelude GoBytes ProxyTypes Reassembler.
Local Open Scope Z_scope.

Module Streaming.
Section Stream.
Context (sid : Z) (payloads : list (list byte)).
Abbreviation n := (len payloads).
Abbreviation pl := (Exit.pl payloads).
Abbreviation prefix := (Exit.prefix payloads).
Context (Hn : n < 2 ^ 32).

(** A data chunk of the stream and its end marker. *)
Definition data_chunk (i : Z) (c : Chunk) : Prop :=
  StreamID c = sid /\ Sequence c = i /\ Total c = 0 /\ Type_ c = ChunkData /\ Payload c = pl i.
Definition end_chunk (c : Chunk) : Prop :=
  StreamID c = sid /\ Sequence c = n /\ Type_ c = ChunkStreamEnd /\ Payload c = [].

(** The buffer holds the received payloads that are not delivered yet. *)
Definition buffer (seen : gset Z) (m : Z) (chunks : gmap Z (list byte)) : Prop :=
  forall i, chunks !! i = if decide (m <= i /\ i ∈ seen) then Some (pl i) else None.

(** [seen] are the numbers received, all below [m] among them and delivered. *)
Record sgood (seen : gset Z) (m : Z) (st : Exit.exitStreamState) : Prop := {
  sg_next : Exit.nextExpected st = m;
  sg_range : 0 <= m <= n;
  sg_seen : forall i, i ∈ seen -> 0 <= i < n;
  sg_below : forall i, 0 <= i < m -> i ∈ seen;
  sg_at : m ∉ seen;
  sg_buf : buffer seen m (Exit.chunks st);
  sg_open : Exit.completed st = false;
  sg_total : Exit.totalSet st = false
}.

Lemma buffer_step (seen : gset Z) m chunks :
  buffer seen m chunks -> buffer seen (m + 1) (delete m chunks).
Proof.
  intros Hb i. destruct (decide (i = m)) as [->|].
  - rewrite lookup_delete_eq, decide_False; [done | lia].
  - rewrite lookup_delete_ne, Hb by done. repeat case_decide; done || (exfalso; naive_solver lia).
Qed.

Lemma buffer_store (seen : gset Z) m j chunks :
  buffer seen m chunks -> m <= j -> buffer ({[j]} ∪ seen) m (<[j := pl j]> chunks).
Proof.
  intros Hb Hj i. destruct (decide (i = j)) as [->|].
  - rewrite lookup_insert_eq, decide_True; [done | set_solver].
  - rewrite lookup_insert_ne, Hb by done. repeat case_decide; done || (exfalso; set_solver).
Qed.

Lemma deliver_buffer fuel (seen : gset Z) m tb st acc tb' st' out :
  Exit.nextExpected st = m -> 0 <= m <= n ->
  (forall i, i ∈ seen -> 0 <= i < n) -> (forall i, 0 <= i < m -> i ∈ seen) ->
  buffer seen m (Exit.chunks st) ->
  Exit.deliver_loop fuel tb st acc = (tb', st', out) ->
  exists m' d, m <= m' <= n /\ Exit.nextExpected st' = m' /\ (forall i, 0 <= i < m' -> i ∈ seen) /\
    buffer seen m' (Exit.chunks st') /\ out = acc ++ d /\ prefix m' = prefix m ++ d.
Proof.
  revert m tb st acc. induction fuel as [|fuel IH]; intros m tb st acc Hne Hm Hs Hb Hbuf; cbn.
  { intros [= <- <- <-]. exists m, []. rewrite !app_nil_r. split_and!; auto; lia. }
  rewrite Hne, (Hbuf m). case_decide as Hin.
  2:{ intros [= <- <- <-]. exists m, []. rewrite !app_nil_r. split_and!; auto; lia. }
  destruct Hin as [_ Hin]. pose proof (Hs m Hin) as Hmn.
  intros H. apply (IH (m + 1)) in H as (m' & d & H1 & H2 & H3 & H4 & -> & H6); auto.
  - exists m', (pl m ++ d). rewrite H6, Exit.prefix_step, !app_assoc by lia.
    split_and!; auto; lia.
  - cbn. rewrite Hne. apply u32_small. lia.
  - lia.
  - intros i Hi. destruct (decide (i = m)) as [->|]; [done|]. apply Hb. lia.
  - cbn. rewrite Hne. by apply buffer_step.
Qed.

(** A chunk that has not been received yet is stored, and what has become
    contiguous is delivered. *)
Lemma processChunk_data r tb st seen m j c :
  sgood seen m st -> Exit.stream_inv st -> 0 <= j < n -> j ∉ seen -> data_chunk j c ->
  Exit.room r tb (len (pl j)) st ->
  exists tb' st' out m',
    Exit.processChunk r tb st c = Ok (tb', st', out, false) /\
    prefix m' = prefix m ++ out /\ sgood ({[j]} ∪ seen) m' st' /\
    Exit.nchunks st' <= Exit.nchunks st + 1 /\ tb' <= tb + len (pl j).
Proof.
  intros [Hne Hr Hs Hb Ha Hbuf Ho Ht] Hi Hj Hnew (_ & Hseq & Htot & Hty & Hp) Hroom.
  unfold Exit.processChunk. rewrite Ho, Hseq, Htot, Hty, Hp.
  change (ChunkData =? ChunkPadding) with false.
  change (ChunkData =? ChunkStreamEnd) with false. cbv iota. cbn [Z.ltb Z.compare andb].
  rewrite Ht. cbn [andb].
  assert (m <= j) as Hmj by (destruct (decide (j < m)); [exfalso; apply Hnew, Hb; lia | lia]).
  assert (Exit.chunks st !! j = None) as Hnone by (rewrite Hbuf, decide_False; naive_solver).
  rewrite bool_decide_false by (rewrite Hnone; by intros [? ?]).
  rewrite Exit.checkBounds_room by done. cbn [mbind result_bind].
  destruct (Exit.deliverContiguous _ _) as [[tb2 st2] out] eqn:Ed.
  pose proof (Exit.stream_inv_store st j (pl j) Hnone Hi) as Hi1.
  pose proof (Exit.nchunks_store st j (pl j) Hnone) as Hnc1.
  pose proof (Exit.deliver_loop_stops _ _ _ _ _ _ _ eq_refl Ed) as Hstop.
  pose proof (Exit.deliver_loop_inv _ _ _ _ _ _ _ Hi1 Ed) as (Hi2 & Hd2 & Hnc2 & Hb2).
  pose proof (Exit.deliver_loop_frame _ _ _ _ _ _ _ Ed) as (Hf1 & Hf2 & Hf3 & Hf4).
  apply (deliver_buffer _ ({[j]} ∪ seen) m) in Ed
    as (m' & d & Hm' & Hne2 & Hb' & Hbuf' & -> & Hpre); auto; [| set_solver | set_solver |].
  2:{ cbn. by apply buffer_store. }
  cbn in Hf1, Hf2, Hf3. rewrite Hf2, Ht. cbn [andb].
  exists tb2, st2, d, m'. split_and!; [done | done | | lia | cbn in *; lia].
  constructor; auto; [lia | set_solver | | congruence | congruence].
  intros Hin. rewrite Hne2, Hbuf', decide_True in Hstop by (done || lia). done.
Qed.

(** Without anything buffered the end marker delivers nothing more. *)
Lemma processChunk_end r tb st seen c :
  sgood seen n st -> end_chunk c ->
  Exit.processChunk r tb st c = Ok (tb, Exit.set_completed st, [], true).
Proof.
  intros [Hne Hr Hs Hb Ha Hbuf Ho Ht] (_ & Hseq & Hty & Hp).
  unfold Exit.processChunk. rewrite Ho, Hty, Hp.
  change (ChunkStreamEnd =? ChunkPadding) with false.
  change (ChunkStreamEnd =? ChunkStreamEnd) with true. cbv iota.
  change (negb (len (@nil byte) =? 0)) with false. cbn [andb mbind result_bind].
  unfold Exit.flushRemaining. rewrite decide_True; [done|].
  cbn. apply map_empty. intros i. rewrite Hbuf, decide_False; [done|].
  intros [Hge Hin]. apply Hs in Hin. lia.
Qed.

(** The stream inside a reassembler. *)
Record srunning (r : Exit.ExitReassembler) (seen : gset Z) (m : Z) (st : Exit.exitStreamState) : Prop := {
  srun_inv : Exit.reasm_inv r;
  srun_lookup : Exit.streams r !! sid = Some st;
  srun_open : sid ∉ Exit.completedStreams r;
  srun_good : sgood seen m st
}.

Lemma put_same r st : Exit.streams r !! sid = Some st -> Exit.put_stream r sid (Exit.totalBytes r) st = r.
Proof. intros H. unfold Exit.put_stream. rewrite insert_id by done. by destruct r. Qed.

Lemma AddStreaming_open r now c st :
  Exit.streams r !! sid = Some st -> sid ∉ Exit.completedStreams r -> Exit.completed st = false ->
  StreamID c = sid ->
  Exit.AddStreaming r now c =
  match Exit.processChunk r (Exit.totalBytes r) st c with
  | Err e => (r, Err e)
  | Ok (tb, st, delivered, done) =>
      let r := Exit.put_stream r sid tb st in
      if done then (Exit.cleanupStream (Exit.mark_completed r sid) sid, Ok (delivered, true))
      else (r, Ok (delivered, false))
  end.
Proof.
  intros Hl Hop Hc Hsid. unfold Exit.AddStreaming. rewrite Hsid, bool_decide_false by done.
  unfold Exit.getOrCreateStream. rewrite Hl. cbn [default option_fmap from_option id].
  by rewrite Hc, put_same.
Qed.

Lemma AddStreaming_data r now seen m st j js c :
  srunning r seen m st -> 0 <= j < n -> j ∉ seen -> data_chunk j c ->
  Exit.roomy payloads r st (j :: js) ->
  exists r' out m' st',
    Exit.AddStreaming r now c = (r', Ok (out, false)) /\
    prefix m' = prefix m ++ out /\
    srunning r' ({[j]} ∪ seen) m' st' /\ Exit.roomy payloads r' st' js.
Proof.
  intros [Hri Hl Hopen Hg] Hj Hnew Hc Hroom.
  pose proof (Exit.AddStreaming_inv r now c Hri) as Hri'.
  pose proof (Exit.inv_streams r Hri _ _ Hl) as [Hsi _].
  rewrite (AddStreaming_open r now c st Hl Hopen (sg_open _ _ _ Hg) (proj1 Hc)) in *.
  destruct (processChunk_data r (Exit.totalBytes r) st seen m j c Hg Hsi Hj Hnew Hc
    (Exit.roomy_room _ _ _ _ _ Hroom)) as (tb' & st' & out & m' & Hp & Hpre & Hgood & Hnc & Htb).
  rewrite Hp in *. cbv beta iota zeta in *. eexists _, out, m', st'. split_and!; [done | done | |].
  - constructor; [done | cbn; apply lookup_insert_eq | done | done].
  - eapply Exit.roomy_step; eauto.
Qed.

Lemma AddStreaming_end r now seen st c :
  srunning r seen n st -> end_chunk c ->
  exists r', Exit.AddStreaming r now c = (r', Ok ([], true)) /\
    Exit.streams r' = delete sid (Exit.streams r) /\
    Exit.completedStreams r' = {[sid]} ∪ Exit.completedStreams r.
Proof.
  intros [Hri Hl Hopen Hg] Hc.
  rewrite (AddStreaming_open r now c st Hl Hopen (sg_open _ _ _ Hg) (proj1 Hc)).
  rewrite (processChunk_end _ _ _ _ _ Hg Hc). cbv beta iota zeta.
  unfold Exit.cleanupStream. cbn. rewrite lookup_insert_eq. cbn. eexists. split; [done|].
  split; [by rewrite delete_insert_eq | done].
Qed.

Lemma AddStreaming_completed r now c :
  sid ∈ Exit.completedStreams r -> StreamID c = sid -> Exit.AddStreaming r now c = (r, Ok ([], false)).
Proof. intros H Hs. unfold Exit.AddStreaming. by rewrite Hs, bool_decide_true. Qed.

(** The first arrival: a fresh reassembler behaves like one in which the
    stream has been created. *)
Lemma srunning_new r now :
  Exit.reasm_inv r -> Exit.streams r !! sid = None -> sid ∉ Exit.completedStreams r ->
  srunning (Exit.put_stream r sid (Exit.totalBytes r) (Exit.new_stream now)) ∅ 0 (Exit.new_stream now).
Proof.
  intros Hr Hl Hc. destruct (Exit.getOrCreateStream_inv r now sid Hr) as (Hsi & Hw & Hp & _).
  unfold Exit.getOrCreateStream in *. rewrite Hl in *. cbn [default from_option id] in *.
  constructor; [done | cbn; apply lookup_insert_eq | done |].
  constructor; cbn; try done; try lia; try set_solver.
  intros i. rewrite lookup_empty, decide_False; set_solver.
Qed.

Lemma AddStreaming_first r now c :
  Exit.streams r !! sid = None -> sid ∉ Exit.completedStreams r -> StreamID c = sid ->
  Exit.AddStreaming r now c =
  Exit.AddStreaming (Exit.put_stream r sid (Exit.totalBytes r) (Exit.new_stream now)) now c.
Proof. intros Hl Hc <-. by apply Exit.AddStreaming_fresh. Qed.

(** A reassembler into which chunks of the stream can be put, whether its
    state exists already or is created by the next arrival. *)
Definition started (r : Exit.ExitReassembler) (now : Z) : Exit.ExitReassembler :=
  match Exit.streams r !! sid with
  | Some _ => r
  | None => Exit.put_stream r sid (Exit.totalBytes r) (Exit.new_stream now)
  end.
Definition ready (r : Exit.ExitReassembler) (seen : gset Z) (m : Z) (js : list Z) : Prop :=
  forall now, exists st, srunning (started r now) seen m st /\ Exit.roomy payloads (started r now) st js.

Lemma AddStreaming_started r now c :
  sid ∉ Exit.completedStreams r -> StreamID c = sid ->
  Exit.AddStreaming r now c = Exit.AddStreaming (started r now) now c.
Proof.
  intros Hc Hs. unfold started. destruct (Exit.streams r !! sid) eqn:E; [done|].
  by apply AddStreaming_first.
Qed.

Lemma started_open r now : Exit.completedStreams (started r now) = Exit.completedStreams r.
Proof. unfold started. by destruct (Exit.streams r !! sid). Qed.

Lemma ready_open r seen m js : ready r seen m js -> sid ∉ Exit.completedStreams r.
Proof. intros H. destruct (H 0) as (st & Hr & _). rewrite <-(started_open r 0). by apply Hr. Qed.

Lemma ready_new c js :
  Exit.within (MaxReassemblyChunks c) (len js) -> Exit.within (MaxReassemblyBytes c) (Exit.arrived payloads js) ->
  ready (Exit.NewExitReassembler c) ∅ 0 js.
Proof.
  intros Hc Hb now. exists (Exit.new_stream now).
  assert (started (Exit.NewExitReassembler c) now =
    Exit.put_stream (Exit.NewExitReassembler c) sid 0 (Exit.new_stream now)) as ->.
  { unfold started. cbn. by rewrite lookup_empty. }
  split.
  - apply (srunning_new (Exit.NewExitReassembler c)); [apply Exit.new_inv | done | set_solver].
  - unfold Exit.roomy, Exit.within, Exit.nchunks in *.
    cbn. rewrite map_size_empty. split; intros; lia.
Qed.

Lemma ready_running r seen m js st :
  srunning r seen m st -> Exit.roomy payloads r st js -> ready r seen m js.
Proof. intros Hr Hroom now. exists st. unfold started. by rewrite (srun_lookup _ _ _ _ Hr). Qed.

Lemma ready_range r seen m js : ready r seen m js -> 0 <= m <= n.
Proof. intros H. destruct (H 0) as (st & Hr & _). apply (sg_range _ _ _ (srun_good _ _ _ _ Hr)). Qed.

Lemma ready_data r now seen m j js c :
  ready r seen m (j :: js) -> 0 <= j < n -> j ∉ seen -> data_chunk j c ->
  exists r' out m',
    Exit.AddStreaming r now c = (r', Ok (out, false)) /\ prefix m' = prefix m ++ out /\
    ready r' ({[j]} ∪ seen) m' js /\ m <= m' /\ Exit.NextExpected r' sid = (m', true).
Proof.
  intros H Hj Hnew Hc. pose proof (ready_open _ _ _ _ H) as Hop.
  destruct (H now) as (st & Hr & Hroom). rewrite AddStreaming_started by (done || apply Hc).
  destruct (AddStreaming_data _ now _ _ _ _ _ _ Hr Hj Hnew Hc Hroom)
    as (r' & out & m' & st' & Ha & Hp & Hr' & Hroom').
  exists r', out, m'. split_and!; [done | done | by eapply ready_running | |].
  - pose proof (srun_good _ _ _ _ Hr) as [_ Hm _ Hb _ _ _ _].
    pose proof (srun_good _ _ _ _ Hr') as [_ Hm' _ _ Ha' _ _ _].
    destruct (decide (m' < m)) as [Hlt|]; [|lia].
    exfalso. apply Ha', elem_of_union_r, Hb. lia.
  - unfold Exit.NextExpected. rewrite (srun_lookup _ _ _ _ Hr').
    by rewrite (sg_next _ _ _ (srun_good _ _ _ _ Hr')).
Qed.

Lemma ready_end r now seen js c :
  ready r seen n js -> end_chunk c ->
  exists r', Exit.AddStreaming r now c = (r', Ok ([], true)) /\
    Exit.NextExpected r' sid = (0, false) /\ sid ∈ Exit.completedStreams r'.
Proof.
  intros H Hc. pose proof (ready_open _ _ _ _ H) as Hop.
  destruct (H now) as (st & Hr & _). rewrite AddStreaming_started by (done || apply Hc).
  destruct (AddStreaming_end _ now _ _ _ Hr Hc) as (r' & Ha & Hs & Hcs).
  exists r'. split_and!; [done | | set_solver].
  unfold Exit.NextExpected. by rewrite Hs, lookup_delete_eq.
Qed.

Lemma ready_all r seen m js : ready r seen m js -> (forall i, 0 <= i < n -> i ∈ seen) -> m = n.
Proof.
  intros H Hall. destruct (H 0) as (st & Hr & _). pose proof (srun_good _ _ _ _ Hr) as Hg.
  destruct (decide (m < n)) as [Hlt|]; [|pose proof (sg_range _ _ _ Hg); lia].
  exfalso. apply (sg_at _ _ _ Hg), Hall. pose proof (sg_range _ _ _ Hg). lia.
Qed.

Lemma prefix_all : prefix n = mjoin payloads.
Proof. unfold Exit.prefix. by rewrite Nat2Z.id, take_ge. Qed.

Lemma arrived_perm js ks : js ≡ₚ ks -> Exit.arrived payloads js = Exit.arrived payloads ks.
Proof. unfold Exit.arrived. induction 1; cbn [foldr]; lia. Qed.

Lemma arrived_take k : (k <= length payloads)%nat -> Exit.arrived payloads (seqZ 0 (Z.of_nat k)) = len (prefix (Z.of_nat k)).
Proof.
  unfold Exit.arrived. induction k as [|k IH]; intros Hk; [done|].
  replace (seqZ 0 (Z.of_nat (S k))) with (seqZ 0 (Z.of_nat k) ++ [Z.of_nat k]) by (by rewrite seqZ_S).
  rewrite foldr_app. cbn [foldr]. replace (Z.of_nat (S k)) with (Z.of_nat k + 1) by lia.
  rewrite Exit.prefix_step, length_app by lia.
  assert (forall l a, foldr (fun i a => len (pl i) + a) a l = a + foldr (fun i a => len (pl i) + a) 0 l) as Hf.
  { intros l a. induction l; cbn [foldr]; lia. }
  rewrite Hf, IH by lia. lia.
Qed.

Lemma arrived_all js : js ≡ₚ seqZ 0 n -> Exit.arrived payloads js = len (mjoin payloads).
Proof. intros H. by rewrite (arrived_perm _ _ H), arrived_take, prefix_all. Qed.
End Stream.
End Streaming.
