(* ===== verification/ExitNode.v ===== *)
(** * The exit node (internal/proxy/exit.go)

    The end of a proxy circuit: circuit setup with its port check and key
    agreement, the handling of an arriving chunk (decryption, reassembly
    window, gap tracking, streaming reassembly, delivery to the target and
    retransmission requests), teardown and the periodic cleanup. Each
    operation is one step, as its locks make it; the clock, the dialer, the
    target connection, the cryptography and the order of a [range] over a
    map are parameters. Log and error texts are left out. *)
From stdpp Require Import prelude gmap strings list sorting.
From Stdlib Require Import Strings.Byte ZArith Lia.
From S2P Require Import Prelude GoBytes ProxyTypes WireChunk Circuit Reassembler KeyExchange GoNetParse PathSelect CircuitMgr Streaming.
Local Open Scope Z_scope.

Module ExitNode.
Abbreviation second := PathSelect.second.
Abbreviation CircuitState := Manager.CircuitState.
#[local] Existing Instance Manager.CircuitState_eq_dec.

Record CircuitConfig : Type := MkCircuitConfig {
  IdleTimeout : Z; KeepaliveInterval : Z; NACKTimeout : Z; OrphanTimeout : Z; MaxReassemblyWindow : Z;
  StreamReassemblyTimeout : Z; MaxNACKRetries : Z
}.
Definition DefaultCircuitConfig : CircuitConfig :=
  MkCircuitConfig (5 * 60 * second) (30 * second) (5 * second) (30 * second) 256 (60 * second) 3.

(** The name of the chunker and the debugging switch have no effect on the
    exit and are left out. *)
Record ExitConfig : Type := MkExitConfig {
  CircuitCfg : CircuitConfig; AllowedPorts : list Z; AllowAllPorts : bool; ChunkerCfg : ChunkerConfig
}.
Definition DefaultExitConfig : ExitConfig := MkExitConfig DefaultCircuitConfig [80; 443] false DefaultChunkerConfig.
Definition normalise (c : ExitConfig) : ExitConfig :=
  MkExitConfig (if IdleTimeout (CircuitCfg c) <=? 0 then DefaultCircuitConfig else CircuitCfg c)
    (AllowedPorts c) (AllowAllPorts c)
    (if MaxChunkSize (ChunkerCfg c) =? 0 then DefaultChunkerConfig else ChunkerCfg c).

Inductive SecurityEventType : Type :=
| SecEventExitPortDenied | SecEventExitCircuitSetupFail | SecEventExitDecodeFail | SecEventExitWindowExceeded
| SecEventExitCircuitNotFound | SecEventExitNACKRetriesExhausted | SecEventSSConnError
| SecEventRelayCircuitNotFound | SecEventRelayHeaderDecodeFail | SecEventRelayAtCapacity.
Record SecurityEvent : Type := MkSecEvent { ev_Type : SecurityEventType; ev_CircuitID : string; ev_TargetAddr : string }.

(** What was written to the connection to the target. *)
Record target : Type := MkTarget { t_written : list byte; t_closed : bool }.

Record pathTracker : Type := MkTracker { paths : gset Z; delays : gmap Z Z }.
Definition newPathTracker : pathTracker := MkTracker ∅ ∅.
Definition RecordPath (pathIdx : Z) (pt : pathTracker) : pathTracker := MkTracker ({[pathIdx]} ∪ paths pt) (delays pt).
Definition RecordRTT (pathIdx rtt : Z) (pt : pathTracker) : pathTracker :=
  MkTracker (paths pt) (<[pathIdx := rtt]> (delays pt)).
Definition ActivePaths (pt : pathTracker) : Z := Z.of_nat (size (paths pt)).
(** [iter] is the order of a range over the delays, [any] the first path of
    a range over the active paths. *)
Definition FastestPath (iter : gmap Z Z -> list (Z * Z)) (any : gset Z -> option Z) (pt : pathTracker) : Z :=
  let '(bestPath, _) := foldl (fun best e =>
    if (best.2 <? 0) || (e.2 <? best.2) then e else best) (-1, -1) (iter (delays pt)) in
  if 0 <=? bestPath then bestPath else default 0 (any (paths pt)).

Record exitCircuit : Type := MkCircuit {
  circuitID : string; circuitIDBytes : list byte; e2eKey : list byte; targetConn : target; targetAddr : string;
  reassembler : Exit.ExitReassembler; tracker : pathTracker;
  ackBase : Z; gapDetected : bool; gapFirstSeen : Z; gapSeqs : gset Z; nackRetryCount : gmap Z Z;
  streamTimers : gmap Z Z; lastActivity : Z; state : CircuitState; lastNACKSent : option Z; createdAt : Z
}.

(** The registry; [retired] are the circuits that were taken out of it, with
    what was left in them, and [events] the security events reported. *)
Record ExitNode : Type := MkExit {
  circuits : gmap string exitCircuit; closed : bool; retired : list exitCircuit; events : list SecurityEvent
}.
(** The configuration of a node, [normalise]d, is a parameter of its
    operations. *)
Definition NewExitNode : ExitNode := MkExit ∅ false [] [].

Definition secReport (ev : SecurityEvent) (e : ExitNode) : ExitNode :=
  MkExit (circuits e) (closed e) (retired e) (events e ++ [ev]).
Definition put_circuit (id : string) (c : exitCircuit) (e : ExitNode) : ExitNode :=
  MkExit (<[id := c]> (circuits e)) (closed e) (retired e) (events e).
Definition retire (id : string) (c : exitCircuit) (e : ExitNode) : ExitNode :=
  MkExit (delete id (circuits e)) (closed e) (retired e ++ [c]) (events e).

Inductive exit_error : Type :=
| ErrCircuitClosed
| ErrCircuitNotFound
| ErrBadCircuitID
| ErrBadPubKey
| ErrNoTarget
| ErrCircuitExists
| ErrKeys (e : Circuit.proto_error)
| ErrDecode (e : Circuit.proto_error)
| ErrNotActive (st : CircuitState)
| ErrWindow (seq base max : Z)
| ErrReassemble (e : Exit.reassembly_error)
| ErrWrite (text : string)
| ErrNACKRetriesExhausted.

(** *** Circuit identifiers *)

Definition hexCharToByte (c : byte) : Z :=
  let c := Z_of_byte c in
  if (48 <=? c) && (c <=? 57) then c - 48
  else if (97 <=? c) && (c <=? 102) then c - 97 + 10
  else if (65 <=? c) && (c <=? 70) then c - 65 + 10
  else -1.
Fixpoint hex_pairs (s : list byte) : option (list byte) :=
  match s with
  | high :: low :: s =>
      let high := hexCharToByte high in
      let low := hexCharToByte low in
      if (high <? 0) || (low <? 0) then None else
      rest ← hex_pairs s; Some (byte_of_Z (Z.lor (Z.shiftl high 4) low) :: rest)
  | _ => Some []
  end.
Definition parseCircuitIDHex (hexID : string) : option (list byte) :=
  if negb (strlen hexID =? CircuitIDSize * 2) then None else hex_pairs (bytes_of_string hexID).

(** *** Ports *)

Inductive port_error : Type :=
| InvalidTarget | InvalidPort | PortNumber (port : Z) | PortDenied (port : Z).

(** The digits of the port, as an [int]. *)
Fixpoint read_port (s : list byte) (port : Z) : option Z :=
  match s with
  | [] => Some port
  | c :: s => if is_digit c then read_port s (i64 (port * 10 + (Z_of_byte c - 48))) else None
  end.
Definition validatePort (cfg : ExitConfig) (addr : string) : option port_error :=
  if AllowAllPorts cfg then None else
  match SplitHostPort addr with
  | None => Some InvalidTarget
  | Some (_, portStr) =>
      match read_port (bytes_of_string portStr) 0 with
      | None => Some InvalidPort
      | Some port =>
          if (port <=? 0) || (65535 <? port) then Some (PortNumber port) else
          match AllowedPorts cfg with
          | [] => None
          | allowed => if existsb (Z.eqb port) allowed then None else Some (PortDenied port)
          end
      end
  end.

Section Exit.
Context (cfg : ExitConfig).
(** The text of a rejection, the dialer, and a write to a target: what is
    accepted of the data, and an error. *)
Context (reject_text : port_error -> string) (dial_text : string -> string).
Context (dialer : string -> option string).
Context (target_write : list byte -> list byte -> nat * option string).
(** SHA-256, X25519 with its base point, and the opening of the AEAD. *)
Context (sha256 : list byte -> list byte) (x25519 : list byte -> list byte -> option (list byte)) (basepoint : list byte).
Context (open : list byte -> list byte -> list byte -> list byte -> option (list byte)).

Definition new_circuit (now : Z) (id : string) (setup : Circuit.CircuitSetup) (key : list byte) : exitCircuit :=
  MkCircuit id (Circuit.cs_CircuitID setup) key (MkTarget [] false) (Circuit.cs_TargetAddr setup)
    (Exit.NewExitReassembler (ChunkerCfg cfg)) newPathTracker 0 false 0 ∅ ∅ ∅ now Manager.CircuitActive None now.

Definition ack (setup : Circuit.CircuitSetup) (pub : list byte) (accepted : bool) (reason : string) : Circuit.CircuitAck :=
  {| Circuit.ca_CircuitID := Circuit.cs_CircuitID setup; Circuit.ca_ECDHPubKey := pub;
     Circuit.ca_Accepted := accepted; Circuit.ca_Reason := reason |}.

(** A setup that passed the checks and waits for its target. *)
Record pending_setup : Type := MkPending {
  ps_id : string; ps_setup : Circuit.CircuitSetup; ps_pub : list byte; ps_key : list byte
}.
(** The handler up to the dial: refused, rejected, or about to dial. *)
Definition prepare_setup (e : ExitNode) (rnd : option (list byte)) (setup : Circuit.CircuitSetup)
    : ExitNode * (pending_setup + result exit_error Circuit.CircuitAck) :=
  if closed e then (e, inr (Err ErrCircuitClosed)) else
  if negb (len (Circuit.cs_CircuitID setup) =? CircuitIDSize) then (e, inr (Err ErrBadCircuitID)) else
  if negb (len (Circuit.cs_ECDHPubKey setup) =? 32) then (e, inr (Err ErrBadPubKey)) else
  if String.eqb (Circuit.cs_TargetAddr setup) "" then (e, inr (Err ErrNoTarget)) else
  let id := Kx.EncodeToString (Circuit.cs_CircuitID setup) in
  if bool_decide (is_Some (circuits e !! id)) then (e, inr (Err ErrCircuitExists)) else
  match validatePort cfg (Circuit.cs_TargetAddr setup) with
  | Some err =>
      (secReport (MkSecEvent SecEventExitPortDenied id (Circuit.cs_TargetAddr setup)) e,
       inr (Ok (ack setup [] false (reject_text err))))
  | None =>
      match Circuit.GenerateECDHKeyPair x25519 basepoint rnd with
      | Err err => (e, inr (Err (ErrKeys err)))
      | Ok (priv, pub) =>
          match Circuit.DeriveSharedKey sha256 x25519 priv (Circuit.cs_ECDHPubKey setup) with
          | Err err => (e, inr (Err (ErrKeys err)))
          | Ok key => (e, inl (MkPending id setup pub key))
          end
      end
  end.

(** The second section under the lock. It tests for a shutdown only, and not
    again for a circuit of the identifier. *)
Definition register_circuit (now : Z) (p : pending_setup) (e : ExitNode)
    : ExitNode * result exit_error Circuit.CircuitAck :=
  if closed e then (e, Err ErrCircuitClosed)
  else (put_circuit (ps_id p) (new_circuit now (ps_id p) (ps_setup p) (ps_key p)) e, Ok (ack (ps_setup p) (ps_pub p) true "")).

(** No lock is held while the target is dialled: [others] is what other
    handlers do to the node in that time. *)
Definition HandleCircuitSetup (others : ExitNode -> ExitNode) (e : ExitNode) (now : Z) (rnd : option (list byte))
    (setup : Circuit.CircuitSetup) : ExitNode * result exit_error Circuit.CircuitAck :=
  match prepare_setup e rnd setup with
  | (e, inr r) => (e, r)
  | (e, inl p) =>
      let e := others e in
      match dialer (Circuit.cs_TargetAddr setup) with
      | Some text =>
          (secReport (MkSecEvent SecEventExitCircuitSetupFail (ps_id p) (Circuit.cs_TargetAddr setup)) e,
           Ok (ack setup [] false (dial_text text)))
      | None => register_circuit now p e
      end
  end.

(** *** A chunk arrives *)

Definition note_arrival (now pathIdx sid : Z) (c : exitCircuit) : exitCircuit :=
  MkCircuit (circuitID c) (circuitIDBytes c) (e2eKey c) (targetConn c) (targetAddr c) (reassembler c)
    (RecordPath pathIdx (tracker c)) (ackBase c) (gapDetected c) (gapFirstSeen c) (gapSeqs c) (nackRetryCount c)
    (match streamTimers c !! sid with Some _ => streamTimers c | None => <[sid := now]> (streamTimers c) end)
    now (state c) (lastNACKSent c) (createdAt c).
Definition with_gaps (base : Z) (detected : bool) (firstSeen : Z) (seqs : gset Z) (c : exitCircuit) : exitCircuit :=
  MkCircuit (circuitID c) (circuitIDBytes c) (e2eKey c) (targetConn c) (targetAddr c) (reassembler c)
    (tracker c) base detected firstSeen seqs (nackRetryCount c) (streamTimers c) (lastActivity c) (state c)
    (lastNACKSent c) (createdAt c).
Definition with_reassembler (r : Exit.ExitReassembler) (c : exitCircuit) : exitCircuit :=
  MkCircuit (circuitID c) (circuitIDBytes c) (e2eKey c) (targetConn c) (targetAddr c) r
    (tracker c) (ackBase c) (gapDetected c) (gapFirstSeen c) (gapSeqs c) (nackRetryCount c) (streamTimers c)
    (lastActivity c) (state c) (lastNACKSent c) (createdAt c).
Definition with_target (t : target) (c : exitCircuit) : exitCircuit :=
  MkCircuit (circuitID c) (circuitIDBytes c) (e2eKey c) t (targetAddr c) (reassembler c)
    (tracker c) (ackBase c) (gapDetected c) (gapFirstSeen c) (gapSeqs c) (nackRetryCount c) (streamTimers c)
    (lastActivity c) (state c) (lastNACKSent c) (createdAt c).
Definition with_timers (ts : gmap Z Z) (c : exitCircuit) : exitCircuit :=
  MkCircuit (circuitID c) (circuitIDBytes c) (e2eKey c) (targetConn c) (targetAddr c) (reassembler c)
    (tracker c) (ackBase c) (gapDetected c) (gapFirstSeen c) (gapSeqs c) (nackRetryCount c) ts
    (lastActivity c) (state c) (lastNACKSent c) (createdAt c).
Definition with_nacks (counts : gmap Z Z) (sent : option Z) (c : exitCircuit) : exitCircuit :=
  MkCircuit (circuitID c) (circuitIDBytes c) (e2eKey c) (targetConn c) (targetAddr c) (reassembler c)
    (tracker c) (ackBase c) (gapDetected c) (gapFirstSeen c) (gapSeqs c) counts (streamTimers c)
    (lastActivity c) (state c) sent (createdAt c).

Definition window : Z :=
  if MaxReassemblyWindow (CircuitCfg cfg) <=? 0 then 256 else MaxReassemblyWindow (CircuitCfg cfg).
(** The first sequence number beyond the window, an unsigned 32-bit sum. *)
Definition window_end (c : exitCircuit) : Z := u32 (ackBase c + u32 window).

(** The sequence numbers between the base and the chunk count as missing. *)
Definition track_gaps (now seq : Z) (c : exitCircuit) : exitCircuit :=
  let between := list_to_set (C := gset Z) (seqZ (ackBase c) (seq - ackBase c)) in
  let new := bool_decide (between ∖ gapSeqs c <> ∅) in
  with_gaps (ackBase c) (gapDetected c || new) (if new && negb (gapDetected c) then now else gapFirstSeen c)
    (between ∪ gapSeqs c) c.

(** What follows the delivery: the base moves on and gaps below it go. *)
Definition advance (sid seq : Z) (done : bool) (c : exitCircuit) : exitCircuit :=
  let base :=
    match Exit.NextExpected (reassembler c) sid with
    | (nextExp, true) => if ackBase c <? nextExp then nextExp else ackBase c
    | (_, false) => if done then u32 (seq + 1) else ackBase c
    end in
  let c := if done then with_timers (delete sid (streamTimers c)) c else c in
  let seqs := filter (fun s => ~ s < base) (gapSeqs c) in
  with_gaps base (if bool_decide (seqs = ∅) then false else gapDetected c) (gapFirstSeen c) seqs c.

Definition maybeGenerateNACK (now sid : Z) (c : exitCircuit) : exitCircuit * result exit_error (option Circuit.NACKMsg) :=
  if negb (gapDetected c) || bool_decide (gapSeqs c = ∅) then (c, Ok None) else
  let nackTimeout := PathSelect.or_default (5 * second) (NACKTimeout (CircuitCfg cfg)) in
  let maxRetries := PathSelect.or_default 3 (MaxNACKRetries (CircuitCfg cfg)) in
  if now - gapFirstSeen c <? nackTimeout then (c, Ok None) else
  if match lastNACKSent c with Some t => now - t <? nackTimeout | None => false end then (c, Ok None) else
  let count s := default 0 (nackRetryCount c !! s) in
  let missing := merge_sort Z.le (elements (filter (fun s => ~ maxRetries <= count s) (gapSeqs c))) in
  let exhausted := filter (fun s => maxRetries <= count s) (gapSeqs c) in
  if (len missing =? 0) && negb (bool_decide (exhausted = ∅)) then (c, Err ErrNACKRetriesExhausted) else
  let counts := foldr (fun s m => <[s := count s + 1]> m) (nackRetryCount c) missing in
  match parseCircuitIDHex (circuitID c) with
  | None => (with_nacks counts (lastNACKSent c) c, Ok None)
  | Some id =>
      (with_nacks counts (Some now) c,
       Ok (Some {| Circuit.n_CircuitID := id; Circuit.n_StreamID := sid; Circuit.n_MissingSeqs := missing |}))
  end.

(** The reassembler and the target take a chunk that passed the window. *)
Definition deliver (now : Z) (chunk : Chunk) (c : exitCircuit) : exitCircuit * result exit_error bool :=
  let '(r, out) := Exit.AddStreaming (reassembler c) now chunk in
  let c := with_reassembler r c in
  match out with
  | Err err => (c, Err (ErrReassemble err))
  | Ok (delivered, done) =>
      if len delivered =? 0 then (c, Ok done) else
      let '(n, err) := target_write (t_written (targetConn c)) delivered in
      let c := with_target (MkTarget (t_written (targetConn c) ++ take n delivered) (t_closed (targetConn c))) c in
      match err with
      | Some text => (c, Err (ErrWrite text))
      | None => (c, Ok done)
      end
  end.

Definition circuit_chunk (now pathIdx : Z) (chunk : Chunk) (c : exitCircuit)
    : exitCircuit * result exit_error (option Circuit.NACKMsg) :=
  if bool_decide (state c <> Manager.CircuitActive) then (c, Err (ErrNotActive (state c))) else
  let c := note_arrival now pathIdx (StreamID chunk) c in
  if window_end c <=? Sequence chunk then (c, Err (ErrWindow (Sequence chunk) (ackBase c) window)) else
  let c := if ackBase c <? Sequence chunk then track_gaps now (Sequence chunk) c else c in
  match deliver now chunk c with
  | (c, Err err) => (c, Err err)
  | (c, Ok done) => maybeGenerateNACK now (StreamID chunk) (advance (StreamID chunk) (Sequence chunk) done c)
  end.

Definition chunk_event (r : result exit_error (option Circuit.NACKMsg)) : option SecurityEventType :=
  match r with
  | Err (ErrWindow _ _ _) => Some SecEventExitWindowExceeded
  | Err ErrNACKRetriesExhausted => Some SecEventExitNACKRetriesExhausted
  | _ => None
  end.

Definition HandleWireChunk (e : ExitNode) (now : Z) (id : string) (wc : Wire.WireChunk) (pathIdx : Z)
    : ExitNode * result exit_error (option Circuit.NACKMsg) :=
  if closed e then (e, Err ErrCircuitClosed) else
  match circuits e !! id with
  | None => (secReport (MkSecEvent SecEventExitCircuitNotFound id "") e, Err ErrCircuitNotFound)
  | Some c =>
      match Circuit.DecodeChunk open wc (e2eKey c) (circuitIDBytes c) with
      | Err err => (secReport (MkSecEvent SecEventExitDecodeFail id "") e, Err (ErrDecode err))
      | Ok chunk =>
          let '(c, r) := circuit_chunk now pathIdx chunk c in
          let e := put_circuit id c e in
          (match chunk_event r with Some t => secReport (MkSecEvent t id "") e | None => e end, r)
      end
  end.

(** *** Teardown, keepalive and cleanup *)

Definition close_target (c : exitCircuit) : exitCircuit :=
  with_target (MkTarget (t_written (targetConn c)) true) c.
Definition finish (key : list byte) (c : exitCircuit) : exitCircuit :=
  MkCircuit (circuitID c) (circuitIDBytes c) key (targetConn c) (targetAddr c) (reassembler c)
    (tracker c) (ackBase c) (gapDetected c) (gapFirstSeen c) (gapSeqs c) (nackRetryCount c) (streamTimers c)
    (lastActivity c) Manager.CircuitClosed (lastNACKSent c) (createdAt c).

Definition HandleTeardown (e : ExitNode) (td : Circuit.TeardownMsg) : ExitNode * option exit_error :=
  let id := Kx.EncodeToString (Circuit.ct_CircuitID td) in
  match circuits e !! id with
  | None => (e, Some ErrCircuitNotFound)
  | Some c => (retire id (finish [] (close_target c)) e, None)
  end.

Definition HandleKeepalive (e : ExitNode) (now : Z) (id : string) (msg : Circuit.KeepaliveMsg) (pathIdx : Z)
    : ExitNode * option exit_error :=
  match circuits e !! id with
  | None => (e, Some ErrCircuitNotFound)
  | Some c =>
      (put_circuit id
         (MkCircuit (circuitID c) (circuitIDBytes c) (e2eKey c) (targetConn c) (targetAddr c) (reassembler c)
            (RecordRTT pathIdx (now - Circuit.k_Timestamp msg) (tracker c)) (ackBase c) (gapDetected c) (gapFirstSeen c)
            (gapSeqs c) (nackRetryCount c) (streamTimers c) now (state c) (lastNACKSent c) (createdAt c)) e, None)
  end.

Definition CircuitCount (e : ExitNode) : Z := Z.of_nat (size (circuits e)).
Definition GetCircuitInfo (e : ExitNode) (id : string) : result exit_error (string * CircuitState * Z) :=
  match circuits e !! id with
  | None => Err ErrCircuitNotFound
  | Some c => Ok (targetAddr c, state c, ActivePaths (tracker c))
  end.
Definition ClosestFastestPath (iter : gmap Z Z -> list (Z * Z)) (any : gset Z -> option Z) (e : ExitNode) (id : string) : Z :=
  match circuits e !! id with None => 0 | Some c => FastestPath iter any (tracker c) end.

(** [order] is the order of a range over the registry. *)
Definition Close (order : gmap string exitCircuit -> list (string * exitCircuit)) (e : ExitNode) : ExitNode :=
  MkExit ∅ true (retired e ++ ((fun kc => finish (e2eKey kc.2) (close_target kc.2)) <$> order (circuits e))) (events e).

Definition purge_stale (now streamTimeout : Z) (c : exitCircuit) : exitCircuit :=
  foldl (fun c sid =>
      let c := if Exit.IsCompleted (reassembler c) sid then c
               else with_reassembler (Exit.PurgeStream (reassembler c) sid) c in
      with_timers (delete sid (streamTimers c)) c)
    c (filter (fun kt => streamTimeout < now - kt.2) (map_to_list (streamTimers c))).*1.
Definition cleanup_step (now orphanTimeout streamTimeout : Z) (en : ExitNode * Z) (kc : string * exitCircuit)
    : ExitNode * Z :=
  let '(e, removed) := en in
  let '(id, c) := kc in
  if orphanTimeout <? now - lastActivity c
  then (retire id (finish (e2eKey c) (close_target c)) e, removed + 1)
  else (put_circuit id (purge_stale now streamTimeout c) e, removed).
Definition CleanupOrphans (order : gmap string exitCircuit -> list (string * exitCircuit)) (now : Z) (e : ExitNode)
    : ExitNode * Z :=
  foldl (cleanup_step now (PathSelect.or_default (30 * second) (OrphanTimeout (CircuitCfg cfg)))
           (PathSelect.or_default (60 * second) (StreamReassemblyTimeout (CircuitCfg cfg))))
    (e, 0) (order (circuits e)).
(** The interval of [StartOrphanCleanup]. *)
Definition cleanup_interval : Z :=
  let orphan := PathSelect.or_default (30 * second) (OrphanTimeout (CircuitCfg cfg)) in
  let stream := PathSelect.or_default (60 * second) (StreamReassemblyTimeout (CircuitCfg cfg)) in
  Z.max (5 * second) (Z.quot (Z.min orphan stream) 2).
End Exit.

(** ** A stream reaches the target *)

Section Delivery.
Context (cfg : ExitConfig) (target_write : list byte -> list byte -> nat * option string).
Context (open : list byte -> list byte -> list byte -> list byte -> option (list byte)).
Context (sid : Z) (payloads : list (list byte)).
Abbreviation n := (len payloads).
Abbreviation prefix := (Exit.prefix payloads).
Context (Hn : n <= window cfg) (Hw : window cfg < 2 ^ 31).
(** The target accepts everything. *)
Context (Haccept : forall written data, target_write written data = (length data, None)).

(** A call that took the chunk; what it may report is that the
    retransmission requests of the circuit are used up. *)
Definition taken (r : result exit_error (option Circuit.NACKMsg)) : Prop :=
  match r with Ok _ | Err ErrNACKRetriesExhausted => True | Err _ => False end.

Lemma window_pos : 0 < window cfg.
Proof. unfold window. destruct (Z.leb_spec (MaxReassemblyWindow (CircuitCfg cfg)) 0); lia. Qed.

Lemma u32_n : n < 2 ^ 32.
Proof. lia. Qed.

(** [m] chunks are delivered, [seen] received, [js] are still to come. *)
Record receiving (c : exitCircuit) (seen : gset Z) (m : Z) (js : list Z) : Prop := {
  rc_active : state c = Manager.CircuitActive;
  rc_base : ackBase c = m;
  rc_target : t_written (targetConn c) = prefix m;
  rc_ready : Streaming.ready sid payloads (reassembler c) seen m js
}.
(** The end marker was handled. *)
Record received (c : exitCircuit) : Prop := {
  rd_active : state c = Manager.CircuitActive;
  rd_base : ackBase c = n + 1;
  rd_target : t_written (targetConn c) = mjoin payloads;
  rd_next : Exit.NextExpected (reassembler c) sid = (0, false);
  rd_done : sid ∈ Exit.completedStreams (reassembler c)
}.

(** What [maybeGenerateNACK] leaves alone. *)
Lemma maybeGenerateNACK_frame now s c :
  let '(c', r) := maybeGenerateNACK cfg now s c in
  taken r /\ state c' = state c /\ ackBase c' = ackBase c /\ targetConn c' = targetConn c /\
  reassembler c' = reassembler c /\ e2eKey c' = e2eKey c /\ circuitIDBytes c' = circuitIDBytes c.
Proof. unfold maybeGenerateNACK. repeat case_goal; cbn; auto 10. Qed.

Lemma in_window c seq : 0 <= ackBase c -> ackBase c <= n + 1 -> 0 <= seq < ackBase c + window cfg ->
  (window_end cfg c <=? seq) = false.
Proof.
  intros H0 H1 H2. unfold window_end. pose proof window_pos.
  rewrite (u32_small (window cfg)) by lia. rewrite u32_small by lia. apply Z.leb_gt. lia.
Qed.

Definition same_keys (c c' : exitCircuit) : Prop :=
  e2eKey c' = e2eKey c /\ circuitIDBytes c' = circuitIDBytes c.

Lemma deliver_none now chunk c r' done :
  Exit.AddStreaming (reassembler c) now chunk = (r', Ok ([], done)) ->
  deliver target_write now chunk c = (with_reassembler r' c, Ok done).
Proof. intros Ha. unfold deliver. by rewrite Ha. Qed.

Lemma deliver_data now chunk c r' out m m' :
  t_written (targetConn c) = prefix m -> prefix m' = prefix m ++ out ->
  Exit.AddStreaming (reassembler c) now chunk = (r', Ok (out, false)) ->
  exists c', deliver target_write now chunk c = (c', Ok false) /\ reassembler c' = r' /\
    t_written (targetConn c') = prefix m' /\ state c' = state c /\ ackBase c' = ackBase c /\
    same_keys c c'.
Proof.
  intros Ht Hp Ha. unfold deliver. rewrite Ha. rewrite Haccept.
  destruct (Z.eqb_spec (len out) 0) as [E|E].
  - apply list_len_0 in E as ->. rewrite app_nil_r in Hp.
    eexists. split; [done|]. cbn. rewrite Hp. done.
  - eexists. split; [done|]. cbn. rewrite firstn_all, Ht, Hp. done.
Qed.

(** One chunk of the stream that was not received before. *)
Lemma circuit_chunk_data now pathIdx chunk c seen m j js :
  receiving c seen m (j :: js) -> 0 <= j < n -> j ∉ seen ->
  Streaming.data_chunk sid payloads j chunk ->
  exists c' r m', circuit_chunk cfg target_write now pathIdx chunk c = (c', r) /\ taken r /\
    same_keys c c' /\ receiving c' ({[j]} ∪ seen) m' js.
Proof.
  intros [Hs Hb Ht Hr] Hj Hnew Hc. pose proof Hc as (Hsid & Hseq & _).
  pose proof (Streaming.ready_range _ _ _ _ _ _ Hr) as Hm.
  destruct (Streaming.ready_data sid payloads u32_n (reassembler c) now _ _ _ _ _ Hr Hj Hnew Hc)
    as (r' & out & m' & Ha & Hp & Hr' & Hmm & Hne).
  unfold circuit_chunk. rewrite Hs, bool_decide_false by (by intros []).
  rewrite in_window by (cbn; rewrite ?Hseq, ?Hb; pose proof window_pos; lia).
  match goal with |- context [deliver target_write now chunk ?c] => set (c1 := c) end.
  assert (t_written (targetConn c1) = prefix m /\ reassembler c1 = reassembler c /\
    state c1 = Manager.CircuitActive /\ ackBase c1 = m /\ same_keys c c1) as (Ht1 & Hr1 & Hs1 & Hb1 & Hk1).
  { unfold c1, same_keys. case_goal; cbn; split_and!; auto. }
  rewrite <-Hr1 in Ha.
  destruct (deliver_data now chunk c1 r' out m m' Ht1 Hp Ha) as (c2 & Hd & Hr2 & Ht2 & Hs2 & Hb2 & Hk2).
  rewrite Hd. pose proof (maybeGenerateNACK_frame now (StreamID chunk)
    (advance (StreamID chunk) (Sequence chunk) false c2)) as Hf.
  destruct (maybeGenerateNACK _ _ _ _) as [c3 r]. destruct Hf as (Htk & Hs3 & Hb3 & Ht3 & Hr3 & Hk3 & Hi3).
  exists c3, r, m'. split_and!; [done | done | |].
  - unfold same_keys in *. cbn in Hk3, Hi3. intuition congruence.
  - constructor.
    + rewrite Hs3. cbn. congruence.
    + rewrite Hb3. cbn. rewrite Hr2, Hsid, Hne, Hb2, Hb1. destruct (Z.ltb_spec m m'); lia.
    + rewrite Ht3. exact Ht2.
    + rewrite Hr3. cbn. by rewrite Hr2.
Qed.

Lemma circuit_chunk_end now pathIdx chunk c seen js :
  receiving c seen n js -> Streaming.end_chunk sid payloads chunk ->
  exists c' r, circuit_chunk cfg target_write now pathIdx chunk c = (c', r) /\ taken r /\
    same_keys c c' /\ received c'.
Proof.
  intros [Hs Hb Ht Hr] Hc. pose proof Hc as (Hsid & Hseq & _).
  destruct (Streaming.ready_end sid payloads u32_n (reassembler c) now _ _ _ Hr Hc) as (r' & Ha & Hne & Hd).
  unfold circuit_chunk. rewrite Hs, bool_decide_false by (by intros []).
  rewrite in_window by (cbn; rewrite ?Hseq, ?Hb; pose proof window_pos; lia).
  cbn [ackBase note_arrival]. rewrite Hb, Hseq, Z.ltb_irrefl.
  rewrite (deliver_none _ _ _ r' true) by done.
  match goal with |- context [maybeGenerateNACK cfg now ?s ?c] =>
    pose proof (maybeGenerateNACK_frame now s c) as Hf; destruct (maybeGenerateNACK cfg now s c) as [c3 r] end.
  destruct Hf as (Htk & Hs3 & Hb3 & Ht3 & Hr3 & Hk3 & Hi3).
  exists c3, r. split_and!; [done | done | by split |].
  constructor.
  - by rewrite Hs3.
  - rewrite Hb3. cbn. rewrite Hsid, Hne. apply u32_small. lia.
  - rewrite Ht3. cbn. by rewrite Ht, Streaming.prefix_all.
  - by rewrite Hr3.
  - by rewrite Hr3.
Qed.

(** Further copies of the end marker change nothing. *)
Lemma circuit_chunk_after now pathIdx chunk c :
  received c -> Streaming.end_chunk sid payloads chunk ->
  exists c' r, circuit_chunk cfg target_write now pathIdx chunk c = (c', r) /\ taken r /\
    same_keys c c' /\ received c'.
Proof.
  intros [Hs Hb Ht Hne Hd] Hc. pose proof Hc as (Hsid & Hseq & _).
  unfold circuit_chunk. rewrite Hs, bool_decide_false by (by intros []).
  rewrite in_window by (cbn; rewrite ?Hseq, ?Hb; pose proof window_pos; lia).
  cbn [ackBase note_arrival]. rewrite Hb, Hseq, (proj2 (Z.ltb_ge _ _)) by lia.
  rewrite (deliver_none _ _ _ (reassembler c) false) by by apply (Streaming.AddStreaming_completed sid).
  match goal with |- context [maybeGenerateNACK cfg now ?s ?c] =>
    pose proof (maybeGenerateNACK_frame now s c) as Hf; destruct (maybeGenerateNACK cfg now s c) as [c3 r] end.
  destruct Hf as (Htk & Hs3 & Hb3 & Ht3 & Hr3 & Hk3 & Hi3).
  exists c3, r. split_and!; [done | done | by split |].
  constructor; [by rewrite Hs3 | | by rewrite Ht3 | by rewrite Hr3 | by rewrite Hr3].
  rewrite Hb3. cbn. by rewrite Hsid, Hne, Hb.
Qed.

(** *** The node *)

(** What arrives for a circuit: the time, the path and the wire chunk. *)
Definition arrival : Type := Z * Z * Wire.WireChunk.
Fixpoint handle_all (e : ExitNode) (id : string) (l : list arrival)
    : ExitNode * list (result exit_error (option Circuit.NACKMsg)) :=
  match l with
  | [] => (e, [])
  | (now, pathIdx, wc) :: l =>
      let '(e, r) := HandleWireChunk cfg target_write open e now id wc pathIdx in
      let '(e, rs) := handle_all e id l in (e, r :: rs)
  end.
(** The wire chunk opens to a chunk with a property. *)
Definition carries (key cid : list byte) (P : Chunk -> Prop) (a : arrival) : Prop :=
  exists chunk, Circuit.DecodeChunk open a.2 key cid = Ok chunk /\ P chunk.

(** The circuit is registered and in a state with a property. *)
Definition live (e : ExitNode) (id : string) (key cid : list byte) (P : exitCircuit -> Prop) : Prop :=
  closed e = false /\ exists c, circuits e !! id = Some c /\ e2eKey c = key /\ circuitIDBytes c = cid /\ P c.

Lemma HandleWireChunk_live e id key cid (P Q : exitCircuit -> Prop) (R : Chunk -> Prop) now pathIdx wc :
  live e id key cid P -> carries key cid R (now, pathIdx, wc) ->
  (forall c chunk, P c -> R chunk ->
     exists c' r, circuit_chunk cfg target_write now pathIdx chunk c = (c', r) /\ taken r /\ same_keys c c' /\ Q c') ->
  exists e' r, HandleWireChunk cfg target_write open e now id wc pathIdx = (e', r) /\ taken r /\ live e' id key cid Q.
Proof.
  intros (Hcl & c & Hl & <- & <- & HP) (chunk & Hd & HR) Hstep. cbn in Hd.
  destruct (Hstep c chunk HP HR) as (c' & r & Hcc & Htk & [Hk Hi] & HQ).
  unfold HandleWireChunk. rewrite Hcl, Hl, Hd, Hcc. eexists _, r. split_and!; [done | done |].
  split; [by destruct (chunk_event r)|]. exists c'. split_and!; [| done..].
  destruct (chunk_event r); cbn; apply lookup_insert_eq.
Qed.

Lemma handle_all_data e id key cid datas : forall seen m ixs,
  live e id key cid (fun c => receiving c seen m ixs) ->
  NoDup ixs -> (forall i, i ∈ ixs -> 0 <= i < n /\ i ∉ seen) ->
  Forall2 (fun a i => carries key cid (Streaming.data_chunk sid payloads i) a) datas ixs ->
  exists e' rs m', handle_all e id datas = (e', rs) /\ Forall taken rs /\
    live e' id key cid (fun c => receiving c (list_to_set ixs ∪ seen) m' []).
Proof.
  revert e. induction datas as [|[[now p] wc] datas IH]; intros e seen m ixs Hl Hnd Hin Hf.
  { apply Forall2_nil_inv_l in Hf as ->. exists e, [], m. split_and!; [done..|].
    destruct Hl as (Hcl & c & H). split; [done|]. exists c.
    cbn [list_to_set]. by replace (∅ ∪ seen) with seen by set_solver. }
  apply Forall2_cons_inv_l in Hf as (i & ixs' & Ha & Hf & ->). apply NoDup_cons in Hnd as [Hni Hnd].
  destruct (Hin i) as [Hi Hs]; [by left|].
  destruct (HandleWireChunk_live e id key cid _ (fun c => exists m', receiving c ({[i]} ∪ seen) m' ixs')
    _ now p wc Hl Ha) as (e1 & r & He & Htk & Hcl & c & Hc & Hk & Hid & m1 & Hr).
  { intros c chunk Hc Hch. destruct (circuit_chunk_data now p chunk c seen m i ixs' Hc Hi Hs Hch)
      as (c' & r & m' & ? & ? & ? & ?). eauto 10. }
  destruct (IH e1 ({[i]} ∪ seen) m1 ixs') as (e' & rs & m' & Hh & Hrs & Hl'); [| done | | done |].
  - split; eauto 10.
  - intros k Hk'. split; [apply Hin; by right|].
    intros [->%elem_of_singleton|Hks]%elem_of_union; [done|]. by apply (Hin k); [right|].
  - exists e', (r :: rs), m'. cbn [handle_all]. rewrite He, Hh. split_and!; [done | by constructor |].
    cbn [list_to_set]. by replace ({[i]} ∪ list_to_set ixs' ∪ seen) with (list_to_set ixs' ∪ ({[i]} ∪ seen))
      by set_solver.
Qed.

Lemma handle_all_after e id key cid ends :
  live e id key cid received -> Forall (carries key cid (Streaming.end_chunk sid payloads)) ends ->
  exists e' rs, handle_all e id ends = (e', rs) /\ Forall taken rs /\ live e' id key cid received.
Proof.
  revert e. induction ends as [|[[now p] wc] ends IH]; intros e Hl Hf; [by exists e, []|].
  apply Forall_cons in Hf as [Ha Hf].
  destruct (HandleWireChunk_live e id key cid _ _ _ now p wc Hl Ha (fun c chunk => circuit_chunk_after now p chunk c))
    as (e1 & r & He & Htk & Hl1).
  destruct (IH e1 Hl1 Hf) as (e' & rs & Hh & Hrs & Hl').
  exists e', (r :: rs). cbn [handle_all]. rewrite He, Hh. eauto.
Qed.

Lemma handle_all_app e id l l' :
  handle_all e id (l ++ l') =
  let '(e, rs) := handle_all e id l in let '(e, rs') := handle_all e id l' in (e, rs ++ rs').
Proof.
  revert e. induction l as [|[[now p] wc] l IH]; intros e; cbn.
  { by destruct (handle_all e id l'). }
  destruct (HandleWireChunk _ _ _ _ _ _ _ _) as [e1 r]. rewrite IH.
  destruct (handle_all e1 id l) as [e2 rs]. by destruct (handle_all e2 id l') as [e3 rs'].
Qed.

Lemma new_circuit_receiving now id setup key ixs :
  ixs ≡ₚ seqZ 0 n ->
  Exit.within (MaxReassemblyChunks (ChunkerCfg cfg)) n ->
  Exit.within (MaxReassemblyBytes (ChunkerCfg cfg)) (len (mjoin payloads)) ->
  receiving (new_circuit cfg now id setup key) ∅ 0 ixs.
Proof.
  intros Hp Hc Hb. constructor; [done | done | done |]. apply Streaming.ready_new; [apply u32_n | |].
  - by rewrite (Permutation_length Hp), length_seqZ, Nat2Z.id.
  - by rewrite Streaming.arrived_all.
Qed.

(** The data chunks of a stream in any order, then its end marker once or
    more: the target has received the stream. *)
Lemma stream_delivered e id now0 setup key ixs datas ends :
  closed e = false -> circuits e !! id = Some (new_circuit cfg now0 id setup key) ->
  ixs ≡ₚ seqZ 0 n ->
  Exit.within (MaxReassemblyChunks (ChunkerCfg cfg)) n ->
  Exit.within (MaxReassemblyBytes (ChunkerCfg cfg)) (len (mjoin payloads)) ->
  let cid := Circuit.cs_CircuitID setup in
  Forall2 (fun a i => carries key cid (Streaming.data_chunk sid payloads i) a) datas ixs ->
  ends <> [] -> Forall (carries key cid (Streaming.end_chunk sid payloads)) ends ->
  exists e' rs, handle_all e id (datas ++ ends) = (e', rs) /\ Forall taken rs /\
    live e' id key cid received.
Proof.
  intros Hcl Hl Hp Hc Hb cid Hd Hne He.
  assert (live e id key cid (fun c => receiving c ∅ 0 ixs)) as Hlive.
  { split; [done|]. eexists. split; [done|]. split_and!; [done.. |]. by apply new_circuit_receiving. }
  destruct (handle_all_data e id key cid datas _ _ _ Hlive) as (e1 & rs1 & m & Hh1 & Hr1 & Hl1); [| | done |].
  { rewrite Hp. apply NoDup_seqZ. }
  { intros i. rewrite Hp, elem_of_seqZ. split; [lia | set_solver]. }
  destruct ends as [|[[now p] wc] ends]; [done|]. apply Forall_cons in He as [Ha He].
  destruct (HandleWireChunk_live e1 id key cid _ received _ now p wc Hl1 Ha)
    as (e2 & r & He2 & Htk & Hl2).
  { intros c chunk Hrc Hch. eapply circuit_chunk_end; [|done].
    replace m with n in Hrc; [done|]. symmetry. eapply Streaming.ready_all; [apply Hrc|].
    intros i Hi. apply elem_of_union_l, elem_of_list_to_set. rewrite Hp, elem_of_seqZ. lia. }
  destruct (handle_all_after e2 id key cid ends Hl2 He) as (e3 & rs3 & Hh3 & Hr3 & Hl3).
  exists e3, (rs1 ++ r :: rs3). rewrite handle_all_app, Hh1. cbn [handle_all]. rewrite He2, Hh3.
  split_and!; [done | | done]. apply Forall_app. auto.
Qed.
End Delivery.

(** ** Circuit identifiers and ports *)

Lemma hex_pairs_encoded (l : list byte) :
  hex_pairs (l ≫= fun b => [Kx.hexDigit (Z_of_byte b / 16); Kx.hexDigit (Z_of_byte b mod 16)]) = Some l.
Proof.
  induction l as [|x l IH]; [done|]. cbn [mbind list_bind app hex_pairs]. rewrite IH.
  destruct x; reflexivity.
Qed.

Lemma encoded_length l : strlen (Kx.EncodeToString l) = 2 * len l.
Proof.
  unfold strlen, Kx.EncodeToString. rewrite bytes_of_string_of_bytes.
  induction l as [|x l IH]; [done|]. cbn [mbind list_bind app length] in *. lia.
Qed.

(** The printed form of an identifier parses to the identifier, and no
    identifier of another length has a printed form that parses. *)
Theorem circuit_id_roundtrip id :
  parseCircuitIDHex (Kx.EncodeToString id) = if len id =? CircuitIDSize then Some id else None.
Proof.
  unfold parseCircuitIDHex. rewrite encoded_length. unfold CircuitIDSize.
  destruct (Z.eqb_spec (len id) 16); destruct (Z.eqb_spec (2 * len id) (16 * 2)); cbn [negb]; try lia; [|done].
  unfold Kx.EncodeToString. rewrite bytes_of_string_of_bytes. apply hex_pairs_encoded.
Qed.

(** The number a string of digits denotes. *)
Definition port_value (s : list byte) : Z := foldl (fun p c => p * 10 + (Z_of_byte c - 48)) 0 s.

Lemma i64_step a d : i64 (i64 a * 10 + d) = i64 (a * 10 + d).
Proof.
  unfold i64. f_equal.
  replace (_ * 10 + d + 2 ^ 63) with (((a + 2 ^ 63) `mod` 2 ^ 64) * 10 + (d - 9 * 2 ^ 63)) by lia.
  rewrite <-Z.add_mod_idemp_l, Z.mul_mod_idemp_l, Z.add_mod_idemp_l by lia. f_equal. lia.
Qed.

Lemma read_port_value s a :
  read_port s (i64 a) =
  if forallb is_digit s then Some (i64 (foldl (fun p c => p * 10 + (Z_of_byte c - 48)) a s)) else None.
Proof.
  revert a. induction s as [|c s IH]; intros a; cbn; [done|].
  destruct (is_digit c); cbn; [|done]. by rewrite i64_step, IH.
Qed.

(** A target passes the port check exactly when every port is allowed, or its
    port is written in digits, lies between 1 and 65535 as a 64-bit integer
    and is on the list, an empty list allowing every port. *)
Theorem validatePort_iff cfg addr :
  validatePort cfg addr = None <->
  AllowAllPorts cfg = true \/
  exists host portStr, SplitHostPort addr = Some (host, portStr) /\
    Forall (fun c => is_digit c = true) (bytes_of_string portStr) /\
    let port := i64 (port_value (bytes_of_string portStr)) in
    1 <= port <= 65535 /\ (AllowedPorts cfg = [] \/ port ∈ AllowedPorts cfg).
Proof.
  unfold validatePort. destruct (AllowAllPorts cfg); [naive_solver|].
  destruct (SplitHostPort addr) as [[host portStr]|]; [|naive_solver].
  change 0 with (i64 0) at 1. rewrite read_port_value. fold (port_value (bytes_of_string portStr)).
  set (port := i64 (port_value _)).
  assert (forallb is_digit (bytes_of_string portStr) = true <->
          Forall (fun c => is_digit c = true) (bytes_of_string portStr)) as Hd
    by (by rewrite forallb_forall, List.Forall_forall).
  destruct (forallb _ _).
  2:{ split; [done|]. intros [?|(h & p & [= <- <-] & Hf & _)]; [done|]. by apply Hd in Hf. }
  assert (existsb (Z.eqb port) (AllowedPorts cfg) = true <-> port ∈ AllowedPorts cfg) as He.
  { rewrite existsb_exists. setoid_rewrite Z.eqb_eq. setoid_rewrite <-list_elem_of_In. naive_solver. }
  destruct (Z.leb_spec port 0); [|destruct (Z.ltb_spec 65535 port)]; cbn [orb].
  1,2: split; [done|]; intros [?|(h & p & [= <- <-] & _ & Hp & _)]; [done|]; fold port in Hp; lia.
  destruct (AllowedPorts cfg) as [|q l] eqn:El.
  - split; [|done]. intros _. right. exists host, portStr. do 2 (split; [done || by apply Hd|]).
    fold port. split; [lia | by left].
  - destruct (existsb _ _) eqn:Ee.
    + split; [|done]. intros _. right. exists host, portStr. do 2 (split; [done || by apply Hd|]).
      fold port. split; [lia | right; by apply He].
    + split; [done|]. intros [?|(h & p & [= <- <-] & _ & _ & [?|Hin])]; [done..|]. by apply He in Hin.
Qed.

(** The sum wraps, so that a port beyond the range is read as 80. *)
Example port_wraps : validatePort DefaultExitConfig "10.0.0.1:18446744073709551696" = None.
Proof. by vm_compute. Qed.

(** ** Circuit setup, teardown and cleanup *)

Section Lifecycle.
Context (cfg : ExitConfig).
Context (reject_text : port_error -> string) (dial_text : string -> string).
Context (dialer : string -> option string).
Context (sha256 : list byte -> list byte) (x25519 : list byte -> list byte -> option (list byte)) (basepoint : list byte).
Abbreviation setup_step := (HandleCircuitSetup cfg reject_text dial_text dialer sha256 x25519 basepoint).

(** What a setup must satisfy when it arrives. *)
Record well_formed (e : ExitNode) (setup : Circuit.CircuitSetup) : Prop := {
  wf_open : closed e = false; wf_id : len (Circuit.cs_CircuitID setup) = CircuitIDSize;
  wf_pub : len (Circuit.cs_ECDHPubKey setup) = 32; wf_target : Circuit.cs_TargetAddr setup <> ""%string
}.
(** A key agreed on with the sender of the setup, and the public key for it. *)
Definition agreed (rnd : option (list byte)) (setup : Circuit.CircuitSetup) (pub key : list byte) : Prop :=
  exists priv, Circuit.GenerateECDHKeyPair x25519 basepoint rnd = Ok (priv, pub) /\
    Circuit.DeriveSharedKey sha256 x25519 priv (Circuit.cs_ECDHPubKey setup) = Ok key.
Definition ready (e : ExitNode) (rnd : option (list byte)) (setup : Circuit.CircuitSetup) (pub key : list byte) : Prop :=
  well_formed e setup /\ circuits e !! Kx.EncodeToString (Circuit.cs_CircuitID setup) = None /\
  validatePort cfg (Circuit.cs_TargetAddr setup) = None /\ agreed rnd setup pub key.

Definition accepted (r : result exit_error Circuit.CircuitAck) : Prop :=
  exists a, r = Ok a /\ Circuit.ca_Accepted a = true.
Lemma not_accepted_Err err : ~ accepted (Err err).
Proof. by intros (a & ? & _). Qed.
Lemma not_accepted_rejection setup t : ~ accepted (Ok (ack setup [] false t)).
Proof. by intros (a & [= <-] & ?). Qed.

(** The handler reaches the dial exactly when the setup is ready; otherwise
    no circuit changes and nothing is accepted. *)
Lemma prepare_setup_cases e rnd setup :
  match prepare_setup cfg reject_text sha256 x25519 basepoint e rnd setup with
  | (e', inl p) => e' = e /\ p = MkPending (Kx.EncodeToString (Circuit.cs_CircuitID setup)) setup (ps_pub p) (ps_key p) /\
      ready e rnd setup (ps_pub p) (ps_key p)
  | (e', inr r) => circuits e' = circuits e /\ closed e' = closed e /\ ~ accepted r /\
      (forall pub key, ~ ready e rnd setup pub key) /\
      (well_formed e setup -> is_Some (circuits e !! Kx.EncodeToString (Circuit.cs_CircuitID setup)) -> r = Err ErrCircuitExists)
  end.
Proof.
  pose proof not_accepted_Err. pose proof not_accepted_rejection.
  unfold prepare_setup.
  destruct (closed e) eqn:Ec; [split_and!; [done..| | ]; [intros ?? [[] _] | intros []]; congruence|].
  destruct (Z.eqb_spec (len (Circuit.cs_CircuitID setup)) CircuitIDSize); cbn [negb];
    [|split_and!; [done..| | ]; [intros ?? [[] _] | intros []]; congruence].
  destruct (Z.eqb_spec (len (Circuit.cs_ECDHPubKey setup)) 32); cbn [negb];
    [|split_and!; [done..| | ]; [intros ?? [[] _] | intros []]; congruence].
  destruct (String.eqb_spec (Circuit.cs_TargetAddr setup) "");
    [split_and!; [done..| | ]; [intros ?? [[] _] | intros []]; congruence|].
  set (id := Kx.EncodeToString _). case_bool_decide as Hex.
  { split_and!; [done..| | done]. intros ?? (_ & Hn & _). fold id in Hn. rewrite Hn in Hex. by destruct Hex. }
  destruct (validatePort cfg _) as [pe|] eqn:Ev.
  { split_and!; [done..| | done]. intros ?? (_ & _ & Hv & _). congruence. }
  destruct (Circuit.GenerateECDHKeyPair x25519 basepoint rnd) as [[priv pub]|err] eqn:Eg.
  2:{ split_and!; [done..| | done]. intros ?? (_ & _ & _ & priv & Hg & _). congruence. }
  destruct (Circuit.DeriveSharedKey _ _ _ _) as [key|err] eqn:Ek.
  - split_and!; [done | done|]. split; [done|]. split; [by apply eq_None_not_Some|]. split; [done|]. by exists priv.
  - split_and!; [done..| | done]. intros ?? (_ & _ & _ & priv' & Hg & Hk). congruence.
Qed.

Lemma ready_unique e rnd setup pub key pub' key' :
  ready e rnd setup pub key -> ready e rnd setup pub' key' -> pub' = pub /\ key' = key.
Proof. intros (_ & _ & _ & priv & H1 & H2) (_ & _ & _ & priv' & H1' & H2'). split; congruence. Qed.

Lemma HandleCircuitSetup_cases others e now rnd setup :
  let id := Kx.EncodeToString (Circuit.cs_CircuitID setup) in
  let '(e', r) := setup_step others e now rnd setup in
  (accepted r -> exists pub key, ready e rnd setup pub key /\ dialer (Circuit.cs_TargetAddr setup) = None /\
     closed (others e) = false /\ r = Ok (ack setup pub true "") /\
     e' = put_circuit id (new_circuit cfg now id setup key) (others e)) /\
  (forall pub key, ready e rnd setup pub key ->
     match dialer (Circuit.cs_TargetAddr setup) with
     | Some text => r = Ok (ack setup [] false (dial_text text)) /\ circuits e' = circuits (others e)
     | None => if closed (others e) then r = Err ErrCircuitClosed /\ e' = others e
               else r = Ok (ack setup pub true "") /\ e' = put_circuit id (new_circuit cfg now id setup key) (others e)
     end) /\
  ((forall pub key, ~ ready e rnd setup pub key) -> circuits e' = circuits e) /\
  (well_formed e setup -> is_Some (circuits e !! id) -> r = Err ErrCircuitExists).
Proof.
  cbv zeta. unfold HandleCircuitSetup. pose proof (prepare_setup_cases e rnd setup) as Hp.
  destruct (prepare_setup _ _ _ _ _ _ _ _) as [e0 [p|r]].
  - destruct Hp as (-> & -> & Hr). cbn [ps_pub ps_key] in *.
    assert (well_formed e setup -> is_Some (circuits e !! Kx.EncodeToString (Circuit.cs_CircuitID setup)) -> False) as Hno.
    { intros _ [c Hc]. destruct Hr as (_ & Hn & _). congruence. }
    destruct (dialer _) as [text|]; cbn [register_circuit ps_id ps_setup ps_pub ps_key]; [|unfold register_circuit; cbn; destruct (closed (others e)) eqn:Ec].
    + split_and!; [by intros ?%not_accepted_rejection | done | by intros []%(fun H => H (ps_pub p) (ps_key p)) | by intros ? []%Hno].
    + split_and!; [by intros ?%not_accepted_Err | done | by intros []%(fun H => H (ps_pub p) (ps_key p)) | by intros ? []%Hno].
    + split_and!; [intros _; by exists (ps_pub p), (ps_key p) | | by intros []%(fun H => H (ps_pub p) (ps_key p)) | by intros ? []%Hno].
      intros pub key Hr'. by destruct (ready_unique _ _ _ _ _ _ _ Hr Hr') as [-> ->].
  - destruct Hp as (Hc & _ & Ha & Hn & Hd). split_and!; [by intros ?%Ha | by intros ?? []%Hn | done | done].
Qed.

(** C20. Setup of a circuit on the exit, whatever other handlers do to the node
    while the target is dialled. A setup is accepted exactly when it is well
    formed for an open node, its identifier is new, its port is allowed, a key
    can be agreed on, the target answers, and the node is still open after
    that; then the circuit is registered under its printed identifier with
    that key and an empty reassembler, all else being as the others left it,
    and the answer carries the public key that belongs to the key. A target
    that does not answer gives a rejection with the reason, a known
    identifier an error, a node closed meanwhile the error for that; none of
    these adds or changes a circuit. *)
Theorem HandleCircuitSetup_spec others e now rnd setup :
  let id := Kx.EncodeToString (Circuit.cs_CircuitID setup) in
  let '(e', r) := setup_step others e now rnd setup in
  (accepted r <-> (exists pub key, ready e rnd setup pub key) /\ dialer (Circuit.cs_TargetAddr setup) = None /\
                  closed (others e) = false) /\
  (forall pub key, ready e rnd setup pub key ->
     match dialer (Circuit.cs_TargetAddr setup) with
     | Some text => r = Ok (ack setup [] false (dial_text text)) /\ circuits e' = circuits (others e)
     | None => if closed (others e) then r = Err ErrCircuitClosed /\ e' = others e
               else r = Ok (ack setup pub true "") /\ e' = put_circuit id (new_circuit cfg now id setup key) (others e)
     end) /\
  ((forall pub key, ~ ready e rnd setup pub key) -> circuits e' = circuits e) /\
  (well_formed e setup -> is_Some (circuits e !! id) -> r = Err ErrCircuitExists).
Proof.
  cbv zeta. pose proof (HandleCircuitSetup_cases others e now rnd setup) as H. cbv zeta in H.
  destruct (setup_step _ _ _ _ _) as [e' r]. destruct H as (Ha & Hr & Hn & Hd). split_and!; [|done..]. split.
  - intros (pub & key & ? & ? & ? & _)%Ha. split_and!; [by exists pub, key | done..].
  - intros ((pub & key & Hk) & Hdial & Hc). specialize (Hr _ _ Hk). rewrite Hdial, Hc in Hr.
    destruct Hr as [-> _]. by eexists.
Qed.

End Lifecycle.

Section Teardown.
Context (cfg : ExitConfig) (target_write : list byte -> list byte -> nat * option string).
Context (open : list byte -> list byte -> list byte -> list byte -> option (list byte)).

(** A teardown takes the circuit out of the registry, closes its target and
    erases its key; nothing that was written to the target changes. Every
    later chunk for the identifier is refused and changes no circuit, until a
    new setup. *)
Theorem HandleTeardown_final e td :
  let id := Kx.EncodeToString (Circuit.ct_CircuitID td) in
  let '(e', r) := HandleTeardown e td in
  circuits e' = delete id (circuits e) /\ closed e' = closed e /\
  match circuits e !! id with
  | None => r = Some ErrCircuitNotFound /\ retired e' = retired e
  | Some c =>
      r = None /\ exists c', retired e' = retired e ++ [c'] /\ e2eKey c' = [] /\
        t_closed (targetConn c') = true /\ t_written (targetConn c') = t_written (targetConn c) /\
        state c' = Manager.CircuitClosed
  end /\
  forall now wc pathIdx,
    let '(e'', r) := HandleWireChunk cfg target_write open e' now id wc pathIdx in
    circuits e'' = circuits e' /\ retired e'' = retired e' /\
    r = Err (if closed e then ErrCircuitClosed else ErrCircuitNotFound).
Proof.
  intros id. unfold HandleTeardown. fold id. destruct (circuits e !! id) as [c|] eqn:E; cbn.
  - split_and!; [done | done | done | by eexists |].
    intros now wc p. unfold HandleWireChunk. cbn. destruct (closed e); [done|].
    by rewrite lookup_delete_eq.
  - rewrite (delete_id _ _ E). split_and!; try done.
    intros now wc p. unfold HandleWireChunk. destruct (closed e); [done|]. by rewrite E.
Qed.

End Teardown.

Section Sweep.
Context (cfg : ExitConfig).
Abbreviation orphan_limit := (PathSelect.or_default (30 * PathSelect.second) (OrphanTimeout (CircuitCfg cfg))).
Abbreviation stream_limit := (PathSelect.or_default (60 * PathSelect.second) (StreamReassemblyTimeout (CircuitCfg cfg))).

(** What a sweep does to one circuit. *)
Definition swept (now : Z) (c : exitCircuit) : option exitCircuit :=
  if orphan_limit <? now - lastActivity c then None else Some (purge_stale now stream_limit c).

Lemma sweep_fold now l : forall e k,
  NoDup l.*1 -> (forall id c, (id, c) ∈ l -> circuits e !! id = Some c) ->
  let '(e', k') := foldl (cleanup_step now orphan_limit stream_limit) (e, k) l in
  (forall id, circuits e' !! id =
     match (list_to_map l : gmap string exitCircuit) !! id with Some c => swept now c | None => circuits e !! id end) /\
  closed e' = closed e /\ events e' = events e /\
  k' = k + len (filter (fun kc => swept now kc.2 = None) l).
Proof.
  induction l as [|[id c] l IH]; intros e k Hnd Hl; cbn [foldl].
  { split_and!; [done.. | cbn; lia]. }
  apply NoDup_cons in Hnd as [Hni Hnd].
  set (ek := cleanup_step _ _ _ _ _).
  assert (ek = (match swept now c with
                | None => (retire id (finish (e2eKey c) (close_target c)) e, k + 1)
                | Some c' => (put_circuit id c' e, k) end)) as ->.
  { unfold ek, cleanup_step, swept. by case_goal. }
  assert (forall id' c', (id', c') ∈ l -> id' <> id) as Hne.
  { intros id' c' Hin ->. apply Hni. by apply (list_elem_of_fmap_2 fst _ _ Hin). }
  rewrite filter_cons. cbn [snd list_to_map foldr].
  destruct (swept now c) as [c1|] eqn:Es.
  - specialize (IH (put_circuit id c1 e) k Hnd). destruct (foldl _ _ _) as [e' k'].
    destruct IH as (H1 & H2 & H3 & H4).
    { intros id' c' Hin. cbn. rewrite lookup_insert_ne by (intros <-; by eapply Hne). apply Hl. by right. }
    rewrite decide_False by done. split_and!; [|done..]. intros id'. rewrite H1. cbn.
    destruct (decide (id' = id)) as [->|Hd].
    + rewrite !lookup_insert_eq, not_elem_of_list_to_map_1 by done. by rewrite Es.
    + by rewrite !lookup_insert_ne by done.
  - specialize (IH (retire id (finish (e2eKey c) (close_target c)) e) (k + 1) Hnd).
    destruct (foldl _ _ _) as [e' k']. destruct IH as (H1 & H2 & H3 & H4).
    { intros id' c' Hin. cbn. rewrite lookup_delete_ne by (intros <-; by eapply Hne). apply Hl. by right. }
    rewrite decide_True by done. split_and!; [|done.. | cbn [length]; lia]. intros id'. rewrite H1. cbn.
    destruct (decide (id' = id)) as [->|Hd].
    + rewrite lookup_insert_eq, lookup_delete_eq, not_elem_of_list_to_map_1 by done. by rewrite Es.
    + by rewrite lookup_insert_ne, lookup_delete_ne by done.
Qed.

(** The periodic sweep, whatever the order in which the registry is visited:
    exactly the circuits without activity for longer than the orphan timeout
    leave the registry and are counted, and the others keep everything but
    the streams that outlived the reassembly timeout. *)
Theorem CleanupOrphans_spec order now e :
  (forall m, order m ≡ₚ map_to_list m) ->
  let '(e', removed) := CleanupOrphans cfg order now e in
  (forall id, circuits e' !! id = circuits e !! id ≫= swept now) /\
  removed = Z.of_nat (size (filter (fun kc => swept now kc.2 = None) (circuits e))) /\
  closed e' = closed e /\ events e' = events e.
Proof.
  intros Hord. unfold CleanupOrphans. pose proof (Hord (circuits e)) as Hp.
  assert (NoDup (order (circuits e)).*1) as Hnd by (rewrite Hp; apply NoDup_fst_map_to_list).
  pose proof (sweep_fold now (order (circuits e)) e 0 Hnd) as H.
  destruct (foldl _ _ _) as [e' k]. destruct H as (H1 & H2 & H3 & H4).
  { intros id c Hin. rewrite Hp in Hin. by apply elem_of_map_to_list. }
  split_and!; [| | done | done].
  - intros id. rewrite H1. rewrite (list_to_map_proper _ _ Hnd Hp), list_to_map_to_list.
    by destruct (circuits e !! id).
  - rewrite H4, Z.add_0_l, <-length_map_to_list. f_equal. apply Permutation_length.
    rewrite Hp. apply NoDup_Permutation.
    + apply NoDup_filter, NoDup_map_to_list.
    + apply NoDup_map_to_list.
    + intros [id c]. rewrite list_elem_of_filter, !elem_of_map_to_list, map_lookup_filter_Some. naive_solver.
Qed.
End Sweep.

Lemma CleanupOrphans_spec_witness :
  let setup := {| Circuit.cs_CircuitID := [x01]; Circuit.cs_ECDHPubKey := []; Circuit.cs_TargetAddr := "" |} in
  let c := new_circuit DefaultExitConfig 0 "01" setup [] in
  let d := new_circuit DefaultExitConfig (60 * second) "02" setup [] in
  let e := MkExit (<["01" := c]> (<["02" := d]> ∅)) false [] [] in
  let '(e', removed) := CleanupOrphans DefaultExitConfig map_to_list (61 * second) e in
  (forall id, circuits e' !! id = circuits e !! id ≫= swept DefaultExitConfig (61 * second)) /\ removed = 1.
Proof.
  intros setup c d e. pose proof (CleanupOrphans_spec DefaultExitConfig map_to_list (61 * second) e) as H.
  destruct (CleanupOrphans _ _ _ _) as [e' removed]. destruct (H ltac:(reflexivity)) as (H1 & H2 & _).
  split; [exact H1|]. rewrite H2. vm_compute. reflexivity.
Defined.

(** ** Retransmission requests *)

Section Nacks.
Context (cfg : ExitConfig) (target_write : list byte -> list byte -> nat * option string).
Abbreviation max_retries := (PathSelect.or_default 3 (MaxNACKRetries (CircuitCfg cfg))).

Definition retries (c : exitCircuit) (s : Z) : Z := default 0 (nackRetryCount c !! s).

(** How often a result asks for a sequence number. *)
Definition listed (s : Z) (r : result exit_error (option Circuit.NACKMsg)) : Z :=
  match r with
  | Ok (Some nack) => if decide (s ∈ Circuit.n_MissingSeqs nack) then 1 else 0
  | _ => 0
  end.

Lemma bump_lookup (f : Z -> Z) l (m : gmap Z Z) s :
  foldr (fun s m => <[s := f s]> m) m l !! s = if decide (s ∈ l) then Some (f s) else m !! s.
Proof.
  induction l as [|x l IH]; cbn [foldr]; [by rewrite decide_False by apply not_elem_of_nil|].
  destruct (decide (s = x)) as [->|Hne].
  - rewrite lookup_insert_eq, decide_True; [done | by left].
  - rewrite lookup_insert_ne, IH by done. destruct (decide (s ∈ l)), (decide (s ∈ x :: l)); try done; set_solver.
Qed.

Lemma maybeGenerateNACK_counts now sid c s :
  retries c s <= max_retries ->
  let '(c', r) := maybeGenerateNACK cfg now sid c in
  retries c s + listed s r <= retries c' s <= max_retries.
Proof.
  intros Hle. unfold maybeGenerateNACK.
  destruct (_ || _); [cbn; lia|]. destruct (_ <? _); [cbn; lia|].
  destruct (match lastNACKSent c with Some _ => _ | None => _ end); [cbn; lia|].
  set (missing := merge_sort _ _). destruct (_ && _); [cbn; lia|].
  set (counts := foldr _ _ _).
  assert (default 0 (counts !! s) = retries c s + (if decide (s ∈ missing) then 1 else 0)) as Hc.
  { unfold counts. rewrite (bump_lookup (fun s => retries c s + 1)). case_decide; cbn; unfold retries; lia. }
  assert (s ∈ missing -> retries c s < max_retries) as Hm.
  { unfold missing. rewrite merge_sort_Permutation, elem_of_elements, elem_of_filter. unfold retries. lia. }
  assert (forall sent, retries (with_nacks counts sent c) s = retries c s + (if decide (s ∈ missing) then 1 else 0))
    as Hw by (intros; exact Hc).
  destruct (parseCircuitIDHex (circuitID c)) as [id|]; rewrite Hw; cbn [listed Circuit.n_MissingSeqs];
    case_decide as Hin; try specialize (Hm Hin); lia.
Qed.

Lemma circuit_chunk_counts now pathIdx chunk c s :
  retries c s <= max_retries ->
  let '(c', r) := circuit_chunk cfg target_write now pathIdx chunk c in
  retries c s + listed s r <= retries c' s <= max_retries.
Proof.
  intros Hle. unfold circuit_chunk. destruct (bool_decide _); [cbn; lia|].
  destruct (_ <=? _); [cbn; change (retries (note_arrival now pathIdx (StreamID chunk) c) s) with (retries c s); lia|].
  match goal with |- context [deliver target_write now chunk ?c] => set (c1 := c) end.
  assert (nackRetryCount c1 = nackRetryCount c) as H1 by (unfold c1; by case_goal).
  pose proof (eq_refl (deliver target_write now chunk c1)) as Hd. revert Hd.
  destruct (deliver target_write now chunk c1) as [c2 [done|err]] eqn:Ed; intros _.
  all: assert (nackRetryCount c2 = nackRetryCount c) as H2
    by (rewrite <-H1; clear -Ed; unfold deliver in Ed; repeat case_hyp Ed; by simplify_eq).
  - pose proof (maybeGenerateNACK_counts now (StreamID chunk)
      (advance (StreamID chunk) (Sequence chunk) done c2) s) as Hn.
    assert (retries (advance (StreamID chunk) (Sequence chunk) done c2) s = retries c s) as Hr.
    { unfold retries. rewrite <-H2. unfold advance. by destruct done. }
    rewrite Hr in Hn. by apply Hn.
  - cbn. unfold retries in *. rewrite H2. lia.
Qed.

(** A run of chunks on one circuit. *)
Fixpoint run_chunks (c : exitCircuit) (l : list (Z * Z * Chunk))
    : exitCircuit * list (result exit_error (option Circuit.NACKMsg)) :=
  match l with
  | [] => (c, [])
  | (now, pathIdx, chunk) :: l =>
      let '(c, r) := circuit_chunk cfg target_write now pathIdx chunk c in
      let '(c, rs) := run_chunks c l in (c, r :: rs)
  end.

Lemma run_chunks_counts l : forall c s,
  retries c s <= max_retries ->
  let '(c', rs) := run_chunks c l in
  retries c s + foldr (fun r n => listed s r + n) 0 rs <= retries c' s <= max_retries.
Proof.
  induction l as [|[[now p] chunk] l IH]; intros c s Hle; cbn [run_chunks]; [cbn; lia|].
  pose proof (circuit_chunk_counts now p chunk c s Hle) as H1.
  destruct (circuit_chunk _ _ _ _ _ _) as [c1 r]. specialize (IH c1 s (proj2 H1)).
  destruct (run_chunks c1 l) as [c2 rs]. cbn [foldr]. lia.
Qed.

(** However long a circuit lives and whatever arrives on it, a sequence
    number is asked for at most [MaxNACKRetries] times. *)
Theorem nack_retries_bounded now id setup key l s :
  let '(_, rs) := run_chunks (new_circuit cfg now id setup key) l in
  foldr (fun r n => listed s r + n) 0 rs <= max_retries.
Proof.
  assert (retries (new_circuit cfg now id setup key) s = 0) as H0 by done.
  pose proof (run_chunks_counts l (new_circuit cfg now id setup key) s) as H.
  destruct (run_chunks _ _) as [c' rs]. rewrite H0 in H.
  assert (0 <= max_retries) by (unfold PathSelect.or_default; case_goal; to_prop; lia).
  specialize (H ltac:(done)). lia.
Qed.
End Nacks.

(** ** What goes wrong *)

Section Defects.
Abbreviation all_written := (fun written data => (length data, None) : nat * option string).
Let setup : Circuit.CircuitSetup :=
  {| Circuit.cs_CircuitID := replicate 16 x01; Circuit.cs_ECDHPubKey := []; Circuit.cs_TargetAddr := "t" |}.
Let id : string := Kx.EncodeToString (replicate 16 x01).
Let c : exitCircuit := new_circuit DefaultExitConfig 0 id setup (replicate 32 x07).
Let data (seq : Z) : Chunk :=
  {| StreamID := 0; Sequence := seq; Total := 0; Type_ := ChunkData; Payload := [x61]; PaddingLen := 0 |}.

(** Two setups of one identifier are both accepted when the second runs
    while the first dials its target; the circuit of the second is replaced,
    and its target stays open with nobody to close it. *)
Theorem concurrent_setups_both_accepted :
  let setup := {| Circuit.cs_CircuitID := replicate 16 x01; Circuit.cs_ECDHPubKey := replicate 32 x09;
                  Circuit.cs_TargetAddr := "10.0.0.1:80" |} in
  let run others now := HandleCircuitSetup DefaultExitConfig (fun _ => ""%string) (fun t => t) (fun _ => None)
    Circuit.toy_sha256 Circuit.toy_x25519 (replicate 32 x01) others NewExitNode now (Some (replicate 32 x05)) setup in
  let second := run (fun e => e) 1 in
  let first := run (fun _ => second.1) 2 in
  match first.2, second.2 with Ok a, Ok b => Circuit.ca_Accepted a && Circuit.ca_Accepted b | _, _ => false end = true /\
  createdAt <$> (circuits first.1 !! id) = Some 2 /\ createdAt <$> (circuits second.1 !! id) = Some 1 /\ retired first.1 = [].
Proof. vm_compute. done. Qed.

(** Every number between the base and an arriving chunk counts as missing,
    also when that chunk is in the buffer: after chunks 1, 2 and 3 of a
    stream whose chunk 0 was lost the exit asks for all of 0, 1 and 2, while
    the reassembler misses 0 only. *)
Theorem NACK_names_received_chunks :
  let '(c', rs) := run_chunks DefaultExitConfig all_written c
    [(0, 0, data 1); (1, 1, data 2); (6 * second, 0, data 3)] in
  rs = [Ok None; Ok None;
        Ok (Some {| Circuit.n_CircuitID := replicate 16 x01; Circuit.n_StreamID := 0; Circuit.n_MissingSeqs := [0; 1; 2] |})] /\
  Exit.MissingSequences (reassembler c') 0 = [0].
Proof. vm_compute. done. Qed.

(** The sweep and the shutdown close the target of a circuit but leave its
    key in memory, which a teardown erases. *)
Theorem sweep_and_close_keep_keys :
  let e := MkExit (<[id := c]> ∅) false [] [] in
  e2eKey <$> retired (CleanupOrphans DefaultExitConfig map_to_list (31 * second) e).1 = [replicate 32 x07] /\
  e2eKey <$> retired (Close map_to_list e) = [replicate 32 x07] /\
  e2eKey <$> retired (HandleTeardown e {| Circuit.ct_CircuitID := replicate 16 x01; Circuit.ct_Reason := "" |}).1 = [[]].
Proof. vm_compute. done. Qed.
End Defects.

End ExitNode.
