(* ===== verification/Relay.v ===== *)
(** * The relay (internal/proxy/relay.go)

    The middle hop of a proxy circuit: its table of circuits, the forwarding
    of one chunk, the loop over an inbound connection and the statistics. The
    key stream of the header cipher is a parameter; random samples and times
    are arguments. *)
From stdpp Require Import prelude gmap strings list.
From Stdlib Require Import Strings.Byte ZArith Lia.
From S2P Require Import Prelude GoBytes ProxyTypes WireChunk Circuit ExitNode.
Local Open Scope Z_scope.

Module Relay.
Abbreviation SecurityEvent := ExitNode.SecurityEvent.
Definition millisecond : Z := 1000000.
Definition DefaultJitterMin : Z := 5 * millisecond.
Definition DefaultJitterMax : Z := 50 * millisecond.

Record RelayConfig : Type := MkRelayConfig {
  JitterMin : Z; JitterMax : Z; DisableJitter : bool; MaxCircuits : Z; MaxQueueDepth : Z
}.
Definition DefaultRelayConfig : RelayConfig := MkRelayConfig DefaultJitterMin DefaultJitterMax false 1024 256.

(** [nextRelayKey] may be nil. *)
Record circuitEntry : Type := MkEntry { relayKey : list byte; nextHop : string; nextRelayKey : option (list byte) }.

(** [events] are the security events reported. *)
Record Relay : Type := MkRelay { cfg : RelayConfig; circuits : gmap string circuitEntry; events : list SecurityEvent }.

Definition normalise (c : RelayConfig) : RelayConfig :=
  let jmin := if JitterMin c <=? 0 then DefaultJitterMin else JitterMin c in
  let jmax := if JitterMax c <=? 0 then DefaultJitterMax else JitterMax c in
  MkRelayConfig jmin (if jmax <? jmin then jmin else jmax) (DisableJitter c)
    (if MaxCircuits c <=? 0 then 1024 else MaxCircuits c) (if MaxQueueDepth c <=? 0 then 256 else MaxQueueDepth c).
Definition NewRelay (c : RelayConfig) : Relay := MkRelay (normalise c) ∅ [].

Inductive relay_error : Type :=
| BadRelayKey (n : Z)
| BadNextRelayKey (n : Z)
| AtCapacity (n : Z)
| AlreadyRegistered
| NotFound
| BadHeader (n : Z)
| HeaderDecode (e : Circuit.proto_error)
| ReadChunk (e : Wire.wire_error)
| WriteChunk (e : Wire.wire_error).

Definition secReport (ev : SecurityEvent) (r : Relay) : Relay := MkRelay (cfg r) (circuits r) (events r ++ [ev]).
Definition event (t : ExitNode.SecurityEventType) (id : string) : SecurityEvent := ExitNode.MkSecEvent t id "".

Definition AddCircuit (r : Relay) (id : string) (key : list byte) (next : option (list byte)) : Relay * option relay_error :=
  if negb (len key =? KeySize) then (r, Some (BadRelayKey (len key))) else
  let bad := match next with Some k => negb (len k =? KeySize) | None => false end in
  if bad then (r, Some (BadNextRelayKey (len (default [] next)))) else
  let count := Z.of_nat (size (circuits r)) in
  if MaxCircuits (cfg r) <=? count
  then (secReport (event ExitNode.SecEventRelayAtCapacity id) r, Some (AtCapacity count)) else
  if bool_decide (is_Some (circuits r !! id)) then (r, Some AlreadyRegistered) else
  (MkRelay (cfg r) (<[id := MkEntry key "" next]> (circuits r)) (events r), None).
Definition RemoveCircuit (r : Relay) (id : string) : Relay := MkRelay (cfg r) (delete id (circuits r)) (events r).
Definition CircuitCount (r : Relay) : Z := Z.of_nat (size (circuits r)).

(** [sample] is the number [rand.Int] drew below the range, or its failure. *)
Definition randomJitter (c : RelayConfig) (sample : option Z) : Z :=
  let minMs := Z.quot (JitterMin c) millisecond in
  let maxMs := Z.quot (JitterMax c) millisecond in
  if maxMs <=? minMs then JitterMin c else
  match sample with
  | None => JitterMin c
  | Some n => JitterMin c + n * millisecond
  end.

Section Forward.
Context (keystream : list byte -> nat -> list byte).

(** The last component is the time slept before the chunk is handed on. *)
Definition ForwardChunk (r : Relay) (sample : option Z) (id : string) (wc : Wire.WireChunk)
    : Relay * result relay_error (string * Wire.WireChunk) * Z :=
  match circuits r !! id with
  | None => (secReport (event ExitNode.SecEventRelayCircuitNotFound id) r, Err NotFound, 0)
  | Some entry =>
      if negb (len (Wire.Header wc) =? ForwardingHeaderSize) then (r, Err (BadHeader (len (Wire.Header wc))), 0) else
      match Circuit.DecodeForwardingHeader keystream (Wire.Header wc) (relayKey entry) with
      | Err e => (secReport (event ExitNode.SecEventRelayHeaderDecodeFail id) r, Err (HeaderDecode e), 0)
      | Ok hop =>
          let hop := string_of_bytes hop in
          let slept := if DisableJitter (cfg r) then 0
                       else let jitter := randomJitter (cfg r) sample in if 0 <? jitter then jitter else 0 in
          let forwarded := {| Wire.Header := Wire.Header wc; Wire.Nonce := Wire.Nonce wc;
                              Wire.Ciphertext := Wire.Ciphertext wc |} in
          (MkRelay (cfg r) (<[id := MkEntry (relayKey entry) hop (nextRelayKey entry)]> (circuits r)) (events r),
           Ok (hop, forwarded), slept)
      end
  end.

(** *** The loop over a connection

    What an inbound connection gives: the bytes that arrive before a read
    deadline passes, then the next interval, and so on; after the last one
    the connection is at its end. A connection without deadlines is one
    interval. [Cancelled] is a check of the context that finds it done. *)
Inductive interval : Type := Bytes (b : list byte) | Cancelled.
Inductive read_outcome : Type :=
| ReadOk (wc : Wire.WireChunk) (rest : list interval)
| ReadFailed (e : Wire.wire_error)
| ReadCancelled.

(** A read that meets the deadline starts over in the next interval. *)
Fixpoint readWireChunkCtx (inbound : list interval) : read_outcome :=
  match inbound with
  | [] => ReadFailed (Wire.WireIO EOF)
  | Cancelled :: _ => ReadCancelled
  | Bytes b :: inbound =>
      match Wire.ReadWireChunk b with
      | Ok (wc, b) => ReadOk wc (Bytes b :: inbound)
      | Err (Wire.WireIO e) => match inbound with [] => ReadFailed (Wire.WireIO e) | _ => readWireChunkCtx inbound end
      | Err e => ReadFailed e
      end
  end.

Inductive stream_end : Type := StreamClosed | StreamCancelled | StreamError (e : relay_error) | OutOfFuel.

(** [fuel] bounds the chunks; [samples] are the draws for the jitter. *)
Fixpoint forward_loop (fuel : nat) (r : Relay) (samples : nat -> option Z) (id : string)
    (inbound : list interval) (outbound : list byte) : Relay * list byte * stream_end :=
  match fuel with
  | O => (r, outbound, OutOfFuel)
  | S fuel =>
      match readWireChunkCtx inbound with
      | ReadCancelled => (r, outbound, StreamCancelled)
      | ReadFailed (Wire.WireIO EOF) => (r, outbound, StreamClosed)
      | ReadFailed e => (r, outbound, StreamError (ReadChunk e))
      | ReadOk wc inbound =>
          match ForwardChunk r (samples fuel) id wc with
          | (r, Err e, _) => (r, outbound, StreamError e)
          | (r, Ok (_, forwarded), _) =>
              match Wire.WriteWireChunk outbound forwarded with
              | Err e => (r, outbound, StreamError (WriteChunk e))
              | Ok outbound => forward_loop fuel r samples id inbound outbound
              end
          end
      end
  end.
Definition ForwardStream (fuel : nat) (r : Relay) (samples : nat -> option Z) (id : string)
    (inbound : list interval) (outbound : list byte) : Relay * list byte * stream_end :=
  match circuits r !! id with
  | None => (r, outbound, StreamError NotFound)
  | Some _ => forward_loop fuel r samples id inbound outbound
  end.

(** *** Statistics *)

Record RelayStats : Type := MkRelayStats { Circuits : Z; TotalForwarded : Z; TotalBytes : Z; TotalJitterTime : Z }.
Record statsRelay : Type := MkStatsRelay { relay : Relay; forwarded : Z; bytes : Z; jitterTotal : Z }.
Definition NewRelayWithStats (c : RelayConfig) : statsRelay := MkStatsRelay (NewRelay c) 0 0 0.
Definition Stats (sr : statsRelay) : RelayStats :=
  MkRelayStats (CircuitCount (relay sr)) (forwarded sr) (bytes sr) (i64 (jitterTotal sr)).
(** [elapsed] is the time the forwarding took by the clock. *)
Definition ForwardChunkWithStats (sr : statsRelay) (sample : option Z) (elapsed : Z) (id : string) (wc : Wire.WireChunk)
    : statsRelay * result relay_error (string * Wire.WireChunk) :=
  match ForwardChunk (relay sr) sample id wc with
  | (r, Err e, _) => (MkStatsRelay r (forwarded sr) (bytes sr) (jitterTotal sr), Err e)
  | (r, Ok x, _) =>
      (MkStatsRelay r (u64 (forwarded sr + 1)) (u64 (bytes sr + len (Wire.Ciphertext wc)))
         (u64 (jitterTotal sr + u64 elapsed)), Ok x)
  end.
End Forward.

(** ** The table *)

Inductive op : Type :=
| OpAdd (id : string) (key : list byte) (next : option (list byte))
| OpRemove (id : string)
| OpForward (sample : option Z) (id : string) (wc : Wire.WireChunk).
Definition run_op (keystream : list byte -> nat -> list byte) (r : Relay) (o : op) : Relay :=
  match o with
  | OpAdd id key next => (AddCircuit r id key next).1
  | OpRemove id => RemoveCircuit r id
  | OpForward sample id wc => (ForwardChunk keystream r sample id wc).1.1
  end.

Record relay_inv (r : Relay) : Prop := {
  ri_jitter : 0 < JitterMin (cfg r) <= JitterMax (cfg r);
  ri_max : 0 < MaxCircuits (cfg r);
  ri_count : CircuitCount r <= MaxCircuits (cfg r);
  ri_keys : map_Forall (fun _ e => len (relayKey e) = KeySize /\
              forall k, nextRelayKey e = Some k -> len k = KeySize) (circuits r)
}.

Lemma NewRelay_inv c : relay_inv (NewRelay c).
Proof.
  constructor; cbn.
  - unfold normalise, DefaultJitterMin, DefaultJitterMax, millisecond. cbn. repeat case_goal; to_prop; lia.
  - repeat case_goal; to_prop; lia.
  - unfold CircuitCount. cbn. rewrite map_size_empty. repeat case_goal; to_prop; lia.
  - apply map_Forall_empty.
Qed.

Lemma AddCircuit_inv r id key next : relay_inv r -> relay_inv (AddCircuit r id key next).1.
Proof.
  intros Hr. pose proof Hr as [Hj Hm Hc Hk]. unfold AddCircuit.
  destruct (Z.eqb_spec (len key) KeySize) as [Hkey|]; cbn [negb]; [|done].
  destruct (match next with Some _ => _ | None => _ end) eqn:En; [done|].
  destruct (Z.leb_spec (MaxCircuits (cfg r)) (Z.of_nat (size (circuits r)))); [by constructor|].
  case_bool_decide as Hex; [done|]. apply eq_None_not_Some in Hex. cbn. constructor; [done | done | |].
  - unfold CircuitCount. cbn. rewrite map_size_insert_None by done. lia.
  - apply map_Forall_insert_2; [|done]. cbn. split; [done|]. intros k ->. by to_prop.
Qed.

Lemma ForwardChunk_inv keystream r sample id wc : relay_inv r -> relay_inv (ForwardChunk keystream r sample id wc).1.1.
Proof.
  intros Hr. pose proof Hr as [Hj Hm Hc Hk]. unfold ForwardChunk.
  destruct (circuits r !! id) as [en|] eqn:E; [|by constructor]. destruct (negb _); [done|].
  destruct (Circuit.DecodeForwardingHeader _ _ _); [|by constructor]. cbn. constructor; [done | done | |].
  - unfold CircuitCount. cbn. rewrite map_size_insert_Some by eauto. done.
  - apply map_Forall_insert_2; [|done]. exact (Hk _ _ E).
Qed.

Lemma relay_op_inv keystream r o : relay_inv r -> relay_inv (run_op keystream r o).
Proof.
  intros Hr. destruct o; cbn; [by apply AddCircuit_inv | | by apply ForwardChunk_inv].
  destruct Hr as [Hj Hm Hc Hk]. constructor; [done | done | | by apply map_Forall_delete].
  unfold CircuitCount in *. cbn. rewrite map_size_delete. destruct (circuits r !! id); cbn; lia.
Qed.

(** Whatever is registered, removed and forwarded, a relay never holds more
    circuits than its limit, every key it holds is 32 bytes long, and every
    delay it draws lies between the two bounds of its configuration. *)
Theorem relay_well_formed keystream c ops :
  let r := foldl (run_op keystream) (NewRelay c) ops in
  CircuitCount r <= MaxCircuits (cfg r) /\
  map_Forall (fun _ e => len (relayKey e) = KeySize /\
    forall k, nextRelayKey e = Some k -> len k = KeySize) (circuits r) /\
  forall sample,
    (forall n, sample = Some n ->
       0 <= n < Z.quot (JitterMax (cfg r)) millisecond - Z.quot (JitterMin (cfg r)) millisecond) ->
    JitterMin (cfg r) <= randomJitter (cfg r) sample <= JitterMax (cfg r).
Proof.
  intros r. assert (relay_inv r) as [Hj Hm Hc Hk].
  { unfold r. generalize (NewRelay_inv c). generalize (NewRelay c).
    induction ops as [|o ops IH]; intros r0 Hr0; cbn; [done|]. apply IH. by apply relay_op_inv. }
  split_and!; [done | done |]. intros sample Hs. unfold randomJitter.
  destruct (Z.leb_spec (Z.quot (JitterMax (cfg r)) millisecond) (Z.quot (JitterMin (cfg r)) millisecond)); [lia|].
  destruct sample as [n|]; [|lia]. specialize (Hs n eq_refl). revert Hs. unfold millisecond.
  rewrite !Z.quot_div_nonneg by lia. intros Hs.
  pose proof (Z.div_mod (JitterMin (cfg r)) 1000000). pose proof (Z.mod_pos_bound (JitterMin (cfg r)) 1000000).
  pose proof (Z.mul_div_le (JitterMax (cfg r)) 1000000). lia.
Qed.

(** ** Forwarding *)

Section Forwarding.
Context (keystream : list byte -> nat -> list byte).

(** C22. Blind forwarding: a chunk goes on exactly when its circuit is registered
    and the header names a next hop under the key of that circuit. It goes on
    unchanged, whatever its nonce and ciphertext are; the relay remembers the
    hop and nothing else of its table changes. *)
Theorem ForwardChunk_spec r sample id wc :
  let '(r', res, _) := ForwardChunk keystream r sample id wc in
  cfg r' = cfg r /\
  match res with
  | Ok (hop, wc') =>
      wc' = wc /\ exists en, circuits r !! id = Some en /\
        Circuit.DecodeForwardingHeader keystream (Wire.Header wc) (relayKey en) = Ok (bytes_of_string hop) /\
        circuits r' = <[id := MkEntry (relayKey en) hop (nextRelayKey en)]> (circuits r) /\ events r' = events r
  | Err _ =>
      circuits r' = circuits r /\
      forall en, circuits r !! id = Some en ->
        exists e, Circuit.DecodeForwardingHeader keystream (Wire.Header wc) (relayKey en) = Err e
  end.
Proof.
  unfold ForwardChunk. destruct (circuits r !! id) as [en|] eqn:E; [|done].
  destruct (Z.eqb_spec (len (Wire.Header wc)) ForwardingHeaderSize) as [Hl|Hl]; cbn [negb].
  2:{ split_and!; [done..|]. intros ? [= <-]. unfold Circuit.DecodeForwardingHeader.
      rewrite (proj2 (Z.eqb_neq _ _)) by done. by eexists. }
  destruct (Circuit.DecodeForwardingHeader _ _ _) as [hop|e] eqn:Ed; cbn.
  - split_and!; [done | by destruct wc |]. exists en. by rewrite bytes_of_string_of_bytes.
  - split_and!; [done..|]. intros ? [= <-]. eauto.
Qed.

(** The relay reads the next hop of the chunk under a key. *)
Definition routed (key : list byte) (wc : Wire.WireChunk) : Prop :=
  Wire.wire_ok wc /\ exists hop, Circuit.DecodeForwardingHeader keystream (Wire.Header wc) key = Ok hop.

Lemma ForwardChunk_routed r sample id wc en :
  circuits r !! id = Some en -> routed (relayKey en) wc ->
  exists r' hop slept, ForwardChunk keystream r sample id wc = (r', Ok (hop, wc), slept) /\
    exists en', circuits r' !! id = Some en' /\ relayKey en' = relayKey en.
Proof.
  intros Hl [[Hh _ _] (hop & Hd)]. unfold ForwardChunk. rewrite Hl, Hh, Z.eqb_refl, Hd. cbn [negb].
  eexists _, _, _. split; [by destruct wc|]. cbn. rewrite lookup_insert_eq. by eexists.
Qed.

Lemma ReadWireChunk_nil : Wire.ReadWireChunk [] = Err (Wire.WireIO EOF).
Proof. done. Qed.

Lemma forward_loop_transparent samples id wcs : forall fuel r en out,
  circuits r !! id = Some en -> Forall (routed (relayKey en)) wcs -> (length wcs < fuel)%nat ->
  exists r', forward_loop keystream fuel r samples id [Bytes (mjoin (Wire.wire_bytes <$> wcs))] out
    = (r', out ++ mjoin (Wire.wire_bytes <$> wcs), StreamClosed).
Proof.
  induction wcs as [|wc wcs IH]; intros [|fuel] r en out Hl Hf Hlt; cbn [length] in *; try lia.
  - exists r. cbn. by rewrite app_nil_r.
  - apply Forall_cons in Hf as [Hwc Hf]. rewrite fmap_cons.
    change (mjoin (Wire.wire_bytes wc :: (Wire.wire_bytes <$> wcs))) with
      (Wire.wire_bytes wc ++ mjoin (Wire.wire_bytes <$> wcs)).
    cbn [forward_loop readWireChunkCtx].
    rewrite (Wire.ReadWireChunk_complete wc) by apply Hwc.
    destruct (ForwardChunk_routed r (samples fuel) id wc en Hl Hwc) as (r1 & hop & slept & Hfw & en' & Hl' & Hk).
    rewrite Hfw. unfold Wire.WriteWireChunk.
    rewrite (proj2 (Wire.SerializeWireChunk_spec wc (Wire.wire_bytes wc))) by (split; [apply Hwc | done]).
    cbn [mbind result_bind].
    destruct (IH fuel r1 en' (out ++ Wire.wire_bytes wc) Hl') as (r2 & H2); [by rewrite Hk | lia |].
    exists r2. by rewrite H2, app_assoc.
Qed.

(** A relay is transparent to a circuit: of an inbound byte stream that holds
    well-formed chunks routed by the key of the circuit, exactly the same
    bytes leave, in the same order, and the loop ends when the stream does. *)
Theorem ForwardStream_transparent r samples id wcs en fuel :
  circuits r !! id = Some en -> Forall (routed (relayKey en)) wcs -> (length wcs < fuel)%nat ->
  exists r', ForwardStream keystream fuel r samples id [Bytes (mjoin (Wire.wire_bytes <$> wcs))] []
    = (r', mjoin (Wire.wire_bytes <$> wcs), StreamClosed).
Proof.
  intros Hl Hf Hlt. unfold ForwardStream. rewrite Hl.
  apply (forward_loop_transparent samples id wcs fuel r en []); done.
Qed.
End Forwarding.

(** A chunk for the witnesses: its header names the hop "exit". *)
Definition sample_key : list byte := replicate 32 x11.
Definition sample_header : list byte :=
  match Circuit.EncodeHeader Circuit.toy_keystream (bytes_of_string "exit") sample_key (Some (replicate 64 x00)) with
  | Ok h => h
  | Err _ => []
  end.
Definition sample_chunk (b : byte) : Wire.WireChunk :=
  {| Wire.Header := sample_header; Wire.Nonce := replicate 12 x00; Wire.Ciphertext := [b] |}.
Definition sample_relay : Relay := (AddCircuit (NewRelay DefaultRelayConfig) "c" sample_key None).1.

Lemma sample_routed b : routed Circuit.toy_keystream sample_key (sample_chunk b).
Proof. split; [constructor; by vm_compute|]. exists (bytes_of_string "exit"). by vm_compute. Qed.

Lemma ForwardStream_transparent_witness :
  let wcs := [sample_chunk x01; sample_chunk x02] in
  exists r', ForwardStream Circuit.toy_keystream 3 sample_relay (fun _ => None) "c"
      [Bytes (mjoin (Wire.wire_bytes <$> wcs))] [] = (r', mjoin (Wire.wire_bytes <$> wcs), StreamClosed).
Proof.
  intros wcs. apply (ForwardStream_transparent Circuit.toy_keystream sample_relay (fun _ => None) "c" wcs
    (MkEntry sample_key "" None) 3).
  - vm_compute. reflexivity.
  - constructor; [apply sample_routed|]. constructor; [apply sample_routed | constructor].
  - cbn. lia.
Defined.

(** ** What goes wrong *)

(** A read that meets the deadline in the middle of a chunk drops what it has
    read and starts over in the middle: when the two halves of a chunk arrive
    in different polling intervals the stream ends with an error, and a
    stream that is cut between two fields ends as if it were complete. *)
Theorem slow_chunk_breaks_stream :
  let b := Wire.wire_bytes (sample_chunk x01) in
  (ForwardStream Circuit.toy_keystream 3 sample_relay (fun _ => None) "c" [Bytes b] []).2 = StreamClosed /\
  (ForwardStream Circuit.toy_keystream 3 sample_relay (fun _ => None) "c" [Bytes (take 40 b); Bytes (drop 40 b)] []).2
    = StreamError (ReadChunk (Wire.BadHeaderLen 23130)) /\
  (ForwardStream Circuit.toy_keystream 3 sample_relay (fun _ => None) "c" [Bytes (take 66 b)] []).2 = StreamClosed.
Proof. vm_compute. done. Qed.

End Relay.
