(* ===== verification/Dispatcher.v ===== *)
(** * The entry dispatcher (internal/proxy/dispatcher.go)

    One proxy session of the entry node: the data read from the client is cut
    into chunks, each chunk is assigned to one of two paths, encrypted and
    sent; an end marker goes out on both paths. The chunker is used through
    its interface; the header cipher, the AEAD, the random source and the
    sending of a chunk are parameters. *)
From stdpp Require Import prelude gmap strings list.
From Stdlib Require Import Strings.Byte ZArith Lia.
From S2P Require Import Prelude GoBytes ProxyTypes WireChunk Circuit Chunker PathSelect CircuitMgr ExitNode.
Local Open Scope Z_scope.

Module Dispatcher.
Abbreviation Path := PathSelect.Path.
Abbreviation CircuitPath := Manager.CircuitPath.

(** A nil path or strategy is [None]. *)
Record DispatcherConfig : Type := MkConfig {
  ChunkerStrategy : string; ChunkerCfg : ChunkerConfig; CircuitCfg : ExitNode.CircuitConfig;
  Path1 : option Path; Path2 : option Path; E2EKey : list byte; CircuitID : list byte; ExitAddr : string;
  DebugFixedChunks : bool; AssignmentStrategy : option Manager.strategy
}.

Record pathStats : Type := MkStats { p1Chunks : Z; p2Chunks : Z; p1Bytes : Z; p2Bytes : Z }.

Inductive new_error : Type := BadE2EKey | BadCircuitID | PathsRequired | PathOverlap | NoSeed.
Inductive run_error : Type :=
| EncodeFailed (e : Circuit.proto_error)
| SendFailed (text : string)
| ReadFailed (text : string)
| Cancelled
| Panic.

Section Dispatch.
(** The chunker, and the registry that makes one from its name. *)
Context {S : Type} (split : S -> list byte -> list Chunk * S) (new_chunker : string -> ChunkerConfig -> S).
Context (keystream : list byte -> nat -> list byte).
Context (seal : list byte -> list byte -> list byte -> list byte -> list byte).
(** [rand k w n] are the [n] random bytes of the [w]-th read for the [k]-th
    encoding: the padding, the nonce and the rest of the header. [coin k] is
    the random number for the assignment of chunk [k]. *)
Context (rand : Z -> nat -> Z -> option (list byte)) (coin : Z -> Z).
(** What [sendChunk] answers after the chunks sent before. *)
Context (send : list (Z * Wire.WireChunk) -> Z -> Wire.WireChunk -> option string).

(** [conn] is whether the client connection was closed. *)
Record Dispatcher : Type := MkDispatcher {
  cfg : DispatcherConfig; chunker : S; chunkerCfg : ChunkerConfig; streamID : Z; nextSeq : Z;
  closed : bool; stats : pathStats; strategy : Manager.strategy; callCount : Z
}.

Definition with_seed (seed : list byte) (c : ChunkerConfig) : ChunkerConfig :=
  {| MaxChunkSize := MaxChunkSize c; MinChunkSize := MinChunkSize c; PaddingMin := PaddingMin c;
     PaddingMax := PaddingMax c; DisablePadding := DisablePadding c; DebugFixedSizes := DebugFixedSizes c;
     PaddingSeed := seed; MaxReassemblyChunks := MaxReassemblyChunks c;
     MaxReassemblyBytes := MaxReassemblyBytes c; StreamReassemblyTimeout := StreamReassemblyTimeout c |}.

(** [seed] are the 32 bytes drawn when the configuration has no seed. *)
Definition NewDispatcher (c : DispatcherConfig) (seed : option (list byte)) : result new_error Dispatcher :=
  if negb (len (E2EKey c) =? KeySize) then Err BadE2EKey else
  if negb (len (CircuitID c) =? CircuitIDSize) then Err BadCircuitID else
  match Path1 c, Path2 c with
  | Some p1, Some p2 =>
      if PathSelect.HasOverlap p1 p2 then Err PathOverlap else
      let name := if String.eqb (ChunkerStrategy c) "" then "bounded-4k-64k"%string else ChunkerStrategy c in
      let name := if DebugFixedChunks c then "fixed-16k"%string else name in
      let cc := if MaxChunkSize (ChunkerCfg c) =? 0 then DefaultChunkerConfig else ChunkerCfg c in
      cc ← (if len (PaddingSeed cc) =? 0
            then match seed with None => Err NoSeed | Some s => Ok (with_seed s cc) end else Ok cc);
      Ok (MkDispatcher c (new_chunker name cc) cc 0 0 false (MkStats 0 0 0 0)
            (default Manager.RoundRobinStrategy (AssignmentStrategy c)) 0)
  | _, _ => Err PathsRequired
  end.

Definition circuit_path (now i : Z) (p : Path) : CircuitPath :=
  Manager.MkPath i (PathSelect.Relays p) (PathSelect.RelayKeys p) 0 0 0 Manager.PathHealthHealthy 0 now.
Definition buildCircuitPaths (c : DispatcherConfig) (now : Z) : option (CircuitPath * CircuitPath) :=
  p1 ← Path1 c; p2 ← Path2 c; Some (circuit_path now 0 p1, circuit_path now 1 p2).

(** The first relay of a path with its key, or the exit itself; a path with
    relays and no keys makes the index panic. *)
Definition next_hop (c : DispatcherConfig) (p : Path) : option (string * list byte) :=
  match PathSelect.Relays p with
  | [] => Some (ExitAddr c, E2EKey c)
  | r :: _ => key ← list.head (PathSelect.RelayKeys p); Some (r, key)
  end.
Definition path_of (c : DispatcherConfig) (pathIdx : Z) : option Path := if pathIdx =? 0 then Path1 c else Path2 c.

(** [EncodeChunk] with the reads of encoding [k]. *)
Definition encode (c : DispatcherConfig) (k : Z) (chunk : Chunk) (hop : string * list byte)
    : result Circuit.proto_error Wire.WireChunk :=
  let addr := bytes_of_string hop.1 in
  Circuit.EncodeChunk keystream seal chunk (E2EKey c) hop.2 addr (CircuitID c)
    (rand k 0 (PaddingLen chunk)) (rand k 1 NonceSize) (rand k 2 (ForwardingHeaderSize - 2 - len addr)).

(** *** Sending chunks *)

(** The dispatcher, the paths of the strategy and what was sent. *)
Record session : Type := MkSession {
  disp : Dispatcher; cpaths : CircuitPath * CircuitPath; sent : list (Z * Wire.WireChunk)
}.

Definition numbered (d : Dispatcher) (chunk : Chunk) : Chunk :=
  {| StreamID := streamID d; Sequence := nextSeq d; Total := 0; Type_ := Type_ chunk;
     Payload := Payload chunk; PaddingLen := PaddingLen chunk |}.
Definition take_number (d : Dispatcher) : Dispatcher :=
  MkDispatcher (cfg d) (chunker d) (chunkerCfg d) (streamID d) (u32 (nextSeq d + 1)) (closed d) (stats d)
    (strategy d) (callCount d + 1).
Definition count_chunk (pathIdx bytes : Z) (d : Dispatcher) : Dispatcher :=
  MkDispatcher (cfg d) (chunker d) (chunkerCfg d) (streamID d) (nextSeq d) (closed d)
    (let s := stats d in
     if pathIdx =? 0 then MkStats (p1Chunks s + 1) (p2Chunks s) (i64 (p1Bytes s + bytes)) (p2Bytes s)
     else MkStats (p1Chunks s) (p2Chunks s + 1) (p1Bytes s) (i64 (p2Bytes s + bytes)))
    (strategy d) (callCount d).
Definition record_chunk (pathIdx bytes : Z) (ps : CircuitPath * CircuitPath) : CircuitPath * CircuitPath :=
  if pathIdx =? 0 then (Manager.RecordChunk bytes ps.1, ps.2) else (ps.1, Manager.RecordChunk bytes ps.2).

(** The body of the loop over the chunks of one read. *)
Definition send_chunk (s : session) (chunk : Chunk) : session * option run_error :=
  let d := disp s in
  let chunk := numbered d chunk in
  let k := callCount d in
  let s := MkSession (take_number d) (cpaths s) (sent s) in
  let pathIdx := Manager.strategy_AssignPath (strategy d) (cpaths s).1 (cpaths s).2 k (coin k) in
  match path_of (cfg d) pathIdx ≫= next_hop (cfg d) with
  | None => (s, Some Panic)
  | Some hop =>
      match encode (cfg d) k chunk hop with
      | Err e => (s, Some (EncodeFailed e))
      | Ok wc =>
          match send (sent s) pathIdx wc with
          | Some text => (s, Some (SendFailed text))
          | None =>
              (MkSession (count_chunk pathIdx (len (Payload chunk)) (disp s))
                 (record_chunk pathIdx (len (Payload chunk)) (cpaths s)) (sent s ++ [(pathIdx, wc)]), None)
          end
      end
  end.
Fixpoint send_chunks (s : session) (chunks : list Chunk) : session * option run_error :=
  match chunks with
  | [] => (s, None)
  | chunk :: chunks =>
      match send_chunk s chunk with
      | (s, Some e) => (s, Some e)
      | (s, None) => send_chunks s chunks
      end
  end.

(** The marker goes out on both paths; an encoding that fails skips the path
    and the answer of [sendChunk] is ignored. *)
Definition end_chunk (d : Dispatcher) : Chunk :=
  {| StreamID := streamID d; Sequence := nextSeq d; Total := 0; Type_ := ChunkStreamEnd; Payload := []; PaddingLen := 0 |}.
Definition send_end (chunk : Chunk) (k : Z) (s : session) (pathIdx : Z) : session * option run_error :=
  match path_of (cfg (disp s)) pathIdx ≫= next_hop (cfg (disp s)) with
  | None => (s, Some Panic)
  | Some hop =>
      match encode (cfg (disp s)) k chunk hop with
      | Err _ => (s, None)
      | Ok wc =>
          match send (sent s) pathIdx wc with
          | Some _ => (s, None)
          | None => (MkSession (disp s) (cpaths s) (sent s ++ [(pathIdx, wc)]), None)
          end
      end
  end.
Definition sendStreamEnd (s : session) : session * option run_error :=
  let d := disp s in
  let chunk := end_chunk d in
  let s := MkSession (MkDispatcher (cfg d) (chunker d) (chunkerCfg d) (streamID d) (u32 (nextSeq d + 1)) (closed d)
                        (stats d) (strategy d) (callCount d)) (cpaths s) (sent s) in
  match send_end chunk (callCount d) s 0 with
  | (s, Some e) => (s, Some e)
  | (s, None) => send_end chunk (callCount d + 1) s 1
  end.

(** *** The session *)

(** How the reads end: at the end of the data, with an error, or because the
    context is done before a read. *)
Inductive read_end : Type := AtEOF | AtError (text : string) | AtCancel.

Definition with_chunker (c : S) (d : Dispatcher) : Dispatcher :=
  MkDispatcher (cfg d) c (chunkerCfg d) (streamID d) (nextSeq d) (closed d) (stats d) (strategy d) (callCount d).

Fixpoint run_loop (s : session) (reads : list (list byte)) (last : read_end) : session * option run_error :=
  match reads with
  | [] =>
      match last with
      | AtEOF => let '(s, p) := sendStreamEnd s in (s, p)
      | AtError text => (s, Some (ReadFailed text))
      | AtCancel => (s, Some Cancelled)
      end
  | data :: reads =>
      if len data =? 0 then run_loop s reads last else
      let '(chunks, c) := split (chunker (disp s)) data in
      match send_chunks (MkSession (with_chunker c (disp s)) (cpaths s) (sent s)) chunks with
      | (s, Some e) => (s, Some e)
      | (s, None) => run_loop s reads last
      end
  end.
Definition Run (d : Dispatcher) (now : Z) (reads : list (list byte)) (last : read_end)
    : Dispatcher * list (Z * Wire.WireChunk) * option run_error :=
  match buildCircuitPaths (cfg d) now with
  | None => (d, [], Some Panic)
  | Some ps => let '(s, e) := run_loop (MkSession d ps []) reads last in (disp s, sent s, e)
  end.

(** A retransmission request is accepted and ignored. *)
Definition HandleNACK (d : Dispatcher) (nack : Circuit.NACKMsg) : Dispatcher * option run_error := (d, None).

(** The second component: whether this call closed the connection. *)
Definition Close (d : Dispatcher) : Dispatcher * bool :=
  if closed d then (d, false) else
  (MkDispatcher (cfg d) (chunker d) (with_seed (Manager.zeroes (PaddingSeed (chunkerCfg d))) (chunkerCfg d))
     (streamID d) (nextSeq d) true (stats d) (strategy d) (callCount d), true).
Definition Stats (d : Dispatcher) : Z * Z * Z * Z :=
  (p1Chunks (stats d), p2Chunks (stats d), p1Bytes (stats d), p2Bytes (stats d)).
Definition GetPaddingSeed (d : Dispatcher) : option (list byte) :=
  if len (PaddingSeed (chunkerCfg d)) =? 0 then None else Some (PaddingSeed (chunkerCfg d)).

(** The messages of one tick of the keepalive loop, [id] drawn when the
    configuration has none. *)
Definition keepalive_tick (c : DispatcherConfig) (id : list byte) (now : Z) : list (Z * Circuit.KeepaliveMsg) :=
  let id := if len (CircuitID c) =? 0 then id else CircuitID c in
  let msg := {| Circuit.k_CircuitID := id; Circuit.k_Timestamp := now |} in
  [(0, msg); (1, msg)].
Definition keepalive_interval (c : DispatcherConfig) : Z :=
  PathSelect.or_default (15 * PathSelect.second) (ExitNode.KeepaliveInterval (CircuitCfg c)).

(** ** The return path (internal/proxy/exit.go)

    [ForwardTargetToEntry]: what the target answers is cut, encrypted and
    sent back on the path that is fastest at the time; [trackers k] is the
    path tracker when chunk [k] is sent. *)
Inductive return_error : Type :=
| NoCircuit | ReturnEncode (e : Circuit.proto_error) | ReturnSend (text : string) | ReturnRead (text : string) | ReturnCancelled.
Definition returnStreamID : Z := 1.
Context (trackers : Z -> ExitNode.pathTracker) (iter : gmap Z Z -> list (Z * Z)) (any : gset Z -> option Z).

(** The arguments of the call that every chunk uses. *)
Record return_args : Type := MkReturn { ra_e2eKey : list byte; ra_relayKey : list byte; ra_nextHop : string; ra_circuitID : list byte }.
Definition encode_return (a : return_args) (k : Z) (chunk : Chunk) : result Circuit.proto_error Wire.WireChunk :=
  let addr := bytes_of_string (ra_nextHop a) in
  Circuit.EncodeChunk keystream seal chunk (ra_e2eKey a) (ra_relayKey a) addr (ra_circuitID a)
    (rand k 0 (PaddingLen chunk)) (rand k 1 NonceSize) (rand k 2 (ForwardingHeaderSize - 2 - len addr)).
Definition return_numbered (seq : Z) (chunk : Chunk) : Chunk :=
  {| StreamID := returnStreamID; Sequence := seq; Total := 0; Type_ := Type_ chunk; Payload := Payload chunk;
     PaddingLen := PaddingLen chunk |}.
(** The next number and what was sent. *)
Fixpoint return_chunks (a : return_args) (seq : Z) (sent : list (Z * Wire.WireChunk)) (chunks : list Chunk)
    : Z * list (Z * Wire.WireChunk) * option return_error :=
  match chunks with
  | [] => (seq, sent, None)
  | chunk :: chunks =>
      let k := len sent in
      let pathIdx := ExitNode.FastestPath iter any (trackers k) in
      match encode_return a k (return_numbered seq chunk) with
      | Err e => (u32 (seq + 1), sent, Some (ReturnEncode e))
      | Ok wc =>
          match send sent pathIdx wc with
          | Some text => (u32 (seq + 1), sent, Some (ReturnSend text))
          | None => return_chunks a (u32 (seq + 1)) (sent ++ [(pathIdx, wc)]) chunks
          end
      end
  end.
Definition return_end (a : return_args) (seq : Z) (sent : list (Z * Wire.WireChunk))
    : list (Z * Wire.WireChunk) * option return_error :=
  let chunk := {| StreamID := returnStreamID; Sequence := seq; Total := 0; Type_ := ChunkStreamEnd; Payload := []; PaddingLen := 0 |} in
  match encode_return a (len sent) chunk with
  | Err e => (sent, Some (ReturnEncode e))
  | Ok wc =>
      let pathIdx := ExitNode.FastestPath iter any (trackers (len sent)) in
      match send sent pathIdx wc with
      | Some _ => (sent, None)
      | None => (sent ++ [(pathIdx, wc)], None)
      end
  end.
Fixpoint return_loop (a : return_args) (c : S) (seq : Z) (sent : list (Z * Wire.WireChunk)) (reads : list (list byte))
    (last : read_end) : list (Z * Wire.WireChunk) * option return_error :=
  match reads with
  | [] =>
      match last with
      | AtEOF => return_end a seq sent
      | AtError text => (sent, Some (ReturnRead text))
      | AtCancel => (sent, Some ReturnCancelled)
      end
  | data :: reads =>
      if len data =? 0 then return_loop a c seq sent reads last else
      let '(chunks, c) := split c data in
      match return_chunks a seq sent chunks with
      | (_, sent, Some e) => (sent, Some e)
      | (seq, sent, None) => return_loop a c seq sent reads last
      end
  end.
Definition ForwardTargetToEntry (e : ExitNode.ExitNode) (strategyName : string) (debugFixed : bool) (cc : ChunkerConfig)
    (id : string) (e2eKey relayKey : list byte) (nextHop : string) (reads : list (list byte)) (last : read_end)
    : list (Z * Wire.WireChunk) * option return_error :=
  match ExitNode.circuits e !! id with
  | None => ([], Some NoCircuit)
  | Some c =>
      let name := if debugFixed then "fixed-16k"%string else strategyName in
      return_loop (MkReturn e2eKey relayKey nextHop (ExitNode.circuitIDBytes c)) (new_chunker name cc) 0 [] reads last
  end.
End Dispatch.

(** ** What a session sends *)

Section Sending.
Context {S : Type} {split : S -> list byte -> list Chunk * S} {next_seq stream_id : S -> Z} {inv : S -> Prop}
  `{!ChunkerSpec S split next_seq stream_id inv} `{!ChunkerPadding S split}.
Context (new_chunker : string -> ChunkerConfig -> S).
Context (keystream : list byte -> nat -> list byte).
Context (seal : list byte -> list byte -> list byte -> list byte -> list byte).
Context (open : list byte -> list byte -> list byte -> list byte -> option (list byte)).
Context (rand : Z -> nat -> Z -> option (list byte)) (coin : Z -> Z).

(** The key stream has the length asked for, the AEAD opens what it sealed,
    the random source works and every chunk is taken. *)
Hypothesis keystream_length : forall k n, length (keystream k n) = n.
Hypothesis open_seal : forall k n pt ad, open k n (seal k n pt ad) ad = Some pt.
Hypothesis rand_ok : forall k w n, 0 <= n -> exists b, rand k w n = Some b /\ len b = n.
Let send : list (Z * Wire.WireChunk) -> Z -> Wire.WireChunk -> option string := fun _ _ _ => None.

(** Both paths have a next hop that fits a header, with a key. *)
Definition routable (c : DispatcherConfig) : Prop :=
  len (E2EKey c) = KeySize /\ len (CircuitID c) = CircuitIDSize /\
  forall i, exists hop, path_of c i ≫= next_hop c = Some hop /\ len hop.2 = KeySize /\
    len (bytes_of_string hop.1) <= ForwardingHeaderSize - 3.

(** A chunk that was sent on one of the two paths: its header names the next
    hop of that path under the key of the hop, and it opens to a chunk with a
    property under the key and the identifier of the circuit. *)
Definition delivers (c : DispatcherConfig) (P : Chunk -> Prop) (a : Z * Wire.WireChunk) : Prop :=
  (a.1 = 0 \/ a.1 = 1) /\
  (exists hop, path_of c a.1 ≫= next_hop c = Some hop /\ len (Wire.Header a.2) = ForwardingHeaderSize /\
     Circuit.DecodeForwardingHeader keystream (Wire.Header a.2) hop.2 = Ok (bytes_of_string hop.1)) /\
  exists chunk, Circuit.DecodeChunk open a.2 (E2EKey c) (CircuitID c) = Ok chunk /\ P chunk.
Definition is_data (i : Z) (p : list byte) (chunk : Chunk) : Prop :=
  StreamID chunk = 0 /\ Sequence chunk = i /\ Total chunk = 0 /\ Type_ chunk = ChunkData /\ Payload chunk = p.
Definition is_end (n : Z) (chunk : Chunk) : Prop :=
  StreamID chunk = 0 /\ Sequence chunk = n /\ Type_ chunk = ChunkStreamEnd /\ Payload chunk = [].

(** Encoding with the random source at hand. *)
Lemma encode_hop_ok k chunk e2eKey relayKey addr cid :
  chunk_ok chunk -> len e2eKey = KeySize -> len relayKey = KeySize -> len cid = CircuitIDSize ->
  len addr <= ForwardingHeaderSize - 3 ->
  exists wc, Circuit.EncodeChunk keystream seal chunk e2eKey relayKey addr cid
      (rand k 0 (PaddingLen chunk)) (rand k 1 NonceSize) (rand k 2 (ForwardingHeaderSize - 2 - len addr)) = Ok wc /\
    len (Wire.Header wc) = ForwardingHeaderSize /\
    Circuit.DecodeForwardingHeader keystream (Wire.Header wc) relayKey = Ok addr /\
    Circuit.DecodeChunk open wc e2eKey cid = Ok chunk.
Proof.
  intros Hok Hk Hr Hc Hlen. unfold ForwardingHeaderSize, NonceSize in *.
  destruct (rand_ok k 0 (PaddingLen chunk)) as (b0 & -> & H0); [apply Hok|].
  destruct (rand_ok k 1 12) as (b1 & -> & H1); [lia|].
  destruct (rand_ok k 2 (64 - 2 - len addr)) as (b2 & -> & H2); [lia|].
  destruct (Circuit.EncodeChunk_total keystream seal chunk e2eKey relayKey addr cid b0 b1 b2 Hk Hc Hr Hlen) as [wc He].
  destruct (Circuit.EncodeChunk_decodes keystream seal open keystream_length open_seal chunk e2eKey relayKey
    addr cid cid b0 b1 b2 wc Hok Hc H1 H0 ltac:(unfold ForwardingHeaderSize; lia) He) as (Hhl & _ & Hhd & Hd).
  rewrite decide_True in Hd by done. by exists wc.
Qed.

Lemma encode_ok c k chunk i hop :
  routable c -> chunk_ok chunk -> path_of c i ≫= next_hop c = Some hop -> (i = 0 \/ i = 1) ->
  exists wc, encode keystream seal rand c k chunk hop = Ok wc /\ delivers c (eq chunk) (i, wc).
Proof.
  intros (Hk & Hc & Hr) Hok Hp Hi. destruct (Hr i) as (hop' & Hp' & Hkey & Hlen).
  rewrite Hp in Hp'. injection Hp' as <-.
  destruct (encode_hop_ok k chunk (E2EKey c) hop.2 (bytes_of_string hop.1) (CircuitID c) Hok Hk Hkey Hc Hlen)
    as (wc & He & Hhl & Hhd & Hd).
  exists wc. split; [done|]. split_and!; [done | by exists hop | by exists chunk].
Qed.

Lemma strategy_range s p0 p1 k buf :
  0 <= k -> Manager.strategy_AssignPath s p0 p1 k buf = 0 \/ Manager.strategy_AssignPath s p0 p1 k buf = 1.
Proof.
  intros Hk. assert (Z.rem k 2 = 0 \/ Z.rem k 2 = 1) as Hr by (pose proof (Z.rem_bound_pos k 2); lia).
  destruct s; cbn; unfold Manager.round_robin, Manager.weighted, Manager.fastest_only; repeat case_goal; auto.
Qed.

(** [payloads] were sent in the session. *)
Record sending (c : DispatcherConfig) (payloads : list (list byte)) (s : session (S := S)) : Prop := {
  sd_cfg : cfg (disp s) = c;
  sd_stream : streamID (disp s) = 0;
  sd_seq : nextSeq (disp s) = len payloads;
  sd_count : callCount (disp s) = len payloads;
  sd_sent : length (sent s) = length payloads;
  sd_each : forall i a p, sent s !! i = Some a -> payloads !! i = Some p ->
              delivers c (is_data (Z.of_nat i) p) a
}.

Lemma send_chunk_ok c payloads s chunk :
  routable c -> sending c payloads s -> len payloads < 2 ^ 32 - 1 ->
  Type_ chunk = ChunkData -> 0 <= PaddingLen chunk < 2 ^ 16 -> len (Payload chunk) < 2 ^ 32 ->
  exists s', send_chunk keystream seal rand coin send s chunk = (s', None) /\
    sending c (payloads ++ [Payload chunk]) s' /\ chunker (disp s') = chunker (disp s).
Proof.
  intros Hc [Hcfg Hst Hseq Hcnt Hlen Heach] Hlt Hty Hpad Hpl. unfold send_chunk.
  cbn [disp cpaths sent].
  set (i := Manager.strategy_AssignPath _ _ _ _ _).
  assert (i = 0 \/ i = 1) as Hi by (apply strategy_range; rewrite Hcnt; lia).
  rewrite Hcfg. destruct (proj2 (proj2 Hc) i) as (hop & Hhop & _). rewrite Hhop.
  assert (chunk_ok (numbered (disp s) chunk)) as Hok
    by (constructor; cbn; unfold ChunkData in *; lia).
  destruct (encode_ok c (callCount (disp s)) _ i hop Hc Hok Hhop Hi) as (wc & -> & Hd).
  unfold send. eexists. split; [done|]. split; [|done]. constructor.
  - done.
  - done.
  - cbn. rewrite Hseq, length_app, u32_small by lia. cbn. lia.
  - cbn. rewrite Hcnt, length_app. cbn. lia.
  - cbn [sent]. by rewrite !length_app, Hlen.
  - cbn [sent]. intros k a p Ha Hp. rewrite lookup_app in Ha. rewrite lookup_app in Hp.
    destruct (sent s !! k) as [a'|] eqn:Ea.
    + destruct (payloads !! k) as [p'|] eqn:Ep.
      * simplify_eq. by eapply Heach.
      * apply lookup_ge_None in Ep. apply lookup_lt_Some in Ea. lia.
    + destruct (payloads !! k) as [p'|] eqn:Ep.
      * apply lookup_ge_None in Ea. apply lookup_lt_Some in Ep. lia.
      * apply lookup_ge_None in Ea. rewrite Hlen in *.
        apply list_lookup_singleton_Some in Ha as [Hk <-]. apply list_lookup_singleton_Some in Hp as [_ <-].
        destruct Hd as (H1 & H2 & ch & H3 & <-). split_and!; [done | done |].
        exists (numbered (disp s) chunk). split; [done|]. unfold is_data. cbn. split_and!; auto. lia.
Qed.

Lemma send_chunks_ok c chunks : forall payloads s,
  routable c -> sending c payloads s -> len payloads + len chunks < 2 ^ 32 ->
  Forall (fun k => Type_ k = ChunkData /\ 0 <= PaddingLen k < 2 ^ 16 /\ len (Payload k) < 2 ^ 32) chunks ->
  exists s', send_chunks keystream seal rand coin send s chunks = (s', None) /\
    sending c (payloads ++ (Payload <$> chunks)) s' /\ chunker (disp s') = chunker (disp s).
Proof.
  induction chunks as [|k chunks IH]; intros payloads s Hc Hs Hlt Hf; cbn [send_chunks].
  { exists s. by rewrite app_nil_r. }
  apply Forall_cons in Hf as [(Hty & Hpad & Hpl) Hf]. cbn [length] in Hlt.
  destruct (send_chunk_ok c payloads s k Hc Hs ltac:(lia) Hty Hpad Hpl) as (s1 & -> & Hs1 & Hch1).
  destruct (IH (payloads ++ [Payload k]) s1 Hc Hs1) as (s2 & -> & Hs2 & Hch2); [| done |].
  { rewrite length_app. cbn [length]. lia. }
  exists s2. rewrite <-app_assoc in Hs2. by rewrite Hch2.
Qed.

(** The chunks of all reads, the chunker being threaded through. *)
Fixpoint cut (s : S) (reads : list (list byte)) : list Chunk :=
  match reads with
  | [] => []
  | data :: reads =>
      if len data =? 0 then cut s reads else
      let '(chunks, s) := split s data in chunks ++ cut s reads
  end.

Lemma payload_le (c : Chunk) cs : c ∈ cs -> len (Payload c) <= len (mjoin (Payload <$> cs)).
Proof.
  induction cs as [|k cs IH]; intros Hin; [by apply not_elem_of_nil in Hin|].
  rewrite fmap_cons. change (mjoin (Payload k :: (Payload <$> cs))) with (Payload k ++ mjoin (Payload <$> cs)).
  rewrite length_app. apply elem_of_cons in Hin as [->|Hin]; [lia|]. specialize (IH Hin). lia.
Qed.

Lemma split_chunks_fit s data :
  inv s -> len data < 2 ^ 32 ->
  Forall (fun k => Type_ k = ChunkData /\ 0 <= PaddingLen k < 2 ^ 16 /\ len (Payload k) < 2 ^ 32) (split s data).1.
Proof.
  intros Hi Hl. apply Forall_forall. intros k Hk. split_and!.
  - apply (split_stream s data k Hi Hk).
  - apply (split_padding s data k Hk).
  - apply (split_padding s data k Hk).
  - pose proof (payload_le k _ Hk) as Hp. rewrite (split_payload s data Hi) in Hp. lia.
Qed.

Lemma cut_payload reads : forall s, inv s -> mjoin (Payload <$> cut s reads) = mjoin reads.
Proof.
  induction reads as [|data reads IH]; intros s Hi; [done|]. cbn [cut].
  change (mjoin (data :: reads)) with (data ++ mjoin reads).
  destruct (Z.eqb_spec (len data) 0) as [E|E].
  { apply list_len_0 in E as ->. cbn. by apply IH. }
  pose proof (split_payload s data Hi) as Hp. pose proof (split_inv s data Hi) as Hi'.
  destruct (split s data) as [chunks s']. cbn [fst snd] in *. by rewrite fmap_app, join_app, IH, Hp.
Qed.

Lemma run_loop_ok c reads last : forall payloads s,
  routable c -> sending c payloads s -> inv (chunker (disp s)) ->
  Forall (fun data => len data < 2 ^ 32) reads ->
  len payloads + len (cut (chunker (disp s)) reads) < 2 ^ 32 ->
  exists s', run_loop split keystream seal rand coin send s reads last =
             run_loop split keystream seal rand coin send s' [] last /\
    sending c (payloads ++ (Payload <$> cut (chunker (disp s)) reads)) s'.
Proof.
  induction reads as [|data reads IH]; intros payloads s Hc Hs Hi Hf Hlt; cbn [cut] in *.
  { exists s. by rewrite app_nil_r. }
  apply Forall_cons in Hf as [Hd Hf]. cbn [run_loop].
  destruct (Z.eqb_spec (len data) 0) as [E|E]; [by apply IH|].
  pose proof (split_chunks_fit _ data Hi Hd) as Hfit. pose proof (split_inv _ data Hi) as Hi'.
  destruct (split (chunker (disp s)) data) as [chunks ch]. cbn [fst snd] in *. rewrite length_app in Hlt.
  destruct (send_chunks_ok c chunks payloads (MkSession (with_chunker ch (disp s)) (cpaths s) (sent s)) Hc)
    as (s1 & -> & Hs1 & Hch); [by destruct Hs | lia | done |].
  cbn in Hch. destruct (IH (payloads ++ (Payload <$> chunks)) s1 Hc Hs1) as (s2 & H2 & Hs2).
  - by rewrite Hch.
  - done.
  - rewrite Hch, length_app, length_fmap. lia.
  - exists s2. split; [done|]. by rewrite Hch, <-app_assoc, <-fmap_app in Hs2.
Qed.

Lemma send_end_ok c (s : session (S := S)) i k chunk :
  routable c -> cfg (disp s) = c -> chunk_ok chunk -> (i = 0 \/ i = 1) ->
  exists wc, send_end keystream seal rand send chunk k s i =
    (MkSession (disp s) (cpaths s) (sent s ++ [(i, wc)]), None) /\ delivers c (eq chunk) (i, wc).
Proof.
  intros Hc Hcfg Hok Hi. unfold send_end. rewrite Hcfg.
  destruct (proj2 (proj2 Hc) i) as (hop & Hhop & _). rewrite Hhop.
  destruct (encode_ok c k chunk i hop Hc Hok Hhop Hi) as (wc & -> & Hd). by exists wc.
Qed.

Lemma delivers_weaken c (P Q : Chunk -> Prop) a : (forall k, P k -> Q k) -> delivers c P a -> delivers c Q a.
Proof. intros H (H1 & H2 & k & H3 & H4). split_and!; eauto. Qed.

Lemma NewDispatcher_cfg c seed d :
  NewDispatcher new_chunker c seed = Ok d ->
  cfg d = c /\ streamID d = 0 /\ nextSeq d = 0 /\ callCount d = 0 /\
  (exists name cc, chunker d = new_chunker name cc) /\ is_Some (buildCircuitPaths c 0).
Proof.
  unfold NewDispatcher, buildCircuitPaths. intros H.
  do 2 (case_hyp H; [discriminate|]).
  destruct (Path1 c), (Path2 c); try discriminate. case_hyp H; [discriminate|].
  destruct (if _ =? 0 then _ else _) as [cc|]; [|discriminate]. cbn in H. simplify_eq. cbn.
  split_and!; eauto.
Qed.

(** What a session sends: when every encoding and every send works, the data
    read from the client leaves as data chunks numbered from zero whose
    payloads are the data in order, each on one of the two paths with a
    header for the first hop of that path; then an end marker with the next
    number leaves on both paths. *)
Lemma Run_sends c seed d now reads :
  NewDispatcher new_chunker c seed = Ok d -> routable c -> (forall name cc, inv (new_chunker name cc)) ->
  Forall (fun data => len data < 2 ^ 32) reads ->
  let payloads := Payload <$> cut (chunker d) reads in
  len payloads < 2 ^ 32 ->
  exists d' datas w0 w1,
    Run split keystream seal rand coin send d now reads AtEOF = (d', datas ++ [(0, w0); (1, w1)], None) /\
    mjoin payloads = mjoin reads /\ length datas = length payloads /\
    (forall i a p, datas !! i = Some a -> payloads !! i = Some p -> delivers c (is_data (Z.of_nat i) p) a) /\
    delivers c (is_end (len payloads)) (0, w0) /\ delivers c (is_end (len payloads)) (1, w1).
Proof.
  intros Hnew Hc Hinv Hf payloads Hlt.
  destruct (NewDispatcher_cfg c seed d Hnew) as (Hcfg & Hst & Hseq & Hcnt & (name & cc & Hch) & Hb).
  assert (inv (chunker d)) as Hi by (rewrite Hch; apply Hinv).
  unfold Run. rewrite Hcfg. destruct (buildCircuitPaths c now) as [ps|] eqn:Eb.
  2:{ exfalso. revert Hb Eb. unfold buildCircuitPaths. destruct (Path1 c), (Path2 c); cbn; try discriminate; by intros []. }
  destruct (run_loop_ok c reads AtEOF [] (MkSession d ps []) Hc) as (s & -> & Hs); try done.
  { unfold payloads in Hlt. rewrite length_fmap in Hlt. cbn [disp length]. lia. }
  cbn [disp app] in Hs. fold payloads in Hs. destruct Hs as [Hscfg Hsst Hsseq Hscnt Hslen Hseach].
  cbn [run_loop]. unfold sendStreamEnd.
  set (chunk := end_chunk (disp s)). set (s1 := MkSession _ (cpaths s) (sent s)).
  assert (chunk_ok chunk) as Hok by (constructor; cbn; unfold ChunkStreamEnd; lia).
  assert (forall k, eq chunk k -> is_end (len payloads) k) as Hend.
  { intros k <-. unfold is_end. cbn. auto. }
  destruct (send_end_ok c s1 0 (callCount (disp s)) chunk Hc Hscfg Hok) as (w0 & -> & Hd0); [by left|].
  destruct (send_end_ok c (MkSession (disp s1) (cpaths s1) (sent s1 ++ [(0, w0)])) 1 (callCount (disp s) + 1) chunk Hc Hscfg Hok)
    as (w1 & -> & Hd1); [by right|].
  exists (disp s1), (sent s), w0, w1. split_and!.
  - cbn. by rewrite <-app_assoc.
  - by apply cut_payload.
  - done.
  - exact Hseach.
  - by eapply delivers_weaken.
  - by eapply delivers_weaken.
Qed.

(** *** The return path *)

Context (trackers : Z -> ExitNode.pathTracker) (iter : gmap Z Z -> list (Z * Z)) (any : gset Z -> option Z).
Abbreviation fastest := (fun k => ExitNode.FastestPath iter any (trackers k)).

(** The sizes that make every encoding of the return path work. *)
Definition return_ok (a : return_args) : Prop :=
  len (ra_e2eKey a) = KeySize /\ len (ra_relayKey a) = KeySize /\ len (ra_circuitID a) = CircuitIDSize /\
  len (bytes_of_string (ra_nextHop a)) <= ForwardingHeaderSize - 3.

(** A chunk sent back: number [i] of the return stream with a payload, on the
    path that was fastest. *)
Definition returned (a : return_args) (i : Z) (P : Chunk -> Prop) (x : Z * Wire.WireChunk) : Prop :=
  x.1 = fastest i /\ exists chunk, Circuit.DecodeChunk open x.2 (ra_e2eKey a) (ra_circuitID a) = Ok chunk /\
    StreamID chunk = returnStreamID /\ Sequence chunk = i /\ P chunk.
Definition carries_payload (p : list byte) (chunk : Chunk) : Prop :=
  Type_ chunk = ChunkData /\ Total chunk = 0 /\ Payload chunk = p.

Definition returning (a : return_args) (payloads : list (list byte)) (sent : list (Z * Wire.WireChunk)) : Prop :=
  length sent = length payloads /\
  forall i x p, sent !! i = Some x -> payloads !! i = Some p -> returned a (Z.of_nat i) (carries_payload p) x.

Lemma encode_return_ok a k chunk :
  return_ok a -> chunk_ok chunk ->
  exists wc, encode_return keystream seal rand a k chunk = Ok wc /\
    Circuit.DecodeChunk open wc (ra_e2eKey a) (ra_circuitID a) = Ok chunk.
Proof.
  intros (Hk & Hr & Hc & Hl) Hok.
  destruct (encode_hop_ok k chunk (ra_e2eKey a) (ra_relayKey a) (bytes_of_string (ra_nextHop a)) (ra_circuitID a)
    Hok Hk Hr Hc Hl) as (wc & He & _ & _ & Hd). by exists wc.
Qed.

Lemma return_chunks_ok a chunks : forall payloads sent,
  return_ok a -> returning a payloads sent -> len payloads + len chunks < 2 ^ 32 ->
  Forall (fun k => Type_ k = ChunkData /\ 0 <= PaddingLen k < 2 ^ 16 /\ len (Payload k) < 2 ^ 32) chunks ->
  exists sent', return_chunks keystream seal rand send trackers iter any a (len payloads) sent chunks =
      (len payloads + len chunks, sent', None) /\ returning a (payloads ++ (Payload <$> chunks)) sent'.
Proof.
  induction chunks as [|k chunks IH]; intros payloads sent Ha [Hlen Hs] Hlt Hf; cbn [return_chunks].
  { exists sent. rewrite app_nil_r. cbn. split; [do 2 f_equal; lia | done]. }
  apply Forall_cons in Hf as [(Hty & Hpad & Hpl) Hf]. cbn [length] in Hlt.
  assert (chunk_ok (return_numbered (len payloads) k)) as Hok
    by (constructor; cbn; unfold ChunkData, returnStreamID in *; lia).
  destruct (encode_return_ok a (len sent) _ Ha Hok) as (wc & -> & Hd). unfold send.
  rewrite u32_small by lia.
  destruct (IH (payloads ++ [Payload k]) (sent ++ [(fastest (len sent), wc)]) Ha) as (sent' & Hr & Hs').
  - split; [by rewrite !length_app, Hlen|]. intros i x p Hx Hp.
    rewrite lookup_app in Hx. rewrite lookup_app in Hp.
    destruct (sent !! i) as [x'|] eqn:Ex; destruct (payloads !! i) as [p'|] eqn:Ep.
    + simplify_eq. by eapply Hs.
    + apply lookup_ge_None in Ep. apply lookup_lt_Some in Ex. lia.
    + apply lookup_ge_None in Ex. apply lookup_lt_Some in Ep. lia.
    + apply lookup_ge_None in Ex. rewrite Hlen in *.
      apply list_lookup_singleton_Some in Hx as [Hi <-]. apply list_lookup_singleton_Some in Hp as [_ <-].
      assert (Z.of_nat i = len payloads) as Hi' by lia.
      split; [cbn; by rewrite Hi'|]. eexists. split; [exact Hd|]. cbn. by rewrite Hi'.
  - rewrite length_app. cbn [length]. lia.
  - done.
  - exists sent'. rewrite <-app_assoc in Hs'. split; [|done].
    replace (len payloads + 1) with (len (payloads ++ [Payload k])) by (rewrite length_app; cbn [length]; lia).
    unfold send in Hr. rewrite Hr, length_app. cbn [length]. do 2 f_equal. lia.
Qed.

Lemma return_loop_ok a reads last : forall c payloads sent,
  return_ok a -> returning a payloads sent -> inv c -> Forall (fun data => len data < 2 ^ 32) reads ->
  len payloads + len (cut c reads) < 2 ^ 32 ->
  exists c' sent', return_loop split keystream seal rand send trackers iter any a c (len payloads) sent reads last =
      return_loop split keystream seal rand send trackers iter any a c'
        (len (payloads ++ (Payload <$> cut c reads))) sent' [] last /\
    returning a (payloads ++ (Payload <$> cut c reads)) sent'.
Proof.
  induction reads as [|data reads IH]; intros c payloads sent Ha Hs Hi Hf Hlt; cbn [cut] in *.
  { exists c, sent. by rewrite app_nil_r. }
  apply Forall_cons in Hf as [Hd Hf]. cbn [return_loop].
  destruct (Z.eqb_spec (len data) 0) as [E|E]; [by apply IH|].
  pose proof (split_chunks_fit _ data Hi Hd) as Hfit. pose proof (split_inv _ data Hi) as Hi'.
  destruct (split c data) as [chunks c1]. cbn [fst snd] in *. rewrite length_app in Hlt.
  destruct (return_chunks_ok a chunks payloads sent Ha Hs) as (sent1 & -> & Hs1); [lia | done |].
  replace (len payloads + len chunks) with (len (payloads ++ (Payload <$> chunks)))
    by (rewrite length_app, length_fmap; lia).
  destruct (IH c1 (payloads ++ (Payload <$> chunks)) sent1 Ha Hs1 Hi' Hf) as (c2 & sent2 & H2 & Hs2).
  { rewrite length_app, length_fmap. lia. }
  exists c2, sent2. rewrite fmap_app, app_assoc. by split.
Qed.

(** What the target answers goes back complete: as long as every encoding and
    every send works, all data read from the target leaves as chunks of the
    return stream, numbered from zero, whose payloads are the data in order,
    each on the path that was fastest when it was sent and readable by the
    entry; then one end marker with the next number follows. *)
Theorem return_stream_complete e strategyName (debugFixed : bool) cc id c e2eKey relayKey nextHop reads :
  ExitNode.circuits e !! id = Some c ->
  let a := MkReturn e2eKey relayKey nextHop (ExitNode.circuitIDBytes c) in
  return_ok a -> (forall name cc, inv (new_chunker name cc)) -> Forall (fun data => len data < 2 ^ 32) reads ->
  let payloads := Payload <$> cut (new_chunker (if debugFixed then "fixed-16k"%string else strategyName) cc) reads in
  len payloads < 2 ^ 32 ->
  exists datas fin,
    ForwardTargetToEntry split new_chunker keystream seal rand send trackers iter any e strategyName debugFixed cc
      id e2eKey relayKey nextHop reads AtEOF = (datas ++ [fin], None) /\
    mjoin payloads = mjoin reads /\ length datas = length payloads /\
    (forall i x p, datas !! i = Some x -> payloads !! i = Some p -> returned a (Z.of_nat i) (carries_payload p) x) /\
    returned a (len payloads) (fun chunk => Type_ chunk = ChunkStreamEnd /\ Payload chunk = []) fin.
Proof.
  intros Hl a Ha Hinv Hf payloads Hlt. unfold ForwardTargetToEntry. rewrite Hl. fold a.
  match goal with |- context [new_chunker ?nm cc] => set (ch := new_chunker nm cc) in * end.
  destruct (return_loop_ok a reads AtEOF ch [] [] Ha) as (c' & sent & Hr & Hlen & Hs); [done | apply Hinv | done | |].
  { unfold payloads in Hlt. rewrite length_fmap in Hlt. cbn [length]. lia. }
  cbn [length app] in Hr, Hlen, Hs. fold payloads in Hr, Hlen, Hs.
  change (Z.of_nat 0) with 0 in Hr. rewrite Hr. cbn [return_loop]. unfold return_end.
  set (chunk := {| StreamID := returnStreamID; Sequence := len payloads |}).
  assert (chunk_ok chunk) as Hok by (constructor; cbn; unfold ChunkStreamEnd, returnStreamID; lia).
  destruct (encode_return_ok a (len sent) chunk Ha Hok) as (wc & -> & Hd). unfold send.
  exists sent, (fastest (len sent), wc). split_and!; [done | | done | done |].
  - unfold payloads. apply cut_payload, Hinv.
  - split; [cbn; by rewrite Hlen|]. exists chunk. by split_and!.
Qed.
End Sending.

#[local] Existing Instance Chunkers.fixed_spec.
#[local] Existing Instance Chunkers.fixed_padding.
Lemma return_stream_complete_witness :
  let cc := {| MaxChunkSize := 2; MinChunkSize := 1; PaddingMin := 0; PaddingMax := 0; DisablePadding := true;
     DebugFixedSizes := false; PaddingSeed := [x01]; MaxReassemblyChunks := 0; MaxReassemblyBytes := 0;
     StreamReassemblyTimeout := 0 |} in
  let setup := {| Circuit.cs_CircuitID := replicate 16 x07; Circuit.cs_ECDHPubKey := []; Circuit.cs_TargetAddr := "t" |} in
  let e := ExitNode.MkExit (<["c" := ExitNode.new_circuit ExitNode.DefaultExitConfig 0 "c" setup []]> ∅) false [] [] in
  exists datas fin,
    ForwardTargetToEntry Chunkers.fixed_Split (fun _ cc => Chunkers.newFixedChunker cc []) Circuit.toy_keystream
      Circuit.toy_seal (fun _ _ n => Some (replicate (Z.to_nat n) x00)) (fun _ _ _ => None)
      (fun _ => ExitNode.newPathTracker) map_to_list (fun _ => None) e "" false cc "c"
      (replicate 32 x01) (replicate 32 x02) "r1" [[x01; x02; x03]; [x04]] AtEOF = (datas ++ [fin], None) /\
    length datas = 3%nat.
Proof.
  intros cc setup e.
  destruct (return_stream_complete (split := Chunkers.fixed_Split) (fun _ cc => Chunkers.newFixedChunker cc [])
    Circuit.toy_keystream Circuit.toy_seal Circuit.toy_open (fun _ _ n => Some (replicate (Z.to_nat n) x00))
    (fun k n => length_replicate n x5a) Circuit.toy_open_seal
    ltac:(intros k w n Hn; eexists; split; [done | rewrite length_replicate; lia])
    (fun _ => ExitNode.newPathTracker) map_to_list (fun _ => None) e "" false cc "c"
    (ExitNode.new_circuit ExitNode.DefaultExitConfig 0 "c" setup []) (replicate 32 x01) (replicate 32 x02) "r1"
    [[x01; x02; x03]; [x04]]) as (datas & fin & H1 & _ & H2 & _).
  - by vm_compute.
  - by vm_compute.
  - intros _ c. apply Chunkers.newFixedChunker_inv.
  - repeat constructor.
  - by vm_compute.
  - exists datas, fin. split; [exact H1 | by vm_compute in H2].
Defined.

End Dispatcher.
