(* ===== verification/ProxyChain.v ===== *)
(** * A proxied stream from the client to the target

    The composition of the dispatcher of the entry node, the relays of its
    two paths and the exit node: what the client writes is what the target
    receives, whatever the order in which the chunks of the two paths reach
    the exit; and what fails when relays or markers behave as the code lets
    them. *)
From stdpp Require Import prelude gmap strings list.
From Stdlib Require Import Strings.Byte ZArith Lia.
From S2P Require Import Prelude GoBytes ProxyTypes WireChunk Circuit Reassembler Chunker KeyExchange PathSelect CircuitMgr.
From S2P Require Import Streaming ExitNode Relay Dispatcher.
Local Open Scope Z_scope.

Module ProxyChain.

(** ** The relays of a path *)

Section Relays.
Context (keystream : list byte -> nat -> list byte) (sample : option Z) (id : string).

(** A chunk through the relays of a path, one after the other. *)
Fixpoint through (rs : list Relay.Relay) (wc : Wire.WireChunk) : list Relay.Relay * result Relay.relay_error Wire.WireChunk :=
  match rs with
  | [] => ([], Ok wc)
  | r :: rs =>
      match Relay.ForwardChunk keystream r sample id wc with
      | (r, Err e, _) => (r :: rs, Err e)
      | (r, Ok (_, wc), _) => let '(rs, res) := through rs wc in (r :: rs, res)
      end
  end.
(** What was sent, in order, over the relays of its path. *)
Fixpoint carry (paths : list Relay.Relay * list Relay.Relay) (sent : list (Z * Wire.WireChunk))
    : list Relay.Relay * list Relay.Relay * list (result Relay.relay_error (Z * Wire.WireChunk)) :=
  match sent with
  | [] => (paths, [])
  | (i, wc) :: sent =>
      let '(rs, res) := through (if i =? 0 then paths.1 else paths.2) wc in
      let paths := if i =? 0 then (rs, paths.2) else (paths.1, rs) in
      let '(paths, out) := carry paths sent in
      (paths, match res with Ok wc => Ok (i, wc) | Err e => Err e end :: out)
  end.

(** Every relay of the path holds the key of the first hop. *)
Definition provisioned (key : list byte) (rs : list Relay.Relay) : Prop :=
  Forall (fun r => exists en, Relay.circuits r !! id = Some en /\ Relay.relayKey en = key) rs.

Lemma through_ok key rs : forall wc hop,
  provisioned key rs -> len (Wire.Header wc) = ForwardingHeaderSize ->
  Circuit.DecodeForwardingHeader keystream (Wire.Header wc) key = Ok hop ->
  exists rs', through rs wc = (rs', Ok wc) /\ provisioned key rs'.
Proof.
  induction rs as [|r rs IH]; intros wc hop Hp Hl Hd; cbn [through].
  { exists []. split; [done | constructor]. }
  apply Forall_cons in Hp as [(en & He & Hk) Hp].
  unfold Relay.ForwardChunk. rewrite He, Hl, Z.eqb_refl, Hk, Hd. cbn [negb].
  destruct (IH wc hop Hp Hl Hd) as (rs' & Ht & Hp'). destruct wc as [h n c]. cbn in *. rewrite Ht.
  eexists. split; [done|]. constructor; [|done]. cbn. rewrite lookup_insert_eq. eauto.
Qed.

Lemma carry_ok (c : Dispatcher.DispatcherConfig) sent : forall paths,
  (forall i rs, (i = 0 /\ rs = paths.1) \/ (i = 1 /\ rs = paths.2) ->
     exists hop, Dispatcher.path_of c i ≫= Dispatcher.next_hop c = Some hop /\ provisioned hop.2 rs) ->
  Forall (fun a => (a.1 = 0 \/ a.1 = 1) /\
    exists hop, Dispatcher.path_of c a.1 ≫= Dispatcher.next_hop c = Some hop /\
      len (Wire.Header a.2) = ForwardingHeaderSize /\
      Circuit.DecodeForwardingHeader keystream (Wire.Header a.2) hop.2 = Ok (bytes_of_string hop.1)) sent ->
  exists paths', carry paths sent = (paths', Ok <$> sent).
Proof.
  induction sent as [|[i wc] sent IH]; intros paths Hp Hf; cbn [carry]; [by eexists|].
  apply Forall_cons in Hf as [[Hi (hop & Hhop & Hl & Hd)] Hf]. cbn in *.
  destruct (Hp i (if i =? 0 then paths.1 else paths.2)) as (hop' & Hhop' & Hpr).
  { destruct Hi as [->| ->]; cbn; auto. }
  assert (hop' = hop) as -> by congruence.
  destruct (through_ok hop.2 _ wc _ Hpr Hl Hd) as (rs' & -> & Hpr').
  destruct (IH (if i =? 0 then (rs', paths.2) else (paths.1, rs'))) as (ps & ->); [|done|].
  - intros j rs Hj. destruct Hi as [->| ->]; cbn in Hj; destruct Hj as [[-> ->]|[-> ->]]; eauto;
      apply Hp; auto.
  - by exists ps.
Qed.
End Relays.

(** ** From end to end *)

(** Indices for a permutation of a list whose elements are known by index. *)
Lemma permuted_indices {A B} (f : A -> B) (P : B -> Z -> Prop) (l : list A) (ds : list B) :
  f <$> l ≡ₚ ds -> (forall i d, ds !! i = Some d -> P d (Z.of_nat i)) ->
  exists ixs, ixs ≡ₚ seqZ 0 (len ds) /\ Forall2 (fun a i => P (f a) i) l ixs.
Proof.
  intros Hp Hd.
  assert (exists ps : list (B * Z), ps.*1 = ds /\ ps.*2 = seqZ 0 (len ds) /\ Forall (fun p => P p.1 p.2) ps)
    as (ps & H1 & H2 & H3).
  { exists (zip ds (seqZ 0 (len ds))).
    assert (length (seqZ 0 (len ds)) = length ds) as Hl by (rewrite length_seqZ; lia).
    split_and!; [apply fst_zip; lia | apply snd_zip; lia |].
    apply Forall_lookup. intros i [d z] Hz. apply lookup_zip_Some in Hz as [Hz1 Hz2]. cbn.
    apply lookup_seqZ in Hz2 as [-> _]. rewrite Z.add_0_l. by apply Hd. }
  rewrite <-H1 in Hp. destruct (Permutation_map_inv _ _ Hp) as (ps' & Hm & Hpp).
  exists ps'.*2. split.
  - rewrite <-H2. symmetry. by apply fmap_Permutation.
  - assert (Forall (fun p => P p.1 p.2) ps') as H3' by (by rewrite <-Hpp).
    clear -Hm H3'. revert l Hm. induction H3' as [|p ps' HP _ IH]; intros [|a l] Hm; try discriminate.
    + constructor.
    + cbn in Hm. injection Hm as Ha Hm. constructor; [by rewrite Ha | by apply IH].
Qed.

Section EndToEnd.
Context {S : Type} {split : S -> list byte -> list Chunk * S} {next_seq stream_id : S -> Z} {inv : S -> Prop}
  `{!ChunkerSpec S split next_seq stream_id inv} `{!ChunkerPadding S split}.
Context (new_chunker : string -> ChunkerConfig -> S).
Context (keystream : list byte -> nat -> list byte).
Context (seal : list byte -> list byte -> list byte -> list byte -> list byte).
Context (open : list byte -> list byte -> list byte -> list byte -> option (list byte)).
Context (rand : Z -> nat -> Z -> option (list byte)) (coin : Z -> Z) (sample : option Z).
Context (sha256 : list byte -> list byte) (x25519 : list byte -> list byte -> option (list byte)) (basepoint : list byte).
Context (ecfg : ExitNode.ExitConfig) (reject_text : ExitNode.port_error -> string) (dial_text : string -> string)
  (dialer : string -> option string).

Hypothesis keystream_length : forall k n, length (keystream k n) = n.
Hypothesis open_seal : forall k n pt ad, open k n (seal k n pt ad) ad = Some pt.
Hypothesis rand_ok : forall k w n, 0 <= n -> exists b, rand k w n = Some b /\ len b = n.
Hypothesis x25519_comm : forall a b pa pb,
  x25519 a basepoint = Some pa -> x25519 b basepoint = Some pb -> x25519 a pb = x25519 b pa.
Hypothesis x25519_length : forall a b p, x25519 a b = Some p -> length p = 32%nat.

Let send : list (Z * Wire.WireChunk) -> Z -> Wire.WireChunk -> option string := fun _ _ _ => None.
Let write : list byte -> list byte -> nat * option string := fun _ data => (length data, None).

(** The circuit was set up: the exit accepted the setup of the entry, whatever
    other handlers did on it meanwhile, and the entry derived its key from the
    answer. *)
Definition established (c : Dispatcher.DispatcherConfig) (setup : Circuit.CircuitSetup)
    (e1 : ExitNode.ExitNode) (id : string) : Prop :=
  exists others e now ra rb priv ack,
    ExitNode.HandleCircuitSetup ecfg reject_text dial_text dialer sha256 x25519 basepoint others e now (Some rb) setup
      = (e1, Ok ack) /\ Circuit.ca_Accepted ack = true /\
    length ra = 32%nat /\ length rb = 32%nat /\
    Circuit.GenerateECDHKeyPair x25519 basepoint (Some ra) = Ok (priv, Circuit.cs_ECDHPubKey setup) /\
    Circuit.DeriveSharedKey sha256 x25519 priv (Circuit.ca_ECDHPubKey ack) = Ok (Dispatcher.E2EKey c) /\
    Circuit.cs_CircuitID setup = Dispatcher.CircuitID c /\ id = Kx.EncodeToString (Dispatcher.CircuitID c).

Lemma established_circuit c setup e1 id :
  established c setup e1 id ->
  ExitNode.closed e1 = false /\ exists now,
    ExitNode.circuits e1 !! id = Some (ExitNode.new_circuit ecfg now id setup (Dispatcher.E2EKey c)).
Proof.
  intros (others & e & now & ra & rb & priv & ack & Hs & Hacc & Hra & Hrb & Hg & Hd & Hid & ->).
  pose proof (ExitNode.HandleCircuitSetup_cases ecfg reject_text dial_text dialer sha256 x25519 basepoint
    others e now (Some rb) setup) as H.
  cbv zeta in H. rewrite Hs in H. destruct H as [H _].
  destruct H as (pub & key & (_ & _ & _ & priv' & Hg' & Hd') & _ & Hcl & Ha & ->); [by exists ack|].
  split; [done|]. exists now. cbn [ExitNode.put_circuit ExitNode.circuits]. rewrite Hid, lookup_insert_eq. f_equal. f_equal.
  injection Ha as ->. cbn in Hd.
  rewrite (Circuit.DeriveSharedKey_agree sha256 x25519 basepoint x25519_comm x25519_length
    ra rb priv (Circuit.cs_ECDHPubKey setup) priv' pub Hra Hrb Hg Hg') in Hd. congruence.
Qed.

(** C1. A stream from end to end. The circuit was established, both paths have a
    first hop whose key every relay of the path holds, and the window and the
    limits of the exit leave room for the stream. Then the session of the
    entry sends chunks that all relays forward; and in whatever order the
    chunks of the two paths reach the exit, at whatever times, if an end
    marker follows them the exit takes every chunk (at most reporting that
    its retransmission requests are used up), and the target has received
    exactly the bytes the client wrote, in order and once. *)
Theorem proxied_stream_arrives c seed d now reads setup e1 id paths :
  Dispatcher.NewDispatcher new_chunker c seed = Ok d -> Dispatcher.routable c ->
  (forall name cc, inv (new_chunker name cc)) -> Forall (fun data => len data < 2 ^ 32) reads ->
  established c setup e1 id ->
  (forall i rs, (i = 0 /\ rs = paths.1) \/ (i = 1 /\ rs = paths.2) ->
     exists hop, Dispatcher.path_of c i ≫= Dispatcher.next_hop c = Some hop /\ provisioned id hop.2 rs) ->
  let n := len (Dispatcher.cut (split := split) (Dispatcher.chunker d) reads) in
  n <= ExitNode.window ecfg -> ExitNode.window ecfg < 2 ^ 31 ->
  Exit.within (MaxReassemblyChunks (ExitNode.ChunkerCfg ecfg)) n ->
  Exit.within (MaxReassemblyBytes (ExitNode.ChunkerCfg ecfg)) (len (mjoin reads)) ->
  exists d' datas ends paths',
    Dispatcher.Run split keystream seal rand coin send d now reads Dispatcher.AtEOF = (d', datas ++ ends, None) /\
    carry keystream sample id paths (datas ++ ends) = (paths', Ok <$> (datas ++ ends)) /\
    forall arrivals marks,
      (fun a : ExitNode.arrival => (a.1.2, a.2)) <$> arrivals ≡ₚ datas ->
      marks <> [] -> Forall (fun a : ExitNode.arrival => (a.1.2, a.2) ∈ ends) marks ->
      exists e2 rs circ,
        ExitNode.handle_all ecfg write open e1 id (arrivals ++ marks) = (e2, rs) /\
        Forall ExitNode.taken rs /\ ExitNode.circuits e2 !! id = Some circ /\
        ExitNode.t_written (ExitNode.targetConn circ) = mjoin reads.
Proof.
  intros Hnew Hc Hinv Hf Hest Hpaths n Hn Hw Hmc Hmb.
  destruct (established_circuit c setup e1 id Hest) as (Hopen & now1 & Hcirc).
  assert (Circuit.cs_CircuitID setup = Dispatcher.CircuitID c) as Hid.
  { destruct Hest as (? & ? & ? & ? & ? & ? & ? & ? & ? & ? & ? & ? & ? & H & _). exact H. }
  set (payloads := Payload <$> Dispatcher.cut (split := split) (Dispatcher.chunker d) reads) in *.
  assert (len payloads = n) as Hpl by (unfold payloads, n; by rewrite length_fmap).
  destruct (Dispatcher.Run_sends (split := split) new_chunker keystream seal open rand coin keystream_length open_seal
    rand_ok c seed d now reads Hnew Hc Hinv Hf) as (d' & datas & w0 & w1 & Hrun & Hjoin & Hlen & Hdatas & He0 & He1).
  { fold payloads. lia. }
  fold payloads in Hjoin, Hlen, Hdatas, He0, He1.
  destruct (carry_ok keystream sample id c (datas ++ [(0, w0); (1, w1)]) paths Hpaths) as [paths' Hcarry].
  { apply Forall_app. split.
    - apply Forall_lookup. intros i a Ha.
      destruct (lookup_lt_is_Some_2 payloads i) as [p Hp]; [apply lookup_lt_Some in Ha; lia|].
      destruct (Hdatas i a p Ha Hp) as (H1 & H2 & _). done.
    - destruct He0 as (A1 & A2 & _), He1 as (B1 & B2 & _).
      constructor; [by split|]. constructor; [by split|]. constructor. }
  exists d', datas, [(0, w0); (1, w1)], paths'. split_and!; [done | done |].
  intros arrivals marks Hperm Hmarks Hends.
  destruct (permuted_indices (fun a : ExitNode.arrival => (a.1.2, a.2))
    (fun a i => exists chunk, Circuit.DecodeChunk open a.2 (Dispatcher.E2EKey c) (Dispatcher.CircuitID c) = Ok chunk /\
                  Streaming.data_chunk 0 payloads i chunk) arrivals datas Hperm) as (ixs & Hixs & Hall).
  { intros i a Ha. destruct (lookup_lt_is_Some_2 payloads i) as [p Hp]; [apply lookup_lt_Some in Ha; lia|].
    destruct (Hdatas i a p Ha Hp) as (_ & _ & chunk & Hd & H1 & H2 & H3 & H4 & H5).
    exists chunk. split; [done|]. split_and!; auto. unfold Exit.pl. rewrite Nat2Z.id.
    by rewrite (list_lookup_total_correct _ _ _ Hp). }
  destruct (ExitNode.stream_delivered ecfg write open 0 payloads ltac:(lia) Hw ltac:(done)
    e1 id now1 setup (Dispatcher.E2EKey c) ixs arrivals marks Hopen Hcirc) as (e2 & rs & Hh & Ht & _ & circ & Hl & _ & _ & Hrec).
  - by rewrite Hixs, Hlen.
  - by rewrite Hpl.
  - by rewrite Hjoin.
  - rewrite Hid. exact Hall.
  - done.
  - rewrite Hid. apply Forall_forall. intros a Ha. rewrite Forall_forall in Hends. specialize (Hends a Ha).
    apply elem_of_cons in Hends as [Hends|Hends%list_elem_of_singleton]; injection Hends as _ Hends;
      [destruct He0 as (_ & _ & chunk & Hd & Hp) | destruct He1 as (_ & _ & chunk & Hd & Hp)];
      exists chunk; cbn in Hd; by rewrite Hends.
  - exists e2, rs, circ. split_and!; [done | done | done |].
    rewrite (ExitNode.rd_target _ _ _ Hrec). exact Hjoin.
Qed.
End EndToEnd.

(** A concrete circuit for the witness: two paths of one relay each, a fixed
    chunker with chunks of two bytes, and the toy ciphers of Circuit.v. *)
Module Sample.
Definition ra : list byte := replicate 32 x41.
Definition rb : list byte := replicate 32 x42.
Definition base : list byte := be_bytes 32 9.
Definition public (r : list byte) : list byte := be_bytes 32 (be_Z (Circuit.clamp r) * be_Z base).
Definition key : list byte :=
  match Circuit.DeriveSharedKey Circuit.toy_sha256 Circuit.toy_x25519 (Circuit.clamp ra) (public rb) with
  | Ok k => k
  | Err _ => []
  end.
Definition cid : list byte := replicate 16 x07.
Definition small : ChunkerConfig :=
  {| MaxChunkSize := 2; MinChunkSize := 1; PaddingMin := 0; PaddingMax := 0; DisablePadding := true;
     DebugFixedSizes := false; PaddingSeed := [x01]; MaxReassemblyChunks := 16; MaxReassemblyBytes := 64;
     StreamReassemblyTimeout := 0 |}.
Definition path (r : string) (b : byte) : PathSelect.Path := PathSelect.MkPath [r] [replicate 32 b].
Definition cfg : Dispatcher.DispatcherConfig :=
  Dispatcher.MkConfig "" small ExitNode.DefaultCircuitConfig (Some (path "r1" x11)) (Some (path "r2" x22))
    key cid "exit" false None.
Definition chunker (_ : string) (cc : ChunkerConfig) : Chunkers.fixedChunker := Chunkers.newFixedChunker cc [].
Definition disp : Dispatcher.Dispatcher (S := Chunkers.fixedChunker) :=
  Dispatcher.MkDispatcher cfg (chunker "" small) small 0 0 false (Dispatcher.MkStats 0 0 0 0) Manager.RoundRobinStrategy 0.
Definition rand (k : Z) (w : nat) (n : Z) : option (list byte) := Some (replicate (Z.to_nat n) x00).
Definition setup : Circuit.CircuitSetup :=
  {| Circuit.cs_CircuitID := cid; Circuit.cs_ECDHPubKey := public ra; Circuit.cs_TargetAddr := "10.0.0.1:80" |}.
Definition id : string := Kx.EncodeToString cid.
Definition exit : ExitNode.ExitNode :=
  (ExitNode.HandleCircuitSetup ExitNode.DefaultExitConfig (fun _ => ""%string) (fun t => t) (fun _ => None)
     Circuit.toy_sha256 Circuit.toy_x25519 base (fun e => e) ExitNode.NewExitNode 0 (Some rb) setup).1.
Definition relay (b : byte) : Relay.Relay :=
  (Relay.AddCircuit (Relay.NewRelay Relay.DefaultRelayConfig) id (replicate 32 b) None).1.
Definition reads : list (list byte) := [[x01; x02; x03]; [x04]].

Lemma rand_ok k w n : 0 <= n -> exists b, rand k w n = Some b /\ len b = n.
Proof. intros. eexists. split; [done|]. rewrite length_replicate. lia. Qed.

Lemma routable : Dispatcher.routable cfg.
Proof.
  split; [by vm_compute|]. split; [by vm_compute|]. intros i. unfold Dispatcher.path_of.
  destruct (i =? 0); eexists; (split; [reflexivity|]); split; by vm_compute.
Qed.

Lemma relays_provisioned i rs :
  (i = 0 /\ rs = [relay x11]) \/ (i = 1 /\ rs = [relay x22]) ->
  exists hop, Dispatcher.path_of cfg i ≫= Dispatcher.next_hop cfg = Some hop /\ provisioned id hop.2 rs.
Proof.
  intros [[-> ->]|[-> ->]]; (eexists; split; [reflexivity|]); (constructor; [|constructor]);
    eexists; split; by vm_compute.
Qed.

Lemma setup_established :
  established Circuit.toy_sha256 Circuit.toy_x25519 base ExitNode.DefaultExitConfig (fun _ => ""%string)
    (fun t => t) (fun _ => None) cfg setup exit id.
Proof.
  eexists (fun e => e), ExitNode.NewExitNode, 0, ra, rb, (Circuit.clamp ra), _. split; [|split].
  - unfold exit. by vm_compute.
  - reflexivity.
  - split_and!; by vm_compute.
Qed.
End Sample.

#[local] Existing Instance Chunkers.fixed_spec.
#[local] Existing Instance Chunkers.fixed_padding.
Lemma proxied_stream_arrives_witness :
  exists d' datas ends paths',
    Dispatcher.Run Chunkers.fixed_Split Circuit.toy_keystream Circuit.toy_seal Sample.rand (fun _ => 0)
      (fun _ _ _ => None) Sample.disp 0 Sample.reads Dispatcher.AtEOF = (d', datas ++ ends, None) /\
    carry Circuit.toy_keystream None Sample.id ([Sample.relay x11], [Sample.relay x22]) (datas ++ ends)
      = (paths', Ok <$> (datas ++ ends)) /\
    forall arrivals marks,
      (fun a : ExitNode.arrival => (a.1.2, a.2)) <$> arrivals ≡ₚ datas ->
      marks <> [] -> Forall (fun a : ExitNode.arrival => (a.1.2, a.2) ∈ ends) marks ->
      exists e2 rs circ,
        ExitNode.handle_all ExitNode.DefaultExitConfig (fun _ data => (length data, None)) Circuit.toy_open
          Sample.exit Sample.id (arrivals ++ marks) = (e2, rs) /\
        Forall ExitNode.taken rs /\ ExitNode.circuits e2 !! Sample.id = Some circ /\
        ExitNode.t_written (ExitNode.targetConn circ) = [x01; x02; x03; x04].
Proof.
  exact (proxied_stream_arrives (split := Chunkers.fixed_Split) Sample.chunker Circuit.toy_keystream Circuit.toy_seal
    Circuit.toy_open Sample.rand (fun _ => 0) None Circuit.toy_sha256 Circuit.toy_x25519 Sample.base
    ExitNode.DefaultExitConfig (fun _ => ""%string) (fun t => t) (fun _ => None)
    (fun k n => length_replicate n x5a) Circuit.toy_open_seal Sample.rand_ok Circuit.toy_x25519_comm
    ltac:(by intros ??? [= <-])
    Sample.cfg None Sample.disp 0 Sample.reads Sample.setup Sample.exit Sample.id ([Sample.relay x11], [Sample.relay x22])
    ltac:(reflexivity) Sample.routable (fun _ cc => Chunkers.newFixedChunker_inv cc [])
    ltac:(repeat constructor) Sample.setup_established Sample.relays_provisioned
    ltac:(vm_compute; discriminate) ltac:(vm_compute; reflexivity)
    ltac:(intros _; vm_compute; discriminate) ltac:(intros _; vm_compute; discriminate)).
Defined.

(** ** What goes wrong *)

(** An end marker that overtakes a data chunk ends the stream: the exit
    flushes what it holds, reports success, and the late chunk is dropped
    without an error, so that the target misses its bytes. *)
Theorem early_end_marker_truncates :
  let data seq b := {| StreamID := 0; Sequence := seq; Total := 0; Type_ := ChunkData; Payload := [b]; PaddingLen := 0 |} in
  let fin := {| StreamID := 0; Sequence := 3; Total := 0; Type_ := ChunkStreamEnd; Payload := []; PaddingLen := 0 |} in
  let c := ExitNode.new_circuit ExitNode.DefaultExitConfig 0 Sample.id Sample.setup Sample.key in
  let '(c', rs) := ExitNode.run_chunks ExitNode.DefaultExitConfig (fun _ d => (length d, None)) c
    [(0, 0, data 0 x61); (0, 0, data 2 x63); (0, 1, fin); (1, 0, data 1 x62)] in
  rs = [Ok None; Ok None; Ok None; Ok None] /\ ExitNode.t_written (ExitNode.targetConn c') = [x61; x63].
Proof. vm_compute. done. Qed.

(** A key stream that depends on the key. *)
Definition keyed_stream (k : list byte) (n : nat) : list byte := replicate n (default x00 (list.head k)).

(** Over a path of two relays the header names the first relay itself as the
    next hop, and the second relay, which holds its own key, rejects every
    chunk: the hop that an earlier chunk was to leave in its table does not
    exist. *)
Theorem second_relay_rejects :
  let c := Dispatcher.MkConfig "" Sample.small ExitNode.DefaultCircuitConfig
    (Some (PathSelect.MkPath ["r1"; "r2"] [replicate 32 x11; replicate 32 x22]))
    (Some (Sample.path "r3" x33)) Sample.key Sample.cid "exit" false None in
  let chunk := {| StreamID := 0; Sequence := 0; Total := 0; Type_ := ChunkData; Payload := [x61]; PaddingLen := 0 |} in
  exists hop wc,
    Dispatcher.path_of c 0 ≫= Dispatcher.next_hop c = Some hop /\
    Dispatcher.encode keyed_stream Circuit.toy_seal Sample.rand c 0 chunk hop = Ok wc /\
    (Relay.ForwardChunk keyed_stream (Sample.relay x11) None Sample.id wc).1.2 = Ok ("r1"%string, wc) /\
    (through keyed_stream None Sample.id [Sample.relay x11; Sample.relay x22] wc).2
      = Err (Relay.HeaderDecode (Circuit.BadNextHopLen 13105)).
Proof. eexists _, _. split; [reflexivity|]. split; [vm_compute; reflexivity|]. vm_compute. by split. Qed.

End ProxyChain.
