(* ===== verification/Totp.v ===== *)
(** * Second factor (internal/web/totp*.go)

    One-time passwords with their enrolment states, lockout, recovery codes
    and key rotation; the encryption of secrets, the encrypted files of a
    persistent store, the migration of old files and the rotation of the
    master key. HMAC, SHA-256, HKDF, AES-GCM and the JSON codec are
    parameters; the clock, random bytes and the outcome of file operations
    are arguments. User names are taken to be plain file names. *)
From stdpp Require Import prelude gmap list strings sorting.
From Stdlib Require Import Strings.Byte ZArith Lia.
From S2P Require Import Prelude GoBytes GoEncoding GoNet.
Local Open Scope Z_scope.

Module Totp.

(** ** Constants and states *)

Definition second : Z := 10 ^ 9.
Definition totpPeriod : Z := 30.
Definition totpDigits : Z := 6.
Definition totpSkew : Z := 1.
Definition totpKeySize : Z := 32.
Definition maxFailedTOTP : Z := 5.
Definition totpLockout : Z := 30 * second.
Definition numRecoveryCodes : nat := 10.
Definition recoveryCodeLen : nat := 8.
Definition pendingTTL : Z := 10 * 60 * second.
Definition pendingSweepInterval : Z := 60 * second.
Definition recoveryAlphabet : string := "ABCDEFGHJKMNPQRSTUVWXYZ23456789".

(** An [EnrollmentState] is an [int]; a file may hold any. *)
Definition EnrollmentState : Type := Z.
Definition StateDisabled : EnrollmentState := 0.
Definition StatePending : EnrollmentState := 1.
Definition StateVerified : EnrollmentState := 2.
Definition StateRotating : EnrollmentState := 3.
Definition StateDisabledByAdmin : EnrollmentState := 4.

(** Instants in nanoseconds since 1970; the zero time is in the year 1. *)
Definition zeroTime : Z := -62135596800 * second.
Definition IsZero (t : Z) : bool := t =? zeroTime.
Definition Unix (t : Z) : Z := t / second.
Definition Sub (t u : Z) : Z := Z.max (- 2 ^ 63) (Z.min (2 ^ 63 - 1) (t - u)).

Record totpState : Type := MkState {
  EncryptedSecret : list byte; OldEncryptedSecret : list byte; RecoveryCodes : list string;
  State : EnrollmentState; PendingSince : Z; FailedAttempts : Z; LockedUntil : Z
}.

Definition set_secrets (st : totpState) (new old : list byte) (s : EnrollmentState) : totpState :=
  MkState new old (RecoveryCodes st) s (PendingSince st) (FailedAttempts st) (LockedUntil st).
Definition set_codes (st : totpState) (codes : list string) : totpState :=
  MkState (EncryptedSecret st) (OldEncryptedSecret st) codes (State st) (PendingSince st)
    (FailedAttempts st) (LockedUntil st).
Definition set_state (st : totpState) (s : EnrollmentState) (since : Z) : totpState :=
  MkState (EncryptedSecret st) (OldEncryptedSecret st) (RecoveryCodes st) s since
    (FailedAttempts st) (LockedUntil st).
Definition set_attempts (st : totpState) (n until : Z) : totpState :=
  MkState (EncryptedSecret st) (OldEncryptedSecret st) (RecoveryCodes st) (State st) (PendingSince st)
    n until.

(** ** Key manager (totp_keymanager.go) *)
Definition masterSecretSize : Z := 32.
Definition gcmNonceSize : Z := 12.
Definition DefaultMasterSecretPath : string := "/var/lib/meshdesk/totp/master.key".

Record TOTPKeyManager : Type := MkKM { encKey : list byte; km_path : string }.
Definition MasterSecretPath (km : TOTPKeyManager) : string := km_path km.

Inductive crypto_error : Type := BadKeySize | NoRandom | CiphertextTooShort | DecryptFailed.
Definition newCipher (key : list byte) : result crypto_error unit :=
  if (len key =? 16) || (len key =? 24) || (len key =? 32) then Ok tt else Err BadKeySize.

(** The persisted form of a state; an absent time is [None]. *)
Record persistedState : Type := MkPersisted {
  Version : Z; ps_EncryptedSecret : list byte; ps_OldEncryptedSecret : list byte;
  ps_RecoveryCodes : list string; ps_State : Z; ps_PendingSince : option Z;
  ps_FailedAttempts : Z; ps_LockedUntil : option Z
}.
Definition persistedStateVersion : Z := 1.
Definition toPersistedState (st : totpState) : persistedState :=
  MkPersisted persistedStateVersion (EncryptedSecret st) (OldEncryptedSecret st) (RecoveryCodes st) (State st)
    (if negb (IsZero (PendingSince st)) then Some (PendingSince st) else None)
    (FailedAttempts st)
    (if negb (IsZero (LockedUntil st)) then Some (LockedUntil st) else None).
Definition fromPersistedState (ps : persistedState) : totpState :=
  MkState (ps_EncryptedSecret ps) (ps_OldEncryptedSecret ps) (ps_RecoveryCodes ps) (ps_State ps)
    (match ps_PendingSince ps with Some t => t | None => zeroTime end)
    (ps_FailedAttempts ps)
    (match ps_LockedUntil ps with Some t => t | None => zeroTime end).

(** The files of a persistent store: below users/ by user name the blobs
    [.enc], those of a rotation [.enc.new], leftovers [.tmp] and old
    plaintext [.json]; and the master key with its [.new] and [.old]. *)
Record files : Type := MkFiles {
  enc : gmap string (list byte); enc_new : gmap string (list byte); tmp : gset string;
  json : gmap string (list byte);
  master : option (list byte); master_new : option (list byte); master_old : option (list byte)
}.
Definition set_enc (f : files) (m : gmap string (list byte)) : files :=
  MkFiles m (enc_new f) (tmp f) (json f) (master f) (master_new f) (master_old f).
Definition set_enc_new (f : files) (m : gmap string (list byte)) : files :=
  MkFiles (enc f) m (tmp f) (json f) (master f) (master_new f) (master_old f).
Definition set_tmp (f : files) (t : gset string) : files :=
  MkFiles (enc f) (enc_new f) t (json f) (master f) (master_new f) (master_old f).
Definition set_json (f : files) (m : gmap string (list byte)) : files :=
  MkFiles (enc f) (enc_new f) (tmp f) m (master f) (master_new f) (master_old f).
Definition set_master (f : files) (m n o : option (list byte)) : files :=
  MkFiles (enc f) (enc_new f) (tmp f) (json f) m n o.

Record TOTPStore : Type := MkStore {
  users : gmap string totpState; km : option TOTPKeyManager; storeDir : string; stopped : bool; disk : files
}.
Definition set_users (s : TOTPStore) (m : gmap string totpState) : TOTPStore :=
  MkStore m (km s) (storeDir s) (stopped s) (disk s).
Definition set_disk (s : TOTPStore) (f : files) : TOTPStore :=
  MkStore (users s) (km s) (storeDir s) (stopped s) f.
Definition set_km (s : TOTPStore) (k : TOTPKeyManager) : TOTPStore :=
  MkStore (users s) (Some k) (storeDir s) (stopped s) (disk s).
Definition put (s : TOTPStore) (username : string) (st : totpState) : TOTPStore :=
  set_users s (<[username := st]> (users s)).

(** The outcome of writing a file under a temporary name and renaming it,
    or of removing one. *)
Inductive file_outcome : Type := Done | NoDirectory | WriteFailed (partial : bool) | RenameFailed.

Definition writeBlobAtomic (f : files) (o : file_outcome) (username : string) (data : list byte)
    : files * bool :=
  match o with
  | Done => (set_tmp (set_enc f (<[username := data]> (enc f))) (tmp f ∖ {[username]}), true)
  | NoDirectory => (f, false)
  | WriteFailed partial => (if partial then set_tmp f (tmp f ∪ {[username]}) else f, false)
  | RenameFailed => (set_tmp f (tmp f ∖ {[username]}), false)
  end.
Definition removeFromDisk (s : TOTPStore) (o : file_outcome) (username : string) : TOTPStore * bool :=
  if String.eqb (storeDir s) "" then (s, true) else
  match o with
  | Done => (set_disk s (set_enc (disk s) (delete username (enc (disk s)))), true)
  | _ => (s, false)
  end.
Definition cleanupStaleTmpFiles (f : files) (removable : gset string) : files := set_tmp f (tmp f ∖ removable).

(** What the world contributes to one call: the clock at its first and its
    last reading, random bytes ([None] when reading them fails) and the
    outcome of the write. *)
Inductive code_source : Type := Random (b : list byte) | Clock (nanos : list Z).
Record env : Type := MkEnv {
  t1 : Z; t2 : Z; secret_rand : option (list byte); codes_rand : nat -> code_source;
  seal_nonce : option (list byte); blob_nonce : option (list byte); outcome : file_outcome
}.

(** ** Codes *)

Definition generateTOTPSecret (rand : option (list byte)) : option string := Base32.EncodeToString <$> rand.

Definition alphabet_at (z : Z) : byte :=
  nth (Z.to_nat z) (bytes_of_string recoveryAlphabet) (byte_of_Z 0).
Definition recovery_code (src : code_source) : string :=
  let buf := match src with
             | Random b => b
             | Clock nanos => (fun n => alphabet_at (Z.rem n (strlen recoveryAlphabet))) <$> nanos
             end in
  string_of_bytes ((fun b => alphabet_at (Z_of_byte b mod strlen recoveryAlphabet)) <$> buf).
Definition generateRecoveryCodes (rand : nat -> code_source) : list string :=
  (fun i => recovery_code (rand i)) <$> seq 0 numRecoveryCodes.

(** [%06d] of a number below 10^6 *)
Definition pad6 (n : Z) : string :=
  let d := digits 6 10 n in
  (String.concat "" (replicate (6 - String.length d) "0") +:+ d)%string.

Definition QRURL (issuer username secret : string) : string :=
  ("otpauth://totp/" +:+ issuer +:+ ":" +:+ username +:+ "?secret=" +:+ secret +:+ "&issuer=" +:+ issuer +:+
   "&algorithm=SHA256&digits=" +:+ digits 20 10 totpDigits +:+ "&period=" +:+ digits 20 10 totpPeriod)%string.

Section Crypto.
Context (hmac : list byte -> list byte -> list byte).
Context (gcm_seal : list byte -> list byte -> list byte -> list byte -> list byte).
Context (gcm_open : list byte -> list byte -> list byte -> list byte -> option (list byte)).
Context (hkdf : list byte -> list byte) (sha256 : list byte -> list byte).
Context (marshal : persistedState -> list byte) (unmarshal : list byte -> option persistedState).

(** ** One-time passwords (totp.go)

    [None] is an index out of range. *)
Definition computeTOTPCode (secret : list byte) (counter : Z) : option string :=
  let hash := hmac secret (be_bytes 8 counter) in
  last ← last hash;
  let offset := Z.to_nat (Z.land (Z_of_byte last) 15) in
  b0 ← hash !! offset;
  b1 ← hash !! (offset + 1)%nat;
  b2 ← hash !! (offset + 2)%nat;
  b3 ← hash !! (offset + 3)%nat;
  let binCode := Z.lor (Z.lor (Z.lor (Z.shiftl (Z.land (Z_of_byte b0) 127) 24)
    (Z.shiftl (Z_of_byte b1) 16)) (Z.shiftl (Z_of_byte b2) 8)) (Z_of_byte b3) in
  Some (pad6 (binCode mod 10 ^ 6)).

Definition offsets (skew : Z) : list Z := (fun i => Z.of_nat i - skew) <$> seq 0 (Z.to_nat (2 * skew + 1)).
Definition validateTOTP (secretBase32 code : string) (t skew : Z) : bool :=
  match Base32.DecodeString secretBase32 with
  | None => false
  | Some secret =>
      let counter := u64 (Z.quot (Unix t) totpPeriod) in
      existsb (fun offset => bool_decide (computeTOTPCode secret (u64 (counter + u64 offset)) = Some code))
        (offsets skew)
  end.

(** ** Sealing (totp_keymanager.go) *)
Definition Seal (km : TOTPKeyManager) (nonce : option (list byte)) (username plaintextSecret : string)
    : result crypto_error (list byte) :=
  newCipher (encKey km) ≫= fun _ =>
  match nonce with
  | None => Err NoRandom
  | Some nonce =>
      Ok (nonce ++ gcm_seal (encKey km) nonce (bytes_of_string plaintextSecret) (bytes_of_string username))
  end.
Definition Open (km : TOTPKeyManager) (username : string) (ciphertext : list byte) : result crypto_error string :=
  if len ciphertext <? gcmNonceSize then Err CiphertextTooShort else
  newCipher (encKey km) ≫= fun _ =>
  let nonce := slice ciphertext 0 gcmNonceSize in
  let encrypted := drop (Z.to_nat gcmNonceSize) ciphertext in
  match gcm_open (encKey km) nonce encrypted (bytes_of_string username) with
  | None => Err DecryptFailed
  | Some plaintext => Ok (string_of_bytes plaintext)
  end.

Inductive manager_error : Type := StatMaster | ReadMaster | MasterSize | MasterRandom | MasterDirectory | WriteMaster | MasterShort.
Definition NewTOTPKeyManagerFromBytes (masterSecret : list byte) : result manager_error TOTPKeyManager :=
  if len masterSecret <? masterSecretSize then Err MasterShort
  else Ok (MkKM (hkdf (slice masterSecret 0 masterSecretSize)) "").

(** What [os.Stat] says of the master key file. *)
Inductive stat_result : Type := Present (content : option (list byte)) | Absent | StatFailed.
(** The key manager and the key that was written, if any. *)
Definition NewTOTPKeyManager (masterSecretPath legacyTOTPSecret : string) (file : stat_result)
    (rand : option (list byte)) (mkdir_ok write_ok : bool) : result manager_error (TOTPKeyManager * option (list byte)) :=
  let path := if String.eqb masterSecretPath "" then DefaultMasterSecretPath else masterSecretPath in
  match file with
  | StatFailed => Err StatMaster
  | Present None => Err ReadMaster
  | Present (Some masterSecret) =>
      if negb (len masterSecret =? masterSecretSize) then Err MasterSize
      else Ok (MkKM (hkdf masterSecret) path, None)
  | Absent =>
      match rand with
      | None => Err MasterRandom
      | Some rand =>
          let masterSecret :=
            if String.eqb legacyTOTPSecret "" then rand else
            match Base32.DecodeString legacyTOTPSecret with
            | Some decoded =>
                if masterSecretSize <=? len decoded then slice decoded 0 masterSecretSize
                else sha256 (bytes_of_string legacyTOTPSecret)
            | None => sha256 (bytes_of_string legacyTOTPSecret)
            end in
          if negb mkdir_ok then Err MasterDirectory else
          if negb write_ok then Err WriteMaster else
          Ok (MkKM (hkdf masterSecret) path, Some masterSecret)
      end
  end.

(** ** Persistence (totp_persistence.go) *)
Definition persist (s : TOTPStore) (nonce : option (list byte)) (o : file_outcome) (username : string)
    : TOTPStore * bool :=
  match km s with
  | None => (s, true)
  | Some k =>
      if String.eqb (storeDir s) "" then (s, true) else
      match users s !! username with
      | None => removeFromDisk s o username
      | Some st =>
          match Seal k nonce username (string_of_bytes (marshal (toPersistedState st))) with
          | Err _ => (s, false)
          | Ok blob => let '(f, ok) := writeBlobAtomic (disk s) o username blob in (set_disk s f, ok)
          end
      end
  end.
(** [persist] by a caller that only logs its error. *)
Definition persist' (s : TOTPStore) (e : env) (username : string) : TOTPStore :=
  (persist s (blob_nonce e) (outcome e) username).1.

(** One file of the directory; [readable] is whether it can be read. *)
Definition load_entry (s : TOTPStore) (k : TOTPKeyManager) (readable : string -> bool) (u : string * list byte)
    : TOTPStore :=
  if negb (readable u.1) then s else
  match Open k u.1 u.2 with
  | Err _ => s
  | Ok plaintext =>
      match unmarshal (bytes_of_string plaintext) with
      | None => s
      | Some ps => put s u.1 (fromPersistedState ps)
      end
  end.
Definition loadFromDisk (s : TOTPStore) (readable : string -> bool) : TOTPStore :=
  match km s with
  | None => s
  | Some k =>
      if String.eqb (storeDir s) "" then s
      else foldl (fun s u => load_entry s k readable u) s (map_to_list (enc (disk s)))
  end.

(** ** Migration of plaintext files (totp_migration.go) *)
Inductive migrate_error : Type := MigrateRead | MigrateParse | MigrateSeal | MigrateWrite.
Definition name_order (a b : string) : Prop := String.leb (a +:+ ".json") (b +:+ ".json") = true.
#[local] Instance name_order_dec : RelDecision name_order.
Proof. intros a b. unfold name_order. apply _. Defined.

Definition migrate_one (s : TOTPStore) (k : TOTPKeyManager) (readable : string -> bool)
    (nonce : string -> option (list byte)) (o : string -> file_outcome) (removable : string -> bool)
    (username : string) : TOTPStore * result migrate_error unit :=
  match json (disk s) !! username with
  | None => (s, Ok tt)
  | Some plaintext =>
      if negb (readable username) then (s, Err MigrateRead) else
      match unmarshal plaintext with
      | None => (s, Err MigrateParse)
      | Some ps =>
          match Seal k (nonce username) username (string_of_bytes (marshal ps)) with
          | Err _ => (s, Err MigrateSeal)
          | Ok blob =>
              let '(f, ok) := writeBlobAtomic (disk s) (o username) username blob in
              if negb ok then (set_disk s f, Err MigrateWrite) else
              (set_disk s (if removable username then set_json f (delete username (json f)) else f), Ok tt)
          end
      end
  end.
Fixpoint migrate_all (s : TOTPStore) (k : TOTPKeyManager) (readable : string -> bool)
    (nonce : string -> option (list byte)) (o : string -> file_outcome) (removable : string -> bool)
    (names : list string) : TOTPStore * result migrate_error unit :=
  match names with
  | [] => (s, Ok tt)
  | u :: names =>
      let '(s, r) := migrate_one s k readable nonce o removable u in
      match r with
      | Err e => (s, Err e)
      | Ok _ => migrate_all s k readable nonce o removable names
      end
  end.
Definition migratePlaintext (s : TOTPStore) (readable : string -> bool) (nonce : string -> option (list byte))
    (o : string -> file_outcome) (removable : string -> bool) : TOTPStore * result migrate_error unit :=
  match km s with
  | None => (s, Ok tt)
  | Some k =>
      if String.eqb (storeDir s) "" then (s, Ok tt)
      else migrate_all s k readable nonce o removable
             (merge_sort name_order (map_to_list (json (disk s))).*1)
  end.

(** ** Creating a store *)
Definition newTOTPStore (k : option TOTPKeyManager) (dir : string) (f : files) : TOTPStore := MkStore ∅ k dir false f.
Definition no_files : files := MkFiles ∅ ∅ ∅ ∅ None None None.
Definition NewTOTPStore (k : option TOTPKeyManager) : TOTPStore := newTOTPStore k "" no_files.

Inductive open_error : Type := NoKeyManager | NoStoreDir | NoUsersDir | OpenMigrate (e : migrate_error).
Definition NewPersistentTOTPStore (k : option TOTPKeyManager) (dir : string) (f : files) (mkdir_ok : bool)
    (removable_tmp : gset string) (readable : string -> bool) (nonce : string -> option (list byte))
    (o : string -> file_outcome) (removable : string -> bool) : TOTPStore * result open_error unit :=
  let s := newTOTPStore k dir f in
  match k with
  | None => (s, Err NoKeyManager)
  | Some _ =>
      if String.eqb dir "" then (s, Err NoStoreDir) else
      if negb mkdir_ok then (s, Err NoUsersDir) else
      let s := set_disk s (cleanupStaleTmpFiles f removable_tmp) in
      match migratePlaintext s readable nonce o removable with
      | (s, Err e) => (s, Err (OpenMigrate e))
      | (s, Ok _) => (loadFromDisk s readable, Ok tt)
      end
  end.
Definition Close (s : TOTPStore) : TOTPStore := MkStore (users s) (km s) (storeDir s) true (disk s).

(** ** Operations (totp.go) *)
Definition pending_expired (now : Z) (st : totpState) : bool :=
  (State st =? StatePending) && (pendingTTL <? Sub now (PendingSince st)).
(** One tick of [sweepPending]. *)
Definition sweepPending (s : TOTPStore) (now : Z) (o : string -> file_outcome) : TOTPStore :=
  let expired := (map_to_list (filter (fun u => pending_expired now u.2 = true) (users s))).*1 in
  let s := set_users s (filter (fun u => pending_expired now u.2 = false) (users s)) in
  foldl (fun s u => (persist s None (o u) u).1) s expired.

Record EnrollResult : Type := MkEnroll { Secret : string; er_RecoveryCodes : list string; er_State : EnrollmentState }.
Inductive totp_error : Type :=
| AlreadyEnrolled | DisabledByAdmin | GenerateSecret | EncryptSecret (e : crypto_error)
| NotEnrolled | NotVerified (current : EnrollmentState) | NotRotating | DecryptNew (e : crypto_error) | InvalidCode.

(** The stored form of a new secret. *)
Definition encryptSecret (s : TOTPStore) (nonce : option (list byte)) (username secret : string)
    : result crypto_error (list byte) :=
  match km s with Some k => Seal k nonce username secret | None => Ok (bytes_of_string secret) end.
Definition decryptSecret (s : TOTPStore) (username : string) (encrypted : list byte) : result crypto_error string :=
  match km s with Some k => Open k username encrypted | None => Ok (string_of_bytes encrypted) end.

(** The guards of [Enroll] and what it does to a pending entry at once. *)
Definition enroll_guard (s : TOTPStore) (username : string) : TOTPStore * option totp_error :=
  match users s !! username with
  | None => (s, None)
  | Some st =>
      if (State st =? StateVerified) || (State st =? StateRotating) then (s, Some AlreadyEnrolled)
      else if State st =? StateDisabledByAdmin then (s, Some DisabledByAdmin)
      else if State st =? StatePending then (put s username (set_codes (set_secrets st [] [] (State st)) []), None)
      else (s, None)
  end.
Definition Enroll (s : TOTPStore) (e : env) (username : string) : TOTPStore * result totp_error EnrollResult :=
  match enroll_guard s username with
  | (s, Some err) => (s, Err err)
  | (s, None) =>
      match generateTOTPSecret (secret_rand e) with
      | None => (s, Err GenerateSecret)
      | Some secret =>
          match encryptSecret s (seal_nonce e) username secret with
          | Err err => (s, Err (EncryptSecret err))
          | Ok encrypted =>
              let recoveryCodes := generateRecoveryCodes (codes_rand e) in
              let st := MkState encrypted [] recoveryCodes StatePending (t2 e) 0 zeroTime in
              (persist' (put s username st) e username, Ok (MkEnroll secret recoveryCodes StatePending))
          end
      end
  end.

Definition CompleteEnrollment (s : TOTPStore) (e : env) (username : string) : TOTPStore * bool :=
  match users s !! username with
  | None => (s, false)
  | Some st =>
      if negb (State st =? StatePending) then (s, false)
      else (persist' (put s username (set_state st StateVerified zeroTime)) e username, true)
  end.

Definition Get (s : TOTPStore) (username : string) : option totpState := users s !! username.
Definition active (st : totpState) : bool := (State st =? StateVerified) || (State st =? StateRotating).
Definition IsEnrolled (s : TOTPStore) (username : string) : bool :=
  match users s !! username with None => false | Some st => active st end.
Definition Exists (s : TOTPStore) (username : string) : bool := bool_decide (is_Some (users s !! username)).

Definition remove (s : TOTPStore) (e : env) (username : string) : TOTPStore :=
  persist' (set_users s (delete username (users s))) e username.
Definition Disable (s : TOTPStore) (e : env) (username : string) : TOTPStore * bool :=
  match users s !! username with None => (s, false) | Some _ => (remove s e username, true) end.
Definition DisableByAdmin (s : TOTPStore) (e : env) (username : string) : TOTPStore * bool :=
  match users s !! username with
  | None => (s, false)
  | Some st =>
      (persist' (put s username
         (MkState [] [] [] StateDisabledByAdmin zeroTime (FailedAttempts st) (LockedUntil st))) e username, true)
  end.
Definition AdminEnable (s : TOTPStore) (e : env) (username : string) : TOTPStore * bool :=
  match users s !! username with
  | None => (s, false)
  | Some st => if negb (State st =? StateDisabledByAdmin) then (s, false) else (remove s e username, true)
  end.

Definition locked_at (st : totpState) (now : Z) : bool := negb (IsZero (LockedUntil st)) && (now <? LockedUntil st).
(** What a valid code makes of a state. *)
Definition accept (st : totpState) : totpState :=
  let st := if State st =? StatePending then set_state st StateVerified zeroTime else st in
  let st := if State st =? StateRotating then set_secrets st (EncryptedSecret st) [] StateVerified else st in
  set_attempts st 0 zeroTime.
Definition ValidateCode (s : TOTPStore) (e : env) (username code : string) : TOTPStore * bool :=
  match users s !! username with
  | None => (s, false)
  | Some st =>
      if (State st =? StateDisabled) || (State st =? StateDisabledByAdmin) then (s, false) else
      if locked_at st (t1 e) then (s, false) else
      match decryptSecret s username (EncryptedSecret st) with
      | Err _ => (s, false)
      | Ok plaintext =>
          if validateTOTP plaintext code (t2 e) totpSkew
          then (persist' (put s username (accept st)) e username, true)
          else (s, false)
      end
  end.
Definition ValidateCodeWithOld (s : TOTPStore) (e : env) (username code : string) : bool :=
  match users s !! username with
  | None => false
  | Some st =>
      if negb (State st =? StateRotating) || (len (OldEncryptedSecret st) =? 0) then false else
      match decryptSecret s username (OldEncryptedSecret st) with
      | Err _ => false
      | Ok plaintext => validateTOTP plaintext code (t2 e) totpSkew
      end
  end.

Definition RecordFailedAttempt (s : TOTPStore) (e : env) (username : string) : TOTPStore * bool :=
  match users s !! username with
  | None => (s, false)
  | Some st =>
      let n := FailedAttempts st + 1 in
      if maxFailedTOTP <=? n
      then (persist' (put s username (set_attempts st n (t2 e + totpLockout))) e username, true)
      else (put s username (set_attempts st n (LockedUntil st)), false)
  end.
Definition ClearFailedAttempts (s : TOTPStore) (e : env) (username : string) : TOTPStore :=
  match users s !! username with
  | None => s
  | Some st => persist' (put s username (set_attempts st 0 zeroTime)) e username
  end.
Definition IsLocked (s : TOTPStore) (now : Z) (username : string) : bool :=
  match users s !! username with None => false | Some st => locked_at st now end.

(** [codes] without the first [code], if there is one. *)
Fixpoint consume (codes : list string) (code : string) : option (list string) :=
  match codes with
  | [] => None
  | rc :: codes => if String.eqb rc code then Some codes else cons rc <$> consume codes code
  end.
Definition ConsumeRecoveryCode (s : TOTPStore) (e : env) (username code : string) : TOTPStore * bool :=
  match users s !! username with
  | None => (s, false)
  | Some st =>
      if negb (active st) then (s, false) else
      match consume (RecoveryCodes st) code with
      | None => (s, false)
      | Some codes => (persist' (put s username (set_codes st codes)) e username, true)
      end
  end.

(** ** Key rotation (totp_rotation.go) *)
Definition InitiateRotation (s : TOTPStore) (e : env) (username : string) : TOTPStore * result totp_error EnrollResult :=
  match users s !! username with
  | None => (s, Err NotEnrolled)
  | Some st =>
      if negb (State st =? StateVerified) then (s, Err (NotVerified (State st))) else
      match generateTOTPSecret (secret_rand e) with
      | None => (s, Err GenerateSecret)
      | Some newSecret =>
          match encryptSecret s (seal_nonce e) username newSecret with
          | Err err => (s, Err (EncryptSecret err))
          | Ok newEncrypted =>
              let recoveryCodes := generateRecoveryCodes (codes_rand e) in
              let st := set_codes (set_secrets st newEncrypted (EncryptedSecret st) StateRotating) recoveryCodes in
              (persist' (put s username st) e username, Ok (MkEnroll newSecret recoveryCodes StateRotating))
          end
      end
  end.
Definition ConfirmRotation (s : TOTPStore) (e : env) (username code : string) : TOTPStore * option totp_error :=
  match users s !! username with
  | None => (s, Some NotEnrolled)
  | Some st =>
      if negb (State st =? StateRotating) then (s, Some NotRotating) else
      match decryptSecret s username (EncryptedSecret st) with
      | Err err => (s, Some (DecryptNew err))
      | Ok plaintext =>
          if negb (validateTOTP plaintext code (t2 e) totpSkew) then (s, Some InvalidCode)
          else (persist' (put s username (set_secrets st (EncryptedSecret st) [] StateVerified)) e username, None)
      end
  end.
Definition CancelRotation (s : TOTPStore) (e : env) (username : string) : TOTPStore * option totp_error :=
  match users s !! username with
  | None => (s, Some NotEnrolled)
  | Some st =>
      if negb (State st =? StateRotating) then (s, Some NotRotating) else
      let primary := if 0 <? len (OldEncryptedSecret st) then OldEncryptedSecret st else EncryptedSecret st in
      (persist' (put s username (set_secrets st primary [] StateVerified)) e username, None)
  end.

(** ** Rotation of the master key *)

(** The outcomes of one rotation: the new key, the order in which the users
    are visited and what happens to each user and file. *)
Record rotation : Type := MkRotation {
  r_key : option (list byte); r_written : bool; r_order : list string;
  r_seal : string -> option (list byte); r_blob : string -> option (list byte);
  r_write : string -> file_outcome; r_rename : string -> bool;
  r_backup : bool; r_activate : bool; r_restore : bool
}.
Inductive rotate_error : Type :=
| RotateNoDir | RotateNoManager | RotateNoPath | RotateRandom | RotateWriteKey | RotateManager
| RotateDecrypt (u : string) | RotateEncrypt (u : string) | RotateBlob (u : string)
| RotateFinalize (u : string) | RotateBackup | RotateActivate.

(** Phase 2: the new ciphertexts; users without a secret have none. *)
Fixpoint reencrypt (s : TOTPStore) (old new : TOTPKeyManager) (r : rotation) (order : list string)
    : result rotate_error (list (string * option (list byte))) :=
  match order with
  | [] => Ok []
  | u :: order =>
      match users s !! u with
      | None => reencrypt s old new r order
      | Some st =>
          if len (EncryptedSecret st) =? 0
          then rest ← reencrypt s old new r order; Ok ((u, None) :: rest)
          else
            match Open old u (EncryptedSecret st) with
            | Err _ => Err (RotateDecrypt u)
            | Ok plaintext =>
                match Seal new (r_seal r u) u plaintext with
                | Err _ => Err (RotateEncrypt u)
                | Ok c => rest ← reencrypt s old new r order; Ok ((u, Some c) :: rest)
                end
            end
      end
  end.

(** The tmp file is renamed to [.enc.new] instead of [.enc]. *)
Definition persistToNewFile (s : TOTPStore) (r : rotation) (username : string) : TOTPStore * bool :=
  match km s with
  | None => (s, true)
  | Some k =>
      if String.eqb (storeDir s) "" then (s, true) else
      match users s !! username with
      | None => (s, true)
      | Some st =>
          match Seal k (r_blob r username) username (string_of_bytes (marshal (toPersistedState st))) with
          | Err _ => (s, false)
          | Ok blob =>
              match r_write r username with
              | Done => (set_disk s (set_tmp (set_enc_new (disk s) (<[username := blob]> (enc_new (disk s))))
                           (tmp (disk s) ∖ {[username]})), true)
              | o => (set_disk s (writeBlobAtomic (disk s) o username blob).1, false)
              end
          end
      end
  end.

(** Phase 2b: the secrets in memory and the new blobs; the first failure. *)
Fixpoint store_new (s : TOTPStore) (r : rotation) (l : list (string * option (list byte)))
    : TOTPStore * option string :=
  match l with
  | [] => (s, None)
  | (u, c) :: l =>
      let s := match users s !! u, c with
               | Some st, Some c => put s u (set_secrets st c (OldEncryptedSecret st) (State st))
               | _, _ => s
               end in
      match persistToNewFile s r u with
      | (s, false) => (s, Some u)
      | (s, true) => store_new s r l
      end
  end.

(** Phase 3a *)
Definition rename_blob (f : files) (u : string) : files :=
  match enc_new f !! u with
  | None => f
  | Some b => set_enc_new (set_enc f (<[u := b]> (enc f))) (delete u (enc_new f))
  end.
Fixpoint rename_all (f : files) (r : rotation) (l : list string) : files * option string :=
  match l with
  | [] => (f, None)
  | u :: l => if negb (r_rename r u) then (f, Some u) else rename_all (rename_blob f u) r l
  end.

Definition drop_new_key (s : TOTPStore) : TOTPStore :=
  set_disk s (set_master (disk s) (master (disk s)) None (master_old (disk s))).

(** Phases 3b and 3c *)
Definition swap_master (r : rotation) (f : files) : files * option rotate_error :=
  if negb (r_backup r) then (f, Some RotateBackup) else
  let f := set_master f None (master_new f) (master f) in
  if negb (r_activate r)
  then ((if r_restore r then set_master f (master_old f) (master_new f) None else f), Some RotateActivate)
  else (set_master f (master_new f) None (master_old f), None).

Definition RotateMasterKey (s : TOTPStore) (r : rotation) : TOTPStore * option rotate_error :=
  if String.eqb (storeDir s) "" then (s, Some RotateNoDir) else
  match km s with
  | None => (s, Some RotateNoManager)
  | Some oldKM =>
      if String.eqb (MasterSecretPath oldKM) "" then (s, Some RotateNoPath) else
      match r_key r with
      | None => (s, Some RotateRandom)
      | Some newMasterKey =>
          if negb (r_written r) then (s, Some RotateWriteKey) else
          let s := set_disk s (set_master (disk s) (master (disk s)) (Some newMasterKey) (master_old (disk s))) in
          match NewTOTPKeyManagerFromBytes newMasterKey with
          | Err _ => (drop_new_key s, Some RotateManager)
          | Ok newKM =>
              match reencrypt s oldKM newKM r (r_order r) with
              | Err err => (drop_new_key s, Some err)
              | Ok l =>
                  match store_new (set_km s newKM) r l with
                  | (s, Some u) => (drop_new_key (set_km s oldKM), Some (RotateBlob u))
                  | (s, None) =>
                      match rename_all (disk s) r l.*1 with
                      | (f, Some u) => (set_disk s f, Some (RotateFinalize u))
                      | (f, None) => let '(f, err) := swap_master r f in (set_disk s f, err)
                      end
                  end
              end
          end
      end
  end.

(** ** What calls leave alone *)

Lemma persist_frame s n o u :
  users (persist s n o u).1 = users s /\ km (persist s n o u).1 = km s /\
  storeDir (persist s n o u).1 = storeDir s /\ stopped (persist s n o u).1 = stopped s.
Proof.
  unfold persist, removeFromDisk. repeat case_match; simplify_eq/=; done.
Qed.
Lemma users_persist s e u : users (persist' s e u) = users s.
Proof. apply persist_frame. Qed.
Lemma km_persist s e u : km (persist' s e u) = km s.
Proof. apply persist_frame. Qed.
Lemma decrypt_persist s e u v c : decryptSecret (persist' s e u) v c = decryptSecret s v c.
Proof. unfold decryptSecret. by rewrite km_persist. Qed.
Create Rewrite HintDb totp.
#[local] Hint Rewrite users_persist km_persist decrypt_persist : totp.

(** ** One-time passwords *)

Lemma offsets_skew : offsets totpSkew = [-1; 0; 1].
Proof. reflexivity. Qed.

Lemma validate_cases secretBase32 code t :
  validateTOTP secretBase32 code t totpSkew = true <->
  exists key d, Base32.DecodeString secretBase32 = Some key /\ -1 <= d <= 1 /\
    computeTOTPCode key (u64 (Z.quot (Unix t) totpPeriod + d)) = Some code.
Proof.
  unfold validateTOTP. rewrite offsets_skew.
  assert (forall d, u64 (u64 (Z.quot (Unix t) totpPeriod) + u64 d) = u64 (Z.quot (Unix t) totpPeriod + d)) as Hu.
  { intros d. unfold u64. by rewrite <-Z.add_mod by lia. }
  destruct (Base32.DecodeString secretBase32) as [key|].
  - rewrite existsb_exists. setoid_rewrite bool_decide_eq_true. setoid_rewrite Hu. split.
    + intros (d & Hd & H). exists key, d. split; [done|]. split; [|done]. cbn in Hd. lia.
    + intros (key' & d & [= <-] & Hd & H). exists d. split; [|done]. cbn. lia.
  - split; [done|]. by intros (? & ? & ? & _).
Qed.

Lemma computed_code_valid secretBase32 key t d code :
  Base32.DecodeString secretBase32 = Some key -> -1 <= d <= 1 ->
  computeTOTPCode key (u64 (Z.quot (Unix t) totpPeriod + d)) = Some code ->
  validateTOTP secretBase32 code t totpSkew = true.
Proof. intros. apply validate_cases. by exists key, d. Qed.

(** The digits of a number below 10^6, most significant first. *)
Definition six (n : Z) : list byte := (fun k => byte_of_Z (48 + n / 10 ^ k mod 10)) <$> [5; 4; 3; 2; 1; 0].

Lemma pad6_six n : 0 <= n < 10 ^ 6 -> bytes_of_string (pad6 n) = six n.
Proof.
  intros Hn. unfold pad6. cbn [digits].
  assert (forall d, 0 <= d < 10 -> digit d = string_of_bytes [byte_of_Z (48 + d)]) as Hd.
  { intros d Hd. unfold digit. by rewrite (proj2 (Z.ltb_lt _ _)) by lia. }
  rewrite !Z.div_div by lia.
  change (10 * 10 * 10 * 10 * 10 * 10) with 1000000. change (10 * 10 * 10 * 10 * 10) with 100000.
  change (10 * 10 * 10 * 10) with 10000. change (10 * 10 * 10) with 1000. change (10 * 10) with 100.
  rewrite !Hd by (apply Z.mod_pos_bound; lia).
  assert (forall k, 0 < k -> n < k -> n / k = 0) as Hz by (intros; apply Z.div_small; lia).
  repeat match goal with
  | |- context [?a <? 10] => destruct (a <? 10) eqn:?; to_prop
  end.
  all: unfold six; cbn [fmap list_fmap]; rewrite ?Z.div_1_r.
  all: change (10 ^ 5) with 100000; change (10 ^ 4) with 10000; change (10 ^ 3) with 1000;
    change (10 ^ 2) with 100; change (10 ^ 1) with 10; change (10 ^ 0) with 1; rewrite ?Z.div_1_r.
  all: try (exfalso; lia).
  all: repeat match goal with |- context [?m / ?k] => rewrite (Hz k) by (Z.to_euclidean_division_equations; lia) end.
  all: change (byte_of_Z (48 + 0 mod 10)) with x30.
  all: repeat match goal with |- context [byte_of_Z ?d] => generalize (byte_of_Z d); intro end.
  all: cbv -[Ascii.ascii_of_byte Ascii.byte_of_ascii]; rewrite ?Ascii.byte_of_ascii_of_byte; reflexivity.
Qed.

Lemma six_decimal n : Forall (fun b => 48 <= Z_of_byte b <= 57) (six n).
Proof.
  unfold six. apply Forall_fmap, Forall_forall. intros k _. cbn.
  rewrite Z_of_byte_of_Z, Z.mod_small; pose proof (Z.mod_pos_bound (n / 10 ^ k) 10); lia.
Qed.

Definition sha256_sized : Prop := forall key m, length (hmac key m) = 32%nat.

(** A password is always computed, without an index out of range, and it is
    six decimal digits. *)
Lemma computeTOTPCode_total key counter : sha256_sized ->
  exists code, computeTOTPCode key counter = Some code /\ length (bytes_of_string code) = 6%nat /\
    Forall (fun b => 48 <= Z_of_byte b <= 57) (bytes_of_string code).
Proof.
  intros Hsize. unfold computeTOTPCode. set (hash := hmac key _).
  assert (length hash = 32%nat) as Hl by apply Hsize.
  destruct (last hash) as [b|] eqn:Hlast; cycle 1.
  { apply last_None in Hlast. by rewrite Hlast in Hl. }
  cbn [mbind option_bind].
  assert (0 <= Z.land (Z_of_byte b) 15 < 16) as Ho.
  { change 15 with (Z.ones 4). rewrite Z.land_ones by lia. apply Z.mod_pos_bound. lia. }
  set (o := Z.to_nat _). assert (o < 16)%nat by lia.
  destruct (lookup_lt_is_Some_2 hash o) as [b0 ->]; [lia|].
  destruct (lookup_lt_is_Some_2 hash (o + 1)) as [b1 ->]; [lia|].
  destruct (lookup_lt_is_Some_2 hash (o + 2)) as [b2 ->]; [lia|].
  destruct (lookup_lt_is_Some_2 hash (o + 3)) as [b3 ->]; [lia|].
  cbn [mbind option_bind]. eexists. split; [done|]. rewrite pad6_six by (apply Z.mod_pos_bound; lia).
  split; [done|apply six_decimal].
Qed.

(** ** Sealing *)

Definition gcm_correct : Prop := forall k n p a, gcm_open k n (gcm_seal k n p a) a = Some p.
Definition nonce_sized (nonce : option (list byte)) : Prop := forall n, nonce = Some n -> length n = 12%nat.

Lemma Seal_cases k nonce u p c : Seal k nonce u p = Ok c ->
  newCipher (encKey k) = Ok tt /\ exists n, nonce = Some n /\
    c = n ++ gcm_seal (encKey k) n (bytes_of_string p) (bytes_of_string u).
Proof.
  unfold Seal. destruct (newCipher _) as [[]|] eqn:?; [|done]. cbn [mbind result_bind].
  destruct nonce as [n|]; [|done]. intros [= <-]. eauto.
Qed.

Lemma Open_Seal k nonce u p c : gcm_correct -> nonce_sized nonce -> Seal k nonce u p = Ok c -> Open k u c = Ok p.
Proof.
  intros Hgcm Hn (Hk & n & -> & ->)%Seal_cases. specialize (Hn n eq_refl).
  unfold Open, gcmNonceSize. rewrite length_app, Hn. cbn [Nat.add].
  rewrite (proj2 (Z.ltb_ge _ _)), Hk by lia. cbn [mbind result_bind].
  rewrite slice_take, (take_app_length' n), (drop_app_length' n), Hgcm by (rewrite Hn; reflexivity).
  by rewrite string_of_bytes_of_string.
Qed.

Lemma decrypt_encrypt s nonce u p c : gcm_correct -> nonce_sized nonce ->
  encryptSecret s nonce u p = Ok c -> decryptSecret s u c = Ok p.
Proof.
  unfold encryptSecret, decryptSecret. intros Hgcm Hn. destruct (km s); [by apply Open_Seal|].
  intros [= <-]. by rewrite string_of_bytes_of_string.
Qed.

(** ** Effect of a call on one user *)

Lemma users_put s u st : users (put s u st) = <[u := st]> (users s).
Proof. done. Qed.
Lemma lookup_stored s e u st v :
  users (persist' (put s u st) e u) !! v = if decide (u = v) then Some st else users s !! v.
Proof. rewrite users_persist, users_put. apply lookup_insert. Qed.
Lemma lookup_removed s e u v :
  users (remove s e u) !! v = if decide (u = v) then None else users s !! v.
Proof. unfold remove. rewrite users_persist. apply lookup_delete. Qed.

Lemma enroll_guard_cases s u s' r : enroll_guard s u = (s', r) ->
  km s' = km s /\ (forall v, v <> u -> users s' !! v = users s !! v) /\
  match r with
  | Some _ => s' = s /\ exists st, users s !! u = Some st /\
      (State st = StateVerified \/ State st = StateRotating \/ State st = StateDisabledByAdmin)
  | None => match users s !! u with
            | None => s' = s
            | Some st => State st <> StateVerified /\ State st <> StateRotating /\ State st <> StateDisabledByAdmin /\
                (s' = s \/ State st = StatePending /\ s' = put s u (set_codes (set_secrets st [] [] (State st)) []))
            end
  end.
Proof.
  unfold enroll_guard. intros H. destruct (users s !! u) as [st|] eqn:Hu; [|by simplify_eq].
  destruct (_ || _) eqn:H1; [|destruct (State st =? StateDisabledByAdmin) eqn:H2;
    [|apply orb_false_iff in H1 as [H1 H1'];
      destruct (State st =? StatePending) eqn:H3]]; simplify_eq; split_and?; try done.
  { exists st. split; [done|]. apply orb_true_iff in H1 as [?%Z.eqb_eq|?%Z.eqb_eq]; auto. }
  { exists st. to_prop. auto. }
  { intros v Hv. by rewrite users_put, lookup_insert_ne. }
  all: to_prop; auto 10.
Qed.

Lemma Enroll_ok s e u s' r : Enroll s e u = (s', Ok r) ->
  exists s0 key c, km s0 = km s /\ (forall v, v <> u -> users s0 !! v = users s !! v) /\
    secret_rand e = Some key /\ encryptSecret s (seal_nonce e) u (Base32.EncodeToString key) = Ok c /\
    r = MkEnroll (Base32.EncodeToString key) (generateRecoveryCodes (codes_rand e)) StatePending /\
    s' = persist' (put s0 u (MkState c [] (generateRecoveryCodes (codes_rand e)) StatePending (t2 e) 0 zeroTime)) e u.
Proof.
  unfold Enroll, generateTOTPSecret. destruct (enroll_guard s u) as [s0 r0] eqn:Hg.
  apply enroll_guard_cases in Hg as (Hkm & Hv & _). destruct r0; [done|].
  destruct (secret_rand e) as [key|]; [|done]. cbn [fmap option_fmap option_map].
  assert (encryptSecret s0 = encryptSecret s) as -> by (unfold encryptSecret; by rewrite Hkm).
  destruct (encryptSecret _ _ _ _) as [c|] eqn:Hc; [|done]. intros [= <- <-]. exists s0, key, c. split_and!; auto.
Qed.

(** A validation of a code against an unlocked state whose secret is [p]. *)
Lemma ValidateCode_unlocked s e u st p code :
  users s !! u = Some st -> State st <> StateDisabled -> State st <> StateDisabledByAdmin ->
  locked_at st (t1 e) = false -> decryptSecret s u (EncryptedSecret st) = Ok p ->
  ValidateCode s e u code =
    if validateTOTP p code (t2 e) totpSkew then (persist' (put s u (accept st)) e u, true) else (s, false).
Proof.
  intros Hu H1 H2 Hl Hd. unfold ValidateCode. rewrite Hu.
  by rewrite (proj2 (Z.eqb_neq _ _) H1), (proj2 (Z.eqb_neq _ _) H2), Hl, Hd.
Qed.

(** Enrolment and its first code. The secret shown to the user once is the
    one that is checked: after [Enroll] the user is not yet protected, and a
    later [ValidateCode] succeeds exactly for the three codes of that secret
    around its time, then makes the user enrolled, and otherwise changes
    nothing. No other user is affected. The secret is drawn at random and is
    stored sealed. *)
Theorem Enroll_then_ValidateCode s e s' r u e' code :
  gcm_correct -> nonce_sized (seal_nonce e) -> Enroll s e u = (s', Ok r) ->
  exists key, secret_rand e = Some key /\ Base32.DecodeString (Secret r) = Some key /\
  let '(s'', ok) := ValidateCode s' e' u code in
  (ok = true <-> exists d, -1 <= d <= 1 /\
     computeTOTPCode key (u64 (Z.quot (Unix (t2 e')) totpPeriod + d)) = Some code) /\
  IsEnrolled s' u = false /\ IsEnrolled s'' u = ok /\ (ok = false -> s'' = s') /\
  (forall v, v <> u -> users s'' !! v = users s !! v).
Proof.
  intros Hgcm Hn (s0 & key & c & Hkm & Hv & Hkey & Hc & -> & ->)%Enroll_ok.
  exists key. split; [done|]. split; [apply Base32.Base32_roundtrip|].
  set (st := MkState _ _ _ _ _ _ _). set (s1 := persist' _ e u).
  assert (users s1 !! u = Some st) as Hu by (unfold s1; by rewrite lookup_stored, decide_True).
  assert (forall v, v <> u -> users s1 !! v = users s !! v) as Hv1.
  { intros v Hne. unfold s1. rewrite lookup_stored, decide_False by done. by apply Hv. }
  rewrite (ValidateCode_unlocked s1 e' u st (Base32.EncodeToString key)); [|done..|]; cycle 1.
  { unfold s1. rewrite decrypt_persist. apply (decrypt_encrypt _ (seal_nonce e)); [done..|].
    change (EncryptedSecret st) with c. rewrite <-Hc. unfold encryptSecret. cbn. by rewrite Hkm. }
  assert (IsEnrolled s1 u = false) as He by (unfold IsEnrolled; by rewrite Hu).
  pose proof (validate_cases (Base32.EncodeToString key) code (t2 e')) as Hval.
  rewrite Base32.Base32_roundtrip in Hval.
  assert (validateTOTP (Base32.EncodeToString key) code (t2 e') totpSkew = true <->
    exists d, -1 <= d <= 1 /\ computeTOTPCode key (u64 (Z.quot (Unix (t2 e')) totpPeriod + d)) = Some code) as Hiff.
  { rewrite Hval. split; [intros (? & d & [= <-] & Hd); by exists d|intros (d & Hd); by exists key, d]. }
  destruct (validateTOTP _ _ _ _); (split; [exact Hiff|]); (split; [done|]).
  - split; [unfold IsEnrolled; by rewrite lookup_stored, decide_True|]. split; [done|].
    intros v Hne. by rewrite lookup_stored, decide_False, Hv1 by done.
  - auto.
Qed.

(** ** The life cycle of an enrolment *)

(** The five states of the enrolment of a user; a user without an entry is
    disabled. *)
Inductive phase : Type := Disabled | Pending | Verified | Rotating | Barred.
Definition entry_phase (o : option totpState) : phase :=
  match o with
  | None => Disabled
  | Some st =>
      if State st =? StatePending then Pending else if State st =? StateVerified then Verified
      else if State st =? StateRotating then Rotating
      else if State st =? StateDisabledByAdmin then Barred else Disabled
  end.
Definition phase_of (s : TOTPStore) (u : string) : phase := entry_phase (users s !! u).

(** The calls on one user, and the tick that expires pending enrolments. *)
Inductive call : Type :=
| CEnroll | CComplete | CDisable | CDisableByAdmin | CAdminEnable | CValidate (code : string)
| CRecord | CClear | CConsume (code : string) | CInitiate | CConfirm (code : string) | CCancel.
Definition run (s : TOTPStore) (e : env) (u : string) (c : call) : TOTPStore * bool :=
  match c with
  | CEnroll => let '(s, r) := Enroll s e u in (s, is_ok r)
  | CComplete => CompleteEnrollment s e u
  | CDisable => Disable s e u
  | CDisableByAdmin => DisableByAdmin s e u
  | CAdminEnable => AdminEnable s e u
  | CValidate code => ValidateCode s e u code
  | CRecord => RecordFailedAttempt s e u
  | CClear => (ClearFailedAttempts s e u, true)
  | CConsume code => ConsumeRecoveryCode s e u code
  | CInitiate => let '(s, r) := InitiateRotation s e u in (s, is_ok r)
  | CConfirm code => let '(s, r) := ConfirmRotation s e u code in (s, negb (bool_decide (is_Some r)))
  | CCancel => let '(s, r) := CancelRotation s e u in (s, negb (bool_decide (is_Some r)))
  end.

(** The life cycle as it is documented: what a call that answers [true] does
    to a phase. A call that answers [false] leaves it. *)
Inductive moves : call -> phase -> phase -> Prop :=
| M_enroll p : p = Disabled \/ p = Pending -> moves CEnroll p Pending
| M_complete : moves CComplete Pending Verified
| M_disable p : p = Pending \/ p = Verified \/ p = Rotating -> moves CDisable p Disabled
| M_bar p : p <> Disabled -> moves CDisableByAdmin p Barred
| M_unbar : moves CAdminEnable Barred Disabled
| M_code code p : p = Pending \/ p = Verified \/ p = Rotating -> moves (CValidate code) p Verified
| M_record p : moves CRecord p p
| M_clear p : moves CClear p p
| M_recovery code p : p = Verified \/ p = Rotating -> moves (CConsume code) p p
| M_initiate : moves CInitiate Verified Rotating
| M_confirm code : moves (CConfirm code) Rotating Verified
| M_cancel : moves CCancel Rotating Verified.



(** What holds of every entry: its state is one of the four that have an
    entry; only a rotation keeps an old secret, only a pending enrolment a
    start time, and a barred user no secret and no recovery code. *)
Definition entry_ok (st : totpState) : Prop :=
  (State st = StatePending \/ State st = StateVerified \/ State st = StateRotating \/ State st = StateDisabledByAdmin) /\
  (State st <> StateRotating -> OldEncryptedSecret st = []) /\
  (State st <> StatePending -> PendingSince st = zeroTime) /\
  (State st = StateDisabledByAdmin -> EncryptedSecret st = [] /\ RecoveryCodes st = []) /\
  (length (RecoveryCodes st) <= numRecoveryCodes)%nat /\ 0 <= FailedAttempts st.
Definition store_ok (s : TOTPStore) : Prop := map_Forall (fun _ st => entry_ok st) (users s).

Lemma phase_at st : entry_ok st ->
  (State st = StatePending /\ entry_phase (Some st) = Pending) \/
  (State st = StateVerified /\ entry_phase (Some st) = Verified) \/
  (State st = StateRotating /\ entry_phase (Some st) = Rotating) \/
  (State st = StateDisabledByAdmin /\ entry_phase (Some st) = Barred).
Proof. intros [[H|[H|[H|H]]] _]; unfold entry_phase; rewrite H; auto. Qed.

Lemma codes_length rand : length (generateRecoveryCodes rand) = numRecoveryCodes.
Proof. unfold generateRecoveryCodes. by rewrite length_fmap, length_seq. Qed.

Lemma consume_length codes code codes' : consume codes code = Some codes' -> length codes = S (length codes').
Proof.
  revert codes'. induction codes as [|rc codes IH]; intros codes'; cbn; [done|].
  destruct (String.eqb rc code); [by intros [= ->]|]. destruct (consume codes code) as [c|]; [|done].
  cbn. intros [= <-]. cbn. by rewrite (IH c).
Qed.

(** The entry a call leaves behind, if it changes one. *)
Definition stored (s : TOTPStore) (e : env) (u : string) (o : option totpState) : TOTPStore :=
  match o with Some st => persist' (put s u st) e u | None => remove s e u end.

Lemma lookup_stored_entry s e u o v : users (stored s e u o) !! v = if decide (u = v) then o else users s !! v.
Proof. destruct o; [apply lookup_stored|apply lookup_removed]. Qed.

(** A call either leaves the users as they are or changes one entry. *)
Definition changes (s s' : TOTPStore) (u : string) (o : option totpState) : Prop :=
  users s' !! u = o /\ forall v, v <> u -> users s' !! v = users s !! v.

Lemma changes_stored s e u o : changes s (stored s e u o) u o.
Proof.
  split; [by rewrite lookup_stored_entry, decide_True|].
  intros v Hv. by rewrite lookup_stored_entry, decide_False.
Qed.
Lemma changes_put s u st : changes s (put s u st) u (Some st).
Proof. split; [by rewrite users_put, lookup_insert, decide_True|]. intros v Hv. by rewrite users_put, lookup_insert_ne. Qed.
Lemma changes_same s u : changes s s u (users s !! u).
Proof. done. Qed.

Lemma changes_ok s s' u o : store_ok s -> changes s s' u o -> (forall st, o = Some st -> entry_ok st) -> store_ok s'.
Proof.
  intros Hs [Hu Hv] Ho v st Hst. destruct (decide (v = u)) as [->|Hne]; [apply Ho; congruence|].
  apply (Hs v). by rewrite <-Hv.
Qed.

(** What is to be shown of a call that leaves the entry [o]. *)
Definition call_ok (s : TOTPStore) (u : string) (c : call) (r : TOTPStore * bool) : Prop :=
  exists o, changes s r.1 u o /\ (store_ok s -> forall st, o = Some st -> entry_ok st) /\
    (store_ok s -> if r.2 then moves c (phase_of s u) (entry_phase o) \/
                                 c = CDisable /\ phase_of s u = Barred /\ entry_phase o = Disabled
                    else entry_phase o = phase_of s u).

Lemma call_refused s u c : call_ok s u c (s, false).
Proof. exists (users s !! u). split; [apply changes_same|]. split; [|done]. intros Hs st Hst. by apply (Hs u). Qed.

Lemma call_stored s e u c o :
  (store_ok s -> forall st, o = Some st -> entry_ok st) ->
  (store_ok s -> moves c (phase_of s u) (entry_phase o)) -> call_ok s u c (stored s e u o, true).
Proof. intros Ho Hm. exists o. split; [apply changes_stored|]. split; [done|]. intros Hs. left. by apply Hm. Qed.

Ltac states := unfold StateDisabled, StatePending, StateVerified, StateRotating, StateDisabledByAdmin in *.

Lemma enroll_call s e u : call_ok s u CEnroll (run s e u CEnroll).
Proof.
  cbn [run]. unfold Enroll. destruct (enroll_guard s u) as [s0 r0] eqn:Hg.
  apply enroll_guard_cases in Hg as (Hkm & Hv & Hg).
  destruct r0 as [err|]; [destruct Hg as [-> _]; apply call_refused|].
  assert (exists o, changes s s0 u o /\ (store_ok s -> forall st, o = Some st -> entry_ok st) /\
    (store_ok s -> entry_phase o = phase_of s u)) as H0.
  { destruct (users s !! u) as [st|] eqn:Hu.
    - destruct Hg as (_ & _ & _ & [->|[Hst ->]]); eexists.
      + split; [apply changes_same|]. split; [|done]. intros Hs st' Hst'. by apply (Hs u).
      + split; [apply changes_put|]. split; [|intros _; unfold phase_of, entry_phase; by rewrite Hu, Hst].
        intros Hs st' [= <-]. destruct (Hs u st Hu) as (_ & _ & H2 & _ & _ & H5).
        split_and!; cbn; auto; states; lia.
    - subst. exists (users s !! u). split; [apply changes_same|]. split; [|done]. congruence. }
  destruct (generateTOTPSecret _); [|exact H0]. destruct (encryptSecret _ _ _ _) as [c|]; [|exact H0].
  cbn [is_ok fst snd]. eexists. split.
  { destruct (changes_stored s0 e u (Some (MkState c [] (generateRecoveryCodes (codes_rand e)) StatePending (t2 e) 0 zeroTime)))
      as [H1 H2].
    split; [exact H1|]. intros v Hne. rewrite <-(Hv v Hne). by apply H2. }
  split.
  { intros _ st [= <-]. split_and!; cbn; auto; states; lia. }
  intros Hs. left. constructor. unfold phase_of. destruct (users s !! u) as [st|] eqn:Hu; [|auto].
  destruct Hg as (H1 & H2 & H3 & _). destruct (phase_at st (Hs u st Hu)) as [[? ?]|[[? ?]|[[? ?]|[? ?]]]]; auto; congruence.
Qed.

#[local] Instance call_eq_dec : EqDecision call.
Proof. solve_decision. Defined.

Ltac refused := apply call_refused.
(** Close the obligations of [call_stored]: the entry is a state the call
    wrote over the entry [st] of the user. *)
Ltac entry_done Hu :=
  intros Hs; first [intros ? [= <-]|intros ? [=]|idtac];
  pose proof (Hs _ _ Hu) as He; pose proof He as (Hst & Hold & Hsince & Hbar & Hcodes & Hatt);
  first
    [ split_and!; cbn; rewrite ?codes_length; auto; states; try lia; intuition (congruence || lia)
    | solve [unfold phase_of; rewrite Hu; constructor]
    | unfold phase_of; rewrite Hu; try (apply M_recovery; 
        match goal with |- context [entry_phase (Some (set_codes ?s ?c))] =>
          change (entry_phase (Some (set_codes s c))) with (entry_phase (Some s)) end);
      destruct (phase_at _ He) as [[? Hp]|[[? Hp]|[[? Hp]|[? Hp]]]]; rewrite Hp;
      states; try congruence; try lia; first [by left|by right|constructor; auto; congruence] ].

(** What a valid code leaves is a verified entry. *)
Lemma accept_ok st : entry_ok st -> State st <> StateDisabledByAdmin ->
  entry_ok (accept st) /\ State (accept st) = StateVerified.
Proof.
  intros (Hst & Hold & Hsince & _ & Hcodes & _) H. unfold accept.
  states. destruct Hst as [E|[E|[E|E]]]; [..|congruence]; rewrite E in *; cbn; rewrite ?E; cbn; (split; [|done]);
    split_and!; cbn; auto; states; try lia; intros _; first [apply Hold; lia|apply Hsince; lia].
Qed.

Lemma validate_call s e u code : call_ok s u (CValidate code) (run s e u (CValidate code)).
Proof.
  cbn [run]. unfold ValidateCode. destruct (users s !! u) as [st|] eqn:Hu; [|refused].
  case_match eqn:H0; [refused|]. case_match; [refused|]. destruct (decryptSecret _ _ _); [|refused].
  case_match; [|refused]. apply orb_false_iff in H0 as [_ Hbar]. to_prop.
  apply (call_stored _ _ _ _ (Some _)).
  - intros Hs ? [= <-]. by apply accept_ok; [apply (Hs u)|].
  - intros Hs. destruct (accept_ok st (Hs u st Hu) Hbar) as [_ Ha].
    unfold phase_of. rewrite Hu. unfold entry_phase at 2. rewrite Ha. constructor.
    destruct (phase_at _ (Hs u st Hu)) as [[? Hp]|[[? Hp]|[[? Hp]|[? Hp]]]]; rewrite Hp; auto. congruence.
Qed.

Lemma record_call s e u : call_ok s u CRecord (run s e u CRecord).
Proof.
  cbn [run]. unfold RecordFailedAttempt. destruct (users s !! u) as [st|] eqn:Hu; [|refused].
  case_match eqn:H1; to_prop; [apply (call_stored _ _ _ _ (Some _)); entry_done Hu|].
  eexists. split; [apply changes_put|]. split; [entry_done Hu|].
  intros Hs. unfold phase_of. by rewrite Hu.
Qed.

Lemma consume_call s e u code : call_ok s u (CConsume code) (run s e u (CConsume code)).
Proof.
  cbn [run]. unfold ConsumeRecoveryCode, active. destruct (users s !! u) as [st|] eqn:Hu; [|refused].
  case_match eqn:H1; [refused|]. destruct (consume _ _) as [codes|] eqn:Hc; [|refused].
  apply negb_false_iff, orb_true_iff in H1. rewrite !Z.eqb_eq in H1. apply consume_length in Hc.
  apply (call_stored _ _ _ _ (Some _)); [|entry_done Hu].
  intros Hs ? [= <-]. destruct (Hs u st Hu) as (Hst & Hold & Hsince & Hbar & Hcodes & Hatt).
  split_and!; cbn; auto; [|lia]. states. lia.
Qed.

Lemma other_call s e u c : c <> CEnroll -> call_ok s u c (run s e u c).
Proof.
  intros Hc. destruct c; try done; try apply validate_call; try apply record_call; try apply consume_call; cbn [run].
  - unfold CompleteEnrollment. destruct (users s !! u) as [st|] eqn:Hu; [|refused].
    case_match eqn:H1; [refused|]. to_prop. apply (call_stored _ _ _ _ (Some _)); entry_done Hu.
  - unfold Disable. destruct (users s !! u) as [st|] eqn:Hu; [|refused].
    exists None. split; [apply (changes_stored s e u None)|]. split; [done|]. intros Hs. unfold phase_of. rewrite Hu.
    destruct (phase_at st (Hs u st Hu)) as [[_ ->]|[[_ ->]|[[_ ->]|[_ ->]]]]; [left; constructor; auto..|by right].
  - unfold DisableByAdmin. destruct (users s !! u) as [st|] eqn:Hu; [|refused].
    apply (call_stored _ _ _ _ (Some _)); entry_done Hu.
  - unfold AdminEnable. destruct (users s !! u) as [st|] eqn:Hu; [|refused].
    case_match eqn:H1; [refused|]. to_prop. apply (call_stored _ _ _ _ None); entry_done Hu.
  - unfold ClearFailedAttempts. destruct (users s !! u) as [st|] eqn:Hu;
      [apply (call_stored _ _ _ _ (Some _)); entry_done Hu|].
    exists (users s !! u). split; [apply changes_same|]. split; [by rewrite Hu|]. intros _. left. constructor.
  - unfold InitiateRotation. destruct (users s !! u) as [st|] eqn:Hu; [|refused].
    destruct (State st =? StateVerified) eqn:H1; cbn [negb]; [|refused].
    destruct (generateTOTPSecret _); [|refused]. destruct (encryptSecret _ _ _ _); [|refused].
    to_prop. apply (call_stored _ _ _ _ (Some _)); entry_done Hu.
  - unfold ConfirmRotation. destruct (users s !! u) as [st|] eqn:Hu; [|refused].
    destruct (State st =? StateRotating) eqn:H1; cbn [negb]; [|refused].
    destruct (decryptSecret _ _ _); [|refused]. destruct (validateTOTP _ _ _ _); cbn [negb]; [|refused].
    to_prop. apply (call_stored _ _ _ _ (Some _)); entry_done Hu.
  - unfold CancelRotation. destruct (users s !! u) as [st|] eqn:Hu; [|refused].
    destruct (State st =? StateRotating) eqn:H1; cbn [negb]; [|refused].
    to_prop. apply (call_stored _ _ _ _ (Some _)); entry_done Hu.
Qed.

Lemma call_refines s e u c : store_ok s ->
  let '(s', ok) := run s e u c in
  store_ok s' /\ (forall v, v <> u -> users s' !! v = users s !! v) /\
  (if ok then moves c (phase_of s u) (phase_of s' u) \/ c = CDisable /\ phase_of s u = Barred /\ phase_of s' u = Disabled
   else phase_of s' u = phase_of s u).
Proof.
  intros Hs. assert (call_ok s u c (run s e u c)) as (o & Hch & Ho & Hm).
  { destruct (decide (c = CEnroll)) as [->|Hc]; [apply enroll_call|by apply other_call]. }
  destruct (run s e u c) as [s' ok]. cbn [fst snd] in *.
  split; [by apply (changes_ok s s' u o); auto|]. destruct Hch as [Hu Hv].
  split; [done|]. unfold phase_of at 2 4 5. rewrite Hu. destruct ok; by apply Hm.
Qed.

Lemma enrolled_phase s u : IsEnrolled s u = true <-> phase_of s u = Verified \/ phase_of s u = Rotating.
Proof.
  unfold IsEnrolled, phase_of, entry_phase, active. destruct (users s !! u) as [st|]; [|by intuition].
  rewrite orb_true_iff, !Z.eqb_eq.
  repeat case_match; to_prop; states; (split; [intros [?|?]; (congruence || lia || auto)|intros [?|?]; (done || lia || auto)]).
Qed.

(** Without a code or an explicit completion nobody becomes enrolled. *)
Lemma call_not_enrolled s e u c : store_ok s -> (forall v, IsEnrolled s v = false) ->
  (forall code, c <> CValidate code) -> c <> CComplete ->
  store_ok (run s e u c).1 /\ forall v, IsEnrolled (run s e u c).1 v = false.
Proof.
  intros Hs Hn Hc Hc'. pose proof (call_refines s e u c Hs) as H. destruct (run s e u c) as [s' ok].
  destruct H as (Hok & Hv & Hm). split; [done|]. cbn [fst]. intros v.
  destruct (decide (v = u)) as [->|Hne]; [|unfold IsEnrolled; rewrite Hv by done; apply Hn].
  apply not_true_iff_false. rewrite enrolled_phase. specialize (Hn u).
  apply not_true_iff_false in Hn. rewrite enrolled_phase in Hn. destruct ok; [|congruence].
  destruct Hm as [Hm|(_ & _ & ->)]; [destruct Hm; naive_solver|by intros []].
Qed.

Lemma foldl_persist_users o l : forall s, users (foldl (fun s u => (persist s None (o u) u).1) s l) = users s.
Proof. induction l as [|u l IH]; intros s; [done|]. cbn [foldl]. rewrite IH. apply persist_frame. Qed.

(** The sweeper removes entries and changes none. *)
Lemma sweep_keeps s now o : store_ok s -> store_ok (sweepPending s now o) /\
  forall u, users (sweepPending s now o) !! u = users s !! u \/ users (sweepPending s now o) !! u = None.
Proof.
  intros Hs. unfold sweepPending, store_ok. rewrite foldl_persist_users. cbn [users set_users].
  split; [intros u st [Hu _]%map_lookup_filter_Some; by apply (Hs u)|]. intros u. rewrite map_lookup_filter.
  destruct (users s !! u) as [st|]; [|by left]. cbn. case_guard; auto.
Qed.

(** *** When a call answers *)











(** ** The master key *)

Definition replaced (c : option (list byte)) (st : totpState) : totpState :=
  match c with Some c => set_secrets st c (OldEncryptedSecret st) (State st) | None => st end.

(** The new ciphertext of a user holds the secret the old one held. *)
Definition resealed (old new : TOTPKeyManager) (r : rotation) (u : string) (st : totpState)
    (c : option (list byte)) : Prop :=
  match c with
  | None => EncryptedSecret st = []
  | Some c => EncryptedSecret st <> [] /\
      exists p, Open old u (EncryptedSecret st) = Ok p /\ Seal new (r_seal r u) u p = Ok c
  end.

Lemma reencrypt_ok s old new r order l : reencrypt s old new r order = Ok l ->
  l.*1 = filter (fun u => is_Some (users s !! u)) order /\
  forall u c, (u, c) ∈ l -> exists st, users s !! u = Some st /\ resealed old new r u st c.
Proof.
  revert l. induction order as [|u order IH]; intros l; cbn [reencrypt].
  { intros [= <-]. split; [done|]. intros u c H. by apply elem_of_nil in H. }
  destruct (users s !! u) as [st|] eqn:Hu; cycle 1.
  { intros H. rewrite filter_cons, decide_False by (rewrite Hu; by intros []). auto. }
  assert (forall c, resealed old new r u st c ->
    (rest ← reencrypt s old new r order; Ok ((u, c) :: rest)) = Ok l ->
    l.*1 = filter (fun u => is_Some (users s !! u)) (u :: order) /\
    forall v d, (v, d) ∈ l -> exists st, users s !! v = Some st /\ resealed old new r v st d) as Hcons.
  { intros c Hc H. destruct (reencrypt s old new r order) as [rest|]; [|done]. injection H as <-.
    destruct (IH rest eq_refl) as [H1 H2]. rewrite filter_cons, decide_True by (rewrite Hu; eauto).
    split; [cbn; by rewrite H1|].
    intros v d [[= -> ->]|Hin]%elem_of_cons; eauto. }
  destruct (len (EncryptedSecret st) =? 0) eqn:Hlen.
  { apply Hcons. to_prop. by apply list_len_0. }
  destruct (Open old u _) as [p|] eqn:Ho; [|done]. destruct (Seal new _ u p) as [c|] eqn:Hs; [|done].
  apply Hcons. to_prop. split; [by intros Hn; rewrite Hn in Hlen|]. eauto.
Qed.

(** The blob of a state under a key. *)
Definition blob_of (k : TOTPKeyManager) (u : string) (st : totpState) (blob : list byte) : Prop :=
  exists nonce, Seal k nonce u (string_of_bytes (marshal (toPersistedState st))) = Ok blob /\ nonce_sized nonce.

Lemma persistToNewFile_frame s r u s' b : persistToNewFile s r u = (s', b) ->
  users s' = users s /\ km s' = km s /\ storeDir s' = storeDir s /\ master (disk s') = master (disk s) /\
  master_new (disk s') = master_new (disk s) /\ master_old (disk s') = master_old (disk s) /\
  enc (disk s') = enc (disk s) /\ forall v, v <> u -> enc_new (disk s') !! v = enc_new (disk s) !! v.
Proof.
  unfold persistToNewFile. destruct (km s) as [k|] eqn:Hk; [|intros [= <- <-]; by rewrite Hk].
  case_match; [intros [= <- <-]; by rewrite Hk|]. destruct (users s !! u) as [st|]; [|intros [= <- <-]; by rewrite Hk].
  destruct (Seal _ _ _ _) as [blob|]; [|intros [= <- <-]; by rewrite Hk].
  destruct (r_write r u) as [| |[]|]; intros [= <- <-]; split_and!; try done.
  intros v Hv. cbn. by rewrite lookup_insert_ne.
Qed.

Lemma persistToNewFile_ok s r u s' k st : persistToNewFile s r u = (s', true) -> km s = Some k ->
  storeDir s <> "" -> nonce_sized (r_blob r u) -> users s !! u = Some st ->
  exists blob, enc_new (disk s') !! u = Some blob /\ blob_of k u st blob.
Proof.
  unfold persistToNewFile. intros H Hk Hdir Hn Hu. rewrite Hk, (proj2 (String.eqb_neq _ _) Hdir), Hu in H.
  destruct (Seal _ _ _ _) as [blob|] eqn:Hs; [|done]. destruct (r_write r u); simplify_eq.
  exists blob. cbn. rewrite lookup_insert, decide_True by done. split; [done|]. by exists (r_blob r u).
Qed.

Definition put_opt (s : TOTPStore) (u : string) (c : option (list byte)) : TOTPStore :=
  match users s !! u, c with
  | Some st, Some c => put s u (set_secrets st c (OldEncryptedSecret st) (State st))
  | _, _ => s
  end.
Lemma put_opt_lookup s u c v : users (put_opt s u c) !! v =
  if decide (u = v) then replaced c <$> users s !! u else users s !! v.
Proof.
  unfold put_opt. destruct (users s !! u) as [st|] eqn:Hu, c as [c|]; cbn [users put set_users];
    rewrite ?lookup_insert; destruct (decide (u = v)); subst; try done.
Qed.
Lemma put_opt_frame s u c : km (put_opt s u c) = km s /\ storeDir (put_opt s u c) = storeDir s /\ disk (put_opt s u c) = disk s.
Proof. unfold put_opt. by repeat case_match. Qed.

Definition same_masters (f g : files) : Prop :=
  master f = master g /\ master_new f = master_new g /\ master_old f = master_old g.

Lemma store_new_cons s r u c l : store_new s r ((u, c) :: l) =
  match persistToNewFile (put_opt s u c) r u with
  | (s, false) => (s, Some u)
  | (s, true) => store_new s r l
  end.
Proof. done. Qed.

(** What phase 2b did when it reached the entry [u] of the plan. *)
Definition stored_new (s s' : TOTPStore) (r : rotation) (k : TOTPKeyManager) (u : string) (c : option (list byte)) : Prop :=
  users s' !! u = replaced c <$> users s !! u /\
  (storeDir s <> "" -> nonce_sized (r_blob r u) -> forall st, users s !! u = Some st ->
   exists blob, enc_new (disk s') !! u = Some blob /\ blob_of k u (replaced c st) blob).

Lemma store_new_spec r k l : forall s s' res, km s = Some k -> NoDup l.*1 -> store_new s r l = (s', res) ->
  (km s' = Some k /\ storeDir s' = storeDir s /\ same_masters (disk s') (disk s) /\ enc (disk s') = enc (disk s)) /\
  (forall v, v ∉ l.*1 -> users s' !! v = users s !! v /\ enc_new (disk s') !! v = enc_new (disk s) !! v) /\
  match res with
  | Some u => exists c, (u, c) ∈ l /\ users s' !! u = replaced c <$> users s !! u
  | None => forall u c, (u, c) ∈ l -> stored_new s s' r k u c
  end.
Proof.
  induction l as [|[u c] l IH]; intros s s' res Hk Hnd H.
  { injection H as <- <-. split; [done|]. split; [done|]. intros u c Hin. by apply elem_of_nil in Hin. }
  rewrite store_new_cons in H. cbn in Hnd. apply NoDup_cons in Hnd as [Hu Hnd].
  destruct (put_opt_frame s u c) as (Hk1 & Hd1 & Hf1).
  destruct (persistToNewFile _ r u) as [s1 b] eqn:Hp.
  pose proof (persistToNewFile_frame _ _ _ _ _ Hp) as (F1 & F2 & F3 & F4 & F5 & F6 & F7 & F8).
  assert (users s1 !! u = replaced c <$> users s !! u) as Hu1 by (by rewrite F1, put_opt_lookup, decide_True).
  assert (forall v, v <> u -> users s1 !! v = users s !! v) as Hv1
    by (intros v Hv; by rewrite F1, put_opt_lookup, decide_False).
  rewrite Hk1 in F2. rewrite Hd1 in F3. rewrite Hf1 in F4, F5, F6, F7, F8.
  destruct b; cycle 1.
  { injection H as <- <-. split; [unfold same_masters; split_and!; congruence|]. split.
    - intros v Hv. cbn in Hv. apply not_elem_of_cons in Hv as [Hv _]. auto.
    - exists c. split; [left|done]. }
  destruct (IH s1 s' res ltac:(congruence) Hnd H) as ((I1 & I2 & (I3 & I3' & I3'') & I4) & I5 & I6).
  split; [unfold same_masters; split_and!; congruence|]. split.
  { intros v [Hv Hv']%not_elem_of_cons. destruct (I5 v Hv') as [-> ->]. auto. }
  destruct res as [w|].
  { destruct I6 as (d & Hd & ->). exists d. split; [by right|]. rewrite Hv1; [done|]. intros ->.
    apply Hu, list_elem_of_fmap. by exists (u, d). }
  intros v d [[= -> ->]|Hin]%elem_of_cons.
  - destruct (I5 u Hu) as [E1 E2]. split; [by rewrite E1|]. intros Hdir Hn st Hst.
    rewrite E2. apply (persistToNewFile_ok (put_opt s u c) r u s1); [exact Hp|congruence|congruence|done|].
    by rewrite put_opt_lookup, decide_True, Hst.
  - assert (v <> u) as Hne by (intros ->; apply Hu, list_elem_of_fmap; by exists (u, d)).
    destruct (I6 v d Hin) as [E1 E2]. rewrite Hv1 in E1 by done. split; [done|].
    intros Hdir Hn st Hst. apply E2; [congruence|done|]. by rewrite Hv1.
Qed.

Lemma rename_all_spec r l : forall f f', NoDup l -> rename_all f r l = (f', None) ->
  same_masters f' f /\
  (forall u, u ∈ l -> forall b, enc_new f !! u = Some b -> enc f' !! u = Some b) /\
  (forall u, u ∉ l -> enc f' !! u = enc f !! u /\ enc_new f' !! u = enc_new f !! u).
Proof.
  induction l as [|u l IH]; intros f f' Hnd H; cbn [rename_all] in H.
  { injection H as <-. split; [done|]. split; [|done]. intros u Hu. by apply elem_of_nil in Hu. }
  apply NoDup_cons in Hnd as [Hu Hnd]. destruct (r_rename r u); [|done]. cbn [negb] in H.
  destruct (IH _ _ Hnd H) as (Hm & Hin & Hout).
  assert (same_masters (rename_blob f u) f /\
    forall v, v <> u -> enc (rename_blob f u) !! v = enc f !! v /\ enc_new (rename_blob f u) !! v = enc_new f !! v)
    as [Hm' Hv].
  { unfold rename_blob. destruct (enc_new f !! u) eqn:E; [|done]. split; [done|]. intros v Hv. cbn.
    by rewrite lookup_insert_ne, lookup_delete_ne. }
  split; [unfold same_masters in *; intuition congruence|]. split.
  - intros v [->|Hvl]%elem_of_cons b Hb.
    + destruct (Hout u Hu) as [-> _]. unfold rename_blob. rewrite Hb. cbn. by rewrite lookup_insert, decide_True.
    + apply Hin; [done|]. assert (v <> u) as Hne by congruence. by destruct (Hv v Hne) as [_ ->].
  - intros v [Hne Hvl]%not_elem_of_cons. destruct (Hout v Hvl) as [-> ->]. by apply Hv.
Qed.

(** A rotation visits each user once, in some order, with fresh nonces. *)
Definition visits (s : TOTPStore) (r : rotation) : Prop :=
  NoDup (r_order r) /\ (forall u, is_Some (users s !! u) -> u ∈ r_order r) /\
  forall u, nonce_sized (r_seal r u) /\ nonce_sized (r_blob r u).

(** The plan of a rotation that got as far as writing the new blobs. *)
Definition planned (s : TOTPStore) (r : rotation) (old : TOTPKeyManager) (key : list byte)
    (s0 : TOTPStore) (l : list (string * option (list byte))) : Prop :=
  storeDir s <> "" /\ r_key r = Some key /\ masterSecretSize <= len key /\
  s0 = set_disk s (set_master (disk s) (master (disk s)) (Some key) (master_old (disk s))) /\
  reencrypt s0 old (MkKM (hkdf (slice key 0 masterSecretSize)) "") r (r_order r) = Ok l.

(** A return before the blobs are written has another error. *)
Ltac early := match goal with H : (_, _) = (_, _), Herr : _ \/ _ |- _ =>
  injection H as <- <-; exfalso; destruct Herr as [Herr|[? Herr]]; discriminate Herr end.

Lemma RotateMasterKey_planned s r s' err old : km s = Some old -> RotateMasterKey s r = (s', err) ->
  err = None \/ (exists u, err = Some (RotateBlob u)) ->
  exists key s0 l sm res, planned s r old key s0 l /\
    store_new (set_km s0 (MkKM (hkdf (slice key 0 masterSecretSize)) "")) r l = (sm, res) /\
    match err with
    | None => res = None /\ exists f, rename_all (disk sm) r l.*1 = (f, None) /\
        s' = set_disk sm (set_master f (master_new f) None (master f))
    | Some _ => exists u, err = Some (RotateBlob u) /\ res = Some u /\ s' = drop_new_key (set_km sm old)
    end.
Proof.
  intros Hk H Herr. unfold RotateMasterKey in H. rewrite Hk in H.
  destruct (String.eqb (storeDir s) "") eqn:Hd; [early|].
  destruct (String.eqb (MasterSecretPath old) ""); [early|].
  destruct (r_key r) as [key|] eqn:Hkey; [|early].
  destruct (negb (r_written r)); [early|].
  unfold NewTOTPKeyManagerFromBytes in H.
  destruct (len key <? masterSecretSize) eqn:Hl; [early|].
  set (s0 := set_disk s _) in H. set (new := MkKM _ _) in H.
  destruct (reencrypt s0 old new r (r_order r)) as [l|err'] eqn:Hre; cycle 1.
  { injection H as <- <-. exfalso. revert Hre. clear -Herr. destruct Herr as [|[u [= ->]]]; [done|].
    induction (r_order r) as [|v order IH]; cbn [reencrypt]; [done|].
    destruct (users s0 !! v); [|done]. case_match; [by destruct (reencrypt _ _ _ _ _)|].
    repeat (case_match; [|done]). by destruct (reencrypt _ _ _ _ _). }
  destruct (store_new (set_km s0 new) r l) as [sm res] eqn:Hsn.
  exists key, s0, l, sm, res.
  assert (planned s r old key s0 l) as Hp.
  { split_and!; [by apply String.eqb_neq|done|to_prop; lia|done|done]. }
  destruct res as [u|].
  { injection H as <- <-. split; [done|]. split; [done|]. by exists u. }
  destruct (rename_all (disk sm) r l.*1) as [f [u|]] eqn:Hr; [early|].
  unfold swap_master in H. destruct (r_backup r); cbn [negb] in H; [|early].
  destruct (r_activate r); cbn [negb] in H; [|early].
  injection H as <- <-. split; [done|]. split; [done|]. split; [done|]. by exists f.
Qed.

(** What the plan of a rotation covers. *)
Lemma planned_covers s r old key s0 l : visits s r -> planned s r old key s0 l ->
  NoDup l.*1 /\ users s0 = users s /\ forall u st, users s !! u = Some st ->
    exists c, (u, c) ∈ l /\ resealed old (MkKM (hkdf (slice key 0 masterSecretSize)) "") r u st c.
Proof.
  intros (Hnd & Hall & _) (_ & _ & _ & -> & Hre). apply reencrypt_ok in Hre as [Hl Hc].
  split; [rewrite Hl; by apply NoDup_filter|]. split; [done|]. intros u st Hu.
  assert (u ∈ l.*1) as Hin by (rewrite Hl; apply list_elem_of_filter; cbn; eauto).
  apply list_elem_of_fmap in Hin as ([v c] & -> & Hin). exists c. split; [done|].
  destruct (Hc _ _ Hin) as (st' & Hst' & Hr). cbn in Hst', Hu. simplify_eq. done.
Qed.

Lemma blob_opens k u st blob : gcm_correct -> blob_of k u st blob ->
  Open k u blob = Ok (string_of_bytes (marshal (toPersistedState st))).
Proof. intros Hgcm (n & Hs & Hn). by apply (Open_Seal k n). Qed.

Lemma NoPath_refused s r k : storeDir s <> "" -> km s = Some k -> km_path k = "" ->
  RotateMasterKey s r = (s, Some RotateNoPath).
Proof.
  intros Hd Hk Hp. unfold RotateMasterKey, MasterSecretPath.
  by rewrite (proj2 (String.eqb_neq _ _) Hd), Hk, Hp.
Qed.

(** The rotation of the master key, when it succeeds: every user's secret is
    sealed under the new key and is the secret it was, the file of each user
    opens under the new key to the user's state, the new master key is in
    place of the old one and the old one is kept as a backup. The code does
    not enter the path of the master key in the new key manager, so every
    later rotation by the same process is refused. *)
Theorem RotateMasterKey_reseals s r s' old :
  gcm_correct -> visits s r -> km s = Some old -> RotateMasterKey s r = (s', None) ->
  exists key new, r_key r = Some key /\ km s' = Some new /\
    encKey new = hkdf (slice key 0 masterSecretSize) /\
    master (disk s') = Some key /\ master_old (disk s') = master (disk s) /\
    (forall u st, users s !! u = Some st -> exists c blob,
       users s' !! u = Some (set_secrets st c (OldEncryptedSecret st) (State st)) /\
       (EncryptedSecret st <> [] -> Open new u c = Open old u (EncryptedSecret st)) /\
       enc (disk s') !! u = Some blob /\
       Open new u blob = Ok (string_of_bytes (marshal (toPersistedState
         (set_secrets st c (OldEncryptedSecret st) (State st)))))) /\
    (forall r', RotateMasterKey s' r' = (s', Some RotateNoPath)).
Proof.
  intros Hgcm Hv Hk H.
  destruct (RotateMasterKey_planned s r s' None old Hk H (or_introl eq_refl))
    as (key & s0 & l & sm & res & Hp & Hsn & -> & f & Hr & ->).
  destruct (planned_covers s r old key s0 l Hv Hp) as (Hnd & Hu0 & Hcov).
  destruct Hp as (Hdir & Hkey & _ & Hs0 & _).
  set (new := MkKM (hkdf (slice key 0 masterSecretSize)) "") in *.
  destruct (store_new_spec r new l (set_km s0 new) sm None eq_refl Hnd Hsn)
    as ((Hkm & Hd & (Hm1 & Hm2 & Hm3) & He) & Hout & Hin).
  destruct (rename_all_spec r l.*1 (disk sm) f Hnd Hr) as ((Hf1 & Hf2 & Hf3) & Hren & _).
  assert (storeDir sm = storeDir s) as Hdsm by (rewrite Hd, Hs0; done).
  exists key, new. split_and!; [done|done|done|..].
  - cbn. by rewrite Hf2, Hm2, Hs0.
  - cbn. by rewrite Hf1, Hm1, Hs0.
  - intros u st Hu. destruct (Hcov u st Hu) as (c & Hc & Hres).
    destruct (Hin u c Hc) as [E1 E2].
    destruct (E2 ltac:(cbn; by rewrite Hs0) (proj2 (proj2 (proj2 Hv) u)) st ltac:(cbn; by rewrite Hu0))
      as (blob & Hb1 & Hb2).
    assert (exists c', replaced c st = set_secrets st c' (OldEncryptedSecret st) (State st) /\
      (EncryptedSecret st <> [] -> Open new u c' = Open old u (EncryptedSecret st))) as (c' & Hc' & Ho).
    { destruct c as [c|]; cbn in Hres.
      - destruct Hres as (Hne & p & Hp1 & Hp2). exists c. split; [done|]. intros _. rewrite Hp1.
        apply (Open_Seal new (r_seal r u)); [done| |done]. apply (proj2 (proj2 Hv)).
      - exists (EncryptedSecret st). split; [by destruct st|]. by intros []. }
    exists c', blob. rewrite <-Hc'. split_and!; [|done|..].
    + cbn. rewrite E1. cbn. by rewrite Hu0, Hu.
    + cbn. apply Hren; [|done]. apply list_elem_of_fmap. by exists (u, c).
    + by apply blob_opens.
  - intros r'. apply (NoPath_refused _ _ new); [cbn; congruence|done|done].
Qed.

(** Ciphertexts do not open under another key. *)
Definition gcm_bound : Prop := forall k k' n p a, k <> k' -> gcm_open k' n (gcm_seal k n p a) a = None.

Lemma Open_other k k' nonce u p c : gcm_bound -> nonce_sized nonce -> Seal k nonce u p = Ok c ->
  encKey k <> encKey k' -> exists err, Open k' u c = Err err.
Proof.
  intros Hb Hn (_ & n & -> & ->)%Seal_cases Hne. specialize (Hn n eq_refl).
  unfold Open. case_match; [eauto|]. destruct (newCipher (encKey k')); [|eauto]. cbn [mbind result_bind].
  unfold gcmNonceSize. rewrite slice_take, (take_app_length' n), (drop_app_length' n), Hb by (try rewrite Hn; done).
  eauto.
Qed.

Lemma ValidateCode_undecryptable s e u st err code : users s !! u = Some st ->
  decryptSecret s u (EncryptedSecret st) = Err err -> ValidateCode s e u code = (s, false).
Proof. intros Hu Hd. unfold ValidateCode. rewrite Hu, Hd. by repeat case_match. Qed.

(** The rotation of the master key is not undone when it fails. When the
    blob of a user cannot be written the old key comes back, but the user's
    secret in memory stays sealed under the new key, which is thrown away:
    from then on no code of that user is accepted, although the comment on
    the function promises that a failure leaves the old keys valid. *)
Theorem RotateMasterKey_failure_strands s r s' old key u st :
  gcm_bound -> visits s r -> km s = Some old -> r_key r = Some key ->
  hkdf (slice key 0 masterSecretSize) <> encKey old ->
  users s !! u = Some st -> EncryptedSecret st <> [] ->
  RotateMasterKey s r = (s', Some (RotateBlob u)) ->
  km s' = Some old /\ master_new (disk s') = None /\
  forall e code, ValidateCode s' e u code = (s', false).
Proof.
  intros Hb Hv Hk Hkey Hne Hu Hsec H.
  destruct (RotateMasterKey_planned s r s' _ old Hk H ltac:(right; by eexists))
    as (key' & s0 & l & sm & res & Hp & Hsn & w & [= <-] & -> & ->).
  destruct (planned_covers s r old key' s0 l Hv Hp) as (Hnd & Hu0 & Hcov).
  destruct Hp as (_ & Hkey' & _). rewrite Hkey in Hkey'. injection Hkey' as <-.
  set (new := MkKM (hkdf (slice key 0 masterSecretSize)) "") in *.
  destruct (store_new_spec r new l (set_km s0 new) sm (Some u) eq_refl Hnd Hsn)
    as (_ & _ & c & Hc & Hus).
  destruct (Hcov u st Hu) as (c' & Hc' & Hres).
  assert (c' = c) as ->.
  { clear -Hnd Hc Hc'. induction l as [|[v d] l IH]; [by apply elem_of_nil in Hc|].
    cbn in Hnd. apply NoDup_cons in Hnd as [Hv Hnd].
    assert (forall x, (v, x) ∉ l) as Hv' by (intros x Hx; apply Hv, list_elem_of_fmap; by exists (v, x)).
    apply elem_of_cons in Hc as [Hc|Hc], Hc' as [Hc'|Hc']; simplify_eq; auto.
    - by destruct (Hv' c').
    - by destruct (Hv' c). }
  split; [done|]. split; [done|]. intros e code.
  destruct c as [c|]; [|by destruct Hsec]. destruct Hres as (_ & p & _ & Hseal).
  destruct (Open_other new old (r_seal r u) u p c Hb ltac:(apply (proj2 (proj2 Hv))) Hseal Hne) as [err Herr].
  apply (ValidateCode_undecryptable _ _ _ (set_secrets st c (OldEncryptedSecret st) (State st)) err).
  - cbn. rewrite Hus. cbn. by rewrite Hu0, Hu.
  - exact Herr.
Qed.

(** ** Restart *)

Definition json_correct : Prop := forall ps, unmarshal (marshal ps) = Some ps.

Lemma fromPersisted_toPersisted st : fromPersistedState (toPersistedState st) = st.
Proof.
  destruct st as [a b c d p f l]. unfold fromPersistedState, toPersistedState, IsZero. cbn.
  destruct (p =? zeroTime) eqn:Hp, (l =? zeroTime) eqn:Hl; cbn; to_prop; congruence.
Qed.

(** The file of a user holds the user's entry. *)
Definition on_disk (s : TOTPStore) (k : TOTPKeyManager) (u : string) : Prop :=
  match users s !! u with
  | Some st => exists blob, enc (disk s) !! u = Some blob /\ blob_of k u st blob
  | None => enc (disk s) !! u = None
  end.

Lemma persist_done s nonce k u s' : km s = Some k -> storeDir s <> "" -> nonce_sized nonce ->
  persist s nonce Done u = (s', true) -> on_disk s' k u /\ forall v, v <> u -> on_disk s k v -> on_disk s' k v.
Proof.
  intros Hk Hd Hn H. unfold persist, removeFromDisk in H.
  rewrite Hk, (proj2 (String.eqb_neq _ _) Hd) in H. unfold on_disk.
  destruct (users s !! u) as [st|] eqn:Hu.
  - destruct (Seal _ _ _ _) as [blob|] eqn:Hs; [|done]. injection H as <-. cbn. split.
    + rewrite Hu, lookup_insert, decide_True by done. exists blob. split; [done|]. by exists nonce.
    + intros v Hv. by rewrite lookup_insert_ne.
  - injection H as <-. cbn. split; [by rewrite Hu, lookup_delete, decide_True|].
    intros v Hv. by rewrite lookup_delete_ne.
Qed.

Lemma load_entry_opens s k u blob st : gcm_correct -> json_correct -> blob_of k u st blob ->
  load_entry s k (fun _ => true) (u, blob) = put s u st.
Proof.
  intros Hgcm Hj Hb. unfold load_entry. cbn [negb fst snd]. rewrite (blob_opens _ _ _ _ Hgcm Hb).
  by rewrite bytes_of_string_of_bytes, Hj, fromPersisted_toPersisted.
Qed.

Lemma load_disk s k readable l : disk (foldl (fun s u => load_entry s k readable u) s l) = disk s.
Proof.
  revert s. induction l as [|u l IH]; intros s; [done|]. cbn [foldl]. rewrite IH.
  unfold load_entry. by repeat case_match.
Qed.

Lemma load_all k (m : gmap string totpState) l : gcm_correct -> json_correct -> NoDup l.*1 ->
  (forall u blob, (u, blob) ∈ l -> exists st, m !! u = Some st /\ blob_of k u st blob) -> forall s,
  users (foldl (fun s u => load_entry s k (fun _ => true) u) s l) =
    filter (fun p => p.1 ∈ l.*1) m ∪ users s.
Proof.
  intros Hgcm Hj. induction l as [|[u blob] l IH]; intros Hnd Hl s.
  - cbn. assert (filter (fun p : string * totpState => p.1 ∈ @nil string) m = ∅) as ->.
    { apply map_empty. intros i. apply map_lookup_filter_None. right. intros x _. apply not_elem_of_nil. }
    by rewrite (left_id_L ∅ _).
  - cbn in Hnd. apply NoDup_cons in Hnd as [Hu Hnd]. destruct (Hl u blob ltac:(left)) as (st & Hst & Hb).
    cbn [foldl]. rewrite (load_entry_opens s k u blob st) by done.
    rewrite IH by (try done; intros; apply Hl; by right). rewrite users_put.
    apply map_eq. intros v. rewrite !lookup_union, !map_lookup_filter.
    destruct (decide (v = u)) as [->|Hne].
    + rewrite lookup_insert, decide_True by done. rewrite Hst. cbn.
      rewrite option_guard_False, option_guard_True by (try done; left). by destruct (users s !! u).
    + rewrite lookup_insert_ne by done. destruct (m !! v) as [x|]; cbn; [|done].
      destruct (decide (v ∈ l.*1)) as [Hin|Hin].
      * by rewrite !option_guard_True by (try right; done).
      * rewrite !option_guard_False by (try done; by intros [|]%elem_of_cons). done.
Qed.

(** A restart forgets nothing that was written: if the file of every user
    holds the entry of that user, as it does for a user after a successful
    [persist], then a new store opened with the same key on the same files
    has the same users in the same states, with their lockouts. *)
Theorem restart_recovers s k nonce : gcm_correct -> json_correct -> km s = Some k -> storeDir s <> "" ->
  nonce_sized nonce ->
  (forall u, on_disk s k u) -> json (disk s) = ∅ ->
  let '(s', r) := NewPersistentTOTPStore (Some k) (storeDir s) (disk s) true (tmp (disk s))
                    (fun _ => true) (fun _ => None) (fun _ => Done) (fun _ => true) in
  r = Ok tt /\ users s' = users s /\ tmp (disk s') = ∅ /\
  (forall u st s2, persist (put s u st) nonce Done u = (s2, true) -> forall v, on_disk s2 k v).
Proof.
  intros Hgcm Hj Hk Hd Hn Hall Hjs. unfold NewPersistentTOTPStore.
  rewrite (proj2 (String.eqb_neq _ _) Hd). cbn [negb].
  unfold migratePlaintext. cbn [km newTOTPStore set_disk storeDir].
  rewrite (proj2 (String.eqb_neq _ _) Hd). cbn [disk set_disk cleanupStaleTmpFiles set_tmp json].
  rewrite Hjs, map_to_list_empty. cbn [fmap list_fmap merge_sort]. split; [done|].
  unfold loadFromDisk. cbn [km set_disk newTOTPStore storeDir]. rewrite (proj2 (String.eqb_neq _ _) Hd).
  cbn [disk set_disk set_tmp enc].
  split; [|split; [|intros u st s2 H2 v]].
  - unfold json_correct in Hj. cbn [enc].
    set (s1 := set_disk _ _). assert (users s1 = ∅) as He by done.
    transitivity (filter (fun p => p.1 ∈ (map_to_list (enc (disk s))).*1) (users s) ∪ users s1).
    { apply (load_all k (users s)); [done..|apply NoDup_fst_map_to_list|].
      intros u blob Hin. apply elem_of_map_to_list in Hin. specialize (Hall u). unfold on_disk in Hall.
      destruct (users s !! u) as [st|]; [|congruence]. destruct Hall as (b & Hb & Hbo). exists st. by simplify_eq. }
    rewrite He, (right_id_L ∅ _). apply map_filter_id. intros u st Hu. cbn.
    specialize (Hall u). unfold on_disk in Hall. rewrite Hu in Hall. destruct Hall as (b & Hb & _).
    apply list_elem_of_fmap. exists (u, b). split; [done|]. by apply elem_of_map_to_list.
  - rewrite load_disk. cbn. apply difference_diag_L.
  - destruct (persist_done (put s u st) nonce k u s2 Hk Hd Hn H2) as [Hd1 Hd2].
    destruct (decide (v = u)) as [->|Hv]; [done|]. apply Hd2; [done|].
    unfold on_disk. rewrite users_put, lookup_insert_ne by done. apply Hall.
Qed.

(** ** Recovery codes *)

Lemma consume_cases codes code : match consume codes code with
  | Some codes' => exists l k, codes = l ++ code :: k /\ codes' = l ++ k /\ code ∉ l
  | None => code ∉ codes
  end.
Proof.
  induction codes as [|rc codes IH]; cbn [consume]; [apply not_elem_of_nil|].
  destruct (String.eqb_spec rc code) as [->|Hne].
  { exists [], codes. split; [done|]. split; [done|]. apply not_elem_of_nil. }
  destruct (consume codes code) as [codes'|]; cbn.
  - destruct IH as (l & k & -> & -> & Hl). exists (rc :: l), k. split; [done|]. split; [done|].
    intros [|]%elem_of_cons; congruence.
  - intros [|]%elem_of_cons; congruence.
Qed.

(** A recovery code that occurs once works once. *)
Lemma recovery_code_once s e u code s' st : ConsumeRecoveryCode s e u code = (s', true) ->
  users s !! u = Some st -> NoDup (RecoveryCodes st) ->
  forall e', ConsumeRecoveryCode s' e' u code = (s', false).
Proof.
  unfold ConsumeRecoveryCode at 1. intros H Hu Hnd e'. rewrite Hu in H.
  destruct (negb (active st)) eqn:Ha; [done|]. pose proof (consume_cases (RecoveryCodes st) code) as Hc.
  destruct (consume _ code) as [codes|]; [|done]. injection H as <-.
  unfold ConsumeRecoveryCode. rewrite lookup_stored, decide_True by done.
  change (active (set_codes st codes)) with (active st). rewrite Ha. cbn [RecoveryCodes set_codes].
  destruct Hc as (l & k & E & -> & _). rewrite E in Hnd.
  apply NoDup_app in Hnd as (_ & Hl & [Hk _]%NoDup_cons).
  pose proof (consume_cases (l ++ k) code) as H. destruct (consume (l ++ k) code); [|done].
  destruct H as (l' & k' & E' & _). exfalso.
  assert (code ∈ l ++ k) as [?|?]%elem_of_app by (rewrite E'; set_solver); [|done].
  apply (Hl code); [done|left].
Qed.
End Crypto.

(** ** Concrete functions for the witnesses *)

(** A prefix-free text of a key stands in for its cipher. *)
Fixpoint toy_key (k : list byte) : list byte := match k with [] => [x00] | b :: k => x01 :: b :: toy_key k end.
Fixpoint strip (p l : list byte) : option (list byte) :=
  match p, l with
  | [], _ => Some l
  | a :: p, b :: l => if bool_decide (a = b) then strip p l else None
  | _ :: _, [] => None
  end.
Definition toy_seal (k n p a : list byte) : list byte := toy_key k ++ p.
Definition toy_open (k n c a : list byte) : option (list byte) := strip (toy_key k) c.
Definition toy_hmac (k m : list byte) : list byte := m ++ m ++ m ++ m.
Definition toy_hkdf (k : list byte) : list byte := take 32 (k ++ replicate 32 x00).
Definition toy_state : persistedState := toPersistedState (MkState [] [] [] 0 0 0 0).
Definition toy_marshal (ps : persistedState) : list byte := [].
Definition toy_unmarshal (b : list byte) : option persistedState := Some toy_state.

Lemma strip_app p l : strip p (p ++ l) = Some l.
Proof. induction p; cbn; [by destruct l|]. by rewrite bool_decide_eq_true_2. Qed.
Lemma toy_correct : gcm_correct toy_seal toy_open.
Proof. intros k n p a. apply strip_app. Qed.
Lemma toy_bound : gcm_bound toy_seal toy_open.
Proof.
  intros k k' n p a. unfold toy_open, toy_seal. revert k'.
  induction k as [|b k IH]; intros [|b' k'] H; cbn; try done.
  rewrite bool_decide_eq_true_2 by done. case_bool_decide; [|done]. subst. apply IH. congruence.
Qed.

Definition nonce0 : list byte := replicate 12 x00.
Definition key0 : list byte := replicate 32 x07.
Definition km0 : TOTPKeyManager := MkKM (toy_hkdf key0) "/master.key".
Definition store0 : TOTPStore := newTOTPStore (Some km0) "/totp" (set_master no_files (Some key0) None None).
Definition env0 (now : Z) : env :=
  MkEnv now now (Some (replicate 32 x2a)) (fun i => Random (replicate 8 (byte_of_Z (Z.of_nat i))))
    (Some nonce0) (Some nonce0) Done.
Definition now0 : Z := 1700000000 * second.

Lemma nonce0_sized : nonce_sized (Some nonce0).
Proof. by intros n [= <-]. Qed.

Definition enrolled0 := Enroll toy_seal toy_marshal store0 (env0 now0) "ada".

(** At noon of some day in 2023 Ada enrols and enters the code of the
    previous half minute. *)
Lemma Enroll_then_ValidateCode_witness : exists code,
  computeTOTPCode toy_hmac (replicate 32 x2a) (u64 (Z.quot (Unix (now0 + 20 * second)) totpPeriod + -1)) = Some code /\
  (ValidateCode toy_hmac toy_seal toy_open toy_marshal enrolled0.1 (env0 (now0 + 20 * second)) "ada" code).2 = true.
Proof.
  eexists. split; [vm_compute; reflexivity|].
  destruct (Enroll_then_ValidateCode toy_hmac toy_seal toy_open toy_marshal store0 (env0 now0) enrolled0.1
    (MkEnroll (Base32.EncodeToString (replicate 32 x2a))
       (generateRecoveryCodes (codes_rand (env0 now0))) StatePending) "ada" (env0 (now0 + 20 * second)) "000864"
    toy_correct nonce0_sized ltac:(vm_compute; reflexivity)) as (key & Hkey & _ & H).
  destruct (ValidateCode _ _ _ _ _ _ _ _) as [s ok]. apply H. exists (-1). split; [lia|].
  injection Hkey as <-. vm_compute. reflexivity.
Defined.

(** Ada rotates her key, and the code of the new secret ends the rotation. *)
Definition ada (st : totpState) : TOTPStore := put store0 "ada" st.
Definition verified0 : totpState :=
  MkState (nonce0 ++ toy_seal (encKey km0) nonce0 (bytes_of_string "MFRA") (bytes_of_string "ada")) [] ["AAAAAAAA"]
    StateVerified zeroTime 2 zeroTime.



Definition rotation0 (o : file_outcome) : rotation :=
  MkRotation (Some (replicate 32 x09)) true ["ada"] (fun _ => Some nonce0) (fun _ => Some nonce0)
    (fun _ => o) (fun _ => true) true true true.

Lemma visits0 o : visits (ada verified0) (rotation0 o).
Proof.
  split; [|split; [|split; apply nonce0_sized]].
  - apply NoDup_singleton.
  - intros u. cbn. rewrite insert_empty, lookup_singleton. case_decide; [subst; left|by intros []].
Qed.

Lemma RotateMasterKey_reseals_witness :
  exists new, km (RotateMasterKey toy_seal toy_open toy_hkdf toy_marshal (ada verified0) (rotation0 Done)).1 = Some new /\
    encKey new = toy_hkdf (replicate 32 x09).
Proof.
  destruct (RotateMasterKey_reseals toy_seal toy_open toy_hkdf toy_marshal (ada verified0) (rotation0 Done)
    (RotateMasterKey toy_seal toy_open toy_hkdf toy_marshal (ada verified0) (rotation0 Done)).1 km0
    toy_correct (visits0 Done) ltac:(reflexivity) ltac:(vm_compute; reflexivity))
    as (key & new & Hkey & Hkm & Henc & _).
  exists new. split; [exact Hkm|]. rewrite Henc. injection Hkey as <-. vm_compute. reflexivity.
Defined.

Lemma RotateMasterKey_failure_strands_witness :
  ValidateCode toy_hmac toy_seal toy_open toy_marshal
    (RotateMasterKey toy_seal toy_open toy_hkdf toy_marshal (ada verified0) (rotation0 RenameFailed)).1
    (env0 now0) "ada" "123456" =
  ((RotateMasterKey toy_seal toy_open toy_hkdf toy_marshal (ada verified0) (rotation0 RenameFailed)).1, false).
Proof.
  apply (RotateMasterKey_failure_strands toy_hmac toy_seal toy_open toy_hkdf toy_marshal (ada verified0)
    (rotation0 RenameFailed) _ km0 (replicate 32 x09) "ada" verified0 toy_bound (visits0 RenameFailed)
    ltac:(reflexivity) ltac:(reflexivity) ltac:(vm_compute; discriminate) ltac:(reflexivity)
    ltac:(vm_compute; discriminate) ltac:(vm_compute; reflexivity)).
Defined.

(** A codec that loses nothing, for the restart. *)
#[local] Instance byte_eq_dec : EqDecision byte.
Proof. exact Byte.byte_eq_dec. Defined.
#[local] Instance byte_countable : Countable byte :=
  inj_countable Byte.to_N Byte.of_N Byte.of_to_N.
Definition tuple_of (p : persistedState) :=
  (Version p, ps_EncryptedSecret p, ps_OldEncryptedSecret p, ps_RecoveryCodes p, ps_State p, ps_PendingSince p,
   ps_FailedAttempts p, ps_LockedUntil p).
Fixpoint pos_bytes (p : positive) : list byte :=
  match p with xH => [] | xO p => x00 :: pos_bytes p | xI p => x01 :: pos_bytes p end.
Fixpoint bytes_pos (l : list byte) : positive :=
  match l with [] => xH | x00 :: l => xO (bytes_pos l) | _ :: l => xI (bytes_pos l) end.
Lemma bytes_pos_bytes p : bytes_pos (pos_bytes p) = p.
Proof. induction p; cbn; congruence. Qed.
Definition tuple_marshal (p : persistedState) : list byte := pos_bytes (encode (tuple_of p)).
Definition tuple_unmarshal (b : list byte) : option persistedState :=
  (fun '(v, e, o, c, s, p, f, l) => MkPersisted v e o c s p f l) <$> decode (bytes_pos b).
Lemma tuple_correct : json_correct tuple_marshal tuple_unmarshal.
Proof.
  intros p. unfold tuple_unmarshal, tuple_marshal. rewrite bytes_pos_bytes, decode_encode. by destruct p.
Qed.

Definition stored0 : TOTPStore := (persist toy_seal tuple_marshal (ada verified0) (Some nonce0) Done "ada").1.

Lemma on_disk0 u : on_disk toy_seal tuple_marshal stored0 km0 u.
Proof.
  assert (persist toy_seal tuple_marshal (ada verified0) (Some nonce0) Done "ada" = (stored0, true)) as Hp.
  { rewrite (surjective_pairing (persist _ _ _ _ _ _)). f_equal. }
  destruct (persist_done _ _ (ada verified0) (Some nonce0) km0 "ada" stored0 eq_refl ltac:(discriminate) nonce0_sized Hp) as [H1 H2].
  destruct (decide (u = "ada")) as [->|Hne]; [done|]. apply H2; [done|].
  unfold on_disk. cbn. by rewrite insert_empty, lookup_singleton_ne.
Qed.

Lemma restart_recovers_witness :
  users (NewPersistentTOTPStore toy_seal toy_open tuple_marshal tuple_unmarshal (Some km0) "/totp" (disk stored0) true
    (tmp (disk stored0)) (fun _ => true) (fun _ => None) (fun _ => Done) (fun _ => true)).1 = users stored0.
Proof.
  pose proof (restart_recovers toy_seal toy_open tuple_marshal tuple_unmarshal stored0 km0 (Some nonce0)
    toy_correct tuple_correct ltac:(reflexivity) ltac:(discriminate) nonce0_sized on_disk0 ltac:(reflexivity)) as H.
  change (storeDir stored0) with "/totp" in H. destruct (NewPersistentTOTPStore _ _ _ _ _ _ _ _ _ _ _ _) as [s r].
  apply H.
Defined.
End Totp.
