(* ===== verification/ConfigFile.v ===== *)
(** * Configuration (internal/config/config.go, validate.go)

    The configuration as it is loaded, with the defaults that are filled in
    after the file was decoded, and its validation with the search for port
    conflicts. YAML and the file system are parameters. A message is kept as
    its format with its arguments. *)
From stdpp Require Import prelude gmap list strings sorting.
From Stdlib Require Import Strings.Byte ZArith QArith Lia.
From S2P Require Import Prelude GoBytes GoNet GoNetParse Acl.
Local Open Scope Z_scope.

Module Config.

(** ** Data *)

Record PositionConfig : Type := MkPosition { X : Q; Y : Q; PZ : Q }.
Record NodeConfig : Type := MkNode {
  n_Identity : string; n_IdentityFile : string; n_Fingerprint : string; n_Hostname : string; WebAddr : string;
  Position : option PositionConfig
}.
Record MeshConfig : Type := MkMesh {
  m_Port : Z; m_Zone : string; TunEnabled : bool; MeshCIDR : string; SubnetProxy : list string; TunName : string;
  TunMTU : Z; StaticVirtualIP : string; DNSEnabled : bool; DNSPort : Z; m_FileTransferPaths : list string
}.
Record RealityPeerConfig : Type := MkRealityPeer {
  ServerName : string; rp_PublicKey : string; ShortID : string; TLSFingerprint : string
}.
Record PeerConfig : Type := MkPeer {
  PublicKey : string; Endpoint : string; AllowedIPs : list string; Capabilities : list string; p_Zone : string;
  p_Reality : option RealityPeerConfig; ServiceManage : list string; p_FileTransferPaths : list string;
  MonitorScopes : list string
}.
Record P2pConfig : Type := MkP2p {
  p2p_Enabled : bool; Seeds : list string; RelayMode : string; MaxRelayHops : Z; AdvertiseEndpoints : list string;
  AdvertiseEndpoint : string
}.
Record MonitoringConfig : Type := MkMonitoring { Collectors : list string; mon_Interval : Z; mon_Port : Z }.
Record WebSSHConfig : Type := MkWebSSH {
  ssh_Port : Z; HostKey : string; Shell : string; DialTimeout : Z; ReadDeadline : Z; WriteDeadline : Z; MaxSessions : Z
}.
Record WebUser : Type := MkUser { Username : string; PasswordHash : string }.
Record AuthConfig : Type := MkAuth {
  WebUsers : list WebUser; TOTPIssuer : string; Require2FA : bool; TOTPWindow : Z; TOTPStoreDir : string;
  StepUpTimeout : Z; AlertWebhookURL : string; legacyTOTPSecret : string
}.
Record TransferConfig : Type := MkTransfer { MaxFileSize : Z; UploadDir : string }.
Record PathSelectionConfig : Type := MkPathSelection {
  ps_Mode : string; Strategy : string; MaxRelaysPerPath : Z; ProbeTimeoutSec : Z; ProbeConcurrency : Z;
  MaxCandidates : Z; ProbeCacheTTLSec : Z; ExitLatencyMatrix : gmap string (gmap string Z)
}.
Record RelayNodeConfig : Type := MkRelayNode {
  rel_Enabled : bool; JitterMinMs : Z; JitterMaxMs : Z; DisableJitter : bool; MaxCircuits : Z; MaxQueueDepth : Z
}.
Record CircuitLifecycleConfig : Type := MkCircuit {
  IdleTimeout : Z; KeepaliveInterval : Z; NACKTimeout : Z; OrphanTimeout : Z; MaxReassemblyWindow : Z
}.
Record ExitConfig : Type := MkExit {
  e_AllowedPorts : list Z; e_AllowAllPorts : bool; e_DestinationFilter : list string; AuditLogDir : string;
  AuditRetentionDays : Z
}.
Record SOCKS5YAMLConfig : Type := MkSocks {
  s_Enabled : bool; s_AllowedPorts : list Z; s_AllowAllPorts : bool; s_DestinationFilter : list string;
  DialTimeoutSec : Z; IdleTimeoutSec : Z; MaxConnections : Z; AllowedPeers : list string; RequireMeshPeer : bool;
  EntryListen : string; EntryUsername : string; EntryPassword : string; ExitNode : string; ExitNodes : list string
}.
Record ProxyConfig : Type := MkProxy {
  Circuit : CircuitLifecycleConfig; ChunkerStrategy : string; DebugFixedChunks : bool; Paths : list (list string);
  PathSelection : PathSelectionConfig; ExitAddr : string; Relay : RelayNodeConfig; Exit : ExitConfig;
  SOCKS5 : SOCKS5YAMLConfig
}.
Record RealityServerConfig : Type := MkReality {
  rs_Enabled : bool; rs_ListenAddr : string; ListenPort : Z; Dest : string; ServerNames : list string;
  PrivateKey : string; ShortIDs : list string
}.
Record JoinConfig : Type := MkJoin {
  j_Enabled : bool; j_ListenAddr : string; Secret : string; TLSCertFile : string; TLSKeyFile : string;
  TokenLifetime : Z; ServerURL : string; Token : string; InsecureSkipTLSVerify : bool
}.
Record TunConfig : Type := MkTun {
  t_Enabled : bool; Subnet : string; MTU : Z; t_Name : string; SubnetProxies : list string
}.
Record LoggingConfig : Type := MkLogging {
  LogFile : string; LogMaxSize : Z; LogMaxBackups : Z; LogMaxAge : Z; LogCompress : bool; LogLevel : string
}.
Record Config : Type := MkConfig {
  Node : NodeConfig; Mesh : MeshConfig; Peers : list PeerConfig; P2P : P2pConfig; Monitoring : MonitoringConfig;
  WebSSH : WebSSHConfig; Auth : AuthConfig; Transfer : TransferConfig; Proxy : ProxyConfig;
  Reality : RealityServerConfig; Join : JoinConfig; Tun : TunConfig; ACL : Acl.ACLConfig; Logging : LoggingConfig
}.

Definition DefaultLogMaxSize : Z := 10 * 2 ^ 20.
Definition DefaultLogMaxBackups : Z := 5.
Definition DefaultTunMTU : Z := 1400.
Definition DefaultMeshPort : Z := 52888.
Definition DefaultIdentityFile : string := "/etc/meshdesk/identity.pem".
Definition DefaultMaxFileSize : Z := 2 ^ 30.
Definition DefaultUploadDir : string := "/tmp/meshdesk-uploads/".
Definition DefaultTOTPStoreDir : string := "/var/lib/meshdesk/totp".

Definition Default : Config := MkConfig
  (MkNode "" DefaultIdentityFile "" "" "" None)
  (MkMesh DefaultMeshPort "" true "10.100.0.0/24" [] "mesh0" DefaultTunMTU "" true 5353 [])
  []
  (MkP2p false [] "auto" 2 [] "")
  (MkMonitoring [] 15 0)
  (MkWebSSH 2222 "" "" 10 300 10 256)
  (MkAuth [] "MeshDesk" false 1 "" 300 "" "")
  (MkTransfer DefaultMaxFileSize DefaultUploadDir)
  (MkProxy (MkCircuit 300 30 5 30 256) "bounded-4k-64k" false [] (MkPathSelection "manual" "latency" 0 0 0 0 0 ∅) ""
     (MkRelayNode false 5 50 false 1024 256) (MkExit [80; 443] false [] "" 7)
     (MkSocks false [] false [] 0 0 0 [] false "" "" "" "" []))
  (MkReality false "" 0 "" [] "" [])
  (MkJoin false "" "" "" "" 0 "" "" false)
  (MkTun false "" 0 "" [])
  (Acl.MkACLConfig false Acl.ACLActionAllow [])
  (MkLogging "" 0 0 0 false "").

(** ** Loading: the defaults after the file was decoded

    The sections in the order of the code; a section reads only itself and,
    where arguments say so, others that are final by then. *)
Definition z0 (x d : Z) : Z := if x =? 0 then d else x.
Definition s0 (x d : string) : string := if String.eqb x "" then d else x.
Definition l0 {A} (x d : list A) : list A := match x with [] => d | _ => x end.

Definition load_mesh (t : TunConfig) (m : MeshConfig) : MeshConfig :=
  let port := z0 (m_Port m) DefaultMeshPort in
  let mtu := z0 (TunMTU m) DefaultTunMTU in
  let name := if TunEnabled m then s0 (TunName m) "mesh0" else TunName m in
  let dns := if DNSEnabled m then z0 (DNSPort m) 5353 else DNSPort m in
  let enabled := t_Enabled t || TunEnabled m in
  let cidr := if negb (String.eqb (Subnet t) "") then s0 (MeshCIDR m) (Subnet t) else MeshCIDR m in
  let name := if negb (String.eqb (t_Name t) "") then s0 name (t_Name t) else name in
  let mtu := if negb (MTU t =? 0) then z0 mtu (MTU t) else mtu in
  let subnets := l0 (SubnetProxy m) (SubnetProxies t) in
  MkMesh port (m_Zone m) enabled (s0 cidr "10.100.0.0/24") subnets (s0 name "mesh0") mtu (StaticVirtualIP m)
    (DNSEnabled m) dns (m_FileTransferPaths m).
Definition load_peer (p : PeerConfig) : PeerConfig :=
  let r := default (MkRealityPeer "" "" "" "") (p_Reality p) in
  MkPeer (PublicKey p) (Endpoint p) (AllowedIPs p) (Capabilities p) (p_Zone p)
    (Some (MkRealityPeer (s0 (ServerName r) "www.microsoft.com") (rp_PublicKey r) (s0 (ShortID r) "0123456789abcdef")
             (s0 (TLSFingerprint r) "chrome")))
    (ServiceManage p) (p_FileTransferPaths p) (MonitorScopes p).
Definition load_reality (m : MeshConfig) (r : RealityServerConfig) : RealityServerConfig :=
  if rs_Enabled r then
    MkReality true (rs_ListenAddr r) (z0 (ListenPort r) (m_Port m)) (s0 (Dest r) "www.microsoft.com:443")
      (l0 (ServerNames r) ["www.microsoft.com"%string]) (PrivateKey r) (l0 (ShortIDs r) ["0123456789abcdef"%string])
  else r.
Definition load_p2p (p : P2pConfig) : P2pConfig :=
  MkP2p (p2p_Enabled p) (Seeds p) (if p2p_Enabled p then s0 (RelayMode p) "auto" else RelayMode p)
    (if p2p_Enabled p then z0 (MaxRelayHops p) 2 else MaxRelayHops p)
    (if negb (String.eqb (AdvertiseEndpoint p) "") then l0 (AdvertiseEndpoints p) [AdvertiseEndpoint p]
     else AdvertiseEndpoints p) (AdvertiseEndpoint p).
Definition load_monitoring (m : MonitoringConfig) : MonitoringConfig :=
  MkMonitoring (Collectors m) (z0 (mon_Interval m) 15) (z0 (mon_Port m) 4191).
Definition load_webssh (w : WebSSHConfig) : WebSSHConfig :=
  MkWebSSH (z0 (ssh_Port w) 2222) (HostKey w) (Shell w) (z0 (DialTimeout w) 10) (z0 (ReadDeadline w) 300)
    (z0 (WriteDeadline w) 10) (z0 (MaxSessions w) 256).
Definition load_transfer (t : TransferConfig) : TransferConfig :=
  MkTransfer (z0 (MaxFileSize t) DefaultMaxFileSize) (s0 (UploadDir t) DefaultUploadDir).
Definition load_auth (a : AuthConfig) : AuthConfig :=
  MkAuth (WebUsers a) (s0 (TOTPIssuer a) "MeshDesk") (Require2FA a) (z0 (TOTPWindow a) 1)
    (s0 (TOTPStoreDir a) DefaultTOTPStoreDir) (z0 (StepUpTimeout a) 300) (AlertWebhookURL a) (legacyTOTPSecret a).
Definition load_circuit (c : CircuitLifecycleConfig) : CircuitLifecycleConfig :=
  MkCircuit (z0 (IdleTimeout c) 300) (z0 (KeepaliveInterval c) 30) (z0 (NACKTimeout c) 5) (z0 (OrphanTimeout c) 30)
    (z0 (MaxReassemblyWindow c) 256).
Definition load_exit (e : ExitConfig) : ExitConfig :=
  MkExit (if e_AllowAllPorts e then e_AllowedPorts e else l0 (e_AllowedPorts e) [80; 443]) (e_AllowAllPorts e)
    (e_DestinationFilter e) (AuditLogDir e) (z0 (AuditRetentionDays e) 7).
Definition load_socks (s : SOCKS5YAMLConfig) : SOCKS5YAMLConfig :=
  if s_Enabled s then
    MkSocks true (if s_AllowAllPorts s then s_AllowedPorts s else l0 (s_AllowedPorts s) [80; 443]) (s_AllowAllPorts s)
      (s_DestinationFilter s) (z0 (DialTimeoutSec s) 30) (z0 (IdleTimeoutSec s) 300) (z0 (MaxConnections s) 256)
      (AllowedPeers s) (RequireMeshPeer s) (EntryListen s) (EntryUsername s) (EntryPassword s) (ExitNode s) (ExitNodes s)
  else s.
Definition load_relay (r : RelayNodeConfig) : RelayNodeConfig :=
  MkRelayNode (rel_Enabled r) (z0 (JitterMinMs r) 5) (z0 (JitterMaxMs r) 50) (DisableJitter r) (z0 (MaxCircuits r) 1024)
    (z0 (MaxQueueDepth r) 256).
Definition load_paths (p : PathSelectionConfig) : PathSelectionConfig :=
  MkPathSelection (s0 (ps_Mode p) "manual") (s0 (Strategy p) "latency") (z0 (MaxRelaysPerPath p) 2)
    (z0 (ProbeTimeoutSec p) 3) (z0 (ProbeConcurrency p) 8) (z0 (MaxCandidates p) 10) (z0 (ProbeCacheTTLSec p) 30)
    (ExitLatencyMatrix p).
Definition load_proxy (p : ProxyConfig) : ProxyConfig :=
  MkProxy (load_circuit (Circuit p)) (s0 (ChunkerStrategy p) "bounded-4k-64k") (DebugFixedChunks p) (Paths p)
    (load_paths (PathSelection p)) (ExitAddr p) (load_relay (Relay p)) (load_exit (Exit p)) (load_socks (SOCKS5 p)).
Definition load_join (j : JoinConfig) : JoinConfig :=
  if j_Enabled j then
    MkJoin true (s0 (j_ListenAddr j) ":8443") (Secret j) (TLSCertFile j) (TLSKeyFile j) (z0 (TokenLifetime j) 1800)
      (ServerURL j) (Token j) (InsecureSkipTLSVerify j)
  else j.
Definition load_tun (t : TunConfig) : TunConfig :=
  MkTun (t_Enabled t) (Subnet t) (if t_Enabled t then z0 (MTU t) DefaultTunMTU else MTU t) (t_Name t) (SubnetProxies t).
Definition load_acl (a : Acl.ACLConfig) : Acl.ACLConfig :=
  Acl.MkACLConfig (Acl.Enabled a) (s0 (Acl.cfg_DefaultPolicy a) Acl.ACLActionAllow) (Acl.Rules a).
Definition load_logging (l : LoggingConfig) : LoggingConfig :=
  if String.eqb (LogFile l) "" then l
  else MkLogging (LogFile l) (z0 (LogMaxSize l) DefaultLogMaxSize) (z0 (LogMaxBackups l) DefaultLogMaxBackups)
         (LogMaxAge l) (LogCompress l) (LogLevel l).

Definition finish (c : Config) : Config :=
  let mesh := load_mesh (Tun c) (Mesh c) in
  MkConfig (Node c) mesh (load_peer <$> Peers c) (load_p2p (P2P c)) (load_monitoring (Monitoring c))
    (load_webssh (WebSSH c)) (load_auth (Auth c)) (load_transfer (Transfer c)) (load_proxy (Proxy c))
    (load_reality mesh (Reality c)) (load_join (Join c)) (load_tun (Tun c)) (load_acl (ACL c)) (load_logging (Logging c)).
Definition set_legacy (s : string) (c : Config) : Config :=
  let a := Auth c in
  MkConfig (Node c) (Mesh c) (Peers c) (P2P c) (Monitoring c) (WebSSH c)
    (MkAuth (WebUsers a) (TOTPIssuer a) (Require2FA a) (TOTPWindow a) (TOTPStoreDir a) (StepUpTimeout a)
       (AlertWebhookURL a) s)
    (Transfer c) (Proxy c) (Reality c) (Join c) (Tun c) (ACL c) (Logging c).

(** A value of the raw file: a string or something else. *)
Inductive yaml_value : Type := YString (s : string) | YOther.

Section Files.
(** The decoder of YAML: onto a configuration with its defaults, into
    sections of raw values, and whether into a map of anything. *)
Variable unmarshal : list byte -> Config -> result string Config.
Variable unmarshal_sections : list byte -> option (gmap string (gmap string yaml_value)).
Variable unmarshal_any : list byte -> bool.
Variable marshal : Config -> result string (list byte).

Definition extractLegacyTOTPSecret (data : list byte) : string :=
  match raw ← unmarshal_sections data; auth ← raw !! "auth"%string; auth !! "totp_secret"%string with
  | Some (YString s) => s
  | _ => ""
  end.

(** [file] is what reading the file gives. *)
Definition Load (file : result string (list byte)) : result string Config :=
  match file with
  | Err e => Err ("read config: " +:+ e)%string
  | Ok data =>
      match unmarshal data Default with
      | Err e => Err ("parse config: " +:+ e)%string
      | Ok c =>
          let legacy := extractLegacyTOTPSecret data in
          Ok (finish (if String.eqb legacy "" then c else set_legacy legacy c))
      end
  end.

(** [write] is the error of writing the file. *)
Definition Save (write : list byte -> option string) (c : Config) : result string (list byte) :=
  match marshal c with
  | Err e => Err ("marshal config: " +:+ e)%string
  | Ok data => match write data with Some e => Err ("write config: " +:+ e)%string | None => Ok data end
  end.

(** ** Validation *)

(** A formatted message: the format and what is put into it; the text of an
    error is not kept. *)
Inductive arg : Type := AInt (z : Z) | AStr (s : string) | AErr.
Definition message : Type := (string * list arg).
Record ValidationError : Type := MkError { Section_ : string; Field : string; Message : message }.
Definition check (bad : bool) (section field format : string) (args : list arg) : list ValidationError :=
  if bad then [MkError section field (format, args)] else [].
Definition required (s section field text : string) : list ValidationError := check (String.eqb s "") section field text [].

Definition parseCIDR (s : string) : bool := bool_decide (is_Some (ParseCIDR s)).
Definition port_bad (lo p : Z) : bool := (p <? lo) || (65535 <? p).
Definition one_of (s : string) (l : list string) : bool := bool_decide (s ∈ l).

Definition check_mesh (m : MeshConfig) : list ValidationError :=
  check (port_bad 1 (m_Port m)) "mesh" "port" "port must be 1-65535, got %d" [AInt (m_Port m)] ++
  (if TunEnabled m then
     check (negb (parseCIDR (MeshCIDR m))) "mesh" "mesh_cidr" "invalid CIDR %q: %v" [AStr (MeshCIDR m); AErr] ++
     (sp ← SubnetProxy m; check (negb (parseCIDR sp)) "mesh" "subnet_proxy" "invalid CIDR %q: %v" [AStr sp; AErr])
   else []) ++
  check ((TunMTU m <? 0) || (9000 <? TunMTU m)) "mesh" "tun_mtu" "tun_mtu must be 0 (default) or 1-9000, got %d"
    [AInt (TunMTU m)] ++
  check (negb (String.eqb (StaticVirtualIP m) "") && bool_decide (ParseIP (StaticVirtualIP m) = None))
    "mesh" "static_virtual_ip" "invalid IP %q" [AStr (StaticVirtualIP m)] ++
  check (DNSEnabled m && port_bad 0 (DNSPort m)) "mesh" "dns_port" "dns_port must be 0-65535, got %d" [AInt (DNSPort m)].

(** The loop over the peers, [i] the index and [seen] the keys so far. *)
Fixpoint check_peers (i : Z) (seen : gset string) (l : list PeerConfig) : list ValidationError :=
  match l with
  | [] => []
  | p :: l =>
      let prefix := ("peers[" +:+ itoa i +:+ "]")%string in
      required (PublicKey p) prefix "public_key" "public_key is required" ++
      check (negb (String.eqb (PublicKey p) "") && bool_decide (PublicKey p ∈ seen)) prefix "public_key"
        "duplicate peer public_key %q" [AStr (PublicKey p)] ++
      check (negb (String.eqb (Endpoint p) "") && bool_decide (SplitHostPort (Endpoint p) = None)) prefix "endpoint"
        "invalid endpoint %q: %v" [AStr (Endpoint p); AErr] ++
      match p_Reality p with
      | Some r => required (rp_PublicKey r) (prefix +:+ ".reality") "public_key"
                    "public_key is required when reality is configured"
      | None => []
      end ++
      check_peers (i + 1) (if String.eqb (PublicKey p) "" then seen else {[PublicKey p]} ∪ seen) l
  end.

Definition check_monitoring (m : MonitoringConfig) : list ValidationError :=
  check (mon_Interval m <? 0) "monitoring" "interval" "interval must be >= 0, got %d" [AInt (mon_Interval m)] ++
  check (port_bad 0 (mon_Port m)) "monitoring" "port" "port must be 0-65535, got %d" [AInt (mon_Port m)].
Definition check_webssh (w : WebSSHConfig) : list ValidationError :=
  check (port_bad 0 (ssh_Port w)) "webssh" "port" "port must be 0-65535, got %d" [AInt (ssh_Port w)] ++
  check (DialTimeout w <? 0) "webssh" "dial_timeout" "dial_timeout must be >= 0, got %d" [AInt (DialTimeout w)] ++
  check (MaxSessions w <? 0) "webssh" "max_sessions" "max_sessions must be >= 0, got %d" [AInt (MaxSessions w)].
Fixpoint check_users (i : Z) (l : list WebUser) : list ValidationError :=
  match l with
  | [] => []
  | u :: l =>
      let prefix := ("auth.web_users[" +:+ itoa i +:+ "]")%string in
      required (Username u) prefix "username" "username is required" ++
      required (PasswordHash u) prefix "password_hash" "password_hash is required" ++
      check_users (i + 1) l
  end.
Definition check_auth (a : AuthConfig) : list ValidationError :=
  check_users 0 (WebUsers a) ++
  check (TOTPWindow a <? 0) "auth" "totp_window" "totp_window must be >= 0, got %d" [AInt (TOTPWindow a)].
Definition check_reality (r : RealityServerConfig) : list ValidationError :=
  if rs_Enabled r then
    required (Dest r) "reality" "dest" "dest is required when reality is enabled" ++
    required (PrivateKey r) "reality" "private_key" "private_key is required when reality is enabled" ++
    check (bool_decide (ServerNames r = [])) "reality" "server_names"
      "at least one server_name is required when reality is enabled" [] ++
    check (port_bad 0 (ListenPort r)) "reality" "listen_port" "listen_port must be 0-65535, got %d" [AInt (ListenPort r)]
  else [].
Definition check_join (j : JoinConfig) : list ValidationError :=
  (if j_Enabled j then
     required (Secret j) "join" "secret" "secret is required when join server is enabled" ++
     check (TokenLifetime j <? 0) "join" "token_lifetime" "token_lifetime must be >= 0, got %d" [AInt (TokenLifetime j)]
   else []) ++
  check (negb (String.eqb (Token j) "") && String.eqb (ServerURL j) "") "join" "server_url"
    "server_url is required when a join token is specified" [].
Definition check_proxy (p : ProxyConfig) : list ValidationError :=
  check (negb (one_of (ChunkerStrategy p) [""; "fixed-16k"; "bounded-4k-64k"]%string)) "proxy" "chunker_strategy"
    "must be 'fixed-16k' or 'bounded-4k-64k', got %q" [AStr (ChunkerStrategy p)] ++
  check (negb (one_of (ps_Mode (PathSelection p)) [""; "manual"; "auto"]%string)) "proxy.path_selection" "mode"
    "must be 'manual' or 'auto', got %q" [AStr (ps_Mode (PathSelection p))] ++
  check (negb (one_of (Strategy (PathSelection p)) [""; "latency"; "random"; "round-robin"]%string))
    "proxy.path_selection" "strategy" "must be 'latency', 'random', or 'round-robin', got %q"
    [AStr (Strategy (PathSelection p))] ++
  check ((JitterMaxMs (Relay p) <? JitterMinMs (Relay p)) && (0 <? JitterMaxMs (Relay p))) "proxy.relay" "jitter_min_ms"
    "jitter_min_ms (%d) must be <= jitter_max_ms (%d)" [AInt (JitterMinMs (Relay p)); AInt (JitterMaxMs (Relay p))].
Definition cidr_bad (s : string) : bool := negb (String.eqb s "") && negb (String.eqb s "*") && negb (parseCIDR s).
Fixpoint check_rules (i : Z) (l : list Acl.ACLRule) : list ValidationError :=
  match l with
  | [] => []
  | r :: l =>
      let prefix := ("acl.rules[" +:+ itoa i +:+ "]")%string in
      check (negb (one_of (Acl.r_Action r) [Acl.ACLActionAllow; Acl.ACLActionDeny])) prefix "action"
        "must be 'allow' or 'deny', got %q" [AStr (Acl.r_Action r)] ++
      check (cidr_bad (Acl.SourceCIDR r)) prefix "src_cidr" "invalid CIDR %q: %v" [AStr (Acl.SourceCIDR r); AErr] ++
      check (cidr_bad (Acl.DestCIDR r)) prefix "dst_cidr" "invalid CIDR %q: %v" [AStr (Acl.DestCIDR r); AErr] ++
      check (negb (one_of (Acl.Protocol r) [""; "*"; "tcp"; "udp"; "icmp"]%string)) prefix "protocol"
        "must be 'tcp', 'udp', 'icmp', or '*', got %q" [AStr (Acl.Protocol r)] ++
      check (port_bad 0 (Acl.r_SrcPort r)) prefix "src_port" "src_port must be 0-65535, got %d" [AInt (Acl.r_SrcPort r)] ++
      check (port_bad 0 (Acl.r_DstPort r)) prefix "dst_port" "dst_port must be 0-65535, got %d" [AInt (Acl.r_DstPort r)] ++
      check_rules (i + 1) l
  end.
Definition check_acl (a : Acl.ACLConfig) : list ValidationError :=
  check (negb (one_of (Acl.cfg_DefaultPolicy a) [""%string; Acl.ACLActionAllow; Acl.ACLActionDeny])) "acl" "default_policy"
    "must be 'allow' or 'deny', got %q" [AStr (Acl.cfg_DefaultPolicy a)] ++
  check_rules 0 (Acl.Rules a).

(** *** Port conflicts *)

(** [fmt.Sscanf(s, "%d", &n)]: white space (of ASCII), a sign, decimal
    digits; a number that is missing or does not fit leaves [n] at 0. *)
Definition is_space (b : byte) : bool := bool_decide (Z_of_byte b ∈ [9; 11; 12; 32]).
Fixpoint skip_space (l : list byte) : list byte :=
  match l with b :: l' => if is_space b then skip_space l' else l | [] => [] end.
Fixpoint scan_int (l : list byte) (acc : option Z) : option Z :=
  match l with
  | b :: l => if is_digit b then scan_int l (Some (default 0 acc * 10 + (Z_of_byte b - 48))) else acc
  | [] => acc
  end.
Definition in_int64 (z : Z) : Z := if (- 2 ^ 63 <=? z) && (z <? 2 ^ 63) then z else 0.
Definition Sscanf_d (s : string) : Z :=
  let l := skip_space (bytes_of_string s) in
  match l with
  | b :: l' =>
      if Z_of_byte b =? 45 then in_int64 (- default 0 (scan_int l' None))
      else if Z_of_byte b =? 43 then in_int64 (default 0 (scan_int l' None))
      else in_int64 (default 0 (scan_int l None))
  | [] => 0
  end.
Definition port_of (addr : string) : Z :=
  match SplitHostPort addr with Some (_, p) => Sscanf_d p | None => 0 end.

Record portEntry : Type := MkPortEntry { Port : Z; pe_Section : string; pe_Field : string }.
Definition entry (p : Z) (section field : string) : list portEntry :=
  if 0 <? p then [MkPortEntry p section field] else [].
Definition port_entries (c : Config) : list portEntry :=
  entry (m_Port (Mesh c)) "mesh" "port" ++
  (if DNSEnabled (Mesh c) then entry (DNSPort (Mesh c)) "mesh" "dns_port" else []) ++
  entry (mon_Port (Monitoring c)) "monitoring" "port" ++
  entry (ssh_Port (WebSSH c)) "webssh" "port" ++
  entry (if (ListenPort (Reality c) =? 0) && rs_Enabled (Reality c) then 443 else ListenPort (Reality c))
    "reality" "listen_port" ++
  entry (if j_Enabled (Join c) then
           z0 (if String.eqb (j_ListenAddr (Join c)) "" then 0 else port_of (j_ListenAddr (Join c))) 8443 else 0)
    "join" "listen_addr" ++
  (if String.eqb (WebAddr (Node c)) "" then [] else entry (port_of (WebAddr (Node c))) "node" "web").

Definition group (p : Z) (es : list portEntry) : list portEntry := filter (fun e => Port e = p) es.
Definition conflict_error (es : list portEntry) (p : Z) : ValidationError :=
  MkError "" "" ("port %d conflict: used by %s",
    [AInt p; AStr (String.concat ", " ((fun e => pe_Section e +:+ "." +:+ pe_Field e)%string <$> group p es))]).
(** The keys of the map of groups with more than one entry, sorted. *)
Definition conflictPorts (es : list portEntry) : list Z :=
  merge_sort Z.le (elements (filter (fun p => (1 < length (group p es))%nat) (list_to_set (C := gset Z) (Port <$> es)))).
Definition checkPortConflicts (c : Config) : list ValidationError :=
  let es := port_entries c in conflict_error es <$> conflictPorts es.

Definition Validate (c : Config) : list ValidationError :=
  check_mesh (Mesh c) ++ check_peers 0 ∅ (Peers c) ++ check_monitoring (Monitoring c) ++ check_webssh (WebSSH c) ++
  check_auth (Auth c) ++
  check (MaxFileSize (Transfer c) <? 0) "transfer" "max_file_size" "max_file_size must be >= 0, got %d"
    [AInt (MaxFileSize (Transfer c))] ++
  check_reality (Reality c) ++ check_join (Join c) ++ check_proxy (Proxy c) ++ check_acl (ACL c) ++
  check (negb (one_of (RelayMode (P2P c)) [""; "auto"; "manual"; "disabled"]%string)) "p2p" "relay_mode"
    "must be 'auto', 'manual', or 'disabled', got %q" [AStr (RelayMode (P2P c))] ++
  checkPortConflicts c.

(** [ValidateFile]; the file is decoded into raw values first. *)
Definition ValidateFile (file : result string (list byte)) : list ValidationError :=
  match file with
  | Err _ => [MkError "" "" ("cannot read file: %v", [AErr])]
  | Ok data =>
      if negb (unmarshal_any data) then [MkError "" "" ("YAML syntax error: %v", [AErr])]
      else match Load file with
           | Err _ => [MkError "" "" ("config parse error: %v", [AErr])]
           | Ok c => Validate c
           end
  end.
End Files.

(** ** Loading *)

Lemma z0_idem x d : z0 (z0 x d) d = z0 x d.
Proof. unfold z0. destruct (x =? 0) eqn:E; [by destruct (d =? 0) | by rewrite E]. Qed.
Lemma s0_idem x d : s0 (s0 x d) d = s0 x d.
Proof. unfold s0. destruct (String.eqb x "") eqn:E; [by destruct (String.eqb d "") | by rewrite E]. Qed.
Lemma l0_idem {A} (x d : list A) : l0 (l0 x d) d = l0 x d.
Proof. by destruct x, d. Qed.
Lemma z0_ne x d : d <> 0 -> z0 x d <> 0.
Proof. unfold z0. by destruct (Z.eqb_spec x 0). Qed.
Lemma s0_ne x d : d <> ""%string -> s0 x d <> ""%string.
Proof. unfold s0. by destruct (String.eqb_spec x ""). Qed.
Lemma z0_id x d : x <> 0 -> z0 x d = x.
Proof. unfold z0. by intros ->%Z.eqb_neq. Qed.
Lemma s0_id x d : x <> ""%string -> s0 x d = x.
Proof. unfold s0. by intros ->%String.eqb_neq. Qed.

Lemma load_mesh_set t m :
  m_Port (load_mesh t m) <> 0 /\ TunMTU (load_mesh t m) <> 0 /\ TunName (load_mesh t m) <> ""%string /\
  MeshCIDR (load_mesh t m) <> ""%string /\ (DNSEnabled m = true -> DNSPort (load_mesh t m) <> 0).
Proof.
  unfold load_mesh. cbn [m_Port TunMTU TunName MeshCIDR DNSPort]. split_and!.
  - by apply z0_ne.
  - destruct (negb _) eqn:E; [|by apply z0_ne]. rewrite z0_id; by apply z0_ne.
  - by apply s0_ne.
  - by apply s0_ne.
  - intros ->. by apply z0_ne.
Qed.

(** Once complete, a mesh section is left alone. *)
Lemma load_mesh_complete t m :
  m_Port m <> 0 -> TunMTU m <> 0 -> TunName m <> ""%string -> MeshCIDR m <> ""%string ->
  (DNSEnabled m = true -> DNSPort m <> 0) -> (t_Enabled t = true -> TunEnabled m = true) ->
  (SubnetProxy m = [] -> SubnetProxies t = []) -> load_mesh t m = m.
Proof.
  intros H1 H2 H3 H4 H5 H6 H7. destruct m as [port zone en cidr sp name mtu vip dns dnsp ftp]. unfold load_mesh.
  cbn [m_Port TunMTU TunName MeshCIDR DNSPort DNSEnabled TunEnabled SubnetProxy m_Zone StaticVirtualIP m_FileTransferPaths] in *.
  rewrite (z0_id port), (z0_id mtu), (s0_id name "mesh0"), (s0_id cidr (Subnet t)) by done.
  assert ((if en then name else name) = name) as -> by (by destruct en).
  rewrite (s0_id name (t_Name t)), (z0_id mtu (MTU t)) by done.
  assert ((if negb (String.eqb (t_Name t) "") then name else name) = name) as -> by (by destruct (negb _)).
  assert ((if negb (String.eqb (Subnet t) "") then cidr else cidr) = cidr) as -> by (by destruct (negb _)).
  assert ((if negb (MTU t =? 0) then mtu else mtu) = mtu) as -> by (by destruct (negb _)).
  rewrite (s0_id cidr), (s0_id name) by done.
  assert ((if dns then z0 dnsp 5353 else dnsp) = dnsp) as -> by (destruct dns; [apply z0_id; auto | done]).
  f_equal; [destruct (t_Enabled t); [by rewrite H6 | done] | destruct sp; cbn; [by apply H7 | done]].
Qed.

Lemma load_mesh_idem t m : load_mesh (load_tun t) (load_mesh t m) = load_mesh t m.
Proof.
  destruct (load_mesh_set t m) as (H1 & H2 & H3 & H4 & H5). apply load_mesh_complete; try done.
  - unfold load_mesh, load_tun. cbn. by intros ->.
  - unfold load_mesh, load_tun. cbn. by destruct (SubnetProxy m), (SubnetProxies t).
Qed.
Lemma load_reality_idem m m' r : m_Port m' = m_Port m -> load_reality m' (load_reality m r) = load_reality m r.
Proof.
  intros E. unfold load_reality. destruct (rs_Enabled r) eqn:Er; [|by rewrite Er].
  cbn. by rewrite E, z0_idem, s0_idem, !l0_idem.
Qed.
Lemma load_peer_idem p : load_peer (load_peer p) = load_peer p.
Proof. unfold load_peer. cbn. by rewrite !s0_idem. Qed.
Lemma load_p2p_idem p : load_p2p (load_p2p p) = load_p2p p.
Proof.
  unfold load_p2p. cbn. destruct (p2p_Enabled p); rewrite ?s0_idem, ?z0_idem; f_equal; destruct (negb _) eqn:E; rewrite ?l0_idem; done.
Qed.
Lemma load_proxy_idem p : load_proxy (load_proxy p) = load_proxy p.
Proof.
  unfold load_proxy. cbn. rewrite s0_idem. f_equal.
  - unfold load_circuit. cbn. by rewrite !z0_idem.
  - unfold load_paths. cbn. by rewrite !s0_idem, !z0_idem.
  - unfold load_relay. cbn. by rewrite !z0_idem.
  - unfold load_exit. cbn. rewrite z0_idem. f_equal. destruct (e_AllowAllPorts _); [done | apply l0_idem].
  - unfold load_socks. destruct (s_Enabled (SOCKS5 p)) eqn:E; [|by rewrite E]. cbn. rewrite !z0_idem. f_equal.
    destruct (s_AllowAllPorts _); [done | apply l0_idem].
Qed.

(** Loading what was loaded changes nothing: the defaults are filled in
    once and for all, whatever the file says, so that a configuration that is
    saved and loaded again is the same. *)
Theorem finish_idempotent c : finish (finish c) = finish c.
Proof.
  unfold finish. cbn [Node Mesh Peers P2P Monitoring WebSSH Auth Transfer Proxy Reality Join Tun ACL Logging].
  rewrite load_mesh_idem, load_reality_idem, load_p2p_idem, load_proxy_idem by done. f_equal.
  - rewrite <-list_fmap_compose. apply list_fmap_ext. intros i p _. apply load_peer_idem.
  - unfold load_monitoring. cbn. by rewrite !z0_idem.
  - unfold load_webssh. cbn. by rewrite !z0_idem.
  - unfold load_auth. cbn. by rewrite !z0_idem, !s0_idem.
  - unfold load_transfer. cbn. by rewrite z0_idem, s0_idem.
  - unfold load_join. destruct (j_Enabled (Join c)) eqn:E; [cbn; by rewrite s0_idem, z0_idem | by rewrite E].
  - unfold load_tun. cbn. f_equal. destruct (t_Enabled (Tun c)); [apply z0_idem | done].
  - unfold load_acl. cbn. by rewrite s0_idem.
  - unfold load_logging. destruct (String.eqb (LogFile (Logging c)) "") eqn:E; [by rewrite E | cbn; by rewrite E, !z0_idem].
Qed.

(** The old [tun] section: its MTU is never used, and its subnet and name
    only when the mesh section sets them to nothing. *)
Lemma tun_mtu_ignored t t' m : t_Enabled t = t_Enabled t' -> Subnet t = Subnet t' -> t_Name t = t_Name t' ->
  SubnetProxies t = SubnetProxies t' -> load_mesh t m = load_mesh t' m.
Proof.
  intros E1 E2 E3 E4. unfold load_mesh. rewrite E1, E2, E3, E4. f_equal. rewrite (z0_id _ (MTU t)), (z0_id _ (MTU t')) by (by apply z0_ne).
  by destruct (negb (MTU t =? 0)), (negb (MTU t' =? 0)).
Qed.

(** ** Validation *)

Lemma check_nil b s f m a : check b s f m a = [] <-> b = false.
Proof. unfold check. by destruct b. Qed.
Lemma required_nil x s f m : required x s f m = [] <-> x <> ""%string.
Proof. unfold required. rewrite check_nil. apply String.eqb_neq. Qed.
Lemma port_ok lo p : port_bad lo p = false <-> lo <= p <= 65535.
Proof. unfold port_bad. rewrite orb_false_iff, !Z.ltb_ge. lia. Qed.
Lemma one_of_ok s l : negb (one_of s l) = false <-> s ∈ l.
Proof. unfold one_of. rewrite negb_false_iff. apply bool_decide_eq_true. Qed.

(** *** Port conflicts *)

Lemma group_duplicates (es : list portEntry) p :
  (1 < length (group p es))%nat <-> exists i j e f, i <> j /\ es !! i = Some e /\ es !! j = Some f /\ Port e = p /\ Port f = p.
Proof.
  unfold group. induction es as [|x es IH].
  - split; [cbn; lia|]. by intros (i & j & e & f & _ & H & _).
  - rewrite filter_cons. destruct (decide (Port x = p)) as [E|E].
    + cbn [length]. split.
      * intros H. destruct (filter (fun e => Port e = p) es) as [|y l] eqn:Ef; [cbn in H; lia|].
        assert (y ∈ filter (fun e => Port e = p) es) as Hy by (rewrite Ef; left).
        apply list_elem_of_filter in Hy as [Hp [j Hj]%list_elem_of_lookup]. by exists 0%nat, (S j), x, y.
      * intros (i & j & e & f & Hij & Hi & Hj & He & Hf).
        assert (exists k y, es !! k = Some y /\ Port y = p) as (k & y & Hk & Hy).
        { destruct i as [|i]; [destruct j as [|j]; [done|] |]; cbn in *; eauto. }
        assert (y ∈ filter (fun e => Port e = p) es) as Hin
          by (apply list_elem_of_filter; split; [done | by eapply list_elem_of_lookup_2]).
        destruct (filter _ es); [by apply elem_of_nil in Hin | cbn; lia].
    + rewrite IH. split.
      * intros (i & j & e & f & Hij & Hi & Hj & He & Hf). exists (S i), (S j), e, f. split_and!; auto.
      * intros (i & j & e & f & Hij & Hi & Hj & He & Hf). destruct i as [|i]; [cbn in Hi; congruence|].
        destruct j as [|j]; [cbn in Hj; congruence|]. exists i, j, e, f. cbn in *. split_and!; auto.
Qed.

Lemma conflictPorts_elem es p : p ∈ conflictPorts es <-> (1 < length (group p es))%nat.
Proof.
  unfold conflictPorts. rewrite merge_sort_Permutation, elem_of_elements, elem_of_filter, elem_of_list_to_set, list_elem_of_fmap.
  split; [by intros [? _]|]. intros H. split; [done|]. unfold group in H.
  destruct (filter (fun e => Port e = p) es) as [|e l] eqn:E; [cbn in H; lia|]. exists e.
  assert (e ∈ filter (fun e => Port e = p) es) as He by (rewrite E; left). by apply list_elem_of_filter in He as [<- ?].
Qed.

Lemma conflictPorts_iff es p : p ∈ conflictPorts es <->
  exists i j e f, i <> j /\ es !! i = Some e /\ es !! j = Some f /\ Port e = p /\ Port f = p.
Proof. rewrite conflictPorts_elem. apply group_duplicates. Qed.

Lemma conflictPorts_sorted es : StronglySorted Z.lt (conflictPorts es).
Proof.
  assert (StronglySorted Z.le (conflictPorts es)) as Hs by (apply StronglySorted_merge_sort; apply _).
  assert (NoDup (conflictPorts es)) as Hnd by (unfold conflictPorts; rewrite merge_sort_Permutation; apply NoDup_elements).
  induction Hs as [|x l Hl IH Hx]; [constructor|]. apply NoDup_cons in Hnd as [Hn Hnd]. constructor; [by apply IH|].
  rewrite Forall_forall in *. intros y Hy. specialize (Hx y Hy). assert (x <> y) by (by intros ->). lia.
Qed.

Lemma no_conflicts_iff c : checkPortConflicts c = [] <-> NoDup (Port <$> port_entries c).
Proof.
  unfold checkPortConflicts. set (es := port_entries c). clearbody es.
  assert (conflict_error es <$> conflictPorts es = [] <-> conflictPorts es = []) as -> by (by destruct (conflictPorts es)).
  split.
  - intros E. apply NoDup_alt. intros i j p Hi Hj. destruct (decide (i = j)) as [|Hij]; [done|exfalso].
    rewrite list_lookup_fmap, fmap_Some in Hi. rewrite list_lookup_fmap, fmap_Some in Hj.
    destruct Hi as (e & Hi & ->), Hj as (f & Hj & Hf).
    assert (Port e ∈ conflictPorts es) as Hp by (apply conflictPorts_iff; by exists i, j, e, f).
    rewrite E in Hp. by apply elem_of_nil in Hp.
  - intros Hnd. destruct (conflictPorts es) as [|p l] eqn:E; [done|exfalso].
    destruct (proj1 (conflictPorts_iff es p)) as (i & j & e & f & Hij & Hi & Hj & He & Hf); [rewrite E; left|]. apply Hij.
    eapply (NoDup_lookup _ _ _ p Hnd); rewrite list_lookup_fmap, fmap_Some; eauto.
Qed.

(** A port conflict is reported for exactly the ports that two of the
    listeners share, each once and in increasing order, and none is reported
    when all are distinct. *)
Theorem port_conflicts_exact c :
  (forall p, conflict_error (port_entries c) p ∈ checkPortConflicts c <->
     exists i j e f, i <> j /\ port_entries c !! i = Some e /\ port_entries c !! j = Some f /\ Port e = p /\ Port f = p) /\
  (exists ps, checkPortConflicts c = conflict_error (port_entries c) <$> ps /\ StronglySorted Z.lt ps) /\
  (checkPortConflicts c = [] <-> NoDup (Port <$> port_entries c)).
Proof.
  split_and!; [|exists (conflictPorts (port_entries c)); split; [done | apply conflictPorts_sorted] | apply no_conflicts_iff].
  intros p. rewrite <-conflictPorts_iff. unfold checkPortConflicts. rewrite list_elem_of_fmap.
  split; [|by exists p]. by intros (q & [= -> _] & Hq).
Qed.

(** *** What is valid *)

Definition port_in (lo p : Z) : Prop := lo <= p <= 65535.
Definition cidr_ok (s : string) : Prop := s = ""%string \/ s = "*"%string \/ is_Some (ParseCIDR s).
Definition mesh_ok (m : MeshConfig) : Prop :=
  port_in 1 (m_Port m) /\
  (TunEnabled m = true -> is_Some (ParseCIDR (MeshCIDR m)) /\ Forall (fun s => is_Some (ParseCIDR s)) (SubnetProxy m)) /\
  0 <= TunMTU m <= 9000 /\ (StaticVirtualIP m = ""%string \/ is_Some (ParseIP (StaticVirtualIP m))) /\
  (DNSEnabled m = true -> port_in 0 (DNSPort m)).
Definition peer_ok (p : PeerConfig) : Prop :=
  PublicKey p <> ""%string /\ (Endpoint p = ""%string \/ is_Some (SplitHostPort (Endpoint p))) /\
  match p_Reality p with Some r => rp_PublicKey r <> ""%string | None => True end.
Definition rule_ok (r : Acl.ACLRule) : Prop :=
  Acl.r_Action r ∈ [Acl.ACLActionAllow; Acl.ACLActionDeny] /\ cidr_ok (Acl.SourceCIDR r) /\ cidr_ok (Acl.DestCIDR r) /\
  Acl.Protocol r ∈ [""; "*"; "tcp"; "udp"; "icmp"]%string /\ port_in 0 (Acl.r_SrcPort r) /\ port_in 0 (Acl.r_DstPort r).

(** A configuration without faults. *)
Record valid (c : Config) : Prop := {
  v_mesh : mesh_ok (Mesh c);
  v_peers : Forall peer_ok (Peers c) /\ NoDup (PublicKey <$> Peers c);
  v_monitoring : 0 <= mon_Interval (Monitoring c) /\ port_in 0 (mon_Port (Monitoring c));
  v_webssh : port_in 0 (ssh_Port (WebSSH c)) /\ 0 <= DialTimeout (WebSSH c) /\ 0 <= MaxSessions (WebSSH c);
  v_users : Forall (fun u => Username u <> ""%string /\ PasswordHash u <> ""%string) (WebUsers (Auth c));
  v_window : 0 <= TOTPWindow (Auth c);
  v_transfer : 0 <= MaxFileSize (Transfer c);
  v_reality : rs_Enabled (Reality c) = true -> Dest (Reality c) <> ""%string /\ PrivateKey (Reality c) <> ""%string /\
    ServerNames (Reality c) <> [] /\ port_in 0 (ListenPort (Reality c));
  v_join : (j_Enabled (Join c) = true -> Secret (Join c) <> ""%string /\ 0 <= TokenLifetime (Join c)) /\
    (Token (Join c) <> ""%string -> ServerURL (Join c) <> ""%string);
  v_proxy : ChunkerStrategy (Proxy c) ∈ [""; "fixed-16k"; "bounded-4k-64k"]%string /\
    ps_Mode (PathSelection (Proxy c)) ∈ [""; "manual"; "auto"]%string /\
    Strategy (PathSelection (Proxy c)) ∈ [""; "latency"; "random"; "round-robin"]%string /\
    (0 < JitterMaxMs (Relay (Proxy c)) -> JitterMinMs (Relay (Proxy c)) <= JitterMaxMs (Relay (Proxy c)));
  v_acl : Acl.cfg_DefaultPolicy (ACL c) ∈ [""%string; Acl.ACLActionAllow; Acl.ACLActionDeny] /\
    Forall rule_ok (Acl.Rules (ACL c));
  v_p2p : RelayMode (P2P c) ∈ [""; "auto"; "manual"; "disabled"]%string;
  v_ports : NoDup (Port <$> port_entries c)
}.

Lemma parse_ok s : parseCIDR s = true <-> is_Some (ParseCIDR s).
Proof. apply bool_decide_eq_true. Qed.
Lemma cidr_bad_ok s : cidr_bad s = false <-> cidr_ok s.
Proof.
  unfold cidr_bad, cidr_ok. rewrite !andb_false_iff, !negb_false_iff, !String.eqb_eq, parse_ok. tauto.
Qed.
Lemma not_None {A} (o : option A) : o <> None <-> is_Some o.
Proof. apply not_eq_None_Some. Qed.

Lemma bind_nil {A B} (f : A -> list B) (l : list A) : l ≫= f = [] <-> Forall (fun x => f x = []) l.
Proof.
  induction l as [|x l IH]; [by split|]. change ((x :: l) ≫= f) with (f x ++ (l ≫= f)). by rewrite app_nil, Forall_cons, IH.
Qed.

Lemma check_mesh_nil m : check_mesh m = [] <-> mesh_ok m.
Proof.
  unfold check_mesh, mesh_ok, port_in. rewrite !app_nil, !check_nil, !port_ok.
  rewrite orb_false_iff, !Z.ltb_ge, !andb_false_iff, port_ok, negb_false_iff, String.eqb_eq, bool_decide_eq_false, not_None.
  assert (((if TunEnabled m then check (negb (parseCIDR (MeshCIDR m))) "mesh" "mesh_cidr" "invalid CIDR %q: %v" [AStr (MeshCIDR m); AErr] ++
     (sp ← SubnetProxy m; check (negb (parseCIDR sp)) "mesh" "subnet_proxy" "invalid CIDR %q: %v" [AStr sp; AErr])
   else []) = []) <-> (TunEnabled m = true -> is_Some (ParseCIDR (MeshCIDR m)) /\ Forall (fun s => is_Some (ParseCIDR s)) (SubnetProxy m))) as ->.
  { destruct (TunEnabled m); [|by split]. rewrite app_nil, check_nil, negb_false_iff, parse_ok, bind_nil.
    assert (forall s, check (negb (parseCIDR s)) "mesh" "subnet_proxy" "invalid CIDR %q: %v" [AStr s; AErr] = [] <-> is_Some (ParseCIDR s)) as Hs
      by (intros s; by rewrite check_nil, negb_false_iff, parse_ok).
    rewrite (Forall_iff _ _ _ Hs). tauto. }
  destruct (DNSEnabled m); naive_solver lia.
Qed.

Lemma check_peers_nil i seen l : check_peers i seen l = [] <->
  Forall peer_ok l /\ NoDup (PublicKey <$> l) /\ forall p, p ∈ l -> PublicKey p ∉ seen.
Proof.
  revert i seen. induction l as [|p l IH]; intros i seen; cbn [check_peers fmap list_fmap].
  - split; [|done]. intros _. split_and!; [done | constructor | by intros ? ?%elem_of_nil].
  - rewrite !app_nil, required_nil, !check_nil, IH, !andb_false_iff, !negb_false_iff, !String.eqb_eq, !bool_decide_eq_false, not_None.
    assert (match p_Reality p with
            | Some r => required (rp_PublicKey r) (("peers[" +:+ itoa i +:+ "]") +:+ ".reality") "public_key"
                          "public_key is required when reality is configured"
            | None => [] end = [] <-> match p_Reality p with Some r => rp_PublicKey r <> ""%string | None => True end) as ->
      by (destruct (p_Reality p); [apply required_nil | by split]).
    rewrite Forall_cons, NoDup_cons. unfold peer_ok at 2.
    destruct (String.eqb_spec (PublicKey p) "") as [E|E]; [naive_solver|].
    assert ((forall q, q ∈ l -> PublicKey q ∉ {[PublicKey p]} ∪ seen) <-> (PublicKey p ∉ PublicKey <$> l) /\ forall q, q ∈ l -> PublicKey q ∉ seen) as ->.
    { split.
      - intros H. split; [|set_solver]. intros (q & Hq & Hin)%list_elem_of_fmap. specialize (H q Hin). set_solver.
      - intros [H1 H2] q Hq. specialize (H2 q Hq). assert (PublicKey q <> PublicKey p); [|set_solver].
        intros Eq. apply H1. rewrite <-Eq. by apply list_elem_of_fmap_2. }
    assert ((forall q, q ∈ p :: l -> PublicKey q ∉ seen) <-> (PublicKey p ∉ seen) /\ forall q, q ∈ l -> PublicKey q ∉ seen) as -> by set_solver.
    tauto.
Qed.

Lemma check_users_nil i l : check_users i l = [] <-> Forall (fun u => Username u <> ""%string /\ PasswordHash u <> ""%string) l.
Proof.
  revert i. induction l as [|u l IH]; intros i; cbn [check_users]; [by split|].
  rewrite !app_nil, !required_nil, IH, Forall_cons. tauto.
Qed.
Lemma check_rules_nil i l : check_rules i l = [] <-> Forall rule_ok l.
Proof.
  revert i. induction l as [|r l IH]; intros i; cbn [check_rules]; [by split|].
  rewrite !app_nil, !check_nil, !one_of_ok, !cidr_bad_ok, !port_ok, IH, Forall_cons. unfold rule_ok, port_in. tauto.
Qed.

(** C24. [Validate] finds nothing exactly when the configuration has no fault:
    every port in its range, every key, secret and name that is needed
    present, peers distinct, subnets and addresses readable, every mode and
    strategy a known one, and no port used twice. *)
Theorem Validate_iff c : Validate c = [] <-> valid c.
Proof.
  unfold Validate. rewrite !app_nil, check_mesh_nil, check_peers_nil, !check_nil, one_of_ok, Z.ltb_ge.
  assert (check_monitoring (Monitoring c) = [] <-> 0 <= mon_Interval (Monitoring c) /\ port_in 0 (mon_Port (Monitoring c))) as ->
    by (unfold check_monitoring; by rewrite app_nil, !check_nil, port_ok, Z.ltb_ge).
  assert (check_webssh (WebSSH c) = [] <-> port_in 0 (ssh_Port (WebSSH c)) /\ 0 <= DialTimeout (WebSSH c) /\ 0 <= MaxSessions (WebSSH c)) as ->
    by (unfold check_webssh; by rewrite !app_nil, !check_nil, port_ok, !Z.ltb_ge).
  assert (check_auth (Auth c) = [] <-> Forall (fun u => Username u <> ""%string /\ PasswordHash u <> ""%string) (WebUsers (Auth c)) /\ 0 <= TOTPWindow (Auth c)) as ->
    by (unfold check_auth; by rewrite app_nil, check_users_nil, check_nil, Z.ltb_ge).
  assert (check_reality (Reality c) = [] <-> (rs_Enabled (Reality c) = true -> Dest (Reality c) <> ""%string /\ PrivateKey (Reality c) <> ""%string /\
    ServerNames (Reality c) <> [] /\ port_in 0 (ListenPort (Reality c)))) as ->
    by (unfold check_reality; destruct (rs_Enabled (Reality c)); [rewrite !app_nil, !required_nil, !check_nil, bool_decide_eq_false, port_ok; unfold port_in; tauto | by split]).
  assert (check_join (Join c) = [] <-> (j_Enabled (Join c) = true -> Secret (Join c) <> ""%string /\ 0 <= TokenLifetime (Join c)) /\
    (Token (Join c) <> ""%string -> ServerURL (Join c) <> ""%string)) as ->.
  { unfold check_join. rewrite app_nil, check_nil, andb_false_iff, negb_false_iff, String.eqb_eq, String.eqb_neq.
    assert (Token (Join c) = ""%string \/ ServerURL (Join c) <> ""%string <->
      (Token (Join c) <> ""%string -> ServerURL (Join c) <> ""%string)) as ->
      by (destruct (decide (Token (Join c) = ""%string)); tauto).
    destruct (j_Enabled (Join c)); [rewrite app_nil, required_nil, check_nil, Z.ltb_ge|];
      (split; intros [H1 H2]; (split; [|exact H2])); [by intros _ | by apply H1 | done | done]. }
  assert (check_proxy (Proxy c) = [] <-> ChunkerStrategy (Proxy c) ∈ [""; "fixed-16k"; "bounded-4k-64k"]%string /\
    ps_Mode (PathSelection (Proxy c)) ∈ [""; "manual"; "auto"]%string /\
    Strategy (PathSelection (Proxy c)) ∈ [""; "latency"; "random"; "round-robin"]%string /\
    (0 < JitterMaxMs (Relay (Proxy c)) -> JitterMinMs (Relay (Proxy c)) <= JitterMaxMs (Relay (Proxy c)))) as ->.
  { unfold check_proxy. rewrite !app_nil, !check_nil, !one_of_ok, andb_false_iff, !Z.ltb_ge.
    assert (JitterMinMs (Relay (Proxy c)) <= JitterMaxMs (Relay (Proxy c)) \/ JitterMaxMs (Relay (Proxy c)) <= 0 <->
      (0 < JitterMaxMs (Relay (Proxy c)) -> JitterMinMs (Relay (Proxy c)) <= JitterMaxMs (Relay (Proxy c)))) as -> by lia. done. }
  assert (check_acl (ACL c) = [] <-> Acl.cfg_DefaultPolicy (ACL c) ∈ [""%string; Acl.ACLActionAllow; Acl.ACLActionDeny] /\
    Forall rule_ok (Acl.Rules (ACL c))) as -> by (unfold check_acl; by rewrite app_nil, check_nil, one_of_ok, check_rules_nil).
  rewrite no_conflicts_iff.
  split; [|intros []; split_and!; try tauto; set_solver].
  intros (? & (? & ? & _) & ? & ? & [? ?] & ? & ? & ? & ? & ? & ? & ?). by split.
Qed.

(** *** What loading makes of usual files *)

Lemma Validate_parts c : Validate c = [] -> check_mesh (Mesh c) = [] /\ check_peers 0 ∅ (Peers c) = [] /\ checkPortConflicts c = [].
Proof. unfold Validate. rewrite !app_nil. tauto. Qed.

Lemma reality_without_port_rejected c :
  rs_Enabled (Reality c) = true -> ListenPort (Reality c) = 0 -> Validate (finish c) <> [].
Proof.
  intros He Hl (Hmesh & _ & Hports)%Validate_parts. apply check_mesh_nil in Hmesh as (Hport & _).
  apply no_conflicts_iff in Hports. unfold port_entries in Hports.
  assert (ListenPort (Reality (finish c)) = m_Port (Mesh (finish c)) /\ rs_Enabled (Reality (finish c)) = true) as [E1 E2].
  { unfold finish. cbn [Reality Mesh]. unfold load_reality. rewrite He. cbn. by rewrite Hl. }
  unfold port_in in Hport. rewrite E1, E2, (proj2 (Z.eqb_neq _ 0)) in Hports by lia. cbn [andb] in Hports.
  rewrite !fmap_app in Hports. unfold entry at 1 in Hports. rewrite (proj2 (Z.ltb_lt _ _)) in Hports by lia.
  cbn [fmap list_fmap app Port] in Hports. apply NoDup_cons in Hports as [Hn _]. apply Hn.
  rewrite !elem_of_app. do 3 right. left. unfold entry. rewrite (proj2 (Z.ltb_lt _ _)) by lia. left.
Qed.

(** A configuration with other peers, and one with another Reality port. *)
Definition with_peers (ps : list PeerConfig) (c : Config) : Config :=
  MkConfig (Node c) (Mesh c) ps (P2P c) (Monitoring c) (WebSSH c) (Auth c) (Transfer c) (Proxy c) (Reality c)
    (Join c) (Tun c) (ACL c) (Logging c).
Definition with_listen_port (q : Z) (c : Config) : Config :=
  let r := Reality c in
  MkConfig (Node c) (Mesh c) (Peers c) (P2P c) (Monitoring c) (WebSSH c) (Auth c) (Transfer c) (Proxy c)
    (MkReality (rs_Enabled r) (rs_ListenAddr r) q (Dest r) (ServerNames r) (PrivateKey r) (ShortIDs r))
    (Join c) (Tun c) (ACL c) (Logging c).

(** What is asked for at a peer, and at every peer without a Reality section. *)
Definition key_error (i : Z) : ValidationError :=
  MkError ("peers[" +:+ itoa i +:+ "].reality") "public_key" ("public_key is required when reality is configured"%string, []).
Fixpoint key_errors (i : Z) (l : list PeerConfig) : list ValidationError :=
  match l with
  | [] => []
  | p :: l => match p_Reality p with None => [key_error i] | Some _ => [] end ++ key_errors (i + 1) l
  end.

Lemma string_app_assoc a b c : ((a +:+ b) +:+ c = a +:+ b +:+ c)%string.
Proof. induction a as [|x a IH]; [done|]. change (String x ((a +:+ b) +:+ c) = String x (a +:+ b +:+ c)). by rewrite IH. Qed.
Lemma key_prefix i : ((("peers[" +:+ itoa i +:+ "]") +:+ ".reality") = "peers[" +:+ itoa i +:+ "].reality")%string.
Proof. by rewrite !string_app_assoc. Qed.

Lemma plain_peer_asked i k p seen l : l !! k = Some p -> p_Reality p = None ->
  key_error (i + Z.of_nat k) ∈ check_peers i seen (load_peer <$> l).
Proof.
  revert i k seen. induction l as [|q l IH]; intros i k seen; [done|]. cbn [fmap list_fmap check_peers].
  destruct k as [|k]; intros Hk Hp; cbn in Hk.
  - injection Hk as ->. rewrite !elem_of_app. right. right. right. left. unfold load_peer. rewrite Hp. cbn [p_Reality rp_PublicKey from_option].
    rewrite key_prefix. apply list_elem_of_singleton. by rewrite Z.add_0_r.
  - rewrite !elem_of_app. do 4 right. replace (i + Z.of_nat (S k)) with (i + 1 + Z.of_nat k) by lia. by apply (IH (i + 1)).
Qed.

Lemma loaded_peers_errors i seen l : check_peers i seen l = [] -> check_peers i seen (load_peer <$> l) = key_errors i l.
Proof.
  revert i seen. induction l as [|p l IH]; intros i seen; [done|]. cbn [fmap list_fmap check_peers key_errors].
  rewrite !app_nil. intros (H1 & H2 & H3 & H4 & H5).
  change (PublicKey (load_peer p)) with (PublicKey p). change (Endpoint (load_peer p)) with (Endpoint p).
  rewrite H1, H2, H3, (IH _ _ H5). cbn [app]. f_equal. unfold load_peer. cbn [p_Reality rp_PublicKey].
  destruct (p_Reality p) as [r|]; [exact H4|]. by rewrite key_prefix.
Qed.

Lemma loaded_peers_Validate c ps : Validate (with_peers ps c) = [] -> Peers c = load_peer <$> ps -> Validate c = key_errors 0 ps.
Proof.
  unfold Validate. cbn. rewrite !app_nil. intros (H1 & H2 & H3 & H4 & H5 & H6 & H7 & H8 & H9 & H10 & H11 & H12) Hp.
  change (checkPortConflicts (with_peers ps c)) with (checkPortConflicts c) in H12.
  rewrite H1, H3, H4, H5, H6, H7, H8, H9, H10, H11, H12, Hp, (loaded_peers_errors _ _ _ H2). cbn. by rewrite app_nil_r.
Qed.

(** Two entries with one port, and no other port twice. *)
Lemma group_none q (es : list portEntry) : q ∉ Port <$> es -> group q es = [].
Proof.
  intros Hq. unfold group. induction es as [|e es IH]; [done|]. cbn [fmap list_fmap] in Hq.
  apply not_elem_of_cons in Hq as [Hne Hq]. rewrite filter_cons, decide_False by congruence. by apply IH.
Qed.
Lemma group_le_1 q (es : list portEntry) : NoDup (Port <$> es) -> (length (group q es) <= 1)%nat.
Proof.
  induction es as [|e es IH]; intros Hnd; [cbn; lia|]. cbn [fmap list_fmap] in Hnd. apply NoDup_cons in Hnd as [Hn Hnd].
  unfold group. rewrite filter_cons. destruct (decide (Port e = q)) as [<-|]; [|by apply IH].
  cbn [length]. fold (group (Port e) es). rewrite (group_none _ _ Hn). done.
Qed.
Lemma one_conflict a b es1 es2 : Port a = Port b -> NoDup (Port <$> a :: es1 ++ es2) ->
  conflictPorts (a :: es1 ++ b :: es2) = [Port a] /\ group (Port a) (a :: es1 ++ b :: es2) = [a; b].
Proof.
  intros Hab. cbn [fmap list_fmap]. rewrite fmap_app. intros [Hn Hnd]%NoDup_cons.
  apply not_elem_of_app in Hn as [Hn1 Hn2].
  assert (group (Port a) (a :: es1 ++ b :: es2) = [a; b]) as Hg.
  { pose proof (group_none _ _ Hn1) as G1. pose proof (group_none _ _ Hn2) as G2. unfold group in *.
    rewrite filter_cons, decide_True, filter_app, filter_cons, decide_True, G1, G2 by done. done. }
  split; [|done].
  assert (forall q, q ∈ conflictPorts (a :: es1 ++ b :: es2) <-> q = Port a) as Hq.
  { intros q. rewrite conflictPorts_elem. split; [|intros ->; rewrite Hg; cbn; lia].
    intros Hl. destruct (decide (q = Port a)) as [|Hne]; [done|exfalso]. unfold group in Hl.
    rewrite filter_cons, decide_False, filter_app, filter_cons, decide_False, <-filter_app in Hl by congruence.
    rewrite <-fmap_app in Hnd. pose proof (group_le_1 q _ Hnd). unfold group in *. lia. }
  pose proof (conflictPorts_sorted (a :: es1 ++ b :: es2)) as Hs.
  destruct (conflictPorts _) as [|x [|y l]].
  - exfalso. by apply (not_elem_of_nil (Port a)), Hq.
  - f_equal. apply Hq. left.
  - exfalso. assert (x = y) as -> by (transitivity (Port a); [|symmetry]; apply Hq; set_solver).
    apply StronglySorted_inv in Hs as [_ Hs]. apply Forall_cons in Hs as [? _]. lia.
Qed.

Definition entries_between (c : Config) : list portEntry :=
  (if DNSEnabled (Mesh c) then entry (DNSPort (Mesh c)) "mesh" "dns_port" else []) ++
  entry (mon_Port (Monitoring c)) "monitoring" "port" ++ entry (ssh_Port (WebSSH c)) "webssh" "port".
Definition entries_after (c : Config) : list portEntry :=
  entry (if j_Enabled (Join c) then
           z0 (if String.eqb (j_ListenAddr (Join c)) "" then 0 else port_of (j_ListenAddr (Join c))) 8443 else 0)
    "join" "listen_addr" ++
  (if String.eqb (WebAddr (Node c)) "" then [] else entry (port_of (WebAddr (Node c))) "node" "web").
Lemma port_entries_split c : port_entries c =
  entry (m_Port (Mesh c)) "mesh" "port" ++ entries_between c ++
  entry (if (ListenPort (Reality c) =? 0) && rs_Enabled (Reality c) then 443 else ListenPort (Reality c)) "reality" "listen_port" ++
  entries_after c.
Proof. unfold port_entries, entries_between, entries_after. by rewrite <-!app_assoc. Qed.
Lemma entry_pos p section field : 0 < p -> entry p section field = [MkPortEntry p section field].
Proof. unfold entry. by intros ->%Z.ltb_lt. Qed.

Lemma mesh_port_conflict c q :
  Validate (with_listen_port q c) = [] -> rs_Enabled (Reality c) = true -> ListenPort (Reality c) = m_Port (Mesh c) ->
  Validate c = [MkError "" "" ("port %d conflict: used by %s"%string, [AInt (m_Port (Mesh c)); AStr "mesh.port, reality.listen_port"])].
Proof.
  intros Hv He Hl. unfold Validate in *. cbn in Hv. rewrite !app_nil in Hv.
  destruct Hv as (H1 & H2 & H3 & H4 & H5 & H6 & H7 & H8 & H9 & H10 & H11 & H12).
  pose proof H1 as ((Hlo & Hhi) & _)%check_mesh_nil.
  assert (check_reality (Reality c) = []) as ->.
  { unfold check_reality in *. cbn in H7. rewrite He in *. rewrite !app_nil in *. destruct H7 as (-> & -> & -> & _).
    split_and!; try done. rewrite check_nil, port_ok, Hl. lia. }
  rewrite H1, H2, H3, H4, H5, H6, H8, H9, H10, H11. cbn [app].
  apply no_conflicts_iff in H12. rewrite port_entries_split in H12. unfold checkPortConflicts. rewrite port_entries_split, He, Hl.
  rewrite (proj2 (Z.eqb_neq (m_Port (Mesh c)) 0)) by lia. cbn [andb]. rewrite !entry_pos by lia.
  change (Mesh (with_listen_port q c)) with (Mesh c) in H12. rewrite entry_pos in H12 by lia.
  change (entries_between (with_listen_port q c)) with (entries_between c) in H12.
  change (entries_after (with_listen_port q c)) with (entries_after c) in H12.
  set (a := MkPortEntry _ "mesh" "port") in *. set (b := MkPortEntry _ "reality" "listen_port"). cbn [app] in *.
  destruct (one_conflict a b (entries_between c) (entries_after c)) as [Hc Hg]; [done | |].
  { eapply sublist_NoDup; [exact H12|]. apply fmap_sublist, sublist_skip, sublist_app; [done|]. by apply sublist_inserts_l. }
  rewrite Hc. cbn [fmap list_fmap]. unfold conflict_error. rewrite Hg. done.
Qed.

(** C40. Loading adds faults to files that have none. Every peer gets a
    Reality section without a key, and the validation asks for the key of
    each plain peer; if nothing else is wrong, those are all its errors. An enabled
    Reality server without a port gets the port of the mesh; if with some other
    port nothing is wrong, the only error is that this port is used by both.
    So neither kind of file is ever accepted. *)
Theorem usual_files_rejected unmarshal unmarshal_sections unmarshal_any data c :
  unmarshal_any data = true -> unmarshal data Default = Ok c ->
  let errors := ValidateFile unmarshal unmarshal_sections unmarshal_any (Ok data) in
  exists loaded, Load unmarshal unmarshal_sections (Ok data) = Ok loaded /\
  (forall i p, Peers c !! i = Some p -> p_Reality p = None -> key_error (Z.of_nat i) ∈ errors) /\
  (Validate (with_peers (Peers c) loaded) = [] -> errors = key_errors 0 (Peers c)) /\
  (rs_Enabled (Reality c) = true -> ListenPort (Reality c) = 0 -> errors <> [] /\
     forall q, Validate (with_listen_port q loaded) = [] ->
       errors = [MkError "" "" ("port %d conflict: used by %s"%string,
                   [AInt (m_Port (Mesh loaded)); AStr "mesh.port, reality.listen_port"])]).
Proof.
  intros Ha Hu. unfold ValidateFile, Load. rewrite Ha, Hu. cbn [negb]. cbv zeta.
  set (c' := if String.eqb _ "" then c else _). exists (finish c'). split; [done|].
  assert (Peers c' = Peers c /\ Reality c' = Reality c) as [<- <-] by (subst c'; by destruct (String.eqb _ "")).
  split_and!.
  - intros i p Hi Hp. unfold Validate. rewrite !elem_of_app. right. left. by apply (plain_peer_asked 0 i p).
  - intros Hv. by apply loaded_peers_Validate.
  - intros He Hl. split; [by apply reality_without_port_rejected|]. intros q Hq. apply (mesh_port_conflict _ q Hq).
    + unfold finish, load_reality. cbn. by rewrite He.
    + unfold finish, load_reality. cbn. rewrite He. cbn. by rewrite Hl.
Qed.

(** The defaults with one plain peer, and a Reality server without a port. *)
Definition with_peer : Config := with_peers [MkPeer "key" "10.0.0.1:52888" [] [] "" None [] [] []] Default.
Definition with_reality : Config :=
  MkConfig (Node Default) (Mesh Default) [] (P2P Default) (Monitoring Default) (WebSSH Default) (Auth Default)
    (Transfer Default) (Proxy Default) (MkReality true "" 0 "" [] "secret" []) (Join Default) (Tun Default) (ACL Default)
    (Logging Default).
Definition file_errors (c : Config) : list ValidationError :=
  ValidateFile (fun _ _ => Ok c) (fun _ => None) (fun _ => true) (Ok []).

Lemma usual_files_rejected_witness :
  (Validate with_peer = [] /\ Validate (finish Default) = []) /\
  file_errors with_peer = [key_error 0] /\
  file_errors with_reality = [MkError "" "" ("port %d conflict: used by %s"%string,
    [AInt (m_Port (Mesh Default)); AStr "mesh.port, reality.listen_port"])].
Proof.
  split; [split; vm_compute; reflexivity|]. split.
  - destruct (usual_files_rejected (fun _ _ => Ok with_peer) (fun _ => None) (fun _ => true) [] with_peer eq_refl eq_refl)
      as (l & Hl & _ & H & _).
    injection Hl as <-. apply H. vm_compute. reflexivity.
  - destruct (usual_files_rejected (fun _ _ => Ok with_reality) (fun _ => None) (fun _ => true) [] with_reality eq_refl eq_refl)
      as (l & Hl & _ & _ & H).
    injection Hl as <-. destruct (H eq_refl eq_refl) as [_ H']. apply (H' 8080). vm_compute. reflexivity.
Defined.

Example defaults_are_valid : Validate Default = [] /\ Validate (finish Default) = [].
Proof. split; vm_compute; reflexivity. Qed.

(** The subnet of the old section does not replace the default one. *)
Example tun_subnet_ignored :
  MeshCIDR (load_mesh (MkTun true "10.7.0.0/16" 0 "tun7" []) (Mesh Default)) = "10.100.0.0/24"%string /\
  TunName (load_mesh (MkTun true "10.7.0.0/16" 0 "tun7" []) (Mesh Default)) = "mesh0"%string.
Proof. done. Qed.

(** A jitter of 0 to 3 ms becomes 5 to 3. *)
Example zero_jitter_invalid :
  check_proxy (load_proxy (MkProxy (MkCircuit 0 0 0 0 0) "" false [] (MkPathSelection "" "" 0 0 0 0 0 ∅) ""
     (MkRelayNode true 0 3 false 0 0) (MkExit [] false [] "" 0) (SOCKS5 (Proxy Default)))) <> [].
Proof. vm_compute. discriminate. Qed.

Example Sscanf_examples : Sscanf_d "80" = 80 /\ Sscanf_d " +8080x" = 8080 /\ Sscanf_d "http" = 0 /\ Sscanf_d "-1" = -1 /\
  Sscanf_d "99999999999999999999" = 0 /\ port_of "[::1]:443" = 443.
Proof. vm_compute. done. Qed.

End Config.
