(* ===== verification/ConfigApi.v ===== *)
(** * Changing the configuration over the web (internal/web/config_tiers.go,
    config_reloader.go, handlers_config.go)

    The tiers of the configuration fields, the paths of a JSON body and how
    they are matched, merging a body into a configuration, the registry of
    changed fields, and saving and applying a change. The YAML codec and the
    other reloaders are parameters. A Go map is an association list in the
    order in which the run ranges over it; its keys are strings, so that the
    conversion of maps with other keys (yamlMapToJSON) has nothing to do. *)
From stdpp Require Import prelude gmap list strings.
From Stdlib Require Import Strings.Byte ZArith Lia.
From S2P Require Import Prelude GoBytes GoNet Acl ConfigFile.
Local Open Scope Z_scope.

Module ConfigApi.

(** ** Values of type any *)
#[local] Unset Elimination Schemes.
Inductive any : Type :=
| ANull
| ABool (b : bool)
| ANumber (literal : string)
| AString (s : string)
| AArray (l : list any)
| AObject (m : list (string * any)).
#[local] Set Elimination Schemes.
Abbreviation object := (list (string * any)).

Fixpoint obj_get (k : string) (m : object) : option any :=
  match m with
  | [] => None
  | (k', v) :: m => if String.eqb k' k then Some v else obj_get k m
  end.
Fixpoint obj_set (k : string) (v : any) (m : object) : object :=
  match m with
  | [] => [(k, v)]
  | (k', v') :: m => if String.eqb k' k then (k, v) :: m else (k', v') :: obj_set k v m
  end.
Fixpoint obj_delete (k : string) (m : object) : object :=
  match m with
  | [] => []
  | (k', v') :: m => if String.eqb k' k then obj_delete k m else (k', v') :: obj_delete k m
  end.

(** ** Tiers (config_tiers.go) *)
Inductive FieldTier : Type := TierReadOnly | TierMasked | TierStepUp | TierNormal.
Inductive ReloadClass : Type := ReloadHot | ReloadRestart.
Record fieldMeta : Type := MkMeta { Tier : FieldTier; Reload_ : ReloadClass }.

Definition tierMap : list (string * fieldMeta) :=
  [("node.identity", MkMeta TierMasked ReloadRestart);
   ("node.identity_file", MkMeta TierReadOnly ReloadRestart);
   ("node.fingerprint", MkMeta TierReadOnly ReloadRestart);
   ("node.hostname", MkMeta TierReadOnly ReloadRestart); ("node.web", MkMeta TierNormal ReloadRestart);
   ("node.position.x", MkMeta TierNormal ReloadHot); ("node.position.y", MkMeta TierNormal ReloadHot);
   ("node.position.z", MkMeta TierNormal ReloadHot); ("mesh.port", MkMeta TierNormal ReloadRestart);
   ("peers[N].public_key", MkMeta TierReadOnly ReloadHot); ("peers[N].endpoint", MkMeta TierNormal ReloadHot);
   ("peers[N].allowed_ips", MkMeta TierNormal ReloadHot);
   ("peers[N].capabilities", MkMeta TierStepUp ReloadHot);
   ("peers[N].reality.server_name", MkMeta TierNormal ReloadHot);
   ("peers[N].reality.public_key", MkMeta TierMasked ReloadHot);
   ("peers[N].reality.short_id", MkMeta TierMasked ReloadHot);
   ("peers[N].reality.tls_fingerprint", MkMeta TierNormal ReloadHot);
   ("peers[N].service_manage", MkMeta TierStepUp ReloadHot);
   ("peers[N].file_transfer_paths", MkMeta TierStepUp ReloadHot);
   ("peers[N].monitor_scopes", MkMeta TierNormal ReloadHot); ("p2p.enabled", MkMeta TierNormal ReloadRestart);
   ("p2p.seeds", MkMeta TierNormal ReloadRestart); ("p2p.relay_mode", MkMeta TierNormal ReloadHot);
   ("p2p.max_relay_hops", MkMeta TierNormal ReloadHot);
   ("p2p.advertise_endpoints", MkMeta TierNormal ReloadRestart);
   ("monitoring.collectors", MkMeta TierNormal ReloadHot); ("monitoring.interval", MkMeta TierNormal ReloadHot);
   ("monitoring.port", MkMeta TierNormal ReloadHot); ("webssh.port", MkMeta TierNormal ReloadHot);
   ("webssh.host_key", MkMeta TierMasked ReloadHot); ("webssh.shell", MkMeta TierNormal ReloadHot);
   ("webssh.dial_timeout", MkMeta TierNormal ReloadHot); ("webssh.read_deadline", MkMeta TierNormal ReloadHot);
   ("webssh.write_deadline", MkMeta TierNormal ReloadHot); ("webssh.max_sessions", MkMeta TierNormal ReloadHot);
   ("auth.web_users", MkMeta TierStepUp ReloadHot); ("auth.web_users[N].username", MkMeta TierNormal ReloadHot);
   ("auth.web_users[N].password_hash", MkMeta TierMasked ReloadHot);
   ("auth.totp_issuer", MkMeta TierNormal ReloadHot); ("auth.require_2fa", MkMeta TierStepUp ReloadHot);
   ("auth.totp_window", MkMeta TierNormal ReloadHot);
   ("auth.totp_store_dir", MkMeta TierReadOnly ReloadRestart);
   ("auth.step_up_timeout", MkMeta TierStepUp ReloadHot);
   ("auth.alert_webhook_url", MkMeta TierStepUp ReloadHot);
   ("transfer.max_file_size", MkMeta TierNormal ReloadHot);
   ("transfer.upload_dir", MkMeta TierNormal ReloadHot);
   ("proxy.circuit.idle_timeout", MkMeta TierNormal ReloadHot);
   ("proxy.circuit.keepalive_interval", MkMeta TierNormal ReloadHot);
   ("proxy.circuit.nack_timeout", MkMeta TierNormal ReloadHot);
   ("proxy.circuit.orphan_timeout", MkMeta TierNormal ReloadHot);
   ("proxy.circuit.max_reassembly_window", MkMeta TierNormal ReloadHot);
   ("proxy.chunker_strategy", MkMeta TierNormal ReloadHot);
   ("proxy.debug_fixed_chunks", MkMeta TierNormal ReloadHot); ("proxy.paths", MkMeta TierStepUp ReloadHot);
   ("proxy.exit_addr", MkMeta TierStepUp ReloadHot); ("proxy.path_selection.mode", MkMeta TierNormal ReloadHot);
   ("proxy.path_selection.strategy", MkMeta TierNormal ReloadHot);
   ("proxy.path_selection.max_relays_per_path", MkMeta TierNormal ReloadHot);
   ("proxy.path_selection.probe_timeout_sec", MkMeta TierNormal ReloadHot);
   ("proxy.path_selection.probe_concurrency", MkMeta TierNormal ReloadHot);
   ("proxy.path_selection.max_candidates", MkMeta TierNormal ReloadHot);
   ("proxy.path_selection.probe_cache_ttl_sec", MkMeta TierNormal ReloadHot);
   ("proxy.path_selection.exit_latency_matrix", MkMeta TierReadOnly ReloadRestart);
   ("proxy.relay.enabled", MkMeta TierNormal ReloadRestart);
   ("proxy.relay.jitter_min_ms", MkMeta TierNormal ReloadHot);
   ("proxy.relay.jitter_max_ms", MkMeta TierNormal ReloadHot);
   ("proxy.relay.disable_jitter", MkMeta TierNormal ReloadHot);
   ("proxy.relay.max_circuits", MkMeta TierNormal ReloadHot);
   ("proxy.relay.max_queue_depth", MkMeta TierNormal ReloadHot);
   ("proxy.socks5.enabled", MkMeta TierNormal ReloadRestart);
   ("proxy.socks5.allowed_ports", MkMeta TierStepUp ReloadHot);
   ("proxy.socks5.allow_all_ports", MkMeta TierStepUp ReloadHot);
   ("proxy.socks5.destination_filter", MkMeta TierStepUp ReloadHot);
   ("proxy.socks5.dial_timeout_sec", MkMeta TierNormal ReloadHot);
   ("proxy.socks5.idle_timeout_sec", MkMeta TierNormal ReloadHot);
   ("proxy.socks5.max_connections", MkMeta TierNormal ReloadHot);
   ("proxy.exit.allowed_ports", MkMeta TierStepUp ReloadHot);
   ("proxy.exit.allow_all_ports", MkMeta TierStepUp ReloadHot);
   ("proxy.exit.destination_filter", MkMeta TierStepUp ReloadHot);
   ("proxy.exit.audit_log_dir", MkMeta TierNormal ReloadHot);
   ("proxy.exit.audit_retention_days", MkMeta TierNormal ReloadHot);
   ("reality.enabled", MkMeta TierNormal ReloadRestart);
   ("reality.listen_addr", MkMeta TierNormal ReloadRestart);
   ("reality.listen_port", MkMeta TierNormal ReloadRestart); ("reality.dest", MkMeta TierNormal ReloadHot);
   ("reality.server_names", MkMeta TierNormal ReloadHot);
   ("reality.private_key", MkMeta TierMasked ReloadRestart); ("reality.short_ids", MkMeta TierNormal ReloadHot);
   ("join.enabled", MkMeta TierNormal ReloadRestart); ("join.listen_addr", MkMeta TierNormal ReloadRestart);
   ("join.secret", MkMeta TierMasked ReloadRestart); ("join.tls_cert_file", MkMeta TierNormal ReloadRestart);
   ("join.tls_key_file", MkMeta TierMasked ReloadRestart); ("join.token_lifetime", MkMeta TierNormal ReloadHot);
   ("join.server_url", MkMeta TierNormal ReloadHot); ("join.token", MkMeta TierMasked ReloadHot);
   ("join.insecure_skip_tls_verify", MkMeta TierNormal ReloadHot);
   ("logging.log_file", MkMeta TierNormal ReloadRestart); ("logging.log_max_size", MkMeta TierNormal ReloadHot);
   ("logging.log_max_backups", MkMeta TierNormal ReloadHot);
   ("logging.log_max_age", MkMeta TierNormal ReloadHot);
   ("logging.log_compress", MkMeta TierNormal ReloadRestart);
   ("logging.log_level", MkMeta TierNormal ReloadHot); ("acl.enabled", MkMeta TierStepUp ReloadHot);
   ("acl.default_policy", MkMeta TierStepUp ReloadHot); ("acl.rules", MkMeta TierStepUp ReloadHot);
   ("acl.rules[N].action", MkMeta TierStepUp ReloadHot); ("acl.rules[N].src_cidr", MkMeta TierStepUp ReloadHot);
   ("acl.rules[N].dst_cidr", MkMeta TierStepUp ReloadHot);
   ("acl.rules[N].protocol", MkMeta TierStepUp ReloadHot);
   ("acl.rules[N].src_port", MkMeta TierStepUp ReloadHot);
   ("acl.rules[N].dst_port", MkMeta TierStepUp ReloadHot);
   ("acl.rules[N].peer_id", MkMeta TierStepUp ReloadHot);
   ("acl.rules[N].description", MkMeta TierStepUp ReloadHot)].
Definition readOnlyFields : list string :=
  ["node.identity"; "node.identity_file"; "node.fingerprint"; "node.hostname"; "peers[N].public_key";
   "auth.totp_store_dir"; "proxy.path_selection.exit_latency_matrix"].
Definition maskedFields : list string :=
  ["node.identity"; "peers[N].reality.public_key"; "peers[N].reality.short_id"; "webssh.host_key";
   "auth.web_users[N].password_hash"; "reality.private_key"; "join.secret"; "join.tls_key_file"; "join.token"].
Definition stepUpFields : list string :=
  ["peers[N].capabilities"; "peers[N].service_manage"; "peers[N].file_transfer_paths"; "auth.web_users";
   "auth.require_2fa"; "auth.step_up_timeout"; "auth.alert_webhook_url"; "proxy.paths"; "proxy.exit_addr";
   "proxy.exit.allowed_ports"; "proxy.exit.allow_all_ports"; "proxy.exit.destination_filter";
   "proxy.socks5.allowed_ports"; "proxy.socks5.allow_all_ports"; "proxy.socks5.destination_filter";
   "acl.enabled"; "acl.default_policy"; "acl.rules"].
Definition validSections : list string :=
  ["node"; "mesh"; "peers"; "p2p"; "monitoring"; "webssh"; "auth"; "transfer"; "proxy"; "reality"; "join"; "logging"].
Definition maskSentinel : string := "***".
Definition tier_of (path : string) : option fieldMeta :=
  snd <$> List.find (fun x => String.eqb x.1 path) tierMap.

(** ** Paths *)
Definition indexOf (s substr : string) : option nat := String.index 0 substr s.
Definition containsSubstr (s substr : string) : bool := bool_decide (is_Some (indexOf s substr)).
Definition str_slice (s : string) (a b : nat) : string := String.substring a (b - a) s.
Definition is_digit (b : byte) : bool := (48 <=? Z_of_byte b) && (Z_of_byte b <=? 57).

(** [depth] counts the open brackets, [part] is the segment read so far. *)
Fixpoint split_loop (delim : byte) (l : list byte) (depth : Z) (part : list byte) : list string :=
  match l with
  | [] => [string_of_bytes part]
  | c :: l =>
      if bool_decide (c = "["%byte) then split_loop delim l (depth + 1) (part ++ [c])
      else if bool_decide (c = "]"%byte) then split_loop delim l (depth - 1) (part ++ [c])
      else if bool_decide (c = delim) && (depth =? 0) then string_of_bytes part :: split_loop delim l depth []
      else split_loop delim l depth (part ++ [c])
  end.
Definition splitOn (s : string) (delim : byte) : list string := split_loop delim (bytes_of_string s) 0 [].
Definition splitPath (path : string) : list string := splitOn path "."%byte.
Definition joinPath (parts : list string) : string := String.concat "." parts.

(** A [[digits]] part, the digits possibly none. *)
Definition index_part (mid : list byte) : bool :=
  (2 <=? len mid) && bool_decide (head mid = Some "["%byte) && bool_decide (last mid = Some "]"%byte) &&
  forallb is_digit (slice mid 1 (len mid - 1)).
Definition matchSegmentWithN (template actual : string) : bool :=
  match indexOf template "[N]" with
  | None => String.eqb template actual
  | Some n =>
      let prefix := str_slice template 0 n in
      let suffix := str_slice template (n + 3) (String.length template) in
      let p := String.length prefix in
      let q := (String.length actual - String.length suffix)%nat in
      (p + String.length suffix <=? String.length actual)%nat &&
      String.eqb (str_slice actual 0 p) prefix && String.eqb (str_slice actual q (String.length actual)) suffix &&
      index_part (bytes_of_string (str_slice actual p q))
  end.
Definition segments_match (t a : string) : bool :=
  String.eqb t a || (containsSubstr t "[N]" && matchSegmentWithN t a).
Definition matchWithNPlaceholders (template actual : string) : bool :=
  let tParts := splitPath template in
  let aParts := splitPath actual in
  (length tParts =? length aParts)%nat && forallb (fun x => segments_match x.1 x.2) (zip tParts aParts).
Definition matchFieldPath (template actual : string) : bool :=
  String.eqb template actual || (containsSubstr template "[N]" && matchWithNPlaceholders template actual).

Definition isReadOnly (path : string) : bool := existsb (fun f => matchFieldPath f path) readOnlyFields.
Definition isMasked (path : string) : bool := existsb (fun f => matchFieldPath f path) maskedFields.
Definition isStepUp (path : string) : bool :=
  existsb (fun f => matchFieldPath f path) stepUpFields ||
  match indexOf path "[" with
  | Some idx => existsb (fun f => String.eqb f (str_slice path 0 idx)) stepUpFields
  | None => false
  end.

Definition segmentToTemplate (seg : string) : string :=
  match indexOf seg "[" with
  | None => seg
  | Some i =>
      match indexOf (str_slice seg i (String.length seg)) "]" with
      | None => seg
      | Some j =>
          let inner := bytes_of_string (str_slice seg (i + 1) (i + j)) in
          if (0 <? len inner) && forallb is_digit inner
          then (str_slice seg 0 (i + 1) +:+ "N" +:+ str_slice seg (i + j) (String.length seg))%string
          else seg
      end
  end.
Definition fieldPathToTemplate (path : string) : string := joinPath (segmentToTemplate <$> splitPath path).

(** ** The fields of a body (handlers_config.go) *)
Definition sub_path (prefix key : string) : string :=
  if String.eqb prefix "" then key else (prefix +:+ "." +:+ key)%string.
Definition item_path (prefix : string) (i : Z) : string := (prefix +:+ "[" +:+ itoa i +:+ "]")%string.

Fixpoint collectFieldPaths (data : any) (prefix : string) : list string :=
  match data with
  | AObject m => (fix go (m : object) : list string :=
      match m with
      | [] => []
      | (key, val) :: m => collectFieldPaths val (sub_path prefix key) ++ go m
      end) m
  | AArray l => (fix go (i : Z) (l : list any) : list string :=
      match l with
      | [] => []
      | item :: l => collectFieldPaths item (item_path prefix i) ++ go (i + 1) l
      end) 0 l
  | _ => if String.eqb prefix "" then [] else [prefix]
  end.

Definition isContainerField (path : string) : bool :=
  existsb (fun x => String.prefix (path +:+ ".")%string x.1 || String.prefix (path +:+ "[")%string x.1) tierMap.
Definition isKnownField (path : string) : bool :=
  bool_decide (is_Some (tier_of (fieldPathToTemplate path))) ||
  isStepUp path || isMasked path || isReadOnly path || isContainerField path ||
  match indexOf path "[" with
  | Some idx =>
      bool_decide (is_Some (tier_of (str_slice path 0 idx))) || isContainerField (str_slice path 0 idx)
  | None => false
  end.

(** The number in brackets; an [int] wraps. *)
Definition index_value (l : list byte) : Z := foldl (fun idx c => i64 (idx * 10 + (Z_of_byte c - 48))) 0 l.
Definition get_part (current : any) (part : string) : option any :=
  match current with
  | AObject m =>
      match indexOf part "[" with
      | None => obj_get part m
      | Some i =>
          let idx := index_value (bytes_of_string (str_slice part (i + 1) (String.length part - 1))) in
          match obj_get (str_slice part 0 i) m with
          | Some (AArray arr) => if idx <? 0 then None else arr !! Z.to_nat idx
          | _ => None
          end
      end
  | _ => None
  end.
(** [None] stands for nil, which is also what a missing path gives. *)
Definition getPathValue (data : object) (path : string) : option any :=
  foldl (fun current part => v ← current; get_part v part) (Some (AObject data)) (splitPath path).
Definition is_sentinel (v : option any) : bool :=
  match v with Some (AString s) => String.eqb s maskSentinel | _ => false end.

(** ** Merging *)
Fixpoint mergeMap (dst : object) (src : any) : object :=
  match src with
  | AObject m => (fix go (result m : object) : object :=
      match m with
      | [] => result
      | (k, v) :: m => go
          (match v, obj_get k result with
           | ANull, _ => obj_delete k result
           | AObject _, Some (AObject d) => obj_set k (AObject (mergeMap d v)) result
           | _, _ => obj_set k v result
           end) m
      end) dst m
  | _ => dst
  end.

Fixpoint mergePutWithMasking (dst : object) (src : any) (prefix : string) : object :=
  match src with
  | AObject m => (fix go (result m : object) : object :=
      match m with
      | [] => result
      | (k, v) :: m => go
          (match v, obj_get k result with
           | ANull, _ => obj_delete k result
           | AObject _, Some (AObject d) =>
               obj_set k (AObject (mergePutWithMasking d v (sub_path prefix k))) result
           | _, Some _ =>
               if isMasked (sub_path prefix k) && is_sentinel (Some v) then result else obj_set k v result
           | _, None => obj_set k v result
           end) m
      end) dst m
  | _ => dst
  end.

(** What a reader of the configuration may see. *)
Fixpoint applyMaskingRecursive (data : any) (prefix : string) : any :=
  match data with
  | AObject m => AObject ((fix go (m : object) : object :=
      match m with
      | [] => []
      | (key, val) :: m =>
          (key, if isMasked (sub_path prefix key) then AString maskSentinel
                else applyMaskingRecursive val (sub_path prefix key)) :: go m
      end) m)
  | AArray l => AArray ((fix go (i : Z) (l : list any) : list any :=
      match l with
      | [] => []
      | item :: l => applyMaskingRecursive item (item_path prefix i) :: go (i + 1) l
      end) 0 l)
  | _ => data
  end.
Definition applyMasking (m : object) : object :=
  match applyMaskingRecursive (AObject m) "" with AObject m => m | _ => [] end.

(** ** Changed fields (config_reloader.go) *)
Record ReloaderRegistry : Type := MkRegistry { dirtyHotReload : gset string; dirtyRestart : gset string }.
Record ReloadResult : Type := MkReload {
  rr_OK : bool; rr_Applied : list string; rr_Rejected : list string; rr_Errors : list string;
  rr_PendingRestart : bool; rr_Message : string
}.
Definition NewReloaderRegistry : ReloaderRegistry := MkRegistry ∅ ∅.
Definition MarkDirty (r : ReloaderRegistry) (fieldPath : string) : ReloaderRegistry :=
  match tier_of (fieldPathToTemplate fieldPath) with
  | Some (MkMeta _ ReloadRestart) => MkRegistry (dirtyHotReload r) ({[fieldPath]} ∪ dirtyRestart r)
  | _ => MkRegistry ({[fieldPath]} ∪ dirtyHotReload r) (dirtyRestart r)
  end.
Definition HasPendingRestart (r : ReloaderRegistry) : bool := negb (bool_decide (dirtyRestart r = ∅)).
Definition HasPendingReload (r : ReloaderRegistry) : bool := negb (bool_decide (dirtyHotReload r = ∅)).
Definition DirtySinceReload (r : ReloaderRegistry) : list string :=
  elements (dirtyHotReload r) ++ elements (dirtyRestart r).
Definition PendingRestartFields (r : ReloaderRegistry) : list string := elements (dirtyRestart r).
Definition ClearRestartDirty (r : ReloaderRegistry) : ReloaderRegistry := MkRegistry (dirtyHotReload r) ∅.

(** A reloader by its answer: applied, rejected, errors. *)
Definition ConfigReloader : Type := Config.Config -> list string * list string * list string.
Definition Reload (reloaders : list ConfigReloader) (r : ReloaderRegistry) (cfg : Config.Config)
    : ReloaderRegistry * ReloadResult :=
  if negb (HasPendingReload r)
  then (r, MkReload true [] [] [] (HasPendingRestart r) "No changes pending — config is clean") else
  let answers := (fun rl => rl cfg) <$> reloaders in
  let r := MkRegistry ∅ (dirtyRestart r) in
  (r, MkReload true (answers ≫= fun a => a.1.1) (answers ≫= fun a => a.1.2) (answers ≫= fun a => a.2)
        (HasPendingRestart r) "").

(** ** Applying a change (handlers_config.go) *)

(** [config_file] is what reading the file of [configPath] gives. *)
Record ConfigAPIManager : Type := MkManager {
  configPath : string; registry : ReloaderRegistry; lastRestartTime : option Z; lastReloadTime : option Z;
  config_file : result string (list byte)
}.
Definition NewConfigAPIManager (path : string) (file : result string (list byte)) : ConfigAPIManager :=
  MkManager path NewReloaderRegistry None None file.
Definition set_registry (m : ConfigAPIManager) (r : ReloaderRegistry) : ConfigAPIManager :=
  MkManager (configPath m) r (lastRestartTime m) (lastReloadTime m) (config_file m).
Definition set_file (m : ConfigAPIManager) (f : result string (list byte)) : ConfigAPIManager :=
  MkManager (configPath m) (registry m) (lastRestartTime m) (lastReloadTime m) f.
Definition set_reload_time (m : ConfigAPIManager) (t : Z) : ConfigAPIManager :=
  MkManager (configPath m) (registry m) (lastRestartTime m) (Some t) (config_file m).
Definition set_restart_time (m : ConfigAPIManager) (t : Z) : ConfigAPIManager :=
  MkManager (configPath m) (registry m) (Some t) (lastReloadTime m) (config_file m).
Record ConfigPutResult : Type := MkPut {
  OK : bool; Applied : list string; RequiresRestart : list string; NoOp : list string; Warnings : list string;
  Errors : list string; PendingRestart : bool
}.

(** What writing the temporary file and renaming it do. *)
Record file_env : Type := MkFileEnv { write_tmp : list byte -> option string; rename_tmp : option string }.

(** The YAML codec: onto a configuration, the sections of a file, from a
    configuration, and from and to a map of anything. *)
Record Yaml : Type := MkYaml {
  unmarshal : list byte -> Config.Config -> result string Config.Config;
  unmarshal_sections : list byte -> option (gmap string (gmap string Config.yaml_value));
  marshal : Config.Config -> result string (list byte);
  unmarshal_map : list byte -> result string object; marshal_map : object -> result string (list byte)
}.

Section Codec.
Context (y : Yaml).

Definition configToMap (cfg : Config.Config) : object :=
  match marshal y cfg with
  | Err _ => []
  | Ok data => match unmarshal_map y data with Err _ => [] | Ok m => m end
  end.
Definition mergeConfigMaps (current : Config.Config) (body : object) : Config.Config :=
  match marshal_map y (mergePutWithMasking (configToMap current) (AObject body) "") with
  | Err _ => current
  | Ok data => match unmarshal y data Config.Default with Err _ => current | Ok cfg => cfg end
  end.
Definition mergePatchConfig (running : Config.Config) (patch : object) : object :=
  mergeMap (configToMap running) (AObject patch).

Definition load (m : ConfigAPIManager) : result string Config.Config :=
  Config.Load (unmarshal y) (unmarshal_sections y) (config_file m).
(** The configuration a change starts from: the file, or else the one that runs. *)
Definition current_config (m : ConfigAPIManager) (running : Config.Config) : Config.Config :=
  if String.eqb (configPath m) "" then running
  else match load m with Ok cfg => cfg | Err _ => running end.

Definition atomicConfigSave (e : file_env) (cfg : Config.Config) : result string (list byte) :=
  match Config.Save (marshal y) (write_tmp e) cfg with
  | Err err => Err err
  | Ok data => match rename_tmp e with Some err => Err ("rename config: " +:+ err)%string | None => Ok data end
  end.

Definition noop (body : object) (p : string) : bool := isMasked p && is_sentinel (getPathValue body p).
Definition needs_restart (p : string) : bool :=
  match tier_of (fieldPathToTemplate p) with Some (MkMeta _ ReloadRestart) => true | _ => false end.
Definition mark_all (body : object) (paths : list string) (r : ReloaderRegistry) : ReloaderRegistry :=
  foldl (fun r p => if noop body p then r else MarkDirty r p) r paths.

Definition applyConfigChanges (m : ConfigAPIManager) (running : Config.Config) (e : file_env) (body : object)
    (paths : list string) : ConfigAPIManager * Config.Config * ConfigPutResult :=
  let merged := mergeConfigMaps (current_config m running) body in
  let noops := List.filter (noop body) paths in
  let saved := if String.eqb (configPath m) "" then Ok (config_file m)
               else match atomicConfigSave e merged with Ok data => Ok (Ok data) | Err err => Err err end in
  match saved with
  | Err err => (m, running, MkPut false [] [] noops [] [("save config: " +:+ err)%string] false)
  | Ok file =>
      let r := mark_all body paths (registry m) in
      (set_registry (set_file m file) r, merged,
       MkPut true (List.filter (fun p => negb (needs_restart p)) paths) (List.filter needs_restart paths) noops noops []
         (HasPendingRestart r))
  end.
End Codec.

(** ** Proofs *)

Section Induction.
Context (P : any -> Prop).
Context (Hnull : P ANull) (Hbool : forall b, P (ABool b)) (Hnumber : forall n, P (ANumber n)).
Context (Hstring : forall s, P (AString s)) (Harray : forall l, Forall P l -> P (AArray l)).
Context (Hobject : forall m, Forall (fun kv => P kv.2) m -> P (AObject m)).
Fixpoint any_ind (v : any) : P v :=
  match v with
  | ANull => Hnull
  | ABool b => Hbool b
  | ANumber n => Hnumber n
  | AString s => Hstring s
  | AArray l => Harray l ((fix go l : Forall P l :=
      match l with [] => Forall_nil_2 _ | x :: l => Forall_cons_2 _ _ _ (any_ind x) (go l) end) l)
  | AObject m => Hobject m ((fix go m : Forall (fun kv => P kv.2) m :=
      match m with [] => Forall_nil_2 _ | kv :: m => Forall_cons_2 _ _ _ (any_ind kv.2) (go m) end) m)
  end.
End Induction.

(** The value found along a path, as the paths of fields are formed. *)
Inductive at_path : any -> string -> string -> any -> Prop :=
| at_key m prefix k v : (k, v) ∈ m -> at_path (AObject m) prefix (sub_path prefix k) v
| at_sub m prefix k v p w : (k, v) ∈ m -> at_path v (sub_path prefix k) p w -> at_path (AObject m) prefix p w
| at_in_item l prefix i v p w : l !! i = Some v -> at_path v (item_path prefix (Z.of_nat i)) p w ->
    at_path (AArray l) prefix p w.

Lemma masked_object m prefix : exists m', applyMaskingRecursive (AObject m) prefix = AObject m' /\
  forall k v, (k, v) ∈ m' -> exists old, (k, old) ∈ m /\
    v = if isMasked (sub_path prefix k) then AString maskSentinel else applyMaskingRecursive old (sub_path prefix k).
Proof.
  cbn. eexists. split; [done|]. induction m as [|[k0 v0] m IH]; intros k v Hk; [by apply elem_of_nil in Hk|].
  apply elem_of_cons in Hk as [[= -> ->]|Hk]; [exists v0; split; [left|done]|].
  destruct (IH k v Hk) as (old & Ho & ->). exists old. split; [by right|done].
Qed.

Lemma masked_array l prefix : exists l', applyMaskingRecursive (AArray l) prefix = AArray l' /\
  forall i v, l' !! i = Some v -> exists old, l !! i = Some old /\
    v = applyMaskingRecursive old (item_path prefix (Z.of_nat i)).
Proof.
  cbn. eexists. split; [done|].
  enough (forall j i v, (fix go (i : Z) (l : list any) : list any :=
      match l with
      | [] => []
      | item :: l => applyMaskingRecursive item (item_path prefix i) :: go (i + 1) l
      end) j l !! i = Some v -> exists old, l !! i = Some old /\
    v = applyMaskingRecursive old (item_path prefix (j + Z.of_nat i))) as H by (intros i v Hv; apply (H 0 i v Hv)).
  induction l as [|x l IH]; intros j [|i] v; cbn; try done.
  - intros [= <-]. exists x. by rewrite Z.add_0_r.
  - intros (old & Ho & ->)%IH. exists old. split; [done|]. do 2 f_equal. lia.
Qed.

(** Reading the configuration shows no secret: whatever it holds, the value
    at the path of a masked field, at any depth and index, is the sentinel. *)
Lemma masked_paths v : forall prefix p w, at_path (applyMaskingRecursive v prefix) prefix p w ->
  isMasked p = true -> w = AString maskSentinel.
Proof.
  induction v as [| | | |l IH|m IH] using any_ind; intros prefix p w; try by inversion 1.
  - destruct (masked_array l prefix) as (l' & -> & Hl). inversion 1 as [| |? ? i x ? ? Hi Hp]; subst.
    destruct (Hl i x Hi) as (old & Ho & ->). intros Hm.
    exact (proj1 (Forall_lookup _ _) IH i old Ho _ _ _ Hp Hm).
  - destruct (masked_object m prefix) as (m' & -> & Hm). inversion 1 as [? ? k x Hk|? ? k x ? ? Hk Hp|]; subst.
    + destruct (Hm k w Hk) as (old & Ho & ->). intros ->. done.
    + destruct (Hm k x Hk) as (old & Ho & ->). intros Hs.
      destruct (isMasked (sub_path prefix k)); [by inversion Hp|].
      exact (proj1 (Forall_forall _ _) IH (k, old) Ho _ _ _ Hp Hs).
Qed.

(** Every field the table classes as masked or step-up is in the list that
    the checks use, and a step-up field is one at every index. *)
Lemma tiers_agree : Forall (fun x =>
  (Tier x.2 = TierStepUp -> isStepUp x.1 = true) /\ (Tier x.2 = TierMasked -> isMasked x.1 = true) /\
  (Tier x.2 = TierReadOnly -> isReadOnly x.1 = true)) tierMap.
Proof. repeat (apply Forall_cons; split; [split_and!; vm_compute; congruence|]). constructor. Qed.

(** *** Association lists *)
Lemma obj_get_delete k k' m : obj_get k (obj_delete k' m) = if String.eqb k' k then None else obj_get k m.
Proof.
  induction m as [|[k0 v0] m IH]; cbn; [by destruct (String.eqb k' k)|].
  destruct (String.eqb_spec k0 k') as [->|Hne]; cbn; rewrite IH; [by destruct (String.eqb k' k)|].
  destruct (String.eqb_spec k0 k) as [->|]; [|done]. by rewrite (proj2 (String.eqb_neq _ _)) by congruence.
Qed.
Lemma obj_get_set k k' v m : obj_get k (obj_set k' v m) = if String.eqb k' k then Some v else obj_get k m.
Proof.
  induction m as [|[k0 v0] m IH]; cbn; [done|].
  destruct (String.eqb_spec k0 k') as [->|Hne]; cbn; [by destruct (String.eqb k' k)|]. rewrite IH.
  destruct (String.eqb_spec k0 k) as [->|]; [|done]. by rewrite (proj2 (String.eqb_neq _ _)) by congruence.
Qed.

(** A key that the body does not mention keeps its value. *)
Lemma merge_put_absent k body prefix : forall dst, obj_get k body = None ->
  obj_get k (mergePutWithMasking dst (AObject body) prefix) = obj_get k dst.
Proof.
  cbn. induction body as [|[k0 v0] body IH]; intros dst; [done|]. cbn [obj_get].
  destruct (String.eqb_spec k0 k) as [|Hne]; [done|]. intros Hk. rewrite IH by done.
  apply String.eqb_neq in Hne.
  destruct v0; cbn; repeat case_match; rewrite ?obj_get_set, ?obj_get_delete, ?Hne; done.
Qed.

(** A patch does not delete. A null in a patch removes its key from the
    running configuration, but what is left is merged into the current one,
    where the key keeps its value. *)
Lemma patch_null_ignored k running current :
  obj_get k (mergePutWithMasking current (AObject (mergeMap running (AObject [(k, ANull)]))) "") = obj_get k current.
Proof. apply merge_put_absent. cbn. by rewrite obj_get_delete, String.eqb_refl. Qed.

(** A put does not replace: what it leaves out stays. With null it deletes. *)
Lemma put_null_deletes k current : obj_get k (mergePutWithMasking current (AObject [(k, ANull)]) "") = None.
Proof. cbn. by rewrite obj_get_delete, String.eqb_refl. Qed.

(** Whole sections count as known fields that need no step-up, and empty
    ones as no field at all. *)
Example section_paths :
  collectFieldPaths (AObject [("auth", ANull)]) "" = ["auth"] /\ isKnownField "auth" = true /\
  isStepUp "auth" = false /\ isReadOnly "auth" = false /\
  collectFieldPaths (AObject [("auth", AObject [("web_users", AArray [])])]) "" = [] /\
  collectFieldPaths (AObject [("auth", AObject [("web_users", AArray [AObject [("username", AString "eve")]])])]) "" =
    ["auth.web_users[0].username"] /\ isStepUp "auth.web_users[0].username" = true /\
  isReadOnly "peers[12].public_key" = true /\ isMasked "peers[].reality.short_id" = true /\
  isKnownField "auth.web_user" = false /\ isKnownField "proxy.socks5.entry_password" = false.
Proof. vm_compute. done. Qed.
End ConfigApi.
