(* ===== verification/WebAuth.v ===== *)
(** * Login to the web interface (internal/web)

    Sessions, step-up tokens, security alerts, the login with its second
    factor, the handlers for enrolment, rotation and step-up, those that read
    and replace the configuration, the middlewares and the routes they guard.
    A request is handled in one step at one instant. Pages that are only
    rendered are represented by the fact that they were served; bcrypt, JSON
    decoding, YAML and the texts of errors are parameters. *)
From stdpp Require Import prelude gmap list strings.
From Stdlib Require Import Strings.Byte ZArith Lia.
From S2P Require Import Prelude GoBytes GoNet GoNetParse GoPath KeyExchange Auth Totp ConfigFile ConfigApi.
Local Open Scope Z_scope.

Module Web.

Definition minute : Z := 60 * Totp.second.
Definition twoFactorPendingCookie : string := "meshdesk_2fa_pending".
Definition twoFactorPendingTTL : Z := 5 * minute.
Definition defaultStepUpTimeout : Z := 5 * minute.
Definition OpTerminal : string := "terminal".
Definition OpServiceManage : string := "service_manage".
Definition OpFileUpload : string := "file_upload".
Definition OpSettings : string := "settings".

(** ** Sessions (server.go) *)
Record Session : Type := MkSession { Token : string; s_Username : string; CreatedAt : Z; s_ExpiresAt : Z }.
Record pendingSession : Type := MkPending { p_Username : string; p_ExpiresAt : Z }.
Record SessionStore : Type := MkSessions { sessions : gmap string Session; pending : gmap string pendingSession }.

Definition NewSessionStore : SessionStore := MkSessions ∅ ∅.
Definition generateToken (rand : list byte) : string := Kx.EncodeToString rand.
Definition Create (s : SessionStore) (now : Z) (rand : list byte) (username : string) : SessionStore * Session :=
  let token := generateToken rand in
  let session := MkSession token username now (now + 24 * 60 * minute) in
  (MkSessions (<[token := session]> (sessions s)) (pending s), session).
Definition Get (s : SessionStore) (now : Z) (token : string) : SessionStore * option Session :=
  match sessions s !! token with
  | None => (s, None)
  | Some session =>
      if s_ExpiresAt session <? now then (MkSessions (delete token (sessions s)) (pending s), None)
      else (s, Some session)
  end.
Definition Delete (s : SessionStore) (token : string) : SessionStore :=
  MkSessions (delete token (sessions s)) (pending s).
Definition SetPending (s : SessionStore) (now : Z) (token username : string) : SessionStore :=
  MkSessions (sessions s) (<[token := MkPending username (now + twoFactorPendingTTL)]> (pending s)).
Definition GetPending (s : SessionStore) (now : Z) (token : string) : SessionStore * option pendingSession :=
  match pending s !! token with
  | None => (s, None)
  | Some ps =>
      if p_ExpiresAt ps <? now then (MkSessions (sessions s) (delete token (pending s)), None) else (s, Some ps)
  end.
Definition ClearPending (s : SessionStore) (token : string) : SessionStore :=
  MkSessions (sessions s) (delete token (pending s)).

(** ** Step-up tokens (stepup.go) *)
Record stepUpToken : Type := MkStepUp { GrantedAt : Z; t_ExpiresAt : Z; Operations : list string }.
Definition StepUpStore : Type := gmap string stepUpToken.
Definition NewStepUpStore : StepUpStore := ∅.
Definition Grant (s : StepUpStore) (now : Z) (sessionToken : string) (operations : list string)
    : StepUpStore * stepUpToken :=
  let tok := MkStepUp now (now + defaultStepUpTimeout) operations in (<[sessionToken := tok]> s, tok).
Definition Validate (s : StepUpStore) (now : Z) (sessionToken operation : string) : StepUpStore * bool :=
  match s !! sessionToken with
  | None => (s, false)
  | Some tok =>
      if t_ExpiresAt tok <? now then (delete sessionToken s, false)
      else (s, existsb (fun op => String.eqb op operation) (Operations tok))
  end.
Definition Revoke (s : StepUpStore) (sessionToken : string) : StepUpStore := delete sessionToken s.
Definition RevokeAll (s : StepUpStore) : StepUpStore := ∅.

(** ** Security alerts (alerts.go) *)
Inductive AlertSeverity : Type := AlertInfo | AlertWarning | AlertCritical.
Record SecurityAlert : Type := MkAlert {
  Timestamp : Z; Severity : AlertSeverity; a_Type : string; a_Username : string; SourceIP : string;
  Description : string; Dismissed : bool
}.
(** A webhook channel is its capacity and what waits in it. *)
Record AlertStore : Type := MkAlerts {
  alerts : list SecurityAlert; maxAlerts : Z; lastAlert : gmap string Z; webhookCh : option (Z * list SecurityAlert)
}.
Definition NewAlertStore : AlertStore := MkAlerts [] 1000 ∅ None.
Definition SetWebhookCh (s : AlertStore) (ch : option Z) : AlertStore :=
  MkAlerts (alerts s) (maxAlerts s) (lastAlert s) ((fun cap => (cap, [])) <$> ch).
Definition alert_key (a : SecurityAlert) : string :=
  (a_Type a +:+ ":" +:+ a_Username a +:+ ":" +:+ Description a)%string.
Definition with_time (a : SecurityAlert) (now : Z) : SecurityAlert :=
  MkAlert now (Severity a) (a_Type a) (a_Username a) (SourceIP a) (Description a) (Dismissed a).
Definition forward (ch : option (Z * list SecurityAlert)) (a : SecurityAlert) : option (Z * list SecurityAlert) :=
  match ch with
  | Some (cap, q) => Some (cap, if len q <? cap then q ++ [a] else q)
  | None => None
  end.
Definition Add (s : AlertStore) (now : Z) (a : SecurityAlert) : AlertStore * bool :=
  let key := alert_key a in
  if match lastAlert s !! key with Some last => Totp.Sub now last <? minute | None => false end then (s, false) else
  let a := with_time a now in
  let old := if maxAlerts s <=? len (alerts s) then drop 1 (alerts s) else alerts s in
  (MkAlerts (old ++ [a]) (maxAlerts s) (<[key := now]> (lastAlert s)) (forward (webhookCh s) a), true).
Definition List_ (s : AlertStore) : list SecurityAlert := alerts s.
Definition Count (s : AlertStore) : Z := len (alerts s).
Definition CountUndismissed (s : AlertStore) : Z := len (filter (fun a => Dismissed a = false) (alerts s)).
Definition dismiss (a : SecurityAlert) : SecurityAlert :=
  MkAlert (Timestamp a) (Severity a) (a_Type a) (a_Username a) (SourceIP a) (Description a) true.
Definition DismissAll (s : AlertStore) : AlertStore :=
  MkAlerts (dismiss <$> alerts s) (maxAlerts s) (lastAlert s) (webhookCh s).

(** Events of other components as alerts. *)
Definition alert_of (sev : AlertSeverity) (type username ip desc : string) : SecurityAlert :=
  MkAlert 0 sev type username ip desc false.
Definition HandleAuthDenial (s : AlertStore) (now : Z) (result : Auth.AuthResult) : AlertStore :=
  (Add s now (alert_of (if String.eqb (Auth.Reason result) "revoked" then AlertCritical else AlertWarning)
    "capability_denied" (Auth.SourcePeer result) (Auth.SourceIP result)
    ("capability " +:+ Auth.Capability result +:+ " denied (" +:+ Auth.Reason result +:+ ") for resource: " +:+
     Auth.Resource result)%string)).1.
Definition HandlePeerJoin (s : AlertStore) (now : Z) (ID Endpoint : string) : AlertStore :=
  (Add s now (alert_of AlertInfo "node_join" ID ""
    ("new node joined mesh: " +:+ String.substring 0 8 ID +:+ " endpoint=" +:+ Endpoint)%string)).1.
Definition HandlePeerLeave (s : AlertStore) (now : Z) (peerID : string) : AlertStore :=
  (Add s now (alert_of AlertInfo "node_leave" peerID "" ("node left mesh: " +:+ peerID)%string)).1.
Definition HandleProxySecurityEvent (s : AlertStore) (now : Z) (Type_ CircuitID SourceIP Description : string)
    : AlertStore := (Add s now (alert_of AlertWarning Type_ CircuitID SourceIP Description)).1.

(** ** The server *)
Record loginAttempt : Type := MkAttempt { count : Z; windowStart : Z }.
Record Server : Type := MkServer {
  cfg : Config.Config; totpStore : Totp.TOTPStore; sess : SessionStore; stepUpStore : StepUpStore;
  alertStore : AlertStore; loginAttempts : gmap string loginAttempt; configAPI : ConfigApi.ConfigAPIManager
}.
Definition auth_config (s : Server) : Config.AuthConfig := Config.Auth (cfg s).
Definition web_users (s : Server) : list Config.WebUser := Config.WebUsers (auth_config s).
Definition set_totp (s : Server) (x : Totp.TOTPStore) : Server :=
  MkServer (cfg s) x (sess s) (stepUpStore s) (alertStore s) (loginAttempts s) (configAPI s).
Definition set_sess (s : Server) (x : SessionStore) : Server :=
  MkServer (cfg s) (totpStore s) x (stepUpStore s) (alertStore s) (loginAttempts s) (configAPI s).
Definition set_stepUp (s : Server) (x : StepUpStore) : Server :=
  MkServer (cfg s) (totpStore s) (sess s) x (alertStore s) (loginAttempts s) (configAPI s).
Definition set_alerts (s : Server) (x : AlertStore) : Server :=
  MkServer (cfg s) (totpStore s) (sess s) (stepUpStore s) x (loginAttempts s) (configAPI s).
Definition set_attempts (s : Server) (x : gmap string loginAttempt) : Server :=
  MkServer (cfg s) (totpStore s) (sess s) (stepUpStore s) (alertStore s) x (configAPI s).
Definition set_config (s : Server) (c : Config.Config) (m : ConfigApi.ConfigAPIManager) : Server :=
  MkServer c (totpStore s) (sess s) (stepUpStore s) (alertStore s) (loginAttempts s) m.
Definition set_api (s : Server) (m : ConfigApi.ConfigAPIManager) : Server := set_config s (cfg s) m.

(** ** Requests and responses

    [JSONBody] is the body as encoding/json decodes it into a map, or its error. *)
Record Request : Type := MkRequest {
  Method : string; URLPath : string; Query : string -> string; FormValue : string -> string;
  session_cookie : option string; pending_cookie : option string; RemoteAddr : string; HXRequest : string;
  JSONBody : result string ConfigApi.object
}.
Record Cookie : Type := MkCookie { c_Name : string; c_Value : string; MaxAge : Z }.
Record totpEnrollResponse : Type := MkEnrollResponse {
  Secret : string; QR : string; Algorithm : string; Digits : Z; Period : Z; Recovery : list string
}.
Inductive body : Type :=
| Empty
| Text (s : string)
| ErrorJSON (s : string)
| LoginPage (error : string)
| TwoFactorPage
| StepUpPage (op : string) (failed : bool)
| EnrollJSON (r : totpEnrollResponse)
| StatusJSON (enrolled locked : bool)
| AlertsJSON (l : list SecurityAlert)
| ConfigJSON (data : ConfigApi.object)
| SectionJSON (section : string) (data : ConfigApi.any)
| FieldsJSON (error : string) (fields : list string)
| PutJSON (r : ConfigApi.ConfigPutResult)
| ReloadJSON (r : ConfigApi.ReloadResult)
| Served (pattern : string) (username : option string).
Record Response : Type := MkResponse {
  status : Z; location : option string; hx_redirect : option string; cookies : list Cookie; content : body
}.
Definition respond (code : Z) (b : body) : Response := MkResponse code None None [] b.
Definition redirect (to : string) : Response := MkResponse 303 (Some to) None [] Empty.
Definition hx (code : Z) (to : string) : Response := MkResponse code None (Some to) [] Empty.
Definition set_cookies (r : Response) (l : list Cookie) : Response :=
  MkResponse (status r) (location r) (hx_redirect r) l (content r).

(** The values of the request context. *)
Record context : Type := MkCtx { ctxUsername : option string; ctxSessionToken : option string }.
Definition no_ctx : context := MkCtx None None.
Definition session_ctx (x : Session) : context := MkCtx (Some (s_Username x)) (Some (Token x)).
(** The user name of the context, unless it is missing or empty. *)
Definition ctx_user (c : context) : option string :=
  match ctxUsername c with Some u => if String.eqb u "" then None else Some u | None => None end.

Definition isHTMXRequest (r : Request) : bool := String.eqb (HXRequest r) "true".
Definition clientIP (r : Request) : string :=
  match SplitHostPort (RemoteAddr r) with Some (host, _) => host | None => RemoteAddr r end.
Definition isBcryptHash (s : string) : bool :=
  (strlen s =? 60) && (String.prefix "$2a$" s || String.prefix "$2b$" s || String.prefix "$2y$" s).
Definition session_cookie_of (x : Session) : Cookie := MkCookie "meshdesk_session" (Token x) 86400.
Definition clear_pending_cookie : Cookie := MkCookie twoFactorPendingCookie "" (-1).
Definition clear_session_cookie : Cookie := MkCookie "meshdesk_session" "" (-1).

(** What the world contributes to one request: the instant, the bytes of a
    new token, what the second factor draws and writes, and what writing the
    configuration file does. *)
Record env : Type := MkEnv { now : Z; token_rand : list byte; totp_env : Totp.env; files : ConfigApi.file_env }.

Section Handlers.
Context (hmac : list byte -> list byte -> list byte).
Context (gcm_seal : list byte -> list byte -> list byte -> list byte -> list byte).
Context (gcm_open : list byte -> list byte -> list byte -> list byte -> option (list byte)).
Context (marshal : Totp.persistedState -> list byte).
Context (bcryptCompare : string -> string -> bool) (error_text : Totp.totp_error -> string).
Context (yaml : ConfigApi.Yaml) (reloaders : list ConfigApi.ConfigReloader).

Definition alert (s : Server) (e : env) (r : Request) (sev : AlertSeverity) (type username desc : string) : Server :=
  set_alerts s (Add (alertStore s) (now e)
    (MkAlert 0 sev type username (RemoteAddr r) desc false)).1.

(** ** Login and logout (handlers.go) *)
Definition authenticate (s : Server) (username password : string) : bool :=
  match List.find (fun u => String.eqb (Config.Username u) username) (web_users s) with
  | Some user => isBcryptHash (Config.PasswordHash user) && bcryptCompare (Config.PasswordHash user) password
  | None => false
  end.

(** The attempt window of an address, opened anew after a minute. *)
Definition window (s : Server) (e : env) (ip : string) : loginAttempt :=
  match loginAttempts s !! ip with
  | Some att => if minute <? Totp.Sub (now e) (windowStart att) then MkAttempt 0 (now e) else att
  | None => MkAttempt 0 (now e)
  end.

Definition login_success (s : Server) (e : env) (username : string) : Server * Response :=
  if Totp.IsEnrolled (totpStore s) username then
    let pendingToken := generateToken (token_rand e) in
    (set_sess s (SetPending (sess s) (now e) pendingToken username),
     set_cookies (redirect "/login?2fa=1") [MkCookie twoFactorPendingCookie pendingToken 300])
  else
    let '(ss, session) := Create (sess s) (now e) (token_rand e) username in
    (set_sess s ss, set_cookies (redirect "/") [session_cookie_of session]).

Definition count_failure (s : Server) (ip : string) : Server :=
  match loginAttempts s !! ip with
  | Some att => set_attempts s (<[ip := MkAttempt (count att + 1) (windowStart att)]> (loginAttempts s))
  | None => s
  end.

Definition handleLogin (s : Server) (e : env) (r : Request) : Server * Response :=
  if String.eqb (Method r) "GET" then
    (s, respond 200 (if String.eqb (Query r "2fa") "1" then TwoFactorPage else LoginPage ""))
  else if String.eqb (Method r) "POST" then
    let ip := clientIP r in
    let att := window s e ip in
    let s := set_attempts s (<[ip := att]> (loginAttempts s)) in
    if 5 <=? count att then (s, respond 429 (Text "Too many login attempts — try again later")) else
    let username := FormValue r "username" in
    if authenticate s username (FormValue r "password")
    then login_success (set_attempts s (delete ip (loginAttempts s))) e username
    else
      (alert (count_failure s ip) e r AlertWarning "login_failure" username "failed login attempt",
       respond 200 (LoginPage "Invalid username or password"))
  else (s, respond 405 (Text "Method not allowed")).

Definition handleLogout (s : Server) (r : Request) : Server * Response :=
  let s := match session_cookie r with
           | Some t => set_sess (set_stepUp s (Revoke (stepUpStore s) t)) (Delete (sess s) t)
           | None => s
           end in
  let s := match pending_cookie r with
           | Some t => set_sess s (ClearPending (sess s) t)
           | None => s
           end in
  (s, set_cookies (redirect "/login") [clear_session_cookie; clear_pending_cookie]).

(** ** The second factor (handlers_2fa.go) *)

(** What [ok], [s] become when the method is wrong or no user is logged in. *)
Definition as_user (method : string) (s : Server) (c : context) (r : Request)
    (k : string -> Server * Response) : Server * Response :=
  if negb (String.eqb (Method r) method) then (s, respond 405 (Text "Method not allowed")) else
  match ctx_user c with None => (s, respond 401 (Text "Unauthorized")) | Some username => k username end.

Definition issuer (s : Server) : string :=
  if String.eqb (Config.TOTPIssuer (auth_config s)) "" then "MeshDesk" else Config.TOTPIssuer (auth_config s).
Definition enroll_response (s : Server) (username : string) (x : Totp.EnrollResult) : totpEnrollResponse :=
  MkEnrollResponse (Totp.Secret x) (Totp.QRURL (issuer s) username (Totp.Secret x)) "SHA256"
    Totp.totpDigits Totp.totpPeriod (Totp.er_RecoveryCodes x).

Definition handle2FAEnroll (s : Server) (e : env) (c : context) (r : Request) : Server * Response :=
  as_user "POST" s c r (fun username =>
  if Totp.IsEnrolled (totpStore s) username
  then (s, respond 409 (ErrorJSON "TOTP already enrolled. Disable first to re-enroll.")) else
  let '(t, res) := Totp.Enroll gcm_seal marshal (totpStore s) (totp_env e) username in
  let s := set_totp s t in
  match res with
  | Err err => (s, respond 500 (ErrorJSON (error_text err)))
  | Ok state =>
      (alert s e r AlertInfo "totp_enrollment" username "TOTP 2FA enrollment completed",
       respond 200 (EnrollJSON (enroll_response s username state)))
  end).

(** The promotion of a pending session to a full one. *)
Definition promote (s : Server) (e : env) (r : Request) (username pendingToken : string) : Server * Response :=
  let ss := ClearPending (sess s) pendingToken in
  let t := Totp.ClearFailedAttempts gcm_seal marshal (totpStore s) (totp_env e) username in
  let '(ss, session) := Create ss (now e) (token_rand e) username in
  (set_totp (set_sess s ss) t,
   set_cookies (if isHTMXRequest r then hx 200 "/" else redirect "/")
     [session_cookie_of session; clear_pending_cookie]).

Definition verify_code (s : Server) (e : env) (r : Request) (username pendingToken code : string) : Server * Response :=
  let '(t, valid) := Totp.ValidateCode hmac gcm_seal gcm_open marshal (totpStore s) (totp_env e) username code in
  let s := set_totp s t in
  if valid then promote s e r username pendingToken else
  let '(t, locked) := Totp.RecordFailedAttempt gcm_seal marshal (totpStore s) (totp_env e) username in
  let s := alert (set_totp s t) e r AlertWarning "totp_failure" username "failed TOTP verification attempt" in
  if locked
  then (alert s e r AlertCritical "totp_lockout" username "account locked after 5 failed TOTP attempts",
        respond 429 (ErrorJSON "Account locked after 5 failed attempts. Try again in 30 seconds."))
  else (s, respond 401 (ErrorJSON "Invalid TOTP code.")).

Definition verify_recovery (s : Server) (e : env) (r : Request) (username pendingToken recovery : string)
    : Server * Response :=
  let '(t, valid) := Totp.ConsumeRecoveryCode gcm_seal marshal (totpStore s) (totp_env e) username recovery in
  let s := set_totp s t in
  if valid
  then
    let '(s, resp) := promote s e r username pendingToken in
    (alert s e r AlertInfo "recovery_code_used" username "recovery code used to bypass TOTP", resp)
  else (alert s e r AlertWarning "recovery_failure" username "invalid recovery code attempt",
        respond 401 (ErrorJSON "Invalid recovery code.")).

Definition handle2FAVerify (s : Server) (e : env) (r : Request) : Server * Response :=
  if negb (String.eqb (Method r) "POST") then (s, respond 405 (Text "Method not allowed")) else
  match pending_cookie r with
  | None => (s, respond 401 (ErrorJSON "No 2FA pending session. Please log in again."))
  | Some token =>
      let '(ss, ps) := GetPending (sess s) (now e) token in
      let s := set_sess s ss in
      match ps with
      | None => (s, respond 401 (ErrorJSON "2FA session expired. Please log in again."))
      | Some ps =>
          let username := p_Username ps in
          let code := FormValue r "code" in
          let recovery := FormValue r "recovery" in
          if Totp.IsLocked (totpStore s) (now e) username
          then (alert s e r AlertCritical "totp_locked" username "TOTP attempt while account locked",
                respond 429 (ErrorJSON "Account locked. Try again in 30 seconds."))
          else if negb (String.eqb code "") then verify_code s e r username token code
          else if negb (String.eqb recovery "") then verify_recovery s e r username token recovery
          else (s, respond 400 (ErrorJSON "Provide either 'code' or 'recovery' field."))
      end
  end.

Definition handle2FADisable (s : Server) (e : env) (c : context) (r : Request) : Server * Response :=
  as_user "POST" s c r (fun username =>
  if negb (Totp.Exists (totpStore s) username) then (s, respond 404 (ErrorJSON "TOTP is not enrolled.")) else
  let s := set_totp s (Totp.Disable gcm_seal marshal (totpStore s) (totp_env e) username).1 in
  let s := match ctxSessionToken c with
           | Some token => if negb (String.eqb token "") then set_stepUp s (Revoke (stepUpStore s) token) else s
           | None => s
           end in
  (alert s e r AlertWarning "totp_disabled" username "TOTP 2FA disabled", respond 200 (Text "disabled"))).

Definition handle2FAStatus (s : Server) (e : env) (c : context) (r : Request) : Server * Response :=
  as_user "GET" s c r (fun username =>
  (s, respond 200 (StatusJSON (Totp.IsEnrolled (totpStore s) username)
                     (Totp.IsLocked (totpStore s) (now e) username)))).

Definition handle2FARotate (s : Server) (e : env) (c : context) (r : Request) : Server * Response :=
  as_user "POST" s c r (fun username =>
  let '(t, res) := Totp.InitiateRotation gcm_seal marshal (totpStore s) (totp_env e) username in
  let s := set_totp s t in
  match res with
  | Err err =>
      (alert s e r AlertWarning "totp_rotation_initiated" username
         ("TOTP rotation initiation failed: " +:+ error_text err)%string, respond 400 (ErrorJSON (error_text err)))
  | Ok result =>
      (alert s e r AlertWarning "totp_rotation_initiated" username "TOTP key rotation initiated — new secret generated, awaiting confirmation",
       respond 200 (EnrollJSON (enroll_response s username result)))
  end).

Definition handle2FARotateConfirm (s : Server) (e : env) (c : context) (r : Request) : Server * Response :=
  as_user "POST" s c r (fun username =>
  let code := FormValue r "code" in
  if String.eqb code "" then (s, respond 400 (ErrorJSON "Missing 'code' field.")) else
  let '(t, err) := Totp.ConfirmRotation hmac gcm_seal gcm_open marshal (totpStore s) (totp_env e) username code in
  let s := set_totp s t in
  match err with
  | Some err =>
      (alert s e r AlertWarning "totp_rotation_confirmed" username
         ("TOTP rotation confirmation failed: " +:+ error_text err)%string, respond 401 (ErrorJSON (error_text err)))
  | None => (alert s e r AlertInfo "totp_rotation_confirmed" username "TOTP key rotation confirmed — new secret activated, old secret discarded",
             respond 200 (Text "rotated"))
  end).

Definition handle2FARotateCancel (s : Server) (e : env) (c : context) (r : Request) : Server * Response :=
  as_user "POST" s c r (fun username =>
  let '(t, err) := Totp.CancelRotation gcm_seal marshal (totpStore s) (totp_env e) username in
  let s := set_totp s t in
  match err with
  | Some err =>
      (alert s e r AlertWarning "totp_rotation_cancelled" username
         ("TOTP rotation cancel failed: " +:+ error_text err)%string, respond 400 (ErrorJSON (error_text err)))
  | None => (alert s e r AlertInfo "totp_rotation_cancelled" username "TOTP key rotation cancelled — old secret restored",
             respond 200 (Text "cancelled"))
  end).

(** ** Step-up authentication *)
Definition handleStepUpChallenge (s : Server) (r : Request) : Server * Response :=
  let op := if String.eqb (Query r "op") "" then "unknown" else Query r "op" in
  (s, respond 200 (if String.eqb (Method r) "GET" then StepUpPage op false else Empty)).

Definition handleStepUpVerify (s : Server) (e : env) (c : context) (r : Request) : Server * Response :=
  if negb (String.eqb (Method r) "POST") then (s, respond 405 (Text "Method not allowed")) else
  let op := if String.eqb (Query r "op") "" then FormValue r "op" else Query r "op" in
  if String.eqb op "" then (s, respond 400 (Text "Missing 'op' parameter")) else
  match ctx_user c with
  | None => (s, respond 401 (Text "Unauthorized"))
  | Some username =>
      if negb (authenticate s username (FormValue r "password"))
      then (alert s e r AlertWarning "stepup_failure" username ("failed step-up auth for operation: " +:+ op)%string,
            respond 401 (StepUpPage op true)) else
      match ctxSessionToken c with
      | None => (s, respond 500 (Text "Session error"))
      | Some token =>
          if String.eqb token "" then (s, respond 500 (Text "Session error")) else
          (set_stepUp s (Grant (stepUpStore s) (now e) token [op]).1,
           if isHTMXRequest r then hx 200 "/" else redirect "/")
      end
  end.

(** ** Alerts *)
Definition handleAlertsList (s : Server) (r : Request) : Server * Response :=
  if negb (String.eqb (Method r) "GET") then (s, respond 405 (Text "Method not allowed"))
  else (s, respond 200 (AlertsJSON (List_ (alertStore s)))).
Definition handleAlertsDismiss (s : Server) (r : Request) : Server * Response :=
  if negb (String.eqb (Method r) "POST") then (s, respond 405 (Text "Method not allowed"))
  else (set_alerts s (DismissAll (alertStore s)), respond 200 (Text "dismissed")).

(** ** The configuration (handlers_config.go)

    The object [_meta] that accompanies the answers to a reader is fixed
    text and left out, as is the header that names the missing step-up. *)
Definition handleConfigGet (s : Server) (r : Request) : Server * Response :=
  let masked := ConfigApi.applyMasking (ConfigApi.configToMap yaml (cfg s)) in
  let section := Query r "section" in
  if String.eqb section "" then (s, respond 200 (ConfigJSON masked)) else
  if negb (existsb (String.eqb section) ConfigApi.validSections)
  then (s, respond 400 (ErrorJSON ("unknown section: " +:+ section)%string)) else
  match ConfigApi.obj_get section masked with
  | None => (s, respond 404 (ErrorJSON ("section not found: " +:+ section)%string))
  | Some data => (s, respond 200 (SectionJSON section data))
  end.

(** The checks of a change, the same for PUT and PATCH. *)
Definition check_change (s : Server) (e : env) (c : context) (body : ConfigApi.object)
    (apply : Server -> list string -> Server * Response) : Server * Response :=
  let paths := ConfigApi.collectFieldPaths (ConfigApi.AObject body) "" in
  match List.filter ConfigApi.isReadOnly paths with
  | (_ :: _) as l => (s, respond 400 (FieldsJSON "readonly_fields" l))
  | [] =>
      match List.filter (fun p => negb (ConfigApi.isKnownField p)) paths with
      | (_ :: _) as l => (s, respond 400 (FieldsJSON "unknown_fields" l))
      | [] =>
          match List.filter ConfigApi.isStepUp paths with
          | [] => apply s paths
          | (_ :: _) as l =>
              let '(st, ok) := Validate (stepUpStore s) (now e) (default "" (ctxSessionToken c)) OpSettings in
              let s := set_stepUp s st in
              if ok then apply s paths else (s, respond 403 (FieldsJSON "step_up_required" l))
          end
      end
  end.
Definition apply_change (s : Server) (e : env) (body : ConfigApi.object) (paths : list string) : Server * Response :=
  let '(m, c, res) := ConfigApi.applyConfigChanges yaml (configAPI s) (cfg s) (files e) body paths in
  (set_config s c m, respond 200 (PutJSON res)).

Definition handleConfigPut (s : Server) (e : env) (c : context) (r : Request) : Server * Response :=
  match JSONBody r with
  | Err t => (s, respond 400 (ErrorJSON ("invalid JSON: " +:+ t)%string))
  | Ok body =>
      let body := ConfigApi.obj_delete "_meta" body in
      check_change s e c body (fun s paths => apply_change s e body paths)
  end.
Definition handleConfigPatch (s : Server) (e : env) (c : context) (r : Request) : Server * Response :=
  match JSONBody r with
  | Err t => (s, respond 400 (ErrorJSON ("invalid JSON: " +:+ t)%string))
  | Ok body =>
      let patch := ConfigApi.obj_delete "_meta" body in
      check_change s e c patch (fun s paths =>
        apply_change s e (ConfigApi.mergePatchConfig yaml (cfg s) patch) paths)
  end.
Definition handleConfigAPI (s : Server) (e : env) (c : context) (r : Request) : Server * Response :=
  if String.eqb (Method r) "GET" then handleConfigGet s r
  else if String.eqb (Method r) "PUT" then handleConfigPut s e c r
  else if String.eqb (Method r) "PATCH" then handleConfigPatch s e c r
  else (s, respond 405 (ErrorJSON "method not allowed")).

(** Whether the last call is less than [d] ago. *)
Definition too_soon (last : option Z) (t d : Z) : bool :=
  match last with Some last => Totp.Sub t last <? d | None => false end.
Definition reloadInterval : Z := 5 * Totp.second.
Definition restartInterval : Z := 30 * Totp.second.
Definition handleConfigReload (s : Server) (e : env) (r : Request) : Server * Response :=
  if negb (String.eqb (Method r) "POST") then (s, respond 405 (ErrorJSON "method not allowed")) else
  let m := configAPI s in
  if too_soon (ConfigApi.lastReloadTime m) (now e) reloadInterval
  then (s, respond 429 (ErrorJSON "reload rate-limited — wait 5 seconds between reloads")) else
  let m := ConfigApi.set_reload_time m (now e) in
  let s := set_api s m in
  if String.eqb (ConfigApi.configPath m) "" then (s, respond 503 (ErrorJSON "config file path not configured")) else
  match ConfigApi.load yaml m with
  | Err err => (s, respond 500 (ErrorJSON ("reload: load config: " +:+ err)%string))
  | Ok newCfg =>
      let '(reg, res) := ConfigApi.Reload reloaders (ConfigApi.registry m) newCfg in
      (set_config s newCfg (ConfigApi.set_registry m reg), respond 200 (ReloadJSON res))
  end.
(** The restart itself, a signal to the process, follows the answer. *)
Definition handleConfigRestart (s : Server) (e : env) (c : context) (r : Request) : Server * Response :=
  if negb (String.eqb (Method r) "POST") then (s, respond 405 (ErrorJSON "method not allowed")) else
  let m := configAPI s in
  if too_soon (ConfigApi.lastRestartTime m) (now e) restartInterval
  then (s, respond 429 (ErrorJSON "restart rate-limited — wait 30 seconds between restarts")) else
  (set_api s (ConfigApi.set_restart_time m (now e)), respond 200 (Served "/api/config/restart" (ctxUsername c))).

(** [ReloadConfig], the reload on a signal. *)
Definition ReloadConfig (s : Server) (c : Config.Config) : Server :=
  let m := configAPI s in
  set_config s c (ConfigApi.set_registry m (ConfigApi.Reload reloaders (ConfigApi.registry m) c).1).

(** ** Middlewares (server.go, two_factor_enforcement.go) *)
Definition Handler : Type := Server -> env -> context -> Request -> Server * Response.

(** The session of the request's cookie. *)
Definition current (s : Server) (e : env) (r : Request) : Server * option Session :=
  match session_cookie r with
  | None => (s, None)
  | Some token => let '(ss, session) := Get (sess s) (now e) token in (set_sess s ss, session)
  end.

Definition public (path : string) : bool :=
  String.eqb path "/login" || String.eqb path "/logout" || String.eqb path "/join" ||
  String.eqb path "/api/join" || String.prefix "/static/" path || String.eqb path "/ws/terminal".

Definition authMiddleware (next : Handler) : Handler := fun s e c r =>
  if public (URLPath r) then next s e c r else
  match web_users s with
  | [] => next s e c r
  | _ =>
      match current s e r with
      | (s, None) => (s, redirect "/login")
      | (s, Some session) => next s e (session_ctx session) r
      end
  end.

Definition login_required (r : Request) : Response :=
  if isHTMXRequest r then hx 401 "/login" else redirect "/login".

Definition requireAuth (handler : Handler) : Handler := fun s e c r =>
  match web_users s with
  | [] => handler s e c r
  | _ =>
      match current s e r with
      | (s, None) => (s, login_required r)
      | (s, Some session) => handler s e (session_ctx session) r
      end
  end.

Definition sessionAuthMiddleware (next : Handler) : Handler := fun s e c r =>
  match web_users s with
  | [] => next s e c r
  | _ =>
      match current s e r with
      | (s, None) => (s, respond 401 (Text "Unauthorized"))
      | (s, Some session) => next s e (session_ctx session) r
      end
  end.

Definition challenge (operation : string) : string := ("/api/stepup/challenge?op=" +:+ operation)%string.
(** Whether the session holds a step-up token for the operation. *)
Definition stepped_up (s : Server) (e : env) (session : Session) (operation : string) : Server * bool :=
  let '(st, ok) := Validate (stepUpStore s) (now e) (Token session) operation in (set_stepUp s st, ok).

Definition requireStepUp (operation : string) (handler : Handler) : Handler := fun s e c r =>
  match web_users s with
  | [] => handler s e c r
  | _ =>
      match current s e r with
      | (s, None) => (s, login_required r)
      | (s, Some session) =>
          match stepped_up s e session operation with
          | (s, false) => (s, if isHTMXRequest r then hx 403 (challenge operation) else redirect (challenge operation))
          | (s, true) => handler s e (session_ctx session) r
          end
      end
  end.
Definition requireStepUpPage (operation : string) (handler : Handler) : Handler := fun s e c r =>
  match web_users s with
  | [] => handler s e c r
  | _ =>
      match current s e r with
      | (s, None) => (s, redirect "/login")
      | (s, Some session) =>
          match stepped_up s e session operation with
          | (s, false) => (s, redirect (challenge operation))
          | (s, true) => handler s e (session_ctx session) r
          end
      end
  end.
Definition stepUpMiddleware (operation : string) (next : Handler) : Handler := fun s e c r =>
  match web_users s with
  | [] => next s e c r
  | _ =>
      match current s e r with
      | (s, None) => (s, respond 403 (Text "Step-up authentication required"))
      | (s, Some session) =>
          match stepped_up s e session operation with
          | (s, false) => (s, respond 403 (Text "Step-up authentication required"))
          | (s, true) => next s e c r
          end
      end
  end.
Definition peerIDFromQueryMiddleware (next : Handler) : Handler := fun s e c r =>
  if String.eqb (Query r "node") "" then (s, respond 400 (Text "missing 'node' query parameter"))
  else next s e c r.

Definition exempt (path : string) : bool :=
  existsb (String.eqb path)
    ["/api/proxy/status"; "/api/2fa/enroll"; "/api/2fa/status"; "/api/2fa/verify"; "/api/alerts"; "/api/alerts/dismiss"].
Definition require2FAEnforcement (next : Handler) : Handler := fun s e c r =>
  if negb (Config.Require2FA (auth_config s)) then next s e c r else
  if exempt (URLPath r) then next s e c r else
  match ctx_user c with
  | None => next s e c r
  | Some username =>
      if Totp.IsEnrolled (totpStore s) username then next s e c r else
      (alert s e r AlertWarning "2fa_enforcement_block" username
         ("access blocked: 2FA enrollment required (Require2FA=true) for path: " +:+ URLPath r)%string,
       if isHTMXRequest r then hx 403 "/api/2fa/enroll"
       else if String.prefix "/api/" (URLPath r)
       then respond 403 (ErrorJSON "2FA enrollment required. Please complete TOTP enrollment at /api/2fa/enroll.")
       else redirect "/api/2fa/enroll")
  end.

(** ** Routes (server.go, registerRoutes) *)

(** A page outside of the model: all that is known is that it was served. *)
Definition serve_page (pattern : string) : Handler := fun s e c r =>
  (s, respond 200 (Served pattern (ctxUsername c))).
(** The capability check and the terminal behind it. *)
Definition terminalChain : Handler :=
  sessionAuthMiddleware (stepUpMiddleware OpTerminal (peerIDFromQueryMiddleware (serve_page "/ws/terminal"))).

Definition routes : list (string * Handler) :=
  [("/static/", serve_page "/static/");
   ("/login", fun s e c r => handleLogin s e r);
   ("/logout", fun s e c r => handleLogout s r);
   ("/api/2fa/verify", fun s e c r => handle2FAVerify s e r);
   ("/api/2fa/enroll", requireAuth handle2FAEnroll);
   ("/api/2fa/disable", requireAuth handle2FADisable);
   ("/api/2fa/status", requireAuth handle2FAStatus);
   ("/api/2fa/rotate", requireAuth handle2FARotate);
   ("/api/2fa/rotate/confirm", requireAuth handle2FARotateConfirm);
   ("/api/2fa/rotate/cancel", requireAuth handle2FARotateCancel);
   ("/api/stepup/challenge", requireAuth (fun s e c r => handleStepUpChallenge s r));
   ("/api/stepup/verify", requireAuth handleStepUpVerify);
   ("/api/alerts", requireAuth (fun s e c r => handleAlertsList s r));
   ("/api/alerts/dismiss", requireAuth (fun s e c r => handleAlertsDismiss s r));
   ("/api/config/restart", requireAuth (requireStepUp OpSettings handleConfigRestart));
   ("/api/config", requireAuth handleConfigAPI);
   ("/api/config/reload", requireAuth (fun s e c r => handleConfigReload s e r));
   ("/api/files/upload", requireAuth (requireStepUp OpFileUpload (serve_page "/api/files/upload")));
   ("/api/files/copy", requireAuth (requireStepUp OpFileUpload (serve_page "/api/files/copy")));
   ("/api/files/distribute", requireAuth (requireStepUp OpFileUpload (serve_page "/api/files/distribute")));
   ("/api/update/start", requireAuth (requireStepUp OpFileUpload (serve_page "/api/update/start")));
   ("/api/services/start", requireAuth (requireStepUp OpServiceManage (serve_page "/api/services/start")));
   ("/api/services/stop", requireAuth (requireStepUp OpServiceManage (serve_page "/api/services/stop")));
   ("/api/services/restart", requireAuth (requireStepUp OpServiceManage (serve_page "/api/services/restart")));
   ("/terminal", requireAuth (requireStepUpPage OpTerminal (serve_page "/terminal")));
   ("/ws/terminal", terminalChain);
   ("/api/version", serve_page "/api/version");
   ("/api/join/install.sh", serve_page "/api/join/install.sh");
   ("/join", serve_page "/join");
   ("/api/join", serve_page "/api/join")] ++
  ((fun p => (p, requireAuth (serve_page p))) <$>
   ["/api/proxy/status"; "/api/proxy/socks5/status"; "/api/config/diff";
    "/api/events"; "/api/topology"; "/api/topology/events"; "/api/peers"; "/api/monitor"; "/api/dashboard/partial";
    "/api/files/list"; "/api/files/browse"; "/api/files/read"; "/api/update/plan"; "/api/update/status";
    "/api/services/list"; "/api/stats"; "/api/join/token"; "/"; "/nodes"; "/nodes/"; "/files"; "/update";
    "/services"; "/peers"; "/topology"; "/config"; "/proxy"; "/acl"; "/alerts"; "/api/acl/status";
    "/api/acl/rules"; "/api/acl/engine"]).

(** The choice of a [http.ServeMux]: a pattern that ends in a slash stands
    for the paths below it, and the longest pattern wins. *)
Definition ends_in_slash (p : string) : bool :=
  bool_decide (last (bytes_of_string p) = Some Path.sep).
Definition pattern_matches (pattern path : string) : bool :=
  String.eqb pattern path || (ends_in_slash pattern && String.prefix pattern path).
Definition longest (path : string) (best : option (string * Handler)) (route : string * Handler)
    : option (string * Handler) :=
  if pattern_matches route.1 path
  then match best with
       | Some b => if strlen b.1 <? strlen route.1 then Some route else best
       | None => Some route
       end
  else best.
Definition find_route (path : string) : option (string * Handler) := foldl (longest path) None routes.

(** The path the mux insists on; any other is redirected to it. *)
Definition cleanPath (p : string) : string :=
  if String.eqb p "" then "/" else
  let p := if String.prefix "/" p then p else ("/" +:+ p)%string in
  let np := Path.Clean p in
  if ends_in_slash p && negb (String.eqb np "/") then (np +:+ "/")%string else np.
Definition mux : Handler := fun s e c r =>
  let path := cleanPath (URLPath r) in
  if negb (String.eqb path (URLPath r)) then (s, MkResponse 301 (Some path) None [] Empty) else
  match find_route path with
  | None => (s, respond 404 (Text "404 page not found"))
  | Some (pattern, h) =>
      if negb (String.eqb pattern path) && negb (ends_in_slash path) &&
         existsb (fun route => String.eqb route.1 (path +:+ "/")%string) routes
      then (s, MkResponse 301 (Some (path +:+ "/")%string) None [] Empty) else h s e c r
  end.

(** The handler of [Start]; [recoverMiddleware] acts on panics only. *)
Definition serve (s : Server) (e : env) (r : Request) : Server * Response :=
  authMiddleware (require2FAEnforcement mux) s e no_ctx r.

(** ** What one request may change *)

(** The proofs of identity that earn the session [x]: the password of a user
    without a second factor, or a live pending session and a code. *)
Definition earned (s : Server) (e : env) (r : Request) (x : Session) : Prop :=
  CreatedAt x = now e /\ s_ExpiresAt x = now e + 24 * 60 * minute /\
  ((s_Username x = FormValue r "username" /\ authenticate s (s_Username x) (FormValue r "password") = true /\
    Totp.IsEnrolled (totpStore s) (s_Username x) = false) \/
   exists token ps, pending_cookie r = Some token /\ pending (sess s) !! token = Some ps /\
     now e <= p_ExpiresAt ps /\ s_Username x = p_Username ps /\
     Totp.IsLocked (totpStore s) (now e) (p_Username ps) = false /\
     ((Totp.ValidateCode hmac gcm_seal gcm_open marshal (totpStore s) (totp_env e) (p_Username ps)
         (FormValue r "code")).2 = true \/
      (Totp.ConsumeRecoveryCode gcm_seal marshal (totpStore s) (totp_env e) (p_Username ps)
         (FormValue r "recovery")).2 = true)).

(** A pending session is given for the password of an enrolled user. *)
Definition half_earned (s : Server) (e : env) (r : Request) (p : pendingSession) : Prop :=
  p_ExpiresAt p = now e + twoFactorPendingTTL /\ p_Username p = FormValue r "username" /\
  authenticate s (p_Username p) (FormValue r "password") = true /\
  Totp.IsEnrolled (totpStore s) (p_Username p) = true.

(** A step-up token is given to a live session whose user enters the
    password again. *)
Definition stepped (s : Server) (e : env) (r : Request) (t : string) (tok : stepUpToken) : Prop :=
  exists k x, sessions (sess s) !! k = Some x /\ now e <= s_ExpiresAt x /\ Token x = t /\
    authenticate s (s_Username x) (FormValue r "password") = true /\
    GrantedAt tok = now e /\ t_ExpiresAt tok = now e + defaultStepUpTimeout.

(** The request speaks for the session with token [t]; before the first web
    user is configured every request does. *)
Definition speaks_for (s : Server) (e : env) (r : Request) (t : string) : Prop :=
  web_users s = [] \/
  exists k x, session_cookie r = Some k /\ sessions (sess s) !! k = Some x /\ now e <= s_ExpiresAt x /\ t = Token x.

(** The configuration is replaced by the merge of a body without read-only
    and unknown fields, with a live step-up token if it names a field that
    needs one, or by the file when a reload asks for it. *)
Definition change_of (s : Server) (r : Request) (body change : ConfigApi.object) : Prop :=
  (Method r = "PUT" /\ change = body) \/ (Method r = "PATCH" /\ change = ConfigApi.mergePatchConfig yaml (cfg s) body).
Definition put_config (s : Server) (e : env) (r : Request) (t : string) (c : Config.Config) : Prop :=
  exists json change, JSONBody r = Ok json /\
  let body := ConfigApi.obj_delete "_meta" json in
  let paths := ConfigApi.collectFieldPaths (ConfigApi.AObject body) "" in
  Forall (fun p => ConfigApi.isReadOnly p = false /\ ConfigApi.isKnownField p = true) paths /\
  (Exists (fun p => ConfigApi.isStepUp p = true) paths -> exists tok, stepUpStore s !! t = Some tok /\
     now e <= t_ExpiresAt tok /\ OpSettings ∈ Operations tok) /\
  change_of s r body change /\
  c = ConfigApi.mergeConfigMaps yaml (ConfigApi.current_config yaml (configAPI s) (cfg s)) change.
Definition reload_config (s : Server) (e : env) (r : Request) (c : Config.Config) : Prop :=
  Method r = "POST" /\ ConfigApi.configPath (configAPI s) <> "" /\ ConfigApi.load yaml (configAPI s) = Ok c /\
  forall last, ConfigApi.lastReloadTime (configAPI s) = Some last -> reloadInterval <= Totp.Sub (now e) last.
Definition reconfigured (s : Server) (e : env) (r : Request) (c : Config.Config) : Prop :=
  exists t, speaks_for s e r t /\
    ((URLPath r = "/api/config" /\ put_config s e r t c) \/ (URLPath r = "/api/config/reload" /\ reload_config s e r c)).

Definition allowed (s : Server) (e : env) (r : Request) (s' : Server) : Prop :=
  (cfg s' = cfg s \/ reconfigured s e r (cfg s')) /\
  (forall t x, sessions (sess s') !! t = Some x ->
     sessions (sess s) !! t = Some x \/ (t = generateToken (token_rand e) /\ Token x = t /\ earned s e r x)) /\
  (forall t p, pending (sess s') !! t = Some p ->
     pending (sess s) !! t = Some p \/ (t = generateToken (token_rand e) /\ half_earned s e r p)) /\
  (forall t tok, stepUpStore s' !! t = Some tok -> stepUpStore s !! t = Some tok \/ stepped s e r t tok).

(** Nothing but second factors, alerts, login attempts and expired or
    revoked entries. *)
Definition shrinks (s s' : Server) : Prop :=
  cfg s' = cfg s /\ sessions (sess s') ⊆ sessions (sess s) /\ pending (sess s') ⊆ pending (sess s) /\
  stepUpStore s' ⊆ stepUpStore s.

Lemma shrinks_refl s : shrinks s s.
Proof. done. Qed.
Lemma shrinks_trans s1 s2 s3 : shrinks s1 s2 -> shrinks s2 s3 -> shrinks s1 s3.
Proof.
  intros (A1 & A2 & A3 & A4) (B1 & B2 & B3 & B4). split; [congruence|].
  split; [by etrans|]. split; by etrans.
Qed.
Lemma allowed_shrinks s e r s' : shrinks s s' -> allowed s e r s'.
Proof.
  intros (H1 & H2 & H3 & H4). split; [by left|]. split; [|split]; intros t x Hx; left; by eapply lookup_weaken.
Qed.

Lemma alert_shrinks s e r sev type u d : shrinks s (alert s e r sev type u d).
Proof. done. Qed.

(** A change of the session store after one that only shrinks. *)
Lemma current_shrinks s e r : shrinks s (current s e r).1 /\ totpStore (current s e r).1 = totpStore s.
Proof.
  unfold current, Get. destruct (session_cookie r) as [t|]; [|done].
  destruct (sessions (sess s) !! t) as [x|]; [|by destruct s as [? ? [] ? ? ? ?]]. destruct (s_ExpiresAt x <? now e);
    [|by destruct s as [? ? [] ? ? ? ?]].
  split; [|done]. split; [done|]. split; [|done]. apply delete_subseteq.
Qed.

(** The context of a handler names a live session of the server, if any. *)
Definition ctx_ok (s : Server) (e : env) (c : context) : Prop :=
  c = no_ctx \/ exists k x, c = session_ctx x /\ sessions (sess s) !! k = Some x /\ now e <= s_ExpiresAt x.

Lemma current_ctx_ok s e r s' x : current s e r = (s', Some x) -> ctx_ok s' e (session_ctx x) /\
  exists k, sessions (sess s) !! k = Some x /\ session_cookie r = Some k /\ now e <= s_ExpiresAt x /\ s' = s.
Proof.
  unfold current, Get. destruct (session_cookie r) as [t|]; [|done].
  destruct (sessions (sess s) !! t) as [y|] eqn:Hy; [|done]. destruct (s_ExpiresAt y <? now e) eqn:He; [done|]. intros [= <- <-]. to_prop.
  assert (set_sess s (sess s) = s) as -> by by destruct s.
  split; [|exists t; split_and!; done]. right. exists t, y. done.
Qed.

Lemma stepped_up_cases s e x op s' b : stepped_up s e x op = (s', b) -> shrinks s s' /\ totpStore s' = totpStore s /\
  (b = true -> s' = s /\ exists tok, stepUpStore s !! Token x = Some tok /\ now e <= t_ExpiresAt tok /\ op ∈ Operations tok).
Proof.
  unfold stepped_up, Validate. destruct (stepUpStore s !! Token x) as [tok|] eqn:Ht.
  2:{ intros [= <- <-]. done. }
  destruct (t_ExpiresAt tok <? now e) eqn:He; intros [= <- <-].
  - split; [|done]. split; [done|]. split; [done|]. split; [done|]. apply delete_subseteq.
  - split; [done|]. split; [done|]. intros H. split; [by destruct s|]. exists tok. to_prop.
    split; [done|]. split; [done|]. apply existsb_exists in H as (o & Ho & ->%String.eqb_eq).
    by apply list_elem_of_In.
Qed.

(** The mux picks one of the routes, and one whose pattern matches. *)
Lemma find_route_in path p h : find_route path = Some (p, h) -> (p, h) ∈ routes /\ pattern_matches p path = true.
Proof.
  unfold find_route. enough (forall rs best, (forall b, best = Some b -> b ∈ routes /\ pattern_matches b.1 path = true) ->
    (forall x, x ∈ rs -> x ∈ routes) -> forall b, foldl (longest path) best rs = Some b ->
    b ∈ routes /\ pattern_matches b.1 path = true) as H
    by (intros Hf; by apply (H routes None ltac:(done) ltac:(done) (p, h))).
  induction rs as [|x rs IH]; intros best Hb Hrs b; cbn [foldl]; [apply Hb|].
  apply IH; [|intros y Hy; apply Hrs; by right]. intros y. unfold longest.
  destruct (pattern_matches x.1 path) eqn:Hm; [|apply Hb].
  assert (x ∈ routes) by (apply Hrs; by left).
  destruct best as [z|]; [case_match|]; intros Hy; try (by apply Hb); by injection Hy as <-.
Qed.

(** A handler that, run on a well-formed context, relates the state before
    and after as [Q] says. *)
Definition guards (Q : Server -> env -> Request -> Server -> Prop) (h : Handler) : Prop :=
  forall s e c r, ctx_ok s e c -> Q s e r (h s e c r).1.

(** The same for the requests whose path a pattern matches. *)
Definition guards_at (p : string) (Q : Server -> env -> Request -> Server -> Prop) (h : Handler) : Prop :=
  forall s e c r, ctx_ok s e c -> pattern_matches p (URLPath r) = true -> Q s e r (h s e c r).1.
Lemma guards_anywhere Q p h : guards Q h -> guards_at p Q h.
Proof. intros H s e c r Hc _. by apply H. Qed.

(** The middlewares run their handler on the same state and a context that
    names a live session, or answer themselves. *)
Section Middlewares.
Context (Q : Server -> env -> Request -> Server -> Prop).
Context (Q_shrinks : forall s e r s', shrinks s s' -> totpStore s' = totpStore s -> Q s e r s').

Lemma Q_refl s e r : Q s e r s.
Proof. apply Q_shrinks; [apply shrinks_refl|done]. Qed.

Lemma current_cases s e r :
  match current s e r with
  | (s', None) => Q s e r s'
  | (s', Some x) => s' = s /\ ctx_ok s e (session_ctx x)
  end.
Proof.
  pose proof (current_shrinks s e r) as [Hs Ht]. destruct (current s e r) as [s' [x|]] eqn:Hcur.
  - apply current_ctx_ok in Hcur as (Hx & _ & _ & _ & _ & ->). done.
  - by apply Q_shrinks.
Qed.

Lemma serve_page_guards p : guards Q (serve_page p).
Proof. intros s e c r _. apply Q_refl. Qed.

Lemma requireAuth_guards h : guards Q h -> guards Q (requireAuth h).
Proof.
  intros Hh s e c r Hc. unfold requireAuth. destruct (web_users s); [by apply Hh|].
  pose proof (current_cases s e r) as H. destruct (current s e r) as [s' [x|]]; [|done].
  destruct H as [-> Hx]. by apply Hh.
Qed.
Lemma sessionAuth_guards h : guards Q h -> guards Q (sessionAuthMiddleware h).
Proof.
  intros Hh s e c r Hc. unfold sessionAuthMiddleware. destruct (web_users s); [by apply Hh|].
  pose proof (current_cases s e r) as H. destruct (current s e r) as [s' [x|]]; [|done].
  destruct H as [-> Hx]. by apply Hh.
Qed.

(** The part the step-up guards share. *)
Lemma step_up_guards op (refused1 refused2 : Request -> Response) (pass : context -> Session -> context) h :
  guards Q h -> (forall s e c x, ctx_ok s e c -> ctx_ok s e (session_ctx x) -> ctx_ok s e (pass c x)) ->
  guards Q (fun s e c r =>
    match web_users s with
    | [] => h s e c r
    | _ =>
        match current s e r with
        | (s, None) => (s, refused1 r)
        | (s, Some session) =>
            match stepped_up s e session op with
            | (s, false) => (s, refused2 r)
            | (s, true) => h s e (pass c session) r
            end
        end
    end).
Proof.
  intros Hh Hp s e c r Hc. destruct (web_users s); [by apply Hh|].
  pose proof (current_cases s e r) as H. destruct (current s e r) as [s' [x|]]; [|done].
  destruct H as [-> Hx].
  destruct (stepped_up s e x op) as [s' b] eqn:Hst. apply stepped_up_cases in Hst as (Hsh & Ht & Hb).
  destruct b; [|by apply Q_shrinks]. destruct (Hb eq_refl) as [-> _]. apply Hh. by apply Hp.
Qed.
Lemma requireStepUp_guards op h : guards Q h -> guards Q (requireStepUp op h).
Proof. intros Hh. by apply (step_up_guards op login_required _ (fun _ x => session_ctx x)). Qed.
Lemma requireStepUpPage_guards op h : guards Q h -> guards Q (requireStepUpPage op h).
Proof.
  intros Hh. by apply (step_up_guards op (fun _ => redirect "/login") (fun _ => redirect (challenge op))
    (fun _ x => session_ctx x)).
Qed.
Lemma stepUpMiddleware_guards op h : guards Q h -> guards Q (stepUpMiddleware op h).
Proof.
  intros Hh. by apply (step_up_guards op (fun _ => respond 403 (Text "Step-up authentication required"))
    (fun _ => respond 403 (Text "Step-up authentication required")) (fun c _ => c)).
Qed.

Lemma terminal_guards : guards Q terminalChain.
Proof.
  apply sessionAuth_guards, stepUpMiddleware_guards. intros s e c r Hc. unfold peerIDFromQueryMiddleware.
  destruct (String.eqb _ ""); [apply Q_refl|by apply serve_page_guards].
Qed.

Lemma enforcement_guards h : guards Q h -> guards Q (require2FAEnforcement h).
Proof.
  intros Hh s e c r Hc. unfold require2FAEnforcement. destruct (negb _); [by apply Hh|].
  destruct (exempt _); [by apply Hh|]. destruct (ctx_user c); [|by apply Hh].
  destruct (Totp.IsEnrolled _ _); [by apply Hh|by apply Q_shrinks].
Qed.

Lemma as_user_guards method s e c r k : ctx_ok s e c ->
  (forall u, ctx_user c = Some u -> Q s e r (k u).1) -> Q s e r (as_user method s c r k).1.
Proof.
  intros Hc Hk. unfold as_user. destruct (negb _); [apply Q_refl|].
  destruct (ctx_user c) as [u|]; [auto|apply Q_refl].
Qed.

(** The handlers a route may lead to. *)
Definition handlers_guard : Prop :=
  guards Q (fun s e c r => handleLogin s e r) /\ guards Q (fun s e c r => handleLogout s r) /\
  guards Q (fun s e c r => handle2FAVerify s e r) /\ guards Q handle2FAEnroll /\ guards Q handle2FADisable /\
  guards Q handle2FAStatus /\ guards Q handle2FARotate /\ guards Q handle2FARotateConfirm /\
  guards Q handle2FARotateCancel /\ guards Q (fun s e c r => handleStepUpChallenge s r) /\
  guards Q handleStepUpVerify /\ guards Q (fun s e c r => handleAlertsList s r) /\
  guards Q (fun s e c r => handleAlertsDismiss s r) /\ guards Q handleConfigRestart /\
  guards_at "/api/config" Q (requireAuth handleConfigAPI) /\
  guards_at "/api/config/reload" Q (requireAuth (fun s e c r => handleConfigReload s e r)).

Context (Q_handlers : handlers_guard).

Lemma routes_guard : Forall (fun route => guards_at route.1 Q route.2) routes.
Proof.
  destruct Q_handlers as (H1 & H2 & H3 & H4 & H5 & H6 & H7 & H8 & H9 & H10 & H11 & H12 & H13 & H14 & H15 & H16).
  pose proof terminal_guards. pose proof serve_page_guards. pose proof requireAuth_guards.
  pose proof requireStepUp_guards. pose proof requireStepUpPage_guards.
  unfold routes. apply Forall_app. split.
  - repeat (apply Forall_cons; split; [cbn [fst snd]; lazymatch goal with
      | |- guards_at "/api/config" _ _ => exact H15
      | |- guards_at "/api/config/reload" _ _ => exact H16
      | _ => apply guards_anywhere; auto
      end|]); constructor.
  - apply Forall_fmap, Forall_forall. intros p _. apply guards_anywhere. cbn. auto.
Qed.

Lemma mux_guards : guards Q mux.
Proof.
  intros s e c r Hc. unfold mux. cbv zeta. destruct (String.eqb_spec (cleanPath (URLPath r)) (URLPath r)) as [->|];
    [cbn [negb]|apply Q_refl].
  destruct (find_route _) as [[p h]|] eqn:Hf; [|apply Q_refl]. destruct (_ && _); [apply Q_refl|].
  apply find_route_in in Hf as [Hin Hm]. by apply (proj1 (Forall_forall _ _) routes_guard _ Hin).
Qed.

Lemma serve_guards s e r : Q s e r (serve s e r).1.
Proof.
  unfold serve, authMiddleware. pose proof (enforcement_guards _ mux_guards) as Hg.
  destruct (public _); [apply Hg; by left|]. destruct (web_users s); [apply Hg; by left|].
  pose proof (current_cases s e r) as H. destruct (current s e r) as [s' [x|]]; [|done].
  destruct H as [-> Hx]. by apply Hg.
Qed.
End Middlewares.

(** ** The handlers *)

Ltac answered := apply allowed_shrinks, shrinks_refl.
Lemma allowed_purged s e r s' : shrinks s s' -> totpStore s' = totpStore s -> allowed s e r s'.
Proof. intros H _. by apply allowed_shrinks. Qed.

Lemma login_guards : guards allowed (fun s e c r => handleLogin s e r).
Proof.
  intros s e c r _. unfold handleLogin. destruct (String.eqb _ "GET"); [answered|].
  destruct (String.eqb _ "POST"); [|answered]. destruct (5 <=? _); [by apply allowed_shrinks|].
  set (s1 := set_attempts s _). change (authenticate s1) with (authenticate s).
  destruct (authenticate s _ _) eqn:Ha; cycle 1.
  { apply allowed_shrinks. unfold count_failure. cbn. by destruct (_ !! clientIP r). }
  unfold login_success. cbn [totpStore set_attempts s1]. destruct (Totp.IsEnrolled _ _) eqn:He; cbn.
  - split; [by left|]. split; [auto|]. split; [|auto]. intros t p Hp. cbn in Hp.
    apply lookup_insert_Some in Hp as [[<- <-]|[_ Hp]]; [right|by left]. split; [done|]. by split_and!.
  - split; [by left|]. split; [|auto]. intros t x Hx. cbn in Hx.
    apply lookup_insert_Some in Hx as [[<- <-]|[_ Hx]]; [right|by left].
    split; [done|]. split; [done|]. split; [done|]. split; [done|]. by left.
Qed.

Lemma logout_guards : guards allowed (fun s e c r => handleLogout s r).
Proof.
  intros s e c r _. apply allowed_shrinks. unfold handleLogout.
  destruct (session_cookie r), (pending_cookie r); cbn; split_and!; cbn; try done; apply delete_subseteq.
Qed.

Lemma enroll_guards : guards allowed handle2FAEnroll.
Proof.
  intros s e c r Hc. apply (as_user_guards allowed allowed_purged); [done|]. intros u _. destruct (Totp.IsEnrolled _ _); [answered|].
  destruct (Totp.Enroll _ _ _ _ _) as [t [x|err]]; by apply allowed_shrinks.
Qed.

Lemma disable_guards : guards allowed handle2FADisable.
Proof.
  intros s e c r Hc. apply (as_user_guards allowed allowed_purged); [done|]. intros u _. destruct (negb _); [answered|].
  apply allowed_shrinks. destruct (ctxSessionToken c); [|done].
  destruct (negb _); [|done]. split; [done|]. split; [done|]. split; [done|]. apply delete_subseteq.
Qed.

Lemma status_guards : guards allowed handle2FAStatus.
Proof. intros s e c r Hc. apply (as_user_guards allowed allowed_purged); [done|]. intros u _. answered. Qed.

Lemma rotate_guards : guards allowed handle2FARotate.
Proof.
  intros s e c r Hc. apply (as_user_guards allowed allowed_purged); [done|]. intros u _.
  destruct (Totp.InitiateRotation _ _ _ _ _) as [t [x|err]]; by apply allowed_shrinks.
Qed.
Lemma confirm_guards : guards allowed handle2FARotateConfirm.
Proof.
  intros s e c r Hc. apply (as_user_guards allowed allowed_purged); [done|]. intros u _. cbv zeta. destruct (String.eqb _ ""); [answered|].
  destruct (Totp.ConfirmRotation hmac gcm_seal gcm_open marshal (totpStore s) (totp_env e) u (FormValue r "code")) as [t [err|]]; by apply allowed_shrinks.
Qed.
Lemma cancel_guards : guards allowed handle2FARotateCancel.
Proof.
  intros s e c r Hc. apply (as_user_guards allowed allowed_purged); [done|]. intros u _.
  destruct (Totp.CancelRotation _ _ _ _ _) as [t [err|]]; by apply allowed_shrinks.
Qed.

Lemma stepup_guards : guards allowed handleStepUpVerify.
Proof.
  intros s e c r Hc. unfold handleStepUpVerify. destruct (negb _); [answered|].
  destruct (String.eqb _ "") eqn:Hop; [answered|]. destruct (ctx_user c) as [u|] eqn:Hu; [|answered].
  destruct (authenticate s u _) eqn:Ha; cbn [negb]; [|by apply allowed_shrinks].
  destruct (ctxSessionToken c) as [t|] eqn:Ht; [|answered]. destruct (String.eqb t ""); [answered|].
  split; [by left|]. split; [auto|]. split; [auto|]. intros t' tok Htok. cbn in Htok.
  apply lookup_insert_Some in Htok as [[<- <-]|[_ Htok]]; [right|by left].
  destruct Hc as [->|(k & x & -> & Hk & He)]; [done|]. exists k, x. cbn in Ht. injection Ht as <-.
  unfold ctx_user in Hu. cbn in Hu. destruct (String.eqb (s_Username x) ""); [done|]. injection Hu as <-.
  by split_and!.
Qed.

(** A promotion creates the one session that was earned. *)
Lemma promote_allowed s s1 e r u t ps : shrinks s s1 -> pending_cookie r = Some t ->
  pending (sess s) !! t = Some ps -> now e <= p_ExpiresAt ps -> u = p_Username ps ->
  Totp.IsLocked (totpStore s) (now e) u = false ->
  ((Totp.ValidateCode hmac gcm_seal gcm_open marshal (totpStore s) (totp_env e) u (FormValue r "code")).2 = true \/
   (Totp.ConsumeRecoveryCode gcm_seal marshal (totpStore s) (totp_env e) u (FormValue r "recovery")).2 = true) ->
  allowed s e r (promote s1 e r u t).1.
Proof.
  intros (H1 & H2 & H3 & H4) Hc Hp He -> Hl Hok. unfold promote. cbn. split; [by left|]. split; [|split]; cbn.
  - intros k x Hx. apply lookup_insert_Some in Hx as [[<- <-]|[_ Hx]]; [|left; by eapply lookup_weaken].
    right. split; [done|]. split; [done|]. split; [done|]. split; [done|]. right. exists t, ps. by split_and!.
  - intros k p Hk. apply lookup_delete_Some in Hk as [_ Hk]. left. by eapply lookup_weaken.
  - intros k tok Hk. left. by eapply lookup_weaken.
Qed.

Lemma verify_guards : guards allowed (fun s e c r => handle2FAVerify s e r).
Proof.
  intros s e c r _. unfold handle2FAVerify. destruct (negb _); [answered|].
  destruct (pending_cookie r) as [t|] eqn:Hck; [|answered].
  unfold GetPending. destruct (pending (sess s) !! t) as [ps|] eqn:Hp.
  2:{ by apply allowed_shrinks. }
  destruct (p_ExpiresAt ps <? now e) eqn:He.
  { apply allowed_shrinks. split; [done|]. split; [done|]. split; [|done]. apply delete_subseteq. }
  to_prop. assert (set_sess s (sess s) = s) as -> by by destruct s. cbv zeta.
  destruct (Totp.IsLocked _ _ _) eqn:Hl; [by apply allowed_shrinks|].
  destruct (negb _); [|destruct (negb _); [|answered]].
  - unfold verify_code.
    destruct (Totp.ValidateCode _ _ _ _ _ _ _ _) as [tt b] eqn:Hv. destruct b.
    + apply (promote_allowed s _ _ _ _ t ps); try done. left. by rewrite Hv.
    + destruct (Totp.RecordFailedAttempt _ _ _ _ _) as [t2 [|]]; by apply allowed_shrinks.
  - unfold verify_recovery.
    destruct (Totp.ConsumeRecoveryCode _ _ _ _ _ _) as [tt b] eqn:Hv. destruct b; [|by apply allowed_shrinks].
    assert (allowed s e r (promote (set_totp s tt) e r (p_Username ps) t).1) as Ha.
    { apply (promote_allowed s _ _ _ _ t ps); try done. right. by rewrite Hv. }
    destruct (promote _ _ _ _ _) as [s' resp]. exact Ha.
Qed.

Lemma alerts_guards : guards allowed (fun s e c r => handleAlertsList s r).
Proof. intros s e c r _. unfold handleAlertsList. destruct (negb _); answered. Qed.
Lemma dismiss_guards : guards allowed (fun s e c r => handleAlertsDismiss s r).
Proof. intros s e c r _. unfold handleAlertsDismiss. destruct (negb _); by apply allowed_shrinks. Qed.
Lemma challenge_guards : guards allowed (fun s e c r => handleStepUpChallenge s r).
Proof. intros s e c r _. answered. Qed.
Lemma restart_guards : guards allowed handleConfigRestart.
Proof.
  intros s e c r _. apply allowed_shrinks. unfold handleConfigRestart. destruct (negb _); [done|]. by destruct (too_soon _ _ _).
Qed.

(** *** The configuration *)

Lemma filter_nil_Forall {A} (f : A -> bool) l : List.filter f l = [] -> Forall (fun x => f x = false) l.
Proof.
  induction l as [|x l IH]; cbn; [by constructor|]. destruct (f x) eqn:Hf; [done|]. intros H. constructor; auto.
Qed.

(** The checks let a change through only with fields it may have, and in a
    state that differs by an expired step-up token at most. *)
Lemma check_change_cases (P : Server -> Prop) s e c body apply :
  (forall s', shrinks s s' -> totpStore s' = totpStore s -> P s') ->
  (forall paths, paths = ConfigApi.collectFieldPaths (ConfigApi.AObject body) "" ->
     Forall (fun p => ConfigApi.isReadOnly p = false /\ ConfigApi.isKnownField p = true) paths ->
     (Exists (fun p => ConfigApi.isStepUp p = true) paths -> exists tok,
        stepUpStore s !! default "" (ctxSessionToken c) = Some tok /\
        now e <= t_ExpiresAt tok /\ OpSettings ∈ Operations tok) ->
     P (apply s paths).1) ->
  P (check_change s e c body apply).1.
Proof.
  intros Hrefuse Hpass. unfold check_change. set (paths := ConfigApi.collectFieldPaths _ _).
  destruct (List.filter ConfigApi.isReadOnly paths) eqn:Hro; [|by apply Hrefuse].
  destruct (List.filter _ paths) eqn:Hkn in |- *; [|by apply Hrefuse].
  assert (Forall (fun p => ConfigApi.isReadOnly p = false /\ ConfigApi.isKnownField p = true) paths) as Hfields.
  { apply Forall_and. split; [by apply filter_nil_Forall|]. apply filter_nil_Forall in Hkn.
    eapply Forall_impl; [exact Hkn|]. intros p. apply negb_false_iff. }
  destruct (List.filter ConfigApi.isStepUp paths) eqn:Hst.
  { apply (Hpass paths eq_refl Hfields). intros Hex. exfalso. apply filter_nil_Forall in Hst.
    apply Exists_exists in Hex as (p & Hp & Hp'). apply (proj1 (Forall_forall _ _) Hst) in Hp. congruence. }
  pose proof (stepped_up_cases s e (MkSession (default "" (ctxSessionToken c)) "" 0 0) OpSettings) as Hc.
  unfold stepped_up in Hc. cbn [Token] in Hc. destruct (Validate _ _ _ _) as [st ok].
  destruct (Hc _ _ eq_refl) as (Hsh & Ht & Hok). destruct ok; [|by apply Hrefuse].
  destruct (Hok eq_refl) as [-> Htok]. by apply Hpass.
Qed.

Lemma apply_change_cases s e body paths :
  let s' := (apply_change s e body paths).1 in
  (cfg s' = cfg s \/
   cfg s' = ConfigApi.mergeConfigMaps yaml (ConfigApi.current_config yaml (configAPI s) (cfg s)) body) /\
  sess s' = sess s /\ stepUpStore s' = stepUpStore s /\ totpStore s' = totpStore s.
Proof.
  unfold apply_change, ConfigApi.applyConfigChanges. repeat case_match; simplify_eq; cbn; auto.
Qed.

(** A state whose configuration alone may have changed. *)
Lemma allowed_config s e r s' : cfg s' = cfg s \/ reconfigured s e r (cfg s') -> sess s' = sess s ->
  stepUpStore s' = stepUpStore s -> allowed s e r s'.
Proof. intros Hc Hs Ht. unfold allowed. rewrite Hs, Ht. auto 10. Qed.

Lemma change_allowed s e c r json change t : speaks_for s e r t -> t = default "" (ctxSessionToken c) ->
  URLPath r = "/api/config" -> JSONBody r = Ok json ->
  change_of s r (ConfigApi.obj_delete "_meta" json) change ->
  allowed s e r (check_change s e c (ConfigApi.obj_delete "_meta" json) (fun s paths => apply_change s e change paths)).1.
Proof.
  intros Hs -> Hp Hj Hch. apply check_change_cases; [by intros; apply allowed_shrinks|].
  intros paths Hpaths Hf Hst. subst paths.
  match goal with |- context [apply_change ?s ?e ?b ?l] => pose proof (apply_change_cases s e b l) as (Hc & Hse & Hsu & _) end.
  apply allowed_config; [|done|done]. destruct Hc as [Hc|Hc]; [by left|right].
  eexists. split; [exact Hs|]. left. split; [done|]. exists json, change. done.
Qed.

(** What [requireAuth] establishes for its handler. *)
Lemma requireAuth_speaks s e c r h : ctx_ok s e c ->
  (forall c, ctx_ok s e c -> speaks_for s e r (default "" (ctxSessionToken c)) -> allowed s e r (h s e c r).1) ->
  allowed s e r (requireAuth h s e c r).1.
Proof.
  intros Hc Hh. unfold requireAuth. destruct (web_users s) eqn:Hw; [apply Hh; [done|by left]|].
  pose proof (current_shrinks s e r) as [Hsh _]. destruct (current s e r) as [s' [x|]] eqn:Hcur; [|by apply allowed_shrinks].
  apply current_ctx_ok in Hcur as (Hx & k & Hk & Hck & He & ->). apply Hh; [done|]. right. by exists k, x.
Qed.

Lemma exact_pattern p path : pattern_matches p path = true -> ends_in_slash p = false -> path = p.
Proof.
  unfold pattern_matches. intros Hm Hs. rewrite Hs in Hm. cbn [andb] in Hm. rewrite orb_false_r in Hm.
  symmetry. by apply String.eqb_eq.
Qed.

Lemma config_guards : guards_at "/api/config" allowed (requireAuth handleConfigAPI).
Proof.
  intros s e c r Hc Hm. apply requireAuth_speaks; [done|]. clear c Hc. intros c Hc Hs.
  apply exact_pattern in Hm as Hp; [|done].
  unfold handleConfigAPI. destruct (String.eqb _ "GET").
  { unfold handleConfigGet. repeat case_match; answered. }
  destruct (String.eqb_spec (Method r) "PUT") as [HM|_].
  { unfold handleConfigPut. destruct (JSONBody r) as [json|t] eqn:Hj; [|answered].
    by apply (change_allowed _ _ _ _ _ _ _ Hs eq_refl Hp Hj); left. }
  destruct (String.eqb_spec (Method r) "PATCH") as [HM|_]; [|answered].
  unfold handleConfigPatch. destruct (JSONBody r) as [json|t] eqn:Hj; [|answered].
  set (patch := ConfigApi.obj_delete _ _).
  (* the configuration the patch is merged into is the one of the request *)
  refine (check_change_cases (allowed s e r) s e c patch _ (fun s' H _ => allowed_shrinks s e r s' H) _).
  intros paths -> Hf Hst.
  match goal with |- context [apply_change ?s ?e ?b ?l] => pose proof (apply_change_cases s e b l) as (Hcf & Hse & Hsu & _) end.
  apply allowed_config; [|done|done]. destruct Hcf as [Hcf|Hcf]; [by left|right].
  eexists. split; [exact Hs|]. left. split; [done|]. eexists json, _. split; [done|]. split; [done|]. split; [done|].
  split; [by right|done].
Qed.

Lemma reload_cases s e r :
  let s' := (handleConfigReload s e r).1 in
  (cfg s' = cfg s \/ reload_config s e r (cfg s')) /\
  sess s' = sess s /\ stepUpStore s' = stepUpStore s /\ totpStore s' = totpStore s.
Proof.
  unfold handleConfigReload. destruct (String.eqb_spec (Method r) "POST") as [HM|_]; cbn [negb]; [|by split; [left|]].
  destruct (too_soon _ _ _) eqn:Hsoon; [by split; [left|]|]. cbv zeta.
  destruct (String.eqb_spec (ConfigApi.configPath (ConfigApi.set_reload_time (configAPI s) (now e))) "") as [|Hpath];
    [by split; [left|]|].
  change (ConfigApi.load yaml (ConfigApi.set_reload_time (configAPI s) (now e))) with (ConfigApi.load yaml (configAPI s)).
  destruct (ConfigApi.load yaml (configAPI s)) as [c|err] eqn:Hl; [|by split; [left|]].
  destruct (ConfigApi.Reload _ _ _) as [reg res]. cbn. split; [right|done]. split_and!; try done.
  intros last Hlast. unfold too_soon in Hsoon. rewrite Hlast in Hsoon. by apply Z.ltb_ge.
Qed.

Lemma reload_guards : guards_at "/api/config/reload" allowed (requireAuth (fun s e c r => handleConfigReload s e r)).
Proof.
  intros s e c r Hc Hm. apply exact_pattern in Hm as Hp; [|done].
  apply requireAuth_speaks; [done|]. clear c Hc. intros c Hc Hs.
  destruct (reload_cases s e r) as ([Hcf|Hcf] & Hse & Hsu & _); apply allowed_config; [by left|done|done| |done|done].
  right. eexists. split; [exact Hs|]. by right.
Qed.

(** C11. No session without proof. Whatever the request, a session that the
    server holds afterwards it held before, or it was earned by this
    request: by the password of a user without a second factor, or by a
    pending session that is still live together with a valid code or a
    recovery code of an unlocked user. Pending sessions are given only for
    the password of a user with a second factor, and step-up tokens only to
    a live session whose user enters the password again, for five minutes.
    The configuration, with the users and their passwords, is replaced only
    for a live session, once users are configured: by the merge of a body
    without read-only and unknown fields, with a step-up token if it names a
    field that needs one, or by the file at a reload. *)
Theorem session_requires_proof s e r : allowed s e r (serve s e r).1.
Proof.
  apply (serve_guards allowed allowed_purged).
  exact (conj login_guards (conj logout_guards (conj verify_guards (conj enroll_guards (conj disable_guards
    (conj status_guards (conj rotate_guards (conj confirm_guards (conj cancel_guards (conj challenge_guards
    (conj stepup_guards (conj alerts_guards (conj dismiss_guards (conj restart_guards
    (conj config_guards reload_guards))))))))))))))).
Qed.

(** ** The second factor cannot be used *)

(** Nobody has a second factor and nobody is halfway through a login. *)
Definition no_factor (s : Server) : Prop :=
  Totp.store_ok (totpStore s) /\ (forall u, Totp.IsEnrolled (totpStore s) u = false) /\ pending (sess s) = ∅.
Definition keeps (s : Server) (e : env) (r : Request) (s' : Server) : Prop := no_factor s -> no_factor s'.

Lemma keeps_purged s e r s' : shrinks s s' -> totpStore s' = totpStore s -> keeps s e r s'.
Proof.
  intros (_ & _ & Hp & _) Ht (H1 & H2 & H3). split; [by rewrite Ht|]. split; [by rewrite Ht|].
  rewrite H3 in Hp. apply map_empty. intros i. apply eq_None_not_Some. intros [x Hx].
  by apply (lookup_weaken _ _ _ _ Hx) in Hp.
Qed.

(** A call other than the validation of a code, on the store of a server. *)
Lemma keeps_call s s1 x u c : no_factor s -> sess s1 = sess s ->
  totpStore s1 = (Totp.run hmac gcm_seal gcm_open marshal (totpStore s) x u c).1 ->
  (forall code, c <> Totp.CValidate code) -> c <> Totp.CComplete -> no_factor s1.
Proof.
  intros (H1 & H2 & H3) Hs Ht Hc Hc'.
  destruct (Totp.call_not_enrolled hmac gcm_seal gcm_open marshal (totpStore s) x u c H1 H2 Hc Hc') as [K1 K2].
  split; [by rewrite Ht|]. split; [by rewrite Ht|]. by rewrite Hs.
Qed.

Lemma keeps_same s e r s' : sess s' = sess s -> totpStore s' = totpStore s -> keeps s e r s'.
Proof. unfold keeps, no_factor. by intros -> ->. Qed.

Lemma config_keeps : guards keeps handleConfigAPI.
Proof.
  intros s e c r _. unfold handleConfigAPI. destruct (String.eqb _ "GET").
  { unfold handleConfigGet. repeat case_match; by apply keeps_same. }
  assert (forall body f, keeps s e r (check_change s e c body (fun s paths => apply_change s e (f s) paths)).1) as H.
  { intros body f. apply check_change_cases; [apply keeps_purged|]. intros paths _ _ _.
    apply keeps_same; apply apply_change_cases. }
  destruct (String.eqb _ "PUT").
  { unfold handleConfigPut. destruct (JSONBody r); [apply (H _ (fun _ => _))|by apply keeps_same]. }
  destruct (String.eqb _ "PATCH"); [|by apply keeps_same].
  unfold handleConfigPatch. destruct (JSONBody r); [apply H|by apply keeps_same].
Qed.

Lemma handlers_keep : handlers_guard keeps.
Proof.
  split_and!; intros s e c r Hc.
  - intros Hn. unfold handleLogin. destruct (String.eqb _ "GET"); [done|].
    destruct (String.eqb _ "POST"); [|done]. destruct (5 <=? _); [done|].
    destruct (authenticate _ _ _); cycle 1.
    { unfold count_failure. by case_match. }
    unfold login_success. cbn [totpStore set_attempts]. by rewrite (proj1 (proj2 Hn)).
  - apply keeps_purged; [|unfold handleLogout; by destruct (session_cookie r), (pending_cookie r)].
    unfold handleLogout. destruct (session_cookie r), (pending_cookie r); cbn; split_and!; cbn; try done;
      apply delete_subseteq.
  - intros Hn. unfold handle2FAVerify. destruct (negb _); [done|]. destruct (pending_cookie r) as [t|]; [|done].
    unfold GetPending. rewrite (proj2 (proj2 Hn)), lookup_empty. by destruct s as [? ? [] ? ? ? ?].
  - apply (as_user_guards keeps keeps_purged); [done|]. intros u _ Hn. destruct (Totp.IsEnrolled _ _); [done|].
    destruct (Totp.Enroll _ _ _ _ _) as [t [x|err]] eqn:He;
      (apply (keeps_call s _ (totp_env e) u Totp.CEnroll); [done|done|cbn; by rewrite He|done|done]).
  - apply (as_user_guards keeps keeps_purged); [done|]. intros u _ Hn. destruct (negb _); [done|].
    apply (keeps_call s _ (totp_env e) u Totp.CDisable); try done;
      cbv zeta; (destruct (ctxSessionToken c); [destruct (negb _)|]); done.
  - apply (as_user_guards keeps keeps_purged); [done|]. by intros u _ Hn.
  - apply (as_user_guards keeps keeps_purged); [done|]. intros u _ Hn.
    destruct (Totp.InitiateRotation _ _ _ _ _) as [t [x|err]] eqn:He;
      (apply (keeps_call s _ (totp_env e) u Totp.CInitiate); [done|done|cbn; by rewrite He|done|done]).
  - apply (as_user_guards keeps keeps_purged); [done|]. intros u _ Hn. cbv zeta.
    destruct (String.eqb _ ""); [done|].
    destruct (Totp.ConfirmRotation hmac gcm_seal gcm_open marshal (totpStore s) (totp_env e) u (FormValue r "code"))
      as [t [err|]] eqn:He;
      (apply (keeps_call s _ (totp_env e) u (Totp.CConfirm (FormValue r "code")));
        [done|done|cbn; by rewrite He|done|done]).
  - apply (as_user_guards keeps keeps_purged); [done|]. intros u _ Hn.
    destruct (Totp.CancelRotation _ _ _ _ _) as [t [err|]] eqn:He;
      (apply (keeps_call s _ (totp_env e) u Totp.CCancel); [done|done|cbn; by rewrite He|done|done]).
  - exact (fun H => H).
  - intros Hn. unfold handleStepUpVerify. destruct (negb _); [done|]. destruct (String.eqb _ ""); [done|].
    destruct (ctx_user c); [|done]. destruct (negb _); [done|]. destruct (ctxSessionToken c); [|done].
    by destruct (String.eqb _ "").
  - intros Hn. unfold handleAlertsList. by destruct (negb _).
  - intros Hn. unfold handleAlertsDismiss. by destruct (negb _).
  - intros Hn. unfold handleConfigRestart. destruct (negb _); [done|]. by destruct (too_soon _ _ _).
  - intros _. by apply (requireAuth_guards keeps keeps_purged _ config_keeps).
  - intros _. apply (requireAuth_guards keeps keeps_purged); [|done]. intros s0 e0 c0 r0 _. apply keeps_same; apply reload_cases.
Qed.

(** What happens to a running server: requests in any order, the ticks that
    expire pending enrolments, reloads on a signal and edits of the file. *)
Inductive event : Type :=
| Asks (e : env) (r : Request)
| Sweeps (now : Z) (o : string -> Totp.file_outcome)
| Reloads (c : Config.Config)
| Edits (file : result string (list byte)).
Definition happens (s : Server) (x : event) : Server :=
  match x with
  | Asks e r => (serve s e r).1
  | Sweeps now o => set_totp s (Totp.sweepPending gcm_seal marshal (totpStore s) now o)
  | Reloads c => ReloadConfig s c
  | Edits file => set_api s (ConfigApi.set_file (configAPI s) file)
  end.
Definition start (c : Config.Config) (k : option Totp.TOTPKeyManager) (m : ConfigApi.ConfigAPIManager) : Server :=
  MkServer c (Totp.NewTOTPStore k) NewSessionStore NewStepUpStore NewAlertStore ∅ m.

Lemma happens_keeps s x : no_factor s -> no_factor (happens s x).
Proof.
  destruct x as [e r|now o|c|file]; [apply (serve_guards keeps keeps_purged handlers_keep)| |done|done].
  intros (H1 & H2 & H3). destruct (Totp.sweep_keeps gcm_seal marshal (totpStore s) now o H1) as [K1 K2].
  split; [done|]. split; [|done]. intros u. specialize (H2 u). cbn. unfold Totp.IsEnrolled in *.
  destruct (K2 u) as [-> | ->]; done.
Qed.

Lemma start_no_factor c k m : no_factor (start c k m).
Proof. split; [|split; [|done]]. - intros u st. cbn. by rewrite lookup_empty. - intros u. done. Qed.

(** The paths the middleware lets through without a session. *)
Lemma no_session_redirected s e r : public (URLPath r) = false -> web_users s <> [] ->
  (current s e r).2 = None -> (serve s e r).2 = redirect "/login" /\ shrinks s (serve s e r).1 /\
  totpStore (serve s e r).1 = totpStore s.
Proof.
  intros Hp Hu Hc. unfold serve, authMiddleware. rewrite Hp.
  pose proof (current_shrinks s e r) as H. destruct (web_users s); [done|].
  by destruct (current s e r) as [s' [x|]].
Qed.

(** The second factor cannot be used. A server that starts without enrolled
    users never has one, whatever it is asked: only a pending session leads
    to the check of a code, pending sessions are given only to users who are
    enrolled, and an enrolment is completed only by that check. And a user
    whose enrolment was completed otherwise cannot log in: without a session
    the request that carries the code is redirected to the login page before
    it reaches its handler, and so are the other two routes meant to be
    public. The source calls these routes public; tests call the handlers. *)
Theorem second_factor_unusable c k m xs :
  (forall u, Totp.IsEnrolled (totpStore (foldl happens (start c k m) xs)) u = false) /\
  (forall s e r, web_users s <> [] -> (current s e r).2 = None ->
     URLPath r = "/api/2fa/verify" \/ URLPath r = "/api/version" \/ URLPath r = "/api/join/install.sh" ->
     (serve s e r).2 = redirect "/login" /\ totpStore (serve s e r).1 = totpStore s /\
     pending (sess (serve s e r).1) ⊆ pending (sess s)).
Proof.
  split.
  - assert (no_factor (foldl happens (start c k m) xs)) as (_ & H & _); [|exact H].
    generalize (start_no_factor c k m). generalize (start c k m). induction xs as [|x xs IH]; intros s Hs; [done|].
    apply IH. by apply happens_keeps.
  - intros s e r Hu Hc Hp. assert (public (URLPath r) = false) as Hpub by (by destruct Hp as [-> | [-> | ->]]).
    destruct (no_session_redirected s e r Hpub Hu Hc) as (H1 & (_ & _ & H2 & _) & H3). done.
Qed.

(** ** A change that needs no step-up *)

(** A codec for which decoding a map without the section [auth] leaves the
    section at its default. *)
Definition absent_is_default : Prop := forall m, exists data c,
  ConfigApi.marshal_map yaml m = Ok data /\ ConfigApi.unmarshal yaml data Config.Default = Ok c /\
  (ConfigApi.obj_get "auth" m = None -> Config.Auth c = Config.Auth Config.Default).

Lemma find_config_route : find_route "/api/config" = Some ("/api/config", requireAuth handleConfigAPI).
Proof. reflexivity. Qed.

Lemma serve_config s e r k x : session_cookie r = Some k -> sessions (sess s) !! k = Some x ->
  now e <= s_ExpiresAt x -> Config.Require2FA (auth_config s) = false -> URLPath r = "/api/config" ->
  exists c, serve s e r = handleConfigAPI s e c r.
Proof.
  intros Hk Hx He H2 Hp. assert (current s e r = (s, Some x)) as Hcur.
  { unfold current, Get. rewrite Hk, Hx, (proj2 (Z.ltb_ge _ _)) by done. by destruct s. }
  assert (forall c, exists c', mux s e c r = handleConfigAPI s e c' r) as Hm.
  { intros c. unfold mux. rewrite Hp. change (cleanPath "/api/config") with "/api/config".
    cbv zeta. rewrite String.eqb_refl. cbn [negb]. rewrite find_config_route, String.eqb_refl. cbn [negb andb].
    unfold requireAuth. destruct (web_users s); [by exists c|]. rewrite Hcur. by eexists. }
  unfold serve, authMiddleware, require2FAEnforcement. rewrite Hp. change (public "/api/config") with false.
  cbv iota. destruct (web_users s); [rewrite H2; cbn [negb]; apply Hm|]. rewrite Hcur, H2. cbn [negb]. apply Hm.
Qed.

(** The users can be erased without a step-up. Changing auth.web_users or
    auth.require_2fa needs a step-up token, but a body that sets the whole
    section to null names only the field "auth", which needs none: with any
    live session, and no token at all, it removes every user and the
    requirement of a second factor, and the interface is open to everyone. *)
Theorem users_erased_without_step_up s e r k x :
  session_cookie r = Some k -> sessions (sess s) !! k = Some x -> now e <= s_ExpiresAt x ->
  Config.Require2FA (auth_config s) = false -> URLPath r = "/api/config" -> Method r = "PUT" ->
  JSONBody r = Ok [("auth", ConfigApi.ANull)] -> ConfigApi.configPath (configAPI s) = "" -> absent_is_default ->
  let s' := (serve s e r).1 in web_users s' = [] /\ stepUpStore s' = stepUpStore s.
Proof.
  intros Hk Hx He H2 Hp HM Hj Hpath Hyaml. destruct (serve_config s e r k x Hk Hx He H2 Hp) as [c ->].
  unfold handleConfigAPI, handleConfigPut. rewrite HM, Hj. cbn [String.eqb Ascii.eqb Bool.eqb].
  change (ConfigApi.obj_delete "_meta" [("auth", ConfigApi.ANull)]) with [("auth", ConfigApi.ANull)].
  set (body := [("auth", ConfigApi.ANull)]).
  assert (forall apply, check_change s e c body apply = apply s ["auth"]) as -> by reflexivity.
  unfold apply_change, ConfigApi.applyConfigChanges, ConfigApi.current_config. rewrite Hpath. cbn [String.eqb].
  cbv zeta. cbn [fst set_config stepUpStore]. split; [|done]. unfold web_users, auth_config. cbn [cfg set_config].
  unfold ConfigApi.mergeConfigMaps. destruct (Hyaml (ConfigApi.mergePutWithMasking (ConfigApi.configToMap yaml (cfg s))
    (ConfigApi.AObject body) "")) as (data & c' & -> & -> & Ha).
  rewrite Ha; [done|]. apply ConfigApi.put_null_deletes.
Qed.

(** ** Sensitive pages *)

(** The pages behind a step-up, with their operation. *)
Definition sensitive : list (string * string) :=
  [("/api/config/restart", OpSettings); ("/api/files/upload", OpFileUpload); ("/api/files/copy", OpFileUpload);
   ("/api/files/distribute", OpFileUpload); ("/api/update/start", OpFileUpload);
   ("/api/services/start", OpServiceManage); ("/api/services/stop", OpServiceManage);
   ("/api/services/restart", OpServiceManage); ("/terminal", OpTerminal); ("/ws/terminal", OpTerminal)].

(** The request carries a live session with a live token for [op]. *)
Definition holds_token (s : Server) (e : env) (r : Request) (op : string) (x : Session) : Prop :=
  exists k tok, session_cookie r = Some k /\ sessions (sess s) !! k = Some x /\ now e <= s_ExpiresAt x /\
    stepUpStore s !! Token x = Some tok /\ now e <= t_ExpiresAt tok /\ op ∈ Operations tok.

(** A handler of the pattern [q]: it serves no other page, and a sensitive
    page only to who holds the token. *)
Definition gated (q : string) (h : Handler) : Prop := forall s e c r p u,
  web_users s <> [] -> content (h s e c r).2 = Served p u ->
  p = q /\ forall op, (p, op) ∈ sensitive -> exists x, holds_token s e r op x.

Lemma current_cases' s e r :
  match current s e r with
  | (s', None) => True
  | (s', Some x) => s' = s /\ exists k, session_cookie r = Some k /\ sessions (sess s) !! k = Some x /\
      now e <= s_ExpiresAt x
  end.
Proof.
  destruct (current s e r) as [s' [x|]] eqn:Hcur; [|done].
  apply current_ctx_ok in Hcur as (_ & k & H1 & H2 & H3 & ->). eauto 10.
Qed.

Lemma page_gated q : (forall op, (q, op) ∉ sensitive) -> gated q (serve_page q).
Proof. intros Hq s e c r p u _ [= <- <-]. split; [done|]. intros op Hop. by destruct (Hq op). Qed.

Lemma requireAuth_gated q h : gated q h -> gated q (requireAuth h).
Proof.
  intros Hh s e c r p u Hu. unfold requireAuth. pose proof (current_cases' s e r) as H.
  destruct (web_users s) eqn:Hw; [done|]. destruct (current s e r) as [s' [x|]].
  - destruct H as [-> _]. apply Hh. by rewrite Hw.
  - cbn. unfold login_required. by destruct (isHTMXRequest r).
Qed.

(** Membership in the tables, by computation. *)
Lemma sensitive_op q op : forallb (fun x => negb (String.eqb x.1 q) || String.eqb x.2 op) sensitive = true ->
  forall op', (q, op') ∈ sensitive -> op' = op.
Proof.
  intros H op' Hs. rewrite forallb_forall in H. specialize (H (q, op') ltac:(by apply list_elem_of_In)).
  cbn in H. rewrite String.eqb_refl in H. by apply String.eqb_eq.
Qed.
Lemma in_table q l : existsb (String.eqb q) l = true -> q ∈ l.
Proof. intros (x & Hx & ->%String.eqb_eq)%existsb_exists. by apply list_elem_of_In. Qed.

(** A handler behind a step-up for the operation of its page. *)
Definition serves_at_most (q : string) (h : Handler) : Prop := forall s e c r p u,
  content (h s e c r).2 = Served p u -> p = q.
Lemma page_serves q : serves_at_most q (serve_page q).
Proof. by intros s e c r p u [= <- _]. Qed.

Lemma step_up_gated q op (refused1 refused2 : Request -> Response) (pass : context -> Session -> context) h :
  serves_at_most q h -> (forall op', (q, op') ∈ sensitive -> op' = op) ->
  (forall r p u, content (refused1 r) <> Served p u) -> (forall r p u, content (refused2 r) <> Served p u) ->
  gated q (fun s e c r =>
    match web_users s with
    | [] => h s e c r
    | _ =>
        match current s e r with
        | (s, None) => (s, refused1 r)
        | (s, Some session) =>
            match stepped_up s e session op with
            | (s, false) => (s, refused2 r)
            | (s, true) => h s e (pass c session) r
            end
        end
    end).
Proof.
  intros Hh Hop H1 H2 s e c r p u Hu. cbv beta. pose proof (current_cases' s e r) as H.
  destruct (web_users s) eqn:Hw; [done|]. destruct (current s e r) as [s' [x|]]; cycle 1.
  { cbn. intros Hs. by apply H1 in Hs. }
  destruct H as (-> & k & Hk & Hx & He). destruct (stepped_up s e x op) as [s' b] eqn:Hst.
  apply stepped_up_cases in Hst as (_ & _ & Hb). destruct b; cbn; intros Hs; [|by apply H2 in Hs].
  destruct (Hb eq_refl) as (-> & tok & Htok & Het & Hot). apply Hh in Hs as ->. split; [done|].
  intros op' ->%Hop. exists x, k, tok. done.
Qed.

Lemma requireStepUp_gated q op h : serves_at_most q h -> (forall op', (q, op') ∈ sensitive -> op' = op) ->
  gated q (requireStepUp op h).
Proof.
  intros Hs H. apply (step_up_gated q op login_required _ (fun _ x => session_ctx x)); [done|done|..];
    intros r p u; unfold login_required; by destruct (isHTMXRequest r).
Qed.
Lemma requireStepUpPage_gated q op : (forall op', (q, op') ∈ sensitive -> op' = op) ->
  gated q (requireStepUpPage op (serve_page q)).
Proof.
  intros H. by apply (step_up_gated q op (fun _ => redirect "/login") (fun _ => redirect (challenge op))
    (fun _ x => session_ctx x)); [apply page_serves|done|..].
Qed.
Lemma terminal_gated : gated "/ws/terminal" terminalChain.
Proof.
  intros s e c r p u Hu. unfold terminalChain, sessionAuthMiddleware. pose proof (current_cases' s e r) as H.
  destruct (web_users s) eqn:Hw; [done|]. destruct (current s e r) as [s' [x|]]; [|done].
  destruct H as [-> _].
  apply (step_up_gated "/ws/terminal" OpTerminal (fun _ => respond 403 (Text "Step-up authentication required"))
    (fun _ => respond 403 (Text "Step-up authentication required")) (fun c _ => c)); [| |done|done|by rewrite Hw].
  - intros s' e' c' r' p' u'. unfold peerIDFromQueryMiddleware. destruct (String.eqb _ ""); [done|]. by intros [= <- _].
  - by apply sensitive_op.
Qed.

Lemma restart_serves : serves_at_most "/api/config/restart" handleConfigRestart.
Proof.
  intros s e c r p u. unfold handleConfigRestart. destruct (negb _); [done|]. destruct (too_soon _ _ _); [done|].
  by intros [= <- _].
Qed.

(** The other handlers render something else. *)
Definition renders (h : Handler) : Prop := forall s e c r p u, content (h s e c r).2 <> Served p u.
Lemma renders_gated q h : renders h -> gated q h.
Proof. intros Hh s e c r p u _ H. by apply Hh in H. Qed.

Lemma as_user_renders method (k : Server -> env -> context -> Request -> string -> Server * Response) :
  (forall s e c r u p v, content (k s e c r u).2 <> Served p v) ->
  renders (fun s e c r => as_user method s c r (k s e c r)).
Proof. intros Hk s e c r p u. unfold as_user. destruct (negb _); [done|]. destruct (ctx_user c); [apply Hk|done]. Qed.

Lemma promote_renders s e r u t p v : content (promote s e r u t).2 <> Served p v.
Proof. unfold promote. cbn. by destruct (isHTMXRequest r). Qed.

Lemma apply_change_renders s e body paths p u : content (apply_change s e body paths).2 <> Served p u.
Proof. unfold apply_change. by destruct (ConfigApi.applyConfigChanges _ _ _ _ _ _) as [[m c] res]. Qed.
Lemma check_change_renders s e c body apply p u : (forall s paths, content (apply s paths).2 <> Served p u) ->
  content (check_change s e c body apply).2 <> Served p u.
Proof. intros H. unfold check_change. repeat (case_match; try done); apply H. Qed.

Lemma handlers_render :
  renders (fun s e c r => handleLogin s e r) /\ renders (fun s e c r => handleLogout s r) /\
  renders (fun s e c r => handle2FAVerify s e r) /\ renders handle2FAEnroll /\ renders handle2FADisable /\
  renders handle2FAStatus /\ renders handle2FARotate /\ renders handle2FARotateConfirm /\
  renders handle2FARotateCancel /\ renders (fun s e c r => handleStepUpChallenge s r) /\
  renders handleStepUpVerify /\ renders (fun s e c r => handleAlertsList s r) /\
  renders (fun s e c r => handleAlertsDismiss s r) /\ renders handleConfigAPI /\
  renders (fun s e c r => handleConfigReload s e r).
Proof.
  split_and!; try (apply as_user_renders; intros s e c r u p v); try intros s e c r p u.
  - unfold handleLogin. repeat case_match; try done; unfold login_success; by case_match.
  - done.
  - unfold handle2FAVerify. repeat (case_match; try done).
    + unfold verify_code. destruct (Totp.ValidateCode _ _ _ _ _ _ _ _) as [t [|]]; [apply promote_renders|].
      by destruct (Totp.RecordFailedAttempt _ _ _ _ _) as [t' [|]].
    + unfold verify_recovery. destruct (Totp.ConsumeRecoveryCode _ _ _ _ _ _) as [t [|]]; [|done].
      unfold promote. cbn. by destruct (isHTMXRequest r).
  - destruct (Totp.IsEnrolled _ _); [done|]. by destruct (Totp.Enroll _ _ _ _ _) as [t [x|err]].
  - by destruct (negb _).
  - done.
  - by destruct (Totp.InitiateRotation _ _ _ _ _) as [t [x|err]].
  - cbv zeta. destruct (String.eqb _ ""); [done|].
    by destruct (Totp.ConfirmRotation hmac gcm_seal gcm_open marshal (totpStore s) (totp_env e) u (FormValue r "code"))
      as [t [err|]].
  - by destruct (Totp.CancelRotation _ _ _ _ _) as [t [err|]].
  - unfold handleStepUpChallenge. cbn. by destruct (String.eqb (Method r) "GET").
  - unfold handleStepUpVerify. cbv zeta. repeat (case_match; try done).
  - unfold handleAlertsList. by destruct (negb _).
  - unfold handleAlertsDismiss. by destruct (negb _).
  - unfold handleConfigAPI, handleConfigGet, handleConfigPut, handleConfigPatch. repeat (case_match; try done);
      apply check_change_renders; intros; by apply apply_change_renders.
  - unfold handleConfigReload. repeat (case_match; try done).
Qed.

(** The paths of the pages that need no step-up. *)
Definition plain_pages : list string :=
  ["/api/proxy/status"; "/api/proxy/socks5/status"; "/api/config/diff";
    "/api/events"; "/api/topology"; "/api/topology/events"; "/api/peers"; "/api/monitor"; "/api/dashboard/partial";
    "/api/files/list"; "/api/files/browse"; "/api/files/read"; "/api/update/plan"; "/api/update/status";
    "/api/services/list"; "/api/stats"; "/api/join/token"; "/"; "/nodes"; "/nodes/"; "/files"; "/update";
    "/services"; "/peers"; "/topology"; "/config"; "/proxy"; "/acl"; "/alerts"; "/api/acl/status";
    "/api/acl/rules"; "/api/acl/engine"; "/static/"; "/api/version"; "/api/join/install.sh"; "/join"; "/api/join"].
Lemma plain_page q : q ∈ plain_pages -> forall op, (q, op) ∉ sensitive.
Proof.
  intros Hq op Hs. assert (forallb (fun q => forallb (fun x => negb (String.eqb x.1 q)) sensitive) plain_pages = true)
    as H by reflexivity.
  rewrite forallb_forall in H. specialize (H q ltac:(by apply list_elem_of_In)).
  rewrite forallb_forall in H. specialize (H (q, op) ltac:(by apply list_elem_of_In)).
  cbn in H. by rewrite String.eqb_refl in H.
Qed.

Lemma routes_gated : Forall (fun route => gated route.1 route.2) routes.
Proof.
  destruct handlers_render as (H1 & H2 & H3 & H4 & H5 & H6 & H7 & H8 & H9 & H10 & H11 & H12 & H13 & H14 & H15).
  assert (forall q, q ∈ plain_pages -> gated q (serve_page q)) as Hp by (intros; by apply page_gated, plain_page).
  pose proof requireAuth_gated as Ha. pose proof renders_gated as Hr. pose proof terminal_gated as Ht.
  unfold routes. apply Forall_app. split.
  - repeat (apply Forall_cons; split; [cbn [fst snd]; first
      [ exact Ht | apply Hr; assumption | apply Ha, Hr; assumption
      | apply Hp, in_table; reflexivity
      | apply Ha, requireStepUp_gated; [first [apply page_serves | apply restart_serves]|apply sensitive_op; reflexivity]
      | apply Ha, requireStepUpPage_gated; apply sensitive_op; reflexivity ]|]); constructor.
  - apply Forall_fmap, Forall_forall. intros q Hq. cbn. apply Ha, Hp.
    unfold plain_pages. repeat (apply elem_of_cons in Hq as [->|Hq]; [apply in_table; reflexivity|]).
    by apply elem_of_nil in Hq.
Qed.

Lemma mux_gated s e c r p u : web_users s <> [] -> content (mux s e c r).2 = Served p u ->
  pattern_matches p (URLPath r) = true /\ forall op, (p, op) ∈ sensitive -> exists x, holds_token s e r op x.
Proof.
  intros Hu. unfold mux. cbv zeta. destruct (String.eqb_spec (cleanPath (URLPath r)) (URLPath r)) as [->|]; [|done].
  cbn [negb]. destruct (find_route (URLPath r)) as [[q h]|] eqn:Hf; [|done]. destruct (_ && _); [done|].
  apply find_route_in in Hf as [Hin Hm]. intros Hs.
  destruct (proj1 (Forall_forall _ _) routes_gated _ Hin s e c r p u Hu Hs) as [-> Hop]. done.
Qed.

Lemma enforcement_gated s e c r p u : web_users s <> [] ->
  content (require2FAEnforcement mux s e c r).2 = Served p u ->
  (pattern_matches p (URLPath r) = true /\ forall op, (p, op) ∈ sensitive -> exists x, holds_token s e r op x) /\
  (Config.Require2FA (auth_config s) = true -> exempt (URLPath r) = false -> forall v, ctx_user c = Some v ->
   Totp.IsEnrolled (totpStore s) v = true).
Proof.
  intros Hu. unfold require2FAEnforcement. destruct (Config.Require2FA (auth_config s)); cbn [negb].
  2:{ intros Hs. split; [by apply (mux_gated s e c r p u)|done]. }
  destruct (exempt _). { intros Hs. split; [by apply (mux_gated s e c r p u)|done]. }
  destruct (ctx_user c) as [v|]. 2:{ intros Hs. split; [by apply (mux_gated s e c r p u)|done]. }
  destruct (Totp.IsEnrolled (totpStore s) v) eqn:He.
  - intros Hs. split; [by apply (mux_gated s e c r p u)|]. by intros _ _ w [= <-].
  - cbn. destruct (isHTMXRequest r); [done|]. by destruct (String.prefix _ _).
Qed.

(** A sensitive pattern stands for its own path only, which is not exempt
    from the second factor and, the terminal apart, not public. *)
Lemma sensitive_path p op path : (p, op) ∈ sensitive -> pattern_matches p path = true ->
  path = p /\ exempt path = false /\ (p <> "/ws/terminal" -> public path = false).
Proof.
  intros Hs Hm. assert (forallb (fun x => negb (ends_in_slash x.1) && negb (exempt x.1) &&
    (String.eqb x.1 "/ws/terminal" || negb (public x.1))) sensitive = true) as H by reflexivity.
  rewrite forallb_forall in H. specialize (H (p, op) ltac:(by apply list_elem_of_In)). cbn [fst] in H.
  apply andb_true_iff in H as [[H1%negb_true_iff H2%negb_true_iff]%andb_true_iff H3].
  unfold pattern_matches in Hm. rewrite H1 in Hm. cbn in Hm. rewrite orb_false_r in Hm.
  apply String.eqb_eq in Hm as <-. split; [done|]. split; [done|]. intros Hne.
  rewrite (proj2 (String.eqb_neq _ _) Hne) in H3. by apply negb_true_iff.
Qed.

(** C12. Sensitive pages are served only after a step-up. When web users are
    configured, a page behind a step-up is served only to a request whose
    cookie names a live session that holds a live token for the operation of
    that page; and when the second factor is required, every such page but
    the terminal socket only to a user who is enrolled. *)
Theorem sensitive_pages_guarded s e r p u op :
  web_users s <> [] -> content (serve s e r).2 = Served p u -> (p, op) ∈ sensitive ->
  URLPath r = p /\ (exists x, holds_token s e r op x) /\
  (Config.Require2FA (auth_config s) = true -> p <> "/ws/terminal" ->
   exists k x, session_cookie r = Some k /\ sessions (sess s) !! k = Some x /\ now e <= s_ExpiresAt x /\
     (s_Username x <> "" -> Totp.IsEnrolled (totpStore s) (s_Username x) = true)).
Proof.
  intros Hu Hs Hp. unfold serve, authMiddleware in Hs.
  destruct (public (URLPath r)) eqn:Hpub.
  { destruct (enforcement_gated s e no_ctx r p u Hu Hs) as [[Hm Hop] _].
    destruct (sensitive_path p op _ Hp Hm) as (Hpath & _ & Hpu). split; [done|]. split; [by apply Hop|].
    intros _ Hne. rewrite Hpu in Hpub by done. done. }
  pose proof (current_cases' s e r) as Hc. destruct (web_users s) eqn:Hw; [done|]. rewrite <-Hw in Hu.
  destruct (current s e r) as [s' [x|]]; [|done]. destruct Hc as (-> & k & Hk & Hx & He).
  destruct (enforcement_gated s e (session_ctx x) r p u Hu Hs) as [[Hm Hop] Hen].
  destruct (sensitive_path p op _ Hp Hm) as (Hpath & Hex & _). split; [done|]. split; [by apply Hop|].
  intros Hreq _. exists k, x. split; [done|]. split; [done|]. split; [done|]. intros Hne.
  apply Hen; [done|done|]. unfold ctx_user. cbn. by rewrite (proj2 (String.eqb_neq _ _) Hne).
Qed.

(** ** Brute force *)

Definition attempts_ok (s : Server) : Prop := map_Forall (fun _ a => 0 <= count a <= 5) (loginAttempts s).

Lemma window_ok s e ip : attempts_ok s -> 0 <= count (window s e ip) <= 5.
Proof.
  intros Hs. unfold window. destruct (loginAttempts s !! ip) as [a|] eqn:Ha; [|cbn; lia].
  case_match; [cbn; lia|]. by apply (Hs ip).
Qed.

Lemma login_attempts_kept s e r : attempts_ok s -> attempts_ok (handleLogin s e r).1.
Proof.
  intros Hs. unfold handleLogin. destruct (String.eqb _ "GET"); [done|].
  destruct (String.eqb _ "POST"); [|done]. cbv zeta.
  pose proof (window_ok s e (clientIP r) Hs) as Hw. set (a := window s e (clientIP r)) in *.
  assert (attempts_ok (set_attempts s (<[clientIP r := a]> (loginAttempts s)))) as H1.
  { unfold attempts_ok. cbn. by apply map_Forall_insert_2. }
  destruct (5 <=? count a) eqn:Hc; [done|]. to_prop. destruct (authenticate _ _ _).
  - unfold login_success. cbn [totpStore set_attempts]. destruct (Totp.IsEnrolled _ _); cbn;
      by apply map_Forall_delete.
  - cbn. unfold count_failure. cbn [loginAttempts set_attempts]. rewrite lookup_insert, decide_True by done.
    cbn. apply map_Forall_insert_2; [cbn; lia|]. exact H1.
Qed.

(** A login with a wrong password from [ip] in the minute after [t0]. *)
Definition fails (s : Server) (ip : string) (t0 : Z) (x : env * Request) : Prop :=
  Method x.2 = "POST" /\ clientIP x.2 = ip /\ t0 <= now x.1 <= t0 + minute /\
  authenticate s (FormValue x.2 "username") (FormValue x.2 "password") = false.

Lemma window_open s e ip n t0 : loginAttempts s !! ip = Some (MkAttempt n t0) -> t0 <= now e <= t0 + minute ->
  window s e ip = MkAttempt n t0.
Proof.
  intros Ha Ht. unfold window. rewrite Ha. cbn [windowStart].
  rewrite (proj2 (Z.ltb_ge _ _)); [done|]. unfold Totp.Sub, minute, Totp.second in *. lia.
Qed.

(** One failure: the count of the window goes up to at most five. *)
Lemma fail_step s ip t0 n x : window s x.1 ip = MkAttempt n t0 -> 0 <= n <= 5 -> fails s ip t0 x ->
  let s' := (handleLogin s x.1 x.2).1 in
  loginAttempts s' !! ip = Some (MkAttempt (Z.min 5 (n + 1)) t0) /\ cfg s' = cfg s /\ sess s' = sess s.
Proof.
  intros Hw Hn (Hm & Hip & Ht & Ha). unfold handleLogin. rewrite Hm, Hip. cbn [String.eqb]. cbn.
  rewrite Hw. cbn [count]. destruct (5 <=? n) eqn:H5; to_prop; cbn.
  { rewrite lookup_insert, decide_True by done. split; [|done]. do 2 f_equal; lia. }
  change (authenticate (set_attempts s _)) with (authenticate s). rewrite Ha. cbn.
  unfold count_failure. cbn [loginAttempts set_attempts]. rewrite lookup_insert, decide_True by done. cbn.
  rewrite lookup_insert, decide_True by done. split; [|done]. do 2 f_equal; lia.
Qed.

Lemma fails_run ip t0 l : forall s n, loginAttempts s !! ip = Some (MkAttempt n t0) -> 0 <= n <= 5 ->
  Forall (fails s ip t0) l ->
  let s' := foldl (fun s x => (handleLogin s x.1 x.2).1) s l in
  loginAttempts s' !! ip = Some (MkAttempt (Z.min 5 (n + len l)) t0) /\ cfg s' = cfg s /\ sess s' = sess s.
Proof.
  induction l as [|x l IH]; intros s n Ha Hn Hl; cbn [foldl].
  { rewrite Ha. split; [|done]. do 2 f_equal. cbn. lia. }
  apply Forall_cons in Hl as [Hx Hl].
  destruct (fail_step s ip t0 n x) as (H1 & H2 & H3); [|done|done|].
  { by apply window_open; [|apply Hx]. }
  destruct (IH (handleLogin s x.1 x.2).1 (Z.min 5 (n + 1))) as (K1 & K2 & K3); [done|lia|..].
  { eapply Forall_impl; [exact Hl|]. intros y (Y1 & Y2 & Y3 & Y4). split_and!; try done; try lia.
    unfold authenticate, web_users, auth_config in *. by rewrite H2. }
  split; [|split; congruence]. rewrite K1. do 2 f_equal; cbn [length]; lia.
Qed.

(** Guessing passwords is limited. After five logins from one address with
    wrong passwords, whatever else the requests contain, every further login
    from that address in the minute that began with the first is refused
    with status 429 and creates no session, even with the right password. *)
Theorem login_rate_limited s e0 r0 l e r :
  loginAttempts s !! clientIP r0 = None -> fails s (clientIP r0) (now e0) (e0, r0) ->
  Forall (fails s (clientIP r0) (now e0)) l -> 4 <= len l ->
  Method r = "POST" -> clientIP r = clientIP r0 -> now e0 <= now e <= now e0 + minute ->
  let s' := foldl (fun s x => (handleLogin s x.1 x.2).1) s ((e0, r0) :: l) in
  status (handleLogin s' e r).2 = 429 /\ sess (handleLogin s' e r).1 = sess s.
Proof.
  intros Ha H0 Hl Hlen Hm Hip Ht. cbn [foldl]. set (ip := clientIP r0) in *.
  destruct (fail_step s ip (now e0) 0 (e0, r0)) as (H1 & H2 & H3); [|lia|done|].
  { unfold window. cbn [fst]. by rewrite Ha. }
  cbn [fst snd] in *. set (s1 := (handleLogin s e0 r0).1) in *.
  destruct (fails_run ip (now e0) l s1 1) as (K1 & K2 & K3); [exact H1|lia|..].
  { eapply Forall_impl; [exact Hl|]. intros y (Y1 & Y2 & Y3 & Y4). split_and!; try done; try lia.
    unfold authenticate, web_users, auth_config in *. by rewrite H2. }
  set (s' := foldl _ s1 l) in *. replace (Z.min 5 (1 + len l)) with 5 in K1 by lia.
  unfold handleLogin. rewrite Hm, Hip. cbn.
  rewrite (window_open s' e ip 5 (now e0) K1 Ht). cbn. split; [done|congruence].
Qed.

(** ** Alerts *)

Definition alerts_ok (s : AlertStore) : Prop := len (alerts s) <= maxAlerts s /\ 0 < maxAlerts s.

(** Adding keeps the bound; an alert with the key of one added less than a
    minute ago is dropped. *)
Lemma Add_ok s t a : alerts_ok s -> alerts_ok (Add s t a).1 /\ maxAlerts (Add s t a).1 = maxAlerts s.
Proof.
  intros [H1 H2]. unfold Add, alerts_ok. cbv zeta. match goal with |- context [if ?b then _ else _] => destruct b; [done|] end.
  cbn [fst alerts maxAlerts with_time]. split; [|done]. split; [|done].
  destruct (maxAlerts s <=? len (alerts s)) eqn:H; to_prop; rewrite length_app; cbn [length];
    [rewrite length_drop|]; lia.
Qed.
Lemma Add_deduplicates s t a a' t' : (Add s t a).2 = true -> alert_key a' = alert_key a ->
  t <= t' < t + minute -> Add (Add s t a).1 t' a' = ((Add s t a).1, false).
Proof.
  intros Ha Hk Ht. unfold Add in *. case_match; [done|]. cbn [fst lastAlert]. rewrite Hk.
  rewrite lookup_insert, decide_True by done.
  rewrite (proj2 (Z.ltb_lt _ _)); [done|]. unfold Totp.Sub, minute, Totp.second in *. lia.
Qed.
End Handlers.

(** ** Concrete requests for the witnesses *)

Definition toy_bcrypt (hash password : string) : bool := String.eqb password "secret".
Definition toy_text (e : Totp.totp_error) : string := "error".
Definition hash0 : string := "$2a$10$abcdefghijklmnopqrstuuvwxyzABCDEFGHIJKLMNOPQRSTUVWXYZ".
Definition with_auth (a : Config.AuthConfig) (c : Config.Config) : Config.Config :=
  Config.MkConfig (Config.Node c) (Config.Mesh c) (Config.Peers c) (Config.P2P c) (Config.Monitoring c) (Config.WebSSH c) a
    (Config.Transfer c) (Config.Proxy c) (Config.Reality c) (Config.Join c) (Config.Tun c) (Config.ACL c) (Config.Logging c).
Definition config0 (require : bool) : Config.Config :=
  with_auth (Config.MkAuth [Config.MkUser "ada" hash0] "" require 1 "" 300 "" "") Config.Default.
Definition files0 : ConfigApi.file_env := ConfigApi.MkFileEnv (fun _ => None) None.
Definition api0 : ConfigApi.ConfigAPIManager := ConfigApi.NewConfigAPIManager "" (Err "no file").
Definition time0 : Z := Totp.now0.
Definition env0 (now : Z) : env := MkEnv now [] (Totp.env0 now) files0.
Definition get (path : string) : Request :=
  MkRequest "GET" path (fun _ => "") (fun _ => "") (Some "token") None "10.0.0.1:999" "" (Err "EOF").
Definition stepped0 : Server :=
  MkServer (config0 true) (Totp.ada Totp.verified0)
    (MkSessions {["token" := MkSession "token" "ada" time0 (time0 + minute)]} ∅)
    {["token" := MkStepUp time0 (time0 + minute) [OpTerminal]]} NewAlertStore ∅ api0.

(** A codec of two documents: with the section [auth] and without it. *)
Definition toy_users (m : ConfigApi.object) : list Config.WebUser :=
  match ConfigApi.obj_get "auth" m with Some _ => [Config.MkUser "ada" hash0] | None => [] end.
Definition toy_yaml : ConfigApi.Yaml := ConfigApi.MkYaml
  (fun data c => match data with [] => Ok c | _ => Ok (config0 false) end) (fun _ => None)
  (fun c => match Config.WebUsers (Config.Auth c) with [] => Ok [] | _ => Ok [x00] end)
  (fun data => match data with [] => Ok [] | _ => Ok [("auth", ConfigApi.AObject [])] end)
  (fun m => match toy_users m with [] => Ok [] | _ => Ok [x00] end).

(** Ada, enrolled and stepped up, opens the terminal page. *)
Lemma sensitive_pages_guarded_witness : exists x,
  holds_token stepped0 (env0 time0) (get "/terminal") OpTerminal x.
Proof.
  apply (sensitive_pages_guarded Totp.toy_hmac Totp.toy_seal Totp.toy_open Totp.toy_marshal toy_bcrypt toy_text toy_yaml []
    stepped0 (env0 time0) (get "/terminal") "/terminal" (Some "ada") OpTerminal
    ltac:(discriminate) ltac:(vm_compute; reflexivity)
    ltac:(apply list_elem_of_In; vm_compute; tauto)).
Defined.

Definition login (password : string) : Request :=
  MkRequest "POST" "/login" (fun _ => "")
    (fun f => if String.eqb f "username" then "ada" else if String.eqb f "password" then password else "")
    None None "10.0.0.1:999" "" (Err "EOF").
Definition fresh0 : Server := start (config0 false) None api0.
Definition at_second (i : Z) : env := env0 (time0 + i * Totp.second).

(** Four more guesses after the first, and the right password is refused. *)
Lemma login_rate_limited_witness :
  status (handleLogin toy_bcrypt
    (foldl (fun s x => (handleLogin toy_bcrypt s x.1 x.2).1) fresh0
       ((at_second 0, login "a") :: [(at_second 1, login "b"); (at_second 2, login "c");
          (at_second 3, login "d"); (at_second 4, login "e")])) (at_second 5) (login "secret")).2 = 429.
Proof.
  refine (proj1 (login_rate_limited toy_bcrypt fresh0 (at_second 0) (login "a")
    [(at_second 1, login "b"); (at_second 2, login "c"); (at_second 3, login "d"); (at_second 4, login "e")]
    (at_second 5) (login "secret") _ _ _ _ _ _ _)).
  - vm_compute. reflexivity.
  - split_and!; vm_compute; congruence.
  - repeat (apply Forall_cons; split; [split_and!; vm_compute; congruence|]). constructor.
  - vm_compute. discriminate.
  - vm_compute. reflexivity.
  - vm_compute. reflexivity.
  - vm_compute. split; discriminate.
Defined.

(** The right password is accepted at the first attempt, and the session is Ada's. *)
Example login_once : forall s', (handleLogin toy_bcrypt fresh0 (at_second 0) (login "secret")).1 = s' ->
  sessions (sess s') !! "" = Some (MkSession "" "ada" time0 (time0 + 24 * 60 * minute)).
Proof. intros s' <-. vm_compute. reflexivity. Qed.

(** Ada, logged in without a step-up, may not switch on the second factor,
    but may erase every user. *)
Definition logged_in0 : Server :=
  set_sess fresh0 (MkSessions {["token" := MkSession "token" "ada" time0 (time0 + minute)]} ∅).
Definition put (body : ConfigApi.object) : Request :=
  MkRequest "PUT" "/api/config" (fun _ => "") (fun _ => "") (Some "token") None "10.0.0.1:999" "" (Ok body).
Definition serve0 (s : Server) (r : Request) : Server * Response :=
  serve Totp.toy_hmac Totp.toy_seal Totp.toy_open Totp.toy_marshal toy_bcrypt toy_text toy_yaml [] s (env0 time0) r.

Example require_2fa_needs_step_up :
  (serve0 logged_in0 (put [("auth", ConfigApi.AObject [("require_2fa", ConfigApi.ABool true)])])).2 =
    respond 403 (FieldsJSON "step_up_required" ["auth.require_2fa"]).
Proof. vm_compute. reflexivity. Qed.

Lemma users_erased_without_step_up_witness :
  web_users logged_in0 = [Config.MkUser "ada" hash0] /\
  web_users (serve0 logged_in0 (put [("auth", ConfigApi.ANull)])).1 = [].
Proof.
  split; [reflexivity|].
  refine (proj1 (users_erased_without_step_up Totp.toy_hmac Totp.toy_seal Totp.toy_open Totp.toy_marshal toy_bcrypt
    toy_text toy_yaml [] logged_in0 (env0 time0) (put [("auth", ConfigApi.ANull)]) "token"
    (MkSession "token" "ada" time0 (time0 + minute)) eq_refl _ _ eq_refl eq_refl eq_refl eq_refl eq_refl _)).
  - vm_compute. reflexivity.
  - vm_compute. discriminate.
  - intros m. cbn. unfold toy_users. destruct (ConfigApi.obj_get "auth" m); eexists _, _; split_and!; done.
Defined.
End Web.
