(* ===== verification/Transfer.v ===== *)
(** * File transfer (internal/transfer/protocol.go)

    The sender, the receiver and its accept loop. A connection is anything
    with [Read] and [Write] ([ReadWriter] with its laws): a mesh connection
    whose bytes arrive in pieces, or the [prefixReader] that puts a header
    back in front of it. The file system is a map from clean paths to nodes;
    which system calls fail, and with what error, is a parameter, as are
    SHA-256, the JSON codec and the layout of times. *)
From stdpp Require Import prelude gmap list strings.
From Stdlib Require Import Strings.Byte ZArith Lia.
From S2P Require Import Prelude GoBytes GoNet GoPath KeyExchange.
Local Open Scope Z_scope.

Module Transfer.

Definition ProtocolVersion : Z := 1.
Definition DefaultTimeout : Z := 300 * 10 ^ 9.
Definition DefaultMaxFileSize : Z := 2 ^ 30.

Definition FileType : Type := string.
Definition FileTypeRegular : FileType := "regular".
Definition FileTypeDirectory : FileType := "directory".

Record FileHeader : Type := MkHeader {
  Version : Z; Filename : string; Size : Z; Mode : Z; h_FileType : FileType; ModTime : string;
  Checksum : string; SrcPeerID : string
}.
Definition set_Version (h : FileHeader) (v : Z) : FileHeader :=
  MkHeader v (Filename h) (Size h) (Mode h) (h_FileType h) (ModTime h) (Checksum h) (SrcPeerID h).
Definition set_Checksum (h : FileHeader) (c : string) : FileHeader :=
  MkHeader (Version h) (Filename h) (Size h) (Mode h) (h_FileType h) (ModTime h) c (SrcPeerID h).

Record TransferResult : Type := MkResult { rOK : bool; Message : string; Bytes : Z }.

(** ** Streams *)

(** How a stream ends: [io.EOF], or the text of another error. *)
Inductive stream_end : Type := AtEOF | Broken (e : string).

(** What a stream still holds: the bytes to come and how they end, what was
    written, and, when writes are to fail, after how many more bytes. *)
Record View : Type := MkView {
  v_in : list byte; v_end : stream_end; v_out : list byte; v_room : option (nat * string)
}.
Definition set_in (v : View) (l : list byte) : View := MkView l (v_end v) (v_out v) (v_room v).

Definition v_write (p : list byte) (v : View) : option string * View :=
  match v_room v with
  | None => (None, MkView (v_in v) (v_end v) (v_out v ++ p) None)
  | Some (k, e) =>
      if (length p <=? k)%nat
      then (None, MkView (v_in v) (v_end v) (v_out v ++ p) (Some ((k - length p)%nat, e)))
      else (Some e, MkView (v_in v) (v_end v) (v_out v ++ take k p) (Some (O, e)))
  end.

(** [io.ReadWriter], with [SetDeadline] where the type has it. *)
Class ReadWriter (R : Type) : Type := {
  Read : Z -> R -> list byte * option stream_end * R;
  Write : list byte -> R -> option string * R;
  asDeadline : option (Z -> R -> R)
}.

(** What the protocol relies on: a read of a positive number of bytes
    returns at least one while there are some. *)
Class Stream (R : Type) `{ReadWriter R} : Type := {
  view : R -> View;
  Read_more n r : 0 < n -> v_in (view r) <> [] ->
    exists b r', Read n r = (b, None, r') /\ b <> [] /\ len b <= n /\
                 view r = set_in (view r') (b ++ v_in (view r'));
  Read_end n r : 0 < n -> v_in (view r) = [] ->
    exists r', Read n r = ([], Some (v_end (view r)), r') /\ view r' = view r;
  Write_view p r : prod_map id view (Write p r) = v_write p (view r);
  deadline_view set d r : asDeadline = Some set -> view (set d r) = view r
}.

(** *** A connection whose bytes arrive in pieces *)
Record Conn : Type := MkConn {
  arrivals : list (list byte); c_end : stream_end; sent : list byte; c_room : option (nat * string);
  c_deadline : option Z; closed : bool
}.

Fixpoint next_piece (n : Z) (l : list (list byte)) : option (list byte * list (list byte)) :=
  match l with
  | [] => None
  | [] :: l => next_piece n l
  | p :: l => Some (take (Z.to_nat n) p, drop (Z.to_nat n) p :: l)
  end.

Definition conn_Read (n : Z) (c : Conn) : list byte * option stream_end * Conn :=
  match next_piece n (arrivals c) with
  | None => ([], Some (c_end c), c)
  | Some (b, l) => (b, None, MkConn l (c_end c) (sent c) (c_room c) (c_deadline c) (closed c))
  end.

Definition conn_view (c : Conn) : View := MkView (concat (arrivals c)) (c_end c) (sent c) (c_room c).

Definition conn_Write (p : list byte) (c : Conn) : option string * Conn :=
  let '(e, v) := v_write p (conn_view c) in
  (e, MkConn (arrivals c) (c_end c) (v_out v) (v_room v) (c_deadline c) (closed c)).
Definition conn_SetDeadline (d : Z) (c : Conn) : Conn :=
  MkConn (arrivals c) (c_end c) (sent c) (c_room c) (Some d) (closed c).
Definition conn_Close (c : Conn) : Conn :=
  MkConn (arrivals c) (c_end c) (sent c) (c_room c) (c_deadline c) true.

#[export] Instance conn_rw : ReadWriter Conn :=
  {| Read := conn_Read; Write := conn_Write; asDeadline := Some conn_SetDeadline |}.

(** *** Bytes put back in front of a stream *)
Record prefixReader (R : Type) : Type := MkPrefix { prefix : list byte; offset : nat; rest : R }.
#[global] Arguments MkPrefix {R} _ _ _.
#[global] Arguments prefix {R} _.
#[global] Arguments offset {R} _.
#[global] Arguments rest {R} _.

Definition newPrefixReader {R} (p : list byte) (r : R) : prefixReader R := MkPrefix p 0 r.

Definition prefix_Read `{ReadWriter R} (n : Z) (pr : prefixReader R)
  : list byte * option stream_end * prefixReader R :=
  if (offset pr <? length (prefix pr))%nat then
    let b := take (Z.to_nat n) (drop (offset pr) (prefix pr)) in
    (b, None, MkPrefix (prefix pr) (offset pr + length b) (rest pr))
  else let '(b, e, r) := Read n (rest pr) in (b, e, MkPrefix (prefix pr) (offset pr) r).

Definition prefix_Write `{ReadWriter R} (p : list byte) (pr : prefixReader R)
  : option string * prefixReader R :=
  let '(e, r) := Write p (rest pr) in (e, MkPrefix (prefix pr) (offset pr) r).

(** It has no [SetDeadline]. *)
#[export] Instance prefix_rw `{ReadWriter R} : ReadWriter (prefixReader R) :=
  {| Read := prefix_Read; Write := prefix_Write; asDeadline := None |}.

(** ** Reading and copying *)

Definition end_text (e : stream_end) : string := match e with AtEOF => "EOF" | Broken m => m end.

Section Io.
Context {R : Type} `{ReadWriter R}.

(** [io.ReadFull]: the fuel is the number of bytes wanted, one read per
    step at least one byte. *)
Fixpoint read_loop (fuel : nat) (n : Z) (acc : list byte) (r : R) : list byte * option stream_end * R :=
  if n <=? 0 then (acc, None, r)
  else match fuel with
       | O => (acc, None, r)
       | S fuel =>
           match Read n r with
           | (b, None, r) => read_loop fuel (n - len b) (acc ++ b) r
           | (b, Some e, r) => (acc ++ b, Some e, r)
           end
       end.

Definition ReadFull (n : Z) (r : R) : result string (list byte) * R :=
  match read_loop (Z.to_nat n) n [] r with
  | (b, None, r) => (Ok b, r)
  | (_, Some (Broken m), r) => (Err m, r)
  | ([], Some AtEOF, r) => (Err "EOF"%string, r)
  | (_, Some AtEOF, r) => (Err "unexpected EOF"%string, r)
  end.

(** A file that takes [k] more bytes and then fails to be written. *)
Definition sink : Type := option (nat * string).
Definition sink_write (b : list byte) (s : sink) : list byte * option string * sink :=
  match s with
  | None => (b, None, None)
  | Some (k, e) =>
      if (length b <=? k)%nat then (b, None, Some ((k - length b)%nat, e))
      else (take k b, Some e, Some (O, e))
  end.

(** [io.Copy(f, io.LimitReader(r, n))] with its buffer of 32 KB. *)
Definition copyBuffer : Z := 32 * 1024.
Fixpoint copy_loop (fuel : nat) (n : Z) (s : sink) (acc : list byte) (r : R)
  : list byte * option string * R :=
  match fuel with
  | O => (acc, None, r)
  | S fuel =>
      if n <=? 0 then (acc, None, r)
      else match Read (Z.min copyBuffer n) r with
           | (b, e, r) =>
               match sink_write b s with
               | (w, Some err, _) => (acc ++ w, Some err, r)
               | (w, None, s) =>
                   match e with
                   | Some AtEOF => (acc ++ w, None, r)
                   | Some (Broken m) => (acc ++ w, Some m, r)
                   | None => copy_loop fuel (n - len b) s (acc ++ w) r
                   end
               end
           end
  end.
Definition Copy (s : sink) (n : Z) (r : R) : list byte * option string * R :=
  copy_loop (S (Z.to_nat n)) n s [] r.

(** *** Framed JSON *)
Definition maxFrame : Z := 2 ^ 20.

Definition readFramedJSON {T} (unmarshal : list byte -> result string T) (r : R)
  : result string T * R :=
  match ReadFull 4 r with
  | (Err e, r) => (Err ("read length: " +:+ e)%string, r)
  | (Ok b, r) =>
      let length := be_Z b in
      if length >? maxFrame then (Err ("header too large: " +:+ itoa length +:+ " bytes")%string, r)
      else match ReadFull length r with
           | (Err e, r) => (Err ("read json: " +:+ e)%string, r)
           | (Ok buf, r) =>
               match unmarshal buf with
               | Err e => (Err ("unmarshal json: " +:+ e)%string, r)
               | Ok v => (Ok v, r)
               end
           end
  end.

Definition frame (data : list byte) : list byte := be_bytes 4 (u32 (len data)) ++ data.

(** [sendResult]: what the writes return is ignored. *)
Definition sendResult (marshal : TransferResult -> result string (list byte)) (res : TransferResult) (r : R) : R :=
  match marshal res with
  | Err _ => r
  | Ok data => snd (Write data (snd (Write (be_bytes 4 (u32 (len data))) r)))
  end.

(** [ctx.Deadline()] is [None] when the context has none. *)
Definition applyDeadline (now : Z) (ctx : option Z) (r : R) : R :=
  match asDeadline with
  | None => r
  | Some set =>
      let deadline := now + DefaultTimeout in
      set (match ctx with Some dl => if dl <? deadline then dl else deadline | None => deadline end) r
  end.
End Io.

Definition sanitizeFilename (name : string) : string :=
  if String.eqb name "" then ""
  else
    let base := Path.Base name in
    if String.eqb base "." || String.eqb base ".." || String.eqb base "" then "" else base.

(** ** The file system *)

Inductive node : Type := Dir (mode mtime : Z) | File (mode : Z) (content : list byte) (mtime : Z).
#[export] Instance node_eq_dec : EqDecision node.
Proof. solve_decision. Defined.

(** Nodes by clean path, the root and the working directory among them. A
    directory keeps the time of its creation. *)
Abbreviation FS := (gmap string node).
Definition key (p : string) : string := Path.Clean p.
Definition text (r : bool) (es : list (list byte)) : string := string_of_bytes (Path.text r es).
Definition rootedS (p : string) : bool := Path.rooted (bytes_of_string p).
Definition elementsS (p : string) : list (list byte) := Path.elements (bytes_of_string p).

(** The clean prefixes of a path, itself last. *)
Definition ancestors (p : string) : list string :=
  let es := elementsS p in
  (fun n => text (rootedS p) (take (S n) es)) <$> seq 0 (length es).
Definition parent (p : string) : string :=
  let es := elementsS p in text (rootedS p) (take (length es - 1) es).
Definition is_dir (fs : FS) (p : string) : bool :=
  match fs !! key p with Some (Dir _ _) => true | _ => false end.

(** [syscallMode]: the permission bits, and [ModeSetuid], [ModeSetgid] and
    [ModeSticky] at their places in a Unix mode. *)
Definition syscallMode (m : Z) : Z :=
  Z.lor (Z.land m 511)
    (Z.lor (if Z.testbit m 23 then 2048 else 0)
       (Z.lor (if Z.testbit m 22 then 1024 else 0) (if Z.testbit m 20 then 512 else 0))).

Inductive sysop : Type :=
  OpStat | OpMkdir | OpOpen | OpCreate | OpRead | OpSeek | OpWrite | OpClose | OpRemove | OpChtimes.

(** The operating system: the error of a call that fails for a reason the
    map of nodes does not show, how much of a file can be written, the mask
    of new files, the clock. *)
Record OS : Type := MkOS {
  fault : sysop -> string -> option string; file_room : string -> sink; umask : Z; now : Z
}.

Definition new_dir (os : OS) (perm : Z) : node := Dir (Z.ldiff (Z.land (syscallMode perm) 1023) (umask os)) (now os).
Definition new_file (os : OS) (perm : Z) : node := File (Z.ldiff (syscallMode perm) (umask os)) [] (now os).

Definition mkdir_step (os : OS) (perm : Z) (st : option string * FS) (k : string) : option string * FS :=
  match st with
  | (Some _, _) => st
  | (None, fs) =>
      match fs !! k with
      | Some (Dir _ _) => st
      | Some (File _ _ _) => (Some ("mkdir " +:+ k +:+ ": not a directory")%string, fs)
      | None =>
          match fault os OpMkdir k with
          | Some e => (Some e, fs)
          | None => (None, <[k := new_dir os perm]> fs)
          end
      end
  end.
(** [os.MkdirAll] *)
Definition MkdirAll (os : OS) (p : string) (perm : Z) (fs : FS) : option string * FS :=
  if String.eqb p "" then (Some "mkdir : no such file or directory"%string, fs)
  else foldl (mkdir_step os perm) (None, fs) (ancestors p).

(** [os.OpenFile] to create or truncate. *)
Definition OpenTrunc (os : OS) (p : string) (perm : Z) (fs : FS) : result string FS :=
  match fault os OpCreate p with
  | Some e => Err e
  | None =>
      if is_dir fs p then Err ("open " +:+ p +:+ ": is a directory")%string
      else match fs !! key p with
           | Some (File m _ _) => Ok (<[key p := File m [] (now os)]> fs)
           | _ =>
               if is_dir fs (parent p) then Ok (<[key p := new_file os perm]> fs)
               else Err ("open " +:+ p +:+ ": no such file or directory")%string
           end
  end.

Definition put_content (os : OS) (p : string) (data : list byte) (fs : FS) : FS :=
  match fs !! key p with
  | Some (File m _ _) => <[key p := File m data (now os)]> fs
  | _ => fs
  end.
(** [os.Remove] and [os.Chtimes], whose errors the code ignores. *)
Definition Remove (os : OS) (p : string) (fs : FS) : FS :=
  match fault os OpRemove p with Some _ => fs | None => delete (key p) fs end.
Definition Chtimes (os : OS) (p : string) (t : Z) (fs : FS) : FS :=
  match fault os OpChtimes p, fs !! key p with
  | None, Some (File m c _) => <[key p := File m c t]> fs
  | _, _ => fs
  end.

(** ** The protocol *)
Section Protocol.
Context (os : OS).
Context (sha256 : list byte -> list byte).
Context (marshal_header : FileHeader -> result string (list byte)).
Context (unmarshal_header : list byte -> result string FileHeader).
Context (marshal_result : TransferResult -> result string (list byte)).
Context (unmarshal_result : list byte -> result string TransferResult).
(** [time.Parse] and [Time.Format] with [time.RFC3339]. *)
Context (parseTime : string -> option Z) (formatTime : Z -> string).

Definition checksum (data : list byte) : string := Kx.EncodeToString (sha256 data).

(** *** The sender *)

(** The [io.Reader] that is sent; one that is an [io.Seeker] can be rewound. *)
Record Source : Type := MkSource {
  content : list byte; pos : nat; s_err : option string; seekable : bool; seek_fails : bool
}.
Definition remaining (s : Source) : list byte := drop (pos s) (content s).
Definition set_pos (s : Source) (n : nat) : Source :=
  MkSource (content s) n (s_err s) (seekable s) (seek_fails s).
Definition at_end (s : Source) : Source := set_pos s (length (content s)).
Definition rewind (s : Source) : Source := if seek_fails s then s else set_pos s 0.

Definition has_data (h : FileHeader) : bool :=
  String.eqb (h_FileType h) FileTypeRegular && (0 <? Size h).

(** The checksum that goes out with the header. *)
Definition pre_checksum (h : FileHeader) (src : Source) : FileHeader * Source :=
  if String.eqb (Checksum h) "" && has_data h && seekable src then
    (match s_err src with None => set_Checksum h (checksum (remaining src)) | Some _ => h end,
     rewind (at_end src))
  else (h, src).

Context {R : Type} `{ReadWriter R}.

Definition SendWithContext (ctx : option Z) (conn : R) (src : Source) (header : FileHeader)
  : result string TransferResult * R * Source * FileHeader :=
  let header := if Version header =? 0 then set_Version header ProtocolVersion else header in
  let conn := applyDeadline (now os) ctx conn in
  let '(header, src) := pre_checksum header src in
  match marshal_header header with
  | Err e => (Err ("marshal header: " +:+ e)%string, conn, src, header)
  | Ok json =>
      match Write (be_bytes 4 (u32 (len json))) conn with
      | (Some e, conn) => (Err ("write header length: " +:+ e)%string, conn, src, header)
      | (None, conn) =>
          match Write json conn with
          | (Some e, conn) => (Err ("write header: " +:+ e)%string, conn, src, header)
          | (None, conn) =>
              let ack conn src header :=
                match readFramedJSON unmarshal_result conn with
                | (Err e, conn) => (Err ("read ack: " +:+ e)%string, conn, src, header)
                | (Ok res, conn) => (Ok res, conn, src, header)
                end in
              if has_data header then
                let data := remaining src in
                match Write data conn with
                | (Some e, conn) => (Err ("write file data: " +:+ e)%string, conn, at_end src, header)
                | (None, conn) =>
                    match s_err src with
                    | Some e => (Err ("write file data: " +:+ e)%string, conn, at_end src, header)
                    | None =>
                        if negb (len data =? Size header) then
                          (Err ("short write: wrote " +:+ itoa (len data) +:+ ", expected "
                                +:+ itoa (Size header))%string, conn, at_end src, header)
                        else
                          let header := if String.eqb (Checksum header) ""
                                        then set_Checksum header (checksum data) else header in
                          ack conn (at_end src) header
                    end
                end
              else ack conn src header
          end
      end
  end.

Definition Send (conn : R) (src : Source) (header : FileHeader)
  : result string TransferResult * R * Source * FileHeader :=
  SendWithContext None conn src header.

(** *** The receiver of one file

    What [Receive] returns (the header, the number of bytes and the error),
    the connection and the file system. *)
Definition received : Type := option FileHeader * Z * option string * R * FS.

Definition nack (conn : R) (msg : string) : R :=
  sendResult marshal_result (MkResult false msg 0) conn.

Definition verify_checksum (header : FileHeader) (data : list byte) : bool :=
  String.eqb (Checksum header) "" || String.eqb (checksum data) (Checksum header).

(** From the creation of the destination file. *)
Definition receive_file (conn : R) (destPath : string) (header : FileHeader) (fs : FS) : received :=
  match OpenTrunc os destPath (Mode header) fs with
  | Err e => (Some header, 0, Some ("create dest file: " +:+ e)%string, nack conn ("create file: " +:+ e), fs)
  | Ok fs =>
      match Copy (file_room os destPath) (Size header) conn with
      | (data, Some e, conn) =>
          (Some header, len data, Some ("write file data: " +:+ e)%string,
           nack conn ("write data: " +:+ e), Remove os destPath (put_content os destPath data fs))
      | (data, None, conn) =>
          let fs := put_content os destPath data fs in
          if negb (len data =? Size header) then
            let msg := ("short read: got " +:+ itoa (len data) +:+ ", expected " +:+ itoa (Size header))%string in
            (Some header, len data, Some msg, nack conn msg, Remove os destPath fs)
          else match fault os OpClose destPath with
               | Some e =>
                   (Some header, len data, Some ("close dest file: " +:+ e)%string,
                    nack conn ("close file: " +:+ e), fs)
               | None =>
                   let fs := if String.eqb (ModTime header) "" then fs
                             else match parseTime (ModTime header) with
                                  | Some t => Chtimes os destPath t fs
                                  | None => fs
                                  end in
                   if verify_checksum header data then
                     (Some header, len data, None,
                      sendResult marshal_result (MkResult true "" (len data)) conn, fs)
                   else
                     let msg := ("checksum mismatch: computed " +:+ checksum data +:+ ", expected "
                                 +:+ Checksum header)%string in
                     (Some header, 0, Some msg, nack conn msg, Remove os destPath fs)
               end
      end
  end.

(** From the header on. *)
Definition receive_header (conn : R) (destDir : string) (maxFileSize : Z) (header : FileHeader) (fs : FS)
  : received :=
  if negb (Version header =? ProtocolVersion) then
    let msg := ("unsupported protocol version " +:+ itoa (Version header))%string in
    (Some header, 0, Some msg, nack conn msg, fs)
  else if (0 <? maxFileSize) && (maxFileSize <? Size header) then
    let msg := ("file size " +:+ itoa (Size header) +:+ " exceeds maximum " +:+ itoa maxFileSize)%string in
    (Some header, 0, Some ("transfer rejected: " +:+ msg)%string, nack conn msg, fs)
  else
    let safeName := sanitizeFilename (Filename header) in
    if String.eqb safeName "" then
      (Some header, 0, Some "invalid filename after sanitization"%string, nack conn "invalid filename", fs)
    else match MkdirAll os destDir 493 fs with
         | (Some e, fs) =>
             (Some header, 0, Some ("create dest dir: " +:+ e)%string, nack conn ("mkdir: " +:+ e), fs)
         | (None, fs) =>
             let destPath := Path.Join destDir safeName in
             if String.eqb (h_FileType header) FileTypeDirectory then
               match MkdirAll os destPath (Mode header) fs with
               | (Some e, fs) =>
                   (Some header, 0, Some ("create directory: " +:+ e)%string, nack conn ("mkdir: " +:+ e), fs)
               | (None, fs) =>
                   (Some header, 0, None,
                    sendResult marshal_result (MkResult true "directory created" 0) conn, fs)
               end
             else receive_file conn destPath header fs
         end.

Definition ReceiveWithMaxSize (ctx : option Z) (conn : R) (destDir : string) (maxFileSize : Z) (fs : FS)
  : received :=
  let conn := applyDeadline (now os) ctx conn in
  match readFramedJSON unmarshal_header conn with
  | (Err e, conn) =>
      (None, 0, Some ("read header: " +:+ e)%string, nack conn ("header read: " +:+ e), fs)
  | (Ok header, conn) => receive_header conn destDir maxFileSize header fs
  end.

Definition Receive (conn : R) (destDir : string) (fs : FS) : received :=
  ReceiveWithMaxSize None conn destDir DefaultMaxFileSize fs.

(** *** Headers of local files *)
Definition MakeFileHeader (path srcPeerID : string) (fs : FS) : result string (FileHeader * option Source) :=
  match fault os OpStat path with
  | Some e => Err ("stat file: " +:+ e)%string
  | None =>
      match fs !! key path with
      | None => Err ("stat file: stat " +:+ path +:+ ": no such file or directory")%string
      | Some (Dir m t) =>
          Ok (MkHeader ProtocolVersion (Path.Base path) 0 (Z.land m 511) FileTypeDirectory
                (formatTime t) "" srcPeerID, None)
      | Some (File m c t) =>
          match fault os OpOpen path with
          | Some e => Err ("open file: " +:+ e)%string
          | None =>
              match fault os OpRead path with
              | Some e => Err ("compute checksum: " +:+ e)%string
              | None =>
                  match fault os OpSeek path with
                  | Some e => Err ("seek file: " +:+ e)%string
                  | None =>
                      Ok (MkHeader ProtocolVersion (Path.Base path) (len c) (Z.land m 511)
                            FileTypeRegular (formatTime t) (checksum c) srcPeerID,
                          Some (MkSource c 0 None true false))
                  end
              end
          end
      end
  end.

(** [peekFileHeader]: the header and the bytes it was read from. *)
Definition peekFileHeader (conn : R) : result string (FileHeader * list byte) * R :=
  match ReadFull 4 conn with
  | (Err e, conn) => (Err ("read length: " +:+ e)%string, conn)
  | (Ok b, conn) =>
      let length := be_Z b in
      if length >? maxFrame then (Err ("header too large: " +:+ itoa length +:+ " bytes")%string, conn)
      else match ReadFull length conn with
           | (Err e, conn) => (Err ("read json: " +:+ e)%string, conn)
           | (Ok jsonBuf, conn) =>
               match unmarshal_header jsonBuf with
               | Err e => (Err ("unmarshal json: " +:+ e)%string, conn)
               | Ok header => (Ok (header, be_bytes 4 length ++ jsonBuf), conn)
               end
           end
  end.
End Protocol.
#[global] Arguments received R : clear implicits.

(** ** The receiver *)

Record Receiver : Type := MkReceiver {
  port : Z; destDir : string; maxFileSize : Z; authChecker : option (string -> bool);
  listening : bool; stopped : bool
}.
Definition NewReceiver (port : Z) (destDir : string) : Receiver :=
  MkReceiver port destDir DefaultMaxFileSize None false false.
Definition NewReceiverWithAuth (port : Z) (destDir : string) (max : Z) (checker : option (string -> bool))
  : Receiver :=
  MkReceiver port destDir (if max =? 0 then DefaultMaxFileSize else max) checker false false.

(** [ListenMesh] is an argument. *)
Definition Start (ListenMesh : Z -> option string) (r : Receiver) : option string * Receiver :=
  match ListenMesh (port r) with
  | Some e => (Some ("listen on mesh port " +:+ itoa (port r) +:+ ": " +:+ e)%string, r)
  | None => (None, MkReceiver (port r) (destDir r) (maxFileSize r) (authChecker r) true (stopped r))
  end.
Definition Stop (r : Receiver) : Receiver :=
  if stopped r then r
  else MkReceiver (port r) (destDir r) (maxFileSize r) (authChecker r) (listening r) true.

Section Receiving.
Context (os : OS).
Context (sha256 : list byte -> list byte).
Context (unmarshal_header : list byte -> result string FileHeader).
Context (marshal_result : TransferResult -> result string (list byte)).
Context (parseTime : string -> option Z).

Abbreviation receive := (ReceiveWithMaxSize os sha256 unmarshal_header marshal_result parseTime).

Definition handleConn (r : Receiver) (conn : Conn) (fs : FS) : Conn * FS :=
  match authChecker r with
  | Some authorize =>
      match peekFileHeader unmarshal_header conn with
      | (Err e, conn) => (conn_Close (nack marshal_result conn ("header read: " +:+ e)), fs)
      | (Ok (header, headerBytes), conn) =>
          if negb (authorize (SrcPeerID header)) then
            (conn_Close (nack marshal_result conn "unauthorized: file_transfer capability denied"), fs)
          else
            let '(_, _, _, pr, fs) := receive None (newPrefixReader headerBytes conn) (destDir r) (maxFileSize r) fs in
            (conn_Close (rest pr), fs)
      end
  | None =>
      let '(_, _, _, conn, fs) := receive None conn (destDir r) (maxFileSize r) fs in
      (conn_Close conn, fs)
  end.

(** The accept loop over what [Accept] returns in turn, each result with
    whether [stopCh] is closed by then. A connection is handled by a
    goroutine of its own; here one after the other. *)
Fixpoint acceptLoop (r : Receiver) (accepts : list (result string Conn * bool)) (fs : FS)
  : list Conn * FS :=
  match accepts with
  | [] => ([], fs)
  | (Err _, true) :: _ => ([], fs)
  | (Err _, false) :: accepts => acceptLoop r accepts fs
  | (Ok conn, _) :: accepts =>
      let '(conn, fs) := handleConn r conn fs in
      let '(done, fs) := acceptLoop r accepts fs in
      (conn :: done, fs)
  end.
End Receiving.

(** ** Connections and prefixed connections are streams *)

Lemma next_piece_concat n l :
  match next_piece n l with
  | None => concat l = []
  | Some (b, l') => concat l = b ++ concat l' /\ (0 < n -> b <> []) /\ len b <= Z.max 0 n
  end.
Proof.
  induction l as [|p l IH]; cbn [next_piece]; [done|]. destruct p as [|x p]; [done|].
  cbn [concat]. split_and!.
  - by rewrite app_assoc, take_drop.
  - intros Hn. destruct (Z.to_nat n) eqn:E; [lia | done].
  - rewrite length_take. lia.
Qed.

#[export] Instance conn_stream : Stream Conn.
Proof.
  refine {| view := conn_view |}.
  - intros n c Hn Hne. cbn [Read conn_rw]. unfold conn_Read. pose proof (next_piece_concat n (arrivals c)) as Hp.
    destruct (next_piece n (arrivals c)) as [[b l]|]; [|done]. destruct Hp as (Hc & Hb & Hl).
    eexists b, _. split_and!; [done | by apply Hb | lia |]. unfold conn_view, set_in. cbn. by rewrite Hc.
  - intros n c Hn Hnil. cbn [Read conn_rw]. unfold conn_Read. pose proof (next_piece_concat n (arrivals c)) as Hp.
    destruct (next_piece n (arrivals c)) as [[b l]|]; [|by exists c].
    destruct Hp as (Hc & Hb & _). cbn in Hnil. rewrite Hc in Hnil. apply app_eq_nil in Hnil as [-> _]. by destruct (Hb Hn).
  - intros p c. cbn [Write conn_rw]. unfold conn_Write, v_write. cbn. destruct (c_room c) as [[k e]|]; [|done].
    by destruct (length p <=? k)%nat.
  - intros set d c. cbn. by intros [= <-].
Defined.

#[export] Instance prefix_stream `{Stream R} : Stream (prefixReader R).
Proof.
  refine {| view := fun pr => set_in (view (rest pr)) (drop (offset pr) (prefix pr) ++ v_in (view (rest pr))) |}.
  - intros n pr Hn Hne. cbn [Read prefix_rw]. unfold prefix_Read. destruct (Nat.ltb_spec (offset pr) (length (prefix pr))) as [Ho|Ho].
    + eexists _, _. split_and!; [done | | rewrite length_take; lia |].
      * intros E. apply (f_equal length) in E. rewrite length_take, length_drop in E. cbn [length] in E. lia.
      * cbn. unfold set_in. f_equal. cbn. rewrite app_assoc. f_equal.
        rewrite <-(take_drop (Z.to_nat n) (drop (offset pr) (prefix pr))) at 1. f_equal.
        rewrite drop_drop. rewrite length_take, length_drop.
        destruct (Nat.min_spec (Z.to_nat n) (length (prefix pr) - offset pr)) as [[Hm ->] | [Hm ->]]; [done|].
        by rewrite !drop_ge by lia.
    + cbn in Hne. rewrite drop_ge in * by done. cbn [app] in Hne.
      destruct (Read_more n (rest pr) Hn Hne) as (b & r' & -> & Hb & Hl & Hv).
      eexists b, _. split_and!; [done..|]. cbn. rewrite drop_ge by done. cbn [app]. by rewrite Hv.
  - intros n pr Hn Hnil. cbn in Hnil. apply app_eq_nil in Hnil as [Hd Hi]. cbn [Read prefix_rw]. unfold prefix_Read.
    apply (f_equal length) in Hd. rewrite length_drop in Hd. cbn [length] in Hd.
    rewrite (proj2 (Nat.ltb_ge _ _)) by lia. destruct (Read_end n (rest pr) Hn Hi) as (r' & -> & Hv).
    eexists. split; [done|]. cbn. by rewrite Hv.
  - intros p pr. cbn [Write prefix_rw]. unfold prefix_Write. pose proof (Write_view p (rest pr)) as Hw.
    destruct (Write p (rest pr)) as [e r']. cbn in Hw |- *. unfold v_write in *. cbn.
    destruct (v_room (view (rest pr))) as [[k x]|].
    + destruct (length p <=? k)%nat; injection Hw as -> ->; done.
    + by injection Hw as -> ->.
  - intros set d pr. done.
Defined.

(** ** Reading in one piece *)

Section View.
Context {R : Type} `{Stream R}.

(** What [ReadFull] returns and leaves. *)
Definition v_full (n : Z) (v : View) : result string (list byte) :=
  if n <=? 0 then Ok []
  else if n <=? len (v_in v) then Ok (take (Z.to_nat n) (v_in v))
  else Err match v_end v, v_in v with
           | Broken m, _ => m
           | AtEOF, [] => "EOF"%string
           | AtEOF, _ => "unexpected EOF"%string
           end.
Definition v_after (n : Z) (v : View) : View := set_in v (drop (Z.to_nat n) (v_in v)).

Lemma set_in_id v : set_in v (v_in v) = v.
Proof. by destruct v. Qed.

Lemma read_loop_view fuel n acc r :
  n <= Z.of_nat fuel ->
  exists r', read_loop fuel n acc r =
               (acc ++ take (Z.to_nat n) (v_in (view r)),
                if n <=? len (v_in (view r)) then None
                else if n <=? 0 then None else Some (v_end (view r)), r') /\
             view r' = v_after n (view r).
Proof.
  revert n acc r. induction fuel as [|fuel IH]; intros n acc r Hf; cbn [read_loop];
    destruct (Z.leb_spec n 0) as [Hn|Hn]; try lia.
  1, 2: exists r; rewrite Z2Nat.nonpos by done; cbn [take]; rewrite app_nil_r;
    unfold v_after; rewrite Z2Nat.nonpos, drop_0, set_in_id by done; split; [by case_match | done].
  destruct (decide (v_in (view r) = [])) as [Hi|Hi].
  - destruct (Read_end n r Hn Hi) as (r' & -> & Hv). exists r'. rewrite Hi. cbn [length].
    rewrite (proj2 (Z.leb_gt _ _)) by lia. split; [by rewrite take_nil|].
    rewrite Hv. unfold v_after. rewrite Hi, drop_nil. revert Hi. destruct (view r). by cbn; intros ->.
  - destruct (Read_more n r Hn Hi) as (b & r' & -> & Hb & Hl & Hv).
    assert (0 < len b) by (destruct b; [done|]; cbn [length]; lia).
    destruct (IH (n - len b) (acc ++ b) r' ltac:(lia)) as (r2 & -> & Hv2). exists r2.
    assert (v_in (view r) = b ++ v_in (view r')) as Ei by by rewrite Hv.
    assert (v_end (view r) = v_end (view r')) as Ee by by rewrite Hv.
    rewrite Ei, Ee. split.
    + f_equal. f_equal.
      * rewrite <-app_assoc. f_equal. rewrite take_app_ge by lia. f_equal. f_equal. lia.
      * rewrite length_app. repeat case_match; to_prop; try lia; try done.
    + rewrite Hv2, Hv. unfold v_after, set_in. cbn. f_equal. rewrite drop_app_ge by lia. f_equal. lia.
Qed.

Lemma ReadFull_view n r :
  exists r', ReadFull n r = (v_full n (view r), r') /\ view r' = v_after n (view r).
Proof.
  unfold ReadFull, v_full. destruct (read_loop_view (Z.to_nat n) n [] r) as (r' & -> & Hv); [lia|].
  exists r'. split; [|done]. cbn [app]. destruct (Z.leb_spec n 0).
  - rewrite Z2Nat.nonpos by done. cbn [take]. by destruct (n <=? len _); try destruct (v_in _).
  - destruct (Z.leb_spec n (len (v_in (view r)))) as [|Hlt]; [by destruct (take _ _)|].
    rewrite take_ge by lia. by destruct (v_end (view r)), (v_in (view r)).
Qed.

(** What a copy writes and how it ends. *)
Definition v_copy (s : sink) (n : Z) (v : View) : list byte * option string :=
  match sink_write (take (Z.to_nat n) (v_in v)) s with
  | (w, Some e, _) => (w, Some e)
  | (w, None, _) =>
      (w, if n <=? len (v_in v) then None
          else match v_end v with AtEOF => None | Broken m => Some m end)
  end.

Lemma sink_write_app b d s :
  sink_write (b ++ d) s =
  match sink_write b s with
  | (w, Some e, s') => (w, Some e, s')
  | (w, None, s') => let '(w', e, s'') := sink_write d s' in (w ++ w', e, s'')
  end.
Proof.
  destruct s as [[k e]|]; [|done]. cbn. rewrite length_app.
  destruct (Nat.leb_spec (length b) k) as [Hb|Hb].
  - cbn. destruct (Nat.leb_spec (length d) (k - length b)).
    + rewrite (proj2 (Nat.leb_le _ _)) by lia. do 3 f_equal. lia.
    + rewrite (proj2 (Nat.leb_gt _ _)) by lia. do 2 f_equal. by rewrite take_app_ge by lia.
  - rewrite (proj2 (Nat.leb_gt _ _)) by lia. by rewrite take_app_le by lia.
Qed.

Lemma sink_write_nil s : sink_write [] s = ([], None, s).
Proof. destruct s as [[[|k] e]|]; done. Qed.

Lemma sink_write_fits b s w s' : sink_write b s = (w, None, s') -> w = b.
Proof. destruct s as [[k e]|]; cbn; [case_match|]; congruence. Qed.

Lemma copy_loop_view fuel n s acc r :
  n < Z.of_nat fuel ->
  exists r', copy_loop fuel n s acc r =
               (acc ++ fst (v_copy s n (view r)), snd (v_copy s n (view r)), r') /\
             v_out (view r') = v_out (view r) /\ v_room (view r') = v_room (view r) /\
             (snd (sink_write (take (Z.to_nat n) (v_in (view r))) s).1 = None -> view r' = v_after n (view r)).
Proof.
  revert n s acc r. induction fuel as [|fuel IH]; intros n s acc r Hf; cbn [copy_loop].
  { exists r. unfold v_copy, v_after. rewrite Z2Nat.nonpos by lia. cbn [take]. rewrite sink_write_nil, drop_0, set_in_id.
    cbn. rewrite app_nil_r. split_and!; try done. rewrite (proj2 (Z.leb_le _ _)) by lia. done. }
  destruct (Z.leb_spec n 0) as [Hn|Hn].
  { exists r. unfold v_copy, v_after. rewrite Z2Nat.nonpos by lia. cbn [take]. rewrite sink_write_nil, drop_0, set_in_id.
    cbn. rewrite app_nil_r. split_and!; try done. rewrite (proj2 (Z.leb_le _ _)) by lia. done. }
  assert (0 < Z.min copyBuffer n) as Hm by (unfold copyBuffer; lia).
  destruct (decide (v_in (view r) = [])) as [Hi|Hi].
  - destruct (Read_end _ r Hm Hi) as (r' & -> & Hv). exists r'. rewrite sink_write_nil. unfold v_copy, v_after.
    rewrite Hi, take_nil, drop_nil, sink_write_nil, (proj2 (Z.leb_gt _ _)) by done. rewrite Hv. cbn [fst snd].
    split; [by destruct (v_end (view r))|]. split_and!; [done..|]. intros _. revert Hi. destruct (view r). by cbn; intros ->.
  - destruct (Read_more _ r Hm Hi) as (b & r' & -> & Hb & Hl & Hv).
    assert (0 < len b) by (destruct b; [done|]; cbn [length]; lia).
    assert (take (Z.to_nat n) (b ++ v_in (view r')) = b ++ take (Z.to_nat (n - len b)) (v_in (view r'))) as Et.
    { rewrite take_app_ge by lia. f_equal. f_equal. lia. }
    rewrite Hv. unfold v_copy, v_after. cbn [v_in set_in v_out v_room v_end]. rewrite Et, sink_write_app.
    destruct (sink_write b s) as [[w [e|]] s'] eqn:Es; [by exists r'|].
    pose proof (sink_write_fits _ _ _ _ Es) as ->.
    destruct (IH (n - len b) s' (acc ++ b) r' ltac:(lia)) as (r2 & -> & Ho & Hr & Hin). exists r2.
    unfold v_copy, v_after in *. rewrite Ho, Hr.
    destruct (sink_write (take _ (v_in (view r'))) s') as [[w' e'] s''] eqn:Es'. cbn [fst snd] in *.
    split_and!; [|done..|].
    + rewrite length_app. rewrite <-!app_assoc. destruct e' as [e'|]; cbn [fst snd]; [done|].
      do 2 f_equal. repeat case_match; to_prop; try done; lia.
    + intros He. rewrite (Hin He). unfold set_in. cbn. f_equal. rewrite drop_app_ge by lia. f_equal. lia.
Qed.

Lemma Copy_view s n r :
  exists r', Copy s n r = (fst (v_copy s n (view r)), snd (v_copy s n (view r)), r') /\
             v_out (view r') = v_out (view r) /\ v_room (view r') = v_room (view r).
Proof.
  unfold Copy. destruct (copy_loop_view (S (Z.to_nat n)) n s [] r) as (r' & -> & Ho & Hr & _); [lia|]. by exists r'.
Qed.

Lemma Write_out p r :
  exists r', Write p r = (fst (v_write p (view r)), r') /\ view r' = snd (v_write p (view r)).
Proof.
  pose proof (Write_view p r) as Hw. destruct (Write p r) as [e r']. cbn in Hw. exists r'. by rewrite <-Hw.
Qed.

Lemma applyDeadline_view t ctx r : view (applyDeadline t ctx r) = view r.
Proof.
  unfold applyDeadline. destruct asDeadline as [set|] eqn:E; [|done]. by apply deadline_view.
Qed.

(** A frame as it is read: its payload and what follows it, or the error. *)
Definition v_frame (v : View) : result string (list byte) * View :=
  match v_full 4 v with
  | Err e => (Err ("read length: " +:+ e)%string, v_after 4 v)
  | Ok b =>
      let n := be_Z b in
      if n >? maxFrame then (Err ("header too large: " +:+ itoa n +:+ " bytes")%string, v_after 4 v)
      else (map_err (fun e => "read json: " +:+ e)%string (v_full n (v_after 4 v)), v_after n (v_after 4 v))
  end.

Lemma readFramedJSON_view {T} (un : list byte -> result string T) r :
  exists r', readFramedJSON un r =
               (match fst (v_frame (view r)) with
                | Ok buf => map_err (fun e => "unmarshal json: " +:+ e)%string (un buf)
                | Err e => Err e
                end, r') /\ view r' = snd (v_frame (view r)).
Proof.
  unfold readFramedJSON, v_frame. destruct (ReadFull_view 4 r) as (r1 & -> & H1).
  destruct (v_full 4 (view r)) as [b|e]; [|by exists r1]. cbv zeta.
  destruct (be_Z b >? maxFrame); [by exists r1|]. destruct (ReadFull_view (be_Z b) r1) as (r2 & -> & H2).
  rewrite H1 in *. exists r2. destruct (v_full (be_Z b) (v_after 4 (view r))) as [buf|e]; cbn [map_err fst snd]; [|done].
  by destruct (un buf).
Qed.

Lemma peek_view (un : list byte -> result string FileHeader) r :
  exists r', peekFileHeader un r =
               (match fst (v_frame (view r)) with
                | Ok buf => match un buf with
                            | Ok h => Ok (h, be_bytes 4 (len buf) ++ buf)
                            | Err e => Err ("unmarshal json: " +:+ e)%string
                            end
                | Err e => Err e
                end, r') /\ view r' = snd (v_frame (view r)).
Proof.
  unfold peekFileHeader, v_frame. destruct (ReadFull_view 4 r) as (r1 & -> & H1).
  destruct (v_full 4 (view r)) as [b|e] eqn:Eb; [|by exists r1]. cbv zeta.
  destruct (be_Z b >? maxFrame); [by exists r1|]. destruct (ReadFull_view (be_Z b) r1) as (r2 & -> & H2).
  rewrite H1 in *. exists r2. destruct (v_full (be_Z b) (v_after 4 (view r))) as [buf|e] eqn:Ef; cbn [map_err fst snd]; [|done].
  assert (len buf = be_Z b) as ->; [|by destruct (un buf)].
  pose proof (be_Z_range b). unfold v_full in Ef. repeat case_hyp Ef; simplify_eq; to_prop; cbn [length]; [lia|].
  rewrite length_take. cbn [v_after set_in v_in] in *. lia.
Qed.
End View.

(** ** Outcomes depend on what a stream holds, not on its kind *)

Definition outs (v : View) : list byte * option (nat * string) := (v_out v, v_room v).

Lemma v_write_outs p v1 v2 :
  outs v1 = outs v2 ->
  fst (v_write p v1) = fst (v_write p v2) /\ outs (snd (v_write p v1)) = outs (snd (v_write p v2)).
Proof.
  unfold outs, v_write. intros [= -> ->]. destruct (v_room v2) as [[k e]|]; [|done]. by destruct (_ <=? _)%nat.
Qed.

Lemma sendResult_outs {R1 R2} `{Stream R1, Stream R2} m res (r1 : R1) (r2 : R2) :
  outs (view r1) = outs (view r2) ->
  outs (view (sendResult m res r1)) = outs (view (sendResult m res r2)).
Proof.
  intros Ho. unfold sendResult. destruct (m res) as [data|]; [|done].
  destruct (Write_out (be_bytes 4 (u32 (len data))) r1) as (a1 & -> & Hp).
  destruct (Write_out (be_bytes 4 (u32 (len data))) r2) as (a2 & -> & Hq). cbn [snd].
  destruct (Write_out data a1) as (b1 & -> & E1), (Write_out data a2) as (b2 & -> & E2). cbn [snd].
  rewrite E1, E2. apply v_write_outs. rewrite Hp, Hq. by apply v_write_outs.
Qed.

Definition same_received {R1 R2} `{Stream R1, Stream R2} (x : received R1) (y : received R2) : Prop :=
  let '(h1, n1, e1, r1, fs1) := x in
  let '(h2, n2, e2, r2, fs2) := y in
  h1 = h2 /\ n1 = n2 /\ e1 = e2 /\ outs (view r1) = outs (view r2) /\ fs1 = fs2.

Section Receipt.
Context (os : OS) (sha256 : list byte -> list byte).
Context (unmarshal_header : list byte -> result string FileHeader).
Context (marshal_result : TransferResult -> result string (list byte)).
Context (parseTime : string -> option Z).
Abbreviation receive_file := (receive_file os sha256 marshal_result parseTime).
Abbreviation receive_header := (receive_header os sha256 marshal_result parseTime).
Abbreviation receive := (ReceiveWithMaxSize os sha256 unmarshal_header marshal_result parseTime).

Lemma receive_file_ext {R1 R2} `{Stream R1, Stream R2} (r1 : R1) (r2 : R2) p h fs :
  view r1 = view r2 -> same_received (receive_file r1 p h fs) (receive_file r2 p h fs).
Proof.
  intros Hv. assert (outs (view r1) = outs (view r2)) as Ho by by rewrite Hv.
  unfold receive_file. destruct (OpenTrunc os p (Mode h) fs) as [fs1|e].
  2: { split_and!; try done. by apply sendResult_outs. }
  destruct (Copy_view (file_room os p) (Size h) r1) as (s1 & -> & Ho1 & Hr1).
  destruct (Copy_view (file_room os p) (Size h) r2) as (s2 & -> & Ho2 & Hr2).
  assert (outs (view s1) = outs (view s2)) as Hs by (unfold outs in *; congruence).
  rewrite <-Hv. destruct (snd (v_copy _ _ _)); [split_and!; try done; by apply sendResult_outs|].
  cbv zeta. destruct (negb _); [split_and!; try done; by apply sendResult_outs|].
  destruct (fault os OpClose p); [split_and!; try done; by apply sendResult_outs|].
  by destruct (verify_checksum _ _ _); split_and!; try done; apply sendResult_outs.
Qed.

Lemma receive_header_ext {R1 R2} `{Stream R1, Stream R2} (r1 : R1) (r2 : R2) d max h fs :
  view r1 = view r2 -> same_received (receive_header r1 d max h fs) (receive_header r2 d max h fs).
Proof.
  intros Hv. assert (outs (view r1) = outs (view r2)) as Ho by by rewrite Hv.
  unfold receive_header. cbv zeta.
  repeat (destruct (_ : bool); [split_and!; try done; by apply sendResult_outs|]).
  destruct (MkdirAll os d 493 fs) as [[e|] fs1]; [split_and!; try done; by apply sendResult_outs|].
  destruct (String.eqb _ FileTypeDirectory); [|by apply receive_file_ext].
  by destruct (MkdirAll os _ _ fs1) as [[e|] fs2]; split_and!; try done; apply sendResult_outs.
Qed.

Lemma receive_ext {R1 R2} `{Stream R1, Stream R2} ctx1 ctx2 (r1 : R1) (r2 : R2) d max fs :
  view r1 = view r2 -> same_received (receive ctx1 r1 d max fs) (receive ctx2 r2 d max fs).
Proof.
  intros Hv. unfold receive.
  destruct (readFramedJSON_view unmarshal_header (applyDeadline (now os) ctx1 r1)) as (s1 & -> & Hp).
  destruct (readFramedJSON_view unmarshal_header (applyDeadline (now os) ctx2 r2)) as (s2 & -> & Hq).
  rewrite !applyDeadline_view in *. rewrite <-Hv in *.
  assert (view s1 = view s2) as Hs by congruence.
  destruct (match fst (v_frame (view r1)) with Ok _ => _ | Err _ => _ end) as [h|e].
  - by apply receive_header_ext.
  - split_and!; try done. apply sendResult_outs. by rewrite Hs.
Qed.
End Receipt.

(** ** The peeked header is put back *)

Lemma v_frame_split v buf v' :
  v_frame v = (Ok buf, v') ->
  v_in v = be_bytes 4 (len buf) ++ buf ++ v_in v' /\ len buf <= maxFrame /\ v' = set_in v (v_in v').
Proof.
  unfold v_frame. destruct (v_full 4 v) as [b|e] eqn:Eb; [|done]. cbv zeta.
  destruct (be_Z b >? maxFrame) eqn:Em; [done|]. rewrite Z.gtb_ltb in Em. apply Z.ltb_ge in Em. intros [= Ef <-].
  assert (len b = 4 /\ v_in v = b ++ v_in (v_after 4 v)) as (Hb & Hv).
  { unfold v_full in Eb. repeat case_hyp Eb; simplify_eq; to_prop. cbn [v_after set_in v_in].
    rewrite take_drop, length_take. split; [lia | done]. }
  pose proof (be_Z_range b) as Hr.
  assert (len buf = be_Z b /\ v_in (v_after 4 v) = buf ++ v_in (v_after (be_Z b) (v_after 4 v))) as (Hl & Hw).
  { unfold v_full in Ef. repeat case_hyp Ef; cbn [map_err] in Ef; simplify_eq; to_prop.
    - assert (be_Z b = 0) as -> by lia. by split.
    - cbn [v_after set_in v_in] in *. rewrite take_drop, length_take. split; [lia | done]. }
  split_and!; [| lia | done]. rewrite Hv at 1. rewrite Hw at 1. f_equal. rewrite Hl. symmetry. apply be_bytes_be_Z'. lia.
Qed.

Lemma v_frame_outs v : outs (snd (v_frame v)) = outs v.
Proof. unfold v_frame. destruct (v_full 4 v); [|done]. cbv zeta. by destruct (_ >? _). Qed.

Lemma v_frame_app payload rest v :
  len payload <= maxFrame -> v_in v = frame payload ++ rest -> v_frame v = (Ok payload, set_in v rest).
Proof.
  intros Hl Hv. unfold v_frame, frame in *. assert (u32 (len payload) = len payload) as Eu.
  { apply u32_small. unfold maxFrame in Hl. lia. }
  rewrite Eu in Hv. rewrite <-app_assoc in Hv.
  assert (v_full 4 v = Ok (be_bytes 4 (len payload))) as ->.
  { unfold v_full. rewrite Hv. rewrite (proj2 (Z.leb_gt 4 0)), (proj2 (Z.leb_le _ _)) by len_lia.
    by rewrite (take_len_app _ _ 4) by len_lia. }
  cbv zeta. rewrite be_Z_u32 by (unfold maxFrame in Hl; lia).
  rewrite Z.gtb_ltb, (proj2 (Z.ltb_ge _ _)) by lia.
  assert (v_after 4 v = set_in v (payload ++ rest)) as ->.
  { unfold v_after. rewrite Hv. by rewrite (drop_len_app _ _ 4) by len_lia. }
  unfold v_full, v_after. cbn [v_in set_in]. f_equal.
  - destruct (Z.leb_spec (len payload) 0); [by rewrite (list_len_0 payload) by lia|].
    rewrite (proj2 (Z.leb_le _ _)) by len_lia. by rewrite take_len_app.
  - by rewrite drop_len_app.
Qed.

Section Accepting.
Context (os : OS) (sha256 : list byte -> list byte).
Context (unmarshal_header : list byte -> result string FileHeader).
Context (marshal_result : TransferResult -> result string (list byte)).
Context (parseTime : string -> option Z).
Abbreviation handleConn := (handleConn os sha256 unmarshal_header marshal_result parseTime).
Abbreviation receive := (ReceiveWithMaxSize os sha256 unmarshal_header marshal_result parseTime).

(** Whether a receiver lets the peer of a header send. *)
Definition allowed (r : Receiver) (h : FileHeader) : bool :=
  match authChecker r with Some authorize => authorize (SrcPeerID h) | None => true end.

Lemma sent_view c : sent c = v_out (view c).
Proof. done. Qed.

Lemma closed_sent c : sent (conn_Close c) = v_out (view c).
Proof. done. Qed.

Lemma outs_sent {R1 R2} `{Stream R1, Stream R2} (r1 : R1) (r2 : R2) :
  outs (view r1) = outs (view r2) -> v_out (view r1) = v_out (view r2).
Proof. by intros [= ? _]. Qed.

(** C31. A connection is received from exactly as [Receive] receives it, peeking
    or not, once the peer its header names is allowed; before that, or when
    the header cannot be read, the file system is untouched and the sender
    is told. The connection is closed in every case. *)
Theorem handleConn_refines r conn fs :
  let '(conn', fs') := handleConn r conn fs in
  closed conn' = true /\
  match fst (readFramedJSON unmarshal_header conn) with
  | Err e => fs' = fs /\ sent conn' = sent (nack marshal_result conn ("header read: " +:+ e))
  | Ok h =>
      if allowed r h then
        let '(_, _, _, conn2, fs2) := receive None conn (destDir r) (maxFileSize r) fs in
        fs' = fs2 /\ sent conn' = sent conn2
      else
        fs' = fs /\
        sent conn' = sent (nack marshal_result conn "unauthorized: file_transfer capability denied")
  end.
Proof.
  assert (forall c m, outs (view c) = outs (view conn) ->
            sent (conn_Close (nack marshal_result c m)) = sent (nack marshal_result conn m)) as Hnack.
  { intros c m Hc. rewrite closed_sent, sent_view. by apply outs_sent, sendResult_outs. }
  unfold Transfer.handleConn, allowed.
  destruct (readFramedJSON_view unmarshal_header conn) as (c1 & E1 & V1).
  destruct (authChecker r) as [authorize|].
  - rewrite E1. cbn [fst].
    destruct (peek_view unmarshal_header conn) as (c2 & -> & V2).
    destruct (v_frame (view conn)) as [[buf|e] v] eqn:Ef; cbn [fst snd] in *.
    + destruct (v_frame_split _ _ _ Ef) as (Hin & _ & Hv).
      destruct (unmarshal_header buf) as [h|e]; cbn [map_err].
      * destruct (authorize (SrcPeerID h)); cbn [negb].
        -- assert (view (newPrefixReader (be_bytes 4 (len buf) ++ buf) c2) = view conn) as Hpr.
           { cbn [view prefix_stream newPrefixReader rest prefix offset]. rewrite V2, drop_0, <-app_assoc, <-Hin, Hv.
             by destruct (view conn). }
           pose proof (receive_ext os sha256 unmarshal_header marshal_result parseTime None None
             (newPrefixReader (be_bytes 4 (len buf) ++ buf) c2) conn (destDir r) (maxFileSize r) fs Hpr) as Hs.
           destruct (receive None (newPrefixReader _ c2) _ _ fs) as [[[[h1 n1] e1] pr] fs1].
           destruct (receive None conn _ _ fs) as [[[[h2 n2] e2] c3] fs2].
           destruct Hs as (_ & _ & _ & Ho & ->). split_and!; [done..|]. rewrite closed_sent, sent_view.
           apply (outs_sent pr c3 Ho).
        -- split_and!; [done..|]. apply Hnack. rewrite V2, Hv. done.
      * split_and!; [done..|]. apply Hnack. rewrite V2, Hv. done.
    + split_and!; [done..|]. apply Hnack. rewrite V2. by rewrite <-(v_frame_outs (view conn)), Ef.
  - assert (forall e, fst (readFramedJSON unmarshal_header conn) = Err e ->
              let '(_, _, _, conn2, fs2) := receive None conn (destDir r) (maxFileSize r) fs in
              fs2 = fs /\ sent conn2 = sent (nack marshal_result conn ("header read: " +:+ e))) as Herr.
    { intros e He. unfold receive.
      destruct (readFramedJSON_view unmarshal_header (applyDeadline (now os) None conn)) as (c2 & -> & V2).
      rewrite applyDeadline_view in *. rewrite E1 in He. cbn [fst] in He. rewrite He. split; [done|].
      rewrite !sent_view. apply outs_sent, sendResult_outs. rewrite V2. apply v_frame_outs. }
    destruct (fst (readFramedJSON unmarshal_header conn)) as [h|e]; [|specialize (Herr e eq_refl)];
      by destruct (receive None conn _ _ fs) as [[[[h2 n2] e2] c3] fs2].
Qed.
End Accepting.

(** ** What the file operations change *)

Lemma mkdir_fold os perm ks o fs o' fs' :
  foldl (mkdir_step os perm) (o, fs) ks = (o', fs') ->
  (forall k, fs' !! k = fs !! k \/
             (k ∈ ks /\ fs !! k = None /\ exists m t, fs' !! k = Some (Dir m t))) /\
  (o' = None -> o = None /\ forall k, k ∈ ks -> exists m t, fs' !! k = Some (Dir m t)).
Proof.
  revert o fs. induction ks as [|k ks IH]; intros o fs; cbn [foldl].
  - intros [= <- <-]. split; [by left|]. intros ->. split; [done|]. by intros k ?%elem_of_nil.
  - intros Hf. destruct (mkdir_step os perm (o, fs) k) as [o1 fs1] eqn:Es.
    destruct (IH _ _ Hf) as (Hk & Hn).
    assert ((fs1 = fs \/ (fs !! k = None /\ fs1 = <[k := new_dir os perm]> fs)) /\
            (o1 = None -> o = None /\ exists m t, fs1 !! k = Some (Dir m t))) as (Hs & Hs2).
    { unfold mkdir_step in Es. destruct o as [e|]; [by simplify_eq; split; [left|]|].
      destruct (fs !! k) as [[m t|m c t]|] eqn:E; [simplify_eq; split; [by left|eauto] | simplify_eq; split; [by left|done] |].
      destruct (fault os OpMkdir k); simplify_eq; split; [by left | done | by right |].
      intros _. split; [done|]. eexists _, _. apply lookup_insert_eq. }
    split.
    + intros j. destruct (Hk j) as [E | (Hj & E & Hd)].
      * destruct Hs as [-> | [Hnone ->]]; [by left|]. destruct (decide (j = k)) as [->|Hne].
        -- right. split_and!; [left | done |]. rewrite E. eexists _, _. apply lookup_insert_eq.
        -- left. by rewrite E, lookup_insert_ne.
      * right. split_and!; [by right | | done]. destruct Hs as [-> | [Hnone ->]]; [done|].
        destruct (decide (j = k)) as [->|Hne]; [done|]. by rewrite lookup_insert_ne in E.
    + intros ->. destruct (Hn eq_refl) as (-> & Hd). destruct (Hs2 eq_refl) as (-> & m & t & Hkd). split; [done|].
      intros j [->|Hj]%elem_of_cons; [|by apply Hd]. destruct (Hk k) as [-> | (_ & E & _)]; [by eauto|congruence].
Qed.

Lemma MkdirAll_changes os p perm fs o fs' :
  MkdirAll os p perm fs = (o, fs') ->
  (forall k, fs' !! k = fs !! k \/
             (k ∈ ancestors p /\ fs !! k = None /\ exists m t, fs' !! k = Some (Dir m t))) /\
  (o = None -> p <> ""%string /\ forall k, k ∈ ancestors p -> exists m t, fs' !! k = Some (Dir m t)).
Proof.
  unfold MkdirAll. destruct (String.eqb_spec p ""); [intros [= <- <-]; split; [by left | done]|].
  intros [H1 H2]%mkdir_fold. split; [done|]. intros ->. split; [done|]. by apply H2.
Qed.

Lemma put_content_lookup os p data fs m c t :
  fs !! key p = Some (File m c t) -> put_content os p data fs = <[key p := File m data (now os)]> fs.
Proof. unfold put_content. by intros ->. Qed.

Lemma put_content_other os p data fs k : k <> key p -> put_content os p data fs !! k = fs !! k.
Proof. intros Hk. unfold put_content. repeat case_match; by rewrite ?lookup_insert_ne. Qed.
Lemma Remove_other os p fs k : k <> key p -> Remove os p fs !! k = fs !! k.
Proof. intros Hk. unfold Remove. case_match; [done|]. by rewrite lookup_delete_ne. Qed.
Lemma Chtimes_other os p t fs k : k <> key p -> Chtimes os p t fs !! k = fs !! k.
Proof. intros Hk. unfold Chtimes. repeat case_match; by rewrite ?lookup_insert_ne. Qed.

Lemma OpenTrunc_ok os p perm fs fs' :
  OpenTrunc os p perm fs = Ok fs' ->
  is_dir fs p = false /\ exists m, fs' = <[key p := File m [] (now os)]> fs.
Proof.
  unfold OpenTrunc, new_file. intros Ho. repeat case_hyp Ho; simplify_eq; split; try done; by eexists.
Qed.

(** ** Names under a directory *)

(** A sanitized name is empty, a slash, or one element of a path. *)
Lemma sanitize_cases name :
  let f := sanitizeFilename name in
  f = ""%string \/ f = "/"%string \/
  (Path.name (bytes_of_string f) /\ bytes_of_string f <> Path.dotdot).
Proof.
  cbv zeta. unfold sanitizeFilename. destruct (String.eqb_spec name ""); [by left|]. cbv zeta.
  destruct (String.eqb_spec (Path.Base name) "."); [by left|].
  destruct (String.eqb_spec (Path.Base name) ".."); [by left|].
  destruct (String.eqb_spec (Path.Base name) ""); [by left|]. cbn [orb]. right.
  destruct (Path.base_cases (bytes_of_string name)) as [Hb | [Hb Hs]].
  - left. unfold Path.Base. by rewrite Hb.
  - right. assert (forall l, Path.Base name <> string_of_bytes l -> Path.base (bytes_of_string name) <> l) as Hne.
    { intros l H E. by rewrite <-E in H. }
    unfold Path.name. unfold Path.Base at 1 2 3 4. rewrite !bytes_of_string_of_bytes.
    split_and!; [done | by apply Hne | done | by apply Hne].
Qed.

Lemma bytes_nonempty s : s <> ""%string -> bytes_of_string s <> [].
Proof. intros Hs E. apply Hs. by rewrite <-(string_of_bytes_of_string s), E. Qed.

Lemma Join_key d n : d <> ""%string -> n <> ""%string -> Path.Clean (Path.Join d n) = Path.Join d n.
Proof.
  intros Hd%bytes_nonempty Hn%bytes_nonempty. unfold Path.Clean, Path.Join. rewrite bytes_of_string_of_bytes. f_equal.
  assert (forall p, Path.clean (Path.clean p) = Path.clean p) as Hc.
  { intros p. unfold Path.clean at 1 3. by rewrite Path.elements_clean, Path.rooted_clean. }
  unfold Path.join2. destruct (bytes_of_string d), (bytes_of_string n); try done; apply Hc.
Qed.

Lemma Join_elements d f :
  d <> ""%string -> Path.name (bytes_of_string f) -> bytes_of_string f <> Path.dotdot ->
  elementsS (Path.Join d f) = elementsS d ++ [bytes_of_string f].
Proof.
  intros Hd Hn Hdd. unfold elementsS, Path.Join. rewrite bytes_of_string_of_bytes.
  apply Path.elements_join2; [by apply bytes_nonempty | done..].
Qed.

Lemma Join_slash d : d <> ""%string -> Path.Join d "/" = Path.Clean d.
Proof.
  intros Hd. unfold Path.Join, Path.Clean. f_equal. pose proof (bytes_nonempty _ Hd).
  destruct (bytes_of_string d) as [|b l] eqn:E; [done|]. change (bytes_of_string "/") with [Path.sep].
  cbn [Path.join2]. unfold Path.clean. assert (Path.rooted ((b :: l) ++ [Path.sep; Path.sep]) = Path.rooted (b :: l)) as Hr by done.
  rewrite Hr. f_equal. unfold Path.elements. rewrite Hr. f_equal.
  rewrite Path.split_snoc. by rewrite foldl_app.
Qed.

Lemma Join_rooted d n : d <> ""%string -> n <> ""%string -> rootedS (Path.Join d n) = rootedS d.
Proof.
  intros Hd%bytes_nonempty Hn%bytes_nonempty. unfold rootedS, Path.Join. rewrite bytes_of_string_of_bytes.
  destruct (bytes_of_string d), (bytes_of_string n); try done. cbn [Path.join2]. by rewrite Path.rooted_clean.
Qed.

Lemma text_key p : text (rootedS p) (elementsS p) = key p.
Proof. done. Qed.

(** The ancestors of a name under a directory. *)
Lemma Join_ancestors d f k :
  d <> ""%string -> f <> ""%string -> f = "/"%string \/ (Path.name (bytes_of_string f) /\ bytes_of_string f <> Path.dotdot) ->
  k ∈ ancestors (Path.Join d f) -> k ∈ ancestors d \/ k = Path.Join d f.
Proof.
  intros Hd Hne Hf Hk. unfold ancestors in *. rewrite Join_rooted in Hk by done. destruct Hf as [-> | [Hn Hdd]].
  - left. rewrite Join_slash in Hk by done. unfold elementsS in *. unfold Path.Clean in Hk.
    by rewrite bytes_of_string_of_bytes, Path.elements_clean in Hk.
  - pose proof (Join_elements d f Hd Hn Hdd) as He. pose proof (Join_rooted d f Hd Hne) as Hr.
    rewrite He in Hk. rewrite length_app, seq_app, fmap_app in Hk.
    apply elem_of_app in Hk as [Hk|Hk].
    + left. apply list_elem_of_fmap in Hk as (i & -> & Hi). apply list_elem_of_fmap. exists i. split; [|done].
      apply elem_of_seq in Hi. by rewrite take_app_le by lia.
    + right. cbn in Hk. apply list_elem_of_singleton in Hk as ->. rewrite <-Hr.
      rewrite take_ge by (rewrite length_app; cbn; lia). rewrite <-He, text_key. unfold key. by apply Join_key.
Qed.

Section Confinement.
Context (os : OS) (sha256 : list byte -> list byte).
Context (unmarshal_header : list byte -> result string FileHeader).
Context (marshal_result : TransferResult -> result string (list byte)).
Context (parseTime : string -> option Z).
Context {R : Type} `{ReadWriter R}.
Abbreviation receive_file := (receive_file os sha256 marshal_result parseTime).
Abbreviation receive_header := (receive_header os sha256 marshal_result parseTime).
Abbreviation receive := (ReceiveWithMaxSize os sha256 unmarshal_header marshal_result parseTime).

Lemma receive_file_changes (conn : R) p h fs h' n e conn' fs' k :
  receive_file conn p h fs = (h', n, e, conn', fs') -> k <> key p -> fs' !! k = fs !! k.
Proof.
  intros Hf Hk. unfold Transfer.receive_file in Hf. destruct (OpenTrunc os p (Mode h) fs) as [fs1|x] eqn:Eo; [|by simplify_eq].
  apply OpenTrunc_ok in Eo as (_ & m & ->).
  assert (forall d, put_content os p d (<[key p := File m [] (now os)]> fs) !! k = fs !! k) as Hp.
  { intros d. rewrite put_content_other by done. by rewrite lookup_insert_ne. }
  destruct (Copy _ _ _) as [[data [x|]] c]; [simplify_eq; by rewrite Remove_other|]. cbv zeta in Hf.
  destruct (negb _); [simplify_eq; by rewrite Remove_other|].
  destruct (fault os OpClose p); [by simplify_eq|].
  destruct (verify_checksum _ _ _); simplify_eq; rewrite ?Remove_other by done;
    repeat case_match; rewrite ?Chtimes_other by done; done.
Qed.

(** C19. Whatever a sender says, receiving changes at most the file of the
    sanitized name, which is directly in the destination directory, and
    creates directories that were missing on the way to it. *)
Theorem Receive_confined ctx (conn : R) destDir max fs k :
  let '(h, n, e, conn', fs') := receive ctx conn destDir max fs in
  fs' !! k = fs !! k \/
  exists header, h = Some header /\
    let f := sanitizeFilename (Filename header) in
    f <> ""%string /\
    (k ∈ ancestors destDir /\ fs !! k = None /\ (exists m t, fs' !! k = Some (Dir m t)) \/
     k = Path.Join destDir f /\ (f <> "/"%string -> elementsS k = elementsS destDir ++ [bytes_of_string f])).
Proof.
  unfold receive. destruct (readFramedJSON _ _) as [[h|e] c]; [|by left].
  destruct (receive_header c destDir max h fs) as [[[[h' n] e] conn'] fs'] eqn:Er.
  unfold Transfer.receive_header in Er. cbv zeta in Er.
  destruct (negb _); [left; by simplify_eq|]. destruct ((_ <? _) && _); [left; by simplify_eq|].
  destruct (String.eqb_spec (sanitizeFilename (Filename h)) "") as [|Hf]; [left; by simplify_eq|].
  destruct (MkdirAll os destDir 493 fs) as [o fs1] eqn:Em. apply MkdirAll_changes in Em as (Hm & Hok).
  assert (fs1 !! k = fs !! k \/ k ∈ ancestors destDir /\ fs !! k = None /\ exists m t, fs1 !! k = Some (Dir m t)) as Hk by done.
  destruct o as [x|].
  { simplify_eq. destruct Hk as [Hk|Hk]; [by left | right]. exists h. split_and!; [done..|]. by left. }
  destruct (Hok eq_refl) as (Hd & _). pose proof (sanitize_cases (Filename h)) as Hs. cbv zeta in Hs.
  destruct Hs as [|Hs]; [done|].
  assert (h' = Some h) as ->.
  { destruct (String.eqb _ FileTypeDirectory); [by destruct (MkdirAll _ _ _ fs1) as [[]]; simplify_eq|].
    unfold Transfer.receive_file in Er. cbv zeta in Er. by repeat case_hyp Er; simplify_eq. }
  destruct (decide (k = Path.Join destDir (sanitizeFilename (Filename h)))) as [Hj|Hj].
  { right. exists h. split_and!; [done..|]. right. split; [done|]. intros Hns. subst k.
    destruct Hs as [|[Hn Hdd]]; [done|]. by apply Join_elements. }
  assert (fs' !! k = fs1 !! k \/ k ∈ ancestors destDir /\ fs1 !! k = None /\ exists m t, fs' !! k = Some (Dir m t)) as Hk'.
  { destruct (String.eqb _ FileTypeDirectory).
    - destruct (MkdirAll os (Path.Join _ _) (Mode h) fs1) as [o2 fs2] eqn:Em2. apply MkdirAll_changes in Em2 as (Hm2 & _).
      assert (fs' = fs2) as -> by by destruct o2; simplify_eq.
      destruct (Hm2 k) as [|(Ha & Hnone & Hdir)]; [by left|]. right. split_and!; [|done..].
      by destruct (Join_ancestors _ _ _ Hd Hf Hs Ha).
    - left. eapply receive_file_changes; [exact Er|]. unfold key. by rewrite Join_key. }
  destruct Hk' as [E' | (Ha & Hnone & Hdir)], Hk as [E | (Ha2 & Hnone2 & Hdir2)].
  - left. congruence.
  - right. exists h. split_and!; [done..|]. left. split_and!; [done..|]. by rewrite E'.
  - right. exists h. split_and!; [done..|]. left. by rewrite <-E.
  - destruct Hdir2 as (? & ? & ?). congruence.
Qed.
End Confinement.

(** ** What an accepted transfer has written, and what a failed one has lost *)

Section Outcome.
Context (os : OS) (sha256 : list byte -> list byte).
Context (unmarshal_header : list byte -> result string FileHeader).
Context (marshal_result : TransferResult -> result string (list byte)).
Context (parseTime : string -> option Z).
Context {R : Type} `{HS : Stream R}.
Abbreviation receive_file := (receive_file os sha256 marshal_result parseTime).
Abbreviation receive_header := (receive_header os sha256 marshal_result parseTime).
Abbreviation receive := (ReceiveWithMaxSize os sha256 unmarshal_header marshal_result parseTime).

(** A copy without an error: what was wanted, or what there was. *)
Lemma v_copy_ok s n v data :
  v_copy s n v = (data, None) -> data = take (Z.to_nat n) (v_in v).
Proof.
  unfold v_copy. destruct (sink_write _ s) as [[w [e|]] s'] eqn:Es; [done|]. apply sink_write_fits in Es as ->.
  by intros [= <- _].
Qed.

Lemma Chtimes_content p t fs m c t0 :
  fs !! key p = Some (File m c t0) -> exists t', Chtimes os p t fs !! key p = Some (File m c t').
Proof.
  intros Hf. unfold Chtimes. destruct (fault os OpChtimes p); [by exists t0|]. rewrite Hf. exists t. apply lookup_insert_eq.
Qed.

Lemma receive_file_accepts (conn : R) p h fs h' n conn' fs' :
  receive_file conn p h fs = (h', n, None, conn', fs') ->
  exists data m t, h' = Some h /\ n = Size h /\ len data = Size h /\
    data = take (Z.to_nat (Size h)) (v_in (view conn)) /\
    fs' !! key p = Some (File m data t) /\ verify_checksum sha256 h data = true.
Proof.
  intros Hf. unfold Transfer.receive_file in Hf. destruct (OpenTrunc os p (Mode h) fs) as [fs1|x] eqn:Eo; [|done].
  apply OpenTrunc_ok in Eo as (_ & m & ->).
  destruct (Copy_view (file_room os p) (Size h) conn) as (c & Ec & _ & _). rewrite Ec in Hf.
  destruct (v_copy (file_room os p) (Size h) (view conn)) as [data [x|]] eqn:Ev; cbn [fst snd] in Hf; [done|]. cbv zeta in Hf.
  destruct (Z.eqb_spec (len data) (Size h)) as [Hl|]; cbn [negb] in Hf; [|done].
  destruct (fault os OpClose p); [done|]. destruct (verify_checksum sha256 h data) eqn:Ek; [|done].
  rewrite (put_content_lookup os p data _ m [] (now os)) in Hf by apply lookup_insert_eq. rewrite insert_insert_eq in Hf.
  assert (<[key p := File m data (now os)]> fs !! key p = Some (File m data (now os))) as Hd by apply lookup_insert_eq.
  apply v_copy_ok in Ev. injection Hf as <- <- _ <-.
  destruct (String.eqb _ ""); [by exists data, m, (now os)|]. destruct (parseTime _) as [t|]; [|by exists data, m, (now os)].
  destruct (Chtimes_content p t _ _ _ _ Hd) as (t' & Ht). by exists data, m, t'.
Qed.

(** A transfer that is accepted has written exactly the declared number of
    the bytes that follow the header, within the limit, and they have the
    declared checksum. *)
Theorem Receive_exact ctx (conn : R) destDir max fs header n conn' fs' :
  receive ctx conn destDir max fs = (Some header, n, None, conn', fs') ->
  h_FileType header <> FileTypeDirectory ->
  exists payload data rest m t,
    v_in (view conn) = frame payload ++ data ++ rest /\
    unmarshal_header payload = Ok header /\ Version header = ProtocolVersion /\
    n = Size header /\ len data = Size header /\ (0 < max -> Size header <= max) /\
    fs' !! Path.Join destDir (sanitizeFilename (Filename header)) = Some (File m data t) /\
    (Checksum header = ""%string \/ checksum sha256 data = Checksum header).
Proof.
  intros Hr Hdir. unfold receive in Hr.
  destruct (readFramedJSON_view unmarshal_header (applyDeadline (now os) ctx conn)) as (c & Ec & Vc).
  rewrite Ec in Hr. rewrite applyDeadline_view in *. clear Ec.
  destruct (v_frame (view conn)) as [[payload|e] v] eqn:Ef; cbn [fst snd] in *; [|done].
  destruct (v_frame_split _ _ _ Ef) as (Hin & Hl & Hv).
  destruct (unmarshal_header payload) as [h|e] eqn:Eu; cbn [map_err] in Hr; [|done].
  unfold Transfer.receive_header in Hr. cbv zeta in Hr.
  destruct (Z.eqb_spec (Version h) ProtocolVersion); cbn [negb] in Hr; [|done].
  destruct ((0 <? max) && (max <? Size h)) eqn:Emax; [done|].
  destruct (String.eqb_spec (sanitizeFilename (Filename h)) ""); [done|].
  destruct (MkdirAll os destDir 493 fs) as [[x|] fs1] eqn:Em; [done|].
  apply MkdirAll_changes in Em as (_ & Hd). destruct (Hd eq_refl) as (Hne & _).
  assert (h = header) as ->.
  { destruct (String.eqb _ FileTypeDirectory); [by destruct (MkdirAll _ _ _ fs1) as [[]]; simplify_eq|].
    apply receive_file_accepts in Hr as (? & ? & ? & Hh & _). congruence. }
  destruct (String.eqb_spec (h_FileType header) FileTypeDirectory); [done|].
  apply receive_file_accepts in Hr as (data & m & t & _ & -> & Hlen & Hdata & Hlook & Hsum).
  exists payload, data, (drop (Z.to_nat (Size header)) (v_in v)), m, t. split_and!; try done.
  - rewrite Hdata, Vc, take_drop. unfold frame. rewrite u32_small by (unfold maxFrame in Hl; lia). by rewrite <-app_assoc.
  - intros Hm. destruct (Z.ltb_spec 0 max); [|lia]. cbn [andb] in Emax. by apply Z.ltb_ge in Emax.
  - rewrite <-Hlook. unfold key. by rewrite Join_key.
  - unfold verify_checksum in Hsum. apply orb_true_iff in Hsum as [Hs|Hs]; apply String.eqb_eq in Hs; auto.
Qed.

Lemma Remove_gone p fs : fault os OpRemove p = None -> Remove os p fs !! key p = None.
Proof. intros Hr. unfold Remove. rewrite Hr. apply lookup_delete_eq. Qed.

(** A transfer that breaks off deletes the file that had its name: it was
    truncated before a byte of the new one had come. *)
Theorem failed_transfer_deletes ctx (conn : R) destDir max fs payload data header m old t :
  v_in (view conn) = frame payload ++ data -> len payload <= maxFrame ->
  unmarshal_header payload = Ok header ->
  Version header = ProtocolVersion -> Size header <= max -> len data < Size header ->
  h_FileType header = FileTypeRegular ->
  let f := sanitizeFilename (Filename header) in
  let p := Path.Join destDir f in
  f <> ""%string -> MkdirAll os destDir 493 fs = (None, fs) ->
  fault os OpCreate p = None -> fault os OpRemove p = None ->
  fs !! p = Some (File m old t) ->
  let '(_, _, e, _, fs') := receive ctx conn destDir max fs in
  e <> None /\ fs' !! p = None.
Proof.
  cbv zeta. intros Hin Hl Hu Hver Hmax Hshort Hreg Hf Hmk Hc Hrm Hold. unfold receive.
  destruct (readFramedJSON_view unmarshal_header (applyDeadline (now os) ctx conn)) as (c & -> & Vc).
  rewrite applyDeadline_view in *. rewrite (v_frame_app payload data) in * by done. cbn [fst snd] in *.
  rewrite Hu. cbn [map_err]. unfold Transfer.receive_header. cbv zeta. rewrite Hver. cbn [negb Z.eqb ProtocolVersion].
  rewrite (proj2 (Z.ltb_ge max _)) by done. rewrite andb_false_r, Hmk, Hreg.
  rewrite (proj2 (String.eqb_neq _ _)) by done.
  pose proof (MkdirAll_changes _ _ _ _ _ _ Hmk) as (_ & Hne). destruct (Hne eq_refl) as (Hd & _).
  set (p := Path.Join destDir _) in *. assert (key p = p) as Hk by by apply Join_key.
  change (String.eqb FileTypeRegular FileTypeDirectory) with false. cbv iota.
  unfold Transfer.receive_file, OpenTrunc, is_dir. rewrite Hc, Hk, Hold.
  destruct (Copy_view (file_room os p) (Size header) c) as (c2 & -> & _).
  assert (forall g, Remove os p g !! p = None) as Hgone by (intros g; pose proof (Remove_gone p g Hrm) as Hg; by rewrite Hk in Hg).
  destruct (v_copy _ _ _) as [w [x|]] eqn:Ev; cbn [fst snd]; [done|].
  apply v_copy_ok in Ev. rewrite Vc in Ev. cbn [v_in set_in] in Ev.
  assert (len w < Size header) by (subst w; rewrite length_take; lia).
  rewrite (proj2 (Z.eqb_neq _ _)) by lia. done.
Qed.
End Outcome.

(** ** From sender to receiver *)

Section RoundTrip.
Context (sos ros : OS) (sha256 : list byte -> list byte).
Context (marshal_header : FileHeader -> result string (list byte)).
Context (unmarshal_header : list byte -> result string FileHeader).
Context (marshal_result : TransferResult -> result string (list byte)).
Context (unmarshal_result : list byte -> result string TransferResult).
Context (parseTime : string -> option Z) (formatTime : Z -> string).
Context {R1 R2 : Type} `{Stream R1, Stream R2}.
Abbreviation receive := (ReceiveWithMaxSize ros sha256 unmarshal_header marshal_result parseTime).
Abbreviation send := (SendWithContext sos sha256 marshal_header unmarshal_result).

Definition written (v : View) (p : list byte) : View := MkView (v_in v) (v_end v) (v_out v ++ p) None.

Lemma v_write_all p v : v_room v = None -> v_write p v = (None, written v p).
Proof. unfold v_write. by intros ->. Qed.

Lemma Write_all {R} `{Stream R} p (r : R) :
  v_room (view r) = None -> exists r', Write p r = (None, r') /\ view r' = written (view r) p.
Proof.
  intros Hr. destruct (Write_out p r) as (r' & -> & Hv). rewrite v_write_all in * by done. by exists r'.
Qed.

Lemma sendResult_all {R} `{Stream R} res data (r : R) :
  marshal_result res = Ok data -> v_room (view r) = None ->
  v_out (view (sendResult marshal_result res r)) = v_out (view r) ++ frame data.
Proof.
  intros Hm Hr. unfold sendResult. rewrite Hm. destruct (Write_all (be_bytes 4 (u32 (len data))) r Hr) as (a & -> & Ha).
  cbn [snd]. destruct (Write_all data a) as (b & -> & Hb); [by rewrite Ha|]. cbn [snd]. rewrite Hb, Ha. cbn.
  by rewrite <-app_assoc.
Qed.

(** What a sender of a whole file puts on the connection, and what it makes
    of the answer. *)
Lemma send_all ctx (conn : R1) h json content src :
  marshal_header h = Ok json -> Version h = ProtocolVersion -> Checksum h <> ""%string ->
  h_FileType h = FileTypeRegular -> Size h = len content ->
  src = MkSource content 0 None true false -> v_room (view conn) = None ->
  let '(res, conn', _, _) := send ctx conn src h in
  v_out (view conn') = v_out (view conn) ++ frame json ++ content /\
  (forall a ack, v_in (view conn) = frame a -> len a <= maxFrame -> unmarshal_result a = Ok ack -> res = Ok ack).
Proof.
  intros Hm Hv Hc Ht Hs -> Hr. unfold send. rewrite Hv. cbn [Z.eqb ProtocolVersion]. cbv zeta.
  unfold pre_checksum. rewrite (proj2 (String.eqb_neq _ _) Hc). cbn [andb]. rewrite Hm.
  pose proof (applyDeadline_view (now sos) ctx conn) as Hd.
  destruct (Write_all (be_bytes 4 (u32 (len json))) (applyDeadline (now sos) ctx conn)) as (c1 & -> & H1'); [by rewrite Hd|].
  destruct (Write_all json c1) as (c2 & -> & H2'); [by rewrite H1'|].
  unfold has_data. rewrite Ht, Hs. cbn [String.eqb andb]. rewrite String.eqb_refl. cbn [andb].
  assert (forall c, v_in (view c) = v_in (view conn) -> v_out (view c) = v_out (view conn) ++ frame json ++ content ->
    forall s h', let '(res, conn', _, _) := match readFramedJSON unmarshal_result c with
       | (Ok res, conn0) => (Ok res, conn0, s, h')
       | (Err e, conn0) => (Err ("read ack: " +:+ e)%string, conn0, s, h') end : result string TransferResult * R1 * Source * FileHeader in
    v_out (view conn') = v_out (view conn) ++ frame json ++ content /\
    (forall a ack, v_in (view conn) = frame a -> len a <= maxFrame -> unmarshal_result a = Ok ack -> res = Ok ack)) as Hack.
  { intros c Hin Hout s h'. destruct (readFramedJSON_view unmarshal_result c) as (c' & -> & Hv').
    assert (v_out (view c') = v_out (view c)) as Ho.
    { rewrite Hv'. pose proof (v_frame_outs (view c)) as Hx. by injection Hx. }
    rewrite Hout in Ho.
    destruct (match fst (v_frame (view c)) with Ok _ => _ | Err _ => _ end) as [x|x] eqn:Ex; (split; [done|]);
      intros a ack Ha Hla Hua; rewrite (v_frame_app a []) in Ex by (rewrite ?Hin, ?app_nil_r; done);
      cbn [fst] in Ex; rewrite Hua in Ex; cbn [map_err] in Ex; congruence. }
  assert (v_in (view c2) = v_in (view conn)) as Hi2 by by rewrite H2', H1', Hd.
  assert (v_out (view c2) = v_out (view conn) ++ frame json) as Ho2.
  { rewrite H2', H1', Hd. cbn. unfold frame. by rewrite <-app_assoc. }
  destruct (Z.ltb_spec 0 (len content)) as [Hpos|Hz].
  - change (remaining _) with content. cbn [s_err]. destruct (Write_all content c2) as (c3 & -> & H3'); [by rewrite H2'|].
    rewrite Z.eqb_refl. cbn [negb]. rewrite (proj2 (String.eqb_neq _ _) Hc).
    apply Hack; rewrite H3'; cbn; [done|]. rewrite Ho2. by rewrite <-app_assoc.
  - assert (content = []) as -> by (apply list_len_0; lia). rewrite app_nil_r in *. by apply Hack.
Qed.

(** What a receiver does with it. *)
Lemma receive_all ctx (conn : R2) destDir max h json data a fs fs1 fs2 :
  let p := Path.Join destDir (sanitizeFilename (Filename h)) in
  v_in (view conn) = frame json ++ data -> len json <= maxFrame -> unmarshal_header json = Ok h ->
  Version h = ProtocolVersion -> h_FileType h = FileTypeRegular -> Size h = len data ->
  Checksum h = checksum sha256 data -> (max <= 0 \/ Size h <= max) ->
  sanitizeFilename (Filename h) <> ""%string ->
  MkdirAll ros destDir 493 fs = (None, fs1) -> OpenTrunc ros p (Mode h) fs1 = Ok fs2 ->
  file_room ros p = None -> fault ros OpClose p = None ->
  marshal_result (MkResult true "" (Size h)) = Ok a -> v_room (view conn) = None ->
  let '(_, n, e, conn', fs') := receive ctx conn destDir max fs in
  e = None /\ n = Size h /\ v_out (view conn') = v_out (view conn) ++ frame a /\
  exists m t, fs' !! p = Some (File m data t).
Proof.
  cbv zeta. intros Hin Hl Hu Hv Ht Hs Hc Hmax Hf Hmk Ho Hroom Hclose Ha Hr. unfold receive.
  destruct (readFramedJSON_view unmarshal_header (applyDeadline (now ros) ctx conn)) as (c & -> & Vc).
  rewrite applyDeadline_view in *. rewrite (v_frame_app json data) in * by done. cbn [fst snd] in *.
  rewrite Hu. cbn [map_err]. unfold Transfer.receive_header. cbv zeta. rewrite Hv. cbn [negb Z.eqb ProtocolVersion].
  assert ((0 <? max) && (max <? Size h) = false) as ->.
  { destruct Hmax; [by rewrite (proj2 (Z.ltb_ge 0 max))|]. by rewrite (proj2 (Z.ltb_ge max _)), andb_false_r. }
  rewrite Hmk, Ht, (proj2 (String.eqb_neq _ _)) by done.
  pose proof (MkdirAll_changes _ _ _ _ _ _ Hmk) as (_ & Hne). destruct (Hne eq_refl) as (Hd & _).
  set (p := Path.Join destDir _) in *. assert (key p = p) as Hk by by apply Join_key.
  change (String.eqb FileTypeRegular FileTypeDirectory) with false. cbv iota.
  unfold Transfer.receive_file. rewrite Ho.
  destruct (Copy_view (file_room ros p) (Size h) c) as (c2 & -> & Ho2 & Hr2).
  assert (v_copy (file_room ros p) (Size h) (view c) = (data, None)) as ->.
  { unfold v_copy. rewrite Hroom, Vc, Hs. cbn [set_in v_in sink_write v_end]. rewrite Nat2Z.id, take_ge by done.
    by rewrite (proj2 (Z.leb_le _ _)) by done. }
  cbn [fst snd]. cbv zeta. rewrite Hs, Z.eqb_refl, Hclose. cbn [negb].
  unfold verify_checksum. rewrite Hc, String.eqb_refl, orb_true_r.
  apply OpenTrunc_ok in Ho as (_ & m & ->). rewrite (put_content_lookup ros p data _ m [] (now ros)) by apply lookup_insert_eq.
  rewrite insert_insert_eq. split_and!; [done..| |].
  - rewrite Hs in Ha. rewrite (sendResult_all _ _ _ Ha) by (rewrite Hr2, Vc; done). by rewrite Ho2, Vc.
  - assert (<[key p := File m data (now ros)]> fs1 !! key p = Some (File m data (now ros))) as Hd2 by apply lookup_insert_eq.
    assert (forall g : FS, g !! p = g !! key p) as Hg by (intros g; by rewrite Hk).
    destruct (String.eqb (ModTime h) ""); [exists m, (now ros); by rewrite Hg|].
    destruct (parseTime (ModTime h)) as [t|]; [|exists m, (now ros); by rewrite Hg].
    destruct (Chtimes_content ros p t _ _ _ _ Hd2) as (t' & Ht'). exists m, t'. by rewrite Hg.
Qed.

Lemma MakeFileHeader_file path peer fs h src :
  MakeFileHeader sos sha256 formatTime path peer fs = Ok (h, Some src) ->
  exists m c t, fs !! key path = Some (File m c t) /\ src = MkSource c 0 None true false /\
    Version h = ProtocolVersion /\ h_FileType h = FileTypeRegular /\ Size h = len c /\ Checksum h = checksum sha256 c.
Proof.
  unfold MakeFileHeader. intros Hm. repeat case_hyp Hm; simplify_eq. by eexists _, _, _.
Qed.
End RoundTrip.

(** C17. A file sent from its header to a receiver that may write arrives: when
    each side gets what the other wrote, the receiver holds the file's bytes
    under its sanitized name and the sender is told how many they are. *)
Theorem transfer_roundtrip {R1 R2} `{HS1 : Stream R1, HS2 : Stream R2} (sos ros : OS) sha256 marshal_header unmarshal_header
    marshal_result unmarshal_result parseTime formatTime path peer (sfs : FS) h src json a
    ctx1 (rs : R1) rs' res src' h' ctx2 (rr : R2) rr' destDir max (fs fs1 fs2 fs' : FS) got n e :
  MakeFileHeader sos sha256 formatTime path peer sfs = Ok (h, Some src) ->
  (forall data, len (sha256 data) = 32) ->
  marshal_header h = Ok json -> unmarshal_header json = Ok h -> len json <= maxFrame ->
  marshal_result (MkResult true "" (Size h)) = Ok a ->
  unmarshal_result a = Ok (MkResult true "" (Size h)) -> len a <= maxFrame ->
  let p := Path.Join destDir (sanitizeFilename (Filename h)) in
  sanitizeFilename (Filename h) <> ""%string -> (max <= 0 \/ Size h <= max) ->
  MkdirAll ros destDir 493 fs = (None, fs1) -> OpenTrunc ros p (Mode h) fs1 = Ok fs2 ->
  file_room ros p = None -> fault ros OpClose p = None ->
  v_room (view rs) = None -> v_room (view rr) = None ->
  SendWithContext sos sha256 marshal_header unmarshal_result ctx1 rs src h = (res, rs', src', h') ->
  ReceiveWithMaxSize ros sha256 unmarshal_header marshal_result parseTime ctx2 rr destDir max fs
    = (got, n, e, rr', fs') ->
  v_out (view rs') = v_out (view rs) ++ v_in (view rr) ->
  v_out (view rr') = v_out (view rr) ++ v_in (view rs) ->
  res = Ok (MkResult true "" n) /\ e = None /\
  exists content m0 t0 m t,
    sfs !! key path = Some (File m0 content t0) /\ n = len content /\ fs' !! p = Some (File m content t).
Proof.
  cbv zeta. intros Hmk Hsha Hj Hju Hjl Ha Hau Hal Hf Hmax Hd Ho Hroom Hcl Hr1 Hr2 Hsend Hrecv Hto Hfrom.
  apply MakeFileHeader_file in Hmk as (m0 & c & t0 & Hfile & -> & Hv & Ht & Hs & Hc).
  assert (Checksum h <> ""%string) as Hne.
  { rewrite Hc. unfold checksum, Kx.EncodeToString. specialize (Hsha c). by destruct (sha256 c). }
  pose proof (send_all sos sha256 marshal_header unmarshal_result ctx1 rs h json c _ Hj Hv Hne Ht Hs eq_refl Hr1) as Hsa.
  rewrite Hsend in Hsa. destruct Hsa as (Hout & Hres). rewrite Hto in Hout. apply app_inv_head in Hout.
  pose proof (receive_all ros sha256 unmarshal_header marshal_result parseTime ctx2 rr destDir max h json c a fs fs1 fs2
    Hout Hjl Hju Hv Ht Hs Hc Hmax Hf Hd Ho Hroom Hcl Ha Hr2) as Hra.
  rewrite Hrecv in Hra. destruct Hra as (-> & -> & Hans & m & t & Hlook). rewrite Hfrom in Hans. apply app_inv_head in Hans.
  split_and!; [by apply (Hres a) | done |]. by exists c, m0, t0, m, t.
Qed.

(** ** Concrete runs *)
Module Demo.
Definition no_faults : OS := MkOS (fun _ _ => None) (fun _ => None) 18 1000.
Definition sha (_ : list byte) : list byte := replicate 32 x00.
Definition data : list byte := bytes_of_string "hello".
Definition header : FileHeader :=
  MkHeader 1 "a.txt" 5 420 FileTypeRegular "" (checksum sha data) "peer".
Definition json : list byte := bytes_of_string "{header}".
Definition marshal_h (_ : FileHeader) : result string (list byte) := Ok json.
Definition unmarshal_h (b : list byte) : result string FileHeader :=
  if bool_decide (b = json) then Ok header else Err "invalid"%string.
Definition ack : TransferResult := MkResult true "" 5.
Definition marshal_r (r : TransferResult) : result string (list byte) :=
  Ok (bytes_of_string (if rOK r then "{ok}" else Message r)).
Definition unmarshal_r (b : list byte) : result string TransferResult :=
  if bool_decide (b = bytes_of_string "{ok}") then Ok ack else Err "invalid"%string.
Definition parse (_ : string) : option Z := None.
Definition format (_ : Z) : string := "".
Definition served : FS := {[ "/"%string := Dir 493 0; "/srv"%string := Dir 493 0; "/srv/a.txt"%string := File 420 data 7 ]}.
(** The bytes arrive three at a time. *)
Fixpoint pieces (fuel : nat) (l : list byte) : list (list byte) :=
  match fuel, l with
  | S fuel, _ :: _ => take 3 l :: pieces fuel (drop 3 l)
  | _, _ => []
  end.
Definition conn (l : list byte) : Conn := MkConn (pieces (length l) l) AtEOF [] None None false.
Definition whole : Conn := conn (frame json ++ data).
Definition broken : Conn := conn (frame json ++ take 2 data).
Definition run (c : Conn) (fs : FS) := ReceiveWithMaxSize no_faults sha unmarshal_h marshal_r parse None c "/srv" 100 fs.
End Demo.

Lemma Receive_exact_witness :
  Size Demo.header <= 100 /\
  exists m t, snd (Demo.run Demo.whole (delete "/srv/a.txt"%string Demo.served)) !! "/srv/a.txt"%string = Some (File m Demo.data t).
Proof.
  set (x := Demo.run Demo.whole (delete "/srv/a.txt"%string Demo.served)).
  assert (x = (Some Demo.header, snd (fst (fst (fst x))), None, snd (fst x), snd x)) as Hx by (vm_compute; reflexivity).
  destruct (Receive_exact (HS := conn_stream) Demo.no_faults Demo.sha Demo.unmarshal_h Demo.marshal_r Demo.parse None Demo.whole "/srv" 100
    _ Demo.header _ _ _ Hx ltac:(done)) as (payload & data & rest & m & t & Hin & Hp & _ & _ & Hl & Hmax & Hlook & _).
  split; [apply Hmax; lia|]. exists m, t. replace Demo.data with data; [exact Hlook|].
  unfold Demo.unmarshal_h in Hp. destruct (decide (payload = Demo.json)) as [->|Hne];
    [|rewrite bool_decide_eq_false_2 in Hp by done; discriminate Hp].
  change (v_in (view Demo.whole)) with (frame Demo.json ++ Demo.data) in Hin. apply app_inv_head in Hin.
  apply (f_equal (take 5)) in Hin. rewrite take_app_le in Hin by (cbn in Hl; lia).
  rewrite (take_ge data) in Hin by (cbn in Hl; lia). symmetry. exact Hin.
Defined.

Lemma failed_transfer_deletes_witness :
  Demo.served !! "/srv/a.txt"%string = Some (File 420 Demo.data 7) /\
  snd (Demo.run Demo.broken Demo.served) !! "/srv/a.txt"%string = None.
Proof.
  split; [vm_compute; reflexivity|].
  pose proof (failed_transfer_deletes (HS := conn_stream) Demo.no_faults Demo.sha Demo.unmarshal_h Demo.marshal_r Demo.parse None Demo.broken "/srv" 100
    Demo.served Demo.json (take 2 Demo.data) Demo.header 420 Demo.data 7 ltac:(vm_compute; reflexivity) ltac:(vm_compute; discriminate)
    ltac:(vm_compute; reflexivity) eq_refl ltac:(vm_compute; discriminate) ltac:(vm_compute; reflexivity) eq_refl
    ltac:(vm_compute; discriminate) ltac:(vm_compute; reflexivity) eq_refl eq_refl ltac:(vm_compute; reflexivity)) as H.
  unfold Demo.run. destruct (ReceiveWithMaxSize _ _ _ _ _ _ _ _ _ _) as [[[[h n] e] c] fs']. destruct H as [_ H]. exact H.
Defined.

Lemma transfer_roundtrip_witness :
  exists m t, snd (Demo.run Demo.whole (delete "/srv/a.txt"%string Demo.served)) !! "/srv/a.txt"%string
              = Some (File m Demo.data t).
Proof.
  set (fs := delete "/srv/a.txt"%string Demo.served).
  set (rs := Demo.conn (frame (bytes_of_string "{ok}"))).
  set (src := MkSource Demo.data 0 None true false).
  set (s := SendWithContext Demo.no_faults Demo.sha Demo.marshal_h Demo.unmarshal_r None rs src Demo.header).
  set (x := Demo.run Demo.whole fs).
  destruct (transfer_roundtrip (HS1 := conn_stream) (HS2 := conn_stream) Demo.no_faults Demo.no_faults Demo.sha Demo.marshal_h Demo.unmarshal_h Demo.marshal_r
    Demo.unmarshal_r Demo.parse Demo.format "/srv/a.txt" "peer" Demo.served Demo.header src Demo.json (bytes_of_string "{ok}")
    None rs (snd (fst (fst s))) (fst (fst (fst s))) (snd (fst s)) (snd s)
    None Demo.whole (snd (fst x)) "/srv" 100 fs fs (<["/srv/a.txt"%string := File 420 [] 1000]> fs) (snd x)
    (fst (fst (fst (fst x)))) (snd (fst (fst (fst x)))) (snd (fst (fst x)))
    ltac:(vm_compute; reflexivity) ltac:(intros; reflexivity) eq_refl ltac:(vm_compute; reflexivity)
    ltac:(vm_compute; discriminate) ltac:(vm_compute; reflexivity) ltac:(vm_compute; reflexivity)
    ltac:(vm_compute; discriminate) ltac:(vm_compute; discriminate) ltac:(right; vm_compute; discriminate)
    ltac:(vm_compute; reflexivity) ltac:(vm_compute; reflexivity) eq_refl eq_refl eq_refl eq_refl
    ltac:(vm_compute; reflexivity) ltac:(vm_compute; reflexivity) ltac:(vm_compute; reflexivity) ltac:(vm_compute; reflexivity))
    as (_ & _ & c & m0 & t0 & m & t & Hs & _ & Hl).
  exists m, t. replace Demo.data with c; [exact Hl|]. vm_compute in Hs. injection Hs as _ <- _. reflexivity.
Defined.

(** A connection that was peeked at is received from without a deadline: the
    reader that puts the header back has no [SetDeadline]. *)
Example peeked_has_no_deadline :
  c_deadline (fst (handleConn Demo.no_faults Demo.sha Demo.unmarshal_h Demo.marshal_r Demo.parse
    (NewReceiverWithAuth 7 "/srv" 0 (Some (fun _ => true))) Demo.whole Demo.served)) = None /\
  c_deadline (fst (handleConn Demo.no_faults Demo.sha Demo.unmarshal_h Demo.marshal_r Demo.parse
    (NewReceiver 7 "/srv") Demo.whole Demo.served)) = Some (1000 + DefaultTimeout).
Proof. by vm_compute. Qed.

(** A header may ask for a set-user-id file, and for the directory itself. *)
Example mode_and_slash :
  syscallMode (2 ^ 23 + 493) = 2048 + 493 /\ sanitizeFilename "/" = "/" /\
  sanitizeFilename "../../etc/passwd" = "passwd" /\ sanitizeFilename ".." = "".
Proof. by vm_compute. Qed.
End Transfer.
