(* ===== verification/MeshRouting.v ===== *)
(** * The routing table of the mesh (internal/mesh/routing.go)

    The map from addresses to peers with its callbacks, and the test whether
    an address lies in a prefix. Entries are immutable here: the program
    hands a [PeerEntry] over and does not change it afterwards. *)
From stdpp Require Import prelude gmap list strings.
From Stdlib Require Import Strings.Byte ZArith Lia.
From S2P Require Import Prelude GoBytes GoNet GoNetParse.
Local Open Scope Z_scope.

Module Routing.

Record PeerEntry : Type := MkPeer { ID : string; Endpoint : string; AllowedIPs : list string }.

(** [joinCB] and [leaveCB]: whether a callback that is not nil is installed. *)
Record RoutingTable : Type := MkTable {
  routes : gmap string string; peers : gmap string PeerEntry; joinCB : bool; leaveCB : bool
}.
Definition NewRoutingTable : RoutingTable := MkTable ∅ ∅ false false.

Definition SetJoinCallback (cb : bool) (rt : RoutingTable) : RoutingTable :=
  MkTable (routes rt) (peers rt) cb (leaveCB rt).
Definition SetLeaveCallback (cb : bool) (rt : RoutingTable) : RoutingTable :=
  MkTable (routes rt) (peers rt) (joinCB rt) cb.

(** The callbacks that an operation makes. *)
Inductive event : Type := Joined (p : PeerEntry) | Left (id : string).

Definition drop_routes (ips : list string) (m : gmap string string) : gmap string string :=
  foldl (fun m ip => delete ip m) m ips.
Definition put_routes (ips : list string) (id : string) (m : gmap string string) : gmap string string :=
  foldl (fun m ip => <[ip := id]> m) m ips.

Definition AddPeer (peer : PeerEntry) (rt : RoutingTable) : RoutingTable * list event :=
  let existing := peers rt !! ID peer in
  let cleared := match existing with
                 | Some e => drop_routes (AllowedIPs e) (routes rt)
                 | None => routes rt
                 end in
  (MkTable (put_routes (AllowedIPs peer) (ID peer) cleared) (<[ID peer := peer]> (peers rt))
     (joinCB rt) (leaveCB rt),
   match existing with None => if joinCB rt then [Joined peer] else [] | Some _ => [] end).

Definition RemovePeer (peerID : string) (rt : RoutingTable) : RoutingTable * list event :=
  match peers rt !! peerID with
  | Some peer =>
      (MkTable (drop_routes (AllowedIPs peer) (routes rt)) (delete peerID (peers rt)) (joinCB rt) (leaveCB rt),
       if leaveCB rt then [Left peerID] else [])
  | None => (rt, [])
  end.

Definition ResolveRoute (meshIP : string) (rt : RoutingTable) : option string := routes rt !! meshIP.
Definition GetPeer (peerID : string) (rt : RoutingTable) : option PeerEntry := peers rt !! peerID.
(** [range] visits the peers in some order; this is one of them. *)
Definition AllPeers (rt : RoutingTable) : list PeerEntry := (map_to_list (peers rt)).*2.
Definition PeerCount (rt : RoutingTable) : Z := Z.of_nat (size (peers rt)).
Definition ResolvePeerByIP (meshIP : string) (rt : RoutingTable) : option PeerEntry :=
  match ResolveRoute meshIP rt with Some pid => GetPeer pid rt | None => None end.

(** ** Prefixes: netip.ParsePrefix and Prefix.Contains *)

Definition bit_len (ip : IP) : Z := 8 * len ip.

Definition parse_bits (s : list byte) : option Z :=
  if forallb is_digit s && negb (bool_decide (s = [])) &&
     negb ((1 <? len s) && bool_decide (list.head s = Some (ch "0"))) then
    Some (foldl (fun v b => v * 10 + (Z_of_byte b - 48)) 0 s)
  else None.

Definition ParsePrefix (s : string) : option (IP * Z) :=
  let b := bytes_of_string s in
  match last_index (ch "/") b with
  | None => None
  | Some i =>
      match ParseAddr (string_of_bytes (take i b)), parse_bits (drop (S i) b) with
      | Some (ip, false), Some n => if n <=? bit_len ip then Some (ip, n) else None
      | _, _ => None
      end
  end.

Definition Contains (p : IP * Z) (ip : IP * bool) : bool :=
  let '(net, bits) := p in
  let '(a, zone) := ip in
  if zone || negb (bit_len net =? bit_len a) then false
  else if len a =? 4 then Z.shiftr (Z.lxor (be_Z a) (be_Z net)) (32 - bits) =? 0
  else Z.land (Z.lxor (be_Z a) (be_Z net)) (2 ^ 128 - 2 ^ (128 - bits)) =? 0.

Inductive prefix_error : Type := ParseIPError | ParsePrefixError.

Definition IsIPInPrefix (ip prefix : string) : result prefix_error bool :=
  match ParseAddr ip with
  | None => Err ParseIPError
  | Some parsedIP =>
      match ParsePrefix prefix with
      | None => Err ParsePrefixError
      | Some parsedPrefix => Ok (Contains parsedPrefix parsedIP)
      end
  end.

Example IsIPInPrefix_examples :
  IsIPInPrefix "10.1.2.3" "10.1.0.0/16" = Ok true /\ IsIPInPrefix "10.2.2.3" "10.1.0.0/16" = Ok false /\
  IsIPInPrefix "10.1.2.3" "0.0.0.0/0" = Ok true /\ IsIPInPrefix "::1" "0.0.0.0/0" = Ok false /\
  IsIPInPrefix "fd00::7" "fd00::/8" = Ok true /\ IsIPInPrefix "fe00::7" "fd00::/8" = Ok false /\
  IsIPInPrefix "10.0.0.1" "10.0.0.0/08" = Err ParsePrefixError /\
  IsIPInPrefix "10.0.0.1" "10.0.0.0/33" = Err ParsePrefixError /\ IsIPInPrefix "x" "10.0.0.0/8" = Err ParseIPError.
Proof. by vm_compute. Qed.

(** ** Routes point to peers that have the address *)

(** Every route leads to a peer of the table that has the address, and an
    entry is filed under its own name. *)
Definition sound (rt : RoutingTable) : Prop :=
  (forall ip id, routes rt !! ip = Some id -> exists p, peers rt !! id = Some p /\ ip ∈ AllowedIPs p) /\
  (forall id p, peers rt !! id = Some p -> ID p = id).

Lemma drop_routes_lookup ips m ip :
  drop_routes ips m !! ip = if decide (ip ∈ ips) then None else m !! ip.
Proof.
  revert m. induction ips as [|x ips IH]; intros m; cbn [drop_routes foldl].
  - by rewrite decide_False by apply not_elem_of_nil.
  - unfold drop_routes in IH. rewrite IH. destruct (decide (ip ∈ ips)) as [Hi|Hi].
    + by rewrite decide_True by (by right).
    + destruct (decide (ip = x)) as [->|Hx].
      * rewrite lookup_delete_eq. by rewrite decide_True by left.
      * rewrite lookup_delete_ne by done. rewrite decide_False; [done|]. by intros [?|?]%elem_of_cons.
Qed.

Lemma put_routes_lookup ips id m ip :
  put_routes ips id m !! ip = if decide (ip ∈ ips) then Some id else m !! ip.
Proof.
  revert m. induction ips as [|x ips IH]; intros m; cbn [put_routes foldl].
  - by rewrite decide_False by apply not_elem_of_nil.
  - unfold put_routes in IH. rewrite IH. destruct (decide (ip ∈ ips)) as [Hi|Hi].
    + by rewrite decide_True by (by right).
    + destruct (decide (ip = x)) as [->|Hx].
      * rewrite lookup_insert_eq. by rewrite decide_True by left.
      * rewrite lookup_insert_ne by done. rewrite decide_False; [done|]. by intros [?|?]%elem_of_cons.
Qed.

Lemma AddPeer_sound p rt : sound rt -> sound (AddPeer p rt).1.
Proof.
  intros [Hr Hp]. split; cbn.
  - intros ip id. rewrite put_routes_lookup. case_decide as Hin.
    + intros [= <-]. exists p. by rewrite lookup_insert_eq.
    + destruct (peers rt !! ID p) as [e|] eqn:E.
      * rewrite drop_routes_lookup. case_decide as Hold; [done|]. intros H. destruct (Hr ip id H) as (q & Hq & Hi).
        destruct (decide (id = ID p)) as [->|Hne]; [congruence|]. exists q. by rewrite lookup_insert_ne.
      * intros H. destruct (Hr ip id H) as (q & Hq & Hi). exists q. rewrite lookup_insert_ne; [done | congruence].
  - intros id q. destruct (decide (id = ID p)) as [->|Hne]; [rewrite lookup_insert_eq; congruence|].
    rewrite lookup_insert_ne by done. apply Hp.
Qed.

Lemma RemovePeer_sound id rt : sound rt -> sound (RemovePeer id rt).1.
Proof.
  intros [Hr Hp]. unfold RemovePeer. destruct (peers rt !! id) as [e|] eqn:E; [|done]. split; cbn.
  - intros ip j. rewrite drop_routes_lookup. case_decide as Hin; [done|]. intros H.
    destruct (Hr ip j H) as (q & Hq & Hi). exists q. rewrite lookup_delete_ne; [done | congruence].
  - intros j q [? H]%lookup_delete_Some. by apply Hp.
Qed.

Inductive op : Type :=
| OpAdd (p : PeerEntry) | OpRemove (id : string) | OpSetJoin (cb : bool) | OpSetLeave (cb : bool).
Definition apply_op (o : op) (rt : RoutingTable) : RoutingTable * list event :=
  match o with
  | OpAdd p => AddPeer p rt
  | OpRemove id => RemovePeer id rt
  | OpSetJoin cb => (SetJoinCallback cb rt, [])
  | OpSetLeave cb => (SetLeaveCallback cb rt, [])
  end.
Fixpoint run (ops : list op) (rt : RoutingTable) : RoutingTable * list event :=
  match ops with
  | [] => (rt, [])
  | o :: ops => let '(rt, ev) := apply_op o rt in let '(rt, evs) := run ops rt in (rt, ev ++ evs)
  end.

Lemma routes_run_sound ops rt : sound rt -> sound (run ops rt).1.
Proof.
  revert rt. induction ops as [|o ops IH]; intros rt Hs; [done|]. cbn [run].
  destruct (apply_op o rt) as [rt1 ev] eqn:E. assert (sound rt1) as H1.
  { replace rt1 with (apply_op o rt).1 by by rewrite E.
    destruct o; [by apply AddPeer_sound | by apply RemovePeer_sound | done | done]. }
  specialize (IH rt1 H1). by destruct (run ops rt1).
Qed.

(** A route that is found is one to a known peer that has the address,
    whatever was added and removed before; and a peer that was just added is
    found under each of its addresses. *)
Theorem routing_sound ops ip :
  let rt := (run ops NewRoutingTable).1 in
  match ResolveRoute ip rt with
  | Some id => exists p, ResolvePeerByIP ip rt = Some p /\ ID p = id /\ ip ∈ AllowedIPs p
  | None => ResolvePeerByIP ip rt = None
  end /\
  forall p, ip ∈ AllowedIPs p -> ResolvePeerByIP ip (AddPeer p rt).1 = Some p.
Proof.
  cbv zeta. assert (sound (run ops NewRoutingTable).1) as Hs.
  { apply routes_run_sound. split; cbn; intros ? ? H; by rewrite lookup_empty in H. }
  split.
  - unfold ResolvePeerByIP. destruct (ResolveRoute ip _) as [id|] eqn:E; [|done].
    destruct Hs as [Hr Hp]. destruct (Hr ip id E) as (p & Hp' & Hi). exists p. split_and!; [done | by apply Hp | done].
  - intros p Hi. unfold ResolvePeerByIP, ResolveRoute, GetPeer. cbn.
    rewrite put_routes_lookup, decide_True by done. by rewrite lookup_insert_eq.
Qed.

(** The events of a run without changed callbacks, for a peer: it joins and
    leaves in turn. *)
Fixpoint alternates (id : string) (present : bool) (evs : list event) : bool :=
  match evs with
  | [] => true
  | Joined p :: evs =>
      if String.eqb (ID p) id then negb present && alternates id true evs else alternates id present evs
  | Left j :: evs =>
      if String.eqb j id then present && alternates id false evs else alternates id present evs
  end.

Lemma alternates_run ops rt id :
  Forall (fun o => match o with OpSetJoin _ | OpSetLeave _ => False | _ => True end) ops ->
  joinCB rt = true -> leaveCB rt = true ->
  alternates id (bool_decide (is_Some (peers rt !! id))) (run ops rt).2 = true.
Proof.
  intros Hops. revert rt. induction Hops as [|o ops Ho Hops IH]; intros rt Hj Hl; [done|]. cbn [run].
  destruct o as [p|j| |]; try done; cbn [apply_op].
  - destruct (AddPeer p rt) as [rt1 ev] eqn:E. unfold AddPeer in E. injection E as <- <-.
    match goal with |- context [run ops ?r] => specialize (IH r Hj Hl); destruct (run ops r) as [rt2 evs] end.
    cbn [snd app] in *. rewrite Hj. cbn in IH. destruct (peers rt !! ID p) as [e|] eqn:Ep; cbn [app].
    + rewrite <-IH. f_equal. apply bool_decide_ext. destruct (decide (ID p = id)) as [<-|Hne].
      * rewrite lookup_insert_eq, Ep. by split; eauto.
      * by rewrite lookup_insert_ne.
    + cbn [alternates]. destruct (String.eqb_spec (ID p) id) as [<-|Hne].
      * rewrite Ep. rewrite (bool_decide_eq_false_2 (is_Some None)) by by intros [].
        rewrite lookup_insert_eq, bool_decide_eq_true_2 in IH by eauto. exact IH.
      * by rewrite lookup_insert_ne in IH.
  - unfold RemovePeer. destruct (peers rt !! j) as [e|] eqn:Ep.
    + match goal with |- context [run ops ?r] => specialize (IH r Hj Hl); destruct (run ops r) as [rt2 evs] end.
      cbn [snd app] in *. rewrite Hl. cbn [app alternates]. cbn in IH. destruct (String.eqb_spec j id) as [<-|Hne].
      * rewrite Ep, bool_decide_eq_true_2 by eauto.
        rewrite lookup_delete_eq, (bool_decide_eq_false_2 (is_Some None)) in IH by by intros []. exact IH.
      * by rewrite lookup_delete_ne in IH.
    + specialize (IH rt Hj Hl). by destruct (run ops rt).
Qed.

(** Removing a peer takes away the route of another that has the same
    address, and adding it again does not bring that route back. *)
Theorem RemovePeer_drops_others_route :
  let a := MkPeer "a" "" ["10.0.0.7"%string] in
  let b := MkPeer "b" "" ["10.0.0.7"%string] in
  let rt := (run [OpAdd a; OpAdd b; OpRemove "a"] NewRoutingTable).1 in
  GetPeer "b" rt = Some b /\ ResolveRoute "10.0.0.7" rt = None.
Proof. by vm_compute. Qed.

(** ** Prefixes *)

Lemma land_top x n w :
  0 <= n <= w -> 0 <= x < 2 ^ w -> Z.land x (2 ^ w - 2 ^ (w - n)) = 0 <-> x / 2 ^ (w - n) = 0.
Proof.
  intros Hn Hx. assert (2 ^ w - 2 ^ (w - n) = Z.shiftl (Z.ones n) (w - n)) as ->.
  { rewrite Z.shiftl_mul_pow2, Z.ones_equiv by lia. unfold Z.pred. rewrite Z.mul_add_distr_r, <-Z.pow_add_r by lia.
    replace (n + (w - n)) with w by lia. lia. }
  rewrite <-Z.shiftr_div_pow2 by lia. split; intros H; apply Z.bits_inj'; intros i Hi; rewrite Z.bits_0.
  - rewrite Z.shiftr_spec by lia. apply (f_equal (fun z => Z.testbit z (i + (w - n)))) in H.
    rewrite Z.land_spec, Z.bits_0, Z.shiftl_spec in H by lia. replace (i + (w - n) - (w - n)) with i in H by lia.
    destruct (decide (i < n)) as [Hin|Hin].
    + rewrite Z.ones_spec_low in H by lia. by rewrite andb_true_r in H.
    + destruct (decide (x = 0)) as [->|]; [apply Z.bits_0|]. apply Z.bits_above_log2; [lia|].
      assert (Z.log2 x < w) by (apply Z.log2_lt_pow2; lia). lia.
  - rewrite Z.land_spec, Z.shiftl_spec by lia. destruct (decide (w - n <= i)) as [Hin|Hin].
    + apply (f_equal (fun z => Z.testbit z (i - (w - n)))) in H. rewrite Z.shiftr_spec, Z.bits_0 in H by lia.
      replace (i - (w - n) + (w - n)) with i in H by lia. by rewrite H.
    + rewrite (Z.testbit_neg_r _ (i - (w - n))) by lia. by rewrite andb_false_r.
Qed.

Lemma lxor_range x y w : 0 <= w -> 0 <= x < 2 ^ w -> 0 <= y < 2 ^ w -> 0 <= Z.lxor x y < 2 ^ w.
Proof.
  intros Hw Hx Hy. assert (0 <= Z.lxor x y) by (apply Z.lxor_nonneg; lia). split; [done|].
  destruct (decide (Z.lxor x y = 0)) as [->|Hne]; [lia|]. apply Z.log2_lt_pow2; [lia|].
  pose proof (Z.log2_lxor x y ltac:(lia) ltac:(lia)). destruct (decide (w = 0)) as [->|Hw0].
  { rewrite Z.pow_0_r in *. assert (x = 0) as -> by lia. by assert (y = 0) as -> by lia. }
  assert (forall z, 0 <= z < 2 ^ w -> Z.log2 z < w) as Hl.
  { intros z Hz. destruct (decide (z = 0)) as [->|]; [cbn; lia|]. apply Z.log2_lt_pow2; lia. }
  pose proof (Hl x Hx). pose proof (Hl y Hy). lia.
Qed.

Lemma lxor_div_zero x y k : 0 <= k -> Z.lxor x y / 2 ^ k = 0 <-> x / 2 ^ k = y / 2 ^ k.
Proof. intros Hk. rewrite <-!Z.shiftr_div_pow2, Z.shiftr_lxor by lia. apply Z.lxor_eq_0_iff. Qed.

(** An address lies in a prefix when it is of the same family, has no zone
    and its first bits are those of the prefix. *)
Theorem Contains_iff net bits a zone :
  len net = 4 \/ len net = 16 -> 0 <= bits <= bit_len net ->
  Contains (net, bits) (a, zone) = true <->
  zone = false /\ len a = len net /\
  be_Z a / 2 ^ (bit_len net - bits) = be_Z net / 2 ^ (bit_len net - bits).
Proof.
  intros Hl Hb. unfold Contains, bit_len in *. destruct zone; cbn [orb]; [by split; [|intros (? & _)]|].
  destruct (Z.eqb_spec (8 * len net) (8 * len a)) as [E|E]; cbn [negb].
  2: { split; [done|]. intros (_ & ? & _). lia. }
  assert (len a = len net) as El by lia. rewrite <-lxor_div_zero by lia.
  destruct (Z.eqb_spec (len a) 4) as [E4|E4].
  - replace (8 * len net) with 32 by lia. rewrite Z.eqb_eq, Z.shiftr_div_pow2 by lia. by split; [|intros (_ & _ & ?)].
  - assert (len net = 16) as E16 by lia. replace (8 * len net) with 128 by lia.
    rewrite Z.eqb_eq, land_top; [by split; [|intros (_ & _ & ?)] | lia |].
    pose proof (be_Z_range a) as Ha. pose proof (be_Z_range net) as Hn. rewrite El, E16 in Ha. rewrite E16 in Hn.
    change (256 ^ 16) with (2 ^ 128) in *. by apply lxor_range.
Qed.

Lemma Contains_iff_witness :
  Contains ([x0a; x00; x00; x00], 8) ([x0a; x01; x02; x03], false) = true /\
  be_Z [x0a; x01; x02; x03] / 2 ^ 24 = be_Z [x0a; x00; x00; x00] / 2 ^ 24.
Proof.
  split; [vm_compute; reflexivity|].
  exact (proj2 (proj2 (proj1 (Contains_iff [x0a; x00; x00; x00] 8 [x0a; x01; x02; x03] false
    ltac:(left; vm_compute; reflexivity) ltac:(unfold bit_len; cbn [length]; lia)) ltac:(vm_compute; reflexivity)))).
Defined.
End Routing.
