(* ===== verification/PeerManager.v ===== *)
(** * The peer manager (internal/mesh/peer_manager.go)

    One peer's connection: the transports that are tried in order, hedged
    dials, quarantine with exponential backoff, latency probes and the choice
    of the best transport. The goroutine of a peer handles one event at a
    time, so a handler is a function of the state at one instant; dials are
    goroutines of their own whose results arrive over a channel of four. The
    floating-point averages and scores are exact fractions here. *)
From stdpp Require Import prelude gmap list strings.
From Stdlib Require Import ZArith QArith Lia Lqa.
From S2P Require Import Prelude.
Local Open Scope Z_scope.

Module Peer.

Definition second : Z := 10 ^ 9.
(** The zero [time.Time], in the year 1. *)
Definition zeroTime : Z := -62135596800 * second.

Inductive PeerState : Type := PeerDisconnected | PeerConnecting | PeerConnected.
#[export] Instance PeerState_eq_dec : EqDecision PeerState.
Proof. solve_decision. Defined.
Definition PeerState_String (s : PeerState) : string :=
  match s with
  | PeerDisconnected => "disconnected" | PeerConnecting => "connecting" | PeerConnected => "connected"
  end.

Inductive TransportSubState : Type :=
| TransportSubActive | TransportSubConnecting | TransportSubProbing | TransportSubQuarantined
| TransportSubFailed.
#[export] Instance TransportSubState_eq_dec : EqDecision TransportSubState.
Proof. solve_decision. Defined.
Definition SubState_String (s : TransportSubState) : string :=
  match s with
  | TransportSubActive => "active" | TransportSubConnecting => "connecting"
  | TransportSubProbing => "probing" | TransportSubQuarantined => "quarantined"
  | TransportSubFailed => "failed"
  end.

(** ** Configuration *)

Definition DefaultUDPFailureThreshold : Z := 3.
Definition DefaultWSFailureThreshold : Z := 2.
Definition DefaultRealityFailureThreshold : Z := 2.
Definition DefaultRelayFailureThreshold : Z := 3.
Definition defaultBlackoutThreshold : Z := 5.
Definition defaultAlphaRise : Q := 7 # 10.
Definition defaultAlphaFall : Q := 3 # 10.

(** [BaselineWindow], [TriggerThreshold] and [TriggerConsecutive] are read
    by nothing. A map that is [nil] is [None]. *)
Record PeerManagerConfig : Type := MkConfig {
  PeerID : string; Addr : string; TransportNames : list string;
  QuarantineThreshold : option (gmap string Z); QuarantineBaseCooldown : Z; QuarantineMaxCooldown : Z;
  HedgeDelay : Z; SlowTransports : option (gset string); ProbeInterval : Z;
  ProbeIntervalQuarantinedReality : Z; AlphaRise : Q; AlphaFall : Q; FailureLookback : Z;
  BlackoutThreshold : Z; ScoreSwitchThreshold : Q; ScoreStableProbes : Z; MinSamplesForScoring : Z;
  HysteresisBonus : Q
}.
Definition set_TransportNames (l : list string) (c : PeerManagerConfig) : PeerManagerConfig :=
  MkConfig (PeerID c) (Addr c) l (QuarantineThreshold c) (QuarantineBaseCooldown c)
    (QuarantineMaxCooldown c) (HedgeDelay c) (SlowTransports c) (ProbeInterval c)
    (ProbeIntervalQuarantinedReality c) (AlphaRise c) (AlphaFall c) (FailureLookback c)
    (BlackoutThreshold c) (ScoreSwitchThreshold c) (ScoreStableProbes c) (MinSamplesForScoring c)
    (HysteresisBonus c).

Definition default_thresholds : gmap string Z :=
  list_to_map [("udp"%string, DefaultUDPFailureThreshold); ("reality"%string, DefaultRealityFailureThreshold);
    ("websocket"%string, DefaultWSFailureThreshold); ("relay"%string, DefaultRelayFailureThreshold)].
Definition default_slow : gset string := {["reality"%string; "websocket"%string]}.

Definition DefaultPeerManagerConfig : PeerManagerConfig :=
  MkConfig "" "" [] (Some default_thresholds) (30 * second) (300 * second) (5 * second) (Some default_slow)
    (30 * second) (300 * second) defaultAlphaRise defaultAlphaFall (60 * second) defaultBlackoutThreshold
    (1 # 4) 3 3 (1 # 10).

(** [RetryInterval]: a tenth of the base cooldown, at least 100 ms. *)
Definition RetryInterval (c : PeerManagerConfig) : Z :=
  if 0 <? QuarantineBaseCooldown c then Z.max (QuarantineBaseCooldown c / 10) (10 ^ 8) else second.

(** ** The average of latencies *)

Record latencyEWMA : Type := MkEWMA { value : Q; hasValue : bool; count : Z; alphaRise : Q; alphaFall : Q }.
Definition Qpos (q : Q) : bool := negb (Qle_bool q 0).
Definition Qlt_bool (a b : Q) : bool := negb (Qle_bool b a).
Definition newLatencyEWMA (rise fall : Q) : latencyEWMA :=
  MkEWMA 0 false 0 (if Qpos rise then rise else defaultAlphaRise) (if Qpos fall then fall else defaultAlphaFall).
Definition push (d : Z) (e : latencyEWMA) : latencyEWMA :=
  let sample := inject_Z d in
  if negb (hasValue e) then MkEWMA sample true 1 (alphaRise e) (alphaFall e)
  else
    let a := if Qlt_bool (value e) sample then alphaRise e else alphaFall e in
    MkEWMA (value e + a * (sample - value e))%Q true (count e + 1) (alphaRise e) (alphaFall e).
(** [time.Duration(e.value)] truncates. *)
Definition trunc (q : Q) : Z := Z.quot (Qnum q) (Zpos (Qden q)).
Definition current (e : latencyEWMA) : Z := if hasValue e then trunc (value e) else 0.
Definition reset (e : latencyEWMA) : latencyEWMA := MkEWMA 0 false 0 (alphaRise e) (alphaFall e).

(** ** The state of a peer *)

(** A connection is its number. *)
Record transportState : Type := MkTS {
  name : string; subState : TransportSubState; conn : option nat; latency : latencyEWMA; failures : Z;
  quarantineN : Z; quarantinedAt : Z; cooldownUntil : Z; stableBetter : Z; lastProbeAt : Z;
  failureTimes : list Z
}.
Definition ts_subState (x : TransportSubState) (s : transportState) : transportState :=
  MkTS (name s) x (conn s) (latency s) (failures s) (quarantineN s) (quarantinedAt s) (cooldownUntil s)
    (stableBetter s) (lastProbeAt s) (failureTimes s).
Definition ts_conn (x : option nat) (s : transportState) : transportState :=
  MkTS (name s) (subState s) x (latency s) (failures s) (quarantineN s) (quarantinedAt s) (cooldownUntil s)
    (stableBetter s) (lastProbeAt s) (failureTimes s).
Definition ts_latency (x : latencyEWMA) (s : transportState) : transportState :=
  MkTS (name s) (subState s) (conn s) x (failures s) (quarantineN s) (quarantinedAt s) (cooldownUntil s)
    (stableBetter s) (lastProbeAt s) (failureTimes s).
Definition ts_failures (x : Z) (s : transportState) : transportState :=
  MkTS (name s) (subState s) (conn s) (latency s) x (quarantineN s) (quarantinedAt s) (cooldownUntil s)
    (stableBetter s) (lastProbeAt s) (failureTimes s).
Definition ts_quarantineN (x : Z) (s : transportState) : transportState :=
  MkTS (name s) (subState s) (conn s) (latency s) (failures s) x (quarantinedAt s) (cooldownUntil s)
    (stableBetter s) (lastProbeAt s) (failureTimes s).
Definition ts_quarantinedAt (x : Z) (s : transportState) : transportState :=
  MkTS (name s) (subState s) (conn s) (latency s) (failures s) (quarantineN s) x (cooldownUntil s)
    (stableBetter s) (lastProbeAt s) (failureTimes s).
Definition ts_cooldownUntil (x : Z) (s : transportState) : transportState :=
  MkTS (name s) (subState s) (conn s) (latency s) (failures s) (quarantineN s) (quarantinedAt s) x
    (stableBetter s) (lastProbeAt s) (failureTimes s).
Definition ts_stableBetter (x : Z) (s : transportState) : transportState :=
  MkTS (name s) (subState s) (conn s) (latency s) (failures s) (quarantineN s) (quarantinedAt s)
    (cooldownUntil s) x (lastProbeAt s) (failureTimes s).
Definition ts_lastProbeAt (x : Z) (s : transportState) : transportState :=
  MkTS (name s) (subState s) (conn s) (latency s) (failures s) (quarantineN s) (quarantinedAt s)
    (cooldownUntil s) (stableBetter s) x (failureTimes s).
Definition ts_failureTimes (x : list Z) (s : transportState) : transportState :=
  MkTS (name s) (subState s) (conn s) (latency s) (failures s) (quarantineN s) (quarantinedAt s)
    (cooldownUntil s) (stableBetter s) (lastProbeAt s) x.

(** A dial in progress, and what it sends back: the connection with its
    latency, or an error. *)
Record dial : Type := MkDial { d_gen : Z; d_name : string; d_ctx : Z }.
Record dialResult : Type := MkResult { gen : Z; transportName : string; r_conn : option (nat * Z) }.

(** [doneCloses] counts how often [done] was closed; a second time panics.
    A context of a connect cycle is the number of the cycle, [cancelled] the
    ones that were cancelled; [openConns] the connections nobody closed. *)
Record PeerManager : Type := MkPM {
  cfg : PeerManagerConfig; started : bool; running : bool; doneCloses : Z; ctxDone : bool;
  state : PeerState; transportStates : gmap string transportState; currentTransport : string;
  lastLatency : Z; connectGen : Z; dialCtx : option Z; cancelled : gset Z; inFlight : gset string;
  happyEyeballsTimer : option Z; retryTimer : option Z; dials : list dial; results : list dialResult;
  openConns : gset nat; nextConn : nat
}.
Definition set_cfg (x : PeerManagerConfig) (s : PeerManager) : PeerManager :=
  MkPM x (started s) (running s) (doneCloses s) (ctxDone s) (state s) (transportStates s)
    (currentTransport s) (lastLatency s) (connectGen s) (dialCtx s) (cancelled s) (inFlight s)
    (happyEyeballsTimer s) (retryTimer s) (dials s) (results s) (openConns s) (nextConn s).
Definition set_started (x : bool) (s : PeerManager) : PeerManager :=
  MkPM (cfg s) x (running s) (doneCloses s) (ctxDone s) (state s) (transportStates s) (currentTransport s)
    (lastLatency s) (connectGen s) (dialCtx s) (cancelled s) (inFlight s) (happyEyeballsTimer s)
    (retryTimer s) (dials s) (results s) (openConns s) (nextConn s).
Definition set_running (x : bool) (s : PeerManager) : PeerManager :=
  MkPM (cfg s) (started s) x (doneCloses s) (ctxDone s) (state s) (transportStates s) (currentTransport s)
    (lastLatency s) (connectGen s) (dialCtx s) (cancelled s) (inFlight s) (happyEyeballsTimer s)
    (retryTimer s) (dials s) (results s) (openConns s) (nextConn s).
Definition set_doneCloses (x : Z) (s : PeerManager) : PeerManager :=
  MkPM (cfg s) (started s) (running s) x (ctxDone s) (state s) (transportStates s) (currentTransport s)
    (lastLatency s) (connectGen s) (dialCtx s) (cancelled s) (inFlight s) (happyEyeballsTimer s)
    (retryTimer s) (dials s) (results s) (openConns s) (nextConn s).
Definition set_ctxDone (x : bool) (s : PeerManager) : PeerManager :=
  MkPM (cfg s) (started s) (running s) (doneCloses s) x (state s) (transportStates s) (currentTransport s)
    (lastLatency s) (connectGen s) (dialCtx s) (cancelled s) (inFlight s) (happyEyeballsTimer s)
    (retryTimer s) (dials s) (results s) (openConns s) (nextConn s).
Definition set_state (x : PeerState) (s : PeerManager) : PeerManager :=
  MkPM (cfg s) (started s) (running s) (doneCloses s) (ctxDone s) x (transportStates s) (currentTransport s)
    (lastLatency s) (connectGen s) (dialCtx s) (cancelled s) (inFlight s) (happyEyeballsTimer s)
    (retryTimer s) (dials s) (results s) (openConns s) (nextConn s).
Definition set_transportStates (x : gmap string transportState) (s : PeerManager) : PeerManager :=
  MkPM (cfg s) (started s) (running s) (doneCloses s) (ctxDone s) (state s) x (currentTransport s)
    (lastLatency s) (connectGen s) (dialCtx s) (cancelled s) (inFlight s) (happyEyeballsTimer s)
    (retryTimer s) (dials s) (results s) (openConns s) (nextConn s).
Definition set_currentTransport (x : string) (s : PeerManager) : PeerManager :=
  MkPM (cfg s) (started s) (running s) (doneCloses s) (ctxDone s) (state s) (transportStates s) x
    (lastLatency s) (connectGen s) (dialCtx s) (cancelled s) (inFlight s) (happyEyeballsTimer s)
    (retryTimer s) (dials s) (results s) (openConns s) (nextConn s).
Definition set_lastLatency (x : Z) (s : PeerManager) : PeerManager :=
  MkPM (cfg s) (started s) (running s) (doneCloses s) (ctxDone s) (state s) (transportStates s)
    (currentTransport s) x (connectGen s) (dialCtx s) (cancelled s) (inFlight s) (happyEyeballsTimer s)
    (retryTimer s) (dials s) (results s) (openConns s) (nextConn s).
Definition set_connectGen (x : Z) (s : PeerManager) : PeerManager :=
  MkPM (cfg s) (started s) (running s) (doneCloses s) (ctxDone s) (state s) (transportStates s)
    (currentTransport s) (lastLatency s) x (dialCtx s) (cancelled s) (inFlight s) (happyEyeballsTimer s)
    (retryTimer s) (dials s) (results s) (openConns s) (nextConn s).
Definition set_dialCtx (x : option Z) (s : PeerManager) : PeerManager :=
  MkPM (cfg s) (started s) (running s) (doneCloses s) (ctxDone s) (state s) (transportStates s)
    (currentTransport s) (lastLatency s) (connectGen s) x (cancelled s) (inFlight s) (happyEyeballsTimer s)
    (retryTimer s) (dials s) (results s) (openConns s) (nextConn s).
Definition set_cancelled (x : gset Z) (s : PeerManager) : PeerManager :=
  MkPM (cfg s) (started s) (running s) (doneCloses s) (ctxDone s) (state s) (transportStates s)
    (currentTransport s) (lastLatency s) (connectGen s) (dialCtx s) x (inFlight s) (happyEyeballsTimer s)
    (retryTimer s) (dials s) (results s) (openConns s) (nextConn s).
Definition set_inFlight (x : gset string) (s : PeerManager) : PeerManager :=
  MkPM (cfg s) (started s) (running s) (doneCloses s) (ctxDone s) (state s) (transportStates s)
    (currentTransport s) (lastLatency s) (connectGen s) (dialCtx s) (cancelled s) x (happyEyeballsTimer s)
    (retryTimer s) (dials s) (results s) (openConns s) (nextConn s).
Definition set_happyEyeballsTimer (x : option Z) (s : PeerManager) : PeerManager :=
  MkPM (cfg s) (started s) (running s) (doneCloses s) (ctxDone s) (state s) (transportStates s)
    (currentTransport s) (lastLatency s) (connectGen s) (dialCtx s) (cancelled s) (inFlight s) x
    (retryTimer s) (dials s) (results s) (openConns s) (nextConn s).
Definition set_retryTimer (x : option Z) (s : PeerManager) : PeerManager :=
  MkPM (cfg s) (started s) (running s) (doneCloses s) (ctxDone s) (state s) (transportStates s)
    (currentTransport s) (lastLatency s) (connectGen s) (dialCtx s) (cancelled s) (inFlight s)
    (happyEyeballsTimer s) x (dials s) (results s) (openConns s) (nextConn s).
Definition set_dials (x : list dial) (s : PeerManager) : PeerManager :=
  MkPM (cfg s) (started s) (running s) (doneCloses s) (ctxDone s) (state s) (transportStates s)
    (currentTransport s) (lastLatency s) (connectGen s) (dialCtx s) (cancelled s) (inFlight s)
    (happyEyeballsTimer s) (retryTimer s) x (results s) (openConns s) (nextConn s).
Definition set_results (x : list dialResult) (s : PeerManager) : PeerManager :=
  MkPM (cfg s) (started s) (running s) (doneCloses s) (ctxDone s) (state s) (transportStates s)
    (currentTransport s) (lastLatency s) (connectGen s) (dialCtx s) (cancelled s) (inFlight s)
    (happyEyeballsTimer s) (retryTimer s) (dials s) x (openConns s) (nextConn s).
Definition set_openConns (x : gset nat) (s : PeerManager) : PeerManager :=
  MkPM (cfg s) (started s) (running s) (doneCloses s) (ctxDone s) (state s) (transportStates s)
    (currentTransport s) (lastLatency s) (connectGen s) (dialCtx s) (cancelled s) (inFlight s)
    (happyEyeballsTimer s) (retryTimer s) (dials s) (results s) x (nextConn s).
Definition set_nextConn (x : nat) (s : PeerManager) : PeerManager :=
  MkPM (cfg s) (started s) (running s) (doneCloses s) (ctxDone s) (state s) (transportStates s)
    (currentTransport s) (lastLatency s) (connectGen s) (dialCtx s) (cancelled s) (inFlight s)
    (happyEyeballsTimer s) (retryTimer s) (dials s) (results s) (openConns s) x.

Definition NewPeerManager (c : PeerManagerConfig) : PeerManager :=
  let def := DefaultPeerManagerConfig in
  let z0 (x d : Z) := if x =? 0 then d else x in
  let q0 (x d : Q) := if Qeq_bool x 0 then d else x in
  let c := MkConfig (PeerID c) (Addr c) (TransportNames c)
    (match QuarantineThreshold c with Some m => Some m | None => QuarantineThreshold def end)
    (z0 (QuarantineBaseCooldown c) (QuarantineBaseCooldown def))
    (z0 (QuarantineMaxCooldown c) (QuarantineMaxCooldown def)) (z0 (HedgeDelay c) (HedgeDelay def))
    (match SlowTransports c with Some m => Some m | None => SlowTransports def end)
    (z0 (ProbeInterval c) (ProbeInterval def))
    (z0 (ProbeIntervalQuarantinedReality c) (ProbeIntervalQuarantinedReality def))
    (q0 (AlphaRise c) (AlphaRise def)) (q0 (AlphaFall c) (AlphaFall def))
    (z0 (FailureLookback c) (FailureLookback def)) (z0 (BlackoutThreshold c) (BlackoutThreshold def))
    (q0 (ScoreSwitchThreshold c) (ScoreSwitchThreshold def))
    (z0 (ScoreStableProbes c) (ScoreStableProbes def))
    (z0 (MinSamplesForScoring c) (MinSamplesForScoring def)) (HysteresisBonus c) in
  MkPM c false false 0 false PeerDisconnected
    (list_to_map ((fun n =>
       (n, MkTS n TransportSubActive None (newLatencyEWMA (AlphaRise c) (AlphaFall c)) 0 0 zeroTime zeroTime 0 zeroTime []))
       <$> TransportNames c))
    "" 0 0 None ∅ ∅ None None [] [] ∅ 0.

(** *** Helpers *)

Definition fresh_state (n : string) (pm : PeerManager) : transportState :=
  MkTS n TransportSubActive None (newLatencyEWMA (AlphaRise (cfg pm)) (AlphaFall (cfg pm)))
    0 0 zeroTime zeroTime 0 zeroTime [].
(** [getOrCreateTransportState]; its result is changed through [put_ts]. *)
Definition getOrCreateTransportState (n : string) (pm : PeerManager) : transportState :=
  default (fresh_state n pm) (transportStates pm !! n).
Definition put_ts (n : string) (ts : transportState) (pm : PeerManager) : PeerManager :=
  set_transportStates (<[n := ts]> (transportStates pm)) pm.

(** [conn.ForceClose()] on a connection that may be nil. *)
Definition ForceClose (c : option nat) (pm : PeerManager) : PeerManager :=
  match c with Some c => set_openConns (openConns pm ∖ {[c]}) pm | None => pm end.

Definition available (ts : transportState) : bool :=
  negb (bool_decide (subState ts = TransportSubQuarantined) || bool_decide (subState ts = TransportSubFailed)).
Definition candidate (pm : PeerManager) (n : string) : bool :=
  match transportStates pm !! n with Some ts => available ts | None => true end.
Definition candidateTransports (pm : PeerManager) : list string :=
  filter (fun n => candidate pm n = true) (TransportNames (cfg pm)).

(** The least recently quarantined transport, or the first that was never
    tried. *)
Fixpoint escape_loop (m : gmap string transportState) (names : list string) (best : option (string * Z))
  : list string :=
  match names with
  | [] => match best with Some (n, _) => [n] | None => [] end
  | n :: names =>
      match m !! n with
      | None => [n]
      | Some ts =>
          escape_loop m names
            (if bool_decide (subState ts = TransportSubQuarantined) then
               match best with
               | Some (_, t) => if quarantinedAt ts <? t then Some (n, quarantinedAt ts) else best
               | None => Some (n, quarantinedAt ts)
               end
             else best)
      end
  end.
Definition blackoutEscapeCandidates (pm : PeerManager) : list string :=
  escape_loop (transportStates pm) (TransportNames (cfg pm)) None.

Definition reorderTransports (target : string) (pm : PeerManager) : list string :=
  target :: filter (fun n => n <> target) (TransportNames (cfg pm)).

Definition failureThreshold (n : string) (pm : PeerManager) : Z :=
  let t := match QuarantineThreshold (cfg pm) with Some m => default 0 (m !! n) | None => 0 end in
  if 0 <? t then t
  else if String.eqb n "udp" then DefaultUDPFailureThreshold
  else if String.eqb n "websocket" then DefaultWSFailureThreshold
  else if String.eqb n "reality" then DefaultRealityFailureThreshold
  else DefaultUDPFailureThreshold.

Fixpoint cooldown_loop (n : nat) (d max : Z) : Z :=
  match n with
  | O => if max <? d then max else d
  | S n => let d := i64 (d * 2) in if max <? d then max else cooldown_loop n d max
  end.
Definition cooldownDuration (n : Z) (c : PeerManagerConfig) : Z :=
  cooldown_loop (Z.to_nat n) (QuarantineBaseCooldown c) (QuarantineMaxCooldown c).

Definition trimFailures (now : Z) (c : PeerManagerConfig) (l : list Z) : list Z :=
  filter (fun t => now - FailureLookback c < t) l.

Definition cancelInFlight (pm : PeerManager) : PeerManager :=
  set_inFlight ∅
    match dialCtx pm with Some c => set_cancelled (cancelled pm ∪ {[c]}) pm | None => pm end.
Definition stopHappyEyeballs (pm : PeerManager) : PeerManager := set_happyEyeballsTimer None pm.
Definition stopRetry (pm : PeerManager) : PeerManager := set_retryTimer None pm.

(** *** Dialling *)

Definition startDial (ctx : Z) (g : Z) (n : string) (pm : PeerManager) : PeerManager :=
  let pm := set_inFlight (inFlight pm ∪ {[n]}) pm in
  let pm := put_ts n (ts_subState TransportSubConnecting (getOrCreateTransportState n pm)) pm in
  set_dials (dials pm ++ [MkDial g n ctx]) pm.

(** A cycle: the first candidate is dialled, and a timer hedges it when
    there are others; both branches of the code set the same timer. *)
Definition startConnectCycle (now : Z) (pm : PeerManager) : PeerManager :=
  let pm := cancelInFlight pm in
  let pm := if bool_decide (state pm = PeerConnected) then pm else set_state PeerConnecting pm in
  let candidates := match candidateTransports pm with
                    | [] => blackoutEscapeCandidates pm
                    | l => l
                    end in
  match candidates with
  | [] => pm
  | primary :: others =>
      let pm := set_connectGen (connectGen pm + 1) pm in
      let pm := set_dialCtx (Some (connectGen pm)) pm in
      let pm := startDial (connectGen pm) (connectGen pm) primary pm in
      match others with
      | [] => pm
      | _ => set_happyEyeballsTimer (Some (now + HedgeDelay (cfg pm))) pm
      end
  end.

Definition startFallbackDial (pm : PeerManager) : PeerManager :=
  match list.head (filter (fun n => n ∉ inFlight pm) (candidateTransports pm)), dialCtx pm with
  | Some n, Some ctx => startDial ctx (connectGen pm) n pm
  | _, _ => pm
  end.

Definition checkQuarantineExpiry (now : Z) (pm : PeerManager) : PeerManager :=
  let expired ts := bool_decide (subState ts = TransportSubQuarantined) && (cooldownUntil ts <? now) in
  let anyExpired := negb (bool_decide (filter (fun p => expired p.2 = true) (transportStates pm) = ∅)) in
  let pm := set_transportStates
    ((fun ts => if expired ts
                then ts_quarantinedAt zeroTime (ts_failures 0 (ts_subState TransportSubActive ts))
                else ts) <$> transportStates pm) pm in
  if anyExpired && bool_decide (state pm = PeerConnecting) && bool_decide (inFlight pm = ∅)
  then startConnectCycle now pm else pm.

Definition onAllDialsFailed (now : Z) (pm : PeerManager) : PeerManager :=
  match candidateTransports pm with
  | _ :: _ => set_retryTimer (Some (now + RetryInterval (cfg pm))) pm
  | [] => checkQuarantineExpiry now pm
  end.

(** A failure of a transport. *)
Definition record_failure (now : Z) (n : string) (ts : transportState) (pm : PeerManager) : transportState :=
  let ts := ts_failures (failures ts + 1) ts in
  let ts := ts_failureTimes (trimFailures now (cfg pm) (failureTimes ts ++ [now])) ts in
  if failureThreshold n pm <=? failures ts then
    let ts := ts_quarantineN (quarantineN ts + 1) ts in
    let ts := ts_quarantinedAt now ts in
    let ts := ts_cooldownUntil (now + cooldownDuration (quarantineN ts) (cfg pm)) ts in
    ts_subState (if BlackoutThreshold (cfg pm) <=? quarantineN ts then TransportSubFailed
                 else TransportSubQuarantined) ts
  else ts_subState TransportSubActive ts.

(** The connection of the current transport is closed and forgotten. *)
Definition closeCurrent (pm : PeerManager) : PeerManager :=
  match transportStates pm !! currentTransport pm with
  | Some old =>
      match conn old with
      | Some o => put_ts (currentTransport pm) (ts_subState TransportSubActive (ts_conn None old))
                    (ForceClose (Some o) pm)
      | None => pm
      end
  | None => pm
  end.

Definition handleDialResult (now : Z) (result : dialResult) (pm : PeerManager) : PeerManager :=
  let n := transportName result in
  if negb (gen result =? connectGen pm) then ForceClose (fst <$> r_conn result) pm
  else
    let pm := set_inFlight (inFlight pm ∖ {[n]}) pm in
    let ts := getOrCreateTransportState n pm in
    match r_conn result with
    | Some (c, lat) =>
        let ts := ts_latency (push lat (latency ts))
                    (ts_conn (Some c) (ts_quarantineN 0 (ts_failures 0 (ts_subState TransportSubActive ts)))) in
        let pm := set_lastLatency lat (put_ts n ts pm) in
        let pm :=
          if negb (String.eqb (currentTransport pm) "") && negb (String.eqb (currentTransport pm) n) then
            closeCurrent pm
          else pm in
        let pm := set_currentTransport n pm in
        set_state PeerConnected (stopRetry (stopHappyEyeballs (cancelInFlight pm)))
    | None =>
        let pm := put_ts n (record_failure now n ts pm) pm in
        if bool_decide (inFlight pm = ∅) then onAllDialsFailed now (stopHappyEyeballs pm) else pm
    end.

(** *** Probing and the choice of the best transport *)

(** What a probe of a transport yields: the transport cannot be had or is not
    healthy, an error that can be retried or not, or a round-trip time. *)
Inductive probe_result : Type := NoTransport | ProbeError (retryable : bool) | RTT (rtt : Z).

Definition probe_due (now : Z) (c : PeerManagerConfig) (n : string) (ts : transportState) : bool :=
  (if bool_decide (subState ts = TransportSubQuarantined) && String.eqb n "reality" then
     lastProbeAt ts + ProbeIntervalQuarantinedReality c <? now
   else available ts) &&
  (lastProbeAt ts + ProbeInterval c <? now).

Definition probe_one (now : Z) (probe : string -> probe_result) (activeName n : string) (pm : PeerManager)
  : PeerManager :=
  match transportStates pm !! n with
  | None => pm
  | Some ts =>
      if negb (probe_due now (cfg pm) n ts) then pm
      else match probe n with
           | NoTransport => pm
           | ProbeError retryable =>
               put_ts n (ts_lastProbeAt now (if retryable then ts else ts_subState TransportSubFailed ts)) pm
           | RTT rtt =>
               let pm := put_ts n (ts_lastProbeAt now (ts_latency (push rtt (latency ts))
                                     (ts_subState TransportSubActive ts))) pm in
               if String.eqb n activeName then set_lastLatency rtt pm else pm
           end
  end.

Definition milliseconds (d : Z) : Z := Z.quot d (10 ^ 6).
Definition computeScore (now : Z) (c : PeerManagerConfig) (ts : transportState) : Q :=
  let ewma := current (latency ts) in
  if ewma =? 0 then 0%Q
  else
    let eLat := inject_Z (milliseconds ewma) in
    let recent := len (filter (fun ft => now - ft <= FailureLookback c) (failureTimes ts)) in
    let recent := Z.max recent (failures ts) in
    let attempts := Z.max 10 (count (latency ts) + recent) in
    (eLat + eLat * (inject_Z recent / inject_Z attempts))%Q.
Definition hysteresisBonus (c : PeerManagerConfig) (eLat : Q) : Q :=
  if Qle_bool (HysteresisBonus c) 0 then 0%Q else (HysteresisBonus c * eLat)%Q.

Definition triggerSwitch (now : Z) (toTransport : string) (pm : PeerManager) : PeerManager :=
  let pm := closeCurrent pm in
  let pm := set_cfg (set_TransportNames (reorderTransports toTransport pm) (cfg pm)) pm in
  startConnectCycle now (set_state PeerConnecting (set_currentTransport "" pm)).

(** The best alternative; [order] is the order in which the map is visited. *)
Definition better (now : Z) (pm : PeerManager) (activeName : string) (best : option (string * Q)) (n : string)
  : option (string * Q) :=
  match transportStates pm !! n with
  | None => best
  | Some ts =>
      if String.eqb n activeName || negb (available ts) ||
         (count (latency ts) <? MinSamplesForScoring (cfg pm)) then best
      else
        let score := computeScore now (cfg pm) ts in
        if Qeq_bool score 0 then best
        else match best with
             | Some (_, s) => if Qlt_bool score s then Some (n, score) else best
             | None => Some (n, score)
             end
  end.

Definition evaluatePathSwitching (now : Z) (order : list string) (activeName : string) (pm : PeerManager)
  : PeerManager :=
  if String.eqb activeName "" then pm
  else match transportStates pm !! activeName with
       | None => pm
       | Some activeTS =>
           let activeScore := computeScore now (cfg pm) activeTS in
           if (count (latency activeTS) <? MinSamplesForScoring (cfg pm)) || Qeq_bool activeScore 0 then pm
           else
             let eLat := inject_Z (milliseconds (current (latency activeTS))) in
             let effectiveActive := (activeScore - hysteresisBonus (cfg pm) eLat)%Q in
             match foldl (better now pm activeName) None order with
             | None => put_ts activeName (ts_stableBetter 0 activeTS) pm
             | Some (bestName, bestScore) =>
                 if Qlt_bool bestScore (effectiveActive * (1 - ScoreSwitchThreshold (cfg pm)))%Q then
                   let stable := stableBetter activeTS + 1 in
                   let pm := put_ts activeName (ts_stableBetter stable activeTS) pm in
                   if ScoreStableProbes (cfg pm) <=? stable then triggerSwitch now bestName pm else pm
                 else put_ts activeName (ts_stableBetter 0 activeTS) pm
             end
       end.

Definition probeAndEvaluate (now : Z) (order : list string) (probe : string -> probe_result) (pm : PeerManager)
  : PeerManager :=
  let activeName := currentTransport pm in
  let pm := foldl (fun pm n => probe_one now probe activeName n pm) pm order in
  evaluatePathSwitching now order activeName pm.

Definition onProbeTick (now : Z) (order : list string) (probe : string -> probe_result) (pm : PeerManager)
  : PeerManager :=
  match state pm with
  | PeerConnecting =>
      let pm := checkQuarantineExpiry now pm in
      if bool_decide (retryTimer pm = None) && bool_decide (inFlight pm = ∅) &&
         negb (bool_decide (candidateTransports pm = []))
      then startConnectCycle now pm else pm
  | PeerConnected => probeAndEvaluate now order probe pm
  | PeerDisconnected => pm
  end.

(** *** Reconnect, cleanup and the loop *)

Definition close_all (pm : PeerManager) : gset nat :=
  openConns pm ∖ list_to_set (omap (fun p => conn p.2) (map_to_list (transportStates pm))).

Definition handleReconnect (now : Z) (pm : PeerManager) : PeerManager :=
  let pm := set_openConns (close_all pm) pm in
  let pm := set_transportStates
    ((fun ts => MkTS (name ts) TransportSubActive None (reset (latency ts)) 0 0 zeroTime zeroTime 0
                  (lastProbeAt ts) []) <$> transportStates pm) pm in
  let pm := stopRetry (stopHappyEyeballs (cancelInFlight (set_currentTransport "" pm))) in
  startConnectCycle now (set_state PeerConnecting pm).

Definition cleanup (pm : PeerManager) : PeerManager :=
  let pm := stopRetry (stopHappyEyeballs (cancelInFlight pm)) in
  let pm := set_openConns (close_all pm) pm in
  let pm := set_transportStates (ts_conn None <$> transportStates pm) pm in
  set_state PeerDisconnected (set_currentTransport "" pm).

(** The loop returns: [close(pm.done)]. *)
Definition exit_loop (pm : PeerManager) : PeerManager :=
  set_doneCloses (doneCloses pm + 1) (set_running false (cleanup pm)).

(** The cases of the [select] in [run]. *)
Inductive event : Type :=
| EvDone | EvReconnect | EvShutdown | EvResult
| EvProbe (order : list string) (probe : string -> probe_result) | EvHappyEyeballs | EvRetry.

Definition run_case (now : Z) (e : event) (pm : PeerManager) : option PeerManager :=
  if negb (running pm) then None
  else match e with
       | EvDone => if ctxDone pm then Some (exit_loop pm) else None
       | EvReconnect => Some (handleReconnect now pm)
       | EvShutdown => Some (exit_loop pm)
       | EvResult =>
           match results pm with
           | r :: rs => Some (handleDialResult now r (set_results rs pm))
           | [] => None
           end
       | EvProbe order probe => Some (onProbeTick now order probe pm)
       | EvHappyEyeballs =>
           match happyEyeballsTimer pm with
           | Some t => if t <=? now then Some (startFallbackDial (stopHappyEyeballs pm)) else None
           | None => None
           end
       | EvRetry =>
           match retryTimer pm with
           | Some t => if t <=? now then Some (startConnectCycle now (stopRetry pm)) else None
           | None => None
           end
       end.

(** [Start], with the first cycle of the goroutine it starts, and [Stop]. *)
Definition Start (now : Z) (pm : PeerManager) : result string PeerManager :=
  if started pm then Err "peermanager: already started"%string
  else match TransportNames (cfg pm) with
       | [] => Err "peermanager: no transports configured"%string
       | _ => Ok (startConnectCycle now (set_running true (set_ctxDone false
                    (set_state PeerConnecting (set_started true pm)))))
       end.
Definition Stop (pm : PeerManager) : PeerManager :=
  if started pm then set_ctxDone true (set_started false pm) else pm.

Definition ctx_cancelled (c : Z) (pm : PeerManager) : bool := ctxDone pm || bool_decide (c ∈ cancelled pm).

(** The end of the [i]th dial: its connection, if it has one, is new. With
    [deliver] the result goes to the channel, otherwise it is dropped, which
    needs a cancelled context. *)
Definition finish_dial (i : nat) (outcome : option Z) (deliver : bool) (pm : PeerManager) : option PeerManager :=
  match dials pm !! i with
  | None => None
  | Some d =>
      let pm := set_dials (delete i (dials pm)) pm in
      let c := (fun lat => (nextConn pm, lat)) <$> outcome in
      if deliver then
        if (length (results pm) <? 4)%nat then
          let pm := match outcome with
                    | Some _ => set_nextConn (S (nextConn pm)) (set_openConns (openConns pm ∪ {[nextConn pm]}) pm)
                    | None => pm
                    end in
          Some (set_results (results pm ++ [MkResult (d_gen d) (d_name d) c]) pm)
        else None
      else if ctx_cancelled (d_ctx d) pm then Some pm else None
  end.

(** ** What callers see *)

Definition TransportState (n : string) (pm : PeerManager) : TransportSubState :=
  match transportStates pm !! n with Some ts => subState ts | None => TransportSubFailed end.
Definition IsHealthy (pm : PeerManager) : bool := bool_decide (state pm = PeerConnected).
Record TransportPeerState : Type := MkTPS {
  t_Name : string; t_SubState : TransportSubState; LatencyMedian : Z; LatencySamples : Z;
  ConsecutiveFailures : Z; QuarantineCycles : Z; BlackedOut : bool; CooldownRemaining : Z
}.
Definition TransportStates (now : Z) (pm : PeerManager) : gmap string TransportPeerState :=
  map_imap (fun n ts => Some (MkTPS n (subState ts) (current (latency ts)) (count (latency ts)) (failures ts)
    (quarantineN ts) (bool_decide (subState ts = TransportSubFailed))
    (if bool_decide (subState ts = TransportSubQuarantined) && (now <? cooldownUntil ts)
     then cooldownUntil ts - now else 0))) (transportStates pm).

(** ** Executions

    One event of the loop, a call, the end of a dial, or time. The loop of an
    earlier [Start] is taken to have ended before the next one. *)
Inductive step : Z * PeerManager -> Z * PeerManager -> Prop :=
| step_run now e pm pm' : run_case now e pm = Some pm' -> step (now, pm) (now, pm')
| step_start now pm pm' : running pm = false -> Start now pm = Ok pm' -> step (now, pm) (now, pm')
| step_stop now pm : step (now, pm) (now, Stop pm)
| step_dial now i o b pm pm' : finish_dial i o b pm = Some pm' -> step (now, pm) (now, pm')
| step_time now t pm : now <= t -> step (now, pm) (t, pm).

Inductive reachable (c : PeerManagerConfig) : Z * PeerManager -> Prop :=
| reach_new now : reachable c (now, NewPeerManager c)
| reach_next x y : reachable c x -> step x y -> reachable c y.

(** ** Arithmetic *)

(** The backoff of a quarantine: doubled once per cycle, up to the cap. The
    first quarantine already lasts twice the base. *)
Theorem cooldownDuration_spec n c :
  0 <= n -> 0 < QuarantineBaseCooldown c < 2 ^ 62 -> 0 < QuarantineMaxCooldown c < 2 ^ 62 ->
  cooldownDuration n c = Z.min (QuarantineBaseCooldown c * 2 ^ n) (QuarantineMaxCooldown c).
Proof.
  intros Hn Hb Hm. unfold cooldownDuration. rewrite <-(Z2Nat.id n) at 2 by done.
  set (max := QuarantineMaxCooldown c) in *. generalize dependent (QuarantineBaseCooldown c). clearbody max. clear c.
  generalize (Z.to_nat n). clear n Hn. intros n. induction n as [|n IH]; intros d Hd; cbn [cooldown_loop].
  - destruct (Z.ltb_spec max d); cbn; lia.
  - assert (2 ^ Z.of_nat (S n) = 2 * 2 ^ Z.of_nat n) as -> by (rewrite Nat2Z.inj_succ, Z.pow_succ_r; lia).
    assert (0 < 2 ^ Z.of_nat n) by (apply Z.pow_pos_nonneg; lia).
    assert (i64 (d * 2) = d * 2) as -> by (unfold i64; rewrite Z.mod_small by lia; lia).
    cbv zeta. destruct (Z.ltb_spec max (d * 2)); [nia|]. rewrite IH by lia. f_equal. lia.
Qed.

Lemma cooldownDuration_spec_witness :
  cooldownDuration 1 DefaultPeerManagerConfig = 60 * second /\
  cooldownDuration 4 DefaultPeerManagerConfig = 300 * second.
Proof.
  split; rewrite cooldownDuration_spec by (cbn; unfold second; lia); vm_compute; reflexivity.
Defined.

(** The average stays between the smallest and the largest sample. *)
Definition within (lo hi : Z) (e : latencyEWMA) : Prop :=
  hasValue e = true -> (inject_Z lo <= value e <= inject_Z hi)%Q.

Lemma push_within lo hi d e :
  (0 <= alphaRise e <= 1)%Q -> (0 <= alphaFall e <= 1)%Q -> lo <= d <= hi -> within lo hi e ->
  within lo hi (push d e).
Proof.
  intros Hr Hf Hd He _. rewrite !Zle_Qle in Hd. unfold push, within in *.
  destruct (hasValue e); cbn [negb]; [|exact Hd]. specialize (He eq_refl). cbn [value].
  generalize dependent (inject_Z lo). generalize dependent (inject_Z hi). generalize (inject_Z d). intros s h l Hd He.
  assert (forall a, (0 <= a <= 1)%Q -> (l <= value e + a * (s - value e) <= h)%Q) as Ha.
  { intros a Ha. destruct Hd, He. split; nra. }
  by destruct (Qlt_bool _ _); apply Ha.
Qed.

(** ** The invariant *)

Definition quar_ok (c : PeerManagerConfig) (ts : transportState) : Prop :=
  0 <= quarantineN ts /\
  (subState ts = TransportSubQuarantined ->
   0 < quarantineN ts < BlackoutThreshold c /\
   cooldownUntil ts = quarantinedAt ts + cooldownDuration (quarantineN ts) c).

Definition queued (pm : PeerManager) : list nat := omap (fun r => fst <$> r_conn r) (results pm).

(** What holds between two events: names are not empty; only the current
    transport of a connected peer holds a connection, and that one is open
    and not waiting in the channel; connections in the channel are open and
    distinct; the quarantine of a transport is dated by its cycle and is no
    blackout. *)
Record inv (pm : PeerManager) : Prop := {
  i_names : "" ∉ TransportNames (cfg pm);
  i_keys n : is_Some (transportStates pm !! n) -> n <> ""%string;
  i_dials : Forall (fun d => d_name d <> ""%string) (dials pm);
  i_results : Forall (fun r => transportName r <> ""%string) (results pm);
  i_held n ts c : transportStates pm !! n = Some ts -> conn ts = Some c ->
    state pm = PeerConnected /\ currentTransport pm = n /\ c ∈ openConns pm /\ c ∉ queued pm;
  i_conn : state pm = PeerConnected ->
    exists ts c, transportStates pm !! currentTransport pm = Some ts /\ conn ts = Some c;
  i_disc : state pm <> PeerConnected -> currentTransport pm = ""%string;
  i_queue : NoDup (queued pm) /\ forall c, c ∈ queued pm -> c ∈ openConns pm;
  i_fresh c : c ∈ openConns pm -> (c < nextConn pm)%nat;
  i_quar n ts : transportStates pm !! n = Some ts -> quar_ok (cfg pm) ts
}.

(** Changes of the other fields. *)
Lemma inv_same pm pm' :
  cfg pm' = cfg pm -> transportStates pm' = transportStates pm -> dials pm' = dials pm ->
  results pm' = results pm -> state pm' = state pm -> currentTransport pm' = currentTransport pm ->
  openConns pm' = openConns pm -> nextConn pm' = nextConn pm -> inv pm -> inv pm'.
Proof.
  intros E1 E2 E3 E4 E5 E6 E7 E8 []. unfold queued in *.
  split; unfold queued; rewrite ?E1, ?E2, ?E3, ?E4, ?E5, ?E6, ?E7, ?E8; done.
Qed.

(** A change of one transport that leaves its connection. *)
Lemma inv_put n ts pm :
  n <> ""%string -> conn ts = conn (getOrCreateTransportState n pm) -> quar_ok (cfg pm) ts ->
  inv pm -> inv (put_ts n ts pm).
Proof.
  intros Hn Hc Hq Hi. assert (forall c, conn ts = Some c -> exists t0, transportStates pm !! n = Some t0 /\ conn t0 = Some c) as Hold.
  { intros c. rewrite Hc. unfold getOrCreateTransportState. destruct (transportStates pm !! n) as [t0|]; [|done]. by exists t0. }
  destruct Hi as [? Hk ? ? Hheld Hconn ? ? ? Hquar]. split; cbn; try done.
  - intros m. destruct (decide (m = n)) as [->|]; [done|]. rewrite lookup_insert_ne by done. apply Hk.
  - intros m t c. destruct (decide (m = n)) as [->|].
    + rewrite lookup_insert_eq. intros [= <-] Ht. destruct (Hold c Ht) as (t0 & H0 & Hc0). by apply (Hheld n t0 c).
    + rewrite lookup_insert_ne by done. apply Hheld.
  - intros Hs. destruct (Hconn Hs) as (t & c & Ht & Htc). destruct (decide (currentTransport pm = n)) as [E|].
    + subst n. exists ts, c. rewrite lookup_insert_eq. split; [done|]. rewrite Hc. unfold getOrCreateTransportState. by rewrite Ht.
    + exists t, c. by rewrite lookup_insert_ne.
  - intros m t. destruct (decide (m = n)) as [->|]; [rewrite lookup_insert_eq; by intros [= <-] |].
    rewrite lookup_insert_ne by done. apply Hquar.
Qed.

Ltac same := eapply inv_same; [..|eassumption]; reflexivity.

Lemma inv_cancelInFlight pm : inv pm -> inv (cancelInFlight pm).
Proof. intros Hi. unfold cancelInFlight. destruct (dialCtx pm); same. Qed.

Lemma quar_get st n pm : st <> TransportSubQuarantined -> inv pm ->
  quar_ok (cfg pm) (ts_subState st (getOrCreateTransportState n pm)).
Proof.
  intros Hst Hi. split; [|by intros ?]. cbn. unfold getOrCreateTransportState.
  destruct (transportStates pm !! n) as [ts|] eqn:E; [|done]. apply (i_quar _ Hi n ts E).
Qed.

Lemma inv_startDial ctx g n pm : n <> ""%string -> inv pm -> inv (startDial ctx g n pm).
Proof.
  intros Hn Hi. unfold startDial.
  set (p1 := set_inFlight _ pm). assert (inv p1) as H1 by same.
  assert (inv (put_ts n (ts_subState TransportSubConnecting (getOrCreateTransportState n p1)) p1)) as H2
    by (apply inv_put; [done | done | apply quar_get; [done | done] | done]). revert H2. generalize (put_ts n (ts_subState TransportSubConnecting (getOrCreateTransportState n p1)) p1).
  intros p2 []. split; try done. cbn. apply Forall_app. split; [done|]. by repeat constructor.
Qed.

Lemma candidates_names pm n : inv pm -> n ∈ candidateTransports pm -> n <> ""%string.
Proof. intros Hi [_ Hn]%list_elem_of_filter ->. by apply (i_names _ Hi). Qed.

Lemma escape_names m names best n :
  n ∈ escape_loop m names best -> n ∈ names \/ exists t, best = Some (n, t).
Proof.
  revert best. induction names as [|x names IH]; intros best; cbn [escape_loop].
  - destruct best as [[b t]|]; [|by intros ?%elem_of_nil]. intros ->%list_elem_of_singleton. right. by exists t.
  - destruct (m !! x) as [ts|]; [|intros ->%list_elem_of_singleton; left; left].
    intros [Hn | (t & Hb)]%IH; [left; by right|]. revert Hb. case_bool_decide; [|intros ->; right; by exists t].
    destruct best as [[b t0]|].
    + destruct (_ <? _); intros [= <- <-]; [left; left | right; by exists t0].
    + intros [= <- <-]. left; left.
Qed.

Lemma inv_startConnectCycle now pm : inv pm -> inv (startConnectCycle now pm).
Proof.
  intros Hi. unfold startConnectCycle.
  pose proof (inv_cancelInFlight pm Hi) as H1. set (p1 := cancelInFlight pm) in *.
  set (p2 := if bool_decide (state p1 = PeerConnected) then p1 else set_state PeerConnecting p1).
  assert (inv p2) as H2.
  { subst p2. case_bool_decide as Hs; [done|]. destruct H1 as [? ? ? ? Hh ? Hd ? ? ?]. split; try done; cbn.
    - intros n ts c Ht Hc. by destruct (Hh n ts c Ht Hc).
    - intros _. by apply Hd. }
  clearbody p2. clear H1. cbv zeta.
  destruct (match candidateTransports p2 with [] => _ | _ :: _ => _ end) as [|primary others] eqn:Ec; [done|].
  assert (primary <> ""%string) as Hn.
  { destruct (candidateTransports p2) as [|x l] eqn:E.
    - assert (primary ∈ escape_loop (transportStates p2) (TransportNames (cfg p2)) None) as Hp.
      { unfold blackoutEscapeCandidates in Ec. rewrite Ec. left. }
      apply escape_names in Hp as [Hp | (t & ?)]; [|done]. intros ->. by apply (i_names _ H2).
    - injection Ec as -> ->. apply (candidates_names p2); [done|]. rewrite E. left. }
  set (p3 := set_connectGen (connectGen p2 + 1) p2). set (p4 := set_dialCtx (Some (connectGen p3)) p3).
  assert (inv p4) as H4 by same.
  pose proof (inv_startDial (connectGen p4) (connectGen p4) primary p4 Hn H4) as H5.
  destruct others; [done|]. same.
Qed.

Lemma inv_startFallbackDial pm : inv pm -> inv (startFallbackDial pm).
Proof.
  intros Hi. unfold startFallbackDial. destruct (list.head _) as [n|] eqn:E; [|done].
  destruct (dialCtx pm) as [ctx|]; [|done]. apply inv_startDial; [|done].
  apply (candidates_names pm); [done|]. destruct (filter _ (candidateTransports pm)) as [|x l] eqn:Ef; [done|].
  injection E as ->. assert (n ∈ filter (fun n => n ∉ inFlight pm) (candidateTransports pm)) as H by (rewrite Ef; left).
  by apply list_elem_of_filter in H as [_ H].
Qed.

(** A change of every transport that keeps what matters. *)
Lemma inv_map (f : transportState -> transportState) pm :
  (forall ts, conn (f ts) = conn ts) -> (forall ts, quar_ok (cfg pm) ts -> quar_ok (cfg pm) (f ts)) ->
  inv pm -> inv (set_transportStates (f <$> transportStates pm) pm).
Proof.
  intros Hc Hq [? Hk ? ? Hheld Hconn ? ? ? Hquar]. split; cbn; try done.
  - intros n. rewrite lookup_fmap, fmap_is_Some. apply Hk.
  - intros n ts c. rewrite lookup_fmap, fmap_Some. intros (t & Ht & ->). rewrite Hc. by apply Hheld.
  - intros Hs. destruct (Hconn Hs) as (t & c & Ht & Htc). exists (f t), c. rewrite lookup_fmap, Ht, Hc. done.
  - intros n ts. rewrite lookup_fmap, fmap_Some. intros (t & Ht & ->). apply Hq, (Hquar n t Ht).
Qed.

Lemma inv_checkQuarantineExpiry now pm : inv pm -> inv (checkQuarantineExpiry now pm).
Proof.
  intros Hi. unfold checkQuarantineExpiry. cbv zeta.
  match goal with |- context [set_transportStates (?f <$> _) pm] => assert (inv (set_transportStates (f <$> transportStates pm) pm)) as H1 end.
  { apply inv_map; [| |done].
    - intros ts. by destruct (_ && _).
    - intros ts Hq. destruct (_ && _); [|exact Hq]. destruct Hq as [Hq _]. by split. }
  destruct (_ && _); [by apply inv_startConnectCycle | done].
Qed.

Lemma inv_onAllDialsFailed now pm : inv pm -> inv (onAllDialsFailed now pm).
Proof.
  intros Hi. unfold onAllDialsFailed. destruct (candidateTransports pm); [by apply inv_checkQuarantineExpiry|]. same.
Qed.

Lemma record_failure_ok now n ts pm :
  quar_ok (cfg pm) ts -> quar_ok (cfg pm) (record_failure now n ts pm).
Proof.
  intros [Hq _]. unfold record_failure. cbv zeta. destruct (_ <=? _); [|by split].
  split; cbn; [lia|]. intros Hs. destruct (Z.leb_spec (BlackoutThreshold (cfg pm)) (quarantineN ts + 1)); [done|].
  split; [lia | done].
Qed.

Lemma inv_ForceClose c pm :
  inv pm -> c ∉ queued pm -> (forall n ts, transportStates pm !! n = Some ts -> conn ts <> Some c) ->
  inv (ForceClose (Some c) pm).
Proof.
  intros [? ? ? ? Hheld ? ? [Hq1 Hq2] Hf ?] Hc Hn. split; cbn; try done.
  - intros n ts c' Ht Hc'. destruct (Hheld n ts c' Ht Hc') as (? & ? & ? & ?). split_and!; try done.
    apply elem_of_difference. split; [done|]. intros ->%elem_of_singleton. by apply (Hn n ts).
  - split; [done|]. intros c' Hc'. apply elem_of_difference. split; [by apply Hq2|]. by intros ->%elem_of_singleton.
  - intros c' [Hc' _]%elem_of_difference. by apply Hf.
Qed.

(** The connection of a result that was taken from the channel. *)
Definition taken (c : nat) (pm : PeerManager) : Prop :=
  c ∈ openConns pm /\ (c ∉ queued pm) /\ forall n ts, transportStates pm !! n = Some ts -> conn ts <> Some c.

(** A dial that won: the transport before it gives its connection up. *)
Definition won (now : Z) (n : string) (c : nat) (lat : Z) (pm : PeerManager) : PeerManager :=
  handleDialResult now (MkResult (connectGen pm) n (Some (c, lat))) pm.

Lemma put_ts_cfg n ts pm : cfg (put_ts n ts pm) = cfg pm.
Proof. done. Qed.

Lemma closeCurrent_cases p :
  (closeCurrent p = p /\ forall t, transportStates p !! currentTransport p = Some t -> conn t = None) \/
  exists old o, transportStates p !! currentTransport p = Some old /\ conn old = Some o /\
    closeCurrent p = put_ts (currentTransport p) (ts_subState TransportSubActive (ts_conn None old))
                       (ForceClose (Some o) p).
Proof.
  unfold closeCurrent. destruct (transportStates p !! _) as [t|] eqn:E; [|left; split; [done | congruence]].
  destruct (conn t) as [o|] eqn:Ec; [right; by exists t, o | left]. split; [done|]. by intros t' [= <-].
Qed.

(** The state after a dial won. *)
Lemma inv_connected pm p n c ts1 :
  inv pm -> n <> ""%string -> c ∉ queued pm -> c ∈ openConns p -> conn ts1 = Some c -> transportStates p !! n = Some ts1 ->
  cfg p = cfg pm -> dials p = dials pm -> results p = results pm -> nextConn p = nextConn pm ->
  (openConns p ⊆ openConns pm) -> (forall q, q ∈ queued pm -> q ∈ openConns p) -> quar_ok (cfg pm) ts1 ->
  (forall k t, k <> n -> transportStates p !! k = Some t -> conn t = None /\ k <> ""%string /\ quar_ok (cfg pm) t) ->
  inv (set_state PeerConnected (set_currentTransport n p)).
Proof.
  intros [Hnames Hkeys Hdials Hres Hheld Hconn Hdisc [Hqn Hqo'] Hfresh Hquar] Hn Hcq Hco Hc Hts1 Ec Ed Er En Hop Hqo Hq1 Hmap.
  split; unfold queued; cbn; rewrite ?Ec, ?Ed, ?Er, ?En; try done.
  - intros k [t Hk]. destruct (decide (k = n)) as [->|Hne]; [done | by apply (Hmap k t)].
  - intros k t c' Hk Hc'. destruct (decide (k = n)) as [->|Hne]; [|destruct (Hmap k t Hne Hk); congruence].
    assert (c' = c) as -> by congruence. by split_and!.
  - intros _. by exists ts1, c.
  - intros c' Hc'. apply Hfresh. set_solver.
  - intros k t Hk. destruct (decide (k = n)) as [->|Hne]; [congruence | by apply (Hmap k t)].
Qed.

(** Only the current transport holds a connection. *)
Lemma other_idle pm k t : inv pm -> transportStates pm !! k = Some t -> k <> currentTransport pm -> conn t = None.
Proof.
  intros Hi Hk Hne. destruct (conn t) as [c|] eqn:E; [|done]. exfalso. apply Hne. symmetry. by apply (i_held _ Hi k t c).
Qed.

Lemma inv_won_states n c lat pm :
  inv pm -> n <> ""%string -> taken c pm ->
  inv (set_state PeerConnected (set_currentTransport n
    (let p := set_lastLatency lat (put_ts n (ts_latency (push lat (latency (getOrCreateTransportState n pm)))
       (ts_conn (Some c) (ts_quarantineN 0 (ts_failures 0 (ts_subState TransportSubActive
          (getOrCreateTransportState n pm)))))) pm) in
     if negb (String.eqb (currentTransport p) "") && negb (String.eqb (currentTransport p) n)
     then closeCurrent p else p))).
Proof.
  intros Hi Hn (Ho & Hcq & Hfree). cbv zeta. set (ts1 := ts_latency _ _). set (p2 := set_lastLatency _ _).
  assert (quar_ok (cfg pm) ts1) as Hq1 by (split; [done | by intros ?]).
  assert (forall k t, k <> n -> transportStates p2 !! k = Some t -> transportStates pm !! k = Some t) as Hp2.
  { intros k t Hk. cbn. by rewrite lookup_insert_ne. }
  assert (transportStates p2 !! n = Some ts1) as Hpn by apply lookup_insert_eq.
  assert (currentTransport p2 = currentTransport pm) as Ecur by done.
  destruct (negb _ && negb _) eqn:E.
  2:{ apply (inv_connected pm _ n c ts1); try done; [intros q Hq; by apply (i_queue _ Hi)|]. intros k t Hk Ht%Hp2; [|done].
      split_and!; [| apply (i_keys _ Hi); eauto | by apply (i_quar _ Hi k)].
      apply (other_idle pm k); [done..|]. intros Hcur. rewrite andb_false_iff, !negb_false_iff, !String.eqb_eq, Ecur in E.
      destruct E as [E|E]; [|congruence]. apply (i_keys _ Hi k); [eauto | congruence]. }
  apply andb_true_iff in E as [_ E2%negb_true_iff%String.eqb_neq]. rewrite Ecur in E2.
  destruct (closeCurrent_cases p2) as [[-> Hnone] | (old & o & Hold & Eo & ->)].
  - apply (inv_connected pm _ n c ts1); try done; [intros q Hq; by apply (i_queue _ Hi)|]. intros k t Hk Ht; [].
    split_and!; [| apply (i_keys _ Hi); eauto | apply (i_quar _ Hi k); auto].
    destruct (decide (k = currentTransport pm)) as [->|Hk2]; [by apply Hnone | by apply (other_idle pm k); auto].
  - apply Hp2 in Hold; [|done]. rewrite Ecur in *. destruct (i_held _ Hi _ _ _ Hold Eo) as (_ & _ & _ & Hoq).
    apply (inv_connected pm _ n c ts1); try done; cbn.
    + apply elem_of_difference. split; [done|]. intros ->%elem_of_singleton. by apply (Hfree _ _ Hold).
    + by rewrite lookup_insert_ne.
    + set_solver.
    + intros q Hq. apply elem_of_difference. split; [by apply (i_queue _ Hi)|]. by intros ->%elem_of_singleton.
    + intros k t Hk. destruct (decide (k = currentTransport pm)) as [->|Hk2].
      * rewrite lookup_insert_eq. intros [= <-]. split_and!; [done | apply (i_keys _ Hi); eauto |].
        destruct (i_quar _ Hi _ _ Hold) as [Hz _]. split; [exact Hz | by intros ?].
      * rewrite lookup_insert_ne by done. intros Ht%Hp2; [|done].
        split_and!; [by apply (other_idle pm k) | apply (i_keys _ Hi); eauto | by apply (i_quar _ Hi k)].
Qed.

Lemma inv_won now n c lat pm : inv pm -> n <> ""%string -> taken c pm -> inv (won now n c lat pm).
Proof.
  intros Hi Hn Ht. unfold won, handleDialResult. cbn [gen transportName r_conn]. rewrite Z.eqb_refl. cbn [negb].
  set (p1 := set_inFlight _ pm). assert (inv p1) as H1 by same.
  pose proof (inv_won_states n c lat p1 H1 Hn Ht) as Hw. cbv zeta in Hw.
  revert Hw. match goal with |- context [if ?b then ?x else ?y] => generalize (if b then x else y) end. intros p3 Hw.
  unfold cancelInFlight. cbn [dialCtx set_currentTransport]. destruct (dialCtx p3); same.
Qed.

Lemma inv_handleDialResult now r pm :
  inv pm -> transportName r <> ""%string -> (forall c lat, r_conn r = Some (c, lat) -> taken c pm) ->
  inv (handleDialResult now r pm).
Proof.
  intros Hi Hn Ht. destruct (decide (gen r = connectGen pm)) as [Hg|Hg].
  - destruct (r_conn r) as [[c lat]|] eqn:Ec.
    + pose proof (inv_won now (transportName r) c lat pm Hi Hn (Ht c lat eq_refl)) as Hw. unfold won in Hw.
      destruct r as [g n rc]. cbn in *. by subst.
    + unfold handleDialResult. rewrite Hg, Z.eqb_refl, Ec. cbn [negb].
      set (p1 := set_inFlight _ pm). assert (inv p1) as H1 by same.
      set (ts := record_failure _ _ _ p1).
      assert (inv (put_ts (transportName r) ts p1)) as H2.
      { assert (quar_ok (cfg p1) (getOrCreateTransportState (transportName r) p1)) as Hq.
        { unfold getOrCreateTransportState. destruct (transportStates p1 !! _) as [t|] eqn:E; [by apply (i_quar _ H1 _ _ E)|].
          split; [done|]. by intros ?. }
        apply inv_put; [done | | by apply record_failure_ok | done].
        unfold ts, record_failure. cbv zeta. by destruct (_ <=? _). }
      destruct (bool_decide _); [|done]. apply inv_onAllDialsFailed. same.
  - unfold handleDialResult. rewrite (proj2 (Z.eqb_neq _ _)) by done. cbn [negb].
    destruct (r_conn r) as [[c lat]|] eqn:Ec; cbn [fmap option_fmap option_map fst]; [|done].
    destruct (Ht c lat eq_refl) as (_ & ? & ?). by apply inv_ForceClose.
Qed.

(** ** Probes, reconnection, the loop *)

Lemma inv_probe_one now probe a n pm : inv pm -> inv (probe_one now probe a n pm).
Proof.
  intros Hi. unfold probe_one. destruct (transportStates pm !! n) as [ts|] eqn:E; [|done].
  destruct (negb _); [done|].
  assert (n <> ""%string) as Hn by (apply (i_keys _ Hi); eauto).
  assert (getOrCreateTransportState n pm = ts) as Eg by (unfold getOrCreateTransportState; by rewrite E).
  pose proof (i_quar _ Hi n ts E) as [Hq1 Hq2].
  destruct (probe n) as [|r|rtt]; [done | |].
  - apply inv_put; [done | rewrite Eg; by destruct r | | done]. destruct r; [by split | split; [done | by intros ?]].
  - assert (inv (put_ts n (ts_lastProbeAt now (ts_latency (push rtt (latency ts)) (ts_subState TransportSubActive ts))) pm)).
    { apply inv_put; [done | by rewrite Eg | | done]. split; [done | by intros ?]. }
    destruct (String.eqb n a); [|done]. same.
Qed.

Lemma inv_probes now probe a order pm :
  inv pm -> inv (foldl (fun pm n => probe_one now probe a n pm) pm order).
Proof. revert pm. induction order as [|n order IH]; intros pm Hi; [done|]. by apply IH, inv_probe_one. Qed.

(** The connection of the current transport is given up and the manager
    leaves the connected state. *)
Lemma inv_closeCurrent pm : inv pm -> inv (set_state PeerConnecting (set_currentTransport "" (closeCurrent pm))).
Proof.
  intros Hi. assert (forall k t, transportStates pm !! k = Some t -> k <> currentTransport pm -> conn t = None) as Hidle
    by (intros; by eapply other_idle).
  destruct (closeCurrent_cases pm) as [[-> Hnone] | (old & o & Hold & Eo & ->)].
  - destruct Hi. split; try done; cbn. intros k t c Hk. destruct (decide (k = currentTransport pm)) as [->|].
    + by rewrite (Hnone t Hk).
    + by rewrite (Hidle k t).
  - destruct (i_held _ Hi _ _ _ Hold Eo) as (_ & _ & _ & Hoq).
    destruct Hi as [? Hk ? ? Hheld Hconn ? [? Hqo] Hf Hquar]. split; try done; cbn.
    + intros k. destruct (decide (k = currentTransport pm)) as [->|]; [|rewrite lookup_insert_ne by done; apply Hk].
      intros _. apply Hk. eauto.
    + intros k t c. destruct (decide (k = currentTransport pm)) as [->|].
      * rewrite lookup_insert_eq. by intros [= <-].
      * rewrite lookup_insert_ne by done. intros Ht. by rewrite (Hidle k t).
    + split; [done|]. intros c Hc. apply elem_of_difference. split; [by apply Hqo|]. by intros ->%elem_of_singleton.
    + intros c [Hc _]%elem_of_difference. by apply Hf.
    + intros k t. destruct (decide (k = currentTransport pm)) as [->|]; [|rewrite lookup_insert_ne by done; apply Hquar].
      rewrite lookup_insert_eq. intros [= <-]. destruct (Hquar _ _ Hold) as [Hz _]. split; [exact Hz | by intros ?].
Qed.

Lemma inv_triggerSwitch now n pm : n <> ""%string -> inv pm -> inv (triggerSwitch now n pm).
Proof.
  intros Hn Hi. unfold triggerSwitch. apply inv_startConnectCycle.
  pose proof (inv_closeCurrent pm Hi) as Hc. destruct Hc as [Hnames ? ? ? ? ? ? ? ? Hquar].
  split; try done. cbn. intros [He | He]%elem_of_cons; [done|]. by apply list_elem_of_filter in He as [_ He].
Qed.

Lemma better_named now pm a order best n s :
  inv pm -> (forall m t, best = Some (m, t) -> m <> ""%string) ->
  foldl (better now pm a) best order = Some (n, s) -> n <> ""%string.
Proof.
  intros Hi. revert best. induction order as [|m order IH]; intros best Hb; cbn [foldl]; [intros H; by apply (Hb n s)|].
  apply IH. intros m' t. unfold better. destruct (transportStates pm !! m) as [ts|] eqn:E; [|apply Hb].
  assert (m <> ""%string) as Hm by (apply (i_keys _ Hi); eauto).
  destruct (_ || _); [apply Hb|]. destruct (Qeq_bool _ _); [apply Hb|].
  destruct best as [[b sb]|]; [destruct (Qlt_bool _ _); [|apply Hb]|]; by intros [= <- <-].
Qed.

Lemma inv_evaluate now order a pm : inv pm -> inv (evaluatePathSwitching now order a pm).
Proof.
  intros Hi. unfold evaluatePathSwitching. destruct (String.eqb_spec a "") as [|Ha]; [done|].
  destruct (transportStates pm !! a) as [ts|] eqn:E; [|done]. cbv zeta. destruct (_ || _); [done|].
  assert (forall z, inv (put_ts a (ts_stableBetter z ts) pm)) as Hput.
  { intros z. pose proof (i_quar _ Hi a ts E) as [? ?].
    apply inv_put; [done | unfold getOrCreateTransportState; by rewrite E | by split | done]. }
  destruct (foldl _ _ _) as [[n s]|] eqn:Ef; [|done]. apply better_named in Ef as Hn; [|done..].
  destruct (Qlt_bool _ _); [|done]. destruct (_ <=? _); [|done]. by apply inv_triggerSwitch.
Qed.

Lemma inv_onProbeTick now order probe pm : inv pm -> inv (onProbeTick now order probe pm).
Proof.
  intros Hi. unfold onProbeTick. destruct (state pm); [done | |].
  - pose proof (inv_checkQuarantineExpiry now pm Hi). cbv zeta. destruct (_ && _); [by apply inv_startConnectCycle | done].
  - by apply inv_evaluate, inv_probes.
Qed.

(** Every held connection is closed. *)
Lemma close_all_queue pm : inv pm -> forall c, c ∈ queued pm -> c ∈ close_all pm.
Proof.
  intros Hi c Hc. unfold close_all. apply elem_of_difference. split; [by apply (i_queue _ Hi)|].
  intros ((n & ts) & Hn & Hts)%elem_of_list_to_set%list_elem_of_omap. apply elem_of_map_to_list in Hn.
  by destruct (i_held _ Hi n ts c Hn Hts) as (_ & _ & _ & ?).
Qed.

Lemma inv_drop_all f st pm :
  inv pm -> st <> PeerConnected -> (forall ts, conn (f ts) = None) ->
  (forall ts, quar_ok (cfg pm) ts -> quar_ok (cfg pm) (f ts)) ->
  inv (set_state st (set_currentTransport ""
         (set_transportStates (f <$> transportStates pm) (set_openConns (close_all pm) pm)))).
Proof.
  intros Hi Hst Hf Hq. pose proof (close_all_queue pm Hi). destruct Hi as [? Hk ? ? ? ? ? [? ?] Hfr Hquar].
  split; try done; cbn.
  - intros n. rewrite lookup_fmap, fmap_is_Some. apply Hk.
  - intros n ts c. rewrite lookup_fmap, fmap_Some. intros (t & _ & ->). by rewrite Hf.
  - intros c [Hc _]%elem_of_difference. by apply Hfr.
  - intros n ts. rewrite lookup_fmap, fmap_Some. intros (t & Ht & ->). apply Hq, (Hquar n t Ht).
Qed.

Lemma inv_handleReconnect now pm : inv pm -> inv (handleReconnect now pm).
Proof.
  intros Hi. unfold handleReconnect. cbv zeta. apply inv_startConnectCycle.
  eapply inv_same; [..|apply (inv_drop_all (fun ts => MkTS (name ts) TransportSubActive None (reset (latency ts)) 0 0
     zeroTime zeroTime 0 (lastProbeAt ts) []) PeerConnecting pm Hi); [done | done | by split]];
  unfold cancelInFlight; cbn; by destruct (dialCtx pm).
Qed.

Lemma inv_cleanup pm : inv pm -> inv (cleanup pm).
Proof.
  intros Hi. unfold cleanup. cbv zeta. assert (inv (stopRetry (stopHappyEyeballs (cancelInFlight pm)))) as H1.
  { pose proof (inv_cancelInFlight pm Hi). same. }
  apply (inv_drop_all (ts_conn None) PeerDisconnected _ H1); [done | done |]. by intros ts [? ?].
Qed.

(** A result leaves the channel. *)
Lemma inv_pop r rs pm : results pm = r :: rs -> inv pm ->
  inv (set_results rs pm) /\ transportName r <> ""%string /\
  forall c lat, r_conn r = Some (c, lat) -> taken c (set_results rs pm).
Proof.
  intros Er [? ? ? Hr Hheld ? ? [Hnd Hqo] ? ?]. rewrite Er in Hr. apply Forall_cons in Hr as [Hr Hrs].
  unfold queued in *. rewrite Er in *. cbn [omap list_omap] in *. split; [|split; [done|]].
  - assert (forall c, c ∈ omap (fun r => fst <$> r_conn r) rs ->
      c ∈ match fst <$> r_conn r with Some y => y :: omap (fun r => fst <$> r_conn r) rs
          | None => omap (fun r => fst <$> r_conn r) rs end) as Hsub
      by (intros c Hc; destruct (fst <$> r_conn r); [by right | done]).
    split; try done; unfold queued; cbn.
    + intros n ts c Ht Hc. destruct (Hheld n ts c Ht Hc) as (? & ? & ? & Hn). split_and!; try done. intros Hin. by apply Hn, Hsub.
    + split; [|intros c Hc; by apply Hqo, Hsub]. destruct (fst <$> r_conn r); [by apply NoDup_cons in Hnd as [_ Hnd] | done].
  - intros c lat Hc. rewrite Hc in *. cbn in *. apply NoDup_cons in Hnd as [Hnd _]. split_and!; [apply Hqo; left | done |].
    intros n ts Ht Htc. destruct (Hheld n ts c Ht Htc) as (_ & _ & _ & Hn). apply Hn. left.
Qed.

Ltac take := let H := fresh in intros H; apply (inj Some) in H; subst.

Lemma inv_exit_loop pm : inv pm -> inv (exit_loop pm).
Proof. intros Hi%inv_cleanup. unfold exit_loop. revert Hi. generalize (cleanup pm) (doneCloses pm). clear pm. intros pm n Hi. same. Qed.

Lemma inv_run_case now e pm pm' : inv pm -> run_case now e pm = Some pm' -> inv pm'.
Proof.
  intros Hi. unfold run_case. destruct (negb _); [done|].
  pose proof (inv_exit_loop pm Hi) as Hexit.
  destruct e as [| | | |order probe| |].
  - destruct (ctxDone pm); [|done]. by take.
  - take. by apply inv_handleReconnect.
  - by take.
  - destruct (results pm) as [|r rs] eqn:Er; [done|]. take.
    destruct (inv_pop r rs pm Er Hi) as (? & ? & ?). by apply inv_handleDialResult.
  - take. by apply inv_onProbeTick.
  - destruct (happyEyeballsTimer pm); [|done]. destruct (_ <=? _); [|done]. take.
    apply inv_startFallbackDial. clear Hexit. same.
  - destruct (retryTimer pm); [|done]. destruct (_ <=? _); [|done]. take. apply inv_startConnectCycle. clear Hexit. same.
Qed.

(** The end of a dial. *)
Lemma inv_finish_dial i o b pm pm' : inv pm -> finish_dial i o b pm = Some pm' -> inv pm'.
Proof.
  intros Hi. unfold finish_dial. destruct (dials pm !! i) as [d|] eqn:Ed; [|done]. cbv zeta.
  assert (inv (set_dials (delete i (dials pm)) pm)) as H1.
  { destruct Hi as [? ? Hd ? ? ? ? ? ? ?]. split; try done. cbn. apply Forall_forall. intros x Hx.
    rewrite Forall_forall in Hd. apply Hd. rewrite (delete_take_drop (dials pm) i) in Hx.
    apply elem_of_app in Hx as [Hx|Hx]; [by eapply elem_of_take in Hx as (? & ?%list_elem_of_lookup_2 & _) |].
    by eapply subseteq_drop. }
  assert (d_name d <> ""%string) as Hn.
  { pose proof (i_dials _ Hi) as Hd. rewrite Forall_forall in Hd. apply Hd. by eapply list_elem_of_lookup_2. }
  destruct b; [|destruct (ctx_cancelled _ _); [by take | done]].
  destruct (_ <? _)%nat; [|done]. take. set (p1 := set_dials _ pm) in *.
  assert (nextConn p1 ∉ queued p1) as Hfr.
  { intros Hq. apply (i_queue _ H1) in Hq. apply (i_fresh _ H1) in Hq. lia. }
  destruct o as [lat|]; cbn [fmap option_fmap option_map].
  - destruct H1 as [? ? ? ? Hheld ? ? [Hnd Hqo] Hf ?].
    assert (queued (set_results (results p1 ++ [MkResult (d_gen d) (d_name d) (Some (nextConn p1, lat))]) p1) = queued p1 ++ [nextConn p1]) as Eq
      by (unfold queued; cbn [results set_results]; by rewrite omap_app).
    split; try done.
    + apply Forall_app. split; [done|]. by repeat constructor.
    + intros n ts c Ht Hc. destruct (Hheld n ts c Ht Hc) as (? & ? & Ho & Hnq). split_and!; [done | done | cbn; set_solver |].
      change (c ∉ queued (set_results (results p1 ++ [MkResult (d_gen d) (d_name d) (Some (nextConn p1, lat))]) p1)).
      rewrite Eq. intros [? | ->%list_elem_of_singleton]%elem_of_app; [done|]. apply Hf in Ho. lia.
    + change (NoDup (queued (set_results (results p1 ++ [MkResult (d_gen d) (d_name d) (Some (nextConn p1, lat))]) p1)) /\
        forall c, c ∈ queued (set_results (results p1 ++ [MkResult (d_gen d) (d_name d) (Some (nextConn p1, lat))]) p1) ->
          c ∈ openConns p1 ∪ {[nextConn p1]}).
      rewrite Eq. split.
      * apply NoDup_app. split_and!; [done | | apply NoDup_singleton]. intros c Hc ->%list_elem_of_singleton. done.
      * intros c [Hc%Hqo | ->%list_elem_of_singleton]%elem_of_app; set_solver.
    + cbn. intros c [Hc | ->%elem_of_singleton]%elem_of_union; [apply Hf in Hc; cbn in *; lia | cbn; lia].
  - destruct H1 as [? ? ? ? Hheld ? ? [Hnd Hqo] Hf ?].
    assert (queued (set_results (results p1 ++ [MkResult (d_gen d) (d_name d) None]) p1) = queued p1) as Eq
      by (unfold queued; cbn [results set_results]; rewrite omap_app; cbn; apply app_nil_r).
    split; try done; rewrite ?Eq; try done.
    apply Forall_app. split; [done|]. by repeat constructor.
Qed.

(** ** Reachable states *)

(** A handler leaves [running] alone. *)
Lemma running_cancel pm : running (cancelInFlight pm) = running pm.
Proof. unfold cancelInFlight. by destruct (dialCtx pm). Qed.
Lemma running_cycle now pm : running (startConnectCycle now pm) = running pm.
Proof.
  rewrite <-(running_cancel pm). unfold startConnectCycle. cbv zeta. generalize (cancelInFlight pm). intros p.
  rewrite <-(eq_refl : running (set_state PeerConnecting p) = running p).
  destruct (bool_decide (state p = PeerConnected));
    (destruct (match candidateTransports _ with [] => _ | _ :: _ => _ end) as [|x [|y l]]; reflexivity).
Qed.
Lemma running_close p : running (closeCurrent p) = running p.
Proof. unfold closeCurrent. destruct (_ !! _) as [t|]; [by destruct (conn t) | done]. Qed.
Lemma running_expiry now pm : running (checkQuarantineExpiry now pm) = running pm.
Proof. unfold checkQuarantineExpiry. cbv zeta. destruct (_ && _); [by rewrite running_cycle | done]. Qed.
Lemma running_result now r pm : running (handleDialResult now r pm) = running pm.
Proof.
  unfold handleDialResult. destruct (negb _); [by destruct (r_conn r)|].
  destruct (r_conn r) as [[c lat]|].
  - cbn [running set_state set_retryTimer stopRetry stopHappyEyeballs set_happyEyeballsTimer]. rewrite running_cancel.
    cbn [running set_currentTransport]. destruct (_ && _); [by rewrite running_close | done].
  - destruct (bool_decide _); [|done]. unfold onAllDialsFailed.
    destruct (candidateTransports _); [by rewrite running_expiry | done].
Qed.
Lemma running_probes now probe a order pm : running (foldl (fun pm n => probe_one now probe a n pm) pm order) = running pm.
Proof.
  revert pm. induction order as [|n order IH]; intros pm; cbn [foldl]; [done|]. rewrite IH. unfold probe_one.
  destruct (_ !! n) as [ts|]; [|done]. destruct (negb _); [done|]. destruct (probe n); [done..|]. by destruct (String.eqb n a).
Qed.
Lemma running_tick now order probe pm : running (onProbeTick now order probe pm) = running pm.
Proof.
  unfold onProbeTick. destruct (state pm); [done | |].
  - cbv zeta. destruct (_ && _); rewrite ?running_cycle; apply running_expiry.
  - unfold probeAndEvaluate. rewrite <-(running_probes now probe (currentTransport pm) order pm).
    generalize (foldl (λ (pm0 : PeerManager) (n : string), probe_one now probe (currentTransport pm) n pm0) pm order). intros p.
    unfold evaluatePathSwitching. destruct (String.eqb _ _); [done|]. destruct (_ !! _); [|done]. cbv zeta. destruct (_ || _); [done|].
    destruct (foldl _ _ _) as [[n s]|]; [|done]. destruct (Qlt_bool _ _); [|done]. destruct (_ <=? _); [|done].
    unfold triggerSwitch. rewrite running_cycle. cbn [running set_state set_currentTransport set_cfg]. by rewrite running_close.
Qed.

Definition stopped_ok (pm : PeerManager) : Prop := running pm = false -> state pm = PeerDisconnected.

Lemma run_case_stopped now e pm pm' : run_case now e pm = Some pm' -> stopped_ok pm'.
Proof.
  unfold run_case. destruct (running pm) eqn:Er; [|done]. cbn [negb]. unfold stopped_ok.
  destruct e as [| | | |order probe| |].
  - destruct (ctxDone pm); [|done]. by take.
  - take. unfold handleReconnect. cbv zeta. rewrite running_cycle.
    cbn [running set_state set_retryTimer stopRetry stopHappyEyeballs set_happyEyeballsTimer]. rewrite running_cancel. cbn. congruence.
  - by take.
  - destruct (results pm); [done|]. take. rewrite running_result. cbn. congruence.
  - take. rewrite running_tick. congruence.
  - destruct (happyEyeballsTimer pm); [|done]. destruct (_ <=? _); [|done]. take. unfold startFallbackDial.
    destruct (list.head _); [|cbn; congruence]. destruct (dialCtx _); cbn; congruence.
  - destruct (retryTimer pm); [|done]. destruct (_ <=? _); [|done]. take. rewrite running_cycle. cbn. congruence.
Qed.

Lemma inv_Start now pm pm' :
  inv pm -> stopped_ok pm -> running pm = false -> Start now pm = Ok pm' -> inv pm' /\ stopped_ok pm'.
Proof.
  intros Hi Hs Hr. unfold Start. destruct (started pm); [done|].
  destruct (TransportNames (cfg pm)) eqn:E; [done|].
  match goal with |- Ok ?x = _ -> _ => intros H; assert (pm' = x) as -> by congruence end. split.
  - apply inv_startConnectCycle. specialize (Hs Hr). destruct Hi as [? ? ? ? Hheld ? Hd ? ? ?].
    split; try done; cbn; [intros n ts c Ht Hc; destruct (Hheld n ts c Ht Hc); congruence |].
    intros _. apply Hd. by rewrite Hs.
  - unfold stopped_ok. by rewrite running_cycle.
Qed.

Lemma inv_New c : "" ∉ TransportNames c -> inv (NewPeerManager c).
Proof.
  intros Hc. assert (forall n ts, transportStates (NewPeerManager c) !! n = Some ts -> n ∈ TransportNames c /\ conn ts = None /\
     quarantineN ts = 0 /\ subState ts = TransportSubActive) as Hm.
  { intros n ts. unfold NewPeerManager. cbv zeta. cbn [transportStates TransportNames].
    intros (m & [= -> ->] & Hin)%elem_of_list_to_map_2%list_elem_of_fmap. done. }
  split; try done.
  - by intros n [ts (Hn & _)%Hm] ->.
  - intros n ts k (_ & ? & _)%Hm. congruence.
  - split; [constructor | by intros k ?%elem_of_nil].
  - intros n ts (_ & _ & Hq & Hs)%Hm. split; [lia | congruence].
Qed.

(** C10. The states of a peer manager that can be reached, whatever transports
    answer and in whatever order: a transport holds a connection exactly when
    it is the current one of a connected manager, its connection is open and
    is not also waiting in the result channel, no two results carry the same
    connection, a manager that is not connected has no current transport, and
    a quarantined transport is dated by its cycle and is below the blackout
    threshold. *)
Theorem peer_manager_invariant c x :
  "" ∉ TransportNames c -> reachable c x -> inv x.2 /\ stopped_ok x.2.
Proof.
  intros Hc Hr. induction Hr as [now|x y Hx [Hi Hs] Hstep]; [by split; [apply inv_New|]|].
  destruct Hstep as [now e pm pm' H | now pm pm' Hrun H | now pm | now i o b pm pm' H | now t pm _]; cbn [snd] in *.
  - split; [by eapply inv_run_case | by eapply run_case_stopped].
  - by eapply inv_Start.
  - unfold Stop. destruct (started pm); [|done]. split; [|exact Hs]. clear Hs. same.
  - split; [by eapply inv_finish_dial|]. revert H. unfold finish_dial. destruct (dials pm !! i); [|done]. cbv zeta.
    destruct b; [|destruct (ctx_cancelled _ _); [by take | done]].
    destruct (_ <? _)%nat; [|done]. take. by destruct o.
  - done.
Qed.

(** ** Executions that can be computed *)

Inductive command : Type :=
| CRun (e : event) | CStart | CStop | CDial (i : nat) (outcome : option Z) (deliver : bool) | CTime (t : Z).
Definition exec1 (x : Z * PeerManager) (k : command) : option (Z * PeerManager) :=
  let '(now, pm) := x in
  match k with
  | CRun e => (fun pm => (now, pm)) <$> run_case now e pm
  | CStart => if running pm then None
              else match Start now pm with Ok pm => Some (now, pm) | Err _ => None end
  | CStop => Some (now, Stop pm)
  | CDial i o b => (fun pm => (now, pm)) <$> finish_dial i o b pm
  | CTime t => if now <=? t then Some (t, pm) else None
  end.
Definition exec (l : list command) (x : Z * PeerManager) : option (Z * PeerManager) :=
  foldl (fun o k => x ← o; exec1 x k) (Some x) l.

Lemma exec1_step x k y : exec1 x k = Some y -> step x y.
Proof.
  destruct x as [now pm], k as [e | | | i o b | t]; cbn [exec1].
  - destruct (run_case now e pm) eqn:E; [|done]. intros [= <-]. by eapply step_run.
  - destruct (running pm) eqn:Er; [done|]. destruct (Start now pm) eqn:E; [|done]. intros [= <-]. by apply step_start.
  - intros [= <-]. apply step_stop.
  - destruct (finish_dial i o b pm) eqn:E; [|done]. intros [= <-]. by eapply step_dial.
  - destruct (Z.leb_spec now t); [|done]. intros [= <-]. by apply step_time.
Qed.
Lemma exec_reachable c l x y : reachable c x -> exec l x = Some y -> reachable c y.
Proof.
  revert x. induction l as [|k l IH]; intros x Hx; cbn; [by intros [= <-]|].
  destruct (exec1 x k) as [z|] eqn:E.
  - apply IH. eapply reach_next; [exact Hx | by eapply exec1_step].
  - clear IH E. by induction l.
Qed.

Definition two_transports : PeerManagerConfig := set_TransportNames ["udp"; "reality"] DefaultPeerManagerConfig.
(** The first dial is slow, the hedged one wins. *)
Definition hedged_win : list command :=
  [CStart; CTime (5 * second); CRun EvHappyEyeballs; CDial 1 (Some (80 * 10 ^ 6)) true; CRun EvResult].
(** What the first dial reports once it is cancelled. *)
Definition loser_reports : list command := [CDial 0 None true; CRun EvResult].

Definition hedged_leak : list command :=
  hedged_win ++ loser_reports ++ [CTime (8 * second); CRun EvRetry; CTime (13 * second); CRun EvHappyEyeballs;
    CDial 1 (Some (80 * 10 ^ 6)) true; CRun EvResult; CDial 0 None false].

Lemma peer_manager_invariant_witness :
  match exec hedged_win (0, NewPeerManager two_transports) with
  | Some x => inv x.2 /\ state x.2 = PeerConnected /\ currentTransport x.2 = "reality"%string
  | None => False
  end.
Proof.
  destruct (exec hedged_win (0, NewPeerManager two_transports)) as [x|] eqn:E; [|vm_compute in E; discriminate].
  split.
  - apply (peer_manager_invariant two_transports x); [|exact (exec_reachable _ _ _ _ (reach_new _ 0) E)].
    apply (bool_decide_unpack _). vm_compute. exact I.
  - vm_compute in E. injection E as <-. by split.
Defined.

(** The loser of a hedged dial is counted as a failure after the winner
    connected: its cancelled dial carries the generation of the cycle, so the
    failure handler sets the retry timer of a connected manager, the retry
    dials again, and when the transport in use wins, its connection is
    replaced without being closed: it stays open and nothing refers to it. *)
Theorem hedged_dial_leaks_connection :
  exists x c, reachable two_transports x /\ state x.2 = PeerConnected /\ c ∈ openConns x.2 /\ (c ∉ queued x.2) /\
    dials x.2 = [] /\ (forall n ts, transportStates x.2 !! n = Some ts -> conn ts <> Some c).
Proof.
  assert (match exec hedged_leak (0, NewPeerManager two_transports) with
          | Some x => bool_decide (state x.2 = PeerConnected /\ 0%nat ∈ openConns x.2 /\ (0%nat ∉ queued x.2) /\
              length (dials x.2) = 0%nat /\ map_Forall (fun _ ts => conn ts <> Some 0%nat) (transportStates x.2))
          | None => false
          end = true) as H by (vm_compute; reflexivity).
  destruct (exec hedged_leak (0, NewPeerManager two_transports)) as [x|] eqn:E; [|discriminate].
  apply bool_decide_eq_true in H as (? & ? & ? & ?%length_zero_iff_nil & ?).
  exists x, 0%nat. split; [exact (exec_reachable _ _ _ _ (reach_new _ 0) E) | by split_and!].
Qed.

(** A manager that is started again after a stop closes its done channel
    a second time when the second loop ends, which is a panic. *)
Theorem restart_closes_done_twice :
  exists x, reachable two_transports x /\ doneCloses x.2 = 2.
Proof.
  destruct (exec [CStart; CStop; CRun EvDone; CStart; CStop; CRun EvDone] (0, NewPeerManager two_transports)) as [x|] eqn:E;
    [|vm_compute in E; discriminate].
  exists x. split; [exact (exec_reachable _ _ _ _ (reach_new _ 0) E)|]. vm_compute in E. by injection E as <-.
Qed.

(** ** A probe tick dials again *)

Lemma expiry_available now pm n :
  (forall ts, transportStates pm !! n = Some ts ->
     subState ts <> TransportSubFailed /\ (subState ts = TransportSubQuarantined -> cooldownUntil ts < now)) ->
  n ∈ TransportNames (cfg pm) ->
  let f ts := if bool_decide (subState ts = TransportSubQuarantined) && (cooldownUntil ts <? now)
              then ts_quarantinedAt zeroTime (ts_failures 0 (ts_subState TransportSubActive ts)) else ts in
  n ∈ candidateTransports (set_transportStates (f <$> transportStates pm) pm).
Proof.
  intros Hts Hn f. apply list_elem_of_filter. split; [|done]. unfold candidate. cbn. rewrite lookup_fmap.
  destruct (transportStates pm !! n) as [ts|] eqn:E; cbn; [|done]. destruct (Hts ts eq_refl) as [Hf Hq].
  unfold f. case_bool_decide as Hs; cbn [andb].
  - rewrite (proj2 (Z.ltb_lt _ _)) by auto. done.
  - unfold available. by rewrite !bool_decide_eq_false_2.
Qed.

Lemma cycle_dials now pm n :
  n ∈ candidateTransports pm -> state pm = PeerConnecting ->
  exists p, p ∈ TransportNames (cfg pm) /\ inFlight (startConnectCycle now pm) = {[p]} /\
    dials (startConnectCycle now pm) = dials pm ++ [MkDial (connectGen pm + 1) p (connectGen pm + 1)] /\
    connectGen (startConnectCycle now pm) = connectGen pm + 1 /\
    dialCtx (startConnectCycle now pm) = Some (connectGen pm + 1).
Proof.
  intros Hn Hs. unfold startConnectCycle. set (p1 := cancelInFlight pm).
  assert (state p1 = PeerConnecting /\ cfg p1 = cfg pm /\ inFlight p1 = ∅ /\ dials p1 = dials pm /\
    connectGen p1 = connectGen pm /\ candidateTransports p1 = candidateTransports pm) as (E1 & E2 & E3 & E4 & E5 & E6).
  { subst p1. unfold cancelInFlight. by destruct (dialCtx pm). }
  rewrite E1. rewrite bool_decide_eq_false_2 by done. cbv zeta. set (p2 := set_state PeerConnecting p1).
  change (candidateTransports p2) with (candidateTransports p1). rewrite E6.
  destruct (candidateTransports pm) as [|p others] eqn:Ec; [by apply elem_of_nil in Hn|].
  assert (p ∈ candidateTransports pm) as Hp by (rewrite Ec; left). apply list_elem_of_filter in Hp as [_ Hp].
  exists p. split; [done|]. assert (forall X : gset string, X = ∅ -> X ∪ {[p]} = {[p]}) as Hset by set_solver.
  destruct others; cbn [startDial inFlight dials connectGen dialCtx set_happyEyeballsTimer set_dials put_ts set_transportStates
    set_inFlight set_dialCtx set_connectGen p2 set_state]; rewrite E4, E5, Hset by done; by split_and!.
Qed.

(** C18. A manager without a connection does not stay idle: when it is
    connecting, nothing is being dialled and no retry is scheduled, the next
    probe tick starts a new cycle with one dial, provided one configured
    transport has not failed for good and its quarantine, if any, is over. *)
Theorem probe_tick_redials now order probe pm n :
  state pm = PeerConnecting -> retryTimer pm = None -> inFlight pm = ∅ -> n ∈ TransportNames (cfg pm) ->
  (forall ts, transportStates pm !! n = Some ts ->
     subState ts <> TransportSubFailed /\ (subState ts = TransportSubQuarantined -> cooldownUntil ts < now)) ->
  let pm' := onProbeTick now order probe pm in
  exists p, p ∈ TransportNames (cfg pm) /\ inFlight pm' = {[p]} /\
    dials pm' = dials pm ++ [MkDial (connectGen pm + 1) p (connectGen pm + 1)] /\
    connectGen pm' = connectGen pm + 1 /\ dialCtx pm' = Some (connectGen pm + 1).
Proof.
  intros Hs Hr Hf Hn Hts. pose proof (expiry_available now pm n Hts Hn) as Hc. cbv beta zeta in Hc |- *.
  match type of Hc with _ ∈ candidateTransports ?x => set (p1 := x) in * end.
  assert (checkQuarantineExpiry now pm = startConnectCycle now p1 \/ checkQuarantineExpiry now pm = p1) as Hx
    by (unfold checkQuarantineExpiry; cbv beta zeta; fold p1; destruct (_ && _); auto).
  destruct (cycle_dials now p1 n Hc Hs) as (p & Hp & Hif & Hd & Hg & Hctx).
  unfold onProbeTick. rewrite Hs. cbv zeta. destruct Hx as [-> | ->].
  - rewrite (bool_decide_eq_false_2 (inFlight (startConnectCycle now p1) = ∅)) by (rewrite Hif; set_solver).
    rewrite andb_false_r. cbn [andb]. by exists p.
  - change (retryTimer p1) with (retryTimer pm). change (inFlight p1) with (inFlight pm).
    rewrite Hr, Hf, !bool_decide_eq_true_2 by done.
    rewrite bool_decide_eq_false_2; [by exists p|]. intros E. rewrite E in Hc. by apply elem_of_nil in Hc.
Qed.

Lemma probe_tick_redials_witness :
  let pm := set_state PeerConnecting (NewPeerManager two_transports) in
  state pm = PeerConnecting /\
  exists p, p ∈ ["udp"; "reality"]%string /\ inFlight (onProbeTick 0 [] (fun _ => NoTransport) pm) = {[p]}.
Proof.
  split; [reflexivity|].
  destruct (probe_tick_redials 0 [] (fun _ => NoTransport) (set_state PeerConnecting (NewPeerManager two_transports)) "udp")
    as (p & Hp & Hif & _); [reflexivity | reflexivity | reflexivity | left | | exists p; exact (conj Hp Hif)].
  intros ts H. vm_compute in H. injection H as <-. by split.
Defined.

(** A transport that answers within a millisecond has score 0, which stands
    for "no data": it is never switched to. *)
Lemma submillisecond_never_chosen now pm a n ts best :
  transportStates pm !! n = Some ts -> 0 <= current (latency ts) < 10 ^ 6 -> better now pm a best n = best.
Proof.
  intros E Hl. unfold better. rewrite E. destruct (_ || _); [done|]. cbv zeta. unfold computeScore. cbv zeta.
  destruct (_ =? 0); [done|]. assert (milliseconds (current (latency ts)) = 0) as ->.
  { unfold milliseconds. apply Z.quot_small. lia. }
  match goal with |- context [Qeq_bool ?x 0] => assert (Qeq_bool x 0 = true) as -> by (apply Qeq_bool_iff; ring) end.
  done.
Qed.

(** The choice that a switch was founded on is not forgotten by the switch:
    the transport that lost keeps its count of stable rounds. *)
Lemma triggerSwitch_keeps_stableBetter pm ts o :
  transportStates pm !! currentTransport pm = Some ts -> conn ts = Some o ->
  exists ts', transportStates (closeCurrent pm) !! currentTransport pm = Some ts' /\ stableBetter ts' = stableBetter ts.
Proof. intros E Eo. unfold closeCurrent. rewrite E, Eo. eexists. cbn. rewrite lookup_insert_eq. done. Qed.

End Peer.
