(* ===== verification/Reporting.v ===== *)
(** * Monitoring messages (internal/monitor/reporter.go, aggregator.go, metrics.go)

    The reporter of every node, which samples, keeps the samples and pushes
    them, and the aggregator of a collector, which checks, deduplicates,
    stores and forwards them. A sample is shared: the reporter's store and the
    envelope hold the same pointer, so that samples live in a heap. The
    aggregator's handlers run side by side; their atomic sections are steps. *)
From stdpp Require Import prelude gmap list strings.
From Stdlib Require Import Strings.Byte ZArith Lia.
From S2P Require Import Prelude GoBytes GoNet RingBuffer Transfer.
Local Open Scope Z_scope.
Import RingBuffer.Monitor.
Import Transfer.Transfer.

Module Reporting.

Definition DefaultMonitorPort : Z := 4191.
Definition second : Z := 10 ^ 9.

Record TrafficMetrics : Type := MkTraffic {
  InBytes : Z; OutBytes : Z; SmuxStreams : Z; RelayForwards : Z; TunRxPackets : Z; TunTxPackets : Z; PeerCount : Z
}.
Record TrafficSnapshot : Type := MkTrafficSnapshot {
  s_InBytes : Z; s_OutBytes : Z; s_SmuxStreams : Z; s_RelayForwards : Z; s_TunRxPackets : Z;
  s_TunTxPackets : Z; s_PeerCount : Z
}.
Definition monitorTrafficFromProvider (ts : TrafficSnapshot) : TrafficMetrics :=
  MkTraffic (s_InBytes ts) (s_OutBytes ts) (s_SmuxStreams ts) (s_RelayForwards ts) (s_TunRxPackets ts)
    (s_TunTxPackets ts) (s_PeerCount ts).

(** The envelope of a sample; in memory the sample is a pointer, in a
    message it is the sample itself. *)
Record MetricEnvelope (M : Type) : Type := MkEnvelope {
  SourceID : string; Sequence : Z; Forwarded : bool; e_Metrics : option M
}.
#[global] Arguments MkEnvelope {M} _ _ _ _.
#[global] Arguments SourceID {M} _.
#[global] Arguments Sequence {M} _.
#[global] Arguments Forwarded {M} _.
#[global] Arguments e_Metrics {M} _.

(** [time.Duration(n) * time.Second], kept between 10 s and 5 min. *)
Definition clampInterval (n : Z) : Z :=
  let d := i64 (n * second) in
  let d := if d <? 10 * second then 15 * second else d in
  if 300 * second <? d then 300 * second else d.

Section Monitoring.
(** What the system collector reads of the host beside the time. *)
Context {Sys : Type}.

Record Metrics : Type := MkMetrics {
  Timestamp : Z; NodeID : string; Hostname : string; System : Sys; Traffic : TrafficMetrics;
  PeerLatency : option (gmap string Z)
}.
Definition set_Traffic (t : TrafficMetrics) (m : Metrics) : Metrics :=
  MkMetrics (Timestamp m) (NodeID m) (Hostname m) (System m) t (PeerLatency m).
Definition set_PeerLatency (l : option (gmap string Z)) (m : Metrics) : Metrics :=
  MkMetrics (Timestamp m) (NodeID m) (Hostname m) (System m) (Traffic m) l.

(** The JSON codec. *)
Variable marshal : MetricEnvelope Metrics -> result string (list byte).
Variable unmarshal : list byte -> result string (MetricEnvelope Metrics).

(** ** The frame of an envelope *)
Section Wire.
Context {R : Type} `{ReadWriter R}.

Definition maxEnvelope : Z := 10 * 1024 * 1024.

(** The bytes of the length, as conversions to [byte] of its shifts. *)
Definition header (data : list byte) : list byte :=
  (fun k => byte_of_Z (Z.shiftr (len data) k)) <$> [24; 16; 8; 0].

Definition ReadEnvelope (r : R) : result string (MetricEnvelope Metrics) * R :=
  match ReadFull 4 r with
  | (Err e, r) => (Err ("read header: " +:+ e)%string, r)
  | (Ok h, r) =>
      let length := be_Z h in
      if (length <=? 0) || (maxEnvelope <? length)
      then (Err ("invalid envelope length: " +:+ itoa length)%string, r)
      else match ReadFull length r with
           | (Err e, r) => (Err ("read body: " +:+ e)%string, r)
           | (Ok data, r) =>
               match unmarshal data with
               | Err e => (Err ("unmarshal envelope: " +:+ e)%string, r)
               | Ok env => (Ok env, r)
               end
           end
  end.

Definition WriteEnvelope (env : MetricEnvelope Metrics) (r : R) : option string * R :=
  match marshal env with
  | Err e => (Some ("marshal envelope: " +:+ e)%string, r)
  | Ok data => Write (header data ++ data) r
  end.
End Wire.

(** ** The reporter *)

(** A pointer to a sample, with the time at which it was taken, which does
    not change. *)
Record sample : Type := MkSample { addr : nat; taken : Z }.

Record Reporter : Type := MkReporter {
  nodeID : string; r_store : Store (Metrics := sample); heap : gmap nat Metrics; collectors : list string;
  interval : Z; port : Z; running : bool; stopped : bool; sequence : Z; bufferedCount : Z; maxBufferAge : Z
}.
Definition r_set_store (x : Store) (h : gmap nat Metrics) (r : Reporter) : Reporter :=
  MkReporter (nodeID r) x h (collectors r) (interval r) (port r) (running r) (stopped r) (sequence r)
    (bufferedCount r) (maxBufferAge r).
Definition r_set_heap (h : gmap nat Metrics) (r : Reporter) : Reporter := r_set_store (r_store r) h r.
Definition r_set_collectors (x : list string) (r : Reporter) : Reporter :=
  MkReporter (nodeID r) (r_store r) (heap r) x (interval r) (port r) (running r) (stopped r) (sequence r)
    (bufferedCount r) (maxBufferAge r).
Definition r_set_interval (x : Z) (r : Reporter) : Reporter :=
  MkReporter (nodeID r) (r_store r) (heap r) (collectors r) x (port r) (running r) (stopped r) (sequence r)
    (bufferedCount r) (maxBufferAge r).
Definition r_set_port (x : Z) (r : Reporter) : Reporter :=
  MkReporter (nodeID r) (r_store r) (heap r) (collectors r) (interval r) x (running r) (stopped r) (sequence r)
    (bufferedCount r) (maxBufferAge r).
Definition r_set_running (x y : bool) (r : Reporter) : Reporter :=
  MkReporter (nodeID r) (r_store r) (heap r) (collectors r) (interval r) (port r) x y (sequence r)
    (bufferedCount r) (maxBufferAge r).
Definition r_set_sequence (x : Z) (r : Reporter) : Reporter :=
  MkReporter (nodeID r) (r_store r) (heap r) (collectors r) (interval r) (port r) (running r) (stopped r) x
    (bufferedCount r) (maxBufferAge r).
Definition r_set_bufferedCount (x : Z) (r : Reporter) : Reporter :=
  MkReporter (nodeID r) (r_store r) (heap r) (collectors r) (interval r) (port r) (running r) (stopped r)
    (sequence r) x (maxBufferAge r).

Definition NewReporter (node : string) (colls : list string) (seconds prt : Z) : Reporter :=
  MkReporter node NewStore ∅ colls (clampInterval seconds) (if prt =? 0 then DefaultMonitorPort else prt)
    false false 0 0 (24 * 3600 * second).

(** [AddCollector] starts [FlushBuffer] in the background when it returns
    true here. *)
Definition AddCollector (peerKey : string) (r : Reporter) : Reporter * bool :=
  if bool_decide (peerKey ∈ collectors r) then (r, false)
  else (r_set_collectors (collectors r ++ [peerKey]) r, true).
Fixpoint remove_first (k : string) (l : list string) : list string :=
  match l with
  | [] => []
  | c :: l => if String.eqb c k then l else c :: remove_first k l
  end.
Definition RemoveCollector (peerKey : string) (r : Reporter) : Reporter :=
  r_set_collectors (remove_first peerKey (collectors r)) r.
Definition SetCollectors (ids : list string) (r : Reporter) : Reporter := r_set_collectors ids r.
Definition SetInterval (seconds : Z) (r : Reporter) : Reporter := r_set_interval (clampInterval seconds) r.
Definition SetPort (prt : Z) (r : Reporter) : Reporter :=
  r_set_port (if prt =? 0 then DefaultMonitorPort else prt) r.
Definition Interval (r : Reporter) : Z := Z.quot (interval r) second.
Definition r_Start (r : Reporter) : result string Reporter :=
  if running r then Err "reporter already running"%string else Ok (r_set_running true false r).
Definition r_Stop (r : Reporter) : Reporter := if running r then r_set_running false true r else r.

(** A message on its way: to whom and its bytes. *)
Definition message : Type := (string * list byte).

(** The envelope that is encoded: the sample as it is now. *)
Definition deref (h : gmap nat Metrics) (env : MetricEnvelope sample) : MetricEnvelope Metrics :=
  MkEnvelope (SourceID env) (Sequence env) (Forwarded env) (s ← e_Metrics env; h !! addr s).

(** [tryPush]: whether the dial and both writes succeed is an argument. *)
Definition tryPush (reach : string -> bool) (c : string) (data : list byte) : bool * list message :=
  if reach c then (true, [(c, header data ++ data)]) else (false, []).

Definition best_step (rtts : gmap string Z) (st : string * Z) (c : string) : string * Z :=
  match rtts !! c with
  | Some rtt => if (st.2 <? 0) || (rtt <? st.2) then (c, rtt) else st
  | None => st
  end.
Definition bestCollector (rtts : option (gmap string Z)) (colls : list string) : string :=
  let first := default "" (list.head colls) in
  match rtts with Some rtts => fst (foldl (best_step rtts) (first, -1) colls) | None => first end.

(** The loop of [pushToCollectors]: an envelope without latencies is made
    from the first one, whose sample it shares. *)
Definition latency_of (h : gmap nat Metrics) (env : MetricEnvelope sample) : option (gmap string Z) :=
  s ← e_Metrics env; m ← h !! addr s; PeerLatency m.
Definition drop_latency (env : MetricEnvelope sample) (h : gmap nat Metrics) : gmap nat Metrics :=
  match e_Metrics env with Some s => alter (set_PeerLatency None) (addr s) h | None => h end.
Fixpoint push_loop (reach : string -> bool) (best : string) (data : list byte) (env : MetricEnvelope sample)
    (colls : list string) (h : gmap nat Metrics) (ok : Z) : Z * list message * gmap nat Metrics :=
  match colls with
  | [] => (ok, [], h)
  | c :: colls =>
      let strip := negb (String.eqb c best) && bool_decide (is_Some (latency_of h env)) in
      let h := if strip then drop_latency env h else h in
      let payload := if strip then match marshal (deref h env) with Ok d => d | Err _ => [] end else data in
      let '(pushed, m) := tryPush reach c payload in
      let '(ok, ms, h) := push_loop reach best data env colls h (if pushed then ok + 1 else ok) in
      (ok, m ++ ms, h)
  end.

(** [peers] is what the peer lister returns, if there is one. *)
Definition pushToCollectors (reach : string -> bool) (rtts : option (gmap string Z)) (peers : option (list string))
    (env : MetricEnvelope sample) (r : Reporter) : bool * list message * Reporter :=
  match marshal (deref (heap r) env) with
  | Err _ => (false, [], r)
  | Ok data =>
      let colls := match collectors r, peers with
                   | [], Some ps => filter (fun p => p <> nodeID r) ps
                   | l, _ => l
                   end in
      match colls with
      | [] => (false, [], r)
      | _ =>
          let '(ok, ms, h) := push_loop reach (bestCollector rtts colls) data env colls (heap r) 0 in
          (0 <? ok, ms, r_set_heap h r)
      end
  end.

(** What a cycle finds: the sample of the collector, the traffic and the
    latencies of the providers, who can be reached, the peers. *)
Record surroundings : Type := MkSurroundings {
  collected : result string Metrics; traffic : option TrafficSnapshot; rtt : option (gmap string Z);
  rtt_push : option (gmap string Z); reach : string -> bool; peers : option (list string); clock : Z
}.

(** [collectAndPush] up to the point where the lock is given up for the
    first time after the increment, and the rest, which reads the sequence
    again. *)
Definition collect (w : surroundings) (r : Reporter) : option (sample * Reporter) :=
  match collected w with
  | Err _ => None
  | Ok m =>
      let m := match traffic w with Some t => set_Traffic (monitorTrafficFromProvider t) m | None => m end in
      let m := match rtt w with Some l => set_PeerLatency (Some l) m | None => m end in
      let s := MkSample (fresh (dom (heap r))) (Timestamp m) in
      let r := r_set_sequence (u64 (sequence r + 1)) r in
      Some (s, r_set_store (Store_Append taken (r_store r) (clock w) (nodeID r) (Some s)) (<[addr s := m]> (heap r)) r)
  end.
Definition push_collected (w : surroundings) (s : sample) (r : Reporter) : list message * Reporter :=
  match collectors r with
  | [] => ([], r)
  | _ =>
      let env := MkEnvelope (nodeID r) (sequence r) false (Some s) in
      let '(pushed, ms, r) := pushToCollectors (reach w) (rtt_push w) (peers w) env r in
      (ms, if pushed then r else r_set_bufferedCount (i64 (bufferedCount r + 1)) r)
  end.
Definition collectAndPush (w : surroundings) (r : Reporter) : list message * Reporter :=
  match collect w r with
  | None => ([], r)
  | Some (s, r) => push_collected w s r
  end.

Fixpoint flush_one (reach : string -> bool) (data : list byte) (colls : list string) : bool * list message :=
  match colls with
  | [] => (false, [])
  | c :: colls => let '(ok, m) := tryPush reach c data in if ok then (true, m) else flush_one reach data colls
  end.
Fixpoint flush_loop (reach : string -> bool) (colls : list string) (samples : list sample) (r : Reporter)
  : Z * list message * Reporter :=
  match samples with
  | [] => (0, [], r)
  | s :: samples =>
      let seq := u64 (sequence r + 1) in
      let r := r_set_sequence seq r in
      let data := match marshal (deref (heap r) (MkEnvelope (nodeID r) seq false (Some s))) with
                  | Ok d => d | Err _ => [] end in
      let '(ok, m) := flush_one reach data colls in
      let '(n, ms, r) := flush_loop reach colls samples r in
      ((if ok then n + 1 else n), m ++ ms, r)
  end.
Definition FlushBuffer (reach : string -> bool) (now : Z) (r : Reporter) : Z * list message * Reporter :=
  match collectors r with
  | [] => (0, [], r)
  | colls => flush_loop reach colls (Store_Range taken (r_store r) (nodeID r) (now - maxBufferAge r) 0) r
  end.

(** ** The aggregator *)

Record AggregatorConfig : Type := MkAggConfig {
  a_port : Z; authChecker : option (string -> bool); hasDialer : bool; hasLister : bool; selfPeerID : string;
  hasLatencyHandler : bool
}.
(** [dedup] and [dedupLastSeen] are maps that may be [nil]. *)
Record Aggregator : Type := MkAgg {
  a_cfg : AggregatorConfig; a_store : Store (Metrics := Metrics); dedup : gmap string Z;
  dedupLastSeen : option (gmap string Z); dedupCleanupInterval : Z; staleThreshold : Z; a_running : bool;
  a_stopped : bool
}.
Definition a_set_store (x : Store) (a : Aggregator) : Aggregator :=
  MkAgg (a_cfg a) x (dedup a) (dedupLastSeen a) (dedupCleanupInterval a) (staleThreshold a) (a_running a) (a_stopped a).
Definition a_set_dedup (x : gmap string Z) (y : option (gmap string Z)) (a : Aggregator) : Aggregator :=
  MkAgg (a_cfg a) (a_store a) x y (dedupCleanupInterval a) (staleThreshold a) (a_running a) (a_stopped a).
Definition a_set_running (x y : bool) (a : Aggregator) : Aggregator :=
  MkAgg (a_cfg a) (a_store a) (dedup a) (dedupLastSeen a) (dedupCleanupInterval a) (staleThreshold a) x y.
Definition a_set_staleThreshold (x : Z) (a : Aggregator) : Aggregator :=
  MkAgg (a_cfg a) (a_store a) (dedup a) (dedupLastSeen a) (dedupCleanupInterval a) x (a_running a) (a_stopped a).

Definition NewAggregator (c : AggregatorConfig) (st : option Store) : Aggregator :=
  MkAgg (MkAggConfig (if a_port c =? 0 then DefaultMonitorPort else a_port c) (authChecker c) (hasDialer c)
           (hasLister c) (selfPeerID c) (hasLatencyHandler c))
    (default NewStore st) ∅ None 0 0 false false.

(** [Start]; [listen] is the error of the listener. *)
Definition a_Start (listen : option string) (a : Aggregator) : result string unit * Aggregator :=
  if a_running a then (Err "aggregator already running"%string, a)
  else
    let a := a_set_running true false a in
    let a := a_set_dedup (dedup a) (Some (default ∅ (dedupLastSeen a))) a in
    let cleanupInterval := if dedupCleanupInterval a =? 0 then 3600 * second else dedupCleanupInterval a in
    let a := a_set_staleThreshold (if staleThreshold a =? 0 then 2 * cleanupInterval else staleThreshold a) a in
    match listen with
    | Some e => (Err ("listen on mesh port " +:+ itoa (a_port (a_cfg a)) +:+ ": " +:+ e)%string, a)
    | None => (Ok tt, a)
    end.
Definition a_Stop (a : Aggregator) : Aggregator := if a_running a then a_set_running false true a else a.

(** *** The handler of one push, in its atomic sections *)

(** The tests before the lock. *)
Definition acceptable (env : MetricEnvelope Metrics) (a : Aggregator) : bool :=
  bool_decide (is_Some (e_Metrics env)) && negb (String.eqb (SourceID env) "") &&
  match authChecker (a_cfg a) with Some f => f (SourceID env) | None => true end.
(** The section under [dedupMu]; an assignment to a map that is [nil]
    panics, which is [None]. *)
Definition dedup_check (now : Z) (env : MetricEnvelope Metrics) (a : Aggregator) : option (bool * Aggregator) :=
  let src := SourceID env in
  if match dedup a !! src with Some lastSeq => Sequence env <=? lastSeq | None => false end
  then Some (false, a)
  else match dedupLastSeen a with
       | None => None
       | Some seen => Some (true, a_set_dedup (<[src := Sequence env]> (dedup a)) (Some (<[src := now]> seen)) a)
       end.
Definition store_metrics (now : Z) (env : MetricEnvelope Metrics) (a : Aggregator) : Aggregator :=
  a_set_store (Store_Append Timestamp (a_store a) now (SourceID env) (e_Metrics env)) a.
(** The call of [onPeerLatency]. *)
Definition latency_call (env : MetricEnvelope Metrics) (a : Aggregator)
  : option (string * gmap string Z * string) :=
  if hasLatencyHandler (a_cfg a) then
    m ← e_Metrics env; l ← PeerLatency m; Some (SourceID env, l, Hostname m)
  else None.
(** The envelopes that are sent to other collectors, whom the lister names. *)
Definition forwardToCollectors (listed : list string) (env : MetricEnvelope Metrics) (a : Aggregator)
  : list (string * MetricEnvelope Metrics) :=
  if Forwarded env then []
  else if negb (hasDialer (a_cfg a)) || negb (hasLister (a_cfg a)) then []
  else
    let fwdEnv := MkEnvelope (SourceID env) (Sequence env) true (e_Metrics env) in
    (fun p => (p, fwdEnv)) <$> filter (fun p => p <> selfPeerID (a_cfg a)) listed.

(** [handlePush] on an envelope that was read, run alone. *)
Definition handlePush (now : Z) (listed : list string) (env : MetricEnvelope Metrics) (a : Aggregator)
  : option (list (string * MetricEnvelope Metrics) * Aggregator) :=
  if negb (acceptable env a) then Some ([], a)
  else match dedup_check now env a with
       | None => None
       | Some (false, a) => Some ([], a)
       | Some (true, a) =>
           let a := store_metrics now env a in
           Some (forwardToCollectors listed env a, a)
       end.

Definition cleanupDedup (now : Z) (a : Aggregator) : Aggregator :=
  let threshold := if staleThreshold a =? 0 then 2 * 3600 * second else staleThreshold a in
  let cutoff := now - threshold in
  let stale := filter (fun kv => kv.2 < cutoff) (default ∅ (dedupLastSeen a)) in
  let a := a_set_dedup (dedup a ∖ stale) ((fun seen => seen ∖ stale) <$> dedupLastSeen a) a in
  a_set_store (RemoveStaleNodes (a_store a) now threshold).1 a.

(** The in-process aggregator of the tests. *)
Definition Receive (now : Z) (env : option (MetricEnvelope Metrics)) (st : Store) : Store :=
  match env with
  | Some env =>
      match e_Metrics env with
      | Some m => if String.eqb (SourceID env) "" then st else Store_Append Timestamp st now (SourceID env) (Some m)
      | None => st
      end
  | None => st
  end.

(** *** Handlers side by side

    Connections bring envelopes; between its sections a handler can be
    overtaken. [stored] and [sent] record what was stored and sent. *)
Inductive phase : Type := Received | Passed | Stored.
Record world : Type := MkWorld {
  agg : Aggregator; handlers : list (phase * MetricEnvelope Metrics);
  storedLog : list (MetricEnvelope Metrics); sentLog : list (string * MetricEnvelope Metrics)
}.
Inductive step : world -> world -> Prop :=
| step_arrive env a hs st sn : step (MkWorld a hs st sn) (MkWorld a (hs ++ [(Received, env)]) st sn)
| step_reject i env a hs st sn : hs !! i = Some (Received, env) -> acceptable env a = false ->
    step (MkWorld a hs st sn) (MkWorld a (delete i hs) st sn)
| step_duplicate i env a a' hs st sn now : hs !! i = Some (Received, env) -> acceptable env a = true ->
    dedup_check now env a = Some (false, a') -> step (MkWorld a hs st sn) (MkWorld a' (delete i hs) st sn)
| step_admit i env a a' hs st sn now : hs !! i = Some (Received, env) -> acceptable env a = true ->
    dedup_check now env a = Some (true, a') -> step (MkWorld a hs st sn) (MkWorld a' (<[i := (Passed, env)]> hs) st sn)
| step_store i env a hs st sn now : hs !! i = Some (Passed, env) ->
    step (MkWorld a hs st sn) (MkWorld (store_metrics now env a) (<[i := (Stored, env)]> hs) (st ++ [env]) sn)
| step_forward i env a hs st sn listed : hs !! i = Some (Stored, env) ->
    step (MkWorld a hs st sn) (MkWorld a (delete i hs) st (sn ++ forwardToCollectors listed env a)).
End Monitoring.

(** ** Messages *)

Section WireProofs.
Context {Sys : Type} (marshal : MetricEnvelope (@Metrics Sys) -> result string (list byte))
  (unmarshal : list byte -> result string (MetricEnvelope (@Metrics Sys))).

Lemma header_be data : header data = be_bytes 4 (len data).
Proof.
  unfold header. cbn [fmap list_fmap be_bytes]. rewrite !Z.shiftr_div_pow2 by lia. repeat f_equal.
Qed.

Lemma header_length data : length (header data) = 4%nat.
Proof. done. Qed.

Context {R : Type} `{HR : Stream R}.

(** What is read of a stream that holds a frame. *)
Lemma ReadEnvelope_frame d rest (r : R) :
  len d < 2 ^ 32 -> v_in (view r) = header d ++ d ++ rest ->
  (0 < len d <= maxEnvelope -> exists r', ReadEnvelope unmarshal r =
     (match unmarshal d with Ok env => Ok env | Err e => Err ("unmarshal envelope: " +:+ e)%string end, r') /\
     v_in (view r') = rest) /\
  (~ 0 < len d <= maxEnvelope -> exists e r', ReadEnvelope unmarshal r = (Err e, r')).
Proof.
  intros Hd Hv. unfold ReadEnvelope. destruct (ReadFull_view 4 r) as (r1 & -> & Hv1).
  assert (v_full 4 (view r) = Ok (header d)) as ->.
  { unfold v_full. rewrite Hv, !length_app, header_length. change (4 <=? 0) with false. cbv iota. destruct (Z.leb_spec 4 (Z.of_nat (4 + (length d + length rest)))); [|lia].
    change (Z.to_nat 4) with 4%nat. by rewrite take_app_length'. }
  assert (v_in (view r1) = d ++ rest) as Hv2 by (rewrite Hv1; unfold v_after; cbn [v_in set_in]; rewrite Hv; by apply drop_app_length').
  cbv zeta. rewrite header_be, be_Z_u32 by lia. split.
  - intros [H1 H2]. rewrite (proj2 (Z.leb_gt _ _)), (proj2 (Z.ltb_ge _ _)) by done. cbn [orb].
    destruct (ReadFull_view (len d) r1) as (r2 & -> & Hv3).
    assert (v_full (len d) (view r1) = Ok d) as ->.
    { unfold v_full. rewrite Hv2, length_app. rewrite (proj2 (Z.leb_gt _ _)) by done.
      destruct (Z.leb_spec (len d) (Z.of_nat (length d + length rest))); [|lia]. rewrite Nat2Z.id. f_equal. by apply take_app_length'. }
    assert (v_in (view r2) = rest) as Hr2 by (rewrite Hv3; unfold v_after; cbn [v_in set_in]; rewrite Hv2, Nat2Z.id; by apply drop_app_length').
    destruct (unmarshal d); by exists r2.
  - intros Hn. assert ((len d <=? 0) || (maxEnvelope <? len d) = true) as ->; [|eauto].
    apply orb_true_iff. destruct (Z.leb_spec (len d) 0); [by left | right]. apply Z.ltb_lt. lia.
Qed.
End WireProofs.

(** An envelope that is written to one end is read at the other, however
    the bytes are cut on the way, and nothing behind it is consumed. *)
Theorem envelope_roundtrip {Sys R1 R2} `{HS1 : Stream R1, HS2 : Stream R2} marshal unmarshal
    (env : MetricEnvelope (@Metrics Sys)) d (r1 : R1) (r2 : R2) rest :
  marshal env = Ok d -> unmarshal d = Ok env -> 0 < len d <= maxEnvelope -> v_room (view r1) = None ->
  v_in (view r2) = header d ++ d ++ rest ->
  (exists r1', WriteEnvelope marshal env r1 = (None, r1') /\ v_out (view r1') = v_out (view r1) ++ header d ++ d) /\
  (exists r2', ReadEnvelope unmarshal r2 = (Ok env, r2') /\ v_in (view r2') = rest).
Proof.
  intros Hm Hu Hd Hroom Hin. split.
  - unfold WriteEnvelope. rewrite Hm. destruct (Write_all (header d ++ d) r1 Hroom) as (r1' & -> & Hv).
    exists r1'. by rewrite Hv.
  - assert (len d < 2 ^ 32) by (unfold maxEnvelope in Hd; lia).
    destruct (ReadEnvelope_frame unmarshal d rest r2) as [Hok _]; [done..|].
    destruct (Hok Hd) as (r2' & -> & ?). rewrite Hu. by exists r2'.
Qed.

(** ** Handlers side by side *)
Section Aggregate.
Context {Sys : Type}.
Implicit Types (env : MetricEnvelope (@Metrics Sys)) (a : @Aggregator Sys) (w : @world Sys).

Definition id_of env : string * Z := (SourceID env, Sequence env).
Definition admitted (hs : list (phase * MetricEnvelope (@Metrics Sys))) : list (MetricEnvelope Metrics) :=
  omap (fun p => match p.1 with Passed => Some p.2 | _ => None end) hs.

Arguments admitted : simpl never.

Lemma split_at (hs : list (phase * MetricEnvelope (@Metrics Sys))) i p : hs !! i = Some p ->
  hs = take i hs ++ p :: drop (S i) hs /\ delete i hs = take i hs ++ drop (S i) hs /\
  forall q, <[i := q]> hs = take i hs ++ q :: drop (S i) hs.
Proof.
  intros Hi. pose proof (lookup_lt_Some _ _ _ Hi). split_and!.
  - by rewrite take_drop_middle.
  - apply delete_take_drop.
  - intros q. by rewrite insert_take_drop.
Qed.
Lemma admitted_delete (hs : list (phase * MetricEnvelope (@Metrics Sys))) i p : hs !! i = Some p -> p.1 <> Passed -> admitted (delete i hs) = admitted hs.
Proof.
  intros Hi Hp. destruct (split_at hs i p Hi) as (E & -> & _). rewrite E at 3. unfold admitted. rewrite !omap_app.
  f_equal. cbn [omap list_omap]. by destruct p as [[]].
Qed.
Lemma admitted_insert (hs : list (phase * MetricEnvelope (@Metrics Sys))) i p e : hs !! i = Some p -> p.1 <> Passed ->
  admitted (<[i := (Passed, e)]> hs) ≡ₚ e :: admitted hs.
Proof.
  intros Hi Hp. destruct (split_at hs i p Hi) as (E & _ & ->). rewrite E at 3. unfold admitted. rewrite !omap_app.
  cbn [omap list_omap]. destruct p as [[]]; cbn in *; [|done|]; by rewrite Permutation_middle.
Qed.
Lemma admitted_done (hs : list (phase * MetricEnvelope (@Metrics Sys))) i e : hs !! i = Some (Passed, e) -> admitted hs ≡ₚ e :: admitted (<[i := (Stored, e)]> hs).
Proof.
  intros Hi. destruct (split_at hs i _ Hi) as (E & _ & ->). rewrite E at 1. unfold admitted. rewrite !omap_app.
  cbn [omap list_omap]. by rewrite Permutation_middle.
Qed.

(** What holds between two sections: an identity is admitted once and is at
    most the recorded sequence of its source. *)
Record agg_inv (a0 : @Aggregator Sys) w : Prop := {
  g_cfg : a_cfg (agg w) = a_cfg a0;
  g_seen : is_Some (dedupLastSeen (agg w));
  g_once : NoDup (id_of <$> storedLog w ++ admitted (handlers w));
  g_last env : env ∈ storedLog w ++ admitted (handlers w) ->
    exists last, dedup (agg w) !! SourceID env = Some last /\ Sequence env <= last;
  g_auth env : env ∈ storedLog w ++ admitted (handlers w) -> acceptable env a0 = true;
  g_stored env : (Stored, env) ∈ handlers w -> env ∈ storedLog w;
  g_sent p e : (p, e) ∈ sentLog w -> Forwarded e = true /\ p <> selfPeerID (a_cfg a0) /\
    exists e0, e0 ∈ storedLog w /\ Forwarded e0 = false /\
      e = MkEnvelope (SourceID e0) (Sequence e0) true (e_Metrics e0)
}.

Lemma handlers_delete (hs : list (phase * MetricEnvelope (@Metrics Sys))) i (p : phase * MetricEnvelope (@Metrics Sys)) : p ∈ delete i hs -> p ∈ hs.
Proof.
  rewrite delete_take_drop. intros [H|H]%elem_of_app; [by eapply elem_of_take in H as (? & ?%list_elem_of_lookup_2 & _) |].
  by eapply subseteq_drop.
Qed.

Lemma agg_inv_drop a0 a i hs st sn p :
  hs !! i = Some p -> p.1 <> Passed -> agg_inv a0 (MkWorld a hs st sn) -> agg_inv a0 (MkWorld a (delete i hs) st sn).
Proof.
  intros Hi Hp []. pose proof (admitted_delete hs i p Hi Hp) as E. split; cbn in *; rewrite ?E; try done.
  intros env H%handlers_delete. auto.
Qed.

Lemma forward_elem a listed env p e : (p, e) ∈ forwardToCollectors listed env a ->
  Forwarded env = false /\ p <> selfPeerID (a_cfg a) /\ e = MkEnvelope (SourceID env) (Sequence env) true (e_Metrics env).
Proof.
  unfold forwardToCollectors. destruct (Forwarded env); [by intros ?%elem_of_nil|].
  destruct (_ || _); [by intros ?%elem_of_nil|]. by intros (q & [= -> ->] & [Hq _]%list_elem_of_filter)%list_elem_of_fmap.
Qed.

Lemma agg_inv_step a0 w w' : step w w' -> agg_inv a0 w -> agg_inv a0 w'.
Proof.
  intros Hs Hi. destruct Hs as [env a hs st sn | i env a hs st sn Hh _ | i env a a' hs st sn now Hh _ Hd
    | i env a a' hs st sn now Hh Ha Hd | i env a hs st sn now Hh | i env a hs st sn listed Hh].
  - assert (admitted (hs ++ [(Received, env)]) = admitted hs) as E by (unfold admitted; rewrite omap_app; apply app_nil_r).
    destruct Hi. split; cbn in *; rewrite ?E; try done. intros e [H|H%list_elem_of_singleton]%elem_of_app; [auto | done].
  - by eapply agg_inv_drop.
  - assert (a' = a) as ->; [|by eapply agg_inv_drop]. unfold dedup_check in Hd.
    destruct (match _ with Some _ => _ | None => _ end); [congruence|]. by destruct (dedupLastSeen a).
  - destruct Hi as [Hcfg [seen Hseen] Honce Hlast Hauth Hst Hsn]. cbn in *.
    pose proof (admitted_insert hs i _ env Hh) as Ep. cbn in Ep. specialize (Ep ltac:(done)).
    assert (forall e, e ∈ st ++ admitted (<[i:=(Passed, env)]> hs) -> e = env \/ e ∈ st ++ admitted hs) as Hin.
    { intros e. rewrite Ep. set_solver. }
    unfold dedup_check in Hd. rewrite Hseen in Hd.
    destruct (match dedup a !! SourceID env with Some _ => _ | None => _ end) eqn:El; [done|]. injection Hd as <-.
    assert (forall l, dedup a !! SourceID env = Some l -> l < Sequence env) as Hnew.
    { intros l E. rewrite E in El. by apply Z.leb_gt. }
    split; cbn; try done.
    + rewrite Ep, <-Permutation_middle. cbn. apply NoDup_cons. split; [|done].
      intros (e & He & Hin0)%list_elem_of_fmap. destruct (Hlast e Hin0) as (l & Hl & Hle). injection He as Hsrc Hseq.
      rewrite <-Hsrc in Hl. apply Hnew in Hl. lia.
    + intros e [->|He]%Hin; [exists (Sequence env); by rewrite lookup_insert_eq|].
      destruct (Hlast e He) as (l & Hl & Hle). destruct (decide (SourceID e = SourceID env)) as [E|E].
      * exists (Sequence env). rewrite E, lookup_insert_eq. split; [done|]. rewrite E in Hl. apply Hnew in Hl. lia.
      * exists l. by rewrite lookup_insert_ne.
    + intros e [->|He]%Hin; [|by apply Hauth]. unfold acceptable in *. by rewrite <-Hcfg.
    + intros e [j Hj]%list_elem_of_lookup. apply list_lookup_insert_Some in Hj as [(_ & ? & _)|[_ Hj]]; [done|].
      apply Hst. by eapply list_elem_of_lookup_2.
  - destruct Hi as [Hcfg Hseen Honce Hlast Hauth Hst Hsn]. cbn in *. pose proof (admitted_done hs i env Hh) as Ep.
    assert ((st ++ [env]) ++ admitted (<[i:=(Stored, env)]> hs) ≡ₚ st ++ admitted hs) as E2
      by (rewrite Ep, <-app_assoc; done).
    split; cbn; try done; try setoid_rewrite E2; try done.
    + intros e [j Hj]%list_elem_of_lookup. apply list_lookup_insert_Some in Hj as [(_ & [= <-] & _)|[_ Hj]]; [set_solver|].
      apply elem_of_app. left. apply Hst. by eapply list_elem_of_lookup_2.
    + intros p e He. destruct (Hsn p e He) as (? & ? & e0 & ? & ?). split_and!; [done..|]. exists e0. set_solver.
  - assert (env ∈ st) as Henv by (destruct Hi as [_ _ _ _ _ Hst _]; apply Hst; by eapply list_elem_of_lookup_2).
    eapply agg_inv_drop in Hi; [|done|done]. destruct Hi as [Hcfg ? ? ? ? ? Hsn]. split; cbn in *; try done.
    intros p e [He|He]%elem_of_app; [by apply Hsn|]. apply forward_elem in He as (Hf & Hp & ->). rewrite <-Hcfg.
    split_and!; [done..|]. by exists env.
Qed.

(** C33. Pushes that are handled side by side, in any interleaving: an
    identity (source, sequence) is stored at most once, only what the checker
    allows is stored, and what is sent on is a stored envelope that was not
    yet forwarded, marked as forwarded, never to the node itself. No handler
    can panic. (Runs between two cleanups of the table.) *)
Theorem aggregator_stores_once (a0 : @Aggregator Sys) w :
  is_Some (dedupLastSeen a0) -> rtc step (MkWorld a0 [] [] []) w ->
  NoDup (id_of <$> storedLog w) /\
  (forall env, env ∈ storedLog w -> acceptable env a0 = true) /\
  (forall p e, (p, e) ∈ sentLog w -> Forwarded e = true /\ p <> selfPeerID (a_cfg a0) /\
     exists e0, e0 ∈ storedLog w /\ Forwarded e0 = false /\
       e = MkEnvelope (SourceID e0) (Sequence e0) true (e_Metrics e0)) /\
  (forall now env, is_Some (dedup_check now env (agg w))).
Proof.
  intros Hseen Hr. assert (agg_inv a0 w) as [Hcfg Hs Honce Hlast Hauth Hst Hsn].
  { revert Hr. generalize (MkWorld a0 [] [] []) (ltac:(split; cbn; [done | done | constructor | set_solver | set_solver | set_solver | set_solver]) :
      agg_inv a0 (MkWorld a0 [] [] [])). intros w0 H0 Hr. induction Hr; [done|]. eauto using agg_inv_step. }
  rewrite fmap_app in Honce. apply NoDup_app in Honce as (Hnd & _). split_and!; [done | | done |].
  - intros env He. apply Hauth. set_solver.
  - intros now env. unfold dedup_check. destruct (match _ with Some _ => _ | None => _ end); [done|].
    by destruct Hs as [seen ->].
Qed.
End Aggregate.

(** ** What a push sends *)
Section Push.
Context {Sys : Type} (marshal : MetricEnvelope (@Metrics Sys) -> result string (list byte)).

Lemma push_loop_full reach best data env colls h ok :
  (forall c, c ∈ colls -> c = best \/ latency_of h env = None) ->
  push_loop marshal reach best data env colls h ok =
    (ok + len (filter (fun c => reach c = true) colls),
     (fun c => (c, header data ++ data)) <$> filter (fun c => reach c = true) colls, h).
Proof.
  revert ok. induction colls as [|c colls IH]; intros ok Hc; cbn [push_loop]; [by rewrite Z.add_0_r|].
  assert (negb (String.eqb c best) && bool_decide (is_Some (latency_of h env)) = false) as ->.
  { destruct (Hc c ltac:(left)) as [->| ->]; [by rewrite String.eqb_refl | by rewrite andb_false_r]. }
  unfold tryPush. rewrite filter_cons. destruct (reach c).
  - rewrite IH by (intros; apply Hc; by right). rewrite decide_True by done. cbn [fmap list_fmap length app].
    match goal with |- (?a, _, _) = (?b, _, _) => assert (a = b) as -> by lia end. done.
  - rewrite IH by (intros; apply Hc; by right). by rewrite decide_False.
Qed.

Lemma push_loop_app reach best data env l1 l2 h ok :
  push_loop marshal reach best data env (l1 ++ l2) h ok =
    (let '(ok1, ms1, h1) := push_loop marshal reach best data env l1 h ok in
     let '(ok2, ms2, h2) := push_loop marshal reach best data env l2 h1 ok1 in (ok2, ms1 ++ ms2, h2)).
Proof.
  revert h ok. induction l1 as [|c l1 IH]; intros h ok; cbn [push_loop app].
  - by destruct (push_loop _ _ _ _ _ _ _ _) as [[? ?] ?].
  - cbv zeta. destruct (tryPush _ _ _) as [p m]. rewrite IH.
    destruct (push_loop _ _ _ _ _ l1 _ _) as [[ok1 ms1] h1]. destruct (push_loop _ _ _ _ _ l2 _ _) as [[ok2 ms2] h2].
    by rewrite app_assoc.
Qed.

Lemma existsb_filter (f : string -> bool) l : existsb f l = (0 <? len (filter (fun c => f c = true) l)).
Proof.
  induction l as [|c l IH]; cbn [existsb]; [done|]. rewrite filter_cons. destruct (f c).
  - rewrite decide_True by done. cbn [orb length]. symmetry. apply Z.ltb_lt. lia.
  - rewrite decide_False by done. exact IH.
Qed.

Definition payloads (reach : string -> bool) (full : list byte) (colls : list string) : list message :=
  (fun c => (c, header full ++ full)) <$> filter (fun c => reach c = true) colls.

(** A sample with latencies is pushed to every collector, and all but
    one get the latencies: the first collector in the list that is not the
    nearest one gets the stripped copy, but the copy shares the sample, so
    that the latencies are gone from the sample the reporter keeps, and every
    later collector is sent the full message. *)
Theorem stripping_shared_sample reach rtts ps env r s m pre c post full stripped :
  e_Metrics env = Some s -> heap r !! addr s = Some m -> is_Some (PeerLatency m) ->
  collectors r = pre ++ c :: post ->
  let best := bestCollector rtts (collectors r) in
  Forall (fun p => p = best) pre -> c <> best ->
  marshal (MkEnvelope (SourceID env) (Sequence env) (Forwarded env) (Some m)) = Ok full ->
  marshal (MkEnvelope (SourceID env) (Sequence env) (Forwarded env) (Some (set_PeerLatency None m))) = Ok stripped ->
  exists r', pushToCollectors marshal reach rtts ps env r =
    (existsb reach (collectors r),
     payloads reach full pre ++ payloads reach stripped [c] ++ payloads reach full post, r') /\
    heap r' !! addr s = Some (set_PeerLatency None m) /\ r' = r_set_heap (heap r') r.
Proof.
  intros Hs Hm Hl Hc best Hpre Hbest Hfull Hstr. unfold pushToCollectors.
  assert (deref (heap r) env = MkEnvelope (SourceID env) (Sequence env) (Forwarded env) (Some m)) as ->
    by (unfold deref; rewrite Hs; cbn; by rewrite Hm). rewrite Hfull.
  destruct (collectors r) as [|c0 l0] eqn:Ecoll; [by destruct pre|]. fold best. rewrite Hc.
  rewrite push_loop_app, push_loop_full; [|intros p Hp; left; rewrite Forall_forall in Hpre; by apply Hpre].
  cbv iota. cbn [push_loop].
  assert (latency_of (heap r) env = PeerLatency m) as -> by (unfold latency_of; rewrite Hs; cbn; by rewrite Hm).
  rewrite (proj2 (String.eqb_neq _ _)) by done. rewrite bool_decide_eq_true_2 by done. cbn [negb andb].
  assert (drop_latency env (heap r) !! addr s = Some (set_PeerLatency None m)) as Hd
    by (unfold drop_latency; rewrite Hs, lookup_alter, decide_True by done; by rewrite Hm).
  assert (deref (drop_latency env (heap r)) env = MkEnvelope (SourceID env) (Sequence env) (Forwarded env) (Some (set_PeerLatency None m))) as ->
    by (unfold deref; rewrite Hs; cbn; by rewrite Hd). rewrite Hstr.
  assert (forall k, push_loop marshal reach best full env post (drop_latency env (heap r)) k =
    (k + len (filter (fun c => reach c = true) post), payloads reach full post, drop_latency env (heap r))) as Hpost.
  { intros k. apply push_loop_full. intros p _. right. unfold latency_of. rewrite Hs. cbn. by rewrite Hd. }
  exists (r_set_heap (drop_latency env (heap r)) r). split_and!; [|exact Hd | done].
  rewrite existsb_app. cbn [existsb]. rewrite !existsb_filter. unfold tryPush. fold (payloads reach full pre).
  unfold payloads at 3. rewrite filter_cons, filter_nil.
  destruct (reach c); rewrite Hpost; [rewrite decide_True by done | rewrite decide_False by done];
    cbn [fmap list_fmap orb app];
    (match goal with |- (?x, _, _) = (?y, _, _) => assert (x = y) as -> end); [|done| |done]; rewrite ?orb_true_r;
    [apply Z.ltb_lt; lia|]. 
  destruct (Z.ltb_spec 0 (len (filter (fun c => reach c = true) pre))), (Z.ltb_spec 0 (len (filter (fun c => reach c = true) post)));
    cbn; first [apply Z.ltb_lt; lia | apply Z.ltb_ge; lia].
Qed.
End Push.

(** ** A reporter that starts again *)
Section Restart.
Context {Sys : Type} (marshal : MetricEnvelope (@Metrics Sys) -> result string (list byte))
  (unmarshal : list byte -> result string (MetricEnvelope (@Metrics Sys))).

(** The bytes of a message arrive at a collector that handles nothing else. *)
Definition deliver (now : Z) (listed : list string) (bytes : list byte) (a : @Aggregator Sys)
  : option (list (string * MetricEnvelope Metrics) * Aggregator) :=
  match fst (ReadEnvelope unmarshal (MkConn [bytes] AtEOF [] None None false)) with
  | Ok env => handlePush now listed env a
  | Err _ => Some ([], a)
  end.

Fixpoint cycles (ws : list (@surroundings Sys)) (r : @Reporter Sys) : list message * Reporter :=
  match ws with
  | [] => ([], r)
  | w :: ws =>
      let '(ms, r) := collectAndPush marshal w r in
      let '(ms', r) := cycles ws r in (ms ++ ms', r)
  end.

(** A message is the frame of an envelope of this node with this sequence, or
    of nothing. *)
Definition frames (node : string) (seq : Z) (bytes : list byte) : Prop :=
  exists d, bytes = header d ++ d /\
    (d = [] \/ exists env, marshal env = Ok d /\ SourceID env = node /\ Sequence env = seq).

Lemma push_loop_frames reach best data env colls h ok c bytes node seq :
  SourceID env = node -> Sequence env = seq ->
  (exists e, marshal e = Ok data /\ SourceID e = node /\ Sequence e = seq) ->
  (c, bytes) ∈ (push_loop marshal reach best data env colls h ok).1.2 -> frames node seq bytes.
Proof.
  intros Hsrc Hseq Hdata. revert h ok. induction colls as [|x colls IH]; intros h ok; cbn [push_loop]; [by intros ?%elem_of_nil|].
  cbv zeta. set (strip := _ && _). set (h' := if strip then drop_latency env h else h).
  set (payload := if strip then _ else data).
  assert (payload = [] \/ exists e, marshal e = Ok payload /\ SourceID e = node /\ Sequence e = seq) as Hp.
  { subst payload. destruct strip; [|by right]. destruct (marshal (deref h' env)) eqn:E; [right; by exists (deref h' env) | by left]. }
  clearbody payload strip. unfold tryPush. destruct (reach x).
  - specialize (IH h' (ok + 1)). destruct (push_loop _ _ _ _ _ _ _ _) as [[o ms] h2]. cbn in *.
    intros [[= -> ->]|H]%elem_of_cons; [by exists payload | by apply IH].
  - specialize (IH h' ok). destruct (push_loop _ _ _ _ _ _ _ _) as [[o ms] h2]. cbn in *. exact IH.
Qed.

Lemma push_frames reach rtts ps env r c bytes :
  (c, bytes) ∈ (pushToCollectors marshal reach rtts ps env r).1.2 -> frames (SourceID env) (Sequence env) bytes.
Proof.
  unfold pushToCollectors. destruct (marshal _) as [data|] eqn:E; [|by intros ?%elem_of_nil]. cbv zeta.
  destruct (match collectors r with [] => _ | _ :: _ => _ end) as [|x l]; [by intros ?%elem_of_nil|].
  destruct (push_loop _ _ _ _ _ _ _ _) as [[ok ms] h] eqn:Ep. cbn. intros H.
  eapply (push_loop_frames reach _ data env (x :: l) (heap r) 0); [reflexivity | reflexivity | by exists (deref (heap r) env) |].
  by rewrite Ep.
Qed.
Lemma push_same reach rtts ps env r :
  let r' := (pushToCollectors marshal reach rtts ps env r).2 in sequence r' = sequence r /\ nodeID r' = nodeID r.
Proof.
  unfold pushToCollectors. destruct (marshal _); [|done]. cbv zeta.
  destruct (match collectors r with [] => _ | _ :: _ => _ end); [done|]. by destruct (push_loop _ _ _ _ _ _ _ _) as [[? ?] ?].
Qed.

Lemma cycle_frames w r : 0 <= sequence r < 2 ^ 64 - 1 ->
  let '(ms, r') := collectAndPush marshal w r in
  nodeID r' = nodeID r /\ sequence r <= sequence r' <= sequence r + 1 /\
  forall c bytes, (c, bytes) ∈ ms -> frames (nodeID r) (sequence r') bytes.
Proof.
  intros Hs. unfold collectAndPush, collect. destruct (collected w) as [m|]; cbv zeta;
    [|split_and!; [done | lia | lia | by intros ? ? ?%elem_of_nil]].
  assert (u64 (sequence r + 1) = sequence r + 1) as -> by (unfold u64; rewrite Z.mod_small; lia).
  match goal with |- context [push_collected _ _ _ ?x] => set (r1 := x) end. set (s := MkSample _ _).
  assert (nodeID r1 = nodeID r /\ sequence r1 = sequence r + 1) as [En Eq] by done. clearbody r1 s. unfold push_collected.
  destruct (collectors r1); [rewrite En, Eq; split_and!; [done | lia | lia | by intros ? ? ?%elem_of_nil]|].
  pose proof (push_frames (reach w) (rtt_push w) (peers w) (MkEnvelope (nodeID r1) (sequence r1) false (Some s)) r1) as Hf.
  pose proof (push_same (reach w) (rtt_push w) (peers w) (MkEnvelope (nodeID r1) (sequence r1) false (Some s)) r1) as [H1 H2].
  destruct (pushToCollectors _ _ _ _ _ _) as [[p ms] r2]. cbn in *. rewrite En, Eq in *.
  assert (nodeID (if p then r2 else r_set_bufferedCount (i64 (bufferedCount r2 + 1)) r2) = nodeID r) as -> by (by destruct p).
  assert (sequence (if p then r2 else r_set_bufferedCount (i64 (bufferedCount r2 + 1)) r2) = sequence r + 1) as -> by (by destruct p).
  split_and!; [done | lia | lia | exact Hf].
Qed.

Lemma cycles_frames ws r c bytes : 0 <= sequence r -> sequence r + len ws < 2 ^ 64 ->
  (c, bytes) ∈ (cycles ws r).1 ->
  exists seq, seq <= sequence r + len ws /\ frames (nodeID r) seq bytes.
Proof.
  revert r. induction ws as [|w ws IH]; intros r H0 H1; cbn [cycles length] in *; [by intros ?%elem_of_nil|].
  pose proof (cycle_frames w r ltac:(lia)) as Hc. destruct (collectAndPush marshal w r) as [ms r1]. destruct Hc as (Hn & Hs & Hf).
  specialize (IH r1). destruct (cycles ws r1) as [ms' r2]. cbn in *.
  intros [H|H]%elem_of_app.
  - exists (sequence r1). split; [lia | by eapply Hf].
  - destruct IH as (q & Hq & Hfq); [lia | lia | done |]. exists q. split; [lia | by rewrite <-Hn].
Qed.

(** A reporter counts from zero when it is started again, but a collector
    remembers the last sequence of a source: as long as the new count has not
    passed the old one, every message of the new reporter is read, found to
    be a duplicate and dropped; nothing is stored or forwarded. *)
Theorem restarted_reporter_ignored a n node colls seconds prt ws c bytes now listed :
  (forall env d, marshal env = Ok d -> len d < 2 ^ 32 /\
     exists e, unmarshal d = Ok e /\ SourceID e = SourceID env /\ Sequence e = Sequence env) ->
  dedup a !! node = Some n -> len ws <= n < 2 ^ 64 ->
  (c, bytes) ∈ (cycles ws (NewReporter node colls seconds prt)).1 ->
  deliver now listed bytes a = Some ([], a).
Proof.
  intros Hcodec Hd Hn Hin. apply cycles_frames in Hin as (seq & Hseq & d & -> & Hfr); [|cbn; lia|cbn; lia].
  cbn [NewReporter nodeID sequence] in *. unfold deliver.
  set (conn := MkConn _ _ _ _ _ _). assert (v_in (view conn) = header d ++ d ++ []) as Hv
    by (subst conn; cbn; by rewrite !app_nil_r).
  assert (len d < 2 ^ 32) as Hlen by (destruct Hfr as [-> | (env & Hm & _)]; [cbn; lia | by destruct (Hcodec env d Hm)]).
  destruct (ReadEnvelope_frame unmarshal d [] conn Hlen Hv) as [Hok Hbad].
  destruct (decide (0 < len d <= maxEnvelope)) as [Hr|Hr].
  - destruct Hfr as [-> | (env & Hm & Hsrc & Hsq)]; [cbn in Hr; lia|].
    destruct (Hcodec env d Hm) as (_ & e & Hu & He1 & He2). destruct (Hok Hr) as (r' & -> & _). rewrite Hu. cbn [fst].
    unfold handlePush. destruct (acceptable e a); cbn [negb]; [|done]. unfold dedup_check. cbv zeta.
    rewrite He1, Hsrc, Hd, He2, Hsq. rewrite (proj2 (Z.leb_le _ _)) by lia. done.
  - destruct (Hbad Hr) as (e & r' & ->). done.
Qed.
End Restart.

(** ** Concrete runs *)

Definition no_traffic : TrafficMetrics := MkTraffic 0 0 0 0 0 0 0.
Definition a_sample (t : Z) (l : option (gmap string Z)) : @Metrics unit := MkMetrics t "n" "host" tt no_traffic l.

(** A codec that keeps the source and the sequence only. *)
Definition small_marshal (env : MetricEnvelope (@Metrics unit)) : result string (list byte) :=
  if (0 <=? Sequence env) && (Sequence env <? 2 ^ 64) && (strlen (SourceID env) <? 2 ^ 20)
  then Ok (be_bytes 8 (Sequence env) ++ bytes_of_string (SourceID env)) else Err "too large"%string.
Definition small_unmarshal (d : list byte) : result string (MetricEnvelope (@Metrics unit)) :=
  Ok (MkEnvelope (string_of_bytes (drop 8 d)) (be_Z (take 8 d)) false (Some (a_sample 1 None))).

Lemma small_codec env d : small_marshal env = Ok d -> len d < 2 ^ 32 /\
  exists e, small_unmarshal d = Ok e /\ SourceID e = SourceID env /\ Sequence e = Sequence env.
Proof.
  unfold small_marshal. destruct (_ && _) eqn:E; [|done]. intros H.
  assert (be_bytes 8 (Sequence env) ++ bytes_of_string (SourceID env) = d) as <- by congruence. clear H.
  apply andb_true_iff in E as [[H1%Z.leb_le H2%Z.ltb_lt]%andb_true_iff H3%Z.ltb_lt]. unfold strlen in H3. split.
  - rewrite length_app, be_bytes_length. lia.
  - eexists. split; [reflexivity|]. cbn [SourceID Sequence].
    rewrite drop_app_length' by (by rewrite be_bytes_length). rewrite take_app_length' by (by rewrite be_bytes_length).
    split; [apply string_of_bytes_of_string | by apply be_Z_u64].
Qed.

Lemma envelope_roundtrip_witness :
  let env := MkEnvelope "n" 7 false (Some (a_sample 1 None)) in
  let d := be_bytes 8 7 ++ bytes_of_string "n" in
  (exists r, WriteEnvelope small_marshal env (MkConn [] AtEOF [] None None false) = (None, r)) /\
  (exists r, ReadEnvelope small_unmarshal (MkConn [take 3 (header d ++ d); drop 3 (header d ++ d)] AtEOF [] None None false) = (Ok env, r)).
Proof.
  cbv zeta. destruct (envelope_roundtrip small_marshal small_unmarshal (MkEnvelope "n" 7 false (Some (a_sample 1 None)))
    (be_bytes 8 7 ++ bytes_of_string "n") (MkConn [] AtEOF [] None None false)
    (MkConn [take 3 (header (be_bytes 8 7 ++ bytes_of_string "n") ++ be_bytes 8 7 ++ bytes_of_string "n");
             drop 3 (header (be_bytes 8 7 ++ bytes_of_string "n") ++ be_bytes 8 7 ++ bytes_of_string "n")] AtEOF [] None None false) [])
    as [(r1 & H1 & _) (r2 & H2 & _)]; [reflexivity | reflexivity | | reflexivity | reflexivity |].
  - split; [reflexivity | discriminate].
  - split; [exists r1; exact H1 | exists r2; exact H2].
Defined.

Definition collector_cfg : AggregatorConfig := MkAggConfig 0 None true true "me" true.
Definition collector0 : @Aggregator unit := snd (a_Start None (NewAggregator collector_cfg None)).

(** Two pushes of one envelope and one of a stranger, handled side by side: the
    second is overtaken and dropped, the stranger is refused, and the first is
    stored and sent to the one other collector. *)
Definition guarded_collector : @Aggregator unit :=
  snd (a_Start None (NewAggregator (MkAggConfig 0 (Some (String.eqb "n")) true true "me" true) None)).
Definition push_of (source : string) (seq : Z) : MetricEnvelope (@Metrics unit) :=
  MkEnvelope source seq false (Some (a_sample 1 None)).
Definition admitted_collector : @Aggregator unit :=
  a_set_dedup {["n"%string := 7]} (Some {["n"%string := 5]}) guarded_collector.
Definition pushed : world (Sys := unit) :=
  MkWorld (store_metrics 6 (push_of "n" 7) admitted_collector) [] [push_of "n" 7]
    [("b"%string, MkEnvelope "n" 7 true (Some (a_sample 1 None)))].

Lemma pushed_reached : rtc step (MkWorld guarded_collector [] [] []) pushed.
Proof.
  eapply rtc_l; [apply (step_arrive (push_of "n" 7))|]. eapply rtc_l; [apply (step_arrive (push_of "n" 7))|].
  eapply rtc_l; [apply (step_arrive (push_of "x" 1))|]. cbn [app].
  eapply rtc_l; [apply (step_admit 0 (push_of "n" 7) _ admitted_collector _ _ _ 5); reflexivity|].
  eapply rtc_l; [apply (step_duplicate 1 (push_of "n" 7) _ admitted_collector _ _ _ 6); reflexivity|].
  eapply rtc_l; [apply (step_reject 1 (push_of "x" 1)); reflexivity|].
  eapply rtc_l; [apply (step_store 0 (push_of "n" 7) _ _ _ _ 6); reflexivity|].
  eapply rtc_l; [apply (step_forward 0 (push_of "n" 7) _ _ _ _ ["me"; "b"]%string); reflexivity|].
  apply rtc_refl.
Qed.

Lemma aggregator_stores_once_witness :
  (length (storedLog pushed) = 1%nat /\ length (sentLog pushed) = 1%nat) /\
  NoDup (id_of <$> storedLog pushed) /\
  (forall env, env ∈ storedLog pushed -> acceptable env guarded_collector = true) /\
  (forall p e, (p, e) ∈ sentLog pushed -> Forwarded e = true /\ p <> selfPeerID (a_cfg guarded_collector) /\
     exists e0, e0 ∈ storedLog pushed /\ Forwarded e0 = false /\
       e = MkEnvelope (SourceID e0) (Sequence e0) true (e_Metrics e0)) /\
  (forall now env, is_Some (dedup_check now env (agg pushed))).
Proof.
  split; [split; reflexivity|].
  apply (aggregator_stores_once guarded_collector pushed); [exists ∅; reflexivity | apply pushed_reached].
Defined.

(** A reporter with one sample in its heap and three collectors. *)
Definition some_latency : gmap string Z := {["b"%string := 40]}.
Definition three_collectors : @Reporter unit :=
  r_set_heap {[0%nat := a_sample 1 (Some some_latency)]} (NewReporter "n" ["a"; "b"; "c"]%string 30 0).
Definition one_envelope : MetricEnvelope sample := MkEnvelope "n" 1 false (Some (MkSample 0 1)).

Lemma stripping_shared_sample_witness :
  bestCollector (Some some_latency) ["a"; "b"; "c"]%string = "b"%string /\
  exists r', (pushToCollectors small_marshal (fun _ => true) (Some some_latency) None one_envelope three_collectors).2 = r' /\
    heap r' !! 0%nat = Some (a_sample 1 None).
Proof.
  split; [vm_compute; reflexivity|].
  destruct (stripping_shared_sample small_marshal (fun _ => true) (Some some_latency) None one_envelope three_collectors
    (MkSample 0 1) (a_sample 1 (Some some_latency)) [] "a" ["b"; "c"]%string
    (be_bytes 8 1 ++ bytes_of_string "n") (be_bytes 8 1 ++ bytes_of_string "n")) as (r' & H1 & H2 & _).
  - reflexivity.
  - reflexivity.
  - exists some_latency. reflexivity.
  - reflexivity.
  - constructor.
  - vm_compute. discriminate.
  - reflexivity.
  - reflexivity.
  - exists r'. split; [rewrite H1; reflexivity | exact H2].
Defined.

Definition cycle_of (t : Z) : @surroundings unit :=
  MkSurroundings (Ok (a_sample t None)) None None None (fun _ => true) None t.
Definition remembers (n : Z) : @Aggregator unit := a_set_dedup {["n"%string := n]} (Some {["n"%string := 0]}) collector0.

Lemma restarted_reporter_ignored_witness :
  let ms := (cycles small_marshal [cycle_of 1; cycle_of 2] (NewReporter "n" ["me"%string] 30 0)).1 in
  length ms = 2%nat /\
  match ms with (_, bytes) :: _ => deliver small_unmarshal 5 [] bytes (remembers 100) = Some ([], remembers 100) | [] => False end.
Proof.
  split; [vm_compute; reflexivity|].
  destruct (cycles small_marshal [cycle_of 1; cycle_of 2] (NewReporter "n" ["me"%string] 30 0)).1 as [|[c bytes] ms] eqn:E;
    [vm_compute in E; discriminate|].
  apply (restarted_reporter_ignored small_marshal small_unmarshal (remembers 100) 100 "n" ["me"%string] 30 0
    [cycle_of 1; cycle_of 2] c bytes 5 []).
  - exact small_codec.
  - reflexivity.
  - split; [discriminate | reflexivity].
  - rewrite E. left.
Defined.

(** [FlushBuffer] sends samples again that were delivered: a cycle that
    reached its collector, followed by a flush, makes the collector store the
    one sample of the node twice, under two sequences. *)
Example flush_resends_delivered :
  let '(ms, r) := cycles small_marshal [cycle_of (2 * 10 ^ 9)] (NewReporter "n" ["me"%string] 30 0) in
  let '(n, ms', r') := FlushBuffer small_marshal (fun _ => true) (3 * 10 ^ 9) r in
  let run a m := a ← a; snd <$> deliver small_unmarshal 5 [] m.2 a in
  n = 1 /\
  match foldl run (Some collector0) (ms ++ ms') with
  | Some a => (fun rb => length (HighRes rb)) <$> buffers (a_store a) !! "n"%string = Some 2%nat
  | None => False
  end.
Proof. vm_compute. done. Qed.

(** A flush between the increment and the push gives the sample of the cycle
    the sequence of the flushed one. *)
Example flush_takes_sequence :
  match collect (cycle_of (2 * 10 ^ 9)) (NewReporter "n" ["me"%string] 30 0) with
  | Some (s, r) =>
      let '(_, ms, r) := FlushBuffer small_marshal (fun _ => true) (3 * 10 ^ 9) r in
      let '(ms', _) := push_collected small_marshal (cycle_of (2 * 10 ^ 9)) s r in
      (snd <$> ms) = (snd <$> ms')
  | None => False
  end.
Proof. vm_compute. done. Qed.

(** A listener that fails leaves the aggregator running. *)
Lemma failed_Start_blocks {Sys} e (a : @Aggregator Sys) listen :
  a_running a = false ->
  fst (a_Start listen (snd (a_Start (Some e) a))) = Err "aggregator already running"%string.
Proof. intros H. unfold a_Start at 2. rewrite H. cbv zeta. cbn [snd]. reflexivity. Qed.

(** Without collectors the peer lister is not asked. *)
Lemma no_collectors_no_push {Sys} marshal (w : @surroundings Sys) r : collectors r = [] -> (collectAndPush marshal w r).1 = [].
Proof.
  intros H. unfold collectAndPush, collect. destruct (collected w); [|done]. cbv zeta. unfold push_collected.
  cbn [collectors r_set_store r_set_sequence]. by rewrite H.
Qed.

End Reporting.
