(* ===== verification/MeshRelay.v ===== *)
(** * Relay tunnels of the mesh (internal/mesh/relay_protocol.go, relay_handler.go)

    A relay bridges the stream of an initiator to a stream of the target. Its
    table of tunnels is shared by the handlers of all streams, which run side
    by side: each is a program of atomic actions, one per section under the
    lock or access to an atomic. Connections are numbers; msgpack and what the
    peers answer are arguments. *)
From stdpp Require Import prelude gmap list strings.
From Stdlib Require Import Strings.Byte ZArith Lia.
From S2P Require Import Prelude Conc GoBytes GoNet GoSort.
Local Open Scope Z_scope.
Local Open Scope prog_scope.

Module MeshRelay.

(** ** Messages *)

Definition MeshRelayVirtualPort : Z := 0x524C.
Definition MsgRelayRequest : Z := 1.
Definition MsgRelayAccept : Z := 2.
Definition MsgRelayReject : Z := 3.
Definition MsgRelayDial : Z := 4.
Definition MsgRelayTeardown : Z := 5.
Definition MsgRelayHeartbeat : Z := 6.
Definition MsgType_String (t : Z) : string :=
  if t =? MsgRelayRequest then "RELAY_REQUEST"
  else if t =? MsgRelayAccept then "RELAY_ACCEPT"
  else if t =? MsgRelayReject then "RELAY_REJECT"
  else if t =? MsgRelayDial then "RELAY_DIAL"
  else if t =? MsgRelayTeardown then "RELAY_TEARDOWN"
  else if t =? MsgRelayHeartbeat then "RELAY_HEARTBEAT"
  else "UNKNOWN(" +:+ itoa t +:+ ")".

Record MeshRelayRequest : Type := MkRequest {
  q_Type : Z; q_TunnelID : string; q_TargetKey : string; q_InitiatorKey : string; q_Port : Z; q_Timestamp : Z;
  q_Path : list string
}.
Record MeshRelayResponse : Type := MkResponse {
  p_Type : Z; p_TunnelID : string; RejectReason : string; p_Timestamp : Z
}.
Record MeshRelayDial : Type := MkDialMsg {
  d_Type : Z; d_TunnelID : string; d_InitiatorKey : string; d_Port : Z; d_Timestamp : Z
}.
Record MeshRelayTeardown : Type := MkTeardown { t_Type : Z; t_TunnelID : string; t_Timestamp : Z }.
Record MeshRelayHeartbeat : Type := MkHeartbeat { b_Type : Z; b_TunnelID : string; b_Timestamp : Z }.

Inductive relay_msg : Type :=
| Request (m : MeshRelayRequest) | Response (m : MeshRelayResponse) | Dial (m : MeshRelayDial)
| Teardown (m : MeshRelayTeardown) | Heartbeat (m : MeshRelayHeartbeat).

Section Codec.
(** The decoder of msgpack, for the type field and for each message. *)
Variable peek : list byte -> result string Z.
Variable as_request : list byte -> result string MeshRelayRequest.
Variable as_response : list byte -> result string MeshRelayResponse.
Variable as_dial : list byte -> result string MeshRelayDial.
Variable as_teardown : list byte -> result string MeshRelayTeardown.
Variable as_heartbeat : list byte -> result string MeshRelayHeartbeat.

Definition decoded {T} (what : string) (c : T -> relay_msg) (r : result string T) : result string relay_msg :=
  match r with Err e => Err ("mesh relay: decode " +:+ what +:+ ": " +:+ e)%string | Ok m => Ok (c m) end.

Definition unmarshalRelayMsg (data : list byte) : result string relay_msg :=
  match peek data with
  | Err e => Err ("mesh relay: decode type: " +:+ e)%string
  | Ok t =>
      if t =? MsgRelayRequest then decoded "request" Request (as_request data)
      else if (t =? MsgRelayAccept) || (t =? MsgRelayReject) then decoded "response" Response (as_response data)
      else if t =? MsgRelayDial then decoded "dial" Dial (as_dial data)
      else if t =? MsgRelayTeardown then decoded "teardown" Teardown (as_teardown data)
      else if t =? MsgRelayHeartbeat then decoded "heartbeat" Heartbeat (as_heartbeat data)
      else Err ("mesh relay: unknown message type " +:+ itoa t)%string
  end.
(** [raw] is the value the decoder found on the stream. *)
Definition readRelayMessage (raw : result string (list byte)) : result string relay_msg :=
  match raw with
  | Err e => Err ("read relay message: " +:+ e)%string
  | Ok data => unmarshalRelayMsg data
  end.
End Codec.

Definition RelayRejectAtCapacity : string := "at_capacity".
Definition RelayRejectNoSessionToTarget : string := "no_session_to_target".
Definition RelayRejectTargetRejected : string := "target_rejected".
Definition RelayRejectInvalidTarget : string := "invalid_target".
Definition RelayRejectDuplicateTunnel : string := "duplicate_tunnel".
Definition RelayRejectNotRelayCapable : string := "not_relay_capable".

(** ** The handler's state *)

Definition second : Z := 10 ^ 9.
Definition DefaultMaxRelayTunnels : Z := 256.
Definition DefaultRelayIdleTimeout : Z := 30 * second.
Definition DefaultRelayHeartbeatInterval : Z := 30 * second.
Definition staleHalfOpenTimeout : Z := 30 * second.

(** [once] tells that the closing function ran, which closes [done]. *)
Record relayTunnel : Type := MkTunnel {
  ID : string; InitiatorKey : string; TargetKey : string; InitiatorConn : nat; TargetConn : option nat;
  CreatedAt : Z; LastActivity : Z; started : bool; once : bool
}.
Definition set_TargetConn (c : nat) (t : relayTunnel) : relayTunnel :=
  MkTunnel (ID t) (InitiatorKey t) (TargetKey t) (InitiatorConn t) (Some c) (CreatedAt t) (LastActivity t) (started t) (once t).
Definition set_LastActivity (x : Z) (t : relayTunnel) : relayTunnel :=
  MkTunnel (ID t) (InitiatorKey t) (TargetKey t) (InitiatorConn t) (TargetConn t) (CreatedAt t) x (started t) (once t).
Definition set_started (t : relayTunnel) : relayTunnel :=
  MkTunnel (ID t) (InitiatorKey t) (TargetKey t) (InitiatorConn t) (TargetConn t) (CreatedAt t) (LastActivity t) true (once t).
Definition set_once (t : relayTunnel) : relayTunnel :=
  MkTunnel (ID t) (InitiatorKey t) (TargetKey t) (InitiatorConn t) (TargetConn t) (CreatedAt t) (LastActivity t) (started t) true.

(** Tunnels are pointers into [heap]. [sent] are the messages written and to
    whom, [bridges] the pairs of streams that copy goroutines were started
    for, [crashed] that a handler panicked, which ends the process. *)
Record RelayHandler : Type := MkHandler {
  localKey : string; heap : gmap nat relayTunnel; tunnels : gmap string nat; maxTunnels : Z; idleTimeout : Z;
  closed : bool; clock : Z; closedConns : gset nat; sent : list (nat * relay_msg);
  bridges : list (nat * nat * nat); dialled : list (nat * MeshRelayDial); crashed : bool
}.
Definition s_heap (x : gmap nat relayTunnel) (s : RelayHandler) : RelayHandler :=
  MkHandler (localKey s) x (tunnels s) (maxTunnels s) (idleTimeout s) (closed s) (clock s) (closedConns s) (sent s)
    (bridges s) (dialled s) (crashed s).
Definition s_tunnels (x : gmap string nat) (s : RelayHandler) : RelayHandler :=
  MkHandler (localKey s) (heap s) x (maxTunnels s) (idleTimeout s) (closed s) (clock s) (closedConns s) (sent s)
    (bridges s) (dialled s) (crashed s).
Definition s_closed (s : RelayHandler) : RelayHandler :=
  MkHandler (localKey s) (heap s) (tunnels s) (maxTunnels s) (idleTimeout s) true (clock s) (closedConns s) (sent s)
    (bridges s) (dialled s) (crashed s).
Definition s_clock (x : Z) (s : RelayHandler) : RelayHandler :=
  MkHandler (localKey s) (heap s) (tunnels s) (maxTunnels s) (idleTimeout s) (closed s) x (closedConns s) (sent s)
    (bridges s) (dialled s) (crashed s).
Definition s_close_conns (l : list nat) (s : RelayHandler) : RelayHandler :=
  MkHandler (localKey s) (heap s) (tunnels s) (maxTunnels s) (idleTimeout s) (closed s) (clock s)
    (closedConns s ∪ list_to_set l) (sent s) (bridges s) (dialled s) (crashed s).
Definition s_send (c : nat) (m : relay_msg) (s : RelayHandler) : RelayHandler :=
  MkHandler (localKey s) (heap s) (tunnels s) (maxTunnels s) (idleTimeout s) (closed s) (clock s) (closedConns s)
    (sent s ++ [(c, m)]) (bridges s) (dialled s) (crashed s).
Definition s_bridge (b : nat * nat * nat) (s : RelayHandler) : RelayHandler :=
  MkHandler (localKey s) (heap s) (tunnels s) (maxTunnels s) (idleTimeout s) (closed s) (clock s) (closedConns s)
    (sent s) (bridges s ++ [b]) (dialled s) (crashed s).
Definition s_dialled (b : nat * MeshRelayDial) (s : RelayHandler) : RelayHandler :=
  MkHandler (localKey s) (heap s) (tunnels s) (maxTunnels s) (idleTimeout s) (closed s) (clock s) (closedConns s)
    (sent s) (bridges s) (dialled s ++ [b]) (crashed s).
Definition s_crash (s : RelayHandler) : RelayHandler :=
  MkHandler (localKey s) (heap s) (tunnels s) (maxTunnels s) (idleTimeout s) (closed s) (clock s) (closedConns s)
    (sent s) (bridges s) (dialled s) true.

Definition NewRelayHandler (key : string) (now : Z) : RelayHandler :=
  MkHandler key ∅ ∅ DefaultMaxRelayTunnels DefaultRelayIdleTimeout false now ∅ [] [] [] false.

Abbreviation go := (prog RelayHandler).
Definition upd (f : RelayHandler -> RelayHandler) : go unit := act (fun s => [(f s, tt)]).
Definition get {A} (f : RelayHandler -> A) : go A := act (fun s => [(s, f s)]).
Definition done : go unit := Ret tt.

Definition closeConn (c : nat) : go unit := upd (s_close_conns [c]).
Definition modify (ref : nat) (f : relayTunnel -> relayTunnel) (s : RelayHandler) : RelayHandler :=
  s_heap (alter f ref (heap s)) s.

(** [closeOnce.Do] with a function that closes [done] and these streams. *)
Definition close_once (conns : relayTunnel -> list nat) (ref : nat) (s : RelayHandler) : RelayHandler :=
  match heap s !! ref with
  | Some t => if once t then s else s_close_conns (conns t) (modify ref set_once s)
  | None => s
  end.
Definition both (t : relayTunnel) : list nat :=
  InitiatorConn t :: match TargetConn t with Some c => [c] | None => [] end.

(** ** Operations *)

Definition take_tunnel (id : string) (s : RelayHandler) : RelayHandler * option nat :=
  (s_tunnels (delete id (tunnels s)) s, tunnels s !! id).
Definition removeTunnel (id : string) : go unit :=
  r <- act (fun s => [take_tunnel id s]);;
  match r with Some ref => upd (close_once both ref) | None => done end.

Definition sendResponse (c : nat) (id : string) (accept : bool) (reason : string) : go unit :=
  upd (fun s => s_send c (Response (MkResponse (if accept then MsgRelayAccept else MsgRelayReject) id reason (clock s))) s).
(** What a refused request gets. *)
Definition refuse (c : nat) (id : string) (reason : string) : go unit :=
  sendResponse c id false reason ;;; removeTunnel id ;;; closeConn c.

(** Half-open tunnels that waited too long, removed under the lock. *)
Definition stale (s : RelayHandler) (ref : nat) : bool :=
  match heap s !! ref with
  | Some t => bool_decide (TargetConn t = None) && (CreatedAt t <? clock s - staleHalfOpenTimeout)
  | None => false
  end.
Definition evict_one (conns : relayTunnel -> list nat) (s : RelayHandler) (id : string) : RelayHandler :=
  match tunnels s !! id with
  | Some ref => close_once conns ref (s_tunnels (delete id (tunnels s)) s)
  | None => s
  end.
Definition evictStaleHalfOpen (s : RelayHandler) : RelayHandler * Z :=
  let ids := (map_to_list (filter (fun kv => stale s kv.2 = true) (tunnels s))).*1 in
  (foldl (evict_one (fun t => [InitiatorConn t])) s ids, len ids).

(** The map is visited in some order; the sort is the code's. *)
Definition created (s : RelayHandler) (ref : nat) : Z :=
  match heap s !! ref with Some t => CreatedAt t | None => 0 end.
Definition aged (s : RelayHandler) : list (string * Z) :=
  (fun kv => (kv.1, created s kv.2)) <$> map_to_list (tunnels s).
Definition evictOldest (n : Z) (s : RelayHandler) : RelayHandler * Z :=
  let candidates := insertion_sort (fun a b => a.2 <? b.2) (aged s) in
  let candidates := if n <? len candidates then take (Z.to_nat n) candidates else candidates in
  (foldl (evict_one both) s candidates.*1, len candidates).

(** [startBridge]. The two streams are read right after the flag was set;
    both callers have stored the target by then, and reading them later than
    the flag is no different from setting the flag later. The message of the
    second call cuts the identifier at 16 bytes, which panics when it is
    shorter. *)
Inductive bridged : Type := Started | Skipped | NoStream (id : string).
Definition claim (ref : nat) (s : RelayHandler) : RelayHandler * bridged :=
  match heap s !! ref with
  | None => (s, Skipped)
  | Some t =>
      if started t then (if strlen (ID t) <? 16 then s_crash s else s, Skipped)
      else
        let s := modify ref set_started s in
        match TargetConn t with
        | Some c => (s_bridge (ref, InitiatorConn t, c) s, Started)
        | None => (if strlen (ID t) <? 16 then s_crash s else s, NoStream (ID t))
        end
  end.
Definition startBridge (ref : nat) : go unit :=
  r <- act (fun s => [claim ref s]);;
  match r with NoStream id => removeTunnel id | _ => done end.

(** The goroutine of a bridge, in the pieces that others can see: a write of
    one of its copies, and its end, with or without an error of a copy; it
    waits until there is such a bridge. *)
Definition bridge_write (b : nat * nat * nat) : go unit :=
  act (fun s => if bool_decide (b ∈ bridges s) then [(modify b.1.1 (set_LastActivity (clock s)) s, tt)] else []).
Definition bridge_end (b : nat * nat * nat) (failed : bool) : go unit :=
  id <- act (fun s => if bool_decide (b ∈ bridges s) then
                        match heap s !! b.1.1 with
                        | Some t => [(if failed && (strlen (ID t) <? 16) then s_crash s else s, ID t)]
                        | None => []
                        end
                      else []);;
  upd (close_once (fun _ => [b.1.2; b.2]) b.1.1) ;;; removeTunnel id.

(** What the node and the target answer while a request is handled: whether
    there is a session to the target, the stream it opens, whether the port
    frame and the dial message can be written, the message that comes back,
    and the stream of another relay when there is no session. *)
Record answers : Type := MkAnswers {
  session : bool; stream : option nat; frame_ok : bool; dial_ok : bool; answer : result string relay_msg;
  next_hop : option nat
}.

Definition maxHops : Z := 2.
Definition multiHopRelay (w : answers) (c : nat) (req : MeshRelayRequest) (id : string) : go unit :=
  key <- get localKey;;
  let path := q_Path req ++ [key] in
  if maxHops <? len path then refuse c id "max_relay_hops_exceeded"
  else match next_hop w with
       | None => refuse c id RelayRejectNoSessionToTarget
       | Some next =>
           r <- act (fun s => match tunnels s !! id with
                              | Some ref => [(modify ref (set_TargetConn next) s, Some ref)]
                              | None => [(s, None)]
                              end);;
           match r with
           | None => closeConn next ;;; removeTunnel id ;;; closeConn c
           | Some ref => sendResponse c id true "" ;;; startBridge ref
           end
       end.

(** The capacity test with its evictions; false when the request is refused. *)
Definition make_room : go bool :=
  n <- get (fun s => Z.of_nat (size (tunnels s)));;
  m <- get maxTunnels;;
  if n <? m then Ret true
  else
    a <- act (fun s => [evictStaleHalfOpen s]);;
    b <- (if a =? 0 then act (fun s => [evictOldest 4 s]) else Ret a);;
    Ret (negb (b =? 0)).

(** The section that enters the tunnel, unless the identifier is taken. *)
Definition enter (c : nat) (req : MeshRelayRequest) (s : RelayHandler) : RelayHandler * option nat :=
  match tunnels s !! q_TunnelID req with
  | Some _ => (s, None)
  | None =>
      let ref := fresh (dom (heap s)) in
      let t := MkTunnel (q_TunnelID req) (q_InitiatorKey req) (q_TargetKey req) c None (clock s) (clock s) false false in
      (s_tunnels (<[q_TunnelID req := ref]> (tunnels s)) (s_heap (<[ref := t]> (heap s)) s), Some ref)
  end.

Definition handleRequest (w : answers) (c : nat) (req : MeshRelayRequest) : go unit :=
  let id := q_TunnelID req in
  room <- make_room;;
  if negb room then sendResponse c id false RelayRejectAtCapacity ;;; closeConn c
  else
    r <- act (fun s => [enter c req s]);;
    match r with
    | None => sendResponse c id false RelayRejectDuplicateTunnel ;;; closeConn c
    | Some ref =>
        if negb (session w) then multiHopRelay w c req id
        else match stream w with
             | None => refuse c id RelayRejectNoSessionToTarget
             | Some t =>
                 if negb (frame_ok w) then closeConn t ;;; refuse c id RelayRejectNoSessionToTarget
                 else
                   upd (fun s => s_dialled (t, MkDialMsg MsgRelayDial id (q_InitiatorKey req) (q_Port req) (clock s)) s) ;;;
                   if negb (dial_ok w) then closeConn t ;;; refuse c id RelayRejectNoSessionToTarget
                   else match answer w with
                        | Ok (Response m) =>
                            if p_Type m =? MsgRelayReject then closeConn t ;;; refuse c id RelayRejectTargetRejected
                            else
                              upd (modify ref (set_TargetConn t)) ;;;
                              sendResponse c id true "" ;;; startBridge ref
                        | _ => closeConn t ;;; refuse c id RelayRejectTargetRejected
                        end
             end
    end.

Definition handleDialBack (c : nat) (resp : MeshRelayResponse) : go unit :=
  r <- get (fun s => tunnels s !! p_TunnelID resp);;
  match r with
  | None => closeConn c
  | Some ref =>
      if p_Type resp =? MsgRelayReject then closeConn c ;;; removeTunnel (p_TunnelID resp)
      else upd (modify ref (set_TargetConn c)) ;;; startBridge ref
  end.

(** [handleDial]: the stream is then the callback's, or echoes. *)
Definition handleDial (c : nat) (d : MeshRelayDial) : go unit := sendResponse c (d_TunnelID d) true "".

Definition handleTeardown (c : nat) (td : MeshRelayTeardown) : go unit :=
  removeTunnel (t_TunnelID td) ;;; closeConn c.

(** [HandleStream] with the handshake it reads. *)
Definition HandleStream (w : answers) (c : nat) (msg : result string relay_msg) : go unit :=
  stop <- get closed;;
  if (stop : bool) then closeConn c
  else match msg with
       | Err _ => closeConn c
       | Ok (Request m) => handleRequest w c m
       | Ok (Response m) => handleDialBack c m
       | Ok (Dial m) => handleDial c m
       | Ok (Teardown m) => handleTeardown c m
       | Ok (Heartbeat _) => closeConn c
       end.

Fixpoint close_all (refs : list nat) : go unit :=
  match refs with
  | [] => done
  | ref :: refs => upd (close_once both ref) ;;; close_all refs
  end.
Definition Close : go unit :=
  upd s_closed ;;;
  refs <- act (fun s => [(s_tunnels ∅ s, (map_to_list (tunnels s)).*2)]);;
  close_all refs.

Definition TunnelCount (s : RelayHandler) : Z := Z.of_nat (size (tunnels s)).

(** A tick of the idle sweep: the streams are closed past [closeOnce]. *)
Definition idle (s : RelayHandler) (ref : nat) : bool :=
  match heap s !! ref with Some t => LastActivity t <? clock s - idleTimeout s | None => false end.
Definition sweep_one (s : RelayHandler) (kv : string * nat) : RelayHandler :=
  s_tunnels (delete kv.1 (tunnels s))
    (s_close_conns (match heap s !! kv.2 with Some t => both t | None => [] end) s).
Definition cleanupIdleTunnels (s : RelayHandler) : RelayHandler :=
  foldl sweep_one s (map_to_list (filter (fun kv => idle s kv.2 = true) (tunnels s))).
Definition sweep : go unit := upd cleanupIdleTunnels.

(** Time passes. *)
Definition pass (d : Z) : go unit := upd (fun s => s_clock (clock s + Z.max 0 d) s).

(** The goroutines of a relay. *)
Inductive spawn : go unit -> Prop :=
| sp_stream w c msg : spawn (HandleStream w c msg)
| sp_write b : spawn (bridge_write b)
| sp_end b failed : spawn (bridge_end b failed)
| sp_close : spawn Close
| sp_sweep : spawn sweep
| sp_time d : spawn (pass d).

(** ** The invariant *)

(** The table leads to tunnels of the same identifier; a tunnel is bridged at
    most once and to its own initiator; a panic needs a short identifier. *)
Record inv (s : RelayHandler) : Prop := {
  i_table id ref : tunnels s !! id = Some ref -> exists t, heap s !! ref = Some t /\ ID t = id;
  i_once : NoDup (bridges s).*1.*1;
  i_own ref i c : (ref, i, c) ∈ bridges s ->
    exists t, heap s !! ref = Some t /\ started t = true /\ InitiatorConn t = i;
  i_crash : crashed s = true -> exists ref t, heap s !! ref = Some t /\ strlen (ID t) < 16
}.

(** A change of one tunnel that keeps what the invariant speaks of. *)
Lemma inv_modify ref f s :
  (forall t, ID (f t) = ID t /\ InitiatorConn (f t) = InitiatorConn t /\ (started t = true -> started (f t) = true)) ->
  inv s -> inv (modify ref f s).
Proof.
  intros Hf [Ht Ho Hown Hc].
  assert (forall r t, heap s !! r = Some t -> exists t', alter f ref (heap s) !! r = Some t' /\ ID t' = ID t /\
    InitiatorConn t' = InitiatorConn t /\ (started t = true -> started t' = true)) as Hk.
  { intros r t E. destruct (decide (r = ref)) as [->|].
    - exists (f t). rewrite lookup_alter, decide_True, E by done. split; [done | apply Hf].
    - exists t. by rewrite lookup_alter_ne. }
  split; cbn; try done.
  - intros id r E. destruct (Ht id r E) as (t & Et & <-). destruct (Hk r t Et) as (t' & ? & ? & _). eauto.
  - intros r i c Hb. destruct (Hown r i c Hb) as (t & Et & Hs & Hi). destruct (Hk r t Et) as (t' & ? & ? & Hi' & Hs').
    exists t'. split_and!; [done | auto | congruence].
  - intros E. destruct (Hc E) as (r & t & Et & Hl). destruct (Hk r t Et) as (t' & ? & Hid & _). exists r, t'. by rewrite Hid.
Qed.

Lemma inv_tunnels m s : (forall id ref, m !! id = Some ref -> tunnels s !! id = Some ref) -> inv s -> inv (s_tunnels m s).
Proof. intros Hm [Ht Ho Hown Hc]. split; try done; cbn. intros id ref H. by apply Ht, Hm. Qed.
Lemma inv_delete id s : inv s -> inv (s_tunnels (delete id (tunnels s)) s).
Proof. apply inv_tunnels. intros i r. by intros [_ H]%lookup_delete_Some. Qed.

(** Changes of the other fields. *)
Ltac same := let Hi := fresh in intros Hi; destruct Hi; split; done.
Lemma inv_close_conns l s : inv s -> inv (s_close_conns l s). Proof. same. Qed.
Lemma inv_send c m s : inv s -> inv (s_send c m s). Proof. same. Qed.
Lemma inv_dialled b s : inv s -> inv (s_dialled b s). Proof. same. Qed.
Lemma inv_clock x s : inv s -> inv (s_clock x s). Proof. same. Qed.
Lemma inv_closed s : inv s -> inv (s_closed s). Proof. same. Qed.

Lemma inv_close_once conns ref s : inv s -> inv (close_once conns ref s).
Proof.
  intros Hi. unfold close_once. destruct (heap s !! ref) as [t|]; [|done]. destruct (once t); [done|].
  by apply inv_close_conns, inv_modify.
Qed.
Lemma inv_take id s : inv s -> inv (take_tunnel id s).1.
Proof. apply inv_delete. Qed.
Lemma inv_evict_one conns s id : inv s -> inv (evict_one conns s id).
Proof. intros Hi. unfold evict_one. destruct (tunnels s !! id); [|done]. by apply inv_close_once, inv_delete. Qed.
Lemma inv_fold {X} (f : RelayHandler -> X -> RelayHandler) l s :
  (forall s x, inv s -> inv (f s x)) -> inv s -> inv (foldl f s l).
Proof. intros Hf. revert s. induction l as [|x l IH]; intros s Hi; cbn [foldl]; auto. Qed.
Lemma inv_sweep s : inv s -> inv (cleanupIdleTunnels s).
Proof.
  apply inv_fold. intros s0 x Hi. apply (inv_close_conns (match heap s0 !! x.2 with Some t => both t | None => [] end)) in Hi.
  exact (inv_delete x.1 _ Hi).
Qed.

Lemma inv_crash ref t s : heap s !! ref = Some t -> inv s -> inv (if strlen (ID t) <? 16 then s_crash s else s).
Proof. intros E Hi. destruct (Z.ltb_spec (strlen (ID t)) 16); [|done]. destruct Hi. split; try done. intros ?. by exists ref, t. Qed.

Lemma inv_claim ref s : inv s -> inv (claim ref s).1.
Proof.
  intros Hi. unfold claim. destruct (heap s !! ref) as [t|] eqn:E; [|done].
  destruct (started t) eqn:Es; [by eapply inv_crash|]. cbv zeta.
  assert (inv (modify ref set_started s)) as H1 by (by apply inv_modify).
  assert (heap (modify ref set_started s) !! ref = Some (set_started t)) as E1
    by (cbn; by rewrite lookup_alter, decide_True, E).
  destruct (TargetConn t) as [c|]; [|exact (inv_crash ref (set_started t) _ E1 H1)].
  assert (ref ∉ (bridges s).*1.*1) as Hnew.
  { intros ([r i] & -> & ([[r0 i0] c0] & [= -> ->] & Hb)%list_elem_of_fmap)%list_elem_of_fmap.
    destruct (i_own _ Hi _ _ _ Hb) as (t' & Et' & Hs' & _). cbn in *. congruence. }
  destruct H1 as [Ht Ho Hown Hc]. split; try done; cbn in *.
  - rewrite !fmap_app. apply NoDup_app. split_and!; [done | | apply NoDup_singleton].
    intros x Hx ->%list_elem_of_singleton. done.
  - intros r i c' [Hb|[= -> -> ->]%list_elem_of_singleton]%elem_of_app; [by apply (Hown r i c')|].
    exists (set_started t). by split_and!.
Qed.

Lemma inv_enter c req s : inv s -> inv (enter c req s).1.
Proof.
  intros [Ht Ho Hown Hc]. unfold enter. destruct (tunnels s !! q_TunnelID req); [done|]. cbv zeta.
  assert (heap s !! fresh (dom (heap s)) = None) as Hf by (apply not_elem_of_dom, is_fresh).
  assert (forall r t, heap s !! r = Some t -> r <> fresh (dom (heap s))) as Hne by congruence.
  split; try done; cbn [fst s_tunnels s_heap tunnels heap bridges crashed].
  - intros id ref. destruct (decide (id = q_TunnelID req)) as [->|].
    + rewrite lookup_insert_eq. intros [= <-]. rewrite lookup_insert_eq. eauto.
    + rewrite lookup_insert_ne by done. intros E. destruct (Ht id ref E) as (t & Et & <-). exists t.
      by rewrite lookup_insert_ne by (symmetry; eapply Hne; exact Et).
  - intros r i c' Hb. destruct (Hown r i c' Hb) as (t & Et & ? & ?). exists t.
    by rewrite lookup_insert_ne by (symmetry; eapply Hne; exact Et).
  - intros E. destruct (Hc E) as (r & t & Et & ?). exists r, t.
    by rewrite lookup_insert_ne by (symmetry; eapply Hne; exact Et).
Qed.

(** ** Every interleaving *)

Abbreviation ok p := (safe inv (fun _ _ => True) (fun _ => True) p (fun _ _ => True)).

Lemma ok_act {A} (f : RelayHandler -> list (RelayHandler * A)) :
  (forall s s' a, inv s -> (s', a) ∈ f s -> inv s') -> ok (act f).
Proof. intros H. apply safe_act; [done|]. intros s s' a Hi _ Hin. split_and!; [by eapply H | done | done]. Qed.
Lemma ok_one {A} (f : RelayHandler -> RelayHandler * A) : (forall s, inv s -> inv (f s).1) -> ok (act (fun s => [f s])).
Proof. intros H. apply ok_act. intros s s' a Hi E%list_elem_of_singleton. specialize (H s Hi). by rewrite <-E in H. Qed.
Lemma okr_upd f : (forall s, inv s -> inv (f s)) -> ok (upd f).
Proof. intros H. apply (ok_one (fun s => (f s, tt))). exact H. Qed.
Lemma okr_get {A} (f : RelayHandler -> A) : ok (get f).
Proof. by apply (ok_one (fun s => (s, f s))). Qed.
Lemma okr_ret {A} (a : A) : ok (Ret a).
Proof. done. Qed.

Lemma okr_close c : ok (closeConn c).
Proof. apply okr_upd. intros s. apply inv_close_conns. Qed.
Lemma okr_send c id a r : ok (sendResponse c id a r).
Proof. apply okr_upd. intros s. apply inv_send. Qed.
Lemma ok_target ref c : ok (upd (modify ref (set_TargetConn c))).
Proof. apply okr_upd. intros s. by apply inv_modify. Qed.
Lemma ok_done : ok done.
Proof. done. Qed.
Create HintDb relay.
#[local] Hint Resolve okr_close okr_send ok_target okr_get okr_ret ok_done : relay.

Lemma ok_remove id : ok (removeTunnel id).
Proof.
  unfold removeTunnel. eapply safe_bind; [apply (ok_one (take_tunnel id)), inv_take|].
  intros [ref|]; [|done]. apply okr_upd. intros s. apply inv_close_once.
Qed.
#[local] Hint Resolve ok_remove : relay.
(** One action after the other. *)
Ltac ok_run := repeat (first [solve [auto with relay] | eapply safe_bind; [solve [auto with relay]|]; intros ?]).

Lemma ok_refuse c id r : ok (refuse c id r).
Proof. unfold refuse. ok_run. Qed.
Lemma ok_bridge ref : ok (startBridge ref).
Proof.
  unfold startBridge. eapply safe_bind; [apply (ok_one (claim ref)), inv_claim|]. intros [| |id]; ok_run.
Qed.
#[local] Hint Resolve ok_refuse ok_bridge : relay.

Lemma ok_multiHop w c req id : ok (multiHopRelay w c req id).
Proof.
  unfold multiHopRelay. eapply safe_bind; [apply okr_get|]. intros key. cbv zeta. destruct (_ <? _); [ok_run|].
  destruct (next_hop w) as [n|]; [|ok_run]. eapply safe_bind.
  - apply (ok_act (A := option nat)). intros s s' a Hi. destruct (tunnels s !! id); intros [= -> _]%list_elem_of_singleton; [by apply inv_modify | done].
  - intros [ref|]; ok_run.
Qed.
Lemma ok_room : ok make_room.
Proof.
  unfold make_room. eapply safe_bind; [apply okr_get|]. intros n. eapply safe_bind; [apply okr_get|]. intros m.
  destruct (n <? m); [done|]. eapply safe_bind.
  { apply (ok_one evictStaleHalfOpen). intros s. apply inv_fold. intros. by apply inv_evict_one. }
  intros a. eapply safe_bind; [|intros b; apply okr_ret]. destruct (a =? 0); [|apply okr_ret].
  apply (ok_one (evictOldest 4)). intros s. apply inv_fold. intros. by apply inv_evict_one.
Qed.
#[local] Hint Resolve ok_multiHop ok_room : relay.

Lemma ok_request w c req : ok (handleRequest w c req).
Proof.
  unfold handleRequest. cbv zeta. eapply safe_bind; [apply ok_room|]. intros room. destruct (negb room); [ok_run|].
  eapply safe_bind; [apply (ok_one (enter c req)), inv_enter|]. intros [ref|]; [|ok_run].
  destruct (negb (session w)); [ok_run|]. destruct (stream w) as [t|]; [|ok_run]. destruct (negb (frame_ok w)); [ok_run|].
  eapply safe_bind; [apply okr_upd; intros s; apply inv_dialled|]. intros ?. destruct (negb (dial_ok w)); [ok_run|].
  destruct (answer w) as [[| m | | |]|]; try ok_run. destruct (_ =? _); ok_run.
Qed.

Lemma ok_stream w c msg : ok (HandleStream w c msg).
Proof.
  unfold HandleStream. eapply safe_bind; [apply okr_get|]. intros [|]; [ok_run|].
  destruct msg as [[m|m|m|m|m]|]; [apply ok_request | | unfold handleDial; ok_run | unfold handleTeardown; ok_run | ok_run | ok_run].
  unfold handleDialBack. eapply safe_bind; [apply okr_get|]. intros [ref|]; [|ok_run]. destruct (_ =? _); ok_run.
Qed.

Lemma ok_end b failed : ok (bridge_end b failed).
Proof.
  unfold bridge_end. eapply safe_bind.
  - apply (ok_act (A := string)). intros s s' a Hi. destruct (bool_decide _); [|by intros ?%elem_of_nil].
    destruct (heap s !! b.1.1) as [t|] eqn:E; [|by intros ?%elem_of_nil]. intros [= -> _]%list_elem_of_singleton.
    destruct failed; [|done]. exact (inv_crash _ _ _ E Hi).
  - intros id. eapply safe_bind; [apply okr_upd; intros s; apply inv_close_once|]. intros ?. ok_run.
Qed.

Lemma ok_spawn p : spawn p -> ok p.
Proof.
  intros [w c msg | b | b failed | | | d].
  - apply ok_stream.
  - apply ok_act. intros s s' a Hi. destruct (bool_decide _); [|by intros ?%elem_of_nil].
    intros [= -> _]%list_elem_of_singleton. by apply inv_modify.
  - apply ok_end.
  - unfold Close. eapply safe_bind; [apply okr_upd, inv_closed|]. intros ?. eapply safe_bind.
    + apply (ok_one (fun s => (s_tunnels ∅ s, (map_to_list (tunnels s)).*2))). intros s. by apply inv_tunnels.
    + intros refs. induction refs as [|ref refs IH]; [done|]. cbn [close_all].
      eapply safe_bind; [apply okr_upd; intros s; apply inv_close_once | intros ?; exact IH].
  - apply okr_upd, inv_sweep.
  - apply okr_upd. intros s. apply inv_clock.
Qed.

Lemma reach_inv key now c : reach spawn (NewRelayHandler key now, []) c -> inv c.1.
Proof.
  intros Hr. eapply (safe_reach inv (fun _ _ => True)) in Hr as [Hi _]; [exact Hi | | done | apply ok_spawn].
  split; cbn; [done | constructor | by intros ? ? ? ?%elem_of_nil | done].
Qed.

(** C21. Whatever streams peers open and however their handlers interleave
    with each other, with the copies, the idle sweep and a close: a tunnel is
    bridged at most once, the first stream of a bridge is the one its
    initiator came on, the table leads to a tunnel of the identifier, and no
    handler panics as long as all identifiers have at least 16 characters. *)
Theorem relay_bridges_once key now c :
  reach spawn (NewRelayHandler key now, []) c ->
  NoDup (bridges c.1).*1.*1 /\
  (forall ref i t, (ref, i, t) ∈ bridges c.1 -> exists tn, heap c.1 !! ref = Some tn /\ InitiatorConn tn = i) /\
  (forall id ref, tunnels c.1 !! id = Some ref -> exists tn, heap c.1 !! ref = Some tn /\ ID tn = id) /\
  ((forall ref tn, heap c.1 !! ref = Some tn -> 16 <= strlen (ID tn)) -> crashed c.1 = false).
Proof.
  intros [Ht Ho Hown Hc]%reach_inv. split_and!; [done | | done |].
  - intros ref i t Hb. destruct (Hown ref i t Hb) as (tn & ? & _ & ?). eauto.
  - intros Hlong. destruct (crashed c.1); [|done]. destruct (Hc eq_refl) as (ref & tn & E & Hl).
    specialize (Hlong ref tn E). lia.
Qed.

(** ** Concrete runs *)

Definition a_request (id : string) : MeshRelayRequest := MkRequest MsgRelayRequest id "target" "initiator" 80 0 [].
Definition accept (id : string) : MeshRelayResponse := MkResponse MsgRelayAccept id "" 0.
Definition willing (t : nat) (id : string) : answers := MkAnswers true (Some t) true true (Ok (Response (accept id))) None.
(** The initiator's stream 1, for which the target's stream is 2, and a
    stream 9 on which a peer says that it accepts the tunnel. *)
Definition initiator (id : string) : go unit := HandleStream (willing 2 id) 1 (Ok (Request (a_request id))).
Definition stranger (id : string) : go unit := HandleStream (willing 2 id) 9 (Ok (Response (accept id))).
Definition new_relay : RelayHandler := NewRelayHandler "relay" 0.
(** The request up to the dial message, the stranger, the rest of the
    request. *)
Definition overtaken : list (nat * nat) :=
  [(0, 0); (0, 0); (0, 0); (0, 0); (0, 0); (1, 0); (1, 0); (1, 0); (1, 0); (0, 0); (0, 0); (0, 0)]%nat.
Definition long_id : string := "0123456789abcdef0123456789abcdef".

Lemma spawned_pool id : reach spawn (new_relay, []) (new_relay, [initiator id; stranger id]).
Proof. apply spawn_all. repeat constructor. Qed.

Lemma relay_bridges_once_witness :
  match run_schedule overtaken (new_relay, [initiator long_id; stranger long_id]) with
  | Some c => NoDup (bridges c.1).*1.*1 /\ length (bridges c.1) = 1%nat
  | None => False
  end.
Proof.
  destruct (run_schedule overtaken (new_relay, [initiator long_id; stranger long_id])) as [c|] eqn:E;
    [|vm_compute in E; discriminate].
  split.
  - apply (relay_bridges_once "relay" 0). eapply run_schedule_reach; [apply spawned_pool | exact E].
  - vm_compute in E. by injection E as <-.
Defined.

(** A tunnel can be taken over: a response on any stream, whoever sent
    it, that names the tunnel before the target has answered gets the stream
    bridged to the initiator, who is told that the tunnel was accepted; the
    stream of the target is never bridged nor closed. *)
Theorem stranger_takes_tunnel :
  exists c, reach spawn (new_relay, []) c /\ (bridges c.1).*2 = [9%nat] /\ (bridges c.1).*1.*2 = [1%nat] /\
    (1%nat, Response (accept long_id)) ∈ sent c.1 /\ (2%nat ∉ closedConns c.1) /\ crashed c.1 = false /\
    Forall (fun p => match p with Ret _ => True | _ => False end) c.2.
Proof.
  assert (match run_schedule overtaken (new_relay, [initiator long_id; stranger long_id]) with
          | Some c => bool_decide ((bridges c.1).*2 = [9%nat] /\ (bridges c.1).*1.*2 = [1%nat] /\ (2%nat ∉ closedConns c.1) /\
              crashed c.1 = false) && existsb (fun m => match m with (1%nat, Response r) => (p_Type r =? MsgRelayAccept) &&
                String.eqb (p_TunnelID r) long_id && String.eqb (RejectReason r) "" && (p_Timestamp r =? 0) | _ => false end) (sent c.1)
              && forallb (fun p => match p with Ret _ => true | _ => false end) c.2
          | None => false
          end = true) as H by (vm_compute; reflexivity).
  destruct (run_schedule overtaken _) as [c|] eqn:E; [|discriminate].
  apply andb_true_iff in H as [[H1%bool_decide_eq_true H2]%andb_true_iff H3]. destruct H1 as (? & ? & ? & ?).
  exists c. split; [eapply run_schedule_reach; [apply spawned_pool | exact E]|]. clear E. split_and!; try done.
  - apply existsb_exists in H2 as ([n m] & Hin%list_elem_of_In & Hm). do 2 (destruct n as [|n]; try done).
    destruct m as [|r| | |]; try done. destruct r as [ty id rr ts]. cbn in Hm.
    apply andb_true_iff in Hm as [[[->%Z.eqb_eq ->%String.eqb_eq]%andb_true_iff ->%String.eqb_eq]%andb_true_iff ->%Z.eqb_eq]. exact Hin.
  - rewrite forallb_forall in H3. apply Forall_forall. intros p Hp%list_elem_of_In. specialize (H3 p Hp). by destruct p.
Qed.

(** A peer can bring the relay down: a request under an identifier of
    fewer than 16 characters, answered on two streams, makes the second
    answer cut the identifier at 16 bytes, which panics. *)
Theorem short_identifier_crashes :
  exists c, reach spawn (new_relay, []) c /\ crashed c.1 = true.
Proof.
  assert (match run_schedule overtaken (new_relay, [initiator "x"; stranger "x"]) with
          | Some c => crashed c.1 | None => false end = true) as H by (vm_compute; reflexivity).
  destruct (run_schedule overtaken _) as [c|] eqn:E; [|discriminate]. exists c. split; [|done].
  eapply run_schedule_reach; [apply spawned_pool | exact E].
Qed.

(** ** Capacity *)

(** Without other handlers no action but the entry adds a tunnel. *)
Definition within (n : Z) (s : RelayHandler) : Prop := TunnelCount s <= n.
Definition keeps_within {A} (p : go A) : Prop :=
  forall n m s, within n s -> maxTunnels s = m -> wp p s (fun s' _ => within n s' /\ maxTunnels s' = m).

Lemma kw_one {A} (f : RelayHandler -> RelayHandler * A) :
  (forall s, TunnelCount (f s).1 <= TunnelCount s /\ maxTunnels (f s).1 = maxTunnels s) -> keeps_within (act (fun s => [f s])).
Proof.
  intros H n m s Hn Hm. cbn. split; [done|]. repeat constructor; destruct (H s); unfold within in *; [lia | congruence].
Qed.
Lemma kw_upd f : (forall s, TunnelCount (f s) <= TunnelCount s /\ maxTunnels (f s) = maxTunnels s) -> keeps_within (upd f).
Proof. intros H. apply (kw_one (fun s => (f s, tt))). exact H. Qed.
Lemma kw_bind {A B} (p : go A) (q : A -> go B) : keeps_within p -> (forall a, keeps_within (q a)) -> keeps_within (bind p q).
Proof.
  intros Hp Hq n m s Hn Hm. apply wp_bind. eapply wp_mono; [by apply Hp|]. intros s' a [Hn' Hm']. by apply Hq.
Qed.
Lemma kw_ret {A} (a : A) : keeps_within (Ret a). Proof. by intros n m s Hn Hm. Qed.

Lemma count_once conns ref s : TunnelCount (close_once conns ref s) = TunnelCount s /\ maxTunnels (close_once conns ref s) = maxTunnels s.
Proof. unfold close_once. destruct (heap s !! ref) as [t|]; [|done]. by destruct (once t). Qed.
Lemma size_delete_le {A} (m : gmap string A) k : (size (delete k m) <= size m)%nat.
Proof. rewrite map_size_delete. destruct (m !! k); unfold id; lia. Qed.
Lemma kw_close c : keeps_within (closeConn c). Proof. apply kw_upd. by intros s. Qed.
Lemma kw_send c id a r : keeps_within (sendResponse c id a r). Proof. apply kw_upd. by intros s. Qed.
Lemma kw_target ref c : keeps_within (upd (modify ref (set_TargetConn c))). Proof. apply kw_upd. by intros s. Qed.
Lemma kw_remove id : keeps_within (removeTunnel id).
Proof.
  apply kw_bind.
  - apply (kw_one (take_tunnel id)). intros s. split; [|done]. unfold TunnelCount. cbn.
    pose proof (size_delete_le (tunnels s) id). lia.
  - intros [ref|]; [|apply kw_ret]. apply kw_upd. intros s. destruct (count_once both ref s) as [-> ->]. by split.
Qed.
Create HintDb capacity.
#[local] Hint Resolve kw_close kw_send kw_target kw_remove kw_ret : capacity.
Ltac kw_run := repeat (first [solve [auto with capacity] | apply kw_bind; [|intros ?]]).
Lemma kw_refuse c id r : keeps_within (refuse c id r). Proof. unfold refuse. kw_run. Qed.
Lemma kw_bridge ref : keeps_within (startBridge ref).
Proof.
  unfold startBridge. apply kw_bind.
  - apply (kw_one (claim ref)). intros s. unfold claim. destruct (heap s !! ref) as [t|]; [|done].
    destruct (started t); [by destruct (_ <? _)|]. cbv zeta. destruct (TargetConn t); [done|]. by destruct (_ <? _).
  - intros [| |id]; [apply kw_ret | apply kw_ret | apply kw_remove].
Qed.
#[local] Hint Resolve kw_refuse kw_bridge : capacity.
Lemma kw_multiHop w c req id : keeps_within (multiHopRelay w c req id).
Proof.
  unfold multiHopRelay. apply kw_bind; [apply (kw_one (fun s => (s, localKey s))); by intros s|]. intros key. cbv zeta.
  destruct (_ <? _); [kw_run|]. destruct (next_hop w) as [nx|]; [|kw_run]. apply kw_bind.
  - intros n m s Hn Hm. cbn. destruct (tunnels s !! id); (split; [done|]); by repeat constructor.
  - intros [ref|]; kw_run.
Qed.
#[local] Hint Resolve kw_multiHop : capacity.

Lemma evict_one_count conns s id : TunnelCount (evict_one conns s id) <= TunnelCount s /\ maxTunnels (evict_one conns s id) = maxTunnels s /\
  (is_Some (tunnels s !! id) -> TunnelCount (evict_one conns s id) < TunnelCount s).
Proof.
  unfold evict_one. destruct (tunnels s !! id) as [ref|] eqn:E; [|split_and!; [lia | done | by intros [? ?]]].
  destruct (count_once conns ref (s_tunnels (delete id (tunnels s)) s)) as [-> ->]. unfold TunnelCount. cbn.
  rewrite map_size_delete_Some by eauto. assert (size (tunnels s) <> 0)%nat by (apply map_size_ne_0_lookup; eauto).
  split_and!; [lia | done | intros _; lia].
Qed.
Lemma evict_fold_count conns ids s : TunnelCount (foldl (evict_one conns) s ids) <= TunnelCount s /\
  maxTunnels (foldl (evict_one conns) s ids) = maxTunnels s.
Proof.
  revert s. induction ids as [|id ids IH]; intros s; cbn [foldl]; [done|].
  destruct (IH (evict_one conns s id)) as [H1 ->]. destruct (evict_one_count conns s id) as (? & -> & _). split; [lia | done].
Qed.
Lemma evict_fold_less conns ids s id : list.head ids = Some id -> is_Some (tunnels s !! id) ->
  TunnelCount (foldl (evict_one conns) s ids) < TunnelCount s.
Proof.
  destruct ids as [|x ids]; [done|]. intros [= ->] Hid. cbn [foldl].
  destruct (evict_fold_count conns ids (evict_one conns s id)) as [? _].
  destruct (evict_one_count conns s id) as (_ & _ & Hlt). specialize (Hlt Hid). lia.
Qed.

Lemma evictStale_count s : let '(s', a) := evictStaleHalfOpen s in
  maxTunnels s' = maxTunnels s /\ ((a = 0 /\ s' = s) \/ (a <> 0 /\ TunnelCount s' < TunnelCount s)).
Proof.
  unfold evictStaleHalfOpen. cbv beta zeta iota. split; [apply evict_fold_count|].
  destruct (map_to_list (filter (fun kv => stale s kv.2 = true) (tunnels s))) as [|[k v] l] eqn:E; [by left | right].
  split; [cbn; lia|]. apply (evict_fold_less _ _ _ k); [done|]. assert ((k, v) ∈ (k, v) :: l) as Hin by left.
  rewrite <-E in Hin. apply elem_of_map_to_list, map_lookup_filter_Some in Hin as [Hin _]. eauto.
Qed.
Lemma evictOldest_count s n : 0 < n -> 0 < TunnelCount s -> let '(s', a) := evictOldest n s in
  maxTunnels s' = maxTunnels s /\ a <> 0 /\ TunnelCount s' < TunnelCount s.
Proof.
  intros Hn Hs. unfold evictOldest. cbv beta zeta iota. pose proof (insertion_sort_perm (fun a b : string * Z => a.2 <? b.2) (aged s)) as Hp.
  assert (length (aged s) = size (tunnels s)) as Hl by (unfold aged; rewrite length_fmap; apply length_map_to_list).
  destruct (insertion_sort _ (aged s)) as [|[k v] l] eqn:E.
  { apply Permutation_length in Hp. unfold TunnelCount in Hs. cbn in Hp. lia. }
  assert (is_Some (tunnels s !! k)) as Hk.
  { assert ((k, v) ∈ aged s) as Hin by (rewrite <-Hp; left). unfold aged in Hin.
    apply list_elem_of_fmap in Hin as ([k' r] & [= -> _] & Hin%elem_of_map_to_list). eauto. }
  assert (exists l', (if n <? len ((k, v) :: l) then take (Z.to_nat n) ((k, v) :: l) else (k, v) :: l) = (k, v) :: l') as (l' & ->).
  { destruct (_ <? _); [|eauto]. destruct (Z.to_nat n) eqn:En; [lia|]. cbn [take]. eauto. }
  split_and!; [apply evict_fold_count | cbn; lia | by apply (evict_fold_less _ _ _ k)].
Qed.

Lemma room_found s : 1 <= maxTunnels s -> TunnelCount s <= maxTunnels s ->
  wp make_room s (fun s' r => r = true /\ TunnelCount s' < maxTunnels s' /\ maxTunnels s' = maxTunnels s).
Proof.
  intros Hm Hs. unfold make_room. do 2 (eapply wp_act_one; [reflexivity|]).
  destruct (Z.ltb_spec (Z.of_nat (size (tunnels s))) (maxTunnels s)) as [Hlt|Hge]; [done|].
  pose proof (evictStale_count s) as He. eapply (wp_act_one _ _ _ (evictStaleHalfOpen s).1 (evictStaleHalfOpen s).2);
    [by destruct (evictStaleHalfOpen s)|].
  destruct (evictStaleHalfOpen s) as [s1 a]. cbn [fst snd]. destruct He as [Hm1 [[-> ->]|[Ha Hlt]]].
  - cbn [Z.eqb]. pose proof (evictOldest_count s 4 ltac:(lia) ltac:(unfold TunnelCount in *; lia)) as Ho.
    eapply (wp_act_one _ _ _ (evictOldest 4 s).1 (evictOldest 4 s).2); [by destruct (evictOldest 4 s)|].
    destruct (evictOldest 4 s) as [s2 b]. destruct Ho as (Hm2 & Hb & Hlt). cbn.
    rewrite (proj2 (Z.eqb_neq _ _)) by done. split_and!; [done | lia | done].
  - rewrite (proj2 (Z.eqb_neq _ _)) by done. cbn. rewrite (proj2 (Z.eqb_neq _ _)) by done.
    split_and!; [done | lia | congruence].
Qed.

(** C32. A request that is handled alone keeps the table within its capacity,
    whatever the target answers; it is never refused for lack of room, for
    the relay then drops old tunnels, those in use included. *)
Theorem request_keeps_capacity w c req s :
  1 <= maxTunnels s -> TunnelCount s <= maxTunnels s ->
  wp (handleRequest w c req) s (fun s' _ => TunnelCount s' <= maxTunnels s /\ maxTunnels s' = maxTunnels s) /\
  wp make_room s (fun _ room => room = true).
Proof.
  intros Hm Hs. pose proof (room_found s Hm Hs) as Hr. split; [|eapply wp_mono; [exact Hr | by intros ? ? []]].
  unfold handleRequest. cbv zeta. apply wp_bind. eapply wp_mono; [exact Hr|]. intros s1 room (-> & Hlt & Hm1). cbn [negb].
  eapply (wp_act_one _ _ _ (enter c req s1).1 (enter c req s1).2); [by destruct (enter c req s1)|].
  assert (TunnelCount (enter c req s1).1 <= maxTunnels s /\ maxTunnels (enter c req s1).1 = maxTunnels s) as [Hn Hm2].
  { unfold enter. destruct (tunnels s1 !! q_TunnelID req) eqn:E; cbn [fst]; [split; [lia | congruence]|].
    split; [|done]. unfold TunnelCount in *. cbn. rewrite map_size_insert_None by done. lia. }
  assert (forall p : go unit, keeps_within p -> wp p (enter c req s1).1 (fun s' _ => TunnelCount s' <= maxTunnels s /\ maxTunnels s' = maxTunnels s)) as Hgo
    by (intros p Hp; by apply Hp).
  destruct (enter c req s1).2 as [ref|]; [|apply Hgo; kw_run].
  destruct (negb (session w)); [apply Hgo; kw_run|]. destruct (stream w) as [t|]; [|apply Hgo; kw_run].
  destruct (negb (frame_ok w)); [apply Hgo; kw_run|]. apply Hgo. apply kw_bind; [apply kw_upd; by intros ?|]. intros ?.
  destruct (negb (dial_ok w)); [kw_run|]. destruct (answer w) as [[| m | | |]|]; try kw_run. destruct (_ =? _); kw_run.
Qed.

Definition small_relay (max : Z) : RelayHandler :=
  MkHandler "relay" ∅ ∅ max DefaultRelayIdleTimeout false 0 ∅ [] [] [] false.

Lemma request_keeps_capacity_witness :
  TunnelCount (small_relay 1) <= 1 /\ wp make_room (small_relay 1) (fun _ room => room = true).
Proof.
  split; [vm_compute; discriminate|].
  refine (proj2 (request_keeps_capacity (willing 2 long_id) 1 (a_request long_id) (small_relay 1) _ _));
    vm_compute; discriminate.
Defined.

(** Two requests that both see room exceed the capacity: the test and the
    entry are separate sections. *)
Example capacity_overshoot :
  match run_schedule [(0, 0); (0, 0); (0, 0); (1, 0); (1, 0); (1, 0); (0, 0); (1, 0)]%nat
          (small_relay 1, [initiator long_id; HandleStream (willing 3 "b") 4 (Ok (Request (a_request "b")))]) with
  | Some c => TunnelCount c.1 = 2 /\ maxTunnels c.1 = 1
  | None => False
  end.
Proof. vm_compute. done. Qed.

(** A stream that dials back when the tunnel is bridged already is stored in
    the tunnel, but when the bridge ends, only the bridged streams are
    closed. *)
Example late_dial_back_leaks :
  match run_schedule ([(0, 0); (0, 0); (0, 0); (0, 0); (0, 0); (0, 0); (0, 0); (0, 0)] ++
            [(1, 0); (1, 0); (1, 0); (1, 0)] ++ [(2, 0); (2, 0); (2, 0); (2, 0)])%nat
          (new_relay, [initiator long_id; stranger long_id; bridge_end (0, 1, 2)%nat false]) with
  | Some c => size (tunnels c.1) = 0%nat /\ closedConns c.1 = {[1%nat; 2%nat]}
  | None => False
  end.
Proof. vm_compute. done. Qed.

(** Anyone can end a tunnel whose identifier they know. *)
Example teardown_by_stranger :
  match run_schedule ([(0, 0); (0, 0); (0, 0); (0, 0); (0, 0); (0, 0); (0, 0); (0, 0)] ++ [(1, 0); (1, 0); (1, 0); (1, 0)])%nat
          (new_relay, [initiator long_id; HandleStream (willing 2 "") 9 (Ok (Teardown (MkTeardown MsgRelayTeardown long_id 0)))]) with
  | Some c => tunnels c.1 = ∅ /\ closedConns c.1 = {[1%nat; 2%nat; 9%nat]}
  | None => False
  end.
Proof. vm_compute. done. Qed.

End MeshRelay.
