(* ===== verification/SubnetRoutes.v ===== *)
(** * Routes of advertised subnets (internal/tun/route_manager.go)

    A peer may advertise networks behind it. [RouteManager] keeps which peer
    advertises what, the gateway of each network and the kernel routes, which
    it changes by running [ip route]; the commands it ran are in the state.
    The order in which Go ranges over a map is an argument. *)
From stdpp Require Import prelude gmap strings list.
From Stdlib Require Import Strings.Byte ZArith Lia.
From S2P Require Import Prelude GoBytes GoNet GoNetParse.
Local Open Scope Z_scope.

Module Subnets.

Inductive command : Type := RouteAdd (cidr gateway : string) | RouteDel (cidr : string).
(** The arguments of [ip]. *)
Definition command_args (ifName : string) (c : command) : list string :=
  match c with
  | RouteAdd cidr gateway => ["route"; "add"; cidr; "via"; gateway; "dev"; ifName]
  | RouteDel cidr => ["route"; "del"; cidr; "dev"; ifName]
  end%string.

Record RouteManager : Type := MkRouteManager {
  ifName : string; routes : gmap string (gset string); subnetToPeer : gmap string string;
  subnetNets : gmap string IPNet; ran : list command
}.
Definition set_routes (x : gmap string (gset string)) (rm : RouteManager) : RouteManager :=
  MkRouteManager (ifName rm) x (subnetToPeer rm) (subnetNets rm) (ran rm).
Definition set_tables (s : gmap string string) (n : gmap string IPNet) (rm : RouteManager) : RouteManager :=
  MkRouteManager (ifName rm) (routes rm) s n (ran rm).
Definition run_command (c : command) (rm : RouteManager) : RouteManager :=
  MkRouteManager (ifName rm) (routes rm) (subnetToPeer rm) (subnetNets rm) (ran rm ++ [c]).

Definition NewRouteManager (ifName : string) : RouteManager := MkRouteManager ifName ∅ ∅ ∅ [].

Definition addKernelRoute (cidr gateway : string) : RouteManager -> RouteManager := run_command (RouteAdd cidr gateway).
Definition delKernelRoute (cidr : string) : RouteManager -> RouteManager := run_command (RouteDel cidr).

(** A route leaves the kernel and both tables. *)
Definition drop_route (rm : RouteManager) (cidr : string) : RouteManager :=
  let rm := delKernelRoute cidr rm in
  set_tables (delete cidr (subnetToPeer rm)) (delete cidr (subnetNets rm)) rm.

Section Order.
(** The order of a [range] over the keys of a map. *)
Variable range : gset string -> list string.

(** The first other peer found that advertises [cidr] loses it. *)
Definition release (cidr : string) (rm : RouteManager) : RouteManager :=
  match find (fun k => match routes rm !! k with Some s => bool_decide (cidr ∈ s) | None => false end)
          (range (dom (routes rm))) with
  | Some k => set_routes (alter (fun s => s ∖ {[cidr]}) k (routes rm)) rm
  | None => rm
  end.

(** The loop over the advertised networks; it builds [newSubnets]. *)
Definition add_one (old : gset string) (virtualIP : string) (p : RouteManager * gset string) (cidr : string)
  : RouteManager * gset string :=
  let '(rm, new) := p in
  match ParseCIDR cidr with
  | None => (rm, new)
  | Some (_, ipNet) =>
      let new := {[cidr]} ∪ new in
      if bool_decide (cidr ∈ old) then (rm, new)
      else
        let rm := match subnetToPeer rm !! cidr with
                  | Some existingGW =>
                      if negb (String.eqb existingGW virtualIP) then release cidr (delKernelRoute cidr rm) else rm
                  | None => rm
                  end in
        let rm := set_tables (<[cidr := virtualIP]> (subnetToPeer rm)) (<[cidr := ipNet]> (subnetNets rm)) rm in
        (addKernelRoute cidr virtualIP rm, new)
  end.

Definition AddPeerSubnets (pubKey virtualIP : string) (subnets : list string) (rm : RouteManager) : RouteManager :=
  let old := default ∅ (routes rm !! pubKey) in
  let '(rm, new) := foldl (add_one old virtualIP) (rm, ∅) subnets in
  let rm := foldl (fun rm cidr => if bool_decide (cidr ∈ new) then rm else drop_route rm cidr) rm (range old) in
  set_routes (<[pubKey := new]> (routes rm)) rm.

Definition RemovePeerSubnets (pubKey : string) (rm : RouteManager) : RouteManager :=
  match routes rm !! pubKey with
  | None => rm
  | Some subnets =>
      let rm := foldl drop_route rm (range subnets) in
      set_routes (delete pubKey (routes rm)) rm
  end.

(** The best network so far and the length of its prefix. *)
Definition resolve_step (rm : RouteManager) (dstIP : IP) (best : string * Z) (cidr : string) : string * Z :=
  match subnetNets rm !! cidr with
  | None => best
  | Some ipNet =>
      if Contains ipNet dstIP then
        let ones := (Mask_Size (net_Mask ipNet)).1 in
        if best.2 <? ones then (default "" (subnetToPeer rm !! cidr), ones) else best
      else best
  end.
Definition ResolveSubnetProxy (dstIP : IP) (rm : RouteManager) : option string :=
  let bestMatch := (foldl (resolve_step rm dstIP) ("", -1) (range (dom (subnetNets rm)))).1 in
  if String.eqb bestMatch "" then None else Some bestMatch.

Definition AllSubnetProxies (rm : RouteManager) : gmap string string := subnetToPeer rm.
Definition RouteCount (rm : RouteManager) : Z := Z.of_nat (size (subnetToPeer rm)).
End Order.

(** ** The kernel's table *)

(** What [ip] does: an [add] of a route that exists fails. *)
Definition kernel_step (k : gmap string string) (c : command) : gmap string string :=
  match c with
  | RouteAdd cidr gw => match k !! cidr with Some _ => k | None => <[cidr := gw]> k end
  | RouteDel cidr => delete cidr k
  end.
Definition kernel (cs : list command) : gmap string string := foldl kernel_step ∅ cs.

Inductive op : Type := Add (pubKey : string) (subnets : list string) | Remove (pubKey : string).

(** ** The tables *)

(** [cl k] is what peer [k] advertises; its gateway is [vip k]. *)
Definition claims (rm : RouteManager) (k : string) : gset string := default ∅ (routes rm !! k).

Record exact (vip : string -> string) (cl : string -> gset string) (rm : RouteManager) : Prop := {
  ex_gateway c g : subnetToPeer rm !! c = Some g <-> exists k, c ∈ cl k /\ g = vip k;
  ex_nets c : subnetNets rm !! c = match subnetToPeer rm !! c with Some _ => snd <$> ParseCIDR c | None => None end;
  ex_valid k c : c ∈ cl k -> is_Some (ParseCIDR c);
  ex_kernel : kernel (ran rm) = subnetToPeer rm
}.

Lemma exact_ext vip cl cl' rm : (forall k c, c ∈ cl k <-> c ∈ cl' k) -> exact vip cl rm -> exact vip cl' rm.
Proof.
  intros H [Hg Hn Hv Hk]. split; [|done| |done].
  - intros c g. rewrite Hg. split; intros (k & Hc & ->); exists k; (split; [by apply H | done]).
  - intros k c Hc. eapply Hv. by apply H.
Qed.

Lemma exact_routes vip cl x rm : exact vip cl (set_routes x rm) <-> exact vip cl rm.
Proof. split; intros []; by split. Qed.

Lemma kernel_app cs c : kernel (cs ++ [c]) = kernel_step (kernel cs) c.
Proof. unfold kernel. by rewrite foldl_app. Qed.

(** [cidr] goes to peer [k]. *)
Definition assign (c k : string) (cl : string -> gset string) (k' : string) : gset string :=
  if decide (k' = k) then {[c]} ∪ cl k' else cl k' ∖ {[c]}.

Lemma drops_routes l : forall rm, routes (foldl drop_route rm l) = routes rm.
Proof. induction l as [|c l IH]; intros rm; cbn; [done|]. by rewrite IH. Qed.

Section Tables.
Variables (vip : string -> string) (vip_inj : forall a b, vip a = vip b -> a = b).

Lemma exact_unique cl rm c k k' : exact vip cl rm -> c ∈ cl k -> c ∈ cl k' -> k = k'.
Proof using vip_inj.
  intros [Hg _ _ _] H1 H2. apply vip_inj.
  assert (subnetToPeer rm !! c = Some (vip k)) as E1 by (apply Hg; eauto).
  assert (subnetToPeer rm !! c = Some (vip k')) as E2 by (apply Hg; eauto). congruence.
Qed.

Lemma exact_assign cl rm c k a n :
  exact vip cl rm -> ParseCIDR c = Some (a, n) ->
  exact vip (assign c k cl)
    (addKernelRoute c (vip k)
       (set_tables (<[c := vip k]> (subnetToPeer rm)) (<[c := n]> (subnetNets rm))
          (match subnetToPeer rm !! c with
           | Some g => if negb (String.eqb g (vip k)) then delKernelRoute c rm else rm | None => rm end))).
Proof using vip_inj.
  intros Hex Hp. pose proof Hex as [Hg Hn Hv Hk]. unfold assign.
  split; cbn.
  - intros c' g. destruct (decide (c' = c)) as [->|Hc].
    + rewrite lookup_insert_eq. split; [intros [= <-]; exists k; rewrite decide_True by done; split; [set_solver | done]|].
      intros (k' & Hin & ->). destruct (decide (k' = k)) as [->|]; [done | set_solver].
    + rewrite lookup_insert_ne, Hg by done. split; intros (k' & Hin & ->); exists k'; destruct (decide (k' = k)); set_solver.
  - intros c'. destruct (decide (c' = c)) as [->|Hc]; [by rewrite !lookup_insert_eq, Hp|]. by rewrite !lookup_insert_ne.
  - intros k' c' Hin. destruct (decide (c' = c)) as [->|Hc]; [by rewrite Hp|]. apply (Hv k').
    destruct (decide (k' = k)); set_solver.
  - rewrite kernel_app. destruct (subnetToPeer rm !! c) as [g|] eqn:E; [destruct (String.eqb_spec g (vip k)) as [->|]|]; cbn.
    + rewrite Hk, E. by rewrite insert_id.
    + rewrite kernel_app. cbn. rewrite lookup_delete_eq, Hk. by rewrite insert_delete_eq.
    + by rewrite Hk, E.
Qed.

Lemma exact_drop cl rm c : exact vip cl rm -> exact vip (fun k => cl k ∖ {[c]}) (drop_route rm c).
Proof using vip_inj.
  intros [Hg Hn Hv Hk]. split; cbn.
  - intros c' g. destruct (decide (c' = c)) as [->|Hc].
    + rewrite lookup_delete_eq. split; [done|]. intros (k' & Hin & _). set_solver.
    + rewrite lookup_delete_ne, Hg by done. split; intros (k' & Hin & ->); exists k'; set_solver.
  - intros c'. destruct (decide (c' = c)) as [->|Hc]; [by rewrite !lookup_delete_eq|]. by rewrite !lookup_delete_ne.
  - intros k' c' Hin. apply (Hv k'). set_solver.
  - rewrite kernel_app. cbn. by rewrite Hk.
Qed.

Lemma exact_drops l : forall cl rm, exact vip cl rm ->
  exact vip (fun k => cl k ∖ list_to_set l) (foldl drop_route rm l) /\
  routes (foldl drop_route rm l) = routes rm.
Proof using vip_inj.
  induction l as [|c l IH]; intros cl rm Hex; cbn; [split; [|done]; eapply exact_ext; [|exact Hex]; set_solver|].
  destruct (IH _ _ (exact_drop _ _ c Hex)) as [H1 ->]. split; [|done]. eapply exact_ext; [|exact H1]. set_solver.
Qed.
End Tables.

Definition claimed (cl : string -> gset string) (k : string) (s : gset string) (k' : string) : gset string :=
  if decide (k' = k) then s else cl k'.

Section Claims.
Variables (vip : string -> string) (vip_inj : forall a b, vip a = vip b -> a = b).
Variables (range : gset string -> list string) (range_ok : forall x, range x ≡ₚ elements x).

Lemma range_elem x c : c ∈ range x <-> c ∈ x.
Proof using range_ok. rewrite range_ok. apply elem_of_elements. Qed.

Lemma claims_set k s m rm k' : claims (set_routes (<[k := s]> m) rm) k' = if decide (k' = k) then s else default ∅ (m !! k').
Proof. unfold claims. cbn. destruct (decide (k' = k)) as [->|]; [by rewrite lookup_insert_eq | by rewrite lookup_insert_ne]. Qed.

(** What the peers other than [k] keep when [c] is taken from its owner. *)
Lemma release_claims cl c k rm :
  exact vip cl rm -> (forall k', k' <> k -> claims rm k' = cl k') -> c ∉ claims rm k ->
  forall k' x, x ∈ claims (release range c rm) k' <-> x ∈ claims rm k' /\ x <> c.
Proof using vip_inj range_ok.
  intros Hex Hcl Hk k' x. unfold release.
  destruct (List.find _ _) as [k1|] eqn:E.
  - apply List.find_some in E as [_ E]. destruct (routes rm !! k1) as [s|] eqn:Es; [|done]. apply bool_decide_eq_true in E.
    assert (c ∈ claims rm k1) as H1 by (unfold claims; by rewrite Es).
    assert (k1 <> k) as Hne by congruence.
    destruct (decide (k' = k1)) as [->|Hk'].
    + unfold claims. cbn. rewrite lookup_alter_eq, Es. cbn. set_solver.
    + assert (claims (set_routes (alter (λ s0 : gset string, s0 ∖ {[c]}) k1 (routes rm)) rm) k' = claims rm k') as ->
        by (unfold claims; cbn; by rewrite lookup_alter_ne).
      split; [|by intros []]. intros Hx. split; [done|]. intros ->. destruct (decide (k' = k)) as [->|Hkk]; [done|].
      apply Hk'. rewrite Hcl in Hx, H1 by done. by eapply (exact_unique vip vip_inj).
  - split; [|by intros []]. intros Hx. split; [done|]. intros ->. unfold claims in Hx. destruct (routes rm !! k') as [s|] eqn:Es; [|set_solver].
    eapply List.find_none in E; [|apply list_elem_of_In; apply range_elem, elem_of_dom; by exists s].
    rewrite Es in E. by apply bool_decide_eq_false in E.
Qed.

Lemma release_tables c rm : exists x, release range c rm = set_routes x rm.
Proof. unfold release. destruct (List.find _ _); [by eexists | exists (routes rm); by destruct rm]. Qed.

(** Within [AddPeerSubnets] peer [k] has what it had and what is new. *)
Definition mid (k : string) (old new : gset string) (rm : RouteManager) : Prop :=
  exact vip (claimed (claims rm) k (old ∪ new)) rm /\ claims rm k = old.

Lemma add_one_mid k old rm new c :
  mid k old new rm -> mid k old (add_one range old (vip k) (rm, new) c).2 (add_one range old (vip k) (rm, new) c).1.
Proof using vip_inj range_ok.
  intros [Hex Hold]. unfold add_one. destruct (ParseCIDR c) as [[a n]|] eqn:Hp; [|done].
  case_bool_decide as Hc; cbn [fst snd].
  { split; [|done]. eapply exact_ext; [|exact Hex]. intros k' x. unfold claimed. destruct (decide (k' = k)); [set_solver | done]. }
  pose proof (exact_assign vip vip_inj _ _ c k a n Hex Hp) as Ha.
  assert (forall k' x, x ∈ claimed (fun k' => claims rm k' ∖ {[c]}) k (old ∪ ({[c]} ∪ new)) k' <->
    x ∈ assign c k (claimed (claims rm) k (old ∪ new)) k') as Hcl
    by (intros k' x; unfold assign, claimed; destruct (decide (k' = k)); set_solver).
  destruct (subnetToPeer rm !! c) as [g|] eqn:E; [destruct (String.eqb_spec g (vip k)) as [->|Hg]|]; cbn [negb] in *.
  1, 3: (split; [|exact Hold]); (eapply exact_ext; [|exact Ha]); intros k' x; rewrite <-Hcl; unfold claimed;
    (destruct (decide (k' = k)) as [->|Hne]; [done|]); (change (claims (addKernelRoute c (vip k) ?x) k') with (claims rm k'));
    rewrite elem_of_difference, elem_of_singleton; (split; [by intros []|]); (intros Hx; split; [done|]); intros ->.
  - apply Hne. eapply (exact_unique vip vip_inj); [exact Hex | | ]; unfold claimed; [rewrite decide_False by done; exact Hx|].
    rewrite decide_True by done. destruct Hex as [Hx0 _ _ _]. apply Hx0 in E as (k2 & Hk2 & Hv). apply vip_inj in Hv as <-.
    unfold claimed in Hk2. by rewrite decide_True in Hk2 by done.
  - destruct Hex as [Hx0 _ _ _]. assert (subnetToPeer rm !! c = Some (vip k')) as E2; [|congruence].
    apply Hx0. exists k'. unfold claimed. by rewrite decide_False by done.
  - assert (c ∉ claims (delKernelRoute c rm) k) as Hck by (change (claims (delKernelRoute c rm) k) with (claims rm k); by rewrite Hold).
    assert (exact vip (claimed (claims rm) k (old ∪ new)) rm) as Hex' by exact Hex.
    assert (forall k' x, x ∈ claims (release range c (delKernelRoute c rm)) k' <-> x ∈ claims rm k' /\ x <> c) as Hr.
    { unfold release. cbn [routes delKernelRoute run_command]. intros k' x.
      pose proof (release_claims _ c k rm Hex' ltac:(intros k2 Hk2; unfold claimed; by rewrite decide_False by done) Hck k' x) as Hr.
      unfold release in Hr. by destruct (List.find _ _). }
    destruct (release_tables c (delKernelRoute c rm)) as [x0 Hx0]. rewrite Hx0 in *. split.
    + apply (exact_routes _ _ x0) in Ha. eapply exact_ext; [|exact Ha]. intros k' x. rewrite <-Hcl. unfold claimed.
      destruct (decide (k' = k)); [done|]. rewrite elem_of_difference, elem_of_singleton, <-Hr. done.
    + change (claims (addKernelRoute c (vip k) (set_tables ?a ?b (set_routes x0 (delKernelRoute c rm)))) k)
        with (claims (set_routes x0 (delKernelRoute c rm)) k).
      apply leibniz_equiv. intros x. rewrite Hr, Hold. set_solver.
Qed.
End Claims.

(** ** What the tables mean *)

Definition run_op (range : gset string -> list string) (vip : string -> string) (o : op) (rm : RouteManager) : RouteManager :=
  match o with
  | Add k subnets => AddPeerSubnets range k (vip k) subnets rm
  | Remove k => RemovePeerSubnets range k rm
  end.

Section Loop.
Variable range : gset string -> list string.

(** The loop takes from the other peers what it enters, and nothing else. *)
Lemma release_keeps c rm k x :
  (x ∈ claims (release range c rm) k -> x ∈ claims rm k) /\
  (x <> c -> x ∈ claims rm k -> x ∈ claims (release range c rm) k).
Proof.
  unfold release. destruct (List.find _ _) as [k1|]; [|done]. unfold claims. cbn.
  destruct (decide (k = k1)) as [->|]; [|by rewrite lookup_alter_ne].
  rewrite lookup_alter_eq. destruct (routes rm !! k1); cbn; set_solver.
Qed.

Lemma add_one_keeps old v rm new c k x :
  let p := add_one range old v (rm, new) c in
  (x ∈ p.2 <-> x ∈ new \/ x = c /\ is_Some (ParseCIDR c)) /\
  (x ∈ claims p.1 k -> x ∈ claims rm k) /\
  (x ∉ p.2 -> x ∈ claims rm k -> x ∈ claims p.1 k).
Proof.
  unfold add_one. destruct (ParseCIDR c) as [[a n]|] eqn:E; cbn zeta.
  - assert (forall y, y ∈ {[c]} ∪ new <-> y ∈ new \/ y = c /\ is_Some (Some (a, n))) as Hn
      by (intros y; split; [set_solver|]; intros [|[-> _]]; set_solver).
    case_bool_decide; cbn [fst snd]; (split; [by apply Hn|]); [done|].
    destruct (subnetToPeer rm !! c) as [g|]; [destruct (negb _)|]; [|done..].
    destruct (release_keeps c (delKernelRoute c rm) k x) as [H1 H2]. split; [done|]. intros Hx. apply H2. set_solver.
  - cbn [fst snd]. split; [|done]. split; [by left|]. intros [|[_ []]]; done.
Qed.

Lemma add_loop_keeps old v cs k x : forall rm new,
  let p := foldl (add_one range old v) (rm, new) cs in
  (x ∈ p.2 <-> x ∈ new \/ x ∈ cs /\ is_Some (ParseCIDR x)) /\
  (x ∈ claims p.1 k -> x ∈ claims rm k) /\
  (x ∉ p.2 -> x ∈ claims rm k -> x ∈ claims p.1 k).
Proof.
  induction cs as [|c cs IH]; intros rm new; cbn [foldl]; cbn zeta.
  { cbn. split; [|done]. split; [by left|]. intros [|[?%elem_of_nil _]]; done. }
  destruct (add_one_keeps old v rm new c k x) as (H1 & H2 & H3).
  destruct (add_one range old v (rm, new) c) as [rm1 new1]. cbn [fst snd] in *.
  destruct (IH rm1 new1) as (I1 & I2 & I3). split_and!.
  - rewrite I1, H1, elem_of_cons. naive_solver.
  - by intros ?%I2%H2.
  - intros Hx Hc. apply I3; [done|]. apply H3; [|done]. rewrite I1 in Hx. naive_solver.
Qed.
End Loop.

Section Reachable.
Variables (vip : string -> string) (vip_inj : forall a b, vip a = vip b -> a = b).
Variables (range : gset string -> list string) (range_ok : forall x, range x ≡ₚ elements x).

Lemma add_loop_mid k old cs : forall rm new, mid vip k old new rm ->
  let p := foldl (add_one range old (vip k)) (rm, new) cs in mid vip k old p.2 p.1.
Proof using vip_inj range_ok.
  induction cs as [|c cs IH]; intros rm new Hm; cbn [foldl]; [done|].
  pose proof (add_one_mid vip vip_inj range range_ok k old rm new c Hm) as H.
  destruct (add_one range old (vip k) (rm, new) c) as [rm1 new1]. by apply IH.
Qed.

Lemma drop_loop (new : gset string) l : forall rm,
  foldl (fun rm cidr => if bool_decide (cidr ∈ new) then rm else drop_route rm cidr) rm l =
  foldl drop_route rm (filter (fun c => c ∉ new) l).
Proof.
  induction l as [|c l IH]; intros rm; cbn [foldl]; [done|]. rewrite filter_cons, IH.
  case_bool_decide; [rewrite decide_False by tauto | rewrite decide_True by done]; done.
Qed.

Lemma run_op_exact o rm : exact vip (claims rm) rm -> exact vip (claims (run_op range vip o rm)) (run_op range vip o rm).
Proof using vip_inj range_ok.
  intros Hex. destruct o as [k cs|k]; cbn [run_op].
  - unfold AddPeerSubnets. change (default ∅ (routes rm !! k)) with (claims rm k).
    pose proof (add_loop_mid k (claims rm k) cs rm ∅) as Hm. cbn zeta in Hm.
    destruct (foldl _ (rm, ∅) cs) as [rm1 new]. cbn [fst snd] in Hm. destruct Hm as [Hex1 Hold].
    { split; [|done]. eapply exact_ext; [|exact Hex]. intros k' x. unfold claimed. destruct (decide (k' = k)) as [->|]; set_solver. }
    rewrite drop_loop. destruct (exact_drops vip vip_inj (filter (fun c => c ∉ new) (range (claims rm k))) _ _ Hex1) as [Hd Hroutes].
    apply exact_routes. eapply exact_ext; [|exact Hd]. intros k' x.
    rewrite claims_set, Hroutes, elem_of_difference, elem_of_list_to_set, list_elem_of_filter, (range_elem range range_ok).
    unfold claimed at 1. destruct (decide (k' = k)) as [->|Hne].
    + split; [|set_solver]. intros [Hx Hn]. destruct (decide (x ∈ new)); set_solver.
    + split; [by intros []|]. intros Hx. split; [done|]. intros [_ Ho]. apply Hne.
      eapply (exact_unique vip vip_inj); [exact Hex1 | |]; unfold claimed; [by rewrite decide_False|]. rewrite decide_True by done. set_solver.
  - unfold RemovePeerSubnets. destruct (routes rm !! k) as [s|] eqn:Es; [|done].
    assert (claims rm k = s) as Hs by (unfold claims; by rewrite Es).
    destruct (exact_drops vip vip_inj (range s) _ _ Hex) as [Hd Hroutes]. apply exact_routes. eapply exact_ext; [|exact Hd].
    intros k' x. rewrite elem_of_difference, elem_of_list_to_set, (range_elem range range_ok).
    destruct (decide (k' = k)) as [->|Hne].
    + unfold claims at 2. cbn. rewrite lookup_delete_eq. cbn. rewrite Hs. set_solver.
    + unfold claims at 2. cbn. rewrite lookup_delete_ne, Hroutes by done. fold (claims rm k').
      split; [by intros []|]. intros Hx. split; [done|]. intros Hin. apply Hne.
      eapply (exact_unique vip vip_inj); [exact Hex | exact Hx | by rewrite Hs].
Qed.

Lemma run_ops_exact name os : let rm := foldl (fun rm o => run_op range vip o rm) (NewRouteManager name) os in exact vip (claims rm) rm.
Proof using vip_inj range_ok.
  cbn zeta. assert (exact vip (claims (NewRouteManager name)) (NewRouteManager name)) as H0.
  { split; [|done| |done].
    - intros c g. cbn. unfold claims. cbn. split; [done | intros (k & Hk & _); set_solver].
    - intros k c Hc. unfold claims in Hc. cbn in Hc. set_solver. }
  revert H0. generalize (NewRouteManager name). induction os as [|o os IH]; intros rm Hex; cbn; [done|]. apply IH. by apply run_op_exact.
Qed.

(** *** The longest prefix *)

Definition prefix_length (n : IPNet) : Z := (Mask_Size (net_Mask n)).1.

Definition best_of (rm : RouteManager) (ip : IP) (l : list string) (best : string * Z) : Prop :=
  (forall c n, c ∈ l -> subnetNets rm !! c = Some n -> Contains n ip = true -> prefix_length n <= best.2) /\
  (best = (""%string, -1) \/ exists c n, c ∈ l /\ subnetNets rm !! c = Some n /\ Contains n ip = true /\
     best = (default ""%string (subnetToPeer rm !! c), prefix_length n)).

Lemma Mask_Size_nonneg m : 0 <= (Mask_Size m).1.
Proof. unfold Mask_Size. destruct (List.find _ _); cbn; lia. Qed.

Lemma resolve_step_best rm ip l best c :
  best_of rm ip l best -> best_of rm ip (l ++ [c]) (resolve_step rm ip best c).
Proof.
  intros [Hmax Hb].
  assert (forall b, b = best -> (forall n, subnetNets rm !! c = Some n -> Contains n ip = true -> prefix_length n <= b.2) ->
    best_of rm ip (l ++ [c]) b) as Hkeep.
  { intros b -> Hc. split.
    - intros c' n [Hin | ->%list_elem_of_singleton]%elem_of_app; eauto.
    - destruct Hb as [|(c' & n & Hin & H)]; [by left|]. right. exists c', n. split; [|done]. apply elem_of_app. by left. }
  unfold resolve_step. destruct (subnetNets rm !! c) as [n|] eqn:En; [|by apply Hkeep].
  destruct (Contains n ip) eqn:Ec; [|by apply Hkeep; [|intros n' [= <-]; rewrite Ec]].
  fold (prefix_length n). destruct (Z.ltb_spec best.2 (prefix_length n)); [|by apply Hkeep; [|intros n' [= <-]]].
  split; cbn [snd].
  - intros c' n' [Hin | ->%list_elem_of_singleton]%elem_of_app Hn' Hc'; [specialize (Hmax _ _ Hin Hn' Hc'); lia|]. rewrite En in Hn'. by injection Hn' as ->.
  - right. exists c, n. split; [|done]. apply elem_of_app. right. by apply list_elem_of_singleton.
Qed.

Lemma resolve_best rm ip l2 : forall l1 best,
  best_of rm ip l1 best -> best_of rm ip (l1 ++ l2) (foldl (resolve_step rm ip) best l2).
Proof.
  induction l2 as [|c l IH]; intros l1 best H; cbn; [by rewrite app_nil_r|].
  rewrite (app_assoc _ [c] l : l1 ++ c :: l = _). apply IH. by apply resolve_step_best.
Qed.
End Reachable.

(** *** Whom a network belongs to

    The contract of the route manager, told from the calls alone: a network
    belongs to the last peer that advertised it and has not since advertised
    other networks instead, or left. *)
Definition owner_step (own : string -> option string) (o : op) (c : string) : option string :=
  match o with
  | Add k subnets => if decide (c ∈ subnets /\ is_Some (ParseCIDR c)) then Some k
                     else if decide (own c = Some k) then None else own c
  | Remove k => if decide (own c = Some k) then None else own c
  end.
Definition owner (os : list op) : string -> option string := foldl owner_step (fun _ => None) os.

Section Owner.
Variables (vip : string -> string) (vip_inj : forall a b, vip a = vip b -> a = b).
Variables (range : gset string -> list string) (range_ok : forall x, range x ≡ₚ elements x).

Lemma add_claims k subnets rm k' c : exact vip (claims rm) rm ->
  c ∈ claims (AddPeerSubnets range k (vip k) subnets rm) k' <->
  if decide (k' = k) then c ∈ subnets /\ is_Some (ParseCIDR c)
  else c ∈ claims rm k' /\ ~ (c ∈ subnets /\ is_Some (ParseCIDR c)).
Proof using vip_inj range_ok.
  intros Hex. pose proof (run_op_exact vip vip_inj range range_ok (Add k subnets) rm Hex) as Hex'. cbn [run_op] in Hex'.
  pose proof (fun y => add_loop_keeps range (claims rm k) (vip k) subnets y c rm ∅) as Hk. cbn zeta in Hk.
  assert (forall rm1 new, foldl (add_one range (claims rm k) (vip k)) (rm, ∅) subnets = (rm1, new) ->
    forall y, claims (AddPeerSubnets range k (vip k) subnets rm) y = if decide (y = k) then new else claims rm1 y) as Hc.
  { intros rm1 new E y. unfold AddPeerSubnets. change (default ∅ (routes rm !! k)) with (claims rm k). rewrite E, claims_set, drop_loop.
    by rewrite drops_routes. }
  destruct (foldl _ (rm, ∅) subnets) as [rm1 new]. specialize (Hc _ _ eq_refl). cbn [fst snd] in Hk.
  rewrite Hc. destruct (decide (k' = k)) as [->|Hne].
  - destruct (Hk k) as (-> & _). set_solver.
  - destruct (Hk k') as (Hn & H1 & H2). split.
    + intros Hin. split; [by apply H1|]. intros Hv. apply Hne.
      eapply (exact_unique vip vip_inj _ _ c); [exact Hex' | rewrite Hc; by rewrite decide_False |].
      rewrite Hc, decide_True by done. apply Hn. by right.
    + intros [Hin Hv]. apply H2; [|done]. rewrite Hn. set_solver.
Qed.

Lemma remove_claims k rm k' c :
  c ∈ claims (RemovePeerSubnets range k rm) k' <-> k' <> k /\ c ∈ claims rm k'.
Proof using vip_inj range_ok.
  unfold RemovePeerSubnets. destruct (routes rm !! k) as [s|] eqn:E.
  - unfold claims. cbn. rewrite drops_routes.
    destruct (decide (k' = k)) as [->|]; [rewrite lookup_delete_eq; set_solver | rewrite lookup_delete_ne by done; naive_solver].
  - split; [|by intros []]. intros H. split; [|done]. intros ->. unfold claims in H. rewrite E in H. set_solver.
Qed.

Lemma run_op_owner own o rm : exact vip (claims rm) rm -> (forall k c, c ∈ claims rm k <-> own c = Some k) ->
  forall k c, c ∈ claims (run_op range vip o rm) k <-> owner_step own o c = Some k.
Proof using vip_inj range_ok.
  intros Hex H k c. destruct o as [k0 subnets|k0]; cbn [run_op owner_step].
  - rewrite add_claims by done. destruct (decide (k = k0)) as [->|]; rewrite ?H; clear Hex H;
      destruct (decide (c ∈ subnets /\ _)); [naive_solver | destruct (decide (own c = Some k0)); naive_solver | naive_solver |].
    destruct (decide (own c = Some k0)); naive_solver.
  - rewrite remove_claims, H. clear Hex H. destruct (decide (own c = Some k0)); naive_solver.
Qed.

Lemma run_ops_owner name os : forall k c,
  c ∈ claims (foldl (fun rm o => run_op range vip o rm) (NewRouteManager name) os) k <-> owner os c = Some k.
Proof using vip_inj range_ok.
  induction os as [|o os IH] using rev_ind.
  { intros k c. unfold claims. cbn. set_solver. }
  intros k c. unfold owner. rewrite !foldl_snoc. apply run_op_owner; [apply (run_ops_exact vip vip_inj range range_ok) | apply IH].
Qed.
End Owner.

(** C14. The routes of advertised subnets, when every peer has a gateway of
    its own. After any sequence of advertisements and departures every
    network leads to the gateway of the peer it belongs to: the last one that
    advertised it, if that peer has neither left nor withdrawn it by a later
    advertisement; texts that are no network are ignored, and a network
    without such a peer has no route. The networks recorded for a peer are
    those that belong to it, and the commands run have given the kernel the
    same table. *)
Theorem subnet_routes_exact range vip name os :
  (forall x, range x ≡ₚ elements x) -> (forall a b, vip a = vip b -> a = b) ->
  let rm := foldl (fun rm o => run_op range vip o rm) (NewRouteManager name) os in
  (forall c, subnetToPeer rm !! c = vip <$> owner os c) /\
  (forall k c, c ∈ claims rm k <-> owner os c = Some k) /\
  kernel (ran rm) = subnetToPeer rm.
Proof.
  intros Hr Hv. pose proof (run_ops_exact vip Hv range Hr name os) as Hex. cbn zeta in *.
  pose proof (run_ops_owner vip Hv range Hr name os) as Ho. split_and!; [|done | apply Hex].
  intros c. apply option_eq. intros g. rewrite (ex_gateway _ _ _ Hex), fmap_Some. by setoid_rewrite Ho.
Qed.
Definition lan : string := "192.168.1.0/24".
(** A peer takes a network over from another, which withdraws its second one
    and then leaves. *)
Definition take_over : list op :=
  [Add "a" [lan; "10.9.0.0/16"; "10.8.0.0/16"]; Add "b" [lan; "no network"]; Add "a" ["10.8.0.0/16"]; Add "c" ["10.7.0.0/16"];
   Remove "c"]%string.
Definition gateways (k : string) : string := ("10.100.0." +:+ k)%string.
Lemma gateways_inj a b : gateways a = gateways b -> a = b.
Proof. intros [=]. done. Qed.
Lemma subnet_routes_exact_witness :
  let rm := foldl (fun rm o => run_op elements gateways o rm) (NewRouteManager "mesh0") take_over in
  (subnetToPeer rm = <[lan := gateways "b"]> {["10.8.0.0/16"%string := gateways "a"]} /\ owner take_over lan = Some "b"%string /\
   owner take_over "10.9.0.0/16" = None /\ owner take_over "10.8.0.0/16" = Some "a"%string) /\
  ((forall c, subnetToPeer rm !! c = gateways <$> owner take_over c) /\
   (forall k c, c ∈ claims rm k <-> owner take_over c = Some k) /\
   kernel (ran rm) = subnetToPeer rm).
Proof.
  split; [split_and!; vm_compute; reflexivity|]. apply subnet_routes_exact; [intros x; reflexivity | apply gateways_inj].
Defined.

(** C15. The lookup of an address outside the mesh, in any state so reached:
    no network contains it and there is no gateway, or the gateway is the one
    of the peer that advertises a network that contains the address, and no
    advertised network that contains it has a longer prefix. *)
Theorem ResolveSubnetProxy_longest range vip name os ip :
  (forall x, range x ≡ₚ elements x) -> (forall a b, vip a = vip b -> a = b) -> (forall k, vip k <> ""%string) ->
  let rm := foldl (fun rm o => run_op range vip o rm) (NewRouteManager name) os in
  let advertised c k a n := c ∈ claims rm k /\ ParseCIDR c = Some (a, n) /\ Contains n ip = true in
  match ResolveSubnetProxy range ip rm with
  | None => forall c k a n, ~ advertised c k a n
  | Some g => exists c k a n, advertised c k a n /\ g = vip k /\
                forall c' k' a' n', advertised c' k' a' n' -> prefix_length n' <= prefix_length n
  end.
Proof.
  intros Hr Hv Hne rm adv. pose proof (run_ops_exact vip Hv range Hr name os) as Hex. cbn zeta in Hex. fold rm in Hex.
  pose proof (resolve_best rm ip (range (dom (subnetNets rm))) [] (""%string, -1)) as [Hmax Hb].
  { split; [by intros c n ?%elem_of_nil | by left]. }
  cbn [app] in Hmax, Hb. destruct Hex as [Hg Hn Hval _].
  assert (forall c k a n, adv c k a n -> subnetNets rm !! c = Some n /\ c ∈ range (dom (subnetNets rm))) as Hadv.
  { intros c k a n (Hc & Hp & _). assert (subnetNets rm !! c = Some n) as E by (rewrite Hn, (proj2 (Hg c (vip k))), Hp by eauto; done).
    split; [done|]. apply (range_elem range Hr), elem_of_dom. eauto. }
  unfold ResolveSubnetProxy. destruct Hb as [Eb | (c & n & Hin & En & Hc & Eb)].
  - rewrite Eb in *. cbn [fst snd String.eqb]. intros c k a n H. destruct (Hadv _ _ _ _ H) as [E Hin]. destruct H as (_ & _ & Hcon).
    specialize (Hmax _ _ Hin E Hcon). pose proof (Mask_Size_nonneg (net_Mask n)). unfold prefix_length in Hmax. cbn [snd] in Hmax. lia.
  - rewrite Eb in *. cbn [fst snd] in *. rewrite Hn in En. destruct (subnetToPeer rm !! c) as [g|] eqn:Eg; [|done]. cbn.
    destruct (proj1 (Hg c g) Eg) as (k & Hk & ->). rewrite (proj2 (String.eqb_neq _ _)) by apply Hne.
    destruct (ParseCIDR c) as [[a n0]|] eqn:Hp; [|done]. injection En as ->. exists c, k, a, n. split_and!; [by split_and! | done |].
    intros c' k' a' n' H. destruct (Hadv _ _ _ _ H) as [E' Hin']. apply (Hmax c'); [done | done | apply H].
Qed.
Lemma ResolveSubnetProxy_longest_witness :
  let rm := foldl (fun rm o => run_op elements gateways o rm) (NewRouteManager "mesh0")
              [Add "a" ["192.168.0.0/16"]; Add "b" [lan]]%string in
  let ip := [xc0; xa8; x01; x05] in
  let advertised c k a n := c ∈ claims rm k /\ ParseCIDR c = Some (a, n) /\ Contains n ip = true in
  ResolveSubnetProxy elements ip rm = Some (gateways "b") /\
  match ResolveSubnetProxy elements ip rm with
  | None => forall c k a n, ~ advertised c k a n
  | Some g => exists c k a n, advertised c k a n /\ g = gateways k /\
                forall c' k' a' n', advertised c' k' a' n' -> prefix_length n' <= prefix_length n
  end.
Proof.
  split; [vm_compute; reflexivity|].
  apply (ResolveSubnetProxy_longest elements gateways "mesh0"); [intros x; reflexivity | apply gateways_inj | done].
Defined.

(** A peer whose virtual address changes keeps the gateway of the old one:
    only networks that are new to the peer are entered. *)
Theorem gateway_change_ignored range k v c cs rm :
  (forall x, range x ≡ₚ elements x) -> c ∈ claims rm k -> c ∈ cs -> is_Some (ParseCIDR c) ->
  subnetToPeer (AddPeerSubnets range k v cs rm) !! c = subnetToPeer rm !! c.
Proof.
  intros Hr Hc Hin Hp. unfold AddPeerSubnets. change (default ∅ (routes rm !! k)) with (claims rm k).
  assert (forall l rm0 new, let p := foldl (add_one range (claims rm k) v) (rm0, new) l in
    subnetToPeer p.1 !! c = subnetToPeer rm0 !! c /\ (c ∈ new \/ c ∈ l -> c ∈ p.2)) as Hloop.
  { induction l as [|c0 l IH]; intros rm0 new; cbn [foldl]; [split; [done | by intros [|?%elem_of_nil]]|].
    unfold add_one at 2 4. destruct (ParseCIDR c0) as [[a n]|] eqn:E.
    - case_bool_decide as Hold; cbn; [split; [apply IH | intros H; apply IH; set_solver]|].
      assert (c0 <> c) by congruence. match goal with |- context [foldl _ (?r, _) l] => destruct (IH r ({[c0]} ∪ new)) as [-> H2] end.
      split; [|intros ?; apply H2; set_solver]. cbn. rewrite lookup_insert_ne by done.
      destruct (subnetToPeer rm0 !! c0); [destruct (negb _)|]; try done.
      destruct (release_tables range c0 (delKernelRoute c0 rm0)) as [x ->]. done.
    - split; [apply IH|]. intros H. apply IH. destruct H as [|[->|]%elem_of_cons]; [by left | by destruct Hp as [? ?]; congruence | by right]. }
  destruct (Hloop cs rm ∅) as [E Hnew]. destruct (foldl _ (rm, ∅) cs) as [rm1 new]. cbn [fst snd] in *. cbn. rewrite <-E.
  specialize (Hnew (or_intror Hin)). clear -Hnew. generalize (range (claims rm k)). intros l. revert rm1.
  induction l as [|c0 l IH]; intros rm1; cbn; [done|]. rewrite IH. case_bool_decide; [done|]. cbn. rewrite lookup_delete_ne; congruence.
Qed.
Lemma gateway_change_ignored_witness :
  let rm := AddPeerSubnets elements "a" "10.100.0.5" [lan] (NewRouteManager "mesh0") in
  subnetToPeer (AddPeerSubnets elements "a" "10.100.0.9" [lan] rm) !! lan = Some "10.100.0.5"%string.
Proof.
  cbn zeta. rewrite (gateway_change_ignored elements); [reflexivity | reflexivity | refine (bool_decide_unpack _ _); vm_compute; done | by left | by eexists].
Defined.

(** Two keys with one gateway, as when a peer comes back with a new key: the
    departure of the old key takes the route of the new one. *)
Example shared_gateway_loses_route :
  let rm := AddPeerSubnets elements "new" "10.100.0.5" [lan] (AddPeerSubnets elements "old" "10.100.0.5" [lan] (NewRouteManager "mesh0")) in
  let rm := RemovePeerSubnets elements "old" rm in
  claims rm "new" = {[lan]} /\ subnetToPeer rm = ∅.
Proof. split; vm_compute; reflexivity. Qed.

(** Any peer can advertise everything. *)
Example default_route_accepted :
  ran (AddPeerSubnets elements "a" "10.100.0.5" ["0.0.0.0/0"%string] (NewRouteManager "mesh0")) =
    [RouteAdd "0.0.0.0/0" "10.100.0.5"].
Proof. vm_compute. reflexivity. Qed.

End Subnets.
