(* ===== verification/PunchPlane.v ===== *)
(** * The raw data plane of a punched hole (internal/mesh/punch_dataplane.go)

    Once a hole through the NATs is punched, packets of the virtual network
    go over it as datagrams of their own, without framing or
    acknowledgement. A plane is a record; the manager holds planes by peer,
    as numbers into a heap, since a plane that was replaced can still be used
    by those who looked it up before. *)
From stdpp Require Import prelude gmap strings list.
From Stdlib Require Import Strings.Byte ZArith Lia.
From S2P Require Import Prelude GoBytes.
Local Open Scope Z_scope.

Module Punch.

Definition second : Z := 10 ^ 9.

(** [remote] is the text of the address; times are in nanoseconds, [done]
    counts the closings of the channel. *)
Record PunchDataplane : Type := MkPlane {
  remote : string; peerKey : string; txPackets : Z; rxPackets : Z; lastRx : Z; tunFailures : Z; closed : bool;
  doneCloses : Z
}.
Definition set_tx (x : Z) (pd : PunchDataplane) : PunchDataplane :=
  MkPlane (remote pd) (peerKey pd) x (rxPackets pd) (lastRx pd) (tunFailures pd) (closed pd) (doneCloses pd).
Definition set_rx (n t : Z) (pd : PunchDataplane) : PunchDataplane :=
  MkPlane (remote pd) (peerKey pd) (txPackets pd) n t (tunFailures pd) (closed pd) (doneCloses pd).
Definition set_failures (x : Z) (pd : PunchDataplane) : PunchDataplane :=
  MkPlane (remote pd) (peerKey pd) (txPackets pd) (rxPackets pd) (lastRx pd) x (closed pd) (doneCloses pd).

(** [tunWrite] must not be nil, or the constructor panics. *)
Definition NewPunchDataplane (remote peerKey : string) (hasTunWrite : bool) (now : Z) : option PunchDataplane :=
  if hasTunWrite then Some (MkPlane remote peerKey 0 0 now 0 false 0) else None.

(** [close] is a [sync.Once]. *)
Definition Close (pd : PunchDataplane) : PunchDataplane :=
  if closed pd then pd
  else MkPlane (remote pd) (peerKey pd) (txPackets pd) (rxPackets pd) (lastRx pd) (tunFailures pd) true (doneCloses pd + 1).

(** The packet in a frame, or the whole when it does not look like one. *)
Definition unframe (p : list byte) : list byte :=
  if 4 <=? len p then
    let framedLen := be_Z (slice p 0 4) in
    if (0 <? framedLen) && (framedLen <=? len p - 4) && (framedLen <=? 1500) then drop 4 p else p
  else p.

(** [udp] is the error of the socket. What is reported written, and the
    datagram. *)
Definition Write (udp : option string) (p : list byte) (pd : PunchDataplane)
  : result string Z * option (list byte) * PunchDataplane :=
  if closed pd then (Err "use of closed UDP connection"%string, None, pd)
  else match udp with
       | Some e => (Err e, None, pd)
       | None => (Ok (len p), Some (unframe p), set_tx (u64 (txPackets pd + 1)) pd)
       end.

Definition IsAlive (now : Z) (pd : PunchDataplane) : bool :=
  if closed pd then false else if lastRx pd =? 0 then false else now - lastRx pd <? 15 * second.

Definition reservedProbePacket : list byte := [x50; x4a].
Definition isProbePacket (data : list byte) : bool :=
  (len data =? 2) && (Z_of_byte (nth 0 data x00) =? 80) && (Z_of_byte (nth 1 data x00) =? 74).

(** A tick of [keepaliveLoop]: the datagram, unless the loop ends. *)
Definition keepalive_tick (pd : PunchDataplane) : option (list byte) :=
  if closed pd then None else Some reservedProbePacket.

(** A tick of [healthCheckLoop]: whether [onDead] is called. *)
Definition health_tick (now : Z) (pd : PunchDataplane) : bool * PunchDataplane :=
  if closed pd then (false, pd)
  else if lastRx pd =? 0 then (false, pd)
  else if 15 * second <? now - lastRx pd then (true, Close pd) else (false, pd).

(** [validate] is nil or the test of the source; [tun_ok] whether the device
    takes the packet. What the device is given, and the plane. *)
Definition Feed (now : Z) (validate : option (list byte -> string -> bool)) (tun_ok : list byte -> bool)
    (data : list byte) (pd : PunchDataplane) : option (list byte) * PunchDataplane :=
  if closed pd then (None, pd)
  else
    let pd := set_rx (u64 (rxPackets pd + 1)) now pd in
    if isProbePacket data then (None, pd)
    else if match validate with Some f => negb (f data (peerKey pd)) | None => false end then (None, pd)
    else if tun_ok data then (Some data, set_failures 0 pd)
    else
      let pd := set_failures (tunFailures pd + 1) pd in
      (None, if 10 <=? tunFailures pd then Close pd else pd).

(** ** The manager *)
Record PunchDataplaneManager : Type := MkManager { planes : gmap string nat; heap : gmap nat PunchDataplane }.
Definition NewPunchDataplaneManager : PunchDataplaneManager := MkManager ∅ ∅.
Definition upd (i : nat) (f : PunchDataplane -> PunchDataplane) (m : PunchDataplaneManager) : PunchDataplaneManager :=
  MkManager (planes m) (alter f i (heap m)).

(** The new plane is entered into the heap; [Start] only starts loops. *)
Definition Register (pd : PunchDataplane) (key : string) (m : PunchDataplaneManager) : nat * PunchDataplaneManager :=
  let m := match planes m !! key with Some old => upd old Close m | None => m end in
  let i := fresh (dom (heap m)) in
  (i, MkManager (<[key := i]> (planes m)) (<[i := pd]> (heap m))).

Definition Remove (key : string) (m : PunchDataplaneManager) : PunchDataplaneManager :=
  match planes m !! key with
  | Some i => MkManager (delete key (planes m)) (alter Close i (heap m))
  | None => m
  end.

(** [Get] looks the plane up under the lock and tests it after; [None] in the
    second part is a plane found dead, which [Remove] is called for. *)
Definition get_lookup (key : string) (m : PunchDataplaneManager) : option nat := planes m !! key.
Definition get_test (now : Z) (i : nat) (m : PunchDataplaneManager) : bool :=
  match heap m !! i with Some pd => IsAlive now pd | None => false end.
Definition Get (now : Z) (key : string) (m : PunchDataplaneManager) : option nat * PunchDataplaneManager :=
  match get_lookup key m with
  | None => (None, m)
  | Some i => if get_test now i m then (Some i, m) else (None, Remove key m)
  end.
Definition Keys (m : PunchDataplaneManager) : list string := elements (dom (planes m)).

(** The callback of internal/app/mesh_node.go that finds the plane of an
    address; [order] is the order of [Keys]. Whether one was found, what the
    device is given, and the manager. *)
Fixpoint feed_by_addr (now : Z) (validate : option (list byte -> string -> bool)) (tun_ok : list byte -> bool)
    (addr : string) (data : list byte) (order : list string) (m : PunchDataplaneManager)
  : bool * option (list byte) * PunchDataplaneManager :=
  match order with
  | [] => (false, None, m)
  | pk :: order =>
      let '(found, m) := Get now pk m in
      match found with
      | Some i =>
          match heap m !! i with
          | Some pd =>
              if String.eqb (remote pd) addr then
                let '(w, pd) := Feed now validate tun_ok data pd in
                (true, w, MkManager (planes m) (<[i := pd]> (heap m)))
              else feed_by_addr now validate tun_ok addr data order m
          | None => feed_by_addr now validate tun_ok addr data order m
          end
      | None => feed_by_addr now validate tun_ok addr data order m
      end
  end.

(** ** Framing *)

Lemma unframe_frame p : 0 < len p < 2 ^ 32 ->
  unframe (be_bytes 4 (len p) ++ p) = if len p <=? 1500 then p else be_bytes 4 (len p) ++ p.
Proof.
  intros Hp. unfold unframe. rewrite length_app, be_bytes_length.
  rewrite (proj2 (Z.leb_le _ _)) by lia. rewrite slice_app_l, slice_all by (rewrite ?be_bytes_length; lia).
  rewrite be_Z_u32 by lia. rewrite (proj2 (Z.ltb_lt 0 _)), (proj2 (Z.leb_le _ (_ - 4))) by lia. cbn [andb].
  by rewrite drop_app_length' by (by rewrite be_bytes_length).
Qed.

(** An IP packet without a frame goes as it is: its version is not 0. *)
Lemma unframe_packet b p : 16 <= Z_of_byte b -> unframe (b :: p) = b :: p.
Proof.
  intros Hb. unfold unframe. destruct (Z.leb_spec 4 (len (b :: p))) as [Hl|]; [|done].
  assert (slice (b :: p) 0 4 = b :: take 3 p) as -> by (rewrite slice_take; done).
  assert (16 * 2 ^ 24 <= be_Z (b :: take 3 p)).
  { change (be_Z (b :: take 3 p)) with (Z_of_byte b * 256 ^ len (take 3 p) + be_Z (take 3 p)).
    pose proof (be_Z_range (take 3 p)). rewrite length_take in *. cbn [length] in Hl.
    replace (3 `min` length p)%nat with 3%nat in * by lia. change (256 ^ Z.of_nat 3) with (2 ^ 24) in *. nia. }
  cbv zeta. rewrite (proj2 (Z.leb_gt _ 1500)) by lia. by rewrite andb_false_r.
Qed.

(** ** Which planes are open *)

(** The calls, and the ticks of the loops of a plane, in any order. A [Get]
    that finds a dead plane is a [Remove], which may come later. *)
Inductive step : PunchDataplaneManager -> PunchDataplaneManager -> Prop :=
| step_register r k now pd key m : NewPunchDataplane r k true now = Some pd -> step m (Register pd key m).2
| step_remove key m : step m (Remove key m)
| step_feed i pd now validate tun_ok data m : heap m !! i = Some pd ->
    step m (MkManager (planes m) (<[i := (Feed now validate tun_ok data pd).2]> (heap m)))
| step_write i pd udp p m : heap m !! i = Some pd ->
    step m (MkManager (planes m) (<[i := (Write udp p pd).2]> (heap m)))
| step_health i pd now m : heap m !! i = Some pd ->
    step m (MkManager (planes m) (<[i := (health_tick now pd).2]> (heap m)))
| step_close i m : step m (upd i Close m).

(** What an operation on one plane may do. *)
Definition evolves (pd pd' : PunchDataplane) : Prop :=
  (closed pd = true -> closed pd' = true) /\
  (doneCloses pd = Z.b2z (closed pd) -> doneCloses pd' = Z.b2z (closed pd')) /\ peerKey pd' = peerKey pd.
Lemma Close_evolves pd : evolves pd (Close pd).
Proof. unfold Close, evolves. destruct (closed pd) eqn:E; cbn; rewrite ?E; split_and!; try done; lia. Qed.
Lemma Feed_evolves now v t d pd : evolves pd (Feed now v t d pd).2.
Proof.
  unfold Feed. destruct (closed pd) eqn:E; [split_and!; try done; by rewrite E|]. cbv zeta.
  assert (forall pd1, closed pd1 = closed pd -> doneCloses pd1 = doneCloses pd -> peerKey pd1 = peerKey pd -> evolves pd pd1) as H
    by (intros pd1 H1 H2 H3; unfold evolves; rewrite H1, H2, E; done).
  destruct (isProbePacket d); [by apply H|]. destruct (match v with Some _ => _ | None => _ end); [by apply H|].
  destruct (t d); cbn [snd]; [by apply H|]. case_match; [|by apply H].
  match goal with |- evolves pd (Close ?p) => destruct (Close_evolves p) as (H1 & H2 & H3) end.
  split_and!; [intros Hx; congruence | intros Hx; apply H2; cbn; by rewrite E in * | by rewrite H3].
Qed.

Record tracked (m : PunchDataplaneManager) : Prop := {
  tr_known key i : planes m !! key = Some i -> is_Some (heap m !! i);
  tr_inj key key' i : planes m !! key = Some i -> planes m !! key' = Some i -> key = key';
  tr_open i pd : heap m !! i = Some pd -> closed pd = false -> exists key, planes m !! key = Some i;
  tr_once i pd : heap m !! i = Some pd -> doneCloses pd = Z.b2z (closed pd)
}.

Lemma tracked_evolve m i pd pd' : heap m !! i = Some pd -> evolves pd pd' -> tracked m ->
  tracked (MkManager (planes m) (<[i := pd']> (heap m))).
Proof.
  intros Hi (H1 & H2 & H3) [Hk Hj Ho Hd]. split; cbn.
  - intros key j Hj'. destruct (decide (j = i)) as [->|]; [by rewrite lookup_insert_eq | rewrite lookup_insert_ne by done; by eapply Hk].
  - exact Hj.
  - intros j p. destruct (decide (j = i)) as [->|]; [rewrite lookup_insert_eq | rewrite lookup_insert_ne by done; apply Ho].
    intros [= <-] Hc. apply (Ho i pd Hi). destruct (closed pd); [by rewrite H1 in Hc | done].
  - intros j p. destruct (decide (j = i)) as [->|]; [rewrite lookup_insert_eq | rewrite lookup_insert_ne by done; apply Hd].
    intros [= <-]. by apply H2, (Hd i).
Qed.

Lemma tracked_upd_close i m : tracked m -> tracked (upd i Close m).
Proof.
  intros Ht. unfold upd. destruct (heap m !! i) as [pd|] eqn:E.
  - assert (alter Close i (heap m) = <[i := Close pd]> (heap m)) as ->.
    { apply map_eq. intros j. rewrite lookup_alter, lookup_insert. case_decide; [|done]. subst. by rewrite E. }
    by apply (tracked_evolve m i pd); [|apply Close_evolves|].
  - assert (alter Close i (heap m) = heap m) as ->; [|by destruct m].
    apply map_eq. intros j. rewrite lookup_alter. case_decide; [|done]. subst. by rewrite E.
Qed.

(** Under every order of registrations, removals, datagrams and ticks, the
    planes that are not closed are exactly those the table leads to, each
    under one key, and no plane closes its channel twice. *)
Theorem open_planes_tracked m : rtc step NewPunchDataplaneManager m -> tracked m.
Proof.
  intros Hr. assert (tracked NewPunchDataplaneManager) as H0 by (split; cbn; intros; by rewrite lookup_empty in *).
  revert H0 Hr. generalize NewPunchDataplaneManager. intros m0 H0 Hr.
  induction Hr as [|a b c Hs _ IH]; [done|]. apply IH. clear IH.
  destruct Hs as [r k now pd key m E | key m | i pd now v t d m Hi | i pd udp p m Hi | i pd now m Hi | i m].
  - cbn in E. injection E as <-. unfold Register. cbn [snd].
    set (m1 := match planes m !! key with Some old => upd old Close m | None => m end).
    assert (tracked m1) as H1 by (subst m1; destruct (planes m !! key); [by apply tracked_upd_close | done]).
    assert (planes m1 = planes m) as Hp by (subst m1; by destruct (planes m !! key)).
    assert (forall i pd, planes m !! key = Some i -> heap m1 !! i = Some pd -> closed pd = true) as Hold.
    { intros i pd Hi. subst m1. rewrite Hi. cbn. rewrite lookup_alter_eq. destruct (heap m !! i) as [p|]; cbn; [|done].
      intros [= <-]. unfold Close. by destruct (closed p) eqn:E. }
    assert (heap m1 !! fresh (dom (heap m1)) = None) as Hf by (apply not_elem_of_dom, is_fresh).
    revert Hf. generalize (fresh (dom (heap m1))). intros i Hf. destruct H1 as [Hk Hj Ho Hd]. split; cbn.
    + intros key' j. destruct (decide (key' = key)) as [->|]; [rewrite lookup_insert_eq; intros [= <-]; by rewrite lookup_insert_eq|].
      rewrite lookup_insert_ne by done. intros Hkj. destruct (decide (j = i)) as [->|]; [by rewrite lookup_insert_eq|].
      rewrite lookup_insert_ne by done. eauto.
    + intros k1 k2 j. destruct (decide (k1 = key)) as [->|], (decide (k2 = key)) as [->|];
        rewrite ?lookup_insert_eq, ?lookup_insert_ne by done; [done| | |eauto].
      * intros [= <-] H2. destruct (Hk _ _ H2). congruence.
      * intros H2 [= <-]. destruct (Hk _ _ H2). congruence.
    + intros j p. destruct (decide (j = i)) as [->|]; [intros _ _; exists key; by rewrite lookup_insert_eq|].
      rewrite lookup_insert_ne by done. intros Hp1 Hc. destruct (Ho _ _ Hp1 Hc) as [key' Hk']. exists key'.
      rewrite lookup_insert_ne; [done|]. intros <-. rewrite Hp in Hk'. by rewrite (Hold _ _ Hk' Hp1) in Hc.
    + intros j p. destruct (decide (j = i)) as [->|]; [rewrite lookup_insert_eq; by intros [= <-]|].
      rewrite lookup_insert_ne by done. apply Hd.
  - unfold Remove. destruct (planes m !! key) as [i|] eqn:E; [|done].
    destruct (tracked_upd_close i m H0) as [Hk Hj Ho Hd]. split; cbn in *.
    + intros key' j [_ Hj']%lookup_delete_Some. eauto.
    + intros k1 k2 j [_ H1]%lookup_delete_Some [_ H2]%lookup_delete_Some. eauto.
    + intros j p Hp Hc. destruct (Ho _ _ Hp Hc) as [key' Hk']. exists key'. apply lookup_delete_Some. split; [|done]. intros <-.
      assert (j = i) as -> by congruence. rewrite lookup_alter_eq in Hp. destruct (heap m !! i) as [p0|]; [|done]. cbn in Hp.
      injection Hp as <-. unfold Close in Hc. destruct (closed p0) eqn:E2; [congruence | done].
    + exact Hd.
  - apply (tracked_evolve m i pd); [done | apply Feed_evolves | done].
  - apply (tracked_evolve m i pd); [done | | done]. unfold Write. destruct (closed pd) eqn:E; [done|]. by destruct udp.
  - apply (tracked_evolve m i pd); [done | | done]. unfold health_tick. destruct (closed pd) eqn:E; [done|].
    destruct (lastRx pd =? 0); [done|]. destruct (_ <? _); [apply Close_evolves | done].
  - by apply tracked_upd_close.
Qed.
Definition a_plane (now : Z) : PunchDataplane := MkPlane "198.51.100.7:4000" "peer" 0 0 now 0 false 0.
Lemma open_planes_tracked_witness :
  let m := (Register (a_plane 5) "peer" (Register (a_plane 1) "peer" NewPunchDataplaneManager).2).2 in
  planes m = {["peer"%string := 1%nat]} /\ tracked m.
Proof.
  split; [vm_compute; reflexivity|]. apply open_planes_tracked.
  eapply rtc_l; [by eapply (step_register "198.51.100.7:4000" "peer" 1)|].
  eapply rtc_l; [by eapply (step_register "198.51.100.7:4000" "peer" 5) | apply rtc_refl].
Defined.

(** [Get] finds a dead plane, a new one is registered, and the [Remove] of
    the [Get] closes the new one. *)
Example get_closes_new_plane :
  let m := (Register (a_plane 1) "peer" NewPunchDataplaneManager).2 in
  let now := 20 * second in
  let found := get_lookup "peer" m in
  let dead := match found with Some i => negb (get_test now i m) | None => false end in
  let m := (Register (a_plane now) "peer" m).2 in
  let m := if dead then Remove "peer" m else m in
  dead = true /\ planes m = ∅ /\ closed <$> heap m !! 1%nat = Some true.
Proof. split_and!; vm_compute; reflexivity. Qed.

End Punch.
