(* ===== verification/TunForward.v ===== *)
(** * Packets between the virtual interface and the peers
    (internal/mesh/tun_forwarder.go)

    The forwarder reads packets from the TUN device and sends each to the
    peer its destination belongs to, over a raw plane, a punched stream or a
    stream of the multiplexed connection; packets of peers pass the test of
    their source and the access rules and go to the device. One goroutine
    sends; an inbound stream is handled by a goroutine of its own. The table
    of addresses is Router.v, the rules are Acl.v, the networks behind peers
    SubnetRoutes.v and the raw planes PunchPlane.v; streams are read through
    the interface of Transfer.v. *)
From stdpp Require Import prelude gmap strings list.
From Stdlib Require Import Strings.Byte ZArith Lia.
From S2P Require Import Prelude GoBytes GoNet GoNetParse Router Acl Transfer SubnetRoutes PunchPlane.
Import Router.TunRouter Acl.Acl Transfer.Transfer.
Local Open Scope Z_scope.

Module Forward.

Definition second : Z := 10 ^ 9.
Definition TunVirtualPort : Z := 21589.
Definition tunPacketHeaderLen : Z := 4.
Definition maxTunPacketSize : Z := 65535.
Definition udpCooldown : Z := 30 * second.
Definition udpCooldownMax : Z := 600 * second.
Definition outboundStreamTTL : Z := 60 * second.
Definition tunUDPStreamEnabled : bool := false.

Record outboundStreamEntry : Type := MkEntry { conn : nat; createdAt : Z }.
Record udpFailState : Type := MkFail { last : Z; fails : Z }.

(** What a packet is sent over: a raw plane, a punched stream, a stream that
    was dialled. *)
Inductive carrier : Type := Plane (i : nat) | Punched (i : nat) | Dialed (i : nat).

(** The counters, and the parts of the state that the handlers share. What
    was written is kept: [wire] to the carriers and [device] to the TUN
    device; [openConns] are the streams dialled and not closed. *)
Record Counters : Type := MkCounters {
  packetsSent : Z; packetsReceived : Z; packetsDropped : Z; packetsSpoofed : Z; bytesSent : Z; bytesReceived : Z
}.
Record TunForwarder : Type := MkForwarder {
  router : Router; routeManager : option Subnets.RouteManager; aclEngine : option ACLEngine;
  planes : Punch.PunchDataplaneManager;
  outboundStreams : gmap string outboundStreamEntry; udpStreams : gmap string outboundStreamEntry;
  udpFail : gmap string udpFailState;
  running : bool; cancelled : bool; counters : Counters; lastActivity : Z; startedAt : Z;
  wire : list (carrier * list byte); device : list (list byte); openConns : gset nat
}.

Definition set_acl (x : option ACLEngine) (f : TunForwarder) : TunForwarder :=
  MkForwarder (router f) (routeManager f) x (planes f) (outboundStreams f) (udpStreams f) (udpFail f) (running f)
    (cancelled f) (counters f) (lastActivity f) (startedAt f) (wire f) (device f) (openConns f).
Definition set_planes (x : Punch.PunchDataplaneManager) (f : TunForwarder) : TunForwarder :=
  MkForwarder (router f) (routeManager f) (aclEngine f) x (outboundStreams f) (udpStreams f) (udpFail f) (running f)
    (cancelled f) (counters f) (lastActivity f) (startedAt f) (wire f) (device f) (openConns f).
Definition set_outbound (x : gmap string outboundStreamEntry) (o : gset nat) (f : TunForwarder) : TunForwarder :=
  MkForwarder (router f) (routeManager f) (aclEngine f) (planes f) x (udpStreams f) (udpFail f) (running f)
    (cancelled f) (counters f) (lastActivity f) (startedAt f) (wire f) (device f) o.
Definition set_udp (x : gmap string outboundStreamEntry) (y : gmap string udpFailState) (o : gset nat)
    (f : TunForwarder) : TunForwarder :=
  MkForwarder (router f) (routeManager f) (aclEngine f) (planes f) (outboundStreams f) x y (running f)
    (cancelled f) (counters f) (lastActivity f) (startedAt f) (wire f) (device f) o.
Definition set_run (r c : bool) (s l : Z) (f : TunForwarder) : TunForwarder :=
  MkForwarder (router f) (routeManager f) (aclEngine f) (planes f) (outboundStreams f) (udpStreams f) (udpFail f) r c
    (counters f) l s (wire f) (device f) (openConns f).
Definition set_counters (c : Counters) (f : TunForwarder) : TunForwarder :=
  MkForwarder (router f) (routeManager f) (aclEngine f) (planes f) (outboundStreams f) (udpStreams f) (udpFail f) (running f)
    (cancelled f) c (lastActivity f) (startedAt f) (wire f) (device f) (openConns f).
Definition log_wire (c : carrier) (b : list byte) (f : TunForwarder) : TunForwarder :=
  MkForwarder (router f) (routeManager f) (aclEngine f) (planes f) (outboundStreams f) (udpStreams f) (udpFail f) (running f)
    (cancelled f) (counters f) (lastActivity f) (startedAt f) (wire f ++ [(c, b)]) (device f) (openConns f).
Definition log_device (p : list byte) (f : TunForwarder) : TunForwarder :=
  MkForwarder (router f) (routeManager f) (aclEngine f) (planes f) (outboundStreams f) (udpStreams f) (udpFail f) (running f)
    (cancelled f) (counters f) (lastActivity f) (startedAt f) (wire f) (device f ++ [p]) (openConns f).

Definition count_sent (now n : Z) (f : TunForwarder) : TunForwarder :=
  let c := counters f in
  set_run (running f) (cancelled f) (startedAt f) now
    (set_counters (MkCounters (u64 (packetsSent c + 1)) (packetsReceived c) (packetsDropped c) (packetsSpoofed c)
                     (u64 (bytesSent c + n)) (bytesReceived c)) f).
Definition count_received (now n : Z) (f : TunForwarder) : TunForwarder :=
  let c := counters f in
  set_run (running f) (cancelled f) (startedAt f) now
    (set_counters (MkCounters (packetsSent c) (u64 (packetsReceived c + 1)) (packetsDropped c) (packetsSpoofed c)
                     (bytesSent c) (u64 (bytesReceived c + n))) f).
Definition count_dropped (f : TunForwarder) : TunForwarder :=
  let c := counters f in
  set_counters (MkCounters (packetsSent c) (packetsReceived c) (u64 (packetsDropped c + 1)) (packetsSpoofed c)
                  (bytesSent c) (bytesReceived c)) f.
Definition count_spoofed (f : TunForwarder) : TunForwarder :=
  let c := counters f in
  set_counters (MkCounters (packetsSent c) (packetsReceived c) (packetsDropped c) (u64 (packetsSpoofed c + 1))
                  (bytesSent c) (bytesReceived c)) f.

(** [hasDevice] and [hasNode] are whether the pointers are not nil. *)
Definition NewTunForwarder (hasDevice hasNode : bool) (r : option Router) (rm : option Subnets.RouteManager)
    (acl : option ACLEngine) (pm : Punch.PunchDataplaneManager) : result string TunForwarder :=
  if negb hasDevice then Err "tun-forwarder: Device is required"%string
  else match r with
       | None => Err "tun-forwarder: Router is required"%string
       | Some r =>
           if negb hasNode then Err "tun-forwarder: MeshNode is required"%string
           else Ok (MkForwarder r rm acl pm ∅ ∅ ∅ false false (MkCounters 0 0 0 0 0 0) 0 0 [] [] ∅)
       end.

(** [listen] is the error of the virtual port; the loops only start. *)
Definition Start (now : Z) (listen : option string) (f : TunForwarder) : option string * TunForwarder :=
  let f := set_run (running f) (cancelled f) now now f in
  if running f then (Some "tun-forwarder: already running"%string, f)
  else match listen with
       | Some e => (Some ("tun-forwarder: listen on port 0x5455: " +:+ e)%string, f)
       | None => (None, set_run true (cancelled f) now now f)
       end.

Definition entry_conns (m : gmap string outboundStreamEntry) : gset nat := list_to_set (conn ∘ snd <$> map_to_list m).
Definition Stop (f : TunForwarder) : TunForwarder :=
  if running f then
    let f := set_run false true (startedAt f) (lastActivity f) f in
    let f := set_outbound ∅ (openConns f ∖ entry_conns (outboundStreams f)) f in
    set_udp ∅ (udpFail f) (openConns f ∖ entry_conns (udpStreams f)) f
  else f.

Record TunForwarderStats : Type := MkStats {
  st_counters : Counters; LastActivityMs : Z; UptimeSec : Z; UDPStreams : Z; TCPStreams : Z
}.
Definition Stats (now : Z) (f : TunForwarder) : TunForwarderStats :=
  MkStats (counters f) (Z.quot (now - lastActivity f) (10 ^ 6)) (Z.quot (now - startedAt f) second)
    (Z.of_nat (size (udpStreams f))) (Z.of_nat (size (outboundStreams f))).

(** ** Packets and frames *)

Definition parseIP (v4 v6 : Z) (packet : list byte) : option IP :=
  if len packet <? 1 then None
  else
    let version := Z.shiftr (byte_at packet 0) 4 in
    if version =? 4 then if len packet <? 20 then None else Some (slice packet v4 (v4 + 4))
    else if version =? 6 then if len packet <? 40 then None else Some (slice packet v6 (v6 + 16))
    else None.
Definition parseDstIP : list byte -> option IP := parseIP 16 24.
Definition parseSrcIP : list byte -> option IP := parseIP 12 8.

Definition tun_frame (packet : list byte) : list byte := be_bytes 4 (u32 (len packet)) ++ packet.

Definition readFramedPacket {R} `{ReadWriter R} (r : R) : result string (list byte) * R :=
  match ReadFull tunPacketHeaderLen r with
  | (Err e, r) => (Err e, r)
  | (Ok header, r) =>
      let length := be_Z header in
      if (length =? 0) || (maxTunPacketSize <? length)
      then (Err ("invalid packet length " +:+ itoa length)%string, r)
      else ReadFull length r
  end.

(** ** From the device to the peers *)

(** What the node and the network answer while one packet is handled. *)
Record Net : Type := MkNet {
  now : Z; PeerEndpoints : string -> list string; punchDataplaneEnabled : bool; hasMuxTransport : bool;
  GetPunchedStream : string -> option nat; SameZone : string -> bool; PeerZone : string -> string;
  DialTUNUDPForPeer : string -> result string nat; DialVirtualPort : string -> result string nat;
  write_error : carrier -> option string
}.

(** A failing write closes both streams of the peer and starts the cooldown
    of its UDP path. *)
Definition closeOutboundStream (t : Z) (peerKey : string) (f : TunForwarder) : TunForwarder :=
  let f := match outboundStreams f !! peerKey with
           | Some e => set_outbound (delete peerKey (outboundStreams f)) (openConns f ∖ {[conn e]}) f
           | None => f
           end in
  match udpStreams f !! peerKey with
  | Some e =>
      let st := default (MkFail 0 0) (udpFail f !! peerKey) in
      set_udp (delete peerKey (udpStreams f)) (<[peerKey := MkFail t (fails st + 1)]> (udpFail f))
        (openConns f ∖ {[conn e]}) f
  | None => f
  end.

Definition ResetUDPCooldown (peerKey : string) (f : TunForwarder) : TunForwarder :=
  let f := match udpStreams f !! peerKey with
           | Some e => set_udp (delete peerKey (udpStreams f)) (udpFail f) (openConns f ∖ {[conn e]}) f
           | None => f
           end in
  set_udp (udpStreams f) (delete peerKey (udpFail f)) (openConns f) f.

Definition udp_cooldown (st : udpFailState) : Z :=
  Z.min (Z.shiftl udpCooldown (Z.min (fails st) 6)) udpCooldownMax.

(** [enabled] is [tunUDPStreamEnabled]. *)
Definition getUDPStream (enabled : bool) (n : Net) (peerKey : string) (f : TunForwarder) : result string nat * TunForwarder :=
  if negb enabled then
    (Err "tun-forwarder: 0x54 independent TUN stream disabled (session-stream path only)"%string, f)
  else if negb (SameZone n peerKey) && negb (String.eqb (PeerZone n peerKey) "") then
    (Err "tun-forwarder: cross-zone peer — Reality only"%string, f)
  else
    let fresh := match udpStreams f !! peerKey with
                 | Some e => if now n - createdAt e <? outboundStreamTTL then Some (conn e) else None
                 | None => None
                 end in
    match fresh with
    | Some c => (Ok c, f)
    | None =>
        if match udpFail f !! peerKey with Some st => now n - last st <? udp_cooldown st | None => false end
        then (Err "tun-forwarder: UDP path in cooldown"%string, f)
        else match DialTUNUDPForPeer n peerKey with
             | Err e =>
                 let st := default (MkFail 0 0) (udpFail f !! peerKey) in
                 (Err e, set_udp (udpStreams f) (<[peerKey := MkFail (now n) (fails st + 1)]> (udpFail f)) (openConns f) f)
             | Ok c =>
                 (Ok c, set_udp (<[peerKey := MkEntry c (now n)]> (udpStreams f)) (delete peerKey (udpFail f))
                          ({[c]} ∪ openConns f) f)
             end
    end.

Fixpoint punched (get : string -> option nat) (eps : list string) : option nat :=
  match eps with
  | [] => None
  | ep :: eps => match get ep with Some c => Some c | None => punched get eps end
  end.

Definition cached (t : Z) (peerKey : string) (f : TunForwarder) : option nat :=
  match outboundStreams f !! peerKey with
  | Some e => if t - createdAt e <? outboundStreamTTL then Some (conn e) else None
  | None => None
  end.

Definition getOutboundStream (n : Net) (peerKey : string) (f : TunForwarder) : result string carrier * TunForwarder :=
  let '(pd, pm) := Punch.Get (now n) peerKey (planes f) in
  let f := set_planes pm f in
  match pd with
  | Some i => (Ok (Plane i), f)
  | None =>
      match (if punchDataplaneEnabled n && hasMuxTransport n then punched (GetPunchedStream n) (PeerEndpoints n peerKey)
             else None) with
      | Some c => (Ok (Punched c), f)
      | None =>
          match getUDPStream tunUDPStreamEnabled n peerKey f with
          | (Ok c, f) => (Ok (Dialed c), f)
          | (Err _, f) =>
              match cached (now n) peerKey f with
              | Some c => (Ok (Dialed c), f)
              | None =>
                  let f := match outboundStreams f !! peerKey with
                           | Some _ => closeOutboundStream (now n) peerKey f | None => f end in
                  match DialVirtualPort n peerKey with
                  | Err e => (Err ("dial tun port: " +:+ e)%string, f)
                  | Ok newConn =>
                      match cached (now n) peerKey f with
                      | Some existing => (Ok (Dialed existing), f)
                      | None =>
                          (Ok (Dialed newConn),
                           set_outbound (<[peerKey := MkEntry newConn (now n)]> (outboundStreams f))
                             ({[newConn]} ∪ openConns f) f)
                      end
                  end
              end
          end
      end
  end.

(** [writeFramedPacket]: what the carrier puts on the wire. *)
Definition writeFramedPacket (n : Net) (c : carrier) (packet : list byte) (f : TunForwarder) : option string * TunForwarder :=
  match c with
  | Plane i =>
      match Punch.heap (planes f) !! i with
      | None => (None, f)
      | Some pd =>
          match Punch.Write (write_error n c) (tun_frame packet) pd with
          | (Ok _, Some d, pd) =>
              (None, log_wire c d (set_planes (Punch.MkManager (Punch.planes (planes f)) (<[i := pd]> (Punch.heap (planes f)))) f))
          | (Ok _, None, _) => (None, f)
          | (Err e, _, _) => (Some e, f)
          end
      end
  | _ => match write_error n c with
         | Some e => (Some e, f)
         | None => (None, log_wire c (tun_frame packet) f)
         end
  end.

Definition send_to (n : Net) (peerKey : string) (packet : list byte) (f : TunForwarder) : TunForwarder :=
  match getOutboundStream n peerKey f with
  | (Err _, f) => count_dropped f
  | (Ok c, f) =>
      match writeFramedPacket n c packet f with
      | (Some _, f) => closeOutboundStream (now n) peerKey (count_dropped f)
      | (None, f) => count_sent (now n) (len packet) f
      end
  end.

(** One packet of [tunReadLoop]; [range] is the order in which the networks
    are searched. *)
Definition handle_outbound (range : gset string -> list string) (n : Net) (packet : list byte) (f : TunForwarder)
  : TunForwarder :=
  match parseDstIP packet with
  | None => count_dropped f
  | Some dstIP =>
      let r := router f in
      if IsLocalIP r dstIP && match ResolveIP r dstIP with None => true | Some k => IsSelf r k end
      then count_dropped f
      else if negb (IsInSubnet r dstIP) then
        match routeManager f with
        | None => count_dropped f
        | Some rm =>
            match Subnets.ResolveSubnetProxy range dstIP rm with
            | None => count_dropped f
            | Some gwVirtualIP =>
                match ResolveIP r (default [] (ParseIP gwVirtualIP)) with
                | None => count_dropped f
                | Some peerKey => if IsSelf r peerKey then count_dropped f else send_to n peerKey packet f
                end
            end
        end
      else match ResolveIP r dstIP with
           | None => count_dropped f
           | Some peerKey => if IsSelf r peerKey then count_dropped f else send_to n peerKey packet f
           end
  end.

(** [tunReadLoop] over what the reads of the device return; an empty read is
    passed over, and so is an error that does not end the loop. *)
Definition tunReadLoop (range : gset string -> list string) (reads : list (Net * list byte)) (f : TunForwarder)
  : TunForwarder :=
  foldl (fun f r => if cancelled f then f else match r.2 with [] => f | _ => handle_outbound range r.1 r.2 f end) f reads.

(** ** From the peers to the device *)

Definition validateSourceIP (range : gset string -> list string) (r : Router) (rm : option Subnets.RouteManager)
    (packet : list byte) (peerID : string) : bool :=
  match parseSrcIP packet with
  | None => false
  | Some srcIP =>
      match ResolvePeer r peerID with
      | None => if String.eqb peerID "" then false else IsInSubnet r srcIP
      | Some expectedIP =>
          if ip_Equal expectedIP srcIP then true
          else if IsInSubnet r srcIP && bool_decide (is_Some (ResolveIP r srcIP)) then true
          else if negb (IsInSubnet r srcIP) then
            match rm with
            | None => false
            | Some rm => match Subnets.ResolveSubnetProxy range srcIP rm with
                         | Some gw => String.eqb gw (ip_String expectedIP)
                         | None => false
                         end
            end
          else false
      end
  end.
Definition ValidateSourceIP (range : gset string -> list string) (f : TunForwarder) : list byte -> string -> bool :=
  validateSourceIP range (router f) (routeManager f).

(** One packet of an inbound stream; [dev_ok] is whether the device takes
    it. *)
Definition handle_inbound (range : gset string -> list string) (t : Z) (dev_ok : list byte -> bool) (peerID : string)
    (packet : list byte) (f : TunForwarder) : TunForwarder :=
  if String.eqb peerID "" then count_spoofed f
  else if negb (ValidateSourceIP range f packet peerID) then count_spoofed f
  else
    let '(f, allowed) := match aclEngine f with
                         | None => (f, true)
                         | Some e => let '(e, ok) := Check e packet peerID in (set_acl (Some e) f, ok)
                         end in
    if negb allowed then count_dropped f
    else if dev_ok packet then count_received t (len packet) (log_device packet f)
    else count_dropped f.

(** [handleInboundStream]: the fuel bounds the number of packets. *)
Fixpoint handleInboundStream {R} `{ReadWriter R} (range : gset string -> list string) (clock : nat -> Z)
    (dev_ok : list byte -> bool) (peerID : string) (fuel : nat) (r : R) (f : TunForwarder) : TunForwarder :=
  match fuel with
  | O => f
  | S fuel =>
      if cancelled f then f
      else match readFramedPacket r with
           | (Err _, _) => f
           | (Ok packet, r) =>
               handleInboundStream range clock dev_ok peerID fuel r
                 (handle_inbound range (clock fuel) dev_ok peerID packet f)
           end
  end.

(** A datagram of a raw plane: [Feed] with the test of the source, as
    internal/app/holepunch.go builds planes. *)
Definition handle_datagram (range : gset string -> list string) (t : Z) (dev_ok : list byte -> bool) (i : nat)
    (data : list byte) (f : TunForwarder) : TunForwarder :=
  match Punch.heap (planes f) !! i with
  | None => f
  | Some pd =>
      let '(w, pd) := Punch.Feed t (Some (ValidateSourceIP range f)) dev_ok data pd in
      let f := set_planes (Punch.MkManager (Punch.planes (planes f)) (<[i := pd]> (Punch.heap (planes f)))) f in
      match w with Some p => log_device p f | None => f end
  end.

(** ** Inbound streams *)

Definition acl_allows (acl : option ACLEngine) (packet : list byte) (peer : string) : bool :=
  match acl with None => true | Some e => (Check e packet peer).2 end.

(** A packet that the device is given. *)
Definition admitted (range : gset string -> list string) (f : TunForwarder) (peerID : string) (packet : list byte) : bool :=
  negb (String.eqb peerID "") && ValidateSourceIP range f packet peerID && acl_allows (aclEngine f) packet peerID.

(** Counting changes no decision. *)
Lemma Check_stable e p k p' k' : (Check (Check e p k).1 p' k').2 = (Check e p' k').2.
Proof.
  destruct e as [[snap|] a d]; [|done]. unfold Check at 2. cbn [snapshot]. destruct (enabled snap) eqn:En; cbn [negb]; [|done].
  assert (forall s2 a2 d2, enabled s2 = enabled snap -> defaultPolicy s2 = defaultPolicy snap -> rules s2 = rules snap ->
    (Check (MkEngine (Some s2) a2 d2) p' k').2 = (Check (MkEngine (Some snap) a d) p' k').2) as H.
  { intros s2 a2 d2 H1 H2 H3. unfold Check. cbn [snapshot]. rewrite H1, H2, H3, En. cbn [negb].
    destruct (parsePacketInfo p'); [|done]. destruct (scan _ _ _ _) as [[? ?]|]; done. }
  cbv zeta. destruct (parsePacketInfo p) as [info|]; [destruct (scan _ _ _ _) as [[i r]|]|]; cbn [fst]; unfold count;
    case_match; by apply H.
Qed.

(** What handling a packet leaves as it was. *)
Definition same_rules (f f' : TunForwarder) : Prop :=
  router f' = router f /\ routeManager f' = routeManager f /\ cancelled f' = cancelled f /\
  forall p k, acl_allows (aclEngine f') p k = acl_allows (aclEngine f) p k.
Lemma same_admitted range f f' k p : same_rules f f' -> admitted range f' k p = admitted range f k p.
Proof. intros (H1 & H2 & _ & H3). unfold admitted, ValidateSourceIP. by rewrite H1, H2, H3. Qed.

Definition spoofed (range : gset string -> list string) (f : TunForwarder) (peerID : string) (packet : list byte) : bool :=
  String.eqb peerID "" || negb (ValidateSourceIP range f packet peerID).

Lemma handle_inbound_spec range t peerID p f :
  let f' := handle_inbound range t (fun _ => true) peerID p f in
  let c := counters f in
  same_rules f f' /\ device f' = device f ++ (if admitted range f peerID p then [p] else []) /\
  counters f' = (if admitted range f peerID p
                 then MkCounters (packetsSent c) (u64 (packetsReceived c + 1)) (packetsDropped c) (packetsSpoofed c)
                        (bytesSent c) (u64 (bytesReceived c + len p))
                 else if spoofed range f peerID p
                 then MkCounters (packetsSent c) (packetsReceived c) (packetsDropped c) (u64 (packetsSpoofed c + 1))
                        (bytesSent c) (bytesReceived c)
                 else MkCounters (packetsSent c) (packetsReceived c) (u64 (packetsDropped c + 1)) (packetsSpoofed c)
                        (bytesSent c) (bytesReceived c)).
Proof.
  cbn zeta. unfold handle_inbound, admitted, spoofed. destruct (String.eqb peerID ""); cbn [negb andb orb].
  { split_and!; [done | by rewrite app_nil_r | done]. }
  destruct (ValidateSourceIP range f p peerID); cbn [negb andb]; [|split_and!; [done | by rewrite app_nil_r | done]].
  destruct (aclEngine f) as [e|] eqn:Ee; [|split_and!; [|done..]; by split_and!; try done; rewrite Ee].
  pose proof (Check_stable e p peerID) as Hst. unfold acl_allows at 1 2. destruct (Check e p peerID) as [e' ok]. cbn [fst snd] in *.
  assert (same_rules f (set_acl (Some e') f)) as Hs by (split_and!; try done; intros p' k'; cbn; by rewrite Ee, Hst).
  destruct ok; cbn [negb]; (split_and!; [exact Hs | | done]); [done | by rewrite app_nil_r].
Qed.
(** *** The stream of a peer *)

Definition tun_packet (p : list byte) : Prop := 0 < len p <= maxTunPacketSize.

(** The bytes after the last whole frame: nothing, a frame that is cut off,
    or a length that is refused. *)
Definition no_frame (l : list byte) : Prop :=
  len l < 4 \/ len l - 4 < be_Z (take 4 l) \/ be_Z (take 4 l) = 0 \/ maxTunPacketSize < be_Z (take 4 l).

Section Streams.
Context {R : Type} `{Stream R}.

Lemma readFramedPacket_frame p rest r : tun_packet p -> v_in (view r) = tun_frame p ++ rest ->
  exists r', readFramedPacket r = (Ok p, r') /\ v_in (view r') = rest.
Proof.
  intros Hp Hv. unfold tun_packet, maxTunPacketSize, tun_frame in *. unfold readFramedPacket, tunPacketHeaderLen.
  rewrite u32_small in Hv by lia. rewrite <-app_assoc in Hv.
  destruct (ReadFull_view 4 r) as (r1 & -> & Hv1). unfold v_full. rewrite Hv.
  change (Z.to_nat 4) with 4%nat. rewrite (proj2 (Z.leb_gt 4 0)), (proj2 (Z.leb_le 4 _)) by (rewrite ?length_app, ?be_bytes_length; lia).
  rewrite take_app_length' by (by rewrite be_bytes_length). rewrite be_Z_u32 by lia.
  assert (v_in (view r1) = p ++ rest) as Hv2
    by (rewrite Hv1; unfold v_after, set_in; cbn [v_in]; rewrite Hv; by rewrite drop_app_length' by (by rewrite be_bytes_length)).
  rewrite (proj2 (Z.eqb_neq _ _)), (proj2 (Z.ltb_ge _ _)) by (unfold maxTunPacketSize; lia). cbn [orb].
  destruct (ReadFull_view (len p) r1) as (r2 & -> & Hv3). unfold v_full. rewrite Hv2.
  rewrite (proj2 (Z.leb_gt _ 0)), (proj2 (Z.leb_le _ _)) by (rewrite ?length_app; lia).
  rewrite take_app_length' by lia. exists r2. split; [done|].
  rewrite Hv3. unfold v_after, set_in. cbn [v_in]. rewrite Hv2. by rewrite drop_app_length' by lia.
Qed.

Lemma readFramedPacket_none r : no_frame (v_in (view r)) -> exists e r', readFramedPacket r = (Err e, r').
Proof.
  intros Hn. unfold readFramedPacket, tunPacketHeaderLen. destruct (ReadFull_view 4 r) as (r1 & -> & Hv1). unfold v_full.
  change (4 <=? 0) with false. cbv iota. destruct (Z.leb_spec 4 (len (v_in (view r)))); [|by repeat eexists].
  change (Z.to_nat 4) with 4%nat. case_match eqn:E; [by repeat eexists|]. apply orb_false_iff in E as [E1 E2].
  apply Z.eqb_neq in E1. apply Z.ltb_ge in E2. destruct Hn as [? | [Hs | [? | ?]]]; [lia | | done | lia].
  destruct (ReadFull_view (be_Z (take 4 (v_in (view r)))) r1) as (r2 & -> & _). unfold v_full.
  pose proof (be_Z_range (take 4 (v_in (view r)))). rewrite (proj2 (Z.leb_gt _ 0)) by lia.
  rewrite (proj2 (Z.leb_gt _ _)); [by repeat eexists|]. rewrite Hv1. unfold v_after, set_in. cbn [v_in].
  rewrite length_drop. lia.
Qed.

Lemma u64_add a b : u64 (u64 a + b) = u64 (a + b).
Proof. unfold u64. by rewrite Zplus_mod_idemp_l. Qed.

Lemma inbound_loop range clock peerID ps : forall fuel r rest f,
  (length ps < fuel)%nat -> cancelled f = false -> Forall tun_packet ps -> no_frame rest ->
  v_in (view r) = concat (tun_frame <$> ps) ++ rest ->
  let f' := handleInboundStream range clock (fun _ => true) peerID fuel r f in
  same_rules f f' /\ device f' = device f ++ filter (fun p => admitted range f peerID p) ps /\
  u64 (packetsReceived (counters f')) = u64 (packetsReceived (counters f) + len (filter (fun p => admitted range f peerID p) ps)) /\
  u64 (packetsSpoofed (counters f')) = u64 (packetsSpoofed (counters f) + len (filter (fun p => spoofed range f peerID p) ps)) /\
  u64 (packetsReceived (counters f') + packetsSpoofed (counters f') + packetsDropped (counters f')) =
    u64 (packetsReceived (counters f) + packetsSpoofed (counters f) + packetsDropped (counters f) + len ps).
Proof.
  induction ps as [|p ps IH]; intros fuel r rest f Hfuel Hcan Hps Hrest Hv; destruct fuel as [|fuel]; cbn [length] in Hfuel; try lia;
    cbn [handleInboundStream]; rewrite Hcan.
  - cbn in Hv. rewrite <-Hv in Hrest. destruct (readFramedPacket_none r Hrest) as (e & r' & ->).
    rewrite !filter_nil, app_nil_r. cbn [length]. rewrite !Z.add_0_r. by split_and!.
  - apply Forall_cons in Hps as [Hp Hps]. rewrite fmap_cons in Hv. cbn [concat] in Hv. rewrite <-app_assoc in Hv.
    destruct (readFramedPacket_frame p _ r Hp Hv) as (r' & -> & Hv').
    pose proof (handle_inbound_spec range (clock fuel) peerID p f) as (Hs & Hd & Hc). cbn zeta in Hs, Hd, Hc.
    set (f1 := handle_inbound range (clock fuel) (λ _ : list byte, true) peerID p f) in *.
    assert (cancelled f1 = false) as Hcan1 by (destruct Hs as (_ & _ & -> & _); exact Hcan).
    specialize (IH fuel r' rest f1 ltac:(lia) Hcan1 Hps Hrest Hv'). cbn zeta in IH. destruct IH as (Hs2 & Hd2 & Hr2 & Hsp2 & Hsum).
    assert (forall q, admitted range f1 peerID q = admitted range f peerID q) as Ha by (intros q; by apply same_admitted).
    assert (forall q, spoofed range f1 peerID q = spoofed range f peerID q) as Hspoof
      by (intros q; unfold spoofed, ValidateSourceIP; destruct Hs as (-> & -> & _); done).
    assert (forall l, filter (fun q => admitted range f1 peerID q) l = filter (fun q => admitted range f peerID q) l) as Hfa
      by (intros l; apply list_filter_iff; intros q; by rewrite Ha).
    assert (forall l, filter (fun q => spoofed range f1 peerID q) l = filter (fun q => spoofed range f peerID q) l) as Hfs
      by (intros l; apply list_filter_iff; intros q; by rewrite Hspoof).
    rewrite Hfa in Hd2, Hr2. rewrite Hfs in Hsp2.
    split; [|split; [|clear Hd Hd2; split_and!]].
    + destruct Hs as (E1 & E2 & E3 & E4), Hs2 as (F1 & F2 & F3 & F4). split_and!; [congruence..|].
      intros q k. by rewrite F4, E4.
    + rewrite Hd2, Hd, <-app_assoc, filter_cons. destruct (admitted range f peerID p); [by rewrite decide_True|].
      by rewrite decide_False by (intros []).
    + rewrite Hr2, Hc, filter_cons. destruct (admitted range f peerID p); [rewrite decide_True by done | rewrite decide_False by (intros [])].
      * cbn [packetsReceived length]. rewrite u64_add. f_equal. lia.
      * by destruct (spoofed range f peerID p).
    + rewrite Hsp2, Hc, filter_cons. destruct (admitted range f peerID p) eqn:Ea.
      * assert (spoofed range f peerID p = false) as ->.
        { unfold admitted in Ea. unfold spoofed. apply andb_true_iff in Ea as [[E1 E2]%andb_true_iff _].
          rewrite E2. by destruct (String.eqb peerID ""). }
        rewrite decide_False by (intros []). done.
      * destruct (spoofed range f peerID p); [rewrite decide_True by done | by rewrite decide_False by (intros [])].
        cbn [packetsSpoofed length]. rewrite u64_add. f_equal. lia.
    + rewrite Hsum, Hc. destruct (admitted range f peerID p); [|destruct (spoofed range f peerID p)];
        cbn [packetsReceived packetsSpoofed packetsDropped length].
      * rewrite <-!Z.add_assoc, u64_add. f_equal. lia.
      * rewrite (Z.add_comm (packetsReceived _)), <-!Z.add_assoc, u64_add. f_equal. lia.
      * rewrite (Z.add_comm _ (u64 _)), <-!Z.add_assoc, u64_add. f_equal. lia.
Qed.
End Streams.
(** ** What is sent to whom *)

#[export] Instance carrier_eq_dec : EqDecision carrier.
Proof. solve_decision. Defined.
Definition bytes_on (c : carrier) (w : list (carrier * list byte)) : list byte :=
  concat (snd <$> filter (fun x => x.1 = c) w).

(** The packet is for peer [k]: its destination is [k]'s address, or lies in
    a network whose gateway is [k]'s address. *)
Definition addressed (range : gset string -> list string) (r : Router) (rm : option Subnets.RouteManager)
    (p : list byte) (k : string) : Prop :=
  k <> localPubKey r /\ exists dst, parseDstIP p = Some dst /\
    ((IsInSubnet r dst = true /\ ResolveIP r dst = Some k) \/
     (IsInSubnet r dst = false /\ exists m gw, rm = Some m /\ Subnets.ResolveSubnetProxy range dst m = Some gw /\
        ResolveIP r (default [] (ParseIP gw)) = Some k)).

Section Owners.
(** Whose stream a dialled stream is. *)
Variable owner : nat -> string.

Definition dials (n : Net) : Prop := forall k c, DialVirtualPort n k = Ok c -> owner c = k.

Definition owned (f : TunForwarder) : Prop := forall k e, outboundStreams f !! k = Some e -> owner (conn e) = k.

(** The packets that were sent on each stream. *)
Definition carries (range : gset string -> list string) (f0 : TunForwarder) (f : TunForwarder) (s : nat) (ps : list (list byte)) : Prop :=
  bytes_on (Dialed s) (wire f) = bytes_on (Dialed s) (wire f0) ++ concat (tun_frame <$> ps) /\
  Forall (fun p => addressed range (router f0) (routeManager f0) p (owner s)) ps.

Definition same_tables (f f' : TunForwarder) : Prop := router f' = router f /\ routeManager f' = routeManager f.

Lemma close_cache t k k' e f : outboundStreams (closeOutboundStream t k f) !! k' = Some e -> outboundStreams f !! k' = Some e.
Proof.
  unfold closeOutboundStream. cbv zeta.
  assert (forall g : TunForwarder, outboundStreams (match udpStreams g !! k with
     | Some e0 => set_udp (delete k (udpStreams g)) (<[k:=MkFail t (fails (default (MkFail 0 0) (udpFail g !! k)) + 1)]> (udpFail g)) (openConns g ∖ {[conn e0]}) g
     | None => g end) = outboundStreams g) as -> by (intros g; by destruct (udpStreams g !! k)).
  destruct (outboundStreams f !! k) eqn:E; [|done]. cbn. by intros [_ ?]%lookup_delete_Some.
Qed.
Lemma close_same t k f : same_tables f (closeOutboundStream t k f) /\ wire (closeOutboundStream t k f) = wire f /\
  cancelled (closeOutboundStream t k f) = cancelled f.
Proof. unfold closeOutboundStream. cbv zeta. destruct (outboundStreams f !! k); cbn; destruct (udpStreams f !! k); done. Qed.

Lemma cached_owned t k c f : owned f -> cached t k f = Some c -> owner c = k.
Proof.
  intros Ho Hc. unfold cached in Hc. destruct (outboundStreams f !! k) as [e|] eqn:E; [|done].
  destruct (_ <? _); [|done]. injection Hc as <-. eauto.
Qed.

(** The stream that a peer gets is its own. *)
Lemma getOutboundStream_owned n k f : dials n -> owned f ->
  let p := getOutboundStream n k f in
  owned p.2 /\ same_tables f p.2 /\ wire p.2 = wire f /\ cancelled p.2 = cancelled f /\
  (forall c, p.1 = Ok (Dialed c) -> owner c = k).
Proof.
  intros Hd Ho. unfold getOutboundStream, getUDPStream, tunUDPStreamEnabled. cbn [negb].
  destruct (Punch.Get (now n) k (planes f)) as [pd pm].
  assert (forall x, (forall c, x <> Dialed c) -> let p := (Ok x, set_planes pm f) : result string carrier * TunForwarder in
    owned p.2 /\ same_tables f p.2 /\ wire p.2 = wire f /\ cancelled p.2 = cancelled f /\ (forall c, p.1 = Ok (Dialed c) -> owner c = k)) as Hno
    by (intros x Hx; split_and!; [exact Ho | done | done | done | by intros c [= E]; destruct (Hx c)]).
  destruct pd as [i|]; [by apply Hno|].
  destruct (if _ && _ then _ else _) as [c|]; [by apply Hno|]. set (f1 := set_planes pm f). assert (owned f1) as Ho1 by exact Ho.
  destruct (cached (now n) k f1) as [c|] eqn:Ec; [cbn [fst snd]; split_and!; [exact Ho1 | done | done | done | intros ? [= <-]; by eapply cached_owned]|].
  set (f2 := match outboundStreams f1 !! k with Some _ => closeOutboundStream (now n) k f1 | None => f1 end).
  assert (owned f2 /\ same_tables f f2 /\ wire f2 = wire f /\ cancelled f2 = cancelled f) as (Ho2 & Ht2 & Hw2 & Hc2).
  { subst f2. destruct (outboundStreams f1 !! k); [|done]. destruct (close_same (now n) k f1) as (? & ? & ?).
    split_and!; try done. intros k' e He. eapply Ho1, close_cache, He. }
  destruct (DialVirtualPort n k) as [c|e] eqn:Edial; [|cbn [fst snd]; split_and!; [exact Ho2 | done | done | done | done]].
  destruct (cached (now n) k f2) as [c'|] eqn:Ec2; cbn [fst snd]; [split_and!; [exact Ho2 | done | done | done | intros ? [= <-]; by eapply cached_owned]|].
  split_and!; [|done | done | done | intros ? [= <-]; by apply Hd]. intros k' e. cbn.
  destruct (decide (k' = k)) as [->|]; [rewrite lookup_insert_eq; intros [= <-]; by apply Hd|].
  rewrite lookup_insert_ne by done. apply Ho2.
Qed.

Lemma bytes_on_app c w w' : bytes_on c (w ++ w') = bytes_on c w ++ bytes_on c w'.
Proof. unfold bytes_on. by rewrite filter_app, fmap_app, concat_app. Qed.

(** What one packet adds to the wire. *)
Lemma writeFramedPacket_wire n c p f :
  let f' := (writeFramedPacket n c p f).2 in
  (forall s, bytes_on (Dialed s) (wire f') = bytes_on (Dialed s) (wire f) \/
     (c = Dialed s /\ bytes_on (Dialed s) (wire f') = bytes_on (Dialed s) (wire f) ++ tun_frame p)) /\
  same_tables f f' /\ cancelled f' = cancelled f /\ outboundStreams f' = outboundStreams f.
Proof.
  assert (forall c' b s, c' <> Dialed s -> bytes_on (Dialed s) (wire f ++ [(c', b)]) = bytes_on (Dialed s) (wire f)) as Hother.
  { intros c' b s Hne. rewrite bytes_on_app. unfold bytes_on at 2. rewrite filter_cons, filter_nil. cbn [fst].
    rewrite decide_False by done. by rewrite app_nil_r. }
  destruct c as [i | i | i]; unfold writeFramedPacket.
  - destruct (Punch.heap (planes f) !! i) as [pd|]; [|split_and!; eauto; done].
    destruct (Punch.Write _ _ _) as [[[e|m] [d|]] pd']; cbn [snd]; split_and!; eauto; try done.
    intros s. left. by apply Hother.
  - destruct (write_error _ _); cbn [snd]; split_and!; eauto; try done. intros s. left. by apply Hother.
  - destruct (write_error _ _); cbn [snd]; split_and!; eauto; try done. intros s.
    destruct (decide (i = s)) as [->|Hne]; [|left; apply Hother; congruence]. right. split; [done|]. cbn [log_wire wire].
    rewrite bytes_on_app. f_equal. unfold bytes_on. rewrite filter_cons, filter_nil. cbn [fst].
    rewrite decide_True by done. cbn. by rewrite app_nil_r.
Qed.

Definition extends (range : gset string -> list string) (f f' : TunForwarder) (p : list byte) : Prop :=
  owned f' /\ same_tables f f' /\ cancelled f' = cancelled f /\
  forall s, bytes_on (Dialed s) (wire f') = bytes_on (Dialed s) (wire f) \/
    (addressed range (router f) (routeManager f) p (owner s) /\
     bytes_on (Dialed s) (wire f') = bytes_on (Dialed s) (wire f) ++ tun_frame p).

Lemma send_to_extends range n k p f : dials n -> owned f -> addressed range (router f) (routeManager f) p k ->
  extends range f (send_to n k p f) p.
Proof.
  intros Hd Ho Ha. unfold send_to. destruct (getOutboundStream_owned n k f Hd Ho) as (Ho1 & Ht1 & Hw1 & Hc1 & Hown).
  destruct (getOutboundStream n k f) as [[c|e] f1]; cbn [fst snd] in *.
  2: { split_and!; [exact Ho1 | done | done |]. intros s. left. cbn. by rewrite Hw1. }
  pose proof (writeFramedPacket_wire n c p f1) as (Hw & Ht2 & Hc2 & Hout). cbn zeta in *.
  destruct (writeFramedPacket n c p f1) as [err f2]. cbn [snd] in *.
  assert (same_tables f f2) as Ht by (destruct Ht1, Ht2; split; congruence).
  assert (owned f2) as Ho2 by (intros k' e; rewrite Hout; apply Ho1).
  assert (forall s, bytes_on (Dialed s) (wire f2) = bytes_on (Dialed s) (wire f) \/
    (addressed range (router f) (routeManager f) p (owner s) /\
     bytes_on (Dialed s) (wire f2) = bytes_on (Dialed s) (wire f) ++ tun_frame p)) as Hb.
  { intros s. destruct (Hw s) as [E|[-> E]]; rewrite E, Hw1; [by left|]. right. split; [|done]. by rewrite (Hown s eq_refl). }
  destruct err.
  - destruct (close_same (now n) k (count_dropped f2)) as ([T1 T2] & W & C).
    cbn [count_dropped set_counters router routeManager cancelled wire] in T1, T2, W, C.
    split_and!; [|destruct Ht; split; congruence | congruence | by rewrite W].
    intros k' e He. eapply Ho2. exact (close_cache _ _ _ _ _ He).
  - split_and!; [exact Ho2 | done | cbn; congruence | done].
Qed.

Lemma keep_extends range f f' p : owned f -> outboundStreams f' = outboundStreams f -> same_tables f f' ->
  cancelled f' = cancelled f -> wire f' = wire f -> extends range f f' p.
Proof.
  intros Ho E1 E2 E3 E4. split_and!; try done; [intros k e; rewrite E1; apply Ho|]. intros s. left. by rewrite E4.
Qed.

Lemma handle_outbound_extends range n p f : dials n -> owned f -> extends range f (handle_outbound range n p f) p.
Proof.
  intros Hd Ho. assert (extends range f (count_dropped f) p) as Hdrop by by apply keep_extends.
  unfold handle_outbound. destruct (parseDstIP p) as [dst|] eqn:Ep; [|done]. cbv zeta. destruct (_ && match _ with Some _ => _ | None => _ end); [done|].
  destruct (IsInSubnet (router f) dst) eqn:Ein; cbn [negb].
  - destruct (ResolveIP (router f) dst) as [k|] eqn:Er; [|done]. destruct (IsSelf (router f) k) eqn:Es; [done|].
    apply send_to_extends; [done | done |]. apply String.eqb_neq in Es. split; [done|]. exists dst. split; [done|]. by left.
  - destruct (routeManager f) as [m|] eqn:Em; [|done]. destruct (Subnets.ResolveSubnetProxy range dst m) as [gw|] eqn:Eg; [|done].
    destruct (ResolveIP (router f) _) as [k|] eqn:Er; [|done]. destruct (IsSelf (router f) k) eqn:Es; [done|].
    apply send_to_extends; [done | done |]. apply String.eqb_neq in Es. split; [done|]. exists dst. split; [done|].
    right. split; [done|]. exists m, gw. by rewrite Em.
Qed.

Lemma tunReadLoop_carries range reads : forall f,
  Forall (fun r => dials r.1) reads -> owned f ->
  forall s, exists ps, carries range f (tunReadLoop range reads f) s ps /\ ps `sublist_of` reads.*2.
Proof.
  induction reads as [|[n p] reads IH]; intros f Hd Ho s; cbn [tunReadLoop foldl].
  { exists []. split; [|done]. split; [by rewrite app_nil_r | done]. }
  apply Forall_cons in Hd as [Hn Hd]. cbn [fst snd fmap list_fmap] in *.
  set (f1 := if cancelled f then f else match p with [] => f | _ => handle_outbound range n p f end).
  assert (extends range f f1 p) as (Ho1 & [T1 T2] & _ & Hw).
  { subst f1. destruct (cancelled f); [by apply keep_extends|]. destruct p; [by apply keep_extends | by apply handle_outbound_extends]. }
  destruct (IH f1 Hd Ho1 s) as (ps & [Hb Hps] & Hsub). rewrite T1, T2 in Hps.
  change (foldl _ f1 reads) with (tunReadLoop range reads f1). destruct (Hw s) as [E|[Ha E]]; rewrite E in Hb.
  - exists ps. split; [by split | by apply sublist_cons].
  - exists (p :: ps). split; [|by apply sublist_skip]. split; [|by constructor]. rewrite fmap_cons. cbn [concat]. by rewrite Hb, <-app_assoc.
Qed.
End Owners.

(** ** What peers can send *)

(** What reaches the device from the stream of a peer, whatever pieces it
    arrives in: of the packets before the first cut or refused frame exactly
    those that pass the test of the source and the access rules, in order;
    and every packet is counted once, as received, as spoofed when its source
    fails the test, or as dropped. *)
Theorem inbound_exact {R} `{Stream R} range clock peerID ps rest fuel (r : R) f :
  (length ps < fuel)%nat -> cancelled f = false -> Forall tun_packet ps -> no_frame rest ->
  v_in (view r) = concat (tun_frame <$> ps) ++ rest ->
  let f' := handleInboundStream range clock (fun _ => true) peerID fuel r f in
  device f' = device f ++ filter (fun p => admitted range f peerID p) ps /\
  u64 (packetsReceived (counters f')) = u64 (packetsReceived (counters f) + len (filter (fun p => admitted range f peerID p) ps)) /\
  u64 (packetsSpoofed (counters f')) = u64 (packetsSpoofed (counters f) + len (filter (fun p => spoofed range f peerID p) ps)) /\
  u64 (packetsReceived (counters f') + packetsSpoofed (counters f') + packetsDropped (counters f')) =
    u64 (packetsReceived (counters f) + packetsSpoofed (counters f) + packetsDropped (counters f) + len ps).
Proof. intros Hl Hc Hp Hn Hv. by destruct (inbound_loop range clock peerID ps fuel r rest f Hl Hc Hp Hn Hv). Qed.

Definition mesh_net : IPNet := MkIPNet [x0a; x64; x00; x00] (CIDRMask 24 32).
Definition vip_a : IP := [x0a; x64; x00; x01].
Definition vip_b : IP := [x0a; x64; x00; x02].
Definition vip_c : IP := [x0a; x64; x00; x03].
Definition packet (src dst : IP) : list byte :=
  [x45; x00; x00; x14; x00; x00; x00; x00; x40; x01; x00; x00] ++ src ++ dst.
Definition node_a : Router :=
  AddRoute (AddRoute (SetLocalIP (NewRouter (Some mesh_net) "a") vip_a) vip_b "b") vip_c "c".
Definition node_b : Router :=
  AddRoute (AddRoute (SetLocalIP (NewRouter (Some mesh_net) "b") vip_b) vip_a "a") vip_c "c".
Definition forwarder (r : Router) (acl : option ACLEngine) : TunForwarder :=
  MkForwarder r None acl Punch.NewPunchDataplaneManager ∅ ∅ ∅ true false (MkCounters 0 0 0 0 0 0) 0 0 [] [] ∅.
Definition stream_of (pieces : list (list byte)) : Conn := MkConn pieces AtEOF [] None None false.
Definition outsider : IP := [x08; x08; x08; x08].
Lemma inbound_exact_witness :
  let good := packet vip_a vip_b in let bad := packet outsider vip_b in
  let b := tun_frame good ++ tun_frame bad ++ take 9 (tun_frame good) in
  let f := forwarder node_b None in
  let f' := handleInboundStream elements (fun _ => 1) (fun _ => true) "a" 4 (stream_of [take 3 b; drop 3 b]) f in
  device f' = [good] /\
  (device f' = device f ++ filter (fun p => admitted elements f "a" p) [good; bad] /\
   u64 (packetsReceived (counters f')) = u64 (packetsReceived (counters f) + len (filter (fun p => admitted elements f "a" p) [good; bad])) /\
   u64 (packetsSpoofed (counters f')) = u64 (packetsSpoofed (counters f) + len (filter (fun p => spoofed elements f "a" p) [good; bad])) /\
   u64 (packetsReceived (counters f') + packetsSpoofed (counters f') + packetsDropped (counters f')) =
     u64 (packetsReceived (counters f) + packetsSpoofed (counters f) + packetsDropped (counters f) + len [good; bad])).
Proof.
  split; [vm_compute; reflexivity|].
  apply (inbound_exact elements (fun _ => 1) "a" _ (take 9 (tun_frame (packet vip_a vip_b)))); [cbn; lia | done | | |].
  - repeat constructor; vm_compute; congruence.
  - right. left. vm_compute. done.
  - vm_compute. reflexivity.
Defined.

(** C3. Two nodes: what the sender's device yields while the peers' answers are
    whatever they are, what it puts on a stream, and what the receiver's
    device is given from that stream. The stream carries the frames of some
    of the packets, in order, each of them for the peer the stream was
    dialled to (never for another peer or the node itself), and the receiver
    gives its device exactly those it admits. *)
Theorem tunnel_delivers {R} `{Stream R} owner rangeA rangeB reads fA s clock fuel peerA (r : R) fB :
  Forall (fun x => dials owner x.1 /\ len x.2 <= maxTunPacketSize) reads ->
  outboundStreams fA = ∅ -> wire fA = [] -> cancelled fB = false -> (length reads < fuel)%nat ->
  v_in (view r) = bytes_on (Dialed s) (wire (tunReadLoop rangeA reads fA)) ->
  exists ps, ps `sublist_of` reads.*2 /\
    bytes_on (Dialed s) (wire (tunReadLoop rangeA reads fA)) = concat (tun_frame <$> ps) /\
    Forall (fun p => addressed rangeA (router fA) (routeManager fA) p (owner s)) ps /\
    device (handleInboundStream rangeB clock (fun _ => true) peerA fuel r fB) =
      device fB ++ filter (fun p => admitted rangeB fB peerA p) ps.
Proof.
  intros Hreads Hcache Hwire Hcan Hfuel Hv. apply Forall_and in Hreads as [Hd Hlen].
  assert (owned owner fA) as Ho by (intros k e; by rewrite Hcache).
  destruct (tunReadLoop_carries owner rangeA reads fA Hd Ho s) as (ps & [Hb Hps] & Hsub).
  rewrite Hwire in Hb. cbn in Hb. exists ps. split_and!; [done | done | done |].
  assert (Forall tun_packet ps) as Hpk.
  { apply Forall_forall. intros p Hp. rewrite Forall_forall in Hps. destruct (Hps p Hp) as (_ & dst & Hdst & _). split.
    - destruct p; [done | cbn; lia].
    - eapply elem_of_sublist in Hp; [|exact Hsub]. apply list_elem_of_fmap in Hp as (x & -> & Hx). rewrite Forall_forall in Hlen. by apply Hlen. }
  apply sublist_length in Hsub. rewrite length_fmap in Hsub.
  destruct (inbound_loop rangeB clock peerA ps fuel r [] fB ltac:(lia) Hcan Hpk ltac:(left; cbn; lia)) as (_ & Hdev & _); [by rewrite Hv, Hb, app_nil_r | exact Hdev].
Qed.
Definition quiet_net : Net := MkNet 1 (fun _ => []) false false (fun _ => None) (fun _ => true) (fun _ => "")
  (fun _ => Err "off"%string) (fun k => if String.eqb k "b" then Ok 7%nat else Err "no session"%string) (fun _ => None).
Definition some_reads : list (Net * list byte) :=
  [(quiet_net, packet vip_a vip_b); (quiet_net, packet vip_a vip_c); (quiet_net, packet vip_a outsider)].
Lemma tunnel_delivers_witness :
  let fA := forwarder node_a None in let fB := forwarder node_b None in
  let b := bytes_on (Dialed 7) (wire (tunReadLoop elements some_reads fA)) in
  device (handleInboundStream elements (fun _ => 1) (fun _ => true) "a" 4 (stream_of [b]) fB) = [packet vip_a vip_b] /\
  exists ps, ps `sublist_of` some_reads.*2 /\ b = concat (tun_frame <$> ps) /\
    Forall (fun p => addressed elements (router fA) (routeManager fA) p "b") ps /\
    device (handleInboundStream elements (fun _ => 1) (fun _ => true) "a" 4 (stream_of [b]) fB) =
      device fB ++ filter (fun p => admitted elements fB "a" p) ps.
Proof.
  split; [vm_compute; reflexivity|].
  apply (tunnel_delivers (fun _ => "b"%string)); [| done | done | done | cbn; lia | vm_compute; reflexivity].
  assert (dials (fun _ => "b"%string) quiet_net) as Hd
    by (intros k c; cbn; destruct (String.eqb_spec k "b"); [intros _; congruence | done]).
  repeat constructor; try exact Hd; vm_compute; congruence.
Defined.

(** *** The test of the source *)

(** C13. Which sources a peer may use: its own address; any address in the mesh
    that the table knows, whoever it belongs to; any address in the mesh when
    the table does not know the peer; and outside the mesh an address whose
    best network has the peer's address as its gateway. *)
Theorem source_test_exact range r rm p k :
  validateSourceIP range r rm p k = true <->
  exists src, parseSrcIP p = Some src /\
    ((ResolvePeer r k = None /\ k <> ""%string /\ IsInSubnet r src = true) \/
     (exists vip, ResolvePeer r k = Some vip /\
        (ip_Equal vip src = true \/
         (IsInSubnet r src = true /\ is_Some (ResolveIP r src)) \/
         (IsInSubnet r src = false /\ exists m, rm = Some m /\
            Subnets.ResolveSubnetProxy range src m = Some (ip_String vip))))).
Proof.
  unfold validateSourceIP. destruct (parseSrcIP p) as [src|]; [|split; [done | by intros (? & ? & _)]].
  destruct (ResolvePeer r k) as [vip|] eqn:Er.
  - destruct (ip_Equal vip src) eqn:Eq; [split; [|done]; intros _; exists src; eauto 8|].
    destruct (IsInSubnet r src) eqn:Ein; cbn [andb negb].
    + case_bool_decide as Hs; split; try done; [intros _; exists src; eauto 9|].
      by intros (? & [= <-] & [(? & _)|(? & [= <-] & [?|[[_ ?]|[? _]]])]); congruence || done.
    + destruct rm as [m|]; cbn.
      * destruct (Subnets.ResolveSubnetProxy range src m) as [gw|] eqn:Eg; (split; [|]).
        -- intros ->%String.eqb_eq. exists src. split; [done|]. right. exists vip. split; [done|]. right. right. eauto.
        -- intros (? & [= <-] & [(? & _)|(? & [= <-] & [?|[[? _]|[_ (? & [= <-] & ?)]]])]); try congruence. apply String.eqb_eq. congruence.
        -- done.
        -- intros (? & [= <-] & [(? & _)|(? & [= <-] & [?|[[? _]|[_ (? & [= <-] & ?)]]])]); congruence.
      * split; [done|]. intros (? & [= <-] & [(? & _)|(? & [= <-] & [?|[[? _]|[_ (? & ? & ?)]]])]); congruence.
  - destruct (String.eqb_spec k "") as [->|Hk].
    + split; [done|]. intros (? & _ & [(_ & ? & _)|(? & ? & _)]); congruence || done.
    + split; [intros Hin; exists src; eauto 6|]. by intros (? & [= <-] & [(_ & _ & ?)|(? & ? & _)]).
Qed.

(** A peer may send in the name of another one, and of the receiver. *)
Example member_addresses_accepted :
  validateSourceIP elements node_b None (packet vip_c vip_b) "a" = true /\
  validateSourceIP elements node_b None (packet vip_b vip_b) "a" = true /\
  validateSourceIP elements node_b None (packet [x0a; x64; x00; xc8] vip_b) "a" = false /\
  validateSourceIP elements node_b None (packet [x0a; x64; x00; xc8] vip_b) "newcomer" = true.
Proof. split_and!; vm_compute; reflexivity. Qed.

(** *** The raw plane *)

(** C26. A packet that the access rules refuse reaches the device when the peer
    sends it over its raw plane: only the source is tested there. *)
Theorem raw_plane_skips_acl range t i pd p f :
  Punch.heap (planes f) !! i = Some pd -> Punch.closed pd = false -> Punch.isProbePacket p = false ->
  Punch.peerKey pd <> ""%string -> ValidateSourceIP range f p (Punch.peerKey pd) = true ->
  acl_allows (aclEngine f) p (Punch.peerKey pd) = false ->
  device (handle_datagram range t (fun _ => true) i p f) = device f ++ [p] /\
  device (handle_inbound range t (fun _ => true) (Punch.peerKey pd) p f) = device f.
Proof.
  intros Hi Hc Hp Hk Hv Ha. split.
  - unfold handle_datagram. rewrite Hi. unfold Punch.Feed. cbv zeta. rewrite Hc, Hp. cbn [Punch.set_rx Punch.peerKey]. by rewrite Hv.
  - destruct (handle_inbound_spec range t (Punch.peerKey pd) p f) as (_ & -> & _).
    unfold admitted. by rewrite Ha, andb_false_r, app_nil_r.
Qed.
Definition deny_all : option ACLEngine :=
  match NewACLEngine (MkACLConfig true ACLActionDeny []) with Ok e => Some e | Err _ => None end.
Definition with_plane (f : TunForwarder) : TunForwarder :=
  set_planes (Punch.Register (Punch.MkPlane "198.51.100.7:4000" "a" 0 0 1 0 false 0) "a" (planes f)).2 f.
Lemma raw_plane_skips_acl_witness :
  let f := with_plane (forwarder node_b deny_all) in let p := packet vip_a vip_b in
  device (handle_datagram elements 2 (fun _ => true) 0 p f) = device f ++ [p] /\
  device (handle_inbound elements 2 (fun _ => true) "a" p f) = device f.
Proof.
  apply (raw_plane_skips_acl elements 2 0 (Punch.MkPlane "198.51.100.7:4000" "a" 0 0 1 0 false 0)); vm_compute; congruence || reflexivity.
Defined.

(** A packet of more than 1500 bytes leaves with its length in front; the
    receiver takes the length for the packet and finds no source in it. *)
Lemma large_packet_lost range t dev_ok pd pd' p f udp d :
  1500 < len p <= maxTunPacketSize ->
  Punch.Write udp (tun_frame p) pd = (Ok (len (tun_frame p)), Some d, pd') ->
  forall i, device (handle_datagram range t dev_ok i d f) = device f.
Proof.
  unfold maxTunPacketSize. intros Hl Hw i. unfold Punch.Write in Hw. destruct (Punch.closed pd); [done|]. destruct udp; [done|].
  injection Hw as <- _. unfold tun_frame. rewrite u32_small by lia. rewrite Punch.unframe_frame by lia.
  rewrite (proj2 (Z.leb_gt _ _)) by lia. unfold handle_datagram. destruct (Punch.heap (planes f) !! i) as [q|]; [|done].
  assert (parseSrcIP (be_bytes 4 (len p) ++ p) = None) as Hs.
  { unfold parseSrcIP, parseIP. rewrite (proj2 (Z.ltb_ge _ _)) by (rewrite length_app, be_bytes_length; lia).
    assert (byte_at (be_bytes 4 (len p) ++ p) 0 = 0) as ->; [|done].
    change (byte_at (be_bytes 4 (len p) ++ p) 0) with (Z_of_byte (byte_of_Z (len p / 2 ^ 24))). rewrite Z_of_byte_of_Z.
    rewrite Z.div_small by lia. done. }
  unfold Punch.Feed. destruct (Punch.closed q); [done|]. cbv zeta. destruct (Punch.isProbePacket _); [done|].
  unfold ValidateSourceIP, validateSourceIP. by rewrite Hs.
Qed.

End Forward.
