(* ===== verification/TunSetup.v ===== *)
(** * The virtual interface of a node (internal/mesh/tun_integration.go)

    How a node chooses its virtual address, sets its interface up and keeps
    the routes of its peers: the parts of Ipam.v, Router.v, SubnetRoutes.v
    and TunForward.v put together. The commands given to [ip] are kept with
    the interface; whether one fails, and what it prints, is an argument. *)
From stdpp Require Import prelude gmap strings list.
From Stdlib Require Import Strings.Byte ZArith Lia.
From S2P Require Import Prelude GoBytes GoNet GoNetParse Ipam Router Acl ConfigFile SubnetRoutes.
Import Router.TunRouter.
Local Open Scope Z_scope.

Module TunSetup.

Abbreviation args := (list string).

(** [node] is what [TUNIntegration] and the node itself hold: the key of the
    node, the configuration, the announced address and networks of peers are
    callbacks elsewhere. *)
Record TUNIntegration : Type := MkTun {
  Allocator : Ipam.Allocator; router : Router; routeManager : Subnets.RouteManager; VirtualIP : IP; IfName : string;
  aclEngine : option Acl.ACLEngine; commands : list args
}.
Definition set_router (r : Router) (ti : TUNIntegration) : TUNIntegration :=
  MkTun (Allocator ti) r (routeManager ti) (VirtualIP ti) (IfName ti) (aclEngine ti) (commands ti).
Definition set_routeManager (rm : Subnets.RouteManager) (ti : TUNIntegration) : TUNIntegration :=
  MkTun (Allocator ti) (router ti) rm (VirtualIP ti) (IfName ti) (aclEngine ti) (commands ti).
Definition set_VirtualIP (ip : IP) (ti : TUNIntegration) : TUNIntegration :=
  MkTun (Allocator ti) (router ti) (routeManager ti) ip (IfName ti) (aclEngine ti) (commands ti).
Definition run (cs : list args) (ti : TUNIntegration) : TUNIntegration :=
  MkTun (Allocator ti) (router ti) (routeManager ti) (VirtualIP ti) (IfName ti) (aclEngine ti) (commands ti ++ cs).

(** ** Addresses and networks *)

Definition host_text (ip : IP) (bits : Z) : string := (ip_String ip +:+ "/" +:+ itoa bits)%string.
Definition addrWithPrefix (ip : IP) (n : IPNet) : string := host_text ip (Mask_Size (net_Mask n)).1.

Definition cidrOverlap (a b : option IPNet) : bool :=
  match a, b with
  | Some a, Some b => Contains a (net_IP b) || Contains b (net_IP a)
  | _, _ => false
  end.

(** The shift is on a 64-bit [int]. *)
Definition usableHostsInSubnet (cidr : string) : Z :=
  match ParseCIDR cidr with
  | None => 254
  | Some (_, ipNet) =>
      let '(ones, bits) := Mask_Size (net_Mask ipNet) in
      if (bits =? 0) || (bits <=? ones) then 254
      else
        let hosts := i64 (i64 (2 ^ (bits - ones)) - 2) in
        if hosts <? 1 then 254 else hosts
  end.

(** *** [ip -o addr show] *)

Definition Contains_str (s sub : string) : bool := match String.index 0 sub s with Some _ => true | None => false end.
Definition from (k : nat) (s : string) : string := String.substring k (String.length s - k) s.
Definition is_blank (b : byte) : bool := bool_decide (Z_of_byte b ∈ [9; 10; 11; 12; 13; 32]).
(** [strings.Fields] on ASCII. *)
Fixpoint fields (l cur : list byte) : list (list byte) :=
  match l with
  | [] => match cur with [] => [] | _ => [cur] end
  | b :: l => if is_blank b then match cur with [] => fields l [] | _ => cur :: fields l [] end else fields l (cur ++ [b])
  end.
Definition Fields (s : string) : list string := string_of_bytes <$> fields (bytes_of_string s) [].
Definition HasPrefix (s p : string) : bool := String.prefix p s.
Definition TrimSuffix (s suffix : string) : string :=
  let k := (String.length s - String.length suffix)%nat in
  if (String.length suffix <=? String.length s)%nat && String.eqb (from k s) suffix then String.substring 0 k s else s.

(** One line: the entry reported, if there is a conflict. *)
Definition conflict_line (meshNet : IPNet) (line : string) : option string :=
  match String.index 0 "inet " line with
  | None => None
  | Some inetIdx =>
      let rest := from (inetIdx + 5) line in
      match String.index 0 " " rest with
      | None => None
      | Some spaceIdx =>
          let addrCIDR := String.substring 0 spaceIdx rest in
          if HasPrefix addrCIDR "169.254." || HasPrefix addrCIDR "127." then None
          else match ParseCIDR addrCIDR with
               | None => None
               | Some (_, existingNet) =>
                   if cidrOverlap (Some meshNet) (Some existingNet) then
                     match Fields line with
                     | _ :: p :: _ =>
                         let ifName := TrimSuffix p ":" in
                         if String.eqb ifName "mesh0" || HasPrefix ifName "mesh" then None
                         else Some (addrCIDR +:+ " on " +:+ ifName)%string
                     | _ => None
                     end
                   else None
               end
      end
  end.
(** [output] is what the command printed, in lines, unless it failed. *)
Definition detectSubnetConflict (meshCIDR : string) (output : option (list string)) : list string :=
  match ParseCIDR meshCIDR, output with
  | Some (_, meshNet), Some ls => omap (conflict_line meshNet) ls
  | _, _ => []
  end.

(** ** Commands *)

Section Commands.
(** What a command that fails prints. *)
Variable exec : args -> option string.

Definition addKernelAddr (ifName : string) (ip : IP) (n : IPNet) : list args :=
  [["addr"; "add"; addrWithPrefix ip n; "dev"; ifName]%string].
Definition removeKernelAddr (ifName : string) (ip : IP) (n : IPNet) : list args :=
  [["addr"; "del"; addrWithPrefix ip n; "dev"; ifName]%string].
Definition host_route (verb : string) (ifName : string) (ip : IP) : args :=
  ["route"; verb; host_text ip 32; "dev"; ifName]%string.
Definition addKernelRoute (ifName : string) (ip : IP) : list args :=
  [host_route "add" ifName ip ++ ["metric"; "0"]%string].
Definition removeKernelRoute (ifName : string) (ip : IP) : list args :=
  let args := host_route "del" ifName ip ++ ["metric"; "0"]%string in
  match exec args with
  | None => [args]
  | Some _ => [args; host_route "del" ifName ip]
  end.

(** The commands run, and whether the interface is configured. *)
Definition configureTUNInterface (ifName : string) (virtualIP : IP) (n : IPNet) (mtu : Z) : bool * list args :=
  let set_mtu := if 0 <? mtu then [["link"; "set"; "mtu"; itoa mtu; "dev"; ifName]%string] else [] in
  let add := ["addr"; "add"; addrWithPrefix virtualIP n; "dev"; ifName]%string in
  let up := ["link"; "set"; "up"; "dev"; ifName]%string in
  let route := ["route"; "replace"; IPNet_String n; "dev"; ifName; "metric"; "0"]%string in
  match exec add with
  | Some out =>
      if negb (Contains_str out "File exists") && negb (Contains_str out "Address already assigned")
      then (false, set_mtu ++ [add])
      else match exec up with Some _ => (false, set_mtu ++ [add; up]) | None => (true, set_mtu ++ [add; up; route]) end
  | None => match exec up with Some _ => (false, set_mtu ++ [add; up]) | None => (true, set_mtu ++ [add; up; route]) end
  end.
End Commands.

(** ** Setting up *)

Inductive setup_error : Type :=
| NoCIDR | CreateFailed (e : string) | AllocatorFailed (e : Ipam.ipam_error) | BadCIDR | BadStaticIP
| StaticOutside | AllocateFailed (e : Ipam.ipam_error) | ACLFailed (e : Acl.acl_error) | ForwarderFailed (e : string).

Section Setup.
Variable sha256 : list byte -> list byte.
Variable exec : args -> option string.

(** [peerMetaProvider] may be nil; announcements that are no addresses are
    left out. *)
Definition collectPeerVirtualIPs (peers : option (gmap string string)) : gmap string IP :=
  match peers with None => ∅ | Some m => omap ParseIP m end.

Definition choose_ip (mc : Config.MeshConfig) (a : Ipam.Allocator) (ipNet : IPNet) (pubKey : string)
    (peers : option (gmap string string)) : result setup_error IP :=
  if negb (String.eqb (Config.StaticVirtualIP mc) "") then
    match ParseIP (Config.StaticVirtualIP mc) with
    | None => Err BadStaticIP
    | Some ip => if Contains ipNet ip then Ok ip else Err StaticOutside
    end
  else map_err AllocateFailed
         (Ipam.AllocateWithPeers sha256 a pubKey (usableHostsInSubnet (Config.MeshCIDR mc)) (collectPeerVirtualIPs peers)).

Definition acl_for (c : Acl.ACLConfig) : result setup_error (option Acl.ACLEngine) :=
  if Acl.Enabled c || (0 <? len (Acl.Rules c)) then
    map_err ACLFailed (e ← Acl.NewACLEngine c; Ok (Some e))
  else Ok None.

(** [create] is the name of the created device, [start] the error of the
    forwarder. *)
Definition setupTUN (mc : Config.MeshConfig) (ac : Acl.ACLConfig) (pubKey : string) (create : result string string)
    (start : option string) (peers : option (gmap string string)) : result setup_error TUNIntegration :=
  if String.eqb (Config.MeshCIDR mc) "" then Err NoCIDR
  else
    let mtu := Config.z0 (Config.TunMTU mc) Config.DefaultTunMTU in
    name ← map_err CreateFailed create;
    alloc ← map_err AllocatorFailed (Ipam.NewAllocator (snd <$> ParseCIDR (Config.MeshCIDR mc)));
    ipNet ← match ParseCIDR (Config.MeshCIDR mc) with Some (_, n) => Ok n | None => Err BadCIDR end;
    virtualIP ← choose_ip mc alloc ipNet pubKey peers;
    let r := SetLocalIP (NewRouter (Some ipNet) pubKey) virtualIP in
    acl ← acl_for ac;
    match start with
    | Some e => Err (ForwarderFailed e)
    | None =>
        let cs := (configureTUNInterface exec name virtualIP ipNet mtu).2 in
        Ok (MkTun alloc r (Subnets.NewRouteManager name) virtualIP name acl cs)
    end.

(** ** Peers *)

(** A node without an interface ignores all of these. *)
Definition AddPeerVirtualIPRoute (peerPubKey virtualIP : string) (ti : TUNIntegration) : TUNIntegration :=
  match ParseIP virtualIP with
  | None => ti
  | Some ip =>
      if negb (IsInSubnet (router ti) ip) then ti
      else if ip_Equal (VirtualIP ti) ip then ti
      else run (addKernelRoute (IfName ti) ip) (set_router (AddRoute (router ti) ip peerPubKey) ti)
  end.

Definition RemovePeerVirtualIPRoute (peerPubKey : string) (ti : TUNIntegration) : TUNIntegration :=
  match RemoveRoute (router ti) peerPubKey with
  | (_, None) => ti
  | (r, Some ip) => run (removeKernelRoute exec (IfName ti) ip) (set_router r ti)
  end.

Definition AddPeerSubnetProxies (range : gset string -> list string) (peerPubKey virtualIP : string) (subnets : list string)
    (ti : TUNIntegration) : TUNIntegration :=
  set_routeManager (Subnets.AddPeerSubnets range peerPubKey virtualIP subnets (routeManager ti)) ti.
Definition RemovePeerSubnetProxies (range : gset string -> list string) (peerPubKey : string) (ti : TUNIntegration)
  : TUNIntegration :=
  set_routeManager (Subnets.RemovePeerSubnets range peerPubKey (routeManager ti)) ti.
Definition RemoveAllTUNRoutesForPeer (range : gset string -> list string) (peerPubKey : string) (ti : TUNIntegration)
  : TUNIntegration :=
  RemovePeerSubnetProxies range peerPubKey (RemovePeerVirtualIPRoute peerPubKey ti).

(** The address afterwards and whether it changed. *)
Definition ReallocateAfterMeta (mc : Config.MeshConfig) (pubKey : string) (peerIPs : gmap string IP) (ti : TUNIntegration)
  : IP * bool * TUNIntegration :=
  if negb (String.eqb (Config.StaticVirtualIP mc) "") then (VirtualIP ti, false, ti)
  else match Ipam.AllocateWithPeers sha256 (Allocator ti) pubKey (usableHostsInSubnet (Config.MeshCIDR mc)) peerIPs with
       | Err _ => (VirtualIP ti, false, ti)
       | Ok newIP =>
           if ip_Equal newIP (VirtualIP ti) then (VirtualIP ti, false, ti)
           else
             let oldIP := VirtualIP ti in
             let ti := set_VirtualIP newIP (set_router (SetLocalIP (router ti) newIP) ti) in
             let n := Ipam.subnet (Allocator ti) in
             (newIP, true, run (removeKernelAddr (IfName ti) oldIP n ++ addKernelAddr (IfName ti) newIP n) ti)
       end.

(** The commands of [teardownTUN]; [order] and [order'] are the orders of the
    two maps. *)
Definition teardownTUN (order order' : list string) (ti : TUNIntegration) : list args :=
  (s ← order;
   match AllRoutes (router ti) !! s with
   | Some pubKey => if IsSelf (router ti) pubKey then []
                    else match ParseIP s with Some ip => removeKernelRoute exec (IfName ti) ip | None => [] end
   | None => []
   end) ++
  ((fun cidr => ["route"; "del"; cidr; "dev"; IfName ti]%string) <$> order').
End Setup.

(** ** The choice of the address *)

Section Choice.
Variable sha256 : list byte -> list byte.

Definition not_smaller (peerIPs : gmap string IP) (pubKey : string) (ip : IP) : Prop :=
  forall k ip', peerIPs !! k = Some ip' -> ip_String ip' = ip_String ip -> String.ltb k pubKey = false.

Lemma peers_loop_yields a key hosts peerIPs tries : forall salt ip,
  Ipam.peers_loop sha256 tries salt a key hosts (list_to_set (ip_String <$> (map_to_list peerIPs).*2)) peerIPs = Ok ip ->
  (exists j, Ipam.hostNumberToIP a j = Some ip) /\ not_smaller peerIPs key ip.
Proof.
  induction tries as [|tries IH]; intros salt ip; [done|]. cbn [Ipam.peers_loop].
  destruct (Ipam.hostNumberToIP _ _) as [cand|] eqn:Ec; [|apply IH].
  assert (forall k ip', peerIPs !! k = Some ip' -> ip_String ip' = ip_String cand ->
    ip_String cand ∈@{gset string} list_to_set (ip_String <$> (map_to_list peerIPs).*2)) as Hcl.
  { intros k ip' Hk E. apply elem_of_list_to_set, list_elem_of_fmap. exists ip'. split; [done|].
    apply list_elem_of_fmap. exists (k, ip'). split; [done | by apply elem_of_map_to_list]. }
  case_bool_decide as Hc; cbn [negb].
  - destruct (existsb _ _) eqn:Ey; cbn [negb]; [apply IH|]. intros [= <-]. split; [eauto|]. intros k ip' Hk E.
    apply not_true_iff_false. intros Hlt. apply not_true_iff_false in Ey. apply Ey. apply existsb_exists. exists (k, ip').
    split; [apply list_elem_of_In; by apply elem_of_map_to_list|]. by rewrite E, String.eqb_refl.
  - intros [= <-]. split; [eauto|]. intros k ip' Hk E. destruct Hc. eauto.
Qed.

(** The address of a node that has none in its configuration is a host
    address of the mesh, and no peer with a smaller key announces it; a
    configured one lies in the mesh. *)
Theorem virtual_ip_chosen mc a n pubKey peers ip :
  choose_ip sha256 mc a n pubKey peers = Ok ip ->
  if String.eqb (Config.StaticVirtualIP mc) "" then
    (exists j, Ipam.hostNumberToIP a j = Some ip) /\ not_smaller (collectPeerVirtualIPs peers) pubKey ip
  else ParseIP (Config.StaticVirtualIP mc) = Some ip /\ Contains n ip = true.
Proof.
  unfold choose_ip. destruct (String.eqb _ ""); cbn [negb].
  - unfold Ipam.AllocateWithPeers. destruct (_ <? 1); [done|]. destruct (_ <? _); [done|].
    destruct (Ipam.peers_loop _ _ _ _ _ _ _ _) as [ip'|] eqn:E; [|done]. intros [= <-]. by eapply peers_loop_yields.
  - destruct (ParseIP _) as [ip'|]; [|done]. destruct (Contains n ip') eqn:Ec; [|done]. by intros [= <-].
Qed.

(** A mesh of two addresses cannot be used: the number of hosts is then taken
    to be 254. *)
Lemma two_addresses_unusable cidr a ip0 n mc pubKey peers :
  ParseCIDR cidr = Some (ip0, n) -> Ipam.NewAllocator (Some n) = Ok a -> Ipam.hostBits a = 1 ->
  Config.MeshCIDR mc = cidr -> Config.StaticVirtualIP mc = ""%string ->
  choose_ip sha256 mc a n pubKey peers = Err (AllocateFailed (Ipam.TooManyHosts 254 2)).
Proof.
  intros Hp Ha Hb Hc Hs. unfold choose_ip. rewrite Hs, Hc. cbn [String.eqb negb]. unfold usableHostsInSubnet. rewrite Hp.
  unfold Ipam.NewAllocator in Ha. destruct (Mask_Size (net_Mask n)) as [ones bits]. destruct (bits =? 0); [done|].
  destruct (63 <? _); [done|]. destruct (_ <? 2); [done|]. injection Ha as <-. cbn [Ipam.hostBits] in Hb. rewrite Hb in *.
  cbn [orb]. rewrite (proj2 (Z.leb_gt bits ones)) by lia. reflexivity.
Qed.

(** In every other mesh the two counts agree. *)
Lemma usable_hosts_agree cidr a ip0 n :
  ParseCIDR cidr = Some (ip0, n) -> Ipam.NewAllocator (Some n) = Ok a -> 2 <= Ipam.hostBits a ->
  usableHostsInSubnet cidr = Ipam.usableHosts a.
Proof.
  intros Hp Ha Hb. unfold usableHostsInSubnet. rewrite Hp. unfold Ipam.NewAllocator in Ha.
  destruct (Mask_Size (net_Mask n)) as [ones bits]. destruct (bits =? 0); [done|].
  destruct (Z.ltb_spec 63 (bits - ones)) as [|Hle]; [done|]. destruct (Z.ltb_spec (i64 (2 ^ (bits - ones))) 2) as [|H2]; [done|].
  injection Ha as <-. cbn [Ipam.hostBits Ipam.usableHosts] in *. cbn [orb]. rewrite (proj2 (Z.leb_gt bits ones)), (proj2 (Z.leb_le 2 _)) by lia.
  assert (bits - ones <= 62) as H62.
  { destruct (decide (bits - ones = 63)) as [E|]; [|lia]. rewrite E in H2. change (i64 (2 ^ 63)) with (- 2 ^ 63) in H2. lia. }
  pose proof (Z.pow_le_mono_r 2 2 (bits - ones) ltac:(lia) Hb) as Hlo. pose proof (Z.pow_le_mono_r 2 (bits - ones) 62 ltac:(lia) H62) as Hhi.
  assert (forall z, - 2 ^ 63 <= z < 2 ^ 63 -> i64 z = z) as Hi by (intros z Hz; unfold i64; rewrite Z.mod_small by lia; lia).
  rewrite (Hi (2 ^ (bits - ones))) by lia. rewrite Hi by lia. by rewrite (proj2 (Z.ltb_ge _ _)) by lia.
Qed.
End Choice.

(** ** Overlapping networks *)

(** The test of [cidrOverlap] for IPv4: it holds exactly when some address is
    in both networks. *)
Theorem cidrOverlap_iff a b ha hb :
  net_wf a ha 32 -> net_wf b hb 32 ->
  cidrOverlap (Some a) (Some b) = true <-> exists ip, len ip = 4 /\ Contains a ip = true /\ Contains b ip = true.
Proof.
  intros Ha Hb. pose proof Ha as [_ Hah Hal _ _ _]. pose proof Hb as [_ Hbh Hbl _ _ _]. unfold cidrOverlap.
  assert (forall n h ip, net_wf n h 32 -> len ip = 4 -> Contains n ip = true <-> be_Z ip / 2 ^ h = be_Z (net_IP n) / 2 ^ h) as HC
    by (intros n h ip Hn Hl; rewrite (Contains_spec n h 32) by (done || lia); apply bool_decide_eq_true).
  rewrite orb_true_iff, (HC a ha), (HC b hb) by (done || lia). split.
  - intros [E|E]; [exists (net_IP b) | exists (net_IP a)]; (split; [lia|]); rewrite (HC a ha), (HC b hb) by (done || lia); done.
  - intros (ip & Hl & E1 & E2). rewrite (HC a ha) in E1 by done. rewrite (HC b hb) in E2 by done.
    assert (forall x y h k, 0 <= h <= k -> x / 2 ^ h = y / 2 ^ h -> x / 2 ^ k = y / 2 ^ k) as Hdiv.
    { intros x y h k Hk E. replace k with (h + (k - h)) by lia. rewrite Z.pow_add_r by lia.
      by rewrite <-!Z.div_div, E by (apply Z.pow_nonzero || apply Z.pow_pos_nonneg; lia). }
    destruct (Z.le_ge_cases ha hb) as [Hle|Hle].
    + right. rewrite <-(Hdiv (be_Z ip) (be_Z (net_IP a)) ha hb) by (done || lia). done.
    + left. rewrite <-(Hdiv (be_Z ip) (be_Z (net_IP b)) hb ha) by (done || lia). done.
Qed.
Definition net24 : IPNet := MkIPNet [x0a; x64; x00; x00] (CIDRMask 24 32).
Definition net16 : IPNet := MkIPNet [x0a; x64; x00; x00] (CIDRMask 16 32).
Lemma net_wf4 ip h : length ip = 4%nat -> 0 <= h <= 32 -> be_Z ip mod 2 ^ h = 0 -> net_wf (MkIPNet ip (CIDRMask (32 - h) 32)) h 32.
Proof. intros Hl Hh Ha. split; cbn [net_IP net_Mask]; try done; [by left | lia]. Qed.
Lemma cidrOverlap_iff_witness :
  cidrOverlap (Some net24) (Some net16) = true /\
  (cidrOverlap (Some net24) (Some net16) = true <-> exists ip, len ip = 4 /\ Contains net24 ip = true /\ Contains net16 ip = true).
Proof.
  split; [vm_compute; reflexivity|].
  apply (cidrOverlap_iff net24 net16 8 16); [apply (net_wf4 [x0a; x64; x00; x00] 8) | apply (net_wf4 [x0a; x64; x00; x00] 16)];
    vm_compute; first [reflexivity | split; congruence].
Defined.

(** ** The routes of the peers *)

(** The host routes that commands leave in the kernel when none fails. *)
Definition host_step (k : gset string) (c : args) : gset string :=
  match c with
  | obj :: verb :: h :: _ =>
      if String.eqb obj "route" then
        if String.eqb verb "add" then {[h]} ∪ k else if String.eqb verb "del" then k ∖ {[h]} else k
      else k
  | _ => k
  end.
Definition hosts (cs : list args) : gset string := foldl host_step ∅ cs.

Inductive op : Type :=
| PeerAddress (k vip : string) | PeerGone (k : string) | PeerLeft (k : string)
| PeerNets (k vip : string) (nets : list string) | Reallocate (peerIPs : gmap string IP).

Section Routes.
Variables (sha256 : list byte -> list byte) (range : gset string -> list string) (mc : Config.MeshConfig) (pubKey : string).

Definition run_op (o : op) (ti : TUNIntegration) : TUNIntegration :=
  match o with
  | PeerAddress k vip => AddPeerVirtualIPRoute k vip ti
  | PeerGone k => RemovePeerVirtualIPRoute (fun _ => None) k ti
  | PeerLeft k => RemoveAllTUNRoutesForPeer (fun _ => None) range k ti
  | PeerNets k vip nets => AddPeerSubnetProxies range k vip nets ti
  | Reallocate peerIPs => (ReallocateAfterMeta sha256 mc pubKey peerIPs ti).2
  end.

Record installed (ti : TUNIntegration) : Prop := {
  in_routes s k : ipToPeer (router ti) !! s = Some k -> k <> localPubKey (router ti) ->
    (s +:+ "/32")%string ∈ hosts (commands ti) /\ exists ip, ip_String ip = s /\ IsInSubnet (router ti) ip = true
}.

Lemma append_inj a b s : (a +:+ s = b +:+ s)%string -> a = b.
Proof.
  intros E. apply (f_equal bytes_of_string) in E. rewrite !bytes_of_string_app in E. apply app_inv_tail in E.
  by rewrite <-(string_of_bytes_of_string a), <-(string_of_bytes_of_string b), E.
Qed.
Lemma hosts_app cs cs' : hosts (cs ++ cs') = foldl host_step (hosts cs) cs'.
Proof. unfold hosts. by rewrite foldl_app. Qed.

Lemma without_key_sub r k s p : without_key r k !! s = Some p -> ipToPeer r !! s = Some p.
Proof. unfold without_key. destruct (peerToIP r !! k); [|done]. by intros [_ ?]%lookup_delete_Some. Qed.

(** The interface changes only where the router and the commands do. *)
Lemma installed_mono ti ti' :
  localPubKey (router ti') = localPubKey (router ti) -> subnet (router ti') = subnet (router ti) ->
  (forall s k, ipToPeer (router ti') !! s = Some k -> k <> localPubKey (router ti) -> ipToPeer (router ti) !! s = Some k) ->
  (forall s k, ipToPeer (router ti') !! s = Some k -> k <> localPubKey (router ti) ->
     (s +:+ "/32")%string ∈ hosts (commands ti) -> (s +:+ "/32")%string ∈ hosts (commands ti')) ->
  installed ti -> installed ti'.
Proof.
  intros E1 E2 Hsub Hh [Hi]. split. intros s k Hs Hk. rewrite E1 in Hk. destruct (Hi s k) as (H1 & ip & H2 & H3); [by apply Hsub | done|].
  split; [by eapply Hh|]. exists ip. split; [done|]. revert H3. unfold IsInSubnet. by rewrite E2.
Qed.

Lemma remove_installed k ti : installed ti -> installed (RemovePeerVirtualIPRoute (fun _ => None) k ti).
Proof.
  intros Hi. unfold RemovePeerVirtualIPRoute, RemoveRoute. destruct (String.eqb _ _); [done|].
  destruct (peerToIP (router ti) !! k) as [ip|]; [|done]. eapply installed_mono; [..|exact Hi]; try done.
  - cbn. by intros s k' [_ ?]%lookup_delete_Some.
  - cbn. intros s k' [Hne _]%lookup_delete_Some _ Hin. rewrite hosts_app. cbn. apply elem_of_difference. split; [done|].
    rewrite elem_of_singleton. unfold host_text. change (itoa 32) with "32"%string. intros E. apply Hne. symmetry.
    eapply (append_inj _ _ "/32"). exact E.
Qed.

Lemma run_op_installed o ti : installed ti -> installed (run_op o ti).
Proof.
  intros Hi. destruct o as [k vip | k | k | k vip nets | peerIPs]; cbn [run_op].
  - unfold AddPeerVirtualIPRoute. destruct (ParseIP vip) as [ip|]; [|done].
    destruct (IsInSubnet (router ti) ip) eqn:Ein; cbn [negb]; [|done]. destruct (ip_Equal _ _); [done|].
    destruct Hi as [Hi]. split. cbn [run set_router router commands].
    change (localPubKey (AddRoute (router ti) ip k)) with (localPubKey (router ti)). intros s k'.
    rewrite AddRoute_ipToPeer, hosts_app. cbn. change (IsInSubnet (AddRoute (router ti) ip k)) with (IsInSubnet (router ti)).
    intros [[<- <-]|[Hne [_ Hs%without_key_sub]%lookup_delete_Some]]%lookup_insert_Some Hk.
    + split; [|by exists ip]. unfold host_text. change (itoa 32) with "32"%string. set_solver.
    + destruct (Hi s k' Hs Hk) as [H1 H2]. split; [set_solver | done].
  - by apply remove_installed.
  - apply (remove_installed k) in Hi. unfold RemoveAllTUNRoutesForPeer, RemovePeerSubnetProxies. destruct Hi as [Hi]. by split.
  - destruct Hi as [Hi]. by split.
  - unfold ReallocateAfterMeta. destruct (negb _); [done|]. destruct (Ipam.AllocateWithPeers _ _ _ _ _) as [ip|]; [|done].
    destruct (ip_Equal _ _); [done|]. eapply installed_mono; [..|exact Hi]; try done.
    + cbn. intros s k [[<- <-]|[_ Hs]]%lookup_insert_Some Hk; [done|].
      destruct (localIP (router ti)) as [old|]; [|done]. destruct (String.eqb _ _); [done|]. by apply lookup_delete_Some in Hs as [_ ?].
    + cbn. intros s k _ _ Hin. rewrite hosts_app. exact Hin.
Qed.
End Routes.

(** C27. From the setup of the interface on, through addresses and networks that
    peers announce, peers that leave and a new choice of the node's own
    address, when no command fails: every address in the table that belongs
    to another peer lies in the mesh, and the kernel has a host route for
    it. *)
Theorem peer_routes_installed sha256 exec range mc ac pubKey create start peers ti0 os :
  setupTUN sha256 exec mc ac pubKey create start peers = Ok ti0 ->
  let ti := foldl (fun ti o => run_op sha256 range mc pubKey o ti) ti0 os in
  forall s k, ipToPeer (router ti) !! s = Some k -> k <> pubKey ->
    (s +:+ "/32")%string ∈ hosts (commands ti) /\ exists ip, ip_String ip = s /\ IsInSubnet (router ti) ip = true.
Proof.
  intros Hsetup. assert (installed ti0 /\ localPubKey (router ti0) = pubKey) as [Hi Hk].
  { unfold setupTUN in Hsetup. destruct (String.eqb _ ""); [done|]. cbv zeta in Hsetup.
    destruct (map_err CreateFailed create) as [name|]; [|done]. cbn [mbind result_bind] in Hsetup.
    destruct (map_err AllocatorFailed _) as [alloc|]; [|done]. cbn [mbind result_bind] in Hsetup.
    destruct (ParseCIDR _) as [[? n]|]; [|done]. cbn [mbind result_bind] in Hsetup.
    destruct (choose_ip _ _ _ _ _ _) as [ip|]; [|done]. cbn [mbind result_bind] in Hsetup.
    destruct (acl_for ac) as [acl|]; [|done]. cbn [mbind result_bind] in Hsetup. destruct start; [done|].
    apply Ok_inj in Hsetup as <-. split; [|done]. split. cbn. intros s k [[_ <-]|[_ Hs]]%lookup_insert_Some Hk; [done|].
    by rewrite lookup_empty in Hs. }
  cbn zeta. clear Hsetup. revert ti0 Hi Hk. induction os as [|o os IH]; intros ti0 Hi Hk; cbn [foldl].
  - intros s k Hs Hne. destruct Hi as [Hi]. apply (Hi s k); congruence.
  - apply IH; [by apply run_op_installed|]. rewrite <-Hk.
    destruct o; cbn [run_op]; try done.
    + unfold AddPeerVirtualIPRoute. destruct (ParseIP vip) as [ip|]; [|done]. destruct (negb _); [done|]. by destruct (ip_Equal _ ip).
    + unfold RemovePeerVirtualIPRoute, RemoveRoute. destruct (String.eqb _ _); [done|]. by destruct (peerToIP _ !! _).
    + unfold RemoveAllTUNRoutesForPeer, RemovePeerSubnetProxies, RemovePeerVirtualIPRoute, RemoveRoute.
      destruct (String.eqb _ _); [done|]. by destruct (peerToIP _ !! _).
    + unfold ReallocateAfterMeta. destruct (negb _); [done|]. destruct (Ipam.AllocateWithPeers _ _ _ _ _) as [ip|]; [|done]. by destruct (ip_Equal ip _).
Qed.
Definition a_mesh : Config.MeshConfig :=
  Config.MkMesh 52888 "" true "10.100.0.0/24" [] "" 0 "10.100.0.1" false 0 [].
Definition some_setup : result setup_error TUNIntegration :=
  setupTUN (fun _ => []) (fun _ => None) a_mesh (Acl.MkACLConfig false "" []) "me" (Ok "mesh0"%string) None None.
Definition some_ops : list op :=
  [PeerAddress "a" "10.100.0.5"; PeerAddress "b" "8.8.8.8"; PeerAddress "c" "10.100.0.7"; PeerGone "c"]%string.
Definition some_tun : TUNIntegration :=
  match some_setup with
  | Ok ti => ti
  | Err _ => MkTun (Ipam.MkAllocator net24 8 254) (NewRouter None "") (Subnets.NewRouteManager "") [] "" None []
  end.
Lemma peer_routes_installed_witness :
  let ti := foldl (fun ti o => run_op (fun _ => []) elements a_mesh "me" o ti) some_tun some_ops in
  ipToPeer (router ti) = {["10.100.0.1" := "me"; "10.100.0.5" := "a"]}%string /\
  (forall s k, ipToPeer (router ti) !! s = Some k -> k <> "me"%string ->
    (s +:+ "/32")%string ∈ hosts (commands ti) /\ exists ip, ip_String ip = s /\ IsInSubnet (router ti) ip = true).
Proof.
  split; [vm_compute; reflexivity|].
  apply (peer_routes_installed (fun _ => []) (fun _ => None) elements a_mesh (Acl.MkACLConfig false "" []) "me" (Ok "mesh0"%string) None None).
  vm_compute. reflexivity.
Defined.

(** A peer that takes another address leaves its host route behind. *)
Example moved_peer_keeps_host_route :
  let ti := run_op (fun _ => []) elements a_mesh "me" (PeerGone "a")
    (foldl (fun ti o => run_op (fun _ => []) elements a_mesh "me" o ti) some_tun
       [PeerAddress "a" "10.100.0.5"; PeerAddress "a" "10.100.0.6"]%string) in
  ipToPeer (router ti) = {["10.100.0.1" := "me"]}%string /\ hosts (commands ti) = {["10.100.0.5/32"%string]}.
Proof. split; vm_compute; reflexivity. Qed.

(** The networks a peer announces are not tested, its address is: a default
    route is entered. *)
Example announced_default_route :
  let ti := AddPeerSubnetProxies elements "a" "10.100.0.5" ["0.0.0.0/0"%string] some_tun in
  Subnets.ran (routeManager ti) = [Subnets.RouteAdd "0.0.0.0/0" "10.100.0.5"].
Proof. vm_compute. reflexivity. Qed.
Example detect_examples :
  detectSubnetConflict "10.100.0.0/24" (Some ["1: lo    inet 127.0.0.1/8 scope host lo"; "4: tun0    inet 10.100.0.9/16 scope global tun0";
    "5: mesh0    inet 10.100.0.1/24 scope global mesh0"; "6: eth0    inet 192.168.1.4/24 brd 192.168.1.255 scope global eth0"]%string) =
  ["10.100.0.9/16 on tun0"%string].
Proof. vm_compute. reflexivity. Qed.

End TunSetup.
